(* ===== verification/_CoqProject ===== *)
-Q . S2P
Prelude.v
Errors.v
Effects.v
Ranges.v
StateMachines.v
ExtentMap.v
Handles.v
Ledger.v
SpaceLease.v
Allocator.v
Bytes.v
CacheFormat.v
PackFormat.v
FetchPlan.v
Scheduler.v
Recency.v
PolicyCore.v
ResidencyGate.v
Flights.v
Frequency.v
Parser.v
Sql.v
SlotTable.v
Journal.v
Physical.v
ExtentStore.v
NamespaceDoc.v
Names.v
Namespace.v
NamespaceViews.v
NamespaceSeed.v
Mutation.v
Manifest.v
IndexNames.v
IndexFormat.v
IndexReader.v
IndexCompiler.v
IndexQueries.v
IndexResolve.v
Cbor.v
ManifestCodec.v
CommitChain.v
Objects.v
Publication.v
LifecycleDb.v
Uploads.v
PayloadObjects.v
RemoteReads.v
PayloadLedger.v
CachePins.v
CacheStore.v
CacheReads.v
CacheLive.v
CacheRepair.v
