(* ===== verification/Prelude.v ===== *)
(** * MirageSSD: a verification library

    MirageSSD presents a repository of pages, kept in remote packs, as a local
    writable volume.  Its Rust crates live under [src/crates/].  The engine
    ([mirage-engine]) keeps, per file, a versioned extent map over immutable
    base pages and journaled payloads, a table of open handles, and an index
    of physical slots that hold the payloads.  The metadata database
    ([mirage-db]) makes this durable: the namespace, the extent rows of each
    file version, the journal of local mutations, the physical ledger and the
    cache slot table.  Clean pages are cached in arenas ([mirage-cache]) under
    a byte budget, with a replacement policy and recency lists that choose
    what to drop.  Missing pages are fetched from packs ([mirage-pack]) by
    windows that the scheduler ([mirage-scheduler]) plans, orders, retries and
    paces.  The lifecycles of repositories, pages, sessions, update journals
    and backends are typed state machines ([mirage-types]); an update is
    published by driving its journal machine.

    ** Files and what they model

    - [Prelude]: machine integers with the overflow behaviour of each Rust
      operator (release profile: a plain [+] wraps), tactics, the stable sort,
      sums and counts over lists.
    - [Errors]: [mirage-types] error kinds, codes, retry dispositions, and the
      [Result] monad ([result], with [x ← e; k] for [?]).
    - [Effects]: the state and error monad of the operations that call a
      backend or a database.
    - [Ranges]: checked byte ranges, page arithmetic and the page splitter
      ([bytes.rs], [range.rs]).
    - [StateMachines]: the five machines of [state.rs]/[transition.rs]; the
      class [Machine] is the interface its trace lemmas are stated against.
    - [ExtentMap]: [extent_map.rs] with the durable row of [mirage-db]'s
      [extent.rs]; [content] is its abstract reading, a function from offset
      to byte source.
    - [Handles]: the open-handle table of [handles.rs] and, as specification,
      the list of open handles with the answers its documentation promises and
      the two cases that depart from them.
    - [Ledger], [SpaceLease]: [budget.rs], [reservation_ledger.rs] and
      [space_lease.rs] of [mirage-cache].
    - [Allocator]: the slot index of [allocator.rs].
    - [Bytes], [CacheFormat], [PackFormat]: little-endian fields, the arena
      header, slot metadata, and the pack header, index, footer and plain
      frames.
    - [FetchPlan]: the pack range planner ([range_plan.rs]).
    - [Scheduler]: window coalescing, priority queue with cancellation, bounded
      queue, retry policy with jitter, concurrency controller.
    - [Recency]: the intrusive doubly-linked lists of [segments.rs] and, as
      specification, four plain lists.
    - [PolicyCore]: the LRU, segmented LRU, TinyLFU and 2Q policies.
    - [ResidencyGate]: the read leases and eviction claims of [residency.rs],
      as a step relation over readers and evictors.
    - [Flights]: the single-flight map of [mirage-scheduler], as a step
      relation over the threads that join, lead, publish and wait.
    - [Frequency]: the count-min sketch with doorkeeper of [frequency.rs].
    - [Parser]: the parser monad of the document readers.
    - [Sql]: what SQL statements mean on tables with checks, keys and unique
      indexes, and the errors of [mirage-db].
    - [SlotTable]: the cache slot table ([mirage-db/src/cache.rs]).
    - [Journal]: the mutation journal ([operation.rs], engine [journal.rs]).
    - [Physical]: the physical allocation ledger ([physical.rs]).
    - [ExtentStore]: extent rows, heads and compaction ([extent.rs]).
    - [NamespaceDoc]: checkpoint and delta documents of [mirage-manifest]'s
      [namespace.rs].
    - [Names]: name folding, UTF-8 and the root inode ([inode.rs]).
    - [Namespace], [NamespaceViews], [NamespaceSeed]: the namespace tables and
      operations of [mirage-db/src/namespace.rs], the listings, checkpoints and
      pins computed from them, and the seeding of a volume.
    - [Mutation]: the transactions that change namespace, extents, journal and
      ledger together, with the mutation builder and the map load of
      [mirage-ffi/src/write.rs].
    - [Manifest]: the repository manifest, its path rules and its validation
      ([model.rs], [path.rs], [validate.rs] of [mirage-manifest]).
    - [IndexNames], [IndexFormat], [IndexReader]: the mount index of
      [mirage-index]: the name comparisons (the class [NameOrder], with the
      laws [NameOrderLaws] that both hosts satisfy), the section, record and
      header codecs, and opening an index with all its checks.
    - [IndexCompiler]: the compiler from manifests to index bytes.
    - [IndexQueries], [IndexResolve]: child and path lookup, paged listing and
      the resolution of byte ranges to page spans on an opened index.
    - [Cbor]: what the manifest codec uses of the CBOR library, as a class
      with its laws, and the coding of RFC 8949 as an instance.
    - [ManifestCodec]: the canonical encoding of manifests and its bounded
      decoder ([canonical.rs], [codec.rs], [hash.rs]).
    - [CommitChain]: signed commits, their codec, and the selection of the
      generation chain ([signature.rs], [commit.rs], [chain.rs]).
    - [Objects]: hexadecimal hashes, byte streams, the [ObjectBackend] trait
      as a class, [BackendContract] as what its clients rely on, verified
      readback, and the local backend, which keeps the contract.
    - [Publication]: publishing base and successor generations and recovering
      a repository ([repository_writer.rs], [repository_reader.rs]).
    - [LifecycleDb]: the repository, generation, update, session, lease and pin
      tables of [mirage-db], with the activation of an update
      ([update/activate.rs] of the engine).
    - [Uploads]: the upload session ledger and the resumable publication that
      drives it over a transport ([upload_session.rs],
      [publication_session.rs]).
    - [PayloadObjects]: encrypted frames and the proofs of their sectors
      ([aead.rs], [encrypted_frame.rs], [verified_sector.rs]), and the objects,
      units and batches of the publisher ([mirage-ffi/src/publisher.rs]).
    - [RemoteReads]: the caches and the read path of evicted payloads
      ([remote_cache.rs], [remote_read_impl.rs]).
    - [PayloadLedger]: the publication ledger ([payload_remote.rs]), the
      publisher and the eviction of published payloads.
    - [CachePins]: the pin registry that eviction consults ([pin.rs],
      [session_pin.rs]) beside the pin table of [LifecycleDb].
    - [CacheStore]: the arena file with its metadata sidecar, the insertion of
      pages and reconciliation ([arena.rs], [shard.rs], [insert.rs],
      [reserve.rs], [reconcile.rs] and what they call), as runs over an
      operating system that answers short, fails or halts the machine; the
      class [Medium] names the slots whose bytes may change by themselves.
    - [CacheReads]: the index of resident pages, guarded and coalesced reads,
      eviction, verification and scrubbing ([index.rs], [lease.rs],
      [evict.rs], [verify.rs], [scrub.rs], [coalesced_read.rs]) and the
      admission of a fetched page ([worker.rs]), with the runs of a cache
      through operations, halts and restarts.
    - [CacheLive], [CacheRepair]: what that cache serves, and what its reads,
      writes and reconciliation do when every call of the system succeeds.

    State is a record per component and an operation is a function that
    returns the new state with its [result]; objects behind a mutex take one
    transition per critical section, and a database transaction is one
    transition that an error leaves undone.  RAII reservations ([Ledger]) and
    the caller protocol of the allocator ([Allocator]) are explicit step
    functions.  Maps are [gmap]s, iterated in key order where the source has a
    [BTreeMap]; a table is a map from its primary key.  A failed [expect] is a
    [Panic] value where the code relies on it not happening ([Recency]).

    ** What is proved

    - Refinement to an abstract object: extent maps denote files
      ([extent_map_refines_file]), handle counters decide what the open
      handles say, as documented but for two cases
      ([handle_table_refines_handles]), linked recency nodes are
      four lists ([recency_refines_lists]), a checkpoint document is the live
      namespace ([checkpoint_readable]).
    - Durability across components: a committed file version is what a reload
      sees ([committed_version_reloads]), journal, ledger and store stay
      consistent over every mix of operations ([volume_operations_durable]),
      acknowledged operations are durable and are what recovery replays
      ([journal_commits_durable], [recovery_replays_acknowledged]), compaction
      keeps what is referenced ([compaction_keeps_current]).
    - Invariants over every run: no slot is owned twice
      ([allocator_no_double_allocation], [physical_ledger_lifecycle]), cache
      slots follow their lifecycle and stale copies are fenced off
      ([cache_slots_lifecycle], [stale_slot_record_refused]), the namespace is
      a forest ([namespace_forest]), the cache envelope holds and equals the
      outstanding tokens ([ledger_envelope_bounded]), policy capacity and
      queue partition ([policy_capacity_bounded]), evictors exclude readers
      ([gate_excludes_readers]), one flight per page
      ([flight_map_single_flight]) that lands once and wakes its waiters.
    - The cache on disk: whatever the operating system answers and wherever the
      machine halts and loses its unsynced bytes, what is read for a page
      hashes to it unless its slot is worn, and verification tells the two apart
      ([cache_serves_pages]); reconciliation frees on disk and in the table
      exactly the slots it lists and leaves nothing for a second run
      ([reconcile_settles]), admitted pages are served
      ([admitted_page_served]), reads and writes that span slots equal those of
      single slots ([coalesced_read_exact],
      [batched_writes_equal_slot_writes]), a created arena opens as declared
      ([created_arena_opens]), and the pins eviction consults are the stored
      ones as long as they are changed through the registry
      ([pin_registry_is_table]).
    - Lifecycle safety over every accepted trace: a dirty page is never
      dropped, an update commits only after each durable step; the lifecycle
      tables keep one active session, update and generation per repository
      ([lifecycle_tables_sound]), and an activation either switches the
      repository or returns it to the generation it had, if it had one
      ([activation_switches_or_returns]).
    - Functional behaviour of planners and tables on every branch: pack
      ranges, fetch windows, space leases, batch reservations, renames,
      listings, seeding.
    - Queries on an opened mount index: lookup finds exactly the child with the
      name ([index_lookup_exact]), paths spelled from the tree resolve to their
      entry ([index_paths_resolve]), listings are the sorted merge of the
      children past the marker ([index_listing_exact]), and a resolved range is
      the page-by-page intersection ([resolve_range_exact]).  An accepted
      manifest is a well-formed tree with exactly covered files
      ([manifest_validation_sound]).
    - Codecs are exact: bytes decode to a value iff they are its encoding
      (packs, checkpoints, slot metadata, index records and header); manifests
      and commits decode from their encoding and never share one
      ([manifest_codec_exact], [commit_codec_exact]).
    - Publication: what is published is recovered on every backend that keeps
      its contract, when every pack is referenced and the manifest fits one read
      ([published_generation_recovers]), a readback that succeeds
      has seen the declared bytes ([readback_verifies]), and the selected chain
      is the longest chain of valid links or the first fork
      ([chain_selection_exact]).  An upload that reports success has bound the
      published bytes, while the clock goes forward
      ([published_object_is_payload]), and completes when the
      transport answers ([publication_completes]).
    - Payloads of a volume: encoded objects read back frame by frame and sector
      by sector ([payload_object_exact], [verified_sector_exact]), a read of an
      evicted payload returns its bytes or fails, whatever the backend answers
      ([evicted_reads_sound]), what was published can be read by
      caches that do not remember it as absent ([published_payload_readable]),
      eviction deletes the files and marks the extents of published, closed and
      unpinned payloads and nothing else ([eviction_deletes_published]), and over every mix of both no payload is
      lost ([payloads_never_lost]).
    - Bounds and termination: sketch estimates, retry limits, shard geometry,
      absence of wrap-around under the stated widths.

    ** Fuel and bounds

    Loops that are not structural take fuel and their theorems show that the
    fuel given by the definitions is enough: the page splitter gets one unit
    per page, the interval coalescer one per interval, the 2Q eviction loop one
    per queued id plus one (each round removes one), ghost trimming one per
    ghost, queue popping one per queued request, and the recency walk two more
    than the number of nodes, past the bound at which the source reports a
    cycle.  The walks of the source that are bounded keep its bound: 256 levels
    for the ancestors of a rename, 128 for an inherited pin, one less than the
    number of nodes for the ascent of the checkpoint reader.  The ascent of the
    manifest validator stops at the number of directories, the binary searches
    of the index get one unit per candidate.  The upload driver gets a bound on
    its iterations, and its theorem shows which is enough; the recursion over
    the sectors of a frame one unit per sector and one more, the batches of a
    read one per frame and one more, a publisher pass one per unit and one
    more, the shrinking of a cache one per entry and one more.  A positional
    read or write gets one unit per byte asked for (a call that moves none is an
    error), a batch of slot writes one per page, a deallocation one per 64 KiB
    chunk and one more.  Width hypotheses
    are those the Rust types give; clocks and sequence counters are assumed not
    to have wrapped only where a theorem says so.

    ** Parameters

    CRC-32 and BLAKE3 are functions given to the codecs and to the namespace;
    the theorems use only the width of their results.  [char::to_uppercase]
    is a parameter of name folding and [CompareStringOrdinal] one of the
    Windows name comparison, with the laws of an order; the volume id one of the namespace, random
    ids arguments of the operations that draw them.  The closures [Handles]
    runs under its lock act on an arbitrary world.  The CBOR library is a
    parameter with its laws, commit signers and verifiers are functions, and
    publication runs against any backend that keeps its contract.  The cipher
    and the tree hash are classes with their documented laws ([AeadLaws],
    [TreeHashLaws]); that a hash identifies its input is the class
    [CollisionFree], used where the code relies on it.  [PayloadHost] is what
    publisher and reader expect of a provider (the objects it reports are served,
    under the id reported and under "drive", which the reader asks for);
    [UploadTransport] what the
    upload driver calls.  Of the files of the cache only bytes written since
    the last sync can be lost: a halt leaves those arbitrary and synced bytes as
    they were, and a database call that reports an error has not committed.
    The bytes of a worn slot may change between any two operations; a read that
    returns other bytes than the medium holds is not modelled.
    Whether a read buffer is aligned is an argument.  Clocks, nonces, measured rates, the answers of the
    file system and of the durability barrier are arguments.

    ** Not modelled

    SQLite itself beyond the meaning of the statements, HTTP, file I/O outside
    the cache arena (and there the Windows variants of the calls and the
    allocation diagnostics; the portable variants are modelled), the ciphers and hashes themselves, key storage, the Windows service, UI, the C
    ABI and the command line, event tracing, the offline predictor and
    simulator.  Of the components modelled in part, what is left is stated with
    them: several indexes over one arena, which the service builds while it
    measures capacity, materializes and mounts, the removal of a repository from
    every table, the single-flight
    sharing and the background pool of remote reads, the signals of the
    publisher thread.  The further tables of the database (remote objects,
    workspace and disk leases), the ghost lists and the adaptive window of the
    cache, the mark set and compaction planner of the engine, the IPC frame
    codec and token bucket are left out. *)
From Stdlib Require Export ZArith Lia Sorted Permutation.
From stdpp Require Export base decidable option numbers strings sorting list gmap.

#[global] Set Default Goal Selector "!".
#[global] Open Scope Z_scope.

(** ** Machine integers

    A [uN] value is a [Z]; the bounds are hypotheses ([in_u64 x]) that the
    invariants carry.  The Rust operators are spelled out: the [checked_*]
    forms return [None] on overflow, the [saturating_*] forms clamp and a
    plain [+] on [u64] is the release-profile wrap-around [wadd_u64]. *)
Definition u8_max : Z := 255.
Definition u16_max : Z := 65535.
Definition u32_max : Z := 4294967295.
Definition u64_max : Z := 18446744073709551615.
Definition i64_max : Z := 9223372036854775807.
Definition i64_min : Z := -9223372036854775808.

Definition in_u8 (x : Z) : Prop := 0 <= x <= u8_max.
Definition in_u32 (x : Z) : Prop := 0 <= x <= u32_max.
Definition in_u64 (x : Z) : Prop := 0 <= x <= u64_max.

Definition checked_add (a b : Z) : option Z :=
  if a + b <=? u64_max then Some (a + b) else None.
Definition checked_sub (a b : Z) : option Z :=
  if b <=? a then Some (a - b) else None.
Definition checked_mul (a b : Z) : option Z :=
  if a * b <=? u64_max then Some (a * b) else None.
Definition checked_add_u32 (a b : Z) : option Z :=
  if a + b <=? u32_max then Some (a + b) else None.
Definition checked_add_i64 (a b : Z) : option Z :=
  if (i64_min <=? a + b) && (a + b <=? i64_max) then Some (a + b) else None.
Definition saturating_add (a b : Z) : Z := Z.min (a + b) u64_max.
Definition saturating_add_u32 (a b : Z) : Z := Z.min (a + b) u32_max.
Definition saturating_mul (a b : Z) : Z := Z.min (a * b) u64_max.
Definition saturating_mul_u32 (a b : Z) : Z := Z.min (a * b) u32_max.
Definition saturating_sub (a b : Z) : Z := Z.max (a - b) 0.
Definition wadd_u64 (a b : Z) : Z := (a + b) mod (u64_max + 1).
Definition wsub_u64 (a b : Z) : Z := (a - b) mod (u64_max + 1).
Definition wmul_u64 (a b : Z) : Z := (a * b) mod (u64_max + 1).

(** [+= 1] on a [u32] counter. *)
Definition wadd_u32 (a b : Z) : Z := (a + b) mod (u32_max + 1).

Definition wsub_u32 (a b : Z) : Z := (a - b) mod (u32_max + 1).

(** [version += 1] on an [i64]. *)
Definition wadd_i64 (a b : Z) : Z := (a + b - i64_min) mod (u64_max + 1) + i64_min.

(** The truncating [as u32] and [as u64] casts. *)
Definition as_u32 (a : Z) : Z := a mod (u32_max + 1).
Definition as_u64 (a : Z) : Z := a mod (u64_max + 1).

Arguments u64_max : simpl never.
Arguments u32_max : simpl never.
Arguments wadd_u64 : simpl never.
Arguments wsub_u64 : simpl never.
Arguments wmul_u64 : simpl never.
Arguments wadd_i64 : simpl never.
Arguments wadd_u32 : simpl never.
Arguments wsub_u32 : simpl never.
Arguments as_u32 : simpl never.
Arguments as_u64 : simpl never.

Declare Scope mirage_scope.
Delimit Scope mirage_scope with mirage.
Notation "a +! b" := (wadd_u64 a b) (at level 50, left associativity) : mirage_scope.
Notation "a -! b" := (wsub_u64 a b) (at level 50, left associativity) : mirage_scope.
Notation "a *! b" := (wmul_u64 a b) (at level 40, left associativity) : mirage_scope.
#[global] Open Scope mirage_scope.

(** Fixed-width identifiers ([PageHash], [RepositoryId], ids of 16 bytes) are
    the integers their big-endian bytes spell: equality and the derived
    lexicographic order on the byte arrays are equality and order on [Z]. *)
Notation Hash := Z (only parsing).

(** [is_power_of_two] on unsigned integers. *)
Definition is_power_of_two (x : Z) : bool := (0 <? x) && (Z.land x (x - 1) =? 0).

(** ** Tactics

    [zcase] splits every boolean comparison on [Z] in the goal; [zbool] turns
    the boolean facts of the context into propositions; [mach] unfolds the
    width constants and calls [lia]. *)
Ltac zbool :=
  repeat match goal with
  | H : (_ <=? _) = true |- _ => apply Z.leb_le in H
  | H : (_ <=? _) = false |- _ => apply Z.leb_gt in H
  | H : (_ <? _) = true |- _ => apply Z.ltb_lt in H
  | H : (_ <? _) = false |- _ => apply Z.ltb_ge in H
  | H : (_ =? _) = true |- _ => apply Z.eqb_eq in H
  | H : (_ =? _) = false |- _ => apply Z.eqb_neq in H
  | H : (_ && _) = true |- _ => apply andb_true_iff in H as [? ?]
  | H : (_ || _) = false |- _ => apply orb_false_iff in H as [? ?]
  | H : negb _ = true |- _ => apply negb_true_iff in H
  | H : negb _ = false |- _ => apply negb_false_iff in H
  end.

Ltac zcase :=
  repeat match goal with
  | |- context [?a <=? ?b] => destruct (Z.leb_spec a b)
  | |- context [?a <? ?b] => destruct (Z.ltb_spec a b)
  | |- context [?a =? ?b] => destruct (Z.eqb_spec a b)
  end.

Ltac zcase_in H :=
  repeat match type of H with
  | context [?a <=? ?b] => destruct (Z.leb_spec a b)
  | context [?a <? ?b] => destruct (Z.ltb_spec a b)
  | context [?a =? ?b] => destruct (Z.eqb_spec a b)
  end.

Ltac mach :=
  unfold saturating_add, saturating_sub, saturating_mul, saturating_add_u32,
    saturating_mul_u32, in_u8, in_u32, in_u64, u8_max, u16_max, u32_max, u64_max,
    i64_max, i64_min in *; lia.

Create HintDb mirage.

(** ** Arithmetic lemmas *)
Lemma wadd_u64_small (a b : Z) : 0 <= a -> 0 <= b -> a + b <= u64_max -> a +! b = a + b.
Proof. intros. unfold wadd_u64. apply Z.mod_small. lia. Qed.

Lemma wadd_u32_small (a b : Z) : 0 <= a -> 0 <= b -> a + b <= u32_max -> wadd_u32 a b = a + b.
Proof. intros. unfold wadd_u32. apply Z.mod_small. lia. Qed.
Lemma wsub_u32_small (a b : Z) : 0 <= b <= a -> a <= u32_max -> wsub_u32 a b = a - b.
Proof. intros. unfold wsub_u32. apply Z.mod_small. lia. Qed.
Lemma wsub_u64_small (a b : Z) : 0 <= b <= a -> a <= u64_max -> a -! b = a - b.
Proof. intros. unfold wsub_u64. apply Z.mod_small. lia. Qed.
Lemma wmul_u64_small (a b : Z) : 0 <= a -> 0 <= b -> a * b <= u64_max -> a *! b = a * b.
Proof. intros. unfold wmul_u64. apply Z.mod_small. nia. Qed.
Lemma as_u32_small (a : Z) : 0 <= a <= u32_max -> as_u32 a = a.
Proof. intros. unfold as_u32. apply Z.mod_small. lia. Qed.
Lemma as_u64_small (a : Z) : 0 <= a <= u64_max -> as_u64 a = a.
Proof. intros. unfold as_u64. apply Z.mod_small. lia. Qed.

Lemma checked_add_Some (a b c : Z) : checked_add a b = Some c <-> a + b <= u64_max /\ c = a + b.
Proof. unfold checked_add. zcase; naive_solver lia. Qed.

Lemma checked_add_fits (a b : Z) : a + b <= u64_max -> checked_add a b = Some (a + b).
Proof. intros. by apply checked_add_Some. Qed.

Lemma checked_add_None (a b : Z) : checked_add a b = None <-> u64_max < a + b.
Proof. unfold checked_add. zcase; naive_solver lia. Qed.

Lemma checked_mul_Some (a b c : Z) : checked_mul a b = Some c <-> a * b <= u64_max /\ c = a * b.
Proof. unfold checked_mul. zcase; naive_solver lia. Qed.

Lemma checked_mul_None (a b : Z) : checked_mul a b = None <-> u64_max < a * b.
Proof. unfold checked_mul. zcase; naive_solver lia. Qed.

Lemma checked_sub_Some (a b c : Z) : checked_sub a b = Some c <-> b <= a /\ c = a - b.
Proof. unfold checked_sub. zcase; naive_solver lia. Qed.

(** ** Stable sort

    [sort_by_key] of the source is a stable sort on a key.  Insertion from the
    right that stops in front of the first element not smaller keeps equal
    keys in their original order. *)
Lemma StronglySorted_mono {A : Type} (R S : A -> A -> Prop) (l : list A) :
  (forall x y, R x y -> S x y) -> StronglySorted R l -> StronglySorted S l.
Proof.
  intros HRS. induction 1 as [|x l Hs IH Hx]; constructor; [done|].
  eapply Forall_impl; [exact Hx|]. simpl; eauto.
Qed.

Section sort_by.
Context {A : Type} (le : A -> A -> bool).

Fixpoint insert_by (x : A) (l : list A) : list A :=
  match l with
  | [] => [x]
  | y :: l' => if le x y then x :: y :: l' else y :: insert_by x l'
  end.

Fixpoint sort_by (l : list A) : list A :=
  match l with
  | [] => []
  | x :: l' => insert_by x (sort_by l')
  end.

Lemma insert_by_perm (x : A) (l : list A) : insert_by x l ≡ₚ x :: l.
Proof.
  induction l as [|y l IH]; simpl; [done|].
  destruct (le x y); [done|]. by rewrite IH, Permutation_swap.
Qed.

Lemma sort_by_perm (l : list A) : sort_by l ≡ₚ l.
Proof. induction l as [|x l IH]; simpl; [done|]. by rewrite insert_by_perm, IH. Qed.

Context (le_total : forall x y, le x y = false -> le y x = true)
        (le_trans : forall x y z, le x y = true -> le y z = true -> le x z = true).

Lemma insert_by_sorted (x : A) (l : list A) :
  StronglySorted (fun a b => le a b = true) l ->
  StronglySorted (fun a b => le a b = true) (insert_by x l).
Proof.
  induction 1 as [|y l Hs IH Hy]; simpl; [repeat constructor|].
  destruct (le x y) eqn:E.
  - constructor; [by constructor|]. constructor; [done|].
    eapply Forall_impl; [exact Hy|]. simpl; eauto.
  - constructor; [done|]. rewrite insert_by_perm. constructor; eauto.
Qed.

Lemma sort_by_sorted (l : list A) : StronglySorted (fun a b => le a b = true) (sort_by l).
Proof. induction l; simpl; [constructor|]. by apply insert_by_sorted. Qed.

Lemma insert_by_le (x : A) (l : list A) :
  Forall (fun y => le x y = true) l -> insert_by x l = x :: l.
Proof. destruct 1 as [|y l H]; simpl; [done|]. by rewrite H. Qed.

Lemma sort_by_id (l : list A) : StronglySorted (fun a b => le a b = true) l -> sort_by l = l.
Proof. induction 1 as [|x l Hs IH Hx]; simpl; [done|]. rewrite IH. by apply insert_by_le. Qed.
End sort_by.

(** The [k]-keyed order on elements with an integer key. *)
Definition key_le {A : Type} (k : A -> Z) (x y : A) : bool := k x <=? k y.
Definition sort_by_key {A : Type} (k : A -> Z) (l : list A) : list A := sort_by (key_le k) l.

Lemma key_le_total {A : Type} (k : A -> Z) (x y : A) : key_le k x y = false -> key_le k y x = true.
Proof. unfold key_le. intros; zbool. apply Z.leb_le. lia. Qed.
Lemma key_le_trans {A : Type} (k : A -> Z) (x y z : A) :
  key_le k x y = true -> key_le k y z = true -> key_le k x z = true.
Proof. unfold key_le. intros; zbool. apply Z.leb_le. lia. Qed.

Lemma sort_by_key_perm {A : Type} (k : A -> Z) (l : list A) : sort_by_key k l ≡ₚ l.
Proof. apply sort_by_perm. Qed.
Lemma sort_by_key_sorted {A : Type} (k : A -> Z) (l : list A) :
  StronglySorted (fun a b => k a <= k b) (sort_by_key k l).
Proof.
  eapply StronglySorted_mono; [|apply (sort_by_sorted (key_le k))];
    [intros a b; apply Z.leb_le|apply key_le_total|apply key_le_trans].
Qed.

(** ** Sums *)
Definition sumZ {A : Type} (f : A -> Z) (l : list A) : Z := foldr (fun x s => f x + s) 0 l.

Lemma sumZ_app {A : Type} (f : A -> Z) (l k : list A) : sumZ f (l ++ k) = sumZ f l + sumZ f k.
Proof. induction l; simpl; lia. Qed.
Lemma sumZ_cons {A : Type} (f : A -> Z) (x : A) (l : list A) : sumZ f (x :: l) = f x + sumZ f l.
Proof. done. Qed.
Lemma sumZ_nonneg {A : Type} (f : A -> Z) (l : list A) : Forall (fun x => 0 <= f x) l -> 0 <= sumZ f l.
Proof. induction 1; simpl; lia. Qed.
Lemma sumZ_perm {A : Type} (f : A -> Z) (l k : list A) : l ≡ₚ k -> sumZ f l = sumZ f k.
Proof. induction 1; simpl; lia. Qed.

(** Counting by a boolean test. *)
Definition cnt {A : Type} (f : A -> bool) (l : list A) : Z := sumZ (fun x => Z.b2z (f x)) l.

Lemma cnt_cons {A : Type} (f : A -> bool) (x : A) (l : list A) : cnt f (x :: l) = Z.b2z (f x) + cnt f l.
Proof. done. Qed.
#[global] Arguments cnt : simpl never.
Lemma cnt_perm {A : Type} (f : A -> bool) (l k : list A) : l ≡ₚ k -> cnt f l = cnt f k.
Proof. apply sumZ_perm. Qed.
#[export] Instance cnt_proper {A : Type} (f : A -> bool) : Proper (Permutation ==> eq) (cnt f).
Proof. intros l k. apply cnt_perm. Qed.
Lemma cnt_bounds {A : Type} (f : A -> bool) (l : list A) : 0 <= cnt f l <= Z.of_nat (length l).
Proof. induction l as [|x l IH]; simpl; [done|]. rewrite cnt_cons. destruct (f x); simpl; lia. Qed.
Lemma cnt_full {A : Type} (f : A -> bool) (l : list A) :
  Z.of_nat (length l) <= cnt f l <-> forallb f l = true.
Proof.
  induction l as [|x l IH]; simpl; [done|]. rewrite cnt_cons. pose proof (cnt_bounds f l).
  destruct (f x); simpl; [rewrite <- IH; lia|]. split; [lia|done].
Qed.
Lemma cnt_pos {A : Type} (f : A -> bool) (l : list A) : 0 < cnt f l <-> existsb f l = true.
Proof.
  induction l as [|x l IH]; simpl; [done|]. rewrite cnt_cons. pose proof (cnt_bounds f l).
  destruct (f x); simpl; [split; [done|lia]|]. rewrite <- IH. lia.
Qed.

(** ** Counting the agents of a concurrent state *)
Definition count_in {A : Type} (f : A -> bool) (m : gmap nat A) : Z := cnt f (map snd (map_to_list m)).
Definition was {A : Type} (f : A -> bool) (o : option A) : bool := match o with Some x => f x | None => false end.

Lemma count_in_set {A : Type} (f : A -> bool) (m : gmap nat A) (a : nat) (x : A) :
  count_in f (<[a := x]> m) = count_in f m + Z.b2z (f x) - Z.b2z (was f (m !! a)).
Proof.
  unfold count_in. destruct (m !! a) as [y|] eqn:E.
  - rewrite <- (insert_delete_id m a y) at 2 by done. rewrite <- insert_delete_eq.
    rewrite !map_to_list_insert by apply lookup_delete_eq. cbn [map snd was]. rewrite !cnt_cons. lia.
  - rewrite map_to_list_insert by done. cbn [map snd was]. rewrite cnt_cons. simpl. lia.
Qed.
Lemma count_in_nonneg {A : Type} (f : A -> bool) (m : gmap nat A) : 0 <= count_in f m.
Proof. apply cnt_bounds. Qed.
Lemma count_in_pos {A : Type} (f : A -> bool) (m : gmap nat A) (a : nat) : was f (m !! a) = true -> 0 < count_in f m.
Proof.
  destruct (m !! a) as [x|] eqn:Ha; [|done]. intros Hx. unfold count_in. apply cnt_pos, existsb_exists. exists x. split; [|done].
  apply in_map_iff. exists (a, x). split; [done|]. by apply list_elem_of_In, elem_of_map_to_list.
Qed.
Lemma count_in_pos_inv {A : Type} (f : A -> bool) (m : gmap nat A) : 0 < count_in f m -> exists a x, m !! a = Some x /\ f x = true.
Proof.
  unfold count_in. intros (x & ([k y] & <- & Hin)%in_map_iff & Hx)%cnt_pos%existsb_exists.
  apply list_elem_of_In, elem_of_map_to_list in Hin. eauto.
Qed.
Lemma count_in_zero {A : Type} (f : A -> bool) (m : gmap nat A) : (forall a, was f (m !! a) = false) -> count_in f m = 0.
Proof.
  intros Hf. pose proof (count_in_nonneg f m). destruct (Z.eq_dec (count_in f m) 0) as [|]; [done|].
  destruct (count_in_pos_inv f m) as (a & x & Ha & Hx); [lia|]. specialize (Hf a). rewrite Ha in Hf. simpl in Hf. congruence.
Qed.
Lemma b2z_le (b c : bool) : (b = true -> c = true) -> Z.b2z b <= Z.b2z c.
Proof. destruct b, c; simpl; lia. Qed.
Lemma count_in_le {A : Type} (f g : A -> bool) (m : gmap nat A) :
  (forall x, f x = true -> g x = true) -> count_in f m <= count_in g m.
Proof.
  intros Hfg. unfold count_in. induction (map snd (map_to_list m)) as [|x l IH]; [done|].
  simpl. rewrite !cnt_cons. pose proof (b2z_le _ _ (Hfg x)). lia.
Qed.

(** Removing the first occurrence of an element. *)
Fixpoint remove_one {A : Type} `{EqDecision A} (x : A) (l : list A) : option (list A) :=
  match l with
  | [] => None
  | y :: l => if decide (x = y) then Some l else cons y <$> remove_one x l
  end.

Lemma remove_one_perm {A : Type} `{EqDecision A} (x : A) (l k : list A) :
  remove_one x l = Some k -> l ≡ₚ x :: k.
Proof.
  revert k. induction l as [|y l IH]; intros k; simpl; [done|]. case_decide; [naive_solver|].
  destruct (remove_one x l) as [k'|]; intros [= <-]. rewrite (IH k') by done. constructor.
Qed.
Lemma remove_one_elem {A : Type} `{EqDecision A} (x : A) (l : list A) :
  x ∈ l -> is_Some (remove_one x l).
Proof.
  induction l as [|y l IH]; simpl; [by intros ?%elem_of_nil|].
  case_decide; [done|]. intros [?|Hin]%elem_of_cons; [done|]. by destruct (IH Hin) as [k ->].
Qed.

(** ** Ordered lists *)
Lemma StronglySorted_snoc {A : Type} (R : A -> A -> Prop) (l : list A) (x : A) :
  StronglySorted R l -> Forall (fun y => R y x) l -> StronglySorted R (l ++ [x]).
Proof.
  induction 1 as [|y l HS IH HF]; intros Hx; simpl; [by repeat constructor|].
  inversion_clear Hx. constructor; [by apply IH|]. apply Forall_app. split; [done|by repeat constructor].
Qed.
Lemma StronglySorted_reverse {A : Type} (R : A -> A -> Prop) (l : list A) :
  StronglySorted (fun x y => R y x) l -> StronglySorted R (reverse l).
Proof.
  induction 1 as [|x l HS IH HF]; [constructor|]. rewrite reverse_cons. apply StronglySorted_snoc; [done|].
  by apply Forall_reverse.
Qed.

Lemma Forall2_reverse_l {A B : Type} (R : A -> B -> Prop) (l : list A) (k : list B) :
  Forall2 R l k -> Forall2 R (reverse l) (reverse k).
Proof. induction 1; [constructor|]. rewrite !reverse_cons. apply Forall2_app; [done|by repeat constructor]. Qed.
