(* ===== verification/Errors.v ===== *)
(** * Error taxonomy

    [mirage-types/src/error.rs], [retry.rs] and the fetch-failure taxonomy of
    [readiness.rs].  [MirageError] keeps the kind, the machine code, the
    static text of the message and the retry disposition; the values a
    [format!] splices into the text and the boxed diagnostic source carry no
    behaviour and are left out.  [result] is Rust's [Result<_, MirageError>],
    with stdpp's [x <- e; k] notation for [?]. *)
From S2P Require Export Prelude.

Inductive MirageErrorKind : Set :=
| InvalidArgument | UnsupportedLayout | ManifestInvalid | IntegrityMismatch | CacheFull
| BackendUnauthenticated | BackendPermissionDenied | BackendRateLimited | BackendUnavailable
| RemoteObjectMissing | RepositoryConflict | UpdateActive | ProviderUnavailable | Io
| Cancelled | DeadlineExceeded | NotImplemented | InternalInvariant.

(** [After] carries the duration in nanoseconds. *)
Inductive RetryDisposition : Set :=
| Never | Immediate | Backoff | After (duration_ns : Z) | UserAction.

#[export] Instance MirageErrorKind_eq_dec : EqDecision MirageErrorKind.
Proof. solve_decision. Defined.
#[export] Instance RetryDisposition_eq_dec : EqDecision RetryDisposition.
Proof. solve_decision. Defined.

Definition default_code (k : MirageErrorKind) : string :=
  match k with
  | InvalidArgument => "MIRAGE_INVALID_ARGUMENT"
  | UnsupportedLayout => "MIRAGE_UNSUPPORTED_LAYOUT"
  | ManifestInvalid => "MIRAGE_MANIFEST_INVALID"
  | IntegrityMismatch => "MIRAGE_INTEGRITY_MISMATCH"
  | CacheFull => "MIRAGE_CACHE_FULL"
  | BackendUnauthenticated => "MIRAGE_BACKEND_UNAUTHENTICATED"
  | BackendPermissionDenied => "MIRAGE_BACKEND_PERMISSION_DENIED"
  | BackendRateLimited => "MIRAGE_BACKEND_RATE_LIMITED"
  | BackendUnavailable => "MIRAGE_BACKEND_UNAVAILABLE"
  | RemoteObjectMissing => "MIRAGE_REMOTE_OBJECT_MISSING"
  | RepositoryConflict => "MIRAGE_REPOSITORY_CONFLICT"
  | UpdateActive => "MIRAGE_UPDATE_ACTIVE"
  | ProviderUnavailable => "MIRAGE_PROVIDER_UNAVAILABLE"
  | Io => "MIRAGE_IO_ERROR"
  | Cancelled => "MIRAGE_CANCELLED"
  | DeadlineExceeded => "MIRAGE_DEADLINE_EXCEEDED"
  | NotImplemented => "MIRAGE_NOT_IMPLEMENTED"
  | InternalInvariant => "MIRAGE_INTERNAL_INVARIANT"
  end.

Definition default_retry (k : MirageErrorKind) : RetryDisposition :=
  match k with
  | CacheFull | BackendUnauthenticated | BackendPermissionDenied | RepositoryConflict
  | ProviderUnavailable => UserAction
  | BackendRateLimited | BackendUnavailable | UpdateActive => Backoff
  | InvalidArgument | UnsupportedLayout | ManifestInvalid | IntegrityMismatch
  | RemoteObjectMissing | Io | Cancelled | DeadlineExceeded | NotImplemented
  | InternalInvariant => Never
  end.

Record MirageError : Set := mkMirageError {
  kind : MirageErrorKind;
  code : string;
  message : string;
  retry : RetryDisposition
}.

#[export] Instance MirageError_eq_dec : EqDecision MirageError.
Proof. solve_decision. Defined.

Definition MirageError_new (k : MirageErrorKind) (c m : string) : MirageError :=
  mkMirageError k c m (default_retry k).
Definition with_retry (e : MirageError) (r : RetryDisposition) : MirageError :=
  mkMirageError (kind e) (code e) (message e) r.

Definition invalid_argument (m : string) : MirageError :=
  MirageError_new InvalidArgument (default_code InvalidArgument) m.
Definition unsupported_layout (m : string) : MirageError :=
  MirageError_new UnsupportedLayout (default_code UnsupportedLayout) m.
Definition manifest_invalid (m : string) : MirageError :=
  MirageError_new ManifestInvalid (default_code ManifestInvalid) m.
Definition integrity_mismatch (m : string) : MirageError :=
  MirageError_new IntegrityMismatch (default_code IntegrityMismatch) m.
Definition cache_full (m : string) : MirageError :=
  MirageError_new CacheFull (default_code CacheFull) m.
Definition repository_conflict (m : string) : MirageError :=
  MirageError_new RepositoryConflict (default_code RepositoryConflict) m.
Definition internal_invariant (m : string) : MirageError :=
  MirageError_new InternalInvariant (default_code InternalInvariant) m.
Definition backend_permission_denied (m : string) : MirageError :=
  MirageError_new BackendPermissionDenied (default_code BackendPermissionDenied) m.
Definition remote_object_missing (m : string) : MirageError :=
  MirageError_new RemoteObjectMissing (default_code RemoteObjectMissing) m.
Definition backend_unavailable (m : string) : MirageError :=
  MirageError_new BackendUnavailable (default_code BackendUnavailable) m.
Definition deadline_exceeded (m : string) : MirageError :=
  MirageError_new DeadlineExceeded (default_code DeadlineExceeded) m.
Definition cancelled (m : string) : MirageError :=
  MirageError_new Cancelled (default_code Cancelled) m.
Definition backend_rate_limited (m : string) (cooldown : option Z) : MirageError :=
  with_retry (MirageError_new BackendRateLimited (default_code BackendRateLimited) m)
    (match cooldown with Some dur => After dur | None => Backoff end).

(** ** Results *)
Inductive result (A : Type) : Type :=
| Ok (a : A)
| Err (e : MirageError).
Arguments Ok {A} a.
Arguments Err {A} e.

#[export] Instance result_ret : MRet result := fun A a => Ok a.
#[export] Instance result_bind : MBind result :=
  fun A B f r => match r with Ok a => f a | Err e => Err e end.

(** [option.ok_or(e)] and [if c { return Err(e) }]. *)
Definition ok_or {A : Type} (e : MirageError) (o : option A) : result A :=
  match o with Some a => Ok a | None => Err e end.
Definition fail_if (c : bool) (e : MirageError) : result () :=
  if c then Err e else Ok ().

Definition is_err_kind {A : Type} (k : MirageErrorKind) (r : result A) : Prop :=
  match r with Ok _ => False | Err e => kind e = k end.

Lemma Ok_inj {A : Type} (a b : A) : Ok a = Ok b -> a = b.
Proof. congruence. Qed.
Lemma bind_Ok_inv {A B : Type} (r : result A) (f : A -> result B) (b : B) :
  (r ≫= f) = Ok b -> exists a, r = Ok a /\ f a = Ok b.
Proof. destruct r; naive_solver. Qed.
Lemma ok_or_Ok_inv {A : Type} (e : MirageError) (o : option A) (a : A) :
  ok_or e o = Ok a -> o = Some a.
Proof. destruct o; naive_solver. Qed.
Lemma fail_if_Ok_inv (c : bool) (e : MirageError) (u : ()) : fail_if c e = Ok u -> c = false.
Proof. destruct c; naive_solver. Qed.

(** [inv_ok H] opens a successful run [H : (x <- e; k) = Ok _] into the
    facts its guards passed. *)
Ltac inv_ok H :=
  repeat match type of H with
  | (_ ≫= _) = Ok _ => let a := fresh "v" in let E := fresh "E" in
      apply bind_Ok_inv in H as (a & E & H); try (inv_ok E)
  | ok_or _ _ = Ok _ => apply ok_or_Ok_inv in H
  | fail_if _ _ = Ok _ => apply fail_if_Ok_inv in H
  | Ok _ = Ok _ => apply (f_equal (fun r => match r with Ok a => Some a | Err _ => None end)) in H;
      cbn in H; simplify_eq H
  | Err _ = Ok _ => discriminate H
  end.

(** ** Loops

    [for x in l { ...? }], without and with a state that the body updates. *)
Fixpoint for_each {A : Type} (body : A -> result ()) (l : list A) : result () :=
  match l with [] => Ok () | x :: l => _ ← body x; for_each body l end.
Fixpoint for_fold {A S : Type} (body : S -> A -> result S) (s : S) (l : list A) : result S :=
  match l with [] => Ok s | x :: l => s' ← body s x; for_fold body s' l end.
(** [first..first + count]. *)
Definition zrange (first count : Z) : list Z := map (fun i => first + Z.of_nat i) (seq 0 (Z.to_nat count)).

Lemma for_each_Ok {A : Type} (body : A -> result ()) (l : list A) :
  for_each body l = Ok tt <-> Forall (fun x => body x = Ok tt) l.
Proof.
  induction l as [|x l IH]; simpl; [by split; [constructor|]|]. split.
  - intros ([] & Hx & H)%bind_Ok_inv. constructor; [done|by apply IH].
  - intros [Hx H]%Forall_cons. rewrite Hx. by apply IH.
Qed.
Lemma for_fold_app {A S : Type} (body : S -> A -> result S) (s : S) (l k : list A) :
  for_fold body s (l ++ k) = (s' ← for_fold body s l; for_fold body s' k).
Proof. revert s. induction l as [|x l IH]; intros s; simpl; [done|]. destruct (body s x); simpl; auto. Qed.

Lemma zrange_lookup (first count : Z) (i : nat) (x : Z) :
  zrange first count !! i = Some x <-> Z.of_nat i < count /\ x = first + Z.of_nat i.
Proof.
  unfold zrange. rewrite list_lookup_fmap. destruct (seq 0 (Z.to_nat count) !! i) as [j|] eqn:E; simpl.
  - apply lookup_seq in E as [-> Hi]. simpl. split; [intros [= <-]; split; [lia|done]|by intros [_ ->]].
  - split; [done|]. intros [Hi _]. rewrite lookup_seq_lt in E by lia. done.
Qed.
Lemma elem_of_zrange (first count x : Z) : x ∈ zrange first count <-> first <= x < first + count.
Proof.
  rewrite list_elem_of_lookup. setoid_rewrite zrange_lookup. split; [intros (i & ? & ->); lia|].
  intros Hx. exists (Z.to_nat (x - first)). lia.
Qed.
Lemma length_zrange (first count : Z) : length (zrange first count) = Z.to_nat count.
Proof. unfold zrange. by rewrite length_map, length_seq. Qed.
Lemma zrange_succ (first count : Z) : 0 <= count -> zrange first (count + 1) = zrange first count ++ [first + count].
Proof.
  intros Hc. unfold zrange. rewrite Z2Nat.inj_add, Nat.add_1_r, seq_S, map_app by lia. simpl. by rewrite Z2Nat.id by lia.
Qed.
Lemma zrange_cons (first count : Z) : 0 < count -> zrange first count = first :: zrange (first + 1) (count - 1).
Proof.
  intros Hc. unfold zrange. replace (Z.to_nat count) with (S (Z.to_nat (count - 1))) by lia. cbn [seq map].
  rewrite <- seq_shift, map_map. f_equal; [lia|]. apply map_ext. lia.
Qed.
Lemma zrange_nil (first count : Z) : count <= 0 -> zrange first count = [].
Proof. intros Hc. unfold zrange. by replace (Z.to_nat count) with 0%nat by lia. Qed.

(** ** Fetch-failure taxonomy ([readiness.rs], [flight.rs]) *)
Inductive FetchFailureCause : Set :=
| ChecksumMismatch | AuthorizationDenied | SourceMissing | Timeout | FDeadlineExceeded
| BudgetExceeded | CallerCancelled | MalformedResponse | Internal.

Definition FetchFailureCause_from_error (e : MirageError) : FetchFailureCause :=
  match kind e with
  | IntegrityMismatch | ManifestInvalid | UnsupportedLayout => ChecksumMismatch
  | BackendUnauthenticated | BackendPermissionDenied => AuthorizationDenied
  | RemoteObjectMissing | ProviderUnavailable => SourceMissing
  | BackendUnavailable | BackendRateLimited => Timeout
  | DeadlineExceeded => FDeadlineExceeded
  | CacheFull => BudgetExceeded
  | Cancelled => CallerCancelled
  | InvalidArgument => MalformedResponse
  | _ => Internal
  end.

Record FlightFailure : Set := mkFlightFailure { ff_cause : FetchFailureCause; ff_code : string }.

Definition FlightFailure_from_error (e : MirageError) : FlightFailure :=
  mkFlightFailure (FetchFailureCause_from_error e) (code e).

Definition FlightFailure_into_error (f : FlightFailure) (context : string) : MirageError :=
  let message := (context +:+ ": " +:+ ff_code f)%string in
  match ff_cause f with
  | ChecksumMismatch => integrity_mismatch message
  | AuthorizationDenied => backend_permission_denied message
  | SourceMissing => remote_object_missing message
  | Timeout => backend_unavailable message
  | FDeadlineExceeded => deadline_exceeded message
  | BudgetExceeded => cache_full message
  | CallerCancelled => cancelled message
  | MalformedResponse => invalid_argument message
  | Internal => internal_invariant message
  end.

(** The cause survives the fan-out: whatever the original error, converting
    it to a flight failure and back gives an error of the same cause. *)
Lemma flight_failure_cause_stable (e : MirageError) (context : string) :
  FetchFailureCause_from_error (FlightFailure_into_error (FlightFailure_from_error e) context)
  = FetchFailureCause_from_error e.
Proof. destruct e as [[] ? ? ?]; reflexivity. Qed.
