(* ===== verification/Effects.v ===== *)
(** * Computations over a world

    The operations that call out (object backends, upload transports, mounts)
    run in a state and error monad over the world they act on: an error ends
    the computation and keeps what was done. *)
From S2P Require Export Errors.

Definition io (W A : Type) : Type := W -> result A * W.
#[export] Instance io_ret (W : Type) : MRet (io W) := fun A a w => (Ok a, w).
#[export] Instance io_bind (W : Type) : MBind (io W) := fun A B k m w =>
  match m w with (Ok a, w') => k a w' | (Err e, w') => (Err e, w') end.
Definition io_read {W A : Type} (f : W -> result A) : io W A := fun w => (f w, w).
Definition io_pure {W A : Type} (r : result A) : io W A := fun w => (r, w).

(** A run that succeeds. *)
Lemma io_bind_inv {W A B : Type} (m : io W A) (k : A -> io W B) (w w' : W) (b : B) :
  (m ≫= k) w = (Ok b, w') -> exists a w1, m w = (Ok a, w1) /\ k a w1 = (Ok b, w').
Proof. unfold mbind, io_bind. destruct (m w) as [[a|e] w1]; [eauto|done]. Qed.
Lemma io_pure_inv {W A B : Type} (r : result A) (k : A -> io W B) (w w' : W) (b : B) :
  (io_pure r ≫= k) w = (Ok b, w') -> exists a, r = Ok a /\ k a w = (Ok b, w').
Proof. intros (a & w1 & [= -> <-] & H)%io_bind_inv. eauto. Qed.
Lemma io_read_inv {W A B : Type} (f : W -> result A) (k : A -> io W B) (w w' : W) (b : B) :
  (io_read f ≫= k) w = (Ok b, w') -> exists a, f w = Ok a /\ k a w = (Ok b, w').
Proof. intros (a & w1 & [= Ha <-] & H)%io_bind_inv. eauto. Qed.

(** [collect] of an iterator of results. *)
Lemma mapM_Ok {A B : Type} (f : A -> result B) (l : list A) (k : list B) : mapM f l = Ok k <-> Forall2 (fun a b => f a = Ok b) l k.
Proof.
  revert k. induction l as [|a l IH]; intros k; cbn.
  - split; [by intros [= <-]; constructor|by intros H; inversion H].
  - split.
    + intros (b & Hb & (k' & Hk & [= <-])%bind_Ok_inv)%bind_Ok_inv. constructor; [done|by apply IH].
    + intros (b & k' & Hb & Hk & ->)%Forall2_cons_inv_l. rewrite Hb. cbn. apply IH in Hk. by rewrite Hk.
Qed.
