(* ===== verification/Ranges.v ===== *)
(** * Byte ranges and page arithmetic

    [mirage-types/src/bytes.rs] and [range.rs].  The newtypes [ByteCount],
    [FileOffset] and [PageOrdinal] are their underlying integers; the
    operations on them keep the source's checks.  [CheckedRange] is the pair
    [start], [len], whose constructor rejects an end above [u64::MAX].  The
    theorems read a range as the set of offsets it contains. *)
From S2P Require Export Errors.

(** ** Offsets and ordinals ([bytes.rs]) *)
Definition FileOffset_page_ordinal (o page_size : Z) : option Z :=
  if page_size =? 0 then None
  else let page := o / page_size in
       if u32_max <? page then None else Some (as_u32 page).

Definition FileOffset_page_offset (o page_size : Z) : option Z :=
  if page_size =? 0 then None
  else let rem := o mod page_size in
       if u32_max <? rem then None else Some (as_u32 rem).

Definition PageOrdinal_to_file_offset (p page_size : Z) : option Z := checked_mul p page_size.

Definition ByteCount_checked_div (b d : Z) : option Z :=
  if d =? 0 then None else Some (b / d).
Definition ByteCount_from_kib (k : Z) : option Z := checked_mul k 1024.
Definition ByteCount_from_mib (m : Z) : option Z := checked_mul m (1024 * 1024).
Definition ByteCount_from_gib (g : Z) : option Z := checked_mul g (1024 * 1024 * 1024).

(** ** Checked ranges ([range.rs]) *)
Record CheckedRange : Set := mkRange { start : Z; len : Z }.

Record PageSlice : Set := mkPageSlice {
  ps_page : Z;
  ps_offset_in_page : Z;
  ps_length : Z;
  ps_file_offset : Z
}.

#[export] Instance CheckedRange_eq_dec : EqDecision CheckedRange.
Proof. solve_decision. Defined.

Definition CheckedRange_new (s l : Z) : result CheckedRange :=
  match checked_add s l with
  | Some _ => Ok (mkRange s l)
  | None => Err (invalid_argument "range overflow")
  end.

Definition CheckedRange_try_new (s l : Z) : option CheckedRange :=
  match checked_add s l with
  | Some _ => Some (mkRange s l)
  | None => None
  end.

Definition CheckedRange_from_start_and_end (s e : Z) : result CheckedRange :=
  if e <? s then Err (invalid_argument "invalid range bounds")
  else CheckedRange_new s (e - s).

Definition CheckedRange_empty (s : Z) : CheckedRange := mkRange s 0.

Definition is_empty (r : CheckedRange) : bool := len r =? 0.

Definition end_exclusive (r : CheckedRange) : Z :=
  match checked_add (start r) (len r) with
  | Some e => e
  | None => u64_max
  end.

Definition contains_offset (r : CheckedRange) (o : Z) : bool :=
  if is_empty r then false else (start r <=? o) && (o <? end_exclusive r).

Definition contains_range (r other : CheckedRange) : bool :=
  if is_empty other then (start r <=? start other) && (start other <=? end_exclusive r)
  else if is_empty r then false
  else (start r <=? start other) && (end_exclusive other <=? end_exclusive r).

Definition intersection (r other : CheckedRange) : option CheckedRange :=
  if is_empty r || is_empty other then None
  else
    let max_start := Z.max (start r) (start other) in
    let min_end := Z.min (end_exclusive r) (end_exclusive other) in
    if max_start <? min_end then Some (mkRange max_start (min_end - max_start)) else None.

Definition overlaps (r other : CheckedRange) : bool :=
  match intersection r other with Some _ => true | None => false end.

Definition clip_to_eof (r : CheckedRange) (file_size : Z) : CheckedRange :=
  if file_size <=? start r then CheckedRange_empty file_size
  else
    let clamped_end := Z.min (end_exclusive r) file_size in
    mkRange (start r) (clamped_end -! start r).

(** The [for page in first..=last] loop of [split_to_pages]; [n] counts the
    pages left, and a [checked_add] overflow of the cursor breaks out. *)
Fixpoint split_loop (page_size end_ : Z) (n : nat) (page cur : Z) : list PageSlice :=
  match n with
  | O => []
  | S n' =>
      let page_start := page *! page_size in
      let offset_in_page := as_u32 (cur -! page_start) in
      let remaining_in_page := page_size -! offset_in_page in
      let remaining_in_range := end_ -! cur in
      let bytes_in_page := as_u32 (Z.min remaining_in_page remaining_in_range) in
      mkPageSlice (as_u32 page) offset_in_page bytes_in_page cur ::
      match checked_add cur bytes_in_page with
      | Some next => split_loop page_size end_ n' (page + 1) next
      | None => []
      end
  end.

Definition split_to_pages (r : CheckedRange) (page_size : Z) : result (list PageSlice) :=
  if page_size =? 0 then Err (invalid_argument "page_size must be greater than 0")
  else if u32_max <? page_size
  then Err (unsupported_layout "page_size exceeds maximum supported 32-bit page size")
  else if is_empty r then Ok []
  else
    let e := end_exclusive r in
    let first_page := start r / page_size in
    let last_page := (e -! 1) / page_size in
    if u32_max <? last_page then Err (unsupported_layout "page ordinal exceeds u32::MAX")
    else Ok (split_loop page_size e (Z.to_nat (last_page - first_page + 1)) first_page (start r)).

(** ** The construction invariant *)
Definition range_ok (r : CheckedRange) : Prop :=
  0 <= start r /\ 0 <= len r /\ start r + len r <= u64_max.

Lemma end_exclusive_fits (r : CheckedRange) : start r + len r <= u64_max -> end_exclusive r = start r + len r.
Proof. intros H. unfold end_exclusive. by rewrite checked_add_fits. Qed.

Lemma end_exclusive_ok (r : CheckedRange) : range_ok r -> end_exclusive r = start r + len r.
Proof. intros (?&?&?). apply end_exclusive_fits. lia. Qed.

Lemma CheckedRange_new_spec (s l : Z) : in_u64 s -> in_u64 l ->
  match CheckedRange_new s l with
  | Ok r => r = mkRange s l /\ range_ok r
  | Err e => kind e = InvalidArgument /\ u64_max < s + l
  end.
Proof. intros [] []. unfold CheckedRange_new, checked_add, range_ok. zcase; simpl; auto with lia. Qed.

Lemma contains_offset_spec (r : CheckedRange) (o : Z) :
  range_ok r -> contains_offset r o = (start r <=? o) && (o <? start r + len r).
Proof.
  intros Hr. unfold contains_offset, is_empty. rewrite end_exclusive_ok by done.
  destruct Hr as (?&?&?). zcase; simpl; lia.
Qed.

Lemma intersection_ok (r1 r2 r : CheckedRange) :
  range_ok r1 -> range_ok r2 -> intersection r1 r2 = Some r -> range_ok r.
Proof.
  intros H1 H2. unfold intersection. rewrite !end_exclusive_ok by done.
  destruct (is_empty r1 || is_empty r2); [done|].
  destruct H1 as (?&?&?), H2 as (?&?&?). zcase; [|done].
  intros [= <-]. unfold range_ok; simpl. lia.
Qed.

Lemma clip_to_eof_ok (r : CheckedRange) (n : Z) :
  range_ok r -> in_u64 n -> range_ok (clip_to_eof r n).
Proof.
  intros Hr []. unfold clip_to_eof. rewrite end_exclusive_ok by done.
  destruct Hr as (?&?&?). zcase; unfold range_ok; simpl; [lia|].
  rewrite wsub_u64_small; lia.
Qed.

#[export] Hint Resolve intersection_ok clip_to_eof_ok : mirage.

(** ** Page splitting *)

(** [tiles ps a l b]: the slices [l] cover exactly [[a, b)], in order and
    without gap or overlap, each inside the page it names. *)
Fixpoint tiles (page_size a : Z) (l : list PageSlice) (b : Z) : Prop :=
  match l with
  | [] => a = b
  | s :: l' =>
      ps_file_offset s = a /\ 0 < ps_length s /\
      0 <= ps_offset_in_page s /\ ps_offset_in_page s + ps_length s <= page_size /\
      ps_page s * page_size + ps_offset_in_page s = a /\
      tiles page_size (a + ps_length s) l' b
  end.

(** One iteration, with the wrapping operators resolved. *)
Lemma split_loop_S (page_size e : Z) (n : nat) (page cur : Z) :
  0 < page_size <= u32_max -> 0 <= page <= u32_max -> e <= u64_max ->
  page * page_size <= cur < e -> cur < (page + 1) * page_size ->
  let off := cur - page * page_size in
  let bytes := Z.min (page_size - off) (e - cur) in
  split_loop page_size e (S n) page cur =
  mkPageSlice page off bytes cur :: split_loop page_size e n (page + 1) (cur + bytes).
Proof.
  intros Hps Hp He Hc Hc' off bytes. simpl.
  rewrite (wmul_u64_small page page_size) by nia.
  rewrite (wsub_u64_small cur) by nia.
  rewrite (as_u32_small (cur - _)) by nia.
  rewrite (wsub_u64_small page_size) by mach.
  rewrite (wsub_u64_small e) by nia.
  rewrite (as_u32_small page) by lia.
  rewrite (as_u32_small (Z.min _ _)) by nia.
  fold off. fold bytes.
  replace (checked_add cur bytes) with (Some (cur + bytes)); [done|].
  symmetry. apply checked_add_Some. split; [|done]. lia.
Qed.

Lemma split_loop_tiles (page_size e : Z) (n : nat) (page cur : Z) :
  0 < page_size <= u32_max -> 0 <= page -> e <= u64_max ->
  page * page_size <= cur < e -> cur < (page + 1) * page_size ->
  (e - 1) / page_size <= u32_max ->
  Z.of_nat n = (e - 1) / page_size - page + 1 ->
  tiles page_size cur (split_loop page_size e n page cur) e.
Proof.
  intros Hps. revert page cur. induction n as [|n IH]; intros page cur Hp He Hc Hc' Hl Hn.
  - exfalso. pose proof (Z.div_le_lower_bound (e - 1) page_size page). lia.
  - rewrite split_loop_S by lia. simpl.
    split_and!; [done|lia|lia|lia|lia|].
    set (bytes := Z.min _ _). destruct (decide (cur + bytes = e)) as [Hend|Hend].
    + assert (n = 0%nat) as ->; [|by simpl].
      assert ((e - 1) / page_size = page); [|lia].
      symmetry. apply (Z.div_unique _ _ _ (e - 1 - page * page_size)); lia.
    + assert (cur + bytes = (page + 1) * page_size) as Hb by lia.
      apply IH; lia.
Qed.

Lemma div_page_bounds (o page_size : Z) :
  0 < page_size -> o / page_size * page_size <= o < (o / page_size + 1) * page_size.
Proof. intros. pose proof (Z.div_mod o page_size). pose proof (Z.mod_pos_bound o page_size). lia. Qed.

(** [split_to_pages] succeeds on every well-formed range whose page size
    is positive and 32-bit and whose last page ordinal fits 32 bits, and the
    slices it returns tile the range: they are contiguous from [start] to the
    exclusive end, none is empty, and each lies inside the page it names at
    the offset it names.  No intermediate operation wraps. *)
Theorem split_to_pages_tiles (r : CheckedRange) (page_size : Z) :
  range_ok r -> 0 < page_size <= u32_max ->
  (start r + len r - 1) / page_size <= u32_max ->
  exists slices, split_to_pages r page_size = Ok slices /\
    tiles page_size (start r) slices (start r + len r).
Proof.
  intros Hr Hps Hlast. unfold split_to_pages. rewrite end_exclusive_ok by done.
  destruct Hr as (?&?&?). unfold is_empty.
  destruct (Z.eqb_spec page_size 0); [lia|]. destruct (Z.ltb_spec u32_max page_size); [lia|].
  destruct (Z.eqb_spec (len r) 0) as [->|].
  { exists []. split; [done|]. simpl. lia. }
  rewrite wsub_u64_small by lia.
  destruct (Z.ltb_spec u32_max ((start r + len r - 1) / page_size)); [lia|].
  eexists; split; [done|].
  pose proof (div_page_bounds (start r) page_size ltac:(lia)).
  pose proof (Z.div_le_mono (start r) (start r + len r - 1) page_size ltac:(lia) ltac:(lia)).
  pose proof (Z.div_pos (start r) page_size ltac:(lia) ltac:(lia)).
  apply split_loop_tiles; lia.
Qed.

Lemma split_to_pages_tiles_witness :
  exists slices, split_to_pages (mkRange 524288 2097152) 1048576 = Ok slices /\
    tiles 1048576 524288 slices (524288 + 2097152).
Proof.
  apply (split_to_pages_tiles (mkRange 524288 2097152) 1048576);
    [vm_compute; repeat split; discriminate|vm_compute; split; [done|discriminate]|vm_compute; discriminate].
Defined.

(** Range operations agree with the sets of offsets they denote: the
    intersection of two ranges contains exactly the offsets both contain (and
    is [None] exactly when they share none), and clipping at [file_size] keeps
    exactly the offsets below it. *)
Theorem range_set_semantics (r1 r2 : CheckedRange) (file_size o : Z) :
  range_ok r1 -> range_ok r2 -> in_u64 file_size ->
  (match intersection r1 r2 with Some r => contains_offset r o | None => false end
    = contains_offset r1 o && contains_offset r2 o) /\
  contains_offset (clip_to_eof r1 file_size) o = contains_offset r1 o && (o <? file_size).
Proof.
  intros H1 H2 Hn. split.
  - rewrite (contains_offset_spec r1), (contains_offset_spec r2) by done.
    destruct (intersection r1 r2) as [r|] eqn:E;
      [rewrite contains_offset_spec by eauto with mirage|]; revert E;
      unfold intersection, is_empty; rewrite !end_exclusive_ok by done;
      destruct H1 as (?&?&?), H2 as (?&?&?); zcase; simpl; intros E; simplify_eq; simpl in *; lia.
  - rewrite !contains_offset_spec by eauto with mirage.
    unfold clip_to_eof. rewrite end_exclusive_ok by done.
    destruct H1 as (?&?&?), Hn as [? ?].
    destruct (Z.leb_spec file_size (start r1)); simpl; [zcase; simpl; lia|].
    rewrite wsub_u64_small by lia. zcase; simpl; lia.
Qed.

Lemma range_set_semantics_witness :
  (match intersection (mkRange 100 200) (mkRange 250 100) with
   | Some r => contains_offset r 260 | None => false end = true) /\
  contains_offset (clip_to_eof (mkRange 100 200) 120) 110 = true.
Proof.
  assert (range_ok (mkRange 100 200)) as H1 by (vm_compute; repeat split; discriminate).
  assert (range_ok (mkRange 250 100)) as H2 by (vm_compute; repeat split; discriminate).
  assert (in_u64 120) as H3 by (vm_compute; split; discriminate).
  split; [rewrite (proj1 (range_set_semantics _ _ 120 260 H1 H2 H3))
         |rewrite (proj2 (range_set_semantics _ _ 120 110 H1 H2 H3))]; reflexivity.
Defined.

(** The in-page coordinates of an offset recompose to it. *)
Lemma page_coordinates_roundtrip (o page_size p off base : Z) :
  0 <= o -> 0 < page_size ->
  FileOffset_page_ordinal o page_size = Some p ->
  FileOffset_page_offset o page_size = Some off ->
  PageOrdinal_to_file_offset p page_size = Some base ->
  o = base + off /\ 0 <= off < page_size.
Proof.
  unfold FileOffset_page_ordinal, FileOffset_page_offset, PageOrdinal_to_file_offset.
  intros Ho Hps. zcase; try done. intros [= <-] [= <-] [_ ->]%checked_mul_Some.
  pose proof (Z.mod_pos_bound o page_size ltac:(lia)). pose proof (Z.div_pos o page_size ltac:(lia) ltac:(lia)).
  rewrite !as_u32_small by lia. pose proof (Z.div_mod o page_size). lia.
Qed.

(** [contains_range] is set inclusion on non-empty operands. *)
Lemma contains_range_spec (r other : CheckedRange) :
  range_ok r -> range_ok other -> len other <> 0 ->
  contains_range r other = true <->
  (forall o, contains_offset other o = true -> contains_offset r o = true).
Proof.
  intros Hr Ho Hne. setoid_rewrite contains_offset_spec; [|done..].
  unfold contains_range, is_empty. rewrite !end_exclusive_ok by done.
  destruct Hr as (?&?&?), Ho as (?&?&?).
  destruct (Z.eqb_spec (len other) 0); [done|]. split.
  - destruct (Z.eqb_spec (len r) 0); [done|]. intros H' o Hin. lia.
  - intros Hall. pose proof (Hall (start other)) as Hs.
    pose proof (Hall (start other + len other - 1)) as He.
    destruct (Z.eqb_spec (len r) 0); lia.
Qed.
