(* ===== verification/StateMachines.v ===== *)
(** * Lifecycle state machines

    [mirage-types/src/state.rs] and [transition.rs]: the five machines as
    enumerations with their wire names and a total transition function that
    returns the next state or a structured rejection.  [Machine] is the
    interface they share; runs over event traces are defined against it.  The
    theorems are about traces: which events a state is evidence of. *)
From S2P Require Export Errors.

Inductive StateMachine : Set := MRepository | MPage | MSession | MUpdate | MBackendHealth.

Record TransitionError : Set := mkTransitionError {
  te_machine : StateMachine;
  te_from : string;
  te_event : string
}.

Definition invalid {S : Type} (machine : StateMachine) (from event : string) : TransitionError + S :=
  inl (mkTransitionError machine from event).

(** ** The interface *)
Class Machine (S E : Type) := {
  machine_id : StateMachine;
  state_str : S -> string;
  event_str : E -> string;
  transition : S -> E -> TransitionError + S;
  transition_reject : forall s e err,
    transition s e = inl err -> err = mkTransitionError machine_id (state_str s) (event_str e)
}.

Section runs.
Context {S E : Type} `{Machine S E}.

(** A run accepts every event of the trace in order. *)
Fixpoint run (s : S) (tr : list E) : option S :=
  match tr with
  | [] => Some s
  | e :: tr' => match transition s e with inr s' => run s' tr' | inl _ => None end
  end.

Inductive steps : S -> list E -> S -> Prop :=
| steps_nil s : steps s [] s
| steps_snoc s tr s1 e s2 : steps s tr s1 -> transition s1 e = inr s2 -> steps s (tr ++ [e]) s2.

Lemma run_app (s : S) (t1 t2 : list E) :
  run s (t1 ++ t2) = match run s t1 with Some s1 => run s1 t2 | None => None end.
Proof. revert s. induction t1 as [|e t1 IH]; intros s; simpl; [done|]. by case_match. Qed.

Lemma steps_run (s : S) (tr : list E) (s' : S) : steps s tr s' <-> run s tr = Some s'.
Proof.
  split.
  - induction 1 as [|s tr s1 e s2 _ IH Ht]; simpl; [done|]. rewrite run_app, IH. simpl. by rewrite Ht.
  - revert s'. induction tr as [|e tr IH] using rev_ind; intros s'; [intros [= <-]; constructor|].
    rewrite run_app. destruct (run s tr) as [s1|] eqn:E1; [|done]. simpl.
    destruct (transition s1 e) as [|s2] eqn:E2; [done|]. intros [= <-]. econstructor; eauto.
Qed.

(** Rule induction: a trace property carried by the state. *)
Lemma steps_invariant (P : S -> list E -> Prop) (s0 : S) :
  P s0 [] ->
  (forall s tr e s', P s tr -> transition s e = inr s' -> P s' (tr ++ [e])) ->
  forall tr s, steps s0 tr s -> P s tr.
Proof. intros H0 Hs tr s Hst. remember s0 as x eqn:Hx. induction Hst; subst; eauto. Qed.
End runs.

(** [evidence ev s]: the events that, in this order, every trace ending in [s]
    contains.  [evidence_ok] checks it transition by transition. *)
Section evidence.
Context {S E : Type} `{Machine S E} `{EqDecision E} (ev : S -> list E) (s0 : S).

Lemma evidence_sound :
  ev s0 = [] ->
  (forall s e s', transition s e = inr s' ->
    ev s' `sublist_of` ev s \/ ev s' `sublist_of` ev s ++ [e]) ->
  forall tr s, steps s0 tr s -> ev s `sublist_of` tr.
Proof.
  intros H0 Hs. apply steps_invariant.
  - rewrite H0. constructor.
  - intros s tr e s' IH Ht. destruct (Hs s e s' Ht) as [Hl|Hl].
    + transitivity tr; [by transitivity (ev s)|]. by apply sublist_inserts_r.
    + transitivity (ev s ++ [e]); [done|]. by apply sublist_app.
Qed.
End evidence.

(** ** Repository *)
Module Repository.

Inductive RepositoryState : Set :=
| Uninitialized | Importing | UploadingBase | VerifyingBase | ReadyUnmounted | Mounting
| ReadyMounted | AdmittingSession | PlayingSealed | PlayingBalanced | Updating
| Recovering | Degraded | Conflicted | Error.

Inductive RepositoryEvent : Set :=
| StartImport | BaseImported | BaseUploaded | BaseVerified | MountRequested
| MountSucceeded | UnmountRequested | BeginAdmission | CapsuleSealed
| BalancedLaunchRequested | SessionEnded | BeginUpdate | UpdateCommitted
| RecoveryRequested | RecoverySucceededUnmounted | RecoverySucceededMounted
| BackendDegraded | ConflictDetected | FatalError.

#[global] Instance RepositoryState_eq_dec : EqDecision RepositoryState.
Proof. solve_decision. Defined.
#[global] Instance RepositoryEvent_eq_dec : EqDecision RepositoryEvent.
Proof. solve_decision. Defined.

Definition RepositoryState_as_str (x : RepositoryState) : string :=
  match x with
  | Uninitialized => "uninitialized"
  | Importing => "importing"
  | UploadingBase => "uploading_base"
  | VerifyingBase => "verifying_base"
  | ReadyUnmounted => "ready_unmounted"
  | Mounting => "mounting"
  | ReadyMounted => "ready_mounted"
  | AdmittingSession => "admitting_session"
  | PlayingSealed => "playing_sealed"
  | PlayingBalanced => "playing_balanced"
  | Updating => "updating"
  | Recovering => "recovering"
  | Degraded => "degraded"
  | Conflicted => "conflicted"
  | Error => "error"
  end.

Definition RepositoryEvent_as_str (x : RepositoryEvent) : string :=
  match x with
  | StartImport => "start_import"
  | BaseImported => "base_imported"
  | BaseUploaded => "base_uploaded"
  | BaseVerified => "base_verified"
  | MountRequested => "mount_requested"
  | MountSucceeded => "mount_succeeded"
  | UnmountRequested => "unmount_requested"
  | BeginAdmission => "begin_admission"
  | CapsuleSealed => "capsule_sealed"
  | BalancedLaunchRequested => "balanced_launch_requested"
  | SessionEnded => "session_ended"
  | BeginUpdate => "begin_update"
  | UpdateCommitted => "update_committed"
  | RecoveryRequested => "recovery_requested"
  | RecoverySucceededUnmounted => "recovery_succeeded_unmounted"
  | RecoverySucceededMounted => "recovery_succeeded_mounted"
  | BackendDegraded => "backend_degraded"
  | ConflictDetected => "conflict_detected"
  | FatalError => "fatal_error"
  end.

Definition transition_repository (from : RepositoryState) (event : RepositoryEvent)
  : TransitionError + RepositoryState :=
  match from, event with
  | Uninitialized, StartImport => inr Importing
  | Importing, BaseImported => inr UploadingBase
  | UploadingBase, BaseUploaded => inr VerifyingBase
  | VerifyingBase, BaseVerified => inr ReadyUnmounted
  | ReadyUnmounted, MountRequested => inr Mounting
  | Mounting, MountSucceeded => inr ReadyMounted
  | ReadyMounted, UnmountRequested => inr ReadyUnmounted
  | ReadyMounted, BeginAdmission => inr AdmittingSession
  | AdmittingSession, CapsuleSealed => inr PlayingSealed
  | ReadyMounted, BalancedLaunchRequested => inr PlayingBalanced
  | (PlayingSealed | PlayingBalanced), SessionEnded => inr ReadyMounted
  | (ReadyUnmounted | ReadyMounted), BeginUpdate => inr Updating
  | Updating, UpdateCommitted => inr ReadyUnmounted
  | (Importing | UploadingBase | VerifyingBase | ReadyUnmounted | Mounting | ReadyMounted
     | AdmittingSession | PlayingSealed | PlayingBalanced | Updating | Degraded
     | Conflicted | Error),
    RecoveryRequested => inr Recovering
  | Recovering, RecoverySucceededUnmounted => inr ReadyUnmounted
  | Recovering, RecoverySucceededMounted => inr ReadyMounted
  | (ReadyUnmounted | ReadyMounted | AdmittingSession | PlayingSealed | PlayingBalanced),
    BackendDegraded => inr Degraded
  | (Importing | UploadingBase | VerifyingBase | ReadyUnmounted | ReadyMounted | Updating
     | Recovering | Degraded),
    ConflictDetected => inr Conflicted
  | _, FatalError => inr Error
  | _, _ => invalid MRepository (RepositoryState_as_str from) (RepositoryEvent_as_str event)
  end.

Definition RepositoryState_is_terminal (s : RepositoryState) : bool :=
  match s with
  | Conflicted | Error => true
  | _ => false
  end.

Definition RepositoryState_is_readable (s : RepositoryState) : bool :=
  match s with
  | ReadyMounted | AdmittingSession | PlayingSealed | PlayingBalanced | Updating | Degraded => true
  | _ => false
  end.

Definition RepositoryState_requires_journal (s : RepositoryState) : bool :=
  match s with
  | Updating | Recovering | Conflicted => true
  | _ => false
  end.

#[global] Instance repository_machine : Machine RepositoryState RepositoryEvent.
Proof.
  refine {| machine_id := MRepository; state_str := RepositoryState_as_str;
            event_str := RepositoryEvent_as_str;
            transition := transition_repository; transition_reject := _ |}.
  intros s e err; destruct s, e; simpl; unfold invalid; congruence.
Defined.

End Repository.

(** ** Page *)
Module Page.

Inductive PageState : Set :=
| Absent | Fetching | ResidentClean | SessionPinned | Evicting | DirtyLocal | Staging
| StagedRemote | CommittedRemote | Quarantined.

Inductive PageEvent : Set :=
| FetchRequested | FetchVerified | SessionPinAdded | SessionPinReleased
| EvictionStarted | EvictionCompleted | DirtyWrite | StagingStarted | StageVerified
| CommitActivated | GenerationPromoted | VerificationFailed | QuarantineReleased.

#[global] Instance PageState_eq_dec : EqDecision PageState.
Proof. solve_decision. Defined.
#[global] Instance PageEvent_eq_dec : EqDecision PageEvent.
Proof. solve_decision. Defined.

Definition PageState_as_str (x : PageState) : string :=
  match x with
  | Absent => "absent"
  | Fetching => "fetching"
  | ResidentClean => "resident_clean"
  | SessionPinned => "session_pinned"
  | Evicting => "evicting"
  | DirtyLocal => "dirty_local"
  | Staging => "staging"
  | StagedRemote => "staged_remote"
  | CommittedRemote => "committed_remote"
  | Quarantined => "quarantined"
  end.

Definition PageEvent_as_str (x : PageEvent) : string :=
  match x with
  | FetchRequested => "fetch_requested"
  | FetchVerified => "fetch_verified"
  | SessionPinAdded => "session_pin_added"
  | SessionPinReleased => "session_pin_released"
  | EvictionStarted => "eviction_started"
  | EvictionCompleted => "eviction_completed"
  | DirtyWrite => "dirty_write"
  | StagingStarted => "staging_started"
  | StageVerified => "stage_verified"
  | CommitActivated => "commit_activated"
  | GenerationPromoted => "generation_promoted"
  | VerificationFailed => "verification_failed"
  | QuarantineReleased => "quarantine_released"
  end.

Definition transition_page (from : PageState) (event : PageEvent)
  : TransitionError + PageState :=
  match from, event with
  | Absent, FetchRequested => inr Fetching
  | Fetching, FetchVerified => inr ResidentClean
  | ResidentClean, SessionPinAdded => inr SessionPinned
  | SessionPinned, SessionPinReleased => inr ResidentClean
  | ResidentClean, EvictionStarted => inr Evicting
  | Evicting, EvictionCompleted => inr Absent
  | ResidentClean, DirtyWrite => inr DirtyLocal
  | DirtyLocal, StagingStarted => inr Staging
  | Staging, StageVerified => inr StagedRemote
  | StagedRemote, CommitActivated => inr CommittedRemote
  | CommittedRemote, GenerationPromoted => inr ResidentClean
  | (Fetching | ResidentClean | SessionPinned | Evicting | DirtyLocal | Staging
     | StagedRemote | CommittedRemote),
    VerificationFailed => inr Quarantined
  | Quarantined, QuarantineReleased => inr Absent
  | _, _ => invalid MPage (PageState_as_str from) (PageEvent_as_str event)
  end.

Definition PageState_is_terminal (s : PageState) : bool := false.

Definition PageState_is_readable (s : PageState) : bool :=
  match s with
  | ResidentClean | SessionPinned | DirtyLocal | Staging => true
  | _ => false
  end.

Definition PageState_is_evictable (s : PageState) : bool :=
  match s with
  | ResidentClean | StagedRemote | CommittedRemote => true
  | _ => false
  end.

Definition PageState_requires_journal (s : PageState) : bool :=
  match s with
  | DirtyLocal | Staging | StagedRemote | CommittedRemote => true
  | _ => false
  end.

#[global] Instance page_machine : Machine PageState PageEvent.
Proof.
  refine {| machine_id := MPage; state_str := PageState_as_str;
            event_str := PageEvent_as_str;
            transition := transition_page; transition_reject := _ |}.
  intros s e err; destruct s, e; simpl; unfold invalid; congruence.
Defined.

End Page.

(** ** Session *)
Module Session.

Inductive SessionState : Set :=
| Planned | Reserving | Materializing | Verifying | SealedReady | Launching | Active
| DrainingHelpers | Completed | Violated | Aborted.

Inductive SessionEvent : Set :=
| ReservationStarted | ReservationCompleted | MaterializationCompleted
| VerificationPassed | LaunchRequested | LaunchObserved | HelpersDraining
| ProcessesExited | SealViolated | AbortRequested.

#[global] Instance SessionState_eq_dec : EqDecision SessionState.
Proof. solve_decision. Defined.
#[global] Instance SessionEvent_eq_dec : EqDecision SessionEvent.
Proof. solve_decision. Defined.

Definition SessionState_as_str (x : SessionState) : string :=
  match x with
  | Planned => "planned"
  | Reserving => "reserving"
  | Materializing => "materializing"
  | Verifying => "verifying"
  | SealedReady => "sealed_ready"
  | Launching => "launching"
  | Active => "active"
  | DrainingHelpers => "draining_helpers"
  | Completed => "completed"
  | Violated => "violated"
  | Aborted => "aborted"
  end.

Definition SessionEvent_as_str (x : SessionEvent) : string :=
  match x with
  | ReservationStarted => "reservation_started"
  | ReservationCompleted => "reservation_completed"
  | MaterializationCompleted => "materialization_completed"
  | VerificationPassed => "verification_passed"
  | LaunchRequested => "launch_requested"
  | LaunchObserved => "launch_observed"
  | HelpersDraining => "helpers_draining"
  | ProcessesExited => "processes_exited"
  | SealViolated => "seal_violated"
  | AbortRequested => "abort_requested"
  end.

Definition transition_session (from : SessionState) (event : SessionEvent)
  : TransitionError + SessionState :=
  match from, event with
  | Planned, ReservationStarted => inr Reserving
  | Reserving, ReservationCompleted => inr Materializing
  | Materializing, MaterializationCompleted => inr Verifying
  | Verifying, VerificationPassed => inr SealedReady
  | SealedReady, LaunchRequested => inr Launching
  | Launching, LaunchObserved => inr Active
  | Active, HelpersDraining => inr DrainingHelpers
  | (Active | DrainingHelpers), ProcessesExited => inr Completed
  | (SealedReady | Launching | Active | DrainingHelpers), SealViolated => inr Violated
  | (Planned | Reserving | Materializing | Verifying | SealedReady | Launching | Active
     | DrainingHelpers),
    AbortRequested => inr Aborted
  | _, _ => invalid MSession (SessionState_as_str from) (SessionEvent_as_str event)
  end.

Definition SessionState_is_terminal (s : SessionState) : bool :=
  match s with
  | Completed | Violated | Aborted => true
  | _ => false
  end.

Definition SessionState_is_readable (s : SessionState) : bool :=
  match s with
  | SealedReady | Launching | Active | DrainingHelpers => true
  | _ => false
  end.

#[global] Instance session_machine : Machine SessionState SessionEvent.
Proof.
  refine {| machine_id := MSession; state_str := SessionState_as_str;
            event_str := SessionEvent_as_str;
            transition := transition_session; transition_reject := _ |}.
  intros s e err; destruct s, e; simpl; unfold invalid; congruence.
Defined.

End Session.

(** ** Update *)
Module Update.

Inductive UpdateState : Set :=
| Created | NativeSnapshotInProgress | Applying | DirtyPagesPresent | Staging
| AllContentStaged | ManifestUploaded | CommitUploaded | CommitVerified
| LocalActivationPending | Committed | RollbackPending | RolledBack | RecoveryRequired.

(** Three events carry the name of the state they lead to; the event is written with [_E]. *)
Inductive UpdateEvent : Set :=
| NativeSnapshotStarted | ApplyStarted | DirtyPagesDetected | StagingStarted
| ContentStaged | ManifestUploaded_E | CommitUploaded_E | CommitVerified_E
| LocalActivationRequested | ActivationCommitted | RollbackRequested
| RollbackCompleted | RecoveryNeeded.

#[global] Instance UpdateState_eq_dec : EqDecision UpdateState.
Proof. solve_decision. Defined.
#[global] Instance UpdateEvent_eq_dec : EqDecision UpdateEvent.
Proof. solve_decision. Defined.

Definition UpdateState_as_str (x : UpdateState) : string :=
  match x with
  | Created => "created"
  | NativeSnapshotInProgress => "native_snapshot_in_progress"
  | Applying => "applying"
  | DirtyPagesPresent => "dirty_pages_present"
  | Staging => "staging"
  | AllContentStaged => "all_content_staged"
  | ManifestUploaded => "manifest_uploaded"
  | CommitUploaded => "commit_uploaded"
  | CommitVerified => "commit_verified"
  | LocalActivationPending => "local_activation_pending"
  | Committed => "committed"
  | RollbackPending => "rollback_pending"
  | RolledBack => "rolled_back"
  | RecoveryRequired => "recovery_required"
  end.

Definition UpdateEvent_as_str (x : UpdateEvent) : string :=
  match x with
  | NativeSnapshotStarted => "native_snapshot_started"
  | ApplyStarted => "apply_started"
  | DirtyPagesDetected => "dirty_pages_detected"
  | StagingStarted => "staging_started"
  | ContentStaged => "content_staged"
  | ManifestUploaded_E => "manifest_uploaded"
  | CommitUploaded_E => "commit_uploaded"
  | CommitVerified_E => "commit_verified"
  | LocalActivationRequested => "local_activation_requested"
  | ActivationCommitted => "activation_committed"
  | RollbackRequested => "rollback_requested"
  | RollbackCompleted => "rollback_completed"
  | RecoveryNeeded => "recovery_needed"
  end.

Definition transition_update (from : UpdateState) (event : UpdateEvent)
  : TransitionError + UpdateState :=
  match from, event with
  | (Created | NativeSnapshotInProgress), NativeSnapshotStarted => inr NativeSnapshotInProgress
  | (NativeSnapshotInProgress | Applying), ApplyStarted => inr Applying
  | (Applying | DirtyPagesPresent), DirtyPagesDetected => inr DirtyPagesPresent
  | (Applying | DirtyPagesPresent | Staging), StagingStarted => inr Staging
  | (Staging | AllContentStaged), ContentStaged => inr AllContentStaged
  | (AllContentStaged | ManifestUploaded), ManifestUploaded_E => inr ManifestUploaded
  | (ManifestUploaded | CommitUploaded), CommitUploaded_E => inr CommitUploaded
  | (CommitUploaded | CommitVerified), CommitVerified_E => inr CommitVerified
  | (CommitVerified | LocalActivationPending),
    LocalActivationRequested => inr LocalActivationPending
  | (LocalActivationPending | Committed), ActivationCommitted => inr Committed
  | (Created | NativeSnapshotInProgress | Applying | DirtyPagesPresent | Staging
     | AllContentStaged | ManifestUploaded | CommitUploaded | CommitVerified
     | LocalActivationPending | RecoveryRequired | RollbackPending),
    RollbackRequested => inr RollbackPending
  | (RollbackPending | RolledBack), RollbackCompleted => inr RolledBack
  | (Created | NativeSnapshotInProgress | Applying | DirtyPagesPresent | Staging
     | AllContentStaged | ManifestUploaded | CommitUploaded | CommitVerified
     | LocalActivationPending | RollbackPending | RecoveryRequired),
    RecoveryNeeded => inr RecoveryRequired
  | _, _ => invalid MUpdate (UpdateState_as_str from) (UpdateEvent_as_str event)
  end.

Definition UpdateState_is_terminal (s : UpdateState) : bool :=
  match s with
  | Committed | RolledBack => true
  | _ => false
  end.

Definition UpdateState_requires_journal (s : UpdateState) : bool := true.

#[global] Instance update_machine : Machine UpdateState UpdateEvent.
Proof.
  refine {| machine_id := MUpdate; state_str := UpdateState_as_str;
            event_str := UpdateEvent_as_str;
            transition := transition_update; transition_reject := _ |}.
  intros s e err; destruct s, e; simpl; unfold invalid; congruence.
Defined.

End Update.

(** ** BackendHealth *)
Module BackendHealth.

Inductive BackendHealthState : Set :=
| Unknown | Healthy | Degraded | RateLimited | Unauthenticated | Offline | Unavailable.

Inductive BackendHealthEvent : Set :=
| ProbeSucceeded | ProbeDegraded | RateLimitObserved | AuthenticationFailed
| NetworkOffline | ProviderUnavailable | ProbeRequested.

#[global] Instance BackendHealthState_eq_dec : EqDecision BackendHealthState.
Proof. solve_decision. Defined.
#[global] Instance BackendHealthEvent_eq_dec : EqDecision BackendHealthEvent.
Proof. solve_decision. Defined.

Definition BackendHealthState_as_str (x : BackendHealthState) : string :=
  match x with
  | Unknown => "unknown"
  | Healthy => "healthy"
  | Degraded => "degraded"
  | RateLimited => "rate_limited"
  | Unauthenticated => "unauthenticated"
  | Offline => "offline"
  | Unavailable => "unavailable"
  end.

Definition BackendHealthEvent_as_str (x : BackendHealthEvent) : string :=
  match x with
  | ProbeSucceeded => "probe_succeeded"
  | ProbeDegraded => "probe_degraded"
  | RateLimitObserved => "rate_limit_observed"
  | AuthenticationFailed => "authentication_failed"
  | NetworkOffline => "network_offline"
  | ProviderUnavailable => "provider_unavailable"
  | ProbeRequested => "probe_requested"
  end.

Definition transition_backend_health (_from : BackendHealthState) (event : BackendHealthEvent)
  : TransitionError + BackendHealthState :=
  inr match event with
  | ProbeSucceeded => Healthy
  | ProbeDegraded => Degraded
  | RateLimitObserved => RateLimited
  | AuthenticationFailed => Unauthenticated
  | NetworkOffline => Offline
  | ProviderUnavailable => Unavailable
  | ProbeRequested => Unknown
  end.

Definition BackendHealthState_is_terminal (s : BackendHealthState) : bool := false.

Definition BackendHealthState_is_readable (s : BackendHealthState) : bool :=
  match s with
  | Healthy | Degraded | RateLimited => true
  | _ => false
  end.

#[global] Instance backendhealth_machine : Machine BackendHealthState BackendHealthEvent.
Proof.
  refine {| machine_id := MBackendHealth; state_str := BackendHealthState_as_str;
            event_str := BackendHealthEvent_as_str;
            transition := transition_backend_health; transition_reject := _ |}.
  intros s e err; destruct e; discriminate.
Defined.

End BackendHealth.

(** ** Trace properties *)

(** [exhaust] proves a statement over every state/event pair. *)
Ltac exhaust s e := destruct s, e; simpl; unfold invalid; try discriminate; try done.

(** A page's local bytes are gone only when the page is [Absent]; from a dirty
    page this is what the trace must contain unless verification failed. *)
Definition dirty_evidence (s : Page.PageState) : list Page.PageEvent :=
  match s with
  | Page.DirtyLocal => []
  | Page.Staging => [Page.StagingStarted]
  | Page.StagedRemote => [Page.StagingStarted; Page.StageVerified]
  | Page.CommittedRemote => [Page.StagingStarted; Page.StageVerified; Page.CommitActivated]
  | _ => [Page.StagingStarted; Page.StageVerified; Page.CommitActivated; Page.GenerationPromoted]
  end.

Lemma dirty_evidence_step (s : Page.PageState) (e : Page.PageEvent) (s' : Page.PageState) :
  Page.transition_page s e = inr s' ->
  e = Page.VerificationFailed \/ s = Page.Quarantined \/
  dirty_evidence s' `sublist_of` dirty_evidence s \/
  dirty_evidence s' `sublist_of` dirty_evidence s ++ [e].
Proof.
  destruct s, e; simpl; unfold invalid; try discriminate; intros [= <-]; simpl; auto;
    right; right; try (left; apply sublist_nil_l); try (left; reflexivity); right; reflexivity.
Qed.

(** Dirty bytes are not dropped.  Every accepted event trace that takes a
    page from [DirtyLocal] to [Absent] either contains a failed verification
    (the page was quarantined) or contains, in this order, the start of
    staging, the verified stage, the activated commit and the promotion of the
    generation. *)
Theorem page_dirty_not_dropped (tr : list Page.PageEvent) :
  steps Page.DirtyLocal tr Page.Absent ->
  Page.VerificationFailed ∈ tr \/
  [Page.StagingStarted; Page.StageVerified; Page.CommitActivated; Page.GenerationPromoted]
    `sublist_of` tr.
Proof.
  intros Hst.
  apply (steps_invariant (fun s tr => (Page.VerificationFailed ∈ tr \/ dirty_evidence s `sublist_of` tr)
    /\ (s = Page.Quarantined -> Page.VerificationFailed ∈ tr)) Page.DirtyLocal) in Hst;
    [by destruct Hst| |].
  { split; [right; constructor|done]. }
  clear tr Hst. intros s tr e s' [IH HQ] Ht. split.
  - destruct IH as [IH|IH]; [left; apply elem_of_app; by left|].
    destruct (dirty_evidence_step s e s' Ht) as [->|[->|[Hl|Hl]]].
    + left. apply elem_of_app. right. by apply list_elem_of_singleton.
    + left. apply elem_of_app. left. by apply HQ.
    + right. transitivity tr; [by transitivity (dirty_evidence s)|]. by apply sublist_inserts_r.
    + right. transitivity (dirty_evidence s ++ [e]); [done|]. by apply sublist_app.
  - intros ->. destruct s, e; try discriminate; apply elem_of_app; right; by apply list_elem_of_singleton.
Qed.

Lemma page_dirty_not_dropped_witness :
  let tr := [Page.StagingStarted; Page.StageVerified; Page.CommitActivated; Page.GenerationPromoted;
             Page.EvictionStarted; Page.EvictionCompleted] in
  steps Page.DirtyLocal tr Page.Absent /\
  (Page.VerificationFailed ∈ tr \/
   [Page.StagingStarted; Page.StageVerified; Page.CommitActivated; Page.GenerationPromoted]
     `sublist_of` tr).
Proof.
  intros tr. assert (steps Page.DirtyLocal tr Page.Absent) as H by (apply steps_run; reflexivity).
  split; [exact H|]. exact (page_dirty_not_dropped tr H).
Defined.

(** The durable events behind each forward state of an update. *)
Definition update_evidence (s : Update.UpdateState) : list Update.UpdateEvent :=
  match s with
  | Update.AllContentStaged => [Update.StagingStarted; Update.ContentStaged]
  | Update.ManifestUploaded => [Update.StagingStarted; Update.ContentStaged; Update.ManifestUploaded_E]
  | Update.CommitUploaded =>
      [Update.StagingStarted; Update.ContentStaged; Update.ManifestUploaded_E; Update.CommitUploaded_E]
  | Update.CommitVerified =>
      [Update.StagingStarted; Update.ContentStaged; Update.ManifestUploaded_E; Update.CommitUploaded_E;
       Update.CommitVerified_E]
  | Update.LocalActivationPending =>
      [Update.StagingStarted; Update.ContentStaged; Update.ManifestUploaded_E; Update.CommitUploaded_E;
       Update.CommitVerified_E; Update.LocalActivationRequested]
  | Update.Committed =>
      [Update.StagingStarted; Update.ContentStaged; Update.ManifestUploaded_E; Update.CommitUploaded_E;
       Update.CommitVerified_E; Update.LocalActivationRequested; Update.ActivationCommitted]
  | Update.Staging => [Update.StagingStarted]
  | _ => []
  end.

Lemma update_evidence_step (s : Update.UpdateState) (e : Update.UpdateEvent) (s' : Update.UpdateState) :
  Update.transition_update s e = inr s' ->
  update_evidence s' `sublist_of` update_evidence s \/
  update_evidence s' `sublist_of` update_evidence s ++ [e].
Proof.
  destruct s, e; simpl; unfold invalid; try discriminate; intros [= <-]; simpl;
    first [left; apply sublist_nil_l | left; reflexivity | right; reflexivity].
Qed.

Definition abandoned (s : Update.UpdateState) : bool :=
  match s with Update.RollbackPending | Update.RolledBack | Update.RecoveryRequired => true | _ => false end.

(** C36: an update commits only through its durable steps.  Every accepted
    trace from [Created] to [Committed] contains, in this order, staging, the
    staged content, the uploaded manifest, the uploaded commit, its
    verification, the activation request and the activation, and contains
    neither a rollback request nor a recovery request: an abandoned update can
    never commit. *)
Theorem update_commits_in_durable_order (tr : list Update.UpdateEvent) :
  steps Update.Created tr Update.Committed ->
  [Update.StagingStarted; Update.ContentStaged; Update.ManifestUploaded_E; Update.CommitUploaded_E;
   Update.CommitVerified_E; Update.LocalActivationRequested; Update.ActivationCommitted]
    `sublist_of` tr /\
  Update.RollbackRequested ∉ tr /\ Update.RecoveryNeeded ∉ tr.
Proof.
  intros Hst. split.
  - apply (evidence_sound update_evidence Update.Created) in Hst; [done|done|].
    apply update_evidence_step.
  - refine (steps_invariant (fun s tr => abandoned s = false ->
      Update.RollbackRequested ∉ tr /\ Update.RecoveryNeeded ∉ tr) Update.Created _ _
      tr Update.Committed Hst eq_refl).
    { intros _. split; apply not_elem_of_nil. }
    clear tr Hst. intros s tr e s' IH Ht Hs'.
    assert (abandoned s = false /\ e <> Update.RollbackRequested /\ e <> Update.RecoveryNeeded)
      as (Hs & ? & ?) by (destruct s, e; simpl in Ht; unfold invalid in Ht; by simplify_eq).
    destruct (IH Hs) as [? ?].
    split; apply not_elem_of_app; (split; [done|]); by intros <-%list_elem_of_singleton.
Qed.

Definition update_trace : list Update.UpdateEvent :=
  [Update.NativeSnapshotStarted; Update.ApplyStarted; Update.DirtyPagesDetected; Update.StagingStarted;
   Update.ContentStaged; Update.ManifestUploaded_E; Update.CommitUploaded_E; Update.CommitVerified_E;
   Update.LocalActivationRequested; Update.ActivationCommitted].

Lemma update_commits_in_durable_order_witness :
  steps Update.Created update_trace Update.Committed /\ Update.RecoveryNeeded ∉ update_trace.
Proof.
  assert (steps Update.Created update_trace Update.Committed) as H by (apply steps_run; reflexivity).
  split; [exact H|]. exact (proj2 (proj2 (update_commits_in_durable_order update_trace H))).
Defined.

(** Update events can be replayed after a crash.  Whenever the update
    machine accepts an event, accepting the same event again in the state it
    led to changes nothing; and a terminal update accepts no event that leaves
    its state. *)
Theorem update_replay_idempotent (s : Update.UpdateState) (e : Update.UpdateEvent) (s' : Update.UpdateState) :
  Update.transition_update s e = inr s' ->
  Update.transition_update s' e = inr s' /\
  (Update.UpdateState_is_terminal s = true -> s' = s).
Proof. exhaust s e; intros [= <-]; done. Qed.

Lemma update_replay_idempotent_witness :
  Update.transition_update Update.CommitVerified Update.CommitVerified_E = inr Update.CommitVerified /\
  (Update.UpdateState_is_terminal Update.CommitUploaded = true -> Update.CommitVerified = Update.CommitUploaded).
Proof. exact (update_replay_idempotent Update.CommitUploaded Update.CommitVerified_E Update.CommitVerified eq_refl). Defined.

(** What every trace from [Planned] to a session state has seen. *)
Definition session_evidence (s : Session.SessionState) : list Session.SessionEvent :=
  match s with
  | Session.Planned | Session.Aborted => []
  | Session.Reserving => [Session.ReservationStarted]
  | Session.Materializing => [Session.ReservationStarted; Session.ReservationCompleted]
  | Session.Verifying =>
      [Session.ReservationStarted; Session.ReservationCompleted; Session.MaterializationCompleted]
  | _ => [Session.ReservationStarted; Session.ReservationCompleted; Session.MaterializationCompleted;
          Session.VerificationPassed]
  end.

Lemma session_evidence_step (s : Session.SessionState) (e : Session.SessionEvent) (s' : Session.SessionState) :
  Session.transition_session s e = inr s' ->
  session_evidence s' `sublist_of` session_evidence s \/
  session_evidence s' `sublist_of` session_evidence s ++ [e].
Proof.
  destruct s, e; simpl; unfold invalid; try discriminate; intros [= <-]; simpl;
    first [left; apply sublist_nil_l | left; reflexivity | right; reflexivity].
Qed.

(** A readable session is a verified session.  Every accepted trace from
    [Planned] to a state in which the session's pages may be read contains the
    reservation, its completion, the materialization and the passed
    verification, in this order; and a terminal session accepts no event at
    all. *)
Theorem session_readable_is_verified (tr : list Session.SessionEvent) (s : Session.SessionState) :
  steps Session.Planned tr s ->
  (Session.SessionState_is_readable s = true ->
    [Session.ReservationStarted; Session.ReservationCompleted; Session.MaterializationCompleted;
     Session.VerificationPassed] `sublist_of` tr) /\
  (Session.SessionState_is_terminal s = true ->
    forall e, exists err, Session.transition_session s e = inl err).
Proof.
  intros Hst. split.
  - intros Hr. apply (evidence_sound session_evidence Session.Planned) in Hst;
      [by destruct s|done|apply session_evidence_step].
  - intros Ht e. destruct s; try discriminate Ht; destruct e; by eexists.
Qed.

Lemma session_readable_is_verified_witness :
  [Session.ReservationStarted; Session.ReservationCompleted; Session.MaterializationCompleted;
   Session.VerificationPassed] `sublist_of`
  [Session.ReservationStarted; Session.ReservationCompleted; Session.MaterializationCompleted;
   Session.VerificationPassed; Session.LaunchRequested].
Proof.
  refine (proj1 (session_readable_is_verified _ Session.Launching _) eq_refl).
  apply steps_run; reflexivity.
Defined.

(** Recovery is the only ordinary exit from a conflicted or failed repository. *)
Lemma repository_terminal_exit (s : Repository.RepositoryState) (e : Repository.RepositoryEvent)
  (s' : Repository.RepositoryState) :
  Repository.RepositoryState_is_terminal s = true -> Repository.transition_repository s e = inr s' ->
  (e = Repository.RecoveryRequested /\ s' = Repository.Recovering) \/
  (e = Repository.FatalError /\ s' = Repository.Error).
Proof. destruct s; try discriminate; destruct e; simpl; unfold invalid; naive_solver. Qed.
