(* ===== verification/ExtentMap.v ===== *)
(** * The versioned byte-extent map

    [mirage-engine/src/extent_map.rs] with the durable row of
    [mirage-db/src/extent.rs].  A map is a list of intervals, each pointing
    into an immutable base page, a journaled payload or zeros, plus the
    version, the logical EOF and the replay flag.  [content] is the abstract
    reading: the source of the byte at every offset.  The theorems relate
    every operation to [content]: a write replaces exactly its range, a
    truncate exposes no stale byte, a read tiles its range with slices that
    agree with [content], coalescing changes nothing but the representation
    and the durable rows replay to the same file. *)
From S2P Require Export Errors.

(** ** Data *)
Inductive ExtentKind : Set := KBase | KDirty | KZero.

Inductive ExtentSource : Set :=
| SBase (page_hash : Hash) (base_offset : Z)
| SDirty (payload_id : Hash) (payload_offset : Z)
| SZero.

Inductive ExtentSlice : Set :=
| SliceBase (start length : Z) (page_hash : Hash) (base_offset : Z)
| SliceDirty (start length : Z) (payload_id : Hash) (payload_offset : Z)
| SliceZero (start length : Z).

Record Interval : Set := mkInterval {
  iv_start : Z;
  iv_length : Z;
  iv_source : ExtentSource
}.

Record ExtentMap : Set := mkExtentMap {
  intervals : list Interval;
  version : Z;
  file_size : Z;
  historical : bool
}.

Record ByteExtent : Set := mkByteExtent {
  be_extent_id : Hash;
  be_volume_id : Hash;
  be_inode : Hash;
  be_version : Z;
  be_start : Z;
  be_length : Z;
  be_kind : ExtentKind;
  be_page_hash : option Hash;
  be_base_offset : option Z;
  be_payload_id : option Hash;
  be_payload_offset : option Z;
  be_created_ns : Z
}.

#[export] Instance ExtentKind_eq_dec : EqDecision ExtentKind.
Proof. solve_decision. Defined.
#[export] Instance ExtentSource_eq_dec : EqDecision ExtentSource.
Proof. solve_decision. Defined.
#[export] Instance ExtentSlice_eq_dec : EqDecision ExtentSlice.
Proof. solve_decision. Defined.
#[export] Instance Interval_eq_dec : EqDecision Interval.
Proof. solve_decision. Defined.

Definition slice_start (s : ExtentSlice) : Z :=
  match s with SliceBase st _ _ _ | SliceDirty st _ _ _ | SliceZero st _ => st end.
Definition slice_length (s : ExtentSlice) : Z :=
  match s with SliceBase _ l _ _ | SliceDirty _ l _ _ | SliceZero _ l => l end.

Definition ExtentMap_default : ExtentMap := mkExtentMap [] 0 0 false.

(** [interval.start + interval.length], an unchecked [u64] addition. *)
Definition iv_end (i : Interval) : Z := iv_start i +! iv_length i.

(** ** Durable rows *)
Definition ByteExtent_validate (e : ByteExtent) : result () :=
  if be_length e =? 0 then Err (invalid_argument "extent length is zero")
  else
    let some {A} (o : option A) := match o with Some _ => true | None => false end in
    let coherent := match be_kind e with
      | KBase => some (be_page_hash e) && some (be_base_offset e)
                 && negb (some (be_payload_id e)) && negb (some (be_payload_offset e))
      | KDirty => some (be_payload_id e) && some (be_payload_offset e)
                  && negb (some (be_page_hash e)) && negb (some (be_base_offset e))
      | KZero => negb (some (be_page_hash e)) && negb (some (be_base_offset e))
                 && negb (some (be_payload_id e)) && negb (some (be_payload_offset e))
      end in
    if coherent then Ok () else Err (invalid_argument "extent references do not match its kind").

Definition interval_of_extent (e : ByteExtent) : Interval :=
  mkInterval (be_start e) (be_length e)
    match be_kind e with
    | KBase => SBase (default 0 (be_page_hash e)) (default 0 (be_base_offset e))
    | KDirty => SDirty (default 0 (be_payload_id e)) (default 0 (be_payload_offset e))
    | KZero => SZero
    end.

Definition replay_step (m : ExtentMap) (e : ByteExtent) : ExtentMap :=
  mkExtentMap (intervals m ++ [interval_of_extent e])
    (Z.max (version m) (be_version e))
    (Z.max (file_size m) (saturating_add (be_start e) (be_length e)))
    (historical m).

Definition replay (extents : list ByteExtent) : ExtentMap :=
  let m := fold_left replay_step extents ExtentMap_default in
  mkExtentMap (sort_by_key iv_start (intervals m)) (version m) (file_size m) true.

Definition set_head (m : ExtentMap) (v eof : Z) : ExtentMap :=
  mkExtentMap (intervals m) (Z.max (version m) v) eof true.

Definition is_plain_base (m : ExtentMap) : bool :=
  if negb (version m =? 0) || historical m then false
  else match intervals m with
  | [] => true
  | [i] => (iv_start i =? 0) && (iv_length i =? file_size m) &&
           match iv_source i with SBase _ off => off =? 0 | _ => false end
  | _ => false
  end.

Definition seed_base (m : ExtentMap) (length : Z) (base_identity : Hash) : ExtentMap :=
  if (length =? 0) || match intervals m with [] => false | _ => true end then m
  else mkExtentMap (intervals m ++ [mkInterval 0 length (SBase base_identity 0)])
         (version m) (Z.max (file_size m) length) (historical m).

(** ** Writing *)
Definition advance_wrap (s : ExtentSource) (d : Z) : ExtentSource :=
  match s with
  | SBase h off => SBase h (off +! d)
  | SDirty p off => SDirty p (off +! d)
  | SZero => SZero
  end.

(** What [splice] keeps of one existing interval around [[start, end)]. *)
Definition splice_one (start end_ : Z) (i : Interval) : list Interval :=
  if (iv_end i <=? start) || (end_ <=? iv_start i) then [i]
  else
    (if iv_start i <? start
     then [mkInterval (iv_start i) (start -! iv_start i) (iv_source i)] else []) ++
    (if end_ <? iv_end i
     then [mkInterval end_ (iv_end i -! end_) (advance_wrap (iv_source i) (end_ -! iv_start i))]
     else []).

Definition splice (l : list Interval) (start end_ : Z) (new : Interval) : list Interval :=
  sort_by_key iv_start (concat (splice_one start end_ <$> l) ++ [new]).

(** The merge condition on two neighbours and the merged interval. *)
Definition mergeable (i j : Interval) : bool :=
  match iv_source i, iv_source j with
  | SDirty p off, SDirty q off' =>
      (p =? q) && (iv_start i +! iv_length i =? iv_start j) && (off +! iv_length i =? off')
  | _, _ => false
  end.
Definition merge_pair (i j : Interval) : Interval :=
  mkInterval (iv_start i) (iv_length i +! iv_length j) (iv_source i).

(** One pass of the [for idx] loop: the first mergeable pair is merged and
    the pass stops; [None] when no pair merges. *)
Fixpoint merge_first (l : list Interval) : option (list Interval) :=
  match l with
  | i :: ((j :: l'') as l') =>
      if mergeable i j then Some (merge_pair i j :: l'')
      else match merge_first l' with Some k => Some (i :: k) | None => None end
  | _ => None
  end.

(** The outer [loop]: [fuel] bounds the merging passes.  Each pass removes an
    interval, so the list length is enough ([coalesce_normal]). *)
Fixpoint coalesce_loop (fuel : nat) (l : list Interval) : list Interval :=
  match fuel with
  | O => l
  | S f => match merge_first l with Some k => coalesce_loop f k | None => l end
  end.
Definition coalesce (l : list Interval) : list Interval := coalesce_loop (length l) l.

Definition write_at (m : ExtentMap) (start length : Z) (payload_id : Hash) (payload_offset : Z)
  : result ExtentMap :=
  if length =? 0 then Ok m
  else
    end_ ← ok_or (invalid_argument "write range overflows") (checked_add start length);
    Ok (mkExtentMap
      (coalesce (splice (intervals m) start end_
                   (mkInterval start length (SDirty payload_id payload_offset))))
      (wadd_i64 (version m) 1)
      (Z.max (file_size m) end_)
      (historical m)).

Definition write (m : ExtentMap) (start length : Z) (payload_id : Hash) : result ExtentMap :=
  write_at m start length payload_id 0.

(** ** Truncating *)
Definition truncate_one (length : Z) (i : Interval) : list Interval :=
  if length <=? iv_start i then []
  else if length <? iv_end i then [mkInterval (iv_start i) (length -! iv_start i) (iv_source i)]
  else [i].

Definition truncate (m : ExtentMap) (length : Z) : result ExtentMap :=
  Ok (mkExtentMap (concat (truncate_one length <$> intervals m))
        (wadd_i64 (version m) 1) length (historical m)).

(** ** Reading *)
Definition mk_slice (s : ExtentSource) (start length inside : Z) : ExtentSlice :=
  match s with
  | SBase h off => SliceBase start length h (off +! inside)
  | SDirty p off => SliceDirty start length p (off +! inside)
  | SZero => SliceZero start length
  end.

(** The [for interval] loop of [read]: the slices pushed and the final cursor. *)
Fixpoint read_loop (l : list Interval) (cursor end_ : Z) : list ExtentSlice * Z :=
  match l with
  | [] => ([], cursor)
  | i :: l' =>
      if iv_end i <=? cursor then read_loop l' cursor end_
      else
        let gap_end := Z.min (iv_start i) end_ in
        let '(gap, cursor) :=
          if cursor <? iv_start i then ([SliceZero cursor (gap_end -! cursor)], gap_end)
          else ([], cursor) in
        if (end_ <=? iv_start i) || (end_ <=? cursor) then (gap, cursor)
        else
          let overlap_start := Z.max cursor (iv_start i) in
          let overlap_end := Z.min end_ (iv_end i) in
          if overlap_end <=? overlap_start then
            let '(rest, c) := read_loop l' cursor end_ in (gap ++ rest, c)
          else
            let inside := overlap_start -! iv_start i in
            let slice := mk_slice (iv_source i) overlap_start (overlap_end -! overlap_start) inside in
            if end_ <=? overlap_end then (gap ++ [slice], overlap_end)
            else let '(rest, c) := read_loop l' overlap_end end_ in (gap ++ slice :: rest, c)
  end.

Definition read (m : ExtentMap) (start length : Z) : result (list ExtentSlice) :=
  if (length =? 0) || (file_size m <=? start) then Ok []
  else
    e ← ok_or (invalid_argument "read range overflows") (checked_add start length);
    let end_ := Z.min e (file_size m) in
    let '(slices, cursor) := read_loop (intervals m) start end_ in
    Ok (slices ++ if cursor <? end_ then [SliceZero cursor (end_ -! cursor)] else []).

(** ** Serializing *)
Fixpoint fill_holes (l : list Interval) (cursor size : Z) : list Interval :=
  match l with
  | [] => if cursor <? size then [mkInterval cursor (size -! cursor) SZero] else []
  | i :: l' =>
      (if cursor <? iv_start i then [mkInterval cursor (iv_start i -! cursor) SZero] else []) ++
      i :: fill_holes l' (Z.max cursor (iv_end i)) size
  end.

Definition extent_of_interval (volume_id inode v now_ns id : Z) (i : Interval) : ByteExtent :=
  let row := mkByteExtent id volume_id inode v (iv_start i) (iv_length i) in
  match iv_source i with
  | SBase h off => row KBase (Some h) (Some off) None None now_ns
  | SDirty p off => row KDirty None None (Some p) (Some off) now_ns
  | SZero => row KZero None None None None now_ns
  end.

(** [next_extent_id] is the caller's id source; its [n]th call gives
    [next_extent_id n]. *)
Definition to_extents (m : ExtentMap) (volume_id inode v now_ns : Z) (next_extent_id : nat -> Hash)
  : list ByteExtent :=
  imap (fun n i => extent_of_interval volume_id inode v now_ns (next_extent_id n) i)
    (fill_holes (intervals m) 0 (file_size m)).

(** ** Abstract reading *)

(** [advance s d] is the source [d] bytes further, without wrap-around. *)
Definition advance (s : ExtentSource) (d : Z) : ExtentSource :=
  match s with
  | SBase h off => SBase h (off + d)
  | SDirty p off => SDirty p (off + d)
  | SZero => SZero
  end.

Definition covers (i : Interval) (p : Z) : bool :=
  (iv_start i <=? p) && (p <? iv_start i + iv_length i).

(** The source of the byte at offset [p]: uncovered offsets are zeros. *)
Fixpoint content (l : list Interval) (p : Z) : ExtentSource :=
  match l with
  | [] => SZero
  | i :: l' => if covers i p then advance (iv_source i) (p - iv_start i) else content l' p
  end.

(** The bytes a slice denotes, one source per byte. *)
Definition slice_bytes (s : ExtentSlice) : list ExtentSource :=
  let src := match s with
    | SliceBase _ _ h off => SBase h off
    | SliceDirty _ _ p off => SDirty p off
    | SliceZero _ _ => SZero
    end in
  advance src <$> seqZ 0 (slice_length s).

(** ** Well-formedness *)
Definition src_ok (s : ExtentSource) (length : Z) : Prop :=
  match s with
  | SBase _ off | SDirty _ off => 0 <= off /\ off + length <= u64_max
  | SZero => True
  end.

Definition iv_ok (i : Interval) : Prop :=
  0 <= iv_start i /\ 0 < iv_length i /\ iv_start i + iv_length i <= u64_max /\
  src_ok (iv_source i) (iv_length i).

Definition before (i j : Interval) : Prop := iv_start i + iv_length i <= iv_start j.
Definition apart (i j : Interval) : Prop := before i j \/ before j i.

Definition wf (l : list Interval) : Prop := Forall iv_ok l /\ StronglySorted before l.

(** The map invariant: well-formed intervals, all inside the logical EOF. *)
Definition map_ok (m : ExtentMap) : Prop :=
  wf (intervals m) /\ in_u64 (file_size m) /\
  Forall (fun i => iv_start i + iv_length i <= file_size m) (intervals m).

(** *** Basic facts *)
Lemma iv_end_ok (i : Interval) : iv_ok i -> iv_end i = iv_start i + iv_length i.
Proof. intros (?&?&?&_). apply wadd_u64_small; lia. Qed.

Lemma advance_0 (s : ExtentSource) : advance s 0 = s.
Proof. destruct s; simpl; f_equal; lia. Qed.
Lemma advance_advance (s : ExtentSource) (a b : Z) : advance (advance s a) b = advance s (a + b).
Proof. destruct s; simpl; f_equal; lia. Qed.
Lemma advance_wrap_ok (s : ExtentSource) (n d : Z) :
  src_ok s n -> 0 <= d <= n -> advance_wrap s d = advance s d.
Proof. destruct s; simpl; intros; f_equal; apply wadd_u64_small; lia. Qed.
Lemma src_ok_advance (s : ExtentSource) (n d : Z) :
  src_ok s n -> 0 <= d <= n -> src_ok (advance s d) (n - d).
Proof. destruct s; simpl; intros; lia. Qed.
Lemma src_ok_mono (s : ExtentSource) (n k : Z) : src_ok s n -> k <= n -> src_ok s k.
Proof. destruct s; simpl; lia. Qed.
#[export] Hint Resolve src_ok_advance src_ok_mono : mirage.

Lemma covers_spec (i : Interval) (p : Z) :
  covers i p = true <-> iv_start i <= p < iv_start i + iv_length i.
Proof. unfold covers. lia. Qed.
Lemma covers_false (i : Interval) (p : Z) :
  covers i p = false <-> p < iv_start i \/ iv_start i + iv_length i <= p.
Proof. unfold covers. lia. Qed.

Lemma content_app (l k : list Interval) (p : Z) :
  content (l ++ k) p = if existsb (fun i => covers i p) l then content l p else content k p.
Proof. induction l as [|i l IH]; simpl; [done|]. destruct (covers i p); simpl; auto. Qed.

Lemma content_uncovered (l : list Interval) (p : Z) :
  existsb (fun i => covers i p) l = false -> content l p = SZero.
Proof. induction l as [|i l IH]; simpl; [done|]. intros []%orb_false_iff. by case_match; auto. Qed.

(** With pairwise disjoint intervals the content depends on membership only. *)
Lemma content_elem (l : list Interval) (i : Interval) (p : Z) :
  Forall (fun j => 0 < iv_length j) l -> StronglySorted apart l -> i ∈ l -> covers i p = true ->
  content l p = advance (iv_source i) (p - iv_start i).
Proof.
  intros Hpos Hs. induction Hs as [|j l Hs IH Hj]; [by intros ?%elem_of_nil|].
  inversion_clear Hpos. intros [->|Hin]%elem_of_cons Hc; simpl; [by rewrite Hc|].
  destruct (covers j p) eqn:Ej; [|by apply IH].
  rewrite Forall_forall in Hj. specialize (Hj i Hin).
  apply covers_spec in Hc, Ej. unfold apart, before in Hj. lia.
Qed.

Lemma apart_sym (i j : Interval) : apart i j -> apart j i.
Proof. unfold apart. tauto. Qed.

Lemma apart_perm (l k : list Interval) : l ≡ₚ k -> StronglySorted apart l -> StronglySorted apart k.
Proof.
  induction 1 as [|i l k HP IH|i j l|l k h ? IH1 ? IH2]; intros Hs; [done| | |auto].
  - apply StronglySorted_cons in Hs as [Hi Hs]. constructor; [auto|]. by rewrite <- HP.
  - apply StronglySorted_cons in Hs as [Hj Hs]. apply StronglySorted_cons in Hs as [Hi Hs].
    inversion_clear Hj. constructor; [by constructor|].
    constructor; [by apply apart_sym|done].
Qed.

Lemma content_perm (l k : list Interval) (p : Z) :
  Forall (fun j => 0 < iv_length j) l -> StronglySorted apart l -> l ≡ₚ k -> content l p = content k p.
Proof.
  intros Hpos Hs HP. destruct (existsb (fun i => covers i p) l) eqn:E.
  - apply existsb_exists in E as (i & Hi%list_elem_of_In & Hc).
    rewrite (content_elem l i) by done. symmetry. apply content_elem; [by rewrite <- HP| |by rewrite <- HP|done].
    by eapply apart_perm.
  - rewrite !content_uncovered; [done| |done].
    apply not_true_iff_false. intros (i & Hi & Hc)%existsb_exists.
    apply not_true_iff_false in E. apply E. apply existsb_exists. exists i. split; [|done].
    apply list_elem_of_In. rewrite HP. by apply list_elem_of_In.
Qed.

Lemma before_apart (l : list Interval) : StronglySorted before l -> StronglySorted apart l.
Proof. apply StronglySorted_mono. by left. Qed.

(** Sorting disjoint non-empty intervals by start orders them. *)
Lemma sort_before (l : list Interval) :
  Forall (fun j => 0 < iv_length j) l -> StronglySorted apart l ->
  StronglySorted before (sort_by_key iv_start l).
Proof.
  intros Hpos Hs. pose proof (sort_by_key_perm iv_start l) as HP.
  pose proof (sort_by_key_sorted iv_start l) as Hk.
  apply (apart_perm _ _ (symmetry HP)) in Hs. rewrite <- HP in Hpos. clear HP. revert Hs Hpos.
  induction Hk as [|i k Hk IH Hi]; [constructor|]. intros [Ha Hs]%StronglySorted_cons Hpos.
  inversion_clear Hpos as [|?? Hpi Hpos']. constructor; [auto|].
  rewrite Forall_forall in Hi, Ha, Hpos' |- *. intros j Hj. specialize (Hi j Hj).
  specialize (Ha j Hj). specialize (Hpos' j Hj).
  unfold apart, before in *. lia.
Qed.

Lemma wf_pos (l : list Interval) : Forall iv_ok l -> Forall (fun j => 0 < iv_length j) l.
Proof. intros H. eapply Forall_impl; [exact H|]. intros i (?&?&_). done. Qed.
#[export] Hint Resolve wf_pos before_apart sort_before : mirage.

(** *** Splicing *)
Lemma splice_one_content (s e p : Z) (i : Interval) (k : list Interval) :
  iv_ok i -> 0 <= s < e -> e <= u64_max ->
  content (splice_one s e i ++ k) p =
  if covers i p && negb ((s <=? p) && (p <? e))
  then advance (iv_source i) (p - iv_start i) else content k p.
Proof.
  intros Hi Hse He. unfold splice_one. rewrite iv_end_ok by done. destruct Hi as (?&?&?&Hsrc).
  destruct ((iv_start i + iv_length i <=? s) || (e <=? iv_start i)) eqn:E0; simpl.
  { destruct (covers i p) eqn:Ec; [|done]. apply covers_spec in Ec.
    replace (negb _) with true by lia. done. }
  zbool. unfold covers.
  destruct (Z.ltb_spec (iv_start i) s); simpl;
    destruct (Z.ltb_spec e (iv_start i + iv_length i)); simpl; unfold covers; simpl;
    rewrite ?wsub_u64_small by lia; rewrite ?(advance_wrap_ok _ (iv_length i)) by (done || lia);
    rewrite ?advance_advance; zcase; simpl; try lia; try done; f_equal; lia.
Qed.

Lemma splice_one_elem (s e : Z) (i j : Interval) :
  iv_ok i -> 0 <= s < e -> e <= u64_max -> j ∈ splice_one s e i ->
  iv_ok j /\ iv_start i <= iv_start j /\ iv_start j + iv_length j <= iv_start i + iv_length i /\
  (iv_start j + iv_length j <= s \/ e <= iv_start j).
Proof.
  intros Hi Hse He. unfold splice_one. rewrite iv_end_ok by done.
  pose proof Hi as (?&?&?&Hsrc). zcase; simpl; rewrite ?elem_of_cons, ?elem_of_nil;
    rewrite ?wsub_u64_small by lia; rewrite ?(advance_wrap_ok _ (iv_length i)) by (done || lia).
  all: intros; destruct_or?; try done; subst; simpl; unfold iv_ok; simpl;
    split_and!; try lia; eauto with mirage lia.
  all: replace (iv_start i + iv_length i - e) with (iv_length i - (e - iv_start i)) by lia;
    apply src_ok_advance; [done|lia].
Qed.

Lemma splice_one_apart (s e : Z) (i : Interval) :
  iv_ok i -> 0 <= s < e -> e <= u64_max -> StronglySorted apart (splice_one s e i).
Proof.
  intros Hi Hse He. unfold splice_one. rewrite iv_end_ok by done. destruct Hi as (?&?&?&_).
  zcase; simpl; repeat first [apply SSorted_nil | apply SSorted_cons | apply Forall_nil_2 | apply Forall_cons_2].
  all: left; unfold before; simpl; rewrite wsub_u64_small; lia.
Qed.

Lemma concat_splice_elem (s e : Z) (l : list Interval) (j : Interval) :
  Forall iv_ok l -> 0 <= s < e -> e <= u64_max -> j ∈ concat (splice_one s e <$> l) ->
  iv_ok j /\ (iv_start j + iv_length j <= s \/ e <= iv_start j) /\
  exists i, i ∈ l /\ iv_start i <= iv_start j /\ iv_start j + iv_length j <= iv_start i + iv_length i.
Proof.
  intros Hl Hse He. induction Hl as [|i l Hi Hl IH]; simpl; [by intros ?%elem_of_nil|].
  intros [Hj|Hj]%elem_of_app.
  - apply splice_one_elem in Hj as (?&?&?&?); [|done..]. split_and!; [done..|].
    exists i. split; [left|done].
  - destruct IH as (?&?&i'&?&?&?); [done|]. split_and!; [done..|].
    exists i'. split; [by right|done].
Qed.

Lemma concat_splice_apart (s e : Z) (l : list Interval) :
  wf l -> 0 <= s < e -> e <= u64_max -> StronglySorted apart (concat (splice_one s e <$> l)).
Proof.
  intros [Hok Hs] Hse He. induction Hs as [|i l Hs IH Hi]; simpl; [constructor|].
  inversion_clear Hok as [|?? Hi' Hl]. apply StronglySorted_app_2;
    [|by apply splice_one_apart|by apply IH].
  intros j k Hj Hk. apply splice_one_elem in Hj as (_&?&?&_); [|done..].
  apply concat_splice_elem in Hk as (_&_&i'&Hi''&?&?); [|done..].
  rewrite Forall_forall in Hi. specialize (Hi i' Hi''). left. unfold before in *. lia.
Qed.

Lemma concat_splice_content (s e p : Z) (l : list Interval) (new : Interval) :
  Forall iv_ok l -> 0 <= s < e -> e <= u64_max -> iv_start new = s -> iv_length new = e - s ->
  content (concat (splice_one s e <$> l) ++ [new]) p =
  if (s <=? p) && (p <? e) then advance (iv_source new) (p - s) else content l p.
Proof.
  intros Hl Hse He <- Hlen. induction Hl as [|i l Hi Hl IH]; simpl.
  - unfold covers. rewrite Hlen. zcase; simpl; try done; lia.
  - rewrite <- app_assoc, splice_one_content by done. setoid_rewrite IH.
    unfold covers. zcase; simpl; try done; lia.
Qed.

(** The list [splice] builds before sorting. *)
Lemma splice_list_ok (s e : Z) (l : list Interval) (new : Interval) :
  wf l -> 0 <= s < e -> e <= u64_max -> iv_ok new -> iv_start new = s -> iv_length new = e - s ->
  Forall iv_ok (concat (splice_one s e <$> l) ++ [new]) /\
  StronglySorted apart (concat (splice_one s e <$> l) ++ [new]).
Proof.
  intros Hwf Hse He Hnew Hst Hlen. pose proof Hwf as [Hok _]. split.
  - apply Forall_app; split; [|by constructor]. apply Forall_forall.
    intros j Hj. by apply concat_splice_elem in Hj as (?&_).
  - apply StronglySorted_app_2; [|by apply concat_splice_apart|repeat constructor].
    intros j k Hj ->%list_elem_of_singleton.
    apply concat_splice_elem in Hj as (_&?&_); [|done..]. unfold apart, before. lia.
Qed.

Lemma splice_spec (s e : Z) (l : list Interval) (new : Interval) :
  wf l -> 0 <= s < e -> e <= u64_max -> iv_ok new -> iv_start new = s -> iv_length new = e - s ->
  wf (splice l s e new) /\
  forall p, content (splice l s e new) p =
    if (s <=? p) && (p <? e) then advance (iv_source new) (p - s) else content l p.
Proof.
  intros Hwf Hse He Hnew Hst Hlen.
  destruct (splice_list_ok s e l new) as [Hok Hap]; [done..|]. unfold splice. split_and!.
  - split; [by rewrite sort_by_key_perm|]. eauto with mirage.
  - intros p. rewrite <- (content_perm _ _ p (wf_pos _ Hok) Hap (symmetry (sort_by_key_perm _ _))).
    apply concat_splice_content; [apply Hwf|done..].
Qed.

Lemma splice_bound (s e n : Z) (l : list Interval) (new : Interval) :
  wf l -> 0 <= s < e -> e <= u64_max -> iv_start new = s -> iv_length new = e - s -> e <= n ->
  Forall (fun i => iv_start i + iv_length i <= n) l ->
  Forall (fun i => iv_start i + iv_length i <= n) (splice l s e new).
Proof.
  intros Hwf Hse He Hst Hlen Hn Hl. unfold splice. rewrite sort_by_key_perm.
  apply Forall_app; split; [|constructor; [lia|constructor]].
  apply Forall_forall. intros j Hj.
  apply concat_splice_elem in Hj as (_&_&i&Hi&?&?); [|apply Hwf|done..].
  rewrite Forall_forall in Hl. specialize (Hl i Hi). simpl in Hl. lia.
Qed.

(** *** Coalescing *)
Lemma mergeable_inv (i j : Interval) : iv_ok i -> iv_ok j -> mergeable i j = true ->
  iv_start i + iv_length i = iv_start j /\
  iv_length (merge_pair i j) = iv_length i + iv_length j /\
  iv_source j = advance (iv_source i) (iv_length i) /\
  src_ok (iv_source i) (iv_length i + iv_length j).
Proof.
  intros (?&?&?&Hsi) (?&?&?&Hsj). unfold mergeable, merge_pair; simpl.
  destruct (iv_source i) as [|p off|], (iv_source j) as [|q off'|]; try done; simpl in *.
  rewrite !wadd_u64_small by lia. intros; zbool. subst. rewrite wadd_u64_small by lia.
  split_and!; [done..|lia|lia].
Qed.

Lemma merge_pair_spec (i j : Interval) (l : list Interval) :
  wf (i :: j :: l) -> mergeable i j = true ->
  wf (merge_pair i j :: l) /\ forall p, content (merge_pair i j :: l) p = content (i :: j :: l) p.
Proof.
  intros [Hok Hs] Hm. apply Forall_cons in Hok as [Hi Hok]. apply Forall_cons in Hok as [Hj Hok].
  apply StronglySorted_cons in Hs as [_ Hs]. apply StronglySorted_cons in Hs as [Hjl Hs].
  destruct (mergeable_inv i j) as (Hadj & Hlen & Hsrc & Hok'); [done..|].
  destruct Hi as (?&?&?&?), Hj as (?&?&?&?). split.
  - split; constructor; [|done|done|].
    + unfold iv_ok. rewrite Hlen. simpl. split_and!; [lia..|done].
    + eapply Forall_impl; [exact Hjl|]. intros k. unfold before. rewrite Hlen. simpl. lia.
  - intros p. cbn [content]. unfold covers. rewrite Hlen. simpl. rewrite Hsrc, advance_advance.
    zcase; simpl; try lia; try done; f_equal; lia.
Qed.

Definition ends_within (n : Z) (l : list Interval) : Prop :=
  Forall (fun i => iv_start i + iv_length i <= n) l.

Lemma merge_first_cons (i j : Interval) (l : list Interval) :
  merge_first (i :: j :: l) =
  if mergeable i j then Some (merge_pair i j :: l)
  else match merge_first (j :: l) with Some k => Some (i :: k) | None => None end.
Proof. done. Qed.

Lemma merge_first_spec (l k : list Interval) :
  wf l -> merge_first l = Some k ->
  wf k /\ (forall p, content k p = content l p) /\ length l = S (length k) /\
  (forall n, ends_within n l -> ends_within n k) /\
  (forall h, Forall (before h) l -> Forall (before h) k).
Proof.
  revert k. induction l as [|i l IH]; intros k Hwf; [done|]. destruct l as [|j l]; [done|].
  rewrite merge_first_cons. destruct (mergeable i j) eqn:Em.
  - intros [= <-]. destruct (merge_pair_spec i j l) as [Hwf' Hc]; [done..|].
    split_and!; [done|done|done| |]; intros n; unfold ends_within; rewrite !Forall_cons.
    + destruct Hwf as [[Hi [Hj _]%Forall_cons]%Forall_cons _].
      destruct (mergeable_inv i j) as (?&Hlen&_&_); [done..|]. intros (?&?&?).
      split; [|done]. rewrite Hlen. simpl. lia.
    + intros (?&?&?). done.
  - destruct (merge_first (j :: l)) as [k'|] eqn:E; [|done]. intros [= <-].
    destruct Hwf as [Hok Hs]. apply Forall_cons in Hok as [Hi Hok].
    apply StronglySorted_cons in Hs as [Hb Hs].
    destruct (IH k') as (Hwf' & Hc & Hlen & Hn & Hh); [done..|]. split_and!.
    + destruct Hwf'. split; constructor; auto.
    + intros p. cbn [content]. rewrite Hc. done.
    + simpl in *. lia.
    + intros n. unfold ends_within. rewrite !(Forall_cons _ i). intros [? ?]. split; [done|]. by apply Hn.
    + intros h. rewrite !(Forall_cons _ i). intros [? ?]. auto.
Qed.

Lemma coalesce_loop_spec (fuel : nat) (l : list Interval) :
  wf l ->
  wf (coalesce_loop fuel l) /\ (forall p, content (coalesce_loop fuel l) p = content l p) /\
  (forall n, ends_within n l -> ends_within n (coalesce_loop fuel l)).
Proof.
  revert l. induction fuel as [|f IH]; intros l Hwf; simpl; [done|].
  destruct (merge_first l) as [k|] eqn:E; [|done].
  apply merge_first_spec in E as (Hk & Hc & _ & Hn & _); [|done].
  destruct (IH k Hk) as (? & Hc' & Hn'). split_and!; [done| |auto]. intros p. by rewrite Hc', Hc.
Qed.

Lemma coalesce_spec (l : list Interval) :
  wf l ->
  wf (coalesce l) /\ (forall p, content (coalesce l) p = content l p) /\
  (forall n, ends_within n l -> ends_within n (coalesce l)).
Proof. apply coalesce_loop_spec. Qed.

Lemma coalesce_loop_normal (fuel : nat) (l : list Interval) :
  wf l -> (length l <= fuel)%nat -> merge_first (coalesce_loop fuel l) = None.
Proof.
  revert l. induction fuel as [|f IH]; intros l Hwf Hl; simpl; [by destruct l; [|simpl in *; lia]|].
  destruct (merge_first l) as [k|] eqn:E; [|done].
  apply merge_first_spec in E as (? & _ & ? & _); [|done]. apply IH; [done|lia].
Qed.

(** Coalescing only changes the representation.  On every well-formed
    interval list the merge loop terminates in a list with no mergeable
    neighbours left (the list length is enough fuel), which is well-formed and
    denotes the same source for every byte. *)
Theorem coalesce_preserves_content (l : list Interval) (p : Z) :
  wf l -> wf (coalesce l) /\ content (coalesce l) p = content l p /\ merge_first (coalesce l) = None.
Proof.
  intros Hwf. destruct (coalesce_spec l Hwf) as (?&?&_). split_and!; [done|done|].
  by apply coalesce_loop_normal.
Qed.

(** *** Truncating *)
Lemma truncate_one_spec (n p : Z) (i : Interval) (k : list Interval) :
  iv_ok i -> 0 <= n <= u64_max ->
  content (truncate_one n i ++ k) p =
  if covers i p && (p <? n) then advance (iv_source i) (p - iv_start i) else content k p.
Proof.
  intros Hi Hn. unfold truncate_one. rewrite iv_end_ok by done. destruct Hi as (?&?&?&?).
  unfold covers. destruct (Z.leb_spec n (iv_start i)); simpl; [zcase; simpl; try done; lia|].
  destruct (Z.ltb_spec n (iv_start i + iv_length i)); simpl; unfold covers; simpl;
    rewrite ?wsub_u64_small by lia; zcase; simpl; try done; lia.
Qed.

Lemma truncate_one_elem (n : Z) (i j : Interval) :
  iv_ok i -> 0 <= n <= u64_max -> j ∈ truncate_one n i ->
  iv_ok j /\ iv_start j = iv_start i /\ iv_length j <= iv_length i /\ iv_start j + iv_length j <= n.
Proof.
  intros Hi Hn. unfold truncate_one. rewrite iv_end_ok by done. pose proof Hi as (?&?&?&?).
  zcase; rewrite ?elem_of_cons, ?elem_of_nil; intros; destruct_or?; try done; subst; simpl;
    [|split_and!; [done|done|lia|lia]].
  unfold iv_ok; simpl. rewrite wsub_u64_small by lia.
  split_and!; try lia. eapply src_ok_mono; [done|lia].
Qed.

Lemma truncate_content (n p : Z) (l : list Interval) :
  Forall iv_ok l -> 0 <= n <= u64_max ->
  content (concat (truncate_one n <$> l)) p = if p <? n then content l p else SZero.
Proof.
  intros Hl Hn. induction Hl as [|i l Hi Hl IH]; simpl; [by destruct (p <? n)|].
  rewrite truncate_one_spec by done. setoid_rewrite IH.
  destruct (covers i p), (p <? n); done.
Qed.

Lemma truncate_elem (n : Z) (l : list Interval) (j : Interval) :
  Forall iv_ok l -> 0 <= n <= u64_max -> j ∈ concat (truncate_one n <$> l) ->
  iv_ok j /\ iv_start j + iv_length j <= n /\
  exists i, i ∈ l /\ iv_start j = iv_start i /\ iv_length j <= iv_length i.
Proof.
  intros Hl Hn. induction Hl as [|i l Hi Hl IH]; simpl; [by intros ?%elem_of_nil|].
  intros [Hj|Hj]%elem_of_app.
  - apply truncate_one_elem in Hj as (?&?&?&?); [|done..]. split_and!; [done..|].
    exists i. split; [left|done].
  - destruct IH as (?&?&i'&?&?&?); [done|]. split_and!; [done..|]. exists i'. split; [by right|done].
Qed.

Lemma truncate_wf (n : Z) (l : list Interval) :
  wf l -> 0 <= n <= u64_max ->
  wf (concat (truncate_one n <$> l)) /\ ends_within n (concat (truncate_one n <$> l)).
Proof.
  intros [Hok Hs] Hn. split; [split|].
  - apply Forall_forall. intros j Hj. by apply truncate_elem in Hj as (?&_).
  - induction Hs as [|i l Hs IH Hi]; simpl; [constructor|]. apply Forall_cons in Hok as [Hi' Hl].
    apply StronglySorted_app_2; [| |auto].
    + intros j k Hj Hk. apply truncate_one_elem in Hj as (_&?&?&_); [|done..].
      apply truncate_elem in Hk as (_&_&i'&Hin&?&?); [|done..].
      rewrite Forall_forall in Hi. specialize (Hi i' Hin). unfold before in *. lia.
    + unfold truncate_one. repeat case_match; repeat constructor.
  - apply Forall_forall. intros j Hj. by apply truncate_elem in Hj as (_&?&_).
Qed.

(** *** Reading *)
Definition slice_source (s : ExtentSlice) : ExtentSource :=
  match s with
  | SliceBase _ _ h off => SBase h off
  | SliceDirty _ _ p off => SDirty p off
  | SliceZero _ _ => SZero
  end.

(** [reads_as f a sl b]: the slices are non-empty, contiguous from [a] to [b],
    and each denotes the bytes [f] gives for its range. *)
Fixpoint reads_as (f : Z -> ExtentSource) (a : Z) (sl : list ExtentSlice) (b : Z) : Prop :=
  match sl with
  | [] => a = b
  | s :: sl' =>
      slice_start s = a /\ 0 < slice_length s /\
      (forall d, 0 <= d < slice_length s -> advance (slice_source s) d = f (a + d)) /\
      reads_as f (a + slice_length s) sl' b
  end.

Lemma reads_as_app (f : Z -> ExtentSource) (a b c : Z) (s1 s2 : list ExtentSlice) :
  reads_as f a s1 b -> reads_as f b s2 c -> reads_as f a (s1 ++ s2) c.
Proof. revert a. induction s1 as [|s s1 IH]; simpl; [by intros a ->|]. naive_solver. Qed.

Lemma reads_as_le (f : Z -> ExtentSource) (a b : Z) (sl : list ExtentSlice) :
  reads_as f a sl b -> a <= b.
Proof. revert a. induction sl as [|s sl IH]; simpl; [lia|]. intros a (?&?&_&H%IH). lia. Qed.

Lemma reads_as_ext (f g : Z -> ExtentSource) (a b : Z) (sl : list ExtentSlice) :
  (forall p, a <= p < b -> f p = g p) -> reads_as f a sl b -> reads_as g a sl b.
Proof.
  revert a. induction sl as [|s sl IH]; simpl; [done|].
  intros a Hfg (?&?&Hs&Hr). pose proof (reads_as_le _ _ _ _ Hr). split_and!; [done..| |].
  - intros d Hd. rewrite Hs by done. apply Hfg. lia.
  - apply IH; [|done]. intros p Hp. apply Hfg. lia.
Qed.

Lemma slice_bytes_spec (f : Z -> ExtentSource) (a : Z) (s : ExtentSlice) :
  (forall d, 0 <= d < slice_length s -> advance (slice_source s) d = f (a + d)) ->
  slice_bytes s = f <$> seqZ a (slice_length s).
Proof.
  intros Hs. unfold slice_bytes. fold (slice_source s).
  rewrite <- (Z.add_0_r a) at 1. rewrite <- fmap_add_seqZ, <- list_fmap_compose.
  apply list_fmap_ext. intros k d Hd%list_elem_of_lookup_2%elem_of_seqZ. apply Hs. lia.
Qed.

Lemma reads_as_bytes (f : Z -> ExtentSource) (a b : Z) (sl : list ExtentSlice) :
  reads_as f a sl b -> concat (slice_bytes <$> sl) = f <$> seqZ a (b - a).
Proof.
  revert a. induction sl as [|s sl IH]; csimpl; intros a.
  { intros ->. by rewrite Z.sub_diag. }
  intros (?&?&Hs&Hr). rewrite (slice_bytes_spec f a) by done. rewrite (IH _ Hr).
  pose proof (reads_as_le _ _ _ _ Hr). rewrite <- fmap_app, <- seqZ_app by lia.
  do 2 f_equal. lia.
Qed.

Lemma reads_as_zero (f : Z -> ExtentSource) (a b : Z) :
  a < b -> (forall p, a <= p < b -> f p = SZero) -> reads_as f a [SliceZero a (b - a)] b.
Proof. intros Hab Hf. simpl. split_and!; [done|lia| |lia]. intros d Hd. rewrite Hf by lia. done. Qed.

Lemma reads_as_slice (f : Z -> ExtentSource) (i : Interval) (a b : Z) :
  iv_ok i -> iv_start i <= a < b -> b <= iv_start i + iv_length i ->
  (forall p, a <= p < b -> f p = advance (iv_source i) (p - iv_start i)) ->
  reads_as f a [mk_slice (iv_source i) a (b - a) (a -! iv_start i)] b.
Proof.
  intros (?&?&?&Hsrc) Ha Hb Hf. simpl.
  assert (slice_start (mk_slice (iv_source i) a (b - a) (a -! iv_start i)) = a) as Hs1
    by (by destruct (iv_source i)).
  assert (slice_length (mk_slice (iv_source i) a (b - a) (a -! iv_start i)) = b - a) as Hs2
    by (by destruct (iv_source i)).
  rewrite Hs1, Hs2. split_and!; [done|lia| |lia].
  intros d Hd. rewrite Hf by lia. rewrite wsub_u64_small by lia.
  destruct (iv_source i); simpl in *; rewrite ?wadd_u64_small by lia; f_equal; lia.
Qed.

Lemma content_skip (i : Interval) (l : list Interval) (p : Z) :
  iv_start i + iv_length i <= p -> content (i :: l) p = content l p.
Proof. intros. simpl. replace (covers i p) with false; [done|]. symmetry. apply covers_false. lia. Qed.

Lemma content_head (i : Interval) (l : list Interval) (p : Z) :
  iv_start i <= p < iv_start i + iv_length i ->
  content (i :: l) p = advance (iv_source i) (p - iv_start i).
Proof. intros. simpl. replace (covers i p) with true; [done|]. symmetry. apply covers_spec. lia. Qed.

Lemma content_gap (l : list Interval) (p : Z) :
  Forall (fun i => p < iv_start i) l -> content l p = SZero.
Proof.
  induction 1 as [|i l Hi Hl IH]; simpl; [done|].
  replace (covers i p) with false; [done|]. symmetry. apply covers_false. lia.
Qed.

Lemma wf_gap (i : Interval) (l : list Interval) (p : Z) :
  wf (i :: l) -> p < iv_start i -> content (i :: l) p = SZero.
Proof.
  intros [[Hi Hl]%Forall_cons [Hb Hs]%StronglySorted_cons] Hp. apply content_gap.
  constructor; [done|]. eapply Forall_impl; [exact Hb|]. unfold before. destruct Hi. simpl. lia.
Qed.

Lemma wf_tail (i : Interval) (l : list Interval) : wf (i :: l) -> wf l.
Proof. intros [[Hi Hl]%Forall_cons [Hb Hs]%StronglySorted_cons]. done. Qed.

(** One gap slice before an interval that starts after the cursor. *)
Lemma read_gap_spec (i : Interval) (l : list Interval) (c e : Z) :
  wf (i :: l) -> 0 <= c < e -> e <= u64_max ->
  let '(gap, c1) := if c <? iv_start i
    then ([SliceZero c (Z.min (iv_start i) e -! c)], Z.min (iv_start i) e) else ([], c) in
  reads_as (content (i :: l)) c gap c1 /\ c1 = Z.max c (Z.min (iv_start i) e).
Proof.
  intros Hwf Hc He. destruct (Z.ltb_spec c (iv_start i)); [|split; [done|lia]].
  rewrite wsub_u64_small by lia. split; [|lia].
  apply reads_as_zero; [lia|]. intros p Hp. apply wf_gap; [done|lia].
Qed.

Lemma read_loop_spec (l : list Interval) (c e : Z) :
  wf l -> 0 <= c < e -> e <= u64_max ->
  let '(sl, c') := read_loop l c e in
  reads_as (content l) c sl c' /\ c' <= e /\ forall p, c' <= p < e -> content l p = SZero.
Proof.
  intros Hwf. revert c. induction l as [|i l IH]; intros c Hc He; simpl read_loop.
  { split_and!; [done|lia|done]. }
  pose proof (wf_tail _ _ Hwf) as Hl. pose proof Hwf as [[Hi _]%Forall_cons _].
  specialize (IH Hl). rewrite iv_end_ok by done. pose proof Hi as (?&?&?&?).
  destruct (Z.leb_spec (iv_start i + iv_length i) c).
  { specialize (IH c Hc He). destruct (read_loop l c e) as [sl c'].
    destruct IH as (Hr & ? & Hz). pose proof (reads_as_le _ _ _ _ Hr). split_and!; [|done|].
    - eapply reads_as_ext; [|exact Hr]. intros p Hp. rewrite content_skip by lia. done.
    - intros p Hp. rewrite content_skip by lia. apply Hz. lia. }
  pose proof (read_gap_spec i l c e Hwf Hc He) as Hgap.
  destruct (if c <? iv_start i then _ else _) as [gap c1]. destruct Hgap as [Hg Hc1].
  destruct ((e <=? iv_start i) || (e <=? c1)) eqn:Eb.
  { split_and!; [done|lia|]. intros p Hp. zcase_in Eb; lia. }
  zbool. destruct (Z.leb_spec (Z.min e (iv_start i + iv_length i)) (Z.max c1 (iv_start i))); [lia|].
  assert (Z.max c1 (iv_start i) = c1) as -> by lia.
  set (b := Z.min e (iv_start i + iv_length i)) in *.
  rewrite (wsub_u64_small b c1) by lia.
  assert (reads_as (content (i :: l)) c1 [mk_slice (iv_source i) c1 (b - c1) (c1 -! iv_start i)] b) as Hs.
  { apply reads_as_slice; [done|lia|lia|]. intros p Hp. apply content_head. lia. }
  destruct (Z.leb_spec e b).
  { split_and!; [by eapply reads_as_app|lia|lia]. }
  specialize (IH b ltac:(lia) He). destruct (read_loop l b e) as [sl c'].
  destruct IH as (Hr & ? & Hz). pose proof (reads_as_le _ _ _ _ Hr). split_and!; [|done|].
  - eapply reads_as_app; [exact Hg|]. eapply (reads_as_app _ _ _ _ [_]); [exact Hs|].
    eapply reads_as_ext; [|exact Hr]. intros p Hp. rewrite content_skip by lia. done.
  - intros p Hp. rewrite content_skip by lia. apply Hz. lia.
Qed.

(** The bytes a read of [[start, start+length)] may return: up to the EOF. *)
Definition read_end (m : ExtentMap) (start length : Z) : Z := Z.min (start + length) (file_size m).

Lemma read_total (m : ExtentMap) (start length : Z) :
  map_ok m -> in_u64 start -> in_u64 length -> start + length <= u64_max ->
  exists slices, read m start length = Ok slices /\
    if (length =? 0) || (file_size m <=? start) then slices = []
    else reads_as (content (intervals m)) start slices (read_end m start length) /\
         concat (slice_bytes <$> slices) =
         content (intervals m) <$> seqZ start (read_end m start length - start).
Proof.
  intros (Hwf & Hfs & _) Hs Hl Hsum. unfold read.
  destruct ((length =? 0) || (file_size m <=? start)) eqn:E; [by eexists|]. zbool.
  rewrite (proj2 (checked_add_Some start length (start + length))) by done. simpl.
  fold (read_end m start length). unfold in_u64 in *.
  pose proof (read_loop_spec (intervals m) start (read_end m start length) Hwf) as Hr.
  destruct (read_loop _ _ _) as [sl c']. unfold read_end in *.
  destruct Hr as (Hr & Hc' & Hz); [lia..|]. eexists; split; [done|].
  match goal with |- ?A /\ _ => assert A as Ha; [|split; [done|by apply reads_as_bytes]] end.
  eapply reads_as_app; [exact Hr|]. pose proof (reads_as_le _ _ _ _ Hr).
  destruct (Z.ltb_spec c' (Z.min (start + length) (file_size m))); [|simpl; lia].
  rewrite wsub_u64_small by lia. apply reads_as_zero; [lia|done].
Qed.

(** *** Mutations against [content] *)
Lemma write_at_ok (m : ExtentMap) (start length : Z) (pid : Hash) (off : Z) :
  map_ok m -> in_u64 start -> 0 < length <= u64_max -> start + length <= u64_max ->
  0 <= off -> off + length <= u64_max ->
  exists m', write_at m start length pid off = Ok m' /\ map_ok m' /\
    file_size m' = Z.max (file_size m) (start + length) /\
    version m' = wadd_i64 (version m) 1 /\
    forall p, content (intervals m') p =
      if (start <=? p) && (p <? start + length) then SDirty pid (off + (p - start))
      else content (intervals m) p.
Proof.
  intros (Hwf & Hfs & Hin) [Hs1 Hs2] Hl Hsum Ho1 Ho2. unfold write_at.
  destruct (Z.eqb_spec length 0); [lia|].
  rewrite (proj2 (checked_add_Some start length (start + length))) by done. simpl.
  eexists; split; [done|]. set (new := mkInterval start length (SDirty pid off)).
  assert (iv_ok new) as Hnew by (unfold iv_ok; simpl; lia).
  assert (iv_length new = start + length - start) as Hlen by (simpl; lia).
  destruct (splice_spec start (start + length) (intervals m) new) as [Hw Hc]; [done|lia..|done|done|done|].
  destruct (coalesce_spec _ Hw) as (Hw' & Hc' & Hn). unfold in_u64 in *.
  refine (conj (conj _ (conj _ _)) (conj _ (conj _ _))); simpl; [done|unfold in_u64; lia| | | |].
  - apply Hn. apply splice_bound; [done|lia|lia|done|done|lia|].
    eapply Forall_impl; [exact Hin|]. simpl. lia.
  - done.
  - done.
  - intros p. rewrite Hc', Hc. done.
Qed.

Lemma write_at_overflow (m : ExtentMap) (start length : Z) (pid : Hash) (off : Z) :
  length <> 0 -> u64_max < start + length ->
  write_at m start length pid off = Err (invalid_argument "write range overflows").
Proof.
  intros Hl Ho. unfold write_at. destruct (Z.eqb_spec length 0); [done|].
  by rewrite (proj2 (checked_add_None start length)).
Qed.

Lemma truncate_ok (m : ExtentMap) (n : Z) :
  map_ok m -> in_u64 n ->
  exists m', truncate m n = Ok m' /\ map_ok m' /\ file_size m' = n /\
    version m' = wadd_i64 (version m) 1 /\
    forall p, content (intervals m') p = if p <? n then content (intervals m) p else SZero.
Proof.
  intros (Hwf & Hfs & Hin) Hn. unfold truncate. eexists; split; [done|].
  destruct (truncate_wf n (intervals m)) as [Hw Hb]; [done|done|].
  refine (conj (conj Hw (conj Hn Hb)) (conj _ (conj _ _))); simpl; [done|done|].
  intros p. apply truncate_content; [apply Hwf|done].
Qed.

(** *** Serializing *)
Lemma fill_holes_spec (l : list Interval) (c n : Z) :
  wf l -> 0 <= c <= n -> n <= u64_max -> ends_within n l -> Forall (fun i => c <= iv_start i) l ->
  let k := fill_holes l c n in
  wf k /\ ends_within n k /\ Forall (fun i => c <= iv_start i) k /\
  (forall p, content k p = content l p) /\
  (c < n -> Exists (fun i => iv_start i + iv_length i = n) k).
Proof.
  intros Hwf. revert c. induction l as [|i l IH]; intros c Hc Hn Hb Hs; simpl.
  - destruct (Z.ltb_spec c n).
    + rewrite wsub_u64_small by lia. split_and!.
      * split; repeat constructor; simpl; lia.
      * repeat constructor; simpl; lia.
      * repeat constructor; simpl; lia.
      * intros p. simpl. unfold covers. simpl. case_match; done.
      * intros _. constructor. simpl. lia.
    + split_and!; [split; constructor|constructor|constructor|done|lia].
  - pose proof Hwf as [[Hi Hl]%Forall_cons [Hbi Hsl]%StronglySorted_cons].
    apply Forall_cons in Hb as [Hbn Hb]. apply Forall_cons in Hs as [Hsi Hs].
    rewrite iv_end_ok by done. pose proof Hi as (?&?&?&?). rewrite Z.max_r by lia.
    destruct (IH ltac:(done) (iv_start i + iv_length i)) as ([Hok Hss] & Hb' & Hs' & Hct & Hex);
      [lia|done|done|done|]. set (k := fill_holes l _ n) in *.
    assert (wf (i :: k)) as Hwk by (split; constructor; done).
    assert (forall p, content (i :: k) p = content (i :: l) p) as Hck.
    { intros p. cbn [content]. by rewrite Hct. }
    assert (Exists (fun j => iv_start j + iv_length j = n) (i :: k)) as Hxk.
    { destruct (decide (iv_start i + iv_length i = n)); [by constructor|]. right. apply Hex. lia. }
    assert (Forall (fun j => iv_start i + iv_length i <= iv_start j) k) as Hge by done.
    destruct (Z.ltb_spec c (iv_start i)); simpl app.
    + rewrite wsub_u64_small by lia. split_and!.
      * destruct Hwk as [Hok' Hss']. split; constructor; [| |done|].
        { unfold iv_ok; simpl; lia. } { done. }
        constructor; [unfold before; simpl; lia|]. eapply Forall_impl; [exact Hge|].
        unfold before; simpl; lia.
      * constructor; [simpl; lia|by constructor].
      * constructor; [simpl; lia|]. constructor; [done|]. eapply Forall_impl; [exact Hge|]. simpl; lia.
      * intros p. cbn [content]. unfold covers at 1; simpl.
        destruct ((c <=? p) && _) eqn:E; [|apply Hck]. symmetry. apply wf_gap; [done|lia].
      * intros _. by right.
    + split_and!; [done|by constructor| |done|done].
      constructor; [lia|]. eapply Forall_impl; [exact Hge|]. simpl; lia.
Qed.

Lemma interval_of_extent_of (vol ino v now id : Z) (i : Interval) :
  interval_of_extent (extent_of_interval vol ino v now id i) = i.
Proof. by destruct i as [? ? []]. Qed.

Lemma replay_fold (es : list ByteExtent) (m : ExtentMap) :
  fold_left replay_step es m =
  mkExtentMap (intervals m ++ (interval_of_extent <$> es))
    (fold_left (fun v e => Z.max v (be_version e)) es (version m))
    (fold_left (fun n e => Z.max n (saturating_add (be_start e) (be_length e))) es (file_size m))
    (historical m).
Proof.
  revert m. induction es as [|e es IH]; intros m; simpl.
  - rewrite app_nil_r. by destruct m.
  - rewrite IH. simpl. by rewrite <- app_assoc.
Qed.

Lemma fold_max_bound {A : Type} (f : A -> Z) (l : list A) (a n : Z) :
  a <= n -> Forall (fun x => f x <= n) l -> (a = n \/ Exists (fun x => f x = n) l) ->
  fold_left (fun b x => Z.max b (f x)) l a = n.
Proof.
  revert a. induction l as [|x l IH]; intros a Ha Hf Hx; simpl.
  - destruct Hx as [?|Hx]; [done|by apply Exists_nil in Hx].
  - apply Forall_cons in Hf as [Hfx Hf]. apply IH; [lia|done|].
    destruct Hx as [->|[Hx|Hx]%Exists_cons]; [left; lia|left; lia|by right].
Qed.

Lemma extent_of_interval_fields (vol ino v now id : Z) (i : Interval) :
  let e := extent_of_interval vol ino v now id i in
  be_start e = iv_start i /\ be_length e = iv_length i /\ be_version e = v.
Proof. by destruct i as [? ? []]. Qed.

Lemma to_extents_rows (m : ExtentMap) (vol ino v now : Z) (ids : nat -> Hash) :
  interval_of_extent <$> to_extents m vol ino v now ids = fill_holes (intervals m) 0 (file_size m).
Proof.
  unfold to_extents. rewrite fmap_imap. rewrite <- (list_fmap_id (fill_holes _ _ _)) at 2.
  rewrite <- imap_const. apply imap_ext. intros. apply interval_of_extent_of.
Qed.

Lemma to_extents_elem (m : ExtentMap) (vol ino v now : Z) (ids : nat -> Hash) (e : ByteExtent) :
  e ∈ to_extents m vol ino v now ids ->
  exists n i, i ∈ fill_holes (intervals m) 0 (file_size m) /\
    e = extent_of_interval vol ino v now (ids n) i.
Proof.
  intros (n & Hn)%list_elem_of_lookup_1. unfold to_extents in Hn. rewrite list_lookup_imap in Hn.
  apply fmap_Some in Hn as (i & Hi & ->). exists n, i. split; [|done]. by eapply list_elem_of_lookup_2.
Qed.

Lemma wf_sort_id (l : list Interval) : wf l -> sort_by_key iv_start l = l.
Proof.
  intros [Hok Hs]. apply sort_by_id. induction Hs as [|i l Hs IH Hi]; [constructor|].
  apply Forall_cons in Hok as [(?&?&_) Hl]. constructor; [auto|].
  eapply Forall_impl; [exact Hi|]. intros j Hj. apply Z.leb_le. unfold before in Hj. lia.
Qed.

Lemma fill_holes_nil (l : list Interval) (n : Z) :
  wf (fill_holes l 0 n) -> 0 <= n -> ends_within n (fill_holes l 0 n) ->
  (0 < n -> Exists (fun i => iv_start i + iv_length i = n) (fill_holes l 0 n)) ->
  fill_holes l 0 n = [] <-> n = 0.
Proof.
  intros [Hok _] Hn Hb Hx. split.
  - intros E. rewrite E in Hx. destruct (decide (n = 0)); [done|].
    specialize (Hx ltac:(lia)). by apply Exists_nil in Hx.
  - intros ->. destruct (fill_holes l 0 0) as [|i k]; [done|].
    apply Forall_cons in Hok as [(?&?&_) _]. apply Forall_cons in Hb as [? _]. lia.
Qed.

Lemma replay_version (rows : list ByteExtent) (v : Z) :
  Forall (fun e => be_version e = v) rows -> 0 <= v ->
  version (replay rows) = if decide (rows = []) then 0 else v.
Proof.
  intros Hv Hpos. unfold replay. rewrite replay_fold. simpl. case_decide as E; [by subst|].
  apply fold_max_bound; [done| |].
  - eapply Forall_impl; [exact Hv|]. simpl. lia.
  - right. destruct rows as [|e rows]; [done|]. apply Forall_cons in Hv as [? _]. by left.
Qed.

Lemma replay_file_size (rows : list ByteExtent) (n : Z) :
  0 <= n <= u64_max -> ends_within n (interval_of_extent <$> rows) ->
  (0 < n -> Exists (fun i => iv_start i + iv_length i = n) (interval_of_extent <$> rows)) ->
  file_size (replay rows) = n.
Proof.
  intros Hn Hb Hx. unfold replay. rewrite replay_fold. simpl.
  apply (fold_max_bound (fun e => saturating_add (be_start e) (be_length e))); [lia| |].
  - unfold ends_within in Hb. rewrite Forall_fmap in Hb. eapply Forall_impl; [exact Hb|].
    intros e. simpl. unfold saturating_add. lia.
  - destruct (decide (0 = n)); [by left|right]. specialize (Hx ltac:(lia)).
    rewrite Exists_fmap in Hx. eapply Exists_impl; [exact Hx|].
    intros e. simpl. unfold saturating_add. lia.
Qed.

Lemma to_extents_valid (m : ExtentMap) (vol ino v now : Z) (ids : nat -> Hash) :
  wf (fill_holes (intervals m) 0 (file_size m)) ->
  Forall (fun row => ByteExtent_validate row = Ok () /\ be_version row = v)
    (to_extents m vol ino v now ids).
Proof.
  intros [Hok _]. apply Forall_forall. intros e (n & i & Hi & ->)%to_extents_elem.
  rewrite Forall_forall in Hok. destruct (Hok i Hi) as (?&?&_).
  destruct i as [st ln []]; unfold ByteExtent_validate; simpl in *;
    (destruct (Z.eqb_spec ln 0); [lia|done]).
Qed.

(** ** Properties *)

(** A dirty write is local.  On a well-formed map, [write_at] of a
    non-empty range that fits 64 bits succeeds, keeps the invariant, bumps the
    version, extends the EOF to the end of the range if needed and changes the
    source of exactly the written bytes: inside the range byte [start + k]
    comes from payload byte [payload_offset + k], everywhere else nothing
    moves.  A range past [u64::MAX] is an [InvalidArgument] error. *)
Theorem write_at_replaces_range (m : ExtentMap) (start length : Z) (pid : Hash) (off : Z) :
  map_ok m -> in_u64 start -> in_u64 length -> length <> 0 -> 0 <= off -> off + length <= u64_max ->
  match write_at m start length pid off with
  | Ok m' => start + length <= u64_max /\ map_ok m' /\
      file_size m' = Z.max (file_size m) (start + length) /\
      version m' = wadd_i64 (version m) 1 /\
      forall p, content (intervals m') p =
        if (start <=? p) && (p <? start + length) then SDirty pid (off + (p - start))
        else content (intervals m) p
  | Err e => kind e = InvalidArgument /\ u64_max < start + length
  end.
Proof.
  intros Hm Hs [? ?] Hl Ho1 Ho2. destruct (decide (start + length <= u64_max)) as [Hle|Hgt].
  - destruct (write_at_ok m start length pid off) as (m' & -> & ?); [done|done|lia..|]. done.
  - rewrite write_at_overflow by lia. split; [done|lia].
Qed.

(** A read resolves exactly the requested bytes below the EOF.  On a
    well-formed map, [read start length] with a range that does not overflow
    returns slices that are non-empty and contiguous from [start] to
    [min (start + length) file_size], and expanding them byte by byte gives
    the source [content] assigns to each offset; a request at or past the EOF,
    or of no bytes, returns no slice. *)
Theorem read_resolves_content (m : ExtentMap) (start length : Z) :
  map_ok m -> in_u64 start -> in_u64 length -> start + length <= u64_max ->
  exists slices, read m start length = Ok slices /\
    if (length =? 0) || (file_size m <=? start) then slices = []
    else reads_as (content (intervals m)) start slices (read_end m start length) /\
         concat (slice_bytes <$> slices) =
         content (intervals m) <$> seqZ start (read_end m start length - start).
Proof. apply read_total. Qed.

(** A shrunken file never exposes stale bytes.  After [truncate a] and
    then [truncate b], the file has size [b], bytes below both lengths keep
    their source, and every byte at or past the smaller length reads as zero,
    whatever the map held before. *)
Theorem truncate_regrow_reads_zero (m : ExtentMap) (a b : Z) :
  map_ok m -> in_u64 a -> in_u64 b ->
  exists m1 m2, truncate m a = Ok m1 /\ truncate m1 b = Ok m2 /\ map_ok m2 /\ file_size m2 = b /\
    forall p, content (intervals m2) p =
      if p <? Z.min a b then content (intervals m) p else SZero.
Proof.
  intros Hm Ha Hb. destruct (truncate_ok m a) as (m1 & H1 & Hm1 & _ & _ & Hc1); [done..|].
  destruct (truncate_ok m1 b) as (m2 & H2 & Hm2 & Hs2 & _ & Hc2); [done..|].
  exists m1, m2. refine (conj H1 (conj H2 (conj Hm2 (conj Hs2 _)))).
  intros p. rewrite Hc2, Hc1. zcase; done || lia.
Qed.

(** The durable rows replay to the same file. *)
Lemma to_extents_replay_ok (m : ExtentMap) (vol ino v now : Z) (ids : nat -> Hash) :
  map_ok m -> 0 <= v ->
  let rows := to_extents m vol ino v now ids in
  let m' := replay rows in
  map_ok m' /\ file_size m' = file_size m /\ historical m' = true /\
  version m' = (if file_size m =? 0 then 0 else v) /\
  (forall p, content (intervals m') p = content (intervals m) p) /\
  Forall (fun row => ByteExtent_validate row = Ok ()) rows.
Proof.
  intros (Hwf & [Hf1 Hf2] & Hin) Hv rows m'. pose proof Hwf as [Hok _].
  destruct (fill_holes_spec (intervals m) 0 (file_size m)) as (Hwk & Hbk & _ & Hck & Hxk);
    [done|lia|done|done|eapply Forall_impl; [exact Hok|]; intros i (?&_); done|].
  assert (interval_of_extent <$> rows = fill_holes (intervals m) 0 (file_size m)) as Hrows
    by apply to_extents_rows.
  assert (intervals m' = fill_holes (intervals m) 0 (file_size m)) as Hk.
  { subst m'. unfold replay. rewrite replay_fold. simpl. setoid_rewrite Hrows. by apply wf_sort_id. }
  assert (file_size m' = file_size m) as Hsize.
  { apply replay_file_size; [done|by rewrite Hrows|by rewrite Hrows]. }
  pose proof (to_extents_valid m vol ino v now ids Hwk) as Hval. fold rows in Hval.
  refine (conj (conj _ (conj _ _)) (conj Hsize (conj _ (conj _ (conj _ _))))).
  - by rewrite Hk.
  - by rewrite Hsize.
  - by rewrite Hk, Hsize.
  - done.
  - subst m'. rewrite (replay_version rows v);
      [|eapply Forall_impl; [exact Hval|]; naive_solver|done].
    pose proof (fill_holes_nil _ _ Hwk Hf1 Hbk Hxk) as Hnil. rewrite <- Hrows in Hnil.
    destruct (Z.eqb_spec (file_size m) 0) as [E|E]; case_decide as E'; try done.
    + by apply Hnil, fmap_nil_inv in E.
    + rewrite E' in Hnil. by destruct E; apply Hnil.
  - intros p. by rewrite Hk.
  - eapply Forall_impl; [exact Hval|]. naive_solver.
Qed.

(** The durable rows reproduce the file.  Serializing a well-formed map
    with [to_extents] and rebuilding it with [replay] gives a well-formed map
    with the same EOF and the same source for every byte, marked historical;
    its version is the serialized one (zero when the file is empty, which is
    why the head row exists), and every emitted row passes the database's
    [validate]. *)
Theorem to_extents_replay_roundtrip (m : ExtentMap) (vol ino v now : Z) (ids : nat -> Hash) :
  map_ok m -> 0 <= v ->
  let rows := to_extents m vol ino v now ids in
  let m' := replay rows in
  map_ok m' /\ file_size m' = file_size m /\ historical m' = true /\
  version m' = (if file_size m =? 0 then 0 else v) /\
  (forall p, content (intervals m') p = content (intervals m) p) /\
  Forall (fun row => ByteExtent_validate row = Ok ()) rows.
Proof. apply to_extents_replay_ok. Qed.

(** ** Refinement of an abstract file

    The specification is a size and a byte function; the operations are the
    engine's writes and truncates.  A write whose range does not fit 64 bits
    is refused by both sides. *)
Record AFile : Type := mkAFile { a_size : Z; a_byte : Z -> ExtentSource }.

Inductive FileOp : Set :=
| OpWrite (start length : Z) (payload_id : Hash) (payload_offset : Z)
| OpTruncate (length : Z).

Definition op_ok (op : FileOp) : Prop :=
  match op with
  | OpWrite start length _ off => in_u64 start /\ in_u64 length /\ 0 <= off /\ off + length <= u64_max
  | OpTruncate n => in_u64 n
  end.

Definition abs_step (a : AFile) (op : FileOp) : option AFile :=
  match op with
  | OpWrite start length pid off =>
      if length =? 0 then Some a
      else if start + length <=? u64_max
      then Some (mkAFile (Z.max (a_size a) (start + length))
                  (fun p => if (start <=? p) && (p <? start + length)
                            then SDirty pid (off + (p - start)) else a_byte a p))
      else None
  | OpTruncate n => Some (mkAFile n (fun p => if p <? n then a_byte a p else SZero))
  end.

Definition conc_step (m : ExtentMap) (op : FileOp) : result ExtentMap :=
  match op with
  | OpWrite start length pid off => write_at m start length pid off
  | OpTruncate n => truncate m n
  end.

Fixpoint abs_run (a : AFile) (ops : list FileOp) : option AFile :=
  match ops with
  | [] => Some a
  | op :: ops' => match abs_step a op with Some a' => abs_run a' ops' | None => None end
  end.
Fixpoint conc_run (m : ExtentMap) (ops : list FileOp) : result ExtentMap :=
  match ops with
  | [] => Ok m
  | op :: ops' => m' ← conc_step m op; conc_run m' ops'
  end.

Definition refines (m : ExtentMap) (a : AFile) : Prop :=
  map_ok m /\ file_size m = a_size a /\ forall p, content (intervals m) p = a_byte a p.

Lemma conc_step_refines (m : ExtentMap) (a : AFile) (op : FileOp) :
  refines m a -> op_ok op ->
  match conc_step m op, abs_step a op with
  | Ok m', Some a' => refines m' a'
  | Err e, None => kind e = InvalidArgument
  | _, _ => False
  end.
Proof.
  intros (Hm & Hs & Hc) Hop. destruct op as [start length pid off|n]; cbn [conc_step abs_step op_ok] in *.
  - destruct Hop as (H1 & H2 & H3 & H4). destruct (Z.eqb_spec length 0) as [->|Hl].
    { unfold write_at. simpl. done. }
    unfold in_u64 in *. destruct (Z.leb_spec (start + length) u64_max);
      [|rewrite write_at_overflow by lia; done].
    destruct (write_at_ok m start length pid off) as (m' & -> & Hm' & Hs' & _ & Hc');
      [done|done|lia..|]. refine (conj Hm' (conj _ _)); simpl.
    + by rewrite Hs', Hs.
    + intros p. rewrite Hc'. by case_match.
  - destruct (truncate_ok m n) as (m' & -> & Hm' & Hs' & _ & Hc'); [done..|].
    refine (conj Hm' (conj Hs' _)); simpl. intros p. rewrite Hc'. by case_match.
Qed.

Lemma conc_run_refines (ops : list FileOp) (m : ExtentMap) (a : AFile) :
  refines m a -> Forall op_ok ops ->
  match conc_run m ops, abs_run a ops with
  | Ok m', Some a' => refines m' a'
  | Err e, None => kind e = InvalidArgument
  | _, _ => False
  end.
Proof.
  revert m a. induction ops as [|op ops IH]; intros m a Hr Hops; simpl; [done|].
  apply Forall_cons in Hops as [Hop Hops]. pose proof (conc_step_refines m a op Hr Hop) as Hstep.
  destruct (conc_step m op) as [m'|e], (abs_step a op) as [a'|]; try done. simpl. by apply IH.
Qed.

(** The file a fresh map seeded with [n] base bytes stands for. *)
Definition base_file (n : Z) (h : Hash) : AFile :=
  mkAFile n (fun p => if (0 <=? p) && (p <? n) then SBase h p else SZero).

Lemma seed_base_refines (n : Z) (h : Hash) :
  in_u64 n -> refines (seed_base ExtentMap_default n h) (base_file n h).
Proof.
  intros [? ?]. unfold seed_base, refines, map_ok, wf, base_file. simpl.
  destruct (Z.eqb_spec n 0) as [->|]; simpl.
  - refine (conj (conj (conj _ _) (conj _ _)) (conj _ _)); try constructor; try (unfold in_u64; lia).
    intros p. zcase; done || lia.
  - refine (conj (conj (conj _ _) (conj _ _)) (conj _ _)).
    + constructor; [|constructor]. unfold iv_ok; simpl. lia.
    + repeat constructor.
    + unfold in_u64. lia.
    + repeat constructor; simpl. lia.
    + lia.
    + intros p. unfold covers; simpl. zcase; simpl; try done; f_equal; lia.
Qed.

(** C1: the extent map implements a file.  Starting from a map seeded with a
    base of [n] bytes, any sequence of writes and truncates either runs on both
    the map and the abstract file or is refused by both with
    [InvalidArgument]; when it runs, the map keeps its invariant, has the
    abstract size and gives every byte the abstract source, so that a later
    [read] returns slices spelling exactly the abstract file's bytes. *)
Theorem extent_map_refines_file (n : Z) (h : Hash) (ops : list FileOp) (start length : Z) :
  in_u64 n -> Forall op_ok ops -> in_u64 start -> in_u64 length -> start + length <= u64_max ->
  match conc_run (seed_base ExtentMap_default n h) ops, abs_run (base_file n h) ops with
  | Ok m, Some a => refines m a /\
      exists slices, read m start length = Ok slices /\
        concat (slice_bytes <$> slices) =
        a_byte a <$> seqZ start (Z.max 0 (Z.min (start + length) (a_size a) - start))
  | Err e, None => kind e = InvalidArgument
  | _, _ => False
  end.
Proof.
  intros Hn Hops Hs Hl Hsum.
  pose proof (conc_run_refines ops _ _ (seed_base_refines n h Hn) Hops) as Hr.
  destruct (conc_run _ ops) as [m|e], (abs_run _ ops) as [a|]; try done.
  split; [done|]. destruct Hr as (Hm & Hsz & Hc).
  destruct (read_total m start length) as (slices & Hread & Hsl); [done..|].
  exists slices. split; [done|]. rewrite <- Hsz. unfold in_u64, read_end in *.
  destruct ((length =? 0) || (file_size m <=? start)) eqn:E.
  - subst slices. rewrite Z.max_l by (zcase_in E; lia). done.
  - destruct Hsl as [_ ->]. zbool. rewrite Z.max_r by lia.
    apply list_fmap_ext. intros. apply Hc.
Qed.

(** ** Witnesses *)
Definition demo_intervals : list Interval :=
  [mkInterval 0 10 (SBase 3 0); mkInterval 10 4 (SDirty 1 0); mkInterval 14 6 (SDirty 1 4);
   mkInterval 30 5 SZero].
Definition demo_map : ExtentMap := mkExtentMap demo_intervals 2 40 false.

Lemma demo_wf : wf demo_intervals.
Proof.
  split; repeat constructor; unfold before; vm_compute; done || discriminate.
Qed.
Lemma demo_map_ok : map_ok demo_map.
Proof.
  split; [apply demo_wf|]. split; [split; vm_compute; discriminate|].
  repeat constructor; vm_compute; discriminate.
Qed.

Ltac u64_lit := vm_compute; repeat split; discriminate.

Lemma coalesce_preserves_content_witness :
  wf (coalesce demo_intervals) /\ content (coalesce demo_intervals) 15 = SDirty 1 5 /\
  merge_first (coalesce demo_intervals) = None.
Proof. apply (coalesce_preserves_content demo_intervals 15 demo_wf). Defined.

Lemma read_resolves_content_witness :
  exists slices, read demo_map 12 25 = Ok slices /\
    reads_as (content demo_intervals) 12 slices 37 /\
    concat (slice_bytes <$> slices) = content demo_intervals <$> seqZ 12 25.
Proof.
  apply (read_resolves_content demo_map 12 25 demo_map_ok); u64_lit.
Defined.

Lemma write_at_replaces_range_witness :
  exists m', write_at demo_map 5 20 7 100 = Ok m' /\ map_ok m' /\
    content (intervals m') 6 = SDirty 7 101.
Proof.
  pose proof (write_at_replaces_range demo_map 5 20 7 100 demo_map_ok
    ltac:(u64_lit) ltac:(u64_lit) ltac:(discriminate) ltac:(discriminate) ltac:(u64_lit)) as H.
  destruct (write_at demo_map 5 20 7 100) as [m'|e] eqn:E; [|discriminate E].
  exists m'. split; [done|]. split; [apply H|]. apply (proj2 (proj2 (proj2 (proj2 H))) 6).
Defined.

Lemma truncate_regrow_reads_zero_witness :
  exists m1 m2, truncate demo_map 12 = Ok m1 /\ truncate m1 40 = Ok m2 /\ map_ok m2 /\
    file_size m2 = 40 /\
    forall p, content (intervals m2) p = if p <? 12 then content demo_intervals p else SZero.
Proof. apply (truncate_regrow_reads_zero demo_map 12 40 demo_map_ok); u64_lit. Defined.

Lemma to_extents_replay_roundtrip_witness :
  file_size (replay (to_extents demo_map 1 2 3 4 Z.of_nat)) = 40.
Proof.
  apply (to_extents_replay_roundtrip demo_map 1 2 3 4 Z.of_nat demo_map_ok). discriminate.
Defined.

Lemma extent_map_refines_file_witness :
  match conc_run (seed_base ExtentMap_default 100 3) [OpWrite 10 4 1 0; OpTruncate 12],
        abs_run (base_file 100 3) [OpWrite 10 4 1 0; OpTruncate 12] with
  | Ok m, Some a => refines m a /\
      exists slices, read m 8 10 = Ok slices /\
        concat (slice_bytes <$> slices) = a_byte a <$> seqZ 8 (Z.max 0 (Z.min (8 + 10) (a_size a) - 8))
  | Err e, None => kind e = InvalidArgument
  | _, _ => False
  end.
Proof.
  apply (extent_map_refines_file 100 3 [OpWrite 10 4 1 0; OpTruncate 12] 8 10);
    [u64_lit|repeat constructor; vm_compute; discriminate|u64_lit|u64_lit|u64_lit].
Defined.
