(* ===== verification/Handles.v ===== *)
(** * Open-handle table

    [mirage-engine/src/handles.rs].  The table maps an inode to counters over
    its open handles and a delete-pending flag.  The two mutexes serialize the
    operations; one operation is one transition.  The closures the source
    takes ([unlink], [replace]) run in a caller-supplied world [W].

    The specification ([AHandles]) keeps the open handles themselves; the
    refinement shows that the counters decide exactly what the handles say. *)
From S2P Require Export Errors.

(** ** Data *)
Record ShareAccess : Set := mkShare { sh_read : bool; sh_write : bool; sh_delete : bool }.
Record DesiredAccess : Set := mkDesired { de_read : bool; de_write : bool; de_delete : bool }.

Definition ShareAccess_ALL : ShareAccess := mkShare true true true.
Definition ShareAccess_READ_WRITE : ShareAccess := mkShare true true false.
Definition ShareAccess_READ : ShareAccess := mkShare true false false.

Record OpenRecord : Set := mkOpenRecord {
  opens : Z;
  share_read : Z; share_write : Z; share_delete : Z;
  desired_read : Z; desired_write : Z; desired_delete : Z;
  delete_pending : bool
}.

Inductive DeleteDisposition : Set := Removed | Pending.

#[export] Instance ShareAccess_eq_dec : EqDecision ShareAccess.
Proof. solve_decision. Defined.
#[export] Instance DesiredAccess_eq_dec : EqDecision DesiredAccess.
Proof. solve_decision. Defined.

(** ** Operations *)
Definition handle_open (t : gmap Z OpenRecord) (inode : Z) (desired : DesiredAccess) (share : ShareAccess)
  : result () * gmap Z OpenRecord :=
  match t !! inode with
  | Some r =>
      if delete_pending r then (Err (repository_conflict "file is delete-pending"), t)
      else if (de_read desired && (share_read r <? opens r))
           || (de_write desired && (share_write r <? opens r))
           || (de_delete desired && (share_delete r <? opens r))
      then (Err (repository_conflict "share access conflicts with an open handle"), t)
      else
        let bump (b : bool) (n : Z) := if b then wadd_u32 n 1 else n in
        (Ok (), <[inode := mkOpenRecord (wadd_u32 (opens r) 1)
          (bump (sh_read share) (share_read r)) (bump (sh_write share) (share_write r))
          (bump (sh_delete share) (share_delete r))
          (bump (de_read desired) (desired_read r)) (bump (de_write desired) (desired_write r))
          (bump (de_delete desired) (desired_delete r)) false]> t)
  | None =>
      (Ok (), <[inode := mkOpenRecord 1
        (Z.b2z (sh_read share)) (Z.b2z (sh_write share)) (Z.b2z (sh_delete share))
        (Z.b2z (de_read desired)) (Z.b2z (de_write desired)) (Z.b2z (de_delete desired)) false]> t)
  end.

Definition handle_close (t : gmap Z OpenRecord) (inode : Z) (desired : DesiredAccess) (share : ShareAccess)
  : result bool * gmap Z OpenRecord :=
  match t !! inode with
  | None => (Ok false, t)
  | Some r =>
      let r' := mkOpenRecord (saturating_sub (opens r) 1)
        (saturating_sub (share_read r) (Z.b2z (sh_read share)))
        (saturating_sub (share_write r) (Z.b2z (sh_write share)))
        (saturating_sub (share_delete r) (Z.b2z (sh_delete share)))
        (saturating_sub (desired_read r) (Z.b2z (de_read desired)))
        (saturating_sub (desired_write r) (Z.b2z (de_write desired)))
        (saturating_sub (desired_delete r) (Z.b2z (de_delete desired)))
        (delete_pending r) in
      if opens r' =? 0 then (Ok (delete_pending r'), delete inode t)
      else (Ok false, <[inode := r']> t)
  end.

Definition set_pending (r : OpenRecord) : OpenRecord :=
  mkOpenRecord (opens r) (share_read r) (share_write r) (share_delete r)
    (desired_read r) (desired_write r) (desired_delete r) true.

Definition delete_with {W : Type} (t : gmap Z OpenRecord) (inode : Z)
  (unlink : W -> result () * W) (w : W) : result DeleteDisposition * gmap Z OpenRecord * W :=
  match t !! inode with
  | Some r =>
      if desired_delete r =? 0
      then (Err (repository_conflict "open handles did not grant delete sharing"), t, w)
      else match unlink w with
           | (Ok _, w') => (Ok Pending, <[inode := set_pending r]> t, w')
           | (Err e, w') => (Err e, t, w')
           end
  | None =>
      match unlink w with
      | (Ok _, w') => (Ok Removed, t, w')
      | (Err e, w') => (Err e, t, w')
      end
  end.

Definition request_delete (t : gmap Z OpenRecord) (inode : Z) : result DeleteDisposition * gmap Z OpenRecord :=
  let '(r, t', _) := delete_with t inode (fun w : () => (Ok (), w)) () in (r, t').

Definition is_open (t : gmap Z OpenRecord) (inode : Z) : bool :=
  match t !! inode with Some _ => true | None => false end.

Definition is_delete_pending (t : gmap Z OpenRecord) (inode : Z) : bool :=
  match t !! inode with Some r => delete_pending r | None => false end.

Definition replace_closed_with {W : Type} (t : gmap Z OpenRecord) (victim : option Z)
  (replace : W -> result () * W) (w : W) : result () * W :=
  if match victim with Some i => is_open t i | None => false end
  then (Err (repository_conflict "rename target is open"), w)
  else replace w.

Definition with_closed_inodes {W R : Type} (t : gmap Z OpenRecord) (inodes : list Z)
  (operation : W -> R * W) (w : W) : result (option R) * W :=
  if existsb (is_open t) inodes then (Ok None, w)
  else let '(r, w') := operation w in (Ok (Some r), w').

(** ** Specification: the handles themselves *)
Record Handle : Set := mkHandle { h_desired : DesiredAccess; h_share : ShareAccess }.
#[export] Instance Handle_eq_dec : EqDecision Handle.
Proof. solve_decision. Defined.

(** Per inode: the live handles (never empty) and the pending flag. *)
Definition AHandles : Type := gmap Z (list Handle * bool).

(** Every live handle grants what the opener asks for. *)
Definition grants (d : DesiredAccess) (h : Handle) : bool :=
  (negb (de_read d) || sh_read (h_share h)) &&
  (negb (de_write d) || sh_write (h_share h)) &&
  (negb (de_delete d) || sh_delete (h_share h)).

Definition a_open (a : gmap Z (list Handle * bool)) (inode : Z) (h : Handle) : bool * gmap Z (list Handle * bool) :=
  match (a !! inode : option (list Handle * bool)) with
  | Some (hs, pending) =>
      if pending then (false, a)
      else if forallb (grants (h_desired h)) hs then (true, <[inode := (h :: hs, false)]> a)
      else (false, a)
  | None => (true, <[inode := ([h], false)]> a)
  end.

(** Closing a live handle; [true] when the last close finishes a pending delete. *)
Definition a_close (a : gmap Z (list Handle * bool)) (inode : Z) (h : Handle) : bool * gmap Z (list Handle * bool) :=
  match (a !! inode : option (list Handle * bool)) with
  | Some (hs, pending) =>
      match remove_one h hs with
      | Some [] => (pending, delete inode a)
      | Some hs' => (false, <[inode := (hs', pending)]> a)
      | None => (false, a)
      end
  | None => (false, a)
  end.

Definition a_delete (a : gmap Z (list Handle * bool)) (inode : Z) : option DeleteDisposition * gmap Z (list Handle * bool) :=
  match (a !! inode : option (list Handle * bool)) with
  | Some (hs, pending) =>
      if existsb (fun h => de_delete (h_desired h)) hs
      then (Some Pending, <[inode := (hs, true)]> a) else (None, a)
  | None => (Some Removed, a)
  end.

(** The counters of a record are the counts over the live handles. *)
Definition record_of (hs : list Handle) (pending : bool) : OpenRecord :=
  mkOpenRecord (Z.of_nat (length hs))
    (cnt (fun h => sh_read (h_share h)) hs) (cnt (fun h => sh_write (h_share h)) hs)
    (cnt (fun h => sh_delete (h_share h)) hs)
    (cnt (fun h => de_read (h_desired h)) hs) (cnt (fun h => de_write (h_desired h)) hs)
    (cnt (fun h => de_delete (h_desired h)) hs) pending.

Definition handles_ok (a : gmap Z (list Handle * bool)) : Prop :=
  map_Forall (fun _ x => x.1 <> [] /\ Z.of_nat (length x.1) < u32_max) a.

Definition table_refines (t : gmap Z OpenRecord) (a : gmap Z (list Handle * bool)) : Prop :=
  handles_ok a /\ forall i, t !! i = (fun x => record_of x.1 x.2) <$> a !! i.

(** ** Counting lemmas *)
Lemma record_of_perm (hs hs' : list Handle) (p : bool) : hs ≡ₚ hs' -> record_of hs p = record_of hs' p.
Proof. intros HP. unfold record_of. by rewrite HP. Qed.

Lemma share_test (d : bool) (f : Handle -> bool) (hs : list Handle) :
  (d && (cnt f hs <? Z.of_nat (length hs))) = negb (forallb (fun h => negb d || f h) hs).
Proof.
  destruct d; simpl.
  - pose proof (cnt_full f hs). destruct (forallb f hs); zcase; simpl; try done; naive_solver lia.
  - induction hs; done.
Qed.

Lemma forallb_grants (d : DesiredAccess) (hs : list Handle) :
  forallb (grants d) hs =
  forallb (fun h => negb (de_read d) || sh_read (h_share h)) hs &&
  forallb (fun h => negb (de_write d) || sh_write (h_share h)) hs &&
  forallb (fun h => negb (de_delete d) || sh_delete (h_share h)) hs.
Proof.
  induction hs as [|h hs IH]; [done|]. cbn [forallb]. rewrite IH. unfold grants.
  destruct (negb (de_read d) || sh_read (h_share h)), (negb (de_write d) || sh_write (h_share h)),
    (negb (de_delete d) || sh_delete (h_share h)); simpl; rewrite ?andb_false_r; done.
Qed.

(** The open's conflict test is "some live handle denies the access". *)
Lemma conflict_test (d : DesiredAccess) (hs : list Handle) (p : bool) :
  (de_read d && (share_read (record_of hs p) <? opens (record_of hs p)))
  || (de_write d && (share_write (record_of hs p) <? opens (record_of hs p)))
  || (de_delete d && (share_delete (record_of hs p) <? opens (record_of hs p)))
  = negb (forallb (grants d) hs).
Proof. simpl. rewrite !share_test, forallb_grants, !negb_andb. done. Qed.

Lemma bump_cnt (f : Handle -> bool) (h : Handle) (hs : list Handle) :
  Z.of_nat (length hs) < u32_max ->
  (if f h then wadd_u32 (cnt f hs) 1 else cnt f hs) = cnt f (h :: hs).
Proof.
  intros. pose proof (cnt_bounds f hs). rewrite cnt_cons.
  destruct (f h); simpl; [rewrite wadd_u32_small by lia|]; lia.
Qed.

Lemma drop_cnt (f : Handle -> bool) (h : Handle) (hs hs' : list Handle) :
  hs ≡ₚ h :: hs' -> saturating_sub (cnt f hs) (Z.b2z (f h)) = cnt f hs'.
Proof.
  intros HP. rewrite (cnt_perm _ _ _ HP), cnt_cons. pose proof (cnt_bounds f hs').
  unfold saturating_sub. lia.
Qed.

Lemma record_of_cons (h : Handle) (hs : list Handle) (p : bool) :
  Z.of_nat (length hs) < u32_max ->
  let r := record_of hs p in
  let bump (b : bool) (n : Z) := if b then wadd_u32 n 1 else n in
  mkOpenRecord (wadd_u32 (opens r) 1)
    (bump (sh_read (h_share h)) (share_read r)) (bump (sh_write (h_share h)) (share_write r))
    (bump (sh_delete (h_share h)) (share_delete r))
    (bump (de_read (h_desired h)) (desired_read r)) (bump (de_write (h_desired h)) (desired_write r))
    (bump (de_delete (h_desired h)) (desired_delete r)) false = record_of (h :: hs) false.
Proof.
  intros HL. unfold record_of. cbn -[cnt length].
  rewrite (bump_cnt (fun h => sh_read (h_share h))), (bump_cnt (fun h => sh_write (h_share h))),
    (bump_cnt (fun h => sh_delete (h_share h))), (bump_cnt (fun h => de_read (h_desired h))),
    (bump_cnt (fun h => de_write (h_desired h))), (bump_cnt (fun h => de_delete (h_desired h))) by done.
  rewrite wadd_u32_small by (cbn; lia). f_equal. cbn [length]. lia.
Qed.

Lemma record_of_one (h : Handle) :
  record_of [h] false =
  mkOpenRecord 1 (Z.b2z (sh_read (h_share h))) (Z.b2z (sh_write (h_share h))) (Z.b2z (sh_delete (h_share h)))
    (Z.b2z (de_read (h_desired h))) (Z.b2z (de_write (h_desired h))) (Z.b2z (de_delete (h_desired h))) false.
Proof. unfold record_of. rewrite !cnt_cons. f_equal; apply Z.add_0_r. Qed.

Lemma record_of_drop (h : Handle) (hs hs' : list Handle) (p : bool) :
  hs ≡ₚ h :: hs' ->
  let r := record_of hs p in
  mkOpenRecord (saturating_sub (opens r) 1)
    (saturating_sub (share_read r) (Z.b2z (sh_read (h_share h))))
    (saturating_sub (share_write r) (Z.b2z (sh_write (h_share h))))
    (saturating_sub (share_delete r) (Z.b2z (sh_delete (h_share h))))
    (saturating_sub (desired_read r) (Z.b2z (de_read (h_desired h))))
    (saturating_sub (desired_write r) (Z.b2z (de_write (h_desired h))))
    (saturating_sub (desired_delete r) (Z.b2z (de_delete (h_desired h))))
    (delete_pending r) = record_of hs' p.
Proof.
  intros HP. unfold record_of. cbn -[cnt length saturating_sub].
  rewrite (drop_cnt (fun h => sh_read (h_share h)) h hs hs'), (drop_cnt (fun h => sh_write (h_share h)) h hs hs'),
    (drop_cnt (fun h => sh_delete (h_share h)) h hs hs'), (drop_cnt (fun h => de_read (h_desired h)) h hs hs'),
    (drop_cnt (fun h => de_write (h_desired h)) h hs hs'), (drop_cnt (fun h => de_delete (h_desired h)) h hs hs') by done.
  f_equal. rewrite HP. unfold saturating_sub. cbn [length]. lia.
Qed.

(** ** Refinement plumbing *)
Lemma table_refines_insert (t : gmap Z OpenRecord) (a : gmap Z (list Handle * bool)) (i : Z) (hs : list Handle) (p : bool) :
  table_refines t a -> hs <> [] -> Z.of_nat (length hs) < u32_max ->
  table_refines (<[i := record_of hs p]> t) (<[i := (hs, p)]> a).
Proof.
  intros [Hok HR] Hne HL. split; [by apply map_Forall_insert_2|].
  intros j. destruct (decide (i = j)) as [<-|]; [by rewrite !lookup_insert_eq|by rewrite !lookup_insert_ne].
Qed.

Lemma table_refines_delete (t : gmap Z OpenRecord) (a : gmap Z (list Handle * bool)) (i : Z) :
  table_refines t a -> table_refines (delete i t) (delete i a).
Proof.
  intros [Hok HR]. split; [by apply map_Forall_delete|].
  intros j. destruct (decide (i = j)) as [<-|]; [by rewrite !lookup_delete_eq|by rewrite !lookup_delete_ne].
Qed.

Lemma table_refines_lookup (t : gmap Z OpenRecord) (a : gmap Z (list Handle * bool)) (i : Z) :
  table_refines t a ->
  match a !! i with
  | Some (hs, p) => t !! i = Some (record_of hs p) /\ hs <> [] /\ Z.of_nat (length hs) < u32_max
  | None => t !! i = None
  end.
Proof.
  intros [Hok HR]. specialize (HR i). destruct (a !! i) as [[hs p]|] eqn:E; [|done].
  by destruct (Hok _ _ E).
Qed.

Lemma open_refines (t : gmap Z OpenRecord) (a : gmap Z (list Handle * bool)) (i : Z) (h : Handle) :
  table_refines t a -> (forall hs p, a !! i = Some (hs, p) -> Z.of_nat (length hs) + 1 < u32_max) ->
  let '(ok, a') := a_open a i h in
  let '(res, t') := handle_open t i (h_desired h) (h_share h) in
  table_refines t' a' /\ (ok = true <-> res = Ok ()) /\ (ok = false -> t' = t).
Proof.
  intros HR HL. pose proof (table_refines_lookup t a i HR) as HI. unfold a_open, handle_open.
  destruct (a !! i) as [[hs p]|] eqn:Ea.
  - destruct HI as (-> & Hne & Hl). cbn [delete_pending record_of]. destruct p; [done|].
    rewrite conflict_test. destruct (forallb _ hs); cbn [negb]; [|done].
    rewrite record_of_cons by done. split; [|done]. apply table_refines_insert; [done..|].
    cbn [length]. specialize (HL _ _ eq_refl). lia.
  - rewrite HI, <- record_of_one. split; [|done]. by apply table_refines_insert.
Qed.

Lemma close_refines (t : gmap Z OpenRecord) (a : gmap Z (list Handle * bool)) (i : Z) (h : Handle) :
  table_refines t a -> (exists hs p, a !! i = Some (hs, p) /\ h ∈ hs) ->
  let '(last, a') := a_close a i h in
  let '(res, t') := handle_close t i (h_desired h) (h_share h) in
  table_refines t' a' /\ res = Ok last.
Proof.
  intros HR (hs & p & Ea & Hin). pose proof (table_refines_lookup t a i HR) as HI.
  unfold a_close, handle_close. rewrite Ea in HI |- *. destruct HI as (-> & _ & Hl).
  destruct (remove_one_elem h hs Hin) as [hs' E]. rewrite E. pose proof (remove_one_perm _ _ _ E) as HP.
  rewrite (record_of_drop h hs hs') by done. cbn [opens delete_pending record_of].
  destruct hs' as [|h' hs']; cbn [length].
  - split; [by apply table_refines_delete|done].
  - rewrite (proj2 (Z.eqb_neq _ _)) by lia. split; [|done].
    apply table_refines_insert; [done..|]. rewrite HP in Hl. cbn [length] in *. lia.
Qed.

Lemma delete_refines {W : Type} (t : gmap Z OpenRecord) (a : gmap Z (list Handle * bool)) (i : Z)
  (unlink : W -> result () * W) (w w' : W) :
  table_refines t a -> unlink w = (Ok (), w') ->
  let '(d, a') := a_delete a i in
  let '(res, t', w'') := delete_with t i unlink w in
  table_refines t' a' /\
  match d with
  | Some d => res = Ok d /\ w'' = w'
  | None => is_Some (a !! i) /\ res = Err (repository_conflict "open handles did not grant delete sharing") /\ t' = t /\ w'' = w
  end.
Proof.
  intros HR HU. pose proof (table_refines_lookup t a i HR) as HI. unfold a_delete, delete_with.
  destruct (a !! i) as [[hs p]|] eqn:Ea; [|by rewrite HI, HU].
  destruct HI as (Ht & Hne & Hl). rewrite Ht. cbn [desired_delete record_of].
  pose proof (cnt_pos (fun h => de_delete (h_desired h)) hs) as HC.
  pose proof (cnt_bounds (fun h => de_delete (h_desired h)) hs).
  destruct (existsb _ hs).
  - rewrite (proj2 (Z.eqb_neq _ _)) by (assert (0 < cnt (fun h => de_delete (h_desired h)) hs) by (by apply HC); lia).
    rewrite HU. split; [|done]. by apply (table_refines_insert t a i hs true).
  - assert (~ 0 < cnt (fun h => de_delete (h_desired h)) hs) by (by intros ?%HC).
    rewrite (proj2 (Z.eqb_eq _ _)) by lia. by split_and!.
Qed.

(** ** Runs *)
Inductive HandleOp : Set :=
| HOpen (inode : Z) (h : Handle)
| HClose (inode : Z) (h : Handle)
| HDelete (inode : Z).

Inductive HandleOut : Set :=
| OOpened | ORefused | OClosed (finish_delete : bool) | ODeleted (d : DeleteDisposition) | ODeleteRefused.

Definition handle_step (t : gmap Z OpenRecord) (op : HandleOp) : HandleOut * gmap Z OpenRecord :=
  match op with
  | HOpen i h => let '(r, t') := handle_open t i (h_desired h) (h_share h) in
      (match r with Ok _ => OOpened | Err _ => ORefused end, t')
  | HClose i h => let '(r, t') := handle_close t i (h_desired h) (h_share h) in
      (match r with Ok b => OClosed b | Err _ => ORefused end, t')
  | HDelete i => let '(r, t') := request_delete t i in
      (match r with Ok d => ODeleted d | Err _ => ODeleteRefused end, t')
  end.

Definition a_step (a : gmap Z (list Handle * bool)) (op : HandleOp) : HandleOut * gmap Z (list Handle * bool) :=
  match op with
  | HOpen i h => let '(ok, a') := a_open a i h in (if ok then OOpened else ORefused, a')
  | HClose i h => let '(b, a') := a_close a i h in (OClosed b, a')
  | HDelete i => let '(d, a') := a_delete a i in
      (match d with Some d => ODeleted d | None => ODeleteRefused end, a')
  end.

Fixpoint run_ops {T : Type} (step : T -> HandleOp -> HandleOut * T) (t : T) (ops : list HandleOp)
  : list HandleOut * T :=
  match ops with
  | [] => ([], t)
  | op :: ops => let '(o, t1) := step t op in let '(os, t2) := run_ops step t1 ops in (o :: os, t2)
  end.

(** A client closes only what it opened. *)
Definition op_valid (a : gmap Z (list Handle * bool)) (op : HandleOp) : bool :=
  match op with
  | HClose i h => match (a !! i : option (list Handle * bool)) with
      | Some (hs, _) => bool_decide (h ∈ hs) | None => false end
  | _ => true
  end.

Fixpoint ops_valid (a : gmap Z (list Handle * bool)) (ops : list HandleOp) : bool :=
  match ops with
  | [] => true
  | op :: ops => op_valid a op && ops_valid (a_step a op).2 ops
  end.

(** No inode has more than [n] live handles. *)
Definition live_le (n : Z) (a : gmap Z (list Handle * bool)) : Prop :=
  map_Forall (fun _ x => Z.of_nat (length x.1) <= n) a.

Lemma live_le_insert (n : Z) (a : gmap Z (list Handle * bool)) (i : Z) (hs : list Handle) (p : bool) :
  live_le n a -> Z.of_nat (length hs) <= n -> live_le n (<[i := (hs, p)]> a).
Proof. intros. by apply map_Forall_insert_2. Qed.

Lemma live_le_mono (n m : Z) (a : gmap Z (list Handle * bool)) : n <= m -> live_le n a -> live_le m a.
Proof. intros Hnm HL i x E. specialize (HL i x E). simpl in HL. lia. Qed.

Lemma a_step_live (n : Z) (a : gmap Z (list Handle * bool)) (op : HandleOp) :
  0 <= n -> live_le n a -> live_le (n + 1) (a_step a op).2.
Proof.
  intros Hn HL. assert (HL' := live_le_mono n (n + 1) a ltac:(lia) HL).
  destruct op as [i h|i h|i]; cbn [a_step]; unfold a_open, a_close, a_delete;
    destruct (a !! i) as [[hs p]|] eqn:E; simpl; try done;
    [| apply live_le_insert; simpl; [done|lia] | |];
    pose proof (HL i _ E) as Hl; simpl in Hl.
  - destruct p; [done|]. destruct (forallb _ _); [|done]. apply live_le_insert; simpl; [done|lia].
  - destruct (remove_one h hs) as [[|h' hs']|] eqn:R; [by apply map_Forall_delete| |done].
    apply live_le_insert; [done|]. apply remove_one_perm in R. rewrite R in Hl. cbn [length] in *. lia.
  - destruct (existsb _ _); [|done]. apply live_le_insert; [done|lia].
Qed.

Lemma step_refines (n : Z) (t : gmap Z OpenRecord) (a : gmap Z (list Handle * bool)) (op : HandleOp) :
  table_refines t a -> live_le n a -> n + 1 < u32_max -> op_valid a op = true ->
  (handle_step t op).1 = (a_step a op).1 /\ table_refines (handle_step t op).2 (a_step a op).2.
Proof.
  intros HR HL Hn HV. destruct op as [i h|i h|i]; simpl in HV |- *.
  - pose proof (open_refines t a i h HR) as HO. destruct (a_open a i h) as [ok a'], (handle_open _ _ _ _) as [r t'].
    destruct HO as (HR' & Hok & _); [intros hs p E; specialize (HL i _ E); simpl in HL; lia|].
    split; [|done]. destruct ok, r as [[]|e]; simpl; naive_solver.
  - destruct (a !! i) as [[hs p]|] eqn:E; [|done]. apply bool_decide_eq_true in HV.
    pose proof (close_refines t a i h HR ltac:(naive_solver)) as HC.
    destruct (a_close a i h) as [b a'], (handle_close _ _ _ _) as [r t']. by destruct HC as [? ->].
  - pose proof (delete_refines t a i (fun w : () => (Ok (), w)) () () HR eq_refl) as HD. unfold request_delete.
    destruct (a_delete a i) as [d a'], (delete_with _ _ _ _) as [[r t'] w]. destruct HD as [HR' HD].
    destruct d; [by destruct HD as [-> _]|by destruct HD as (_ & -> & _)].
Qed.

Lemma run_refines (ops : list HandleOp) (n : Z) (t : gmap Z OpenRecord) (a : gmap Z (list Handle * bool)) :
  table_refines t a -> 0 <= n -> live_le n a -> n + Z.of_nat (length ops) < u32_max -> ops_valid a ops = true ->
  (run_ops handle_step t ops).1 = (run_ops a_step a ops).1 /\
  table_refines (run_ops handle_step t ops).2 (run_ops a_step a ops).2.
Proof.
  revert n t a. induction ops as [|op ops IH]; intros n t a HR Hn HL Hlen HV; [done|].
  cbn [length] in Hlen. cbn [ops_valid] in HV. apply andb_true_iff in HV as [HV HVs].
  destruct (step_refines n t a op HR HL ltac:(lia) HV) as [HO HR'].
  pose proof (a_step_live n a op Hn HL) as HL'. cbn [run_ops].
  destruct (handle_step t op) as [o t1], (a_step a op) as [o' a1]. simpl in *.
  destruct (IH (n + 1) t1 a1 HR' ltac:(lia) HL' ltac:(lia) HVs) as [HOs HRs].
  destruct (run_ops handle_step t1 ops), (run_ops a_step a1 ops). simpl in *. by subst.
Qed.

Lemma table_refines_empty : table_refines ∅ ∅.
Proof. split; [apply map_Forall_empty|done]. Qed.

(** ** What the documentation promises

    [open] fails when the requested access or the granted share collides with
    live opens or a delete is pending; a delete removes a closed file and leaves
    an open one pending; the last close of a pending file finishes it. *)
Definition documented (live : gmap Z (list Handle * bool)) (op : HandleOp) : HandleOut :=
  match op with
  | HOpen i h =>
      match (live !! i : option (list Handle * bool)) with
      | Some (hs, pending) =>
          if pending || negb (forallb (grants (h_desired h)) hs) || negb (forallb (fun g => grants (h_desired g) h) hs) then ORefused else OOpened
      | None => OOpened
      end
  | HClose i h => OClosed (a_close live i h).1
  | HDelete i => ODeleted (if bool_decide (is_Some (live !! i)) then Pending else Removed)
  end.
(** Where the code departs from it: an open whose share denies an access that a
    live handle holds, and a delete of an open file no handle of which was
    opened for deletion. *)
Definition departs (live : gmap Z (list Handle * bool)) (op : HandleOp) : bool :=
  match op with
  | HOpen i h =>
      match (live !! i : option (list Handle * bool)) with
      | Some (hs, pending) => negb pending && forallb (grants (h_desired h)) hs && negb (forallb (fun g => grants (h_desired g) h) hs)
      | None => false
      end
  | HClose _ _ => false
  | HDelete i => match (live !! i : option (list Handle * bool)) with Some (hs, _) => forallb (fun g => negb (de_delete (h_desired g))) hs | None => false end
  end.
(** What it answers there: the open is granted, the delete refused. *)
Definition departure (op : HandleOp) : HandleOut := match op with HOpen _ _ => OOpened | HClose _ _ => OClosed false | HDelete _ => ODeleteRefused end.
(** The handles opened and not closed, and the accepted deletes of open files. *)
Definition live_after (live : gmap Z (list Handle * bool)) (x : HandleOp * HandleOut) : gmap Z (list Handle * bool) :=
  match x with
  | (HOpen i h, OOpened) => <[i := match (live !! i : option (list Handle * bool)) with Some (hs, p) => (h :: hs, p) | None => ([h], false) end]> live
  | (HClose i h, OClosed _) => (a_close live i h).2
  | (HDelete i, ODeleted Pending) => match (live !! i : option (list Handle * bool)) with Some (hs, _) => <[i := (hs, true)]> live | None => live end
  | _ => live
  end.
Definition live_handles (ops : list HandleOp) (outs : list HandleOut) : gmap Z (list Handle * bool) := fold_left live_after (zip ops outs) ∅.

Lemma a_step_live_after (a : gmap Z (list Handle * bool)) (op : HandleOp) : (a_step a op).2 = live_after a (op, (a_step a op).1).
Proof.
  destruct op as [i h|i h|i]; cbn [a_step].
  - unfold a_open. destruct (a !! i) as [[hs []]|] eqn:E; [done| |cbn; by rewrite E]. destruct (forallb _ _); [|done]. cbn. by rewrite E.
  - by destruct (a_close a i h) as [b a'] eqn:E; cbn; rewrite E.
  - unfold a_delete. destruct (a !! i) as [[hs p]|] eqn:E; [|done]. destruct (existsb _ _); [|done]. cbn. by rewrite E.
Qed.
Lemma run_live_after (ops : list HandleOp) (a : gmap Z (list Handle * bool)) : (run_ops a_step a ops).2 = fold_left live_after (zip ops (run_ops a_step a ops).1) a.
Proof.
  revert a. induction ops as [|op ops IH]; intros a; [done|]. cbn [run_ops]. pose proof (a_step_live_after a op) as H. destruct (a_step a op) as [o a1]. cbn in H. specialize (IH a1).
  destruct (run_ops a_step a1 ops) as [os a2]. cbn in *. by rewrite IH, <-H.
Qed.
Lemma existsb_forallb_negb {A : Type} (f : A -> bool) (l : list A) : existsb f l = negb (forallb (fun x => negb (f x)) l).
Proof. induction l as [|x l IH]; [done|]. cbn. rewrite IH. by destruct (f x). Qed.
Lemma a_step_documented (a : gmap Z (list Handle * bool)) (op : HandleOp) : (a_step a op).1 = if departs a op then departure op else documented a op.
Proof.
  destruct op as [i h|i h|i]; cbn [a_step departs documented departure].
  - unfold a_open. destruct (a !! i) as [[hs []]|]; [done| |done]. cbn. destruct (forallb (grants (h_desired h)) hs); [|done]. by destruct (forallb _ hs).
  - by destruct (a_close a i h).
  - unfold a_delete. destruct (a !! i) as [[hs p]|]; [|by rewrite bool_decide_eq_false_2 by apply is_Some_None]. rewrite existsb_forallb_negb. destruct (forallb _ hs); [done|]. by rewrite bool_decide_eq_true_2.
Qed.
Lemma ops_valid_app (a : gmap Z (list Handle * bool)) (pre post : list HandleOp) : ops_valid a (pre ++ post) = ops_valid a pre && ops_valid (run_ops a_step a pre).2 post.
Proof.
  revert a. induction pre as [|op pre IH]; intros a; [done|]. cbn [app ops_valid run_ops]. rewrite IH, andb_assoc. destruct (a_step a op) as [o a1]. cbn. by destruct (run_ops a_step a1 pre).
Qed.
Lemma run_live_le (ops : list HandleOp) (n : Z) (a : gmap Z (list Handle * bool)) : 0 <= n -> live_le n a -> live_le (n + Z.of_nat (length ops)) (run_ops a_step a ops).2.
Proof.
  revert n a. induction ops as [|op ops IH]; intros n a Hn Ha; cbn [run_ops length]; [eapply live_le_mono; [|exact Ha]; lia|].
  pose proof (a_step_live n a op Hn Ha) as H1. destruct (a_step a op) as [o a1]. specialize (IH (n + 1) a1 ltac:(lia) H1). destruct (run_ops a_step a1 ops). cbn in *. eapply live_le_mono; [|exact IH]. lia.
Qed.

(** C5: The counter table keeps the share modes of the open handles as its
    documentation promises, but for two cases.  Over every sequence of fewer than
    [2^32 - 1] opens, closes of live handles and deletes from an empty table: the
    counters are the counts over the handles opened and not yet closed, and every
    answer is the documented one (an open is refused iff a delete is pending, a
    live handle does not share what it asks for or it does not share what a live
    handle holds; a delete removes a closed file and leaves an open one pending;
    the last close of a pending file finishes its delete), except that an open
    that fails only to share what a live handle holds is granted, and that the
    delete of an open file no handle of which has delete access is refused. *)
Theorem handle_table_refines_handles (ops pre post : list HandleOp) (op : HandleOp) :
  Z.of_nat (length ops) < u32_max -> ops_valid ∅ ops = true -> ops = pre ++ op :: post ->
  let table := (run_ops handle_step ∅ pre).2 in
  let live := live_handles pre (run_ops handle_step ∅ pre).1 in
  table_refines table live /\ (handle_step table op).1 = if departs live op then departure op else documented live op.
Proof.
  intros HL HV ->. rewrite length_app in HL. cbn [length] in HL. rewrite ops_valid_app in HV. apply andb_true_iff in HV as [Hpre HV]. cbn [ops_valid] in HV. apply andb_true_iff in HV as [HV _].
  destruct (run_refines pre 0 ∅ ∅ table_refines_empty ltac:(lia) (map_Forall_empty _) ltac:(lia) Hpre) as [Ho Hr].
  cbv zeta. unfold live_handles. rewrite Ho, <-run_live_after. split; [exact Hr|]. pose proof (run_live_le pre 0 ∅ ltac:(lia) (map_Forall_empty _)) as Hle.
  destruct (step_refines (0 + Z.of_nat (length pre)) _ _ op Hr Hle ltac:(lia) HV) as [-> _]. apply a_step_documented.
Qed.

Definition sample_ops : list HandleOp :=
  let rd := mkHandle (mkDesired true false false) ShareAccess_READ in
  let wr := mkHandle (mkDesired false true false) ShareAccess_ALL in
  let del := mkHandle (mkDesired true false true) ShareAccess_ALL in
  [HOpen 7 rd; HOpen 7 wr; HDelete 7; HClose 7 rd; HOpen 7 del; HOpen 7 del; HDelete 7; HOpen 7 rd;
   HClose 7 del; HClose 7 del; HOpen 7 rd].

Lemma handle_table_refines_handles_witness :
  let live := live_handles (take 4 sample_ops) (run_ops handle_step ∅ (take 4 sample_ops)).1 in
  (handle_step (run_ops handle_step ∅ (take 4 sample_ops)).2 (HOpen 7 (mkHandle (mkDesired true false true) ShareAccess_ALL))).1 = OOpened /\
  table_refines (run_ops handle_step ∅ (take 4 sample_ops)).2 live.
Proof.
  destruct (handle_table_refines_handles sample_ops (take 4 sample_ops) (drop 5 sample_ops) (HOpen 7 (mkHandle (mkDesired true false true) ShareAccess_ALL)) eq_refl eq_refl eq_refl) as [H1 H2].
  split; [etransitivity; [exact H2|vm_compute; reflexivity]|exact H1].
Defined.
(** The two departures. *)
Example share_of_open_unchecked :
  let rd := mkHandle (mkDesired true false false) ShareAccess_ALL in let exclusive := mkHandle (mkDesired false false false) (mkShare false false false) in
  (run_ops handle_step ∅ [HOpen 7 rd; HOpen 7 exclusive]).1 = [OOpened; OOpened].
Proof. vm_compute. reflexivity. Qed.
Example delete_of_open_refused :
  let rd := mkHandle (mkDesired true false false) ShareAccess_ALL in (run_ops handle_step ∅ [HOpen 7 rd; HDelete 7]).1 = [OOpened; ODeleteRefused].
Proof. vm_compute. reflexivity. Qed.

(** ** Delete-pending inodes *)
Definition opens_inode (i : Z) (op : HandleOp) : bool :=
  match op with HOpen j _ => j =? i | _ => false end.
Definition finishes (i : Z) (op : HandleOp) (o : HandleOut) : bool :=
  match op, o with HClose j _, OClosed true => j =? i | _, _ => false end.

Lemma pending_insert (t : gmap Z OpenRecord) (i j : Z) (r : OpenRecord) :
  is_delete_pending t i = true -> (i = j -> delete_pending r = true) ->
  is_delete_pending (<[j := r]> t) i = true.
Proof.
  intros HP Hr. unfold is_delete_pending in *. destruct (decide (i = j)) as [->|].
  - rewrite lookup_insert_eq. by apply Hr.
  - by rewrite lookup_insert_ne.
Qed.

Lemma pending_record (t : gmap Z OpenRecord) (i j : Z) (r : OpenRecord) :
  is_delete_pending t i = true -> t !! j = Some r -> i = j -> delete_pending r = true.
Proof. unfold is_delete_pending. intros HP E ->. by rewrite E in HP. Qed.

Lemma pending_delete_ne (t : gmap Z OpenRecord) (i j : Z) :
  is_delete_pending t i = true -> i <> j -> is_delete_pending (delete j t) i = true.
Proof. unfold is_delete_pending. intros. by rewrite lookup_delete_ne. Qed.

(** A step keeps a pending inode pending and refuses its opens, unless it is its final close. *)
Lemma pending_step (t : gmap Z OpenRecord) (i : Z) (op : HandleOp) :
  is_delete_pending t i = true ->
  (finishes i op (handle_step t op).1 = true /\ is_open (handle_step t op).2 i = false) \/
  (finishes i op (handle_step t op).1 = false /\ is_delete_pending (handle_step t op).2 i = true /\
   (opens_inode i op = true -> handle_step t op = (ORefused, t))).
Proof.
  intros HP. destruct op as [j h|j h|j]; simpl.
  - right. split; [done|]. unfold handle_open. destruct (t !! j) as [r|] eqn:E; simpl.
    + pose proof (pending_record t i j r HP E) as Hr.
      destruct (delete_pending r) eqn:Ed; [done|]. assert (i <> j) by (intros ->; by specialize (Hr eq_refl)).
      destruct (_ || _); simpl; [|split; [by apply pending_insert|zcase; done]].
      split; [done|]. zcase; done.
    + assert (i <> j) by (intros ->; unfold is_delete_pending in HP; by rewrite E in HP).
      split; [by apply pending_insert|zcase; done].
  - unfold handle_close. destruct (t !! j) as [r|] eqn:E; simpl; [|by right].
    pose proof (pending_record t i j r HP E) as Hr. destruct (saturating_sub _ _ =? 0); simpl.
    + destruct (decide (i = j)) as [<-|Hne].
      * left. rewrite Hr, Z.eqb_refl by done. split; [done|]. unfold is_open. by rewrite lookup_delete_eq.
      * right. rewrite (proj2 (Z.eqb_neq j i)) by done. destruct (delete_pending r);
          (split; [done|]; split; [by apply pending_delete_ne|done]).
    + right. split; [done|]. split; [by apply pending_insert|done].
  - right. unfold request_delete, delete_with. destruct (t !! j) as [r|] eqn:E; simpl; [|done].
    destruct (desired_delete r =? 0); simpl; [done|]. split; [done|]. split; [by apply pending_insert|done].
Qed.

(** Delete-on-close.  From a table in which [i] is delete-pending, run any
    operations up to the first close that reports a finished delete of [i] (or
    to the end of the run): the inode stays delete-pending throughout, every
    open of it is refused, and once that close has happened the inode is gone
    from the table, so a later open starts from a fresh record. *)
Theorem delete_pending_until_last_close (ops : list HandleOp) (t : gmap Z OpenRecord) (i : Z) :
  is_delete_pending t i = true ->
  let '(outs, t') := run_ops handle_step t ops in
  (is_delete_pending t' i = true /\
   Forall2 (fun op o => opens_inode i op = true -> o = ORefused) ops outs) \/
  (exists pre op post, ops = pre ++ op :: post /\
     let '(o1, t1) := run_ops handle_step t pre in
     Forall2 (fun op o => opens_inode i op = true -> o = ORefused) pre o1 /\
     is_delete_pending t1 i = true /\
     finishes i op (handle_step t1 op).1 = true /\ is_open (handle_step t1 op).2 i = false).
Proof.
  revert t. induction ops as [|op ops IH]; intros t HP; [by left|]. cbn [run_ops].
  destruct (pending_step t i op HP) as [[HF HO]|(HF & HP' & HR)].
  - destruct (handle_step t op) as [o t1] eqn:E, (run_ops handle_step t1 ops) as [os t2].
    right. exists [], op, ops. simpl. rewrite E. by split_and!.
  - destruct (handle_step t op) as [o t1] eqn:E. simpl in *. specialize (IH t1 HP').
    destruct (run_ops handle_step t1 ops) as [os t2]. destruct IH as [[HP2 HF2]|(pre & op' & post & -> & IH)].
    + left. split; [done|]. constructor; [|done]. intros Ho. specialize (HR Ho). by simplify_eq.
    + right. exists (op :: pre), op', post. split; [done|]. cbn [run_ops]. rewrite E.
      destruct (run_ops handle_step t1 pre) as [o1 t3]. destruct IH as (HF2 & IH). split; [|done].
      constructor; [|done]. intros Ho. specialize (HR Ho). by simplify_eq.
Qed.

Lemma delete_pending_until_last_close_witness :
  let t := (run_ops handle_step ∅ (take 7 sample_ops)).2 in
  is_delete_pending t 7 = true /\ is_delete_pending (run_ops handle_step t [HOpen 7 (mkHandle (mkDesired true false false) ShareAccess_ALL)]).2 7 = true.
Proof.
  set (ops := [HOpen 7 (mkHandle (mkDesired true false false) ShareAccess_ALL)]).
  split; [vm_compute; reflexivity|].
  pose proof (delete_pending_until_last_close ops (run_ops handle_step ∅ (take 7 sample_ops)).2 7 eq_refl) as H.
  destruct (run_ops handle_step _ ops) as [outs t'] eqn:E. destruct H as [[H _]|_]; [exact H|].
  change t' with (outs, t').2. rewrite <- E. vm_compute. reflexivity.
Defined.

(** ** Guarded namespace operations *)
(** Eviction runs its operation exactly when no listed inode has a live handle. *)
Lemma with_closed_inodes_guard {W R : Type} (t : gmap Z OpenRecord) (a : gmap Z (list Handle * bool))
  (inodes : list Z) (operation : W -> R * W) (w : W) :
  table_refines t a ->
  with_closed_inodes t inodes operation w =
    if decide (Forall (fun i => a !! i = None) inodes)
    then (Ok (Some (operation w).1), (operation w).2) else (Ok None, w).
Proof.
  intros HR. unfold with_closed_inodes.
  assert (HE : existsb (is_open t) inodes = true <-> ~ Forall (fun i => a !! i = None) inodes).
  { induction inodes as [|i l IH]; simpl; [split; [done|intros H; by destruct H]|].
    rewrite orb_true_iff, IH, Forall_cons. pose proof (table_refines_lookup t a i HR). unfold is_open.
    destruct (a !! i) as [[hs p]|]; [destruct_and!|]; simplify_option_eq; naive_solver. }
  case_decide as HD; destruct (existsb _ _); [by destruct (proj1 HE eq_refl)| |done|].
  - by destruct (operation w).
  - by destruct HD; apply dec_stable; intros ?%HE.
Qed.
