(* ===== verification/Ledger.v ===== *)
(** * Reservation ledger

    [mirage-cache/src/budget.rs] and [reservation_ledger.rs].  The ledger
    counts committed and reserved cache bytes under one mutex; a reservation
    is an RAII token whose drop releases it.  [System] pairs the ledger with
    the tokens its clients still hold, so that releasing or committing a token
    consumes it. *)
From S2P Require Export Errors.

(** ** Data *)
Inductive ReservationClass : Set := Blocking | Capsule | Prefetch | DirtyUpdate | Staging.

Record BudgetConfig : Set := mkBudgetConfig {
  hard_bytes : Z; prefetch_soft_bytes : Z; update_safety_reserve : Z; dirty_update_bytes : Z
}.

Definition BudgetConfig_validate (c : BudgetConfig) : result () :=
  if (hard_bytes c =? 0) || (hard_bytes c <? prefetch_soft_bytes c)
     || (hard_bytes c <? update_safety_reserve c) || (update_safety_reserve c <? dirty_update_bytes c)
  then Err (invalid_argument "cache reservation budget is inconsistent") else Ok ().

Record LedgerState : Set := mkLedgerState {
  committed : Z; reserved : Z; dirty_reserved : Z; peak : Z
}.

Record ReservationLedger : Set := mkLedger { l_config : BudgetConfig; l_state : LedgerState }.

Record BudgetReservation : Set := mkReservation { r_bytes : Z; r_class : ReservationClass; r_active : bool }.

(** ** Operations *)
Definition ReservationLedger_new (c : BudgetConfig) (committed_bytes : Z) : result ReservationLedger :=
  _ ← BudgetConfig_validate c;
  if hard_bytes c <? committed_bytes then Err (cache_full "committed cache exceeds hard budget")
  else Ok (mkLedger c (mkLedgerState committed_bytes 0 0 committed_bytes)).

Definition class_is_dirty (c : ReservationClass) : bool :=
  match c with DirtyUpdate | Staging => true | _ => false end.

Definition class_limit (c : BudgetConfig) (class : ReservationClass) : Z :=
  match class with
  | Prefetch => prefetch_soft_bytes c
  | DirtyUpdate | Staging => hard_bytes c
  | Blocking | Capsule => hard_bytes c -! update_safety_reserve c
  end.

Definition reserve (l : ReservationLedger) (bytes : Z) (class : ReservationClass)
  : result (BudgetReservation * ReservationLedger) :=
  let c := l_config l in let s := l_state l in
  if bytes =? 0 then Err (invalid_argument "zero-byte cache reservation") else
  next_reserved ← ok_or (invalid_argument "reserved byte count overflows") (checked_add (reserved s) bytes);
  envelope ← ok_or (invalid_argument "cache envelope overflows") (checked_add (committed s) next_reserved);
  if class_limit c class <? envelope then Err (cache_full "cache reservation exceeds class budget") else
  dirty ← (if class_is_dirty class then
             value ← ok_or (invalid_argument "dirty reservation count overflows") (checked_add (dirty_reserved s) bytes);
             if dirty_update_bytes c <? value then Err (cache_full "dirty update reservation exceeds its reserve")
             else Ok value
           else Ok (dirty_reserved s));
  Ok (mkReservation bytes class true,
      mkLedger c (mkLedgerState (committed s) next_reserved dirty (Z.max (peak s) envelope))).

Definition set_committed (l : ReservationLedger) (bytes : Z) : result ReservationLedger :=
  let s := l_state l in
  if match checked_add bytes (reserved s) with None => true | Some total => hard_bytes (l_config l) <? total end
  then Err (cache_full "committed cache update exceeds hard envelope")
  else Ok (mkLedger (l_config l)
    (mkLedgerState bytes (reserved s) (dirty_reserved s) (Z.max (peak s) (bytes +! reserved s)))).

Definition release_inner (l : ReservationLedger) (r : BudgetReservation) : ReservationLedger * BudgetReservation :=
  if negb (r_active r) then (l, r) else
  let s := l_state l in
  (mkLedger (l_config l) (mkLedgerState (committed s) (reserved s -! r_bytes r)
     (if class_is_dirty (r_class r) then dirty_reserved s -! r_bytes r else dirty_reserved s) (peak s)),
   mkReservation (r_bytes r) (r_class r) false).

(** [commit] consumes the token: on every path its drop runs [release_inner],
    a no-op after a successful commit. *)
Definition commit (l : ReservationLedger) (r : BudgetReservation) : result () * ReservationLedger :=
  let s := l_state l in
  match checked_add (committed s) (r_bytes r) with
  | None => (Err (invalid_argument "committed cache bytes overflow"), (release_inner l r).1)
  | Some c =>
      let l' := mkLedger (l_config l) (mkLedgerState c (reserved s -! r_bytes r)
        (if class_is_dirty (r_class r) then dirty_reserved s -! r_bytes r else dirty_reserved s) (peak s)) in
      (Ok (), (release_inner l' (mkReservation (r_bytes r) (r_class r) false)).1)
  end.

Definition release (l : ReservationLedger) (r : BudgetReservation) : ReservationLedger :=
  let '(l', r') := release_inner l r in (release_inner l' r').1.

Record ReservationSnapshot : Set := mkSnapshot {
  committed_bytes : Z; reserved_bytes : Z; dirty_reserved_bytes : Z; peak_envelope_bytes : Z
}.
Definition snapshot (l : ReservationLedger) : ReservationSnapshot :=
  let s := l_state l in mkSnapshot (committed s) (reserved s) (dirty_reserved s) (peak s).

(** ** The ledger together with the tokens its clients hold *)
Record System : Set := mkSystem { sys_ledger : ReservationLedger; sys_live : list BudgetReservation }.

Inductive LedgerOp : Set :=
| OpReserve (bytes : Z) (class : ReservationClass)
| OpRelease (k : nat)
| OpCommit (k : nat)
| OpSetCommitted (bytes : Z).

Definition sys_step (y : System) (op : LedgerOp) : System :=
  match op with
  | OpReserve b c =>
      match reserve (sys_ledger y) b c with
      | Ok (r, l) => mkSystem l (r :: sys_live y)
      | Err _ => y
      end
  | OpRelease k =>
      match sys_live y !! k with
      | Some r => mkSystem (release (sys_ledger y) r) (delete k (sys_live y))
      | None => y
      end
  | OpCommit k =>
      match sys_live y !! k with
      | Some r => mkSystem (commit (sys_ledger y) r).2 (delete k (sys_live y))
      | None => y
      end
  | OpSetCommitted b =>
      match set_committed (sys_ledger y) b with
      | Ok l => mkSystem l (sys_live y)
      | Err _ => y
      end
  end.

Definition sys_run (y : System) (ops : list LedgerOp) : System := foldl sys_step y ops.

(** The byte counts the operations take are [u64]s. *)
Definition op_u64 (op : LedgerOp) : Prop :=
  match op with OpReserve b _ | OpSetCommitted b => in_u64 b | _ => True end.

(** ** Invariant *)
Definition dirty_bytes_of (r : BudgetReservation) : Z := if class_is_dirty (r_class r) then r_bytes r else 0.

Definition config_ok (c : BudgetConfig) : Prop :=
  0 < hard_bytes c <= u64_max /\ 0 <= prefetch_soft_bytes c <= hard_bytes c /\
  0 <= dirty_update_bytes c <= update_safety_reserve c /\ update_safety_reserve c <= hard_bytes c.

Record ledger_ok (y : System) : Prop := {
  lk_config : config_ok (l_config (sys_ledger y));
  lk_live : Forall (fun r => 0 < r_bytes r /\ r_active r = true) (sys_live y);
  lk_committed : 0 <= committed (l_state (sys_ledger y));
  lk_reserved : reserved (l_state (sys_ledger y)) = sumZ r_bytes (sys_live y);
  lk_dirty : dirty_reserved (l_state (sys_ledger y)) = sumZ dirty_bytes_of (sys_live y);
  lk_dirty_cap : dirty_reserved (l_state (sys_ledger y)) <= dirty_update_bytes (l_config (sys_ledger y));
  lk_peak : committed (l_state (sys_ledger y)) + reserved (l_state (sys_ledger y)) <= peak (l_state (sys_ledger y));
  lk_hard : peak (l_state (sys_ledger y)) <= hard_bytes (l_config (sys_ledger y))
}.

(** ** Lemmas *)
Lemma sumZ_delete {A : Type} (f : A -> Z) (l : list A) (k : nat) (x : A) :
  l !! k = Some x -> sumZ f l = f x + sumZ f (delete k l).
Proof. intros E. by rewrite (sumZ_perm f l (x :: delete k l)) by (by apply delete_Permutation). Qed.

Lemma live_sum_nonneg (l : list BudgetReservation) :
  Forall (fun r => 0 < r_bytes r /\ r_active r = true) l -> 0 <= sumZ r_bytes l /\ 0 <= sumZ dirty_bytes_of l.
Proof.
  intros HF. split; apply sumZ_nonneg; apply (Forall_impl _ _ _ HF); intros r [? _]; unfold dirty_bytes_of;
    destruct (class_is_dirty (r_class r)); lia.
Qed.

(** The bytes of a live token can be subtracted without wrapping. *)
Lemma token_subtracts (y : System) (k : nat) (r : BudgetReservation) :
  ledger_ok y -> sys_live y !! k = Some r ->
  0 < r_bytes r /\ r_active r = true /\
  reserved (l_state (sys_ledger y)) -! r_bytes r = sumZ r_bytes (delete k (sys_live y)) /\
  (if class_is_dirty (r_class r) then dirty_reserved (l_state (sys_ledger y)) -! r_bytes r
   else dirty_reserved (l_state (sys_ledger y))) = sumZ dirty_bytes_of (delete k (sys_live y)) /\
  committed (l_state (sys_ledger y)) + r_bytes r <= hard_bytes (l_config (sys_ledger y)) /\
  sumZ r_bytes (delete k (sys_live y)) = reserved (l_state (sys_ledger y)) - r_bytes r /\
  sumZ dirty_bytes_of (delete k (sys_live y)) <= dirty_reserved (l_state (sys_ledger y)).
Proof.
  intros [Hc Hl Hcm Hr Hd Hdc Hp Hh] E. destruct (proj1 (Forall_lookup _ _) Hl k r E) as [Hb Ha].
  destruct (live_sum_nonneg (delete k (sys_live y)) (Forall_delete _ _ _ Hl)) as [Hn1 Hn2].
  rewrite (sumZ_delete _ _ _ _ E) in Hr. rewrite (sumZ_delete _ _ _ _ E) in Hd.
  destruct Hc as (? & ? & ? & ?). unfold dirty_bytes_of in Hd at 1.
  rewrite wsub_u64_small by lia.
  destruct (class_is_dirty (r_class r)); [rewrite wsub_u64_small by lia|]; split_and!; (done || lia).
Qed.

Lemma reserve_ok (y : System) (b : Z) (c : ReservationClass) :
  ledger_ok y -> in_u64 b -> ledger_ok (sys_step y (OpReserve b c)).
Proof.
  intros HK Hb. simpl. destruct (reserve (sys_ledger y) b c) as [[r l]|] eqn:E; [|done].
  destruct HK as [Hc Hl Hcm Hr Hd Hdc Hp Hh].
  unfold reserve in E. destruct (Z.eqb_spec b 0); [done|]. inv_ok E.
  apply checked_add_Some in E0 as [? ->], E1 as [? ->].
  destruct (Z.ltb_spec (class_limit (l_config (sys_ledger y)) c) (committed (l_state (sys_ledger y)) + (reserved (l_state (sys_ledger y)) + b))); [done|].
  apply bind_Ok_inv in E as (v1 & E2 & E). injection E as <- <-. unfold in_u64 in Hb.
  assert (class_limit (l_config (sys_ledger y)) c <= hard_bytes (l_config (sys_ledger y))).
  { destruct Hc as (? & ? & ? & ?). destruct c; simpl; rewrite ?wsub_u64_small; lia. }
  assert (v1 = dirty_bytes_of (mkReservation b c true) + dirty_reserved (l_state (sys_ledger y))
    /\ v1 <= dirty_update_bytes (l_config (sys_ledger y))) as [-> Hv].
  { unfold dirty_bytes_of. simpl. destruct (class_is_dirty c); [|injection E2 as <-; lia].
    apply bind_Ok_inv in E2 as (w & Ew & E2). apply ok_or_Ok_inv, checked_add_Some in Ew as [? ->]. zcase_in E2; [done|]. injection E2 as <-. lia. }
  constructor; simpl; try done; try lia. constructor; [simpl; split; [lia|done]|done].
Qed.

Lemma release_ok (y : System) (k : nat) : ledger_ok y -> ledger_ok (sys_step y (OpRelease k)).
Proof.
  intros HK. simpl. destruct (sys_live y !! k) as [r|] eqn:E; [|done].
  destruct (token_subtracts y k r HK E) as (Hb & Ha & Hr' & Hd' & Hc' & Hs & Hsd).
  destruct HK as [Hc Hl Hcm Hr Hd Hdc Hp Hh]. unfold release, release_inner. rewrite Ha. simpl. rewrite Hr', Hd'.
  constructor; simpl; try done; try lia. by apply Forall_delete.
Qed.

Lemma commit_ok (y : System) (k : nat) :
  ledger_ok y ->
  ledger_ok (sys_step y (OpCommit k)) /\
  (forall r, sys_live y !! k = Some r ->
     (commit (sys_ledger y) r).1 = Ok () /\
     committed (l_state (commit (sys_ledger y) r).2) = committed (l_state (sys_ledger y)) + r_bytes r /\
     committed (l_state (commit (sys_ledger y) r).2) + reserved (l_state (commit (sys_ledger y) r).2) =
     committed (l_state (sys_ledger y)) + reserved (l_state (sys_ledger y))).
Proof.
  intros HK. simpl. destruct (sys_live y !! k) as [r|] eqn:E; [|by split].
  destruct (token_subtracts y k r HK E) as (Hb & Ha & Hr' & Hd' & Hc' & Hs & Hsd).
  destruct HK as [Hc Hl Hcm Hr Hd Hdc Hp Hh]. unfold commit.
  assert (checked_add (committed (l_state (sys_ledger y))) (r_bytes r) =
    Some (committed (l_state (sys_ledger y)) + r_bytes r)) as EC
    by (apply checked_add_Some; destruct Hc; split; [lia|done]).
  rewrite EC. simpl. rewrite Hr', Hd'. split.
  - constructor; simpl; try done; try lia. by apply Forall_delete.
  - intros r' [= <-]. rewrite EC. simpl. rewrite Hr'. split_and!; (done || lia).
Qed.

Lemma set_committed_ok (y : System) (b : Z) :
  ledger_ok y -> in_u64 b -> ledger_ok (sys_step y (OpSetCommitted b)).
Proof.
  intros HK Hb. simpl. destruct (set_committed (sys_ledger y) b) as [l|] eqn:E; [|done].
  destruct HK as [Hc Hl Hcm Hr Hd Hdc Hp Hh]. destruct (live_sum_nonneg _ Hl). unfold set_committed in E.
  destruct (checked_add b _) as [v|] eqn:EC; [|done]. apply checked_add_Some in EC as [? ->].
  zcase_in E; [done|]. injection E as <-. unfold in_u64 in Hb. rewrite wadd_u64_small by lia.
  constructor; simpl; try done; lia.
Qed.

Lemma sys_step_ok (y : System) (op : LedgerOp) : ledger_ok y -> op_u64 op -> ledger_ok (sys_step y op).
Proof.
  intros HK Hop. destruct op; [by apply reserve_ok|by apply release_ok|by apply commit_ok|by apply set_committed_ok].
Qed.

Lemma sys_run_ok (ops : list LedgerOp) (y : System) :
  ledger_ok y -> Forall op_u64 ops -> ledger_ok (sys_run y ops).
Proof.
  revert y. induction ops as [|op ops IH]; intros y HK HF; [done|].
  inversion_clear HF. apply IH; [by apply sys_step_ok|done].
Qed.

Lemma new_ledger_ok (c : BudgetConfig) (b : Z) (l : ReservationLedger) :
  in_u64 (hard_bytes c) -> 0 <= prefetch_soft_bytes c -> 0 <= dirty_update_bytes c -> 0 <= b ->
  ReservationLedger_new c b = Ok l -> ledger_ok (mkSystem l []).
Proof.
  intros [? ?] ? ? ? E. unfold ReservationLedger_new, BudgetConfig_validate in E. inv_ok E.
  destruct ((hard_bytes c =? 0) || _ || _ || _) eqn:EC; [done|]. zbool. zcase_in E; [done|]. injection E as <-.
  constructor; simpl; unfold config_ok; try done; lia.
Qed.

(** C14: The reserved bytes never exceed the budget.  Start a ledger from a
    valid configuration and run any operations (reservations of any class,
    releases and commits of live tokens, committed-byte updates): the reserved
    counter is exactly the sum of the live tokens, the dirty counter exactly
    the sum of the dirty ones and within the dirty budget, no subtraction
    wraps, the recorded peak bounds [committed + reserved], and the peak never
    passes the hard budget. *)
Theorem ledger_envelope_bounded (c : BudgetConfig) (b : Z) (l : ReservationLedger) (ops : list LedgerOp) :
  in_u64 (hard_bytes c) -> 0 <= prefetch_soft_bytes c -> 0 <= dirty_update_bytes c -> 0 <= b ->
  ReservationLedger_new c b = Ok l -> Forall op_u64 ops ->
  let y := sys_run (mkSystem l []) ops in
  let s := snapshot (sys_ledger y) in
  reserved_bytes s = sumZ r_bytes (sys_live y) /\
  dirty_reserved_bytes s = sumZ dirty_bytes_of (sys_live y) /\
  dirty_reserved_bytes s <= dirty_update_bytes (l_config (sys_ledger y)) /\
  committed_bytes s + reserved_bytes s <= peak_envelope_bytes s <= hard_bytes (l_config (sys_ledger y)).
Proof.
  intros H1 H2 H3 H4 E HF. destruct (sys_run_ok ops _ (new_ledger_ok c b l H1 H2 H3 H4 E) HF).
  unfold snapshot. simpl. by split_and!.
Qed.

Definition sample_config : BudgetConfig := mkBudgetConfig 1000 600 300 200.
Definition sample_ledger_ops : list LedgerOp :=
  [OpReserve 400 Blocking; OpReserve 150 DirtyUpdate; OpReserve 500 Prefetch; OpCommit 0; OpReserve 60 Staging;
   OpRelease 1].

Lemma ledger_envelope_bounded_witness :
  exists l, ReservationLedger_new sample_config 100 = Ok l /\
  let y := sys_run (mkSystem l []) sample_ledger_ops in
  reserved_bytes (snapshot (sys_ledger y)) = sumZ r_bytes (sys_live y) /\
  snapshot (sys_ledger y) = mkSnapshot 250 60 60 710.
Proof.
  exists (mkLedger sample_config (mkLedgerState 100 0 0 100)). split; [reflexivity|]. split; [|vm_compute; reflexivity].
  apply (ledger_envelope_bounded sample_config 100 _ sample_ledger_ops).
  1-4: unfold in_u64, sample_config; simpl; mach.
  - reflexivity.
  - repeat constructor; simpl; mach.
Defined.

(** ** The update reserve *)
Definition clean_bytes_of (r : BudgetReservation) : Z := if class_is_dirty (r_class r) then 0 else r_bytes r.

Lemma clean_dirty_split (l : list BudgetReservation) :
  sumZ r_bytes l = sumZ clean_bytes_of l + sumZ dirty_bytes_of l.
Proof.
  induction l as [|r l IH]; [done|]. rewrite !sumZ_cons, IH. unfold clean_bytes_of, dirty_bytes_of.
  destruct (class_is_dirty (r_class r)); lia.
Qed.

(** Outside the update reserve: committed plus clean reservations. *)
Definition reserve_intact (y : System) : Prop :=
  committed (l_state (sys_ledger y)) + sumZ clean_bytes_of (sys_live y) <=
  hard_bytes (l_config (sys_ledger y)) - update_safety_reserve (l_config (sys_ledger y)).

(** The cache's own traffic: everything but committing update bytes and
    forcing the committed count. *)
Definition cache_op (y : System) (op : LedgerOp) : bool :=
  match op with
  | OpReserve _ _ | OpRelease _ => true
  | OpCommit k => match sys_live y !! k with Some r => negb (class_is_dirty (r_class r)) | None => true end
  | OpSetCommitted _ => false
  end.

Fixpoint cache_ops (y : System) (ops : list LedgerOp) : bool :=
  match ops with [] => true | op :: ops => cache_op y op && cache_ops (sys_step y op) ops end.

(** What a granted reservation changes. *)
Lemma reserve_inv (l l' : ReservationLedger) (b : Z) (c : ReservationClass) (r : BudgetReservation) :
  reserve l b c = Ok (r, l') ->
  l_config l' = l_config l /\ r = mkReservation b c true /\ committed (l_state l') = committed (l_state l) /\
  committed (l_state l) + (reserved (l_state l) + b) <= class_limit (l_config l) c.
Proof.
  unfold reserve. destruct (b =? 0); [done|]. intros E.
  apply bind_Ok_inv in E as (v & Ev & E). apply ok_or_Ok_inv, checked_add_Some in Ev as [? ->].
  apply bind_Ok_inv in E as (w & Ew & E). apply ok_or_Ok_inv, checked_add_Some in Ew as [? ->].
  destruct (Z.ltb_spec (class_limit (l_config l) c) (committed (l_state l) + (reserved (l_state l) + b))); [done|].
  apply bind_Ok_inv in E as (u & _ & E). injection E as <- <-. by split_and!.
Qed.

Lemma sys_config_step (y : System) (op : LedgerOp) : l_config (sys_ledger (sys_step y op)) = l_config (sys_ledger y).
Proof.
  destruct op as [b c|k|k|b]; simpl.
  - destruct (reserve _ b c) as [[r l]|] eqn:E; [|done]. by destruct (reserve_inv _ _ _ _ _ E).
  - destruct (sys_live y !! k) as [[b c []]|]; done.
  - destruct (sys_live y !! k) as [[b c []]|]; [| |done]; simpl; unfold commit; destruct (checked_add _ _); done.
  - unfold set_committed. destruct (checked_add _ _); [|done]. by destruct (_ <? _).
Qed.

Lemma sys_config_run (ops : list LedgerOp) (y : System) : l_config (sys_ledger (sys_run y ops)) = l_config (sys_ledger y).
Proof.
  revert y. induction ops as [|op ops IH]; intros y; [done|]. cbn [sys_run foldl]. unfold sys_run in IH.
  by rewrite IH, sys_config_step.
Qed.

Lemma reserve_intact_step (y : System) (op : LedgerOp) :
  ledger_ok y -> prefetch_soft_bytes (l_config (sys_ledger y)) <=
    hard_bytes (l_config (sys_ledger y)) - update_safety_reserve (l_config (sys_ledger y)) ->
  op_u64 op -> cache_op y op = true -> reserve_intact y -> reserve_intact (sys_step y op).
Proof.
  intros HK Hsoft Hop Hcache HI. unfold reserve_intact in *. rewrite sys_config_step.
  pose proof (lk_reserved _ HK) as Hr. rewrite clean_dirty_split in Hr.
  pose proof (live_sum_nonneg _ (lk_live _ HK)) as [_ Hd].
  destruct op as [b c|k|k|b]; simpl in *; [| | |done].
  - destruct (reserve _ b c) as [[r l]|] eqn:E; [|done]. simpl. apply reserve_inv in E as (_ & -> & -> & HL).
    unfold clean_bytes_of at 1. simpl. destruct (lk_config _ HK) as (? & ? & ? & ?).
    destruct c; simpl in HL |- *; rewrite ?wsub_u64_small in HL; lia.
  - destruct (sys_live y !! k) as [r|] eqn:E; [|done]. rewrite (sumZ_delete _ _ _ _ E) in HI.
    destruct (token_subtracts y k r HK E) as (Hb & Ha & _). unfold release, release_inner. rewrite Ha. simpl.
    unfold clean_bytes_of in HI at 1. destruct (class_is_dirty (r_class r)); lia.
  - destruct (sys_live y !! k) as [r|] eqn:E; [|done]. rewrite (sumZ_delete _ _ _ _ E) in HI. simpl.
    destruct (proj2 (commit_ok y k HK) r E) as (_ & -> & _). apply negb_true_iff in Hcache.
    unfold clean_bytes_of in HI at 1. rewrite Hcache in HI. lia.
Qed.

Lemma reserve_intact_run (ops : list LedgerOp) (y : System) :
  ledger_ok y -> prefetch_soft_bytes (l_config (sys_ledger y)) <=
    hard_bytes (l_config (sys_ledger y)) - update_safety_reserve (l_config (sys_ledger y)) ->
  Forall op_u64 ops -> cache_ops y ops = true -> reserve_intact y -> reserve_intact (sys_run y ops).
Proof.
  revert y. induction ops as [|op ops IH]; intros y HK Hsoft HF Hc HI; [done|]. simpl in Hc. zbool.
  inversion_clear HF. apply IH; [by apply sys_step_ok|by rewrite sys_config_step|done|done|by apply reserve_intact_step].
Qed.

(** Cache traffic cannot starve an update.  If the prefetch soft limit
    leaves the update reserve free and the ledger starts with the reserve
    untouched, then after any blocking, capsule and prefetch traffic (with
    its releases and commits) and any update reservations, a further update
    reservation that fits the dirty budget is granted. *)
Theorem update_reserve_not_starved (y : System) (ops : list LedgerOp) (bytes : Z) (class : ReservationClass) :
  ledger_ok y -> reserve_intact y ->
  prefetch_soft_bytes (l_config (sys_ledger y)) <=
    hard_bytes (l_config (sys_ledger y)) - update_safety_reserve (l_config (sys_ledger y)) ->
  Forall op_u64 ops -> cache_ops y ops = true ->
  class_is_dirty class = true -> 0 < bytes ->
  dirty_reserved (l_state (sys_ledger (sys_run y ops))) + bytes <= dirty_update_bytes (l_config (sys_ledger y)) ->
  exists l', reserve (sys_ledger (sys_run y ops)) bytes class = Ok (mkReservation bytes class true, l').
Proof.
  intros HK HI Hsoft HF Hc Hcl Hb Hd. pose proof (sys_run_ok ops y HK HF) as HK'.
  pose proof (reserve_intact_run ops y HK Hsoft HF Hc HI) as HI'. rewrite <- (sys_config_run ops y) in Hd.
  revert HK' HI' Hd. generalize (sys_run y ops). intros z [HC HL Hcm Hr HD Hdc Hp Hh] HI' Hd.
  unfold reserve_intact in HI'. rewrite clean_dirty_split in Hr. destruct HC as (? & ? & ? & ?).
  unfold reserve. rewrite (proj2 (Z.eqb_neq bytes 0)) by lia.
  rewrite checked_add_fits by lia. cbn.
  rewrite checked_add_fits by lia. cbn.
  replace (class_limit _ class) with (hard_bytes (l_config (sys_ledger z))) by (by destruct class).
  rewrite (proj2 (Z.ltb_ge _ _)) by lia. rewrite Hcl.
  rewrite checked_add_fits by lia. cbn.
  rewrite (proj2 (Z.ltb_ge _ _)) by lia. by eexists.
Qed.

Lemma update_reserve_not_starved_witness :
  let y := mkSystem (mkLedger sample_config (mkLedgerState 100 0 0 100)) [] in
  exists l', reserve (sys_ledger (sys_run y [OpReserve 400 Blocking; OpReserve 200 Capsule; OpCommit 1])) 200 DirtyUpdate
    = Ok (mkReservation 200 DirtyUpdate true, l').
Proof.
  apply (update_reserve_not_starved (mkSystem (mkLedger sample_config (mkLedgerState 100 0 0 100)) [])
    [OpReserve 400 Blocking; OpReserve 200 Capsule; OpCommit 1] 200 DirtyUpdate).
  - constructor; simpl; unfold config_ok; simpl; try done; mach.
  - unfold reserve_intact. simpl. lia.
  - simpl. lia.
  - repeat constructor; simpl; mach.
  - reflexivity.
  - reflexivity.
  - lia.
  - vm_compute. discriminate.
Defined.
