(* ===== verification/SpaceLease.v ===== *)
(** * Space-lease planning

    [mirage-cache/src/space_lease.rs]: the pure decision that a requested
    number of local bytes can be promised, from the free space of the volume
    and the residents that may be dropped. *)
From S2P Require Export Errors.

(** ** Data *)
Record ReclaimCandidate : Set := mkCandidate {
  reclaim_id : Hash; physical_bytes : Z; last_access_sequence : Z;
  remote_verified : bool; dirty : bool; pinned : bool; active_read_leases : Z;
  mounted_reader_exclusion : bool
}.

Definition reclaimable (c : ReclaimCandidate) : bool :=
  negb (physical_bytes c =? 0) && remote_verified c && negb (dirty c) && negb (pinned c)
  && (active_read_leases c =? 0) && negb (mounted_reader_exclusion c).

Record CapacitySnapshot : Set := mkCapacity {
  physical_free_bytes : Z; filesystem_reserve_bytes : Z; outstanding_space_lease_bytes : Z;
  candidates : list ReclaimCandidate
}.

Record BlockedCapacity : Set := mkBlocked {
  unique_bytes : Z; unverified_bytes : Z; bc_dirty_bytes : Z; pinned_bytes : Z;
  active_read_bytes : Z; mounted_reader_bytes : Z
}.
Definition BlockedCapacity_default : BlockedCapacity := mkBlocked 0 0 0 0 0 0.

Record SpaceLeasePlan : Set := mkPlan {
  requested_bytes : Z; immediately_available_bytes : Z; reclaim_required_bytes : Z;
  total_reclaimable_bytes : Z; selected_reclaim_bytes : Z;
  available_after_selected_reclaim_bytes : Z; shortfall_bytes : Z;
  selected : list ReclaimCandidate; blocked : BlockedCapacity
}.

Definition grantable (p : SpaceLeasePlan) : bool :=
  (shortfall_bytes p =? 0) && (requested_bytes p <=? available_after_selected_reclaim_bytes p).

(** ** The planner *)
Definition checked_add_label (left right : Z) (label : string) : result Z :=
  ok_or (invalid_argument (label +:+ " overflows u64")) (checked_add left right).

(** [if cond { total = checked_add(total, bytes, label)? }]. *)
Definition add_when (cond : bool) (total bytes : Z) (label : string) : result Z :=
  if cond then checked_add_label total bytes label else Ok total.

Definition block_candidate (b : BlockedCapacity) (c : ReclaimCandidate) : result BlockedCapacity :=
  let n := physical_bytes c in
  u ← checked_add_label (unique_bytes b) n "blocked capacity";
  v ← add_when (negb (remote_verified c)) (unverified_bytes b) n "unverified capacity";
  d ← add_when (dirty c) (bc_dirty_bytes b) n "dirty capacity";
  p ← add_when (pinned c) (pinned_bytes b) n "pinned capacity";
  a ← add_when (negb (active_read_leases c =? 0)) (active_read_bytes b) n "active-read capacity";
  m ← add_when (mounted_reader_exclusion c) (mounted_reader_bytes b) n "mounted-reader capacity";
  Ok (mkBlocked u v d p a m).

Fixpoint classify (seen : gset Z) (rec : list ReclaimCandidate) (b : BlockedCapacity)
  (cs : list ReclaimCandidate) : result (list ReclaimCandidate * BlockedCapacity) :=
  match cs with
  | [] => Ok (rec, b)
  | c :: cs =>
      if bool_decide (reclaim_id c ∈ seen)
      then Err (invalid_argument "capacity snapshot contains a duplicate reclaim candidate")
      else let seen := {[ reclaim_id c ]} ∪ seen in
      if physical_bytes c =? 0 then classify seen rec b cs
      else if reclaimable c then classify seen (rec ++ [c]) b cs
      else b' ← block_candidate b c; classify seen rec b' cs
  end.

(** The key [(last_access_sequence, Reverse(physical_bytes), reclaim_id)]. *)
Definition reclaim_le (a b : ReclaimCandidate) : bool :=
  (last_access_sequence a <? last_access_sequence b) ||
  ((last_access_sequence a =? last_access_sequence b) &&
   ((physical_bytes b <? physical_bytes a) ||
    ((physical_bytes b =? physical_bytes a) && (reclaim_id a <=? reclaim_id b)))).

Fixpoint sum_reclaimable (total : Z) (cs : list ReclaimCandidate) : result Z :=
  match cs with
  | [] => Ok total
  | c :: cs => t ← checked_add_label total (physical_bytes c) "total reclaimable capacity"; sum_reclaimable t cs
  end.

Fixpoint select (required total : Z) (sel cs : list ReclaimCandidate) : result (list ReclaimCandidate * Z) :=
  match cs with
  | [] => Ok (sel, total)
  | c :: cs =>
      t ← checked_add_label total (physical_bytes c) "selected reclaim capacity";
      if required <=? t then Ok (sel ++ [c], t) else select required t (sel ++ [c]) cs
  end.

Definition plan_space_lease (s : CapacitySnapshot) (requested : Z) : result SpaceLeasePlan :=
  if requested =? 0 then Err (invalid_argument "Space Lease request must be greater than zero bytes") else
  let immediately := saturating_sub (saturating_sub (physical_free_bytes s) (filesystem_reserve_bytes s))
                       (outstanding_space_lease_bytes s) in
  let required := saturating_sub requested immediately in
  cl ← classify ∅ [] BlockedCapacity_default (candidates s);
  let rec := sort_by reclaim_le cl.1 in
  total ← sum_reclaimable 0 rec;
  maximum ← checked_add_label immediately total "maximum available capacity";
  let shortfall := saturating_sub requested maximum in
  sel ← (if negb (required =? 0) then select required 0 [] rec else Ok ([], 0));
  after ← checked_add_label immediately sel.2 "available capacity after reclaim";
  Ok (mkPlan requested immediately required total sel.2 after shortfall sel.1 cl.2).

(** ** Lemmas *)
Lemma checked_add_label_Ok (a b c : Z) (l : string) : checked_add_label a b l = Ok c <-> a + b <= u64_max /\ c = a + b.
Proof.
  unfold checked_add_label. rewrite <- checked_add_Some. destruct (checked_add a b); simpl; naive_solver.
Qed.

Lemma reclaim_le_spec (a b : ReclaimCandidate) :
  reclaim_le a b = true <->
  last_access_sequence a < last_access_sequence b \/
  (last_access_sequence a = last_access_sequence b /\
   (physical_bytes b < physical_bytes a \/ (physical_bytes b = physical_bytes a /\ reclaim_id a <= reclaim_id b))).
Proof. unfold reclaim_le. rewrite !orb_true_iff, !andb_true_iff, !orb_true_iff, !andb_true_iff. lia. Qed.

Lemma reclaim_le_total (a b : ReclaimCandidate) : reclaim_le a b = false -> reclaim_le b a = true.
Proof. intros H. rewrite reclaim_le_spec. pose proof (reclaim_le_spec a b) as HS. rewrite H in HS. lia. Qed.
Lemma reclaim_le_trans (a b c : ReclaimCandidate) :
  reclaim_le a b = true -> reclaim_le b c = true -> reclaim_le a c = true.
Proof. rewrite !reclaim_le_spec. lia. Qed.

Lemma block_candidate_unique (b b' : BlockedCapacity) (c : ReclaimCandidate) :
  block_candidate b c = Ok b' -> unique_bytes b' = unique_bytes b + physical_bytes c.
Proof.
  unfold block_candidate. intros H. apply bind_Ok_inv in H as (u & Hu & H). apply checked_add_label_Ok in Hu as [_ ->].
  do 5 (apply bind_Ok_inv in H as (? & _ & H)). by injection H as <-.
Qed.

(** What the classification loop leaves: the reclaimable candidates in order
    and the bytes of the others. *)
Lemma classify_Ok (cs : list ReclaimCandidate) (seen : gset Z) (rec : list ReclaimCandidate)
  (b : BlockedCapacity) (out : list ReclaimCandidate * BlockedCapacity) :
  classify seen rec b cs = Ok out ->
  out.1 = rec ++ List.filter reclaimable cs /\
  unique_bytes out.2 = unique_bytes b + sumZ physical_bytes (List.filter (fun c => negb (reclaimable c)) cs) /\
  NoDup (map reclaim_id cs).
Proof.
  assert (Hgen : forall cs seen rec b, classify seen rec b cs = Ok out ->
    (out.1 = rec ++ List.filter reclaimable cs /\
     unique_bytes out.2 = unique_bytes b + sumZ physical_bytes (List.filter (fun c => negb (reclaimable c)) cs)) /\
    NoDup (map reclaim_id cs) /\ Forall (fun c => reclaim_id c ∉ seen) cs); [|naive_solver].
  clear. induction cs as [|c cs IH]; intros seen rec b; simpl.
  { intros [= <-]. simpl. rewrite app_nil_r. split; [split; [done|lia]|by split; [constructor|]]. }
  case_bool_decide as Hs; [done|].
  assert (Hrest : forall rec' b', classify ({[reclaim_id c]} ∪ seen) rec' b' cs = Ok out ->
    (out.1 = rec' ++ List.filter reclaimable cs /\
     unique_bytes out.2 = unique_bytes b' + sumZ physical_bytes (List.filter (fun c => negb (reclaimable c)) cs)) /\
    NoDup (reclaim_id c :: map reclaim_id cs) /\ Forall (fun c => reclaim_id c ∉ seen) (c :: cs)).
  { intros rec' b' H. destruct (IH _ _ _ H) as (Hout & HN & HF). split; [done|]. split.
    - constructor; [|done]. intros (x & E & Hin)%list_elem_of_fmap. rewrite Forall_forall in HF.
      apply (HF x Hin). rewrite E. set_solver.
    - constructor; [done|]. apply (Forall_impl _ _ _ HF). set_solver. }
  destruct (Z.eqb_spec (physical_bytes c) 0) as [H0|H0].
  - assert (reclaimable c = false) as -> by (unfold reclaimable; by rewrite H0). simpl.
    intros H. destruct (Hrest _ _ H) as [[? ?] ?]. split; [split; [done|lia]|done].
  - destruct (reclaimable c); simpl; intros H.
    + destruct (Hrest _ _ H) as [[-> ?] ?]. by rewrite <- app_assoc.
    + apply bind_Ok_inv in H as (b' & Hb & H). apply block_candidate_unique in Hb.
      destruct (Hrest _ _ H) as [[? ?] ?]. split; [split; [done|lia]|done].
Qed.

Lemma sum_reclaimable_Ok (cs : list ReclaimCandidate) (t t' : Z) :
  sum_reclaimable t cs = Ok t' -> t' = t + sumZ physical_bytes cs.
Proof.
  revert t. induction cs as [|c cs IH]; intros t H; simpl in *; [injection H as <-; lia|].
  apply bind_Ok_inv in H as (u & Hu & H). apply checked_add_label_Ok in Hu as [_ ->]. rewrite (IH _ H). lia.
Qed.

(** The selection loop takes the shortest prefix that covers the requirement. *)
Lemma select_Ok (cs sel : list ReclaimCandidate) (required t : Z) (out : list ReclaimCandidate * Z) :
  select required t sel cs = Ok out -> t < required ->
  exists pre post, cs = pre ++ post /\ out.1 = sel ++ pre /\ out.2 = t + sumZ physical_bytes pre /\
    (required <= out.2 \/ post = []) /\
    (forall pre' x, pre = pre' ++ [x] -> t + sumZ physical_bytes pre' < required).
Proof.
  revert t sel. induction cs as [|c cs IH]; intros t sel H Ht; simpl in *.
  { injection H as <-. exists [], []. simpl. rewrite app_nil_r. split_and!; try done; try lia; try (by right).
    intros [|? ?] x; done. }
  apply bind_Ok_inv in H as (u & Hu & H). apply checked_add_label_Ok in Hu as [_ ->].
  destruct (Z.leb_spec required (t + physical_bytes c)).
  - injection H as <-. exists [c], cs. simpl. split_and!; try done; try lia.
    intros [|y [|]] x; [simpl; lia|done|done].
  - destruct (IH _ _ H ltac:(lia)) as (pre & post & -> & -> & Hs & Hq & Hm). exists (c :: pre), post.
    rewrite <- app_assoc. split_and!; try done; [simpl; lia|..]. intros [|y pre'] x E; [simpl; lia|].
    injection E as <- E. specialize (Hm _ _ E). simpl. lia.
Qed.

Lemma sorted_reclaimable_perm (l : list ReclaimCandidate) : sort_by reclaim_le l ≡ₚ l.
Proof. apply sort_by_perm. Qed.

Lemma filter_elem {A : Type} (f : A -> bool) (l : list A) (x : A) : x ∈ List.filter f l -> f x = true /\ x ∈ l.
Proof. rewrite !list_elem_of_In, List.filter_In. naive_solver. Qed.

Lemma NoDup_map_filter {A B : Type} (g : A -> B) (f : A -> bool) (l : list A) :
  NoDup (map g l) -> NoDup (map g (List.filter f l)).
Proof.
  induction l as [|x l IH]; simpl; [done|]. rewrite !NoDup_cons. intros [Hx HN].
  destruct (f x); simpl; [|by apply IH]. constructor; [|by apply IH].
  intros (y & Ey & Hy)%list_elem_of_fmap. apply filter_elem in Hy as [_ Hy]. apply Hx, list_elem_of_fmap. by exists y.
Qed.

(** The facts behind a successful plan. *)
Lemma plan_Ok_inv (s : CapacitySnapshot) (req : Z) (p : SpaceLeasePlan) :
  plan_space_lease s req = Ok p -> 0 <= req ->
  let rec := sort_by reclaim_le (List.filter reclaimable (candidates s)) in
  let avail := saturating_sub (saturating_sub (physical_free_bytes s) (filesystem_reserve_bytes s))
                 (outstanding_space_lease_bytes s) in
  NoDup (map reclaim_id (candidates s)) /\
  requested_bytes p = req /\ immediately_available_bytes p = avail /\
  total_reclaimable_bytes p = sumZ physical_bytes rec /\
  shortfall_bytes p = saturating_sub req (avail + sumZ physical_bytes rec) /\
  available_after_selected_reclaim_bytes p = avail + sumZ physical_bytes (selected p) /\
  selected_reclaim_bytes p = sumZ physical_bytes (selected p) /\
  unique_bytes (blocked p) = sumZ physical_bytes (List.filter (fun c => negb (reclaimable c)) (candidates s)) /\
  exists post, rec = selected p ++ post /\
    (req <= available_after_selected_reclaim_bytes p \/ post = []) /\
    (forall pre' x, selected p = pre' ++ [x] -> avail + sumZ physical_bytes pre' < req).
Proof.
  unfold plan_space_lease. destruct (Z.eqb_spec req 0) as [|Hr]; [done|]. cbv zeta. intros H Hreq.
  apply bind_Ok_inv in H as ([rc bl] & Hcl & H). destruct (classify_Ok _ _ _ _ _ Hcl) as (Hrc & Hbl & HN).
  simpl in Hrc, Hbl, H. subst rc.
  apply bind_Ok_inv in H as (tot & Ht & H). apply sum_reclaimable_Ok in Ht. simpl in Ht. subst tot.
  apply bind_Ok_inv in H as (mx & Hm & H). apply checked_add_label_Ok in Hm as [_ ->].
  apply bind_Ok_inv in H as ([sel ss] & Hsel & H). simpl in H.
  apply bind_Ok_inv in H as (aft & Ha & H). apply checked_add_label_Ok in Ha as [_ ->]. injection H as <-.
  simpl. set (avail := saturating_sub _ (outstanding_space_lease_bytes s)) in *.
  set (rec := sort_by reclaim_le _) in *.
  destruct (Z.eqb_spec (saturating_sub req avail) 0) as [Hz|Hz]; simpl in Hsel.
  - injection Hsel as <- <-. simpl. split_and!; try done. exists rec. split; [done|]. split; [left; unfold saturating_sub in Hz; lia|].
    intros [|] ?; done.
  - destruct (select_Ok _ _ _ _ _ Hsel ltac:(unfold saturating_sub in *; lia)) as (pre & post & Hsp & Hs1 & Hs2 & Hq & Hmin).
    simpl in Hs1, Hs2, Hq. subst sel ss. split_and!; try done. exists post. split; [done|].
    unfold saturating_sub in Hz, Hq, Hmin. split; [destruct Hq; [left; lia|by right]|].
    intros pre' x E. specialize (Hmin pre' x E). lia.
Qed.

(** A granted space lease is backed by droppable bytes only.  If the
    planner says a request is grantable, the free space left after the
    filesystem reserve and the outstanding leases, plus the bytes of the
    selected candidates, covers the request; every selected candidate is one
    of the snapshot's, is remotely verified, clean, unpinned, without readers
    and without a mounted reader; none is counted twice. *)
Theorem space_lease_plan_safe (s : CapacitySnapshot) (req : Z) (p : SpaceLeasePlan) :
  plan_space_lease s req = Ok p -> 0 <= req -> grantable p = true ->
  req <= saturating_sub (saturating_sub (physical_free_bytes s) (filesystem_reserve_bytes s))
           (outstanding_space_lease_bytes s) + sumZ physical_bytes (selected p) /\
  NoDup (map reclaim_id (selected p)) /\
  Forall (fun c => c ∈ candidates s /\ remote_verified c = true /\ dirty c = false /\ pinned c = false /\
                   active_read_leases c = 0 /\ mounted_reader_exclusion c = false) (selected p).
Proof.
  intros H Hreq HG. destruct (plan_Ok_inv s req p H Hreq) as (HN & Hrq & _ & _ & _ & Haf & _ & _ & post & Hrec & _).
  unfold grantable in HG. zbool. split; [lia|].
  assert (Hp : selected p ++ post ≡ₚ List.filter reclaimable (candidates s))
    by (rewrite <- Hrec; apply sorted_reclaimable_perm).
  split.
  - assert (NoDup (map reclaim_id (selected p ++ post))) as HN2 by (rewrite Hp; by apply NoDup_map_filter).
    rewrite map_app in HN2. by apply NoDup_app in HN2 as [? _].
  - apply Forall_forall. intros c Hc.
    assert (c ∈ List.filter reclaimable (candidates s)) as [Hr Hin]%filter_elem
      by (rewrite <- Hp; apply elem_of_app; by left).
    unfold reclaimable in Hr. zbool. by split_and!.
Qed.

(** The planner is exact.  For a non-zero request it refuses only what
    cannot be met: a plan is grantable if and only if the available bytes plus
    all reclaimable bytes cover the request; the reported shortfall is the
    missing amount; the selection is a prefix of the reclaimable candidates in
    the documented order (oldest first, then largest, then by id), and it is
    minimal: dropping its last element would not cover the request. *)
Theorem space_lease_plan_exact (s : CapacitySnapshot) (req : Z) (p : SpaceLeasePlan) :
  plan_space_lease s req = Ok p -> 0 <= req ->
  let avail := saturating_sub (saturating_sub (physical_free_bytes s) (filesystem_reserve_bytes s))
                 (outstanding_space_lease_bytes s) in
  let rec := List.filter reclaimable (candidates s) in
  (grantable p = true <-> req <= avail + sumZ physical_bytes rec) /\
  shortfall_bytes p = Z.max 0 (req - (avail + sumZ physical_bytes rec)) /\
  (exists ordered, ordered ≡ₚ rec /\ StronglySorted (fun a b => reclaim_le a b = true) ordered /\
     selected p `prefix_of` ordered) /\
  (forall pre x, selected p = pre ++ [x] -> avail + sumZ physical_bytes pre < req) /\
  unique_bytes (blocked p) + total_reclaimable_bytes p = sumZ physical_bytes (candidates s).
Proof.
  intros H Hreq. destruct (plan_Ok_inv s req p H Hreq) as (HN & Hrq & Hi & Ht & Hsh & Haf & Hsel & Hbl & post & Hrec & Hq & Hmin).
  cbv zeta in *. set (avail := saturating_sub _ (outstanding_space_lease_bytes s)) in *.
  rewrite (sumZ_perm _ _ _ (sorted_reclaimable_perm _)) in Hsh, Ht.
  assert (Hsplit : sumZ physical_bytes (List.filter reclaimable (candidates s)) =
    sumZ physical_bytes (selected p) + sumZ physical_bytes post)
    by (rewrite <- sumZ_app, <- Hrec; symmetry; apply sumZ_perm, sorted_reclaimable_perm).
  split_and!.
  - unfold grantable. rewrite andb_true_iff, Z.eqb_eq, Z.leb_le, Hsh, Hrq. unfold saturating_sub at 1.
    destruct Hq as [|Hp]; [lia|]. rewrite Hp in Hsplit. simpl in Hsplit. lia.
  - rewrite Hsh. unfold saturating_sub at 1. lia.
  - exists (sort_by reclaim_le (List.filter reclaimable (candidates s))).
    split; [apply sorted_reclaimable_perm|]. split; [|rewrite Hrec; by exists post].
    apply sort_by_sorted; [apply reclaim_le_total|apply reclaim_le_trans].
  - done.
  - rewrite Hbl, Ht. clear. induction (candidates s) as [|c l IH]; [done|]. simpl.
    destruct (reclaimable c); simpl; lia.
Qed.

Definition sample_capacity : CapacitySnapshot :=
  mkCapacity 100 40 20 [mkCandidate 1 50 9 true false false 0 false; mkCandidate 2 30 3 true false false 0 false;
    mkCandidate 3 80 1 true true false 0 false; mkCandidate 4 60 3 true false false 0 false;
    mkCandidate 5 0 0 true false false 0 false].

Lemma space_lease_plan_safe_witness :
  exists p, plan_space_lease sample_capacity 120 = Ok p /\ grantable p = true /\
    map reclaim_id (selected p) = [4; 2] /\ NoDup (map reclaim_id (selected p)).
Proof.
  eexists. split; [vm_compute; reflexivity|]. split; [reflexivity|]. split; [reflexivity|].
  eapply (space_lease_plan_safe sample_capacity 120); [vm_compute; reflexivity|lia|reflexivity].
Defined.

Lemma space_lease_plan_exact_witness :
  exists p, plan_space_lease sample_capacity 200 = Ok p /\ grantable p = false /\ shortfall_bytes p = 20.
Proof.
  eexists. split; [vm_compute; reflexivity|]. split; [reflexivity|].
  edestruct (space_lease_plan_exact sample_capacity 200) as (_ & -> & _); [vm_compute; reflexivity|lia|].
  vm_compute. reflexivity.
Defined.
