(* ===== verification/Allocator.v ===== *)
(** * Physical allocation index

    [mirage-engine/src/allocator.rs] (with the row types of
    [mirage-db/src/physical.rs]): fixed-size slots inside arena files, a queue
    of dead slots to recycle, a FIFO of alive slots to evict and the map from
    extent ids to slots.

    The index leaves part of its discipline to its callers: a picked slot is
    reserved under a fresh extent id.  [alloc_step] spells that protocol and
    the theorems hold for every run of it. *)
From S2P Require Export Errors.

(** ** Data *)
Inductive PhysicalExtentState : Set := Reserved | Alive | Dead | Evicting.
#[export] Instance PhysicalExtentState_eq_dec : EqDecision PhysicalExtentState.
Proof. solve_decision. Defined.

Definition PhysicalExtentState_as_str (s : PhysicalExtentState) : string :=
  match s with Reserved => "reserved" | Alive => "alive" | Dead => "dead" | Evicting => "evicting" end.

Definition PhysicalExtentState_parse (v : string) : result PhysicalExtentState :=
  if bool_decide (v = "reserved") then Ok Reserved
  else if bool_decide (v = "alive") then Ok Alive
  else if bool_decide (v = "dead") then Ok Dead
  else if bool_decide (v = "evicting") then Ok Evicting
  else Err (integrity_mismatch "physical extent state is unknown").

Record PhysicalFileRecord : Set := mkFileRecord {
  pf_file_id : Hash; pf_path : string; pf_zone : Z; pf_extent_bytes : Z; pf_extent_count : Z; pf_created_ns : Z
}.
Record PhysicalExtentRecord : Set := mkExtentRecord {
  pe_extent_id : Hash; pe_file_id : Hash; pe_slot_index : Z; pe_length_bytes : Z; pe_state : PhysicalExtentState;
  pe_page_hash : option Hash; pe_checksum : option Hash; pe_pin_count : Z; pe_generation : Z; pe_updated_ns : Z
}.

Record ExtentSlot : Set := mkSlot { slot_file : Hash; slot_index : Z }.
#[export] Instance ExtentSlot_eq_dec : EqDecision ExtentSlot.
Proof. solve_decision. Defined.

Record SlotMeta : Set := mkMeta { m_extent_id : Hash; m_state : PhysicalExtentState; m_pin_count : Z; m_last_used : Z }.

Record Arena : Set := mkArena { extent_count : Z; slots : list (option SlotMeta) }.

Record AllocationIndex : Set := mkIndex {
  arenas : gmap Z Arena;
  zones : gmap Z (list Z);
  dead : list ExtentSlot;
  alive : list ExtentSlot;
  extents : gmap Z ExtentSlot;
  tick : Z
}.
Definition AllocationIndex_default : AllocationIndex := mkIndex ∅ ∅ [] [] ∅ 0.

(** Field updates. *)
Definition with_arenas (f : gmap Z Arena -> gmap Z Arena) (a : AllocationIndex) : AllocationIndex :=
  mkIndex (f (arenas a)) (zones a) (dead a) (alive a) (extents a) (tick a).
Definition with_dead (d : list ExtentSlot) (a : AllocationIndex) : AllocationIndex :=
  mkIndex (arenas a) (zones a) d (alive a) (extents a) (tick a).
Definition with_alive (d : list ExtentSlot) (a : AllocationIndex) : AllocationIndex :=
  mkIndex (arenas a) (zones a) (dead a) d (extents a) (tick a).
Definition with_extents (m : gmap Z ExtentSlot) (a : AllocationIndex) : AllocationIndex :=
  mkIndex (arenas a) (zones a) (dead a) (alive a) m (tick a).
Definition bump_tick (a : AllocationIndex) : AllocationIndex :=
  mkIndex (arenas a) (zones a) (dead a) (alive a) (extents a) (tick a +! 1).

(** ** Slot access

    A negative index cast to [usize] is at least [2^63], past the end of any [Vec]. *)
Definition slot_meta (a : AllocationIndex) (s : ExtentSlot) : option SlotMeta :=
  ar ← arenas a !! slot_file s;
  if 0 <=? slot_index s then mjoin (slots ar !! Z.to_nat (slot_index s)) else None.

(** Writing through [slot_meta_mut]. *)
Definition set_slot (a : AllocationIndex) (s : ExtentSlot) (m : SlotMeta) : AllocationIndex :=
  with_arenas (alter (fun ar => mkArena (extent_count ar) (<[Z.to_nat (slot_index s) := Some m]> (slots ar))) (slot_file s)) a.

(** ** Operations *)
Definition register (a : AllocationIndex) (f : PhysicalFileRecord) : result AllocationIndex :=
  if (pf_extent_count f <? 0) || (pf_extent_bytes f <=? 0)
  then Err (invalid_argument "arena file has an invalid extent geometry")
  else
    let arenas' := match arenas a !! pf_file_id f with
      | Some _ => arenas a
      | None => <[pf_file_id f := mkArena (pf_extent_count f) (replicate (Z.to_nat (pf_extent_count f)) None)]> (arenas a)
      end in
    Ok (mkIndex arenas'
      (<[pf_zone f := default [] (zones a !! pf_zone f) ++ [pf_file_id f]]> (zones a))
      (dead a) (alive a) (extents a) (tick a)).

Fixpoint register_all (a : AllocationIndex) (fs : list PhysicalFileRecord) : result AllocationIndex :=
  match fs with [] => Ok a | f :: fs => a' ← register a f; register_all a' fs end.

Definition replay_extent (a : AllocationIndex) (e : PhysicalExtentRecord) : result AllocationIndex :=
  ar ← ok_or (integrity_mismatch "physical extent references a missing arena") (arenas a !! pe_file_id e);
  if (pe_slot_index e <? 0) || (extent_count ar <=? pe_slot_index e)
  then Err (integrity_mismatch "physical extent slot is outside its arena")
  else
    let slot := mkSlot (pe_file_id e) (pe_slot_index e) in
    let a1 := set_slot a slot (mkMeta (pe_extent_id e) (pe_state e) (pe_pin_count e) (Z.max (pe_updated_ns e) 0)) in
    let a2 := with_extents (<[pe_extent_id e := slot]> (extents a1)) a1 in
    Ok (match pe_state e with
        | Dead => with_dead (dead a2 ++ [slot]) a2
        | Alive => with_alive (alive a2 ++ [slot]) a2
        | _ => a2
        end).

Fixpoint replay_all (a : AllocationIndex) (es : list PhysicalExtentRecord) : result AllocationIndex :=
  match es with [] => Ok a | e :: es => a' ← replay_extent a e; replay_all a' es end.

Definition alloc_replay (fs : list PhysicalFileRecord) (es : list PhysicalExtentRecord) : result AllocationIndex :=
  a ← register_all AllocationIndex_default fs; replay_all a es.

(** The first [None] among the slots, counted from [i]. *)
Fixpoint first_free (i : nat) (l : list (option SlotMeta)) : option nat :=
  match l with [] => None | None :: _ => Some i | Some _ :: l => first_free (S i) l end.

(** The preferred zone's arenas, then the other zones' in ascending order. *)
Definition zone_order (a : AllocationIndex) (zone : Z) : list Z :=
  default [] (zones a !! zone) ++
  concat (map snd (List.filter (fun p => negb (p.1 =? zone)) (sort_by_key fst (map_to_list (zones a))))).

Fixpoint pick_fresh (a : AllocationIndex) (files : list Z) : option ExtentSlot * AllocationIndex :=
  match files with
  | [] => (None, a)
  | f :: files =>
      match arenas a !! f with
      | None => (None, a)
      | Some ar =>
          match first_free 0 (take (Z.to_nat (extent_count ar)) (slots ar)) with
          | Some i => let slot := mkSlot f (Z.of_nat i) in
                      (Some slot, set_slot a slot (mkMeta 0 Reserved 0 (tick a)))
          | None => pick_fresh a files
          end
      end
  end.

Definition pick_slot (a : AllocationIndex) (zone : Z) : option ExtentSlot * AllocationIndex :=
  match dead a with
  | s :: d =>
      let a' := with_dead d a in
      match slot_meta a' s with
      | Some m => if bool_decide (m_state m = Dead) then (Some s, a') else pick_fresh a' (zone_order a' zone)
      | None => pick_fresh a' (zone_order a' zone)
      end
  | [] => pick_fresh a (zone_order a zone)
  end.

Definition mark_reserved (a : AllocationIndex) (s : ExtentSlot) (id : Hash) : result () * AllocationIndex :=
  let a := bump_tick a in
  match slot_meta a s with
  | None => (Err (internal_invariant "reserved slot is missing"), a)
  | Some m =>
      let a1 := set_slot a s (mkMeta id Reserved (m_pin_count m) (tick a)) in
      (Ok (), with_extents (<[id := s]> (extents a1)) a1)
  end.

Definition mark_alive (a : AllocationIndex) (id : Hash) : result ExtentSlot * AllocationIndex :=
  let a := bump_tick a in
  match extents a !! id with
  | None => (Err (internal_invariant "committed extent is not in the index"), a)
  | Some s =>
      match slot_meta a s with
      | None => (Err (internal_invariant "committed slot is missing"), a)
      | Some m =>
          let a1 := set_slot a s (mkMeta (m_extent_id m) Alive (m_pin_count m) (tick a)) in
          (Ok s, with_alive (alive a1 ++ [s]) a1)
      end
  end.

Fixpoint evict_loop (budget : nat) (a : AllocationIndex) : option ExtentSlot * AllocationIndex :=
  match budget with
  | O => (None, a)
  | S budget =>
      match alive a with
      | [] => (None, a)
      | s :: q =>
          let a' := with_alive q a in
          match slot_meta a' s with
          | Some m =>
              if bool_decide (m_state m = Alive) && (m_pin_count m =? 0) then (Some s, a')
              else if bool_decide (m_state m = Alive) then evict_loop budget (with_alive (alive a' ++ [s]) a')
              else evict_loop budget a'
          | None => evict_loop budget a'
          end
      end
  end.
Definition eviction_candidate (a : AllocationIndex) : option ExtentSlot * AllocationIndex :=
  evict_loop (length (alive a)) a.

Definition adjust_pin (a : AllocationIndex) (id : Hash) (delta : Z) : result () * AllocationIndex :=
  match extents a !! id with
  | None => (Err (invalid_argument "extent is not indexed"), a)
  | Some s =>
      match slot_meta a s with
      | None => (Err (internal_invariant "pinned slot is missing"), a)
      | Some m =>
          match checked_add_i64 (m_pin_count m) delta with
          | None => (Err (repository_conflict "extent pin count overflowed"), a)
          | Some next =>
              if next <? 0 then (Err (repository_conflict "extent pin count would go negative"), a)
              else (Ok (), set_slot a s (mkMeta (m_extent_id m) (m_state m) next (m_last_used m)))
          end
      end
  end.

Definition mark_dead (a : AllocationIndex) (id : Hash) : result ExtentSlot * AllocationIndex :=
  match extents a !! id with
  | None => (Err (invalid_argument "extent is not indexed"), a)
  | Some s =>
      match slot_meta a s with
      | None => (Err (internal_invariant "dead slot is missing"), a)
      | Some m =>
          let a1 := set_slot a s (mkMeta (m_extent_id m) Dead (m_pin_count m) (m_last_used m)) in
          let a2 := with_extents (delete id (extents a1)) a1 in
          (Ok s, with_dead (dead a2 ++ [s]) a2)
      end
  end.

Definition slot_is_alive (a : AllocationIndex) (s : ExtentSlot) : bool :=
  match slot_meta a s with Some m => bool_decide (m_state m = Alive) | None => false end.
Definition alive_count (a : AllocationIndex) : nat :=
  length (List.filter (slot_is_alive a) (map snd (map_to_list (extents a)))).

(** ** Slot lemmas *)
Lemma slot_meta_set_eq (a : AllocationIndex) (s : ExtentSlot) (m m' : SlotMeta) :
  slot_meta a s = Some m -> slot_meta (set_slot a s m') s = Some m'.
Proof.
  unfold slot_meta, set_slot. simpl. rewrite lookup_alter_eq. destruct (arenas a !! slot_file s) as [ar|]; simpl; [|done].
  destruct (0 <=? slot_index s); [|done]. intros E. rewrite list_lookup_insert_eq; [done|].
  destruct (slots ar !! Z.to_nat (slot_index s)) eqn:El; [|done]. by apply lookup_lt_Some in El.
Qed.

Lemma slot_meta_set_ne (a : AllocationIndex) (s s' : ExtentSlot) (m : SlotMeta) :
  0 <= slot_index s -> s <> s' -> slot_meta (set_slot a s m) s' = slot_meta a s'.
Proof.
  intros H0 Hne. unfold slot_meta, set_slot. simpl.
  destruct (decide (slot_file s = slot_file s')) as [Ef|Ef]; [|by rewrite lookup_alter_ne].
  rewrite Ef, lookup_alter_eq. destruct (arenas a !! slot_file s') as [ar|]; simpl; [|done].
  destruct (Z.leb_spec 0 (slot_index s')); [|done]. rewrite list_lookup_insert_ne; [done|].
  intros Ei%Z2Nat.inj; [|done|done]. destruct s, s'; simpl in *; congruence.
Qed.

Lemma slot_meta_index (a : AllocationIndex) (s : ExtentSlot) (m : SlotMeta) :
  slot_meta a s = Some m -> 0 <= slot_index s.
Proof. unfold slot_meta. destruct (_ !! _); simpl; [|done]. by destruct (Z.leb_spec 0 (slot_index s)). Qed.

Lemma slot_meta_arenas (a b : AllocationIndex) (s : ExtentSlot) : arenas a = arenas b -> slot_meta a s = slot_meta b s.
Proof. unfold slot_meta. by intros ->. Qed.

Lemma first_free_spec (l : list (option SlotMeta)) (i j : nat) :
  first_free i l = Some j -> (i <= j)%nat /\ l !! (j - i)%nat = Some None.
Proof.
  revert i. induction l as [|[m|] l IH]; intros i; simpl; [done| |].
  - intros [? E]%IH. split; [lia|]. by replace (j - i)%nat with (S (j - S i)) by lia.
  - intros [= ->]. split; [lia|]. by rewrite Nat.sub_diag.
Qed.

Lemma first_free_None (l : list (option SlotMeta)) (i : nat) : first_free i l = None -> Forall is_Some l.
Proof. revert i. induction l as [|[m|] l IH]; intros i; simpl; [done| |done]. intros H. constructor; [done|by eapply IH]. Qed.

(** What a fresh pick does: the slot was free and is now reserved, nothing else moves. *)
Lemma pick_fresh_spec (files : list Z) (a : AllocationIndex) :
  match pick_fresh a files with
  | (Some s, a') => slot_meta a s = None /\ 0 <= slot_index s /\ slot_meta a' s = Some (mkMeta 0 Reserved 0 (tick a)) /\
      a' = set_slot a s (mkMeta 0 Reserved 0 (tick a))
  | (None, a') => a' = a
  end.
Proof.
  induction files as [|f files IH]; [done|]. cbn [pick_fresh].
  destruct (arenas a !! f) as [ar|] eqn:Ea; [|done]. destruct (first_free 0 _) as [i|] eqn:Ef; [|done].
  apply first_free_spec in Ef as [_ Ef]. rewrite Nat.sub_0_r in Ef.
  apply lookup_take_Some in Ef as [Ef Hlt].
  split_and!; [|simpl; lia| |done]; unfold slot_meta, set_slot; simpl;
    rewrite ?lookup_alter_eq, Ea; simpl; rewrite (proj2 (Z.leb_le 0 _)) by lia; rewrite Nat2Z.id;
    [by rewrite Ef|]. rewrite list_lookup_insert_eq; [done|]. by apply lookup_lt_Some in Ef.
Qed.

(** ** The caller protocol *)
Record AllocSys : Set := mkAlloc { ix : AllocationIndex; picked : list ExtentSlot }.

Inductive alloc_step : AllocSys -> AllocSys -> Prop :=
| step_pick (y : AllocSys) (zone : Z) (s : ExtentSlot) (a : AllocationIndex) :
    pick_slot (ix y) zone = (Some s, a) -> alloc_step y (mkAlloc a (s :: picked y))
| step_pick_full (y : AllocSys) (zone : Z) (a : AllocationIndex) :
    pick_slot (ix y) zone = (None, a) -> alloc_step y (mkAlloc a (picked y))
| step_reserve (y : AllocSys) (s : ExtentSlot) (id : Hash) (rest : list ExtentSlot) :
    picked y ≡ₚ s :: rest -> extents (ix y) !! id = None ->
    alloc_step y (mkAlloc (mark_reserved (ix y) s id).2 rest)
| step_alive (y : AllocSys) (id : Hash) : alloc_step y (mkAlloc (mark_alive (ix y) id).2 (picked y))
| step_pin (y : AllocSys) (id : Hash) (delta : Z) : alloc_step y (mkAlloc (adjust_pin (ix y) id delta).2 (picked y))
| step_dead (y : AllocSys) (id : Hash) : alloc_step y (mkAlloc (mark_dead (ix y) id).2 (picked y))
| step_evict (y : AllocSys) : alloc_step y (mkAlloc (eviction_candidate (ix y)).2 (picked y)).

Definition alloc_run : AllocSys -> AllocSys -> Prop := rtc alloc_step.

(** [id] owns [s]: the slot carries the id and holds live data. *)
Definition owns (a : AllocationIndex) (id : Hash) (s : ExtentSlot) : Prop :=
  exists m, slot_meta a s = Some m /\ m_extent_id m = id /\ (m_state m = Reserved \/ m_state m = Alive).

Definition is_dead (a : AllocationIndex) (s : ExtentSlot) : Prop :=
  exists m, slot_meta a s = Some m /\ m_state m = Dead.

Record alloc_ok (y : AllocSys) : Prop := {
  ok_owned : map_Forall (owns (ix y)) (extents (ix y));
  ok_dead : Forall (is_dead (ix y)) (dead (ix y));
  ok_nodup : NoDup (picked y ++ dead (ix y));
  ok_picked : Forall (fun s => is_Some (slot_meta (ix y) s) /\ forall id, extents (ix y) !! id <> Some s) (picked y)
}.

Lemma owns_not_dead (a : AllocationIndex) (id : Hash) (s : ExtentSlot) : owns a id s -> ~ is_dead a s.
Proof. intros (m & E & _ & Hs) (m' & E' & Hd). rewrite E in E'. simplify_eq. destruct Hs; congruence. Qed.

Lemma owns_inj (a : AllocationIndex) (id id' : Hash) (s : ExtentSlot) : owns a id s -> owns a id' s -> id = id'.
Proof. intros (m & E & <- & _) (m' & E' & <- & _). congruence. Qed.

(** Writing one slot does not disturb the facts about the others. *)
Lemma owns_set_ne (a : AllocationIndex) (s s' : ExtentSlot) (m : SlotMeta) (id : Hash) :
  0 <= slot_index s -> s <> s' -> owns a id s' -> owns (set_slot a s m) id s'.
Proof. intros H0 Hne (m' & E & ?). exists m'. by rewrite slot_meta_set_ne. Qed.
Lemma is_dead_set_ne (a : AllocationIndex) (s s' : ExtentSlot) (m : SlotMeta) :
  0 <= slot_index s -> s <> s' -> is_dead a s' -> is_dead (set_slot a s m) s'.
Proof. intros H0 Hne (m' & E & ?). exists m'. by rewrite slot_meta_set_ne. Qed.
Lemma is_Some_set (a : AllocationIndex) (s s' : ExtentSlot) (m : SlotMeta) :
  0 <= slot_index s -> is_Some (slot_meta a s') -> is_Some (slot_meta (set_slot a s m) s').
Proof.
  intros H0 [m' E]. destruct (decide (s = s')) as [<-|]; [by rewrite (slot_meta_set_eq _ _ _ _ E)|].
  by rewrite slot_meta_set_ne, E.
Qed.

(** The invariant looks at the arenas, the ids and the dead queue only. *)
Lemma alloc_ok_ext (a b : AllocationIndex) (p : list ExtentSlot) :
  arenas a = arenas b -> extents a = extents b -> dead a = dead b ->
  alloc_ok (mkAlloc a p) -> alloc_ok (mkAlloc b p).
Proof.
  intros Ha He Hd [H1 H2 H3 H4]. simpl in *.
  assert (forall s, slot_meta b s = slot_meta a s) as Hm by (intros; by apply slot_meta_arenas).
  constructor; simpl; rewrite <- ?He, <- ?Hd; [..|done|].
  - intros id s E. destruct (H1 id s E) as (m & ?). exists m. by rewrite Hm.
  - apply (Forall_impl _ _ _ H2). intros s (m & ?). exists m. by rewrite Hm.
  - apply (Forall_impl _ _ _ H4). intros s [? ?]. by rewrite Hm.
Qed.

(** Rewriting the metadata of an owned slot, keeping its id and liveness. *)
Lemma alloc_ok_touch (a : AllocationIndex) (p : list ExtentSlot) (id : Hash) (s : ExtentSlot) (m : SlotMeta) :
  alloc_ok (mkAlloc a p) -> extents a !! id = Some s -> m_extent_id m = id ->
  (m_state m = Reserved \/ m_state m = Alive) -> alloc_ok (mkAlloc (set_slot a s m) p).
Proof.
  intros [H1 H2 H3 H4] E Hid Hst. simpl in *. pose proof (H1 id s E) as Ho. pose proof Ho as (m0 & Em & _).
  pose proof (slot_meta_index _ _ _ Em) as H0. constructor; simpl; [..|done|].
  - intros id' s' E'. destruct (decide (s = s')) as [<-|]; [|by apply owns_set_ne, H1].
    exists m. rewrite (slot_meta_set_eq _ _ _ _ Em). split_and!; [done| |done].
    rewrite Hid. apply (owns_inj a _ _ s); [done|by apply H1].
  - apply (Forall_impl _ _ _ H2). intros s' Hd. apply is_dead_set_ne; [done| |done].
    intros <-. by apply (owns_not_dead a id s).
  - apply (Forall_impl _ _ _ H4). intros s' [? ?]. split; [by apply is_Some_set|done].
Qed.

(** ** Every step keeps the invariant *)
Lemma pick_fresh_ok (a : AllocationIndex) (p : list ExtentSlot) (files : list Z) :
  alloc_ok (mkAlloc a p) ->
  match pick_fresh a files with
  | (Some s, a') => alloc_ok (mkAlloc a' (s :: p))
  | (None, a') => alloc_ok (mkAlloc a' p)
  end.
Proof.
  intros HK. pose proof (pick_fresh_spec files a) as HS.
  destruct (pick_fresh a files) as [[s|] a']; [|by subst]. destruct HS as (Hn & H0 & Hs & ->).
  destruct HK as [H1 H2 H3 H4]. simpl in *.
  assert (Hdead : s ∉ dead a).
  { intros Hin. rewrite Forall_forall in H2. destruct (H2 s Hin) as (m & E & _). congruence. }
  assert (Hp : s ∉ p).
  { intros Hin. rewrite Forall_forall in H4. destruct (H4 s Hin) as [[m E] _]. congruence. }
  assert (Hown : forall id, extents a !! id <> Some s).
  { intros id E. destruct (H1 id s E) as (m & E' & _). congruence. }
  constructor; simpl.
  - intros id s' E. apply owns_set_ne; [done| |by apply H1]. intros <-. by apply (Hown id).
  - rewrite Forall_forall in H2 |- *. intros s' Hin. apply is_dead_set_ne; [done| |by apply H2]. by intros <-.
  - constructor; [|done]. rewrite elem_of_app. naive_solver.
  - constructor; [by split; [rewrite Hs|]|]. apply (Forall_impl _ _ _ H4). intros s' [? ?].
    split; [by apply is_Some_set|done].
Qed.

Lemma pick_slot_ok (y : AllocSys) (zone : Z) :
  alloc_ok y ->
  match pick_slot (ix y) zone with
  | (Some s, a) => alloc_ok (mkAlloc a (s :: picked y))
  | (None, a) => alloc_ok (mkAlloc a (picked y))
  end.
Proof.
  destruct y as [a p]. intros HK. simpl. unfold pick_slot. destruct (dead a) as [|s d] eqn:Ed; [by apply pick_fresh_ok|].
  destruct HK as [H1 H2 H3 H4]. simpl in *. rewrite Ed in H2, H3. inversion_clear H2 as [|? ? (m & Em & Hm) H2'].
  change (slot_meta (with_dead d a) s) with (slot_meta a s). rewrite Em, (bool_decide_true _ Hm).
  constructor; simpl; [done|done|by rewrite Permutation_middle|].
  constructor; [|done]. split; [by exists m|]. intros id E. by apply (owns_not_dead a id s); [apply H1|exists m].
Qed.

Lemma mark_reserved_ok (a : AllocationIndex) (p : list ExtentSlot) (s : ExtentSlot) (id : Hash) :
  alloc_ok (mkAlloc a (s :: p)) -> extents a !! id = None -> alloc_ok (mkAlloc (mark_reserved a s id).2 p).
Proof.
  intros HK Hid. apply (alloc_ok_ext a (bump_tick a)) in HK; [|done..]. revert HK.
  change (extents a) with (extents (bump_tick a)) in Hid. unfold mark_reserved.
  generalize dependent (bump_tick a). intros b Hid [H1 H2 H3 H4]. cbn [ix picked] in *.
  inversion_clear H4 as [|? ? [[m Em] Hown] H4']. rewrite Em. pose proof (slot_meta_index _ _ _ Em) as H0.
  rewrite <- app_comm_cons, NoDup_cons in H3. destruct H3 as [Hs H3]. rewrite elem_of_app in Hs.
  constructor; cbn [ix picked extents dead with_extents snd set_slot with_arenas]; [..|done|].
  - apply map_Forall_insert_2.
    + exists (mkMeta id Reserved (m_pin_count m) (tick b)).
      split; [by apply (slot_meta_set_eq b s m)|]. split; [done|by left].
    + intros id' s' E. apply (owns_set_ne b s s'); [done| |by apply H1]. intros <-. by apply (Hown id').
  - rewrite Forall_forall in H2 |- *. intros s' Hin. apply (is_dead_set_ne b s s'); [done|naive_solver|by apply H2].
  - rewrite Forall_forall in H4' |- *. intros s' Hin. destruct (H4' s' Hin) as [? Hn].
    split; [by apply (is_Some_set b s s')|]. intros id'. destruct (decide (id = id')) as [<-|].
    + rewrite lookup_insert_eq. naive_solver.
    + by rewrite lookup_insert_ne.
Qed.

Lemma mark_alive_ok (a : AllocationIndex) (p : list ExtentSlot) (id : Hash) :
  alloc_ok (mkAlloc a p) -> alloc_ok (mkAlloc (mark_alive a id).2 p).
Proof.
  intros HK. apply (alloc_ok_ext a (bump_tick a)) in HK; [|done..]. unfold mark_alive.
  generalize dependent (bump_tick a). intros b HK. destruct (extents b !! id) as [s|] eqn:E; [|done].
  destruct (ok_owned _ HK id s E) as (m & Em & Hid & _). simpl in Em. rewrite Em. simpl.
  eapply alloc_ok_ext; [| | |apply (alloc_ok_touch b p id s (mkMeta (m_extent_id m) Alive (m_pin_count m) (tick b)) HK E)];
    try done. by right.
Qed.

Lemma adjust_pin_ok (a : AllocationIndex) (p : list ExtentSlot) (id : Hash) (delta : Z) :
  alloc_ok (mkAlloc a p) -> alloc_ok (mkAlloc (adjust_pin a id delta).2 p).
Proof.
  intros HK. unfold adjust_pin. destruct (extents a !! id) as [s|] eqn:E; [|done].
  destruct (ok_owned _ HK id s E) as (m & Em & Hid & Hst). simpl in Em. rewrite Em.
  destruct (checked_add_i64 _ _) as [n|]; [|done]. destruct (n <? 0); [done|]. by apply (alloc_ok_touch a p id).
Qed.

Lemma mark_dead_ok (a : AllocationIndex) (p : list ExtentSlot) (id : Hash) :
  alloc_ok (mkAlloc a p) -> alloc_ok (mkAlloc (mark_dead a id).2 p).
Proof.
  intros HK. unfold mark_dead. destruct (extents a !! id) as [s|] eqn:E; [|done].
  pose proof (ok_owned _ HK id s E) as Ho. pose proof Ho as (m & Em & Hid & Hst). simpl in Em. rewrite Em.
  pose proof (slot_meta_index _ _ _ Em) as H0. destruct HK as [H1 H2 H3 H4]. simpl in *.
  set (m' := mkMeta (m_extent_id m) Dead (m_pin_count m) (m_last_used m)).
  constructor; cbn [ix picked extents dead with_extents with_dead snd set_slot with_arenas].
  - intros id' s' [Hne E']%lookup_delete_Some. apply (owns_set_ne a s s'); [done| |by apply H1].
    intros <-. apply Hne. apply (owns_inj a _ _ s); [done|by apply H1].
  - apply Forall_app. split; [|constructor; [|constructor]].
    + apply (Forall_impl _ _ _ H2). intros s' Hd. apply (is_dead_set_ne a s s'); [done| |done].
      intros <-. by apply (owns_not_dead a id s).
    + exists m'. split; [by apply (slot_meta_set_eq a s m)|done].
  - rewrite (Permutation_app_comm (dead a)). cbn [app]. rewrite <- Permutation_middle. constructor; [|done]. rewrite elem_of_app. intros [Hin|Hin].
    + rewrite Forall_forall in H4. by apply (H4 s Hin) in E.
    + rewrite Forall_forall in H2. by apply (owns_not_dead a id s Ho), H2.
  - apply (Forall_impl _ _ _ H4). intros s' [? Hn]. split; [by apply (is_Some_set a s s')|].
    intros id' [_ E']%lookup_delete_Some. by apply (Hn id').
Qed.

(** The eviction scan touches the alive queue only. *)
Lemma evict_loop_frame (n : nat) (a : AllocationIndex) :
  let a' := (evict_loop n a).2 in
  arenas a' = arenas a /\ extents a' = extents a /\ dead a' = dead a /\ zones a' = zones a /\ tick a' = tick a.
Proof.
  revert a. induction n as [|n IH]; intros a; simpl; [done|]. destruct (alive a) as [|s q]; [done|].
  destruct (slot_meta _ s) as [m|]; [|apply (IH (with_alive q a))]. destruct (_ && _); [done|].
  case_bool_decide; [apply (IH (with_alive (q ++ [s]) (with_alive q a)))|apply (IH (with_alive q a))].
Qed.

Lemma alloc_step_ok (y y' : AllocSys) : alloc_step y y' -> alloc_ok y -> alloc_ok y'.
Proof.
  intros [y0 z s a E|y0 z a E|y0 s id rest HP Hid|y0 id|y0 id d|y0 id|y0] HK.
  - pose proof (pick_slot_ok y0 z HK) as H. by rewrite E in H.
  - pose proof (pick_slot_ok y0 z HK) as H. by rewrite E in H.
  - apply mark_reserved_ok; [|done]. destruct y0 as [a p], HK as [H1 H2 H3 H4]. simpl in *.
    constructor; cbn [ix picked]; [done|done|by rewrite <- HP|by rewrite <- HP].
  - destruct y0. by apply mark_alive_ok.
  - destruct y0. by apply adjust_pin_ok.
  - destruct y0. by apply mark_dead_ok.
  - destruct y0 as [a p]. destruct (evict_loop_frame (length (alive a)) a) as (E1 & E2 & E3 & _).
    by apply (alloc_ok_ext a).
Qed.

Lemma alloc_run_ok (y y' : AllocSys) : alloc_run y y' -> alloc_ok y -> alloc_ok y'.
Proof. induction 1; [done|]. intros HK. eauto using alloc_step_ok. Qed.

(** Registered, empty arenas. *)
Lemma register_frame (a a' : AllocationIndex) (f : PhysicalFileRecord) :
  register a f = Ok a' -> extents a' = extents a /\ dead a' = dead a.
Proof. unfold register. destruct (_ || _); [done|]. by intros [= <-]. Qed.

Lemma register_all_frame (fs : list PhysicalFileRecord) (a a' : AllocationIndex) :
  register_all a fs = Ok a' -> extents a' = extents a /\ dead a' = dead a.
Proof.
  revert a. induction fs as [|f fs IH]; intros a H; [by injection H as <-|].
  cbn [register_all] in H. apply bind_Ok_inv in H as (b & Hb & H). apply register_frame in Hb as [<- <-]. by apply IH.
Qed.

Lemma fresh_index_ok (fs : list PhysicalFileRecord) (a : AllocationIndex) :
  alloc_replay fs [] = Ok a -> alloc_ok (mkAlloc a []).
Proof.
  unfold alloc_replay. intros H. apply bind_Ok_inv in H as (b & Hb & H). injection H as <-.
  apply register_all_frame in Hb as [He Hd].
  constructor; simpl; rewrite ?He, ?Hd; simpl; [apply map_Forall_empty|constructor|constructor|constructor].
Qed.

(** C3: No slot is ever handed out twice.  From freshly registered arenas and
    along every run of the caller protocol: two different extents never own
    the same slot; a slot that was picked and not yet reserved is not owned by
    an extent and was not picked twice; the recycle queue holds no slot that an
    extent owns and none twice; and the slot of every indexed extent carries
    that extent's id and is reserved or alive. *)
Theorem allocator_no_double_allocation (fs : list PhysicalFileRecord) (a : AllocationIndex) (y : AllocSys) :
  alloc_replay fs [] = Ok a -> alloc_run (mkAlloc a []) y ->
  (forall id id' s, extents (ix y) !! id = Some s -> extents (ix y) !! id' = Some s -> id = id') /\
  (forall id s, extents (ix y) !! id = Some s -> s ∉ picked y /\ s ∉ dead (ix y)) /\
  NoDup (picked y ++ dead (ix y)) /\ map_Forall (owns (ix y)) (extents (ix y)).
Proof.
  intros Ha Hrun. destruct (alloc_run_ok _ _ Hrun (fresh_index_ok fs a Ha)) as [H1 H2 H3 H4].
  split_and!; [|intros id s E; split|done|done].
  - intros id id' s E E'. by apply (owns_inj (ix y) id id' s); apply H1.
  - intros Hin. rewrite Forall_forall in H4. by apply (H4 s Hin) in E.
  - intros Hin. rewrite Forall_forall in H2. by apply (owns_not_dead (ix y) id s (H1 _ _ E)), H2.
Qed.

Definition sample_files : list PhysicalFileRecord :=
  [mkFileRecord 11 "a" 0 4096 2 0; mkFileRecord 12 "b" 1 4096 1 0].
Definition sample_index : AllocationIndex :=
  match alloc_replay sample_files [] with Ok a => a | Err _ => AllocationIndex_default end.
(** Pick, reserve, commit, drop and pick again. *)
Definition sample_alloc : AllocSys :=
  let a1 := (pick_slot sample_index 1).2 in
  let a2 := (mark_reserved a1 (mkSlot 12 0) 70).2 in
  let a3 := (mark_alive a2 70).2 in
  let a4 := (mark_dead a3 70).2 in
  mkAlloc (pick_slot a4 0).2 [mkSlot 12 0].

Lemma step_pick_fst (y : AllocSys) (zone : Z) (s : ExtentSlot) :
  (pick_slot (ix y) zone).1 = Some s -> alloc_step y (mkAlloc (pick_slot (ix y) zone).2 (s :: picked y)).
Proof. intros E. apply (step_pick y zone). destruct (pick_slot (ix y) zone); simpl in *. by subst. Qed.

Lemma sample_alloc_run : alloc_run (mkAlloc sample_index []) sample_alloc.
Proof.
  eapply rtc_l; [apply (step_pick_fst _ 1 (mkSlot 12 0)); vm_compute; reflexivity|].
  eapply rtc_l; [apply (step_reserve _ (mkSlot 12 0) 70 []); [reflexivity|vm_compute; reflexivity]|].
  eapply rtc_l; [apply (step_alive _ 70)|]. eapply rtc_l; [apply (step_dead _ 70)|].
  eapply rtc_l; [apply (step_pick_fst _ 0 (mkSlot 12 0)); vm_compute; reflexivity|]. apply rtc_refl.
Qed.

Lemma allocator_no_double_allocation_witness :
  alloc_replay sample_files [] = Ok sample_index /\ picked sample_alloc = [mkSlot 12 0] /\
  NoDup (picked sample_alloc ++ dead (ix sample_alloc)).
Proof.
  split; [vm_compute; reflexivity|]. split; [vm_compute; reflexivity|].
  apply (allocator_no_double_allocation sample_files sample_index sample_alloc);
    [vm_compute; reflexivity|exact sample_alloc_run].
Defined.

(** ** Eviction order *)
Definition evictable (a : AllocationIndex) (s : ExtentSlot) : bool :=
  match slot_meta a s with Some m => bool_decide (m_state m = Alive) && (m_pin_count m =? 0) | None => false end.
Definition pinned_alive (a : AllocationIndex) (s : ExtentSlot) : bool :=
  match slot_meta a s with Some m => bool_decide (m_state m = Alive) && negb (m_pin_count m =? 0) | None => false end.

(** The scan as a function of the queue alone: [acc] collects the re-queued slots. *)
Fixpoint scan (ev pin : ExtentSlot -> bool) (q acc : list ExtentSlot) : option ExtentSlot * list ExtentSlot :=
  match q with
  | [] => (None, acc)
  | s :: q => if ev s then (Some s, q ++ acc) else scan ev pin q (if pin s then acc ++ [s] else acc)
  end.

Lemma evict_loop_scan (q k : list ExtentSlot) (a b : AllocationIndex) :
  a = with_alive (q ++ k) b ->
  evict_loop (length q) a =
    ((scan (evictable b) (pinned_alive b) q k).1, with_alive (scan (evictable b) (pinned_alive b) q k).2 b).
Proof.
  revert k a. induction q as [|s q IH]; intros k a ->; [done|]. cbn [length evict_loop app alive with_alive scan].
  unfold evictable at 1, pinned_alive at 2, evictable at 2, pinned_alive at 3.
  change (slot_meta _ s) with (slot_meta b s).
  destruct (slot_meta b s) as [m|]; [|by apply IH].
  destruct (bool_decide (m_state m = Alive)); cbn [andb]; [|by apply IH].
  destruct (m_pin_count m =? 0); cbn [negb fst snd]; [done|]. apply IH. by rewrite <- app_assoc.
Qed.

Lemma scan_spec (ev pin : ExtentSlot -> bool) (q acc : list ExtentSlot) :
  match scan ev pin q acc with
  | (Some s, q') => exists pre post, q = pre ++ s :: post /\ ev s = true /\ Forall (fun x => ev x = false) pre /\
      q' = post ++ acc ++ List.filter pin pre
  | (None, q') => Forall (fun x => ev x = false) q /\ q' = acc ++ List.filter pin q
  end.
Proof.
  revert acc. induction q as [|s q IH]; intros acc; simpl; [by rewrite app_nil_r|].
  destruct (ev s) eqn:Es; [by exists [], q; rewrite app_nil_r|].
  specialize (IH (if pin s then acc ++ [s] else acc)). destruct (scan _ _ _ _) as [[s'|] q'].
  - destruct IH as (pre & post & -> & He & HF & ->). exists (s :: pre), post. split_and!; [done|done|by constructor|].
    simpl. destruct (pin s); by rewrite <- ?app_assoc.
  - destruct IH as [HF ->]. split; [by constructor|]. destruct (pin s); by rewrite <- ?app_assoc.
Qed.

(** Eviction picks the oldest unpinned extent.  The scan is bounded by the
    queue it starts from.  It returns the first queued slot that is alive and
    unpinned, drops the stale entries it passed and re-queues the pinned ones
    behind the rest in their order; it returns nothing only when no queued
    slot is alive and unpinned, and changes nothing but the queue. *)
Theorem eviction_candidate_oldest_unpinned (a : AllocationIndex) :
  match eviction_candidate a with
  | (Some s, a') => exists pre post, alive a = pre ++ s :: post /\ evictable a s = true /\
      Forall (fun x => evictable a x = false) pre /\
      a' = with_alive (post ++ List.filter (pinned_alive a) pre) a
  | (None, a') => Forall (fun x => evictable a x = false) (alive a) /\
      a' = with_alive (List.filter (pinned_alive a) (alive a)) a
  end.
Proof.
  unfold eviction_candidate. rewrite (evict_loop_scan (alive a) [] a a) by (rewrite app_nil_r; by destruct a).
  pose proof (scan_spec (evictable a) (pinned_alive a) (alive a) []) as HS.
  destruct (scan _ _ _ _) as [[s|] q]; simpl.
  - destruct HS as (pre & post & E & He & HF & ->). by exists pre, post.
  - by destruct HS as [HF ->].
Qed.

(** ** Capacity *)
Record zones_ok (a : AllocationIndex) : Prop := {
  zk_arena : forall z ids f, zones a !! z = Some ids -> f ∈ ids -> is_Some (arenas a !! f);
  zk_zone : forall f ar, arenas a !! f = Some ar ->
    length (slots ar) = Z.to_nat (extent_count ar) /\ exists z ids, zones a !! z = Some ids /\ f ∈ ids
}.

Lemma zones_ok_ext (a b : AllocationIndex) : arenas a = arenas b -> zones a = zones b -> zones_ok a -> zones_ok b.
Proof. intros Ha Hz [H1 H2]. constructor; rewrite <- Ha, <- Hz; done. Qed.

Lemma zones_ok_set (a : AllocationIndex) (s : ExtentSlot) (m : SlotMeta) : zones_ok a -> zones_ok (set_slot a s m).
Proof.
  intros [H1 H2]. constructor; simpl.
  - intros z ids f Ez Hf. destruct (H1 z ids f Ez Hf) as [ar Ear]. destruct (decide (slot_file s = f)) as [<-|].
    + rewrite lookup_alter_eq, Ear. by eexists.
    + by rewrite lookup_alter_ne, Ear.
  - intros f ar. destruct (decide (slot_file s = f)) as [<-|]; [|rewrite lookup_alter_ne by done; apply H2].
    rewrite lookup_alter_eq. intros (ar0 & E & ->)%fmap_Some. simpl. rewrite length_insert. by apply H2.
Qed.

Lemma zones_ok_register (a a' : AllocationIndex) (f : PhysicalFileRecord) :
  zones_ok a -> register a f = Ok a' -> zones_ok a'.
Proof.
  intros [H1 H2]. unfold register. destruct (_ || _); [done|]. intros [= <-]. constructor; simpl.
  - intros z ids g. assert (Hkeep : is_Some (arenas a !! g) -> is_Some
      (match arenas a !! pf_file_id f with Some _ => arenas a | None => <[pf_file_id f := mkArena (pf_extent_count f) (replicate (Z.to_nat (pf_extent_count f)) None)]> (arenas a) end !! g)).
    { intros [ar E]. destruct (arenas a !! pf_file_id f) eqn:Ef; [by rewrite E|].
      rewrite lookup_insert_ne; [by rewrite E|congruence]. }
    destruct (decide (pf_zone f = z)) as [<-|].
    + rewrite lookup_insert_eq. intros [= <-] [Hin|Hin]%elem_of_app.
      * apply Hkeep. destruct (zones a !! pf_zone f) as [l|] eqn:El; [|by apply elem_of_nil in Hin]. by eapply H1.
      * apply list_elem_of_singleton in Hin as ->. destruct (arenas a !! pf_file_id f) eqn:Ef; [by rewrite Ef|by rewrite lookup_insert_eq].
    + rewrite lookup_insert_ne by done. intros Ez Hin. apply Hkeep. by eapply H1.
  - assert (Hzone : forall g, (exists z ids, zones a !! z = Some ids /\ g ∈ ids) \/ g = pf_file_id f ->
      exists z ids, <[pf_zone f := default [] (zones a !! pf_zone f) ++ [pf_file_id f]]> (zones a) !! z = Some ids /\ g ∈ ids).
    { intros g [(z & ids & Ez & Hin)| ->]; [|eexists _, _; split; [apply lookup_insert_eq|apply elem_of_app; right; by apply list_elem_of_singleton]].
      destruct (decide (pf_zone f = z)) as [<-|]; [|exists z, ids; by rewrite lookup_insert_ne].
      eexists _, _. split; [apply lookup_insert_eq|]. rewrite Ez. apply elem_of_app. by left. }
    intros g ar. destruct (arenas a !! pf_file_id f) eqn:Ef; [intros E; destruct (H2 g ar E); eauto|].
    destruct (decide (pf_file_id f = g)) as [<-|]; [|rewrite lookup_insert_ne by done; intros E; destruct (H2 g ar E); eauto].
    rewrite lookup_insert_eq. intros [= <-]. simpl. rewrite length_replicate. eauto.
Qed.

Lemma pick_fresh_zones (files : list Z) (a : AllocationIndex) : zones_ok a -> zones_ok (pick_fresh a files).2.
Proof.
  intros HZ. pose proof (pick_fresh_spec files a) as HS. destruct (pick_fresh a files) as [[s|] a'].
  - destruct HS as (_ & _ & _ & ->). by apply zones_ok_set.
  - by subst.
Qed.

Lemma zones_ok_step (y y' : AllocSys) : alloc_step y y' -> zones_ok (ix y) -> zones_ok (ix y').
Proof.
  assert (Hpick : forall a z, zones_ok a -> zones_ok (pick_slot a z).2).
  { intros a z HZ. unfold pick_slot. destruct (dead a) as [|s d]; [by apply pick_fresh_zones|].
    assert (HZ' : zones_ok (with_dead d a)) by (by apply (zones_ok_ext a)).
    destruct (slot_meta _ s) as [m|]; [case_bool_decide; [done|]|]; by apply pick_fresh_zones. }
  assert (Hset : forall a b s m, zones_ok a -> arenas b = arenas (set_slot a s m) -> zones b = zones a -> zones_ok b).
  { intros a b s m HZ Ha Hz. apply (zones_ok_ext (set_slot a s m)); [done|done|by apply zones_ok_set]. }
  intros [y0 z s a E|y0 z a E|y0 s id rest HP Hid|y0 id|y0 id d|y0 id|y0] HZ; simpl.
  - by pose proof (Hpick (ix y0) z HZ) as H; rewrite E in H.
  - by pose proof (Hpick (ix y0) z HZ) as H; rewrite E in H.
  - unfold mark_reserved. destruct (slot_meta _ s); [by eapply (Hset (ix y0))|by apply (zones_ok_ext (ix y0))].
  - unfold mark_alive. destruct (_ !! id) as [s|]; [|by apply (zones_ok_ext (ix y0))].
    destruct (slot_meta _ s); [by eapply (Hset (ix y0))|by apply (zones_ok_ext (ix y0))].
  - unfold adjust_pin. destruct (_ !! id) as [s|]; [|done]. destruct (slot_meta _ s); [|done].
    destruct (checked_add_i64 _ _); [|done]. destruct (_ <? 0); [done|by apply zones_ok_set].
  - unfold mark_dead. destruct (_ !! id) as [s|]; [|done]. destruct (slot_meta _ s); [|done].
    by eapply (Hset (ix y0)).
  - destruct (evict_loop_frame (length (alive (ix y0))) (ix y0)) as (E1 & _ & _ & E4 & _).
    by apply (zones_ok_ext (ix y0)).
Qed.

Lemma zones_ok_run (fs : list PhysicalFileRecord) (a : AllocationIndex) (y : AllocSys) :
  alloc_replay fs [] = Ok a -> alloc_run (mkAlloc a []) y -> zones_ok (ix y).
Proof.
  intros Ha Hrun. assert (HZ : zones_ok a).
  { unfold alloc_replay in Ha. apply bind_Ok_inv in Ha as (b & Hb & Ha). injection Ha as <-.
    revert Hb. assert (HZ : zones_ok AllocationIndex_default) by (constructor; done).
    revert HZ. generalize AllocationIndex_default. induction fs as [|f fs IH]; intros c HZ H; [by injection H as <-|].
    cbn [register_all] in H. apply bind_Ok_inv in H as (d & Hd & H). apply (IH d); [|done]. by eapply zones_ok_register. }
  change a with (ix (mkAlloc a [])) in HZ. revert HZ. induction Hrun; [done|]. eauto using zones_ok_step.
Qed.

Lemma zone_order_complete (a : AllocationIndex) (zone z : Z) (ids : list Z) (f : Z) :
  zones a !! z = Some ids -> f ∈ ids -> f ∈ zone_order a zone.
Proof.
  intros Ez Hf. unfold zone_order. apply elem_of_app. destruct (decide (z = zone)) as [->|Hne]; [left; by rewrite Ez|right].
  apply list_elem_of_In, in_concat. exists ids. split; [|by apply list_elem_of_In].
  apply in_map_iff. exists (z, ids). split; [done|]. apply filter_In. split; [|simpl; by apply negb_true_iff, Z.eqb_neq].
  apply list_elem_of_In. rewrite sort_by_key_perm. by apply elem_of_map_to_list.
Qed.

Lemma zone_order_sound (a : AllocationIndex) (zone f : Z) :
  f ∈ zone_order a zone -> exists z ids, zones a !! z = Some ids /\ f ∈ ids.
Proof.
  unfold zone_order. intros [Hf|Hf]%elem_of_app.
  - destruct (zones a !! zone) as [ids|] eqn:E; [by exists zone, ids|by apply elem_of_nil in Hf].
  - apply list_elem_of_In, in_concat in Hf as (ids & Hin & Hf). apply in_map_iff in Hin as ([z ids'] & <- & Hin).
    apply filter_In in Hin as [Hin _]. apply list_elem_of_In in Hin. rewrite sort_by_key_perm in Hin.
    apply elem_of_map_to_list in Hin. exists z, ids'. split; [done|by apply list_elem_of_In].
Qed.

Lemma pick_fresh_None (files : list Z) (a a' : AllocationIndex) :
  Forall (fun f => is_Some (arenas a !! f)) files -> pick_fresh a files = (None, a') ->
  Forall (fun f => forall ar, arenas a !! f = Some ar -> Forall is_Some (take (Z.to_nat (extent_count ar)) (slots ar))) files.
Proof.
  induction 1 as [|f files [ar E] HF IH]; cbn [pick_fresh]; [constructor|]. rewrite E.
  destruct (first_free 0 _) eqn:Ef; [done|]. intros H. constructor; [|by apply IH].
  intros ar' E'. rewrite E in E'. simplify_eq. by apply first_free_None in Ef.
Qed.

(** Capacity is never hidden.  Along every run from registered arenas, a
    pick for any zone answers "full" only when nothing waits to be recycled
    and every slot of every registered arena, in the preferred zone and in all
    the others, is in use. *)
Theorem pick_slot_full_means_full (fs : list PhysicalFileRecord) (a a' : AllocationIndex) (y : AllocSys) (zone : Z) :
  alloc_replay fs [] = Ok a -> alloc_run (mkAlloc a []) y -> pick_slot (ix y) zone = (None, a') ->
  dead (ix y) = [] /\ forall f ar, arenas (ix y) !! f = Some ar -> Forall is_Some (slots ar).
Proof.
  intros Ha Hrun Hp. pose proof (zones_ok_run fs a y Ha Hrun) as [Z1 Z2].
  pose proof (ok_dead _ (alloc_run_ok _ _ Hrun (fresh_index_ok fs a Ha))) as HD. unfold pick_slot in Hp.
  destruct (dead (ix y)) as [|s d] eqn:Ed.
  - split; [done|]. intros f ar E. destruct (Z2 f ar E) as [HL (z & ids & Ez & Hf)].
    assert (HF : Forall (fun f => is_Some (arenas (ix y) !! f)) (zone_order (ix y) zone)).
    { apply Forall_forall. intros g (z' & ids' & Ez' & Hg)%zone_order_sound. by eapply Z1. }
    pose proof (pick_fresh_None _ _ _ HF Hp) as HN. rewrite Forall_forall in HN.
    specialize (HN f (zone_order_complete _ _ _ _ _ Ez Hf) ar E). by rewrite <- HL, firstn_all in HN.
  - exfalso. inversion_clear HD as [|? ? (m & Em & Hm) ?].
    change (slot_meta (with_dead d (ix y)) s) with (slot_meta (ix y) s) in Hp. by rewrite Em, (bool_decide_true _ Hm) in Hp.
Qed.

Definition full_alloc : AllocSys :=
  let y1 := mkAlloc (pick_slot sample_index 1).2 [mkSlot 12 0] in
  let y2 := mkAlloc (pick_slot (ix y1) 1).2 (mkSlot 11 0 :: picked y1) in
  mkAlloc (pick_slot (ix y2) 1).2 (mkSlot 11 1 :: picked y2).

Lemma full_alloc_run : alloc_run (mkAlloc sample_index []) full_alloc.
Proof.
  eapply rtc_l; [apply (step_pick_fst _ 1 (mkSlot 12 0)); vm_compute; reflexivity|].
  eapply rtc_l; [apply (step_pick_fst _ 1 (mkSlot 11 0)); vm_compute; reflexivity|].
  eapply rtc_l; [apply (step_pick_fst _ 1 (mkSlot 11 1)); vm_compute; reflexivity|]. apply rtc_refl.
Qed.

Lemma pick_slot_full_means_full_witness :
  (pick_slot (ix full_alloc) 0).1 = None /\ dead (ix full_alloc) = [].
Proof.
  split; [vm_compute; reflexivity|].
  apply (pick_slot_full_means_full sample_files sample_index (ix full_alloc) full_alloc 0);
    [vm_compute; reflexivity|exact full_alloc_run|vm_compute; reflexivity].
Defined.

(** A dead row replayed from the ledger keeps its id in the index, so after the
    slot is recycled the old id still names it: one alive slot counts twice. *)
Example replayed_dead_id_aliases_recycled_slot :
  match alloc_replay sample_files [mkExtentRecord 5 12 0 4096 Dead None None 0 0 0] with
  | Ok a =>
      let a1 := (pick_slot a 1).2 in
      let a2 := (mark_alive (mark_reserved a1 (mkSlot 12 0) 6).2 6).2 in
      extents a2 !! 5 = Some (mkSlot 12 0) /\ extents a2 !! 6 = Some (mkSlot 12 0) /\ alive_count a2 = 2%nat
  | Err _ => False
  end.
Proof. vm_compute. auto. Qed.
