(* ===== verification/Bytes.v ===== *)
(** * Byte layouts

    Bytes are [Z] values in [0..255].  Fixed layouts are written as the
    concatenation of their fields in offset order, and read back with
    [get offset n].  [to_le]/[from_le] are [to_le_bytes]/[from_le_bytes];
    [to_be]/[from_be] spell hashes and 16-byte ids, whose array order is the order
    of the integers.

    [encode.rs]'s fallible field readers are here as well. *)
From S2P Require Export Errors.

Definition is_byte (b : Z) : bool := (0 <=? b) && (b <=? 255).
Definition is_bytes (l : list Z) : Prop := Forall (fun b => is_byte b = true) l.

(** ** Integers as bytes *)
Fixpoint to_le (n : nat) (x : Z) : list Z :=
  match n with O => [] | S n => x mod 256 :: to_le n (x / 256) end.
Fixpoint from_le (l : list Z) : Z :=
  match l with [] => 0 | b :: l => b + 256 * from_le l end.
Definition to_be (n : nat) (x : Z) : list Z := reverse (to_le n x).
Definition from_be (l : list Z) : Z := from_le (reverse l).

Definition zeros (n : nat) : list Z := replicate n 0.
Definition all_zero (l : list Z) : bool := forallb (fun b => b =? 0) l.

(** [&bytes[off..off + n]]. *)
Definition get (off n : nat) (l : list Z) : list Z := firstn n (skipn off l).

(** Consecutive fields of the given widths, from [off]. *)
Fixpoint fields (off : nat) (ns : list nat) (l : list Z) : list (list Z) :=
  match ns with [] => [] | n :: ns => get off n l :: fields (off + n) ns l end.

Fixpoint total (ns : list nat) : nat := match ns with [] => 0%nat | n :: ns => (n + total ns)%nat end.

(** ** Field readers ([mirage-pack/src/encode.rs]) *)
Definition pack_take (n : nat) (bytes : list Z) (offset : nat) : result (list Z) :=
  if Z.of_nat offset + Z.of_nat n <=? u64_max
  then if (offset + n <=? length bytes)%nat then Ok (get offset n bytes)
       else Err (manifest_invalid "pack field is truncated")
  else Err (manifest_invalid "pack field offset overflowed").
Definition read_u16 (bytes : list Z) (offset : nat) : result Z := l ← pack_take 2 bytes offset; Ok (from_le l).
Definition read_u32 (bytes : list Z) (offset : nat) : result Z := l ← pack_take 4 bytes offset; Ok (from_le l).
Definition read_u64 (bytes : list Z) (offset : nat) : result Z := l ← pack_take 8 bytes offset; Ok (from_le l).

(** ** Lemmas *)
Lemma length_le (n : nat) (x : Z) : length (to_le n x) = n.
Proof. revert x. induction n; intros; simpl; auto. Qed.
Lemma length_be (n : nat) (x : Z) : length (to_be n x) = n.
Proof. unfold to_be. by rewrite length_reverse, length_le. Qed.
Lemma length_zeros (n : nat) : length (zeros n) = n.
Proof. apply length_replicate. Qed.
Lemma length_get (off n : nat) (l : list Z) : (off + n <= length l)%nat -> length (get off n l) = n.
Proof. intros. unfold get. rewrite length_firstn, length_skipn. lia. Qed.

Lemma le_bytes (n : nat) (x : Z) : is_bytes (to_le n x).
Proof.
  revert x. induction n; intros; simpl; [constructor|]. constructor; [|apply IHn].
  unfold is_byte. pose proof (Z.mod_pos_bound x 256). apply andb_true_iff. rewrite !Z.leb_le. lia.
Qed.

Lemma le_val_le (n : nat) (x : Z) : 0 <= x < 256 ^ Z.of_nat n -> from_le (to_le n x) = x.
Proof.
  revert x. induction n as [|n IH]; intros x Hx; simpl; [simpl in Hx; lia|].
  rewrite Nat2Z.inj_succ, Z.pow_succ_r in Hx by lia.
  rewrite IH; [pose proof (Z.div_mod x 256); lia|]. split; [apply Z.div_pos; lia|]. apply Z.div_lt_upper_bound; lia.
Qed.

Lemma le_le_val (l : list Z) : is_bytes l -> to_le (length l) (from_le l) = l.
Proof.
  induction 1 as [|b l Hb Hl IH]; [done|]. simpl. unfold is_byte in Hb. zbool.
  rewrite (Z.mul_comm 256), Z.mod_add, Z.mod_small, Z.div_add, Z.div_small, Z.add_0_l, IH by lia. done.
Qed.

Lemma le_val_bound (l : list Z) : is_bytes l -> 0 <= from_le l < 256 ^ Z.of_nat (length l).
Proof.
  induction 1 as [|b l Hb Hl IH]; [done|]. cbn [from_le length]. unfold is_byte in Hb. zbool.
  rewrite Nat2Z.inj_succ, Z.pow_succ_r by lia. lia.
Qed.

Lemma be_val_be (n : nat) (x : Z) : 0 <= x < 256 ^ Z.of_nat n -> from_be (to_be n x) = x.
Proof. intros. unfold from_be, to_be. rewrite reverse_involutive. by apply le_val_le. Qed.
Lemma be_be_val (l : list Z) : is_bytes l -> to_be (length l) (from_be l) = l.
Proof.
  intros H. unfold to_be, from_be. rewrite <- (length_reverse l), le_le_val by (by apply Forall_reverse).
  apply reverse_involutive.
Qed.
Lemma be_val_bound (l : list Z) : is_bytes l -> 0 <= from_be l < 256 ^ Z.of_nat (length l).
Proof. intros H. unfold from_be. rewrite <- (length_reverse l). apply le_val_bound. by apply Forall_reverse. Qed.
Lemma be_bytes (n : nat) (x : Z) : is_bytes (to_be n x).
Proof. apply Forall_reverse, le_bytes. Qed.
Lemma zeros_bytes (n : nat) : is_bytes (zeros n).
Proof. by apply Forall_replicate. Qed.
Lemma get_bytes (off n : nat) (l : list Z) : is_bytes l -> is_bytes (get off n l).
Proof. intros. by apply Forall_take, Forall_drop. Qed.

Lemma all_zero_spec (l : list Z) : all_zero l = true <-> l = zeros (length l).
Proof.
  unfold all_zero, zeros. induction l as [|b l IH]; simpl; [done|].
  rewrite andb_true_iff, IH, Z.eqb_eq. split; [intros [-> ->]; by rewrite length_replicate|].
  intros [= -> E]. by split.
Qed.
Lemma all_zero_zeros (n : nat) : all_zero (zeros n) = true.
Proof. apply all_zero_spec. by rewrite length_zeros. Qed.

(** Reading a field out of a concatenation. *)
Lemma get_app_r (off n : nat) (l k : list Z) : (length l <= off)%nat -> get off n (l ++ k) = get (off - length l) n k.
Proof. intros. unfold get. rewrite skipn_app, skipn_all2 by lia. done. Qed.
Lemma get_app_l (off n : nat) (l k : list Z) : (off + n <= length l)%nat -> get off n (l ++ k) = get off n l.
Proof. intros. unfold get. rewrite skipn_app, firstn_app, length_skipn.
  replace (n - (length l - off))%nat with 0%nat by lia. by rewrite firstn_O, app_nil_r. Qed.
Lemma get_all (n : nat) (l : list Z) : length l = n -> get 0 n l = l.
Proof. intros <-. unfold get. simpl. apply firstn_all. Qed.
Lemma get_app_0 (n : nat) (l k : list Z) : length l = n -> get 0 n (l ++ k) = l.
Proof. intros <-. rewrite get_app_l by lia. by apply get_all. Qed.

(** A slice is the concatenation of its fields. *)
Lemma get_fields (ns : list nat) (off : nat) (l : list Z) :
  (off + total ns <= length l)%nat -> get off (total ns) l = concat (fields off ns l).
Proof.
  revert off. induction ns as [|n ns IH]; intros off H; simpl in *; [done|].
  rewrite <- IH by lia. unfold get. rewrite (Nat.add_comm off n), <- (skipn_skipn n off).
  rewrite <- (firstn_skipn n (skipn off l)) at 1.
  rewrite firstn_app, length_firstn, length_skipn, Nat.min_l by lia.
  rewrite firstn_firstn, Nat.min_r by lia. do 2 f_equal. lia.
Qed.
Lemma fields_split (ns : list nat) (l : list Z) :
  (total ns <= length l)%nat -> l = concat (fields 0 ns l) ++ skipn (total ns) l.
Proof. intros H. rewrite <- get_fields by lia. unfold get. simpl. by rewrite firstn_skipn. Qed.

Lemma fields_all (ns : list nat) (l : list Z) : total ns = length l -> concat (fields 0 ns l) = l.
Proof. intros H. rewrite <- get_fields by lia. by apply get_all. Qed.
Lemma zeros_get (n off : nat) (l : list Z) :
  all_zero (get off n l) = true -> (off + n <= length l)%nat -> zeros n = get off n l.
Proof. intros Hz%all_zero_spec HL. by rewrite length_get in Hz. Qed.

(** Restoring a field from what was read of it. *)
Lemma le_get (n off : nat) (l : list Z) :
  is_bytes l -> (off + n <= length l)%nat -> to_le n (from_le (get off n l)) = get off n l.
Proof. intros Hb HL. rewrite <- (length_get off n l HL) at 1. apply le_le_val. by apply get_bytes. Qed.
Lemma be_get (n off : nat) (l : list Z) :
  is_bytes l -> (off + n <= length l)%nat -> to_be n (from_be (get off n l)) = get off n l.
Proof. intros Hb HL. rewrite <- (length_get off n l HL) at 1. apply be_be_val. by apply get_bytes. Qed.
Lemma le_get_bound (n off : nat) (l : list Z) :
  is_bytes l -> (off + n <= length l)%nat -> 0 <= from_le (get off n l) < 256 ^ Z.of_nat n.
Proof. intros Hb HL. pose proof (le_val_bound (get off n l) (get_bytes off n l Hb)) as H. by rewrite length_get in H. Qed.
Lemma be_get_bound (n off : nat) (l : list Z) :
  is_bytes l -> (off + n <= length l)%nat -> 0 <= from_be (get off n l) < 256 ^ Z.of_nat n.
Proof. intros Hb HL. pose proof (be_val_bound (get off n l) (get_bytes off n l Hb)) as H. by rewrite length_get in H. Qed.

Lemma from_le_byte (x : Z) : from_le [x] = x.
Proof. simpl. lia. Qed.
Lemma zeros_from_le (n off : nat) (l : list Z) :
  is_bytes l -> (off + n <= length l)%nat -> from_le (get off n l) = 0 -> zeros n = get off n l.
Proof.
  intros Hb HL H0. rewrite <- (le_get n off l Hb HL), H0. unfold zeros. clear. induction n; simpl; [done|by f_equal].
Qed.
Lemma get_byte (off : nat) (l : list Z) :
  is_bytes l -> (off + 1 <= length l)%nat -> get off 1 l = [from_le (get off 1 l)].
Proof.
  intros Hb HL. pose proof (length_get off 1 l HL) as H. destruct (get off 1 l) as [|x [|]]; try done.
  simpl. f_equal. lia.
Qed.

Lemma pack_take_Ok (n : nat) (bytes : list Z) (off : nat) :
  (off + n <= length bytes)%nat -> Z.of_nat (length bytes) <= u64_max -> pack_take n bytes off = Ok (get off n bytes).
Proof.
  intros HL HU. unfold pack_take. rewrite (proj2 (Z.leb_le _ _)) by lia. by rewrite (proj2 (Nat.leb_le _ _) HL).
Qed.

Lemma read_u16_Ok (bytes : list Z) (off : nat) :
  (off + 2 <= length bytes)%nat -> Z.of_nat (length bytes) <= u64_max -> read_u16 bytes off = Ok (from_le (get off 2 bytes)).
Proof. intros. unfold read_u16. by rewrite pack_take_Ok. Qed.
Lemma read_u32_Ok (bytes : list Z) (off : nat) :
  (off + 4 <= length bytes)%nat -> Z.of_nat (length bytes) <= u64_max -> read_u32 bytes off = Ok (from_le (get off 4 bytes)).
Proof. intros. unfold read_u32. by rewrite pack_take_Ok. Qed.
Lemma read_u64_Ok (bytes : list Z) (off : nat) :
  (off + 8 <= length bytes)%nat -> Z.of_nat (length bytes) <= u64_max -> read_u64 bytes off = Ok (from_le (get off 8 bytes)).
Proof. intros. unfold read_u64. by rewrite pack_take_Ok. Qed.

(** [getf] reads fields out of a concatenation of [to_le], [to_be], [zeros] and
    constant fields whose lengths it knows. *)
Ltac flen := rewrite ?length_app, ?length_le, ?length_be, ?length_zeros; cbn [length Nat.add Nat.sub]; try lia.
Ltac getf :=
  repeat (first
    [ rewrite get_app_0 by (flen; reflexivity)
    | rewrite get_app_l by flen
    | rewrite get_all by (flen; reflexivity)
    | rewrite get_app_r by flen; rewrite ?length_le, ?length_be, ?length_zeros; cbn [length Nat.sub] ]).

#[global] Arguments to_le : simpl never.
#[global] Arguments from_le : simpl never.
#[global] Arguments to_be : simpl never.
#[global] Arguments from_be : simpl never.
#[global] Arguments zeros : simpl never.
#[global] Arguments get : simpl never.

(** [readf] resolves every field read of a byte string whose length is known. *)
Ltac readf :=
  repeat (first [rewrite pack_take_Ok by mach | rewrite read_u16_Ok by mach
                | rewrite read_u32_Ok by mach | rewrite read_u64_Ok by mach]; cbn [mbind result_bind]).

(** ** Concrete checksums

    Functions with the widths of CRC-32 and BLAKE3, at which the theorems that
    take the real ones as parameters are instantiated. *)
Definition sum32 (l : list Z) : Z := sumZ (fun b => b) l mod 2 ^ 32.
Lemma sum32_u32 (l : list Z) : in_u32 (sum32 l).
Proof. unfold sum32. pose proof (Z.mod_pos_bound (sumZ (fun b => b) l) (2 ^ 32)). mach. Qed.
Definition sum256 (l : list Z) : Z := sumZ (fun b => 257 * b + 1) l mod 2 ^ 256.
Lemma sum256_bound (l : list Z) : 0 <= sum256 l < 2 ^ 256.
Proof. unfold sum256. apply Z.mod_pos_bound. lia. Qed.
Lemma bytes_check (l : list Z) : forallb is_byte l = true -> is_bytes l.
Proof. intros H. apply Forall_forall. intros x Hx%list_elem_of_In. by apply (proj1 (forallb_forall _ _) H). Qed.
