(* ===== verification/CacheFormat.v ===== *)
(** * Cache arena layout

    [mirage-cache/src/format.rs]: the geometry of a cache shard, the arena
    header and the per-slot metadata record.  CRC-32 is the parameter [crc32];
    the theorems use only that it returns a [u32]. *)
From S2P Require Export Bytes.

Definition ARENA_MAGIC : list Z := [77; 73; 82; 65; 82; 78; 49; 0].
Definition ARENA_VERSION : Z := 1.
Definition ARENA_HEADER_BYTES : Z := 4096.
Definition SLOT_METADATA_BYTES : Z := 64.

(** ** Geometry *)
Record CacheLayout : Set := mkLayout {
  cl_page_size : Z; cl_slot_count : Z; db_journal_allowance : Z; filesystem_reserve : Z
}.

Definition logical_shard_bytes (l : CacheLayout) : result Z :=
  ok_or (invalid_argument "cache shard logical length overflows")
    (b ← checked_mul (cl_slot_count l) (cl_page_size l); checked_add b ARENA_HEADER_BYTES).

Definition metadata_bytes (l : CacheLayout) : result Z :=
  ok_or (invalid_argument "cache metadata length overflows")
    (b ← checked_mul (cl_slot_count l) SLOT_METADATA_BYTES; checked_add b ARENA_HEADER_BYTES).

Definition declared_physical_budget (l : CacheLayout) : result Z :=
  s ← logical_shard_bytes l;
  m ← metadata_bytes l;
  ok_or (invalid_argument "cache physical budget overflows")
    (a ← checked_add s m; b ← checked_add a (db_journal_allowance l); checked_add b (filesystem_reserve l)).

Definition CacheLayout_validate (l : CacheLayout) : result () :=
  if negb ((65536 <=? cl_page_size l) && (cl_page_size l <=? 16777216))
     || negb (is_power_of_two (cl_page_size l)) || (cl_slot_count l =? 0)
  then Err (invalid_argument "cache page size or slot count is outside bounds")
  else _ ← logical_shard_bytes l; _ ← declared_physical_budget l; Ok ().

Definition slot_offset (l : CacheLayout) (slot : Z) : result Z :=
  if cl_slot_count l <=? slot then Err (invalid_argument "cache slot is outside the shard")
  else ok_or (invalid_argument "cache slot offset overflows")
    (o ← checked_mul slot (cl_page_size l); checked_add o ARENA_HEADER_BYTES).

(** ** Records *)
Record ArenaHeader : Set := mkHeader { ah_page_size : Z; ah_slot_count : Z }.

Inductive SlotState : Set := SFree | SReserved | SResident | SEvicting | SRetryDeallocate.
Definition SlotState_code (s : SlotState) : Z :=
  match s with SFree => 0 | SReserved => 1 | SResident => 2 | SEvicting => 3 | SRetryDeallocate => 4 end.
Definition SlotState_from_code (b : Z) : result SlotState :=
  match b with
  | 0 => Ok SFree | 1 => Ok SReserved | 2 => Ok SResident | 3 => Ok SEvicting | 4 => Ok SRetryDeallocate
  | _ => Err (unsupported_layout "unknown cache slot state")
  end.

#[export] Instance SlotState_eq_dec : EqDecision SlotState.
Proof. solve_decision. Defined.
Record SlotMetadata : Set := mkSlotMetadata {
  sm_generation : Z; sm_state : SlotState; sm_page_hash : Hash; sm_logical_length : Z
}.
#[export] Instance SlotMetadata_eq_dec : EqDecision SlotMetadata.
Proof. solve_decision. Defined.

Section Codec.
Variable crc32 : list Z -> Z.

Definition header_layout (h : ArenaHeader) : CacheLayout := mkLayout (ah_page_size h) (ah_slot_count h) 0 0.

(** Bytes 0..24 of the header, then its checksum and the zero padding. *)
Definition ArenaHeader_body (h : ArenaHeader) : list Z :=
  ARENA_MAGIC ++ to_le 4 ARENA_VERSION ++ to_le 8 (ah_page_size h) ++ to_le 4 (ah_slot_count h).

Definition ArenaHeader_encode (h : ArenaHeader) : result (list Z) :=
  _ ← CacheLayout_validate (header_layout h);
  Ok (ArenaHeader_body h ++ to_le 4 (crc32 (ArenaHeader_body h)) ++ zeros (Z.to_nat (ARENA_HEADER_BYTES - 28))).

Definition ArenaHeader_decode (input : list Z) : result ArenaHeader :=
  if negb (Z.of_nat (length input) =? ARENA_HEADER_BYTES)
     || negb (bool_decide (get 0 8 input = ARENA_MAGIC))
     || negb (from_le (get 8 4 input) =? ARENA_VERSION)
     || negb (crc32 (get 0 24 input) =? from_le (get 24 4 input))
     || negb (all_zero (skipn 28 input))
  then Err (integrity_mismatch "cache arena header is invalid")
  else
    let h := mkHeader (from_le (get 12 8 input)) (from_le (get 20 4 input)) in
    _ ← CacheLayout_validate (header_layout h); Ok h.

(** Bytes 0..48 of a metadata record. *)
Definition SlotMetadata_body (m : SlotMetadata) : list Z :=
  to_le 8 (sm_generation m) ++ [SlotState_code (sm_state m)] ++ zeros 3 ++ to_be 32 (sm_page_hash m) ++ to_le 4 (sm_logical_length m).

Definition SlotMetadata_encode (m : SlotMetadata) : list Z :=
  SlotMetadata_body m ++ to_le 4 (crc32 (SlotMetadata_body m)) ++ zeros 12.

Definition SlotMetadata_decode (input : list Z) : result SlotMetadata :=
  if negb (Z.of_nat (length input) =? SLOT_METADATA_BYTES)
     || negb (all_zero (get 9 3 input)) || negb (all_zero (skipn 52 input))
     || negb (crc32 (get 0 48 input) =? from_le (get 48 4 input))
  then Err (integrity_mismatch "cache slot metadata checksum is invalid")
  else
    s ← SlotState_from_code (from_le (get 8 1 input));
    Ok (mkSlotMetadata (from_le (get 0 8 input)) s (from_be (get 12 32 input)) (from_le (get 44 4 input))).

End Codec.

(** ** Geometry lemmas *)
Lemma CacheLayout_validate_Ok (l : CacheLayout) :
  CacheLayout_validate l = Ok () ->
  65536 <= cl_page_size l <= 16777216 /\ cl_slot_count l <> 0 /\
  logical_shard_bytes l = Ok (cl_slot_count l * cl_page_size l + ARENA_HEADER_BYTES) /\
  cl_slot_count l * cl_page_size l + ARENA_HEADER_BYTES <= u64_max.
Proof.
  unfold CacheLayout_validate. destruct (_ || _ || _) eqn:E; [done|]. zbool. intros HR.
  apply bind_Ok_inv in HR as (n & Hn & _). pose proof Hn as Hn'. unfold logical_shard_bytes in Hn.
  apply ok_or_Ok_inv, bind_Some in Hn as (b & Hb & Ha).
  apply checked_mul_Some in Hb as [_ ->]. apply checked_add_Some in Ha as [? ->]. split_and!; (done || lia).
Qed.

(** The slots of a validated shard tile it.  Every slot below the slot
    count has an offset, its page lies between the header and the end of the
    shard, two different slots' pages are disjoint, and a slot number at or
    past the count is refused. *)
Theorem cache_slots_tile_shard (l : CacheLayout) (i : Z) :
  CacheLayout_validate l = Ok () -> 0 <= cl_slot_count l -> 0 <= i ->
  exists shard, logical_shard_bytes l = Ok shard /\
  if i <? cl_slot_count l
  then exists o, slot_offset l i = Ok o /\ ARENA_HEADER_BYTES <= o /\ o + cl_page_size l <= shard /\
       (forall j o', 0 <= j -> slot_offset l j = Ok o' -> i <> j ->
          o + cl_page_size l <= o' \/ o' + cl_page_size l <= o)
  else slot_offset l i = Err (invalid_argument "cache slot is outside the shard").
Proof.
  intros HV H0 Hi. destruct (CacheLayout_validate_Ok l HV) as (Hp & _ & Hs & Hb).
  assert (Hoff : forall j, 0 <= j < cl_slot_count l -> slot_offset l j = Ok (j * cl_page_size l + ARENA_HEADER_BYTES)).
  { intros j Hj. unfold slot_offset. rewrite (proj2 (Z.leb_gt _ _)) by lia.
    assert (j * cl_page_size l <= cl_slot_count l * cl_page_size l) by nia.
    unfold checked_mul. rewrite (proj2 (Z.leb_le _ _)) by (unfold ARENA_HEADER_BYTES in *; lia). simpl.
    by rewrite checked_add_fits by lia. }
  eexists. split; [done|]. destruct (Z.ltb_spec i (cl_slot_count l)).
  - eexists. split; [by apply Hoff|]. split; [nia|]. split; [nia|]. intros j o' Hj Ho Hne.
    destruct (Z.ltb_spec j (cl_slot_count l)).
    + rewrite Hoff in Ho by lia. injection Ho as <-. assert (i < j \/ j < i) as [|] by lia; [left|right]; nia.
    + unfold slot_offset in Ho. by rewrite (proj2 (Z.leb_le _ _)) in Ho by lia.
  - unfold slot_offset. by rewrite (proj2 (Z.leb_le _ _)) by lia.
Qed.

Lemma cache_slots_tile_shard_witness :
  CacheLayout_validate (mkLayout 65536 3 0 0) = Ok () /\
  exists shard, logical_shard_bytes (mkLayout 65536 3 0 0) = Ok shard /\
    exists o, slot_offset (mkLayout 65536 3 0 0) 2 = Ok o /\ o + 65536 <= shard.
Proof.
  split; [reflexivity|].
  destruct (cache_slots_tile_shard (mkLayout 65536 3 0 0) 2 eq_refl ltac:(done) ltac:(lia)) as (s & Hs & o & Ho & _ & Hb & _).
  exists s. split; [exact Hs|]. exists o. split; [exact Ho|exact Hb].
Defined.

(** ** Codecs *)
Section CodecFacts.
Variable crc32 : list Z -> Z.
Hypothesis crc32_u32 : forall l, in_u32 (crc32 l).

Lemma length_header_body (h : ArenaHeader) : length (ArenaHeader_body h) = 24%nat.
Proof. unfold ArenaHeader_body. flen. reflexivity. Qed.

Lemma crc_fits (l : list Z) : 0 <= crc32 l < 256 ^ Z.of_nat 4.
Proof. pose proof (crc32_u32 l). mach. Qed.

(** Reading an encoded header back field by field. *)
Lemma header_fields (h : ArenaHeader) (pad : list Z) :
  0 <= ah_page_size h <= u64_max -> in_u32 (ah_slot_count h) ->
  let b := ArenaHeader_body h ++ to_le 4 (crc32 (ArenaHeader_body h)) ++ pad in
  get 0 8 b = ARENA_MAGIC /\ from_le (get 8 4 b) = ARENA_VERSION /\ from_le (get 12 8 b) = ah_page_size h /\
  from_le (get 20 4 b) = ah_slot_count h /\ get 0 24 b = ArenaHeader_body h /\
  from_le (get 24 4 b) = crc32 (ArenaHeader_body h) /\ skipn 28 b = pad.
Proof.
  intros Hp Hs b. pose proof (length_header_body h) as HL.
  assert (Hcrc := crc_fits (ArenaHeader_body h)).
  assert (skipn 28 b = pad) as Hpad.
  { unfold b. rewrite app_assoc, skipn_app, skipn_all2; [|rewrite length_app, length_le, HL; simpl; lia].
    rewrite length_app, length_le, HL. done. }
  assert (get 0 24 b = ArenaHeader_body h) as H24 by (unfold b; by apply get_app_0).
  assert (get 24 4 b = to_le 4 (crc32 (ArenaHeader_body h))) as H4.
  { unfold b. rewrite get_app_r, HL by lia. simpl Nat.sub. apply get_app_0. by rewrite length_le. }
  rewrite H4, le_val_le by done. split_and!; try done; unfold b;
    rewrite get_app_l by (rewrite HL; simpl; lia); unfold ArenaHeader_body, ARENA_MAGIC; getf; try done;
    rewrite le_val_le; try done; unfold in_u32 in *; mach.
Qed.

(** The bytes an accepted header must have. *)
Lemma header_of_fields (b : list Z) :
  is_bytes b -> (28 <= length b)%nat -> get 0 8 b = ARENA_MAGIC -> from_le (get 8 4 b) = ARENA_VERSION ->
  get 0 24 b = ArenaHeader_body (mkHeader (from_le (get 12 8 b)) (from_le (get 20 4 b))).
Proof.
  intros Hb HL Hm Hv. rewrite (get_fields [8; 4; 8; 4]%nat 0) by (simpl; lia).
  unfold ArenaHeader_body. cbn [fields concat Nat.add ah_page_size ah_slot_count].
  rewrite Hm, <- Hv, !le_get by (done || lia). by rewrite app_nil_r.
Qed.

(** The arena header codec is exact.  A byte string decodes to a header
    if and only if it is the encoding of that header: encoding then decoding
    gives the header back, every accepted header has exactly one byte
    representation, and nothing else is accepted. *)
Theorem arena_header_codec_exact (b : list Z) (h : ArenaHeader) :
  is_bytes b -> in_u32 (ah_slot_count h) ->
  ArenaHeader_decode crc32 b = Ok h <-> ArenaHeader_encode crc32 h = Ok b.
Proof.
  intros Hb Hs. unfold ArenaHeader_decode, ArenaHeader_encode. split.
  - destruct (_ || _ || _ || _ || _) eqn:E; [done|]. zbool.
    match goal with H : bool_decide _ = true |- _ => apply bool_decide_eq_true in H; rename H into Hm end.
    match goal with H : all_zero _ = true |- _ => apply all_zero_spec in H; rename H into Hz end.
    intros HR. apply bind_Ok_inv in HR as ([] & HV & HR). apply Ok_inj in HR as <-. rewrite HV. cbn [mbind result_bind]. f_equal.
    unfold ARENA_HEADER_BYTES in *. assert (HL : length b = 4096%nat) by lia.
    rewrite <- header_of_fields by (done || lia).
    replace (crc32 (get 0 24 b)) with (from_le (get 24 4 b)) by done. rewrite le_get by (done || lia).
    rewrite length_skipn, HL in Hz. change (Z.to_nat (4096 - 28)) with (4096 - 28)%nat. rewrite <- Hz.
    symmetry. etransitivity; [apply (fields_split [24; 4]%nat b); simpl; lia|].
    cbn [fields concat Nat.add total]. by rewrite app_nil_r, <- app_assoc.
  - intros HR. apply bind_Ok_inv in HR as ([] & HV & HR). apply Ok_inj in HR as <-.
    destruct (CacheLayout_validate_Ok _ HV) as (Hp & _). simpl in Hp.
    destruct (header_fields h (zeros (Z.to_nat (ARENA_HEADER_BYTES - 28))) ltac:(mach) Hs)
      as (E1 & E2 & E3 & E4 & E5 & E6 & E7).
    rewrite E1, E2, E3, E4, E5, E6, E7, all_zero_zeros, bool_decide_true by done.
    rewrite !length_app, length_header_body, length_le, length_zeros.
    change (Z.of_nat (24 + (4 + Z.to_nat (ARENA_HEADER_BYTES - 28)))) with ARENA_HEADER_BYTES.
    rewrite !Z.eqb_refl. destruct h as [p s]. simpl in *. by rewrite HV.
Qed.

Lemma length_slot_body (m : SlotMetadata) : length (SlotMetadata_body m) = 48%nat.
Proof. unfold SlotMetadata_body. flen. Qed.

Lemma SlotState_code_roundtrip (s : SlotState) : SlotState_from_code (SlotState_code s) = Ok s.
Proof. by destruct s. Qed.
Lemma SlotState_from_code_inv (b : Z) (s : SlotState) : SlotState_from_code b = Ok s -> b = SlotState_code s.
Proof. destruct b as [|[[[]|[]|]|[[]|[]|]|]|]; intros [= <-]; done. Qed.

Definition SlotMetadata_wf (m : SlotMetadata) : Prop :=
  in_u64 (sm_generation m) /\ 0 <= sm_page_hash m < 2 ^ 256 /\ in_u32 (sm_logical_length m).

Lemma slot_body_fields (m : SlotMetadata) (tail : list Z) :
  SlotMetadata_wf m -> let b := SlotMetadata_body m ++ tail in
  from_le (get 0 8 b) = sm_generation m /\ from_le (get 8 1 b) = SlotState_code (sm_state m) /\
  get 9 3 b = zeros 3 /\ from_be (get 12 32 b) = sm_page_hash m /\ from_le (get 44 4 b) = sm_logical_length m /\
  get 0 48 b = SlotMetadata_body m.
Proof.
  intros (Hg & Hh & Hl) b. pose proof (length_slot_body m) as HL.
  assert (get 0 48 b = SlotMetadata_body m) as H48 by (unfold b; by apply get_app_0).
  split_and!; try done; unfold b; rewrite get_app_l by (rewrite HL; simpl; lia); unfold SlotMetadata_body; getf;
    try done; [rewrite le_val_le|by destruct (sm_state m)|rewrite be_val_be|rewrite le_val_le]; try done; mach.
Qed.

Lemma slot_of_fields (b : list Z) (s : SlotState) :
  is_bytes b -> (52 <= length b)%nat -> all_zero (get 9 3 b) = true -> from_le (get 8 1 b) = SlotState_code s ->
  get 0 48 b = SlotMetadata_body (mkSlotMetadata (from_le (get 0 8 b)) s (from_be (get 12 32 b)) (from_le (get 44 4 b))).
Proof.
  intros Hb HL Hz Hs. rewrite (get_fields [8; 1; 3; 32; 4]%nat 0) by (simpl; lia).
  unfold SlotMetadata_body. cbn [fields concat Nat.add sm_generation sm_state sm_page_hash sm_logical_length].
  rewrite !le_get, be_get by (done || lia). rewrite <- Hs. apply all_zero_spec in Hz. rewrite length_get in Hz by lia.
  rewrite <- Hz, <- (get_byte 8 b) by (done || lia). by rewrite app_nil_r.
Qed.

Lemma SlotMetadata_decode_encode (m : SlotMetadata) : SlotMetadata_wf m -> SlotMetadata_decode crc32 (SlotMetadata_encode crc32 m) = Ok m.
Proof.
  intros Hwf. unfold SlotMetadata_decode, SlotMetadata_encode.
  destruct (slot_body_fields m (to_le 4 (crc32 (SlotMetadata_body m)) ++ zeros 12) Hwf) as (E1 & E2 & E3 & E4 & E5 & E6).
  assert (skipn 52 (SlotMetadata_body m ++ to_le 4 (crc32 (SlotMetadata_body m)) ++ zeros 12) = zeros 12) as Hpad.
  { rewrite app_assoc, skipn_app, skipn_all2; [|rewrite length_app, length_le, length_slot_body; simpl; lia].
    by rewrite length_app, length_le, length_slot_body. }
  assert (get 48 4 (SlotMetadata_body m ++ to_le 4 (crc32 (SlotMetadata_body m)) ++ zeros 12) = to_le 4 (crc32 (SlotMetadata_body m))) as E7.
  { rewrite get_app_r, length_slot_body by (rewrite length_slot_body; lia). apply get_app_0. by rewrite length_le. }
  rewrite E1, E2, E3, E4, E5, E6, E7, Hpad, !all_zero_zeros, le_val_le by apply crc_fits.
  rewrite !length_app, length_slot_body, length_le, length_zeros, !Z.eqb_refl. cbn [negb orb].
  rewrite SlotState_code_roundtrip. by destruct m.
Qed.
(** The slot metadata codec is exact.  A 64-byte record decodes to a
    metadata value if and only if it is that value's encoding, padding and
    checksum included. *)
Theorem slot_metadata_codec_exact (b : list Z) (m : SlotMetadata) :
  is_bytes b -> SlotMetadata_wf m ->
  SlotMetadata_decode crc32 b = Ok m <-> SlotMetadata_encode crc32 m = b.
Proof.
  intros Hb Hwf. split.
  - unfold SlotMetadata_decode, SlotMetadata_encode. destruct (_ || _ || _ || _) eqn:E; [done|]. zbool. unfold SLOT_METADATA_BYTES in *.
    assert (HL : length b = 64%nat) by lia.
    match goal with H : all_zero (skipn 52 b) = true |- _ => apply all_zero_spec in H; rename H into Hz end.
    intros HR. apply bind_Ok_inv in HR as (s & Hs & HR). apply Ok_inj in HR as <-. apply SlotState_from_code_inv in Hs.
    rewrite <- slot_of_fields by (done || lia).
    replace (crc32 (get 0 48 b)) with (from_le (get 48 4 b)) by done. rewrite le_get by (done || lia).
    rewrite length_skipn, HL in Hz. change (64 - 52)%nat with 12%nat in Hz. rewrite <- Hz.
    symmetry. etransitivity; [apply (fields_split [48; 4]%nat b); simpl; lia|].
    cbn [fields concat Nat.add total]. by rewrite app_nil_r, <- app_assoc.
  - intros <-. by apply SlotMetadata_decode_encode.
Qed.
End CodecFacts.

Definition sample_header_bytes : list Z :=
  match ArenaHeader_encode sum32 (mkHeader 65536 8) with Ok b => b | Err _ => [] end.

Lemma arena_header_codec_exact_witness :
  ArenaHeader_decode sum32 sample_header_bytes = Ok (mkHeader 65536 8).
Proof.
  apply (arena_header_codec_exact sum32 sum32_u32).
  - apply bytes_check. vm_compute. reflexivity.
  - simpl. mach.
  - vm_compute. reflexivity.
Defined.

Definition sample_slot : SlotMetadata := mkSlotMetadata 5 SResident (2 ^ 200 + 7) 4096.

Lemma slot_metadata_codec_exact_witness :
  SlotMetadata_decode sum32 (SlotMetadata_encode sum32 sample_slot) = Ok sample_slot.
Proof.
  apply (slot_metadata_codec_exact sum32 sum32_u32).
  - apply bytes_check. vm_compute. reflexivity.
  - unfold SlotMetadata_wf, sample_slot. simpl. mach.
  - reflexivity.
Defined.
