(* ===== verification/PackFormat.v ===== *)
(** * Pack files

    [mirage-pack/src/format.rs], [index.rs], [footer.rs], [frame.rs] and
    [page.rs] (with [Codec] of [mirage-manifest/src/model.rs]): the layout of
    the immutable pack object.  CRC-32 and BLAKE3 are the parameters [crc32] and
    [blake3]; the theorems use only the widths of their results. *)
From S2P Require Export Bytes Ranges.

Definition PACK_VERSION : Z := 1.
Definition MAX_ENCODED_FRAME_LEN : Z := 16777216.
Definition PACK_MAGIC : list Z := [77; 82; 71; 80; 65; 67; 75; 49].
Definition FOOTER_MAGIC : list Z := [77; 82; 71; 80; 70; 84; 82; 49].
Definition FRAME_MAGIC : list Z := [77; 80; 70; 49].
Definition FRAME_VERSION : Z := 1.

Inductive Codec : Set := CNone | CZstd | CLz4.
Definition Codec_code (c : Codec) : Z := match c with CNone => 0 | CZstd => 1 | CLz4 => 2 end.
Definition Codec_from_code (c : Z) : result Codec :=
  match c with
  | 0 => Ok CNone | 1 => Ok CZstd | 2 => Ok CLz4
  | _ => Err (manifest_invalid "unknown page codec")
  end.

Record PackHeader : Set := mkPackHeader {
  ph_page_size : Z; ph_index_offset : Z; ph_index_length : Z; ph_entry_count : Z; ph_encrypted : bool; ph_pack_id : Hash
}.

Record PackEntry : Set := mkPackEntry {
  pk_page_hash : Hash; frame_offset : Z; frame_length : Z; pk_logical_length : Z; pk_encoded_length : Z;
  pk_codec : Codec; pk_encrypted : bool
}.

Record PackFooter : Set := mkPackFooter { pf_index_hash : Hash; pf_content_hash : Hash; pf_pack_length : Z }.

Record PlainPage : Set := mkPlainPage { pp_hash : Hash; pp_logical_len : Z; pp_bytes : list Z }.
Record DecodedFrame : Set := mkDecodedFrame { df_page : PlainPage; df_codec : Codec }.

(** ** Index entries *)
Definition PackEntry_encode (e : PackEntry) : list Z :=
  to_be 32 (pk_page_hash e) ++ to_le 8 (frame_offset e) ++ to_le 8 (frame_length e) ++ to_le 4 (pk_logical_length e)
  ++ to_le 4 (pk_encoded_length e) ++ [Codec_code (pk_codec e)] ++ [Z.b2z (pk_encrypted e)] ++ zeros 6.

Definition PackEntry_decode (bytes : list Z) : result PackEntry :=
  if negb (length bytes =? 64)%nat || (1 <? from_le (get 57 1 bytes))
  then Err (manifest_invalid "pack index entry is malformed") else
  r ← pack_take 6 bytes 58;
  if negb (all_zero r) then Err (manifest_invalid "pack index entry is malformed") else
  codec ← (match from_le (get 56 1 bytes) with
           | 0 => Ok CNone
           | _ => Err (unsupported_layout "pack index codec is unsupported")
           end);
  h ← pack_take 32 bytes 0;
  fo ← read_u64 bytes 32;
  fl ← read_u64 bytes 40;
  ll ← read_u32 bytes 48;
  el ← read_u32 bytes 52;
  let e := mkPackEntry (from_be h) fo fl ll el codec (negb (from_le (get 57 1 bytes) =? 0)) in
  let overhead := if pk_encrypted e then 68 else 64 in
  if negb (frame_length e =? saturating_add overhead (pk_encoded_length e))
     || (pk_logical_length e =? 0) || (pk_encoded_length e =? 0)
  then Err (manifest_invalid "pack index lengths are inconsistent")
  else Ok e.

Definition encode_index (es : list PackEntry) : list Z := concat (map PackEntry_encode es).

(** [bytes.chunks_exact(64)], decoding each chunk. *)
Fixpoint decode_chunks (n : nat) (bytes : list Z) : result (list PackEntry) :=
  match n with
  | O => Ok []
  | S n => e ← PackEntry_decode (get 0 64 bytes); es ← decode_chunks n (skipn 64 bytes); Ok (e :: es)
  end.

Fixpoint hash_sorted (es : list PackEntry) : bool :=
  match es with
  | a :: ((b :: _) as rest) => (pk_page_hash a <? pk_page_hash b) && hash_sorted rest
  | _ => true
  end.

Definition decode_index (bytes : list Z) (count : Z) : result (list PackEntry) :=
  expected ← ok_or (manifest_invalid "pack index count overflows") (checked_mul count 64);
  if negb (Z.of_nat (length bytes) =? expected) then Err (manifest_invalid "pack index length is inconsistent") else
  es ← decode_chunks (length bytes / 64) bytes;
  if negb (hash_sorted es) then Err (manifest_invalid "pack index is not strictly hash-sorted") else Ok es.

Section Checksums.
Variable crc32 : list Z -> Z.
Variable blake3 : list Z -> Z.

(** ** Pack header *)
Definition PackHeader_body (h : PackHeader) : list Z :=
  PACK_MAGIC ++ to_le 4 PACK_VERSION ++ to_le 4 (Z.b2z (ph_encrypted h)) ++ to_le 4 (ph_page_size h)
  ++ firstn 4 (to_be 16 (ph_pack_id h)) ++ to_le 8 (ph_index_offset h) ++ to_le 8 (ph_index_length h) ++ to_le 8 (ph_entry_count h).

Definition PackHeader_encode (h : PackHeader) : list Z :=
  PackHeader_body h ++ to_le 4 (crc32 (PackHeader_body h)) ++ skipn 4 (to_be 16 (ph_pack_id h)).

Definition PackHeader_decode (bytes : list Z) : result PackHeader :=
  if negb (length bytes =? 64)%nat || negb (bool_decide (get 0 8 bytes = PACK_MAGIC))
  then Err (manifest_invalid "pack header magic or length is invalid") else
  v ← read_u32 bytes 8;
  if negb (v =? PACK_VERSION) then Err (unsupported_layout "pack version is unsupported") else
  c ← read_u32 bytes 48;
  if negb (c =? crc32 (get 0 48 bytes))
  then Err (integrity_mismatch "pack header checksum or reserved bytes are invalid") else
  page_size ← read_u32 bytes 16;
  flags ← read_u32 bytes 12;
  if negb (Z.land flags (u32_max - 1) =? 0) then Err (unsupported_layout "pack encryption flags are unsupported") else
  let pack_id := from_be (get 20 4 bytes ++ get 52 12 bytes) in
  if (negb (Z.land flags 1 =? 0) && (pack_id =? 0)) || ((Z.land flags 1 =? 0) && negb (pack_id =? 0))
  then Err (integrity_mismatch "pack identity and encryption policy disagree") else
  if negb ((65536 <=? page_size) && (page_size <=? 16777216)) || negb (is_power_of_two page_size)
  then Err (manifest_invalid "pack page size is invalid") else
  io ← read_u64 bytes 24;
  il ← read_u64 bytes 32;
  ec ← read_u64 bytes 40;
  Ok (mkPackHeader page_size io il ec (negb (Z.land flags 1 =? 0)) pack_id).

(** ** Footer *)
Definition PackFooter_body (f : PackFooter) : list Z :=
  FOOTER_MAGIC ++ to_le 4 PACK_VERSION ++ zeros 4 ++ to_be 32 (pf_index_hash f) ++ to_be 32 (pf_content_hash f) ++ to_le 8 (pf_pack_length f).

Definition PackFooter_encode (f : PackFooter) : list Z :=
  PackFooter_body f ++ to_le 4 (crc32 (PackFooter_body f)) ++ zeros 36.

Definition PackFooter_decode (bytes : list Z) : result PackFooter :=
  if negb (length bytes =? 128)%nat || negb (bool_decide (get 0 8 bytes = FOOTER_MAGIC))
  then Err (manifest_invalid "pack footer magic or length is invalid") else
  v ← read_u32 bytes 8;
  if negb (v =? PACK_VERSION) then Err (unsupported_layout "pack footer version is unsupported") else
  r1 ← pack_take 4 bytes 12;
  r2 ← pack_take 36 bytes 92;
  c ← read_u32 bytes 88;
  if negb (all_zero r1) || negb (all_zero r2) || negb (c =? crc32 (get 0 88 bytes))
  then Err (integrity_mismatch "pack footer checksum or reserved bytes are invalid") else
  ih ← pack_take 32 bytes 16;
  ch ← pack_take 32 bytes 48;
  n ← read_u64 bytes 80;
  Ok (mkPackFooter (from_be ih) (from_be ch) n).

(** ** Plain frames *)
Definition PlainPage_from_bytes (bytes : list Z) : PlainPage :=
  mkPlainPage (blake3 bytes)
    (if Z.of_nat (length bytes) <=? u32_max then Z.of_nat (length bytes) else u32_max) bytes.

Definition frame_body (p : PlainPage) : list Z :=
  FRAME_MAGIC ++ to_le 2 FRAME_VERSION ++ zeros 2 ++ to_be 32 (pp_hash p) ++ to_le 4 (pp_logical_len p) ++ to_le 4 (pp_logical_len p)
  ++ [Codec_code CNone] ++ zeros 1 ++ zeros 2.

Definition encode_plain_frame (p : PlainPage) : result (list Z) :=
  if negb (Z.of_nat (length (pp_bytes p)) =? pp_logical_len p) || (pp_logical_len p =? 0)
  then Err (invalid_argument "plain page length is inconsistent") else
  if MAX_ENCODED_FRAME_LEN <? pp_logical_len p then Err (invalid_argument "plain page exceeds the frame bound") else
  if negb (blake3 (pp_bytes p) =? pp_hash p)
  then Err (integrity_mismatch "plain page hash does not match its bytes") else
  Ok (frame_body p ++ to_le 4 (crc32 (frame_body p)) ++ zeros 8 ++ pp_bytes p).

Definition decode_plain_frame (bytes : list Z) : result DecodedFrame :=
  if (length bytes <? 64)%nat || negb (bool_decide (get 0 4 bytes = FRAME_MAGIC))
  then Err (manifest_invalid "frame magic or length is invalid") else
  v ← read_u16 bytes 4;
  if negb (v =? FRAME_VERSION) then Err (unsupported_layout "frame version is unsupported") else
  fl ← read_u16 bytes 6;
  r ← read_u16 bytes 50;
  t ← pack_take 12 bytes 52;
  if negb (fl =? 0) || negb (from_le (get 49 1 bytes) =? 0) || negb (r =? 0) || negb (all_zero (skipn 4 t))
  then Err (unsupported_layout "frame flags, encryption metadata, or reserved bytes are unsupported") else
  c ← read_u32 bytes 52;
  if negb (c =? crc32 (get 0 52 bytes)) then Err (integrity_mismatch "frame header checksum is invalid") else
  logical_len ← read_u32 bytes 40;
  encoded_len ← read_u32 bytes 44;
  if (logical_len =? 0) || (encoded_len =? 0) || (MAX_ENCODED_FRAME_LEN <? encoded_len) || negb (encoded_len =? logical_len)
  then Err (manifest_invalid "frame lengths are invalid for codec none") else
  if negb (from_le (get 48 1 bytes) =? Codec_code CNone) then Err (unsupported_layout "frame codec is unsupported") else
  payload_end ← ok_or (manifest_invalid "frame payload length overflowed") (checked_add 64 encoded_len);
  if negb (payload_end =? Z.of_nat (length bytes))
  then Err (manifest_invalid "frame payload length does not match its range") else
  h ← pack_take 32 bytes 8;
  let payload := skipn 64 bytes in
  if negb (blake3 payload =? from_be h) then Err (integrity_mismatch "frame plaintext hash is invalid") else
  Ok (mkDecodedFrame (mkPlainPage (from_be h) logical_len payload) CNone).
End Checksums.

(** ** Index codec *)
Definition entry_wf (e : PackEntry) : Prop :=
  0 <= pk_page_hash e < 2 ^ 256 /\ in_u64 (frame_offset e) /\ in_u64 (frame_length e) /\
  in_u32 (pk_logical_length e) /\ in_u32 (pk_encoded_length e).

(** What the reader insists on beyond the field widths. *)
Definition entry_valid (e : PackEntry) : Prop :=
  pk_codec e = CNone /\ frame_length e = (if pk_encrypted e then 68 else 64) + pk_encoded_length e /\
  pk_logical_length e <> 0 /\ pk_encoded_length e <> 0.

Lemma length_entry (e : PackEntry) : length (PackEntry_encode e) = 64%nat.
Proof. unfold PackEntry_encode. flen. Qed.

Lemma entry_fields (e : PackEntry) :
  entry_wf e -> let b := PackEntry_encode e in
  from_be (get 0 32 b) = pk_page_hash e /\ from_le (get 32 8 b) = frame_offset e /\ from_le (get 40 8 b) = frame_length e /\
  from_le (get 48 4 b) = pk_logical_length e /\ from_le (get 52 4 b) = pk_encoded_length e /\
  from_le (get 56 1 b) = Codec_code (pk_codec e) /\ from_le (get 57 1 b) = Z.b2z (pk_encrypted e) /\ get 58 6 b = zeros 6.
Proof.
  intros (H1 & H2 & H3 & H4 & H5) b. unfold b, PackEntry_encode.
  split_and!; getf; rewrite ?be_val_be, ?le_val_le, ?from_le_byte; try done; mach.
Qed.

Lemma b2z_neq0 (z : Z) : 0 <= z <= 1 -> Z.b2z (negb (z =? 0)) = z.
Proof. intros. zcase; simpl; lia. Qed.

Lemma entry_codec (b : list Z) (e : PackEntry) :
  is_bytes b -> entry_wf e -> PackEntry_decode b = Ok e <-> PackEntry_encode e = b /\ entry_valid e.
Proof.
  intros Hb Hwf. unfold PackEntry_decode. split.
  - destruct (negb (length b =? 64)%nat || _) eqn:E; [done|]. zbool.
    match goal with H : (length b =? 64)%nat = true |- _ => apply Nat.eqb_eq in H; rename H into HL end. readf.
    destruct (all_zero (get 58 6 b)) eqn:Ez; [|done]. cbn [negb].
    destruct (from_le (get 56 1 b)) eqn:Ec; [|done..]. cbn [mbind result_bind]. readf. cbn [pk_encrypted frame_length pk_encoded_length pk_logical_length].
    destruct (_ || _ || _) eqn:Ev; [done|]. zbool. intros HR. apply Ok_inj in HR as <-.
    pose proof (le_get_bound 1 57 b Hb ltac:(lia)) as B57. pose proof (le_get_bound 4 52 b Hb ltac:(lia)) as B52.
    change (256 ^ Z.of_nat 4) with 4294967296 in B52. split.
    + unfold PackEntry_encode.
      cbn [pk_page_hash frame_offset frame_length pk_logical_length pk_encoded_length pk_codec pk_encrypted Codec_code].
      rewrite b2z_neq0, be_get, !le_get, <- Ec, <- (get_byte 56), <- (get_byte 57), (zeros_get 6 58 b) by (done || lia).
      etransitivity; [|apply (fields_all [32; 8; 8; 4; 4; 1; 1; 6]%nat b); simpl; lia].
      cbn [fields concat Nat.add]. by rewrite app_nil_r.
    + unfold entry_valid. cbn [pk_codec frame_length pk_encrypted pk_encoded_length pk_logical_length]. split_and!; try done.
      etransitivity; [eassumption|]. unfold saturating_add. destruct (negb _); mach.
  - intros [<- (V1 & V2 & V3 & V4)]. destruct (entry_fields e Hwf) as (E1 & E2 & E3 & E4 & E5 & E6 & E7 & E8).
    pose proof (length_entry e) as HL. rewrite HL, E7. readf. rewrite E8, E6, V1, all_zero_zeros. cbn [negb Codec_code].
    replace (1 <? Z.b2z (pk_encrypted e)) with false by (by destruct (pk_encrypted e)). cbn [Nat.eqb negb orb mbind result_bind]. readf.
    rewrite E1, E2, E3, E4, E5.
    cbn [pk_page_hash frame_offset frame_length pk_logical_length pk_encoded_length pk_codec pk_encrypted].
    replace (negb (Z.b2z (pk_encrypted e) =? 0)) with (pk_encrypted e) by (by destruct (pk_encrypted e)).
    rewrite (proj2 (Z.eqb_eq (frame_length e) _)), (proj2 (Z.eqb_neq _ _) V3), (proj2 (Z.eqb_neq _ _) V4).
    + cbn. f_equal. destruct e; simpl in *. by subst.
    + destruct Hwf as (_ & _ & _ & _ & H). rewrite V2. unfold saturating_add. destruct (pk_encrypted e); mach.
Qed.

Lemma hash_sorted_spec (es : list PackEntry) :
  hash_sorted es = true <-> StronglySorted (fun a b => pk_page_hash a < pk_page_hash b) es.
Proof.
  split.
  - induction es as [|a [|b es] IH]; [constructor|by repeat constructor|]. cbn [hash_sorted]. intros H. zbool.
    specialize (IH ltac:(done)). constructor; [done|]. inversion_clear IH as [|? ? _ HF]. constructor; [done|].
    apply (Forall_impl _ _ _ HF). simpl. lia.
  - induction 1 as [|a [|b es] HS IH HF]; [done|done|]. cbn [hash_sorted]. inversion_clear HF.
    apply andb_true_iff. split; [by apply Z.ltb_lt|exact IH].
Qed.

Lemma length_index (es : list PackEntry) : length (encode_index es) = (length es * 64)%nat.
Proof.
  unfold encode_index. induction es as [|e es IH]; [done|]. cbn [map concat]. rewrite length_app, length_entry, IH. simpl. lia.
Qed.

Lemma decode_chunks_exact (n : nat) (b : list Z) (es : list PackEntry) :
  is_bytes b -> length b = (n * 64)%nat -> Forall entry_wf es ->
  decode_chunks n b = Ok es <-> encode_index es = b /\ length es = n /\ Forall entry_valid es.
Proof.
  revert b es. induction n as [|n IH]; intros b es Hb HL Hwf; cbn [decode_chunks].
  - destruct b; [|done]. split; [intros [= <-]; by split_and!|]. intros (_ & H & _). by destruct es.
  - assert (Hs : b = get 0 64 b ++ skipn 64 b) by (unfold get; by rewrite firstn_skipn).
    assert (HL2 : length (skipn 64 b) = (n * 64)%nat) by (rewrite length_skipn; lia).
    split.
    + intros H. apply bind_Ok_inv in H as (e & He & H). apply bind_Ok_inv in H as (es' & Hes & H). apply Ok_inj in H as <-.
      inversion_clear Hwf as [|? ? Hwe Hwf'].
      apply entry_codec in He as [He Hv]; [|by apply get_bytes|done].
      apply IH in Hes as (Hes & Hn & Hvs); [|by apply Forall_drop|done|done].
      split_and!; [|simpl; lia|by constructor]. unfold encode_index in *. cbn [map concat]. by rewrite He, Hes.
    + intros (Henc & Hn & Hv). destruct es as [|e es]; [done|]. inversion_clear Hwf as [|? ? Hwe Hwf']. inversion_clear Hv as [|? ? Hve Hvs].
      cbn [map concat encode_index] in Henc. assert (Hge : get 0 64 b = PackEntry_encode e).
      { rewrite <- Henc. unfold encode_index. cbn [map concat]. apply get_app_0, length_entry. }
      assert (Hsk : skipn 64 b = encode_index es).
      { rewrite <- Henc. unfold encode_index. cbn [map concat]. by rewrite skipn_app, skipn_all2, length_entry by (rewrite length_entry; lia). }
      rewrite (proj2 (entry_codec (get 0 64 b) e (get_bytes 0 64 b Hb) Hwe)) by (by split).
      rewrite (proj2 (IH (skipn 64 b) es ltac:(by apply Forall_drop) HL2 Hwf')); [done|]. split_and!; [done|simpl in Hn; lia|done].
Qed.

(** The pack index codec is exact.  A byte string and an entry count
    decode to a list of entries if and only if the bytes are the
    concatenation of the entries' 64-byte encodings, the count is their
    number, each entry's lengths and codec are consistent, and the entries
    are strictly sorted by page hash (so the index has no duplicate page). *)
Theorem pack_index_codec_exact (b : list Z) (count : Z) (es : list PackEntry) :
  is_bytes b -> Z.of_nat (length b) <= u64_max -> Forall entry_wf es ->
  decode_index b count = Ok es <->
  encode_index es = b /\ count = Z.of_nat (length es) /\ Forall entry_valid es /\
  StronglySorted (fun a b => pk_page_hash a < pk_page_hash b) es.
Proof.
  intros Hb HU Hwf. rewrite <- hash_sorted_spec. unfold decode_index. split.
  - intros H. apply bind_Ok_inv in H as (ex & He & H). apply ok_or_Ok_inv, checked_mul_Some in He as [_ ->].
    destruct (Z.eqb_spec (Z.of_nat (length b)) (count * 64)) as [HL|]; [|done]. cbn [negb] in H.
    assert (Hlen : length b = (length b / 64 * 64)%nat).
    { apply Nat2Z.inj. rewrite Nat2Z.inj_mul, Nat2Z.inj_div, HL. change (Z.of_nat 64) with 64. by rewrite Z.div_mul. }
    apply bind_Ok_inv in H as (es' & Hes & H). destruct (hash_sorted es') eqn:Hsort; [|done]. apply Ok_inj in H as <-.
    apply decode_chunks_exact in Hes as (Henc & Hn & Hv); [|done..]. split_and!; try done. rewrite Hn, Nat2Z.inj_div, HL.
    change (Z.of_nat 64) with 64. by rewrite Z.div_mul.
  - intros (Henc & -> & Hv & Hs). assert (HL : length b = (length es * 64)%nat) by (rewrite <- Henc; apply length_index).
    unfold checked_mul. rewrite (proj2 (Z.leb_le _ _)) by lia. cbn [ok_or mbind result_bind].
    rewrite (proj2 (Z.eqb_eq _ _)) by lia. cbn [negb]. rewrite HL, Nat.div_mul by done.
    rewrite (proj2 (decode_chunks_exact (length es) b es Hb HL Hwf)) by done. cbn [mbind result_bind]. by rewrite Hs.
Qed.

Definition sample_entries : list PackEntry :=
  [mkPackEntry 3 64 164 100 100 CNone false; mkPackEntry 9 228 118 60 50 CNone true].
Lemma pack_index_codec_exact_witness : decode_index (encode_index sample_entries) 2 = Ok sample_entries.
Proof.
  apply pack_index_codec_exact.
  - apply bytes_check. vm_compute. reflexivity.
  - vm_compute. discriminate.
  - repeat constructor; unfold entry_wf; simpl; mach.
  - split_and!; [done|done| |]; repeat constructor; done.
Defined.

(** ** Header, footer and frame codecs *)
Section CodecFacts.
Variable crc32 : list Z -> Z.
Variable blake3 : list Z -> Z.
Hypothesis crc32_u32 : forall l, in_u32 (crc32 l).
Hypothesis blake3_256 : forall l, 0 <= blake3 l < 2 ^ 256.

Lemma crc32_fits (l : list Z) : 0 <= crc32 l < 256 ^ Z.of_nat 4.
Proof. pose proof (crc32_u32 l). mach. Qed.

Definition footer_wf (f : PackFooter) : Prop :=
  0 <= pf_index_hash f < 2 ^ 256 /\ 0 <= pf_content_hash f < 2 ^ 256 /\ in_u64 (pf_pack_length f).

Lemma length_footer_body (f : PackFooter) : length (PackFooter_body f) = 88%nat.
Proof. unfold PackFooter_body, FOOTER_MAGIC. flen. Qed.

Lemma footer_fields (f : PackFooter) :
  footer_wf f -> let b := PackFooter_encode crc32 f in
  get 0 8 b = FOOTER_MAGIC /\ from_le (get 8 4 b) = PACK_VERSION /\ get 12 4 b = zeros 4 /\
  from_be (get 16 32 b) = pf_index_hash f /\ from_be (get 48 32 b) = pf_content_hash f /\
  from_le (get 80 8 b) = pf_pack_length f /\ from_le (get 88 4 b) = crc32 (get 0 88 b) /\
  get 92 36 b = zeros 36 /\ get 0 88 b = PackFooter_body f /\ length b = 128%nat.
Proof.
  intros (W1 & W2 & W3) b. pose proof (length_footer_body f) as HB. pose proof (crc32_fits (PackFooter_body f)).
  assert (H88 : get 0 88 b = PackFooter_body f) by (by apply get_app_0).
  assert (Hin : forall off n, (off + n <= 88)%nat -> get off n b = get off n (PackFooter_body f))
    by (intros; apply get_app_l; lia).
  rewrite !Hin, H88 by lia. unfold b, PackFooter_encode. rewrite !get_app_r, HB by (rewrite HB; lia). cbn [Nat.sub].
  rewrite !length_app, HB, length_le, length_zeros. unfold PackFooter_body, FOOTER_MAGIC in *.
  split_and!; getf; rewrite ?le_val_le, ?be_val_be; try done; mach.
Qed.

Lemma footer_codec (b : list Z) (f : PackFooter) :
  is_bytes b -> footer_wf f -> PackFooter_decode crc32 b = Ok f <-> PackFooter_encode crc32 f = b.
Proof.
  intros Hb (W1 & W2 & W3). unfold PackFooter_decode. split.
  - destruct (negb (length b =? 128)%nat || _) eqn:E; [done|]. zbool.
    match goal with H : (length b =? 128)%nat = true |- _ => apply Nat.eqb_eq in H; rename H into HL end.
    match goal with H : bool_decide _ = true |- _ => apply bool_decide_eq_true in H; rename H into Hm end. readf.
    destruct (Z.eqb_spec (from_le (get 8 4 b)) PACK_VERSION) as [Hv|]; [|done]. cbn [negb]. readf.
    destruct (_ || _ || _) eqn:Ez; [done|]. zbool. readf. intros HR. apply Ok_inj in HR as <-.
    assert (Hbody : PackFooter_body (mkPackFooter (from_be (get 16 32 b)) (from_be (get 48 32 b)) (from_le (get 80 8 b))) = get 0 88 b).
    { unfold PackFooter_body. cbn [pf_index_hash pf_content_hash pf_pack_length].
      rewrite <- Hm, <- Hv, !be_get, !le_get, (zeros_get 4 12 b) by (done || lia).
      rewrite (get_fields [8; 4; 4; 32; 32; 8]%nat 0) by (simpl; lia). cbn [fields concat Nat.add]. by rewrite app_nil_r. }
    unfold PackFooter_encode. rewrite Hbody. replace (crc32 (get 0 88 b)) with (from_le (get 88 4 b)) by done.
    rewrite le_get, (zeros_get 36 92 b) by (done || lia).
    etransitivity; [|apply (fields_all [88; 4; 36]%nat b); simpl; lia]. cbn [fields concat Nat.add]. by rewrite app_nil_r.
  - intros <-. pose proof (length_footer_body f) as HB.
    destruct (footer_fields f (conj W1 (conj W2 W3))) as (E1 & E2 & E3 & E4 & E5 & E6 & E7 & E8 & E9 & HL).
    rewrite HL, E1, bool_decide_true by done. readf. rewrite E2. readf. rewrite E3, E8, E7, E9, !all_zero_zeros, !Z.eqb_refl.
    cbn [negb orb Nat.eqb mbind result_bind]. readf. rewrite E4, E5, E6. by destruct f.
Qed.

Definition header_wf (h : PackHeader) : Prop :=
  in_u32 (ph_page_size h) /\ in_u64 (ph_index_offset h) /\ in_u64 (ph_index_length h) /\
  in_u64 (ph_entry_count h) /\ 0 <= ph_pack_id h < 2 ^ 128.

(** What the reader insists on beyond the field widths. *)
Definition header_valid (h : PackHeader) : Prop :=
  65536 <= ph_page_size h <= 16777216 /\ is_power_of_two (ph_page_size h) = true /\
  (ph_encrypted h = true <-> ph_pack_id h <> 0).

Lemma length_pack_body (h : PackHeader) : length (PackHeader_body h) = 48%nat.
Proof. unfold PackHeader_body, PACK_MAGIC. rewrite !length_app, length_firstn, !length_le, length_be. done. Qed.

Lemma flag_bit (f : Z) : 0 <= f < 2 ^ 32 -> Z.land f (u32_max - 1) = 0 -> f = Z.b2z (negb (Z.land f 1 =? 0)).
Proof.
  intros Hf H. assert (Hl : f = Z.land f 1).
  { rewrite <- (Z.lor_0_l (Z.land f 1)), <- H, <- Z.land_lor_distr_r.
    change (Z.lor (u32_max - 1) 1) with (Z.ones 32). rewrite Z.land_ones by lia. by rewrite Z.mod_small. }
  assert (0 <= Z.land f 1 <= 1).
  { change 1 with (Z.ones 1) at 1 2. rewrite Z.land_ones by lia. pose proof (Z.mod_pos_bound f (2 ^ 1)). lia. }
  rewrite b2z_neq0; lia.
Qed.

Lemma land_b2z (x : bool) : Z.land (Z.b2z x) (u32_max - 1) = 0 /\ negb (Z.land (Z.b2z x) 1 =? 0) = x.
Proof. by destruct x. Qed.

Lemma pack_header_fields (h : PackHeader) :
  header_wf h -> let b := PackHeader_encode crc32 h in
  get 0 8 b = PACK_MAGIC /\ from_le (get 8 4 b) = PACK_VERSION /\ from_le (get 12 4 b) = Z.b2z (ph_encrypted h) /\
  from_le (get 16 4 b) = ph_page_size h /\ get 20 4 b ++ get 52 12 b = to_be 16 (ph_pack_id h) /\
  from_le (get 24 8 b) = ph_index_offset h /\ from_le (get 32 8 b) = ph_index_length h /\
  from_le (get 40 8 b) = ph_entry_count h /\ from_le (get 48 4 b) = crc32 (get 0 48 b) /\ length b = 64%nat.
Proof.
  intros (W1 & W2 & W3 & W4 & W5) b. pose proof (length_pack_body h) as HB. pose proof (crc32_fits (PackHeader_body h)).
  assert (H48 : get 0 48 b = PackHeader_body h) by (by apply get_app_0).
  assert (Hin : forall off n, (off + n <= 48)%nat -> get off n b = get off n (PackHeader_body h))
    by (intros; apply get_app_l; lia).
  assert (Hid4 : length (firstn 4 (to_be 16 (ph_pack_id h))) = 4%nat) by (by rewrite length_firstn, length_be).
  assert (Hid12 : length (skipn 4 (to_be 16 (ph_pack_id h))) = 12%nat) by (by rewrite length_skipn, length_be).
  rewrite !Hin, H48 by lia. unfold b, PackHeader_encode. rewrite !get_app_r, HB by (rewrite HB; lia). cbn [Nat.sub].
  rewrite !length_app, HB, length_le, Hid12. unfold PackHeader_body, PACK_MAGIC in *.
  split_and!; try done; repeat (first [rewrite get_app_0 by (rewrite ?Hid4; flen; reflexivity)
      | rewrite get_app_l by (rewrite ?Hid4; flen) | rewrite get_all by (rewrite ?Hid12; flen; reflexivity)
      | rewrite get_app_r by (rewrite ?Hid4; flen); rewrite ?Hid4, ?length_le; cbn [length Nat.sub]]);
    rewrite ?le_val_le; try done; try mach; try (by destruct (ph_encrypted h)); by rewrite firstn_skipn.
Qed.

Lemma header_codec (b : list Z) (h : PackHeader) :
  is_bytes b -> header_wf h ->
  PackHeader_decode crc32 b = Ok h <-> PackHeader_encode crc32 h = b /\ header_valid h.
Proof.
  intros Hb Hwf. unfold PackHeader_decode. split.
  - destruct (negb (length b =? 64)%nat || _) eqn:E; [done|]. zbool.
    match goal with H : (length b =? 64)%nat = true |- _ => apply Nat.eqb_eq in H; rename H into HL end.
    match goal with H : bool_decide _ = true |- _ => apply bool_decide_eq_true in H; rename H into Hm end. readf.
    destruct (Z.eqb_spec (from_le (get 8 4 b)) PACK_VERSION) as [Hv|]; [|done]. cbn [negb]. readf.
    destruct (Z.eqb_spec (from_le (get 48 4 b)) (crc32 (get 0 48 b))) as [Hc|]; [|done]. cbn [negb]. readf.
    destruct (Z.eqb_spec (Z.land (from_le (get 12 4 b)) (u32_max - 1)) 0) as [Hf|]; [|done]. cbn [negb].
    pose proof (flag_bit _ (le_get_bound 4 12 b Hb ltac:(lia)) Hf) as Hflag.
    set (id := get 20 4 b ++ get 52 12 b) in *. set (enc := negb (Z.land (from_le (get 12 4 b)) 1 =? 0)) in *.
    destruct ((enc && _) || _) eqn:Eid; [done|].
    assert (Hpol : enc = true <-> from_be id <> 0).
    { unfold enc in *. destruct (Z.land (from_le (get 12 4 b)) 1 =? 0), (Z.eqb_spec (from_be id) 0); done. }
    clear Eid. destruct (negb (_ && _) || _) eqn:Ep; [done|]. zbool. readf.
    intros HR. apply Ok_inj in HR as <-.
    assert (Hid : to_be 16 (from_be id) = id).
    { replace 16%nat with (length id) at 1 by (unfold id; by rewrite length_app, !length_get by lia).
      apply be_be_val. apply Forall_app; split; by apply get_bytes. }
    assert (Hidl : length (get 20 4 b) = 4%nat) by (apply length_get; lia). split.
    + unfold PackHeader_encode.
      assert (Hbody : PackHeader_body (mkPackHeader (from_le (get 16 4 b)) (from_le (get 24 8 b)) (from_le (get 32 8 b)) (from_le (get 40 8 b)) enc (from_be id)) = get 0 48 b).
      { unfold PackHeader_body. cbn [ph_encrypted ph_page_size ph_pack_id ph_index_offset ph_index_length ph_entry_count].
        rewrite <- Hm, <- Hv, <- Hflag, Hid, !le_get by (done || lia).
        unfold id. rewrite firstn_app, Hidl, firstn_O, app_nil_r, firstn_all2 by lia.
        rewrite (get_fields [8; 4; 4; 4; 4; 8; 8; 8]%nat 0) by (simpl; lia). cbn [fields concat Nat.add]. by rewrite app_nil_r. }
      rewrite Hbody, <- Hc. cbn [ph_pack_id]. rewrite Hid, le_get by (done || lia).
      unfold id. rewrite skipn_app, Hidl, skipn_all2, skipn_O by lia.
      etransitivity; [|apply (fields_all [48; 4; 12]%nat b); simpl; lia]. cbn [fields concat Nat.add app]. by rewrite app_nil_r.
    + unfold header_valid. cbn [ph_page_size ph_encrypted ph_pack_id]. by split_and!.
  - intros [<- (V1 & V2 & V3)]. destruct (pack_header_fields h Hwf) as (E1 & E2 & E3 & E4 & E5 & E6 & E7 & E8 & E9 & HL).
    rewrite HL, E1, bool_decide_true by done. cbn [Nat.eqb negb orb]. readf. rewrite E2, Z.eqb_refl. cbn [negb]. readf.
    rewrite E9, Z.eqb_refl. cbn [negb]. readf. rewrite E3, E4, E5, be_val_be by apply Hwf.
    destruct (land_b2z (ph_encrypted h)) as [-> ->]. cbn [Z.eqb negb].
    rewrite (proj2 (Z.leb_le 65536 _)), (proj2 (Z.leb_le _ 16777216)), V2 by lia. cbn [negb andb orb].
    readf. rewrite E6, E7, E8.
    replace (Z.land (Z.b2z (ph_encrypted h)) 1 =? 0) with (negb (ph_encrypted h)) by (by destruct (ph_encrypted h)).
    destruct (Z.eqb_spec (ph_pack_id h) 0) as [H0|H0]; destruct (ph_encrypted h) eqn:Ee; simpl;
      [by apply (proj1 V3) in H0| |by destruct h; simpl in *; subst|by apply V3 in H0];
      destruct h; simpl in *; by subst.
Qed.

(** The pack header and footer codecs are exact.  A byte string decodes
    to a header if and only if it is that header's encoding and the header
    obeys the reader's policy (a power-of-two page size between 64 KiB and
    16 MiB; a pack id exactly when the pack is encrypted); it decodes to a
    footer if and only if it is that footer's encoding. *)
Theorem pack_container_codec_exact (b : list Z) (h : PackHeader) (f : PackFooter) :
  is_bytes b -> header_wf h -> footer_wf f ->
  (PackHeader_decode crc32 b = Ok h <-> PackHeader_encode crc32 h = b /\ header_valid h) /\
  (PackFooter_decode crc32 b = Ok f <-> PackFooter_encode crc32 f = b).
Proof. intros Hb Hh Hf. split; [by apply header_codec|by apply footer_codec]. Qed.

(** *** Frames *)
Lemma length_frame_body (p : PlainPage) : length (frame_body p) = 52%nat.
Proof. unfold frame_body, FRAME_MAGIC. flen. Qed.

Lemma frame_fields (p : PlainPage) :
  0 <= pp_hash p < 2 ^ 256 -> in_u32 (pp_logical_len p) ->
  let b := frame_body p ++ to_le 4 (crc32 (frame_body p)) ++ zeros 8 ++ pp_bytes p in
  get 0 4 b = FRAME_MAGIC /\ from_le (get 4 2 b) = FRAME_VERSION /\ from_le (get 6 2 b) = 0 /\
  from_be (get 8 32 b) = pp_hash p /\ from_le (get 40 4 b) = pp_logical_len p /\ from_le (get 44 4 b) = pp_logical_len p /\
  from_le (get 48 1 b) = 0 /\ from_le (get 49 1 b) = 0 /\ from_le (get 50 2 b) = 0 /\
  from_le (get 52 4 b) = crc32 (get 0 52 b) /\ skipn 4 (get 52 12 b) = zeros 8 /\ skipn 64 b = pp_bytes p /\
  length b = (64 + length (pp_bytes p))%nat.
Proof.
  intros Hh Hl b. pose proof (length_frame_body p) as HB. pose proof (crc32_fits (frame_body p)).
  assert (H52 : get 0 52 b = frame_body p) by (by apply get_app_0).
  assert (Hin : forall off n, (off + n <= 52)%nat -> get off n b = get off n (frame_body p))
    by (intros; apply get_app_l; lia).
  assert (Hsk : skipn 64 b = pp_bytes p).
  { unfold b. rewrite !app_assoc, skipn_app, skipn_all2, !length_app, HB, length_le, length_zeros by
      (rewrite !length_app, HB, length_le, length_zeros; simpl; lia). done. }
  assert (Htail : get 52 12 b = to_le 4 (crc32 (frame_body p)) ++ zeros 8).
  { unfold b. rewrite get_app_r, HB by lia. rewrite app_assoc. apply get_app_0. by rewrite length_app, length_le, length_zeros. }
  assert (H4 : get 52 4 b = to_le 4 (crc32 (frame_body p))).
  { unfold b. rewrite get_app_r, HB by lia. apply get_app_0. by rewrite length_le. }
  rewrite !Hin, H52, Htail, H4 by lia. unfold frame_body, FRAME_MAGIC in *.
  split_and!; try done; getf; rewrite ?le_val_le, ?be_val_be, ?from_le_byte; try done; mach.
Qed.

Lemma frame_of_fields (b : list Z) (p : PlainPage) :
  is_bytes b -> (64 <= length b)%nat -> get 0 4 b = FRAME_MAGIC -> from_le (get 4 2 b) = FRAME_VERSION ->
  from_le (get 6 2 b) = 0 -> from_le (get 48 1 b) = 0 -> from_le (get 49 1 b) = 0 -> from_le (get 50 2 b) = 0 ->
  from_le (get 44 4 b) = from_le (get 40 4 b) -> pp_hash p = from_be (get 8 32 b) -> pp_logical_len p = from_le (get 40 4 b) ->
  frame_body p = get 0 52 b.
Proof.
  intros Hb HL Hm Hv E6 E48 E49 E50 E44 Hh Hl. unfold frame_body. rewrite Hh, Hl.
  rewrite (get_fields [4; 2; 2; 32; 4; 4; 1; 1; 2]%nat 0) by (simpl; lia). cbn [fields concat Nat.add].
  rewrite <- (zeros_from_le 2 6 b), <- (zeros_from_le 1 49 b), <- (zeros_from_le 2 50 b) by (done || lia).
  rewrite (get_byte 48), E48 by (done || lia). rewrite <- E44 at 2. rewrite <- Hm, <- Hv, be_get, !le_get by (done || lia).
  by rewrite app_nil_r.
Qed.

(** The plain-frame codec is exact.  A byte string decodes to a page if
    and only if the page encodes to it; so a decoded page carries the BLAKE3
    hash and the length of its own bytes, an encoded page is read back
    unchanged, and a frame with any altered header, reserved or payload byte
    decodes to the page only if it is the encoding again. *)
Theorem plain_frame_codec_exact (b : list Z) (p : PlainPage) :
  is_bytes b -> Z.of_nat (length b) <= u64_max ->
  decode_plain_frame crc32 blake3 b = Ok (mkDecodedFrame p CNone) <-> encode_plain_frame crc32 blake3 p = Ok b.
Proof.
  intros Hb HU. unfold decode_plain_frame, encode_plain_frame. split.
  - destruct ((length b <? 64)%nat || _) eqn:E; [done|]. zbool.
    match goal with H : (length b <? 64)%nat = false |- _ => apply Nat.ltb_ge in H; rename H into HL end.
    match goal with H : bool_decide _ = true |- _ => apply bool_decide_eq_true in H; rename H into Hm end. readf.
    destruct (Z.eqb_spec (from_le (get 4 2 b)) FRAME_VERSION) as [Hv|]; [|done]. cbn [negb]. readf.
    destruct (_ || _ || _ || _) eqn:Er; [done|]. apply orb_false_iff in Er as [Er Ez]. apply orb_false_iff in Er as [Er E50].
    apply orb_false_iff in Er as [E6 E49]. zbool. readf.
    destruct (Z.eqb_spec (from_le (get 52 4 b)) (crc32 (get 0 52 b))) as [Hc|]; [|done]. cbn [negb]. readf.
    destruct (_ || _ || _ || _) eqn:El; [done|]. destruct (Z.eqb_spec (from_le (get 48 1 b)) (Codec_code CNone)) as [Hk|]; [|done].
    unfold MAX_ENCODED_FRAME_LEN in *. zbool. cbn [negb]. rewrite checked_add_fits by mach. cbn [ok_or mbind result_bind].
    destruct (Z.eqb_spec (64 + from_le (get 44 4 b)) (Z.of_nat (length b))) as [Hlen|]; [|done]. cbn [negb]. readf.
    destruct (Z.eqb_spec (blake3 (skipn 64 b)) (from_be (get 8 32 b))) as [Hh|]; [|done]. cbn [negb].
    intros HR. apply Ok_inj in HR. injection HR as <-. cbn [pp_bytes pp_logical_len pp_hash].
    rewrite length_skipn. rewrite (proj2 (Z.eqb_eq (Z.of_nat (length b - 64)) _)), (proj2 (Z.eqb_neq _ 0)) by lia. cbn [negb orb].
    rewrite (proj2 (Z.ltb_ge _ _)) by lia. rewrite (proj2 (Z.eqb_eq _ _) Hh). cbn [negb]. f_equal.
    rewrite (frame_of_fields b) by (done || lia). rewrite <- Hc, le_get by (done || lia).
    assert (Hz : zeros 8 = get 56 8 b).
    { apply zeros_get; [|lia]. replace (get 56 8 b) with (skipn 4 (get 52 12 b)); [done|].
      unfold get. by rewrite skipn_firstn_comm, skipn_skipn. }
    rewrite Hz. symmetry. etransitivity; [apply (fields_split [52; 4; 8]%nat b); simpl; lia|].
    cbn [fields concat Nat.add total]. by rewrite app_nil_r, <- !app_assoc.
  - destruct (_ || _) eqn:E1; [done|]. destruct (_ <? _) eqn:E2; [done|]. destruct (Z.eqb_spec (blake3 (pp_bytes p)) (pp_hash p)) as [Hh|]; [|done].
    zbool. cbn [negb]. intros HR. apply Ok_inj in HR as <-.
    pose proof (blake3_256 (pp_bytes p)) as Hbd. rewrite Hh in Hbd. unfold MAX_ENCODED_FRAME_LEN in *.
    destruct (frame_fields p Hbd ltac:(mach)) as (F1 & F2 & F3 & F4 & F5 & F6 & F7 & F8 & F9 & F10 & F11 & F12 & HL).
    set (b := frame_body p ++ _) in *.
    rewrite F1, bool_decide_true, (proj2 (Nat.ltb_ge _ _)) by (done || lia). cbn [negb orb]. readf.
    rewrite F2, Z.eqb_refl. cbn [negb]. readf. rewrite F3, F8, F9, F11, all_zero_zeros. cbn [Z.eqb negb orb]. readf.
    rewrite F10, Z.eqb_refl. cbn [negb]. readf. rewrite F5, F6, F7.
    rewrite (proj2 (Z.eqb_neq (pp_logical_len p) 0)), (proj2 (Z.ltb_ge _ _)), Z.eqb_refl by (done || mach). cbn [negb orb Codec_code Z.eqb].
    rewrite checked_add_fits by mach. cbn [ok_or mbind result_bind].
    rewrite (proj2 (Z.eqb_eq _ _)) by lia. cbn [negb]. readf. rewrite F4, F12, (proj2 (Z.eqb_eq _ _) Hh). by destruct p.
Qed.
End CodecFacts.

Definition sample_pack_header : PackHeader := mkPackHeader 65536 4096 128 2 true (2 ^ 120 + 5).
Definition sample_footer : PackFooter := mkPackFooter 77 (2 ^ 250) 9999.

Lemma pack_container_codec_exact_witness :
  PackHeader_decode sum32 (PackHeader_encode sum32 sample_pack_header) = Ok sample_pack_header.
Proof.
  apply (pack_container_codec_exact sum32 sum32_u32 _ sample_pack_header sample_footer).
  - apply bytes_check. vm_compute. reflexivity.
  - unfold header_wf, sample_pack_header. simpl. mach.
  - unfold footer_wf, sample_footer. simpl. mach.
  - split; [reflexivity|]. split; [simpl; lia|]. split; [reflexivity|]. split; [intros _; vm_compute; discriminate|reflexivity].
Defined.

Definition sample_page : PlainPage := PlainPage_from_bytes sum256 [1; 2; 3; 255].
Definition sample_frame_bytes : list Z :=
  match encode_plain_frame sum32 sum256 sample_page with Ok b => b | Err _ => [] end.

Lemma plain_frame_codec_exact_witness :
  decode_plain_frame sum32 sum256 sample_frame_bytes = Ok (mkDecodedFrame sample_page CNone).
Proof.
  apply (plain_frame_codec_exact sum32 sum256 sum32_u32 sum256_bound).
  - apply bytes_check. vm_compute. reflexivity.
  - vm_compute. discriminate.
  - vm_compute. reflexivity.
Defined.
