(* ===== verification/FetchPlan.v ===== *)
(** * Pack range planning

    [mirage-pack/src/range_plan.rs]: the reads planned over the frames of one
    pack.  Frames are sorted by offset and neighbours are joined while the
    joined read stays within a gap and a window bound.  The vector under
    construction is kept reversed, so that [result.last_mut()] is the head of
    the list.  Proved: the plan partitions the frames, and a well-formed
    request is never refused. *)
From S2P Require Export PackFormat.

(** ** Pack range plans *)
Record PlannedRange : Set := mkPlanned { pr_range : CheckedRange; pr_pages : list Hash }.

Definition plan_push (e : PackEntry) (acc : list PlannedRange) : result (list PlannedRange) :=
  r ← CheckedRange_new (frame_offset e) (frame_length e);
  Ok (mkPlanned r [pk_page_hash e] :: acc).

Definition plan_step (pack_length max_gap max_window : Z) (e : PackEntry) (acc : list PlannedRange)
  : result (list PlannedRange) :=
  end_ ← ok_or (manifest_invalid "pack frame range overflows") (checked_add (frame_offset e) (frame_length e));
  if (frame_length e =? 0) || (pack_length <? end_) || (max_window <? frame_length e)
  then Err (manifest_invalid "pack frame range is outside its immutable object") else
  match acc with
  | last :: rest =>
      let last_end := end_exclusive (pr_range last) in
      if frame_offset e <? last_end then Err (manifest_invalid "pack frame ranges overlap") else
      let gap := frame_offset e -! last_end in
      let combined := end_ -! start (pr_range last) in
      if (gap <=? max_gap) && (combined <=? max_window) then
        r ← CheckedRange_new (start (pr_range last)) combined;
        Ok (mkPlanned r (pr_pages last ++ [pk_page_hash e]) :: rest)
      else plan_push e acc
  | [] => plan_push e acc
  end.

Fixpoint plan_loop (pack_length max_gap max_window : Z) (es : list PackEntry) (acc : list PlannedRange)
  : result (list PlannedRange) :=
  match es with
  | [] => Ok acc
  | e :: es => acc' ← plan_step pack_length max_gap max_window e acc; plan_loop pack_length max_gap max_window es acc'
  end.

Definition plan_ranges (entries : list PackEntry) (pack_length max_gap max_window : Z) : result (list PlannedRange) :=
  if max_window =? 0 then Err (invalid_argument "range window must be positive") else
  acc ← plan_loop pack_length max_gap max_window (sort_by_key frame_offset entries) [];
  Ok (reverse acc).

(** ** Correctness of the plan *)
Definition frame_end (e : PackEntry) : Z := frame_offset e + frame_length e.

(** A frame the planner accepts on its own. *)
Definition frame_fits (pack_length max_window : Z) (e : PackEntry) : Prop :=
  0 <= frame_offset e /\ 0 < frame_length e /\ frame_end e <= pack_length /\ frame_end e <= u64_max /\
  frame_length e <= max_window.

(** [g] are the frames a planned range [r] reads, in order. *)
Record reads (max_gap max_window : Z) (r : PlannedRange) (g : list PackEntry) : Prop := {
  rd_pages : pr_pages r = map pk_page_hash g;
  rd_first : exists e g', g = e :: g' /\ start (pr_range r) = frame_offset e;
  rd_last : exists e g', g = g' ++ [e] /\ start (pr_range r) + len (pr_range r) = frame_end e;
  rd_inside : Forall (fun e => start (pr_range r) <= frame_offset e /\ frame_end e <= start (pr_range r) + len (pr_range r)) g;
  rd_gaps : forall g1 e e' g2, g = g1 ++ e :: e' :: g2 -> 0 <= frame_offset e' - frame_end e <= max_gap;
  rd_window : 0 < len (pr_range r) <= max_window
}.

Lemma reads_one (max_gap max_window pack_length : Z) (e : PackEntry) :
  frame_fits pack_length max_window e ->
  reads max_gap max_window (mkPlanned (mkRange (frame_offset e) (frame_length e)) [pk_page_hash e]) [e].
Proof.
  intros (H1 & H2 & H3 & H4 & H5). unfold frame_end in *. constructor; simpl.
  - done.
  - by exists e, [].
  - by exists e, [].
  - repeat constructor; unfold frame_end; lia.
  - intros [|? [|? ?]] ? ? ?; done.
  - lia.
Qed.

Lemma reads_snoc (max_gap max_window : Z) (r : PlannedRange) (g : list PackEntry) (e : PackEntry) :
  reads max_gap max_window r g -> start (pr_range r) + len (pr_range r) <= frame_offset e ->
  0 < frame_length e -> frame_offset e - (start (pr_range r) + len (pr_range r)) <= max_gap ->
  frame_end e - start (pr_range r) <= max_window ->
  reads max_gap max_window
    (mkPlanned (mkRange (start (pr_range r)) (frame_end e - start (pr_range r))) (pr_pages r ++ [pk_page_hash e])) (g ++ [e]).
Proof.
  intros [Hp Hf Hl Hi Hg Hw] Hle Hpos Hgap Hwin. unfold frame_end in *. constructor; simpl.
  - by rewrite Hp, map_app.
  - destruct Hf as (e0 & g' & -> & ->). by exists e0, (g' ++ [e]).
  - exists e, g. split; [done|]. unfold frame_end. lia.
  - apply Forall_app. split; [|constructor; [unfold frame_end; lia|constructor]].
    apply (Forall_impl _ _ _ Hi). unfold frame_end. intros x [? ?]. simpl in *. lia.
  - intros g1 a b g2 E. destruct g2 as [|c g2] using rev_ind.
    + change (a :: b :: []) with ([a] ++ [b]) in E. rewrite app_assoc in E. apply app_inj_tail in E as [E <-].
      destruct Hl as (e1 & g' & -> & HE). apply app_inj_tail in E as [_ <-]. unfold frame_end. lia.
    + rewrite !app_comm_cons, app_assoc in E. apply app_inj_tail in E as [E _]. by apply (Hg g1 a b g2).
  - lia.
Qed.

(** The state of the loop: the groups read so far, newest first. *)
Record plan_inv (pack_length max_gap max_window : Z) (acc : list PlannedRange) (gs : list (list PackEntry)) : Prop := {
  pi_reads : Forall2 (reads max_gap max_window) acc gs;
  pi_bound : Forall (fun r => 0 <= start (pr_range r) /\ start (pr_range r) + len (pr_range r) <= pack_length /\
                              start (pr_range r) + len (pr_range r) <= u64_max) acc;
  pi_order : StronglySorted (fun r r' => start (pr_range r') + len (pr_range r') <= start (pr_range r)) acc
}.

Lemma plan_step_spec (pack_length max_gap max_window : Z) (e : PackEntry) (acc acc' : list PlannedRange)
  (gs : list (list PackEntry)) :
  plan_inv pack_length max_gap max_window acc gs -> 0 <= frame_offset e -> 0 <= frame_length e ->
  plan_step pack_length max_gap max_window e acc = Ok acc' ->
  exists gs', plan_inv pack_length max_gap max_window acc' gs' /\ concat (reverse gs') = concat (reverse gs) ++ [e].
Proof.
  intros [HR HB HO] H0 H1 H. unfold plan_step in H. apply bind_Ok_inv in H as (en & He & H).
  apply ok_or_Ok_inv, checked_add_Some in He as [Hu ->]. destruct (_ || _ || _) eqn:Ev; [done|]. zbool.
  assert (Hfit : frame_fits pack_length max_window e) by (unfold frame_fits, frame_end; lia).
  assert (Hpush : (forall r, r ∈ acc -> start (pr_range r) + len (pr_range r) <= frame_offset e) ->
    plan_push e acc = Ok acc' ->
    exists gs', plan_inv pack_length max_gap max_window acc' gs' /\ concat (reverse gs') = concat (reverse gs) ++ [e]).
  { intros Hall Hp. unfold plan_push, CheckedRange_new in Hp. rewrite checked_add_fits in Hp by done. apply Ok_inj in Hp as <-.
    exists ([e] :: gs). rewrite reverse_cons, concat_app. split; [|done]. constructor.
    - constructor; [by eapply reads_one|done].
    - constructor; [simpl; unfold frame_fits, frame_end in *; lia|done].
    - constructor; [done|]. apply Forall_forall. intros r Hr. simpl. by apply Hall. }
  destruct acc as [|last rest]; [apply Hpush; [|done]; intros r Hr; by apply elem_of_nil in Hr|].
  inversion HR as [|? g ? gs0 Hlast Hrest]; subst. inversion_clear HB as [|? ? (B1 & B2 & B3) HB'].
  inversion_clear HO as [|? ? HO' HF]. rewrite end_exclusive_fits in H by done.
  destruct (Z.ltb_spec (frame_offset e) (start (pr_range last) + len (pr_range last))) as [|Hge]; [done|].
  pose proof (rd_window _ _ _ _ Hlast) as Hw. rewrite !wsub_u64_small in H by lia.
  destruct (_ && _) eqn:Ej.
  - zbool. unfold CheckedRange_new in H. rewrite checked_add_fits in H by lia. apply Ok_inj in H as <-.
    exists ((g ++ [e]) :: gs0). split; [|by rewrite !reverse_cons, !concat_app; simpl; rewrite !app_nil_r, app_assoc].
    constructor.
    + constructor; [|done]. by apply reads_snoc; unfold frame_end; try lia.
    + constructor; [simpl; lia|done].
    + constructor; [done|]. by apply (Forall_impl _ _ _ HF).
  - apply Hpush; [|done]. intros r [->|Hr]%elem_of_cons; [done|]. rewrite Forall_forall in HF. specialize (HF r Hr). simpl in HF. lia.
Qed.

Lemma plan_loop_spec (pack_length max_gap max_window : Z) (es : list PackEntry) (acc acc' : list PlannedRange)
  (gs : list (list PackEntry)) :
  plan_inv pack_length max_gap max_window acc gs -> Forall (fun e => 0 <= frame_offset e /\ 0 <= frame_length e) es ->
  plan_loop pack_length max_gap max_window es acc = Ok acc' ->
  exists gs', plan_inv pack_length max_gap max_window acc' gs' /\ concat (reverse gs') = concat (reverse gs) ++ es.
Proof.
  revert acc gs. induction es as [|e es IH]; intros acc gs HI HF H; cbn [plan_loop] in H.
  - apply Ok_inj in H as <-. exists gs. by rewrite app_nil_r.
  - apply bind_Ok_inv in H as (acc1 & Hs & H). inversion_clear HF as [|? ? [H0 H1] HF'].
    destruct (plan_step_spec _ _ _ e acc acc1 gs HI H0 H1 Hs) as (gs1 & HI1 & Hc1).
    destruct (IH acc1 gs1 HI1 HF' H) as (gs' & HI' & Hc). exists gs'. split; [done|]. rewrite Hc, Hc1, <- app_assoc. done.
Qed.

Lemma plan_inv_nil (pack_length max_gap max_window : Z) : plan_inv pack_length max_gap max_window [] [].
Proof. constructor; constructor. Qed.

(** A range plan reads every frame exactly once.  A successful plan splits
    the frames, in offset order, into consecutive groups, one per planned
    range: the range starts at its first frame, ends at its last, contains
    each of them, lists their page hashes in order, never spans more than the
    window and never reads across a gap larger than the gap bound.  The ranges
    are disjoint, in increasing order and inside the pack. *)
Theorem plan_ranges_partition (es : list PackEntry) (pack_length max_gap max_window : Z) (rs : list PlannedRange) :
  Forall (fun e => 0 <= frame_offset e /\ 0 <= frame_length e) es ->
  plan_ranges es pack_length max_gap max_window = Ok rs ->
  (exists groups, concat groups = sort_by_key frame_offset es /\ Forall2 (reads max_gap max_window) rs groups) /\
  StronglySorted (fun r r' => start (pr_range r) + len (pr_range r) <= start (pr_range r')) rs /\
  Forall (fun r => 0 <= start (pr_range r) /\ start (pr_range r) + len (pr_range r) <= pack_length) rs /\
  concat (map pr_pages rs) ≡ₚ map pk_page_hash es.
Proof.
  intros HF H. unfold plan_ranges in H. destruct (max_window =? 0); [done|].
  apply bind_Ok_inv in H as (acc & Hl & H). apply Ok_inj in H as <-.
  assert (HF' : Forall (fun e => 0 <= frame_offset e /\ 0 <= frame_length e) (sort_by_key frame_offset es))
    by (by rewrite sort_by_key_perm).
  destruct (plan_loop_spec _ _ _ _ _ _ _ (plan_inv_nil pack_length max_gap max_window) HF' Hl) as (gs & [HR HB HO] & Hc).
  apply Forall2_reverse_l in HR. split_and!.
  - by exists (reverse gs).
  - by apply StronglySorted_reverse.
  - apply Forall_reverse. apply (Forall_impl _ _ _ HB). naive_solver.
  - rewrite <- (sort_by_key_perm frame_offset es). rewrite reverse_nil in Hc. simpl in Hc. rewrite <- Hc.
    clear - HR. revert HR. generalize (reverse acc), (reverse gs). intros ranges groups HR.
    induction HR as [|r g rs gl Hr HR IH]; [done|]. simpl. rewrite map_app, IH. by rewrite (rd_pages _ _ _ _ Hr).
Qed.

(** ** When a plan exists *)
Definition no_overlap (es : list PackEntry) : Prop :=
  forall l a b k, sort_by_key frame_offset es = l ++ a :: b :: k -> frame_end a <= frame_offset b.

(** The newest range ends where the last planned frame ended. *)
Definition ends_at (acc : list PlannedRange) (prev : option PackEntry) : Prop :=
  match acc, prev with
  | [], None => True
  | r :: _, Some e => start (pr_range r) + len (pr_range r) = frame_end e /\ 0 <= start (pr_range r) <= frame_offset e
  | _, _ => False
  end.

Lemma plan_step_accepts (pack_length max_gap max_window : Z) (e : PackEntry) (acc : list PlannedRange) (prev : option PackEntry) :
  frame_fits pack_length max_window e -> ends_at acc prev ->
  (forall p, prev = Some p -> 0 < frame_length p /\ frame_end p <= frame_offset e /\ frame_end p <= u64_max) ->
  exists acc', plan_step pack_length max_gap max_window e acc = Ok acc' /\ ends_at acc' (Some e).
Proof.
  intros (H1 & H2 & H3 & H4 & H5) Hend Hp. unfold frame_end in *. unfold plan_step. rewrite checked_add_fits by lia.
  cbn [ok_or mbind result_bind].
  rewrite (proj2 (Z.eqb_neq _ 0)), (proj2 (Z.ltb_ge pack_length _)), (proj2 (Z.ltb_ge max_window _)) by lia. cbn [orb].
  assert (Hpush : exists acc', plan_push e acc = Ok acc' /\ ends_at acc' (Some e)).
  { unfold plan_push, CheckedRange_new. rewrite checked_add_fits by lia. eexists. split; [done|]. simpl. unfold frame_end. lia. }
  destruct acc as [|last rest]; [done|]. destruct prev as [p|]; [|done]. destruct Hend as [Hend Hs].
  destruct (Hp p eq_refl) as (P1 & P2 & P3). unfold frame_end in *.
  rewrite end_exclusive_fits by lia. rewrite (proj2 (Z.ltb_ge _ _)) by lia. rewrite !wsub_u64_small by lia.
  destruct (_ && _); [|done]. unfold CheckedRange_new. rewrite checked_add_fits by lia. eexists. split; [done|].
  simpl. unfold frame_end. lia.
Qed.

Lemma plan_loop_accepts (pack_length max_gap max_window : Z) (es : list PackEntry) (acc : list PlannedRange) (prev : option PackEntry) :
  Forall (frame_fits pack_length max_window) (option_list prev ++ es) -> ends_at acc prev ->
  (forall l a b k, option_list prev ++ es = l ++ a :: b :: k -> frame_end a <= frame_offset b) ->
  exists acc', plan_loop pack_length max_gap max_window es acc = Ok acc'.
Proof.
  revert acc prev. induction es as [|e es IH]; intros acc prev HF Hend Hno; cbn [plan_loop]; [by eexists|].
  apply Forall_app in HF as [HFp HFe]. inversion HFe as [|? ? Hfit HFes]; subst.
  destruct (plan_step_accepts pack_length max_gap max_window e acc prev Hfit Hend) as (acc1 & -> & Hend1).
  { intros p ->. inversion_clear HFp as [|? ? (? & ? & ? & ? & ?) _]. split_and!; [done|by apply (Hno [] p e es)|done]. }
  cbn [mbind result_bind]. apply (IH acc1 (Some e)); [done|done|].
  intros l a b k E. destruct prev as [p|]; simpl in *; [apply (Hno (p :: l) a b k)|apply (Hno l a b k)]; by rewrite E.
Qed.

(** A pack whose frames are laid out properly always gets a plan: with a
    positive window, non-empty frames that lie inside the pack, are no longer
    than the window and do not overlap in offset order are never refused. *)
Theorem plan_ranges_accepts (es : list PackEntry) (pack_length max_gap max_window : Z) :
  max_window <> 0 -> Forall (frame_fits pack_length max_window) es -> no_overlap es ->
  exists rs, plan_ranges es pack_length max_gap max_window = Ok rs.
Proof.
  intros Hw HF Hno. unfold plan_ranges. rewrite (proj2 (Z.eqb_neq _ _) Hw).
  destruct (plan_loop_accepts pack_length max_gap max_window (sort_by_key frame_offset es) [] None) as (acc & ->); [|done|done|by eexists].
  simpl. by rewrite sort_by_key_perm.
Qed.

Definition sample_frames : list PackEntry :=
  [mkPackEntry 7 400 100 30 36 CNone false; mkPackEntry 3 64 100 30 36 CNone false; mkPackEntry 5 164 80 10 16 CNone false].

Lemma plan_ranges_partition_witness :
  exists rs, plan_ranges sample_frames 500 64 1000 = Ok rs /\ map pr_pages rs = [[3; 5]; [7]] /\
    concat (map pr_pages rs) ≡ₚ map pk_page_hash sample_frames.
Proof.
  eexists. split; [vm_compute; reflexivity|]. split; [reflexivity|].
  eapply (plan_ranges_partition sample_frames 500 64 1000); [|vm_compute; reflexivity].
  repeat constructor; simpl; lia.
Defined.

Lemma plan_ranges_accepts_witness : exists rs, plan_ranges sample_frames 500 64 1000 = Ok rs.
Proof.
  apply (plan_ranges_accepts sample_frames 500 64 1000).
  - lia.
  - repeat constructor; unfold frame_fits, frame_end; simpl; mach.
  - intros l a b k E. change (sort_by_key frame_offset sample_frames) with
      [mkPackEntry 3 64 100 30 36 CNone false; mkPackEntry 5 164 80 10 16 CNone false; mkPackEntry 7 400 100 30 36 CNone false] in E.
    destruct l as [|? [|? [|? [|]]]]; simpl in E; simplify_eq; unfold frame_end; simpl; lia.
Defined.
