(* ===== verification/Scheduler.v ===== *)
(** * Fetch scheduler

    [mirage-scheduler/src]: [request.rs], [window.rs], [coalesce.rs],
    [priority.rs], [queue.rs], [backoff.rs], [retry.rs], [controller.rs],
    [validate.rs]; [RemoteObjectRef] is [mirage-backend/src/object.rs] and the
    error classes are [mirage-backend/src/error.rs].

    Cancellation tokens are shared between a request and its waiters: a
    request holds a token id and the set of cancelled ids is passed along.
    The binary heap is the list of its elements; [heap_pop] takes a greatest
    one (the request order is strict when sequence numbers differ). *)
From S2P Require Export Ranges Ledger.

(** ** Requests *)
Inductive FetchPriority : Set :=
| P0Blocking | P1Mandatory | P2Capsule | P3Frontier | P4ReadAhead | P5IdleWarm | P6Maintenance.
Definition FetchPriority_u8 (p : FetchPriority) : Z :=
  match p with
  | P0Blocking => 0 | P1Mandatory => 1 | P2Capsule => 2 | P3Frontier => 3
  | P4ReadAhead => 4 | P5IdleWarm => 5 | P6Maintenance => 6
  end.
#[export] Instance FetchPriority_eq_dec : EqDecision FetchPriority.
Proof. solve_decision. Defined.
Definition speculative (p : FetchPriority) : bool :=
  match p with P3Frontier | P4ReadAhead | P5IdleWarm | P6Maintenance => true | _ => false end.
(** [Ord::min] on the derived order. *)
Definition priority_min (a b : FetchPriority) : FetchPriority :=
  if FetchPriority_u8 b <? FetchPriority_u8 a then b else a.

Inductive ObjectKind : Set := KRepositoryConfig | KPack | KManifest | KCommit | KProfile | KPayload.
#[export] Instance ObjectKind_eq_dec : EqDecision ObjectKind.
Proof. solve_decision. Defined.

Record RemoteObjectRef : Set := mkRemote {
  ro_backend_id : string; ro_provider_object_id : string; ro_immutable_revision : option string;
  ro_byte_length : Z; ro_content_hash : Hash; ro_kind : ObjectKind
}.
#[export] Instance RemoteObjectRef_eq_dec : EqDecision RemoteObjectRef.
Proof. solve_decision. Defined.

Record PageRequest : Set := mkPageRequest { pq_hash : Hash; pq_encoded_range : CheckedRange; pq_logical_length : Z }.

Record FetchRequest : Set := mkRequest {
  fr_pages : list PageRequest; fr_object : RemoteObjectRef; fr_priority : FetchPriority;
  fr_deadline_ns : Z; fr_sequence : Z; fr_cancellation : Z; fr_budget : option BudgetReservation
}.

(** ** Coalescing *)
Record WindowFrame : Set := mkFrame { wf_page_hash : Hash; wf_object : RemoteObjectRef; wf_range : CheckedRange; wf_priority : FetchPriority }.
Record FrameMapping : Set := mkMapping { fm_page_hash : Hash; window_offset : Z; encoded_length : Z }.
Record FetchWindow : Set := mkWindow {
  fw_object : RemoteObjectRef; fw_range : CheckedRange; fw_priority : FetchPriority;
  fw_frames : list FrameMapping; gap_bytes : Z
}.

Definition compatible (a b : FetchPriority) : bool :=
  Bool.eqb (FetchPriority_u8 a <=? FetchPriority_u8 P2Capsule) (FetchPriority_u8 b <=? FetchPriority_u8 P2Capsule).

(** The comparator of the sort, as "not greater". *)
Definition frame_le (a b : WindowFrame) : bool :=
  match String.compare (ro_provider_object_id (wf_object a)) (ro_provider_object_id (wf_object b)) with
  | Lt => true
  | Gt => false
  | Eq => if start (wf_range a) =? start (wf_range b) then wf_page_hash a <=? wf_page_hash b
          else start (wf_range a) <? start (wf_range b)
  end.

Definition can_join (max_encoded_bytes max_gap_bytes : Z) (w : FetchWindow) (f : WindowFrame) : bool :=
  let gap := saturating_sub (start (wf_range f)) (end_exclusive (fw_range w)) in
  bool_decide (fw_object w = wf_object f)
  && (end_exclusive (fw_range w) <=? start (wf_range f))
  && (gap <=? max_gap_bytes)
  && (saturating_sub (end_exclusive (wf_range f)) (start (fw_range w)) <=? max_encoded_bytes)
  && compatible (fw_priority w) (wf_priority f).

Definition join_window (w : FetchWindow) (f : WindowFrame) : result FetchWindow :=
  let gap := start (wf_range f) -! end_exclusive (fw_range w) in
  r ← CheckedRange_from_start_and_end (start (fw_range w)) (end_exclusive (wf_range f));
  Ok (mkWindow (fw_object w) r (priority_min (fw_priority w) (wf_priority f))
        (fw_frames w ++ [mkMapping (wf_page_hash f) (start (wf_range f) -! start (fw_range w)) (len (wf_range f))])
        (gap_bytes w +! gap)).

Definition new_window (f : WindowFrame) : FetchWindow :=
  mkWindow (wf_object f) (wf_range f) (wf_priority f) [mkMapping (wf_page_hash f) 0 (len (wf_range f))] 0.

(** One frame; the windows are kept newest first. *)
Definition coalesce_step (max_encoded_bytes max_gap_bytes : Z) (f : WindowFrame) (ws : list FetchWindow) : result (list FetchWindow) :=
  if is_empty (wf_range f) || (ro_byte_length (wf_object f) <? end_exclusive (wf_range f)) || (max_encoded_bytes <? len (wf_range f))
  then Err (invalid_argument "frame range is outside coalescer bounds") else
  match ws with
  | w :: rest =>
      if can_join max_encoded_bytes max_gap_bytes w f then w' ← join_window w f; Ok (w' :: rest)
      else Ok (new_window f :: ws)
  | [] => Ok [new_window f]
  end.

Fixpoint coalesce_frames_loop (max_encoded_bytes max_gap_bytes : Z) (fs : list WindowFrame) (ws : list FetchWindow) : result (list FetchWindow) :=
  match fs with
  | [] => Ok ws
  | f :: fs => ws' ← coalesce_step max_encoded_bytes max_gap_bytes f ws; coalesce_frames_loop max_encoded_bytes max_gap_bytes fs ws'
  end.

Definition coalesce_frames (fs : list WindowFrame) (max_encoded_bytes max_gap_bytes : Z) : result (list FetchWindow) :=
  if max_encoded_bytes =? 0 then Err (invalid_argument "fetch window maximum is zero") else
  ws ← coalesce_frames_loop max_encoded_bytes max_gap_bytes (sort_by frame_le fs) [];
  Ok (reverse ws).

Definition exact_body (requested returned : CheckedRange) (body : list Z) (maximum : Z) : result (list Z) :=
  if negb (bool_decide (requested = returned)) || negb (Z.of_nat (length body) =? len requested) || (maximum <? len requested)
  then Err (integrity_mismatch "backend response range or length is not exact") else Ok body.

(** ** Priority queue *)
(** [Queued::cmp]: [a] is at most as urgent as [b]. *)
Definition queued_le (a b : FetchRequest) : bool :=
  let pa := FetchPriority_u8 (fr_priority a) in let pb := FetchPriority_u8 (fr_priority b) in
  if pa =? pb then
    if fr_deadline_ns a =? fr_deadline_ns b then fr_sequence b <=? fr_sequence a
    else fr_deadline_ns b <? fr_deadline_ns a
  else pb <? pa.

(** [BinaryHeap::pop]. *)
Fixpoint heap_max (best : FetchRequest) (rest q : list FetchRequest) : FetchRequest * list FetchRequest :=
  match q with
  | [] => (best, rest)
  | r :: q => if queued_le r best then heap_max best (r :: rest) q else heap_max r (best :: rest) q
  end.
Definition heap_pop (q : list FetchRequest) : option (FetchRequest * list FetchRequest) :=
  match q with [] => None | r :: q => Some (heap_max r [] q) end.

Definition PriorityQueue_push (q : list FetchRequest) (r : FetchRequest) : list FetchRequest := r :: q.

(** The loop drops cancelled requests; each round shortens the heap. *)
Fixpoint pop_loop (fuel : nat) (cancelled : gset Z) (q : list FetchRequest) : option FetchRequest * list FetchRequest :=
  match fuel with
  | O => (None, q)
  | S fuel =>
      match heap_pop q with
      | None => (None, q)
      | Some (r, q') => if bool_decide (fr_cancellation r ∈ cancelled) then pop_loop fuel cancelled q' else (Some r, q')
      end
  end.
Definition PriorityQueue_pop (cancelled : gset Z) (q : list FetchRequest) : option FetchRequest * list FetchRequest :=
  pop_loop (S (length q)) cancelled q.

Definition promote_one (hash : Hash) (priority : FetchPriority) (deadline_ns : Z) (r : FetchRequest) : bool * FetchRequest :=
  if existsb (fun p => pq_hash p =? hash) (fr_pages r) && (FetchPriority_u8 priority <? FetchPriority_u8 (fr_priority r))
  then (true, mkRequest (fr_pages r) (fr_object r) priority (Z.min (fr_deadline_ns r) deadline_ns) (fr_sequence r)
                (fr_cancellation r) (fr_budget r))
  else (false, r).
Definition promote_page (q : list FetchRequest) (hash : Hash) (priority : FetchPriority) (deadline_ns : Z) : bool * list FetchRequest :=
  let rs := map (promote_one hash priority deadline_ns) q in
  (existsb fst rs, map snd rs).

(** ** Bounded scheduler queue *)
Record QueueMetrics : Set := mkQueueMetrics { dropped_speculative : Z; cancelled_before_dequeue : Z }.
Record SchedulerQueue : Set := mkQueue { sq_queue : list FetchRequest; sq_capacity : Z; sq_metrics : QueueMetrics }.
Definition SchedulerQueue_new (capacity : Z) : SchedulerQueue := mkQueue [] capacity (mkQueueMetrics 0 0).

Definition enqueue (s : SchedulerQueue) (cancelled : gset Z) (r : FetchRequest) : bool * SchedulerQueue * gset Z :=
  if (sq_capacity s <=? Z.of_nat (length (sq_queue s))) && speculative (fr_priority r)
  then (false,
        mkQueue (sq_queue s) (sq_capacity s)
          (mkQueueMetrics (dropped_speculative (sq_metrics s) +! 1) (cancelled_before_dequeue (sq_metrics s))),
        {[ fr_cancellation r ]} ∪ cancelled)
  else (true, mkQueue (PriorityQueue_push (sq_queue s) r) (sq_capacity s) (sq_metrics s), cancelled).

Definition dequeue (s : SchedulerQueue) (cancelled : gset Z) : option FetchRequest * SchedulerQueue :=
  let before := Z.of_nat (length (sq_queue s)) in
  let '(item, q) := PriorityQueue_pop cancelled (sq_queue s) in
  let skipped := saturating_sub before (Z.of_nat (length q) + (if item then 1 else 0)) in
  (item, mkQueue q (sq_capacity s)
    (mkQueueMetrics (dropped_speculative (sq_metrics s)) (cancelled_before_dequeue (sq_metrics s) +! skipped))).

Definition promote (s : SchedulerQueue) (hash : Hash) (deadline_ns : Z) : bool * SchedulerQueue :=
  let '(b, q) := promote_page (sq_queue s) hash P0Blocking deadline_ns in (b, mkQueue q (sq_capacity s) (sq_metrics s)).

(** ** Retry policy ([Duration]s in nanoseconds) *)
Definition Jitter_new (seed : Z) : Z := if seed =? 0 then 1 else seed.
Definition xorshift (s : Z) : Z :=
  let s := Z.lxor s (as_u64 (Z.shiftl s 13)) in
  let s := Z.lxor s (Z.shiftr s 7) in
  Z.lxor s (as_u64 (Z.shiftl s 17)).
Definition u128_max : Z := 340282366920938463463374607431768211455.
Definition ms : Z := 1000000.
Definition delay (state attempt base cap : Z) : Z * Z :=
  let state := xorshift state in
  let ceiling := Z.min (Z.min (base / ms * Z.shiftl 1 (Z.min attempt 20)) u128_max) (cap / ms) in
  if ceiling =? 0 then (0, state) else (state mod (ceiling + 1) * ms, state).

Inductive BackendErrorClass : Set :=
| Authentication | Permission | RateLimit | Missing | TransientTransport | Integrity | Unsupported | Permanent.
Inductive RetryDecision : Set := RetryAfter (wait : Z) | Stop.

Definition retry_limits (class : FetchPriority) : Z * Z :=
  if decide (class = P0Blocking) then (3, 2000 * ms) else if speculative class then (5, 30000 * ms) else (6, 60000 * ms).
Definition retryable (e : BackendErrorClass) : bool :=
  match e with RateLimit | TransientTransport => true | _ => false end.

Definition retry_decide (jitter : Z) (class : FetchPriority) (attempt elapsed : Z) (error : BackendErrorClass)
  (retry_after : option Z) : RetryDecision * Z :=
  let '(max_attempts, max_elapsed) := retry_limits class in
  if negb (retryable error) || (max_attempts <=? attempt) || (max_elapsed <=? elapsed) then (Stop, jitter)
  else let '(j, state) := delay jitter attempt (50 * ms) (5000 * ms) in
       (RetryAfter (Z.max (default j retry_after) j), state).

(** ** Concurrency controller *)
Record ControllerInput : Set := mkControllerInput {
  ci_ttfb_ms : Z; ci_throughput : Z; ci_error : bool; ci_rate_limited : bool; ci_active_p0 : Z; ci_cache_write_depth : Z
}.
Record ControllerRecommendation : Set := mkRecommendation { cr_concurrency : Z; cr_window_bytes : Z; cr_speculation_paused : bool }.
Record ConcurrencyController : Set := mkController {
  cc_samples : Z; cc_ttfb_ewma : Z; cc_throughput_ewma : Z; cc_concurrency : Z; cc_min : Z; cc_max : Z; cc_window : Z
}.
Definition ConcurrencyController_new (min max initial_window : Z) : ConcurrencyController :=
  mkController 0 0 0 min min max initial_window.
Definition ewma (old new samples : Z) : Z :=
  if samples =? 1 then new else saturating_add (saturating_mul old 7) new / 8.

Definition observe (c : ConcurrencyController) (i : ControllerInput) : ControllerRecommendation * ConcurrencyController :=
  let samples := saturating_add_u32 (cc_samples c) 1 in
  let ttfb := ewma (cc_ttfb_ewma c) (ci_ttfb_ms i) samples in
  let throughput := ewma (cc_throughput_ewma c) (ci_throughput i) samples in
  let constrained := ci_rate_limited i || ci_error i || (saturating_mul_u32 (cc_concurrency c) 2 <? ci_cache_write_depth i) in
  let '(concurrency, window) :=
    if constrained then (Z.max (saturating_sub (cc_concurrency c) 1) (cc_min c), Z.max (cc_window c / 2) 65536)
    else if (8 <=? samples) && (0 <? ci_active_p0 i) && (1048576 <? throughput)
    then (Z.min (saturating_add_u32 (cc_concurrency c) 1) (cc_max c), Z.min (saturating_add (cc_window c) 65536) 33554432)
    else (cc_concurrency c, cc_window c) in
  (mkRecommendation concurrency window (ci_rate_limited i || ((0 <? ci_active_p0 i) && (concurrency =? cc_min c))),
   mkController samples ttfb throughput concurrency (cc_min c) (cc_max c) window).

(** ** Coalescing is sound *)
Definition frame_ok (max_encoded_bytes : Z) (f : WindowFrame) : Prop :=
  0 <= start (wf_range f) /\ 0 < len (wf_range f) <= max_encoded_bytes /\
  start (wf_range f) + len (wf_range f) <= ro_byte_length (wf_object f) /\ start (wf_range f) + len (wf_range f) <= u64_max.

Definition mapping_of (w : FetchWindow) (f : WindowFrame) : FrameMapping :=
  mkMapping (wf_page_hash f) (start (wf_range f) - start (fw_range w)) (len (wf_range f)).

(** [w] fetches the frames [g]. *)
Record fetches (max_encoded_bytes : Z) (w : FetchWindow) (g : list WindowFrame) : Prop := {
  ft_nonempty : g <> [];
  ft_frames : fw_frames w = map (mapping_of w) g;
  ft_inside : Forall (fun f => wf_object f = fw_object w /\ 0 < len (wf_range f) /\ start (fw_range w) <= start (wf_range f) /\
     start (wf_range f) + len (wf_range f) <= start (fw_range w) + len (fw_range w)) g;
  ft_disjoint : StronglySorted (fun f f' => start (wf_range f) + len (wf_range f) <= start (wf_range f')) g;
  ft_window : 0 <= start (fw_range w) /\ 0 < len (fw_range w) <= max_encoded_bytes;
  ft_object : start (fw_range w) + len (fw_range w) <= ro_byte_length (fw_object w) /\ start (fw_range w) + len (fw_range w) <= u64_max;
  ft_gap : gap_bytes w = len (fw_range w) - sumZ (fun f => len (wf_range f)) g /\ 0 <= gap_bytes w;
  ft_priority : Forall (fun f => FetchPriority_u8 (fw_priority w) <= FetchPriority_u8 (wf_priority f)) g /\
     exists f, f ∈ g /\ fw_priority w = wf_priority f;
  ft_class : Forall (fun f => speculative (wf_priority f) = speculative (fw_priority w)) g
}.

Lemma compatible_class (a b : FetchPriority) : compatible a b = true -> speculative a = speculative b.
Proof. by destruct a, b. Qed.

Lemma fetches_new (mx : Z) (f : WindowFrame) : frame_ok mx f -> fetches mx (new_window f) [f].
Proof.
  intros (H1 & H2 & H3 & H4). constructor; simpl; try done; try lia.
  - unfold mapping_of. simpl. by rewrite Z.sub_diag.
  - repeat constructor; lia.
  - repeat constructor.
  - split; [repeat constructor; lia|]. exists f. split; [by apply list_elem_of_singleton|done].
  - by repeat constructor.
Qed.

(** Joining a frame behind the window. *)
Lemma fetches_join (mx mg : Z) (w : FetchWindow) (g : list WindowFrame) (f : WindowFrame) :
  fetches mx w g -> frame_ok mx f -> can_join mx mg w f = true ->
  exists w', join_window w f = Ok w' /\ fetches mx w' (g ++ [f]) /\
    start (fw_range w') = start (fw_range w) /\ fw_object w' = fw_object w.
Proof.
  intros [Fn Ff Fi Fd Fw Fo Fg Fp Fc] (H1 & H2 & H3 & H4) HJ. unfold can_join in HJ.
  rewrite !end_exclusive_fits in HJ by lia. zbool.
  match goal with H : bool_decide _ = true |- _ => apply bool_decide_eq_true in H; rename H into Hobj end.
  match goal with H : compatible _ _ = true |- _ => apply compatible_class in H; rename H into Hcls end.
  unfold saturating_sub in *. set (s := start (fw_range w)) in *. set (e := start (wf_range f) + len (wf_range f)) in *.
  assert (Hmax : e - s <= mx) by lia.
  unfold join_window, CheckedRange_from_start_and_end, CheckedRange_new. rewrite !end_exclusive_fits by lia. fold s e.
  rewrite (proj2 (Z.ltb_ge e s)), checked_add_fits by lia. cbn [mbind result_bind]. eexists. split; [done|].
  assert (0 <= sumZ (fun f => len (wf_range f)) g)
    by (apply sumZ_nonneg; apply (Forall_impl _ _ _ Fi); simpl; lia).
  rewrite !wsub_u64_small by lia. rewrite wadd_u64_small by (destruct Fg; lia).
  split; [|by split]. constructor; simpl; try done.
  - intros E. apply app_nil in E as [_ E]. discriminate E.
  - by rewrite Ff, map_app.
  - apply Forall_app. split; [|apply Forall_singleton; split_and!; [done|lia..]].
    apply (Forall_impl _ _ _ Fi). intros x (? & ? & ? & ?). simpl. split_and!; [done|done|done|lia].
  - apply StronglySorted_snoc; [done|]. apply (Forall_impl _ _ _ Fi). intros x (? & ? & ? & ?). simpl. lia.
  - lia.
  - rewrite Hobj. lia.
  - rewrite sumZ_app. simpl. lia.
  - destruct Fp as [Fp (x & Hx & Ex)]. unfold priority_min. destruct (Z.ltb_spec (FetchPriority_u8 (wf_priority f)) (FetchPriority_u8 (fw_priority w))).
    + split; [|exists f; split; [apply elem_of_app; right; by apply list_elem_of_singleton|done]].
      apply Forall_app. split; [|apply Forall_singleton; lia]. apply (Forall_impl _ _ _ Fp). simpl. lia.
    + split; [apply Forall_app; split; [done|apply Forall_singleton; lia]|]. exists x. split; [apply elem_of_app; by left|done].
  - apply Forall_app. unfold priority_min. destruct (_ <? _); (split; [|by apply Forall_singleton]); [|done].
    apply (Forall_impl _ _ _ Fc). intros x ->. done.
Qed.

Definition range_u64 (f : WindowFrame) : Prop :=
  0 <= start (wf_range f) /\ 0 <= len (wf_range f) /\ start (wf_range f) + len (wf_range f) <= u64_max.

Lemma coalesce_step_spec (mx mg : Z) (f : WindowFrame) (ws : list FetchWindow) (gs : list (list WindowFrame)) :
  Forall2 (fetches mx) ws gs -> range_u64 f ->
  match coalesce_step mx mg f ws with
  | Ok ws' => frame_ok mx f /\ exists gs', Forall2 (fetches mx) ws' gs' /\ concat (reverse gs') = concat (reverse gs) ++ [f]
  | Err _ => ~ frame_ok mx f
  end.
Proof.
  intros HF (R1 & R2 & R3). unfold coalesce_step, is_empty. rewrite end_exclusive_fits by done.
  destruct (_ || _ || _) eqn:E.
  - intros (H1 & H2 & H3 & H4). apply orb_true_iff in E as [E|E]; [apply orb_true_iff in E as [E|E]|]; zbool; lia.
  - zbool. assert (Hok : frame_ok mx f) by (unfold frame_ok; lia).
    assert (Hnew : exists gs', Forall2 (fetches mx) (new_window f :: ws) gs' /\ concat (reverse gs') = concat (reverse gs) ++ [f]).
    { exists ([f] :: gs). rewrite reverse_cons, concat_app. split; [|done]. constructor; [by apply fetches_new|done]. }
    destruct ws as [|w ws]; [done|]. destruct (can_join mx mg w f) eqn:EJ; [|done].
    inversion HF as [|? g ? gs0 Hw Hrest]; subst. destruct (fetches_join mx mg w g f Hw Hok EJ) as (w' & -> & Hw' & _).
    cbn [mbind result_bind]. split; [done|]. exists ((g ++ [f]) :: gs0). split; [by constructor|].
    rewrite !reverse_cons, !concat_app. simpl. by rewrite !app_nil_r, app_assoc.
Qed.

Lemma coalesce_frames_loop_spec (mx mg : Z) (fs : list WindowFrame) (ws : list FetchWindow) (gs : list (list WindowFrame)) :
  Forall2 (fetches mx) ws gs -> Forall range_u64 fs ->
  match coalesce_frames_loop mx mg fs ws with
  | Ok ws' => Forall (frame_ok mx) fs /\
      exists gs', Forall2 (fetches mx) ws' gs' /\ concat (reverse gs') = concat (reverse gs) ++ fs
  | Err _ => ~ Forall (frame_ok mx) fs
  end.
Proof.
  revert ws gs. induction fs as [|f fs IH]; intros ws gs HF HR; cbn [coalesce_frames_loop].
  - split; [constructor|]. exists gs. by rewrite app_nil_r.
  - inversion_clear HR as [|? ? R HR']. pose proof (coalesce_step_spec mx mg f ws gs HF R) as HS.
    destruct (coalesce_step mx mg f ws) as [ws1|]; cbn [mbind result_bind]; [|by rewrite Forall_cons; intros [? _]].
    destruct HS as (Hok & gs1 & HF1 & Hc1). specialize (IH ws1 gs1 HF1 HR').
    destruct (coalesce_frames_loop mx mg fs ws1) as [ws'|]; [|by rewrite Forall_cons; intros [_ ?]].
    destruct IH as (Hoks & gs' & HF' & Hc). split; [by constructor|]. exists gs'. split; [done|].
    by rewrite Hc, Hc1, <- app_assoc.
Qed.

(** Coalescing loses no frame and mixes none up.  For a positive window
    bound the frames are accepted exactly when each is non-empty, inside its
    object and no longer than the bound.  The windows then split the sorted
    frames into consecutive groups: a window reads one object, stays within it
    and within the bound, maps every frame of its group to the right offset
    and length (so cutting the window at the mapping yields the frame's
    range), its frames do not overlap, [gap_bytes] is exactly the bytes it
    reads beyond its frames, its priority is the most urgent one of the group,
    and demand and speculative frames never share a window. *)
Theorem coalesce_windows_sound (fs : list WindowFrame) (mx mg : Z) :
  Forall range_u64 fs -> mx <> 0 ->
  match coalesce_frames fs mx mg with
  | Ok ws => Forall (frame_ok mx) fs /\
      exists groups, concat groups = sort_by frame_le fs /\ concat groups ≡ₚ fs /\ Forall2 (fetches mx) ws groups
  | Err _ => ~ Forall (frame_ok mx) fs
  end.
Proof.
  intros HR Hmx. unfold coalesce_frames. rewrite (proj2 (Z.eqb_neq _ _) Hmx).
  assert (HP : sort_by frame_le fs ≡ₚ fs) by apply sort_by_perm.
  assert (HR' : Forall range_u64 (sort_by frame_le fs)) by (by rewrite HP).
  pose proof (coalesce_frames_loop_spec mx mg (sort_by frame_le fs) [] [] ltac:(constructor) HR') as HS.
  destruct (coalesce_frames_loop mx mg _ []) as [ws|]; cbn [mbind result_bind]; [|by rewrite HP in HS].
  destruct HS as (Hok & gs & HF & Hc). rewrite HP in Hok. split; [done|]. exists (reverse gs).
  rewrite reverse_nil in Hc. simpl in Hc. rewrite Hc. split_and!; [done|done|by apply Forall2_reverse_l].
Qed.

Definition sample_object : RemoteObjectRef := mkRemote "drive" "obj" None 1000 9 KPack.
Definition sample_window_frames : list WindowFrame :=
  [mkFrame 2 sample_object (mkRange 300 50) P1Mandatory; mkFrame 1 sample_object (mkRange 100 150) P2Capsule;
   mkFrame 3 sample_object (mkRange 360 40) P4ReadAhead].

Lemma coalesce_windows_sound_witness :
  exists ws, coalesce_frames sample_window_frames 512 64 = Ok ws /\ map fw_range ws = [mkRange 100 250; mkRange 360 40] /\
    Forall (frame_ok 512) sample_window_frames.
Proof.
  eexists. split; [vm_compute; reflexivity|]. split; [reflexivity|].
  assert (H := coalesce_windows_sound sample_window_frames 512 64 ltac:(repeat constructor; simpl; mach) ltac:(lia)).
  destruct (coalesce_frames sample_window_frames 512 64) as [ws|e] eqn:E; [exact (proj1 H)|].
  exfalso. vm_compute in E. discriminate E.
Defined.

(** ** The queue pops the most urgent request *)
Lemma queued_le_spec (a b : FetchRequest) :
  queued_le a b = true <->
  FetchPriority_u8 (fr_priority b) < FetchPriority_u8 (fr_priority a) \/
  (FetchPriority_u8 (fr_priority a) = FetchPriority_u8 (fr_priority b) /\
   (fr_deadline_ns b < fr_deadline_ns a \/ (fr_deadline_ns a = fr_deadline_ns b /\ fr_sequence b <= fr_sequence a))).
Proof.
  unfold queued_le. destruct (Z.eqb_spec (FetchPriority_u8 (fr_priority a)) (FetchPriority_u8 (fr_priority b))); [|rewrite Z.ltb_lt; lia].
  destruct (Z.eqb_spec (fr_deadline_ns a) (fr_deadline_ns b)); [rewrite Z.leb_le; lia|rewrite Z.ltb_lt; lia].
Qed.
Lemma queued_le_total (a b : FetchRequest) : queued_le a b = false -> queued_le b a = true.
Proof. intros H. rewrite queued_le_spec. pose proof (queued_le_spec a b) as HS. rewrite H in HS. lia. Qed.
Lemma queued_le_trans (a b c : FetchRequest) : queued_le a b = true -> queued_le b c = true -> queued_le a c = true.
Proof. rewrite !queued_le_spec. lia. Qed.
Lemma queued_le_refl (a : FetchRequest) : queued_le a a = true.
Proof. unfold queued_le. rewrite !Z.eqb_refl. apply Z.leb_refl. Qed.

Lemma heap_max_spec (q rest : list FetchRequest) (best : FetchRequest) :
  Forall (fun x => queued_le x best = true) rest ->
  let '(r, q') := heap_max best rest q in
  r :: q' ≡ₚ best :: rest ++ q /\ Forall (fun x => queued_le x r = true) q' /\ queued_le best r = true.
Proof.
  revert rest best. induction q as [|x q IH]; intros rest best HF; simpl; [by rewrite app_nil_r; auto using queued_le_refl|].
  destruct (queued_le x best) eqn:E.
  - specialize (IH (x :: rest) best ltac:(by constructor)). destruct (heap_max best (x :: rest) q) as [r q'].
    destruct IH as (HP & HA & HB). split_and!; [|done|done]. rewrite HP. simpl. by rewrite <- Permutation_middle.
  - apply queued_le_total in E. specialize (IH (best :: rest) x). destruct (heap_max x (best :: rest) q) as [r q'].
    destruct IH as (HP & HA & HB); [constructor; [done|]; apply (Forall_impl _ _ _ HF); intros y Hy; by apply (queued_le_trans y best x)|].
    split_and!; [|done|by apply (queued_le_trans best x r)]. rewrite HP. simpl. rewrite <- Permutation_middle. apply Permutation_swap.
Qed.

Lemma pop_loop_spec (fuel : nat) (cancelled : gset Z) (q : list FetchRequest) :
  (length q < fuel)%nat ->
  exists dropped, Forall (fun x => fr_cancellation x ∈ cancelled) dropped /\
  match pop_loop fuel cancelled q with
  | (Some r, q') => q ≡ₚ r :: dropped ++ q' /\ fr_cancellation r ∉ cancelled /\ Forall (fun x => queued_le x r = true) q'
  | (None, q') => q ≡ₚ dropped /\ q' = []
  end.
Proof.
  revert q. induction fuel as [|fuel IH]; intros q Hf; [lia|]. cbn [pop_loop]. destruct q as [|x q]; [by exists []|].
  cbn [heap_pop]. pose proof (heap_max_spec q [] x ltac:(constructor)) as HS. destruct (heap_max x [] q) as [r q1].
  destruct HS as (HP & HA & _). cbn [app] in HP. pose proof (Permutation_length HP) as HL. cbn [length] in *.
  case_bool_decide as Hc.
  - destruct (IH q1 ltac:(lia)) as (dr & HD & HM). exists (r :: dr). split; [by constructor|].
    destruct (pop_loop fuel cancelled q1) as [[r'|] q'].
    + destruct HM as (HP' & ? & ?). split_and!; [|done|done]. rewrite <- HP, HP'. by rewrite Permutation_swap.
    + destruct HM as (HP' & ->). split; [|done]. by rewrite <- HP, HP'.
  - exists []. split; [constructor|]. by split_and!.
Qed.

(** Dequeue is urgent-first and cancellation-aware.  For every queue and
    set of cancelled tokens, [dequeue] returns an uncancelled request that is
    at least as urgent as everything left (lower priority number, then
    earlier deadline, then lower sequence number); the only other requests it
    removes are cancelled ones, and it counts them; it returns nothing exactly
    when every queued request is cancelled, and the queue is then empty. *)
Theorem dequeue_most_urgent (s : SchedulerQueue) (cancelled : gset Z) :
  0 <= cancelled_before_dequeue (sq_metrics s) ->
  cancelled_before_dequeue (sq_metrics s) + Z.of_nat (length (sq_queue s)) <= u64_max ->
  exists dropped, Forall (fun x => fr_cancellation x ∈ cancelled) dropped /\
  let '(item, s') := dequeue s cancelled in
  cancelled_before_dequeue (sq_metrics s') = cancelled_before_dequeue (sq_metrics s) + Z.of_nat (length dropped) /\
  match item with
  | Some r => sq_queue s ≡ₚ r :: dropped ++ sq_queue s' /\ fr_cancellation r ∉ cancelled /\
      Forall (fun x => queued_le x r = true) (sq_queue s')
  | None => sq_queue s ≡ₚ dropped /\ sq_queue s' = []
  end.
Proof.
  intros H0 HU. destruct (pop_loop_spec (S (length (sq_queue s))) cancelled (sq_queue s) ltac:(lia)) as (dr & HD & HM).
  exists dr. split; [done|]. unfold dequeue, PriorityQueue_pop.
  destruct (pop_loop _ cancelled (sq_queue s)) as [[r|] q']; simpl.
  - destruct HM as (HP & Hc & HA). split; [|done]. pose proof (Permutation_length HP) as HL.
    cbn [length] in HL. rewrite length_app in HL. unfold saturating_sub. rewrite wadd_u64_small by lia. lia.
  - destruct HM as (HP & ->). split; [|done]. pose proof (Permutation_length HP) as HL. unfold saturating_sub.
    rewrite wadd_u64_small by (simpl; lia). simpl. lia.
Qed.

Definition sample_request (p : FetchPriority) (deadline seq token : Z) : FetchRequest :=
  mkRequest [] sample_object p deadline seq token None.
Definition sample_queue : SchedulerQueue :=
  mkQueue [sample_request P3Frontier 5 1 11; sample_request P0Blocking 9 2 12; sample_request P0Blocking 7 3 13] 8 (mkQueueMetrics 0 0).

Lemma dequeue_most_urgent_witness :
  fst (dequeue sample_queue {[13]}) = Some (sample_request P0Blocking 9 2 12) /\
  exists dropped : list FetchRequest, Forall (fun x => fr_cancellation x ∈ ({[13]} : gset Z)) dropped.
Proof.
  split; [vm_compute; reflexivity|].
  destruct (dequeue_most_urgent sample_queue {[13]} ltac:(simpl; lia) ltac:(simpl; mach)) as (d & Hd & _).
  exists d. exact Hd.
Defined.

(** ** Retries stop *)
Lemma xorshift_u64 (s : Z) : 0 <= s < 2 ^ 64 -> 0 <= xorshift s < 2 ^ 64.
Proof.
  assert (Hx : forall a b, 0 <= a < 2 ^ 64 -> 0 <= b < 2 ^ 64 -> 0 <= Z.lxor a b < 2 ^ 64).
  { intros a b Ha Hb. split; [apply Z.lxor_nonneg; lia|].
    destruct (Z.eq_dec (Z.lxor a b) 0) as [->|Hne]; [lia|]. apply Z.log2_lt_pow2; [pose proof (proj2 (Z.lxor_nonneg a b)); lia|].
    eapply Z.le_lt_trans; [apply Z.log2_lxor; lia|]. apply Z.max_lub_lt.
    - destruct (Z.eq_dec a 0) as [->|]; [done|]. apply Z.log2_lt_pow2; lia.
    - destruct (Z.eq_dec b 0) as [->|]; [done|]. apply Z.log2_lt_pow2; lia. }
  assert (Hc : forall a, 0 <= as_u64 a < 2 ^ 64) by (intros a; unfold as_u64; pose proof (Z.mod_pos_bound a (u64_max + 1)); mach).
  intros Hs. unfold xorshift. apply Hx; [|apply Hc]. apply Hx; [by apply Hx|].
  rewrite Z.shiftr_div_pow2 by lia.
  assert (0 <= Z.lxor s (as_u64 (Z.shiftl s 13)) < 2 ^ 64) by (by apply Hx).
  split; [apply Z.div_pos; lia|]. apply Z.div_lt_upper_bound; lia.
Qed.

(** A driver that retries while the policy says so, failing with the errors
    of [errs] and observing [elapsed] at each attempt. *)
Fixpoint retry_run (jitter : Z) (class : FetchPriority) (attempt : Z)
  (errs : list (BackendErrorClass * Z * option Z)) : list Z :=
  match errs with
  | [] => []
  | (e, elapsed, after) :: errs =>
      match retry_decide jitter class attempt elapsed e after with
      | (RetryAfter w, jitter') => w :: retry_run jitter' class (attempt + 1) errs
      | (Stop, _) => []
      end
  end.

Lemma retry_decide_spec (jitter : Z) (class : FetchPriority) (attempt elapsed : Z) (e : BackendErrorClass) (after : option Z) :
  0 <= jitter < 2 ^ 64 -> 0 <= attempt ->
  match retry_decide jitter class attempt elapsed e after with
  | (RetryAfter w, jitter') => retryable e = true /\ attempt < (retry_limits class).1 /\ elapsed < (retry_limits class).2 /\
      default 0 after <= w /\ 0 <= w <= Z.max (5000 * ms) (default 0 after) /\ 0 <= jitter' < 2 ^ 64
  | (Stop, jitter') => (retryable e = false \/ (retry_limits class).1 <= attempt \/ (retry_limits class).2 <= elapsed) /\ jitter' = jitter
  end.
Proof.
  intros Hj Ha. unfold retry_decide. destruct (retry_limits class) as [mx me]. simpl.
  destruct (negb (retryable e) || _ || _) eqn:E.
  - split; [|done]. apply orb_true_iff in E as [E|E]; [apply orb_true_iff in E as [E|E]|]; zbool; auto.
  - zbool. unfold delay. pose proof (xorshift_u64 jitter Hj) as Hx.
    change (50 * ms / ms) with 50. change (5000 * ms / ms) with 5000.
    assert (Hsh : 1 <= Z.shiftl 1 (Z.min attempt 20)) by (rewrite Z.shiftl_1_l; pose proof (Z.pow_pos_nonneg 2 (Z.min attempt 20)); lia).
    set (c := Z.min (Z.min (50 * Z.shiftl 1 (Z.min attempt 20)) u128_max) 5000).
    assert (Hc : 1 <= c <= 5000) by (unfold c, u128_max; lia). rewrite (proj2 (Z.eqb_neq _ _)) by lia.
    pose proof (Z.mod_pos_bound (xorshift jitter) (c + 1) ltac:(lia)). unfold ms in *. destruct after; simpl; (split; [done|lia]).
Qed.

(** Retrying terminates and backs off within bounds.  Whatever errors a
    backend returns, the number of retries is at most the class's attempt
    limit (3 for blocking reads, 5 for speculative work, 6 otherwise); every
    wait is at least the server's retry-after hint and at most five seconds or
    that hint; and a non-retryable error is never retried. *)
Theorem retry_terminates (jitter : Z) (class : FetchPriority) (errs : list (BackendErrorClass * Z * option Z)) :
  0 <= jitter < 2 ^ 64 -> Forall (fun x => 0 <= default 0 x.2) errs ->
  let waits := retry_run jitter class 0 errs in
  Z.of_nat (length waits) <= (retry_limits class).1 <= 6 /\
  Forall2 (fun w x => default 0 x.2 <= w <= Z.max (5000 * ms) (default 0 x.2) /\ retryable x.1.1 = true) waits (take (length waits) errs).
Proof.
  intros Hj HF waits.
  assert (Hgen : forall errs jitter attempt, 0 <= jitter < 2 ^ 64 -> 0 <= attempt ->
    (attempt <= (retry_limits class).1 -> attempt + Z.of_nat (length (retry_run jitter class attempt errs)) <= (retry_limits class).1) /\
    Forall2 (fun w x => default 0 x.2 <= w <= Z.max (5000 * ms) (default 0 x.2) /\ retryable x.1.1 = true)
      (retry_run jitter class attempt errs) (take (length (retry_run jitter class attempt errs)) errs)).
  { clear. induction errs as [|[[e el] af] errs IH]; intros j a Hj Ha; simpl; [split; [lia|constructor]|].
    pose proof (retry_decide_spec j class a el e af Hj Ha) as HS. destruct (retry_decide j class a el e af) as [[w|] j'].
    - destruct HS as (H1 & H2 & H3 & H4 & H5 & H6). destruct (IH j' (a + 1) H6 ltac:(lia)) as [IH1 IH2]. simpl. split; [lia|].
      constructor; [simpl; split; [lia|done]|done].
    - simpl. split; [lia|constructor]. }
  destruct (Hgen errs jitter 0 Hj ltac:(lia)) as [H1 H2]. split; [|done].
  assert (0 <= (retry_limits class).1 <= 6) by (unfold retry_limits; case_decide; [|destruct (speculative class)]; simpl; lia).
  split; [|lia]. apply H1. lia.
Qed.

Lemma retry_terminates_witness :
  let errs := [(RateLimit, 0, Some (7000 * ms)); (TransientTransport, 10, None); (RateLimit, 20, None); (RateLimit, 30, None)] in
  length (retry_run (Jitter_new 0) P0Blocking 0 errs) = 3%nat /\
  Z.of_nat (length (retry_run (Jitter_new 0) P0Blocking 0 errs)) <= 3.
Proof.
  intros errs. split; [vm_compute; reflexivity|].
  apply (retry_terminates (Jitter_new 0) P0Blocking errs); [vm_compute; split; [discriminate|reflexivity]|].
  repeat constructor; simpl; unfold ms; lia.
Defined.

(** ** The controller stays within its limits *)
Definition controller_ok (c : ConcurrencyController) : Prop :=
  0 <= cc_min c <= cc_max c /\ cc_max c <= u32_max /\ cc_min c <= cc_concurrency c <= cc_max c /\
  65536 <= cc_window c <= 33554432.

Definition observe_all (c : ConcurrencyController) (inputs : list ControllerInput) : ConcurrencyController :=
  foldl (fun c i => (observe c i).2) c inputs.

Lemma observe_ok (c : ConcurrencyController) (i : ControllerInput) :
  controller_ok c ->
  let '(r, c') := observe c i in
  controller_ok c' /\ cr_concurrency r = cc_concurrency c' /\ cr_window_bytes r = cc_window c' /\
  cc_min c' = cc_min c /\ cc_max c' = cc_max c /\ cc_concurrency c - 1 <= cc_concurrency c' <= cc_concurrency c + 1 /\
  ((ci_rate_limited i = true \/ ci_error i = true) -> cc_concurrency c' <= cc_concurrency c /\ cc_window c' <= cc_window c).
Proof.
  intros (H1 & H2 & H3 & H4). unfold observe, controller_ok. cbv zeta.
  destruct (ci_rate_limited i || ci_error i || _) eqn:E.
  - simpl. pose proof (Z.div_le_upper_bound (cc_window c) 2 (cc_window c)). pose proof (Z.div_pos (cc_window c) 2).
    unfold saturating_sub. split_and!; try done; lia.
  - apply orb_false_iff in E as [E _]. apply orb_false_iff in E as [-> ->].
    destruct (_ && _ && _); simpl; unfold saturating_add_u32, saturating_add; split_and!; try done; try lia;
      try (intros [?|?]; done); mach.
Qed.

(** The concurrency controller never leaves its limits.  Started with
    ordered limits and a window between 64 KiB and 32 MiB, after any sequence
    of observations the recommended concurrency lies between the configured
    minimum and maximum and the window between 64 KiB and 32 MiB; one
    observation moves the concurrency by at most one, and a rate-limited or
    failed observation never raises either. *)
Theorem controller_within_limits (min max window : Z) (inputs : list ControllerInput) (i : ControllerInput) :
  0 <= min <= max -> max <= u32_max -> 65536 <= window <= 33554432 ->
  let c := observe_all (ConcurrencyController_new min max window) inputs in
  let '(r, c') := observe c i in
  min <= cr_concurrency r <= max /\ 65536 <= cr_window_bytes r <= 33554432 /\
  cc_concurrency c - 1 <= cr_concurrency r <= cc_concurrency c + 1 /\
  ((ci_rate_limited i = true \/ ci_error i = true) -> cr_concurrency r <= cc_concurrency c /\ cr_window_bytes r <= cc_window c).
Proof.
  intros H1 H2 H3.
  assert (Hgen : forall inputs c, controller_ok c -> controller_ok (observe_all c inputs) /\ cc_min (observe_all c inputs) = cc_min c /\ cc_max (observe_all c inputs) = cc_max c).
  { clear. induction inputs as [|i inputs IH]; intros c HK; [done|]. cbn [observe_all foldl].
    pose proof (observe_ok c i HK) as HO. destruct (observe c i) as [r c']. destruct HO as (HK' & _ & _ & Hmin & Hmax & _).
    destruct (IH c' HK') as (? & ? & ?). unfold observe_all in *. simpl. split_and!; [done|congruence..]. }
  destruct (Hgen inputs (ConcurrencyController_new min max window)) as (HK & Hmin & Hmax); [unfold controller_ok; simpl; lia|].
  intros c. fold c in HK, Hmin, Hmax. pose proof (observe_ok c i HK) as HO. destruct (observe c i) as [r c'].
  destruct HO as ((K1 & K2 & K3 & K4) & -> & -> & Em & Ex & Hd & Hdown). simpl in Hmin, Hmax. split_and!; try lia; done.
Qed.

Lemma controller_within_limits_witness :
  let c := observe_all (ConcurrencyController_new 1 4 65536) (replicate 12 (mkControllerInput 5 9000000 false false 1 0)) in
  cc_concurrency c = 4 /\ 1 <= cr_concurrency (observe c (mkControllerInput 5 1 true false 1 0)).1 <= 4.
Proof.
  split; [vm_compute; reflexivity|].
  pose proof (controller_within_limits 1 4 65536 (replicate 12 (mkControllerInput 5 9000000 false false 1 0))
    (mkControllerInput 5 1 true false 1 0) ltac:(lia) ltac:(mach) ltac:(lia)) as H.
  exact (proj1 H).
Defined.
