(* ===== verification/Recency.v ===== *)
(** * Segmented recency lists

    [mirage-cache/src/segments.rs] (with the events of [recency.rs]): four
    intrusive doubly-linked lists over one node map, most recently used slot
    first.  A failed [.expect] is [Panic].

    The specification keeps the four lists as lists.  The refinement shows
    that the pointer updates implement it: no operation panics, the links stay
    consistent, and the victim is the least recently used slot of the first
    non-empty segment in eviction order. *)
From S2P Require Export Errors.

(** ** Data *)
Inductive Segment : Set := Window | Probationary | Protected | PrefetchedUnused | Detached.
#[export] Instance Segment_eq_dec : EqDecision Segment.
Proof. solve_decision. Defined.

Record Node : Set := mkNode { n_segment : Segment; n_prev : option Z; n_next : option Z }.
#[export] Instance Node_eq_dec : EqDecision Node.
Proof. solve_decision. Defined.
Record RList : Set := mkList { l_head : option Z; l_tail : option Z; l_len : Z }.
Definition RList_default : RList := mkList None None 0.

Inductive RecencyEvent : Set := Touch (slot : Z) | Pin (slot : Z) | Unpin (slot : Z).

(** [nodes], the array [lists] by position, and the protected target. *)
Record SegmentedRecency : Set := mkRecency {
  nodes : gmap Z Node; lists : list RList; protected_target : Z
}.

(** A result that may also panic. *)
Inductive outcome (A : Type) : Type := Done (a : A) | Failed (e : MirageError) | Panic.
Arguments Done {A} a.
Arguments Failed {A} e.
Arguments Panic {A}.
#[export] Instance outcome_ret : MRet outcome := fun A a => Done a.
#[export] Instance outcome_bind : MBind outcome :=
  fun A B f r => match r with Done a => f a | Failed e => Failed e | Panic => Panic end.
Definition lift {A : Type} (r : result A) : outcome A := match r with Ok a => Done a | Err e => Failed e end.
Definition expect {A : Type} (o : option A) : outcome A := match o with Some a => Done a | None => Panic end.

(** ** Operations *)
Definition segment_index (s : Segment) : result nat :=
  match s with
  | Window => Ok 0%nat | Probationary => Ok 1%nat | Protected => Ok 2%nat | PrefetchedUnused => Ok 3%nat
  | Detached => Err (invalid_argument "detached is not a victim list")
  end.

Definition SegmentedRecency_new (protected_target : Z) : SegmentedRecency :=
  mkRecency ∅ (replicate 4 RList_default) protected_target.

(** [self.lists[i]]; the index is always below four. *)
Definition list_at (st : SegmentedRecency) (i : nat) : RList := default RList_default (lists st !! i).
Definition set_list (st : SegmentedRecency) (i : nat) (l : RList) : SegmentedRecency :=
  mkRecency (nodes st) (<[i := l]> (lists st)) (protected_target st).
Definition set_node (st : SegmentedRecency) (s : Z) (n : Node) : SegmentedRecency :=
  mkRecency (<[s := n]> (nodes st)) (lists st) (protected_target st).

(** [self.nodes.get_mut(&s).expect(..).prev = p] and its [next] twin. *)
Definition set_prev (st : SegmentedRecency) (s : Z) (p : option Z) : outcome SegmentedRecency :=
  n ← expect (nodes st !! s); Done (set_node st s (mkNode (n_segment n) p (n_next n))).
Definition set_next (st : SegmentedRecency) (s : Z) (p : option Z) : outcome SegmentedRecency :=
  n ← expect (nodes st !! s); Done (set_node st s (mkNode (n_segment n) (n_prev n) p)).

Definition push_head (st : SegmentedRecency) (slot : Z) (segment : Segment) : outcome SegmentedRecency :=
  index ← lift (segment_index segment);
  let old := l_head (list_at st index) in
  _ ← lift (ok_or (internal_invariant "recency node missing") (nodes st !! slot));
  let st := set_node st slot (mkNode segment None old) in
  st ← match old with
       | Some o => set_prev st o (Some slot)
       | None => let l := list_at st index in Done (set_list st index (mkList (l_head l) (Some slot) (l_len l)))
       end;
  let l := list_at st index in
  Done (set_list st index (mkList (Some slot) (l_tail l) (wadd_u64 (l_len l) 1))).

Definition detach (st : SegmentedRecency) (slot : Z) : outcome SegmentedRecency :=
  node ← lift (ok_or (internal_invariant "recency node missing") (nodes st !! slot));
  if decide (n_segment node = Detached) then Done st else
  index ← lift (segment_index (n_segment node));
  st ← match n_prev node with
       | Some p => set_next st p (n_next node)
       | None => let l := list_at st index in Done (set_list st index (mkList (n_next node) (l_tail l) (l_len l)))
       end;
  st ← match n_next node with
       | Some n => set_prev st n (n_prev node)
       | None => let l := list_at st index in Done (set_list st index (mkList (l_head l) (n_prev node) (l_len l)))
       end;
  let l := list_at st index in
  let st := set_list st index (mkList (l_head l) (l_tail l) (wsub_u64 (l_len l) 1)) in
  _ ← expect (nodes st !! slot);
  Done (set_node st slot (mkNode Detached None None)).

Definition recency_insert (st : SegmentedRecency) (slot : Z) (segment : Segment) : outcome SegmentedRecency :=
  if decide (segment = Detached) then Failed (invalid_argument "recency insertion is invalid") else
  match nodes st !! slot with
  | Some _ => Failed (invalid_argument "recency insertion is invalid")
  | None => push_head (set_node st slot (mkNode Detached None None)) slot segment
  end.

Definition event_slot (e : RecencyEvent) : Z := match e with Touch s | Pin s | Unpin s => s end.

Definition list_of (st : SegmentedRecency) (s : Segment) : outcome RList :=
  match segment_index s with Ok i => Done (list_at st i) | Err _ => Panic end.

Definition recency_apply (st : SegmentedRecency) (event : RecencyEvent) : outcome SegmentedRecency :=
  let slot := event_slot event in
  match n_segment <$> nodes st !! slot with
  | None => Done st
  | Some segment =>
      match event with
      | Pin _ => detach st slot
      | Unpin _ => if decide (segment = Detached) then push_head st slot Probationary else Done st
      | Touch _ =>
          match segment with
          | Detached => Done st
          | _ =>
              let target := match segment with Window => Window | _ => Protected end in
              st ← detach st slot;
              st ← push_head st slot target;
              l ← list_of st Protected;
              if protected_target st <? l_len l then
                match l_tail l with
                | Some tail => st ← detach st tail; push_head st tail Probationary
                | None => Done st
                end
              else Done st
          end
      end
  end.

(** [drain]: apply the queued events in order. *)
Fixpoint drain (st : SegmentedRecency) (events : list RecencyEvent) : outcome SegmentedRecency :=
  match events with [] => Done st | e :: es => st ← recency_apply st e; drain st es end.

Definition victim (st : SegmentedRecency) : outcome (option Z) :=
  a ← list_of st PrefetchedUnused;
  b ← list_of st Probationary;
  c ← list_of st Window;
  d ← list_of st Protected;
  Done (match l_tail a with Some s => Some s | None =>
        match l_tail b with Some s => Some s | None =>
        match l_tail c with Some s => Some s | None => l_tail d end end end).

(** The walk of [verify] over one list. *)
Fixpoint verify_walk (fuel : nat) (st : SegmentedRecency) (segment : Segment) (current previous : option Z) (count : Z)
  : outcome (option Z * Z) :=
  match fuel with
  | O => Panic
  | S fuel =>
      match current with
      | None => Done (previous, count)
      | Some slot =>
          node ← lift (ok_or (internal_invariant "recency link is missing") (nodes st !! slot));
          if negb (bool_decide (n_segment node = segment)) || negb (bool_decide (n_prev node = previous))
          then Failed (internal_invariant "recency list is corrupt") else
          let count := count + 1 in
          if Z.of_nat (size (nodes st)) <? count then Failed (internal_invariant "recency list contains a cycle") else
          verify_walk fuel st segment (n_next node) (Some slot) count
      end
  end.

Definition verify_list (st : SegmentedRecency) (segment : Segment) : outcome Z :=
  l ← list_of st segment;
  '(previous, count) ← verify_walk (S (S (size (nodes st)))) st segment (l_head l) None 0;
  if negb (bool_decide (previous = l_tail l)) || negb (count =? l_len l)
  then Failed (internal_invariant "recency endpoints disagree") else Done count.

Definition recency_verify (st : SegmentedRecency) : outcome () :=
  a ← verify_list st Window;
  b ← verify_list st Probationary;
  c ← verify_list st Protected;
  d ← verify_list st PrefetchedUnused;
  let detached := Z.of_nat (length (List.filter (fun n => bool_decide (n_segment n = Detached)) (map snd (map_to_list (nodes st))))) in
  if negb (a + b + c + d + detached =? Z.of_nat (size (nodes st)))
  then Failed (internal_invariant "recency membership disagrees") else Done ().

(** ** Specification *)
Record ASegments : Set := mkASeg {
  a_where : gmap Z Segment;
  a_window : list Z; a_probationary : list Z; a_protected : list Z; a_prefetched : list Z
}.
Definition a_empty : ASegments := mkASeg ∅ [] [] [] [].

Definition a_list (a : ASegments) (s : Segment) : list Z :=
  match s with
  | Window => a_window a | Probationary => a_probationary a | Protected => a_protected a
  | PrefetchedUnused => a_prefetched a | Detached => []
  end.
Definition a_set (a : ASegments) (s : Segment) (l : list Z) : ASegments :=
  match s with
  | Window => mkASeg (a_where a) l (a_probationary a) (a_protected a) (a_prefetched a)
  | Probationary => mkASeg (a_where a) (a_window a) l (a_protected a) (a_prefetched a)
  | Protected => mkASeg (a_where a) (a_window a) (a_probationary a) l (a_prefetched a)
  | PrefetchedUnused => mkASeg (a_where a) (a_window a) (a_probationary a) (a_protected a) l
  | Detached => a
  end.
Definition a_move (a : ASegments) (slot : Z) (s : Segment) : ASegments :=
  mkASeg (<[slot := s]> (a_where a)) (a_window a) (a_probationary a) (a_protected a) (a_prefetched a).

(** Put [slot] in front of segment [s]; take it out of its segment. *)
Definition a_push (a : ASegments) (slot : Z) (s : Segment) : ASegments := a_set (a_move a slot s) s (slot :: a_list a s).
Definition a_detach (a : ASegments) (slot : Z) : ASegments :=
  match a_where a !! slot with
  | Some s => a_set (a_move a slot Detached) s (List.filter (fun x => negb (x =? slot)) (a_list a s))
  | None => a
  end.

Definition a_insert (a : ASegments) (slot : Z) (s : Segment) : option ASegments :=
  if decide (s = Detached) then None
  else match a_where a !! slot with Some _ => None | None => Some (a_push a slot s) end.

Definition a_demote (target : Z) (a : ASegments) : ASegments :=
  if target <? Z.of_nat (length (a_protected a)) then
    match last (a_protected a) with
    | Some t => a_push (a_detach a t) t Probationary
    | None => a
    end
  else a.

Definition a_apply (target : Z) (a : ASegments) (e : RecencyEvent) : ASegments :=
  let slot := event_slot e in
  match a_where a !! slot with
  | None => a
  | Some s =>
      match e with
      | Pin _ => a_detach a slot
      | Unpin _ => if decide (s = Detached) then a_push a slot Probationary else a
      | Touch _ =>
          match s with
          | Detached => a
          | Window => a_demote target (a_push (a_detach a slot) slot Window)
          | _ => a_demote target (a_push (a_detach a slot) slot Protected)
          end
      end
  end.

Definition a_victim (a : ASegments) : option Z :=
  match last (a_prefetched a), last (a_probationary a), last (a_window a), last (a_protected a) with
  | Some s, _, _, _ => Some s
  | None, Some s, _, _ => Some s
  | None, None, Some s, _ => Some s
  | None, None, None, o => o
  end.

(** ** Linked segments

    [seg m s prev l next]: the nodes of [l] are linked in order inside segment
    [s], entered from [prev] and left towards [next]. *)
Definition head_or (l : list Z) (next : option Z) : option Z := match l with [] => next | x :: _ => Some x end.
Definition last_or (l : list Z) (prev : option Z) : option Z := match last l with Some x => Some x | None => prev end.

Fixpoint seg (m : gmap Z Node) (s : Segment) (prev : option Z) (l : list Z) (next : option Z) : Prop :=
  match l with
  | [] => True
  | x :: l => m !! x = Some (mkNode s prev (head_or l next)) /\ seg m s (Some x) l next
  end.

Lemma last_or_cons (x : Z) (l : list Z) (prev : option Z) : last_or (x :: l) prev = last_or l (Some x).
Proof. unfold last_or. destruct l; [done|]. cbn [last]. by destruct (last (z :: l)) eqn:E; [|apply last_None in E]. Qed.

Lemma head_or_app (l k : list Z) (next : option Z) : head_or (l ++ k) next = head_or l (head_or k next).
Proof. by destruct l. Qed.

Lemma seg_app (m : gmap Z Node) (s : Segment) (l k : list Z) (prev next : option Z) :
  seg m s prev (l ++ k) next <-> seg m s prev l (head_or k next) /\ seg m s (last_or l prev) k next.
Proof.
  revert prev. induction l as [|x l IH]; intros prev; simpl; [split; [done|by intros [_ ?]]|].
  rewrite head_or_app, IH, last_or_cons. tauto.
Qed.

(** Writing a node outside the segment leaves it alone. *)
Lemma seg_frame (m : gmap Z Node) (s : Segment) (l : list Z) (prev next : option Z) (y : Z) (n : Node) :
  y ∉ l -> seg m s prev l next -> seg (<[y := n]> m) s prev l next.
Proof.
  revert prev. induction l as [|x l IH]; intros prev Hy; simpl; [done|].
  apply not_elem_of_cons in Hy as [Hne Hy]. rewrite lookup_insert_ne by done. naive_solver.
Qed.

Lemma seg_elem (m : gmap Z Node) (s : Segment) (l : list Z) (prev next : option Z) (x : Z) :
  seg m s prev l next -> x ∈ l -> exists n, m !! x = Some n /\ n_segment n = s.
Proof.
  revert prev. induction l as [|y l IH]; intros prev; simpl; [by intros _ ?%elem_of_nil|].
  intros [E H] [->|Hin]%elem_of_cons; [by eexists|by eapply IH].
Qed.

(** Re-pointing the first node backwards or the last node forwards. *)
Lemma seg_set_prev (m : gmap Z Node) (s : Segment) (x : Z) (l : list Z) (prev prev' next : option Z) (n : Node) :
  NoDup (x :: l) -> seg m s prev (x :: l) next -> m !! x = Some n ->
  seg (<[x := mkNode (n_segment n) prev' (n_next n)]> m) s prev' (x :: l) next.
Proof.
  intros HN [E H] En. rewrite E in En. simplify_eq. simpl. rewrite lookup_insert_eq. split; [done|].
  apply NoDup_cons in HN as [Hx _]. by apply seg_frame.
Qed.

Lemma seg_set_next (m : gmap Z Node) (s : Segment) (x : Z) (l : list Z) (prev next next' : option Z) (n : Node) :
  NoDup (l ++ [x]) -> seg m s prev (l ++ [x]) next -> m !! x = Some n ->
  seg (<[x := mkNode (n_segment n) (n_prev n) next']> m) s prev (l ++ [x]) next'.
Proof.
  intros HN H En. rewrite seg_app in *. destruct H as [H [E _]]. simpl in E. rewrite E in En. simplify_eq. simpl.
  rewrite lookup_insert_eq. apply NoDup_app in HN as (_ & Hd & _).
  split; [|done]. apply seg_frame; [|done]. intros Hin. by apply (Hd x Hin), list_elem_of_singleton.
Qed.

(** ** Representation *)
Definition idx (s : Segment) : nat :=
  match s with Window => 0 | Probationary => 1 | Protected => 2 | PrefetchedUnused => 3 | Detached => 4 end%nat.

Record rep_list (st : SegmentedRecency) (s : Segment) (l : list Z) : Prop := {
  rp_list : lists st !! idx s = Some (mkList (head l) (last l) (Z.of_nat (length l)));
  rp_seg : seg (nodes st) s None l None;
  rp_nodup : NoDup l
}.

Record rep (st : SegmentedRecency) (a : ASegments) : Prop := {
  r_lists : forall s, s <> Detached -> rep_list st s (a_list a s);
  r_where : forall x, a_where a !! x = n_segment <$> nodes st !! x;
  r_member : forall x n, nodes st !! x = Some n -> n_segment n <> Detached -> x ∈ a_list a (n_segment n);
  r_detached : forall x n, nodes st !! x = Some n -> n_segment n = Detached -> n = mkNode Detached None None;
  r_size : Z.of_nat (size (nodes st)) <= u64_max
}.

Lemma segment_index_idx (s : Segment) : s <> Detached -> segment_index s = Ok (idx s).
Proof. by destruct s. Qed.
Lemma idx_inj (s t : Segment) : idx s = idx t -> s = t.
Proof. by destruct s, t. Qed.

Lemma a_list_set_eq (a : ASegments) (s : Segment) (l : list Z) : s <> Detached -> a_list (a_set a s l) s = l.
Proof. by destruct s. Qed.
Lemma a_list_set_ne (a : ASegments) (s t : Segment) (l : list Z) : s <> t -> a_list (a_set a s l) t = a_list a t.
Proof. by destruct s, t. Qed.
Lemma a_list_move (a : ASegments) (x : Z) (s t : Segment) : a_list (a_move a x s) t = a_list a t.
Proof. by destruct t. Qed.
Lemma a_where_set (a : ASegments) (s : Segment) (l : list Z) : a_where (a_set a s l) = a_where a.
Proof. by destruct s. Qed.

Lemma list_at_rep (st : SegmentedRecency) (s : Segment) (l : list Z) :
  rep_list st s l -> list_at st (idx s) = mkList (head l) (last l) (Z.of_nat (length l)).
Proof. intros [H _ _]. unfold list_at. by rewrite H. Qed.

(** A slot of another segment, or a detached one, is not in this list. *)
Lemma rep_list_other (st : SegmentedRecency) (s : Segment) (l : list Z) (x : Z) (n : Node) :
  rep_list st s l -> nodes st !! x = Some n -> n_segment n <> s -> x ∉ l.
Proof. intros [_ HS _] E Hne Hin. destruct (seg_elem _ _ _ _ _ _ HS Hin) as (n' & E' & <-). congruence. Qed.

Lemma seg_ext (m m' : gmap Z Node) (s : Segment) (l : list Z) (prev next : option Z) :
  (forall y, y ∈ l -> m' !! y = m !! y) -> seg m s prev l next -> seg m' s prev l next.
Proof.
  revert prev. induction l as [|x l IH]; intros prev Hm; simpl; [done|]. intros [E H]. split.
  - by rewrite Hm by (by left).
  - apply IH; [|done]. intros y Hy. apply Hm. by right.
Qed.

(** Rewriting one list [s] and moving one slot [x] in or out of it. *)
Lemma rep_update (st st' : SegmentedRecency) (a : ASegments) (x : Z) (s : Segment) (l' : list Z) (n0 nx : Node) :
  rep st a -> s <> Detached ->
  nodes st !! x = Some n0 -> (n_segment n0 = s \/ n_segment n0 = Detached) ->
  lists st' = <[idx s := mkList (head l') (last l') (Z.of_nat (length l'))]> (lists st) ->
  seg (nodes st') s None l' None -> NoDup l' ->
  (forall y, y ∉ a_list a s -> y <> x -> nodes st' !! y = nodes st !! y) ->
  (forall y, y <> x -> y ∈ a_list a s <-> y ∈ l') ->
  nodes st' !! x = Some nx ->
  ((n_segment nx = s /\ x ∈ l') \/ nx = mkNode Detached None None) ->
  Z.of_nat (size (nodes st')) <= u64_max ->
  rep st' (a_set (a_move a x (n_segment nx)) s l').
Proof.
  intros [HL HW HM HD HZ] Hs E0 Hn0 Elists Hseg HN Hout Hmem Ex Hnx Hsize.
  pose proof (HL s Hs) as [R1 R2 R3].
  assert (Hin : forall y, y <> x -> y ∈ a_list a s -> exists n n', nodes st !! y = Some n /\ nodes st' !! y = Some n' /\ n_segment n = s /\ n_segment n' = s).
  { intros y Hy Hys. destruct (seg_elem _ _ _ _ _ _ R2 Hys) as (n & ? & ?).
    destruct (seg_elem _ _ _ _ _ _ Hseg (proj1 (Hmem y Hy) Hys)) as (n' & ? & ?). by exists n, n'. }
  constructor; [| | | |done].
  - intros t Ht. destruct (decide (s = t)) as [<-|Hne].
    + rewrite a_list_set_eq by done. constructor; [|done|done].
      rewrite Elists, list_lookup_insert_eq; [done|]. by apply lookup_lt_Some in R1.
    + rewrite a_list_set_ne, a_list_move by done. pose proof (HL t Ht) as HT. pose proof HT as [T1 T2 T3].
      constructor; [|apply (seg_ext (nodes st)); [|done]|done].
      * rewrite Elists, list_lookup_insert_ne; [done|]. intros ?%idx_inj. done.
      * intros y Hy. destruct (seg_elem _ _ _ _ _ _ T2 Hy) as (n & En & Hn). apply Hout.
        -- apply (rep_list_other st s (a_list a s) y n (HL s Hs) En). congruence.
        -- intros ->. destruct Hn0; congruence.
  - intros y. rewrite a_where_set. cbn [a_where a_move]. destruct (decide (x = y)) as [<-|Hy]; [by rewrite lookup_insert_eq, Ex|].
    rewrite lookup_insert_ne, HW by done. destruct (decide (y ∈ a_list a s)) as [Hys|Hys]; [|by rewrite Hout].
    destruct (Hin y ltac:(done) Hys) as (n & n' & -> & -> & En & En'). simpl. congruence.
  - intros y n En Hnd. destruct (decide (y = x)) as [->|Hy].
    + rewrite Ex in En. simplify_eq. destruct Hnx as [[<- Hx]| ->]; [|done]. by rewrite a_list_set_eq.
    + destruct (decide (n_segment n = s)) as [Hns|Hns].
      * rewrite Hns, a_list_set_eq by done. apply Hmem; [done|]. destruct (decide (y ∈ a_list a s)) as [|Hys]; [done|].
        rewrite Hout in En by done. rewrite <- Hns. by apply (HM y n).
      * rewrite a_list_set_ne, a_list_move by done. destruct (decide (y ∈ a_list a s)) as [Hys|Hys].
        -- destruct (Hin y Hy Hys) as (? & ? & _ & ? & _ & ?). congruence.
        -- rewrite Hout in En by done. by apply (HM y n).
  - intros y n En Hnd. destruct (decide (y = x)) as [->|Hy].
    + rewrite Ex in En. simplify_eq. destruct Hnx as [[Hs' _]| ->]; congruence.
    + destruct (decide (y ∈ a_list a s)) as [Hys|Hys]; [destruct (Hin y Hy Hys) as (? & ? & _ & ? & _ & ?); congruence|].
      rewrite Hout in En by done. by apply (HD y n).
Qed.

Lemma size_insert_Some (m : gmap Z Node) (x : Z) (n n' : Node) : m !! x = Some n -> size (<[x := n']> m) = size m.
Proof. intros E. by rewrite map_size_insert_Some. Qed.

Lemma nodup_size (m : gmap Z Node) (l : list Z) :
  NoDup l -> (forall y, y ∈ l -> is_Some (m !! y)) -> (length l <= size m)%nat.
Proof.
  intros HN HS. rewrite <- (size_list_to_set (C := gset Z) l HN), <- (size_dom (D := gset Z) m).
  apply subseteq_size. intros y Hy%elem_of_list_to_set. apply elem_of_dom. by apply HS.
Qed.

Lemma rep_list_length (st : SegmentedRecency) (a : ASegments) (s : Segment) (x : Z) :
  rep st a -> s <> Detached -> is_Some (nodes st !! x) -> x ∉ a_list a s ->
  Z.of_nat (length (a_list a s)) + 1 <= u64_max.
Proof.
  intros HR Hs Hx Hni. pose proof (r_lists _ _ HR s Hs) as [_ R2 R3]. pose proof (r_size _ _ HR).
  assert (length (x :: a_list a s) <= size (nodes st))%nat; [|simpl in *; lia].
  apply nodup_size; [by constructor|]. intros y [->|Hy]%elem_of_cons; [done|].
  destruct (seg_elem _ _ _ _ _ _ R2 Hy) as (n & -> & _). by eexists.
Qed.

(** [push_head] of a detached slot. *)
Lemma push_head_rep (st : SegmentedRecency) (a : ASegments) (x : Z) (s : Segment) :
  rep st a -> s <> Detached -> nodes st !! x = Some (mkNode Detached None None) ->
  exists st', push_head st x s = Done st' /\ rep st' (a_push a x s) /\ protected_target st' = protected_target st.
Proof.
  intros HR Hs Ex. pose proof (r_lists _ _ HR s Hs) as HRl. unfold push_head.
  rewrite segment_index_idx by done. cbn [lift mbind outcome_bind].
  rewrite (list_at_rep _ _ _ HRl). cbn [l_head]. rewrite Ex. cbn [ok_or lift mbind outcome_bind].
  pose proof (rep_list_other st s _ x _ HRl Ex ltac:(simpl; congruence)) as Hx.
  pose proof (rep_list_length st a s x HR Hs ltac:(by eexists) Hx) as Hlen. pose proof HRl as [R1 R2 R3].
  pose proof (r_size _ _ HR) as HZ. pose proof (lookup_lt_Some _ _ _ R1) as Hidx. unfold a_push.
  destruct (a_list a s) as [|o l] eqn:El; cbn [head].
  - eexists. split; [done|]. split; [|done]. unfold list_at, set_list, set_node. cbn [lists nodes].
    rewrite list_lookup_insert_eq, R1 by done. cbn [default id l_head l_tail l_len].
    apply (rep_update st _ a x s [x] (mkNode Detached None None) (mkNode s None None)); try done; cbn [lists nodes]; rewrite ?El; try (by right).
    + by rewrite list_insert_insert_eq.
    + simpl. by rewrite lookup_insert_eq.
    + intros y _ Hy. by rewrite lookup_insert_ne.
    + intros y Hy. rewrite list_elem_of_singleton. split; [by intros ?%elem_of_nil|done].
    + by rewrite lookup_insert_eq.
    + left. split; [done|]. by apply list_elem_of_singleton.
    + by rewrite (size_insert_Some _ _ _ _ Ex).
  - apply not_elem_of_cons in Hx as [Hxo Hx]. destruct R2 as [Eo R2].
    unfold set_prev, set_node. cbn [nodes]. rewrite lookup_insert_ne, Eo by done. cbn [expect mbind outcome_bind n_segment n_next].
    eexists. split; [done|]. split; [|done]. unfold list_at, set_list, set_node. cbn [lists nodes]. rewrite R1.
    cbn [default id l_head l_tail l_len].
    apply (rep_update st _ a x s (x :: o :: l) (mkNode Detached None None) (mkNode s None (Some o))); try done; cbn [lists nodes]; rewrite ?El; try (by right).
    + f_equal. f_equal. cbn [length] in *. rewrite wadd_u64_small by lia. lia.
    + cbn [seg]. rewrite lookup_insert_ne, !lookup_insert_eq by done. split; [done|]. split; [done|].
      apply NoDup_cons in R3 as [Ho R3]. apply seg_frame; [done|]. by apply seg_frame.
    + constructor; [by apply not_elem_of_cons|done].
    + intros y Hy Hyx. apply not_elem_of_cons in Hy as [Hyo Hy]. by rewrite !lookup_insert_ne.
    + intros y Hy. rewrite (elem_of_cons (o :: l)). naive_solver.
    + by rewrite lookup_insert_ne, lookup_insert_eq.
    + left. split; [done|]. by left.
    + rewrite (size_insert_Some _ o (mkNode s None (head_or l None))) by (by rewrite lookup_insert_ne).
      by rewrite (size_insert_Some _ _ _ _ Ex).
Qed.

(** [detach] of an attached slot. *)
Lemma filter_split (l1 l2 : list Z) (x : Z) :
  x ∉ l1 -> x ∉ l2 -> List.filter (fun y => negb (y =? x)) (l1 ++ x :: l2) = l1 ++ l2.
Proof.
  intros H1 H2. rewrite List.filter_app. cbn [List.filter]. rewrite Z.eqb_refl. cbn [negb].
  assert (Hid : forall l, x ∉ l -> List.filter (fun y => negb (y =? x)) l = l).
  { clear. induction l as [|y l IH]; intros Hx; [done|]. apply not_elem_of_cons in Hx as [Hne Hx]. simpl.
    rewrite (proj2 (Z.eqb_neq _ _)) by congruence. simpl. by rewrite IH. }
  by rewrite !Hid.
Qed.

(** The two pointer writes that unlink [x] from [l1 ++ x :: l2]. *)
Definition unlink (m : gmap Z Node) (s : Segment) (l1 l2 : list Z) : gmap Z Node :=
  let m1 := match last l1 with
            | Some p => match m !! p with Some n => <[p := mkNode (n_segment n) (n_prev n) (head_or l2 None)]> m | None => m end
            | None => m end in
  match l2 with
  | q :: _ => match m1 !! q with Some n => <[q := mkNode (n_segment n) (last_or l1 None) (n_next n)]> m1 | None => m1 end
  | [] => m1
  end.

Lemma unlink_seg (m : gmap Z Node) (s : Segment) (l1 l2 : list Z) (x : Z) :
  NoDup (l1 ++ x :: l2) -> seg m s None (l1 ++ x :: l2) None ->
  seg (unlink m s l1 l2) s None (l1 ++ l2) None /\
  (forall y, y ∉ l1 ++ l2 -> unlink m s l1 l2 !! y = m !! y) /\ size (unlink m s l1 l2) = size m.
Proof.
  intros HN HS. rewrite <- Permutation_middle in HN. apply NoDup_cons in HN as [_ HN]. apply seg_app in HS as [HS1 [_ HS2]]. cbn [head_or] in HS1.
  pose proof HN as (HN1 & Hd & HN2)%NoDup_app.
  set (m1 := match last l1 with
            | Some p => match m !! p with Some n => <[p := mkNode (n_segment n) (n_prev n) (head_or l2 None)]> m | None => m end
            | None => m end).
  assert (H1 : seg m1 s None l1 (head_or l2 None) /\ seg m1 s (Some x) l2 None /\ (forall y, y ∉ l1 -> m1 !! y = m !! y) /\ size m1 = size m).
  { unfold m1. destruct l1 as [|p l1 _] using rev_ind; [done|]. rewrite last_snoc.
    pose proof HS1 as HS1'. apply seg_app in HS1' as [_ [Ep _]]. rewrite Ep. cbn [n_segment n_prev].
    assert (Hp : p ∉ l2) by (apply Hd, elem_of_app; right; by apply list_elem_of_singleton). split_and!.
    - apply (seg_set_next m s p l1 None (Some x) (head_or l2 None) (mkNode s (last_or l1 None) (head_or [] (Some x))) HN1 HS1 Ep).
    - by apply seg_frame.
    - intros y Hy. rewrite lookup_insert_ne; [done|]. intros <-. apply Hy, elem_of_app. right. by apply list_elem_of_singleton.
    - by rewrite (size_insert_Some _ _ _ _ Ep). }
  destruct H1 as (A1 & A2 & A3 & A4). unfold unlink. fold m1. rewrite seg_app.
  destruct l2 as [|q l2]; [split_and!; [done|done| |done]; intros y Hy; apply A3; by rewrite app_nil_r in Hy|].
  pose proof A2 as [Eq _]. rewrite Eq. cbn [n_segment n_next].
  assert (Hq : q ∉ l1) by (intros Hq; apply (Hd q Hq); by left).
  split_and!.
  - by apply seg_frame.
  - apply (seg_set_prev m1 s q l2 (Some x) (last_or l1 None) None (mkNode s (Some x) (head_or l2 None)) HN2 A2 Eq).
  - intros y Hy. rewrite not_elem_of_app, not_elem_of_cons in Hy. rewrite lookup_insert_ne by (symmetry; apply Hy). by apply A3, Hy.
  - by rewrite (size_insert_Some _ _ _ _ Eq).
Qed.

(** Endpoints of [l1 ++ l2] against those of [l1 ++ x :: l2]. *)
Lemma head_app (l1 l2 : list Z) : head (l1 ++ l2) = match l1 with [] => head l2 | y :: _ => Some y end.
Proof. by destruct l1. Qed.
Lemma last_app_or (l1 l2 : list Z) : last (l1 ++ l2) = last_or l2 (last l1).
Proof.
  unfold last_or. destruct l2 as [|q l2 _] using rev_ind; [by rewrite app_nil_r|]. by rewrite app_assoc, !last_snoc.
Qed.
Lemma head_or_None (l : list Z) : head_or l None = head l.
Proof. by destruct l. Qed.
Lemma last_or_None (l : list Z) : last_or l None = last l.
Proof. unfold last_or. by destruct (last l). Qed.

(** The two sides of unlinking, as state updates. *)
Lemma detach_prev (st : SegmentedRecency) (i : nat) (prev next : option Z) (l : RList) :
  lists st !! i = Some l -> (forall p, prev = Some p -> is_Some (nodes st !! p)) ->
  match prev with
  | Some p => set_next st p next
  | None => Done (set_list st i (mkList next (l_tail (list_at st i)) (l_len (list_at st i))))
  end = Done (mkRecency
    (match prev with
     | Some p => match nodes st !! p with Some n => <[p := mkNode (n_segment n) (n_prev n) next]> (nodes st) | None => nodes st end
     | None => nodes st end)
    (<[i := mkList (match prev with Some _ => l_head l | None => next end) (l_tail l) (l_len l)]> (lists st)) (protected_target st)).
Proof.
  intros E Hp. unfold list_at. rewrite E. destruct prev as [p|]; [|done]. destruct (Hp p eq_refl) as [n En].
  unfold set_next. rewrite En. cbn. unfold set_node. do 2 f_equal. rewrite list_insert_id; [done|]. by destruct l.
Qed.

Lemma detach_next (st : SegmentedRecency) (i : nat) (prev next : option Z) (l : RList) :
  lists st !! i = Some l -> (forall p, next = Some p -> is_Some (nodes st !! p)) ->
  match next with
  | Some p => set_prev st p prev
  | None => Done (set_list st i (mkList (l_head (list_at st i)) prev (l_len (list_at st i))))
  end = Done (mkRecency
    (match next with
     | Some p => match nodes st !! p with Some n => <[p := mkNode (n_segment n) prev (n_next n)]> (nodes st) | None => nodes st end
     | None => nodes st end)
    (<[i := mkList (l_head l) (match next with Some _ => l_tail l | None => prev end) (l_len l)]> (lists st)) (protected_target st)).
Proof.
  intros E Hp. unfold list_at. rewrite E. destruct next as [p|]; [|done]. destruct (Hp p eq_refl) as [n En].
  unfold set_prev. rewrite En. cbn. unfold set_node. do 2 f_equal. rewrite list_insert_id; [done|]. by destruct l.
Qed.

(** What the code of [detach] computes for an attached slot. *)
Lemma detach_run (st : SegmentedRecency) (s : Segment) (l1 l2 : list Z) (x : Z) :
  s <> Detached -> rep_list st s (l1 ++ x :: l2) -> Z.of_nat (length (l1 ++ x :: l2)) <= u64_max ->
  exists st', detach st x = Done st' /\ nodes st' = <[x := mkNode Detached None None]> (unlink (nodes st) s l1 l2) /\
    lists st' = <[idx s := mkList (head (l1 ++ l2)) (last (l1 ++ l2)) (Z.of_nat (length (l1 ++ l2)))]> (lists st) /\
    protected_target st' = protected_target st.
Proof.
  intros Hs [R1 R2 R3] HZ. pose proof (unlink_seg _ s l1 l2 x R3 R2) as (_ & U2 & _).
  pose proof R3 as HN. rewrite <- Permutation_middle in HN. apply NoDup_cons in HN as [Hx HN].
  pose proof R2 as HS. apply seg_app in HS as [_ [En _]]. rewrite last_or_None, head_or_None in En.
  pose proof (lookup_lt_Some _ _ _ R1) as Hidx.
  assert (Hux : unlink (nodes st) s l1 l2 !! x = nodes st !! x) by (by apply U2).
  assert (Hsome : forall y, y ∈ l1 ++ x :: l2 -> is_Some (nodes st !! y))
    by (intros y Hy; destruct (seg_elem _ _ _ _ _ _ R2 Hy) as (n & -> & _); by eexists).
  unfold detach. rewrite En. cbn [ok_or lift mbind outcome_bind n_segment n_prev n_next].
  rewrite decide_False, segment_index_idx by done. cbn [lift mbind outcome_bind].
  rewrite (detach_prev st (idx s) (last l1) (head l2) _ R1)
    by (intros p Hp; apply Hsome, elem_of_app; left; by apply last_Some_elem_of).
  cbn [mbind outcome_bind].
  erewrite (detach_next _ (idx s) (last l1) (head l2)); cbn [nodes lists]; [|by apply list_lookup_insert_eq|].
  2: { intros q Hq. assert (Hq2 : is_Some (nodes st !! q)) by (apply Hsome, elem_of_app; right; right; by apply head_Some_elem_of).
       destruct (last l1) as [p|]; [|done]. destruct (nodes st !! p); [|done]. apply lookup_insert_is_Some'. by right. }
  cbn [mbind outcome_bind]. unfold list_at, set_list. cbn [lists nodes l_head l_tail l_len].
  rewrite list_lookup_insert_eq by (by rewrite length_insert). cbn [default id l_head l_tail l_len].
  set (m := match head l2 with Some p => _ | None => _ end).
  assert (Hm : m = unlink (nodes st) s l1 l2).
  { unfold m, unlink. rewrite <- head_or_None, last_or_None. destruct l2 as [|q l2]; [done|]. done. }
  rewrite Hm, Hux, En. cbn [expect mbind outcome_bind]. eexists. split; [done|]. unfold set_node. cbn [nodes lists protected_target].
  split_and!; [done| |done]. rewrite !list_insert_insert_eq.
  rewrite (head_app l1 l2), (last_app_or l1 l2), (last_app_or l1 (x :: l2)), last_or_cons. rewrite !length_app in *. cbn [length] in *.
  rewrite wsub_u64_small by lia. do 2 f_equal; [..|lia].
  - destruct l1 as [|y l1]; [done|]. cbn [app head]. by destruct (last (y :: l1)) eqn:EL; [|apply last_None in EL].
  - destruct l2 as [|q l2]; [done|]. cbn [head]. unfold last_or. destruct (last (q :: l2)) eqn:EL; [done|]. by apply last_None in EL.
Qed.

Lemma detach_rep (st : SegmentedRecency) (a : ASegments) (x : Z) (s : Segment) :
  rep st a -> a_where a !! x = Some s ->
  exists st', detach st x = Done st' /\ rep st' (a_detach a x) /\ protected_target st' = protected_target st /\
    nodes st' !! x = Some (mkNode Detached None None).
Proof.
  intros HR Hw. pose proof Hw as Hw'. rewrite (r_where _ _ HR) in Hw'. destruct (nodes st !! x) as [n|] eqn:Ex; [|done]. simpl in Hw'.
  assert (n_segment n = s) as Hns by congruence. clear Hw'.
  destruct (decide (s = Detached)) as [->|Hs].
  { pose proof (r_detached _ _ HR x n Ex Hns) as ->. exists st. split_and!; try done.
    - unfold detach. rewrite Ex. done.
    - unfold a_detach. rewrite Hw. simpl. replace (a_move a x Detached) with a; [done|]. unfold a_move. rewrite insert_id by done. by destruct a. }
  pose proof (r_lists _ _ HR s Hs) as HRl. pose proof (r_member _ _ HR x n Ex ltac:(congruence)) as Hin. rewrite Hns in Hin.
  apply list_elem_of_split in Hin as (l1 & l2 & El). rewrite El in HRl. pose proof HRl as [R1 R2 R3].
  pose proof (unlink_seg _ s l1 l2 x R3 R2) as (U1 & U2 & U3). pose proof (r_size _ _ HR) as HZ.
  assert (Hlen : Z.of_nat (length (l1 ++ x :: l2)) <= u64_max).
  { pose proof (nodup_size (nodes st) _ R3) as Hn. transitivity (Z.of_nat (size (nodes st))); [|done]. apply inj_le, Hn.
    intros y Hy. destruct (seg_elem _ _ _ _ _ _ R2 Hy) as (n' & -> & _). by eexists. }
  destruct (detach_run st s l1 l2 x Hs HRl Hlen) as (st' & Hrun & Hnodes & Hlists & Htarget).
  rewrite <- Permutation_middle in R3. apply NoDup_cons in R3 as [Hx HN]. pose proof Hx as [Hx1 Hx2]%not_elem_of_app.
  exists st'. split; [done|]. split; [|split; [done|by rewrite Hnodes, lookup_insert_eq]].
  unfold a_detach. rewrite Hw, El, filter_split by done.
  apply (rep_update st st' a x s (l1 ++ l2) n (mkNode Detached None None)); try done; rewrite ?Hnodes, ?El.
  - by left.
  - by apply seg_frame.
  - intros y Hy Hyx. rewrite lookup_insert_ne by done. apply U2. rewrite not_elem_of_app, not_elem_of_cons in Hy. rewrite not_elem_of_app. naive_solver.
  - intros y Hy. rewrite !elem_of_app, elem_of_cons. naive_solver.
  - by rewrite lookup_insert_eq.
  - by right.
  - rewrite (size_insert_Some _ _ n), U3; [done|]. by rewrite U2.
Qed.

(** ** The operations refine the specification *)
Lemma new_node_rep (st : SegmentedRecency) (a : ASegments) (x : Z) :
  rep st a -> nodes st !! x = None -> Z.of_nat (size (nodes st)) + 1 <= u64_max ->
  rep (set_node st x (mkNode Detached None None)) (a_move a x Detached).
Proof.
  intros [HL HW HM HD HZ] Ex Hsz. constructor; cbn [nodes set_node].
  - intros s Hs. rewrite a_list_move. destruct (HL s Hs) as [R1 R2 R3]. constructor; [done| |done].
    apply seg_frame; [|done]. intros Hin. destruct (seg_elem _ _ _ _ _ _ R2 Hin) as (n & ? & _). congruence.
  - intros y. cbn [a_where a_move]. destruct (decide (x = y)) as [<-|]; [by rewrite !lookup_insert_eq|by rewrite !lookup_insert_ne].
  - intros y n. rewrite a_list_move. destruct (decide (x = y)) as [<-|]; [rewrite lookup_insert_eq; by intros [= <-]|rewrite lookup_insert_ne by done; apply HM].
  - intros y n. destruct (decide (x = y)) as [<-|]; [rewrite lookup_insert_eq; by intros [= <-]|rewrite lookup_insert_ne by done; apply HD].
  - rewrite map_size_insert_None by done. lia.
Qed.

Lemma a_push_move (a : ASegments) (x : Z) (s t : Segment) : a_push (a_move a x t) x s = a_push a x s.
Proof. unfold a_push. rewrite a_list_move. f_equal. unfold a_move. simpl. by rewrite insert_insert_eq. Qed.

Lemma insert_rep (st : SegmentedRecency) (a : ASegments) (x : Z) (s : Segment) :
  rep st a -> Z.of_nat (size (nodes st)) + 1 <= u64_max ->
  match a_insert a x s with
  | Some a' => exists st', recency_insert st x s = Done st' /\ rep st' a' /\ protected_target st' = protected_target st
  | None => recency_insert st x s = Failed (invalid_argument "recency insertion is invalid")
  end.
Proof.
  intros HR Hsz. unfold a_insert, recency_insert. destruct (decide (s = Detached)) as [|Hs]; [done|].
  rewrite (r_where _ _ HR). destruct (nodes st !! x) as [n|] eqn:Ex; simpl; [done|].
  pose proof (new_node_rep st a x HR Ex Hsz) as HR'.
  destruct (push_head_rep _ _ x s HR' Hs ltac:(cbn [nodes set_node]; by rewrite lookup_insert_eq)) as (st' & Hp & Hr & Ht).
  exists st'. split; [done|]. by rewrite a_push_move in Hr.
Qed.

Lemma list_of_rep (st : SegmentedRecency) (a : ASegments) (s : Segment) :
  rep st a -> s <> Detached ->
  list_of st s = Done (mkList (head (a_list a s)) (last (a_list a s)) (Z.of_nat (length (a_list a s)))).
Proof. intros HR Hs. unfold list_of. rewrite segment_index_idx by done. by rewrite (list_at_rep _ _ _ (r_lists _ _ HR s Hs)). Qed.

Lemma where_of_member (st : SegmentedRecency) (a : ASegments) (s : Segment) (x : Z) :
  rep st a -> s <> Detached -> x ∈ a_list a s -> a_where a !! x = Some s.
Proof.
  intros HR Hs Hin. rewrite (r_where _ _ HR). destruct (r_lists _ _ HR s Hs) as [_ R2 _].
  by destruct (seg_elem _ _ _ _ _ _ R2 Hin) as (n & -> & <-).
Qed.

(** Re-queue an attached slot at the head of [target]. *)
Lemma requeue_rep (st : SegmentedRecency) (a : ASegments) (x : Z) (s target : Segment) :
  rep st a -> a_where a !! x = Some s -> target <> Detached ->
  exists st', (st ← detach st x; push_head st x target) = Done st' /\ rep st' (a_push (a_detach a x) x target) /\
    protected_target st' = protected_target st.
Proof.
  intros HR Hw Ht. destruct (detach_rep st a x s HR Hw) as (st1 & -> & HR1 & Ht1 & En). cbn [mbind outcome_bind].
  destruct (push_head_rep st1 _ x target HR1 Ht En) as (st2 & -> & HR2 & Ht2). exists st2. split_and!; [done|done|congruence].
Qed.

Lemma touch_rep (st : SegmentedRecency) (a : ASegments) (x : Z) (s target : Segment) :
  rep st a -> a_where a !! x = Some s -> target <> Detached ->
  exists st',
  (st ← detach st x; st ← push_head st x target; l ← list_of st Protected;
   if protected_target st <? l_len l then
     match l_tail l with Some tail => st ← detach st tail; push_head st tail Probationary | None => Done st end
   else Done st) = Done st' /\
  rep st' (a_demote (protected_target st) (a_push (a_detach a x) x target)) /\ protected_target st' = protected_target st.
Proof.
  intros HR Hw Ht. destruct (detach_rep st a x s HR Hw) as (st1 & -> & HR1 & Ht1 & En). cbn [mbind outcome_bind].
  destruct (push_head_rep st1 _ x target HR1 Ht En) as (st2 & -> & HR2 & Ht2). cbn [mbind outcome_bind].
  rewrite (list_of_rep st2 _ Protected HR2) by done. cbn [mbind outcome_bind l_len l_tail a_list]. rewrite Ht2, Ht1. unfold a_demote.
  destruct (protected_target st <? _); [|exists st2; split_and!; [done|done|congruence]].
  destruct (last _) as [t|] eqn:El; [|exists st2; split_and!; [done|done|congruence]].
  assert (Hwt : a_where (a_push (a_detach a x) x target) !! t = Some Protected)
    by (apply (where_of_member st2 _ Protected t HR2); [done|by apply last_Some_elem_of]).
  destruct (requeue_rep st2 _ t Protected Probationary HR2 Hwt ltac:(done)) as (st3 & -> & HR3 & Ht3).
  exists st3. split_and!; [done|done|congruence].
Qed.

Lemma apply_rep (st : SegmentedRecency) (a : ASegments) (e : RecencyEvent) :
  rep st a ->
  exists st', recency_apply st e = Done st' /\ rep st' (a_apply (protected_target st) a e) /\ protected_target st' = protected_target st.
Proof.
  intros HR. unfold recency_apply, a_apply. cbv zeta. pose proof (r_where _ _ HR (event_slot e)) as Hw. rewrite <- Hw.
  destruct (a_where a !! event_slot e) as [s|] eqn:Es; [|by exists st].
  assert (Hnode : s = Detached -> nodes st !! event_slot e = Some (mkNode Detached None None)).
  { intros ->. destruct (nodes st !! event_slot e) as [n|] eqn:En; [|done]. simpl in Hw. f_equal. apply (r_detached _ _ HR _ n En). congruence. }
  destruct e as [x|x|x]; cbn [event_slot] in *.
  - destruct s; try (by exists st); by apply (touch_rep st a x _ _ HR Es).
  - destruct (detach_rep st a x s HR Es) as (st1 & ? & ? & ? & _). by exists st1.
  - destruct (decide (s = Detached)) as [Hs|]; [|by exists st]. by apply push_head_rep; [..|apply Hnode].
Qed.

Lemma victim_rep (st : SegmentedRecency) (a : ASegments) : rep st a -> victim st = Done (a_victim a).
Proof.
  intros HR. unfold victim. rewrite !(list_of_rep st a _ HR) by done. cbn. unfold a_victim.
  by destruct (last (a_prefetched a)), (last (a_probationary a)), (last (a_window a)).
Qed.

(** ** [verify] accepts every represented state *)
Lemma verify_walk_rep (fuel : nat) (st : SegmentedRecency) (s : Segment) (l : list Z) (prev : option Z) (count : Z) :
  seg (nodes st) s prev l None -> count + Z.of_nat (length l) <= Z.of_nat (size (nodes st)) -> (length l < fuel)%nat ->
  verify_walk fuel st s (head l) prev count = Done (last_or l prev, count + Z.of_nat (length l)).
Proof.
  revert fuel prev count. induction l as [|x l IH]; intros [|fuel] prev count HS HC HF; cbn [length] in *; try lia.
  - cbn [verify_walk head]. by rewrite Z.add_0_r.
  - destruct HS as [E HS]. cbn [verify_walk head]. rewrite E. cbn [ok_or lift mbind outcome_bind n_segment n_prev n_next].
    rewrite !bool_decide_true by done. cbn [negb orb]. rewrite (proj2 (Z.ltb_ge _ _)) by lia.
    rewrite head_or_None, IH by (done || lia). rewrite last_or_cons. do 2 f_equal. lia.
Qed.

Lemma verify_list_rep (st : SegmentedRecency) (a : ASegments) (s : Segment) :
  rep st a -> s <> Detached -> verify_list st s = Done (Z.of_nat (length (a_list a s))).
Proof.
  intros HR Hs. unfold verify_list. rewrite (list_of_rep st a s HR Hs). cbn [mbind outcome_bind l_head l_tail l_len].
  destruct (r_lists _ _ HR s Hs) as [_ R2 R3].
  assert (Hle : (length (a_list a s) <= size (nodes st))%nat).
  { apply nodup_size; [done|]. intros y Hy. destruct (seg_elem _ _ _ _ _ _ R2 Hy) as (n & -> & _). by eexists. }
  rewrite verify_walk_rep by (done || lia). cbn [mbind outcome_bind]. rewrite last_or_None, bool_decide_true by done.
  by rewrite Z.eqb_refl.
Qed.

(** The nodes of one segment are exactly the members of its list. *)
Definition in_segment (s : Segment) (p : Z * Node) : bool := bool_decide (n_segment p.2 = s).
Lemma segment_count (st : SegmentedRecency) (a : ASegments) (s : Segment) :
  rep st a -> s <> Detached -> length (List.filter (in_segment s) (map_to_list (nodes st))) = length (a_list a s).
Proof.
  intros HR Hs. destruct (r_lists _ _ HR s Hs) as [_ R2 R3].
  rewrite <- (length_map fst). apply Permutation_length, NoDup_Permutation; [|done|].
  - pose proof (NoDup_fst_map_to_list (nodes st)) as HN. revert HN. generalize (map_to_list (nodes st)). intros l HN.
    induction l as [|p l IH]; [constructor|]. cbn [fmap list_fmap] in HN. apply NoDup_cons in HN as [Hp HN]. simpl.
    destruct (in_segment s p); [|by apply IH]. simpl. constructor; [|by apply IH].
    intros (q & Eq & Hq)%list_elem_of_fmap. apply list_elem_of_In, filter_In in Hq as [Hq _]. apply Hp, list_elem_of_fmap.
    exists q. split; [done|]. by apply list_elem_of_In.
  - intros x. rewrite list_elem_of_fmap. split.
    + intros ([y n] & -> & Hin). apply list_elem_of_In, filter_In in Hin as [Hin Hf]. apply list_elem_of_In, elem_of_map_to_list in Hin.
      apply bool_decide_eq_true in Hf. simpl in *. rewrite <- Hf. apply (r_member _ _ HR y n Hin). congruence.
    + intros Hx. destruct (seg_elem _ _ _ _ _ _ R2 Hx) as (n & En & Hn). exists (x, n). split; [done|].
      apply list_elem_of_In, filter_In. split; [by apply list_elem_of_In, elem_of_map_to_list|]. by apply bool_decide_eq_true.
Qed.

Lemma count_split (l : list (Z * Node)) :
  length l = (length (List.filter (in_segment Window) l) + length (List.filter (in_segment Probationary) l)
    + length (List.filter (in_segment Protected) l) + length (List.filter (in_segment PrefetchedUnused) l)
    + length (List.filter (in_segment Detached) l))%nat.
Proof.
  induction l as [|[x [s p n]] l IH]; [done|]. cbn [List.filter].
  assert (H : forall t, in_segment t (x, mkNode s p n) = bool_decide (s = t)) by done. rewrite !H.
  destruct s; repeat (first [rewrite bool_decide_true by done | rewrite bool_decide_false by done]); cbn [length]; lia.
Qed.

Lemma verify_rep (st : SegmentedRecency) (a : ASegments) : rep st a -> recency_verify st = Done ().
Proof.
  intros HR. unfold recency_verify. rewrite !(verify_list_rep st a _ HR) by done. cbn [mbind outcome_bind].
  rewrite <- !(segment_count st a _ HR) by done.
  replace (length (List.filter (fun n => bool_decide (n_segment n = Detached)) (map snd (map_to_list (nodes st)))))
    with (length (List.filter (in_segment Detached) (map_to_list (nodes st)))).
  2: { generalize (map_to_list (nodes st)). intros l. induction l as [|[x n] l IH]; [done|]. cbn [map snd List.filter in_segment].
       unfold in_segment at 1. cbn [snd]. destruct (bool_decide (n_segment n = Detached)); cbn [length]; congruence. }
  rewrite (proj2 (Z.eqb_eq _ _)); [done|]. pose proof (count_split (map_to_list (nodes st))) as HC.
  rewrite length_map_to_list in HC. lia.
Qed.

(** ** Runs *)
Inductive RecencyOp : Set := RInsert (slot : Z) (s : Segment) | REvent (e : RecencyEvent).

(** A refused insertion leaves the state as it was. *)
Definition r_step (st : SegmentedRecency) (op : RecencyOp) : outcome SegmentedRecency :=
  match op with
  | RInsert x s => match recency_insert st x s with Failed _ => Done st | o => o end
  | REvent e => recency_apply st e
  end.
Fixpoint r_run (st : SegmentedRecency) (ops : list RecencyOp) : outcome SegmentedRecency :=
  match ops with [] => Done st | op :: ops => st ← r_step st op; r_run st ops end.

Definition seg_step (target : Z) (a : ASegments) (op : RecencyOp) : ASegments :=
  match op with RInsert x s => default a (a_insert a x s) | REvent e => a_apply target a e end.
Definition seg_run (target : Z) (a : ASegments) (ops : list RecencyOp) : ASegments := foldl (seg_step target) a ops.

Lemma where_size (st : SegmentedRecency) (a : ASegments) : rep st a -> size (nodes st) = size (a_where a).
Proof.
  intros HR. rewrite <- !(size_dom (D := gset Z)). f_equal. apply set_eq. intros x. rewrite !elem_of_dom, (r_where _ _ HR).
  by rewrite fmap_is_Some.
Qed.

Lemma size_insert_le (m : gmap Z Segment) (x : Z) (s : Segment) : (size (<[x := s]> m) <= size m + 1)%nat.
Proof. destruct (m !! x) eqn:E; [rewrite map_size_insert_Some by done|rewrite map_size_insert_None by done]; lia. Qed.

Lemma size_present (m : gmap Z Segment) (x : Z) (s s' : Segment) : m !! x = Some s -> size (<[x := s']> m) = size m.
Proof. intros E. by rewrite map_size_insert_Some. Qed.

Lemma a_detach_where (a : ASegments) (x : Z) : size (a_where (a_detach a x)) = size (a_where a) /\
  (forall y, is_Some (a_where a !! y) -> is_Some (a_where (a_detach a x) !! y)).
Proof.
  unfold a_detach. destruct (a_where a !! x) as [s|] eqn:E; [|done]. rewrite a_where_set. cbn [a_where a_move].
  split; [by rewrite (size_present _ _ _ _ E)|]. intros y Hy. apply lookup_insert_is_Some'. by right.
Qed.

Lemma a_push_where (a : ASegments) (x : Z) (s : Segment) : is_Some (a_where a !! x) -> size (a_where (a_push a x s)) = size (a_where a).
Proof. intros [t E]. unfold a_push. rewrite a_where_set. cbn [a_where a_move]. by rewrite (size_present _ _ _ _ E). Qed.

Lemma a_push_where_le (a : ASegments) (x : Z) (s : Segment) : (size (a_where (a_push a x s)) <= size (a_where a) + 1)%nat.
Proof. unfold a_push. rewrite a_where_set. apply size_insert_le. Qed.

Lemma a_requeue_where (a : ASegments) (x : Z) (s : Segment) :
  is_Some (a_where a !! x) -> size (a_where (a_push (a_detach a x) x s)) = size (a_where a).
Proof. intros Hx. destruct (a_detach_where a x) as [Hs Hd]. by rewrite a_push_where by (by apply Hd). Qed.

Lemma a_demote_where (target : Z) (a : ASegments) : (size (a_where (a_demote target a)) <= size (a_where a) + 1)%nat.
Proof.
  unfold a_demote. destruct (_ <? _); [|lia]. destruct (last _) as [t|]; [|lia].
  pose proof (a_push_where_le (a_detach a t) t Probationary). destruct (a_detach_where a t) as [Hs _]. lia.
Qed.

Lemma a_apply_where (target : Z) (a : ASegments) (e : RecencyEvent) :
  (size (a_where (a_apply target a e)) <= size (a_where a) + 1)%nat.
Proof.
  unfold a_apply. cbv zeta. destruct (a_where a !! event_slot e) as [s|] eqn:E; [|lia].
  destruct e as [x|x|x]; cbn [event_slot] in *.
  - destruct s; try lia; etransitivity; try apply a_demote_where; rewrite a_requeue_where by (by eexists); lia.
  - destruct (a_detach_where a x) as [-> _]. lia.
  - destruct (decide _); [apply a_push_where_le|lia].
Qed.

Lemma rep_empty (target : Z) : rep (SegmentedRecency_new target) a_empty.
Proof.
  constructor; cbn [nodes SegmentedRecency_new].
  - intros s Hs. constructor; [by destruct s|by destruct s|]. destruct s; constructor.
  - done.
  - intros x n E. by rewrite lookup_empty in E.
  - intros x n E. by rewrite lookup_empty in E.
  - done.
Qed.

(** C33: The linked lists implement the recency policy.  From an empty
    structure, every sequence of fewer than [2^64] insertions, touches, pins
    and unpins runs without a panic or an error; the pointer structure then
    represents exactly the four lists the specification computes; the
    structure's own consistency check [verify] succeeds; and [victim] is the
    least recently used slot of the first non-empty segment in the order
    prefetched-unused, probationary, window, protected. *)
Theorem recency_refines_lists (target : Z) (ops : list RecencyOp) :
  Z.of_nat (length ops) <= u64_max ->
  exists st, r_run (SegmentedRecency_new target) ops = Done st /\
    rep st (seg_run target a_empty ops) /\ recency_verify st = Done () /\
    victim st = Done (a_victim (seg_run target a_empty ops)).
Proof.
  intros HL.
  assert (Hgen : forall ops st a, rep st a -> protected_target st = target ->
    Z.of_nat (size (nodes st)) + Z.of_nat (length ops) <= u64_max ->
    exists st', r_run st ops = Done st' /\ rep st' (seg_run target a ops)).
  { clear. induction ops as [|op ops IH]; intros st a HR Ht HL; [by exists st|]. cbn [r_run seg_run foldl length] in *.
    assert (Hstep : exists st', r_step st op = Done st' /\ rep st' (seg_step target a op) /\ protected_target st' = target /\
      Z.of_nat (size (nodes st')) <= Z.of_nat (size (nodes st)) + 1).
    { destruct op as [x s|e]; cbn [r_step seg_step].
      - pose proof (insert_rep st a x s HR ltac:(lia)) as HI. unfold a_insert in *. destruct (decide (s = Detached)).
        + rewrite HI. exists st. split_and!; [done|done|done|lia].
        + destruct (a_where a !! x); [rewrite HI; exists st; split_and!; [done|done|done|lia]|].
          destruct HI as (st' & -> & HR' & Ht'). exists st'. split_and!; [done|done|congruence|].
          rewrite (where_size _ _ HR'), (where_size _ _ HR). cbn [default id]. unfold a_push. rewrite a_where_set. cbn [a_where a_move].
          pose proof (size_insert_le (a_where a) x s). lia.
      - destruct (apply_rep st a e HR) as (st' & Hap & HR' & Ht'). rewrite Ht in *. exists st'. split_and!; [done|done|congruence|].
        rewrite (where_size _ _ HR'), (where_size _ _ HR). pose proof (a_apply_where target a e). lia. }
    destruct Hstep as (st' & -> & HR' & Ht' & Hsz). cbn [mbind outcome_bind]. apply (IH st' _ HR' Ht'). lia. }
  destruct (Hgen ops (SegmentedRecency_new target) a_empty (rep_empty target) eq_refl) as (st & Hrun & HR);
    [simpl; rewrite map_size_empty; lia|].
  exists st. split_and!; [done|done|by apply (verify_rep st _ HR)|by apply victim_rep].
Qed.

Definition sample_recency_ops : list RecencyOp :=
  [RInsert 1 Window; RInsert 2 Probationary; RInsert 3 PrefetchedUnused; RInsert 4 Probationary; RInsert 2 Window;
   REvent (Touch 2); REvent (Touch 3); REvent (Pin 4); REvent (Unpin 4); REvent (Touch 9)].

Lemma recency_refines_lists_witness :
  seg_run 1 a_empty sample_recency_ops = mkASeg (a_where (seg_run 1 a_empty sample_recency_ops)) [1] [4; 2] [3] [] /\
  exists st, r_run (SegmentedRecency_new 1) sample_recency_ops = Done st /\ recency_verify st = Done () /\ victim st = Done (Some 2).
Proof.
  split; [vm_compute; reflexivity|].
  destruct (recency_refines_lists 1 sample_recency_ops ltac:(vm_compute; discriminate)) as (st & Hr & _ & Hv & Hvic).
  exists st. split; [exact Hr|]. split; [exact Hv|]. rewrite Hvic. vm_compute. reflexivity.
Defined.
