(* ===== verification/PolicyCore.v ===== *)
(** * Cache replacement policies

    [mirage-cache/src/policy_core.rs]: LRU, segmented LRU, the TinyLFU hybrid
    and 2Q over one table of residents.  Ordered maps are [gmap]s whose
    iterations are sorted by key.  [twoq] is [Some] exactly for [TwoQ]; here
    the queues are always present and only [TwoQ] reads or writes them.

    Proved for every run: residency never exceeds the capacity, the 2Q queues
    partition the residents and respect their bounds, a pinned resident stays
    until it is unpinned or removed, and every access has the outcome its
    policy promises. *)
From S2P Require Export Errors.

(** ** Data *)
Inductive PolicyKind : Set := Lru | SegmentedLru | TinyLfuHybrid | TwoQ.
#[export] Instance PolicyKind_eq_dec : EqDecision PolicyKind.
Proof. solve_decision. Defined.
Inductive PolicyEvent : Set :=
| Access (id : Z) (blocking prefetched : bool) | PPin (id : Z) | PUnpin (id : Z) | PRemove (id : Z).
Inductive PolicyOutcome : Set := Hit | PolicyAdmitted (evicted : option Z) | Rejected | Updated.

Record Entry : Set := mkEntry { e_last : Z; e_frequency : Z; e_prefetched_unused : bool; e_pinned : bool }.

Record TwoQQueues : Set := mkTwoQ {
  a1in : list Z; a1in_set : gset Z; a1out : list Z; a1out_set : gset Z;
  am_order : gmap Z Z; am_index : gmap Z Z
}.
Definition TwoQQueues_default : TwoQQueues := mkTwoQ [] ∅ [] ∅ ∅ ∅.

Record PolicyCore : Set := mkPolicy {
  p_kind : PolicyKind; p_capacity : Z; p_clock : Z; p_entries : gmap Z Entry; p_history : gmap Z Z; p_twoq : TwoQQueues
}.

(** ** 2Q queues *)
(** [retain(|entry| *entry != id)]. *)
Definition retain_ne (id : Z) (l : list Z) : list Z := List.filter (fun x => negb (x =? id)) l.

Definition drop_id (q : TwoQQueues) (id : Z) : TwoQQueues :=
  mkTwoQ (retain_ne id (a1in q)) (a1in_set q ∖ {[id]}) (retain_ne id (a1out q)) (a1out_set q ∖ {[id]})
    (match am_index q !! id with Some tick => delete tick (am_order q) | None => am_order q end)
    (delete id (am_index q)).

(** The bound loop of [ghost]; each round drops one id. *)
Fixpoint ghost_trim (fuel : nat) (bound : Z) (out : list Z) (set : gset Z) : list Z * gset Z :=
  match fuel, out with
  | S fuel, g :: out' => if bound <? Z.of_nat (length out) then ghost_trim fuel bound out' (set ∖ {[g]}) else (out, set)
  | _, _ => (out, set)
  end.
Definition ghost (q : TwoQQueues) (id bound : Z) : TwoQQueues :=
  let out := a1out q ++ [id] in
  let '(out', set') := ghost_trim (length out) bound out ({[id]} ∪ a1out_set q) in
  mkTwoQ (a1in q) (a1in_set q) out' set' (am_order q) (am_index q).

(** ** Construction *)
Definition PolicyCore_new (kind : PolicyKind) (capacity : Z) : result PolicyCore :=
  if capacity =? 0 then Err (invalid_argument "policy capacity is zero")
  else Ok (mkPolicy kind capacity 0 ∅ ∅ TwoQQueues_default).

Definition with_entries (p : PolicyCore) (m : gmap Z Entry) : PolicyCore :=
  mkPolicy (p_kind p) (p_capacity p) (p_clock p) m (p_history p) (p_twoq p).
Definition with_twoq (p : PolicyCore) (q : TwoQQueues) : PolicyCore :=
  mkPolicy (p_kind p) (p_capacity p) (p_clock p) (p_entries p) (p_history p) q.

(** ** Victim selection for the recency and frequency policies *)
Definition victim_key (kind : PolicyKind) (x : Z * Entry) : Z * Z * Z * Z :=
  (if bool_decide (kind = SegmentedLru) && e_prefetched_unused x.2 then 0 else 1,
   if bool_decide (kind = TinyLfuHybrid) then e_frequency x.2 else 0,
   e_last x.2, x.1).
Definition key_lt (a b : Z * Z * Z * Z) : bool :=
  let '(a1, a2, a3, a4) := a in let '(b1, b2, b3, b4) := b in
  if a1 =? b1 then if a2 =? b2 then if a3 =? b3 then a4 <? b4 else a3 <? b3 else a2 <? b2 else a1 <? b1.

(** [Iterator::min_by_key]: the first of the least elements. *)
Definition min_by_key {A : Type} (key : A -> Z * Z * Z * Z) (l : list A) : option A :=
  foldl (fun best x => match best with
                       | None => Some x
                       | Some b => if key_lt (key x) (key b) then Some x else Some b
                       end) None l.

Definition policy_victim (p : PolicyCore) : option (Z * Entry) :=
  min_by_key (victim_key (p_kind p))
    (List.filter (fun x => negb (e_pinned x.2)) (sort_by_key fst (map_to_list (p_entries p)))).

(** ** 2Q eviction and access *)
Definition is_pinned (m : gmap Z Entry) (id : Z) : bool :=
  match m !! id with Some e => e_pinned e | None => false end.
Definition evictable_id (p : PolicyCore) (exclude id : Z) : bool :=
  negb (id =? exclude) && negb (is_pinned (p_entries p) id).

(** [a1in.remove(position)] and the ghosting of the id it held. *)
Definition evict_probationary (p : PolicyCore) (position : nat) (victim : Z) : PolicyCore :=
  let q := p_twoq p in
  let q' := ghost (mkTwoQ (delete position (a1in q)) (a1in_set q ∖ {[victim]}) (a1out q) (a1out_set q) (am_order q) (am_index q))
              victim (p_capacity p) in
  with_entries (with_twoq p q') (delete victim (p_entries p)).

Definition evict_protected (p : PolicyCore) (tick victim : Z) : PolicyCore :=
  let q := p_twoq p in
  with_entries (with_twoq p (mkTwoQ (a1in q) (a1in_set q) (a1out q) (a1out_set q) (delete tick (am_order q)) (delete victim (am_index q))))
    (delete victim (p_entries p)).

Definition twoq_evict_one (p : PolicyCore) (exclude : Z) (prefer_probationary : bool) : option (Z * PolicyCore) :=
  let q := p_twoq p in
  let position := list_find (fun id => Is_true (evictable_id p exclude id)) (a1in q) in
  match (if prefer_probationary then position else None) with
  | Some (i, victim) => Some (victim, evict_probationary p i victim)
  | None =>
      match List.find (fun x => evictable_id p exclude x.2) (sort_by_key fst (map_to_list (am_order q))) with
      | Some (tick, victim) => Some (victim, evict_protected p tick victim)
      | None =>
          match position with
          | Some (i, victim) => Some (victim, evict_probationary p i victim)
          | None => None
          end
      end
  end.

(** The eviction loop; every round removes one resident. *)
Fixpoint twoq_loop (fuel : nat) (p : PolicyCore) (id : Z) (evicted : option Z) : result PolicyOutcome * PolicyCore :=
  match fuel with
  | O => (Ok (PolicyAdmitted evicted), p)
  | S fuel =>
      let q := p_twoq p in
      let probationary := Z.of_nat (length (a1in q)) in
      let total := probationary + Z.of_nat (size (am_index q)) in
      let bound := Z.max (p_capacity p / 4) 1 in
      if (probationary <=? bound) && (total <=? p_capacity p) then (Ok (PolicyAdmitted evicted), p)
      else match twoq_evict_one p id (bound <? probationary) with
           | Some (victim, p') => twoq_loop fuel p' id (Some victim)
           | None => (Err (cache_full "all policy residents are pinned"),
                      with_twoq (with_entries p (delete id (p_entries p))) (drop_id (p_twoq p) id))
           end
  end.

(** A resident touch: move to the protected queue's end. *)
Definition touch_entry (p : PolicyCore) (id freq : Z) : gmap Z Entry :=
  match p_entries p !! id with
  | Some e => <[id := mkEntry (p_clock p) freq false (e_pinned e)]> (p_entries p)
  | None => p_entries p
  end.

Definition access_twoq (p : PolicyCore) (id : Z) (prefetched : bool) (freq : Z) : result PolicyOutcome * PolicyCore :=
  let q := p_twoq p in let tick := p_clock p in
  match am_index q !! id with
  | Some old =>
      (Ok Hit, with_entries (with_twoq p (mkTwoQ (a1in q) (a1in_set q) (a1out q) (a1out_set q)
        (<[tick := id]> (delete old (am_order q))) (<[id := tick]> (am_index q)))) (touch_entry p id freq))
  | None =>
      if bool_decide (id ∈ a1in_set q) then
        (Ok Hit, with_entries (with_twoq p (mkTwoQ (retain_ne id (a1in q)) (a1in_set q ∖ {[id]}) (a1out q) (a1out_set q)
          (<[tick := id]> (am_order q)) (<[id := tick]> (am_index q)))) (touch_entry p id freq))
      else
        let q' :=
          if bool_decide (id ∈ a1out_set q)
          then mkTwoQ (a1in q) (a1in_set q) (retain_ne id (a1out q)) (a1out_set q ∖ {[id]})
                 (<[tick := id]> (am_order q)) (<[id := tick]> (am_index q))
          else mkTwoQ (a1in q ++ [id]) ({[id]} ∪ a1in_set q) (a1out q) (a1out_set q) (am_order q) (am_index q) in
        let p' := with_entries (with_twoq p q') (<[id := mkEntry tick freq prefetched false]> (p_entries p)) in
        twoq_loop (S (length (a1in q') + size (am_index q'))) p' id None
  end.

Definition policy_access (p : PolicyCore) (id : Z) (blocking prefetched : bool) : result PolicyOutcome * PolicyCore :=
  let freq := saturating_add_u32 (default 0 (p_history p !! id)) 1 in
  let p := mkPolicy (p_kind p) (p_capacity p) (p_clock p) (p_entries p) (<[id := freq]> (p_history p)) (p_twoq p) in
  if decide (p_kind p = TwoQ) then access_twoq p id prefetched freq else
  match p_entries p !! id with
  | Some e => (Ok Hit, with_entries p (touch_entry p id freq))
  | None =>
      let enter (evicted : option Z) (m : gmap Z Entry) :=
        (Ok (PolicyAdmitted evicted), with_entries p (<[id := mkEntry (p_clock p) freq prefetched false]> m)) in
      if Z.of_nat (size (p_entries p)) =? p_capacity p then
        match policy_victim p with
        | None => (Err (cache_full "all policy residents are pinned"), p)
        | Some (v, e) =>
            if bool_decide (p_kind p = TinyLfuHybrid) && negb blocking && (freq <=? e_frequency e) then (Ok Rejected, p)
            else enter (Some v) (delete v (p_entries p))
        end
      else enter None (p_entries p)
  end.

(** [self.clock.saturating_add(1)]. *)
Definition tick_clock (p : PolicyCore) : PolicyCore :=
  mkPolicy (p_kind p) (p_capacity p) (saturating_add (p_clock p) 1) (p_entries p) (p_history p) (p_twoq p).
(** [if let Some(entry) = self.entries.get_mut(&id) { entry.pinned = b }]. *)
Definition set_pinned (p : PolicyCore) (id : Z) (b : bool) : PolicyCore :=
  match p_entries p !! id with
  | Some e => with_entries p (<[id := mkEntry (e_last e) (e_frequency e) (e_prefetched_unused e) b]> (p_entries p))
  | None => p
  end.

Definition policy_apply (p : PolicyCore) (ev : PolicyEvent) : result PolicyOutcome * PolicyCore :=
  let p := tick_clock p in
  match ev with
  | PPin id => (Ok Updated, set_pinned p id true)
  | PUnpin id => (Ok Updated, set_pinned p id false)
  | PRemove id =>
      let p := with_entries p (delete id (p_entries p)) in
      (Ok Updated, if decide (p_kind p = TwoQ) then with_twoq p (drop_id (p_twoq p) id) else p)
  | Access id blocking prefetched => policy_access p id blocking prefetched
  end.

Definition residents (p : PolicyCore) : list Z := sort_by_key (fun x => x) (map fst (map_to_list (p_entries p))).

Definition policy_run (p : PolicyCore) (evs : list PolicyEvent) : PolicyCore := foldl (fun p e => (policy_apply p e).2) p evs.

(** A refused 2Q admission can empty the protected queue: with one pinned
    probationary page and room to spare, a cold access evicts every protected
    page, reports none of them, and then fails. *)
Example twoq_refused_admission_drops_protected :
  match PolicyCore_new TwoQ 5 with
  | Ok p0 =>
      let p := policy_run p0 [Access 2 false false; Access 2 false false; Access 3 false false; Access 3 false false;
                              Access 1 false false; PPin 1] in
      let '(r, p') := policy_apply p (Access 9 true false) in
      residents p = [1; 2; 3] /\ r = Err (cache_full "all policy residents are pinned") /\ residents p' = [1]
  | Err _ => False
  end.
Proof. vm_compute. auto. Qed.

(** ** The queue invariant

    [twoq_ok D q]: the probationary list and the protected index partition the
    resident set [D], the membership sets mirror their lists, every protected
    order entry points back at its id, and no ghost is resident. *)
Record twoq_ok (D : gset Z) (q : TwoQQueues) : Prop := mk_twoq_ok {
  ok_in_nodup : NoDup (a1in q);
  ok_in_set : forall v, v ∈ a1in_set q <-> v ∈ a1in q;
  ok_out_nodup : NoDup (a1out q);
  ok_out_set : forall v, v ∈ a1out_set q <-> v ∈ a1out q;
  ok_order : forall t v, am_order q !! t = Some v -> am_index q !! v = Some t;
  ok_disjoint : forall v, v ∈ a1in q -> am_index q !! v = None;
  ok_resident : forall v, v ∈ D <-> v ∈ a1in q \/ is_Some (am_index q !! v);
  ok_ghost : forall v, v ∈ a1out q -> v ∉ D
}.

Definition probation_bound (capacity : Z) : Z := Z.max (capacity / 4) 1.

Record policy_ok (p : PolicyCore) : Prop := mk_policy_ok {
  ok_capacity : Z.of_nat (size (p_entries p)) <= p_capacity p;
  ok_positive : 0 < p_capacity p;
  ok_queues : p_kind p = TwoQ -> twoq_ok (dom (p_entries p)) (p_twoq p);
  ok_probation : p_kind p = TwoQ -> Z.of_nat (length (a1in (p_twoq p))) <= probation_bound (p_capacity p);
  ok_ghosts : p_kind p = TwoQ -> Z.of_nat (length (a1out (p_twoq p))) <= p_capacity p
}.

(** *** Lists *)
Lemma elem_of_retain_ne (id v : Z) (l : list Z) : v ∈ retain_ne id l <-> v ∈ l /\ v <> id.
Proof.
  unfold retain_ne. rewrite !list_elem_of_In, filter_In. destruct (Z.eqb_spec v id); naive_solver.
Qed.
Lemma retain_ne_nodup (id : Z) (l : list Z) : NoDup l -> NoDup (retain_ne id l).
Proof. rewrite !NoDup_ListNoDup. apply List.NoDup_filter. Qed.
Lemma retain_ne_length (id : Z) (l : list Z) : (length (retain_ne id l) <= length l)%nat.
Proof. apply filter_length_le. Qed.

Lemma delete_at_perm (i : nat) (v : Z) (l : list Z) : l !! i = Some v -> l ≡ₚ v :: delete i l.
Proof. apply delete_Permutation. Qed.
Lemma elem_of_delete_at (i : nat) (v x : Z) (l : list Z) :
  NoDup l -> l !! i = Some v -> x ∈ delete i l <-> x ∈ l /\ x <> v.
Proof.
  intros HN Hi. pose proof (delete_at_perm i v l Hi) as HP. rewrite HP in HN. apply NoDup_cons in HN as [Hv _].
  rewrite HP at 2. rewrite elem_of_cons. split; [intros Hx; split; [by right|by intros ->]|naive_solver].
Qed.
Lemma delete_at_nodup (i : nat) (v : Z) (l : list Z) : NoDup l -> l !! i = Some v -> NoDup (delete i l).
Proof. intros HN Hi. rewrite (delete_at_perm i v l Hi) in HN. by apply NoDup_cons in HN as [_ ?]. Qed.
Lemma delete_at_retain (i : nat) (v id : Z) (l : list Z) :
  l !! i = Some v -> (length (retain_ne id (delete i l)) <= length (retain_ne id l))%nat.
Proof.
  revert i. induction l as [|x l IH]; intros [|i]; simpl; intros Hi; try done.
  - unfold retain_ne. simpl. destruct (_ =? _); simpl; lia.
  - apply IH in Hi. revert Hi. unfold retain_ne. simpl. destruct (_ =? _); simpl; lia.
Qed.

(** *** Ghost history *)
Lemma ghost_trim_ok (fuel : nat) (bound : Z) (out : list Z) (s : gset Z) :
  0 <= bound -> (length out <= fuel)%nat -> NoDup out -> (forall v, v ∈ s <-> v ∈ out) ->
  let '(out', s') := ghost_trim fuel bound out s in
  Z.of_nat (length out') <= bound /\ NoDup out' /\ (forall v, v ∈ s' <-> v ∈ out') /\ out' ⊆ out.
Proof.
  intros Hb. revert out s. induction fuel as [|fuel IH]; intros [|g out] s; simpl; intros Hf HN Hs; try (split_and!; done || lia).
  apply NoDup_cons in HN as [Hg HN]. destruct (Z.ltb_spec bound (Z.of_nat (S (length out)))).
  - specialize (IH out (s ∖ {[g]})). destruct (ghost_trim fuel bound out (s ∖ {[g]})) as [out' s'].
    destruct IH as (? & ? & ? & ?); [lia|done| |split_and!; [done..|set_solver]].
    intros v. rewrite elem_of_difference, Hs, elem_of_cons, elem_of_singleton. naive_solver.
  - split_and!; [simpl; lia|by constructor|done|done].
Qed.

Lemma ghost_ok (D : gset Z) (q : TwoQQueues) (id bound : Z) :
  0 <= bound -> twoq_ok D q -> id ∉ D -> id ∉ a1out q ->
  twoq_ok D (ghost q id bound) /\ Z.of_nat (length (a1out (ghost q id bound))) <= bound.
Proof.
  intros Hb [] HD Ho. unfold ghost.
  pose proof (ghost_trim_ok (length (a1out q ++ [id])) bound (a1out q ++ [id]) ({[id]} ∪ a1out_set q) Hb ltac:(done)) as HG.
  destruct ghost_trim as [out' s']. destruct HG as (? & ? & ? & Hsub).
  - apply NoDup_app. split_and!; [done|set_solver|apply NoDup_singleton].
  - intros v. rewrite elem_of_union, elem_of_singleton, elem_of_app, list_elem_of_singleton. naive_solver.
  - split; [|done]. split; simpl; try done. intros v Hv. apply Hsub in Hv. set_solver.
Qed.
Lemma ghost_queues (q : TwoQQueues) (id bound : Z) :
  a1in (ghost q id bound) = a1in q /\ am_index (ghost q id bound) = am_index q.
Proof. unfold ghost. by destruct ghost_trim. Qed.

Lemma ghost_order (q : TwoQQueues) (id bound : Z) : am_order (ghost q id bound) = am_order q.
Proof. unfold ghost. by destruct ghost_trim. Qed.

(** *** The queue operations keep the invariant *)
Lemma twoq_default_ok : twoq_ok ∅ TwoQQueues_default.
Proof.
  split; simpl; try set_solver; try constructor.
  - set_solver.
  - intros [?%elem_of_nil|[x Hx]]; [done|]. by rewrite lookup_empty in Hx.
Qed.

Lemma drop_id_ok (D : gset Z) (q : TwoQQueues) (id : Z) : twoq_ok D q -> twoq_ok (D ∖ {[id]}) (drop_id q id).
Proof.
  intros []. split; simpl; try (by apply retain_ne_nodup).
  - intros v. rewrite elem_of_retain_ne. set_solver.
  - intros v. rewrite elem_of_retain_ne. set_solver.
  - intros t v Ht. apply lookup_delete_Some. destruct (am_index q !! id) as [tick|] eqn:E.
    + apply lookup_delete_Some in Ht as [? Ht]. split; [|eauto]. intros ->. apply ok_order0 in Ht. congruence.
    + split; [|eauto]. intros ->. apply ok_order0 in Ht. congruence.
  - intros v [Hv ?]%elem_of_retain_ne. rewrite lookup_delete_ne by done. eauto.
  - intros v. rewrite elem_of_difference, elem_of_singleton, elem_of_retain_ne, ok_resident0, lookup_delete_is_Some.
    intuition congruence.
  - intros v [Hv ?]%elem_of_retain_ne. set_solver.
Qed.

Lemma twoq_retouch_ok (D : gset Z) (q : TwoQQueues) (id old tick : Z) :
  twoq_ok D q -> am_index q !! id = Some old ->
  twoq_ok D (mkTwoQ (a1in q) (a1in_set q) (a1out q) (a1out_set q)
    (<[tick := id]> (delete old (am_order q))) (<[id := tick]> (am_index q))).
Proof.
  intros [] Hid. split; simpl; try done.
  - intros t v [[<- <-]|(? & [? Ht]%lookup_delete_Some)]%lookup_insert_Some; [by simplify_map_eq|].
    apply ok_order0 in Ht. rewrite lookup_insert_ne; congruence.
  - intros v Hv. rewrite lookup_insert_ne; [eauto|]. intros ->. apply ok_disjoint0 in Hv. congruence.
  - intros v. rewrite ok_resident0, lookup_insert_is_Some'. split; [tauto|]. intros [?|[<-|?]]; [tauto| |tauto].
    right. by exists old.
Qed.

(** Promotion of a probationary, a ghost or a new id into the protected queue. *)
Lemma twoq_promote_ok (D : gset Z) (q : TwoQQueues) (id tick : Z) (out : list Z) (outs : gset Z) :
  twoq_ok D q -> am_index q !! id = None -> out = retain_ne id (a1out q) \/ id ∉ a1out q /\ out = a1out q ->
  (forall v, v ∈ outs <-> v ∈ out) ->
  twoq_ok ({[id]} ∪ D) (mkTwoQ (retain_ne id (a1in q)) (a1in_set q ∖ {[id]}) out outs
    (<[tick := id]> (am_order q)) (<[id := tick]> (am_index q))).
Proof.
  intros [] Hid Ho Hs.
  assert (Hout : NoDup out /\ forall v, v ∈ out -> v ∈ a1out q /\ v <> id).
  { destruct Ho as [->|[? ->]]; split; try done.
    - by apply retain_ne_nodup.
    - by intros v ?%elem_of_retain_ne.
    - intros v ?. split; [done|]. congruence. }
  destruct Hout as [HN Hout]. split; simpl; try done; try (by apply retain_ne_nodup).
  - intros v. rewrite elem_of_retain_ne. set_solver.
  - intros t v [[<- <-]|[? Ht]]%lookup_insert_Some; [by simplify_map_eq|]. apply ok_order0 in Ht.
    rewrite lookup_insert_ne; congruence.
  - intros v [Hv ?]%elem_of_retain_ne. rewrite lookup_insert_ne by done. eauto.
  - intros v. rewrite elem_of_union, elem_of_singleton, elem_of_retain_ne, ok_resident0.
    rewrite lookup_insert_is_Some'. destruct (decide (v = id)) as [->|]; [tauto|]. intuition congruence.
  - intros v Hv. apply Hout in Hv. set_solver.
Qed.

Lemma twoq_cold_ok (D : gset Z) (q : TwoQQueues) (id : Z) :
  twoq_ok D q -> id ∉ D -> id ∉ a1out q ->
  twoq_ok ({[id]} ∪ D) (mkTwoQ (a1in q ++ [id]) ({[id]} ∪ a1in_set q) (a1out q) (a1out_set q) (am_order q) (am_index q)).
Proof.
  intros [] HD Ho. assert (id ∉ a1in q /\ am_index q !! id = None) as [Hi Hn].
  { rewrite ok_resident0 in HD. split; [tauto|]. apply eq_None_not_Some. tauto. }
  split; simpl; try done.
  - apply NoDup_app. split_and!; [done|set_solver|apply NoDup_singleton].
  - set_solver.
  - intros v [?|Hx%list_elem_of_singleton]%elem_of_app; subst; eauto.
  - set_solver.
  - set_solver.
Qed.

Lemma twoq_leave_probation_ok (D : gset Z) (q : TwoQQueues) (i : nat) (v bound : Z) :
  0 <= bound -> twoq_ok D q -> a1in q !! i = Some v ->
  let q' := ghost (mkTwoQ (delete i (a1in q)) (a1in_set q ∖ {[v]}) (a1out q) (a1out_set q) (am_order q) (am_index q)) v bound in
  twoq_ok (D ∖ {[v]}) q' /\ Z.of_nat (length (a1out q')) <= bound.
Proof.
  intros Hb Hq Hi. pose proof Hq as []. pose proof (list_elem_of_lookup_2 _ _ _ Hi) as Hv. apply ghost_ok; [done| |set_solver|].
  - split; simpl; try done; try (by eapply delete_at_nodup).
    + intros x. rewrite (elem_of_delete_at i v) by done. set_solver.
    + intros x. rewrite (elem_of_delete_at i v) by done. naive_solver.
    + intros x. rewrite elem_of_difference, elem_of_singleton, ok_resident0, (elem_of_delete_at i v) by done.
      split; [naive_solver|]. intros [[? ?]|Hx]; [naive_solver|]. split; [naive_solver|]. intros ->.
      rewrite ok_disjoint0 in Hx by done. by apply is_Some_None in Hx.
    + set_solver.
  - intros Ho. apply ok_ghost0 in Ho. apply Ho, ok_resident0. by left.
Qed.

Lemma twoq_leave_protected_ok (D : gset Z) (q : TwoQQueues) (t v : Z) :
  twoq_ok D q -> am_order q !! t = Some v ->
  twoq_ok (D ∖ {[v]}) (mkTwoQ (a1in q) (a1in_set q) (a1out q) (a1out_set q) (delete t (am_order q)) (delete v (am_index q))).
Proof.
  intros [] Ht. pose proof (ok_order0 _ _ Ht) as Hv. split; simpl; try done.
  - intros t' v' [? Ht']%lookup_delete_Some. apply ok_order0 in Ht'. rewrite lookup_delete_ne; congruence.
  - intros x Hx. rewrite lookup_delete_ne; [eauto|]. intros ->. apply ok_disjoint0 in Hx. congruence.
  - intros x. rewrite elem_of_difference, elem_of_singleton, ok_resident0, lookup_delete_is_Some.
    split; [intuition congruence|]. intros [Hx|Hx]; [|intuition congruence]. split; [tauto|]. intros ->. apply ok_disjoint0 in Hx. congruence.
  - set_solver.
Qed.

Lemma twoq_size (m : gmap Z Entry) (q : TwoQQueues) :
  twoq_ok (dom m) q -> size m = (length (a1in q) + size (am_index q))%nat.
Proof.
  intros []. rewrite <- size_dom, <- (size_dom (am_index q)), <- (size_list_to_set (C := gset Z) (a1in q)) by done.
  rewrite <- size_union.
  - f_equal. apply set_eq. intros v. rewrite ok_resident0, elem_of_union, elem_of_list_to_set, elem_of_dom. done.
  - intros v. rewrite elem_of_list_to_set, elem_of_dom. intros Hv [t Ht]. rewrite ok_disjoint0 in Ht; done.
Qed.

(** ** Eviction *)
Lemma evictable_id_true (p : PolicyCore) (exclude v : Z) :
  evictable_id p exclude v = true <-> v <> exclude /\ is_pinned (p_entries p) v = false.
Proof. unfold evictable_id. rewrite andb_true_iff, !negb_true_iff, Z.eqb_neq. done. Qed.

(** Until the clock saturates, the protected order lists every protected id. *)
Definition order_full (clock : Z) (q : TwoQQueues) : Prop :=
  forall v t, am_index q !! v = Some t -> am_order q !! t = Some v /\ t <= clock.

(** What one round of 2Q eviction does to the core. *)
Record evicted_one (p p' : PolicyCore) (exclude v : Z) : Prop := mk_evicted_one {
  ev_kind : p_kind p' = p_kind p;
  ev_capacity : p_capacity p' = p_capacity p;
  ev_clock : p_clock p' = p_clock p;
  ev_entries : p_entries p' = delete v (p_entries p);
  ev_other : v <> exclude;
  ev_resident : v ∈ dom (p_entries p);
  ev_unpinned : is_pinned (p_entries p) v = false;
  ev_queues : twoq_ok (dom (p_entries p')) (p_twoq p');
  ev_probation : (length (retain_ne exclude (a1in (p_twoq p'))) <= length (retain_ne exclude (a1in (p_twoq p))))%nat;
  ev_ghosts : Z.of_nat (length (a1out (p_twoq p'))) <= p_capacity p';
  ev_order : forall clock, order_full clock (p_twoq p) -> order_full clock (p_twoq p')
}.

Lemma evict_probationary_ok (p : PolicyCore) (exclude v : Z) (i : nat) :
  0 <= p_capacity p -> twoq_ok (dom (p_entries p)) (p_twoq p) -> a1in (p_twoq p) !! i = Some v ->
  evictable_id p exclude v = true -> evicted_one p (evict_probationary p i v) exclude v.
Proof.
  intros Hc Hq Hi [? ?]%evictable_id_true.
  destruct (twoq_leave_probation_ok (dom (p_entries p)) (p_twoq p) i v (p_capacity p) Hc Hq Hi) as [Hq' Hl].
  split; try done.
  - apply (ok_resident _ _ Hq). left. by eapply list_elem_of_lookup_2.
  - simpl. by rewrite dom_delete_L.
  - simpl. rewrite (proj1 (ghost_queues _ _ _)). by eapply delete_at_retain.
  - intros clock. unfold order_full. simpl. rewrite (proj2 (ghost_queues _ _ _)). by rewrite ghost_order.
Qed.

Lemma evict_protected_ok (p : PolicyCore) (exclude v t : Z) :
  twoq_ok (dom (p_entries p)) (p_twoq p) -> Z.of_nat (length (a1out (p_twoq p))) <= p_capacity p ->
  am_order (p_twoq p) !! t = Some v ->
  evictable_id p exclude v = true -> evicted_one p (evict_protected p t v) exclude v.
Proof.
  intros Hq Hl Ht [? ?]%evictable_id_true. split; try done.
  - apply (ok_resident _ _ Hq). right. exists t. by apply (ok_order _ _ Hq).
  - simpl. rewrite dom_delete_L. by apply twoq_leave_protected_ok.
  - intros clock Hf v' t'. simpl. intros [? Hi]%lookup_delete_Some. apply Hf in Hi as [Ho ?]. split; [|done].
    simpl. rewrite lookup_delete_ne; [done|]. intros ->. congruence.
Qed.

Lemma elem_of_sorted_map {A : Type} (m : gmap Z A) (x : Z * A) :
  In x (sort_by_key fst (map_to_list m)) <-> m !! x.1 = Some x.2.
Proof. rewrite <- list_elem_of_In, sort_by_key_perm. destruct x. apply elem_of_map_to_list. Qed.

Lemma twoq_evict_one_some (p p' : PolicyCore) (exclude v : Z) (prefer : bool) :
  0 <= p_capacity p -> twoq_ok (dom (p_entries p)) (p_twoq p) -> Z.of_nat (length (a1out (p_twoq p))) <= p_capacity p ->
  twoq_evict_one p exclude prefer = Some (v, p') -> evicted_one p p' exclude v.
Proof.
  intros Hc Hq Hl. unfold twoq_evict_one.
  assert (Hpos : forall i x, list_find (fun id => Is_true (evictable_id p exclude id)) (a1in (p_twoq p)) = Some (i, x) ->
            evicted_one p (evict_probationary p i x) exclude x).
  { intros i x (Hi & Hx & _)%list_find_Some. apply Is_true_true in Hx. by apply evict_probationary_ok. }
  destruct (list_find _ _) as [[i x]|] eqn:Ei; destruct prefer; simpl;
    try (intros [= <- <-]; by apply Hpos); destruct (List.find _ _) as [[t y]|] eqn:Et; try done;
    intros [= <- <-]; try (by apply Hpos);
    apply find_some in Et as [Hin%elem_of_sorted_map Hy]; by apply evict_protected_ok.
Qed.

Lemma twoq_evict_one_none (p : PolicyCore) (exclude : Z) (prefer : bool) :
  twoq_evict_one p exclude prefer = None ->
  (forall v, v ∈ a1in (p_twoq p) -> v = exclude \/ is_pinned (p_entries p) v = true) /\
  (forall t v, am_order (p_twoq p) !! t = Some v -> v = exclude \/ is_pinned (p_entries p) v = true).
Proof.
  unfold twoq_evict_one. intros Hnone.
  assert (list_find (fun id => Is_true (evictable_id p exclude id)) (a1in (p_twoq p)) = None /\
    List.find (fun x => evictable_id p exclude x.2) (sort_by_key fst (map_to_list (am_order (p_twoq p)))) = None) as [H1 H2].
  { destruct (list_find _ _) as [[i x]|], prefer, (List.find _ _) as [[t y]|]; done. }
  assert (Hev : forall v, evictable_id p exclude v = false -> v = exclude \/ is_pinned (p_entries p) v = true).
  { intros v [Hx%negb_false_iff%Z.eqb_eq|?%negb_false_iff]%andb_false_iff; auto. }
  split; intros; apply Hev.
  - apply list_find_None in H1. rewrite Forall_forall in H1. apply not_true_is_false. intros E. apply (H1 v); [done|]. by rewrite E.
  - apply (find_none _ _ H2 (t, v)). by apply elem_of_sorted_map.
Qed.

(** The eviction loop ends with the bounds restored and the new id admitted, or
    refuses it; either way pinned residents are untouched. *)
Record loop_post (p : PolicyCore) (id : Z) (ev : option Z) (r : result PolicyOutcome) (p' : PolicyCore) : Prop := mk_loop_post {
  lp_kind : p_kind p' = p_kind p;
  lp_capacity : p_capacity p' = p_capacity p;
  lp_clock : p_clock p' = p_clock p;
  lp_ok : policy_ok p';
  lp_sub : p_entries p' ⊆ p_entries p;
  lp_pinned : forall k e, k <> id -> p_entries p !! k = Some e -> e_pinned e = true -> p_entries p' !! k = Some e;
  lp_order : forall clock, order_full clock (p_twoq p) -> order_full clock (p_twoq p');
  lp_outcome : match r with
    | Ok (PolicyAdmitted ev') =>
        p_entries p' !! id = p_entries p !! id /\
        (ev' = ev /\ p_entries p' = p_entries p \/
         exists v e, ev' = Some v /\ v <> id /\ p_entries p !! v = Some e /\ e_pinned e = false /\ p_entries p' !! v = None)
    | Ok _ => False
    | Err e => e = cache_full "all policy residents are pinned" /\ p_entries p' !! id = None /\
        forall clock, order_full clock (p_twoq p) -> forall k e, p_entries p' !! k = Some e -> e_pinned e = true
    end
}.

Lemma drop_id_order (clock : Z) (q : TwoQQueues) (id : Z) :
  order_full clock q -> order_full clock (drop_id q id).
Proof.
  intros Hf v t. simpl. intros [? Hi]%lookup_delete_Some. pose proof (Hf _ _ Hi) as [Ho ?]. split; [|done]. simpl.
  destruct (am_index q !! id) as [t'|] eqn:E; [|done]. apply Hf in E as [E _].
  rewrite lookup_delete_ne; [done|]. intros ->. congruence.
Qed.

Lemma loop_refused (p : PolicyCore) (id : Z) (ev : option Z) (prefer : bool) :
  p_kind p = TwoQ -> 0 < p_capacity p -> twoq_ok (dom (p_entries p)) (p_twoq p) ->
  Z.of_nat (length (a1out (p_twoq p))) <= p_capacity p ->
  Z.of_nat (size (delete id (p_entries p))) <= p_capacity p ->
  Z.of_nat (length (retain_ne id (a1in (p_twoq p)))) <= probation_bound (p_capacity p) ->
  twoq_evict_one p id prefer = None ->
  loop_post p id ev (Err (cache_full "all policy residents are pinned"))
    (with_twoq (with_entries p (delete id (p_entries p))) (drop_id (p_twoq p) id)).
Proof.
  intros Hk Hc Hq Hl Hs Hi [N1 N2]%twoq_evict_one_none. split; simpl; try done.
  - split; simpl; try done; intros _.
    + rewrite dom_delete_L. by apply drop_id_ok.
    + pose proof (retain_ne_length id (a1out (p_twoq p))). lia.
  - apply delete_subseteq.
  - intros k e ? ? ?. by rewrite lookup_delete_ne.
  - intros clock. by apply drop_id_order.
  - split_and!; [done|by rewrite lookup_delete_eq|]. intros clock Hf k e [? Hk']%lookup_delete_Some.
    assert (Hp : k = id \/ is_pinned (p_entries p) k = true).
    { destruct (proj1 (ok_resident _ _ Hq k)) as [Hin|[t Ht]]; [by apply elem_of_dom|by apply N1|]. apply Hf in Ht as [Ht _]. eauto. }
    destruct Hp as [->|Hp]; [done|]. unfold is_pinned in Hp. by rewrite Hk' in Hp.
Qed.

Lemma loop_admitted (p : PolicyCore) (id : Z) (ev : option Z) :
  0 < p_capacity p -> twoq_ok (dom (p_entries p)) (p_twoq p) ->
  Z.of_nat (length (a1out (p_twoq p))) <= p_capacity p ->
  Z.of_nat (length (a1in (p_twoq p))) <= probation_bound (p_capacity p) ->
  Z.of_nat (length (a1in (p_twoq p))) + Z.of_nat (size (am_index (p_twoq p))) <= p_capacity p ->
  loop_post p id ev (Ok (PolicyAdmitted ev)) p.
Proof.
  intros Hc Hq Hl Hp Ht. split; try done.
  - split; try done. rewrite (twoq_size _ (p_twoq p)) by done. lia.
  - split; [done|]. by left.
Qed.

Lemma loop_step (p p1 p' : PolicyCore) (id v : Z) (ev : option Z) (r : result PolicyOutcome) :
  evicted_one p p1 id v -> loop_post p1 id (Some v) r p' -> loop_post p id ev r p'.
Proof.
  intros [] []. assert (Hsub : p_entries p' ⊆ p_entries p) by (etrans; [done|rewrite ev_entries0; apply delete_subseteq]).
  apply elem_of_dom in ev_resident0 as [e He]. unfold is_pinned in ev_unpinned0. rewrite He in ev_unpinned0.
  split; try congruence; try done.
  - intros k e' Hk Hl Hp. apply lp_pinned0; [done| |done]. rewrite ev_entries0, lookup_delete_ne; congruence.
  - eauto.
  - destruct r as [[| ev' | |]|]; try done.
    + destruct lp_outcome0 as [Hid Hev]. split; [by rewrite Hid, ev_entries0, lookup_delete_ne|]. right.
      destruct Hev as [[-> Heq]|(w & ew & -> & ? & Hw & ? & ?)].
      * exists v, e. split_and!; try done. by rewrite Heq, ev_entries0, lookup_delete_eq.
      * exists w, ew. split_and!; try done. rewrite ev_entries0 in Hw. by apply lookup_delete_Some in Hw as [_ ?].
    + destruct lp_outcome0 as (? & ? & Hall). split_and!; try done. intros clock Hf. eauto.
Qed.

Lemma twoq_loop_ok (fuel : nat) (p : PolicyCore) (id : Z) (ev : option Z) :
  p_kind p = TwoQ -> 0 < p_capacity p -> twoq_ok (dom (p_entries p)) (p_twoq p) ->
  Z.of_nat (length (a1out (p_twoq p))) <= p_capacity p ->
  Z.of_nat (size (delete id (p_entries p))) <= p_capacity p ->
  Z.of_nat (length (retain_ne id (a1in (p_twoq p)))) <= probation_bound (p_capacity p) ->
  (size (p_entries p) < fuel)%nat ->
  let '(r, p') := twoq_loop fuel p id ev in loop_post p id ev r p'.
Proof.
  revert p ev. induction fuel as [|fuel IH]; intros p ev Hk Hc Hq Hl Hs Hr Hf; [lia|]. simpl.
  destruct (_ && _) eqn:G; [zbool; by apply loop_admitted|].
  destruct (twoq_evict_one p id _) as [[v p1]|] eqn:E; [|by eapply loop_refused].
  apply twoq_evict_one_some in E as HE; [|lia|done|done]. pose proof HE as []. rewrite ev_capacity0 in *.
  specialize (IH p1 (Some v)). destruct (twoq_loop fuel p1 id (Some v)) as [r p'].
  eapply loop_step; [done|]. apply elem_of_dom in ev_resident0 as [e He].
  apply IH; rewrite ?ev_capacity0; try congruence; try lia.
  - assert (size (delete id (delete v (p_entries p))) <= size (delete id (p_entries p)))%nat.
    { apply map_subseteq_size, delete_mono, delete_subseteq. }
    rewrite ev_entries0. lia.
  - rewrite ev_entries0, map_size_delete, He. pose proof (map_size_ne_0_lookup_2 (p_entries p) v ltac:(by eexists)). lia.
Qed.

(** ** The victim of the recency and frequency policies *)
Lemma key_lt_true (a1 a2 a3 a4 b1 b2 b3 b4 : Z) :
  key_lt (a1, a2, a3, a4) (b1, b2, b3, b4) = true <->
  a1 < b1 \/ a1 = b1 /\ (a2 < b2 \/ a2 = b2 /\ (a3 < b3 \/ a3 = b3 /\ a4 < b4)).
Proof. unfold key_lt. zcase; split; intros; try done; lia. Qed.
Ltac key_order :=
  repeat match goal with x : Z * Z * Z * Z |- _ => destruct x as [[[? ?] ?] ?] end;
  rewrite ?key_lt_true, <- ?not_true_iff_false, ?key_lt_true; simpl; lia.

Lemma key_lt_trans (a b c : Z * Z * Z * Z) : key_lt b a = false -> key_lt c b = false -> key_lt c a = false.
Proof. key_order. Qed.
Lemma key_lt_asym (a b : Z * Z * Z * Z) : key_lt a b = true -> key_lt b a = false.
Proof. key_order. Qed.
Lemma key_lt_irrefl (a : Z * Z * Z * Z) : key_lt a a = false.
Proof. key_order. Qed.
Lemma key_lt_total (a b : Z * Z * Z * Z) : a.2 <> b.2 -> key_lt b a = false -> key_lt a b = true.
Proof. key_order. Qed.

Lemma min_by_key_spec {A : Type} (key : A -> Z * Z * Z * Z) (l : list A) :
  match min_by_key key l with
  | None => l = []
  | Some x => In x l /\ forall y, In y l -> key_lt (key y) (key x) = false
  end.
Proof.
  induction l as [|z l IH] using rev_ind; [done|]. unfold min_by_key in *. rewrite foldl_app. simpl.
  destruct (foldl _ None l) as [x|].
  - destruct IH as [Hx Hmin]. destruct (key_lt (key z) (key x)) eqn:E; (split; [rewrite in_app_iff; simpl; auto|]);
      intros y [Hy|[<-|[]]]%in_app_iff; eauto using key_lt_irrefl, key_lt_trans, key_lt_asym.
  - subst l. split; [by left|]. intros y [<-|[]]. apply key_lt_irrefl.
Qed.

(** [v] is the unpinned resident of strictly least key. *)
Definition least_unpinned (kind : PolicyKind) (m : gmap Z Entry) (v : Z) (e : Entry) : Prop :=
  m !! v = Some e /\ e_pinned e = false /\
  forall v' e', m !! v' = Some e' -> e_pinned e' = false -> v' <> v ->
    key_lt (victim_key kind (v, e)) (victim_key kind (v', e')) = true.

Lemma policy_victim_spec (p : PolicyCore) :
  match policy_victim p with
  | Some (v, e) => least_unpinned (p_kind p) (p_entries p) v e
  | None => forall v e, p_entries p !! v = Some e -> e_pinned e = true
  end.
Proof.
  unfold policy_victim.
  assert (Hin : forall x, In x (List.filter (fun x => negb (e_pinned x.2)) (sort_by_key fst (map_to_list (p_entries p)))) <->
            p_entries p !! x.1 = Some x.2 /\ e_pinned x.2 = false).
  { intros x. by rewrite filter_In, elem_of_sorted_map, negb_true_iff. }
  pose proof (min_by_key_spec (victim_key (p_kind p)) (List.filter (fun x => negb (e_pinned x.2)) (sort_by_key fst (map_to_list (p_entries p))))) as HM.
  destruct min_by_key as [[v e]|].
  - destruct HM as [[? ?]%Hin Hmin]. split_and!; [done..|]. intros v' e' ? ? ?. apply key_lt_total; [done|].
    by apply Hmin, Hin.
  - intros v e Hv. destruct (e_pinned e) eqn:E; [done|]. exfalso. specialize (Hin (v, e)). rewrite HM in Hin.
    by apply Hin.
Qed.

(** ** Accesses *)
(** What an access promises, by policy. *)
Definition access_outcome (p : PolicyCore) (id : Z) (blocking : bool) (r : result PolicyOutcome) (p' : PolicyCore) : Prop :=
  let D := dom (p_entries p) in let D' := dom (p_entries p') in
  let full := Z.of_nat (size (p_entries p)) = p_capacity p in
  match r with
  | Ok Hit => id ∈ D /\ D' = D
  | Ok (PolicyAdmitted None) => id ∉ D /\ D' = {[id]} ∪ D
  | Ok (PolicyAdmitted (Some v)) =>
      id ∉ D /\ id ∈ D' /\ D' ⊆ {[id]} ∪ D /\ v ∈ D ∖ D' /\ is_pinned (p_entries p) v = false /\
      (p_kind p <> TwoQ -> full /\ D' = {[id]} ∪ D ∖ {[v]} /\ exists e, least_unpinned (p_kind p) (p_entries p) v e)
  | Ok Rejected =>
      p_kind p = TinyLfuHybrid /\ blocking = false /\ id ∉ D /\ p_entries p' = p_entries p /\ full /\
      exists v e f, least_unpinned TinyLfuHybrid (p_entries p) v e /\ p_history p' !! id = Some f /\ f <= e_frequency e
  | Ok Updated => False
  | Err e =>
      e = cache_full "all policy residents are pinned" /\ id ∉ D /\ id ∉ D' /\ D' ⊆ D /\
      (forall k e, p_entries p' !! k = Some e -> e_pinned e = true) /\
      (p_kind p <> TwoQ -> full /\ p_entries p' = p_entries p)
  end.

Record access_post (p : PolicyCore) (id : Z) (blocking : bool) (r : result PolicyOutcome) (p' : PolicyCore) : Prop := mk_access_post {
  ap_kind : p_kind p' = p_kind p;
  ap_capacity : p_capacity p' = p_capacity p;
  ap_clock : p_clock p' = p_clock p;
  ap_ok : policy_ok p';
  ap_pinned : forall k e, p_entries p !! k = Some e -> e_pinned e = true ->
    exists e', p_entries p' !! k = Some e' /\ e_pinned e' = true;
  ap_order : forall c, c < p_clock p -> order_full c (p_twoq p) -> order_full (p_clock p) (p_twoq p');
  ap_outcome : forall c, c < p_clock p -> (p_kind p = TwoQ -> order_full c (p_twoq p)) -> access_outcome p id blocking r p'
}.

Lemma touch_entry_dom (p : PolicyCore) (id f : Z) : dom (touch_entry p id f) = dom (p_entries p).
Proof.
  unfold touch_entry. destruct (p_entries p !! id) as [e|] eqn:E; [|done]. rewrite dom_insert_L.
  apply elem_of_dom_2 in E. set_solver.
Qed.
Lemma touch_entry_pinned (p : PolicyCore) (id f k : Z) (e : Entry) :
  p_entries p !! k = Some e -> e_pinned e = true -> exists e', touch_entry p id f !! k = Some e' /\ e_pinned e' = true.
Proof.
  intros Hk Hp. unfold touch_entry. destruct (p_entries p !! id) as [e0|] eqn:E; [|eauto].
  destruct (decide (id = k)) as [->|]; [|rewrite lookup_insert_ne by done; eauto].
  rewrite lookup_insert_eq. simplify_eq. eauto.
Qed.
Lemma touch_entry_size (p : PolicyCore) (id f : Z) : size (touch_entry p id f) = size (p_entries p).
Proof. by rewrite <- !size_dom, touch_entry_dom. Qed.

Lemma order_full_touch (c tick id : Z) (q : TwoQQueues) (order : gmap Z Z) (i : list Z) (s : gset Z) (o : list Z) (os : gset Z) :
  c < tick -> order_full c q -> (forall t v, v <> id -> am_order q !! t = Some v -> order !! t = Some v) ->
  order_full tick (mkTwoQ i s o os (<[tick := id]> order) (<[id := tick]> (am_index q))).
Proof.
  intros Hc Hf Ho v t. simpl. intros [[<- <-]|[? Hv]]%lookup_insert_Some; [by rewrite lookup_insert_eq|].
  apply Hf in Hv as [Hv ?]. rewrite lookup_insert_ne by lia. split; [eauto|lia].
Qed.
Lemma order_full_mono (c c' : Z) (q : TwoQQueues) : c <= c' -> order_full c q -> order_full c' q.
Proof. intros Hc Hf v t Hv. apply Hf in Hv as [? ?]. split; [done|lia]. Qed.

(** A 2Q touch of a resident id. *)
Lemma twoq_hit_post (p : PolicyCore) (id f : Z) (blocking : bool) (q : TwoQQueues) :
  policy_ok p -> id ∈ dom (p_entries p) -> twoq_ok (dom (p_entries p)) q ->
  (length (a1in q) <= length (a1in (p_twoq p)))%nat -> a1out q = a1out (p_twoq p) -> p_kind p = TwoQ ->
  (forall c, c < p_clock p -> order_full c (p_twoq p) -> order_full (p_clock p) q) ->
  access_post p id blocking (Ok Hit) (with_entries (with_twoq p q) (touch_entry p id f)).
Proof.
  intros [] Hid Hq Hi Ho Hk Hc. split; simpl; try done.
  - split; simpl; rewrite ?touch_entry_size, ?touch_entry_dom; try done; [|by rewrite Ho].
    intros. specialize (ok_probation0 Hk). lia.
  - intros k e. apply touch_entry_pinned.
  - intros c Hlt Hf. by rewrite touch_entry_dom.
Qed.

(** A 2Q admission, once the id is queued and entered. *)
Lemma twoq_admit_post (p : PolicyCore) (id : Z) (blocking : bool) (q : TwoQQueues) (e : Entry) :
  let p1 := with_entries (with_twoq p q) (<[id := e]> (p_entries p)) in
  policy_ok p -> p_kind p = TwoQ -> id ∉ dom (p_entries p) -> e_pinned e = false ->
  twoq_ok ({[id]} ∪ dom (p_entries p)) q -> (length (a1out q) <= length (a1out (p_twoq p)))%nat ->
  (length (retain_ne id (a1in q)) <= length (a1in (p_twoq p)))%nat ->
  (forall c, c < p_clock p -> order_full c (p_twoq p) -> order_full (p_clock p) q) ->
  let '(r, p') := twoq_loop (S (length (a1in q) + size (am_index q))) p1 id None in access_post p id blocking r p'.
Proof.
  intros p1 Hok Hk Hid He Hq Ho Hi Hf. pose proof Hok as []. specialize (ok_ghosts0 Hk). specialize (ok_probation0 Hk).
  assert (Hd : dom (p_entries p1) = {[id]} ∪ dom (p_entries p)) by apply dom_insert_L.
  assert (Hnone : p_entries p !! id = None) by (by apply not_elem_of_dom).
  pose proof (twoq_loop_ok (S (length (a1in q) + size (am_index q))) p1 id None) as HL.
  destruct (twoq_loop _ p1 id None) as [r p']. destruct HL; simpl; try done; try lia.
  - by rewrite <- Hd in Hq.
  - rewrite delete_insert_id by done. lia.
  - rewrite (twoq_size _ q); [lia|]. by rewrite <- Hd in Hq.
  - simpl in *. split; try done.
    + intros k ek Hke Hp. exists ek. split; [|done]. apply lp_pinned0; [|rewrite lookup_insert_ne; [done|]|done]; congruence.
    + eauto.
    + intros c Hc Hfull. specialize (Hf c Hc (Hfull Hk)). apply subseteq_dom in lp_sub0.
      rewrite dom_insert_L in lp_sub0. destruct r as [[|[v|]| |]|err]; try done; simpl.
      * destruct lp_outcome0 as [Hin [[? _]|(w & ew & [= <-] & ? & Hw & ? & Hw')]]; [done|].
        rewrite lookup_insert_ne in Hw by done. rewrite lookup_insert_eq in Hin.
        split_and!; try done.
        -- by eapply elem_of_dom_2.
        -- apply elem_of_difference. split; [by eapply elem_of_dom_2|]. by apply not_elem_of_dom.
        -- unfold is_pinned. by rewrite Hw.
      * destruct lp_outcome0 as [_ [[_ Heq]|(? & ? & ? & _)]]; [|done]. by rewrite Heq, dom_insert_L.
      * destruct lp_outcome0 as (? & Hn & Hall). apply not_elem_of_dom in Hn. split_and!; try done; [set_solver|eauto].
Qed.

Lemma access_twoq_post (p : PolicyCore) (id f : Z) (blocking prefetched : bool) :
  policy_ok p -> p_kind p = TwoQ ->
  let '(r, p') := access_twoq p id prefetched f in access_post p id blocking r p'.
Proof.
  intros Hok Hk. pose proof (ok_queues p Hok Hk) as Hq. pose proof Hq as []. unfold access_twoq.
  destruct (am_index (p_twoq p) !! id) as [old|] eqn:Eold.
  { apply twoq_hit_post; try done; [apply ok_resident0; eauto|by apply twoq_retouch_ok|].
    intros c Hc Hf. eapply order_full_touch; [done..|]. intros t v Hv Ho. rewrite lookup_delete_ne; [done|].
    intros ->. destruct (Hf _ _ Eold) as [Ho' _]. congruence. }
  case_bool_decide as Ein; [apply ok_in_set0 in Ein|].
  { apply twoq_hit_post; try done; simpl.
    - apply ok_resident0. by left.
    - assert (Hid : {[id]} ∪ dom (p_entries p) = dom (p_entries p)).
      { assert (id ∈ dom (p_entries p)) by (apply ok_resident0; by left). set_solver. }
      rewrite <- Hid at 1. apply twoq_promote_ok; try done. right. split; [|done]. intros Ho. apply (ok_ghost0 id Ho), ok_resident0. by left.
    - apply retain_ne_length.
    - intros c Hc Hf. by eapply order_full_touch. }
  rewrite ok_in_set0 in Ein.
  assert (Hid : id ∉ dom (p_entries p)) by (rewrite ok_resident0, Eold; intros [?|[? ?]]; done).
  assert (Hkeep : retain_ne id (a1in (p_twoq p)) = a1in (p_twoq p)).
  { apply forallb_filter_id, forallb_forall. intros x Hx%list_elem_of_In. apply negb_true_iff, Z.eqb_neq. congruence. }
  case_bool_decide as Eout; apply (twoq_admit_post p id blocking); try done; simpl.
  - rewrite <- Hkeep at 1. assert (Hs : a1in_set (p_twoq p) = a1in_set (p_twoq p) ∖ {[id]}) by set_solver. rewrite Hs.
    apply twoq_promote_ok; try done; [by left|]. intros v. rewrite elem_of_retain_ne. set_solver.
  - apply retain_ne_length.
  - by rewrite Hkeep.
  - intros c Hc Hf. by eapply order_full_touch.
  - apply twoq_cold_ok; try done. by rewrite <- ok_out_set0.
  - unfold retain_ne in *. rewrite List.filter_app, Hkeep. simpl. rewrite Z.eqb_refl. simpl. by rewrite app_nil_r.
  - intros c Hc. apply (order_full_mono c (p_clock p) (p_twoq p)). lia.
Qed.

(** Policies without queues. *)
Lemma policy_ok_plain (p : PolicyCore) (m : gmap Z Entry) :
  p_kind p <> TwoQ -> 0 < p_capacity p -> Z.of_nat (size m) <= p_capacity p -> policy_ok (with_entries p m).
Proof. by split. Qed.

Lemma plain_hit_post (p : PolicyCore) (id f : Z) (blocking : bool) (e : Entry) :
  p_kind p <> TwoQ -> policy_ok p -> p_entries p !! id = Some e ->
  access_post p id blocking (Ok Hit) (with_entries p (touch_entry p id f)).
Proof.
  intros Hk [] He. split; try done.
  - apply policy_ok_plain; [done..|]. by rewrite touch_entry_size.
  - intros k e'. apply touch_entry_pinned.
  - intros c Hc. apply order_full_mono. lia.
  - intros c Hc _. simpl. rewrite touch_entry_dom. split; [by eapply elem_of_dom_2|done].
Qed.

Lemma plain_admit_post (p : PolicyCore) (id : Z) (blocking : bool) (e : Entry) :
  p_kind p <> TwoQ -> policy_ok p -> p_entries p !! id = None -> Z.of_nat (size (p_entries p)) <> p_capacity p ->
  access_post p id blocking (Ok (PolicyAdmitted None)) (with_entries p (<[id := e]> (p_entries p))).
Proof.
  intros Hk [] He Hs. split; try done.
  - apply policy_ok_plain; [done..|]. rewrite map_size_insert_None by done. lia.
  - intros k ek Hke ?. exists ek. split; [|done]. simpl. rewrite lookup_insert_ne; congruence.
  - intros c Hc. apply order_full_mono. lia.
  - intros c Hc _. simpl. rewrite dom_insert_L. split; [by apply not_elem_of_dom|done].
Qed.

Lemma plain_replace_post (p : PolicyCore) (id v : Z) (blocking : bool) (e ev : Entry) :
  p_kind p <> TwoQ -> policy_ok p -> p_entries p !! id = None -> Z.of_nat (size (p_entries p)) = p_capacity p ->
  least_unpinned (p_kind p) (p_entries p) v ev ->
  access_post p id blocking (Ok (PolicyAdmitted (Some v))) (with_entries p (<[id := e]> (delete v (p_entries p)))).
Proof.
  intros Hk [] He Hs HL. pose proof HL as (Hv & Hu & _).
  assert (Hpin : is_pinned (p_entries p) v = false) by (unfold is_pinned; by rewrite Hv).
  assert (Hne : v <> id) by congruence.
  pose proof (elem_of_dom_2 _ _ _ Hv) as HvD. pose proof He as HeD. apply not_elem_of_dom in HeD.
  split; try done.
  - apply policy_ok_plain; [done..|].
    rewrite map_size_insert_None by (by rewrite lookup_delete_ne). rewrite map_size_delete, Hv. lia.
  - intros k ek Hke ?. exists ek. split; [|done]. simpl. rewrite lookup_insert_ne, lookup_delete_ne; congruence.
  - intros c Hc. apply order_full_mono. lia.
  - intros c Hc _. simpl. rewrite dom_insert_L, dom_delete_L. split_and!; try done; [set_solver..|]. intros _. split_and!; eauto.
Qed.

Lemma unchanged_post (p : PolicyCore) (id : Z) (blocking : bool) (r : result PolicyOutcome) :
  policy_ok p -> access_outcome p id blocking r p -> access_post p id blocking r p.
Proof. intros Hok Ho. split; try done; [eauto|]. intros c Hc. apply order_full_mono. lia. Qed.

Lemma policy_access_post (p : PolicyCore) (id : Z) (blocking prefetched : bool) :
  policy_ok p ->
  let '(r, p') := policy_access p id blocking prefetched in access_post p id blocking r p'.
Proof.
  intros Hok. unfold policy_access. set (f := saturating_add_u32 _ 1).
  set (p1 := mkPolicy _ _ _ _ (<[id := f]> _) _).
  assert (Hok1 : policy_ok p1) by (destruct Hok; by split).
  assert (Hback : forall x, (let '(r, p') := x in access_post p1 id blocking r p') -> let '(r, p') := x in access_post p id blocking r p').
  { intros [r p'] []. by split. }
  apply Hback.
  case_decide as Hk; [by apply access_twoq_post|].
  destruct (p_entries p1 !! id) as [e|] eqn:E; [by eapply plain_hit_post|].
  destruct (Z.eqb_spec (Z.of_nat (size (p_entries p1))) (p_capacity p1)) as [Hs|Hs]; [|by apply plain_admit_post].
  pose proof (policy_victim_spec p1) as HV. destruct (policy_victim p1) as [[v ev]|].
  - destruct (_ && _ && _) eqn:G; [|by eapply plain_replace_post]. apply andb_true_iff in G as [[Hb ?]%andb_true_iff ?].
    apply bool_decide_eq_true in Hb. zbool. rewrite Hb in HV. apply unchanged_post; [done|].
    split_and!; try done; [by apply not_elem_of_dom|]. exists v, ev, f. split_and!; try done. apply lookup_insert_eq.
  - apply unchanged_post; [done|]. split_and!; try done; by apply not_elem_of_dom.
Qed.

(** ** Events and runs *)
(** What every event keeps: the invariant, the configuration, the pinned
    residents it is allowed to touch, and the protected order. *)
Record event_post (p : PolicyCore) (protects : Z -> Prop) (p' : PolicyCore) : Prop := mk_event_post {
  ep_ok : policy_ok p';
  ep_kind : p_kind p' = p_kind p;
  ep_capacity : p_capacity p' = p_capacity p;
  ep_clock : p_clock p' = p_clock p;
  ep_pinned : forall k e, p_entries p !! k = Some e -> e_pinned e = true -> protects k ->
    exists e', p_entries p' !! k = Some e' /\ e_pinned e' = true;
  ep_order : forall c, c < p_clock p -> order_full c (p_twoq p) -> order_full (p_clock p) (p_twoq p')
}.

Lemma set_pinned_post (p : PolicyCore) (id : Z) (b : bool) :
  policy_ok p -> event_post p (fun k => k <> id \/ b = true) (set_pinned p id b).
Proof.
  intros Hok. unfold set_pinned. destruct (p_entries p !! id) as [e|] eqn:E.
  - destruct Hok. assert (Hd : forall e', dom (<[id := e']> (p_entries p)) = dom (p_entries p)).
    { intros e'. rewrite dom_insert_L. apply elem_of_dom_2 in E. set_solver. }
    split; try done.
    + split; simpl; rewrite ?Hd; try done. by rewrite map_size_insert_Some.
    + intros k ek Hke Hp Hor. simpl. destruct (decide (id = k)) as [->|]; [|rewrite lookup_insert_ne by done; eauto].
      rewrite lookup_insert_eq. eexists. split; [done|]. simpl. naive_solver.
    + intros c ?. apply (order_full_mono c (p_clock p) (p_twoq p)). lia.
  - split; try done; [eauto|]. intros c ?. apply (order_full_mono c (p_clock p) (p_twoq p)). lia.
Qed.

Lemma policy_ok_remove (p : PolicyCore) (id : Z) :
  policy_ok p ->
  policy_ok (if decide (p_kind p = TwoQ) then with_twoq (with_entries p (delete id (p_entries p))) (drop_id (p_twoq p) id)
             else with_entries p (delete id (p_entries p))).
Proof.
  intros []. pose proof (map_subseteq_size _ _ (delete_subseteq (p_entries p) id)).
  pose proof (retain_ne_length id (a1in (p_twoq p))). pose proof (retain_ne_length id (a1out (p_twoq p))).
  case_decide as Hk; [|apply policy_ok_plain; [done..|lia]]. specialize (ok_probation0 Hk). specialize (ok_ghosts0 Hk).
  split; simpl; try done; try lia. intros _. rewrite dom_delete_L. by apply drop_id_ok, ok_queues0.
Qed.

Lemma remove_post (p : PolicyCore) (id : Z) :
  policy_ok p ->
  event_post p (fun k => k <> id)
    (if decide (p_kind p = TwoQ) then with_twoq (with_entries p (delete id (p_entries p))) (drop_id (p_twoq p) id)
     else with_entries p (delete id (p_entries p))).
Proof.
  intros Hok. split; [by apply policy_ok_remove|by case_decide..| |].
  - intros k e Hk Hp Hne. exists e. split; [|done]. case_decide; simpl; by rewrite lookup_delete_ne.
  - intros c Hc Hf. apply (order_full_mono c); [lia|]. case_decide; simpl; [by apply drop_id_order|done].
Qed.

Lemma policy_apply_post (p : PolicyCore) (ev : PolicyEvent) :
  policy_ok p -> event_post (tick_clock p) (fun k => ev <> PUnpin k /\ ev <> PRemove k) (policy_apply p ev).2.
Proof.
  intros Hok. assert (Hok1 : policy_ok (tick_clock p)) by (destruct Hok; by split).
  destruct ev as [id blocking prefetched|id|id|id]; unfold policy_apply; cbv zeta; cbn [snd].
  - pose proof (policy_access_post (tick_clock p) id blocking prefetched Hok1) as HA.
    destruct policy_access as [r p']. destruct HA. split; try done; eauto.
  - destruct (set_pinned_post (tick_clock p) id true Hok1). split; try done; eauto.
  - destruct (set_pinned_post (tick_clock p) id false Hok1). split; try done.
    intros k e ? ? [? ?]. eapply ep_pinned0; [done..|]. left. congruence.
  - destruct (remove_post (tick_clock p) id Hok1). split; try done.
    intros k e ? ? [? ?]. eapply ep_pinned0; [done..|]. congruence.
Qed.

Lemma PolicyCore_new_ok (kind : PolicyKind) (capacity : Z) (p : PolicyCore) :
  0 <= capacity -> PolicyCore_new kind capacity = Ok p ->
  policy_ok p /\ p_kind p = kind /\ p_capacity p = capacity /\ p_clock p = 0 /\ order_full 0 (p_twoq p).
Proof.
  unfold PolicyCore_new. intros Hc. destruct (Z.eqb_spec capacity 0); [done|]. intros [= <-].
  split_and!; try done. split; simpl; try done; try lia.
  - intros _. rewrite dom_empty_L. apply twoq_default_ok.
  - unfold probation_bound. lia.
Qed.

Lemma policy_run_ok (p : PolicyCore) (evs : list PolicyEvent) :
  policy_ok p -> policy_ok (policy_run p evs) /\ p_kind (policy_run p evs) = p_kind p /\
  p_capacity (policy_run p evs) = p_capacity p.
Proof.
  revert p. induction evs as [|ev evs IH]; intros p Hok; [done|]. simpl.
  destruct (policy_apply_post p ev Hok). destruct (IH _ ep_ok0) as (? & Hk & Hc).
  split_and!; [done|by rewrite Hk, ep_kind0|by rewrite Hc, ep_capacity0].
Qed.

Lemma policy_run_order (p : PolicyCore) (evs : list PolicyEvent) :
  policy_ok p -> p_clock p + Z.of_nat (length evs) <= u64_max -> order_full (p_clock p) (p_twoq p) ->
  p_clock (policy_run p evs) = p_clock p + Z.of_nat (length evs) /\
  order_full (p_clock (policy_run p evs)) (p_twoq (policy_run p evs)).
Proof.
  revert p. induction evs as [|ev evs IH]; intros p Hok Hl Hf; simpl in *; [split; [lia|done]|].
  destruct (policy_apply_post p ev Hok). assert (Ht : p_clock (tick_clock p) = p_clock p + 1) by (simpl; mach).
  rewrite Ht in *. destruct (IH (policy_apply p ev).2) as [IHc IHo]; [done|lia| |split; [lia|done]].
  rewrite ep_clock0. eapply ep_order0; [|exact Hf]. lia.
Qed.

Lemma run_keeps_pinned (p : PolicyCore) (evs : list PolicyEvent) (k : Z) (e : Entry) :
  policy_ok p -> p_entries p !! k = Some e -> e_pinned e = true ->
  Forall (fun ev => ev <> PUnpin k /\ ev <> PRemove k) evs ->
  exists e', p_entries (policy_run p evs) !! k = Some e' /\ e_pinned e' = true.
Proof.
  intros Hok He Hp HF. revert p e Hok He Hp. induction HF as [|ev evs Hev _ IH]; intros p e Hok He Hp; simpl; [eauto|].
  destruct (policy_apply_post p ev Hok). destruct (ep_pinned0 k e He Hp Hev) as (e' & ? & ?). eauto.
Qed.

(** C38: along every run of events, from any policy and capacity that
    [PolicyCore::new] accepts, the number of residents never exceeds the
    capacity; under 2Q the probationary queue and the protected index
    partition the residents, the probationary queue stays within its quarter
    of the capacity (at least one), the ghost history within the capacity,
    and no ghost is resident. *)
Theorem policy_capacity_bounded (kind : PolicyKind) (capacity : Z) (p0 : PolicyCore) (evs : list PolicyEvent) :
  0 <= capacity -> PolicyCore_new kind capacity = Ok p0 ->
  let p := policy_run p0 evs in
  let q := p_twoq p in
  Z.of_nat (length (residents p)) <= capacity /\
  (kind = TwoQ ->
    Z.of_nat (length (a1in q)) <= Z.max (capacity / 4) 1 /\
    Z.of_nat (length (a1out q)) <= capacity /\
    NoDup (a1in q) /\
    (forall v, v ∈ residents p <-> v ∈ a1in q \/ is_Some (am_index q !! v)) /\
    (forall v, v ∈ a1in q -> am_index q !! v = None) /\
    (forall v, v ∈ a1out q -> v ∉ residents p)).
Proof.
  intros Hc (Hok & <- & <- & _)%PolicyCore_new_ok; [|done]. intros p q.
  destruct (policy_run_ok p0 evs Hok) as (Hrun & Hk & Hcap). fold p in Hrun, Hk, Hcap. destruct Hrun.
  assert (Hr : forall v, v ∈ residents p <-> v ∈ dom (p_entries p)).
  { intros v. unfold residents. rewrite sort_by_key_perm, elem_of_dom. rewrite list_elem_of_fmap. split.
    - intros ([k e] & -> & ?%elem_of_map_to_list). by exists e.
    - intros [e He]. exists (v, e). split; [done|]. by apply elem_of_map_to_list. }
  split.
  - unfold residents. rewrite sort_by_key_perm, length_map, length_map_to_list. lia.
  - rewrite <- Hk, <- Hcap. intros HT. destruct (ok_queues0 HT). split_and!; auto.
    + intros v. by rewrite Hr.
    + intros v. rewrite Hr. auto.
Qed.

(** Witness. *)
Lemma policy_capacity_bounded_witness :
  PolicyCore_new TwoQ 4 = Ok (mkPolicy TwoQ 4 0 ∅ ∅ TwoQQueues_default) /\
  Z.of_nat (length (residents (policy_run (mkPolicy TwoQ 4 0 ∅ ∅ TwoQQueues_default)
    [Access 1 true false; Access 1 true false; Access 2 true false; Access 3 true false]))) <= 4.
Proof.
  split; [reflexivity|].
  exact (proj1 (policy_capacity_bounded TwoQ 4 (mkPolicy TwoQ 4 0 ∅ ∅ TwoQQueues_default)
    [Access 1 true false; Access 1 true false; Access 2 true false; Access 3 true false] ltac:(lia) eq_refl)).
Defined.

(** No policy evicts a pinned resident: from any reachable state in which
    an id is resident and pinned, it is still resident and pinned after any
    further events that neither unpin nor remove it. *)
Theorem policy_pins_respected (kind : PolicyKind) (capacity : Z) (p0 : PolicyCore) (evs more : list PolicyEvent) (k : Z) :
  0 <= capacity -> PolicyCore_new kind capacity = Ok p0 ->
  k ∈ dom (p_entries (policy_run p0 evs)) -> is_pinned (p_entries (policy_run p0 evs)) k = true ->
  Forall (fun ev => ev <> PUnpin k /\ ev <> PRemove k) more ->
  let p := policy_run p0 (evs ++ more) in
  k ∈ dom (p_entries p) /\ is_pinned (p_entries p) k = true.
Proof.
  intros Hc (Hok & _)%PolicyCore_new_ok [e He]%elem_of_dom Hp HF; [|done]. unfold is_pinned in Hp. rewrite He in Hp. simpl.
  destruct (policy_run_ok p0 evs Hok) as (Hrun & _).
  destruct (run_keeps_pinned _ more k e Hrun He Hp HF) as (e' & He' & Hp').
  unfold policy_run in *. rewrite foldl_app. split; [by eapply elem_of_dom_2|]. unfold is_pinned. by rewrite He'.
Qed.

(** Witness. *)
Lemma policy_pins_respected_witness :
  exists p0, PolicyCore_new TwoQ 2 = Ok p0 /\
  is_pinned (p_entries (policy_run p0 ([Access 1 true false; Access 1 true false; PPin 1] ++
    [Access 2 true false; Access 2 true false; Access 3 true false; Access 4 true true]))) 1 = true.
Proof.
  eexists. split; [reflexivity|].
  eapply (policy_pins_respected TwoQ 2); [lia|reflexivity|vm_compute; reflexivity..|]. repeat constructor; discriminate.
Defined.

(** What an access does, in every state reached by fewer than 2^64
    events.  A hit is reported exactly for residents and changes no residency.
    An admission makes the id resident; a reported victim was an unpinned
    resident and is gone.  For LRU, segmented LRU and TinyLFU exactly that one
    page leaves, only at full capacity, and it is the unpinned resident of
    least key (unused prefetches, then frequency, then age).  TinyLFU alone
    rejects, only non-blocking accesses not more frequent than that victim.
    A refusal leaves only pinned residents, and for the first three policies
    happens only at full capacity and changes nothing. *)
Theorem policy_access_outcomes (kind : PolicyKind) (capacity : Z) (p0 : PolicyCore) (evs : list PolicyEvent)
    (id : Z) (blocking prefetched : bool) :
  0 <= capacity -> PolicyCore_new kind capacity = Ok p0 -> Z.of_nat (length evs) < u64_max ->
  let p := policy_run p0 evs in
  let '(r, p') := policy_apply p (Access id blocking prefetched) in
  access_outcome p id blocking r p'.
Proof.
  intros Hc (Hok & Hk & Hcap & Hclk & Hord)%PolicyCore_new_ok Hl; [|done]. intros p.
  destruct (policy_run_ok p0 evs Hok) as (Hrun & _).
  destruct (policy_run_order p0 evs Hok) as [Hclock Ho]; [lia|by rewrite Hclk|]. fold p in Hrun, Hclock, Ho.
  assert (Hok1 : policy_ok (tick_clock p)) by (destruct Hrun; by split).
  pose proof (policy_access_post (tick_clock p) id blocking prefetched Hok1) as HA.
  unfold policy_apply. destruct policy_access as [r p']. destruct HA. eapply (ap_outcome0 (p_clock p)); [|done].
  simpl. mach.
Qed.

(** Witness. *)
Lemma policy_access_outcomes_witness :
  let p := policy_run (mkPolicy Lru 2 0 ∅ ∅ TwoQQueues_default) [Access 1 true false; Access 2 true false; Access 1 true false] in
  PolicyCore_new Lru 2 = Ok (mkPolicy Lru 2 0 ∅ ∅ TwoQQueues_default) /\
  (policy_apply p (Access 3 true false)).1 = Ok (PolicyAdmitted (Some 2)) /\
  let '(r, p') := policy_apply p (Access 3 true false) in access_outcome p 3 true r p'.
Proof.
  split; [reflexivity|]. split; [vm_compute; reflexivity|].
  exact (policy_access_outcomes Lru 2 (mkPolicy Lru 2 0 ∅ ∅ TwoQQueues_default)
    [Access 1 true false; Access 2 true false; Access 1 true false] 3 true false ltac:(lia) eq_refl ltac:(reflexivity)).
Defined.
