(* ===== verification/ResidencyGate.v ===== *)
(** * The residency gate

    [mirage-cache/src/resident.rs], [lease.rs], the page lookup of [index.rs]
    and the eviction of [evict.rs], for one resident page: its atomic gate
    word, its place in the index, its pins and its arena slot, shared by any
    number of readers and evictors.

    Every atomic access, lock section, database call and file operation is one
    step of one agent, and a run is any interleaving of steps; [GateAction]
    names the step and, for a call into the database or the file system, its
    answer.  Proved for every interleaving: the gate counts the live guards,
    at most one eviction is in progress, and no guard lives while a page is
    evicted or after its slot is deallocated. *)
From S2P Require Export Errors.

(** ** The gate word *)
Definition RESIDENT : Z := Z.shiftl 2 32.
Definition EVICTING : Z := Z.shiftl 3 32.
Definition LEASE_MASK : Z := u32_max.

Definition gate_phase (word : Z) : Z := Z.shiftr word 32.
Definition gate_leases (word : Z) : Z := Z.land word LEASE_MASK.

Definition active_read_leases (word : Z) : Z :=
  if gate_phase word =? 2 then as_u32 (gate_leases word) else 0.

(** ** Agents

    A reader is between the steps of [ResidentIndex::acquire] and
    [ResidentPage::acquire], or holds a guard; an evictor is between the steps
    of [evict_inner]. *)
Inductive Agent : Set :=
| RFound | RLoaded (current : Z) | RGuard
| EFound (ignore_pins : bool) | EChecked | EBegun | ERecorded | EMarked | ERemoved | EFreed
| Returned.
#[export] Instance Agent_eq_dec : EqDecision Agent.
Proof. solve_decision. Defined.

Record GateState : Set := mkGate {
  gate : Z; indexed : bool; pin_reasons : gset Z; allocated : bool; agents : gmap nat Agent
}.

Inductive GateAction : Set :=
| Lookup | Load | NotResident | Saturated | CasOk | CasFail | DropGuard
| EvictLookup (ignore_pins : bool) | CheckPins | BeginEviction
| DbBegin (ok : bool) | WriteMetadata (ok : bool) | RemoveFromIndex | Deallocate (ok : bool) | FinishDeallocation
| PinPage (reason : Z) | ReleasePins (reason : Z).

Definition set_agent (s : GateState) (a : nat) (x : Agent) : GateState :=
  mkGate (gate s) (indexed s) (pin_reasons s) (allocated s) (<[a := x]> (agents s)).
Definition set_gate (s : GateState) (w : Z) : GateState :=
  mkGate w (indexed s) (pin_reasons s) (allocated s) (agents s).

(** [compare_exchange]: whether it succeeds, and the word after it. *)
Definition compare_exchange (word expected new : Z) : bool * Z :=
  if word =? expected then (true, new) else (false, word).

(** [begin_eviction] and [cancel_eviction]. *)
Definition begin_eviction (s : GateState) : result unit * GateState :=
  let '(ok, w) := compare_exchange (gate s) RESIDENT EVICTING in
  (if ok then Ok tt else Err (cache_full "resident page has active read leases or is already evicting"), set_gate s w).
Definition cancel_eviction (s : GateState) : GateState := set_gate s (compare_exchange (gate s) EVICTING RESIDENT).2.

(** [release]: [fetch_sub(1)]. *)
Definition release_lease (s : GateState) : GateState := set_gate s (gate s -! 1).

(** ** Steps

    [None] when the action is not the agent's next step in this state. *)
Definition reader_step (s : GateState) (a : nat) (act : GateAction) : option GateState :=
  match act, agents s !! a with
  | Lookup, None => Some (set_agent s a (if indexed s then RFound else Returned))
  | Load, Some RFound => Some (set_agent s a (RLoaded (gate s)))
  | NotResident, Some (RLoaded cur) => if gate_phase cur =? 2 then None else Some (set_agent s a Returned)
  | Saturated, Some (RLoaded cur) =>
      if (gate_phase cur =? 2) && (gate_leases cur =? LEASE_MASK) then Some (set_agent s a Returned) else None
  | CasOk, Some (RLoaded cur) =>
      if (gate_phase cur =? 2) && negb (gate_leases cur =? LEASE_MASK) then
        let '(ok, w) := compare_exchange (gate s) cur (cur +! 1) in
        if ok then Some (set_agent (set_gate s w) a RGuard) else None
      else None
  | CasFail, Some (RLoaded cur) =>
      (* [compare_exchange_weak] may fail on an equal word *)
      if (gate_phase cur =? 2) && negb (gate_leases cur =? LEASE_MASK) then Some (set_agent s a RFound) else None
  | DropGuard, Some RGuard => Some (set_agent (release_lease s) a Returned)
  | _, _ => None
  end.

(** [evict_inner]; [WriteMetadata] is the write and the flush of the slot's
    metadata, whose failure returns at once, and [FinishDeallocation] all that
    follows a successful deallocation. *)
Definition evict_step (s : GateState) (a : nat) (act : GateAction) : option GateState :=
  match act, agents s !! a with
  | EvictLookup ignore_pins, None => Some (set_agent s a (if indexed s then EFound ignore_pins else Returned))
  | CheckPins, Some (EFound ignore_pins) =>
      Some (set_agent s a (if negb ignore_pins && negb (bool_decide (pin_reasons s = ∅)) then Returned else EChecked))
  | BeginEviction, Some EChecked =>
      let '(r, s') := begin_eviction s in
      Some (set_agent s' a (match r with Ok _ => EBegun | Err _ => Returned end))
  | DbBegin ok, Some EBegun =>
      if ok then Some (set_agent s a ERecorded) else Some (set_agent (cancel_eviction s) a Returned)
  | WriteMetadata ok, Some ERecorded => Some (set_agent s a (if ok then EMarked else Returned))
  | RemoveFromIndex, Some EMarked =>
      Some (set_agent (mkGate (gate s) false (pin_reasons s) (allocated s) (agents s)) a ERemoved)
  | Deallocate ok, Some ERemoved =>
      if ok then Some (set_agent (mkGate (gate s) (indexed s) (pin_reasons s) false (agents s)) a EFreed)
      else Some (set_agent s a Returned)
  | FinishDeallocation, Some EFreed => Some (set_agent s a Returned)
  | _, _ => None
  end.

(** Any agent, or a change of the pins. *)
Definition gate_step (s : GateState) (a : nat) (act : GateAction) : option GateState :=
  match act with
  | PinPage r => Some (mkGate (gate s) (indexed s) ({[r]} ∪ pin_reasons s) (allocated s) (agents s))
  | ReleasePins r => Some (mkGate (gate s) (indexed s) (pin_reasons s ∖ {[r]}) (allocated s) (agents s))
  | Lookup | Load | NotResident | Saturated | CasOk | CasFail | DropGuard => reader_step s a act
  | _ => evict_step s a act
  end.

Fixpoint gate_run (s : GateState) (acts : list (nat * GateAction)) : option GateState :=
  match acts with
  | [] => Some s
  | (a, act) :: acts => s' ← gate_step s a act; gate_run s' acts
  end.

(** [ResidentPage::new], entered in the index. *)
Definition ResidentPage_new : GateState := mkGate RESIDENT true ∅ true ∅.

(** ** Classes of agents *)
Definition is_guard (x : Agent) : bool := match x with RGuard => true | _ => false end.
(** Between the start of an eviction and its deallocation. *)
Definition is_preparing (x : Agent) : bool :=
  match x with EBegun | ERecorded | EMarked | ERemoved => true | _ => false end.
Definition is_evictor (x : Agent) : bool := match x with EFreed => true | _ => is_preparing x end.

(** ** The invariant *)
Record gate_ok (s : GateState) : Prop := mk_gate_ok {
  gok_word : gate s = RESIDENT + count_in is_guard (agents s) /\ count_in is_guard (agents s) <= LEASE_MASK /\
               count_in is_evictor (agents s) = 0 \/
             gate s = EVICTING /\ count_in is_guard (agents s) = 0 /\ count_in is_evictor (agents s) <= 1;
  gok_slot : allocated s = false -> gate s = EVICTING /\ count_in is_preparing (agents s) = 0
}.

Lemma gate_constants : RESIDENT = 8589934592 /\ EVICTING = 12884901888 /\ LEASE_MASK = 4294967295.
Proof. done. Qed.

Lemma gate_word_split (n : Z) : 0 <= n <= LEASE_MASK -> gate_phase (RESIDENT + n) = 2 /\ gate_leases (RESIDENT + n) = n.
Proof.
  destruct gate_constants as (HR & _ & HM). unfold gate_phase, gate_leases. rewrite HR, HM. intros Hn. split.
  - rewrite Z.shiftr_div_pow2 by done. symmetry. apply (Z.div_unique _ _ 2 n); [left|]; change (2 ^ 32) with 4294967296; lia.
  - change 4294967295 with (Z.ones 32). rewrite Z.land_ones by done. symmetry.
    apply (Z.mod_unique _ _ 2 n); [left|]; change (2 ^ 32) with 4294967296; lia.
Qed.

(** The counts after agent [a] becomes [y], and the facts of the old state. *)
Ltac gate_counts s a y :=
  pose proof (count_in_set is_guard (agents s) a y); pose proof (count_in_set is_evictor (agents s) a y);
  pose proof (count_in_set is_preparing (agents s) a y);
  pose proof (count_in_nonneg is_guard (agents s)); pose proof (count_in_nonneg is_guard (<[a := y]> (agents s)));
  pose proof (count_in_nonneg is_evictor (agents s)); pose proof (count_in_nonneg is_evictor (<[a := y]> (agents s)));
  pose proof (count_in_nonneg is_preparing (agents s)); pose proof (count_in_nonneg is_preparing (<[a := y]> (agents s)));
  destruct gate_constants as (? & ? & ?).

(** An agent moves without entering or leaving a counted class, or ends an eviction. *)
Lemma gate_ok_move (s : GateState) (i : bool) (p : gset Z) (a : nat) (y : Agent) :
  gate_ok s -> is_guard y = was is_guard (agents s !! a) ->
  (is_evictor y = true -> was is_evictor (agents s !! a) = true) ->
  (is_preparing y = true -> was is_preparing (agents s !! a) = true) ->
  gate_ok (mkGate (gate s) i p (allocated s) (<[a := y]> (agents s))).
Proof.
  intros [Hw Hs] Hg He Hp. gate_counts s a y. rewrite Hg in *.
  apply b2z_le in He, Hp.
  split; simpl; [lia|]. intros Hf. specialize (Hs Hf). lia.
Qed.

Lemma gate_ok_acquire (s : GateState) (a : nat) (cur : Z) :
  gate_ok s -> agents s !! a = Some (RLoaded cur) -> gate s = cur -> gate_phase cur = 2 -> gate_leases cur <> LEASE_MASK ->
  gate_ok (set_agent (set_gate s (cur +! 1)) a RGuard).
Proof.
  intros [Hw Hs] Ha <- Hp Hl. gate_counts s a RGuard. rewrite Ha in *. simpl in *.
  destruct Hw as [(Hw & Hle & Hev)|(Hw & _)]; [|by rewrite Hw in Hp].
  rewrite Hw in Hl. rewrite (proj2 (gate_word_split (count_in is_guard (agents s)) ltac:(lia))) in Hl.
  assert (Hsum : gate s +! 1 = gate s + 1) by (apply wadd_u64_small; mach).
  split; simpl; [left; lia|]. intros Hf. specialize (Hs Hf). lia.
Qed.

Lemma gate_ok_release (s : GateState) (a : nat) :
  gate_ok s -> agents s !! a = Some RGuard -> gate_ok (set_agent (release_lease s) a Returned).
Proof.
  intros [Hw Hs] Ha. gate_counts s a Returned. rewrite Ha in *. simpl in *.
  destruct Hw as [(Hw & Hle & Hev)|(Hw & Hz & _)]; [|lia].
  assert (Hsub : gate s -! 1 = gate s - 1) by (apply wsub_u64_small; mach).
  split; simpl; [left; lia|]. intros Hf. specialize (Hs Hf). lia.
Qed.

Lemma gate_ok_begin (s : GateState) (a : nat) :
  gate_ok s -> agents s !! a = Some EChecked -> gate s = RESIDENT ->
  gate_ok (set_agent (set_gate s EVICTING) a EBegun).
Proof.
  intros [Hw Hs] Ha HG. gate_counts s a EBegun. rewrite Ha in *. simpl in *.
  destruct Hw as [(Hw & ? & ?)|(Hw & _)]; [|lia]. split; simpl; [right; lia|]. intros Hf. specialize (Hs Hf). lia.
Qed.

Lemma gate_ok_cancel (s : GateState) (a : nat) :
  gate_ok s -> agents s !! a = Some EBegun -> gate_ok (set_agent (cancel_eviction s) a Returned).
Proof.
  intros [Hw Hs] Ha. assert (Hp : 0 < count_in is_preparing (agents s)) by (apply (count_in_pos _ _ a); by rewrite Ha).
  gate_counts s a Returned. rewrite Ha in *. simpl in *. destruct Hw as [(Hw & _ & ?)|(Hw & ? & ?)]; [lia|].
  split; simpl; unfold compare_exchange; rewrite Hw, Z.eqb_refl; simpl; [left; lia|]. intros Hf. specialize (Hs Hf). lia.
Qed.

Lemma gate_ok_deallocate (s : GateState) (a : nat) :
  gate_ok s -> agents s !! a = Some ERemoved ->
  gate_ok (set_agent (mkGate (gate s) (indexed s) (pin_reasons s) false (agents s)) a EFreed).
Proof.
  intros [Hw Hs] Ha. gate_counts s a EFreed. rewrite Ha in *. simpl in *.
  assert (count_in is_preparing (agents s) <= count_in is_evictor (agents s)) by (apply count_in_le; by intros []).
  destruct Hw as [(Hw & _ & ?)|(Hw & ? & ?)]; [lia|]. split; simpl; [right; lia|]. intros _. split; [done|lia].
Qed.

Lemma gate_ok_pins (s : GateState) (p : gset Z) : gate_ok s -> gate_ok (mkGate (gate s) (indexed s) p (allocated s) (agents s)).
Proof. by intros []. Qed.

Lemma gate_step_ok (s s' : GateState) (a : nat) (act : GateAction) :
  gate_ok s -> gate_step s a act = Some s' -> gate_ok s'.
Proof.
  intros Hok Hstep. unfold gate_step, reader_step, evict_step, begin_eviction, compare_exchange in Hstep.
  destruct act; destruct (agents s !! a) as [x|] eqn:Ea; try destruct x; try discriminate Hstep;
    repeat match type of Hstep with context [if ?c then _ else _] => destruct c eqn:?E end;
    try discriminate Hstep; injection Hstep as <-; zbool;
    try (by apply gate_ok_pins); try (by apply (gate_ok_move s); rewrite ?Ea); try (by eapply gate_ok_acquire);
    try (by apply gate_ok_release); try (by apply gate_ok_begin); try (by apply gate_ok_cancel); by apply gate_ok_deallocate.
Qed.

Lemma gate_run_ok (s s' : GateState) (acts : list (nat * GateAction)) :
  gate_ok s -> gate_run s acts = Some s' -> gate_ok s'.
Proof.
  revert s. induction acts as [|[a act] acts IH]; intros s Hok; simpl; [by intros [= <-]|].
  destruct (gate_step s a act) as [s1|] eqn:E; [|done]. simpl. apply IH. by eapply gate_step_ok.
Qed.

Lemma ResidentPage_new_ok : gate_ok ResidentPage_new.
Proof. split; [left|]; done. Qed.

Lemma no_guard (m : gmap nat Agent) (b : nat) : count_in is_guard m = 0 -> m !! b <> Some RGuard.
Proof. intros Hz Hb. assert (0 < count_in is_guard m) by (apply (count_in_pos _ _ b); by rewrite Hb). lia. Qed.

(** C34: in every interleaving of readers, evictors and pin changes on a
    resident page, the gate counts exactly the live read guards; at most one
    eviction is in progress; while one is, and ever after the slot has been
    deallocated, no guard is live; an eviction can begin exactly when no guard
    is live and none has begun; and the assertions [release] and
    [cancel_eviction] make about the gate word hold whenever they run. *)
Theorem gate_excludes_readers (acts : list (nat * GateAction)) (s : GateState) :
  gate_run ResidentPage_new acts = Some s ->
  active_read_leases (gate s) = count_in is_guard (agents s) /\
  count_in is_evictor (agents s) <= 1 /\
  (0 < count_in is_evictor (agents s) -> forall b, agents s !! b <> Some RGuard) /\
  (allocated s = false -> forall b, agents s !! b <> Some RGuard) /\
  ((begin_eviction s).1 = Ok tt <-> gate s <> EVICTING /\ forall b, agents s !! b <> Some RGuard) /\
  (forall b, agents s !! b = Some RGuard -> gate_phase (gate s) = 2 /\ 0 < gate_leases (gate s)) /\
  (forall b, agents s !! b = Some EBegun -> gate s = EVICTING).
Proof.
  intros Hrun. destruct (gate_run_ok _ _ _ ResidentPage_new_ok Hrun) as [Hw Hs]. destruct gate_constants as (HR & HE & HM).
  pose proof (count_in_nonneg is_guard (agents s)) as Hg.
  assert (Hpos : forall f b, was f (agents s !! b) = true -> 0 < count_in f (agents s)) by (intros; by eapply count_in_pos).
  assert (Hnone : (forall b, agents s !! b <> Some RGuard) -> count_in is_guard (agents s) = 0).
  { intros Hb. apply count_in_zero. intros b. specialize (Hb b). destruct (agents s !! b) as [[]|]; done. }
  destruct Hw as [(Hw & Hle & Hev)|(Hw & Hz & Hev)].
  - destruct (gate_word_split (count_in is_guard (agents s)) ltac:(lia)) as [Hp Hl]. rewrite <- Hw in Hp, Hl. split_and!.
    + unfold active_read_leases. rewrite Hp, Z.eqb_refl, Hl. apply as_u32_small. unfold LEASE_MASK in Hle. lia.
    + lia.
    + lia.
    + intros Hf. destruct (Hs Hf). lia.
    + unfold begin_eviction, compare_exchange. destruct (Z.eqb_spec (gate s) RESIDENT) as [He|He]; simpl; (split; [intros Hb|intros [? Hb]]); try done.
      * split; [lia|]. intros b. apply no_guard. lia.
      * apply Hnone in Hb. lia.
    + intros b Hb. split; [done|]. rewrite Hl. apply (Hpos _ b). by rewrite Hb.
    + intros b Hb. assert (0 < count_in is_evictor (agents s)) by (apply (Hpos _ b); by rewrite Hb). lia.
  - split_and!; try done.
    + unfold active_read_leases. rewrite Hw. by rewrite Hz.
    + intros _ b. by apply no_guard.
    + intros _ b. by apply no_guard.
    + unfold begin_eviction, compare_exchange. rewrite Hw, HE, HR. simpl. split; [done|]. by intros [? _].
    + intros b Hb. by destruct (no_guard _ b Hz).
Qed.

(** Two readers, one of them gone, an eviction that waits for the other. *)
Definition sample_gate_run : list (nat * GateAction) :=
  [(0%nat, Lookup); (1%nat, Lookup); (0%nat, Load); (1%nat, Load); (0%nat, CasOk); (1%nat, CasFail); (1%nat, Load); (1%nat, CasOk);
   (2%nat, EvictLookup false); (2%nat, CheckPins); (0%nat, DropGuard); (2%nat, BeginEviction); (1%nat, DropGuard);
   (3%nat, Lookup); (4%nat, EvictLookup false); (4%nat, CheckPins); (4%nat, BeginEviction); (3%nat, Load); (4%nat, DbBegin true);
   (4%nat, WriteMetadata true); (4%nat, RemoveFromIndex); (3%nat, NotResident); (4%nat, Deallocate true); (4%nat, FinishDeallocation)].

(** Witness. *)
Lemma gate_excludes_readers_witness :
  exists s, gate_run ResidentPage_new sample_gate_run = Some s /\ allocated s = false /\
            count_in is_evictor (agents s) <= 1.
Proof.
  eexists. split; [vm_compute; reflexivity|]. split; [reflexivity|].
  refine (proj1 (proj2 (gate_excludes_readers sample_gate_run _ _))). vm_compute. reflexivity.
Defined.

(** The pin check is a separate step: a pin that lands between the check and
    the gate does not stop the eviction. *)
Example pin_after_check_is_evicted :
  option_map (fun s => (bool_decide (pin_reasons s = ∅), allocated s))
    (gate_run ResidentPage_new [(0%nat, EvictLookup false); (0%nat, CheckPins); (1%nat, PinPage 7); (0%nat, BeginEviction);
       (0%nat, DbBegin true); (0%nat, WriteMetadata true); (0%nat, RemoveFromIndex); (0%nat, Deallocate true)])
  = Some (false, false).
Proof. vm_compute. reflexivity. Qed.

(** A metadata write that fails during eviction leaves the page in the index
    behind a closed gate: later reads miss and later evictions are refused. *)
Example metadata_failure_strands_page :
  option_map (fun s => (indexed s, gate s =? EVICTING, agents s !! 1%nat))
    (gate_run ResidentPage_new [(0%nat, EvictLookup false); (0%nat, CheckPins); (0%nat, BeginEviction); (0%nat, DbBegin true);
       (0%nat, WriteMetadata false); (1%nat, EvictLookup false); (1%nat, CheckPins); (1%nat, BeginEviction)])
  = Some (true, true, Some Returned).
Proof. vm_compute. reflexivity. Qed.
