(* ===== verification/Flights.v ===== *)
(** * Single-flight page fetches

    [mirage-scheduler/src/flight.rs] and [flight_map.rs]: callers that miss
    the same page share one fetch.  The map hands out the live flight of a
    hash or creates one; a flight counts its waiters, keeps the most urgent
    priority and deadline, is cancelled when nobody needs it, and is completed
    once, waking the tasks that polled it.

    The state is the map, the flights by [Arc] identity and the calls in
    progress.  Every atomic access and every lock section of a flight is one
    step of one call, and a run is any interleaving; [acquire] holds the map's
    mutex over its steps, the other map operations are one section.
    [waiting] records the tasks that were told to wait and not woken since.
    The hash a flight was created for is kept with it. *)
From S2P Require Export Scheduler.

(** ** Data *)
Definition FlightResult : Set := (unit + FlightFailure)%type.

Record PageFlight : Set := mkFlight {
  pf_hash : Hash; pf_priority : Z; earliest_deadline_ns : Z; waiter_count : Z; required_waiters : Z; pf_max_waiters : Z;
  admission_reason : bool; pf_cancelled : bool; flight_result : option FlightResult; flight_wakers : list nat
}.

Record AcquireArgs : Set := mkArgs { aq_hash : Hash; aq_priority : FetchPriority; aq_deadline : Z; aq_required : bool }.

(** Where a call is. *)
Inductive Call : Set :=
| AFound (x : AcquireArgs) (f : nat) | ANotCancelled (x : AcquireArgs) (f : nat) | ALive (x : AcquireArgs) (f : nat)
| AAdd (x : AcquireArgs) (f : nat) | AAddRequired (x : AcquireArgs) (f : nat) | APriority (x : AcquireArgs) (f : nat)
| ADeadline (x : AcquireArgs) (f : nat) | ACreate (x : AcquireArgs)
| AttachedHandle (f : nat) (required owner : bool)
| DRequired (f : nat) (required : bool)
| MRequired (f : nat) | MWaiters (f : nat) | MAdmission (f : nat) | MCancel (f : nat)
| CComplete (f : nat) (r : FlightResult) | CWake (f : nat) (tasks : list nat)
| Refused | CallDone.

Record FlightMap : Set := mkFlights {
  flights : gmap Hash nat; max_waiters : Z; map_lock : option nat;
  arcs : gmap nat PageFlight; next_arc : nat; calls : gmap nat Call; waiting : gset (nat * nat)
}.

Inductive FlightAction : Set :=
| FAcquire (x : AcquireArgs) | FDetach | FSetAdmission (f : nat) (present : bool)
| FComplete (h : Hash) (r : FlightResult) | FCompleteOwned (h : Hash) (f : nat) (r : FlightResult)
| FPoll (f : nat) | FStep.

(** ** Flights *)
Definition PageFlight_new (h : Hash) (priority : FetchPriority) (deadline_ns : Z) (required : bool) (max : Z) : PageFlight :=
  mkFlight h (FetchPriority_u8 priority) deadline_ns 1 (Z.b2z required) max false false None [].

Definition add_waiter (p : PageFlight) : PageFlight :=
  mkFlight (pf_hash p) (pf_priority p) (earliest_deadline_ns p) (wadd_u32 (waiter_count p) 1) (required_waiters p)
    (pf_max_waiters p) (admission_reason p) (pf_cancelled p) (flight_result p) (flight_wakers p).
Definition sub_waiter (p : PageFlight) : PageFlight :=
  mkFlight (pf_hash p) (pf_priority p) (earliest_deadline_ns p) (wsub_u32 (waiter_count p) 1) (required_waiters p)
    (pf_max_waiters p) (admission_reason p) (pf_cancelled p) (flight_result p) (flight_wakers p).
Definition set_required (p : PageFlight) (n : Z) : PageFlight :=
  mkFlight (pf_hash p) (pf_priority p) (earliest_deadline_ns p) (waiter_count p) n
    (pf_max_waiters p) (admission_reason p) (pf_cancelled p) (flight_result p) (flight_wakers p).
Definition min_priority (p : PageFlight) (priority : FetchPriority) : PageFlight :=
  mkFlight (pf_hash p) (Z.min (pf_priority p) (FetchPriority_u8 priority)) (earliest_deadline_ns p) (waiter_count p) (required_waiters p)
    (pf_max_waiters p) (admission_reason p) (pf_cancelled p) (flight_result p) (flight_wakers p).
Definition min_deadline (p : PageFlight) (d : Z) : PageFlight :=
  mkFlight (pf_hash p) (pf_priority p) (Z.min (earliest_deadline_ns p) d) (waiter_count p) (required_waiters p)
    (pf_max_waiters p) (admission_reason p) (pf_cancelled p) (flight_result p) (flight_wakers p).
Definition store_admission (p : PageFlight) (b : bool) : PageFlight :=
  mkFlight (pf_hash p) (pf_priority p) (earliest_deadline_ns p) (waiter_count p) (required_waiters p)
    (pf_max_waiters p) b (pf_cancelled p) (flight_result p) (flight_wakers p).
Definition cancel_flight (p : PageFlight) : PageFlight :=
  mkFlight (pf_hash p) (pf_priority p) (earliest_deadline_ns p) (waiter_count p) (required_waiters p)
    (pf_max_waiters p) (admission_reason p) true (flight_result p) (flight_wakers p).

(** [PageFlight::complete]: the result and the taken wakers; nothing when a
    result is present. *)
Definition flight_complete (p : PageFlight) (r : FlightResult) : PageFlight * list nat :=
  match flight_result p with
  | Some _ => (p, [])
  | None =>
      (mkFlight (pf_hash p) (pf_priority p) (earliest_deadline_ns p) (waiter_count p) (required_waiters p)
         (pf_max_waiters p) (admission_reason p) (pf_cancelled p) (Some r) [], flight_wakers p)
  end.

(** [FlightCompletion::poll] by a task: [None] is [Pending]. *)
Definition flight_poll (p : PageFlight) (task : nat) : option FlightResult * PageFlight :=
  match flight_result p with
  | Some r => (Some r, p)
  | None =>
      (None, mkFlight (pf_hash p) (pf_priority p) (earliest_deadline_ns p) (waiter_count p) (required_waiters p)
         (pf_max_waiters p) (admission_reason p) (pf_cancelled p) None
         (if bool_decide (task ∈ flight_wakers p) then flight_wakers p else flight_wakers p ++ [task]))
  end.

(** ** The map *)
Definition with_limits (max : Z) : FlightMap := mkFlights ∅ max None ∅ 0 ∅ ∅.

Definition set_call (s : FlightMap) (a : nat) (c : Call) : FlightMap :=
  mkFlights (flights s) (max_waiters s) (map_lock s) (arcs s) (next_arc s) (<[a := c]> (calls s)) (waiting s).
Definition set_arc (s : FlightMap) (f : nat) (p : PageFlight) : FlightMap :=
  mkFlights (flights s) (max_waiters s) (map_lock s) (<[f := p]> (arcs s)) (next_arc s) (calls s) (waiting s).
Definition set_lock (s : FlightMap) (o : option nat) : FlightMap :=
  mkFlights (flights s) (max_waiters s) o (arcs s) (next_arc s) (calls s) (waiting s).
Definition set_map (s : FlightMap) (m : gmap Hash nat) : FlightMap :=
  mkFlights m (max_waiters s) (map_lock s) (arcs s) (next_arc s) (calls s) (waiting s).
Definition set_waiting (s : FlightMap) (w : gset (nat * nat)) : FlightMap :=
  mkFlights (flights s) (max_waiters s) (map_lock s) (arcs s) (next_arc s) (calls s) w.

(** The insertion that ends [acquire]: a fresh [Arc]. *)
Definition create_flight (s : FlightMap) (a : nat) (x : AcquireArgs) : FlightMap :=
  mkFlights (<[aq_hash x := next_arc s]> (flights s)) (max_waiters s) None
    (<[next_arc s := PageFlight_new (aq_hash x) (aq_priority x) (aq_deadline x) (aq_required x) (max_waiters s)]> (arcs s))
    (S (next_arc s)) (<[a := AttachedHandle (next_arc s) (aq_required x) true]> (calls s)) (waiting s).

(** The next step of a call that is under way. *)
Definition call_step (s : FlightMap) (a : nat) (c : Call) : option FlightMap :=
  match c with
  | AFound x f =>
      p ← arcs s !! f; Some (set_call s a (if pf_cancelled p then ACreate x else ANotCancelled x f))
  | ANotCancelled x f =>
      p ← arcs s !! f; Some (set_call s a (match flight_result p with Some _ => ACreate x | None => ALive x f end))
  | ALive x f =>
      p ← arcs s !! f;
      Some (if pf_max_waiters p <=? waiter_count p then set_lock (set_call s a Refused) None else set_call s a (AAdd x f))
  | AAdd x f => p ← arcs s !! f; Some (set_call (set_arc s f (add_waiter p)) a (AAddRequired x f))
  | AAddRequired x f =>
      p ← arcs s !! f;
      Some (set_call (if aq_required x then set_arc s f (set_required p (wadd_u32 (required_waiters p) 1)) else s) a (APriority x f))
  | APriority x f => p ← arcs s !! f; Some (set_call (set_arc s f (min_priority p (aq_priority x))) a (ADeadline x f))
  | ADeadline x f =>
      p ← arcs s !! f;
      Some (set_lock (set_call (set_arc s f (min_deadline p (aq_deadline x))) a (AttachedHandle f (aq_required x) false)) None)
  | ACreate x => Some (create_flight s a x)
  | DRequired f required =>
      p ← arcs s !! f;
      Some (set_call (if required then set_arc s f (set_required p (wsub_u32 (required_waiters p) 1)) else s) a (MRequired f))
  | MRequired f => p ← arcs s !! f; Some (set_call s a (if required_waiters p =? 0 then MWaiters f else CallDone))
  | MWaiters f => p ← arcs s !! f; Some (set_call s a (if waiter_count p =? 0 then MAdmission f else CallDone))
  | MAdmission f => p ← arcs s !! f; Some (set_call s a (if admission_reason p then CallDone else MCancel f))
  | MCancel f => p ← arcs s !! f; Some (set_call (set_arc s f (cancel_flight p)) a CallDone)
  | CComplete f r =>
      p ← arcs s !! f;
      let '(p', tasks) := flight_complete p r in Some (set_call (set_arc s f p') a (CWake f tasks))
  | CWake f tasks =>
      match tasks with
      | [] => Some (set_call s a CallDone)
      | t :: tasks => Some (set_waiting (set_call s a (CWake f tasks)) (waiting s ∖ {[(f, t)]}))
      end
  | AttachedHandle _ _ _ | Refused | CallDone => None
  end.

(** [None] when the action is not possible for [a] in this state. *)
Definition flight_step (s : FlightMap) (a : nat) (act : FlightAction) : option FlightMap :=
  match act, calls s !! a with
  | FAcquire x, None =>
      if bool_decide (map_lock s = None)
      then Some (set_lock (set_call s a (match flights s !! aq_hash x with Some f => AFound x f | None => ACreate x end)) (Some a))
      else None
  | FDetach, Some (AttachedHandle f required _) =>
      p ← arcs s !! f; Some (set_call (set_arc s f (sub_waiter p)) a (DRequired f required))
  | FSetAdmission f present, None =>
      p ← arcs s !! f;
      Some (set_call (set_arc s f (store_admission p present)) a (if present then CallDone else MRequired f))
  | FComplete h r, None =>
      if bool_decide (map_lock s = None)
      then Some (match flights s !! h with
                 | Some f => set_call (set_map s (delete h (flights s))) a (CComplete f r)
                 | None => set_call s a CallDone
                 end)
      else None
  | FCompleteOwned h f r, None =>
      if bool_decide (map_lock s = None) && bool_decide (is_Some (arcs s !! f))
      then Some (set_call (if bool_decide (flights s !! h = Some f) then set_map s (delete h (flights s)) else s) a (CComplete f r))
      else None
  | FPoll f, _ =>
      p ← arcs s !! f;
      let '(r, p') := flight_poll p a in
      Some (set_waiting (set_arc s f p') (match r with Some _ => waiting s ∖ {[(f, a)]} | None => {[(f, a)]} ∪ waiting s end))
  | FStep, Some c => call_step s a c
  | _, _ => None
  end.

Fixpoint flight_run (s : FlightMap) (acts : list (nat * FlightAction)) : option FlightMap :=
  match acts with
  | [] => Some s
  | (a, act) :: acts => s' ← flight_step s a act; flight_run s' acts
  end.

(** Two waiters of one page; the owner completes it. *)
Definition demo_args (required : bool) : AcquireArgs := mkArgs 42 P0Blocking 100 required.
Example two_waiters_share_one_flight :
  option_map (fun s => (calls s !! 0%nat, calls s !! 1%nat, waiter_count <$> arcs s !! 0%nat))
    (flight_run (with_limits 8) ([(0%nat, FAcquire (demo_args true)); (0%nat, FStep); (1%nat, FAcquire (demo_args false))] ++
       replicate 7 (1%nat, FStep)))
  = Some (Some (AttachedHandle 0 true true), Some (AttachedHandle 0 false false), Some 2).
Proof. vm_compute. reflexivity. Qed.

(** The check of [acquire] and its attachment are separate steps: the last
    waiter can detach in between, and the newcomer joins a cancelled flight. *)
Example attach_races_with_cancellation :
  option_map (fun s => (calls s !! 1%nat, pf_cancelled <$> arcs s !! 0%nat))
    (flight_run (with_limits 8) ([(0%nat, FAcquire (demo_args false)); (0%nat, FStep); (1%nat, FAcquire (demo_args false))] ++
       replicate 3 (1%nat, FStep) ++ [(0%nat, FDetach)] ++ replicate 5 (0%nat, FStep) ++ replicate 4 (1%nat, FStep)))
  = Some (Some (AttachedHandle 0 false false), Some true).
Proof. vm_compute. reflexivity. Qed.

(** ** The invariant *)
Definition acquiring (c : Call) : option (AcquireArgs * nat) :=
  match c with
  | AFound x f | ANotCancelled x f | ALive x f | AAdd x f | AAddRequired x f | APriority x f | ADeadline x f => Some (x, f)
  | _ => None
  end.
Definition in_acquire (c : Call) : bool :=
  match c with ACreate _ => true | _ => bool_decide (is_Some (acquiring c)) end.
Definition call_ref (c : Call) : option nat :=
  match c with
  | AttachedHandle f _ _ | DRequired f _ | MRequired f | MWaiters f | MAdmission f | MCancel f | CComplete f _ | CWake f _ => Some f
  | _ => snd <$> acquiring c
  end.

(** The calls that count as waiters of [f], and as required waiters. *)
Definition counted (f : nat) (c : Call) : bool :=
  match c with AttachedHandle g _ _ | AAddRequired _ g | APriority _ g | ADeadline _ g => (g =? f)%nat | _ => false end.
Definition counted_required (f : nat) (c : Call) : bool :=
  match c with
  | AttachedHandle g r _ | DRequired g r => r && (g =? f)%nat
  | APriority x g | ADeadline x g => aq_required x && (g =? f)%nat
  | _ => false
  end.

(** A flight that may still land for its callers. *)
Definition open_flight (p : PageFlight) : Prop := flight_result p = None /\ pf_cancelled p = false.

Record flight_ok (s : FlightMap) : Prop := mk_flight_ok {
  fo_u32 : in_u32 (max_waiters s);
  fo_lock : forall a, map_lock s = Some a <-> was in_acquire (calls s !! a) = true;
  fo_ref : forall a c f, calls s !! a = Some c -> call_ref c = Some f -> is_Some (arcs s !! f);
  fo_map : forall h f, flights s !! h = Some f -> exists p, arcs s !! f = Some p /\ pf_hash p = h;
  fo_fresh : forall f, is_Some (arcs s !! f) -> (f < next_arc s)%nat;
  fo_max : forall f p, arcs s !! f = Some p -> pf_max_waiters p = max_waiters s;
  fo_waiters : forall f p, arcs s !! f = Some p -> waiter_count p = count_in (counted f) (calls s);
  fo_bound : forall f p, arcs s !! f = Some p -> waiter_count p <= Z.max 1 (max_waiters s);
  fo_required : forall f p, arcs s !! f = Some p -> required_waiters p = as_u32 (count_in (counted_required f) (calls s));
  fo_room : forall a x f p, calls s !! a = Some (AAdd x f) -> arcs s !! f = Some p -> waiter_count p < max_waiters s;
  fo_acquiring : forall a c x f, calls s !! a = Some c -> acquiring c = Some (x, f) -> flights s !! aq_hash x = Some f;
  fo_create : forall a x f p, calls s !! a = Some (ACreate x) -> flights s !! aq_hash x = Some f -> arcs s !! f = Some p -> ~ open_flight p;
  fo_single : forall f p, arcs s !! f = Some p -> open_flight p ->
    flights s !! pf_hash p = Some f \/ exists a r, calls s !! a = Some (CComplete f r);
  fo_wait : forall f t, (f, t) ∈ waiting s ->
    (exists p, arcs s !! f = Some p /\ flight_result p = None /\ t ∈ flight_wakers p) \/
    (exists a tasks, calls s !! a = Some (CWake f tasks) /\ t ∈ tasks)
}.

(** What a step of one call may do to one flight. *)
Record same_flight (p p' : PageFlight) : Prop := mk_same_flight {
  sf_hash : pf_hash p' = pf_hash p;
  sf_max : pf_max_waiters p' = pf_max_waiters p;
  sf_result : flight_result p' = flight_result p;
  sf_wakers : flight_wakers p' = flight_wakers p;
  sf_cancelled : pf_cancelled p = true -> pf_cancelled p' = true
}.
Lemma same_flight_open (p p' : PageFlight) : same_flight p p' -> open_flight p' -> open_flight p.
Proof. intros [] [Hr Hc]. split; [congruence|]. destruct (pf_cancelled p); [|done]. rewrite sf_cancelled0 in Hc by done. done. Qed.

Definition delta (f : Call -> bool) (c : Call) (old : option Call) : Z := Z.b2z (f c) - Z.b2z (was f old).

Lemma as_u32_shift (a d : Z) : as_u32 (as_u32 a + d) = as_u32 (a + d).
Proof. unfold as_u32. apply Zplus_mod_idemp_l. Qed.

(** A step of call [a] to [c] that replaces flight [f]. *)
Record local_step (s : FlightMap) (a : nat) (c : Call) (f : nat) (p p' : PageFlight) (lock' : option nat) : Prop := mk_local_step {
  ls_arc : arcs s !! f = Some p;
  ls_lock : forall b, lock' = Some b <-> was in_acquire (<[a := c]> (calls s) !! b) = true;
  ls_ref : forall g, call_ref c = Some g -> is_Some (arcs s !! g);
  ls_same : same_flight p p';
  ls_waiters : waiter_count p' = waiter_count p + delta (counted f) c (calls s !! a);
  ls_bound : waiter_count p' <= Z.max 1 (max_waiters s);
  ls_required : required_waiters p' = as_u32 (required_waiters p + delta (counted_required f) c (calls s !! a));
  ls_others : forall g, g <> f -> delta (counted g) c (calls s !! a) = 0 /\ delta (counted_required g) c (calls s !! a) = 0;
  ls_room : forall x g, c = AAdd x g -> g = f /\ waiter_count p' < max_waiters s;
  ls_grow : waiter_count p' <= waiter_count p \/ map_lock s = Some a;
  ls_acquiring : forall x g, acquiring c = Some (x, g) -> flights s !! aq_hash x = Some g;
  ls_create : forall x g q, c = ACreate x -> flights s !! aq_hash x = Some g -> arcs s !! g = Some q -> ~ open_flight q;
  ls_old : forall g r, calls s !! a <> Some (CComplete g r) /\ forall t ts, calls s !! a <> Some (CWake g (t :: ts))
}.

Lemma local_step_ok (s : FlightMap) (a : nat) (c : Call) (f : nat) (p p' : PageFlight) (lock' : option nat) :
  flight_ok s -> local_step s a c f p p' lock' ->
  flight_ok (mkFlights (flights s) (max_waiters s) lock' (<[f := p']> (arcs s)) (next_arc s) (<[a := c]> (calls s)) (waiting s)).
Proof.
  intros [] [].
  assert (Harc : forall g q, <[f := p']> (arcs s) !! g = Some q -> exists q0, arcs s !! g = Some q0 /\ same_flight q0 q).
  { intros g q [[<- <-]|[_ Hg]]%lookup_insert_Some; eauto. exists q. split; [done|]. by split. }
  assert (Hsome : forall g, is_Some (arcs s !! g) -> is_Some (<[f := p']> (arcs s) !! g)).
  { intros g Hg. apply lookup_insert_is_Some'. by right. }
  split; simpl; try done.
  - intros b d g [[<- <-]|[_ Hb]]%lookup_insert_Some Hg; apply Hsome; eauto.
  - intros h g Hg. apply fo_map0 in Hg as (q & Hq & Hh). destruct (decide (g = f)) as [->|].
    + exists p'. rewrite lookup_insert_eq. split; [done|]. destruct ls_same0. congruence.
    + exists q. by rewrite lookup_insert_ne.
  - intros g [q Hq]. apply Harc in Hq as (q0 & Hq0 & _). eauto.
  - intros g q Hq. apply Harc in Hq as (q0 & Hq0 & []). rewrite sf_max0. eauto.
  - intros g q Hq. rewrite count_in_set. apply lookup_insert_Some in Hq as [[<- <-]|[Hne Hq]].
    + rewrite ls_waiters0, (fo_waiters0 f p) by done. unfold delta. lia.
    + rewrite (fo_waiters0 g q) by done. destruct (ls_others0 g ltac:(done)) as [Hd _]. unfold delta in Hd. lia.
  - intros g q [[<- <-]|[_ Hq]]%lookup_insert_Some; eauto.
  - intros g q Hq. rewrite count_in_set. apply lookup_insert_Some in Hq as [[<- <-]|[Hne Hq]].
    + rewrite ls_required0, (fo_required0 f p), as_u32_shift by done. f_equal. unfold delta. lia.
    + rewrite (fo_required0 g q) by done. f_equal. destruct (ls_others0 g ltac:(done)) as [_ Hd]. unfold delta in Hd. lia.
  - intros b x g q [[<- ->]|[Hne Hb]]%lookup_insert_Some Hq.
    + destruct (ls_room0 x g eq_refl) as [-> Hr]. rewrite lookup_insert_eq in Hq. by simplify_eq.
    + apply lookup_insert_Some in Hq as [[<- <-]|[_ Hq]]; [|eauto]. destruct ls_grow0 as [Hle|Hlock].
      * pose proof (fo_room0 b x f p Hb ls_arc0). lia.
      * assert (Hb' : map_lock s = Some b) by (apply fo_lock0; by rewrite Hb). congruence.
  - intros b d x g [[<- <-]|[_ Hb]]%lookup_insert_Some; eauto.
  - intros b x g q [[<- ->]|[_ Hb]]%lookup_insert_Some Hg Hq Ho; apply Harc in Hq as (q0 & Hq0 & Hs);
      apply (same_flight_open _ _ Hs) in Ho; [by eapply ls_create0|by eapply fo_create0].
  - intros g q Hq Ho. apply Harc in Hq as (q0 & Hq0 & Hs). apply (same_flight_open _ _ Hs) in Ho. rewrite (sf_hash _ _ Hs).
    destruct (fo_single0 g q0 Hq0 Ho) as [?|(b & r & Hb)]; [by left|right]. exists b, r. rewrite lookup_insert_ne; [done|].
    intros <-. by apply (proj1 (ls_old0 g r)).
  - intros g t Hgt. destruct (fo_wait0 g t Hgt) as [(q & Hq & Hr & Ht)|(b & ts & Hb & Ht)].
    + left. destruct (decide (g = f)) as [->|]; [|exists q; by rewrite lookup_insert_ne]. exists p'. rewrite lookup_insert_eq.
      destruct ls_same0. simplify_eq. split_and!; congruence.
    + right. exists b, ts. split; [|done]. rewrite lookup_insert_ne; [done|]. intros <-. destruct ts as [|t0 ts]; [by apply elem_of_nil in Ht|].
      by apply (proj2 (ls_old0 g (inl tt)) t0 ts).
Qed.

(** The lock is held by the call inside [acquire]. *)
Section lock.
Context (s : FlightMap) (a : nat) (c : Call) (Hok : flight_ok s).

Lemma lock_same :
  in_acquire c = was in_acquire (calls s !! a) ->
  forall b, map_lock s = Some b <-> was in_acquire (<[a := c]> (calls s) !! b) = true.
Proof.
  intros Hc b. rewrite (fo_lock s Hok). destruct (decide (a = b)) as [->|]; [|by rewrite lookup_insert_ne].
  rewrite lookup_insert_eq. simpl. by rewrite Hc.
Qed.
Lemma lock_leave :
  in_acquire c = false -> was in_acquire (calls s !! a) = true ->
  forall b, None = Some b <-> was in_acquire (<[a := c]> (calls s) !! b) = true.
Proof.
  intros Hc Ha b. split; [done|]. destruct (decide (a = b)) as [->|]; [rewrite lookup_insert_eq; simpl; congruence|].
  rewrite lookup_insert_ne by done. rewrite <- (fo_lock s Hok) in Ha |- *. congruence.
Qed.
Lemma lock_enter :
  in_acquire c = true -> map_lock s = None ->
  forall b, Some a = Some b <-> was in_acquire (<[a := c]> (calls s) !! b) = true.
Proof.
  intros Hc Hn b. destruct (decide (a = b)) as [->|]; [by rewrite lookup_insert_eq|].
  rewrite lookup_insert_ne, <- (fo_lock s Hok) by done. split; congruence.
Qed.
End lock.

Lemma call_moved_ok (s : FlightMap) (a : nat) (c : Call) (f : nat) (p : PageFlight) (lock' : option nat) :
  flight_ok s -> local_step s a c f p p lock' -> flight_ok (set_lock (set_call s a c) lock').
Proof.
  intros Hok HL. pose proof (local_step_ok s a c f p p lock' Hok HL) as H. rewrite insert_id in H by apply HL. done.
Qed.

(** Waiters are counted: a counted call finds its flight with a waiter. *)
Lemma counted_waiter (s : FlightMap) (a : nat) (c : Call) (f : nat) (p : PageFlight) :
  flight_ok s -> calls s !! a = Some c -> counted f c = true -> arcs s !! f = Some p ->
  1 <= waiter_count p <= u32_max.
Proof.
  intros Hok Ha Hc Hp. rewrite (fo_waiters s Hok f p Hp).
  assert (0 < count_in (counted f) (calls s)) by (apply (count_in_pos _ _ a); by rewrite Ha).
  pose proof (fo_bound s Hok f p Hp) as Hb. rewrite (fo_waiters s Hok f p Hp) in Hb. pose proof (fo_u32 s Hok). mach.
Qed.

Lemma required_small (s : FlightMap) (f : nat) (p : PageFlight) :
  flight_ok s -> arcs s !! f = Some p -> required_waiters p = as_u32 (required_waiters p).
Proof. intros Hok Hp. rewrite (fo_required s Hok f p Hp). unfold as_u32. by rewrite Zmod_mod. Qed.

Section steps.
Context (s : FlightMap) (a : nat) (Hok : flight_ok s).

Lemma ref_arc (c : Call) (f : nat) : calls s !! a = Some c -> call_ref c = Some f -> exists p, arcs s !! f = Some p.
Proof. intros Ha Hf. exact (fo_ref s Hok a c f Ha Hf). Qed.

(** A move of a call that touches no counter. *)
Lemma plain_move (c c' : Call) (f : nat) (p : PageFlight) (lock' : option nat) :
  calls s !! a = Some c -> arcs s !! f = Some p -> call_ref c = Some f ->
  (forall g, counted g c' = counted g c) -> (forall g, counted_required g c' = counted_required g c) ->
  (forall b, lock' = Some b <-> was in_acquire (<[a := c']> (calls s) !! b) = true) ->
  (forall g, call_ref c' = Some g -> g = f) ->
  (forall x g, c' = AAdd x g -> g = f /\ waiter_count p < max_waiters s) ->
  (forall x g, acquiring c' = Some (x, g) -> flights s !! aq_hash x = Some g) ->
  (forall x g q, c' = ACreate x -> flights s !! aq_hash x = Some g -> arcs s !! g = Some q -> ~ open_flight q) ->
  (forall g r, c <> CComplete g r) -> (forall g t ts, c <> CWake g (t :: ts)) ->
  flight_ok (set_lock (set_call s a c') lock').
Proof.
  intros Ha Hp Hf HC HR HL Href Hroom Hacq Hcr H1 H2. apply (call_moved_ok s a c' f p); [done|].
  split; try done; unfold delta; rewrite ?Ha; simpl; rewrite ?HC, ?HR, ?Z.sub_diag, ?Z.add_0_r.
  - intros g ->%Href. by exists p.
  - lia.
  - by apply (fo_bound s Hok) with (1 := Hp).
  - by apply (required_small s f).
  - intros g _. rewrite HC, HR. lia.
  - by left.
  - intros g r. split; [|intros t ts]; intros [= ?]; naive_solver.
Qed.

(** A step that changes the flight of the call. *)
Lemma arc_move (c c' : Call) (f : nat) (p p' : PageFlight) (lock' : option nat) :
  calls s !! a = Some c -> arcs s !! f = Some p -> call_ref c = Some f -> call_ref c' = Some f \/ call_ref c' = None ->
  same_flight p p' ->
  waiter_count p' = waiter_count p + Z.b2z (counted f c') - Z.b2z (counted f c) ->
  required_waiters p' = as_u32 (required_waiters p + Z.b2z (counted_required f c') - Z.b2z (counted_required f c)) ->
  (forall g, g <> f -> counted g c' = counted g c /\ counted_required g c' = counted_required g c) ->
  (waiter_count p' <= waiter_count p \/ map_lock s = Some a /\ waiter_count p' <= max_waiters s) ->
  (forall b, lock' = Some b <-> was in_acquire (<[a := c']> (calls s) !! b) = true) ->
  (forall x g, c' <> AAdd x g) -> (forall x g, acquiring c' = Some (x, g) -> acquiring c = Some (x, g)) -> (forall x, c' <> ACreate x) ->
  (forall g r, c <> CComplete g r) -> (forall g ts, c <> CWake g ts) ->
  flight_ok (set_lock (set_call (set_arc s f p') a c') lock').
Proof.
  intros Ha Hp Hf Hf' Hs Hw Hr Ho Hgrow HL H1 H2 H3 H4 H5. apply (local_step_ok s a c' f p p' lock'); [done|].
  pose proof (fo_bound s Hok f p Hp). split; try done; unfold delta; rewrite ?Ha; simpl.
  - intros g Hg. exists p. destruct Hf'; congruence.
  - lia.
  - lia.
  - rewrite Hr. f_equal. lia.
  - intros g Hg. destruct (Ho g Hg) as [-> ->]. lia.
  - intros x g ->. by destruct (H1 x g).
  - destruct Hgrow as [?|[? _]]; auto.
  - intros x g Hx. apply H2 in Hx. by apply (fo_acquiring s Hok a c).
  - intros x g q ->. by destruct (H3 x).
  - intros g r. split; [|intros t ts]; intros [= ?]; naive_solver.
Qed.
End steps.

Section call_steps.
Context (s : FlightMap) (a : nat) (Hok : flight_ok s).

Lemma acquiring_lock (c : Call) : calls s !! a = Some c -> in_acquire c = true -> map_lock s = Some a.
Proof. intros Ha Hc. apply (fo_lock s Hok). by rewrite Ha. Qed.

(** The checks of [acquire] before it attaches. *)
Lemma check_step_ok (c c' : Call) (x : AcquireArgs) (f : nat) (p : PageFlight) :
  calls s !! a = Some c -> acquiring c = Some (x, f) -> arcs s !! f = Some p ->
  (forall g, counted g c = false /\ counted_required g c = false) ->
  c' = ANotCancelled x f \/ c' = ALive x f \/ c' = AAdd x f /\ waiter_count p < max_waiters s \/ c' = ACreate x /\ ~ open_flight p ->
  flight_ok (set_call s a c').
Proof.
  intros Ha Hx Hp Hcnt Hc'. pose proof (fo_acquiring s Hok a c x f Ha Hx) as Hm.
  assert (Hin : in_acquire c = true) by (destruct c; done).
  apply (plain_move s a Hok c c' f p (map_lock s)); try done.
  - destruct c; simpl in Hx |- *; congruence.
  - intros g. rewrite (proj1 (Hcnt g)). destruct Hc' as [->|[->|[[-> _]|[-> _]]]]; done.
  - intros g. rewrite (proj2 (Hcnt g)). destruct Hc' as [->|[->|[[-> _]|[-> _]]]]; done.
  - apply lock_same; [done|]. rewrite Ha. simpl. rewrite Hin. destruct Hc' as [->|[->|[[-> _]|[-> _]]]]; done.
  - intros g. destruct Hc' as [->|[->|[[-> _]|[-> _]]]]; simpl; congruence.
  - intros y g ->. destruct Hc' as [?|[?|[[[= <- <-] ?]|[? _]]]]; done.
  - intros y g. destruct Hc' as [->|[->|[[-> _]|[-> _]]]]; simpl; congruence.
  - intros y g q -> Hg Hq. destruct Hc' as [?|[?|[[? _]|[[= <-] ?]]]]; try done. by simplify_eq.
  - intros g r ->. done.
  - intros g t ts ->. done.
Qed.

Lemma refuse_step_ok (x : AcquireArgs) (f : nat) :
  calls s !! a = Some (ALive x f) -> flight_ok (set_lock (set_call s a Refused) None).
Proof.
  intros Ha. destruct (ref_arc s a Hok _ f Ha eq_refl) as [p Hp].
  apply (plain_move s a Hok (ALive x f) Refused f p None); try done. apply lock_leave; [done..|]. by rewrite Ha.
Qed.

Lemma add_step_ok (x : AcquireArgs) (f : nat) (p : PageFlight) :
  calls s !! a = Some (AAdd x f) -> arcs s !! f = Some p ->
  flight_ok (set_call (set_arc s f (add_waiter p)) a (AAddRequired x f)).
Proof.
  intros Ha Hp. pose proof (fo_room s Hok a x f p Ha Hp) as Hroom. pose proof (fo_u32 s Hok) as Hu.
  pose proof (fo_waiters s Hok f p Hp). pose proof (count_in_nonneg (counted f) (calls s)).
  assert (Hadd : wadd_u32 (waiter_count p) 1 = waiter_count p + 1) by (apply wadd_u32_small; mach).
  apply (arc_move s a Hok (AAdd x f) (AAddRequired x f) f p (add_waiter p) (map_lock s)); try done; simpl; rewrite ?Nat.eqb_refl, ?Z.sub_0_r, ?Z.add_0_r.
  - by left.
  - rewrite Hadd. simpl. lia.
  - by apply (required_small s f).
  - intros g Hg. split; [|done]. by apply Nat.eqb_neq.
  - right. split; [by eapply acquiring_lock|]. lia.
  - apply lock_same; [done|]. by rewrite Ha.
Qed.

Lemma add_required_step_ok (x : AcquireArgs) (f : nat) (p : PageFlight) :
  calls s !! a = Some (AAddRequired x f) -> arcs s !! f = Some p ->
  flight_ok (set_call (if aq_required x then set_arc s f (set_required p (wadd_u32 (required_waiters p) 1)) else s) a (APriority x f)).
Proof.
  intros Ha Hp. assert (HL : forall b, map_lock s = Some b <-> was in_acquire (<[a := APriority x f]> (calls s) !! b) = true).
  { apply lock_same; [done|]. by rewrite Ha. }
  destruct (aq_required x) eqn:E.
  - apply (arc_move s a Hok (AAddRequired x f) (APriority x f) f p _ (map_lock s)); try done; simpl; rewrite ?Nat.eqb_refl, ?E; simpl; try done.
    + by left.
    + lia.
    + by rewrite Z.sub_0_r.
    + intros g Hg. split; [done|]. apply Nat.eqb_neq. done.
    + left. lia.
  - apply (plain_move s a Hok (AAddRequired x f) (APriority x f) f p (map_lock s)); try done.
    + intros g. simpl. by rewrite E.
    + by intros g [= <-].
    + intros y g [= <- <-]. by eapply (fo_acquiring s Hok a _ x f Ha).
Qed.

Lemma min_step_ok (c c' : Call) (f : nat) (p p' : PageFlight) (lock' : option nat) :
  calls s !! a = Some c -> arcs s !! f = Some p ->
  (exists x, c = APriority x f /\ c' = ADeadline x f /\ p' = min_priority p (aq_priority x) /\ lock' = map_lock s) \/
  (exists x, c = ADeadline x f /\ c' = AttachedHandle f (aq_required x) false /\ p' = min_deadline p (aq_deadline x) /\ lock' = None) ->
  flight_ok (set_lock (set_call (set_arc s f p') a c') lock').
Proof.
  intros Ha Hp [(x & -> & -> & -> & ->)|(x & -> & -> & -> & ->)];
    (eapply (arc_move s a Hok); [exact Ha|exact Hp|try done..]); simpl; rewrite ?Z.add_simpl_r; try (by left); try done;
    try (by left; lia); try (by apply (required_small s f)).
  - apply lock_same; [done|]. by rewrite Ha.
  - apply lock_leave; [done..|]. by rewrite Ha.
Qed.
End call_steps.

Section other_steps.
Context (s : FlightMap) (a : nat) (Hok : flight_ok s).

Lemma detach_step_ok (f : nat) (required owner : bool) (p : PageFlight) :
  calls s !! a = Some (AttachedHandle f required owner) -> arcs s !! f = Some p ->
  flight_ok (set_call (set_arc s f (sub_waiter p)) a (DRequired f required)).
Proof.
  intros Ha Hp. pose proof (counted_waiter s a _ f p Hok Ha (Nat.eqb_refl f) Hp).
  assert (Hsub : wsub_u32 (waiter_count p) 1 = waiter_count p - 1) by (apply wsub_u32_small; lia).
  apply (arc_move s a Hok (AttachedHandle f required owner) (DRequired f required) f p _ (map_lock s)); try done; simpl; rewrite ?Nat.eqb_refl, ?Z.add_simpl_r.
  - by left.
  - rewrite Hsub. simpl. lia.
  - by apply (required_small s f).
  - intros g Hg. split; [|done]. symmetry. by apply Nat.eqb_neq.
  - left. lia.
  - apply lock_same; [done|]. by rewrite Ha.
Qed.

Lemma sub_required_step_ok (f : nat) (required : bool) (p : PageFlight) :
  calls s !! a = Some (DRequired f required) -> arcs s !! f = Some p ->
  flight_ok (set_call (if required then set_arc s f (set_required p (wsub_u32 (required_waiters p) 1)) else s) a (MRequired f)).
Proof.
  intros Ha Hp. assert (HL : forall b, map_lock s = Some b <-> was in_acquire (<[a := MRequired f]> (calls s) !! b) = true).
  { apply lock_same; [done|]. by rewrite Ha. }
  destruct required.
  - apply (arc_move s a Hok (DRequired f true) (MRequired f) f p _ (map_lock s)); try done; simpl; rewrite ?Nat.eqb_refl; simpl; try done.
    + by left.
    + lia.
    + by rewrite Z.add_0_r.
    + intros g Hg. split; [done|]. symmetry. by apply Nat.eqb_neq.
    + left. lia.
  - apply (plain_move s a Hok (DRequired f false) (MRequired f) f p (map_lock s)); try done. by intros g [= <-].
Qed.

(** The loads of [maybe_cancel]. *)
Lemma maybe_step_ok (c c' : Call) (f : nat) :
  calls s !! a = Some c -> c = MRequired f \/ c = MWaiters f \/ c = MAdmission f ->
  c' = MWaiters f \/ c' = MAdmission f \/ c' = MCancel f \/ c' = CallDone -> flight_ok (set_call s a c').
Proof.
  intros Ha Hc Hc'. assert (Hf : call_ref c = Some f) by (destruct Hc as [->|[->| ->]]; done).
  destruct (ref_arc s a Hok c f Ha Hf) as [p Hp].
  apply (plain_move s a Hok c c' f p (map_lock s)); try done;
    destruct Hc as [->|[->| ->]], Hc' as [->|[->|[->| ->]]]; simpl; try done; try (by intros g [= <-]);
    apply lock_same; try done; by rewrite Ha.
Qed.

Lemma cancel_step_ok (f : nat) (p : PageFlight) :
  calls s !! a = Some (MCancel f) -> arcs s !! f = Some p ->
  flight_ok (set_call (set_arc s f (cancel_flight p)) a CallDone).
Proof.
  intros Ha Hp. apply (arc_move s a Hok (MCancel f) CallDone f p _ (map_lock s)); try done; simpl; rewrite ?Z.sub_0_r, ?Z.add_0_r; try done.
  - by right.
  - by apply (required_small s f).
  - by left.
  - apply lock_same; [done|]. by rewrite Ha.
Qed.

Lemma admission_step_ok (f : nat) (present : bool) (p : PageFlight) :
  calls s !! a = None -> arcs s !! f = Some p ->
  flight_ok (set_call (set_arc s f (store_admission p present)) a (if present then CallDone else MRequired f)).
Proof.
  intros Ha Hp. pose proof (fo_bound s Hok f p Hp). pose proof (required_small s f p Hok Hp).
  apply (local_step_ok s a (if present then CallDone else MRequired f) f p (store_admission p present) (map_lock s)); [done|].
  split; try done; unfold delta; rewrite ?Ha; destruct present; simpl; rewrite ?Z.sub_0_r, ?Z.add_0_r; try done; try (by left);
    try (by apply lock_same; rewrite ?Ha); try (by intros; split); intros g [= <-]; by exists p.
Qed.

(** The start of [acquire]. *)
Lemma acquire_start_ok (x : AcquireArgs) :
  calls s !! a = None -> map_lock s = None ->
  flight_ok (set_lock (set_call s a (match flights s !! aq_hash x with Some f => AFound x f | None => ACreate x end)) (Some a)).
Proof.
  intros Ha Hl. pose proof Hok as []. destruct (flights s !! aq_hash x) as [f|] eqn:Ef.
  - destruct (fo_map0 _ _ Ef) as (p & Hp & _). apply (call_moved_ok s a (AFound x f) f p); [done|].
    pose proof (fo_bound0 f p Hp). pose proof (required_small s f p Hok Hp).
    split; try done; unfold delta; rewrite ?Ha; simpl; rewrite ?Z.sub_0_r, ?Z.add_0_r; try done; try (by left);
      try (by intros; split).
    + by apply lock_enter.
    + intros g [= <-]. by exists p.
    + by intros y g [= <- <-].
  - assert (Hother : forall b c, <[a := ACreate x]> (calls s) !! b = Some c -> c = ACreate x \/ calls s !! b = Some c).
    { intros b c [[_ <-]|[_ Hb]]%lookup_insert_Some; auto. }
    assert (Hcnt : forall f, (forall y, f (ACreate y) = false) -> count_in f (<[a := ACreate x]> (calls s)) = count_in f (calls s)).
    { intros g Hg. rewrite count_in_set, Ha, Hg. simpl. lia. }
    assert (Hkeep : forall b c, calls s !! b = Some c -> <[a := ACreate x]> (calls s) !! b = Some c).
    { intros b c Hb. rewrite lookup_insert_ne; congruence. }
    split; simpl; try done.
    + by apply lock_enter.
    + intros b c g [->|Hb]%Hother; [done|eauto].
    + intros f p Hp. rewrite Hcnt by done. eauto.
    + intros f p Hp. rewrite Hcnt by done. eauto.
    + intros b y f p [?|Hb]%Hother; [done|eauto].
    + intros b c y f [->|Hb]%Hother; [done|eauto].
    + intros b y f p [[= ->]|Hb]%Hother Hf; [congruence|eauto].
    + intros f p Hp Ho. destruct (fo_single0 f p Hp Ho) as [?|(b & r & Hb)]; [by left|right; eauto].
    + intros f t Hw. destruct (fo_wait0 f t Hw) as [?|(b & ts & Hb & ?)]; [by left|right; eauto].
Qed.
End other_steps.

(** Calls that neither count as waiters nor hold the lock. *)
Definition idle_call (c : Call) : Prop :=
  in_acquire c = false /\ (forall g, counted g c = false) /\ (forall g, counted_required g c = false).

Section completion_steps.
Context (s : FlightMap) (a : nat) (Hok : flight_ok s).

Lemma idle_counts (c : Call) (f : nat) :
  idle_call c -> (forall d, calls s !! a = Some d -> idle_call d) ->
  count_in (counted f) (<[a := c]> (calls s)) = count_in (counted f) (calls s) /\
  count_in (counted_required f) (<[a := c]> (calls s)) = count_in (counted_required f) (calls s).
Proof.
  intros (_ & H1 & H2) Hd. rewrite !count_in_set, H1, H2. destruct (calls s !! a) as [d|]; simpl; [|lia].
  destruct (Hd d eq_refl) as (_ & -> & ->). simpl. lia.
Qed.

Lemma idle_lock (c : Call) :
  idle_call c -> (forall d, calls s !! a = Some d -> idle_call d) ->
  forall b, map_lock s = Some b <-> was in_acquire (<[a := c]> (calls s) !! b) = true.
Proof.
  intros (Hc & _) Hd. apply lock_same; [done|]. rewrite Hc. destruct (calls s !! a) as [d|]; [|done].
  symmetry. by destruct (Hd d eq_refl).
Qed.

(** An idle call becomes another idle call while a flight lands or is polled
    and entries leave the map. *)
Lemma idle_step_ok (c : Call) (f : nat) (p p' : PageFlight) (m : gmap Hash nat) (w : gset (nat * nat)) :
  idle_call c -> (forall d, calls s !! a = Some d -> idle_call d) -> call_ref c = Some f \/ call_ref c = None ->
  arcs s !! f = Some p -> pf_hash p' = pf_hash p -> pf_max_waiters p' = pf_max_waiters p ->
  waiter_count p' = waiter_count p -> required_waiters p' = required_waiters p ->
  (open_flight p' -> open_flight p) ->
  m ⊆ flights s -> (map_lock s <> None -> m = flights s) ->
  (forall g q, arcs s !! g = Some q -> open_flight q -> (g = f -> open_flight p') -> flights s !! pf_hash q = Some g ->
     m !! pf_hash q = Some g \/ exists r, g = f /\ c = CComplete f r) ->
  (forall g r, calls s !! a = Some (CComplete g r) -> g = f /\ ~ open_flight p') ->
  (forall g t, (g, t) ∈ w ->
    (exists q, <[f := p']> (arcs s) !! g = Some q /\ flight_result q = None /\ t ∈ flight_wakers q) \/
    (exists b tasks, <[a := c]> (calls s) !! b = Some (CWake g tasks) /\ t ∈ tasks)) ->
  flight_ok (mkFlights m (max_waiters s) (map_lock s) (<[f := p']> (arcs s)) (next_arc s) (<[a := c]> (calls s)) w).
Proof.
  intros Hc Hd Href Hp Hh Hmx Hw Hr Hopen Hm Hml Hsingle Hold Hwait. pose proof Hok as [].
  pose proof Hc as (Hc1 & Hc2 & Hc3).
  assert (Hother : forall b d, <[a := c]> (calls s) !! b = Some d -> d = c \/ calls s !! b = Some d).
  { intros b d [[_ <-]|[_ Hb]]%lookup_insert_Some; auto. }
  assert (Harc : forall g q, <[f := p']> (arcs s) !! g = Some q -> (g = f /\ q = p') \/ (g <> f /\ arcs s !! g = Some q)).
  { intros g q [[<- <-]|[? ?]]%lookup_insert_Some; auto. }
  assert (Hacq : forall b d, calls s !! b = Some d -> in_acquire d = true -> m = flights s).
  { intros b d Hb Hin. apply Hml. assert (map_lock s = Some b) by (apply fo_lock0; by rewrite Hb). congruence. }
  assert (Hsome : forall g, is_Some (arcs s !! g) -> is_Some (<[f := p']> (arcs s) !! g)).
  { intros g Hg. apply lookup_insert_is_Some'. by right. }
  split; simpl; try done.
  - by apply idle_lock.
  - intros b d g [->|Hb]%Hother Hg; [|eauto]. apply Hsome. exists p. destruct Href; congruence.
  - intros h g Hg. apply (lookup_weaken _ _ _ _ Hg) in Hm. apply fo_map0 in Hm as (q & Hq & Hhq).
    destruct (decide (g = f)) as [->|]; [exists p'; rewrite lookup_insert_eq; split; [done|congruence]|exists q; by rewrite lookup_insert_ne].
  - intros g [q [[-> ->]|[? Hq]]%Harc]; eauto.
  - intros g q [[-> ->]|[? Hq]]%Harc; [rewrite Hmx|]; eauto.
  - intros g q Hq. rewrite (proj1 (idle_counts c g Hc Hd)). destruct (Harc g q Hq) as [[-> ->]|[? ?]]; [rewrite Hw|]; eauto.
  - intros g q [[-> ->]|[? Hq]]%Harc; [rewrite Hw|]; eauto.
  - intros g q Hq. rewrite (proj2 (idle_counts c g Hc Hd)). destruct (Harc g q Hq) as [[-> ->]|[? ?]]; [rewrite Hr|]; eauto.
  - intros b x g q [<-|Hb]%Hother Hq; [done|]. destruct (Harc g q Hq) as [[-> ->]|[? ?]]; [rewrite Hw|]; eauto.
  - intros b d x g [->|Hb]%Hother Hx; [by destruct c|]. rewrite (Hacq b d Hb ltac:(by destruct d)). eauto.
  - intros b x g q [<-|Hb]%Hother Hg Hq Ho; [done|]. rewrite (Hacq b _ Hb eq_refl) in Hg.
    destruct (Harc g q Hq) as [[-> ->]|[? ?]]; [apply Hopen in Ho|]; by eapply fo_create0.
  - intros g q Hq Ho.
    assert (Hold' : exists q0, arcs s !! g = Some q0 /\ open_flight q0 /\ pf_hash q0 = pf_hash q /\ (g = f -> open_flight p')).
    { destruct (Harc g q Hq) as [[-> ->]|[? ?]]; [exists p|exists q; by split_and!]. split_and!; auto. }
    destruct Hold' as (q0 & Hq0 & Ho0 & Hh0 & Hop). rewrite <- Hh0. destruct (fo_single0 g q0 Hq0 Ho0) as [Hg|(b & r & Hb)].
    + destruct (Hsingle g q0 Hq0 Ho0 Hop Hg) as [?|(r & -> & ->)]; [by left|right]. exists a, r. apply lookup_insert_eq.
    + right. exists b, r. rewrite lookup_insert_ne; [done|]. intros <-. destruct (Hold g r Hb) as [-> Hno]. by apply Hno, Hop.
Qed.
End completion_steps.

Section more_steps.
Context (s : FlightMap) (a : nat) (Hok : flight_ok s).

Lemma idle_frame (c : Call) (f : nat) (p : PageFlight) (m : gmap Hash nat) (w : gset (nat * nat)) :
  arcs s !! f = Some p -> flight_ok (mkFlights m (max_waiters s) (map_lock s) (<[f := p]> (arcs s)) (next_arc s) (<[a := c]> (calls s)) w) ->
  flight_ok (set_call (set_waiting (set_map s m) w) a c).
Proof. intros Hp. by rewrite insert_id. Qed.

Lemma complete_step_ok (f : nat) (r : FlightResult) (p : PageFlight) :
  calls s !! a = Some (CComplete f r) -> arcs s !! f = Some p ->
  let '(p', tasks) := flight_complete p r in flight_ok (set_call (set_arc s f p') a (CWake f tasks)).
Proof.
  intros Ha Hp. pose proof Hok as []. destruct (flight_complete p r) as [p' tasks] eqn:E.
  assert (HE : pf_hash p' = pf_hash p /\ pf_max_waiters p' = pf_max_waiters p /\ waiter_count p' = waiter_count p /\
    required_waiters p' = required_waiters p /\ (exists r', flight_result p' = Some r') /\
    (flight_result p = None -> tasks = flight_wakers p)).
  { unfold flight_complete in E. destruct (flight_result p) as [r'|] eqn:Er; injection E as <- <-; simpl; split_and!; eauto. done. }
  destruct HE as (H1 & H2 & H3 & H4 & (r' & Hr') & H5).
  assert (Hno : ~ open_flight p') by (intros [? _]; congruence).
  apply (idle_step_ok s a Hok (CWake f tasks) f p p' (flights s) (waiting s)); try done.
  - intros d. rewrite Ha. by intros [= <-].
  - by left.
  - auto.
  - intros g r0. rewrite Ha. intros [= <- <-]. done.
  - intros g t Hw. destruct (fo_wait0 g t Hw) as [(q & Hq & Hr & Ht)|(b & ts & Hb & Ht)].
    + destruct (decide (g = f)) as [->|]; [|left; exists q; by rewrite lookup_insert_ne].
      right. exists a, tasks. rewrite lookup_insert_eq. split; [done|]. simplify_eq. by rewrite H5.
    + right. exists b, ts. rewrite lookup_insert_ne; [done|]. congruence.
Qed.

Lemma wake_step_ok (f : nat) (tasks : list nat) (c' : Call) (w : gset (nat * nat)) :
  calls s !! a = Some (CWake f tasks) ->
  tasks = [] /\ c' = CallDone /\ w = waiting s \/ (exists t ts, tasks = t :: ts /\ c' = CWake f ts /\ w = waiting s ∖ {[(f, t)]}) ->
  flight_ok (set_waiting (set_call s a c') w).
Proof.
  intros Ha Hc. pose proof Hok as []. destruct (ref_arc s a Hok _ f Ha eq_refl) as [p Hp].
  apply (idle_frame c' f p (flights s) w Hp). apply (idle_step_ok s a Hok c' f p p (flights s) w); try done.
  - destruct Hc as [(_ & -> & _)|(t & ts & _ & -> & _)]; done.
  - intros d. rewrite Ha. by intros [= <-].
  - destruct Hc as [(_ & -> & _)|(t & ts & _ & -> & _)]; [by right|by left].
  - auto.
  - intros g r. by rewrite Ha.
  - rewrite insert_id by done. intros g u Hu. assert (Hin : (g, u) ∈ waiting s).
    { destruct Hc as [(_ & _ & ->)|(t & ts & _ & _ & ->)]; set_solver. }
    destruct (fo_wait0 g u Hin) as [?|(b & us & Hb & Hus)]; [by left|right].
    destruct (decide (b = a)) as [->|]; [|exists b, us; by rewrite lookup_insert_ne].
    rewrite Ha in Hb. injection Hb as <- <-. destruct Hc as [(-> & _)|(t & ts & -> & -> & ->)]; [by apply elem_of_nil in Hus|].
    exists a, ts. rewrite lookup_insert_eq. split; [done|]. set_solver.
Qed.

(** [complete] and [complete_owned]: the entry leaves the map, its flight is
    about to be completed. *)
Lemma take_step_ok (h : Hash) (f : nat) (r : FlightResult) (take : bool) :
  calls s !! a = None -> map_lock s = None -> is_Some (arcs s !! f) ->
  (take = true -> flights s !! h = Some f) ->
  flight_ok (set_call (set_map s (if take then delete h (flights s) else flights s)) a (CComplete f r)).
Proof.
  intros Ha Hl [p Hp] Htake. pose proof Hok as []. apply (idle_frame _ f p _ (waiting s) Hp).
  apply (idle_step_ok s a Hok (CComplete f r) f p p _ (waiting s)); try done.
  - by rewrite Ha.
  - by left.
  - destruct take; [apply delete_subseteq|done].
  - intros g q Hq Ho _ Hg. destruct take; [|by left]. specialize (Htake eq_refl).
    destruct (decide (h = pf_hash q)) as [->|]; [|left; by rewrite lookup_delete_ne].
    right. exists r. split; congruence.
  - intros g r0. by rewrite Ha.
  - rewrite insert_id by done. intros g t Hw. destruct (fo_wait0 g t Hw) as [?|(b & ts & Hb & ?)]; [by left|right].
    exists b, ts. rewrite lookup_insert_ne; [done|]. congruence.
Qed.

Lemma done_step_ok : calls s !! a = None -> flight_ok (set_call s a CallDone).
Proof.
  intros Ha. pose proof Hok as []. 
  assert (Hkeep : forall b c, calls s !! b = Some c -> <[a := CallDone]> (calls s) !! b = Some c).
  { intros b c Hb. rewrite lookup_insert_ne; congruence. }
  assert (Hother : forall b d, <[a := CallDone]> (calls s) !! b = Some d -> d = CallDone \/ calls s !! b = Some d).
  { intros b d [[_ <-]|[_ Hb]]%lookup_insert_Some; auto. }
  assert (Hi : forall d, calls s !! a = Some d -> idle_call d) by (by rewrite Ha).
  split; simpl; try done.
  - by apply idle_lock.
  - intros b d g [->|Hb]%Hother; [done|eauto].
  - intros g q Hq. rewrite (proj1 (idle_counts s a CallDone g ltac:(done) Hi)). eauto.
  - intros g q Hq. rewrite (proj2 (idle_counts s a CallDone g ltac:(done) Hi)). eauto.
  - intros b x g q [?|Hb]%Hother; [done|eauto].
  - intros b d x g [->|Hb]%Hother; [done|eauto].
  - intros b x g q [?|Hb]%Hother; [done|eauto].
  - intros g q Hq Ho. destruct (fo_single0 g q Hq Ho) as [?|(b & r & Hb)]; [by left|right; eauto].
  - intros g t Hw. destruct (fo_wait0 g t Hw) as [?|(b & ts & Hb & ?)]; [by left|right; eauto].
Qed.
End more_steps.

Section poll_and_create.
Context (s : FlightMap) (a : nat) (Hok : flight_ok s).

Lemma poll_step_ok (f : nat) (p : PageFlight) :
  arcs s !! f = Some p ->
  let '(r, p') := flight_poll p a in
  flight_ok (set_waiting (set_arc s f p') (match r with Some _ => waiting s ∖ {[(f, a)]} | None => {[(f, a)]} ∪ waiting s end)).
Proof.
  intros Hp. destruct (flight_poll p a) as [r p'] eqn:E.
  assert (HE : pf_hash p' = pf_hash p /\ pf_max_waiters p' = pf_max_waiters p /\ waiter_count p' = waiter_count p /\
    required_waiters p' = required_waiters p /\ flight_result p' = flight_result p /\ pf_cancelled p' = pf_cancelled p /\
    flight_wakers p ⊆ flight_wakers p' /\ (r = None -> flight_result p = None /\ a ∈ flight_wakers p')).
  { unfold flight_poll in E. destruct (flight_result p) as [r'|] eqn:Er; injection E as <- <-; simpl; [by rewrite Er|].
    case_bool_decide; split_and!; try done; set_solver. }
  destruct HE as (H1 & H2 & H3 & H4 & H5 & H6 & H7 & H8). pose proof Hok as [].
  assert (Harc : forall g q, <[f := p']> (arcs s) !! g = Some q -> exists q0, arcs s !! g = Some q0 /\ pf_hash q = pf_hash q0 /\
    pf_max_waiters q = pf_max_waiters q0 /\ waiter_count q = waiter_count q0 /\ required_waiters q = required_waiters q0 /\
    (open_flight q -> open_flight q0)).
  { intros g q [[<- <-]|[_ Hg]]%lookup_insert_Some; [exists p|exists q; by split_and!]. split_and!; try done.
    intros [? ?]. split; congruence. }
  assert (Hsome : forall g, is_Some (arcs s !! g) -> is_Some (<[f := p']> (arcs s) !! g)).
  { intros g Hg. apply lookup_insert_is_Some'. by right. }
  split; simpl; try done.
  - intros b c g Hb Hg. eauto.
  - intros h g Hg. apply fo_map0 in Hg as (q & Hq & Hh). destruct (decide (g = f)) as [->|]; [|exists q; by rewrite lookup_insert_ne].
    exists p'. rewrite lookup_insert_eq. split; [done|congruence].
  - intros g [q (q0 & Hq0 & _)%Harc]. eauto.
  - intros g q (q0 & Hq0 & _ & -> & _)%Harc. eauto.
  - intros g q (q0 & Hq0 & _ & _ & -> & _)%Harc. eauto.
  - intros g q (q0 & Hq0 & _ & _ & -> & _)%Harc. eauto.
  - intros g q (q0 & Hq0 & _ & _ & _ & -> & _)%Harc. eauto.
  - intros b x g q Hb (q0 & Hq0 & _ & _ & -> & _)%Harc. eauto.
  - intros b x g q Hb Hg (q0 & Hq0 & _ & _ & _ & _ & Ho)%Harc Hq. by eapply fo_create0, Ho.
  - intros g q (q0 & Hq0 & Hh & _ & _ & _ & Ho)%Harc Hq. rewrite Hh. eauto.
  - intros g t Hw. assert (Hin : (g, t) ∈ waiting s \/ g = f /\ t = a /\ r = None) by (destruct r; set_solver).
    destruct Hin as [Hin|(-> & -> & Hr)].
    + destruct (fo_wait0 g t Hin) as [(q & Hq & ? & ?)|?]; [left|by right].
      destruct (decide (g = f)) as [->|]; [|exists q; by rewrite lookup_insert_ne]. simplify_eq.
      exists p'. rewrite lookup_insert_eq. split_and!; [done|congruence|auto].
    + left. exists p'. rewrite lookup_insert_eq. destruct (H8 Hr) as [? ?]. split_and!; [done|congruence|done].
Qed.

Lemma create_step_ok (x : AcquireArgs) : calls s !! a = Some (ACreate x) -> flight_ok (create_flight s a x).
Proof.
  intros Ha. pose proof Hok as []. unfold create_flight. set (n := next_arc s). set (c := AttachedHandle n (aq_required x) true).
  assert (Hn : arcs s !! n = None) by (apply eq_None_not_Some; intros Hs%fo_fresh0; lia).
  assert (Hlock : forall b, None = Some b <-> was in_acquire (<[a := c]> (calls s) !! b) = true).
  { apply lock_leave; [done..|]. by rewrite Ha. }
  assert (Hother : forall b d, <[a := c]> (calls s) !! b = Some d -> d = c \/ calls s !! b = Some d /\ in_acquire d = false).
  { intros b d Hb. pose proof (proj2 (Hlock b)) as Hl. rewrite Hb in Hl. simpl in Hl.
    apply lookup_insert_Some in Hb as [[_ <-]|[_ Hb]]; [by left|right]. split; [done|]. destruct (in_acquire d); [by specialize (Hl eq_refl)|done]. }
  assert (Hkeep : forall b d, calls s !! b = Some d -> in_acquire d = false -> <[a := c]> (calls s) !! b = Some d).
  { intros b d Hb Hd. rewrite lookup_insert_ne; [done|]. intros <-. rewrite Ha in Hb. by injection Hb as <-. }
  assert (Hold : forall b d f, calls s !! b = Some d -> call_ref d = Some f -> f <> n).
  { intros b d f Hb Hd ->. destruct (fo_ref0 b d n Hb Hd). congruence. }
  assert (Hzero : count_in (counted n) (calls s) = 0 /\ count_in (counted_required n) (calls s) = 0).
  { split; apply count_in_zero; intros b; destruct (calls s !! b) as [d|] eqn:Eb; try done; simpl; destruct d; simpl; try done;
      try (apply andb_false_iff; right); apply Nat.eqb_neq; by eapply Hold. }
  assert (Hne : forall f, f <> n -> (n =? f)%nat = false) by (intros; by apply Nat.eqb_neq).
  split; simpl; try done.
  - intros b d f [->|[Hb _]]%Hother Hf.
    + injection Hf as <-. rewrite lookup_insert_eq. eauto.
    + rewrite lookup_insert_ne; [eauto|]. symmetry. eauto.
  - intros h f [[<- <-]|[_ Hf]]%lookup_insert_Some; [eexists; by rewrite lookup_insert_eq|].
    apply fo_map0 in Hf as (q & Hq & ?). exists q. rewrite lookup_insert_ne by congruence. done.
  - intros f [<-|Hf]%lookup_insert_is_Some'; [lia|]. apply fo_fresh0 in Hf. lia.
  - intros f p [[<- <-]|[? Hp]]%lookup_insert_Some; [done|eauto].
  - intros f p Hp. rewrite count_in_set, Ha. simpl. apply lookup_insert_Some in Hp as [[<- <-]|[? Hp]].
    + rewrite Nat.eqb_refl. simpl. lia.
    + rewrite Hne by done. simpl. rewrite (fo_waiters0 f p) by done. lia.
  - intros f p [[<- <-]|[? Hp]]%lookup_insert_Some; [simpl; lia|eauto].
  - intros f p Hp. rewrite count_in_set, Ha. simpl. apply lookup_insert_Some in Hp as [[<- <-]|[? Hp]].
    + rewrite Nat.eqb_refl, (proj2 Hzero). simpl. by destruct (aq_required x).
    + rewrite Hne, andb_false_r by done. simpl. rewrite (fo_required0 f p) by done. f_equal. lia.
  - intros b y f p [?|[Hb ?]]%Hother; done.
  - intros b d y f [->|[Hb Hd]]%Hother Hy; [done|]. by destruct d.
  - intros b y f p [?|[Hb ?]]%Hother; done.
  - intros f p [[<- <-]|[? Hp]]%lookup_insert_Some Ho; [left; by rewrite lookup_insert_eq|].
    destruct (fo_single0 f p Hp Ho) as [Hf|(b & r & Hb)]; [left|right; eauto].
    rewrite lookup_insert_ne; [done|]. intros Hh. by apply (fo_create0 a x f p Ha); [rewrite Hh|..].
  - intros f t Hw. destruct (fo_wait0 f t Hw) as [(q & Hq & ? & ?)|(b & ts & Hb & ?)]; [left|right; eauto].
    exists q. rewrite lookup_insert_ne by congruence. done.
Qed.
End poll_and_create.

(** ** Runs *)
Lemma call_step_ok (s s' : FlightMap) (a : nat) (c : Call) :
  flight_ok s -> calls s !! a = Some c -> call_step s a c = Some s' -> flight_ok s'.
Proof.
  intros Hok Ha. destruct c; simpl; try done; try (destruct (arcs s !! f) as [p|] eqn:Hp; [|done]); simpl.
  - intros [= <-]. eapply (check_step_ok s a Hok _ _ x f p); [done..|]. destruct (pf_cancelled p) eqn:E; [|by left].
    right. right. right. split; [done|]. intros [_ ?]. congruence.
  - intros [= <-]. eapply (check_step_ok s a Hok _ _ x f p); [done..|]. destruct (flight_result p) eqn:E; [|by right; left].
    right. right. right. split; [done|]. intros [? _]. congruence.
  - intros [= <-]. rewrite (fo_max s Hok f p Hp). destruct (Z.leb_spec (max_waiters s) (waiter_count p)); [by eapply refuse_step_ok|].
    eapply (check_step_ok s a Hok _ _ x f p); [done..|]. right. right. by left.
  - intros [= <-]. by apply add_step_ok.
  - intros [= <-]. by apply add_required_step_ok.
  - intros [= <-]. eapply (min_step_ok s a Hok _ _ f p _ (map_lock s)); [done..|]. left. eauto.
  - intros [= <-]. eapply (min_step_ok s a Hok _ _ f p _ None); [done..|]. right. eauto.
  - intros [= <-]. by apply create_step_ok.
  - intros [= <-]. by apply sub_required_step_ok.
  - intros [= <-]. eapply (maybe_step_ok s a Hok _ _ f); [done|by left|]. destruct (_ =? 0); auto.
  - intros [= <-]. eapply (maybe_step_ok s a Hok _ _ f); [done|by right; left|]. destruct (_ =? 0); auto.
  - intros [= <-]. eapply (maybe_step_ok s a Hok _ _ f); [done|by right; right|]. destruct (admission_reason p); auto.
  - intros [= <-]. by apply cancel_step_ok.
  - pose proof (complete_step_ok s a Hok f r p Ha Hp) as HC. destruct (flight_complete p r). by intros [= <-].
  - destruct tasks as [|t ts]; intros [= <-].
    + apply (wake_step_ok s a Hok f [] CallDone (waiting s) Ha). by left.
    + apply (wake_step_ok s a Hok f (t :: ts) (CWake f ts)); [done|]. right. eauto.
Qed.

Lemma flight_step_ok (s s' : FlightMap) (a : nat) (act : FlightAction) :
  flight_ok s -> flight_step s a act = Some s' -> flight_ok s'.
Proof.
  intros Hok. unfold flight_step. destruct act as [x| |f present|h r|h f r|f|].
  - destruct (calls s !! a) eqn:Ha; [done|]. case_bool_decide as Hl; [|done]. intros [= <-]. by apply acquire_start_ok.
  - destruct (calls s !! a) as [[]|] eqn:Ha; try done. destruct (arcs s !! f) as [p|] eqn:Hp; [|done]. intros [= <-].
    by eapply detach_step_ok.
  - destruct (calls s !! a) eqn:Ha; [done|]. destruct (arcs s !! f) as [p|] eqn:Hp; [|done]. intros [= <-]. by apply admission_step_ok.
  - destruct (calls s !! a) eqn:Ha; [done|]. case_bool_decide as Hl; [|done]. intros [= <-].
    destruct (flights s !! h) as [f|] eqn:Hf; [|by apply done_step_ok].
    apply (take_step_ok s a Hok h f r true); try done. destruct (fo_map s Hok h f Hf) as (p & Hp & _). by exists p.
  - destruct (calls s !! a) eqn:Ha; [done|]. destruct (_ && _) eqn:G; [|done]. intros [= <-].
    apply andb_true_iff in G as [Hl%bool_decide_eq_true Hp%bool_decide_eq_true].
    case_bool_decide as Hf; [by apply (take_step_ok s a Hok h f r true)|]. by apply (take_step_ok s a Hok h f r false).
  - destruct (arcs s !! f) as [p|] eqn:Hp; [|by destruct (calls s !! a)].
    pose proof (poll_step_ok s a Hok f p Hp) as HP. simpl. destruct (flight_poll p a).
    destruct (calls s !! a); by intros [= <-].
  - destruct (calls s !! a) as [c|] eqn:Ha; [|done]. by apply call_step_ok.
Qed.

Lemma flight_run_ok (s s' : FlightMap) (acts : list (nat * FlightAction)) :
  flight_ok s -> flight_run s acts = Some s' -> flight_ok s'.
Proof.
  revert s. induction acts as [|[a act] acts IH]; intros s Hok; simpl; [by intros [= <-]|].
  destruct (flight_step s a act) as [s1|] eqn:E; [|done]. simpl. apply IH. by eapply flight_step_ok.
Qed.

Lemma with_limits_ok (max : Z) : in_u32 max -> flight_ok (with_limits max).
Proof.
  intros Hm. split; simpl; try done; try (intros; by rewrite lookup_empty in * ); try (intros; simplify_map_eq); try set_solver.
Qed.

(** Results are written once, and cancellation is permanent. *)
Definition settles (p p' : PageFlight) : Prop :=
  pf_hash p' = pf_hash p /\ (forall r, flight_result p = Some r -> flight_result p' = Some r) /\ (pf_cancelled p = true -> pf_cancelled p' = true).

Definition arc_change (s : FlightMap) (m : gmap nat PageFlight) : Prop :=
  m = arcs s \/ (exists g q q', arcs s !! g = Some q /\ settles q q' /\ m = <[g := q']> (arcs s)) \/ (exists q, m = <[next_arc s := q]> (arcs s)).

Lemma arc_change_set (s : FlightMap) (g : nat) (q q' : PageFlight) :
  arcs s !! g = Some q -> settles q q' -> arc_change s (<[g := q']> (arcs s)).
Proof. intros Hq Hs. right. left. by exists g, q, q'. Qed.

Lemma complete_settles (p : PageFlight) (r : FlightResult) : settles p (flight_complete p r).1.
Proof. unfold flight_complete. destruct (flight_result p) eqn:E; [done|]. split_and!; simpl; done || congruence. Qed.
Lemma poll_settles (p : PageFlight) (t : nat) : settles p (flight_poll p t).2.
Proof. unfold flight_poll. destruct (flight_result p) eqn:E; [done|]. split_and!; simpl; done || congruence. Qed.

Lemma call_step_arcs (s s' : FlightMap) (a : nat) (c : Call) : call_step s a c = Some s' -> arc_change s (arcs s').
Proof.
  destruct c; simpl; try done; try (destruct (arcs s !! f) as [p|] eqn:Hp; [|done]); simpl;
    try (intros [= <-]; by left); try (intros [= <-]; by apply (arc_change_set s f p)).
  - intros [= <-]. destruct (_ <=? _); by left.
  - intros [= <-]. destruct (aq_required x); [by apply (arc_change_set s f p)|by left].
  - intros [= <-]. right. right. simpl. eauto.
  - intros [= <-]. destruct required; [by apply (arc_change_set s f p)|by left].
  - pose proof (complete_settles p r). destruct (flight_complete p r). intros [= <-]. by apply (arc_change_set s f p).
  - destruct tasks; intros [= <-]; by left.
Qed.

Lemma flight_step_arcs (s s' : FlightMap) (a : nat) (act : FlightAction) : flight_step s a act = Some s' -> arc_change s (arcs s').
Proof.
  unfold flight_step. destruct act as [x| |f present|h r|h f r|f|].
  - destruct (calls s !! a); [done|]. case_bool_decide; [|done]. intros [= <-]. by left.
  - destruct (calls s !! a) as [[]|]; try done. destruct (arcs s !! f) as [p|] eqn:Hp; [|done]. intros [= <-].
    by apply (arc_change_set s f p).
  - destruct (calls s !! a); [done|]. destruct (arcs s !! f) as [p|] eqn:Hp; [|done]. intros [= <-]. by apply (arc_change_set s f p).
  - destruct (calls s !! a); [done|]. case_bool_decide; [|done]. intros [= <-]. destruct (flights s !! h); by left.
  - destruct (calls s !! a); [done|]. destruct (_ && _); [|done]. intros [= <-]. case_bool_decide; by left.
  - destruct (arcs s !! f) as [p|] eqn:Hp; [|by destruct (calls s !! a)].
    pose proof (poll_settles p a). simpl. destruct (flight_poll p a).
    destruct (calls s !! a); intros [= <-]; by apply (arc_change_set s f p).
  - destruct (calls s !! a) as [c|]; [|done]. by apply call_step_arcs.
Qed.

Lemma flight_run_settles (s s' : FlightMap) (acts : list (nat * FlightAction)) (f : nat) (p : PageFlight) :
  flight_ok s -> flight_run s acts = Some s' -> arcs s !! f = Some p -> exists p', arcs s' !! f = Some p' /\ settles p p'.
Proof.
  revert s p. induction acts as [|[a act] acts IH]; intros s p Hok; simpl; [intros [= <-]; by exists p|].
  destruct (flight_step s a act) as [s1|] eqn:E; [|done]. simpl. intros Hrun Hp.
  assert (H1 : exists p1, arcs s1 !! f = Some p1 /\ settles p p1).
  { destruct (flight_step_arcs _ _ _ _ E) as [->|[(g & q & q' & Hq & Hs & ->)|(q & ->)]].
    - by exists p.
    - destruct (decide (g = f)) as [->|]; [|exists p; by rewrite lookup_insert_ne].
      exists q'. rewrite lookup_insert_eq. split; [done|congruence].
    - exists p. rewrite lookup_insert_ne; [done|]. intros <-. pose proof (fo_fresh s Hok _ ltac:(by eexists)). lia. }
  destruct H1 as (p1 & Hp1 & Hh1 & Hr1 & Hc1).
  destruct (IH s1 p1 (flight_step_ok _ _ _ _ Hok E) Hrun Hp1) as (p' & Hp' & Hh' & Hr' & Hc').
  exists p'. split; [done|]. split_and!; [congruence|eauto..].
Qed.

Lemma flight_step_max (s s' : FlightMap) (a : nat) (act : FlightAction) : flight_step s a act = Some s' -> max_waiters s' = max_waiters s.
Proof.
  unfold flight_step, call_step. intros Hstep.
  destruct act, (calls s !! a) as [c|]; try destruct c; try discriminate Hstep;
    repeat match type of Hstep with
    | context [match ?x with _ => _ end] => destruct x; try discriminate Hstep
    | context [?x ≫= _] => destruct x; [cbn [mbind option_bind] in Hstep|discriminate Hstep]
    end; injection Hstep as <-; done.
Qed.
Lemma flight_run_max (s s' : FlightMap) (acts : list (nat * FlightAction)) : flight_run s acts = Some s' -> max_waiters s' = max_waiters s.
Proof.
  revert s. induction acts as [|[a act] acts IH]; intros s; simpl; [by intros [= <-]|].
  destruct (flight_step s a act) as [s1|] eqn:E; [|done]. simpl. intros H%IH. rewrite H. by eapply flight_step_max.
Qed.

(** C35: in every interleaving of acquires, detaches, completions, admission
    changes and polls: each flight in the map was created for its key; a
    flight that neither has a result nor is cancelled is in the map under its
    hash, so that a caller joins it instead of fetching twice, or a completion
    that took it out is about to land it; a flight counts exactly the calls
    attached to it and never more than the limit (or its creator alone); and
    every call under way can take its next step. *)
Theorem flight_map_single_flight (max : Z) (acts : list (nat * FlightAction)) (s : FlightMap) :
  in_u32 max -> flight_run (with_limits max) acts = Some s ->
  (forall h f, flights s !! h = Some f -> exists p, arcs s !! f = Some p /\ pf_hash p = h) /\
  (forall f p, arcs s !! f = Some p -> open_flight p ->
     flights s !! pf_hash p = Some f \/ exists a r, calls s !! a = Some (CComplete f r)) /\
  (forall f p, arcs s !! f = Some p ->
     waiter_count p = count_in (counted f) (calls s) /\ waiter_count p <= Z.max 1 max) /\
  (forall a c, calls s !! a = Some c -> (forall f r o, c <> AttachedHandle f r o) -> c <> Refused -> c <> CallDone ->
     is_Some (flight_step s a FStep)).
Proof.
  intros Hmax Hrun. pose proof (flight_run_ok _ _ _ (with_limits_ok max Hmax) Hrun) as Hok. pose proof Hok as [].
  assert (Hm : max_waiters s = max).
  { by apply flight_run_max in Hrun. }
  split_and!; [done|done|..].
  - intros f p Hp. split; [by apply fo_waiters0|]. rewrite <- Hm. by eapply fo_bound0.
  - intros a c Ha H1 H2 H3. unfold flight_step. rewrite Ha.
    assert (Href : forall f, call_ref c = Some f -> exists p, arcs s !! f = Some p) by (intros f Hf; exact (fo_ref0 a c f Ha Hf)).
    destruct c; simpl in Href |- *; try done; try (destruct (Href f eq_refl) as [p ->]; simpl; eauto).
    + by destruct (H1 f required owner).
    + destruct (flight_complete p r). eauto.
    + destruct tasks; eauto.
Qed.

(** Witness. *)
Lemma flight_map_single_flight_witness :
  exists s, flight_run (with_limits 8) [(0%nat, FAcquire (demo_args true)); (0%nat, FStep); (1%nat, FComplete 42 (inl tt)); (2%nat, FAcquire (demo_args false))] = Some s /\
            is_Some (flight_step s 2 FStep).
Proof.
  eexists. split; [vm_compute; reflexivity|].
  refine (proj2 (proj2 (proj2 (flight_map_single_flight 8 [(0%nat, FAcquire (demo_args true)); (0%nat, FStep); (1%nat, FComplete 42 (inl tt)); (2%nat, FAcquire (demo_args false))] _ _ _)))
    2%nat (ACreate (demo_args false)) _ _ _ _); try discriminate; vm_compute; try reflexivity. split; discriminate.
Defined.

(** A flight's result is written once and its cancellation is permanent,
    whatever runs after; and no wakeup is lost: a task that was told to wait
    on a flight is registered with it while it has no result, and once it has
    one a call is about to wake the task, so when no completion is under way
    nobody waits on a landed flight. *)
Theorem flight_lands_once_and_wakes (max : Z) (acts more : list (nat * FlightAction)) (s s' : FlightMap) :
  in_u32 max -> flight_run (with_limits max) acts = Some s -> flight_run s more = Some s' ->
  (forall f p, arcs s !! f = Some p -> exists p', arcs s' !! f = Some p' /\ pf_hash p' = pf_hash p /\
     (forall r, flight_result p = Some r -> flight_result p' = Some r) /\ (pf_cancelled p = true -> pf_cancelled p' = true)) /\
  (forall f t, (f, t) ∈ waiting s ->
     (exists p, arcs s !! f = Some p /\ flight_result p = None /\ t ∈ flight_wakers p) \/
     (exists a tasks, calls s !! a = Some (CWake f tasks) /\ t ∈ tasks)).
Proof.
  intros Hmax Hrun Hmore. pose proof (flight_run_ok _ _ _ (with_limits_ok max Hmax) Hrun) as Hok. split.
  - intros f p Hp. by apply (flight_run_settles s s' more f p).
  - apply (fo_wait s Hok).
Qed.

(** Witness. *)
Lemma flight_lands_once_and_wakes_witness :
  exists s s', flight_run (with_limits 8) [(0%nat, FAcquire (demo_args true)); (0%nat, FStep); (5%nat, FPoll 0)] = Some s /\
    flight_run s [(1%nat, FComplete 42 (inl tt)); (1%nat, FStep); (1%nat, FStep); (1%nat, FStep)] = Some s' /\
    ((exists p, arcs s !! 0%nat = Some p /\ flight_result p = None /\ 5%nat ∈ flight_wakers p) \/
     (exists a tasks, calls s !! a = Some (CWake 0 tasks) /\ 5%nat ∈ tasks)).
Proof.
  eexists _, _. split; [vm_compute; reflexivity|]. split; [vm_compute; reflexivity|].
  refine (proj2 (flight_lands_once_and_wakes 8 [(0%nat, FAcquire (demo_args true)); (0%nat, FStep); (5%nat, FPoll 0)]
    [(1%nat, FComplete 42 (inl tt)); (1%nat, FStep); (1%nat, FStep); (1%nat, FStep)] _ _ _ _ _) 0%nat 5%nat _);
    vm_compute; try reflexivity. split; discriminate.
Defined.
