(* ===== verification/Frequency.v ===== *)
(** * Frequency sketch

    [mirage-cache/src/doorkeeper.rs] and [frequency.rs]: a four-row counting
    sketch of page accesses behind a one-bit doorkeeper, halved when enough
    events have passed.  [usize] is 64 bits wide.  BLAKE3 is the parameter
    [blake3]; the theorems hold for every hash function.  Counters are
    independent saturating bytes, so a call is one transition.

    Proved: every cell a call touches exists, the estimate of a page is at
    least its accesses (up to saturation) and at most all accesses, and aging
    halves exactly what the counters hold. *)
From S2P Require Export Bytes.

Definition ROWS : nat := 4.

Record Doorkeeper : Set := mkDoorkeeper { dk_words : list Z; dk_mask : Z; dk_seed : Z }.
Record FrequencySketch : Set := mkSketch {
  fs_counters : list Z; fs_width : Z; fs_mask : Z; fs_seed : Z; fs_events : Z; fs_age_after : Z; fs_doorkeeper : Doorkeeper
}.

Section sketch.
Variable blake3 : list Z -> Z.

(** ** Doorkeeper *)
Definition hash_index (hash seed mask : Z) : Z :=
  Z.land (from_le (get 0 8 (to_be 32 (blake3 (to_be 32 hash ++ to_le 8 seed))))) mask.

Definition Doorkeeper_new (bit_count seed : Z) : result Doorkeeper :=
  if (bit_count <? 64) || negb (is_power_of_two bit_count)
  then Err (invalid_argument "doorkeeper size must be a power of two at least 64")
  else Ok (mkDoorkeeper (replicate (Z.to_nat (bit_count / 64)) 0) (bit_count - 1) seed).

Definition dk_word (hash : Hash) (d : Doorkeeper) : nat := Z.to_nat (Z.shiftr (hash_index hash (dk_seed d) (dk_mask d)) 6).
Definition dk_bit (hash : Hash) (d : Doorkeeper) : Z := Z.shiftl 1 (Z.land (hash_index hash (dk_seed d) (dk_mask d)) 63).

(** [admit]: whether the bit was set, and the doorkeeper after [fetch_or]. *)
Definition dk_test_and_set (d : Doorkeeper) (hash : Hash) : bool * Doorkeeper :=
  let w := default 0 (dk_words d !! dk_word hash d) in
  (negb (Z.land w (dk_bit hash d) =? 0),
   mkDoorkeeper (<[dk_word hash d := Z.lor w (dk_bit hash d)]> (dk_words d)) (dk_mask d) (dk_seed d)).
Definition dk_contains (d : Doorkeeper) (hash : Hash) : bool :=
  negb (Z.land (default 0 (dk_words d !! dk_word hash d)) (dk_bit hash d) =? 0).
Definition dk_clear (d : Doorkeeper) : Doorkeeper := mkDoorkeeper (map (fun _ => 0) (dk_words d)) (dk_mask d) (dk_seed d).

(** ** Sketch *)
Definition FrequencySketch_new (width seed age_after : Z) : result FrequencySketch :=
  if (width <? 16) || negb (is_power_of_two width) || (age_after =? 0)
  then Err (invalid_argument "frequency width and age interval are invalid")
  else count ← ok_or (invalid_argument "frequency allocation overflows") (checked_mul width 4);
       d ← Doorkeeper_new width (Z.lxor seed 0xd00f5eed);
       Ok (mkSketch (replicate (Z.to_nat count) 0) width (width - 1) seed 0 age_after d).

Definition row_index (fs : FrequencySketch) (hash : Hash) (row : nat) : Z :=
  hash_index hash (Z.lxor (fs_seed fs) ((Z.of_nat row + 1) *! 0x9e3779b9)) (fs_mask fs).
Definition cell (fs : FrequencySketch) (hash : Hash) (row : nat) : nat :=
  (row * Z.to_nat (fs_width fs) + Z.to_nat (row_index fs hash row))%nat.

(** [fetch_update(saturating_add(1))] on a byte. *)
Definition bump (counters : list Z) (i : nat) : list Z := alter (fun v => Z.min (v + 1) u8_max) i counters.

Definition with_counters (fs : FrequencySketch) (events : Z) (counters : list Z) (d : Doorkeeper) : FrequencySketch :=
  mkSketch counters (fs_width fs) (fs_mask fs) (fs_seed fs) events (fs_age_after fs) d.

Definition record (fs : FrequencySketch) (hash : Hash) : FrequencySketch :=
  let events := fs_events fs +! 1 in
  let '(seen, d) := dk_test_and_set (fs_doorkeeper fs) hash in
  if negb seen then with_counters fs events (fs_counters fs) d
  else with_counters fs events (foldl bump (fs_counters fs) (map (cell fs hash) (seq 0 ROWS))) d.

Definition row_counts (fs : FrequencySketch) (hash : Hash) : list Z :=
  map (fun row => default 0 (fs_counters fs !! cell fs hash row)) (seq 0 ROWS).
(** [iter().min().unwrap_or(0)]. *)
Definition list_min (l : list Z) : Z := match l with [] => 0 | x :: l => foldl Z.min x l end.
Definition estimate (fs : FrequencySketch) (hash : Hash) : Z :=
  list_min (row_counts fs hash) + Z.b2z (dk_contains (fs_doorkeeper fs) hash).

(** The [aging] flag is free between calls. *)
Definition age_if_needed (fs : FrequencySketch) : bool * FrequencySketch :=
  if fs_events fs <? fs_age_after fs then (false, fs)
  else (true, with_counters fs 0 (map (fun v => Z.shiftr v 1) (fs_counters fs)) (dk_clear (fs_doorkeeper fs))).
End sketch.

(** ** Bits *)
Lemma land_le_mask (x m : Z) : 0 <= m -> 0 <= Z.land x m <= m.
Proof.
  intros Hm. split; [apply Z.land_nonneg; by right|].
  assert (Hd : Z.ldiff (Z.land x m) m = 0).
  { apply Z.bits_inj'. intros n Hn. rewrite Z.ldiff_spec, Z.land_spec, Z.bits_0. by destruct (Z.testbit x n), (Z.testbit m n). }
  pose proof (Z.sub_nocarry_ldiff m (Z.land x m) Hd) as Hs.
  assert (0 <= Z.ldiff m (Z.land x m)) by (apply Z.ldiff_nonneg; by left). lia.
Qed.

Lemma power_of_two_log2 (w : Z) : is_power_of_two w = true -> w = 2 ^ Z.log2 w.
Proof.
  unfold is_power_of_two. intros Hp. zbool. destruct (Z.log2_spec w) as [Hlo Hhi]; [done|].
  destruct (Z.eq_dec w (2 ^ Z.log2 w)) as [|Hne]; [done|]. exfalso.
  pose proof (Z.log2_nonneg w). assert (Hl : Z.log2 (w - 1) = Z.log2 w) by (apply Z.log2_unique; lia).
  assert (Hb : Z.testbit (Z.land w (w - 1)) (Z.log2 w) = true).
  { rewrite Z.land_spec. rewrite Z.bit_log2 by done. rewrite <- Hl. apply Z.bit_log2. pose proof (Z.pow_pos_nonneg 2 (Z.log2 w)). lia. }
  match goal with H : Z.land w (w - 1) = 0 |- _ => rewrite H, Z.bits_0 in Hb end. done.
Qed.

Lemma power_of_two_words (w i : Z) : is_power_of_two w = true -> 64 <= w -> 0 <= i <= w - 1 -> (Z.to_nat (Z.shiftr i 6) < Z.to_nat (w / 64))%nat.
Proof.
  intros Hp Hw Hi. assert (Hk : 6 <= Z.log2 w) by (apply (Z.log2_le_pow2 w 6); lia).
  assert (He : w = 64 * (w / 64)).
  { apply Z_div_exact_full_2; [done|]. rewrite (power_of_two_log2 w Hp). replace (Z.log2 w) with (Z.log2 w - 6 + 6) by lia.
    rewrite Z.pow_add_r by lia. apply Z_mod_mult. }
  rewrite Z.shiftr_div_pow2 by done. change (2 ^ 6) with 64. apply Z2Nat.inj_lt; [apply Z.div_pos; lia|apply Z.div_pos; lia|].
  apply Z.div_lt_upper_bound; lia.
Qed.

Lemma lor_bit (w k : Z) : 0 <= k -> negb (Z.land (Z.lor w (Z.shiftl 1 k)) (Z.shiftl 1 k) =? 0) = true.
Proof.
  intros Hk. apply negb_true_iff, Z.eqb_neq. intros H0. apply (f_equal (fun z => Z.testbit z k)) in H0.
  rewrite Z.land_spec, Z.lor_spec, Z.shiftl_spec, Z.sub_diag, Z.bits_0 in H0 by done. simpl in H0. by rewrite orb_true_r in H0.
Qed.
Lemma lor_keeps (w b c : Z) : Z.land w c <> 0 -> Z.land (Z.lor w b) c <> 0.
Proof.
  intros Hw H0. apply Hw. apply Z.bits_inj'. intros n Hn. apply (f_equal (fun z => Z.testbit z n)) in H0.
  rewrite Z.land_spec, Z.lor_spec, Z.bits_0 in H0. rewrite Z.land_spec, Z.bits_0.
  by destruct (Z.testbit w n), (Z.testbit b n), (Z.testbit c n).
Qed.

(** ** Counters *)
Lemma bump_lookup (l : list Z) (i j : nat) :
  bump l i !! j = if decide (i = j) then (fun v => Z.min (v + 1) u8_max) <$> l !! j else l !! j.
Proof. unfold bump. rewrite list_lookup_alter. case_decide; by subst. Qed.

Lemma foldl_bump_lookup (cs : list nat) (l : list Z) (j : nat) :
  NoDup cs -> foldl bump l cs !! j = if decide (j ∈ cs) then (fun v => Z.min (v + 1) u8_max) <$> l !! j else l !! j.
Proof.
  revert l. induction cs as [|i cs IH]; intros l HN; cbn [foldl]; [by rewrite decide_False by apply not_elem_of_nil|].
  apply NoDup_cons in HN as [Hi HN]. rewrite IH, bump_lookup by done.
  repeat case_decide; subst; try done; set_solver.
Qed.

Lemma list_min_glb (x : Z) (l : list Z) (b : Z) : b <= list_min (x :: l) <-> b <= x /\ Forall (fun v => b <= v) l.
Proof.
  simpl. revert x. induction l as [|y l IH]; intros x; simpl; [split; [intros; split; [done|constructor]|by intros [? _]]|].
  rewrite IH, Forall_cons. split; [intros [? ?]; split_and!; [lia|lia|done]|intros (? & ? & ?); split; [lia|done]].
Qed.
Lemma list_min_shiftr (x : Z) (l : list Z) : list_min (map (fun v => Z.shiftr v 1) (x :: l)) = Z.shiftr (list_min (x :: l)) 1.
Proof.
  simpl. revert x. induction l as [|y l IH]; intros x; simpl; [done|].
  rewrite <- IH. f_equal. rewrite !Z.shiftr_div_pow2 by done.
  destruct (Z.le_ge_cases x y) as [H|H]; [rewrite (Z.min_l x y) by lia|rewrite (Z.min_r x y) by lia];
    pose proof (Z.div_le_mono _ _ (2 ^ 1) ltac:(done) H); lia.
Qed.

(** ** The invariant of a sketch that was never aged *)
Section sketch_proofs.
Variable blake3 : list Z -> Z.
Notation index := (hash_index blake3).

(** The shape: rows of [width] bytes, and [width] doorkeeper bits. *)
Record sketch_shape (fs : FrequencySketch) : Prop := mk_sketch_shape {
  ss_pow2 : is_power_of_two (fs_width fs) = true;
  ss_width : 64 <= fs_width fs;
  ss_mask : fs_mask fs = fs_width fs - 1;
  ss_rows : length (fs_counters fs) = (4 * Z.to_nat (fs_width fs))%nat;
  ss_dk_mask : dk_mask (fs_doorkeeper fs) = fs_width fs - 1;
  ss_words : length (dk_words (fs_doorkeeper fs)) = Z.to_nat (fs_width fs / 64)
}.

Lemma row_index_bound (fs : FrequencySketch) (h : Hash) (row : nat) :
  sketch_shape fs -> 0 <= row_index blake3 fs h row < fs_width fs.
Proof.
  intros []. unfold row_index, hash_index. rewrite ss_mask0. pose proof (land_le_mask
    (from_le (get 0 8 (to_be 32 (blake3 (to_be 32 h ++ to_le 8 (Z.lxor (fs_seed fs) ((Z.of_nat row + 1) *! 2654435769))))))) (fs_width fs - 1)).
  lia.
Qed.

Lemma cell_bound (fs : FrequencySketch) (h : Hash) (row : nat) :
  sketch_shape fs -> (row < ROWS)%nat -> (cell blake3 fs h row < length (fs_counters fs))%nat.
Proof.
  intros HS Hr. pose proof (row_index_bound fs h row HS). rewrite (ss_rows fs HS). unfold cell, ROWS in *.
  assert (Z.to_nat (row_index blake3 fs h row) < Z.to_nat (fs_width fs))%nat by lia. nia.
Qed.

Lemma cells_nodup (fs : FrequencySketch) (h : Hash) : sketch_shape fs -> NoDup (map (cell blake3 fs h) (seq 0 ROWS)).
Proof.
  intros HS. assert (Hb : forall row, (Z.to_nat (row_index blake3 fs h row) < Z.to_nat (fs_width fs))%nat).
  { intros row. pose proof (row_index_bound fs h row HS). lia. }
  pose proof (Hb 0%nat). pose proof (Hb 1%nat). pose proof (Hb 2%nat). pose proof (Hb 3%nat).
  unfold cell. simpl. repeat (apply NoDup_cons; split; [rewrite ?not_elem_of_cons; split_and?; try apply not_elem_of_nil; lia|]).
  apply NoDup_nil_2.
Qed.

Lemma dk_word_bound (fs : FrequencySketch) (h : Hash) :
  sketch_shape fs -> (dk_word blake3 h (fs_doorkeeper fs) < length (dk_words (fs_doorkeeper fs)))%nat.
Proof.
  intros []. rewrite ss_words0. unfold dk_word. apply power_of_two_words; [done..|]. unfold hash_index. rewrite ss_dk_mask0.
  apply land_le_mask. lia.
Qed.

Lemma test_and_set_spec (fs : FrequencySketch) (h : Hash) :
  sketch_shape fs ->
  let d0 := fs_doorkeeper fs in
  let d := (dk_test_and_set blake3 d0 h).2 in
  dk_contains blake3 d h = true /\
  (forall h', dk_contains blake3 d0 h' = true -> dk_contains blake3 d h' = true) /\
  dk_mask d = dk_mask d0 /\ dk_seed d = dk_seed d0 /\ length (dk_words d) = length (dk_words d0).
Proof.
  intros HS d0 d. pose proof (dk_word_bound fs h HS) as Hb. fold d0 in Hb.
  assert (Hw : forall h', dk_word blake3 h' d = dk_word blake3 h' d0) by reflexivity.
  assert (Hbit : forall h', dk_bit blake3 h' d = dk_bit blake3 h' d0) by reflexivity.
  assert (Hl : dk_words d = <[dk_word blake3 h d0 := Z.lor (default 0 (dk_words d0 !! dk_word blake3 h d0)) (dk_bit blake3 h d0)]> (dk_words d0))
    by reflexivity.
  assert (Hm : dk_mask d = dk_mask d0 /\ dk_seed d = dk_seed d0) by (split; reflexivity).
  clearbody d. split_and!; [..|apply Hm|apply Hm|by rewrite Hl, length_insert].
  - unfold dk_contains. rewrite Hw, Hbit, Hl, (list_lookup_insert_eq _ _ _ Hb). apply lor_bit, Z.land_nonneg. by right.
  - intros h'. unfold dk_contains. rewrite Hw, Hbit, Hl.
    destruct (decide (dk_word blake3 h' d0 = dk_word blake3 h d0)) as [->|Hne]; [|rewrite list_lookup_insert_ne; auto].
    rewrite (list_lookup_insert_eq _ _ _ Hb). cbn [default from_option id]. rewrite !negb_true_iff, !Z.eqb_neq. apply lor_keeps.
Qed.

(** What the trace of recorded pages says about the sketch. *)
Record sketch_ok (trace : list Hash) (fs : FrequencySketch) : Prop := mk_sketch_ok {
  so_shape : sketch_shape fs;
  so_bytes : forall i v, fs_counters fs !! i = Some v -> 0 <= v <= u8_max /\ v <= Z.max 0 (Z.of_nat (length trace) - 1);
  so_counts : forall h row v, (row < ROWS)%nat -> fs_counters fs !! cell blake3 fs h row = Some v -> Z.min (cnt (Z.eqb h) trace - 1) u8_max <= v;
  so_door : forall h, 0 < cnt (Z.eqb h) trace -> dk_contains blake3 (fs_doorkeeper fs) h = true;
  so_empty : trace = [] -> forall h, dk_contains blake3 (fs_doorkeeper fs) h = false
}.

Lemma FrequencySketch_new_ok (width seed age_after : Z) (fs : FrequencySketch) :
  FrequencySketch_new width seed age_after = Ok fs ->
  sketch_ok [] fs /\ fs_events fs = 0 /\ fs_age_after fs = age_after.
Proof.
  unfold FrequencySketch_new, Doorkeeper_new. destruct (_ || _) eqn:E1; [done|]. intros H.
  apply bind_Ok_inv in H as (count & [_ ->]%ok_or_Ok_inv%checked_mul_Some & H).
  destruct ((width <? 64) || _) eqn:E2; [done|]. apply Ok_inj in H as <-. cbn [mbind result_bind].
  apply orb_false_iff in E2 as [Hw Hp]. zbool. split_and!; try done. split; simpl.
  - split; try done; cbn [fs_width fs_counters dk_words fs_doorkeeper]; rewrite length_replicate; [lia|done].
  - intros i v [-> _]%lookup_replicate. split; [unfold u8_max; lia|lia].
  - intros h row v _ [-> _]%lookup_replicate. unfold cnt. simpl. lia.
  - intros h. unfold cnt. simpl. lia.
  - intros _ h. unfold dk_contains. apply negb_false_iff, Z.eqb_eq.
    destruct (_ !! _) as [v|] eqn:E; [|done]. apply lookup_replicate in E as [-> _]. done.
Qed.

Lemma cnt_snoc {A : Type} (f : A -> bool) (l : list A) (x : A) : cnt f (l ++ [x]) = cnt f l + Z.b2z (f x).
Proof. unfold cnt. rewrite sumZ_app. simpl. lia. Qed.

#[local] Opaque hash_index.

(** The doorkeeper after an access, and the trace it then belongs to. *)
Lemma record_door (trace : list Hash) (fs : FrequencySketch) (h : Hash) :
  sketch_ok trace fs -> forall h', 0 < cnt (Z.eqb h') (trace ++ [h]) -> dk_contains blake3 (dk_test_and_set blake3 (fs_doorkeeper fs) h).2 h' = true.
Proof.
  intros [] h'. destruct (test_and_set_spec fs h so_shape0) as (Hin & Hkeep & _). rewrite cnt_snoc.
  destruct (Z.eqb_spec h' h) as [->|]; [by intros _; exact Hin|]. cbn [Z.b2z]. intros Hc. apply Hkeep, so_door0. lia.
Qed.

Lemma record_counters (trace : list Hash) (fs : FrequencySketch) (h : Hash) (i : nat) (v' : Z) :
  sketch_ok trace fs -> fs_counters (record blake3 fs h) !! i = Some v' ->
  exists v, fs_counters fs !! i = Some v /\
    (if dk_contains blake3 (fs_doorkeeper fs) h && bool_decide (i ∈ map (cell blake3 fs h) (seq 0 ROWS))
     then v' = Z.min (v + 1) u8_max else v' = v).
Proof.
  intros [] Hi. unfold record in Hi.
  assert (Hseen : (dk_test_and_set blake3 (fs_doorkeeper fs) h).1 = dk_contains blake3 (fs_doorkeeper fs) h) by reflexivity.
  destruct (dk_test_and_set blake3 (fs_doorkeeper fs) h) as [seen d]. cbn [fst] in Hseen. subst seen.
  destruct (dk_contains blake3 (fs_doorkeeper fs) h); cbn [negb andb fs_counters with_counters] in *; [|eauto].
  rewrite foldl_bump_lookup in Hi by by apply cells_nodup.
  case_decide as Hc; [rewrite bool_decide_eq_true_2 by done|rewrite bool_decide_eq_false_2 by done; eauto].
  destruct (fs_counters fs !! i) as [v|]; [|done]. injection Hi as <-. eauto.
Qed.

Lemma record_shape (fs : FrequencySketch) (h : Hash) :
  sketch_shape fs -> sketch_shape (record blake3 fs h) /\ (forall h' row, cell blake3 (record blake3 fs h) h' row = cell blake3 fs h' row) /\
  fs_doorkeeper (record blake3 fs h) = (dk_test_and_set blake3 (fs_doorkeeper fs) h).2 /\
  fs_events (record blake3 fs h) = fs_events fs +! 1 /\ fs_age_after (record blake3 fs h) = fs_age_after fs.
Proof.
  intros HS. destruct (test_and_set_spec fs h HS) as (_ & _ & Hm & _ & Hl).
  assert (Hlen : forall cs l, length (foldl bump l cs) = length l).
  { induction cs as [|c cs IH]; intros l; [done|]. cbn [foldl]. rewrite IH. apply length_alter. }
  unfold record. destruct (dk_test_and_set blake3 (fs_doorkeeper fs) h) as [seen d]. cbn [snd] in *. destruct HS.
  destruct seen; cbn [negb]; split_and!; try reflexivity; split; cbn [with_counters fs_width fs_mask fs_counters fs_doorkeeper]; rewrite ?Hlen; congruence.
Qed.

Lemma record_ok (trace : list Hash) (fs : FrequencySketch) (h : Hash) :
  sketch_ok trace fs -> sketch_ok (trace ++ [h]) (record blake3 fs h).
Proof.
  intros Hok. pose proof Hok as []. destruct (record_shape fs h so_shape0) as (HS & Hcell & Hd & _).
  assert (Hlen : Z.of_nat (length (trace ++ [h])) = Z.of_nat (length trace) + 1) by (rewrite length_app; simpl; lia).
  split; [done|..].
  - intros i v' Hi. destruct (record_counters trace fs h i v' Hok Hi) as (v & Hv & He). destruct (so_bytes0 i v Hv) as [? ?].
    destruct (dk_contains _ _ _ && _) eqn:E; subst v'; [|split; lia]. split; [unfold u8_max in *; lia|].
    apply andb_true_iff in E as [E _]. assert (trace <> []) by (intros ->; rewrite (so_empty0 eq_refl) in E; done).
    destruct trace; [done|]. simpl in *. lia.
  - intros h' row v' Hr. rewrite Hcell, cnt_snoc. intros Hi. destruct (record_counters trace fs h _ v' Hok Hi) as (v & Hv & He).
    pose proof (so_counts0 h' row v Hr Hv) as Hlo. destruct (so_bytes0 _ v Hv) as [? ?].
    destruct (Z.eqb_spec h' h) as [->|]; cbn [Z.b2z]; [|destruct (_ && _); subst v'; unfold u8_max in *; lia].
    rewrite bool_decide_eq_true_2, andb_true_r in He by (apply list_elem_of_In, in_map_iff; exists row; split; [done|]; apply in_seq; unfold ROWS in *; lia).
    destruct (dk_contains blake3 (fs_doorkeeper fs) h) eqn:E; subst v'; [unfold u8_max in *; lia|].
    assert (~ 0 < cnt (Z.eqb h) trace) by (intros Hc; apply so_door0 in Hc; congruence). lia.
  - rewrite Hd. by apply record_door.
  - intros He. by apply app_nil in He as [_ ?].
Qed.

Lemma record_all_ok (trace : list Hash) (fs : FrequencySketch) :
  sketch_ok [] fs -> fs_events fs = 0 -> Z.of_nat (length trace) <= u64_max ->
  sketch_ok trace (foldl (record blake3) fs trace) /\ fs_events (foldl (record blake3) fs trace) = Z.of_nat (length trace) /\
  fs_age_after (foldl (record blake3) fs trace) = fs_age_after fs.
Proof.
  intros Hok He. induction trace as [|h trace IH] using rev_ind; [done|]. rewrite length_app, foldl_app. simpl. intros Hl.
  destruct IH as (IH1 & IH2 & IH3); [lia|]. destruct (record_shape _ h (so_shape _ _ IH1)) as (_ & _ & _ & Hev & Ha).
  split_and!; [by apply record_ok| |by rewrite Ha]. rewrite Hev, IH2, wadd_u64_small; lia.
Qed.

Lemma row_counts_cells (fs : FrequencySketch) (h : Hash) (P : Z -> Prop) :
  sketch_shape fs -> (forall row v, (row < ROWS)%nat -> fs_counters fs !! cell blake3 fs h row = Some v -> P v) ->
  exists x l, row_counts blake3 fs h = x :: l /\ P x /\ Forall P l.
Proof.
  intros HS HP. assert (Hr : forall row, (row < ROWS)%nat -> P (default 0 (fs_counters fs !! cell blake3 fs h row))).
  { intros row Hrow. destruct (lookup_lt_is_Some_2 _ _ (cell_bound fs h row HS Hrow)) as [v Hv]. rewrite Hv. eauto. }
  unfold row_counts, ROWS in *. cbn [map seq]. eexists _, _. split; [reflexivity|]. split; [apply Hr; lia|].
  repeat constructor; apply Hr; lia.
Qed.
(** Aging: every counter is halved and the doorkeeper forgets. *)
Lemma dk_clear_contains (d : Doorkeeper) (h : Hash) : dk_contains blake3 (dk_clear d) h = false.
Proof.
  unfold dk_contains, dk_clear. cbn [dk_words]. apply negb_false_iff, Z.eqb_eq.
  rewrite list_lookup_fmap. by destruct (dk_words d !! _).
Qed.
Lemma estimate_aged (fs : FrequencySketch) (h : Hash) :
  estimate blake3 (with_counters fs 0 (map (fun v => Z.shiftr v 1) (fs_counters fs)) (dk_clear (fs_doorkeeper fs))) h =
  Z.shiftr (list_min (row_counts blake3 fs h)) 1.
Proof.
  unfold estimate. cbn [fs_doorkeeper with_counters]. rewrite dk_clear_contains, Z.add_0_r.
  assert (Hrows : row_counts blake3 (with_counters fs 0 (map (fun v => Z.shiftr v 1) (fs_counters fs)) (dk_clear (fs_doorkeeper fs))) h =
    map (fun v => Z.shiftr v 1) (row_counts blake3 fs h)).
  { unfold row_counts. rewrite map_map. apply map_ext. intros row. cbn [fs_counters with_counters].
    change (cell blake3 (with_counters fs _ _ _) h row) with (cell blake3 fs h row).
    rewrite list_lookup_fmap. by destruct (fs_counters fs !! cell blake3 fs h row). }
  rewrite Hrows. unfold row_counts, ROWS. cbn [seq map]. apply (list_min_shiftr _ [_; _; _]).
Qed.
End sketch_proofs.

(** C39: after any trace of recorded pages (fewer than 2^64) the estimate of a
    page is at least the number of its accesses, up to the 256 a byte and the
    doorkeeper bit can show, and at most the length of the trace; aging
    happens exactly when the trace is as long as the interval, and then the
    estimate of every page becomes half of what its counters held. *)
Theorem sketch_estimate_bounds (blake3 : list Z -> Z) (width seed age_after : Z) (fs0 : FrequencySketch) (trace : list Hash) :
  FrequencySketch_new width seed age_after = Ok fs0 -> Z.of_nat (length trace) <= u64_max ->
  let fs := foldl (record blake3) fs0 trace in
  (forall h, Z.min (cnt (Z.eqb h) trace) 256 <= estimate blake3 fs h <= Z.of_nat (length trace)) /\
  ((age_if_needed fs).1 = true <-> age_after <= Z.of_nat (length trace)) /\
  ((age_if_needed fs).1 = true -> forall h,
     estimate blake3 (age_if_needed fs).2 h = (estimate blake3 fs h - Z.b2z (dk_contains blake3 (fs_doorkeeper fs) h)) / 2).
Proof.
  intros (Hok0 & He0 & Ha0)%(FrequencySketch_new_ok blake3) Hl fs.
  destruct (record_all_ok blake3 trace fs0 Hok0 He0 Hl) as (Hok & Hev & Hage). fold fs in Hok, Hev, Hage. pose proof Hok as [].
  split_and!.
  - intros h. unfold estimate.
    destruct (row_counts_cells blake3 fs h (fun v => Z.max 0 (Z.min (cnt (Z.eqb h) trace - 1) u8_max) <= v <= Z.max 0 (Z.of_nat (length trace) - 1)) so_shape0)
      as (x & l & -> & Hx & HF).
    { intros row v Hr Hv. pose proof (so_counts0 h row v Hr Hv). destruct (so_bytes0 _ v Hv). lia. }
    assert (Hmin : Z.max 0 (Z.min (cnt (Z.eqb h) trace - 1) u8_max) <= list_min (x :: l)).
    { apply list_min_glb. split; [lia|]. eapply Forall_impl; [exact HF|]. simpl. lia. }
    destruct (proj1 (list_min_glb x l (list_min (x :: l))) ltac:(lia)) as [Hle _].
    assert (Hd : dk_contains blake3 (fs_doorkeeper fs) h = false -> cnt (Z.eqb h) trace <= 0).
    { intros Hf. destruct (Z.le_gt_cases (cnt (Z.eqb h) trace) 0); [done|]. rewrite so_door0 in Hf by lia. done. }
    assert (Ht : dk_contains blake3 (fs_doorkeeper fs) h = true -> 1 <= Z.of_nat (length trace)).
    { intros Hc. destruct trace; [by rewrite so_empty0 in Hc|simpl; lia]. }
    unfold u8_max in *. destruct (dk_contains blake3 (fs_doorkeeper fs) h); cbn [Z.b2z]; [specialize (Ht eq_refl)|specialize (Hd eq_refl)]; lia.
  - unfold age_if_needed. rewrite Hev, Hage, Ha0. destruct (Z.ltb_spec (Z.of_nat (length trace)) age_after); cbn [fst]; split; intros; done || lia.
  - unfold age_if_needed. destruct (fs_events fs <? fs_age_after fs); [done|]. intros _ h. cbn [snd].
    rewrite estimate_aged. unfold estimate. rewrite Z.add_simpl_r, Z.shiftr_div_pow2; done.
Qed.

(** Witness. *)
Lemma sketch_estimate_bounds_witness :
  exists fs0, FrequencySketch_new 64 7 3 = Ok fs0 /\
    Z.min (cnt (Z.eqb 5) [5; 9; 5]) 256 <= estimate sum256 (foldl (record sum256) fs0 [5; 9; 5]) 5.
Proof.
  eexists. split; [reflexivity|].
  refine (proj1 (proj1 (sketch_estimate_bounds sum256 64 7 3 _ [5; 9; 5] _ _) 5)); [reflexivity|]. vm_compute. discriminate.
Defined.
