(* ===== verification/Parser.v ===== *)
(** * Parsing byte documents

    The cursor of [mirage-manifest/src/namespace.rs] over the unread suffix of
    a document: a parser takes the unread bytes and returns a value with the
    bytes it left, or the error.  [parses p enc ok] says that [p] accepts
    exactly the encodings by [enc] of the values in [ok], whatever follows;
    the lemmas compose it along the code. *)
From S2P Require Export Bytes.

Definition parser (A : Type) : Type := list Z -> result (A * list Z).

#[export] Instance parser_ret : MRet parser := fun A a b => Ok (a, b).
#[export] Instance parser_bind : MBind parser :=
  fun A B k p b => match p b with Ok (a, b') => k a b' | Err e => Err e end.

(** [if c { return Err(e) }] and [return Err(e)] between reads. *)
Definition refuse_if (c : bool) (e : MirageError) : parser unit := fun b => if c then Err e else Ok (tt, b).
Definition refuse {A : Type} (e : MirageError) : parser A := fun _ => Err e.

(** ** The cursor *)
Definition cur_take (n : nat) : parser (list Z) := fun b =>
  if (n <=? length b)%nat then Ok (firstn n b, skipn n b) else Err (manifest_invalid "namespace document is truncated").
Definition cur_byte : parser Z := l ← cur_take 1; mret (from_le l).
Definition cur_u32 : parser Z := l ← cur_take 4; mret (from_le l).
Definition cur_u64 : parser Z := l ← cur_take 8; mret (from_le l).
(** Identifiers and hashes keep their array order as integers. *)
Definition cur_id (n : nat) : parser Z := l ← cur_take n; mret (from_be l).
Definition cur_done : parser unit := fun b =>
  match b with [] => Ok (tt, []) | _ => Err (manifest_invalid "namespace document has trailing bytes") end.

(** ** What a parser accepts *)
Definition parses {A : Type} (p : parser A) (enc : A -> list Z) (ok : A -> Prop) : Prop :=
  forall b a rest, is_bytes b -> p b = Ok (a, rest) <-> b = enc a ++ rest /\ ok a.

Lemma parses_ext {A : Type} (p : parser A) (enc enc' : A -> list Z) (ok ok' : A -> Prop) :
  parses p enc ok -> (forall a, ok a -> enc a = enc' a) -> (forall a, ok a <-> ok' a) -> parses p enc' ok'.
Proof.
  intros Hp He Ho b a rest Hb. rewrite (Hp b a rest Hb), Ho. split; intros [-> Ha]; (split; [|done]); rewrite He by (by apply Ho); done.
Qed.

Lemma parses_ret {A : Type} (x : A) : parses (mret x) (fun _ => []) (fun a => a = x).
Proof. intros b a rest _. split; [by intros [= -> ->]|]. by intros [-> ->]. Qed.

Lemma parses_refuse {A : Type} (e : MirageError) (enc : A -> list Z) : parses (refuse e) enc (fun _ => False).
Proof. intros b a rest _. split; [done|]. by intros [_ []]. Qed.

(** What follows a read parses the rest of [c], of which the read gave the
    part [π c]. *)
Lemma parses_bind {A C : Type} (π : C -> A) (p : parser A) (k : A -> parser C) (e1 : A -> list Z) (ok1 : A -> Prop)
    (e2 : C -> list Z) (ok2 : A -> C -> Prop) :
  parses p e1 ok1 -> (forall a, ok1 a -> parses (k a) e2 (ok2 a)) -> (forall a c, ok1 a -> ok2 a c -> π c = a) ->
  parses (p ≫= k) (fun c => e1 (π c) ++ e2 c) (fun c => ok1 (π c) /\ ok2 (π c) c).
Proof.
  intros Hp Hk Hπ b c rest Hb. unfold mbind, parser_bind. split.
  - destruct (p b) as [[a b1]|] eqn:E; [|done]. intros H. apply (Hp b a b1 Hb) in E as [-> Ha].
    apply Forall_app in Hb as [_ Hb]. apply (Hk a Ha b1 c rest Hb) in H as [-> Hc]. rewrite (Hπ a c Ha Hc), <- app_assoc. done.
  - intros (-> & Ha & Hc). rewrite <- app_assoc in Hb |- *. rewrite (proj2 (Hp _ (π c) (e2 c ++ rest) Hb)) by done.
    apply Forall_app in Hb as [_ Hb]. by apply Hk.
Qed.

Lemma parses_refuse_if {A : Type} (c : bool) (e : MirageError) (p : parser A) (enc : A -> list Z) (ok : A -> Prop) :
  (c = false -> parses p enc ok) -> parses (_ ← refuse_if c e; p) enc (fun a => c = false /\ ok a).
Proof.
  intros Hp b a rest Hb. unfold mbind, parser_bind, refuse_if. destruct c; [split; [done|by intros (_ & ? & _)]|].
  rewrite (Hp eq_refl b a rest Hb). naive_solver.
Qed.

(** A read whose result is only a step to a value. *)
Lemma parses_map {A B : Type} (f : A -> B) (g : B -> A) (p : parser A) (enc : A -> list Z) (ok : A -> Prop) :
  parses p enc ok -> (forall a, ok a -> g (f a) = a) ->
  parses (a ← p; mret (f a)) (fun b => enc (g b)) (fun b => ok (g b) /\ b = f (g b)).
Proof.
  intros Hp Hgf b c rest Hb. unfold mbind, parser_bind. split.
  - destruct (p b) as [[a b1]|] eqn:E; [|done]. unfold mret, parser_ret. intros [= <- <-].
    apply (Hp b a b1 Hb) in E as [-> Ha]. by rewrite !Hgf.
  - intros (-> & Ha & Hc). rewrite (proj2 (Hp _ (g c) rest Hb)) by done. unfold mret, parser_ret. by rewrite <- Hc.
Qed.

Lemma parses_take (n : nat) : parses (cur_take n) (fun l => l) (fun l => length l = n /\ is_bytes l).
Proof.
  intros b a rest Hb. unfold cur_take. split.
  - destruct (Nat.leb_spec n (length b)); [|done]. intros [= <- <-]. rewrite firstn_skipn, length_firstn.
    split_and!; [done|lia|by apply Forall_take].
  - intros (-> & <- & _). rewrite length_app, (proj2 (Nat.leb_le _ _)) by lia. by rewrite firstn_app, firstn_all, Nat.sub_diag, app_nil_r, skipn_app, skipn_all, Nat.sub_diag.
Qed.

Lemma parses_le (n : nat) : parses (l ← cur_take n; mret (from_le l)) (to_le n) (fun x => 0 <= x < 256 ^ Z.of_nat n).
Proof.
  eapply parses_ext; [apply (parses_map from_le (to_le n)); [apply parses_take|]|done|].
  - intros l [<- Hl]. by apply le_le_val.
  - intros x. simpl. split.
    + intros [[_ _] ->]. pose proof (le_val_bound (to_le n x) (le_bytes n x)) as H. by rewrite length_le in H.
    + intros Hx. rewrite le_val_le by done. split_and!; [apply length_le|apply le_bytes|done].
Qed.
Lemma parses_be (n : nat) : parses (cur_id n) (to_be n) (fun x => 0 <= x < 256 ^ Z.of_nat n).
Proof.
  eapply parses_ext; [apply (parses_map from_be (to_be n)); [apply parses_take|]|done|].
  - intros l [<- Hl]. by apply be_be_val.
  - intros x. simpl. split.
    + intros [[_ _] ->]. pose proof (be_val_bound (to_be n x) (be_bytes n x)) as H. by rewrite length_be in H.
    + intros Hx. rewrite be_val_be by done. split_and!; [apply length_be|apply be_bytes|done].
Qed.

Definition id_ok (n : nat) (x : Z) : Prop := 0 <= x < 256 ^ Z.of_nat n.

Lemma parses_byte : parses cur_byte (fun x => [x]) in_u8.
Proof.
  eapply parses_ext; [apply (parses_le 1)| |].
  - intros x Hx. change (256 ^ Z.of_nat 1) with 256 in Hx. unfold to_le. by rewrite Z.mod_small.
  - intros x. change (256 ^ Z.of_nat 1) with 256. unfold in_u8, u8_max. lia.
Qed.
Lemma parses_u32 : parses cur_u32 (to_le 4) in_u32.
Proof. eapply parses_ext; [apply (parses_le 4)|done|]. intros x. change (256 ^ Z.of_nat 4) with 4294967296. unfold in_u32, u32_max. lia. Qed.
Lemma parses_u64 : parses cur_u64 (to_le 8) in_u64.
Proof. eapply parses_ext; [apply (parses_le 8)|done|]. intros x. change (256 ^ Z.of_nat 8) with 18446744073709551616. unfold in_u64, u64_max. lia. Qed.

(** A tag byte that must be one of two. *)
Lemma parses_tag {A : Type} (k : Z -> parser A) (tag : A -> Z) (enc : A -> list Z) (ok : A -> Prop) :
  (forall t, parses (k t) enc (fun a => tag a = t /\ ok a)) -> (forall a, ok a -> in_u8 (tag a)) ->
  parses (cur_byte ≫= k) (fun a => tag a :: enc a) ok.
Proof.
  intros Hk Ht. eapply parses_ext; [apply (parses_bind tag); [apply parses_byte|intros t _; apply Hk|by intros t a _ [? _]]|done|].
  intros a. simpl. split; [by intros (_ & _ & ?)|]. intros Ha. eauto.
Qed.

Definition opt_tag {A : Type} (o : option A) : Z := match o with Some _ => 1 | None => 0 end.
Definition opt_bytes {A : Type} (e : A -> list Z) (o : option A) : list Z := match o with Some a => e a | None => [] end.
Definition opt_ok {A : Type} (ok : A -> Prop) (o : option A) : Prop := match o with Some a => ok a | None => True end.

(** The flag byte of an optional value. *)
Definition cur_opt {A : Type} (e : MirageError) (p : parser A) : parser (option A) :=
  flag ← cur_byte;
  if flag =? 0 then mret None else if flag =? 1 then a ← p; mret (Some a) else refuse e.

Lemma parses_opt {A : Type} (e : MirageError) (p : parser A) (enc : A -> list Z) (ok : A -> Prop) :
  parses p enc ok -> parses (cur_opt e p) (fun o => opt_tag o :: opt_bytes enc o) (opt_ok ok).
Proof.
  intros Hp. apply parses_tag; [|by intros [a|] _].
  intros t b o rest Hb. destruct (Z.eqb_spec t 0) as [->|H0]; [|destruct (Z.eqb_spec t 1) as [->|H1]].
  - unfold mret, parser_ret. split; [by intros [= <- <-]|]. destruct o; simpl; [by intros (_ & ? & _)|]. by intros (-> & _).
  - unfold mbind, parser_bind, mret, parser_ret. split.
    + destruct (p b) as [[a b1]|] eqn:E; [|done]. intros [= <- <-]. apply (Hp b a b1 Hb) in E as [-> Ha]. done.
    + destruct o as [a|]; simpl; [|by intros (_ & ? & _)]. intros (-> & _ & Ha). by rewrite (proj2 (Hp _ a rest Hb)).
  - split; [done|]. destruct o; simpl; intros (_ & ? & _); lia.
Qed.

(** ** Whole documents

    A parser that ends with [cur_done]. *)
Definition accepts {A : Type} (p : parser A) (enc : A -> list Z) (ok : A -> Prop) : Prop :=
  forall b a rest, is_bytes b -> p b = Ok (a, rest) <-> rest = [] /\ b = enc a /\ ok a.

Lemma accepts_done {A : Type} (x : A) : accepts (_ ← cur_done; mret x) (fun _ => []) (fun a => a = x).
Proof. intros b a rest _. unfold mbind, parser_bind, mret, parser_ret, cur_done. destruct b; naive_solver. Qed.

Lemma accepts_bind {A C : Type} (π : C -> A) (p : parser A) (k : A -> parser C) (e1 : A -> list Z) (ok1 : A -> Prop)
    (e2 : C -> list Z) (ok2 : A -> C -> Prop) :
  parses p e1 ok1 -> (forall a, ok1 a -> accepts (k a) e2 (ok2 a)) -> (forall a c, ok1 a -> ok2 a c -> π c = a) ->
  accepts (p ≫= k) (fun c => e1 (π c) ++ e2 c) (fun c => ok1 (π c) /\ ok2 (π c) c).
Proof.
  intros Hp Hk Hπ b c rest Hb. unfold mbind, parser_bind. split.
  - destruct (p b) as [[a b1]|] eqn:E; [|done]. intros H. apply (Hp b a b1 Hb) in E as [-> Ha].
    apply Forall_app in Hb as [_ Hb]. apply (Hk a Ha b1 c rest Hb) in H as (-> & -> & Hc). rewrite (Hπ a c Ha Hc). done.
  - intros (-> & -> & Ha & Hc). rewrite (proj2 (Hp _ (π c) (e2 c) Hb)) by done.
    apply Forall_app in Hb as [_ Hb]. by apply Hk.
Qed.

Lemma accepts_ext {A : Type} (p : parser A) (enc enc' : A -> list Z) (ok ok' : A -> Prop) :
  accepts p enc ok -> (forall a, ok a -> enc a = enc' a) -> (forall a, ok a <-> ok' a) -> accepts p enc' ok'.
Proof.
  intros Hp He Ho b a rest Hb. rewrite (Hp b a rest Hb), Ho. split; intros (-> & -> & Ha); (split_and!; [done| |done]); rewrite He by (by apply Ho); done.
Qed.
