(* ===== verification/Sql.v ===== *)
(** * Tables and statements

    What the SQL statements of [mirage-db] mean, for the components that keep
    their state in tables: a table is a map from its primary key to a row, a
    schema gives the [CHECK] of a row and the [UNIQUE] indexes as a relation
    between rows that may not coexist.  A statement that violates one of them
    fails, and the error is the one [error.rs] makes of it; so does an
    operation that meets it, and its transaction is dropped.  The integer
    conversions are those of [value.rs]. *)
From S2P Require Export Errors.

Definition sqlite (context : string) : MirageError := MirageError_new Io (default_code Io) context.
Definition conflict (message : string) : MirageError := repository_conflict message.

Definition sqlite_integer (value : Z) (label : string) : result Z :=
  if value <=? i64_max then Ok value else Err (invalid_argument (label +:+ " exceeds SQLite INTEGER")).
Definition nonnegative (value : Z) (label : string) : result Z :=
  if 0 <=? value then Ok value else Err (integrity_mismatch ("database " +:+ label +:+ " is negative")).

(** The [as i64] cast of a [u64]. *)
Definition as_i64 (x : Z) : Z := if x <=? i64_max then x else x - (u64_max + 1).
Lemma as_i64_small (x : Z) : x <= i64_max -> as_i64 x = x.
Proof. intros Hx. unfold as_i64. by rewrite (proj2 (Z.leb_le _ _)). Qed.

(** [ORDER BY] a pair of integer columns. *)
Definition pair_le (a b : Z * Z) : bool := (a.1 <? b.1) || ((a.1 =? b.1) && (a.2 <=? b.2)).

Section table.
Context {K : Type} `{Countable K} {row : Type} (check : K -> row -> bool) (clash : row -> row -> bool).

(** The row may stand at [k] beside the other rows. *)
Definition fits_at (k : K) (r : row) (t : gmap K row) : bool :=
  check k r && forallb (fun x => negb (clash r x.2)) (map_to_list (delete k t)).

(** [INSERT]: [None] on a constraint violation. *)
Definition insert_row (k : K) (r : row) (t : gmap K row) : option (gmap K row) :=
  match t !! k with
  | Some _ => None
  | None => if fits_at k r t then Some (<[k := r]> t) else None
  end.
(** [UPDATE .. SET f WHERE key = k AND p], with the number of changed rows. *)
Definition update_row (k : K) (p : row -> bool) (f : row -> row) (t : gmap K row) : option (Z * gmap K row) :=
  match t !! k with
  | Some r => if p r then (if fits_at k (f r) t then Some (1, <[k := f r]> t) else None) else Some (0, t)
  | None => Some (0, t)
  end.

(** Every row passes its check and no two rows clash. *)
Definition consistent (t : gmap K row) : Prop :=
  map_Forall (fun k r => check k r = true) t /\
  forall k1 k2 r1 r2, t !! k1 = Some r1 -> t !! k2 = Some r2 -> k1 <> k2 -> clash r1 r2 = false.

Lemma fits_at_iff (k : K) (r : row) (t : gmap K row) :
  fits_at k r t = true <-> check k r = true /\ forall k' x, t !! k' = Some x -> k <> k' -> clash r x = false.
Proof.
  unfold fits_at. rewrite andb_true_iff, forallb_forall. split; intros [Hc Hf]; (split; [done|]).
  - intros k' x Hx Hne. apply negb_true_iff. apply (Hf (k', x)).
    apply list_elem_of_In, elem_of_map_to_list. by rewrite lookup_delete_ne.
  - intros [k' x] Hin%list_elem_of_In%elem_of_map_to_list. apply lookup_delete_Some in Hin as [Hne Hx].
    apply negb_true_iff. exact (Hf k' x Hx Hne).
Qed.

Lemma consistent_empty : consistent ∅.
Proof. split; [apply map_Forall_empty|]. intros k1 k2 r1 r2 Hk. by rewrite lookup_empty in Hk. Qed.

Lemma consistent_put (clash_sym : forall a b, clash a b = clash b a) (k : K) (r : row) (t : gmap K row) :
  consistent t -> fits_at k r t = true -> consistent (<[k := r]> t).
Proof.
  intros [Hc Hu] [Hr Hf]%fits_at_iff. split; [by apply map_Forall_insert_2|].
  intros k1 k2 r1 r2 [[<- <-]|[Hn1 H1]]%lookup_insert_Some [[<- <-]|[Hn2 H2]]%lookup_insert_Some Hne; try done.
  - exact (Hf k2 r2 H2 Hne).
  - rewrite clash_sym. exact (Hf k1 r1 H1 Hn1).
  - exact (Hu k1 k2 r1 r2 H1 H2 Hne).
Qed.

Lemma insert_row_Some (k : K) (r : row) (t t' : gmap K row) :
  insert_row k r t = Some t' <-> t !! k = None /\ fits_at k r t = true /\ t' = <[k := r]> t.
Proof. unfold insert_row. destruct (t !! k), (fits_at k r t); naive_solver. Qed.

Lemma update_row_Some (k : K) (p : row -> bool) (f : row -> row) (t t' : gmap K row) (n : Z) :
  update_row k p f t = Some (n, t') ->
  (n = 1 /\ exists r, t !! k = Some r /\ p r = true /\ fits_at k (f r) t = true /\ t' = <[k := f r]> t) \/
  (n = 0 /\ t' = t /\ forall r, t !! k = Some r -> p r = false).
Proof.
  unfold update_row. destruct (t !! k) as [r|].
  - destruct (p r) eqn:Ep; [destruct (fits_at k (f r) t) eqn:Ef|]; intros [= <- <-].
    + left. eauto 6.
    + right. split_and!; [done|done|]. by intros ? [= <-].
  - intros [= <- <-]. right. by split_and!.
Qed.
End table.

(** Rows that know their key are distinct. *)
Lemma NoDup_filter_values {K A : Type} `{Countable K} (m : gmap K A) (p : A -> bool) (f : A -> K) :
  (forall k x, m !! k = Some x -> p x = true -> f x = k) -> NoDup (List.filter p (map snd (map_to_list m))).
Proof.
  intros Hf. assert (forall y, y ∈ map_to_list m -> m !! y.1 = Some y.2) as Hl by (intros [k x]; by rewrite elem_of_map_to_list).
  pose proof (NoDup_fst_map_to_list m) as Hn. induction (map_to_list m) as [|[k x] l IH]; [constructor|].
  apply NoDup_cons in Hn as [Hk Hn]. cbn [map List.filter snd].
  assert (NoDup (List.filter p (map snd l))) as Hrest by (apply IH; [intros y Hy; apply Hl; by right|done]).
  destruct (p x) eqn:E; [|done]. apply NoDup_cons. split; [|done].
  intros Hin%list_elem_of_In. apply filter_In in Hin as [Hin _]. apply in_map_iff in Hin as ([k' x'] & Ex & Hin%list_elem_of_In). cbn in Ex. subst x'.
  assert (k = k') as ->. { rewrite <-(Hf k x), <-(Hf k' x); try done; [by apply (Hl (k', x)); right|by apply (Hl (k, x)); left]. }
  apply Hk. change (k' ∈ map fst l). apply list_elem_of_In, in_map_iff. exists (k', x). by rewrite <-list_elem_of_In.
Qed.

#[global] Arguments fits_at {K _ _ row} check clash k r t : simpl never.

Lemma sqlite_integer_small (v : Z) (l : string) : v <= i64_max -> sqlite_integer v l = Ok v.
Proof. unfold sqlite_integer. intros. by rewrite (proj2 (Z.leb_le _ _)). Qed.
Lemma nonnegative_nonneg (v : Z) (l : string) : 0 <= v -> nonnegative v l = Ok v.
Proof. unfold nonnegative. intros. by rewrite (proj2 (Z.leb_le _ _)). Qed.

Lemma pair_le_total (a b : Z * Z) : pair_le a b = false -> pair_le b a = true.
Proof. unfold pair_le. destruct a, b; cbn. zbool. lia. Qed.
Lemma pair_le_trans (a b c : Z * Z) : pair_le a b = true -> pair_le b c = true -> pair_le a c = true.
Proof. unfold pair_le. destruct a, b, c; cbn. zbool. lia. Qed.
