(* ===== verification/SlotTable.v ===== *)
(** * The cache slot table

    [mirage-db/src/cache.rs] over the tables of [migrations/0006_cache.sql]:
    which page each slot of each cache arena holds.  A slot goes from free to
    reserved (under a new generation), to resident, to evicting and back to
    free; callers hold copies of the slot record and every statement names the
    generation of the copy.  A row keeps its columns as SQLite integers and
    [decode_slot] reads them, so a row the schema allows but the types do not
    is an error value.

    Proved over every sequence of operations: rows move along the lifecycle
    only, at most one slot is resident for a page, copies of an earlier
    reservation of a slot are refused, and a batch reserves all its pages or
    changes nothing. *)
From S2P Require Export Sql.
From Stdlib Require Import Ascii.

(** ** Rows and records *)
Inductive CacheSlotState : Set := Free | Reserved | Resident | Evicting | RetryDeallocate.
#[export] Instance CacheSlotState_eq_dec : EqDecision CacheSlotState.
Proof. solve_decision. Defined.

Definition slot_state_code (s : CacheSlotState) : Z :=
  match s with Free => 0 | Reserved => 1 | Resident => 2 | Evicting => 3 | RetryDeallocate => 4 end.

Record CacheShardSpec : Set := mkShardSpec {
  cs_shard_id : Z; cs_relative_path : string; cs_page_size : Z; cs_slot_count : Z
}.
Record CacheSlotRecord : Set := mkSlot {
  shard_id : Z; slot_index : Z; generation : Z; state : CacheSlotState; page_hash : option Hash; logical_length : Z
}.
#[export] Instance CacheSlotRecord_eq_dec : EqDecision CacheSlotRecord.
Proof. solve_decision. Defined.
Definition with_state (s : CacheSlotState) (r : CacheSlotRecord) : CacheSlotRecord :=
  mkSlot (shard_id r) (slot_index r) (generation r) s (page_hash r) (logical_length r).

Inductive ReserveCacheSlotOutcome : Set :=
| ReserveReserved (r : CacheSlotRecord) | ReserveExisting (r : CacheSlotRecord).
Inductive CommitCacheSlotOutcome : Set :=
| CommitCommitted (r : CacheSlotRecord) | CommitExisting (r : CacheSlotRecord).

(** Columns of [cache_shards] and of [cache_slots]. *)
Record ShardRow : Set := mkShardRow {
  sh_relative_path : string; sh_page_size : Z; sh_slot_count : Z; sh_format_version : Z
}.
Record SlotRow : Set := mkSlotRow {
  sr_generation : Z; sr_state : Z; sr_page_hash : option Hash; sr_logical_length : Z
}.
#[export] Instance SlotRow_eq_dec : EqDecision SlotRow.
Proof. solve_decision. Defined.

Definition shard_check (_ : Z) (r : ShardRow) : bool :=
  (0 <? sh_page_size r) && (0 <? sh_slot_count r) && (sh_format_version r =? 1).
Definition shard_clash (a b : ShardRow) : bool := bool_decide (sh_relative_path a = sh_relative_path b).
Definition slot_check (k : Z * Z) (r : SlotRow) : bool :=
  (0 <=? k.2) && (0 <=? sr_generation r) && (0 <=? sr_state r) && (sr_state r <=? 4) && (0 <=? sr_logical_length r) &&
  (if sr_state r =? 0 then bool_decide (sr_page_hash r = None) else bool_decide (is_Some (sr_page_hash r))).
(** The partial index [cache_slots_resident_hash]. *)
Definition slot_clash (a b : SlotRow) : bool :=
  (sr_state a =? 2) && (sr_state b =? 2) && bool_decide (sr_page_hash a = sr_page_hash b).

Record SlotDb : Set := mkSlotDb { cache_shards : gmap Z ShardRow; cache_slots : gmap (Z * Z) SlotRow }.
Definition empty_slots : SlotDb := mkSlotDb ∅ ∅.
Definition set_slots (t : gmap (Z * Z) SlotRow) (d : SlotDb) : SlotDb := mkSlotDb (cache_shards d) t.

Definition decode_state (v : Z) : option CacheSlotState :=
  if v =? 0 then Some Free else if v =? 1 then Some Reserved else if v =? 2 then Some Resident
  else if v =? 3 then Some Evicting else if v =? 4 then Some RetryDeallocate else None.
Definition decode_slot (x : (Z * Z) * SlotRow) : option CacheSlotRecord :=
  s ← decode_state (sr_state x.2);
  if (0 <=? x.1.2) && (x.1.2 <=? u32_max) && (0 <=? sr_generation x.2) &&
     (0 <=? sr_logical_length x.2) && (sr_logical_length x.2 <=? u32_max)
  then Some (mkSlot x.1.1 x.1.2 (sr_generation x.2) s (sr_page_hash x.2) (sr_logical_length x.2))
  else None.

(** ** Statements *)
Definition slots_where (p : SlotRow -> bool) (d : SlotDb) : list ((Z * Z) * SlotRow) :=
  sort_by (fun a b => pair_le a.1 b.1) (List.filter (fun x => p x.2) (map_to_list (cache_slots d))).
Definition holds_hash (hash : Hash) (s : CacheSlotState) (r : SlotRow) : bool :=
  bool_decide (sr_page_hash r = Some hash) && (sr_state r =? slot_state_code s).
(** [query_row(..).optional()]: the first row, decoded.  Statements without
    an order are read in key order; the unique index leaves [query_hash] of the
    resident state at most one row. *)
Definition first_slot (context : string) (l : list ((Z * Z) * SlotRow)) : result (option CacheSlotRecord) :=
  match l with
  | [] => Ok None
  | x :: _ => r ← ok_or (sqlite context) (decode_slot x); Ok (Some r)
  end.
Definition query_hash (d : SlotDb) (hash : Hash) (s : CacheSlotState) : result (option CacheSlotRecord) :=
  first_slot "failed to query cache hash" (slots_where (holds_hash hash s) d).
Fixpoint decode_slots (context : string) (l : list ((Z * Z) * SlotRow)) : result (list CacheSlotRecord) :=
  match l with
  | [] => Ok []
  | x :: l => r ← ok_or (sqlite context) (decode_slot x); rs ← decode_slots context l; Ok (r :: rs)
  end.
Definition load_residents (d : SlotDb) : result (list CacheSlotRecord) :=
  decode_slots "failed to decode resident cache slot" (slots_where (fun r => sr_state r =? 2) d).
Definition load_all (d : SlotDb) : result (list CacheSlotRecord) :=
  decode_slots "failed to decode cache slot" (slots_where (fun _ => true) d).

Fixpoint decode_shards (l : list (Z * ShardRow)) : result (list CacheShardSpec) :=
  match l with
  | [] => Ok []
  | (id, r) :: l =>
      size ← nonnegative (sh_page_size r) "cache page size";
      count ← nonnegative (sh_slot_count r) "cache slot count";
      if u32_max <? count then Err (integrity_mismatch "cache slot count exceeds u32")
      else rest ← decode_shards l; Ok (mkShardSpec id (sh_relative_path r) size count :: rest)
  end.
Definition load_shards (d : SlotDb) : result (list CacheShardSpec) :=
  decode_shards (sort_by_key fst (map_to_list (cache_shards d))).
Definition load_cache_snapshot (d : SlotDb) : result (list CacheShardSpec * list CacheSlotRecord) :=
  shards ← load_shards d; residents ← load_residents d; Ok (shards, residents).

(** [UPDATE cache_slots SET .. WHERE shard_id AND slot_index AND generation AND p]. *)
Definition update_slot (context : string) (r : CacheSlotRecord) (p : SlotRow -> bool) (f : SlotRow -> SlotRow) (d : SlotDb)
  : result (Z * SlotDb) :=
  g ← sqlite_integer (generation r) "cache generation";
  '(n, t) ← ok_or (sqlite context)
    (update_row slot_check slot_clash (shard_id r, slot_index r) (fun x => (sr_generation x =? g) && p x) f (cache_slots d));
  Ok (n, set_slots t d).
Definition set_state (s : CacheSlotState) (r : SlotRow) : SlotRow :=
  mkSlotRow (sr_generation r) (slot_state_code s) (sr_page_hash r) (sr_logical_length r).
Definition in_state (s : CacheSlotState) (r : SlotRow) : bool := sr_state r =? slot_state_code s.

(** ** Operations *)
(** A transaction: an error leaves the tables as they were. *)
Definition transact {A : Type} (o : result (A * SlotDb)) (d : SlotDb) : result A * SlotDb :=
  match o with Ok (a, d') => (Ok a, d') | Err e => (Err e, d) end.

Definition require (r : CacheSlotRecord) (s : CacheSlotState) : result Hash :=
  match page_hash r with
  | Some h =>
      if negb (bool_decide (state r = s)) || (logical_length r =? 0)
      then Err (invalid_argument "cache slot record is invalid for transition") else Ok h
  | None => Err (invalid_argument "cache slot record is invalid for transition")
  end.

Definition has_separator (s : string) : bool :=
  existsb (fun c => bool_decide (c = "/"%char) || bool_decide (c = "\"%char)) (String.list_ascii_of_string s).
Fixpoint insert_slots (shard : Z) (first : Z) (n : nat) (t : gmap (Z * Z) SlotRow) : result (gmap (Z * Z) SlotRow) :=
  match n with
  | O => Ok t
  | S n =>
      t ← ok_or (sqlite "failed to initialize cache slot") (insert_row slot_check slot_clash (shard, first) (mkSlotRow 0 0 None 0) t);
      insert_slots shard (first + 1) n t
  end.
Definition register_shard (v : CacheShardSpec) (d : SlotDb) : result (() * SlotDb) :=
  if (cs_shard_id v <? 0) || (String.length (cs_relative_path v) =? 0)%nat || (255 <? Z.of_nat (String.length (cs_relative_path v)))
     || has_separator (cs_relative_path v) || (cs_slot_count v =? 0)
  then Err (invalid_argument "cache shard specification is invalid")
  else
    size ← sqlite_integer (cs_page_size v) "cache page size";
    shards ← ok_or (sqlite "failed to insert cache shard")
      (insert_row shard_check shard_clash (cs_shard_id v) (mkShardRow (cs_relative_path v) size (cs_slot_count v) 1) (cache_shards d));
    t ← insert_slots (cs_shard_id v) 0 (Z.to_nat (cs_slot_count v)) (cache_slots d);
    Ok ((), mkSlotDb shards t).

Definition reserved_row (generation : Z) (hash : Hash) (length : Z) (_ : SlotRow) : SlotRow :=
  mkSlotRow generation 1 (Some hash) length.
(** [WHERE state = 0 ORDER BY shard_id, slot_index]. *)
Definition free_slots (d : SlotDb) : list ((Z * Z) * SlotRow) := slots_where (in_state Free) d.

(** The index of the slot is checked after the commit. *)
Definition reserve_cache_slot (hash : Hash) (length : Z) (d : SlotDb) : result ReserveCacheSlotOutcome * SlotDb :=
  if length =? 0 then (Err (invalid_argument "cache page logical length is zero"), d)
  else
    let body :=
      existing ← query_hash d hash Resident;
      match existing with
      | Some r => Ok (inl r, d)
      | None =>
          '(k, row) ← ok_or (cache_full "cache has no free slot") (head (free_slots d));
          old ← (if 0 <=? sr_generation row then Ok (sr_generation row) else Err (integrity_mismatch "cache generation is negative"));
          g ← ok_or (internal_invariant "cache generation overflows") (checked_add old 1);
          g ← sqlite_integer g "cache generation";
          '(_, t) ← ok_or (sqlite "failed to reserve cache slot")
            (update_row slot_check slot_clash k (in_state Free) (reserved_row g hash length) (cache_slots d));
          Ok (inr (k, g), set_slots t d)
      end in
    match transact body d with
    | (Err e, d) => (Err e, d)
    | (Ok (inl r), d) => (Ok (ReserveExisting r), d)
    | (Ok (inr ((s, i), g)), d) =>
        if (0 <=? i) && (i <=? u32_max) then (Ok (ReserveReserved (mkSlot s i g Reserved (Some hash) length)), d)
        else (Err (integrity_mismatch "cache slot index invalid"), d)
    end.

Fixpoint batch_lengths (seen : gmap Z Z) (requests : list (Hash * Z)) : result () :=
  match requests with
  | [] => Ok ()
  | (hash, length) :: rest =>
      match seen !! hash with
      | Some existing =>
          if negb (existing =? length)
          then Err (invalid_argument "duplicate cache reservation has conflicting lengths")
          else Err (invalid_argument "cache reservation batch contains duplicate pages")
      | None => batch_lengths (<[hash := length]> seen) rest
      end
  end.
(** The pages already resident or reserved, and those missing. *)
Fixpoint batch_existing (d : SlotDb) (requests : list (Hash * Z))
  : result (list (Hash * ReserveCacheSlotOutcome) * list (Hash * Z)) :=
  match requests with
  | [] => Ok ([], [])
  | (hash, length) :: rest =>
      existing ← query_hash d hash Resident;
      match existing with
      | Some r =>
          if negb (logical_length r =? length) then Err (integrity_mismatch "resident page length differs from reservation request")
          else '(outs, missing) ← batch_existing d rest; Ok ((hash, ReserveExisting r) :: outs, missing)
      | None =>
          reserved ← first_slot "failed to query existing cache reservation" (slots_where (holds_hash hash Reserved) d);
          match reserved with
          | Some r =>
              if negb (logical_length r =? length) then Err (integrity_mismatch "reserved page length differs from reservation request")
              else '(outs, missing) ← batch_existing d rest; Ok ((hash, ReserveReserved r) :: outs, missing)
          | None => '(outs, missing) ← batch_existing d rest; Ok (outs, (hash, length) :: missing)
          end
      end
  end.
Fixpoint batch_fill (pairs : list ((Hash * Z) * ((Z * Z) * SlotRow))) (d : SlotDb)
  : result (list (Hash * ReserveCacheSlotOutcome) * SlotDb) :=
  match pairs with
  | [] => Ok ([], d)
  | ((hash, length), (k, row)) :: rest =>
      old ← nonnegative (sr_generation row) "cache generation";
      g ← ok_or (internal_invariant "cache generation overflows") (checked_add old 1);
      g ← sqlite_integer g "cache generation";
      '(changed, t) ← ok_or (sqlite "failed to reserve cache batch slot")
        (update_row slot_check slot_clash k (in_state Free) (reserved_row g hash length) (cache_slots d));
      if negb (changed =? 1) then Err (conflict "free cache slot changed during batch reservation")
      else
        i ← nonnegative k.2 "cache slot index";
        if u32_max <? i then Err (integrity_mismatch "cache slot index exceeds u32")
        else
          '(outs, d) ← batch_fill rest (set_slots t d);
          Ok ((hash, ReserveReserved (mkSlot k.1 i g Reserved (Some hash) length)) :: outs, d)
  end.
Definition reserve_batch (requests : list (Hash * Z)) (d : SlotDb) : result (list ReserveCacheSlotOutcome * SlotDb) :=
  match requests with
  | [] => Err (invalid_argument "cache reservation batch is empty")
  | _ =>
      _ ← batch_lengths ∅ requests;
      if existsb (fun r => r.2 =? 0) requests then Err (invalid_argument "cache reservation batch contains a zero-length page")
      else
        '(outs, missing) ← batch_existing d requests;
        let free := firstn (length missing) (free_slots d) in
        if negb (length free =? length missing)%nat then Err (cache_full "cache needs additional free slots")
        else
          '(outs', d') ← batch_fill (combine missing free) d;
          Ok (map snd (sort_by_key fst (outs ++ outs')), d')
  end.

Definition transition_to_evicting (r : CacheSlotRecord) (s : CacheSlotState) (d : SlotDb) : result SlotDb :=
  '(changed, d') ← update_slot "failed to quarantine cache slot" r (in_state s) (set_state Evicting) d;
  if negb (changed =? 1) then Err (conflict "cache slot changed before quarantine") else Ok d'.
Definition holds_page (hash : Hash) (length : Z) (r : SlotRow) : bool :=
  bool_decide (sr_page_hash r = Some hash) && (sr_logical_length r =? length).

Definition commit_slot (r : CacheSlotRecord) (d : SlotDb) : result (CommitCacheSlotOutcome * SlotDb) :=
  hash ← require r Reserved;
  existing ← query_hash d hash Resident;
  match existing with
  | Some e => d' ← transition_to_evicting r Reserved d; Ok (CommitExisting e, d')
  | None =>
      '(changed, d') ← update_slot "failed to commit resident cache slot" r
        (fun x => in_state Reserved x && holds_page hash (logical_length r) x) (set_state Resident) d;
      if negb (changed =? 1) then Err (conflict "cache reservation changed before commit")
      else Ok (CommitCommitted (with_state Resident r), d')
  end.

(** Every record valid, and no slot or page twice. *)
Fixpoint batch_distinct (slots : gset (Z * Z)) (hashes : gset Z) (rs : list CacheSlotRecord) : result () :=
  match rs with
  | [] => Ok ()
  | r :: rest =>
      hash ← require r Reserved;
      if bool_decide ((shard_id r, slot_index r) ∈ slots) || bool_decide (hash ∈ hashes)
      then Err (invalid_argument "cache commit batch contains duplicate slots or hashes")
      else batch_distinct ({[(shard_id r, slot_index r)]} ∪ slots) ({[hash]} ∪ hashes) rest
  end.
Fixpoint batch_publish (rs : list CacheSlotRecord) (d : SlotDb) : result (list CacheSlotRecord * SlotDb) :=
  match rs with
  | [] => Ok ([], d)
  | r :: rest =>
      hash ← require r Reserved;
      existing ← query_hash d hash Resident;
      match existing with
      | Some _ => Err (conflict "cache batch page became resident before commit")
      | None =>
          '(changed, d') ← update_slot "failed to publish cache batch slot" r
            (fun x => in_state Reserved x && holds_page hash (logical_length r) x) (set_state Resident) d;
          if negb (changed =? 1) then Err (conflict "cache batch reservation changed before commit")
          else '(out, d'') ← batch_publish rest d'; Ok (with_state Resident r :: out, d'')
      end
  end.
Definition commit_batch (rs : list CacheSlotRecord) (d : SlotDb) : result (list CacheSlotRecord * SlotDb) :=
  if (length rs =? 0)%nat || (64 <? length rs)%nat then Err (invalid_argument "cache commit batch must contain 1 to 64 slots")
  else _ ← batch_distinct ∅ ∅ rs; batch_publish rs d.

Definition release_cache_reservation (r : CacheSlotRecord) (d : SlotDb) : result (() * SlotDb) :=
  _ ← require r Reserved; d' ← transition_to_evicting r Reserved d; Ok ((), d').
Definition begin_cache_eviction (r : CacheSlotRecord) (d : SlotDb) : result (CacheSlotRecord * SlotDb) :=
  hash ← require r Resident;
  '(changed, d') ← update_slot "failed to begin cache eviction" r
    (fun x => in_state Resident x && bool_decide (sr_page_hash x = Some hash)) (set_state Evicting) d;
  if negb (changed =? 1) then Err (conflict "resident cache slot changed before eviction")
  else Ok (with_state Evicting r, d').
Definition cleared (r : SlotRow) : SlotRow := mkSlotRow (sr_generation r) 0 None 0.
Definition finish_deallocation (r : CacheSlotRecord) (d : SlotDb) : result (() * SlotDb) :=
  match state r with
  | Evicting | RetryDeallocate =>
      '(changed, d') ← update_slot "failed to finish cache deallocation" r
        (fun x => in_state Evicting x || in_state RetryDeallocate x) cleared d;
      if negb (changed =? 1) then Err (conflict "cache slot changed before deallocation completed") else Ok ((), d')
  | _ => Err (invalid_argument "cache slot is not awaiting deallocation")
  end.
Definition mark_retry (r : CacheSlotRecord) (d : SlotDb) : result (() * SlotDb) :=
  '(changed, d') ← update_slot "failed to mark cache deallocation retry" r (in_state Evicting) (set_state RetryDeallocate) d;
  if negb (changed =? 1) then Err (conflict "evicting cache slot changed before retry") else Ok ((), d').

(** One operation of a client and the tables after it. *)
Inductive SlotOp : Set :=
| ORegister (v : CacheShardSpec) | OReserve (hash : Hash) (length : Z) | OReserveBatch (requests : list (Hash * Z))
| OCommit (r : CacheSlotRecord) | OCommitBatch (rs : list CacheSlotRecord) | ORelease (r : CacheSlotRecord)
| OBeginEviction (r : CacheSlotRecord) | OFinishDeallocation (r : CacheSlotRecord) | OMarkRetry (r : CacheSlotRecord).
Definition slot_step (d : SlotDb) (o : SlotOp) : SlotDb :=
  match o with
  | ORegister v => (transact (register_shard v d) d).2
  | OReserve hash length => (reserve_cache_slot hash length d).2
  | OReserveBatch requests => (transact (reserve_batch requests d) d).2
  | OCommit r => (transact (commit_slot r d) d).2
  | OCommitBatch rs => (transact (commit_batch rs d) d).2
  | ORelease r => (transact (release_cache_reservation r d) d).2
  | OBeginEviction r => (transact (begin_cache_eviction r d) d).2
  | OFinishDeallocation r => (transact (finish_deallocation r d) d).2
  | OMarkRetry r => (transact (mark_retry r d) d).2
  end.
Definition slot_run (d : SlotDb) (os : list SlotOp) : SlotDb := fold_left slot_step os d.

(** The values the Rust types allow as arguments. *)
Definition slot_op_typed (o : SlotOp) : Prop :=
  match o with
  | ORegister v => in_u64 (cs_page_size v) /\ in_u32 (cs_slot_count v)
  | OReserve _ length => in_u32 length
  | OReserveBatch requests => Forall (fun r => in_u32 r.2) requests
  | _ => True
  end.

Definition t_shard : CacheShardSpec := mkShardSpec 0 "arena0" 4096 2.
Definition t_db : SlotDb := slot_run empty_slots [ORegister t_shard].
Definition t_one : SlotDb := slot_run t_db [OReserve 7 100; OCommit (mkSlot 0 0 1 Reserved (Some 7) 100)].

Example register_then_reserve :
  (reserve_cache_slot 7 100 t_db).1 = Ok (ReserveReserved (mkSlot 0 0 1 Reserved (Some 7) 100)).
Proof. vm_compute. reflexivity. Qed.
Example committed_page_is_found : (reserve_cache_slot 7 100 t_one).1 = Ok (ReserveExisting (mkSlot 0 0 1 Resident (Some 7) 100)).
Proof. vm_compute. reflexivity. Qed.
Example batch_mixes_resident_and_new :
  option_map fst (match reserve_batch [(9, 50); (7, 100)] t_one with Ok x => Some x | Err _ => None end)
  = Some [ReserveExisting (mkSlot 0 0 1 Resident (Some 7) 100); ReserveReserved (mkSlot 0 1 1 Reserved (Some 9) 50)].
Proof. vm_compute. reflexivity. Qed.
Example batch_too_large : reserve_batch [(9, 50); (8, 100)] t_one = Err (cache_full "cache needs additional free slots").
Proof. vm_compute. reflexivity. Qed.
Example duplicate_reservation_is_quarantined :
  let d := slot_run t_db [OReserve 7 100; OReserve 7 100; OCommit (mkSlot 0 0 1 Reserved (Some 7) 100)] in
  option_map fst (match commit_slot (mkSlot 0 1 1 Reserved (Some 7) 100) d with Ok x => Some x | Err _ => None end)
  = Some (CommitExisting (mkSlot 0 0 1 Resident (Some 7) 100)).
Proof. vm_compute. reflexivity. Qed.

(** ** The lifecycle of a slot *)
Inductive SlotEvent : Set := EvReserve | EvPublish | EvQuarantine | EvRetry | EvFree.
#[export] Instance SlotEvent_eq_dec : EqDecision SlotEvent.
Proof. solve_decision. Defined.

Inductive edge : SlotEvent -> SlotRow -> SlotRow -> Prop :=
| e_reserve g h l : 0 < l -> edge EvReserve (mkSlotRow g 0 None 0) (mkSlotRow (g + 1) 1 (Some h) l)
| e_publish g h l : edge EvPublish (mkSlotRow g 1 (Some h) l) (mkSlotRow g 2 (Some h) l)
| e_quarantine g s h l : s = 1 \/ s = 2 -> edge EvQuarantine (mkSlotRow g s (Some h) l) (mkSlotRow g 3 (Some h) l)
| e_retry g h l : edge EvRetry (mkSlotRow g 3 (Some h) l) (mkSlotRow g 4 (Some h) l)
| e_free g s h l : s = 3 \/ s = 4 -> edge EvFree (mkSlotRow g s (Some h) l) (mkSlotRow g 0 None 0).

(** The events an operation may cause. *)
Definition op_events (o : SlotOp) : list SlotEvent :=
  match o with
  | ORegister _ => []
  | OReserve _ _ | OReserveBatch _ => [EvReserve]
  | OCommit _ => [EvPublish; EvQuarantine]
  | OCommitBatch _ => [EvPublish]
  | ORelease _ | OBeginEviction _ => [EvQuarantine]
  | OFinishDeallocation _ => [EvFree]
  | OMarkRetry _ => [EvRetry]
  end.

(** Every slot stays, or moves along one edge of the event. *)
Definition moves (ev : SlotEvent) (d d' : SlotDb) : Prop :=
  cache_shards d = cache_shards d' /\
  forall k, cache_slots d !! k = cache_slots d' !! k \/
    exists r r', cache_slots d !! k = Some r /\ cache_slots d' !! k = Some r' /\ edge ev r r'.

Definition slot_row_ok (k : Z * Z) (r : SlotRow) : Prop :=
  slot_check k r = true /\ k.2 <= u32_max /\ sr_generation r <= i64_max /\ sr_logical_length r <= u32_max /\
  if sr_state r =? 0 then sr_logical_length r = 0 else 0 < sr_logical_length r /\ 0 < sr_generation r.
Definition slot_inv (d : SlotDb) : Prop :=
  map_Forall slot_row_ok (cache_slots d) /\
  consistent slot_check slot_clash (cache_slots d) /\
  consistent shard_check shard_clash (cache_shards d) /\
  forall k, is_Some (cache_slots d !! k) <-> exists s, cache_shards d !! k.1 = Some s /\ 0 <= k.2 < sh_slot_count s.

Lemma slot_clash_sym (a b : SlotRow) : slot_clash a b = slot_clash b a.
Proof.
  unfold slot_clash. rewrite (andb_comm (sr_state a =? 2)). f_equal. apply bool_decide_ext. split; congruence.
Qed.
Lemma shard_clash_sym (a b : ShardRow) : shard_clash a b = shard_clash b a.
Proof. unfold shard_clash. apply bool_decide_ext. split; congruence. Qed.

Lemma slot_check_iff (k : Z * Z) (g s : Z) (h : option Hash) (l : Z) :
  slot_check k (mkSlotRow g s h l) = true <->
  0 <= k.2 /\ 0 <= g /\ 0 <= s <= 4 /\ 0 <= l /\ (s = 0 -> h = None) /\ (s <> 0 -> is_Some h).
Proof.
  unfold slot_check. cbn. destruct (Z.eqb_spec s 0) as [->|Hs];
    rewrite !andb_true_iff, bool_decide_eq_true, !Z.leb_le; naive_solver lia.
Qed.

Lemma moves_refl (ev : SlotEvent) (d : SlotDb) : moves ev d d.
Proof. split; [done|]. by left. Qed.
(** Two edges of the same event do not compose, but for a duplicate retry. *)
Lemma edge_no_compose (ev : SlotEvent) (a b c : SlotRow) : edge ev a b -> edge ev b c -> False.
Proof. inversion 1; subst; inversion 1; subst; lia. Qed.
Lemma moves_trans (ev : SlotEvent) (a b c : SlotDb) : moves ev a b -> moves ev b c -> moves ev a c.
Proof.
  intros [Hs1 H1] [Hs2 H2]. split; [congruence|]. intros k.
  destruct (H1 k) as [E1|(r & r' & E1 & E1' & He1)], (H2 k) as [E2|(q & q' & E2 & E2' & He2)].
  - left. congruence.
  - right. exists q, q'. by rewrite E1.
  - right. exists r, r'. by rewrite <-E2.
  - exfalso. rewrite E1' in E2. injection E2 as <-. exact (edge_no_compose _ _ _ _ He1 He2).
Qed.

Lemma edge_row_ok (ev : SlotEvent) (k : Z * Z) (r r' : SlotRow) :
  slot_row_ok k r -> edge ev r r' -> sr_generation r' <= i64_max -> sr_logical_length r' <= u32_max -> slot_row_ok k r'.
Proof.
  intros (Hc & Hk & Hg & Hl & Hz) He Hg' Hl'.
  inversion He; subst; cbn in *; apply slot_check_iff in Hc as (Hk0 & Hg0 & Hs0 & Hl0 & Hn & Hh); zcase_in Hz; try lia;
    (split_and!; [apply slot_check_iff; split_and!; (lia || done || (intros _; by eexists))|done|done|done|cbn; lia]).
Qed.

Lemma put_ok (ev : SlotEvent) (d : SlotDb) (k : Z * Z) (r r' : SlotRow) :
  slot_inv d -> cache_slots d !! k = Some r -> edge ev r r' ->
  sr_generation r' <= i64_max -> sr_logical_length r' <= u32_max -> fits_at slot_check slot_clash k r' (cache_slots d) = true ->
  slot_inv (set_slots (<[k := r']> (cache_slots d)) d) /\ moves ev d (set_slots (<[k := r']> (cache_slots d)) d).
Proof.
  intros (Hr & Hc & Hs & Hb) Hk He Hg Hl Hf. split.
  - split_and!; cbn.
    + apply map_Forall_insert_2; [|done]. exact (edge_row_ok ev k r r' (Hr k r Hk) He Hg Hl).
    + by apply consistent_put; [exact slot_clash_sym|..].
    + done.
    + intros k'. rewrite <-Hb. rewrite lookup_insert_is_Some'. split; [|by auto]. intros [<-|?]; [by rewrite Hk|done].
  - split; [done|]. intros k'. cbn. destruct (decide (k = k')) as [<-|Hne].
    + right. exists r, r'. by rewrite lookup_insert_eq.
    + left. by rewrite lookup_insert_ne.
Qed.

(** An [UPDATE] that names a generation changes nothing, or the row that has it. *)
Lemma update_slot_Ok (context : string) (r : CacheSlotRecord) (p : SlotRow -> bool) (f : SlotRow -> SlotRow) (d d' : SlotDb) (n : Z) :
  update_slot context r p f d = Ok (n, d') ->
  (n = 0 /\ d' = d) \/
  (n = 1 /\ exists x, cache_slots d !! (shard_id r, slot_index r) = Some x /\ sr_generation x = generation r /\ p x = true /\
     fits_at slot_check slot_clash (shard_id r, slot_index r) (f x) (cache_slots d) = true /\
     d' = set_slots (<[(shard_id r, slot_index r) := f x]> (cache_slots d)) d).
Proof.
  unfold update_slot. intros (g & Hg & H)%bind_Ok_inv.
  apply bind_Ok_inv in H as ([n' t] & Hu%ok_or_Ok_inv & [= <- <-]).
  assert (g = generation r) as -> by (unfold sqlite_integer in Hg; destruct (_ <=? _); by inversion Hg).
  apply update_row_Some in Hu as [(-> & x & Hx & Hp & Hf & ->)|(-> & -> & _)].
  - right. split; [done|]. exists x. apply andb_true_iff in Hp as [Hg'%Z.eqb_eq Hp]. by split_and!.
  - left. split; [done|]. by destruct d.
Qed.

(** A guarded update that returns is one move. *)
Lemma update_slot_moves (ev : SlotEvent) (context : string) (r : CacheSlotRecord) (p : SlotRow -> bool)
  (f : SlotRow -> SlotRow) (d d' : SlotDb) (n : Z) :
  (forall k x, slot_row_ok k x -> p x = true -> edge ev x (f x) /\ sr_generation (f x) = sr_generation x /\ sr_logical_length (f x) <= u32_max) ->
  slot_inv d -> update_slot context r p f d = Ok (n, d') -> slot_inv d' /\ moves ev d d'.
Proof.
  intros He Hd [(-> & ->)|(-> & x & Hx & Hg & Hp & Hf & ->)]%update_slot_Ok; [split; [done|apply moves_refl]|].
  pose proof (proj1 Hd _ _ Hx) as Hok. destruct (He _ x Hok Hp) as (Hedge & Hg' & Hl').
  apply (put_ok ev d _ x (f x)); try done. rewrite Hg'. apply Hok.
Qed.

Lemma free_row (k : Z * Z) (x : SlotRow) : slot_row_ok k x -> in_state Free x = true -> x = mkSlotRow (sr_generation x) 0 None 0.
Proof.
  intros (Hc & _ & _ & _ & Hz) Hs%Z.eqb_eq. destruct x as [g s h l]. cbn in *. subst s.
  apply slot_check_iff in Hc as (_ & _ & _ & _ & Hn & _). rewrite Hn by done. cbn in Hz. by subst.
Qed.
Lemma held_row (k : Z * Z) (x : SlotRow) (s : CacheSlotState) :
  slot_row_ok k x -> in_state s x = true -> s <> Free ->
  exists h, x = mkSlotRow (sr_generation x) (slot_state_code s) (Some h) (sr_logical_length x) /\ 0 < sr_logical_length x.
Proof.
  intros (Hc & _ & _ & _ & Hz) Hs%Z.eqb_eq Hne. destruct x as [g s' h l]. cbn in *. subst s'.
  apply slot_check_iff in Hc as (_ & _ & _ & _ & _ & Hh).
  destruct s; cbn in *; [done|..]; (destruct (Hh ltac:(done)) as [h' ->]; exists h'; by destruct Hz).
Qed.

(** What the guards of the updates allow. *)
Lemma set_state_edge (ev : SlotEvent) (s s' : CacheSlotState) (p : SlotRow -> bool) :
  s <> Free ->
  (forall g h l, edge ev (mkSlotRow g (slot_state_code s) (Some h) l) (mkSlotRow g (slot_state_code s') (Some h) l)) ->
  (forall x, p x = true -> in_state s x = true) ->
  forall k x, slot_row_ok k x -> p x = true ->
    edge ev x (set_state s' x) /\ sr_generation (set_state s' x) = sr_generation x /\ sr_logical_length (set_state s' x) <= u32_max.
Proof.
  intros Hs He Hp k x Hok Hpx. destruct (held_row k x s Hok (Hp x Hpx) Hs) as (h & Hx & _).
  split_and!; [rewrite Hx; apply He|done|apply Hok].
Qed.
Lemma cleared_edge (k : Z * Z) (x : SlotRow) :
  slot_row_ok k x -> in_state Evicting x || in_state RetryDeallocate x = true ->
  edge EvFree x (cleared x) /\ sr_generation (cleared x) = sr_generation x /\ sr_logical_length (cleared x) <= u32_max.
Proof.
  intros Hok Hp. split_and!; [|done|cbn; mach]. apply orb_true_iff in Hp as [Hs|Hs];
    destruct (held_row k x _ Hok Hs ltac:(done)) as (h & -> & _); apply e_free; auto.
Qed.

(** A guarded update with its test of the number of changed rows. *)
Lemma update_guarded {A : Type} (ev : SlotEvent) (context : string) (e : MirageError) (r : CacheSlotRecord) (p : SlotRow -> bool)
  (f : SlotRow -> SlotRow) (d d' : SlotDb) (a b : A) :
  (forall k x, slot_row_ok k x -> p x = true -> edge ev x (f x) /\ sr_generation (f x) = sr_generation x /\ sr_logical_length (f x) <= u32_max) ->
  slot_inv d ->
  ('(changed, d1) ← update_slot context r p f d; if negb (changed =? 1) then Err e else Ok (a, d1)) = Ok (b, d') ->
  slot_inv d' /\ moves ev d d'.
Proof.
  intros He Hd ([n d1] & Hu & H)%bind_Ok_inv. destruct (negb (n =? 1)); [done|]. injection H as _ <-.
  exact (update_slot_moves ev context r p f d d1 n He Hd Hu).
Qed.

Lemma transition_moves (r : CacheSlotRecord) (s : CacheSlotState) (d d' : SlotDb) :
  s = Reserved \/ s = Resident -> slot_inv d -> transition_to_evicting r s d = Ok d' -> slot_inv d' /\ moves EvQuarantine d d'.
Proof.
  intros Hs Hd ([n d1] & Hu & H)%bind_Ok_inv. destruct (negb (n =? 1)); [done|]. injection H as <-.
  apply (update_slot_moves EvQuarantine _ _ _ _ _ _ _) in Hu; [done| |done].
  apply (set_state_edge _ s); [by destruct Hs as [->| ->]| |done]. intros g h l. apply e_quarantine. destruct Hs as [->| ->]; auto.
Qed.

Lemma publish_edge (hash : Hash) (len : Z) (k : Z * Z) (x : SlotRow) :
  slot_row_ok k x -> in_state Reserved x && holds_page hash len x = true ->
  edge EvPublish x (set_state Resident x) /\ sr_generation (set_state Resident x) = sr_generation x /\
  sr_logical_length (set_state Resident x) <= u32_max.
Proof.
  apply (set_state_edge _ Reserved Resident (fun x => in_state Reserved x && holds_page hash len x));
    [done|intros; apply e_publish|]. by intros y [Hy _]%andb_true_iff.
Qed.

Lemma commit_slot_moves (r : CacheSlotRecord) (d d' : SlotDb) (o : CommitCacheSlotOutcome) :
  slot_inv d -> commit_slot r d = Ok (o, d') -> slot_inv d' /\ exists ev, ev ∈ op_events (OCommit r) /\ moves ev d d'.
Proof.
  intros Hd (hash & _ & H)%bind_Ok_inv. apply bind_Ok_inv in H as ([x|] & _ & H).
  - apply bind_Ok_inv in H as (d1 & Ht & [= _ <-]). apply transition_moves in Ht as [? ?]; [|by auto|done].
    split; [done|]. exists EvQuarantine. split; [set_solver|done].
  - apply (update_guarded EvPublish) in H as [? ?]; [|exact (publish_edge hash (logical_length r))|done].
    split; [done|]. exists EvPublish. split; [set_solver|done].
Qed.

Lemma batch_publish_moves (rs : list CacheSlotRecord) (d d' : SlotDb) (out : list CacheSlotRecord) :
  slot_inv d -> batch_publish rs d = Ok (out, d') -> slot_inv d' /\ moves EvPublish d d'.
Proof.
  revert d out. induction rs as [|r rs IH]; intros d out Hd; cbn [batch_publish].
  - intros [= _ <-]. split; [done|apply moves_refl].
  - intros (hash & _ & H)%bind_Ok_inv. apply bind_Ok_inv in H as ([x|] & _ & H); [done|].
    apply bind_Ok_inv in H as ([n d1] & Hu & H). destruct (negb (n =? 1)); [done|].
    apply bind_Ok_inv in H as ([out1 d2] & Hr & [= _ <-]).
    apply (update_slot_moves EvPublish) in Hu as [Hd1 Hm1]; [|exact (publish_edge hash (logical_length r))|done].
    destruct (IH d1 out1 Hd1 Hr) as [Hd2 Hm2]. split; [done|]. exact (moves_trans _ _ _ _ Hm1 Hm2).
Qed.

Lemma release_moves (r : CacheSlotRecord) (d d' : SlotDb) (u : ()) :
  slot_inv d -> release_cache_reservation r d = Ok (u, d') -> slot_inv d' /\ moves EvQuarantine d d'.
Proof.
  intros Hd (hash & _ & H)%bind_Ok_inv. apply bind_Ok_inv in H as (d1 & Ht & [= _ <-]).
  apply (transition_moves r Reserved); auto.
Qed.
Lemma begin_eviction_moves (r out : CacheSlotRecord) (d d' : SlotDb) :
  slot_inv d -> begin_cache_eviction r d = Ok (out, d') -> slot_inv d' /\ moves EvQuarantine d d'.
Proof.
  intros Hd (hash & _ & H)%bind_Ok_inv. eapply (update_guarded EvQuarantine) in H; [done| |done].
  apply (set_state_edge _ Resident Evicting (fun x => in_state Resident x && bool_decide (sr_page_hash x = Some hash)));
    [done|intros; apply e_quarantine; auto|]. by intros y [Hy _]%andb_true_iff.
Qed.
Lemma finish_deallocation_moves (r : CacheSlotRecord) (d d' : SlotDb) (u : ()) :
  slot_inv d -> finish_deallocation r d = Ok (u, d') -> slot_inv d' /\ moves EvFree d d'.
Proof.
  intros Hd H. unfold finish_deallocation in H.
  destruct (state r); try done; (eapply (update_guarded EvFree) in H; [done|exact cleared_edge|done]).
Qed.
Lemma mark_retry_moves (r : CacheSlotRecord) (d d' : SlotDb) (u : ()) :
  slot_inv d -> mark_retry r d = Ok (u, d') -> slot_inv d' /\ moves EvRetry d d'.
Proof.
  intros Hd H. eapply (update_guarded EvRetry) in H; [done| |done].
  apply (set_state_edge _ Evicting); [done|intros; apply e_retry|done].
Qed.

Lemma elem_of_slots_where (p : SlotRow -> bool) (d : SlotDb) (x : (Z * Z) * SlotRow) :
  x ∈ slots_where p d <-> cache_slots d !! x.1 = Some x.2 /\ p x.2 = true.
Proof.
  unfold slots_where. rewrite sort_by_perm, list_elem_of_In, filter_In, <-list_elem_of_In.
  destruct x as [k r]. by rewrite elem_of_map_to_list.
Qed.
Lemma NoDup_slots_where (p : SlotRow -> bool) (d : SlotDb) : NoDup (map fst (slots_where p d)).
Proof.
  unfold slots_where. eapply (NoDup_Permutation_proper (A := Z * Z)); [apply Permutation_map, sort_by_perm|].
  pose proof (NoDup_fst_map_to_list (cache_slots d)) as Hn. induction (map_to_list (cache_slots d)) as [|x l IH]; [constructor|].
  apply NoDup_cons in Hn as [Hx Hn]. cbn. destruct (p x.2); [|by apply IH]. apply NoDup_cons. split; [|by apply IH].
  intros Hin. apply Hx. apply list_elem_of_In, in_map_iff in Hin as (y & Hy & [Hin _]%filter_In). rewrite <-Hy.
  apply list_elem_of_In, in_map, Hin.
Qed.

(** A reservation statement is one move when the row it names was read from the table. *)
Lemma reserve_update_moves (k : Z * Z) (hash : Hash) (len g n : Z) (d : SlotDb) (t : gmap (Z * Z) SlotRow) :
  slot_inv d -> (forall r, cache_slots d !! k = Some r -> in_state Free r = true -> sr_generation r + 1 = g) ->
  0 < len <= u32_max -> g <= i64_max ->
  update_row slot_check slot_clash k (in_state Free) (reserved_row g hash len) (cache_slots d) = Some (n, t) ->
  slot_inv (set_slots t d) /\ moves EvReserve d (set_slots t d).
Proof.
  intros Hd Hg Hl Hmax [(-> & r & Hr & Hp & Hf & ->)|(-> & -> & _)]%update_row_Some.
  - apply (put_ok EvReserve d k r); [done|done| |done|cbn; lia|done].
    rewrite (free_row k r (proj1 Hd _ _ Hr) Hp). unfold reserved_row. rewrite <-(Hg r Hr Hp). constructor. lia.
  - destruct d; split; [done|apply moves_refl].
Qed.

Lemma sqlite_integer_Ok (v w : Z) (l : string) : sqlite_integer v l = Ok w -> w = v /\ v <= i64_max.
Proof. unfold sqlite_integer. destruct (Z.leb_spec v i64_max); intros [= <-]; done. Qed.
Lemma nonnegative_Ok (v w : Z) (l : string) : nonnegative v l = Ok w -> w = v /\ 0 <= v.
Proof. unfold nonnegative. destruct (Z.leb_spec 0 v); intros [= <-]; done. Qed.

Lemma transact_Ok {A : Type} (P : SlotDb -> Prop) (o : result (A * SlotDb)) (d : SlotDb) :
  P d -> (forall a d', o = Ok (a, d') -> P d') -> P (transact o d).2.
Proof. intros Hd Ho. destruct o as [[a d']|e]; cbn; [by eapply Ho|done]. Qed.

Lemma reserve_cache_slot_moves (hash : Hash) (len : Z) (d : SlotDb) :
  in_u32 len -> slot_inv d -> slot_inv (reserve_cache_slot hash len d).2 /\ moves EvReserve d (reserve_cache_slot hash len d).2.
Proof.
  intros Hl Hd. assert (slot_inv d /\ moves EvReserve d d) as Hrefl by (split; [done|apply moves_refl]).
  unfold reserve_cache_slot. destruct (Z.eqb_spec len 0) as [|Hne]; [done|]. cbv zeta.
  match goal with |- context [transact ?b d] => pose proof (transact_Ok (fun d' => slot_inv d' /\ moves EvReserve d d') b d Hrefl) as Ht; set (body := b) in * end.
  assert (slot_inv (transact body d).2 /\ moves EvReserve d (transact body d).2) as H; [apply Ht|].
  - subst body. clear Ht. intros a d' (x & _ & H)%bind_Ok_inv. destruct x; [by injection H as _ <-|].
    apply bind_Ok_inv in H as ([k row] & Hf%ok_or_Ok_inv & H). apply bind_Ok_inv in H as (old & Ho & H).
    apply bind_Ok_inv in H as (g & Hg%ok_or_Ok_inv%checked_add_Some & H). apply bind_Ok_inv in H as (g' & [-> Hmax]%sqlite_integer_Ok & H).
    apply bind_Ok_inv in H as ([n t] & Hu%ok_or_Ok_inv & [= _ <-]).
    assert (cache_slots d !! k = Some row) as Hk.
    { apply (elem_of_slots_where (in_state Free) d (k, row)). destruct (free_slots d) as [|y l] eqn:E; [done|].
      injection Hf as ->. unfold free_slots in E. rewrite E. left. }
    apply (reserve_update_moves k hash len g n); [done| |unfold in_u32 in Hl; lia|exact Hmax|exact Hu].
    intros r Hr _. rewrite Hk in Hr. injection Hr as <-. destruct (0 <=? sr_generation row); [|done]. injection Ho as <-. lia.
  - destruct (transact body d) as [[[r|[[s i] g]]|e] d']; try done. by destruct ((0 <=? i) && (i <=? u32_max)).
Qed.

Lemma moves_at (ev : SlotEvent) (d d' : SlotDb) (k : Z * Z) (r' : SlotRow) :
  moves ev d d' -> cache_slots d' !! k = Some r' -> exists r, cache_slots d !! k = Some r /\ (r = r' \/ edge ev r r').
Proof. intros [_ H] Hk. destruct (H k) as [E|(r & q & E & E' & He)]; [exists r'; rewrite E; auto|]. exists r. naive_solver. Qed.

Lemma batch_fill_moves (pairs : list ((Hash * Z) * ((Z * Z) * SlotRow))) (d d' : SlotDb) outs :
  Forall (fun x => 0 < x.1.2 <= u32_max) pairs ->
  (forall x r, x ∈ pairs -> cache_slots d !! x.2.1 = Some r -> in_state Free r = true -> r = x.2.2) ->
  slot_inv d -> batch_fill pairs d = Ok (outs, d') -> slot_inv d' /\ moves EvReserve d d'.
Proof.
  revert d outs. induction pairs as [|[[hash len] [k row]] pairs IH]; intros d outs Hl Hf Hd; cbn [batch_fill].
  { intros [= _ <-]. split; [done|apply moves_refl]. }
  intros (old & [-> _]%nonnegative_Ok & H)%bind_Ok_inv.
  apply bind_Ok_inv in H as (g & Hg%ok_or_Ok_inv%checked_add_Some & H). apply bind_Ok_inv in H as (g' & [-> Hmax]%sqlite_integer_Ok & H).
  apply bind_Ok_inv in H as ([n t] & Hu%ok_or_Ok_inv & H). destruct (negb (n =? 1)); [done|].
  apply bind_Ok_inv in H as (i & _ & H). destruct (u32_max <? i); [done|].
  apply bind_Ok_inv in H as ([outs1 d2] & Hr & [= _ <-]). apply Forall_cons in Hl as [Hl1 Hl].
  destruct (reserve_update_moves k hash len g n d t Hd) as [Hd1 Hm1]; [|done|done|done|].
  { intros r Hk Hs. rewrite (Hf (hash, len, (k, row)) r ltac:(left) Hk Hs). cbn. lia. }
  destruct (IH (set_slots t d) outs1 Hl) as [Hd2 Hm2]; [|done|done|split; [done|exact (moves_trans _ _ _ _ Hm1 Hm2)]].
  intros x r Hx Hk Hs. apply Hf; [by right| |done].
  destruct (moves_at _ _ _ _ _ Hm1 Hk) as (r0 & Hr0 & [->|He]); [done|]. exfalso. inversion He; subst. cbn in Hs. discriminate.
Qed.

(** The missing pages are among the requests. *)
Lemma batch_existing_missing (d : SlotDb) (requests missing : list (Hash * Z)) outs :
  batch_existing d requests = Ok (outs, missing) -> missing `sublist_of` requests.
Proof.
  revert outs missing. induction requests as [|[hash len] rest IH]; intros outs missing; cbn [batch_existing]; [by intros [= _ <-]|].
  intros (x & _ & H)%bind_Ok_inv. destruct x as [r|].
  - destruct (negb _); [done|]. apply bind_Ok_inv in H as ([o m] & Hr & [= _ <-]). apply sublist_cons. by eapply IH.
  - apply bind_Ok_inv in H as (y & _ & H). destruct y as [r|].
    + destruct (negb _); [done|]. apply bind_Ok_inv in H as ([o m] & Hr & [= _ <-]). apply sublist_cons. by eapply IH.
    + apply bind_Ok_inv in H as ([o m] & Hr & [= _ <-]). apply sublist_skip. by eapply IH.
Qed.

Lemma reserve_batch_Ok (requests : list (Hash * Z)) (d d' : SlotDb) (out : list ReserveCacheSlotOutcome) :
  reserve_batch requests d = Ok (out, d') ->
  exists outs missing outs', requests <> [] /\ batch_lengths ∅ requests = Ok () /\ Forall (fun r => r.2 <> 0) requests /\
    batch_existing d requests = Ok (outs, missing) /\ (length missing <= length (free_slots d))%nat /\
    batch_fill (combine missing (firstn (length missing) (free_slots d))) d = Ok (outs', d') /\
    out = map snd (sort_by_key fst (outs ++ outs')).
Proof.
  unfold reserve_batch. destruct requests as [|q qs]; [done|]. remember (q :: qs) as requests eqn:Eq.
  intros ([] & Hb & H)%bind_Ok_inv. destruct (existsb _ requests) eqn:Ez; [done|].
  apply bind_Ok_inv in H as ([outs missing] & He & H). cbv zeta in H. destruct (negb _) eqn:El in H; [done|].
  apply bind_Ok_inv in H as ([outs' d1] & Hf & [= <- <-]).
  exists outs, missing, outs'. apply negb_false_iff, Nat.eqb_eq in El. rewrite firstn_length in El.
  split_and!; [by rewrite Eq|done| |done|lia|done|done].
  apply Forall_forall. intros r Hr Hz. apply not_true_iff_false in Ez. apply Ez, existsb_exists. exists r.
  split; [by apply list_elem_of_In|by apply Z.eqb_eq].
Qed.

Lemma reserve_batch_moves (requests : list (Hash * Z)) (d d' : SlotDb) (out : list ReserveCacheSlotOutcome) :
  Forall (fun r => in_u32 r.2) requests -> slot_inv d -> reserve_batch requests d = Ok (out, d') -> slot_inv d' /\ moves EvReserve d d'.
Proof.
  intros Ht Hd (outs & missing & outs' & _ & _ & Hz & He & _ & Hf & _)%reserve_batch_Ok.
  eapply batch_fill_moves; [| |done|exact Hf].
  - apply Forall_forall. intros [q y] Hq%elem_of_zip_l. apply (sublist_subseteq _ _ (batch_existing_missing _ _ _ _ He)) in Hq.
    rewrite Forall_forall in Ht, Hz. specialize (Ht q Hq). specialize (Hz q Hq). unfold in_u32 in Ht. cbn. lia.
  - intros [q [k row]] r Hy%elem_of_zip_r Hk _. apply (sublist_subseteq _ _ (sublist_take _ _)) in Hy.
    apply elem_of_slots_where in Hy as [Hy _]. cbn in *. congruence.
Qed.

(** ** Registration *)
Definition fresh_row : SlotRow := mkSlotRow 0 0 None 0.

Lemma insert_slots_Ok (shard first : Z) (n : nat) (t t' : gmap (Z * Z) SlotRow) :
  0 <= first -> first + Z.of_nat n <= u32_max + 1 ->
  map_Forall slot_row_ok t -> consistent slot_check slot_clash t -> insert_slots shard first n t = Ok t' ->
  map_Forall slot_row_ok t' /\ consistent slot_check slot_clash t' /\
  forall k, (k.1 = shard /\ first <= k.2 < first + Z.of_nat n /\ t !! k = None /\ t' !! k = Some fresh_row) \/
            (~ (k.1 = shard /\ first <= k.2 < first + Z.of_nat n) /\ t' !! k = t !! k).
Proof.
  revert first t. induction n as [|n IH]; intros first t Hf Hb Ht Hc; cbn [insert_slots].
  - intros [= <-]. split_and!; [done..|]. intros k. right. split; [lia|done].
  - intros (t1 & (Hn & Hfit & ->)%ok_or_Ok_inv%insert_row_Some & H)%bind_Ok_inv.
    destruct (IH (first + 1) (<[(shard, first) := fresh_row]> t)) as (Ht' & Hc' & Hk); [lia|lia| | |exact H|].
    + apply map_Forall_insert_2; [|done]. split_and!; [|cbn; mach..|done]. apply slot_check_iff. naive_solver lia.
    + by apply consistent_put; [exact slot_clash_sym|..].
    + split_and!; [done..|]. intros [s i]. destruct (Hk (s, i)) as [(-> & Hi & Hnone & Hsome)|(Hni & Heq)]; cbn in *.
      * left. apply lookup_insert_None in Hnone as [Hnone _]. split_and!; [done|lia|lia|done|done].
      * destruct (decide ((shard, first) = (s, i))) as [[= <- <-]|Hne].
        -- left. rewrite lookup_insert_eq in Heq. split_and!; [done|lia|lia|done|done].
        -- right. rewrite lookup_insert_ne in Heq by done. split; [|done]. intros [-> Hi].
           apply Hni. split; [done|]. enough (i <> first) by lia. intros ->. done.
Qed.

Definition registers (v : CacheShardSpec) (d d' : SlotDb) : Prop :=
  forall k, cache_slots d !! k = cache_slots d' !! k \/
    (k.1 = cs_shard_id v /\ cache_slots d !! k = None /\ cache_slots d' !! k = Some fresh_row).

Lemma register_shard_ok (v : CacheShardSpec) (d d' : SlotDb) (u : ()) :
  in_u32 (cs_slot_count v) -> slot_inv d -> register_shard v d = Ok (u, d') -> slot_inv d' /\ registers v d d'.
Proof.
  intros Hv (Hr & Hc & Hs & Hb). unfold register_shard. destruct (_ || _); [done|].
  intros (size & _ & H)%bind_Ok_inv. apply bind_Ok_inv in H as (sh & (Hn & Hfit & ->)%ok_or_Ok_inv%insert_row_Some & H).
  apply bind_Ok_inv in H as (t & Hi & [= _ <-]). unfold in_u32 in Hv.
  apply insert_slots_Ok in Hi as (Hr' & Hc' & Hk); [|lia|lia|done|done]. split.
  - split_and!; cbn; [done|done|by apply consistent_put; [exact shard_clash_sym|..]|].
    intros k. destruct (Hk k) as [(Hs1 & Hi1 & Hn1 & He1)|(Hni & He1)]; rewrite He1.
    + split; [intros _|by eauto]. rewrite Hs1, lookup_insert_eq. eexists. split; [done|]. cbn. lia.
    + rewrite Hb. destruct (decide (cs_shard_id v = k.1)) as [Heq|Hne].
      * rewrite <-Heq, lookup_insert_eq, Hn. split; [by intros (? & ? & _)|]. intros (s & [= <-] & Hi). cbn in Hi. exfalso. apply Hni. lia.
      * by rewrite lookup_insert_ne.
  - intros k. cbn. destruct (Hk k) as [(Hs1 & Hi1 & Hn1 & He1)|(Hni & He1)]; auto.
Qed.

(** ** Every operation *)
(** What one operation does to the rows. *)
Definition slot_moves (o : SlotOp) (d d' : SlotDb) : Prop :=
  match o with
  | ORegister v => registers v d d'
  | _ => exists ev, ev ∈ op_events o /\ moves ev d d'
  end.

Lemma slot_step_ok (o : SlotOp) (d : SlotDb) :
  slot_op_typed o -> slot_inv d -> slot_inv (slot_step d o) /\ slot_moves o d (slot_step d o).
Proof.
  intros Ht Hd.
  assert (forall ev, ev ∈ op_events o -> slot_inv d /\ exists ev, ev ∈ op_events o /\ moves ev d d) as Hrefl
    by (intros ev Hev; split; [done|]; exists ev; split; [done|apply moves_refl]).
  assert (forall d' ev, ev ∈ op_events o -> slot_inv d' /\ moves ev d d' -> slot_inv d' /\ exists ev, ev ∈ op_events o /\ moves ev d d') as Hev
    by (intros d' ev ? []; eauto).
  destruct o; cbn [slot_step slot_moves];
    try (apply (transact_Ok (fun d' => slot_inv d' /\ exists ev, ev ∈ _ /\ moves ev d d')); [by eapply Hrefl; left|intros a d' H]).
  - apply (transact_Ok (fun d' => slot_inv d' /\ registers v d d')); [split; [done|by left]|].
    intros u d' H. exact (register_shard_ok v d d' u (proj2 Ht) Hd H).
  - eapply Hev; [by left|]. by apply reserve_cache_slot_moves.
  - eapply Hev; [by left|]. exact (reserve_batch_moves _ _ _ _ Ht Hd H).
  - exact (commit_slot_moves _ _ _ _ Hd H).
  - eapply Hev; [by left|]. unfold commit_batch in H. destruct (_ || _); [done|]. apply bind_Ok_inv in H as (_ & _ & H).
    exact (batch_publish_moves _ _ _ _ Hd H).
  - eapply Hev; [by left|]. exact (release_moves _ _ _ _ Hd H).
  - eapply Hev; [by left|]. exact (begin_eviction_moves _ _ _ _ Hd H).
  - eapply Hev; [by left|]. exact (finish_deallocation_moves _ _ _ _ Hd H).
  - eapply Hev; [by left|]. exact (mark_retry_moves _ _ _ _ Hd H).
Qed.

Lemma empty_slots_inv : slot_inv empty_slots.
Proof.
  split_and!; [apply map_Forall_empty|apply consistent_empty|apply consistent_empty|].
  intros k. cbn. split; [intros [? H]; by rewrite lookup_empty in H|intros (? & H & _); by rewrite lookup_empty in H].
Qed.
Lemma slot_run_ok (d : SlotDb) (os : list SlotOp) : Forall slot_op_typed os -> slot_inv d -> slot_inv (slot_run d os).
Proof.
  intros Ht. revert d. induction Ht as [|o os Ho Ht IH]; intros d Hd; [done|]. cbn. by apply IH, slot_step_ok.
Qed.

Lemma decode_slot_ok (k : Z * Z) (r : SlotRow) : slot_row_ok k r ->
  exists s, sr_state r = slot_state_code s /\
    decode_slot (k, r) = Some (mkSlot k.1 k.2 (sr_generation r) s (sr_page_hash r) (sr_logical_length r)).
Proof.
  destruct r as [g v h l]. intros (Hc & Hk & Hg & Hl & _). apply slot_check_iff in Hc as (? & ? & Hv & ? & _). cbn in *.
  assert (exists s, v = slot_state_code s /\ decode_state v = Some s) as (s & -> & Hs).
  { assert (v = 0 \/ v = 1 \/ v = 2 \/ v = 3 \/ v = 4) as [->|[->|[->|[->| ->]]]] by lia;
      [exists Free|exists Reserved|exists Resident|exists Evicting|exists RetryDeallocate]; done. }
  exists s. split; [done|]. unfold decode_slot. cbn. rewrite Hs. cbn.
  rewrite !(proj2 (Z.leb_le _ _)) by done. done.
Qed.

(** ** Claims: the lifecycle and the fence *)
(** C7: Whatever operations clients issue, with whatever copies of slot
    records, each operation moves each slot along at most one edge of the
    lifecycle, of a kind that operation may cause (or creates it free, when
    its shard is registered); two different slots are never resident for the
    same page; and every row can be read back as a slot record. *)
Theorem cache_slots_lifecycle (os : list SlotOp) (o : SlotOp) :
  Forall slot_op_typed os -> slot_op_typed o ->
  let d := slot_run empty_slots os in
  slot_moves o d (slot_step d o) /\
  (forall k1 k2 r1 r2 h, cache_slots d !! k1 = Some r1 -> cache_slots d !! k2 = Some r2 ->
     holds_hash h Resident r1 = true -> holds_hash h Resident r2 = true -> k1 = k2) /\
  exists rs, load_all d = Ok rs.
Proof.
  intros Hos Ho d. assert (slot_inv d) as Hd by (apply slot_run_ok; [done|apply empty_slots_inv]).
  split_and!; [by apply slot_step_ok| |].
  - intros k1 k2 r1 r2 h H1 H2 [Hh1%bool_decide_eq_true Hs1]%andb_true_iff [Hh2%bool_decide_eq_true Hs2]%andb_true_iff.
    destruct (decide (k1 = k2)) as [|Hne]; [done|]. pose proof (proj2 (proj1 (proj2 Hd)) k1 k2 r1 r2 H1 H2 Hne) as Hcl.
    unfold slot_clash in Hcl. cbn in Hs1, Hs2. rewrite Hs1, Hs2, Hh1, Hh2, bool_decide_true in Hcl; done.
  - assert (forall l, (forall x, x ∈ l -> cache_slots d !! x.1 = Some x.2) ->
      exists rs, decode_slots "failed to decode cache slot" l = Ok rs) as Hdec.
    { induction l as [|[k r] l IH]; intros Hl; cbn [decode_slots]; [by eexists|].
      destruct (decode_slot_ok k r) as (s & _ & ->); [apply (proj1 Hd), (Hl (k, r)); left|].
      destruct IH as [rs ->]; [intros x Hx; apply Hl; by right|]. cbn. by eexists. }
    apply Hdec. intros x Hx. by apply elem_of_slots_where in Hx as [Hx _].
Qed.
Definition t_ops : list SlotOp := [ORegister t_shard; OReserve 7 100].
Lemma cache_slots_lifecycle_witness :
  Forall slot_op_typed t_ops /\ exists rs, load_all (slot_run empty_slots t_ops) = Ok rs.
Proof.
  assert (Forall slot_op_typed t_ops) as Ht by (repeat constructor; cbn; unfold in_u64, in_u32, u32_max, u64_max; lia).
  split; [exact Ht|]. refine (proj2 (proj2 (cache_slots_lifecycle t_ops (OReserve 8 50) Ht _))). cbn. unfold in_u32, u32_max. lia.
Defined.

(** Generations never decrease, and only a reservation increases one. *)
Lemma edge_generation (ev : SlotEvent) (r r' : SlotRow) : edge ev r r' ->
  sr_generation r' = sr_generation r + (if decide (ev = EvReserve) then 1 else 0).
Proof. inversion 1; subst; cbn; case_decide; try done; lia. Qed.
Lemma slot_step_generation (o : SlotOp) (d : SlotDb) (k : Z * Z) (r : SlotRow) :
  slot_op_typed o -> slot_inv d -> cache_slots d !! k = Some r ->
  exists r', cache_slots (slot_step d o) !! k = Some r' /\ sr_generation r <= sr_generation r'.
Proof.
  intros Ho Hd Hk. destruct (slot_step_ok o d Ho Hd) as [_ Hm].
  assert (forall ev d', moves ev d d' -> exists r', cache_slots d' !! k = Some r' /\ sr_generation r <= sr_generation r') as Hmv.
  { intros ev d' [_ Hs]. destruct (Hs k) as [E|(a & b & Ea & Eb & He%edge_generation)].
    - exists r. rewrite <-E. split; [done|lia].
    - exists b. split; [done|]. assert (a = r) as -> by congruence. rewrite He. case_decide; lia. }
  destruct o; cbn [slot_moves] in Hm; try (destruct Hm as (ev & _ & Hm); exact (Hmv _ _ Hm)).
  destruct (Hm k) as [E|(_ & E & _)]; [|congruence]. exists r. rewrite <-E. split; [done|lia].
Qed.
Lemma slot_run_generation (os : list SlotOp) (d : SlotDb) (k : Z * Z) (r : SlotRow) :
  Forall slot_op_typed os -> slot_inv d -> cache_slots d !! k = Some r ->
  exists r', cache_slots (slot_run d os) !! k = Some r' /\ sr_generation r <= sr_generation r'.
Proof.
  intros Ht. revert d r. induction Ht as [|o os Ho Ht IH]; intros d r Hd Hk; [exists r; split; [done|lia]|].
  destruct (slot_step_generation o d k r Ho Hd Hk) as (r1 & Hk1 & Hle1).
  destruct (IH (slot_step d o) r1 (proj1 (slot_step_ok o d Ho Hd)) Hk1) as (r2 & Hk2 & Hle2). exists r2. split; [done|lia].
Qed.

(** The record a reservation returns is the row it wrote. *)
Lemma reserve_Reserved (hash : Hash) (len : Z) (d d' : SlotDb) (r : CacheSlotRecord) :
  slot_inv d -> reserve_cache_slot hash len d = (Ok (ReserveReserved r), d') ->
  exists old, cache_slots d !! (shard_id r, slot_index r) = Some old /\ in_state Free old = true /\
    r = mkSlot (shard_id r) (slot_index r) (sr_generation old + 1) Reserved (Some hash) len /\
    cache_slots d' = <[(shard_id r, slot_index r) := mkSlotRow (sr_generation old + 1) 1 (Some hash) len]> (cache_slots d).
Proof.
  intros Hd. unfold reserve_cache_slot. destruct (len =? 0); [done|]. cbv zeta.
  destruct (transact _ d) as [[[x|[[s i] g]]|e] d1] eqn:Et; try done.
  destruct ((0 <=? i) && (i <=? u32_max)); intros [= <- <-]. cbn [shard_id slot_index].
  unfold transact in Et. destruct (mbind _ _) as [[a d2]|e] eqn:Eb in Et; [|done]. injection Et as -> ->.
  apply bind_Ok_inv in Eb as ([x|] & _ & H); [done|].
  apply bind_Ok_inv in H as ([k row] & Hf%ok_or_Ok_inv & H). apply bind_Ok_inv in H as (old & Ho & H).
  apply bind_Ok_inv in H as (g1 & Hg%ok_or_Ok_inv%checked_add_Some & H). apply bind_Ok_inv in H as (g' & [-> Hmax]%sqlite_integer_Ok & H).
  apply bind_Ok_inv in H as ([n t] & Hu%ok_or_Ok_inv & [= -> <- <-]).
  assert (cache_slots d !! (s, i) = Some row /\ in_state Free row = true) as [Hk Hs].
  { apply (elem_of_slots_where (in_state Free) d ((s, i), row)). destruct (free_slots d) as [|y l] eqn:E; [done|].
    injection Hf as ->. unfold free_slots in E. rewrite E. left. }
  exists row. assert (g1 = sr_generation row + 1) as ->. { destruct (0 <=? sr_generation row); [|done]. injection Ho as <-. lia. }
  split_and!; [done|done|done|]. cbn.
  apply update_row_Some in Hu as [(-> & r0 & Hr0 & _ & _ & ->)|(_ & _ & Hn)]; [done|]. rewrite (Hn row Hk) in Hs. done.
Qed.

(** The operation names a slot with a generation. *)
Definition names_slot (k : Z * Z) (g : Z) (r : CacheSlotRecord) : Prop := (shard_id r, slot_index r) = k /\ generation r = g.
Definition op_names (k : Z * Z) (g : Z) (o : SlotOp) : Prop :=
  match o with
  | OCommit r | ORelease r | OBeginEviction r | OFinishDeallocation r | OMarkRetry r => names_slot k g r
  | OCommitBatch rs => Exists (names_slot k g) rs
  | _ => False
  end.
(** The operation returns an error. *)
Definition op_fails (o : SlotOp) (d : SlotDb) : Prop :=
  match o with
  | ORegister v => exists e, register_shard v d = Err e
  | OReserve hash length => exists e, (reserve_cache_slot hash length d).1 = Err e
  | OReserveBatch requests => exists e, reserve_batch requests d = Err e
  | OCommit r => exists e, commit_slot r d = Err e
  | OCommitBatch rs => exists e, commit_batch rs d = Err e
  | ORelease r => exists e, release_cache_reservation r d = Err e
  | OBeginEviction r => exists e, begin_cache_eviction r d = Err e
  | OFinishDeallocation r => exists e, finish_deallocation r d = Err e
  | OMarkRetry r => exists e, mark_retry r d = Err e
  end.

Definition moved_on (k : Z * Z) (g : Z) (d : SlotDb) : Prop := forall x, cache_slots d !! k = Some x -> sr_generation x <> g.

Lemma update_slot_stale {A : Type} (context : string) (e : MirageError) (r : CacheSlotRecord) (p : SlotRow -> bool) (f : SlotRow -> SlotRow)
  (d : SlotDb) (k : SlotDb -> result A) (kg : Z * Z) (g : Z) :
  names_slot kg g r -> moved_on kg g d ->
  exists e', ('(changed, d1) ← update_slot context r p f d; if negb (changed =? 1) then Err e else k d1) = Err e'.
Proof.
  intros [<- <-] Hs. destruct (update_slot context r p f d) as [[n d1]|e1] eqn:E; [|by eexists]. cbn.
  apply update_slot_Ok in E as [(-> & _)|(_ & x & Hx & Hg & _)]; [by eexists|]. destruct (Hs x Hx Hg).
Qed.
Lemma bind_Err {A B : Type} (r : result A) (f : A -> result B) : (forall a, r = Ok a -> exists e, f a = Err e) -> exists e, mbind f r = Err e.
Proof. intros H. destruct r as [a|e]; [exact (H a eq_refl)|by eexists]. Qed.
Lemma transition_stale (r : CacheSlotRecord) (s : CacheSlotState) (d : SlotDb) (k : Z * Z) (g : Z) :
  names_slot k g r -> moved_on k g d -> exists e, transition_to_evicting r s d = Err e.
Proof. apply update_slot_stale. Qed.

Lemma batch_publish_stale (rs : list CacheSlotRecord) (d : SlotDb) (k : Z * Z) (g : Z) :
  Exists (names_slot k g) rs -> slot_inv d -> moved_on k g d -> exists e, batch_publish rs d = Err e.
Proof.
  revert d. induction rs as [|r rs IH]; intros d Hex Hd Hm; [by inversion Hex|]. cbn [batch_publish].
  apply bind_Err. intros hash _. apply bind_Err. intros [x|] _; [by eexists|].
  apply Exists_cons in Hex as [Hr|Hex]; [by apply (update_slot_stale _ _ _ _ _ _ _ k g)|].
  apply bind_Err. intros [n d1] Hu. destruct (negb (n =? 1)); [by eexists|].
  apply (update_slot_moves EvPublish) in Hu as [Hd1 Hm1]; [|exact (publish_edge hash (logical_length r))|done].
  destruct (IH d1 Hex Hd1) as [e ->]; [|by eexists]. intros x Hx.
  destruct (moves_at _ _ _ _ _ Hm1 Hx) as (r0 & Hr0 & [->|He%edge_generation]); [exact (Hm x Hr0)|].
  rewrite He, Z.add_0_r. exact (Hm r0 Hr0).
Qed.

Lemma stale_fails (o : SlotOp) (d : SlotDb) (k : Z * Z) (g : Z) :
  op_names k g o -> slot_inv d -> moved_on k g d -> op_fails o d.
Proof.
  intros Hn Hd Hm. destruct o; cbn in *; try done.
  - apply bind_Err. intros hash _. apply bind_Err. intros [x|] _; [|by apply (update_slot_stale _ _ _ _ _ _ _ k g)].
    destruct (transition_stale r Reserved d k g Hn Hm) as [e ->]. by eexists.
  - unfold commit_batch. destruct (_ || _); [by eexists|]. apply bind_Err. intros _ _. by apply (batch_publish_stale rs d k g).
  - apply bind_Err. intros hash _. destruct (transition_stale r Reserved d k g Hn Hm) as [e ->]. by eexists.
  - apply bind_Err. intros hash _. by apply (update_slot_stale _ _ _ _ _ _ _ k g).
  - unfold finish_deallocation. destruct (state r); try (by eexists); by apply (update_slot_stale _ _ _ _ _ _ _ k g).
  - by apply (update_slot_stale _ _ _ _ _ _ _ k g).
Qed.

(** The generation fences a slot's reservations: once a slot reserved as
    [r] has been reserved again as [r2], in between and afterwards any
    operations, every operation that names the slot by the generation of [r]
    fails and leaves the tables as they are. *)
Theorem stale_slot_record_refused (os1 os2 os3 : list SlotOp) (h l h2 l2 : Z) (r r2 : CacheSlotRecord) (d1 d3 : SlotDb) (o : SlotOp) :
  Forall slot_op_typed (os1 ++ OReserve h l :: os2 ++ OReserve h2 l2 :: os3) ->
  reserve_cache_slot h l (slot_run empty_slots os1) = (Ok (ReserveReserved r), d1) ->
  reserve_cache_slot h2 l2 (slot_run d1 os2) = (Ok (ReserveReserved r2), d3) ->
  (shard_id r2, slot_index r2) = (shard_id r, slot_index r) ->
  op_names (shard_id r, slot_index r) (generation r) o ->
  generation r < generation r2 /\ op_fails o (slot_run d3 os3) /\ slot_step (slot_run d3 os3) o = slot_run d3 os3.
Proof.
  intros Ht Hr Hr2 Heq Hn. apply Forall_app in Ht as [Ht1 [Hl [Ht2 [Hl2 Ht3]%Forall_cons]%Forall_app]%Forall_cons].
  assert (slot_inv (slot_run empty_slots os1)) as Hd0 by (apply slot_run_ok; [done|apply empty_slots_inv]).
  assert (slot_inv d1) as Hd1. { pose proof (proj1 (reserve_cache_slot_moves h l _ Hl Hd0)) as H. by rewrite Hr in H. }
  pose proof (slot_run_ok d1 os2 Ht2 Hd1) as Hd2.
  assert (slot_inv d3) as Hd3. { pose proof (proj1 (reserve_cache_slot_moves h2 l2 _ Hl2 Hd2)) as H. by rewrite Hr2 in H. }
  apply reserve_Reserved in Hr as (old & _ & _ & Er & Et1); [|done]. apply reserve_Reserved in Hr2 as (old2 & Ho2 & _ & Er2 & Et3); [|done].
  rewrite Heq in Ho2, Et3.
  destruct (slot_run_generation os2 d1 (shard_id r, slot_index r) (mkSlotRow (sr_generation old + 1) 1 (Some h) l) Ht2 Hd1)
    as (x & Hx & Hle); [by rewrite Et1, lookup_insert_eq|]. rewrite Ho2 in Hx. injection Hx as <-.
  destruct (slot_run_generation os3 d3 (shard_id r, slot_index r) (mkSlotRow (sr_generation old2 + 1) 1 (Some h2) l2) Ht3 Hd3)
    as (y & Hy & Hle3); [by rewrite Et3, lookup_insert_eq|].
  assert (generation r = sr_generation old + 1) as Eg by by rewrite Er.
  assert (generation r2 = sr_generation old2 + 1) as Eg2 by by rewrite Er2.
  cbn in Hle, Hle3. assert (op_fails o (slot_run d3 os3)) as Hfail.
  { eapply stale_fails; [exact Hn|by apply slot_run_ok|]. intros z Hz. rewrite Hy in Hz. injection Hz as <-. lia. }
  split_and!; [lia|done|]. destruct o; cbn in Hfail |- *; try (destruct Hfail as [e ->]; done); done.
Qed.
Lemma stale_slot_record_refused_witness :
  let r := mkSlot 0 0 1 Reserved (Some 7) 100 in
  let os2 := [ORelease r; OFinishDeallocation (mkSlot 0 0 1 Evicting (Some 7) 100)] in
  op_fails (OCommit r) (slot_run (reserve_cache_slot 9 50 (slot_run (reserve_cache_slot 7 100 t_db).2 os2)).2 []).
Proof.
  intros r os2.
  refine (proj1 (proj2 (stale_slot_record_refused [ORegister t_shard] os2 [] 7 100 9 50 r (mkSlot 0 0 2 Reserved (Some 9) 50)
    (reserve_cache_slot 7 100 t_db).2 (reserve_cache_slot 9 50 (slot_run (reserve_cache_slot 7 100 t_db).2 os2)).2 (OCommit r) _ _ _ _ _))).
  - repeat constructor; cbn; unfold in_u64, in_u32, u32_max, u64_max; lia.
  - vm_compute. reflexivity.
  - vm_compute. reflexivity.
  - reflexivity.
  - split; reflexivity.
Defined.

(** ** Batches *)
Definition outcome_record (o : ReserveCacheSlotOutcome) : CacheSlotRecord := match o with ReserveReserved r | ReserveExisting r => r end.
Definition slot_of (r : CacheSlotRecord) : Z * Z := (shard_id r, slot_index r).
Definition row_of (r : CacheSlotRecord) : SlotRow := mkSlotRow (generation r) (slot_state_code (state r)) (page_hash r) (logical_length r).
Definition is_reserved (o : ReserveCacheSlotOutcome) : bool := match o with ReserveReserved _ => true | ReserveExisting _ => false end.
(** The page has a resident or a reserved slot. *)
Definition held (d : SlotDb) (hash : Hash) : bool :=
  existsb (fun x => holds_hash hash Resident x.2 || holds_hash hash Reserved x.2) (map_to_list (cache_slots d)).

Lemma first_slot_spec (context : string) (p : SlotRow -> bool) (d : SlotDb) : slot_inv d ->
  (exists x r, first_slot context (slots_where p d) = Ok (Some r) /\ cache_slots d !! slot_of r = Some x /\ p x = true /\ x = row_of r) \/
  (first_slot context (slots_where p d) = Ok None /\ forall k x, cache_slots d !! k = Some x -> p x = false).
Proof.
  intros Hd. destruct (slots_where p d) as [|[k x] l] eqn:E.
  - right. split; [done|]. intros k x Hx. apply not_true_iff_false. intros Hp.
    assert ((k, x) ∈ slots_where p d) as Hin by by apply elem_of_slots_where. rewrite E in Hin. by apply elem_of_nil in Hin.
  - left. assert ((k, x) ∈ slots_where p d) as Hin by (rewrite E; left). apply elem_of_slots_where in Hin as [Hk Hp]. cbn in Hk, Hp.
    destruct (decode_slot_ok k x (proj1 Hd k x Hk)) as (s & Hs & Hdec). exists x, (mkSlot k.1 k.2 (sr_generation x) s (sr_page_hash x) (sr_logical_length x)).
    cbn [first_slot]. rewrite Hdec. split_and!; [done|unfold slot_of; cbn; by destruct k|done|]. unfold row_of. cbn. rewrite <-Hs. by destruct x.
Qed.

Lemma held_false (d : SlotDb) (hash : Hash) :
  held d hash = false <-> forall k x, cache_slots d !! k = Some x -> holds_hash hash Resident x = false /\ holds_hash hash Reserved x = false.
Proof.
  unfold held. rewrite <-not_true_iff_false, existsb_exists. split.
  - intros H k x Hx. apply orb_false_iff, not_true_iff_false. intros Hb. apply H. exists (k, x).
    split; [by apply list_elem_of_In, elem_of_map_to_list|done].
  - intros H ([k x] & Hin%list_elem_of_In%elem_of_map_to_list & Hb). destruct (H k x Hin) as [H1 H2]. cbn in Hb. by rewrite H1, H2 in Hb.
Qed.
Lemma held_true (d : SlotDb) (hash : Hash) (k : Z * Z) (x : SlotRow) :
  cache_slots d !! k = Some x -> holds_hash hash Resident x = true \/ holds_hash hash Reserved x = true -> held d hash = true.
Proof.
  intros Hk Hx. apply not_false_iff_true. intros H. destruct (proj1 (held_false d hash) H k x Hk) as [H1 H2]. destruct Hx; congruence.
Qed.

(** The lengths the table has for the requested pages are those requested. *)
Definition lengths_agree (d : SlotDb) (requests : list (Hash * Z)) : Prop :=
  forall q k x, q ∈ requests -> cache_slots d !! k = Some x ->
    holds_hash q.1 Resident x = true \/ holds_hash q.1 Reserved x = true -> sr_logical_length x = q.2.

(** An outcome is what the table says of its slot. *)
Definition outcome_stands (d : SlotDb) (x : Hash * ReserveCacheSlotOutcome) : Prop :=
  page_hash (outcome_record x.2) = Some x.1 /\ cache_slots d !! slot_of (outcome_record x.2) = Some (row_of (outcome_record x.2)) /\
  state (outcome_record x.2) = if is_reserved x.2 then Reserved else Resident.
Definition page_of (o : ReserveCacheSlotOutcome) : option Hash * Z := (page_hash (outcome_record o), logical_length (outcome_record o)).

Lemma found_slot (d : SlotDb) (requests : list (Hash * Z)) (hash : Hash) (len : Z) (s : CacheSlotState) (r : CacheSlotRecord) :
  lengths_agree d requests -> (hash, len) ∈ requests -> s = Resident \/ s = Reserved ->
  cache_slots d !! slot_of r = Some (row_of r) -> holds_hash hash s (row_of r) = true ->
  logical_length r = len /\ held d hash = true /\ state r = s /\ page_hash r = Some hash.
Proof.
  intros Hl Hin Hs Hx Hh. assert (holds_hash hash Resident (row_of r) = true \/ holds_hash hash Reserved (row_of r) = true) as Hor
    by (destruct Hs as [->| ->]; auto).
  split_and!; [exact (Hl (hash, len) _ _ Hin Hx Hor)|exact (held_true d hash _ _ Hx Hor)|..].
  - apply andb_true_iff in Hh as [_ Hh%Z.eqb_eq]. unfold row_of in Hh. cbn in Hh. destruct (state r), Hs as [->| ->]; done.
  - by apply andb_true_iff in Hh as [Hh%bool_decide_eq_true _].
Qed.

Lemma batch_existing_total (d : SlotDb) (requests : list (Hash * Z)) :
  slot_inv d -> lengths_agree d requests ->
  exists outs, batch_existing d requests = Ok (outs, List.filter (fun q => negb (held d q.1)) requests) /\
    map (fun x => page_of x.2) outs = map (fun q => (Some q.1, q.2)) (List.filter (fun q => held d q.1) requests) /\
    Forall (outcome_stands d) outs.
Proof.
  intros Hd. induction requests as [|[hash len] rest IH]; intros Hl; cbn [batch_existing List.filter fst]; [by exists []|].
  destruct IH as (outs & Ho & Hp & Hs). { intros q k x Hq. apply Hl. by right. }
  assert (forall s r, s = Resident \/ s = Reserved -> cache_slots d !! slot_of r = Some (row_of r) -> holds_hash hash s (row_of r) = true ->
    logical_length r = len /\ held d hash = true /\ state r = s /\ page_hash r = Some hash) as Hfound
    by (intros s r; apply (found_slot d _ hash len s r Hl); left).
  unfold query_hash.
  destruct (first_slot_spec "failed to query cache hash" (holds_hash hash Resident) d Hd) as [(x & r & -> & Hx & Hh & ->)|[-> Hnone]];
    cbn [mbind result_bind].
  - destruct (Hfound Resident r ltac:(auto) Hx Hh) as (Hlen & -> & Hst & Hph). rewrite Hlen, Z.eqb_refl. cbn [negb]. rewrite Ho.
    eexists. split_and!; [reflexivity|cbn; unfold page_of at 1; cbn; by rewrite Hph, Hlen, Hp|]. by constructor.
  - destruct (first_slot_spec "failed to query existing cache reservation" (holds_hash hash Reserved) d Hd) as [(x & r & -> & Hx & Hh & ->)|[-> Hnone2]];
      cbn [mbind result_bind].
    + destruct (Hfound Reserved r ltac:(auto) Hx Hh) as (Hlen & -> & Hst & Hph). rewrite Hlen, Z.eqb_refl. cbn [negb]. rewrite Ho.
      eexists. split_and!; [reflexivity|cbn; unfold page_of at 1; cbn; by rewrite Hph, Hlen, Hp|]. by constructor.
    + assert (held d hash = false) as -> by (apply held_false; intros k x Hx; split; eauto). rewrite Ho. by eexists.
Qed.

(** What a batch writes to its free slots. *)
Definition granted (x : (Hash * Z) * ((Z * Z) * SlotRow)) : CacheSlotRecord :=
  mkSlot x.2.1.1 x.2.1.2 (sr_generation x.2.2 + 1) Reserved (Some x.1.1) x.1.2.

Lemma reserve_fits (d : SlotDb) (k : Z * Z) (g : Z) (hash : Hash) (len : Z) (r : SlotRow) :
  slot_inv d -> cache_slots d !! k = Some r -> 0 <= g -> 0 < len ->
  fits_at slot_check slot_clash k (mkSlotRow g 1 (Some hash) len) (cache_slots d) = true.
Proof.
  intros Hd Hk Hg Hl. apply fits_at_iff. split; [|done]. destruct r as [g0 s0 h0 l0].
  destruct (proj1 Hd _ _ Hk) as (Hc & _). apply slot_check_iff in Hc. apply slot_check_iff. split_and!; (lia || done || (intros _; by eexists)).
Qed.

Lemma batch_fill_total (pairs : list ((Hash * Z) * ((Z * Z) * SlotRow))) (d : SlotDb) :
  slot_inv d -> NoDup (map (fun x => x.2.1) pairs) -> Forall (fun x => 0 < x.1.2 <= u32_max) pairs ->
  Forall (fun x => cache_slots d !! x.2.1 = Some x.2.2 /\ in_state Free x.2.2 = true /\ sr_generation x.2.2 < i64_max) pairs ->
  exists d', batch_fill pairs d = Ok (map (fun x => (x.1.1, ReserveReserved (granted x))) pairs, d') /\
    (forall k, k ∉ map (fun x => x.2.1) pairs -> cache_slots d' !! k = cache_slots d !! k) /\
    Forall (fun x => cache_slots d' !! x.2.1 = Some (row_of (granted x))) pairs.
Proof.
  revert d. induction pairs as [|[[hash len] [k row]] pairs IH]; intros d Hd Hnd Hl Hf; [by exists d|].
  apply NoDup_cons in Hnd as [Hk Hnd]. apply Forall_cons in Hl as [Hl1 Hl]. apply Forall_cons in Hf as [(Hlook & Hfree & Hgen) Hf].
  cbn [fst snd] in *. pose proof (proj1 Hd _ _ Hlook) as Hok.
  assert (0 <= sr_generation row) as Hg0. { destruct Hok as (Hc & _). destruct row. by apply slot_check_iff in Hc as (_ & ? & _). }
  assert (0 <= k.2 <= u32_max) as Hk2. { destruct Hok as (Hc & ? & _). destruct row. apply slot_check_iff in Hc as (? & _). lia. }
  assert (sr_generation row + 1 <= u64_max) as Hmax by (unfold i64_max, u64_max in *; lia).
  set (row' := mkSlotRow (sr_generation row + 1) 1 (Some hash) len).
  assert (fits_at slot_check slot_clash k row' (cache_slots d) = true) as Hfit by (apply (reserve_fits d k _ hash len row); [done|done|lia|lia]).
  destruct (put_ok EvReserve d k row row' Hd Hlook) as [Hd1 _]; [| cbn; lia|cbn; lia|done|].
  { rewrite (free_row k row Hok Hfree). constructor. lia. }
  destruct (IH (set_slots (<[k := row']> (cache_slots d)) d) Hd1 Hnd Hl) as (d' & Hd' & Hother & Hall).
  { rewrite Forall_forall in Hf |- *. intros x Hx. destruct (Hf x Hx) as (H1 & H2 & H3). split_and!; [|done|done].
    cbn. rewrite lookup_insert_ne; [done|]. intros ->. apply Hk. apply list_elem_of_In, in_map_iff. exists x. by rewrite <-list_elem_of_In. }
  exists d'. split_and!.
  - cbn [batch_fill]. rewrite (nonnegative_nonneg _ _ Hg0). cbn [mbind result_bind].
    rewrite (checked_add_fits _ 1 Hmax). cbn [ok_or mbind result_bind]. rewrite sqlite_integer_small by lia. cbn [mbind result_bind].
    unfold update_row. rewrite Hlook, Hfree. unfold reserved_row. fold row'. rewrite Hfit. cbn [ok_or mbind result_bind negb Z.eqb].
    rewrite (nonnegative_nonneg _ _ (proj1 Hk2)). cbn [mbind result_bind].
    rewrite (proj2 (Z.ltb_ge _ _)) by lia. rewrite Hd'. reflexivity.
  - intros k' Hk'. apply not_elem_of_cons in Hk' as [Hne Hk']. rewrite (Hother k' Hk'). cbn. by rewrite lookup_insert_ne.
  - constructor; [|done]. cbn [fst snd]. rewrite (Hother k Hk). cbn. by rewrite lookup_insert_eq.
Qed.

Lemma batch_lengths_ok (requests : list (Hash * Z)) (seen : gmap Z Z) :
  NoDup (map fst requests) -> (forall q, q ∈ requests -> seen !! q.1 = None) -> batch_lengths seen requests = Ok ().
Proof.
  revert seen. induction requests as [|[hash len] rest IH]; intros seen Hnd Hs; [done|]. cbn [batch_lengths].
  apply NoDup_cons in Hnd as [Hh Hnd]. pose proof (Hs (hash, len) ltac:(left)) as H0. cbn in H0. rewrite H0. apply IH; [done|].
  intros q Hq. rewrite lookup_insert_ne; [apply Hs; by right|]. intros ->. apply Hh. change (q.1 ∈ map fst rest). by apply list_elem_of_In, in_map, list_elem_of_In.
Qed.

Lemma filter_split_perm {A : Type} (p : A -> bool) (l : list A) : List.filter p l ++ List.filter (fun x => negb (p x)) l ≡ₚ l.
Proof.
  induction l as [|x l IH]; [done|]. cbn. destruct (p x); cbn; [by rewrite IH|]. by rewrite <-Permutation_middle, IH.
Qed.
Lemma map_snd_combine_take {A B : Type} (l : list A) (k : list B) :
  (length l <= length k)%nat -> map fst (combine l (firstn (length l) k)) = l /\ map snd (combine l (firstn (length l) k)) = firstn (length l) k.
Proof. revert k. induction l as [|x l IH]; intros [|y k] H; cbn in *; try done; [lia|]. destruct (IH k) as [-> ->]; [lia|done]. Qed.

Lemma granted_outcomes (pairs : list ((Hash * Z) * ((Z * Z) * SlotRow))) (d' : SlotDb) :
  Forall (fun x => cache_slots d' !! x.2.1 = Some (row_of (granted x))) pairs ->
  Forall (outcome_stands d') (map (fun x => (x.1.1, ReserveReserved (granted x))) pairs) /\
  map (fun x => page_of x.2) (map (fun x => (x.1.1, ReserveReserved (granted x))) pairs) = map (fun q => (Some q.1, q.2)) (map fst pairs).
Proof.
  intros H. split; [|rewrite !map_map; by apply map_ext].
  apply Forall_forall. intros x Hx%list_elem_of_In. apply in_map_iff in Hx as ([[h l] [[s i] row]] & <- & Hin%list_elem_of_In).
  rewrite Forall_forall in H. split_and!; [done|exact (H _ Hin)|done].
Qed.

Lemma map_some_perm (a b : list (Hash * Z)) :
  map (fun q => (Some q.1, q.2)) a ≡ₚ map (fun q => (Some q.1, q.2)) b -> a ≡ₚ b.
Proof.
  intros H. apply (Permutation_map (fun y : option Hash * Z => (default 0 y.1, y.2))) in H. rewrite !map_map in H. cbn in H.
  assert (forall l : list (Hash * Z), map (fun x => (x.1, x.2)) l = l) as Hid
    by (intros l; rewrite <-(map_id l) at 2; apply map_ext; by intros []).
  by rewrite !Hid in H.
Qed.

(** Pages sorted by hash beside the outcomes for them. *)
Lemma sorted_outcomes (d : SlotDb) (outs : list (Hash * ReserveCacheSlotOutcome)) (requests : list (Hash * Z)) :
  map (fun x => page_of x.2) outs ≡ₚ map (fun q => (Some q.1, q.2)) requests -> Forall (outcome_stands d) outs ->
  let out := map snd (sort_by_key fst outs) in
  exists qs, qs ≡ₚ requests /\ StronglySorted (fun a b : Hash * Z => a.1 <= b.1) qs /\ map page_of out = map (fun q => (Some q.1, q.2)) qs.
Proof.
  intros Hp Hs out. set (q := fun x : Hash * ReserveCacheSlotOutcome => (x.1, logical_length (outcome_record x.2))).
  assert (forall l, Forall (outcome_stands d) l -> map (fun x => page_of x.2) l = map (fun q => (Some q.1, q.2)) (map q l)) as Hq.
  { intros l Hl. rewrite map_map. apply map_ext_in. intros x Hx%list_elem_of_In. rewrite Forall_forall in Hl.
    destruct (Hl x Hx) as (Hh & _). unfold page_of, q. cbn. by rewrite Hh. }
  assert (Forall (outcome_stands d) (sort_by_key fst outs)) as Hs' by by rewrite sort_by_key_perm.
  exists (map q (sort_by_key fst outs)). split_and!.
  - rewrite Hq in Hp by done. rewrite (Permutation_map q (sort_by_key_perm fst outs)).
    exact (map_some_perm _ _ Hp).
  - pose proof (sort_by_key_sorted fst outs) as Hsort. induction Hsort as [|x l Hl IH Hx]; cbn; [constructor|].
    apply Forall_cons in Hs' as [_ Hs']. constructor; [by apply IH|]. clear -Hx. induction Hx; constructor; [done|done].
  - subst out. rewrite map_map. by apply Hq.
Qed.

(** A batch reservation is all or nothing.  For distinct pages of
    positive length, whose resident or reserved slots have the lengths asked
    for, the batch succeeds exactly when there are enough free slots for the
    pages that have none; it then returns one outcome per page in hash order,
    each the row its slot now has, reserves the lowest free slots for the new
    pages, and changes no other slot.  Otherwise it reports a full cache. *)
Theorem reserve_batch_all_or_nothing (os : list SlotOp) (requests : list (Hash * Z)) :
  let d := slot_run empty_slots os in
  let missing := List.filter (fun q => negb (held d q.1)) requests in
  let chosen := firstn (length missing) (free_slots d) in
  Forall slot_op_typed os -> requests <> [] -> NoDup (map fst requests) -> Forall (fun q => 0 < q.2 <= u32_max) requests ->
  lengths_agree d requests -> Forall (fun x => sr_generation x.2 < i64_max) (free_slots d) ->
  if (length missing <=? length (free_slots d))%nat then
    exists out d', reserve_batch requests d = Ok (out, d') /\
      (exists qs, qs ≡ₚ requests /\ StronglySorted (fun a b : Hash * Z => a.1 <= b.1) qs /\ map page_of out = map (fun q => (Some q.1, q.2)) qs) /\
      Forall (fun o => cache_slots d' !! slot_of (outcome_record o) = Some (row_of (outcome_record o)) /\
                       state (outcome_record o) = if is_reserved o then Reserved else Resident) out /\
      (forall k, k ∉ map fst chosen -> cache_slots d' !! k = cache_slots d !! k)
  else reserve_batch requests d = Err (cache_full "cache needs additional free slots").
Proof.
  intros d missing chosen Ht Hne Hnd Hl Ha Hg.
  assert (slot_inv d) as Hd by (apply slot_run_ok; [done|apply empty_slots_inv]).
  destruct (batch_existing_total d requests Hd Ha) as (outs & Ho & Hp & Hs). fold missing in Ho.
  assert (existsb (fun r : Hash * Z => r.2 =? 0) requests = false) as Hz.
  { apply not_true_iff_false. intros (q & Hq%list_elem_of_In & H0%Z.eqb_eq)%existsb_exists. rewrite Forall_forall in Hl. specialize (Hl q Hq). lia. }
  assert (reserve_batch requests d =
    if negb (length chosen =? length missing)%nat then Err (cache_full "cache needs additional free slots")
    else '(outs', d') ← batch_fill (combine missing chosen) d; Ok (map snd (sort_by_key fst (outs ++ outs')), d')) as Heq.
  { unfold reserve_batch. destruct requests as [|q qs]; [done|]. rewrite batch_lengths_ok by (try done; intros; apply lookup_empty).
    cbn [mbind result_bind]. rewrite Hz, Ho. reflexivity. }
  assert (length chosen = min (length missing) (length (free_slots d))) as Hlen by apply firstn_length.
  rewrite Heq, Hlen. clear Heq Hlen. destruct (Nat.leb_spec (length missing) (length (free_slots d))) as [Hle|Hgt].
  - rewrite Nat.min_l, Nat.eqb_refl by done. cbn [negb].
    destruct (map_snd_combine_take missing (free_slots d) Hle) as [Hfst Hsnd]. fold chosen in Hfst, Hsnd.
    destruct (batch_fill_total (combine missing chosen) d Hd) as (d' & Hb & Hother & Hall).
    + rewrite <-(map_map snd fst), Hsnd. unfold chosen. rewrite <-firstn_map.
      eapply sublist_NoDup; [apply NoDup_slots_where|apply sublist_take].
    + apply Forall_forall. intros [q y] Hq%elem_of_zip_l. apply list_elem_of_In, filter_In in Hq as [Hq%list_elem_of_In _]. rewrite Forall_forall in Hl. exact (Hl q Hq).
    + apply Forall_forall. intros [q [k row]] Hy%elem_of_zip_r. apply (sublist_subseteq _ _ (sublist_take _ _)) in Hy.
      rewrite Forall_forall in Hg. pose proof (Hg _ Hy) as Hlt. by apply elem_of_slots_where in Hy as [Hk Hf].
    + rewrite Hb. cbn [mbind result_bind]. eexists _, d'. split; [reflexivity|].
      destruct (granted_outcomes _ d' Hall) as [Hst Hpg]. rewrite <-(map_map snd fst), Hsnd in Hother.
      assert (Forall (outcome_stands d') outs) as Hs2.
      { eapply Forall_impl; [exact Hs|]. intros x (H1 & H2 & H3). split_and!; [done| |done]. rewrite Hother; [done|].
        intros Hin%list_elem_of_In. apply in_map_iff in Hin as ([k row] & Hk & Hin%list_elem_of_In). cbn in Hk. subst k.
        apply (sublist_subseteq _ _ (sublist_take _ _)), elem_of_slots_where in Hin as [Hk Hf]. cbn in Hk, Hf. rewrite H2 in Hk.
        injection Hk as <-. unfold in_state, row_of in Hf. cbn in Hf. rewrite H3 in Hf. by destruct (is_reserved x.2). }
      assert (Forall (outcome_stands d') (outs ++ map (fun x => (x.1.1, ReserveReserved (granted x))) (combine missing chosen))) as Hs3
        by by apply Forall_app.
      split_and!; [|apply Forall_map|done].
      * apply (sorted_outcomes d'); [|done]. rewrite map_app, Hp, Hpg, Hfst, <-map_app. apply Permutation_map, filter_split_perm.
      * rewrite sort_by_key_perm. eapply Forall_impl; [exact Hs3|]. by intros x (_ & ? & ?).
  - rewrite (proj2 (Nat.eqb_neq _ _)) by lia. reflexivity.
Qed.

Definition lengths_check (d : SlotDb) (requests : list (Hash * Z)) : bool :=
  forallb (fun q => forallb (fun x => negb (holds_hash q.1 Resident x.2 || holds_hash q.1 Reserved x.2) || (sr_logical_length x.2 =? q.2))
    (map_to_list (cache_slots d))) requests.
Lemma lengths_check_agree (d : SlotDb) (requests : list (Hash * Z)) : lengths_check d requests = true -> lengths_agree d requests.
Proof.
  intros H q k x Hq Hk Hh. unfold lengths_check in H. rewrite forallb_forall in H. specialize (H q (proj1 (list_elem_of_In _ _) Hq)).
  rewrite forallb_forall in H. specialize (H (k, x)). cbn in H.
  assert (holds_hash q.1 Resident x || holds_hash q.1 Reserved x = true) as Hor by (apply orb_true_iff; exact Hh).
  rewrite Hor in H. apply Z.eqb_eq, H. by apply list_elem_of_In, elem_of_map_to_list.
Qed.
Definition t_res_ops : list SlotOp := [ORegister t_shard; OReserve 7 100; OCommit (mkSlot 0 0 1 Reserved (Some 7) 100)].
Definition t_reqs : list (Hash * Z) := [(9, 50); (7, 100)].
Lemma reserve_batch_all_or_nothing_witness :
  exists out d', reserve_batch t_reqs (slot_run empty_slots t_res_ops) = Ok (out, d').
Proof.
  assert (Forall slot_op_typed t_res_ops) as Ht by (repeat constructor; cbn; unfold in_u64, in_u32, u32_max, u64_max; lia).
  assert (NoDup (map fst t_reqs)) as Hn by (repeat constructor; cbn; set_solver).
  assert (Forall (fun q => 0 < q.2 <= u32_max) t_reqs) as Hl by (repeat constructor; cbn; unfold u32_max; lia).
  assert (lengths_agree (slot_run empty_slots t_res_ops) t_reqs) as Ha by (apply lengths_check_agree; vm_compute; reflexivity).
  assert (Forall (fun x => sr_generation x.2 < i64_max) (free_slots (slot_run empty_slots t_res_ops))) as Hg.
  { assert (forallb (fun x => sr_generation x.2 <? i64_max) (free_slots (slot_run empty_slots t_res_ops)) = true) as Hb by (vm_compute; reflexivity).
    rewrite forallb_forall in Hb. apply Forall_forall. intros x Hx%list_elem_of_In%Hb. by apply Z.ltb_lt. }
  assert ((length (List.filter (fun q => negb (held (slot_run empty_slots t_res_ops) q.1)) t_reqs) <=?
    length (free_slots (slot_run empty_slots t_res_ops)))%nat = true) as Hc by (vm_compute; reflexivity).
  pose proof (reserve_batch_all_or_nothing t_res_ops t_reqs Ht ltac:(discriminate) Hn Hl Ha Hg) as H.
  cbv zeta in H. rewrite Hc in H. clear -H. destruct H as (out & d' & H & _). exists out, d'. exact H.
Defined.
