(* ===== verification/Journal.v ===== *)
(** * The local mutation journal

    [mirage-db/src/operation.rs] over the tables of [migrations/0014] and the
    sequence counter of [0020], with the coordination of
    [mirage-engine/src/journal.rs].  An operation is journaled pending with
    references to its payloads, committed once every payload has its
    durable-flush marker, flushed with its flush group and published when its
    remote commit lands; a pending operation may be reclaimed instead.

    Ids and hashes are the numbers their bytes spell.  The text columns of
    the kind and the status hold the spelling of the enumeration
    ([as_str]/[parse] are inverse below), so the rows keep the enumeration.
    New rowids are below the largest integer. *)
From S2P Require Export Sql.

Inductive OperationKind : Set := KCreate | KRename | KDelete | KWrite | KTruncate | KMkdir | KReplace.
Inductive OperationStatus : Set := Pending | Committed | Flushed | Published | Reclaimed.
#[export] Instance OperationKind_eq_dec : EqDecision OperationKind.
Proof. solve_decision. Defined.
#[export] Instance OperationStatus_eq_dec : EqDecision OperationStatus.
Proof. solve_decision. Defined.

Definition OperationKind_as_str (k : OperationKind) : string :=
  match k with
  | KCreate => "create" | KRename => "rename" | KDelete => "delete" | KWrite => "write"
  | KTruncate => "truncate" | KMkdir => "mkdir" | KReplace => "replace"
  end.
Definition OperationKind_parse (s : string) : result OperationKind :=
  if decide (s = "create") then Ok KCreate else if decide (s = "rename") then Ok KRename
  else if decide (s = "delete") then Ok KDelete else if decide (s = "write") then Ok KWrite
  else if decide (s = "truncate") then Ok KTruncate else if decide (s = "mkdir") then Ok KMkdir
  else if decide (s = "replace") then Ok KReplace else Err (integrity_mismatch "operation kind is unknown").
Definition OperationStatus_as_str (s : OperationStatus) : string :=
  match s with
  | Pending => "pending" | Committed => "committed" | Flushed => "flushed" | Published => "published" | Reclaimed => "reclaimed"
  end.
Definition OperationStatus_parse (s : string) : result OperationStatus :=
  if decide (s = "pending") then Ok Pending else if decide (s = "committed") then Ok Committed
  else if decide (s = "flushed") then Ok Flushed else if decide (s = "published") then Ok Published
  else if decide (s = "reclaimed") then Ok Reclaimed else Err (integrity_mismatch "operation status is unknown").

Record OperationRecord : Set := mkOperation {
  operation_id : Z; device_seq : Z; op_volume : Z; base_commit : option Hash; op_kind : OperationKind; op_payload : list Z;
  status : OperationStatus; flush_group : option Z; depends_on : option Z; op_created_ns : Z
}.
Record OperationPayloadRecord : Set := mkPayload {
  payload_id : Z; pl_operation_id : Z; pl_path : string; pl_bytes : Z; pl_checksum : option Hash; pl_flushed_ns : option Z
}.
Record JournalEntry : Set := mkJournalEntry { je_operation_id : Z; je_kind : OperationKind; je_payload : list Z; je_created_ns : Z }.
Record FlushGroup : Set := mkGroup { fg_volume : Z; fg_opened_ns : Z; fg_flushed_ns : option Z }.

(** The key columns are repeated in the records. *)
Record JournalDb : Set := mkJournal {
  operations : gmap Z OperationRecord; payloads : gmap Z OperationPayloadRecord; groups : gmap Z FlushGroup; sequences : gmap Z Z
}.
Definition empty_journal : JournalDb := mkJournal ∅ ∅ ∅ ∅.
Definition set_operations (t : gmap Z OperationRecord) (j : JournalDb) : JournalDb := mkJournal t (payloads j) (groups j) (sequences j).
Definition set_payloads (t : gmap Z OperationPayloadRecord) (j : JournalDb) : JournalDb := mkJournal (operations j) t (groups j) (sequences j).
Definition set_groups (t : gmap Z FlushGroup) (j : JournalDb) : JournalDb := mkJournal (operations j) (payloads j) t (sequences j).
Definition set_sequences (t : gmap Z Z) (j : JournalDb) : JournalDb := mkJournal (operations j) (payloads j) (groups j) t.

Definition set_status (s : OperationStatus) (o : OperationRecord) : OperationRecord :=
  mkOperation (operation_id o) (device_seq o) (op_volume o) (base_commit o) (op_kind o) (op_payload o) s (flush_group o) (depends_on o) (op_created_ns o).
Definition set_group (g : Z) (o : OperationRecord) : OperationRecord :=
  mkOperation (operation_id o) (device_seq o) (op_volume o) (base_commit o) (op_kind o) (op_payload o) (status o) (Some g) (depends_on o) (op_created_ns o).
Definition with_device_seq (s : Z) (o : OperationRecord) : OperationRecord :=
  mkOperation (operation_id o) s (op_volume o) (base_commit o) (op_kind o) (op_payload o) (status o) (flush_group o) (depends_on o) (op_created_ns o).
Definition is_status (s : OperationStatus) (o : OperationRecord) : bool := bool_decide (status o = s).

(** [UNIQUE(volume_id, device_seq)]. *)
Definition operation_clash (a b : OperationRecord) : bool := (op_volume a =? op_volume b) && (device_seq a =? device_seq b).
Definition payload_check (_ : Z) (p : OperationPayloadRecord) : bool := 0 <=? pl_bytes p.

(** ** Statements *)
(** [INSERT INTO local_operations]: the flush group must exist. *)
Definition insert_operation (o : OperationRecord) (j : JournalDb) : result JournalDb :=
  if match flush_group o with Some g => bool_decide (is_Some (groups j !! g)) | None => true end then
    t ← ok_or (sqlite "operation insert failed") (insert_row (fun _ _ => true) operation_clash (operation_id o) o (operations j));
    Ok (set_operations t j)
  else Err (sqlite "operation insert failed").
(** [INSERT INTO operation_payloads]: the operation must exist. *)
Definition insert_payload (p : OperationPayloadRecord) (j : JournalDb) : result JournalDb :=
  if bool_decide (is_Some (operations j !! pl_operation_id p)) then
    t ← ok_or (sqlite "operation payload insert failed") (insert_row payload_check (fun _ _ => false) (payload_id p) p (payloads j));
    Ok (set_payloads t j)
  else Err (sqlite "operation payload insert failed").
(** [UPDATE local_operations SET status = s WHERE p], and its number of rows. *)
Definition update_status (p : OperationRecord -> bool) (f : OperationRecord -> OperationRecord) (j : JournalDb) : Z * JournalDb :=
  (cnt p (map snd (map_to_list (operations j))), set_operations ((fun o => if p o then f o else o) <$> operations j) j).
Definition update_status_of (id : Z) (p : OperationRecord -> bool) (f : OperationRecord -> OperationRecord) (j : JournalDb) : Z * JournalDb :=
  match operations j !! id with
  | Some o => if p o then (1, set_operations (<[id := f o]> (operations j)) j) else (0, j)
  | None => (0, j)
  end.

(** ** Operations *)
Definition check_new (o : OperationRecord) (j : JournalDb) : result () :=
  if negb (is_status Pending o) then Err (invalid_argument "a new operation must start pending")
  else match depends_on o with
       | Some parent =>
           if bool_decide (is_Some (operations j !! parent)) then Ok ()
           else Err (repository_conflict "operation depends on a missing operation")
       | None => Ok ()
       end.
Fixpoint insert_payloads (id : Z) (flushed : option Z) (ps : list OperationPayloadRecord) (j : JournalDb) : result JournalDb :=
  match ps with
  | [] => Ok j
  | p :: ps =>
      j ← insert_payload (mkPayload (payload_id p) id (pl_path p) (pl_bytes p) (pl_checksum p) flushed) j;
      insert_payloads id flushed ps j
  end.
Definition begin_operation_in (o : OperationRecord) (ps : list OperationPayloadRecord) (j : JournalDb) : result JournalDb :=
  _ ← check_new o j; j ← insert_operation o j; insert_payloads (operation_id o) None ps j.

Definition mark_payload_flushed (id : Z) (checksum : Hash) (now : Z) (j : JournalDb) : result JournalDb :=
  match payloads j !! id with
  | Some p =>
      match pl_flushed_ns p with
      | None => Ok (set_payloads (<[id := mkPayload (payload_id p) (pl_operation_id p) (pl_path p) (pl_bytes p) (Some checksum) (Some now)]> (payloads j)) j)
      | Some _ => Ok j
      end
  | None => Err (repository_conflict "flushed payload is not journaled")
  end.

Definition unflushed (id : Z) (p : OperationPayloadRecord) : bool :=
  (pl_operation_id p =? id) && bool_decide (pl_flushed_ns p = None).
Definition commit_operation_in (id : Z) (j : JournalDb) : result JournalDb :=
  if 0 <? cnt (unflushed id) (map snd (map_to_list (payloads j)))
  then Err (repository_conflict "operation commits before its payloads are durable")
  else
    let '(changed, j) := update_status_of id (is_status Pending) (set_status Committed) j in
    if negb (changed =? 1) then Err (repository_conflict "operation is not pending") else Ok j.

(** The next rowid of [flush_groups]. *)
Definition next_group (j : JournalDb) : Z := foldr (fun x m => Z.max x.1 m) 0 (map_to_list (groups j)) + 1.
Definition open_flush_group (volume now : Z) (j : JournalDb) : Z * JournalDb :=
  let group := next_group j in
  let j := set_groups (<[group := mkGroup volume now None]> (groups j)) j in
  (group, (update_status (fun o => (op_volume o =? volume) && is_status Committed o && bool_decide (flush_group o = None)) (set_group group) j).2).
Definition mark_group_flushed (group now : Z) (j : JournalDb) : Z * JournalDb :=
  let '(changed, j) := update_status (fun o => bool_decide (flush_group o = Some group) && is_status Committed o) (set_status Flushed) j in
  (changed, set_groups (alter (fun g => match fg_flushed_ns g with None => mkGroup (fg_volume g) (fg_opened_ns g) (Some now) | Some _ => g end) group (groups j)) j).
Fixpoint mark_published (ids : list Z) (j : JournalDb) : Z * JournalDb :=
  match ids with
  | [] => (0, j)
  | id :: ids =>
      let '(n, j) := update_status_of id (is_status Flushed) (set_status Published) j in
      let '(m, j) := mark_published ids j in (n + m, j)
  end.
Definition reclaim_pending (volume : Z) (j : JournalDb) : Z * JournalDb :=
  update_status (fun o => (op_volume o =? volume) && is_status Pending o) (set_status Reclaimed) j.

Definition replayable (volume : Z) (j : JournalDb) : list OperationRecord :=
  sort_by_key device_seq (List.filter (fun o => (op_volume o =? volume) && (is_status Committed o || is_status Flushed o))
    (map snd (map_to_list (operations j)))).
Definition reclaimable_payloads (volume : Z) (j : JournalDb) : list Z :=
  map fst (List.filter (fun x => match operations j !! pl_operation_id x.2 with
                                 | Some o => (op_volume o =? volume) && (is_status Pending o || is_status Reclaimed o)
                                 | None => false
                                 end) (map_to_list (payloads j))).

(** [COALESCE(MAX(device_seq) + 1, 0)]: a sum past the 64-bit range is a real
    number, which the integer column read refuses. *)
Definition journal_max (volume : Z) (j : JournalDb) : result Z :=
  match map device_seq (List.filter (fun o => op_volume o =? volume) (map snd (map_to_list (operations j)))) with
  | [] => Ok 0
  | s :: l => let m := foldr Z.max s l + 1 in if m <=? i64_max then Ok m else Err (sqlite "device sequence lookup failed")
  end.
(** [INSERT .. ON CONFLICT DO UPDATE .. RETURNING next_seq - 1]. *)
Definition allocate_device_seq_in (volume : Z) (j : JournalDb) : result (Z * JournalDb) :=
  m ← journal_max volume j;
  let next := match sequences j !! volume with Some n => Z.max n m + 1 | None => m end in
  if (m <? 0) || (i64_max <? next) then Err (sqlite "device sequence allocation failed")
  else Ok (next - 1, set_sequences (<[volume := next]> (sequences j)) j).

Definition journal_entry_commit_in (volume : Z) (e : JournalEntry) (j : JournalDb) : result JournalDb :=
  '(seq, j) ← allocate_device_seq_in volume j;
  j ← begin_operation_in (mkOperation (je_operation_id e) seq volume None (je_kind e) (je_payload e) Pending None None (je_created_ns e)) [] j;
  commit_operation_in (je_operation_id e) j.

(** ** The coordinator of [LocalJournal] *)
Record StagedPayload : Set := mkStaged { sp_payload_id : Z; sp_path : string; sp_bytes : Z; sp_checksum : Hash }.
Fixpoint mark_staged (staged : list StagedPayload) (now : Z) (j : JournalDb) : result () * JournalDb :=
  match staged with
  | [] => (Ok (), j)
  | p :: rest =>
      match mark_payload_flushed (sp_payload_id p) (sp_checksum p) now j with
      | Ok j => mark_staged rest now j
      | Err e => (Err e, j)
      end
  end.
(** Each writer call is a transaction of its own; [id] is the random id. *)
Definition LocalJournal_begin (id volume : Z) (k : OperationKind) (payload : list Z) (base : option Hash) (depends : option Z)
  (staged : list StagedPayload) (now : Z) (j : JournalDb) : result Z * JournalDb :=
  match allocate_device_seq_in volume j with
  | Err e => (Err e, j)
  | Ok (seq, j) =>
      let ps := map (fun p => mkPayload (sp_payload_id p) id (sp_path p) (sp_bytes p) (Some (sp_checksum p)) None) staged in
      match begin_operation_in (mkOperation id seq volume base k payload Pending None depends now) ps j with
      | Err e => (Err e, j)
      | Ok j => let '(r, j) := mark_staged staged now j in (_ ← r; Ok id, j)
      end
  end.
Definition flush_fence (volume now : Z) (j : JournalDb) : Z * JournalDb :=
  let '(group, j) := open_flush_group volume now j in (group, (mark_group_flushed group now j).2).

(** ** Examples *)
Definition t_op (id seq : Z) : OperationRecord := mkOperation id seq 1 None KWrite [] Pending None None 0.
Definition t_pl (id op : Z) : OperationPayloadRecord := mkPayload id op "p" 10 None None.
Definition get_ok {A : Type} (d : A) (r : result A) : A := match r with Ok a => a | Err _ => d end.

Example first_sequence_is_minus_one : option_map fst (match allocate_device_seq_in 1 empty_journal with Ok x => Some x | Err _ => None end) = Some (-1).
Proof. vm_compute. reflexivity. Qed.
(** A journal without a counter row, as migration 20 leaves it, is given the
    sequence of its newest operation again, and the insert then fails. *)
Example unseeded_counter_repeats_sequence :
  let j := get_ok empty_journal (begin_operation_in (t_op 10 5) [] empty_journal) in
  option_map fst (match allocate_device_seq_in 1 j with Ok x => Some x | Err _ => None end) = Some 5 /\
  journal_entry_commit_in 1 (mkJournalEntry 11 KCreate [] 0) j = Err (sqlite "operation insert failed").
Proof. vm_compute. split; reflexivity. Qed.
Example commit_waits_for_payload :
  let j := get_ok empty_journal (begin_operation_in (t_op 10 5) [t_pl 20 10] empty_journal) in
  commit_operation_in 10 j = Err (repository_conflict "operation commits before its payloads are durable") /\
  exists j', (j ← mark_payload_flushed 20 77 3 j; commit_operation_in 10 j) = Ok j'.
Proof. split; [vm_compute; reflexivity|eexists; vm_compute; reflexivity]. Qed.
(** A fence interrupted between its two transactions strands its operations:
    a later fence does not take them up. *)
Example interrupted_fence_strands :
  let j := get_ok empty_journal (j ← begin_operation_in (t_op 10 5) [] empty_journal; commit_operation_in 10 j) in
  let j := (flush_fence 1 9 (open_flush_group 1 8 j).2).2 in
  option_map status (operations j !! 10) = Some Committed.
Proof. vm_compute. reflexivity. Qed.

(** ** Runs *)
Inductive JournalOp : Set :=
| JBegin (o : OperationRecord) (ps : list OperationPayloadRecord) | JFlushed (id checksum now : Z) | JCommit (id : Z)
| JOpenGroup (volume now : Z) | JMarkGroup (group now : Z) | JPublish (ids : list Z) | JReclaim (volume : Z)
| JAllocate (volume : Z) | JEntry (volume : Z) (e : JournalEntry).
(** A failed transaction leaves the journal as it was. *)
Definition keep (j : JournalDb) (r : result JournalDb) : JournalDb := match r with Ok j' => j' | Err _ => j end.
Definition journal_step (j : JournalDb) (o : JournalOp) : JournalDb :=
  match o with
  | JBegin o ps => keep j (begin_operation_in o ps j)
  | JFlushed id checksum now => keep j (mark_payload_flushed id checksum now j)
  | JCommit id => keep j (commit_operation_in id j)
  | JOpenGroup volume now => (open_flush_group volume now j).2
  | JMarkGroup group now => (mark_group_flushed group now j).2
  | JPublish ids => (mark_published ids j).2
  | JReclaim volume => (reclaim_pending volume j).2
  | JAllocate volume => keep j ('(_, j') ← allocate_device_seq_in volume j; Ok j')
  | JEntry volume e => keep j (journal_entry_commit_in volume e j)
  end.
Definition journal_run (j : JournalDb) (os : list JournalOp) : JournalDb := fold_left journal_step os j.

(** ** The invariant *)
(** The local durability of the operation has been acknowledged. *)
Definition acknowledged (s : OperationStatus) : bool := match s with Committed | Flushed | Published => true | _ => false end.
Definition durable (j : JournalDb) : Prop :=
  forall id o pid p, operations j !! id = Some o -> acknowledged (status o) = true ->
    payloads j !! pid = Some p -> pl_operation_id p = id -> is_Some (pl_flushed_ns p).
Record journal_inv (j : JournalDb) : Prop := {
  ji_ids : forall id o, operations j !! id = Some o -> operation_id o = id;
  ji_unique : consistent (fun _ _ => true) operation_clash (operations j);
  ji_owner : forall pid p, payloads j !! pid = Some p -> is_Some (operations j !! pl_operation_id p);
  ji_group : forall id o g, operations j !! id = Some o -> flush_group o = Some g -> is_Some (groups j !! g);
  ji_durable : durable j
}.

(** How one call may change the status of an operation it does not create. *)
Inductive status_edge : OperationStatus -> OperationStatus -> Prop :=
| se_commit : status_edge Pending Committed
| se_flush : status_edge Committed Flushed
| se_publish : status_edge Flushed Published
| se_reclaim : status_edge Pending Reclaimed.
(** The operation keeps its content; its flush group is set once, while committed. *)
Record op_moves (o o' : OperationRecord) : Prop := {
  om_content : set_status Pending o' = set_status Pending o \/
    (flush_group o = None /\ status o = Committed /\ exists g, o' = set_group g o);
  om_status : status o' = status o \/ status_edge (status o) (status o')
}.
Definition extends (j j' : JournalDb) : Prop :=
  (forall id o, operations j !! id = Some o -> exists o', operations j' !! id = Some o' /\ op_moves o o') /\
  (forall pid p, payloads j !! pid = Some p -> exists p', payloads j' !! pid = Some p' /\ pl_operation_id p' = pl_operation_id p /\
     (is_Some (pl_flushed_ns p) -> p' = p)).

Lemma op_moves_refl (o : OperationRecord) : op_moves o o.
Proof. split; auto. Qed.
Lemma extends_refl (j : JournalDb) : extends j j.
Proof. split; intros k x Hx; exists x; [split; [done|apply op_moves_refl]|done]. Qed.

Lemma clash_sym (a b : OperationRecord) : operation_clash a b = operation_clash b a.
Proof. unfold operation_clash. by rewrite (Z.eqb_sym (op_volume a)), (Z.eqb_sym (device_seq a)). Qed.

Lemma empty_journal_inv : journal_inv empty_journal.
Proof.
  split; unfold durable, empty_journal; cbn [operations payloads];
    [intros ? ? H|apply consistent_empty|intros ? ? H|intros ? ? ? H|intros ? ? ? ? H]; by apply lookup_empty_Some in H.
Qed.

(** Updates of the operations that keep id, volume and sequence. *)
Definition same_key (o o' : OperationRecord) : Prop :=
  operation_id o' = operation_id o /\ op_volume o' = op_volume o /\ device_seq o' = device_seq o.

Lemma update_ops_inv (j : JournalDb) (t : gmap Z OperationRecord) :
  journal_inv j ->
  (forall id o', t !! id = Some o' -> exists o, operations j !! id = Some o /\ same_key o o' /\
     (forall g, flush_group o' = Some g -> is_Some (groups j !! g)) /\
     (acknowledged (status o') = true -> acknowledged (status o) = true \/ cnt (unflushed id) (map snd (map_to_list (payloads j))) = 0)) ->
  (forall id, is_Some (operations j !! id) -> is_Some (t !! id)) ->
  journal_inv (set_operations t j).
Proof.
  intros [Hid [Hc Hu] Ho Hg Hd] Ht Hdom. split; cbn.
  - intros id o' H. destruct (Ht id o' H) as (o & H1 & (-> & _) & _). by apply Hid.
  - split; [done|]. intros k1 k2 r1 r2 H1 H2 Hne.
    destruct (Ht k1 r1 H1) as (o1 & E1 & (_ & Hv1 & Hs1) & _), (Ht k2 r2 H2) as (o2 & E2 & (_ & Hv2 & Hs2) & _).
    unfold operation_clash. rewrite Hv1, Hv2, Hs1, Hs2. exact (Hu k1 k2 o1 o2 E1 E2 Hne).
  - intros pid p Hp. apply Hdom. exact (Ho pid p Hp).
  - intros id o' g H1 H2. destruct (Ht id o' H1) as (_ & _ & _ & H3 & _). by apply H3.
  - intros id o' pid p H1 Ha Hp Hpid. destruct (Ht id o' H1) as (o & E & _ & _ & Hack). destruct (Hack Ha) as [Ha0|H0].
    + exact (Hd id o pid p E Ha0 Hp Hpid).
    + destruct (pl_flushed_ns p) eqn:Ef; [by eexists|]. exfalso.
      enough (0 < cnt (unflushed id) (map snd (map_to_list (payloads j)))) by lia. apply cnt_pos, existsb_exists.
      exists p. split; [apply in_map_iff; exists (pid, p); split; [done|by apply list_elem_of_In, elem_of_map_to_list]|].
      unfold unflushed. rewrite Hpid, Z.eqb_refl, Ef. done.
Qed.

(** [update_status] and [update_status_of] are such updates. *)
Lemma update_status_ok (p : OperationRecord -> bool) (f : OperationRecord -> OperationRecord) (j : JournalDb) :
  (forall o, p o = true -> same_key o (f o) /\ op_moves o (f o) /\
     (forall g, flush_group (f o) = Some g -> flush_group o = Some g \/ is_Some (groups j !! g)) /\ (acknowledged (status (f o)) = true -> acknowledged (status o) = true)) ->
  journal_inv j -> journal_inv (update_status p f j).2 /\ extends j (update_status p f j).2.
Proof.
  intros Hp Hj. split.
  - apply update_ops_inv; [done|..]; cbn.
    + intros id o'. rewrite lookup_fmap. intros (o & Eo & Ho)%fmap_Some. exists o. split; [done|].
      pose proof (fun g => ji_group j Hj id o g Eo) as Hg. destruct (p o) eqn:E; subst o'; [|split_and!; [done..|by auto|by auto]].
      destruct (Hp o E) as (H1 & _ & H2 & H3). split_and!; [apply H1..| |].
      * intros g Hgg. destruct (H2 g Hgg); eauto.
      * intros Ha. left. by apply H3.
    + intros id. rewrite lookup_fmap. by apply fmap_is_Some.
  - split; cbn; [|by eauto]. intros id o Ho. exists (if p o then f o else o). rewrite lookup_fmap, Ho. split; [done|].
    destruct (p o) eqn:E; [by apply Hp|apply op_moves_refl].
Qed.
Lemma update_status_of_ok (id : Z) (p : OperationRecord -> bool) (f : OperationRecord -> OperationRecord) (j : JournalDb) :
  (forall o, operations j !! id = Some o -> p o = true -> same_key o (f o) /\ op_moves o (f o) /\ flush_group (f o) = flush_group o /\
     (acknowledged (status (f o)) = true -> acknowledged (status o) = true \/ cnt (unflushed id) (map snd (map_to_list (payloads j))) = 0)) ->
  journal_inv j -> journal_inv (update_status_of id p f j).2 /\ extends j (update_status_of id p f j).2.
Proof.
  intros Hp Hj. unfold update_status_of. destruct (operations j !! id) as [o|] eqn:Eo; [|split; [done|apply extends_refl]].
  destruct (p o) eqn:E; [|split; [done|apply extends_refl]]. destruct (Hp o eq_refl E) as (H1 & H2 & Hfg & H3). cbn. split.
  - apply update_ops_inv; [done|..].
    + intros id' o' [[<- <-]|[Hne Ho']]%lookup_insert_Some.
      * exists o. split_and!; [done|apply H1..| |done]. intros g. rewrite Hfg. by apply (ji_group j Hj id).
      * exists o'. split_and!; [done..| |by auto]. intros g. by apply (ji_group j Hj id').
    + intros id' Hs. apply lookup_insert_is_Some'. by right.
  - split; cbn; [|by eauto]. intros id' o0 Ho0. destruct (decide (id = id')) as [<-|Hne].
    + exists (f o). rewrite lookup_insert_eq. split; [done|]. congruence.
    + exists o0. rewrite lookup_insert_ne by done. split; [done|apply op_moves_refl].
Qed.

Lemma insert_payloads_ok (id : Z) (fl : option Z) (ps : list OperationPayloadRecord) (j j' : JournalDb) :
  insert_payloads id fl ps j = Ok j' ->
  operations j' = operations j /\ groups j' = groups j /\ sequences j' = sequences j /\ payloads j ⊆ payloads j' /\
  (forall pid p, payloads j' !! pid = Some p -> payloads j !! pid = Some p \/
     (pl_operation_id p = id /\ pl_flushed_ns p = fl /\ is_Some (operations j !! id))).
Proof.
  revert j. induction ps as [|p ps IH]; intros j; cbn [insert_payloads].
  - intros [= <-]. by split_and!; auto.
  - intros (j1 & H1 & H2)%bind_Ok_inv. unfold insert_payload in H1. destruct (bool_decide _) eqn:Eb in H1; [|done].
    apply bool_decide_eq_true in Eb. cbn in Eb. apply bind_Ok_inv in H1 as (t & (Hn & _ & ->)%ok_or_Ok_inv%insert_row_Some & [= <-]).
    destruct (IH _ H2) as (E1 & E2 & E3 & E4 & E5). cbn in *. split_and!; [done..| |].
    + etrans; [|exact E4]. by apply insert_subseteq.
    + intros pid q Hq. destruct (E5 pid q Hq) as [[[<- <-]|[_ Ho]]%lookup_insert_Some|?]; auto.
Qed.

Lemma check_new_ok (o : OperationRecord) (j : JournalDb) (u : ()) : check_new o j = Ok u -> status o = Pending.
Proof.
  unfold check_new, is_status. destruct (bool_decide (status o = Pending)) eqn:E; cbn; [|done]. intros _. by apply bool_decide_eq_true in E.
Qed.

(** What a begun operation adds. *)
Definition adds (o : OperationRecord) (fl : option Z) (j j' : JournalDb) : Prop :=
  operations j !! operation_id o = None /\ operations j' = <[operation_id o := o]> (operations j) /\
  groups j' = groups j /\ sequences j' = sequences j /\ payloads j ⊆ payloads j' /\
  (forall k x, operations j !! k = Some x -> operation_clash o x = false) /\
  (forall g, flush_group o = Some g -> is_Some (groups j !! g)) /\
  (forall pid p, payloads j' !! pid = Some p -> payloads j !! pid = Some p \/ (pl_operation_id p = operation_id o /\ pl_flushed_ns p = fl)).

Lemma insert_operation_ok (o : OperationRecord) (j j' : JournalDb) : insert_operation o j = Ok j' ->
  operations j !! operation_id o = None /\ j' = set_operations (<[operation_id o := o]> (operations j)) j /\
  (forall k x, operations j !! k = Some x -> operation_clash o x = false) /\
  (forall g, flush_group o = Some g -> is_Some (groups j !! g)).
Proof.
  unfold insert_operation. destruct (match flush_group o with Some _ => _ | None => _ end) eqn:Eg; [|done].
  intros (t & (Hn & Hf & ->)%ok_or_Ok_inv%insert_row_Some & [= <-])%bind_Ok_inv.
  split_and!; [done..| |intros g Hgg; rewrite Hgg in Eg; by apply bool_decide_eq_true in Eg].
  intros k x Hx. apply fits_at_iff in Hf as [_ Hf]. apply (Hf k x Hx). congruence.
Qed.

Lemma begin_adds (o : OperationRecord) (ps : list OperationPayloadRecord) (j j' : JournalDb) :
  begin_operation_in o ps j = Ok j' -> status o = Pending /\ adds o None j j'.
Proof.
  intros (u & Hs%check_new_ok & H)%bind_Ok_inv. apply bind_Ok_inv in H as (j1 & (Hn & -> & Hcl & Hg)%insert_operation_ok & H).
  apply insert_payloads_ok in H as (E1 & E2 & E3 & E4 & E5). cbn in *. split; [done|]. split_and!; [done..|].
  intros pid p Hp. destruct (E5 pid p Hp) as [?|(? & ? & _)]; auto.
Qed.

Lemma adds_inv (o : OperationRecord) (fl : option Z) (j j' : JournalDb) :
  (acknowledged (status o) = true -> is_Some fl) -> adds o fl j j' -> journal_inv j -> journal_inv j' /\ extends j j'.
Proof.
  intros Hfl (Hn & Eo & Egr & _ & Hsub & Hcl & Hfg & Hpl) [Hid [Hc Hu] Ho Hg Hd].
  assert (forall pid p, payloads j !! pid = Some p -> pl_operation_id p <> operation_id o) as Hold.
  { intros pid p Hp E. destruct (Ho pid p Hp) as [x Hx]. rewrite E in Hx. congruence. }
  split; [split; rewrite ?Eo|split].
  - intros id x [[<- <-]|[_ Hx]]%lookup_insert_Some; [done|by apply Hid].
  - apply consistent_put; [exact clash_sym|done|]. apply fits_at_iff. split; [done|]. intros k x Hx _. exact (Hcl k x Hx).
  - intros pid p Hp. apply lookup_insert_is_Some'. destruct (Hpl pid p Hp) as [Hp0|[-> _]]; [right; by apply (Ho pid)|by left].
  - intros id x g Hx Hxg. rewrite Egr. apply lookup_insert_Some in Hx as [[<- <-]|[_ Hx]]; [by apply Hfg|by apply (Hg id x)].
  - intros id x pid p Hx Ha Hp Hpid. rewrite Eo in Hx. destruct (Hpl pid p Hp) as [Hp0|[E Ef]].
    + apply lookup_insert_Some in Hx as [[<- <-]|[_ Hx]]; [destruct (Hold pid p Hp0 Hpid)|exact (Hd id x pid p Hx Ha Hp0 Hpid)].
    + apply lookup_insert_Some in Hx as [[<- <-]|[Hne _]]; [rewrite Ef; by apply Hfl|congruence].
  - intros id x Hx. exists x. rewrite Eo, lookup_insert_ne by congruence. split; [done|apply op_moves_refl].
  - intros pid p Hp. exists p. split_and!; [by eapply lookup_weaken|done|done].
Qed.

Lemma set_status_moves (s : OperationStatus) (o : OperationRecord) :
  status_edge (status o) s -> same_key o (set_status s o) /\ op_moves o (set_status s o).
Proof. intros He. split; [by split_and!|]. split; [by left|by right]. Qed.
Lemma is_status_true (s : OperationStatus) (o : OperationRecord) : is_status s o = true <-> status o = s.
Proof. apply bool_decide_eq_true. Qed.

Lemma mark_payload_flushed_ok (id checksum now : Z) (j j' : JournalDb) :
  journal_inv j -> mark_payload_flushed id checksum now j = Ok j' -> journal_inv j' /\ extends j j'.
Proof.
  intros Hj. unfold mark_payload_flushed. destruct (payloads j !! id) as [p|] eqn:Ep; [|done].
  destruct (pl_flushed_ns p) eqn:Ef; intros [= <-]; [split; [done|apply extends_refl]|].
  destruct Hj as [Hid Hc Ho Hg Hd]. split; [split; cbn|split; cbn].
  - done.
  - done.
  - intros pid q [[<- <-]|[_ Hq]]%lookup_insert_Some; [exact (Ho id p Ep)|exact (Ho pid q Hq)].
  - done.
  - unfold durable. cbn. intros oid o pid q Hoid Ha [[<- <-]|[_ Hq]]%lookup_insert_Some Hpid; [by eexists|exact (Hd oid o pid q Hoid Ha Hq Hpid)].
  - intros oid o H. exists o. split; [done|apply op_moves_refl].
  - intros pid q Hq. destruct (decide (id = pid)) as [<-|Hne].
    + eexists. rewrite lookup_insert_eq. assert (q = p) as -> by congruence. split_and!; [done|done|]. rewrite Ef. by intros [? ?].
    + exists q. by rewrite lookup_insert_ne.
Qed.

Lemma commit_operation_ok (id : Z) (j j' : JournalDb) :
  journal_inv j -> commit_operation_in id j = Ok j' -> (journal_inv j' /\ extends j j') /\
  exists o, operations j !! id = Some o /\ status o = Pending /\ j' = set_operations (<[id := set_status Committed o]> (operations j)) j.
Proof.
  intros Hj. unfold commit_operation_in. destruct (Z.ltb_spec 0 (cnt (unflushed id) (map snd (map_to_list (payloads j))))) as [|H0]; [done|].
  destruct (update_status_of id (is_status Pending) (set_status Committed) j) as [n j1] eqn:Eu.
  destruct (negb (n =? 1)) eqn:En; [done|]. intros [= <-]. split.
  - pose proof (update_status_of_ok id (is_status Pending) (set_status Committed) j) as H. rewrite Eu in H. apply H; [|done].
    intros o Ho Hs%is_status_true. destruct (set_status_moves Committed o) as [Hk Hm]; [rewrite Hs; constructor|].
    split_and!; [apply Hk..|done|done|]. intros _. right. pose proof (cnt_bounds (unflushed id) (map snd (map_to_list (payloads j)))). lia.
  - unfold update_status_of in Eu. destruct (operations j !! id) as [o|] eqn:Eo; [|injection Eu as <- <-; discriminate].
    destruct (is_status Pending o) eqn:Es; injection Eu as <- <-; [|discriminate]. exists o. split_and!; [done|by apply is_status_true|done].
Qed.

(** Publishing an id again does nothing: [set_status Published] is no longer flushed. *)
Lemma mark_published_ok (ids : list Z) (j : JournalDb) : journal_inv j ->
  journal_inv (mark_published ids j).2 /\ payloads (mark_published ids j).2 = payloads j /\
  forall id o, operations j !! id = Some o -> exists o', operations (mark_published ids j).2 !! id = Some o' /\
    (o' = o \/ (status o = Flushed /\ o' = set_status Published o)).
Proof.
  revert j. induction ids as [|i ids IH]; intros j Hj; cbn [mark_published]; [by split_and!; eauto|].
  pose proof (update_status_of_ok i (is_status Flushed) (set_status Published) j) as Hu.
  destruct (update_status_of i (is_status Flushed) (set_status Published) j) as [n j1] eqn:Eu. cbn in Hu.
  destruct Hu as [Hj1 _]; [|done|].
  { intros o _ Hs%is_status_true. destruct (set_status_moves Published o) as [Hk Hm]; [rewrite Hs; constructor|].
    split_and!; [apply Hk..|done|done|]. intros _. left. by rewrite Hs. }
  assert (payloads j1 = payloads j /\ forall id o, operations j !! id = Some o -> exists o', operations j1 !! id = Some o' /\
    (o' = o \/ (status o = Flushed /\ o' = set_status Published o))) as [E1 E2].
  { unfold update_status_of in Eu. destruct (operations j !! i) as [x|] eqn:Ex;
      [destruct (is_status Flushed x) eqn:Es|]; injection Eu as <- <-; (split; [done|]); intros id o Ho; eauto.
    cbn. destruct (decide (i = id)) as [<-|Hne]; [|rewrite lookup_insert_ne by done; eauto].
    rewrite lookup_insert_eq. assert (x = o) as -> by congruence. apply is_status_true in Es. eauto. }
  destruct (IH j1 Hj1) as (H1 & H2 & H3). destruct (mark_published ids j1) as [m j2]. cbn in *.
  split_and!; [done|congruence|]. intros id o Ho. destruct (E2 id o Ho) as (o1 & Ho1 & Hor1), (H3 id o1 Ho1) as (o2 & Ho2 & Hor2).
  exists o2. split; [done|]. destruct Hor1 as [->|[Hs ->]], Hor2 as [->|[Hs2 ->]]; auto; discriminate.
Qed.

Lemma mark_published_extends (ids : list Z) (j : JournalDb) : journal_inv j -> extends j (mark_published ids j).2.
Proof.
  intros Hj. destruct (mark_published_ok ids j Hj) as (_ & Hp & Ho). split.
  - intros id o H. destruct (Ho id o H) as (o' & H' & [->|[Hs ->]]); eexists; (split; [exact H'|]); [apply op_moves_refl|].
    apply set_status_moves. rewrite Hs. constructor.
  - intros pid p H. rewrite Hp. by exists p.
Qed.

Lemma set_groups_ok (t : gmap Z FlushGroup) (j j' : JournalDb) :
  (forall g, is_Some (groups j' !! g) -> is_Some (t !! g)) ->
  journal_inv j' /\ extends j j' -> journal_inv (set_groups t j') /\ extends j (set_groups t j').
Proof. intros Ht [[Hid Hu Ho Hg Hd] []]. split; [split; try done|done]. intros id o g H1 H2. apply Ht. exact (Hg id o g H1 H2). Qed.
Lemma set_sequences_ok (t : gmap Z Z) (j : JournalDb) : journal_inv j -> journal_inv (set_sequences t j).
Proof. intros []. done. Qed.

Lemma open_flush_group_ok (volume now : Z) (j : JournalDb) :
  journal_inv j -> journal_inv (open_flush_group volume now j).2 /\ extends j (open_flush_group volume now j).2.
Proof.
  intros Hj. unfold open_flush_group. cbn [snd]. set (j1 := set_groups _ j).
  assert (journal_inv j1) as Hj1
    by (apply (set_groups_ok _ j j); [|by split; [|apply extends_refl]]; intros g Hg; apply lookup_insert_is_Some'; by right).
  apply (update_status_ok _ (set_group (next_group j)) j1); [|done].
  intros o [[Hv Hs%is_status_true]%andb_true_iff Hg%bool_decide_eq_true]%andb_true_iff. split_and!; [done..| | |done].
  - split; [right; eauto|by left].
  - intros g [= <-]. right. cbn. rewrite lookup_insert_eq. by eexists.
Qed.
Lemma mark_group_flushed_ok (group now : Z) (j : JournalDb) :
  journal_inv j -> journal_inv (mark_group_flushed group now j).2 /\ extends j (mark_group_flushed group now j).2.
Proof.
  intros Hj. unfold mark_group_flushed.
  destruct (update_status _ (set_status Flushed) j) as [n j1] eqn:Eu. cbn [snd].
  apply set_groups_ok; [intros g Hg; by apply lookup_alter_is_Some|].
  replace j1 with (n, j1).2 by done. rewrite <-Eu. apply update_status_ok; [|done].
  intros o [Hg Hs%is_status_true]%andb_true_iff. destruct (set_status_moves Flushed o) as [Hk Hm]; [rewrite Hs; constructor|].
  split_and!; [apply Hk..|done|by auto|]. by rewrite Hs.
Qed.
Lemma reclaim_pending_ok (volume : Z) (j : JournalDb) :
  journal_inv j -> journal_inv (reclaim_pending volume j).2 /\ extends j (reclaim_pending volume j).2.
Proof.
  intros Hj. apply update_status_ok; [|done]. intros o [_ Hs%is_status_true]%andb_true_iff.
  destruct (set_status_moves Reclaimed o) as [Hk Hm]; [rewrite Hs; constructor|]. split_and!; [apply Hk..|done|by auto|done].
Qed.
Lemma allocate_ok (volume s : Z) (j j' : JournalDb) : allocate_device_seq_in volume j = Ok (s, j') ->
  exists m, journal_max volume j = Ok m /\ 0 <= m /\
    s = (match sequences j !! volume with Some n => Z.max n m | None => m - 1 end) /\ j' = set_sequences (<[volume := s + 1]> (sequences j)) j.
Proof.
  unfold allocate_device_seq_in. intros (m & Hm & H)%bind_Ok_inv. exists m. cbv zeta in H.
  destruct ((m <? 0) || _) eqn:E; [done|]. zbool. injection H as <- <-. split_and!; [done|done| |].
  - destruct (sequences j !! volume); lia.
  - do 2 f_equal. lia.
Qed.

Lemma journal_entry_ok (volume : Z) (e : JournalEntry) (j j' : JournalDb) :
  journal_inv j -> journal_entry_commit_in volume e j = Ok j' -> journal_inv j' /\ extends j j' /\
  exists o, operations j !! je_operation_id e = None /\ op_volume o = volume /\ status o = Committed /\ op_payload o = je_payload e /\ op_kind o = je_kind e /\
    operations j' = <[je_operation_id e := o]> (operations j).
Proof.
  intros Hj ([s j1] & Ha & H)%bind_Ok_inv. apply allocate_ok in Ha as (m & _ & _ & _ & ->).
  apply bind_Ok_inv in H as (j2 & Hb & Hc). apply begin_adds in Hb as [Hs Ha].
  assert (journal_inv (set_sequences (<[volume := s + 1]> (sequences j)) j)) as Hj1 by by apply set_sequences_ok.
  destruct (adds_inv _ None _ _ ltac:(by rewrite Hs) Ha Hj1) as [Hj2 [He1 He2]].
  apply commit_operation_ok in Hc as ([Hj3 _] & o & Ho & Hso & ->); [|done].
  destruct Ha as (Hn & Eo & _ & _ & Hsub & _). cbn in Hn, Eo, Ho, Hsub. rewrite Eo, lookup_insert_eq in Ho. injection Ho as <-.
  split_and!; [done| |].
  - split; cbn.
    + intros id x Hx. exists x. rewrite Eo, !lookup_insert_ne by congruence. split; [done|apply op_moves_refl].
    + intros pid p Hp. exists p. split_and!; [by eapply lookup_weaken|done|done].
  - eexists. split_and!; [exact Hn|..|cbn; rewrite Eo; by rewrite insert_insert_eq]; done.
Qed.

Lemma journal_step_ok (o : JournalOp) (j : JournalDb) : journal_inv j -> journal_inv (journal_step j o) /\ extends j (journal_step j o).
Proof.
  intros Hj. assert (journal_inv j /\ extends j j) as Hrefl by (split; [done|apply extends_refl]).
  assert (forall r, (forall j', r = Ok j' -> journal_inv j' /\ extends j j') -> journal_inv (keep j r) /\ extends j (keep j r)) as Hkeep
    by (intros [j'|e] H; cbn; [by apply H|done]).
  destruct o; cbn [journal_step]; try apply Hkeep.
  - intros j' [Hs Ha]%begin_adds. apply (adds_inv o None); [by rewrite Hs|done|done].
  - intros j'. by apply mark_payload_flushed_ok.
  - intros j' H. by apply commit_operation_ok in H as [? _].
  - by apply open_flush_group_ok.
  - by apply mark_group_flushed_ok.
  - split; [by apply mark_published_ok|by apply mark_published_extends].
  - by apply reclaim_pending_ok.
  - intros j' ([s j1] & H & [= <-])%bind_Ok_inv. apply allocate_ok in H as (m & _ & _ & _ & ->). destruct Hj. split; [done|apply Hrefl].
  - intros j' H. by apply journal_entry_ok in H as (? & ? & _).
Qed.
Lemma journal_run_ok (os : list JournalOp) (j : JournalDb) : journal_inv j -> journal_inv (journal_run j os).
Proof. revert j. induction os as [|o os IH]; intros j Hj; [done|]. cbn. by apply IH, journal_step_ok. Qed.

(** ** Sequences *)
Lemma journal_max_above (volume m : Z) (j : JournalDb) (id : Z) (o : OperationRecord) :
  journal_max volume j = Ok m -> operations j !! id = Some o -> op_volume o = volume -> device_seq o < m.
Proof.
  unfold journal_max. intros Hm Ho Hv.
  assert (device_seq o ∈ map device_seq (List.filter (fun o => op_volume o =? volume) (map snd (map_to_list (operations j))))) as Hin.
  { apply list_elem_of_In, in_map, filter_In. split; [|by apply Z.eqb_eq].
    apply in_map_iff. exists (id, o). split; [done|by apply list_elem_of_In, elem_of_map_to_list]. }
  destruct (map device_seq _) as [|s l]; [by apply elem_of_nil in Hin|]. cbv zeta in Hm. destruct (_ <=? i64_max); [|done]. injection Hm as <-.
  assert (forall x, x ∈ s :: l -> x <= foldr Z.max s l) as Hle.
  { clear. induction l as [|y l IH]; intros x Hx; cbn in *; [by apply list_elem_of_singleton in Hx as ->|].
    apply elem_of_cons in Hx as [->|[->|Hx]%elem_of_cons]; [specialize (IH s ltac:(left)); lia|lia|].
    specialize (IH x ltac:(by right)). lia. }
  specialize (Hle _ Hin). lia.
Qed.

Lemma update_status_sequences (p : OperationRecord -> bool) (f : OperationRecord -> OperationRecord) (j : JournalDb) :
  sequences (update_status p f j).2 = sequences j.
Proof. done. Qed.
Lemma update_status_of_sequences (id : Z) (p : OperationRecord -> bool) (f : OperationRecord -> OperationRecord) (j : JournalDb) :
  sequences (update_status_of id p f j).2 = sequences j.
Proof. unfold update_status_of. destruct (operations j !! id) as [o|]; [destruct (p o)|]; done. Qed.
Lemma mark_published_sequences (ids : list Z) (j : JournalDb) : sequences (mark_published ids j).2 = sequences j.
Proof.
  revert j. induction ids as [|i ids IH]; intros j; [done|]. cbn [mark_published].
  pose proof (update_status_of_sequences i (is_status Flushed) (set_status Published) j) as H.
  destruct (update_status_of i (is_status Flushed) (set_status Published) j) as [n j1].
  specialize (IH j1). destruct (mark_published ids j1). cbn in *. congruence.
Qed.
Lemma commit_sequences (id : Z) (j j' : JournalDb) : commit_operation_in id j = Ok j' -> sequences j' = sequences j.
Proof.
  unfold commit_operation_in. destruct (0 <? _); [done|].
  pose proof (update_status_of_sequences id (is_status Pending) (set_status Committed) j) as H.
  destruct (update_status_of _ _ _ j) as [n j1]. destruct (negb _); intros [= <-]. exact H.
Qed.

(** The counter of a volume never decreases. *)
Lemma step_counter (o : JournalOp) (j : JournalDb) (v n : Z) :
  sequences j !! v = Some n -> exists n', sequences (journal_step j o) !! v = Some n' /\ n <= n'.
Proof.
  intros Hn. assert (forall j', sequences j' = sequences j -> exists n', sequences j' !! v = Some n' /\ n <= n') as Hsame
    by (intros j' ->; exists n; split; [done|lia]).
  assert (forall w s j', allocate_device_seq_in w j = Ok (s, j') -> exists n', sequences j' !! v = Some n' /\ n <= n') as Halloc.
  { intros w s j' (m & _ & _ & Hs & ->)%allocate_ok. cbn. destruct (decide (w = v)) as [->|Hne].
    - rewrite lookup_insert_eq. rewrite Hn in Hs. eexists. split; [done|lia].
    - rewrite lookup_insert_ne by done. exists n. split; [done|lia]. }
  destruct o; cbn [journal_step].
  - destruct (begin_operation_in o ps j) as [j'|e] eqn:E; cbn; [|by apply Hsame]. apply begin_adds in E as (_ & _ & _ & _ & E & _). by apply Hsame.
  - apply Hsame. unfold mark_payload_flushed. destruct (payloads j !! id) as [p|]; [destruct (pl_flushed_ns p)|]; done.
  - destruct (commit_operation_in id j) eqn:E; apply Hsame; [by apply commit_sequences in E|done].
  - by apply Hsame.
  - by apply Hsame.
  - apply Hsame, mark_published_sequences.
  - by apply Hsame.
  - destruct (allocate_device_seq_in volume j) as [[s j']|] eqn:E; cbn; [by apply Halloc in E|by apply Hsame].
  - destruct (journal_entry_commit_in volume e j) as [j'|] eqn:E; cbn; [|by apply Hsame].
    apply bind_Ok_inv in E as ([s j1] & Ha & E). apply bind_Ok_inv in E as (j2 & [_ Hb]%begin_adds & Hc%commit_sequences).
    destruct Hb as (_ & _ & _ & Hb & _). rewrite Hc, Hb. by apply Halloc in Ha.
Qed.
Lemma run_counter (os : list JournalOp) (j : JournalDb) (v n : Z) :
  sequences j !! v = Some n -> exists n', sequences (journal_run j os) !! v = Some n' /\ n <= n'.
Proof.
  revert j n. induction os as [|o os IH]; intros j n Hn; [exists n; split; [done|lia]|].
  destruct (step_counter o j v n Hn) as (n1 & H1 & Hle1), (IH (journal_step j o) n1 H1) as (n2 & H2 & Hle2). exists n2. split; [exact H2|lia].
Qed.

(** ** Claims *)
(** C10: Along every sequence of journal calls, each a transaction that may
    fail: an operation that was committed, flushed or published has only
    payloads with their durable-flush marker; and every further call keeps
    each operation and payload, changes no content, moves the status of an
    operation along one edge of its lifecycle (so nothing acknowledged is
    reclaimed), and leaves the payloads of flushed ones alone. *)
Theorem journal_commits_durable (os : list JournalOp) (o : JournalOp) :
  let j := journal_run empty_journal os in durable j /\ extends j (journal_step j o).
Proof.
  intros j. assert (journal_inv j) as Hj by (apply journal_run_ok, empty_journal_inv). split; [apply Hj|by apply journal_step_ok].
Qed.

(** Device sequences are never handed out twice: once the counter row of
    a volume exists, or while its journal is empty, an allocation returns a
    sequence above every operation of the volume, and any later allocation,
    whatever calls come in between, returns a larger one. *)
Theorem device_sequences_increase (os1 os2 : list JournalOp) (v s s2 : Z) (j1 j2 : JournalDb) :
  let j := journal_run empty_journal os1 in
  is_Some (sequences j !! v) \/ (forall id o, operations j !! id = Some o -> op_volume o <> v) ->
  allocate_device_seq_in v j = Ok (s, j1) -> allocate_device_seq_in v (journal_run j1 os2) = Ok (s2, j2) ->
  (forall id o, operations j !! id = Some o -> op_volume o = v -> device_seq o < s) /\ s < s2 /\
  forall id o, operations (journal_run j1 os2) !! id = Some o -> op_volume o = v -> device_seq o < s2.
Proof.
  intros j Hc (m & Hm & _ & Hs & ->)%allocate_ok (m2 & Hm2 & _ & Hs2 & _)%allocate_ok.
  destruct (run_counter os2 (set_sequences (<[v := s + 1]> (sequences j)) j) v (s + 1)) as (n2 & Hn2 & Hle); [cbn; by rewrite lookup_insert_eq|].
  rewrite Hn2 in Hs2. split_and!.
  - intros id o Ho Hv. pose proof (journal_max_above v m j id o Hm Ho Hv).
    destruct Hc as [[n Hn]|Hempty]; [rewrite Hn in Hs; lia|destruct (Hempty id o Ho Hv)].
  - lia.
  - intros id o Ho Hv. pose proof (journal_max_above v m2 _ id o Hm2 Ho Hv). lia.
Qed.
Lemma device_sequences_increase_witness :
  let j := journal_run empty_journal [JEntry 1 (mkJournalEntry 11 KCreate [] 0)] in
  exists s j1 s2 j2, allocate_device_seq_in 1 j = Ok (s, j1) /\ allocate_device_seq_in 1 (journal_run j1 [JAllocate 1]) = Ok (s2, j2) /\ s < s2.
Proof.
  intros j. assert (exists x, allocate_device_seq_in 1 j = Ok x) as [[s j1] H1] by (eexists; vm_compute; reflexivity).
  assert (exists x, allocate_device_seq_in 1 (journal_run j1 [JAllocate 1]) = Ok x) as [[s2 j2] H2].
  { vm_compute in H1. injection H1 as _ <-. eexists. vm_compute. reflexivity. }
  exists s, j1, s2, j2. split; [exact H1|]. split; [exact H2|].
  refine (proj1 (proj2 (device_sequences_increase [JEntry 1 (mkJournalEntry 11 KCreate [] 0)] [JAllocate 1] 1 s s2 j1 j2 _ H1 H2))).
  left. eexists. vm_compute. reflexivity.
Defined.

(** Elements with distinct keys are strictly sorted by their sort. *)
Lemma strict_of_sorted {A : Type} (k : A -> Z) (l : list A) :
  NoDup (map k l) -> StronglySorted (fun a b => k a <= k b) l -> StronglySorted (fun a b => k a < k b) l.
Proof.
  intros Hn Hs. induction Hs as [|x l Hs IH Hx]; [constructor|]. apply NoDup_cons in Hn as [Hx' Hn]. constructor; [by apply IH|].
  rewrite Forall_forall in Hx |- *. intros y Hy. specialize (Hx y Hy). enough (k x <> k y) by lia. intros E. apply Hx'.
  fold (map k l). rewrite E. by apply list_elem_of_In, in_map, list_elem_of_In.
Qed.

Lemma elem_of_replayable (v : Z) (j : JournalDb) (o : OperationRecord) : journal_inv j ->
  o ∈ replayable v j <-> operations j !! operation_id o = Some o /\ op_volume o = v /\ (status o = Committed \/ status o = Flushed).
Proof.
  intros Hj. unfold replayable. rewrite sort_by_key_perm, list_elem_of_In, filter_In, in_map_iff, andb_true_iff, orb_true_iff, Z.eqb_eq, !is_status_true.
  split.
  - intros [([id o'] & <- & Hin%list_elem_of_In%elem_of_map_to_list) H]. cbn in *. by rewrite (ji_ids j Hj id o' Hin).
  - intros (Ho & H). split; [|done]. exists (operation_id o, o). split; [done|]. by apply list_elem_of_In, elem_of_map_to_list.
Qed.

Lemma sequences_NoDup (v : Z) (j : JournalDb) (q : OperationRecord -> bool) :
  journal_inv j -> (forall o, q o = true -> op_volume o = v) ->
  NoDup (map device_seq (List.filter q (map snd (map_to_list (operations j))))).
Proof.
  intros Hj Hq. assert (forall x, x ∈ map_to_list (operations j) -> operations j !! x.1 = Some x.2) as Hl
    by (intros [k x]; by rewrite elem_of_map_to_list).
  pose proof (NoDup_fst_map_to_list (operations j)) as Hn. induction (map_to_list (operations j)) as [|[id o] l IH]; [constructor|].
  apply NoDup_cons in Hn as [Hid Hn]. cbn [map List.filter snd]. assert (forall x, x ∈ l -> operations j !! x.1 = Some x.2) as Hl' by (intros; apply Hl; by right).
  destruct (q o) eqn:E; [|by apply IH]. cbn [map]. apply NoDup_cons. split; [|by apply IH].
  intros Hin%list_elem_of_In. apply in_map_iff in Hin as (o' & Hs & [Hin Hqo']%filter_In). apply in_map_iff in Hin as ([id' o''] & <- & Hin%list_elem_of_In).
  assert (id <> id') as Hne. { intros ->. apply Hid. change (id' ∈ map fst l). apply list_elem_of_In, in_map_iff. exists (id', o''). by rewrite <-list_elem_of_In. }
  pose proof (proj2 (ji_unique j Hj) id id' o o'' (Hl (id, o) ltac:(left)) (Hl' _ Hin) Hne) as Hc.
  unfold operation_clash in Hc. cbn in Hs, Hqo'. rewrite (Hq o E), (Hq o'' Hqo'), Hs, !Z.eqb_refl in Hc. done.
Qed.

(** Recovery of a volume, at any point of any sequence of journal calls:
    replay lists exactly the committed and flushed operations, in strictly
    increasing device order and with all their payloads flushed; a payload it
    may delete belongs to an operation that was never acknowledged; and
    reclaiming the pending operations does not change what is replayed. *)
Theorem recovery_replays_acknowledged (os : list JournalOp) (v : Z) :
  let j := journal_run empty_journal os in
  StronglySorted (fun a b => device_seq a < device_seq b) (replayable v j) /\
  (forall o, o ∈ replayable v j <-> operations j !! operation_id o = Some o /\ op_volume o = v /\ (status o = Committed \/ status o = Flushed)) /\
  (forall o pid p, o ∈ replayable v j -> payloads j !! pid = Some p -> pl_operation_id p = operation_id o ->
     is_Some (pl_flushed_ns p) /\ pid ∉ reclaimable_payloads v j) /\
  (forall pid, pid ∈ reclaimable_payloads v j -> exists p o, payloads j !! pid = Some p /\
     operations j !! pl_operation_id p = Some o /\ acknowledged (status o) = false) /\
  (forall o, o ∈ replayable v (reclaim_pending v j).2 <-> o ∈ replayable v j).
Proof.
  intros j. assert (journal_inv j) as Hj by (apply journal_run_ok, empty_journal_inv).
  assert (forall pid, pid ∈ reclaimable_payloads v j -> exists p o, payloads j !! pid = Some p /\
     operations j !! pl_operation_id p = Some o /\ acknowledged (status o) = false) as Hrec.
  { intros pid Hin%list_elem_of_In. apply in_map_iff in Hin as ([pid' p] & <- & [Hin Hf]%filter_In).
    apply list_elem_of_In, elem_of_map_to_list in Hin. cbn in *. destruct (operations j !! pl_operation_id p) as [o|] eqn:Eo; [|done].
    exists p, o. split_and!; [done..|]. apply andb_true_iff in Hf as [_ [Hs|Hs]%orb_true_iff]; apply is_status_true in Hs; by rewrite Hs. }
  split_and!.
  - apply strict_of_sorted; [|apply sort_by_key_sorted]. unfold replayable. rewrite (Permutation_map device_seq (sort_by_key_perm _ _)).
    apply (sequences_NoDup v j); [done|]. by intros o [Hv%Z.eqb_eq _]%andb_true_iff.
  - intros o. by apply elem_of_replayable.
  - intros o pid p (Ho & _ & Hs)%elem_of_replayable Hp Hpid; [|done].
    assert (acknowledged (status o) = true) as Ha by (destruct Hs as [->| ->]; done).
    split; [exact (ji_durable j Hj _ o pid p Ho Ha Hp Hpid)|]. intros (p' & o' & Hp' & Ho' & Ha')%Hrec. congruence.
  - exact Hrec.
  - intros o. rewrite !elem_of_replayable by (done || by apply reclaim_pending_ok). cbn. rewrite lookup_fmap. split.
    + intros ((x & Hx & Ex)%fmap_Some & Hv & Hs). destruct ((op_volume x =? v) && is_status Pending x) eqn:E; [|by subst o].
      subst o. cbn in Hs. by destruct Hs.
    + intros (Ho & Hv & Hs). rewrite Ho. cbn. split_and!; [|done|done].
      assert (is_status Pending o = false) as -> by (apply bool_decide_eq_false; destruct Hs as [->| ->]; done). by rewrite andb_false_r.
Qed.

Lemma next_group_fresh (j : JournalDb) : groups j !! next_group j = None.
Proof.
  destruct (groups j !! next_group j) as [g|] eqn:E; [|done]. exfalso. apply elem_of_map_to_list in E. revert E. unfold next_group.
  enough (forall l (x : Z * FlushGroup), x ∈ l -> x.1 <= foldr (fun x m => Z.max x.1 m) 0 l) as H by (intros Hin%H; cbn in Hin; lia).
  induction l as [|y l IH]; intros x Hx; cbn; [by apply elem_of_nil in Hx|]. apply elem_of_cons in Hx as [->|Hx]; [lia|]. specialize (IH x Hx). lia.
Qed.

(** A flush fence acknowledges exactly the committed operations of its
    volume that no earlier fence took: they become flushed under a new group,
    and every other operation stays as it is. *)
Theorem flush_fence_acknowledges (os : list JournalOp) (v now : Z) :
  let j := journal_run empty_journal os in
  let '(group, j') := flush_fence v now j in
  groups j !! group = None /\
  forall id o, operations j !! id = Some o ->
    operations j' !! id = Some (if (op_volume o =? v) && is_status Committed o && bool_decide (flush_group o = None)
                                then set_status Flushed (set_group group o) else o).
Proof.
  intros j. assert (journal_inv j) as Hj by (apply journal_run_ok, empty_journal_inv).
  unfold flush_fence, open_flush_group. cbv zeta. split; [apply next_group_fresh|]. intros id o Ho. cbn.
  rewrite !lookup_fmap, Ho. cbn. destruct ((op_volume o =? v) && is_status Committed o && bool_decide (flush_group o = None)) eqn:E.
  - apply andb_true_iff in E as [[_ Hs]%andb_true_iff _]. cbn. rewrite bool_decide_true by done. change (is_status Committed (set_group (next_group j) o)) with (is_status Committed o).
    by rewrite Hs.
  - rewrite bool_decide_false; [done|]. intros Hg. destruct (ji_group j Hj id o _ Ho Hg) as [x Hx]. rewrite next_group_fresh in Hx. done.
Qed.

(** ** The coordinator *)
Lemma kind_parse_as_str (k : OperationKind) : OperationKind_parse (OperationKind_as_str k) = Ok k.
Proof. by destruct k. Qed.
Lemma status_parse_as_str (s : OperationStatus) : OperationStatus_parse (OperationStatus_as_str s) = Ok s.
Proof. by destruct s. Qed.

Lemma insert_payloads_ids (id : Z) (fl : option Z) (ps : list OperationPayloadRecord) (j j' : JournalDb) (pid : Z) (p : OperationPayloadRecord) :
  insert_payloads id fl ps j = Ok j' -> payloads j' !! pid = Some p -> payloads j !! pid = Some p \/ pid ∈ map payload_id ps.
Proof.
  revert j. induction ps as [|q ps IH]; intros j; cbn [insert_payloads map]; [intros [= <-]; auto|].
  intros (j1 & H1 & H2)%bind_Ok_inv Hp. unfold insert_payload in H1. destruct (bool_decide _); [|done].
  apply bind_Ok_inv in H1 as (t & (_ & _ & ->)%ok_or_Ok_inv%insert_row_Some & [= <-]).
  destruct (IH _ H2 Hp) as [H|H]; [|right; by right]. cbn in H. apply lookup_insert_Some in H as [[<- _]|[_ H]]; [right; left|by left].
Qed.

Lemma mark_staged_ok (staged : list StagedPayload) (now : Z) (j j' : JournalDb) :
  mark_staged staged now j = (Ok (), j') ->
  operations j' = operations j /\ forall pid p', payloads j' !! pid = Some p' -> exists p, payloads j !! pid = Some p /\
    pl_operation_id p' = pl_operation_id p /\ (is_Some (pl_flushed_ns p) \/ pid ∈ map sp_payload_id staged -> is_Some (pl_flushed_ns p')).
Proof.
  revert j. induction staged as [|s staged IH]; intros j; cbn [mark_staged].
  { intros [= <-]. split; [done|]. intros pid p' Hp. exists p'. split_and!; [done..|]. intros [?|?%elem_of_nil]; done. }
  unfold mark_payload_flushed. destruct (payloads j !! sp_payload_id s) as [q|] eqn:Eq; [|done].
  destruct (pl_flushed_ns q) as [f|] eqn:Ef; intros H; destruct (IH _ H) as [Ho Hp]; (split; [done|]); intros pid p' Hp'.
  - destruct (Hp pid p' Hp') as (p & H1 & H2 & H3). exists p. split_and!; [done..|]. intros [?|[->|?]%elem_of_cons]; auto.
    apply H3. left. assert (p = q) as -> by congruence. rewrite Ef. by eexists.
  - destruct (Hp pid p' Hp') as (p & H1 & H2 & H3). cbn in H1. apply lookup_insert_Some in H1 as [[<- <-]|[Hne H1]].
    + exists q. split_and!; [done..|]. intros _. apply H3. left. by eexists.
    + exists p. split_and!; [done..|]. intros [?|[->|?]%elem_of_cons]; auto. done.
Qed.

(** An operation the coordinator began can be committed: its payloads are the
    staged ones, and all are marked. *)
Lemma begin_then_commit (id v now : Z) (k : OperationKind) (payload : list Z) (base : option Hash) (depends : option Z)
  (staged : list StagedPayload) (j j' : JournalDb) :
  journal_inv j -> LocalJournal_begin id v k payload base depends staged now j = (Ok id, j') ->
  exists j'', commit_operation_in id j' = Ok j''.
Proof.
  intros Hj. unfold LocalJournal_begin. destruct (allocate_device_seq_in v j) as [[seq j1]|] eqn:Ea; [|done].
  apply allocate_ok in Ea as (m & _ & _ & _ & ->). destruct (begin_operation_in _ _ _) as [j2|] eqn:Eb; [|done].
  destruct (mark_staged staged now j2) as [[[]|] j3] eqn:Em; intros [= <-]. apply mark_staged_ok in Em as [Eo Ep].
  pose proof Eb as Eb2. apply begin_adds in Eb2 as (_ & Hn & Hops & _). cbn in Hn, Hops.
  apply bind_Ok_inv in Eb as (_ & _ & Eb). apply bind_Ok_inv in Eb as (ja & (_ & -> & _)%insert_operation_ok & Eb).
  unfold commit_operation_in. assert (cnt (unflushed id) (map snd (map_to_list (payloads j3))) <= 0) as H0.
  { apply Z.nlt_ge. intros (x & Hx & Hu)%cnt_pos%existsb_exists. apply in_map_iff in Hx as ([pid p'] & <- & Hin%list_elem_of_In%elem_of_map_to_list).
    apply andb_true_iff in Hu as [Hid%Z.eqb_eq Hf%bool_decide_eq_true]. cbn in *. destruct (Ep pid p' Hin) as (p & Hp & Eid & Hfl).
    destruct (insert_payloads_ids _ _ _ _ _ pid p Eb Hp) as [Hold|Hnew]; cbn in *.
    - destruct (ji_owner j Hj pid p Hold) as [o Ho]. rewrite <-Eid, Hid in Ho. congruence.
    - rewrite map_map in Hnew. cbn in Hnew. destruct (Hfl (or_intror Hnew)) as [f Hf']. congruence. }
  rewrite (proj2 (Z.ltb_ge _ _)) by lia. unfold update_status_of. rewrite Eo, Hops, lookup_insert_eq. by eexists.
Qed.
