(* ===== verification/Physical.v ===== *)
(** * The physical allocation ledger

    [mirage-db/src/physical.rs] over the tables of [migrations/0013] and
    [0022]: the durable counterpart of the allocation index ([Allocator]).  A
    slot of an arena file is reserved with a deadline before its bytes are
    written, committed alive with their hash, pinned while in use and marked
    dead when nothing refers to it; a dead slot may be reserved again under a
    new extent id, or revived.

    Proved over every sequence of operations: no slot has two extents, an
    extent is reserved exactly while it has a reservation row, a pinned extent
    stays alive, and extents change along their lifecycle only. *)
From S2P Require Export Sql Allocator.

Record PhysicalReservationRecord : Set := mkReservation { rv_owner_epoch : Z; rv_created_ns : Z; rv_expires_ns : Z }.
Record PhysDb : Set := mkPhys {
  phys_files : gmap Z PhysicalFileRecord; phys_extents : gmap Z PhysicalExtentRecord; phys_reservations : gmap Z PhysicalReservationRecord
}.
Definition empty_phys : PhysDb := mkPhys ∅ ∅ ∅.
Definition set_phys_extents (t : gmap Z PhysicalExtentRecord) (d : PhysDb) : PhysDb := mkPhys (phys_files d) t (phys_reservations d).
Definition set_phys_reservations (t : gmap Z PhysicalReservationRecord) (d : PhysDb) : PhysDb := mkPhys (phys_files d) (phys_extents d) t.

Definition extent_check (_ : Z) (e : PhysicalExtentRecord) : bool :=
  (0 <=? pe_slot_index e) && (0 <? pe_length_bytes e) && (0 <=? pe_pin_count e) && (0 <=? pe_generation e).
(** [UNIQUE(file_id, slot_index)]. *)
Definition extent_clash (a b : PhysicalExtentRecord) : bool := (pe_file_id a =? pe_file_id b) && (pe_slot_index a =? pe_slot_index b).

(** Changes of the columns. *)
Definition set_extent_state (s : PhysicalExtentState) (now : Z) (e : PhysicalExtentRecord) : PhysicalExtentRecord :=
  mkExtentRecord (pe_extent_id e) (pe_file_id e) (pe_slot_index e) (pe_length_bytes e) s (pe_page_hash e) (pe_checksum e)
    (pe_pin_count e) (pe_generation e) now.
Definition set_extent_alive (hash checksum : Hash) (length now : Z) (e : PhysicalExtentRecord) : PhysicalExtentRecord :=
  mkExtentRecord (pe_extent_id e) (pe_file_id e) (pe_slot_index e) length Alive (Some hash) (Some checksum)
    (pe_pin_count e) (pe_generation e) now.
Definition set_extent_pin (n : Z) (e : PhysicalExtentRecord) : PhysicalExtentRecord :=
  mkExtentRecord (pe_extent_id e) (pe_file_id e) (pe_slot_index e) (pe_length_bytes e) (pe_state e) (pe_page_hash e) (pe_checksum e)
    n (pe_generation e) (pe_updated_ns e).
Definition extent_in (s : PhysicalExtentState) (e : PhysicalExtentRecord) : bool := bool_decide (pe_state e = s).
(** The row a reservation writes. *)
Definition reserved_extent (e : PhysicalExtentRecord) : PhysicalExtentRecord :=
  mkExtentRecord (pe_extent_id e) (pe_file_id e) (pe_slot_index e) (pe_length_bytes e) Reserved None None 0 (pe_generation e) (pe_updated_ns e).

(** ** Operations *)
(** [INSERT OR REPLACE]: the rows with the same id or path are replaced, which
    the extents that refer to them restrict. *)
Definition register_file (f : PhysicalFileRecord) (d : PhysDb) : result PhysDb :=
  let old := List.filter (fun x => (x.1 =? pf_file_id f) || bool_decide (pf_path x.2 = pf_path f)) (map_to_list (phys_files d)) in
  if negb ((0 <=? pf_extent_bytes f) && (0 <=? pf_extent_count f)) ||
     existsb (fun x => existsb (fun y => pe_file_id y.2 =? x.1) (map_to_list (phys_extents d))) old
  then Err (sqlite "physical file registration failed")
  else Ok (mkPhys (<[pf_file_id f := f]> (foldr (fun x t => delete x.1 t) (phys_files d) old)) (phys_extents d) (phys_reservations d)).

(** [INSERT INTO physical_extents]: the file must be registered. *)
Definition insert_extent (context : string) (e : PhysicalExtentRecord) (d : PhysDb) : result PhysDb :=
  if bool_decide (is_Some (phys_files d !! pe_file_id e)) then
    t ← ok_or (sqlite context) (insert_row extent_check extent_clash (pe_extent_id e) e (phys_extents d));
    Ok (set_phys_extents t d)
  else Err (sqlite context).
(** The extent of a slot. *)
Definition occupying (file slot : Z) (d : PhysDb) : option (Z * PhysicalExtentRecord) :=
  head (List.filter (fun x => (pe_file_id x.2 =? file) && (pe_slot_index x.2 =? slot)) (map_to_list (phys_extents d))).

(** The reuse of a dead slot changes the primary key of its row. *)
Definition reclaim_extent (old : Z) (e : PhysicalExtentRecord) (d : PhysDb) : result PhysDb :=
  if bool_decide (is_Some (phys_reservations d !! old)) && negb (old =? pe_extent_id e)
  then Err (sqlite "physical extent reclaim failed")
  else
    t ← ok_or (sqlite "physical extent reclaim failed")
      (insert_row extent_check extent_clash (pe_extent_id e) (reserved_extent e) (delete old (phys_extents d)));
    Ok (set_phys_extents t d).
Definition reserve_extent_in (e : PhysicalExtentRecord) (owner_epoch expires : Z) (d : PhysDb) : result PhysDb :=
  if negb (extent_in Reserved e) then Err (invalid_argument "a new physical extent must start reserved")
  else
    d ← match occupying (pe_file_id e) (pe_slot_index e) d with
        | None => insert_extent "physical extent insert failed" (reserved_extent e) d
        | Some (old, x) =>
            if extent_in Dead x then reclaim_extent old e d else Err (repository_conflict "physical slot is already occupied")
        end;
    if expires <=? pe_updated_ns e then Err (sqlite "physical reservation insert failed")
    else Ok (set_phys_reservations (<[pe_extent_id e := mkReservation owner_epoch (pe_updated_ns e) expires]> (phys_reservations d)) d).

(** [UPDATE physical_extents SET f WHERE extent_id = id AND p]. *)
Definition update_extent (context : string) (id : Z) (p : PhysicalExtentRecord -> bool) (f : PhysicalExtentRecord -> PhysicalExtentRecord) (d : PhysDb)
  : result (Z * PhysDb) :=
  '(n, t) ← ok_or (sqlite context) (update_row extent_check extent_clash id p f (phys_extents d)); Ok (n, set_phys_extents t d).
Definition drop_reservation (id : Z) (d : PhysDb) : PhysDb := set_phys_reservations (delete id (phys_reservations d)) d.

Definition commit_extent (id : Z) (hash checksum : Hash) (now : Z) (d : PhysDb) : result PhysDb :=
  '(changed, d) ← update_extent "physical extent commit failed" id (extent_in Reserved)
    (fun e => set_extent_alive hash checksum (pe_length_bytes e) now e) d;
  if negb (changed =? 1) then Err (repository_conflict "physical extent is not in a reservable state") else Ok (drop_reservation id d).
Definition release_extent (id now : Z) (d : PhysDb) : result PhysDb :=
  '(changed, d1) ← update_extent "physical extent release failed" id (fun e => extent_in Reserved e && (pe_pin_count e =? 0)) (set_extent_state Dead now) d;
  if negb (changed =? 1) then
    Err (repository_conflict match phys_extents d !! id with
                             | Some e => match pe_state e with
                                         | Alive => "committed extent cannot be released through the reservation path"
                                         | Reserved => "reserved extent is pinned"
                                         | Dead => "extent is already dead"
                                         | Evicting => "extent is not releasable"
                                         end
                             | None => "extent is missing"
                             end)
  else Ok (drop_reservation id d1).
Definition mark_extent_dead (id now : Z) (d : PhysDb) : result PhysDb :=
  '(changed, d) ← update_extent "physical extent eviction failed" id (fun e => extent_in Alive e && (pe_pin_count e =? 0)) (set_extent_state Dead now) d;
  if negb (changed =? 1) then Err (repository_conflict "physical extent is pinned or not alive") else Ok d.
Definition revive_extent (id file slot length : Z) (hash checksum : Hash) (now : Z) (d : PhysDb) : result PhysDb :=
  '(changed, d1) ← update_extent "physical extent revive failed" id (extent_in Dead) (set_extent_alive hash checksum length now) d;
  if changed =? 0 then
    match phys_extents d1 !! id with
    | Some e => if extent_in Alive e then Ok d1 else Err (repository_conflict "physical extent is not revivable")
    | None => insert_extent "physical extent reinsert failed"
                (mkExtentRecord id file slot length Alive (Some hash) (Some checksum) 0 0 now) d1
    end
  else Ok d1.
(** [pin_count + delta]: past the 64-bit range the sum is no integer. *)
Definition adjust_extent_pin (id delta : Z) (d : PhysDb) : result PhysDb :=
  match phys_extents d !! id with
  | Some e =>
      if extent_in Alive e && (0 <=? pe_pin_count e + delta) then
        if pe_pin_count e + delta <=? i64_max
        then Ok (set_phys_extents (<[id := set_extent_pin (pe_pin_count e + delta) e]> (phys_extents d)) d)
        else Err (sqlite "physical extent pin update failed")
      else Err (repository_conflict "physical extent pin cannot be applied")
  | None => Err (repository_conflict "physical extent pin cannot be applied")
  end.
Definition expired (now : Z) (d : PhysDb) : list Z :=
  map fst (List.filter (fun x => rv_expires_ns x.2 <=? now) (map_to_list (phys_reservations d))).
Fixpoint reap (now : Z) (ids : list Z) (d : PhysDb) : result PhysDb :=
  match ids with
  | [] => Ok d
  | id :: ids =>
      '(_, d) ← update_extent "expired reservation extent release failed" id (extent_in Reserved) (set_extent_state Dead now) d;
      reap now ids (drop_reservation id d)
  end.
Definition reap_expired_reservations (now : Z) (d : PhysDb) : result (Z * PhysDb) :=
  d' ← reap now (expired now d) d; Ok (Z.of_nat (length (expired now d)), d').
Definition load_physical_state (d : PhysDb) : list PhysicalFileRecord * list PhysicalExtentRecord * list (Z * PhysicalReservationRecord) :=
  (map snd (map_to_list (phys_files d)), map snd (map_to_list (phys_extents d)), map_to_list (phys_reservations d)).

(** ** Runs *)
Inductive PhysOp : Set :=
| PRegister (f : PhysicalFileRecord) | PReserve (e : PhysicalExtentRecord) (owner_epoch expires : Z)
| PCommit (id hash checksum now : Z) | PRelease (id now : Z) | PMarkDead (id now : Z)
| PRevive (id file slot length hash checksum now : Z) | PPin (id delta : Z) | PReap (now : Z).
Definition phys_op (o : PhysOp) (d : PhysDb) : result PhysDb :=
  match o with
  | PRegister f => register_file f d
  | PReserve e owner_epoch expires => reserve_extent_in e owner_epoch expires d
  | PCommit id hash checksum now => commit_extent id hash checksum now d
  | PRelease id now => release_extent id now d
  | PMarkDead id now => mark_extent_dead id now d
  | PRevive id file slot length hash checksum now => revive_extent id file slot length hash checksum now d
  | PPin id delta => adjust_extent_pin id delta d
  | PReap now => '(_, d) ← reap_expired_reservations now d; Ok d
  end.
Definition phys_step (d : PhysDb) (o : PhysOp) : PhysDb := match phys_op o d with Ok d' => d' | Err _ => d end.
Definition phys_run (d : PhysDb) (os : list PhysOp) : PhysDb := fold_left phys_step os d.

Definition t_file : PhysicalFileRecord := mkFileRecord 1 "journal" 1 0 0 0.
Definition t_extent (id slot : Z) : PhysicalExtentRecord := mkExtentRecord id 1 slot 10 Reserved None None 0 0 5.
Example reserve_commit_pin :
  let d := phys_run empty_phys [PRegister t_file; PReserve (t_extent 7 0) 1 100; PCommit 7 8 9 6; PPin 7 1] in
  mark_extent_dead 7 8 d = Err (repository_conflict "physical extent is pinned or not alive") /\
  reserve_extent_in (t_extent 11 0) 1 100 d = Err (repository_conflict "physical slot is already occupied") /\
  map fst (map_to_list (phys_extents (phys_run d [PPin 7 (-1); PMarkDead 7 9; PReserve (t_extent 11 0) 1 100]))) = [11].
Proof. vm_compute. split_and!; reflexivity. Qed.

(** ** The invariant *)
Record phys_inv (d : PhysDb) : Prop := {
  pi_ids : forall id e, phys_extents d !! id = Some e -> pe_extent_id e = id;
  pi_slots : consistent extent_check extent_clash (phys_extents d);
  pi_file : forall id e, phys_extents d !! id = Some e -> is_Some (phys_files d !! pe_file_id e);
  pi_reserved : forall id, is_Some (phys_reservations d !! id) <-> exists e, phys_extents d !! id = Some e /\ pe_state e = Reserved;
  pi_pins : forall id e, phys_extents d !! id = Some e -> pe_state e <> Alive -> pe_pin_count e = 0
}.

(** How an operation may change an extent that keeps its id. *)
Inductive phys_edge : PhysicalExtentRecord -> PhysicalExtentRecord -> Prop :=
| pe_commits e h c n : pe_state e = Reserved -> phys_edge e (set_extent_alive h c (pe_length_bytes e) n e)
| pe_releases e n : pe_state e = Reserved -> phys_edge e (set_extent_state Dead n e)
| pe_dies e n : pe_state e = Alive -> pe_pin_count e = 0 -> phys_edge e (set_extent_state Dead n e)
| pe_revives e h c l n : pe_state e = Dead -> phys_edge e (set_extent_alive h c l n e)
| pe_pinned e n : pe_state e = Alive -> 0 <= n -> phys_edge e (set_extent_pin n e)
| pe_again e e' : pe_state e = Dead -> pe_file_id e' = pe_file_id e -> pe_slot_index e' = pe_slot_index e -> phys_edge e (reserved_extent e').

(** Every extent stays, moves along an edge, or was dead and gave its slot away. *)
Definition phys_moves (d d' : PhysDb) : Prop :=
  forall id e, phys_extents d !! id = Some e ->
    (exists e', phys_extents d' !! id = Some e' /\ (e' = e \/ phys_edge e e')) \/
    (pe_state e = Dead /\ phys_extents d' !! id = None).

Lemma extent_in_true (s : PhysicalExtentState) (e : PhysicalExtentRecord) : extent_in s e = true <-> pe_state e = s.
Proof. apply bool_decide_eq_true. Qed.
Lemma extent_clash_sym (a b : PhysicalExtentRecord) : extent_clash a b = extent_clash b a.
Proof. unfold extent_clash. by rewrite (Z.eqb_sym (pe_file_id a)), (Z.eqb_sym (pe_slot_index a)). Qed.
Lemma phys_moves_refl (d : PhysDb) : phys_moves d d.
Proof. intros id e He. left. eauto. Qed.
Lemma empty_phys_inv : phys_inv empty_phys.
Proof.
  split; unfold empty_phys; cbn [phys_files phys_extents phys_reservations];
    [intros ? ? H|apply consistent_empty|intros ? ? H|intros ?; split; [intros [? H]|intros (? & H & _)]|intros ? ? H]; by apply lookup_empty_Some in H.
Qed.

Lemma update_extent_Ok (context : string) (id : Z) (p : PhysicalExtentRecord -> bool) (f : PhysicalExtentRecord -> PhysicalExtentRecord) (d d' : PhysDb) (n : Z) :
  update_extent context id p f d = Ok (n, d') ->
  (n = 0 /\ d' = d /\ forall e, phys_extents d !! id = Some e -> p e = false) \/
  (n = 1 /\ exists e, phys_extents d !! id = Some e /\ p e = true /\
     fits_at extent_check extent_clash id (f e) (phys_extents d) = true /\ d' = set_phys_extents (<[id := f e]> (phys_extents d)) d).
Proof.
  unfold update_extent. intros ([m t] & Hu%ok_or_Ok_inv & [= <- <-])%bind_Ok_inv.
  apply update_row_Some in Hu as [(-> & e & He & Hp & Hf & ->)|(-> & -> & Hn)]; [right; eauto 8|left; by destruct d].
Qed.

(** An extent is rewritten in place, with the reservations to match. *)
Lemma put_extent_inv (d : PhysDb) (id : Z) (e e' : PhysicalExtentRecord) (rv : gmap Z PhysicalReservationRecord) :
  phys_inv d -> phys_extents d !! id = Some e -> pe_extent_id e' = pe_extent_id e -> pe_file_id e' = pe_file_id e ->
  (pe_state e' <> Alive -> pe_pin_count e' = 0) -> fits_at extent_check extent_clash id e' (phys_extents d) = true ->
  (forall k, is_Some (rv !! k) <-> if decide (k = id) then pe_state e' = Reserved else is_Some (phys_reservations d !! k)) ->
  phys_inv (mkPhys (phys_files d) (<[id := e']> (phys_extents d)) rv).
Proof.
  intros [Hid Hs Hf Hr Hp] He Hid' Hfile Hpin Hfit Hrv. split; cbn.
  - intros k x [[<- <-]|[_ Hx]]%lookup_insert_Some; [rewrite Hid'; by apply Hid|by apply Hid].
  - by apply consistent_put; [exact extent_clash_sym|..].
  - intros k x [[<- <-]|[_ Hx]]%lookup_insert_Some; [rewrite Hfile; by apply (Hf id)|by apply (Hf k)].
  - intros k. rewrite Hrv. case_decide as Hk; [subst k|].
    + rewrite lookup_insert_eq. split; [by eauto|by intros (x & [= <-] & ?)].
    + rewrite lookup_insert_ne by done. apply Hr.
  - intros k x [[<- <-]|[_ Hx]]%lookup_insert_Some; [done|by apply (Hp k)].
Qed.
Lemma put_extent_moves (d : PhysDb) (id : Z) (e e' : PhysicalExtentRecord) (fs : gmap Z PhysicalFileRecord) (rv : gmap Z PhysicalReservationRecord) :
  phys_extents d !! id = Some e -> phys_edge e e' -> phys_moves d (mkPhys fs (<[id := e']> (phys_extents d)) rv).
Proof.
  intros He Hedge k x Hx. left. cbn. destruct (decide (id = k)) as [<-|Hne].
  - exists e'. rewrite lookup_insert_eq. assert (x = e) as -> by congruence. auto.
  - exists x. rewrite lookup_insert_ne by done. auto.
Qed.

(** The reservations after dropping the one of an extent that is no longer reserved. *)
Lemma drop_rv (d : PhysDb) (id : Z) (e' : PhysicalExtentRecord) (k : Z) : pe_state e' <> Reserved ->
  is_Some (delete id (phys_reservations d) !! k) <-> if decide (k = id) then pe_state e' = Reserved else is_Some (phys_reservations d !! k).
Proof.
  intros Hs. case_decide as Hk; [subst k; rewrite lookup_delete_eq|by rewrite lookup_delete_ne].
  split; [by intros [? ?]|done].
Qed.
(** The reservations of an extent that was not reserved and is not. *)
Lemma keep_rv (d : PhysDb) (id : Z) (e e' : PhysicalExtentRecord) (k : Z) :
  phys_inv d -> phys_extents d !! id = Some e -> pe_state e <> Reserved -> pe_state e' <> Reserved ->
  is_Some (phys_reservations d !! k) <-> if decide (k = id) then pe_state e' = Reserved else is_Some (phys_reservations d !! k).
Proof.
  intros Hd He Hs Hs'. case_decide as Hk; [subst k|done]. rewrite (pi_reserved d Hd id). split; [|done].
  intros (x & Hx & Hr). congruence.
Qed.

Lemma commit_extent_ok (id : Z) (hash checksum : Hash) (now : Z) (d d' : PhysDb) :
  phys_inv d -> commit_extent id hash checksum now d = Ok d' -> phys_inv d' /\ phys_moves d d' /\
  exists e, phys_extents d !! id = Some e /\ pe_state e = Reserved /\
    d' = mkPhys (phys_files d) (<[id := set_extent_alive hash checksum (pe_length_bytes e) now e]> (phys_extents d)) (delete id (phys_reservations d)).
Proof.
  intros Hd ([n d1] & Hu & H)%bind_Ok_inv. destruct (negb (n =? 1)) eqn:En; [done|]. injection H as <-.
  apply update_extent_Ok in Hu as [(-> & _)|(_ & e & He & Hs%extent_in_true & Hf & ->)]; [done|].
  split_and!; [|by apply (put_extent_moves d id e), pe_commits|by exists e].
  apply (put_extent_inv d id e); [done|done|done|done| |done|intros k; by refine (drop_rv d id _ k _)].
  intros H. by destruct H.
Qed.
Lemma release_extent_ok (id now : Z) (d d' : PhysDb) :
  phys_inv d -> release_extent id now d = Ok d' -> phys_inv d' /\ phys_moves d d'.
Proof.
  intros Hd ([n d1] & Hu & H)%bind_Ok_inv. destruct (negb (n =? 1)) eqn:En; [done|]. injection H as <-.
  apply update_extent_Ok in Hu as [(-> & _)|(_ & e & He & [Hs%extent_in_true Hp%Z.eqb_eq]%andb_true_iff & Hf & ->)]; [done|].
  split; [|by apply (put_extent_moves d id e), pe_releases].
  apply (put_extent_inv d id e); [done|done|done|done|done|done|intros k; by refine (drop_rv d id _ k _)].
Qed.
Lemma mark_extent_dead_ok (id now : Z) (d d' : PhysDb) :
  phys_inv d -> mark_extent_dead id now d = Ok d' -> phys_inv d' /\ phys_moves d d'.
Proof.
  intros Hd ([n d1] & Hu & H)%bind_Ok_inv. destruct (negb (n =? 1)) eqn:En; [done|]. injection H as <-.
  apply update_extent_Ok in Hu as [(-> & _)|(_ & e & He & [Hs%extent_in_true Hp%Z.eqb_eq]%andb_true_iff & Hf & ->)]; [done|].
  split; [|by apply (put_extent_moves d id e), pe_dies].
  apply (put_extent_inv d id e); [done|done|done|done|done|done|intros k; apply (keep_rv d id e); [done|done|by rewrite Hs|done]].
Qed.
Lemma adjust_extent_pin_ok (id delta : Z) (d d' : PhysDb) :
  phys_inv d -> adjust_extent_pin id delta d = Ok d' -> phys_inv d' /\ phys_moves d d'.
Proof.
  intros Hd. unfold adjust_extent_pin. destruct (phys_extents d !! id) as [e|] eqn:He; [|done].
  destruct (extent_in Alive e && _) eqn:Ep; [|done]. destruct (_ <=? i64_max); [|done]. intros [= <-].
  apply andb_true_iff in Ep as [Hs%extent_in_true Hp%Z.leb_le].
  split; [|by apply (put_extent_moves d id e), pe_pinned].
  apply (put_extent_inv d id e); [done|done|done|done|done| |intros k; apply (keep_rv d id e); [done|done|by rewrite Hs|cbn; by rewrite Hs]].
  apply fits_at_iff. destruct (pi_slots d Hd) as [Hc Hu]. split.
  - pose proof (Hc id e He) as Hce. unfold extent_check in *. cbn in *. zbool. rewrite !andb_true_iff. split_and!; [by apply Z.leb_le|by apply Z.ltb_lt|by apply Z.leb_le|by apply Z.leb_le].
  - intros k x Hx Hne. exact (Hu id k e x He Hx Hne).
Qed.

(** A new extent beside the others. *)
Lemma new_extent_inv (d : PhysDb) (e : PhysicalExtentRecord) (rv : gmap Z PhysicalReservationRecord) :
  phys_inv d -> phys_extents d !! pe_extent_id e = None -> is_Some (phys_files d !! pe_file_id e) ->
  (pe_state e <> Alive -> pe_pin_count e = 0) -> fits_at extent_check extent_clash (pe_extent_id e) e (phys_extents d) = true ->
  (forall k, is_Some (rv !! k) <-> if decide (k = pe_extent_id e) then pe_state e = Reserved else is_Some (phys_reservations d !! k)) ->
  phys_inv (mkPhys (phys_files d) (<[pe_extent_id e := e]> (phys_extents d)) rv) /\
  phys_moves d (mkPhys (phys_files d) (<[pe_extent_id e := e]> (phys_extents d)) rv).
Proof.
  intros [Hid Hs Hf Hr Hp] Hnone Hfile Hpin Hfit Hrv. split; [split; cbn|].
  - intros k x [[<- <-]|[_ Hx]]%lookup_insert_Some; [done|by apply Hid].
  - by apply consistent_put; [exact extent_clash_sym|..].
  - intros k x [[<- <-]|[_ Hx]]%lookup_insert_Some; [done|by apply (Hf k)].
  - intros k. rewrite Hrv. case_decide as Hk; [subst k|].
    + rewrite lookup_insert_eq. split; [by eauto|by intros (x & [= <-] & ?)].
    + rewrite lookup_insert_ne by done. apply Hr.
  - intros k x [[<- <-]|[_ Hx]]%lookup_insert_Some; [done|by apply (Hp k)].
  - intros k x Hx. left. exists x. cbn. rewrite lookup_insert_ne by congruence. auto.
Qed.
Lemma insert_extent_Ok (context : string) (e : PhysicalExtentRecord) (d d' : PhysDb) : insert_extent context e d = Ok d' ->
  is_Some (phys_files d !! pe_file_id e) /\ phys_extents d !! pe_extent_id e = None /\
  fits_at extent_check extent_clash (pe_extent_id e) e (phys_extents d) = true /\ d' = set_phys_extents (<[pe_extent_id e := e]> (phys_extents d)) d.
Proof.
  unfold insert_extent. destruct (bool_decide _) eqn:Eb; [|done]. apply bool_decide_eq_true in Eb.
  by intros (t & (Hn & Hf & ->)%ok_or_Ok_inv%insert_row_Some & [= <-])%bind_Ok_inv.
Qed.

Lemma revive_extent_ok (id file slot length : Z) (hash checksum : Hash) (now : Z) (d d' : PhysDb) :
  phys_inv d -> revive_extent id file slot length hash checksum now d = Ok d' -> phys_inv d' /\ phys_moves d d'.
Proof.
  intros Hd ([n d1] & Hu & H)%bind_Ok_inv.
  apply update_extent_Ok in Hu as [(-> & -> & Hn)|(-> & e & He & Hs%extent_in_true & Hf & ->)]; cbn [Z.eqb] in H.
  - destruct (phys_extents d !! id) as [e|] eqn:He.
    + destruct (extent_in Alive e); [|done]. injection H as <-. split; [done|apply phys_moves_refl].
    + apply insert_extent_Ok in H as (Hfile & Hnone & Hfit & ->).
      apply (new_extent_inv d (mkExtentRecord id file slot length Alive (Some hash) (Some checksum) 0 0 now)); try done.
      intros k. cbn. case_decide as Hk; [subst k|done]. rewrite (pi_reserved d Hd id). split; [|done]. intros (x & Hx & _). congruence.
  - injection H as <-. split; [|by apply (put_extent_moves d id e), pe_revives].
    apply (put_extent_inv d id e); [done|done|done|done|intros H; by destruct H|done|].
    intros k. apply (keep_rv d id e); [done|done|by rewrite Hs|done].
Qed.

Lemma occupying_Some (file slot : Z) (d : PhysDb) (id : Z) (e : PhysicalExtentRecord) :
  occupying file slot d = Some (id, e) -> phys_extents d !! id = Some e /\ pe_file_id e = file /\ pe_slot_index e = slot.
Proof.
  unfold occupying. intros H%head_Some_elem_of%list_elem_of_In. apply filter_In in H as [Hin [Hf%Z.eqb_eq Hs%Z.eqb_eq]%andb_true_iff].
  by apply list_elem_of_In, elem_of_map_to_list in Hin.
Qed.

Lemma add_rv (rs : gmap Z PhysicalReservationRecord) (r : PhysicalReservationRecord) (id k : Z) (P : Prop) : P ->
  is_Some (<[id := r]> rs !! k) <-> if decide (k = id) then P else is_Some (rs !! k).
Proof.
  intros HP. case_decide as Hk; [subst k; rewrite lookup_insert_eq; split; [done|by eexists]|by rewrite lookup_insert_ne].
Qed.

(** The table without a dead extent. *)
Lemma drop_dead_inv (d : PhysDb) (id : Z) (e : PhysicalExtentRecord) :
  phys_inv d -> phys_extents d !! id = Some e -> pe_state e = Dead -> phys_inv (set_phys_extents (delete id (phys_extents d)) d).
Proof.
  intros [Hid [Hc Hu] Hf Hr Hp] He Hs. split; cbn.
  - intros k x [_ Hx]%lookup_delete_Some. by apply Hid.
  - split; [intros k x [_ Hx]%lookup_delete_Some; by apply (Hc k)|].
    intros k1 k2 r1 r2 [_ H1]%lookup_delete_Some [_ H2]%lookup_delete_Some. by apply Hu.
  - intros k x [_ Hx]%lookup_delete_Some. by apply (Hf k).
  - intros k. rewrite Hr. split; intros (x & Hx & Hxs); exists x; (split; [|done]).
    + apply lookup_delete_Some. split; [|done]. intros ->. congruence.
    + by apply lookup_delete_Some in Hx as [_ Hx].
  - intros k x [_ Hx]%lookup_delete_Some. by apply (Hp k).
Qed.

Lemma reserve_extent_ok (e : PhysicalExtentRecord) (owner expires : Z) (d d' : PhysDb) :
  phys_inv d -> reserve_extent_in e owner expires d = Ok d' -> phys_inv d' /\ phys_moves d d'.
Proof.
  intros Hd. unfold reserve_extent_in. destruct (negb (extent_in Reserved e)); [done|].
  intros (d1 & H1 & H)%bind_Ok_inv. destruct (expires <=? pe_updated_ns e); [done|]. injection H as <-.
  destruct (occupying _ _ d) as [[old x]|] eqn:Eo.
  - apply occupying_Some in Eo as (Hx & Hxf & Hxs). destruct (extent_in Dead x) eqn:Ed; [|done]. apply extent_in_true in Ed.
    unfold reclaim_extent in H1. destruct (bool_decide _ && _); [done|].
    apply bind_Ok_inv in H1 as (t & (Hn & Hfit & ->)%ok_or_Ok_inv%insert_row_Some & [= <-]).
    pose proof (drop_dead_inv d old x Hd Hx Ed) as Hd0.
    destruct (new_extent_inv _ (reserved_extent e) (<[pe_extent_id e := mkReservation owner (pe_updated_ns e) expires]> (phys_reservations d)) Hd0) as [Hinv _];
      [done|cbn; rewrite <-Hxf; by apply (pi_file d Hd old)|done|done|intros k; by apply add_rv|].
    split; [exact Hinv|]. intros k y Hy. cbn. destruct (decide (pe_extent_id e = k)) as [<-|Hne].
    + left. eexists. rewrite lookup_insert_eq. split; [done|]. right. cbn in Hn. apply lookup_delete_None in Hn as [Eold|Hn]; [|congruence]. rewrite <-Eold in Hy.
      assert (y = x) as -> by congruence. by apply pe_again.
    + rewrite lookup_insert_ne by done. destruct (decide (old = k)) as [<-|Hne2].
      * right. rewrite lookup_delete_eq. split; [congruence|done].
      * left. exists y. rewrite lookup_delete_ne by done. auto.
  - apply insert_extent_Ok in H1 as (Hfile & Hnone & Hfit & ->).
    by apply (new_extent_inv d (reserved_extent e)); try done; intros k; apply add_rv.
Qed.

Lemma register_file_ok (f : PhysicalFileRecord) (d d' : PhysDb) : phys_inv d -> register_file f d = Ok d' -> phys_inv d' /\ phys_moves d d'.
Proof.
  intros [Hid Hs Hf Hr Hp]. unfold register_file. destruct (negb _ || existsb _ _) eqn:E; [done|]. intros [= <-].
  apply orb_false_iff in E as [_ E]. split; [split; cbn; try done|intros k x Hx; left; eauto].
  intros id e He. apply lookup_insert_is_Some'. right. apply not_true_iff_false in E.
  match goal with |- context [foldr _ _ ?l] => set (old := l) in * end.
  enough (forall l : list (Z * PhysicalFileRecord), (forall x, x ∈ l -> x.1 <> pe_file_id e) ->
    is_Some (foldr (fun x t => delete x.1 t) (phys_files d) l !! pe_file_id e)) as H.
  { apply H. intros x Hx%list_elem_of_In Heq. apply E, existsb_exists. exists x. split; [done|]. apply existsb_exists. exists (id, e).
    split; [by apply list_elem_of_In, elem_of_map_to_list|]. cbn. by apply Z.eqb_eq. }
  induction l as [|y l IH]; intros Hl; cbn; [by apply (Hf id)|]. rewrite lookup_delete_ne by (apply Hl; left). apply IH. intros x Hx. apply Hl. by right.
Qed.

(** Reaping lets reserved extents die; no extent takes two such steps. *)
Lemma reap_ok (now : Z) (ids : list Z) (d d' : PhysDb) : phys_inv d -> reap now ids d = Ok d' ->
  phys_inv d' /\ forall id e, phys_extents d !! id = Some e ->
    exists e', phys_extents d' !! id = Some e' /\ (e' = e \/ (pe_state e = Reserved /\ e' = set_extent_state Dead now e)).
Proof.
  revert d. induction ids as [|i ids IH]; intros d Hd; cbn [reap]; [intros [= <-]; eauto|].
  intros ([n d1] & Hu & H)%bind_Ok_inv. apply update_extent_Ok in Hu as [(-> & -> & Hn)|(-> & e & He & Hs%extent_in_true & Hf & ->)].
  - assert (phys_inv (drop_reservation i d)) as Hd2.
    { destruct Hd as [Hid Hsl Hfi Hr Hp]. split; try done. cbn. intros k. rewrite <-Hr. destruct (decide (i = k)) as [<-|Hne]; [|by rewrite lookup_delete_ne].
      rewrite lookup_delete_eq, Hr. split; [by intros [? ?]|]. intros (e & He & Hs). apply extent_in_true in Hs. by rewrite (Hn e He) in Hs. }
    exact (IH _ Hd2 H).
  - assert (phys_inv (drop_reservation i (set_phys_extents (<[i := set_extent_state Dead now e]> (phys_extents d)) d))) as Hd2.
    { apply (put_extent_inv d i e); [done|done|done|done| |done|intros k; by refine (drop_rv d i _ k _)].
      intros _. cbn. apply (pi_pins d Hd i e He). by rewrite Hs. }
    destruct (IH _ Hd2 H) as [Hd' Hm]. split; [done|]. intros id x Hx. cbn in Hm. destruct (decide (i = id)) as [<-|Hne].
    + assert (x = e) as -> by congruence. destruct (Hm i (set_extent_state Dead now e)) as (e' & He' & [->|[Hs' _]]); [by rewrite lookup_insert_eq| |done].
      eauto.
    + apply Hm. by rewrite lookup_insert_ne.
Qed.

Lemma phys_op_ok (o : PhysOp) (d d' : PhysDb) : phys_inv d -> phys_op o d = Ok d' -> phys_inv d' /\ phys_moves d d'.
Proof.
  intros Hd. destruct o; cbn [phys_op].
  - by apply register_file_ok.
  - by apply reserve_extent_ok.
  - intros H. by apply commit_extent_ok in H as (? & ? & _).
  - by apply release_extent_ok.
  - by apply mark_extent_dead_ok.
  - by apply revive_extent_ok.
  - by apply adjust_extent_pin_ok.
  - intros ([n d1] & H & [= <-])%bind_Ok_inv. apply bind_Ok_inv in H as (d2 & H & [= _ <-]). apply reap_ok in H as [? Hm]; [|done].
    split; [done|]. intros id e He. left. destruct (Hm id e He) as (e' & He' & [->|[Hs ->]]); eauto using pe_releases.
Qed.
Lemma phys_run_ok (os : list PhysOp) (d : PhysDb) : phys_inv d -> phys_inv (phys_run d os).
Proof.
  revert d. induction os as [|o os IH]; intros d Hd; [done|]. cbn. apply IH. unfold phys_step.
  destruct (phys_op o d) eqn:E; [by eapply phys_op_ok|done].
Qed.

(** Over every sequence of ledger operations, failed ones included: no
    slot of a file has two extents, an extent is reserved exactly while its
    reservation row exists, and pins are held by alive extents only; a
    further operation keeps every extent, moves it along one edge of its
    lifecycle or gives the slot of a dead one away, so an extent that is
    pinned stays alive. *)
Theorem physical_ledger_lifecycle (os : list PhysOp) (o : PhysOp) :
  let d := phys_run empty_phys os in let d' := phys_step d o in
  (forall id1 id2 e1 e2, phys_extents d !! id1 = Some e1 -> phys_extents d !! id2 = Some e2 ->
     pe_file_id e1 = pe_file_id e2 -> pe_slot_index e1 = pe_slot_index e2 -> id1 = id2) /\
  (forall id, is_Some (phys_reservations d !! id) <-> exists e, phys_extents d !! id = Some e /\ pe_state e = Reserved) /\
  phys_moves d d' /\
  (forall id e, phys_extents d !! id = Some e -> 0 < pe_pin_count e -> exists e', phys_extents d' !! id = Some e' /\ pe_state e' = Alive).
Proof.
  intros d d'. assert (phys_inv d) as Hd by (apply phys_run_ok, empty_phys_inv).
  assert (phys_moves d d') as Hm. { unfold d', phys_step. destruct (phys_op o d) eqn:E; [by eapply phys_op_ok|apply phys_moves_refl]. }
  split_and!; [|apply Hd|done|].
  - intros id1 id2 e1 e2 H1 H2 Hf Hs. destruct (decide (id1 = id2)) as [|Hne]; [done|].
    pose proof (proj2 (pi_slots d Hd) id1 id2 e1 e2 H1 H2 Hne) as Hc. unfold extent_clash in Hc. by rewrite Hf, Hs, !Z.eqb_refl in Hc.
  - intros id e He Hpin. destruct (decide (pe_state e = Alive)) as [Ha|Hn]; [|pose proof (pi_pins d Hd id e He Hn); lia].
    destruct (Hm id e He) as [(e' & He' & [->|Hedge])|[Hdead _]]; [by eauto| |congruence].
    exists e'. split; [done|]. inversion Hedge; subst; cbn; try congruence. lia.
Qed.
