(* ===== verification/ExtentStore.v ===== *)
(** * The durable extent store

    [mirage-db/src/extent.rs] over the tables of [migrations/0015] and
    [0020]: the versioned extent rows of each file, the head that names the
    newest version with its logical EOF, and the compaction that drops
    superseded versions and lets payloads die that nothing refers to (the
    physical ledger of [Physical] records them).

    A stored offset is the 64-bit cast of the value; the checks refuse one
    that came out negative.  Proved: compaction and the release of a deleted
    file keep every current extent row and every payload one refers to, and
    an older version never replaces a head. *)
From S2P Require Export Physical ExtentMap.

Record HeadRow : Set := mkHead { hd_version : Z; hd_eof : Z; hd_updated_ns : Z }.
Record StoreDb : Set := mkStore { rows : gmap Z ByteExtent; heads : gmap (Z * Z) HeadRow; phys : PhysDb }.
Definition empty_store : StoreDb := mkStore ∅ ∅ empty_phys.
Definition set_rows (t : gmap Z ByteExtent) (s : StoreDb) : StoreDb := mkStore t (heads s) (phys s).
Definition set_heads (t : gmap (Z * Z) HeadRow) (s : StoreDb) : StoreDb := mkStore (rows s) t (phys s).
Definition set_phys (d : PhysDb) (s : StoreDb) : StoreDb := mkStore (rows s) (heads s) d.


(** ** Rows *)
Definition of_inode (volume inode : Z) (e : ByteExtent) : bool := (be_volume_id e =? volume) && (be_inode e =? inode).
Definition at_version (volume inode v : Z) (e : ByteExtent) : bool := of_inode volume inode e && (be_version e =? v).
Definition delete_rows (p : ByteExtent -> bool) (s : StoreDb) : StoreDb := set_rows (filter (fun x => p x.2 = false) (rows s)) s.

Definition opt_nonneg (o : option Z) : bool := match o with Some x => 0 <=? x | None => true end.
Definition row_check (_ : Z) (e : ByteExtent) : bool :=
  (0 <=? be_version e) && (0 <=? be_start e) && (0 <? be_length e) && opt_nonneg (be_base_offset e) && opt_nonneg (be_payload_offset e) &&
  match be_kind e, be_page_hash e, be_base_offset e, be_payload_id e with
  | KBase, Some _, Some _, None | KDirty, None, None, Some _ | KZero, None, None, None => true
  | _, _, _, _ => false
  end.
(** The row of an [INSERT INTO byte_extents]. *)
Definition stored_row (volume inode v now : Z) (e : ByteExtent) : ByteExtent :=
  mkByteExtent (be_extent_id e) volume inode v (as_i64 (be_start e)) (as_i64 (be_length e)) (be_kind e) (be_page_hash e)
    (as_i64 <$> be_base_offset e) (be_payload_id e) (as_i64 <$> be_payload_offset e) now.
Definition insert_byte_extent (volume inode v now : Z) (e : ByteExtent) (s : StoreDb) : result StoreDb :=
  t ← ok_or (sqlite "extent insert failed")
    (insert_row row_check (fun _ _ => false) (be_extent_id e) (stored_row volume inode v now e) (rows s));
  Ok (set_rows t s).
(** [INSERT .. ON CONFLICT DO UPDATE .. WHERE excluded.version > version]. *)
Definition write_head (volume inode v eof now : Z) (s : StoreDb) : result StoreDb :=
  if (v <? 0) || (as_i64 eof <? 0) then Err (sqlite "extent head write failed")
  else match heads s !! (volume, inode) with
       | Some h => if hd_version h <? v then Ok (set_heads (<[(volume, inode) := mkHead v (as_i64 eof) now]> (heads s)) s) else Ok s
       | None => Ok (set_heads (<[(volume, inode) := mkHead v (as_i64 eof) now]> (heads s)) s)
       end.

(** One round of the loop of [replace_extents_with_eof]; [previous] is the
    end of the row before, if any. *)
Definition check_extent (volume inode : Z) (e : ByteExtent) : result () :=
  _ ← ByteExtent_validate e;
  if negb (of_inode volume inode e) then Err (invalid_argument "extent does not belong to the target inode") else Ok ().
Definition check_overlap (previous : option Z) (e : ByteExtent) : result () :=
  if match previous with Some p => be_start e <? p | None => false end
  then Err (integrity_mismatch "extents overlap within a version") else Ok ().
Fixpoint replace_loop (volume inode v eof now : Z) (previous : option Z) (es : list ByteExtent) (s : StoreDb) : result StoreDb :=
  match es with
  | [] => Ok s
  | e :: es =>
      _ ← check_extent volume inode e;
      if eof <? saturating_add (be_start e) (be_length e) then Err (invalid_argument "extent set extends past the declared EOF")
      else
        _ ← check_overlap previous e;
        s ← insert_byte_extent volume inode v now e s;
        replace_loop volume inode v eof now (Some (saturating_add (be_start e) (be_length e))) es s
  end.
Definition replace_extents_with_eof (volume inode v eof : Z) (es : list ByteExtent) (now : Z) (s : StoreDb) : result StoreDb :=
  s ← replace_loop volume inode v eof now None es (delete_rows (at_version volume inode v) s);
  write_head volume inode v eof now s.
Definition replace_extents (volume inode v : Z) (es : list ByteExtent) (now : Z) (s : StoreDb) : result StoreDb :=
  replace_extents_with_eof volume inode v (foldr Z.max 0 (map (fun e => saturating_add (be_start e) (be_length e)) es)) es now s.

(** ** Queries *)
Definition extent_head (volume inode : Z) (s : StoreDb) : option (Z * Z) :=
  h ← heads s !! (volume, inode); Some (hd_version h, hd_eof h).
Definition extents_at (volume inode v : Z) (s : StoreDb) : list ByteExtent :=
  sort_by_key be_start (List.filter (at_version volume inode v) (map snd (map_to_list (rows s)))).
(** [MAX(version)] over the head and the rows. *)
Definition latest_version (volume inode : Z) (s : StoreDb) : option Z :=
  match match heads s !! (volume, inode) with Some h => [hd_version h] | None => [] end ++
        map be_version (List.filter (of_inode volume inode) (map snd (map_to_list (rows s)))) with
  | [] => None
  | v :: l => Some (foldr Z.max v l)
  end.
Definition extents_before (volume inode min_version : Z) (s : StoreDb) : list Z :=
  map be_extent_id (List.filter (fun e => of_inode volume inode e && (be_version e <? min_version)) (map snd (map_to_list (rows s)))).
Definition referenced (s : StoreDb) (payload : Z) : bool :=
  existsb (fun e => bool_decide (be_payload_id e = Some payload)) (map snd (map_to_list (rows s))).
Definition referenced_payload_ids (volume : Z) (s : StoreDb) : gset Z :=
  list_to_set (omap be_payload_id (List.filter (fun e => be_volume_id e =? volume) (map snd (map_to_list (rows s))))).

(** ** Compaction *)
Definition superseded (volume : Z) (s : StoreDb) (e : ByteExtent) : bool :=
  (be_volume_id e =? volume) && match heads s !! (volume, be_inode e) with Some h => be_version e <? hd_version h | None => false end.
(** The extents of the journal file that are alive, with their lengths. *)
Definition alive_extents (file : Z) (s : StoreDb) : list (Z * Z) :=
  map (fun x => (x.1, pe_length_bytes x.2)) (List.filter (fun x => (pe_file_id x.2 =? file) && extent_in Alive x.2) (map_to_list (phys_extents (phys s)))).
Definition unpinned_alive (e : PhysicalExtentRecord) : bool := extent_in Alive e && (pe_pin_count e =? 0).
Fixpoint mark_unreferenced (now : Z) (l : list (Z * Z)) (s : StoreDb) : result (list (Z * Z) * StoreDb) :=
  match l with
  | [] => Ok ([], s)
  | (id, len) :: l =>
      if referenced s id then mark_unreferenced now l s
      else
        '(changed, d) ← update_extent "journal extent dead mark failed" id unpinned_alive (set_extent_state Dead now) (phys s);
        '(dead, s') ← mark_unreferenced now l (set_phys d s);
        Ok ((if changed =? 1 then [(id, len)] else []) ++ dead, s')
  end.
Definition compact_volume (volume journal_file now : Z) (s : StoreDb) : result (list (Z * Z) * StoreDb) :=
  let s := delete_rows (superseded volume s) s in
  mark_unreferenced now (alive_extents journal_file s) s.

Definition inode_payloads (volume inode : Z) (s : StoreDb) : list Z :=
  sort_by_key id (elements (list_to_set (omap be_payload_id (List.filter (of_inode volume inode) (map snd (map_to_list (rows s))))) : gset Z)).
Fixpoint mark_released (file now : Z) (l : list Z) (s : StoreDb) : result (list (Z * Z) * StoreDb) :=
  match l with
  | [] => Ok ([], s)
  | id :: l =>
      '(changed, d) ← update_extent "deleted-inode extent dead mark failed" id
        (fun e => (pe_file_id e =? file) && unpinned_alive e && negb (referenced s id)) (set_extent_state Dead now) (phys s);
      if changed =? 1 then
        len ← ok_or (sqlite "dead extent length lookup failed") (pe_length_bytes <$> phys_extents d !! id);
        '(dead, s') ← mark_released file now l (set_phys d s); Ok ((id, len) :: dead, s')
      else mark_released file now l (set_phys d s)
  end.
(** The extent half of [release_inode_extents]; the tombstone half is
    [finalize_unlink] of [Namespace]. *)
Definition release_inode_extents (volume inode journal_file now : Z) (s : StoreDb) : result (list (Z * Z) * StoreDb) :=
  let candidates := inode_payloads volume inode s in
  let s := delete_rows (of_inode volume inode) s in
  let s := set_heads (delete (volume, inode) (heads s)) s in
  mark_released journal_file now candidates s.
Definition drop_versions_before (volume inode keep_from : Z) (s : StoreDb) : Z * StoreDb :=
  let old e := of_inode volume inode e && (be_version e <? keep_from) in
  (cnt old (map snd (map_to_list (rows s))), delete_rows old s).

(** ** Runs *)
Inductive StoreOp : Set :=
| SReplace (volume inode v eof : Z) (es : list ByteExtent) (now : Z) | SCompact (volume journal_file now : Z)
| SRelease (volume inode journal_file now : Z) | SDrop (volume inode keep_from : Z) | SPhys (o : PhysOp).
Definition store_step (s : StoreDb) (o : StoreOp) : StoreDb :=
  match o with
  | SReplace volume inode v eof es now => match replace_extents_with_eof volume inode v eof es now s with Ok s' => s' | Err _ => s end
  | SCompact volume file now => match compact_volume volume file now s with Ok (_, s') => s' | Err _ => s end
  | SRelease volume inode file now => match release_inode_extents volume inode file now s with Ok (_, s') => s' | Err _ => s end
  | SDrop volume inode keep_from => (drop_versions_before volume inode keep_from s).2
  | SPhys o => set_phys (phys_step (phys s) o) s
  end.
Definition store_run (s : StoreDb) (os : list StoreOp) : StoreDb := fold_left store_step os s.

(** ** Lemmas *)
Lemma delete_rows_lookup (p : ByteExtent -> bool) (s : StoreDb) (id : Z) (e : ByteExtent) :
  rows (delete_rows p s) !! id = Some e <-> rows s !! id = Some e /\ p e = false.
Proof. unfold delete_rows. cbn. by rewrite map_lookup_filter_Some. Qed.

Lemma referenced_iff (s : StoreDb) (payload : Z) :
  referenced s payload = true <-> exists id e, rows s !! id = Some e /\ be_payload_id e = Some payload.
Proof.
  unfold referenced. rewrite existsb_exists. split.
  - intros (e & Hin & Hb%bool_decide_eq_true). apply in_map_iff in Hin as ([id x] & <- & Hin%list_elem_of_In%elem_of_map_to_list). eauto.
  - intros (id & e & He & Hp). exists e. split; [|by apply bool_decide_eq_true].
    apply in_map_iff. exists (id, e). split; [done|by apply list_elem_of_In, elem_of_map_to_list].
Qed.
Lemma elem_of_extents_at (volume inode v : Z) (s : StoreDb) (e : ByteExtent) :
  e ∈ extents_at volume inode v s <-> at_version volume inode v e = true /\ exists id, rows s !! id = Some e.
Proof.
  unfold extents_at. rewrite sort_by_key_perm, list_elem_of_In, filter_In, in_map_iff. split.
  - intros [([id x] & <- & Hin%list_elem_of_In%elem_of_map_to_list) H]. eauto.
  - intros [H [id He]]. split; [|done]. exists (id, e). split; [done|by apply list_elem_of_In, elem_of_map_to_list].
Qed.

(** Marking a row dead is never refused by the schema. *)
Lemma dead_fits (d : PhysDb) (id now : Z) (e : PhysicalExtentRecord) :
  phys_inv d -> phys_extents d !! id = Some e -> fits_at extent_check extent_clash id (set_extent_state Dead now e) (phys_extents d) = true.
Proof.
  intros Hd He. apply fits_at_iff. destruct (pi_slots d Hd) as [Hc Hu]. split; [exact (Hc id e He)|].
  intros k x Hx Hne. exact (Hu id k e x He Hx Hne).
Qed.
Lemma dead_inv (d : PhysDb) (id now : Z) (e : PhysicalExtentRecord) :
  phys_inv d -> phys_extents d !! id = Some e -> unpinned_alive e = true ->
  phys_inv (set_phys_extents (<[id := set_extent_state Dead now e]> (phys_extents d)) d).
Proof.
  intros Hd He [Hs%extent_in_true Hp%Z.eqb_eq]%andb_true_iff.
  apply (put_extent_inv d id e); [done|done|done|done|done|by apply dead_fits|].
  intros k. apply (keep_rv d id e); [done|done|by rewrite Hs|done].
Qed.
Lemma update_dead_total (context : string) (id now : Z) (p : PhysicalExtentRecord -> bool) (d : PhysDb) :
  phys_inv d -> (forall e, p e = true -> unpinned_alive e = true) ->
  (exists e, phys_extents d !! id = Some e /\ p e = true /\
    update_extent context id p (set_extent_state Dead now) d = Ok (1, set_phys_extents (<[id := set_extent_state Dead now e]> (phys_extents d)) d)) \/
  ((forall e, phys_extents d !! id = Some e -> p e = false) /\ update_extent context id p (set_extent_state Dead now) d = Ok (0, d)).
Proof.
  intros Hd Hp. unfold update_extent, update_row. destruct (phys_extents d !! id) as [e|] eqn:He; [destruct (p e) eqn:Ep|].
  - left. exists e. rewrite (dead_fits d id now e Hd He). done.
  - right. split; [by intros ? [= <-]|]. by destruct d.
  - right. split; [done|]. by destruct d.
Qed.

(** What a pass of marks does: the extents in [dead] were alive and unpinned
    and are dead now; the others are as they were. *)
Record marks (now : Z) (p : Z -> PhysicalExtentRecord -> Prop) (dead : list (Z * Z)) (s s' : StoreDb) : Prop := {
  mk_rows : rows s' = rows s;
  mk_heads : heads s' = heads s;
  mk_inv : phys_inv (phys s');
  mk_dead : forall id len, (id, len) ∈ dead -> exists e, phys_extents (phys s) !! id = Some e /\ unpinned_alive e = true /\ p id e /\
    phys_extents (phys s') !! id = Some (set_extent_state Dead now e);
  mk_kept : forall id e, phys_extents (phys s) !! id = Some e -> id ∉ map fst dead -> phys_extents (phys s') !! id = Some e
}.
Lemma marks_nil (now : Z) (p : Z -> PhysicalExtentRecord -> Prop) (s : StoreDb) : phys_inv (phys s) -> marks now p [] s s.
Proof. intros Hs. split; try done. by intros id len ?%elem_of_nil. Qed.
Lemma marks_cons (now id len : Z) (p : Z -> PhysicalExtentRecord -> Prop) (dead : list (Z * Z)) (s s' : StoreDb) (e : PhysicalExtentRecord) :
  phys_extents (phys s) !! id = Some e -> unpinned_alive e = true -> p id e ->
  marks now p dead (set_phys (set_phys_extents (<[id := set_extent_state Dead now e]> (phys_extents (phys s))) (phys s)) s) s' ->
  marks now p ((id, len) :: dead) s s'.
Proof.
  intros He Hu Hp [H1 H2 H3 H4 H5]. cbn in *.
  assert (id ∉ map fst dead) as Hni.
  { intros Hin%list_elem_of_In. apply in_map_iff in Hin as ([id' l'] & E & Hin%list_elem_of_In). cbn in E. subst id'.
    destruct (H4 id l' Hin) as (x & Hx & Hux & _). rewrite lookup_insert_eq in Hx. injection Hx as <-. done. }
  split; [done|done|done| |].
  - intros id' len' [[= -> ->]|Hin]%elem_of_cons.
    + exists e. split_and!; [done..|]. apply H5; [by rewrite lookup_insert_eq|done].
    + destruct (H4 id' len' Hin) as (x & Hx & H). exists x. split; [|done].
      apply lookup_insert_Some in Hx as [[<- _]|[_ Hx]]; [|done]. exfalso. apply Hni, list_elem_of_In, in_map_iff. exists (id, len'). by rewrite <-list_elem_of_In.
  - intros id' x Hx Hni'. cbn in Hni'. apply not_elem_of_cons in Hni' as [Hne Hni']. apply H5; [by rewrite lookup_insert_ne|done].
Qed.

Lemma mark_unreferenced_total (now : Z) (l : list (Z * Z)) (s : StoreDb) : phys_inv (phys s) ->
  exists dead s', mark_unreferenced now l s = Ok (dead, s') /\ marks now (fun id _ => referenced s id = false) dead s s' /\ (forall x, x ∈ dead -> x ∈ l).
Proof.
  revert s. induction l as [|[id len] l IH]; intros s Hs; cbn [mark_unreferenced].
  { exists [], s. split_and!; [done|by apply marks_nil|done]. }
  destruct (referenced s id) eqn:Er.
  { destruct (IH s Hs) as (dead & s' & H1 & H2 & H3). exists dead, s'. split_and!; [done..|]. intros x Hx. right. by apply H3. }
  destruct (update_dead_total "journal extent dead mark failed" id now unpinned_alive (phys s) Hs) as [(e & He & Hu & ->)|[_ ->]]; [done|..]; cbn [mbind result_bind].
  - destruct (IH (set_phys (set_phys_extents (<[id := set_extent_state Dead now e]> (phys_extents (phys s))) (phys s)) s)) as (dead & s' & -> & H2 & H3);
      [by apply dead_inv|]. exists ((id, len) :: dead), s'. split_and!; [done|by eapply marks_cons|].
    intros x [->|Hx]%elem_of_cons; [left|right; by apply H3].
  - assert (set_phys (phys s) s = s) as -> by by destruct s. destruct (IH s Hs) as (dead & s' & -> & H2 & H3).
    exists dead, s'. split_and!; [done..|]. intros x Hx. right. by apply H3.
Qed.
Lemma mark_released_total (file now : Z) (l : list Z) (s : StoreDb) : phys_inv (phys s) ->
  exists dead s', mark_released file now l s = Ok (dead, s') /\
    marks now (fun id e => referenced s id = false /\ pe_file_id e = file) dead s s' /\ (forall x, x ∈ dead -> x.1 ∈ l).
Proof.
  revert s. induction l as [|id l IH]; intros s Hs; cbn [mark_released].
  { exists [], s. split_and!; [done|by apply marks_nil|by intros x ?%elem_of_nil]. }
  destruct (update_dead_total "deleted-inode extent dead mark failed" id now
    (fun e => (pe_file_id e =? file) && unpinned_alive e && negb (referenced s id)) (phys s) Hs) as [(e & He & Hu & ->)|[_ ->]].
  { by intros e [[_ ?]%andb_true_iff _]%andb_true_iff. }
  - apply andb_true_iff in Hu as [[Hf%Z.eqb_eq Hu]%andb_true_iff Hr%negb_true_iff].
    cbn [mbind result_bind Z.eqb Pos.eqb].
    replace (phys_extents (set_phys_extents (<[id := set_extent_state Dead now e]> (phys_extents (phys s))) (phys s)) !! id)
      with (Some (set_extent_state Dead now e)) by (cbn; by rewrite lookup_insert_eq). cbn [fmap option_fmap option_map ok_or mbind result_bind].
    destruct (IH (set_phys (set_phys_extents (<[id := set_extent_state Dead now e]> (phys_extents (phys s))) (phys s)) s)) as (dead & s' & H1 & H2 & H3);
      [by apply dead_inv|]. rewrite H1. exists ((id, pe_length_bytes e) :: dead), s'.
    split_and!; [done|by eapply marks_cons|]. intros x [->|Hx]%elem_of_cons; [left|right; by apply H3].
  - cbn [mbind result_bind Z.eqb]. assert (set_phys (phys s) s = s) as -> by by destruct s. destruct (IH s Hs) as (dead & s' & -> & H2 & H3).
    exists dead, s'. split_and!; [done..|]. intros x Hx. right. by apply H3.
Qed.

Lemma insert_byte_extent_Ok (volume inode v now : Z) (e : ByteExtent) (s s' : StoreDb) : insert_byte_extent volume inode v now e s = Ok s' ->
  rows s !! be_extent_id e = None /\ row_check (be_extent_id e) (stored_row volume inode v now e) = true /\
  s' = set_rows (<[be_extent_id e := stored_row volume inode v now e]> (rows s)) s.
Proof.
  intros (t & (Hn & [Hc _]%fits_at_iff & ->)%ok_or_Ok_inv%insert_row_Some & [= <-])%bind_Ok_inv. done.
Qed.
Lemma replace_loop_phys (volume inode v eof now : Z) (previous : option Z) (es : list ByteExtent) (s s' : StoreDb) :
  replace_loop volume inode v eof now previous es s = Ok s' -> phys s' = phys s.
Proof.
  revert previous s. induction es as [|e es IH]; intros previous s; cbn [replace_loop]; [by intros [= <-]|].
  intros (_ & _ & H)%bind_Ok_inv. destruct (eof <? _); [done|]. apply bind_Ok_inv in H as (_ & _ & H).
  apply bind_Ok_inv in H as (s1 & (_ & _ & ->)%insert_byte_extent_Ok & H). by apply IH in H.
Qed.
Lemma write_head_rows (volume inode v eof now : Z) (s s' : StoreDb) : write_head volume inode v eof now s = Ok s' ->
  rows s' = rows s /\ phys s' = phys s /\ 0 <= v /\ 0 <= as_i64 eof /\
  match heads s !! (volume, inode) with
  | Some h => if hd_version h <? v then heads s' = <[(volume, inode) := mkHead v (as_i64 eof) now]> (heads s) else heads s' = heads s
  | None => heads s' = <[(volume, inode) := mkHead v (as_i64 eof) now]> (heads s)
  end.
Proof.
  unfold write_head. destruct ((v <? 0) || (as_i64 eof <? 0)) eqn:E; [done|]. zbool.
  destruct (heads s !! (volume, inode)) as [h|]; [destruct (hd_version h <? v)|]; intros [= <-]; done.
Qed.
Lemma compact_volume_total (volume file now : Z) (s : StoreDb) : phys_inv (phys s) ->
  exists dead s', compact_volume volume file now s = Ok (dead, s') /\
    marks now (fun id _ => referenced (delete_rows (superseded volume s) s) id = false) dead (delete_rows (superseded volume s) s) s' /\
    (forall x, x ∈ dead -> x ∈ alive_extents file (delete_rows (superseded volume s) s)).
Proof. intros Hs. unfold compact_volume. by apply mark_unreferenced_total. Qed.

Lemma store_run_inv (os : list StoreOp) (s : StoreDb) : phys_inv (phys s) -> phys_inv (phys (store_run s os)).
Proof.
  revert s. induction os as [|o os IH]; intros s Hs; [done|]. cbn. apply IH. destruct o; cbn [store_step].
  - destruct (replace_extents_with_eof _ _ _ _ _ _ s) as [s'|] eqn:E; [|done].
    apply bind_Ok_inv in E as (s1 & H1%replace_loop_phys & H2%write_head_rows). destruct H2 as (_ & -> & _). by rewrite H1.
  - destruct (compact_volume_total volume journal_file now s Hs) as (dead & s' & -> & Hm & _). apply Hm.
  - unfold release_inode_extents. destruct (mark_released_total journal_file now (inode_payloads volume inode s)
      (set_heads (delete (volume, inode) (heads s)) (delete_rows (of_inode volume inode) s)) Hs) as (dead & s' & H1 & Hm & _).
    cbv zeta. change (heads (delete_rows (of_inode volume inode) s)) with (heads s). rewrite H1. apply Hm.
  - done.
  - cbn. unfold phys_step. destruct (phys_op o (phys s)) eqn:E; [by eapply phys_op_ok|done].
Qed.

(** C13: Compaction of a volume never fails and never loses current data,
    whatever ran before: the heads stay, every extent row that is not older
    than its file's head stays (every row of the other volumes too), and an
    extent dies only if it was alive, unpinned, in the journal file and the
    payload of no remaining row; all other extents are untouched. *)
Theorem compaction_keeps_current (os : list StoreOp) (volume file now : Z) :
  let s := store_run empty_store os in
  exists dead s', compact_volume volume file now s = Ok (dead, s') /\ heads s' = heads s /\
    (forall id e, rows s' !! id = Some e <-> rows s !! id = Some e /\ superseded volume s e = false) /\
    (forall w i v e, (w = volume -> forall h, heads s !! (w, i) = Some h -> hd_version h <= v) ->
       (e ∈ extents_at w i v s' <-> e ∈ extents_at w i v s)) /\
    (forall id len, (id, len) ∈ dead -> exists e, phys_extents (phys s) !! id = Some e /\
       pe_file_id e = file /\ pe_length_bytes e = len /\ pe_state e = Alive /\ pe_pin_count e = 0 /\
       phys_extents (phys s') !! id = Some (set_extent_state Dead now e) /\
       forall rid r, rows s' !! rid = Some r -> be_payload_id r <> Some id) /\
    (forall id e, phys_extents (phys s) !! id = Some e -> id ∉ map fst dead -> phys_extents (phys s') !! id = Some e).
Proof.
  intros s. assert (phys_inv (phys s)) as Hs by (apply store_run_inv, empty_phys_inv).
  destruct (compact_volume_total volume file now s Hs) as (dead & s' & Hc & [Hr Hh _ Hd Hk] & Hl). exists dead, s'.
  assert (forall id e, rows s' !! id = Some e <-> rows s !! id = Some e /\ superseded volume s e = false) as Hrows
    by (intros id e; rewrite Hr; apply delete_rows_lookup).
  split_and!; [done|done|done| | |done].
  - intros w i v e Hv. rewrite !elem_of_extents_at. split; intros [Ha (id & He)]; (split; [done|]); exists id; [by apply Hrows in He as [He _]|].
    apply Hrows. split; [done|]. unfold at_version, of_inode in Ha. zbool. unfold superseded.
    destruct (Z.eqb_spec (be_volume_id e) volume) as [Ew|]; [|done]. cbn.
    destruct (heads s !! (volume, be_inode e)) as [h|] eqn:Eh; [|done]. apply Z.ltb_ge. subst w i v. rewrite Ew in Hv. exact (Hv eq_refl h Eh).
  - intros id len Hin. destruct (Hd id len Hin) as (e & He & [Hal%extent_in_true Hp%Z.eqb_eq]%andb_true_iff & Href & He'). exists e.
    apply Hl, list_elem_of_In, in_map_iff in Hin as ([id' x] & [= -> <-] & [Hin [Hf%Z.eqb_eq _]%andb_true_iff]%filter_In).
    apply list_elem_of_In, elem_of_map_to_list in Hin. cbn in Hin, He, Hf. assert (x = e) as -> by congruence.
    split_and!; [done..|]. intros rid r Hrr Hpay. apply not_true_iff_false in Href. apply Href, referenced_iff.
    rewrite Hr in Hrr. eauto.
Qed.

(** Releasing a deleted file drops exactly its extent rows and its head
    and never fails; an extent dies only if it was an alive, unpinned extent
    of the journal file that the deleted file referred to and no remaining
    row of any file does; all other extents are untouched. *)
Theorem release_keeps_shared_payloads (os : list StoreOp) (volume inode file now : Z) :
  let s := store_run empty_store os in
  exists dead s', release_inode_extents volume inode file now s = Ok (dead, s') /\ heads s' = delete (volume, inode) (heads s) /\
    (forall id e, rows s' !! id = Some e <-> rows s !! id = Some e /\ of_inode volume inode e = false) /\
    (forall id len, (id, len) ∈ dead -> exists e, phys_extents (phys s) !! id = Some e /\ pe_file_id e = file /\
       pe_state e = Alive /\ pe_pin_count e = 0 /\ phys_extents (phys s') !! id = Some (set_extent_state Dead now e) /\
       (exists rid r, rows s !! rid = Some r /\ of_inode volume inode r = true /\ be_payload_id r = Some id) /\
       forall rid r, rows s' !! rid = Some r -> be_payload_id r <> Some id) /\
    (forall id e, phys_extents (phys s) !! id = Some e -> id ∉ map fst dead -> phys_extents (phys s') !! id = Some e).
Proof.
  intros s. assert (phys_inv (phys s)) as Hs by (apply store_run_inv, empty_phys_inv).
  set (s1 := set_heads (delete (volume, inode) (heads s)) (delete_rows (of_inode volume inode) s)).
  destruct (mark_released_total file now (inode_payloads volume inode s) s1 Hs) as (dead & s' & Hc & [Hr Hh _ Hd Hk] & Hl).
  exists dead, s'. split_and!; [exact Hc|done|intros id e; rewrite Hr; apply delete_rows_lookup| |done].
  intros id len Hin. destruct (Hd id len Hin) as (e & He & [Hal%extent_in_true Hp%Z.eqb_eq]%andb_true_iff & [Href Hf] & He'). exists e.
  split_and!; [done..| |].
  - apply Hl in Hin. cbn in Hin. unfold inode_payloads in Hin. rewrite sort_by_key_perm in Hin. apply elem_of_elements, elem_of_list_to_set in Hin.
    apply list_elem_of_omap in Hin as (r & Hin%list_elem_of_In & Hpay). apply filter_In in Hin as [Hin Hof].
    apply in_map_iff in Hin as ([rid x] & <- & Hin%list_elem_of_In%elem_of_map_to_list). eauto.
  - intros rid r Hrr Hpay. apply not_true_iff_false in Href. apply Href, referenced_iff. rewrite Hr in Hrr. eauto.
Qed.
