(* ===== verification/NamespaceDoc.v ===== *)
(** * Namespace documents

    [mirage-manifest/src/namespace.rs]: immutable checkpoints of a volume's
    namespace and bounded deltas against them, with their deterministic
    encodings.  Inodes, volume ids and hashes are the integers of their byte
    arrays (the array order is the integer order); a string is the list of its
    UTF-8 bytes, and [utf8_valid] is the well-formedness test of
    [String::from_utf8].

    Proved: a document decodes to a checkpoint exactly when it is that
    checkpoint's encoding and the nodes form a single tree under one root
    directory; and every decoded delta survives another round trip. *)
From S2P Require Export Parser.

(** ** Data *)
Definition NAMESPACE_FORMAT_VERSION : Z := 1.
Definition MAX_DELTA_OPS : Z := 8192.
Definition MAX_NAMESPACE_DOCUMENT_BYTES : Z := 512 * 1024 * 1024.
Definition MAX_DELTA_DOCUMENT_BYTES : Z := 4 * 1024 * 1024.
Definition CHECKPOINT_MAGIC : list Z := [77; 78; 83; 67].
Definition DELTA_MAGIC : list Z := [77; 78; 83; 68].
Definition MIN_NODE_BYTES : Z := 16 + 1 + 4 + 4 + 1 + 8 + 1 + 1.

Notation InodeId := Z (only parsing).
Notation Str := (list Z) (only parsing).

Record NamespaceNodeRecord : Set := mkNode {
  nn_inode : InodeId; nn_parent : option InodeId; nn_folded_name : Str; nn_display_name : Str; nn_directory : bool;
  nn_size : Z; nn_version_root : option Hash; nn_extent_root : option Hash
}.
Record NamespaceCheckpoint : Set := mkCheckpoint {
  nc_volume_id : Z; nc_checkpoint_seq : Z; nc_parent_commit : option Hash; nc_nodes : list NamespaceNodeRecord
}.
Inductive NamespaceOp : Set :=
| OpCreate (parent inode : InodeId) (display_name folded_name : Str) (directory : bool) (size : Z)
| OpRename (inode from_parent : InodeId) (from_folded : Str) (to_parent : InodeId) (display_name folded_name : Str)
| OpDelete (parent : InodeId) (folded_name : Str) (inode : InodeId)
| OpSetRoots (inode : InodeId) (size : Z) (version_root extent_root : option Hash).
Record NamespaceDelta : Set := mkDelta {
  nd_volume_id : Z; nd_base_document_hash : Hash; nd_delta_seq : Z; nd_ops : list NamespaceOp
}.

(** ** UTF-8 *)
Definition utf8_in (lo hi b : Z) : bool := (lo <=? b) && (b <=? hi).
Definition utf8_cont (b : Z) : bool := utf8_in 128 191 b.
(** First and second byte of a three- and of a four-byte sequence. *)
Definition utf8_lead3 (a b : Z) : bool :=
  (a =? 224) && utf8_in 160 191 b || utf8_in 225 236 a && utf8_cont b ||
  (a =? 237) && utf8_in 128 159 b || utf8_in 238 239 a && utf8_cont b.
Definition utf8_lead4 (a b : Z) : bool :=
  (a =? 240) && utf8_in 144 191 b || utf8_in 241 243 a && utf8_cont b || (a =? 244) && utf8_in 128 143 b.
Fixpoint utf8_valid (l : list Z) : bool :=
  match l with
  | [] => true
  | a :: l1 =>
      if a <=? 127 then utf8_valid l1
      else match l1 with
      | [] => false
      | b :: l2 =>
          if utf8_in 194 223 a then utf8_cont b && utf8_valid l2
          else match l2 with
          | [] => false
          | c :: l3 =>
              if utf8_lead3 a b then utf8_cont c && utf8_valid l3
              else match l3 with
              | [] => false
              | d :: l4 => utf8_lead4 a b && utf8_cont c && utf8_cont d && utf8_valid l4
              end
          end
      end
  end.

(** ** Writing *)
Definition sink_text (value : Str) : result (list Z) :=
  let len := Z.of_nat (length value) in
  if len <=? u32_max then Ok (to_le 4 len ++ value) else Err (manifest_invalid "namespace name exceeds document bound").
Definition sink_opt (n : nat) (value : option Z) : list Z := opt_tag value :: opt_bytes (to_be n) value.
Definition flag_byte (b : bool) : Z := if b then 1 else 0.

Definition encode_node (n : NamespaceNodeRecord) : result (list Z) :=
  folded ← sink_text (nn_folded_name n);
  display ← sink_text (nn_display_name n);
  Ok (to_be 16 (nn_inode n) ++ sink_opt 16 (nn_parent n) ++ folded ++ display ++ [flag_byte (nn_directory n)] ++
      to_le 8 (nn_size n) ++ sink_opt 32 (nn_version_root n) ++ sink_opt 32 (nn_extent_root n)).

Definition encode_op (op : NamespaceOp) : result (list Z) :=
  match op with
  | OpCreate parent inode display_name folded_name directory size =>
      display ← sink_text display_name;
      folded ← sink_text folded_name;
      Ok ([0] ++ to_be 16 parent ++ to_be 16 inode ++ display ++ folded ++ [flag_byte directory] ++ to_le 8 size)
  | OpRename inode from_parent from_folded to_parent display_name folded_name =>
      from ← sink_text from_folded;
      display ← sink_text display_name;
      folded ← sink_text folded_name;
      Ok ([1] ++ to_be 16 inode ++ to_be 16 from_parent ++ from ++ to_be 16 to_parent ++ display ++ folded)
  | OpDelete parent folded_name inode =>
      folded ← sink_text folded_name;
      Ok ([2] ++ to_be 16 parent ++ folded ++ to_be 16 inode)
  | OpSetRoots inode size version_root extent_root =>
      Ok ([3] ++ to_be 16 inode ++ to_le 8 size ++ sink_opt 32 version_root ++ sink_opt 32 extent_root)
  end.

(** A loop that appends what each element writes. *)
Fixpoint encode_all {A : Type} (enc : A -> result (list Z)) (l : list A) : result (list Z) :=
  match l with
  | [] => Ok []
  | x :: l => b ← enc x; rest ← encode_all enc l; Ok (b ++ rest)
  end.

(** [nodes.windows(2)]. *)
Fixpoint duplicate_inode (l : list NamespaceNodeRecord) : bool :=
  match l with
  | x :: (y :: _) as l' => (nn_inode x =? nn_inode y) || duplicate_inode l'
  | _ => false
  end.

Definition encode_checkpoint (c : NamespaceCheckpoint) : result (list Z) :=
  let nodes := sort_by_key nn_inode (nc_nodes c) in
  if duplicate_inode nodes then Err (manifest_invalid "namespace checkpoint contains a duplicate inode")
  else if u32_max <? Z.of_nat (length nodes) then Err (manifest_invalid "namespace node count overflows")
  else body ← encode_all encode_node nodes;
       Ok (CHECKPOINT_MAGIC ++ to_le 4 NAMESPACE_FORMAT_VERSION ++ to_be 16 (nc_volume_id c) ++
           to_le 8 (nc_checkpoint_seq c) ++ sink_opt 32 (nc_parent_commit c) ++ to_le 4 (Z.of_nat (length nodes)) ++ body).

Definition encode_delta (d : NamespaceDelta) : result (list Z) :=
  if MAX_DELTA_OPS <? Z.of_nat (length (nd_ops d)) then Err (manifest_invalid "namespace delta exceeds the operation bound")
  else body ← encode_all encode_op (nd_ops d);
       Ok (DELTA_MAGIC ++ to_le 4 NAMESPACE_FORMAT_VERSION ++ to_be 16 (nd_volume_id d) ++
           to_be 32 (nd_base_document_hash d) ++ to_le 8 (nd_delta_seq d) ++ to_le 4 (Z.of_nat (length (nd_ops d))) ++ body).

(** ** Reading *)
Definition cur_inode : parser InodeId := cur_id 16.
Definition cur_text : parser Str :=
  len ← cur_u32;
  _ ← refuse_if (1024 <? len) (manifest_invalid "namespace name exceeds the component bound");
  bytes ← cur_take (Z.to_nat len);
  _ ← refuse_if (negb (utf8_valid bytes)) (manifest_invalid "namespace name is not valid UTF-8");
  mret bytes.
Definition cur_opt16 : parser (option InodeId) := cur_opt (manifest_invalid "namespace optional flag is invalid") cur_inode.
Definition cur_opt32 : parser (option Hash) := cur_opt (manifest_invalid "namespace optional flag is invalid") (cur_id 32).

(** The bytes of the cursor are the whole document when this runs. *)
Definition check_magic (magic : list Z) (maximum : Z) : parser unit := fun b =>
  (_ ← refuse_if (maximum <? Z.of_nat (length b)) (manifest_invalid "namespace document exceeds its decode bound");
   m ← cur_take 4;
   _ ← refuse_if (negb (bool_decide (m = magic))) (manifest_invalid "namespace document magic is unknown");
   version ← cur_u32;
   refuse_if (negb (version =? NAMESPACE_FORMAT_VERSION))
     (unsupported_layout "namespace document was written by an incompatible format version")) b.

Definition cur_kind : parser bool :=
  k ← cur_byte;
  if k =? 0 then mret false else if k =? 1 then mret true else refuse (manifest_invalid "namespace node kind flag is invalid").

Definition cur_node (previous : option InodeId) : parser NamespaceNodeRecord :=
  inode ← cur_inode;
  _ ← refuse_if (match previous with Some last => inode <=? last | None => false end)
        (manifest_invalid "namespace checkpoint inodes are not strictly ordered");
  parent ← cur_opt16;
  folded_name ← cur_text;
  display_name ← cur_text;
  directory ← cur_kind;
  size ← cur_u64;
  version_root ← cur_opt32;
  extent_root ← cur_opt32;
  mret (mkNode inode parent folded_name display_name directory size version_root extent_root).

Fixpoint cur_nodes (count : nat) (previous : option InodeId) : parser (list NamespaceNodeRecord) :=
  match count with
  | O => mret []
  | S count => n ← cur_node previous; ns ← cur_nodes count (Some (nn_inode n)); mret (n :: ns)
  end.

(** ** Graph integrity *)
Definition known_nodes (nodes : list NamespaceNodeRecord) : gmap Z NamespaceNodeRecord :=
  list_to_map (map (fun n => (nn_inode n, n)) nodes).

(** The parent checks of one node; whether it is a root. *)
Definition check_parent (known : gmap Z NamespaceNodeRecord) (n : NamespaceNodeRecord) : result bool :=
  match nn_parent n with
  | None => if nn_directory n then Ok true else Err (manifest_invalid "namespace checkpoint root is not a directory")
  | Some parent =>
      if parent =? nn_inode n then Err (manifest_invalid "namespace checkpoint node is its own parent")
      else parent_node ← ok_or (manifest_invalid "namespace checkpoint references a missing parent") (known !! parent);
           if nn_directory parent_node then Ok false else Err (manifest_invalid "namespace checkpoint parent is not a directory")
  end.
Fixpoint count_roots (known : gmap Z NamespaceNodeRecord) (l : list NamespaceNodeRecord) (roots : Z) : result Z :=
  match l with
  | [] => Ok roots
  | n :: l => is_root ← check_parent known n; count_roots known l (if is_root : bool then roots + 1 else roots)
  end.

Definition sibling_key (n : NamespaceNodeRecord) : Z * Str := (default 0 (nn_parent n), nn_folded_name n).
Fixpoint check_siblings (l : list NamespaceNodeRecord) (seen : gset (Z * Str)) : result unit :=
  match l with
  | [] => Ok tt
  | n :: l =>
      if bool_decide (sibling_key n ∈ seen) then Err (manifest_invalid "namespace checkpoint duplicates a folded sibling name")
      else check_siblings l ({[sibling_key n]} ∪ seen)
  end.

(** [while let Some(parent) = at.parent]: [fuel] bounds the hops still
    allowed.  Indexing [known] with a missing key panics; the parent checks
    exclude it. *)
Inductive Ascent : Set := Reached | Cycle | MissingKey.
Fixpoint ascend (known : gmap Z NamespaceNodeRecord) (fuel : nat) (at_ : NamespaceNodeRecord) : Ascent :=
  match nn_parent at_ with
  | None => Reached
  | Some parent =>
      match known !! parent with
      | None => MissingKey
      | Some up => match fuel with O => Cycle | S fuel => ascend known fuel up end
      end
  end.
(** [hops >= nodes.len()] after the increment: [len - 1] hops are allowed. *)
Definition check_acyclic (known : gmap Z NamespaceNodeRecord) (nodes : list NamespaceNodeRecord) (n : NamespaceNodeRecord) : result unit :=
  match ascend known (length nodes - 1) n with
  | Reached => Ok tt
  | Cycle => Err (manifest_invalid "namespace checkpoint contains a parent cycle")
  | MissingKey => Err (internal_invariant "panic: no entry found for key")
  end.
Fixpoint all_checks {A : Type} (f : A -> result unit) (l : list A) : result unit :=
  match l with [] => Ok tt | x :: l => _ ← f x; all_checks f l end.

Definition check_graph (nodes : list NamespaceNodeRecord) : result unit :=
  let known := known_nodes nodes in
  roots ← count_roots known nodes 0;
  if negb (roots =? 1) then Err (manifest_invalid "namespace checkpoint must contain exactly one root")
  else _ ← check_siblings nodes ∅; all_checks (check_acyclic known nodes) nodes.

Definition cur_checkpoint : parser NamespaceCheckpoint :=
  _ ← check_magic CHECKPOINT_MAGIC MAX_NAMESPACE_DOCUMENT_BYTES;
  volume_id ← cur_id 16;
  checkpoint_seq ← cur_u64;
  parent_commit ← cur_opt (manifest_invalid "namespace checkpoint commit flag is invalid") (cur_id 32);
  count ← cur_u32;
  _ ← (fun b => refuse_if (match checked_mul count MIN_NODE_BYTES with
                           | Some minimum => Z.of_nat (length b) <? minimum | None => true end)
                  (manifest_invalid "namespace node count exceeds the document bound") b);
  nodes ← cur_nodes (Z.to_nat count) None;
  _ ← cur_done;
  mret (mkCheckpoint volume_id checkpoint_seq parent_commit nodes).

Definition decode_checkpoint (encoded : list Z) : result NamespaceCheckpoint :=
  '(c, _) ← cur_checkpoint encoded;
  _ ← check_graph (nc_nodes c);
  Ok c.

Definition cur_op : parser NamespaceOp :=
  tag ← cur_byte;
  if tag =? 0 then
    parent ← cur_inode; inode ← cur_inode; display_name ← cur_text; folded_name ← cur_text;
    directory ← cur_byte; size ← cur_u64;
    mret (OpCreate parent inode display_name folded_name (negb (directory =? 0)) size)
  else if tag =? 1 then
    inode ← cur_inode; from_parent ← cur_inode; from_folded ← cur_text; to_parent ← cur_inode;
    display_name ← cur_text; folded_name ← cur_text;
    mret (OpRename inode from_parent from_folded to_parent display_name folded_name)
  else if tag =? 2 then
    parent ← cur_inode; folded_name ← cur_text; inode ← cur_inode;
    mret (OpDelete parent folded_name inode)
  else if tag =? 3 then
    inode ← cur_inode; size ← cur_u64; version_root ← cur_opt32; extent_root ← cur_opt32;
    mret (OpSetRoots inode size version_root extent_root)
  else refuse (manifest_invalid "namespace delta operation tag is unknown").
Fixpoint cur_ops (count : nat) : parser (list NamespaceOp) :=
  match count with O => mret [] | S count => op ← cur_op; ops ← cur_ops count; mret (op :: ops) end.

Definition cur_delta : parser NamespaceDelta :=
  _ ← check_magic DELTA_MAGIC MAX_DELTA_DOCUMENT_BYTES;
  volume_id ← cur_id 16;
  base_document_hash ← cur_id 32;
  delta_seq ← cur_u64;
  count ← cur_u32;
  _ ← refuse_if (MAX_DELTA_OPS <? count) (manifest_invalid "namespace delta exceeds the operation bound");
  ops ← cur_ops (Z.to_nat count);
  _ ← cur_done;
  mret (mkDelta volume_id base_document_hash delta_seq ops).
Definition decode_delta (encoded : list Z) : result NamespaceDelta := '(d, _) ← cur_delta encoded; Ok d.

Section hash.
Variable blake3 : list Z -> Z.
Definition checkpoint_hash (encoded : list Z) : Hash := blake3 encoded.
Definition delta_matches_checkpoint (d : NamespaceDelta) (base_document : list Z) (volume_id : Z) : result unit :=
  if negb (nd_volume_id d =? volume_id) || negb (nd_base_document_hash d =? checkpoint_hash base_document)
  then Err (integrity_mismatch "namespace delta does not extend the claimed checkpoint")
  else Ok tt.
End hash.

(** The documents of the repository's tests. *)
Definition demo_inode (b : Z) : InodeId := from_be (replicate 16 b).
Definition demo_root : NamespaceNodeRecord := mkNode (demo_inode 1) None [] [] true 0 None None.
Definition demo_file : NamespaceNodeRecord :=
  mkNode (demo_inode 2) (Some (demo_inode 1)) [66] [98] false 7 (Some (from_be (replicate 32 1))) None.
Definition demo_checkpoint : NamespaceCheckpoint :=
  mkCheckpoint (demo_inode 9) 3 (Some (from_be (replicate 32 5))) [demo_file; demo_root].
Example checkpoint_round_trip_is_canonical :
  (b ← encode_checkpoint demo_checkpoint; c ← decode_checkpoint b; Ok (nc_nodes c)) = Ok [demo_root; demo_file].
Proof. vm_compute. reflexivity. Qed.
Example trailing_bytes_are_rejected :
  (b ← encode_checkpoint demo_checkpoint; c ← decode_checkpoint (b ++ [0]); Ok (nc_nodes c))
  = Err (manifest_invalid "namespace document has trailing bytes").
Proof. vm_compute. reflexivity. Qed.
(** A directory under a file, and a cycle beside the root. *)
Example ill_formed_graphs_are_rejected :
  check_graph [demo_root; demo_file; mkNode 7 (Some (demo_inode 2)) [67] [67] true 0 None None]
    = Err (manifest_invalid "namespace checkpoint parent is not a directory") /\
  check_graph [demo_root; mkNode 7 (Some 8) [67] [67] true 0 None None; mkNode 8 (Some 7) [68] [68] true 0 None None]
    = Err (manifest_invalid "namespace checkpoint contains a parent cycle").
Proof. vm_compute. done. Qed.

(** ** What the encodings are *)
Definition text_ok (t : Str) : Prop := is_bytes t /\ utf8_valid t = true /\ Z.of_nat (length t) <= 1024.
Definition enc_text (t : Str) : list Z := to_le 4 (Z.of_nat (length t)) ++ t.
Definition enc_node (n : NamespaceNodeRecord) : list Z :=
  to_be 16 (nn_inode n) ++ sink_opt 16 (nn_parent n) ++ enc_text (nn_folded_name n) ++ enc_text (nn_display_name n) ++
  [flag_byte (nn_directory n)] ++ to_le 8 (nn_size n) ++ sink_opt 32 (nn_version_root n) ++ sink_opt 32 (nn_extent_root n).

(** The values a document can hold. *)
Record node_ok (n : NamespaceNodeRecord) : Prop := mk_node_ok {
  no_inode : id_ok 16 (nn_inode n); no_parent : opt_ok (id_ok 16) (nn_parent n);
  no_folded : text_ok (nn_folded_name n); no_display : text_ok (nn_display_name n); no_size : in_u64 (nn_size n);
  no_version : opt_ok (id_ok 32) (nn_version_root n); no_extent : opt_ok (id_ok 32) (nn_extent_root n)
}.
Definition op_ok (op : NamespaceOp) : Prop :=
  match op with
  | OpCreate p i d f _ s => id_ok 16 p /\ id_ok 16 i /\ text_ok d /\ text_ok f /\ in_u64 s
  | OpRename i p f t d g => id_ok 16 i /\ id_ok 16 p /\ text_ok f /\ id_ok 16 t /\ text_ok d /\ text_ok g
  | OpDelete p f i => id_ok 16 p /\ text_ok f /\ id_ok 16 i
  | OpSetRoots i s v e => id_ok 16 i /\ in_u64 s /\ opt_ok (id_ok 32) v /\ opt_ok (id_ok 32) e
  end.

Lemma sink_text_ok (t : Str) : Z.of_nat (length t) <= 1024 -> sink_text t = Ok (enc_text t).
Proof. intros. unfold sink_text. rewrite (proj2 (Z.leb_le _ _)) by mach. done. Qed.
Lemma text_ok_sink (t : Str) : text_ok t -> sink_text t = Ok (enc_text t).
Proof. intros (_ & _ & ?). by apply sink_text_ok. Qed.
Lemma encode_node_ok (n : NamespaceNodeRecord) : node_ok n -> encode_node n = Ok (enc_node n).
Proof. intros []. unfold encode_node. by rewrite !text_ok_sink. Qed.
Lemma encode_all_ok {A : Type} (enc : A -> result (list Z)) (e : A -> list Z) (l : list A) :
  (forall x, x ∈ l -> enc x = Ok (e x)) -> encode_all enc l = Ok (concat (map e l)).
Proof.
  induction l as [|x l IH]; intros H; [done|]. cbn [encode_all]. rewrite H by left. cbn [mbind result_bind].
  rewrite IH by (intros; apply H; by right). done.
Qed.

(** ** Fields *)
Lemma parses_text : parses cur_text enc_text text_ok.
Proof.
  unfold cur_text. eapply parses_ext.
  - apply (parses_bind (fun t : Str => Z.of_nat (length t))); [apply parses_u32| |].
    + intros len Hlen. apply parses_refuse_if. intros _. apply (parses_bind (fun t : Str => t)); [apply parses_take| |].
      * intros t _. apply parses_refuse_if. intros _. apply parses_ret.
      * by intros t c _ [_ ->].
    + intros len c Hu (Hlen & [Hc _] & _). rewrite Hc. mach.
  - intros t _. unfold enc_text. cbn beta. by rewrite app_nil_r.
  - intros t. unfold text_ok. simpl. rewrite negb_false_iff, Nat2Z.id, Z.ltb_ge. split; [naive_solver|].
    intros (? & ? & ?). split_and!; try done; mach.
Qed.
Lemma parses_inode : parses cur_inode (to_be 16) (id_ok 16).
Proof. apply parses_be. Qed.
Lemma parses_opt16 : parses cur_opt16 (sink_opt 16) (opt_ok (id_ok 16)).
Proof. apply parses_opt, parses_be. Qed.
Lemma parses_opt32 : parses cur_opt32 (sink_opt 32) (opt_ok (id_ok 32)).
Proof. apply parses_opt, parses_be. Qed.
Lemma parses_kind : parses cur_kind (fun k => [flag_byte k]) (fun _ => True).
Proof.
  unfold cur_kind. apply (parses_tag _ flag_byte (fun _ => []) (fun _ => True)); [|by intros []].
  intros t b k rest Hb. destruct (Z.eqb_spec t 0) as [->|H0]; [|destruct (Z.eqb_spec t 1) as [->|H1]];
    unfold mret, parser_ret, refuse; destruct k; simpl; naive_solver.
Qed.
Lemma parses_magic (magic : list Z) (b rest : list Z) (maximum : Z) :
  is_bytes b -> length magic = 4%nat -> is_bytes magic ->
  check_magic magic maximum b = Ok (tt, rest) <->
  b = magic ++ to_le 4 NAMESPACE_FORMAT_VERSION ++ rest /\ Z.of_nat (length b) <= maximum.
Proof.
  intros Hb Hl Hm. unfold check_magic. set (p := _ ← refuse_if _ _; _).
  assert (Hp : parses p (fun _ => magic ++ to_le 4 NAMESPACE_FORMAT_VERSION) (fun _ => Z.of_nat (length b) <= maximum)).
  { unfold p. eapply parses_ext.
    - apply parses_refuse_if. intros _. apply (parses_bind (fun _ : unit => magic)); [apply parses_take| |].
      + intros m _. apply parses_refuse_if. intros _. apply (parses_bind (fun _ : unit => NAMESPACE_FORMAT_VERSION)); [apply parses_u32| |].
        * intros v _. instantiate (1 := fun v _ => v = NAMESPACE_FORMAT_VERSION). instantiate (1 := fun _ => []).
          intros b' [] r _. unfold refuse_if. destruct (Z.eqb_spec v NAMESPACE_FORMAT_VERSION); simpl; naive_solver.
        * by intros v [] _ ->.
      + intros m [] _ [Hm' _]. simpl. apply negb_false_iff, bool_decide_eq_true in Hm'. done.
    - intros [] _. cbn beta. by rewrite app_nil_r.
    - intros []. simpl. rewrite Z.ltb_ge, negb_false_iff, bool_decide_eq_true. split; [naive_solver|]. intros. split_and!; done || mach. }
  rewrite (Hp b tt rest Hb). by rewrite <- app_assoc.
Qed.

(** ** Nodes *)
Definition after (previous : option InodeId) (n : NamespaceNodeRecord) : Prop :=
  match previous with Some last => last < nn_inode n | None => True end.
Lemma parses_node (previous : option InodeId) :
  parses (cur_node previous) enc_node (fun n => node_ok n /\ after previous n).
Proof.
  unfold cur_node. eapply parses_ext.
  - apply (parses_bind nn_inode); [apply parses_inode| |].
    + intros inode _. apply parses_refuse_if. intros _. apply (parses_bind nn_parent); [apply parses_opt16| |].
      * intros parent _. apply (parses_bind nn_folded_name); [apply parses_text| |].
        { intros folded _. apply (parses_bind nn_display_name); [apply parses_text| |].
          - intros display _. apply (parses_bind nn_directory); [apply parses_kind| |].
            + intros dir _. apply (parses_bind nn_size); [apply parses_u64| |].
              * intros size _. apply (parses_bind nn_version_root); [apply parses_opt32| |].
                { intros v _. apply (parses_bind nn_extent_root); [apply parses_opt32| |]; [intros e _; apply parses_ret|by intros ? ? _ ->]. }
                by intros ? ? _ (_ & ->).
              * by intros ? ? _ (_ & _ & ->).
            + by intros ? ? _ (_ & _ & _ & ->).
          - by intros ? ? _ (_ & _ & _ & _ & ->). }
        by intros ? ? _ (_ & _ & _ & _ & _ & ->).
      * by intros ? ? _ (_ & _ & _ & _ & _ & _ & ->).
    + by intros ? ? _ (_ & _ & _ & _ & _ & _ & _ & _ & ->).
  - intros n _. unfold enc_node. by rewrite app_nil_r.
  - intros [i p f d k s v e]. simpl. split.
    + intros (? & Ha & ? & ? & ? & _ & ? & ? & ? & _). split; [by constructor|]. destruct previous; simpl; [zbool; lia|done].
    + intros [[] Ha]. split_and!; try done. destruct previous; simpl in *; [apply Z.leb_gt; lia|done].
Qed.

Fixpoint ordered_from (previous : option InodeId) (ns : list NamespaceNodeRecord) : Prop :=
  match ns with [] => True | n :: ns => after previous n /\ ordered_from (Some (nn_inode n)) ns end.

Lemma parses_nodes (count : nat) (previous : option InodeId) :
  parses (cur_nodes count previous) (fun ns => concat (map enc_node ns))
    (fun ns => length ns = count /\ Forall node_ok ns /\ ordered_from previous ns).
Proof.
  revert previous. induction count as [|count IH]; intros previous b ns rest Hb; cbn [cur_nodes].
  - unfold mret, parser_ret. split; [by intros [= <- <-]|]. intros (-> & Hl & _). by apply nil_length_inv in Hl as ->.
  - unfold mbind, parser_bind, mret, parser_ret. split.
    + destruct (cur_node previous b) as [[n b1]|] eqn:E1; [|done]. apply parses_node in E1 as (-> & Hn & Ha); [|done].
      apply Forall_app in Hb as [_ Hb]. destruct (cur_nodes count (Some (nn_inode n)) b1) as [[l b2]|] eqn:E2; [|done].
      intros [= <- <-]. apply IH in E2 as (-> & <- & ? & ?); [|done]. cbn [map concat]. rewrite <- app_assoc. split_and!; try done. by constructor.
    + intros (-> & Hl & Hf & Ho). destruct ns as [|n ns]; [done|]. cbn [map concat] in *. rewrite <- app_assoc in Hb |- *.
      apply Forall_cons in Hf as [Hn Hf]. destruct Ho as [Ha Ho].
      rewrite (proj2 (parses_node previous _ n (concat (map enc_node ns) ++ rest) Hb)) by done.
      apply Forall_app in Hb as [_ Hb]. injection Hl as Hl. by rewrite (proj2 (IH _ _ ns rest Hb)).
Qed.

Lemma ordered_weaken (previous : option InodeId) (ns : list NamespaceNodeRecord) :
  ordered_from previous ns -> StronglySorted (fun a b => nn_inode a < nn_inode b) ns /\ Forall (after previous) ns.
Proof.
  revert previous. induction ns as [|n ns IH]; intros previous; [by repeat constructor|].
  intros [Ha [Hs Hf]%IH]. split.
  - by constructor.
  - constructor; [done|]. eapply Forall_impl; [exact Hf|]. intros m Hm. destruct previous; simpl in *; [lia|done].
Qed.
Lemma ordered_sorted (ns : list NamespaceNodeRecord) : ordered_from None ns <-> StronglySorted (fun a b => nn_inode a < nn_inode b) ns.
Proof.
  split; [by intros []%ordered_weaken|]. assert (Hg : forall previous, Forall (after previous) ns -> StronglySorted (fun a b => nn_inode a < nn_inode b) ns -> ordered_from previous ns).
  { induction ns as [|n ns IH]; intros previous Hf Hs; [done|]. apply Forall_cons in Hf as [Hn _].
    apply StronglySorted_inv in Hs as [Hs Hlt]. split; [done|]. by apply IH. }
  intros Hs. apply Hg; [|done]. by apply Forall_true.
Qed.
Lemma sorted_inodes_NoDup (ns : list NamespaceNodeRecord) :
  StronglySorted (fun a b => nn_inode a < nn_inode b) ns -> NoDup (map nn_inode ns).
Proof.
  induction 1 as [|n ns Hs IH Hf]; [constructor|]. cbn [map]. constructor; [|done].
  intros (m & Hm & Hin)%list_elem_of_fmap. rewrite Forall_forall in Hf. specialize (Hf m Hin). simpl in Hf. lia.
Qed.
Lemma sorted_is_canonical (ns : list NamespaceNodeRecord) :
  StronglySorted (fun a b => nn_inode a < nn_inode b) ns -> sort_by_key nn_inode ns = ns /\ duplicate_inode ns = false.
Proof.
  intros Hs. split.
  - apply sort_by_id. induction Hs as [|n ns Hs IH Hf]; constructor; [done|]. eapply Forall_impl; [exact Hf|].
    intros m Hm. unfold key_le. apply Z.leb_le. simpl in Hm. lia.
  - induction Hs as [|n ns Hs IH Hf]; [done|]. destruct ns as [|m ns]; [done|].
    change (duplicate_inode (n :: m :: ns)) with ((nn_inode n =? nn_inode m) || duplicate_inode (m :: ns)).
    rewrite IH. apply Forall_cons in Hf as [Hm _]. rewrite orb_false_r. apply Z.eqb_neq. simpl in Hm. lia.
Qed.

(** ** The document *)
Record checkpoint_ok (c : NamespaceCheckpoint) : Prop := mk_checkpoint_ok {
  co_volume : id_ok 16 (nc_volume_id c); co_seq : in_u64 (nc_checkpoint_seq c); co_commit : opt_ok (id_ok 32) (nc_parent_commit c);
  co_count : Z.of_nat (length (nc_nodes c)) <= u32_max; co_nodes : Forall node_ok (nc_nodes c);
  co_sorted : StronglySorted (fun a b => nn_inode a < nn_inode b) (nc_nodes c)
}.
Definition enc_checkpoint (c : NamespaceCheckpoint) : list Z :=
  CHECKPOINT_MAGIC ++ to_le 4 NAMESPACE_FORMAT_VERSION ++ to_be 16 (nc_volume_id c) ++ to_le 8 (nc_checkpoint_seq c) ++
  sink_opt 32 (nc_parent_commit c) ++ to_le 4 (Z.of_nat (length (nc_nodes c))) ++ concat (map enc_node (nc_nodes c)).

Lemma encode_checkpoint_ok (c : NamespaceCheckpoint) : checkpoint_ok c -> encode_checkpoint c = Ok (enc_checkpoint c).
Proof.
  intros []. unfold encode_checkpoint. destruct (sorted_is_canonical _ co_sorted0) as [-> ->].
  rewrite (proj2 (Z.ltb_ge _ _)) by done. rewrite (encode_all_ok _ enc_node); [done|].
  intros n Hn. apply encode_node_ok. by apply (proj1 (Forall_forall _ _) co_nodes0).
Qed.

(** A node costs at least [MIN_NODE_BYTES]. *)
Lemma length_enc_nodes (ns : list NamespaceNodeRecord) :
  Z.of_nat (length ns) * MIN_NODE_BYTES <= Z.of_nat (length (concat (map enc_node ns))).
Proof.
  induction ns as [|n ns IH]; [done|]. cbn [map concat]. rewrite length_app.
  assert (36 <= Z.of_nat (length (enc_node n))).
  { unfold enc_node, enc_text, sink_opt. rewrite !length_app, !length_be, !length_le. cbn [length]. lia. }
  unfold MIN_NODE_BYTES in *. cbn [length]. lia.
Qed.

(** The count is checked against what is left, then the nodes are read. *)
Lemma accepts_nodes (volume_id checkpoint_seq count : Z) (parent_commit : option Hash) :
  in_u32 count ->
  accepts (_ ← (fun b => refuse_if (match checked_mul count MIN_NODE_BYTES with
                                    | Some minimum => Z.of_nat (length b) <? minimum | None => true end)
                           (manifest_invalid "namespace node count exceeds the document bound") b);
           nodes ← cur_nodes (Z.to_nat count) None; _ ← cur_done;
           mret (mkCheckpoint volume_id checkpoint_seq parent_commit nodes))
    (fun c => concat (map enc_node (nc_nodes c)) ++ [])
    (fun c => (length (nc_nodes c) = Z.to_nat count /\ Forall node_ok (nc_nodes c) /\ ordered_from None (nc_nodes c)) /\
              c = mkCheckpoint volume_id checkpoint_seq parent_commit (nc_nodes c)).
Proof.
  intros Hc. set (k := nodes ← cur_nodes (Z.to_nat count) None; _ ← cur_done; mret (mkCheckpoint volume_id checkpoint_seq parent_commit nodes)).
  assert (Hk : accepts k (fun c => concat (map enc_node (nc_nodes c)) ++ [])
    (fun c => (length (nc_nodes c) = Z.to_nat count /\ Forall node_ok (nc_nodes c) /\ ordered_from None (nc_nodes c)) /\
              c = mkCheckpoint volume_id checkpoint_seq parent_commit (nc_nodes c))).
  { unfold k. apply (accepts_bind nc_nodes (cur_nodes (Z.to_nat count) None) _ (fun ns => concat (map enc_node ns))
      (fun ns => length ns = Z.to_nat count /\ Forall node_ok ns /\ ordered_from None ns) (fun _ => []) (fun ns c => c = mkCheckpoint volume_id checkpoint_seq parent_commit ns));
      [apply parses_nodes|intros ns _; apply accepts_done|by intros ns c _ ->]. }
  intros b c rest Hb. rewrite <- (Hk b c rest Hb). unfold mbind at 1, parser_bind at 1, refuse_if.
  unfold checked_mul. rewrite (proj2 (Z.leb_le (count * MIN_NODE_BYTES) u64_max)) by (unfold MIN_NODE_BYTES; mach).
  destruct (Z.ltb_spec (Z.of_nat (length b)) (count * MIN_NODE_BYTES)) as [Hlt|]; [|done]. split; [done|].
  intros (_ & -> & (Hl & _) & _)%Hk; [|done]. rewrite app_nil_r in Hlt. pose proof (length_enc_nodes (nc_nodes c)) as Hlen.
  rewrite Hl, Z2Nat.id in Hlen by mach. lia.
Qed.

Lemma cur_checkpoint_spec (b : list Z) (c : NamespaceCheckpoint) (rest : list Z) :
  is_bytes b ->
  cur_checkpoint b = Ok (c, rest) <->
  rest = [] /\ b = enc_checkpoint c /\ checkpoint_ok c /\ Z.of_nat (length b) <= MAX_NAMESPACE_DOCUMENT_BYTES.
Proof.
  intros Hb. unfold cur_checkpoint. set (body := volume_id ← cur_id 16; _).
  assert (Hbody : accepts body
    (fun c => to_be 16 (nc_volume_id c) ++ to_le 8 (nc_checkpoint_seq c) ++
       sink_opt 32 (nc_parent_commit c) ++ to_le 4 (Z.of_nat (length (nc_nodes c))) ++ concat (map enc_node (nc_nodes c)))
    checkpoint_ok).
  { unfold body. eapply accepts_ext.
    - apply (accepts_bind nc_volume_id); [apply parses_be| |].
      + intros v _. apply (accepts_bind nc_checkpoint_seq); [apply parses_u64| |].
        * intros s _. apply (accepts_bind nc_parent_commit); [apply parses_opt, parses_be| |].
          { intros pc _. apply (accepts_bind (fun c => Z.of_nat (length (nc_nodes c)))); [apply parses_u32|intros; by apply accepts_nodes|].
            intros n c' Hn ((-> & _) & _). mach. }
          by intros ? ? _ (_ & _ & ->).
        * by intros ? ? _ (_ & _ & _ & ->).
      + by intros ? ? _ (_ & _ & _ & _ & ->).
    - intros c' _. cbn beta. by rewrite app_nil_r.
    - intros [v s pc ns]. simpl. rewrite Nat2Z.id, ordered_sorted. split.
      + intros (? & ? & ? & Hu & (_ & ? & ?) & _). constructor; try done. simpl. mach.
      + intros []. split; [done|]. split; [done|]. split; [done|]. split; [simpl in *; mach|done]. }
  unfold mbind, parser_bind. split.
  - destruct (check_magic CHECKPOINT_MAGIC MAX_NAMESPACE_DOCUMENT_BYTES b) as [[[] b1]|] eqn:E; [|done].
    apply parses_magic in E as [-> Hl]; [|done|done|by apply bytes_check]. intros H.
    do 2 apply Forall_app in Hb as [_ Hb]. apply Hbody in H as (-> & -> & Hc); done.
  - intros (-> & -> & Hc & Hl). unfold enc_checkpoint in *.
    rewrite (proj2 (parses_magic CHECKPOINT_MAGIC _ _ MAX_NAMESPACE_DOCUMENT_BYTES Hb eq_refl (bytes_check CHECKPOINT_MAGIC eq_refl)) (conj eq_refl Hl)).
    do 2 apply Forall_app in Hb as [_ Hb]. by apply Hbody.
Qed.

(** ** Trees *)
Inductive rooted (nodes : list NamespaceNodeRecord) : NamespaceNodeRecord -> Prop :=
| rooted_root n : n ∈ nodes -> nn_parent n = None -> nn_directory n = true -> rooted nodes n
| rooted_child n p : n ∈ nodes -> nn_parent n = Some (nn_inode p) -> nn_directory p = true -> rooted nodes p -> rooted nodes n.

(** One root, every node hangs under it, and names are unique among the
    children of a directory. *)
Record namespace_tree (nodes : list NamespaceNodeRecord) : Prop := mk_namespace_tree {
  nt_rooted : forall n, n ∈ nodes -> rooted nodes n;
  nt_root : exists r, r ∈ nodes /\ nn_parent r = None /\ forall n, n ∈ nodes -> nn_parent n = None -> n = r;
  nt_siblings : NoDup (map sibling_key nodes)
}.

Lemma check_siblings_spec (l : list NamespaceNodeRecord) (seen : gset (Z * Str)) :
  check_siblings l seen = Ok tt <-> NoDup (map sibling_key l) /\ forall n, n ∈ l -> sibling_key n ∉ seen.
Proof.
  revert seen. induction l as [|n l IH]; intros seen; cbn [check_siblings map].
  - split; [|done]. intros _. split; [constructor|]. by intros n ?%not_elem_of_nil.
  - rewrite NoDup_cons. destruct (bool_decide_reflect (sibling_key n ∈ seen)) as [Hin|Hin].
    + split; [done|]. intros [_ H]. by destruct (H n ltac:(left)).
    + rewrite IH. split.
      * intros [Hnd H]. split.
        { split; [|done]. intros (m & Hm & Hl)%list_elem_of_fmap. apply (H m Hl). rewrite <- Hm. set_solver. }
        intros m [->|Hm]%elem_of_cons; [done|]. specialize (H m Hm). set_solver.
      * intros [[Hn Hnd] H]. split; [done|]. intros m Hm [Hk|Hk]%elem_of_union.
        { apply elem_of_singleton in Hk. apply Hn, list_elem_of_fmap. by exists m. }
        by apply (H m ltac:(by right)).
Qed.
Lemma all_checks_spec {A : Type} (f : A -> result unit) (l : list A) : all_checks f l = Ok tt <-> forall x, x ∈ l -> f x = Ok tt.
Proof.
  induction l as [|x l IH]; cbn [all_checks]; [split; [by intros _ x ?%not_elem_of_nil|done]|].
  destruct (f x) as [[]|] eqn:E; cbn [mbind result_bind].
  - rewrite IH. split; [by intros H y [->|Hy]%elem_of_cons; [|apply H]|]. intros H y Hy. apply H. by right.
  - split; [done|]. intros H. rewrite H in E; [done|left].
Qed.

Section graph.
Context (nodes : list NamespaceNodeRecord) (Hinodes : NoDup (map nn_inode nodes)).

Lemma known_spec (i : InodeId) (n : NamespaceNodeRecord) : known_nodes nodes !! i = Some n <-> n ∈ nodes /\ nn_inode n = i.
Proof using Hinodes.
  unfold known_nodes. rewrite <- elem_of_list_to_map by (by rewrite map_map). rewrite list_elem_of_fmap. split.
  - by intros (m & [= -> ->] & Hm).
  - intros [Hn <-]. by exists n.
Qed.
Lemma inode_inj (n m : NamespaceNodeRecord) : n ∈ nodes -> m ∈ nodes -> nn_inode n = nn_inode m -> n = m.
Proof using Hinodes.
  intros Hn Hm E. assert (H : known_nodes nodes !! nn_inode n = Some n) by (by apply known_spec).
  assert (H' : known_nodes nodes !! nn_inode n = Some m) by (by apply known_spec). congruence.
Qed.

(** *** Depth *)
Fixpoint at_depth (k : nat) (n : NamespaceNodeRecord) : Prop :=
  match k with
  | O => nn_parent n = None
  | S k => exists p, nn_parent n = Some (nn_inode p) /\ p ∈ nodes /\ at_depth k p
  end.
Lemma at_depth_det (j k : nat) (n : NamespaceNodeRecord) : at_depth j n -> at_depth k n -> j = k.
Proof using Hinodes.
  revert k n. induction j as [|j IH]; intros [|k] n; simpl; [done| | |].
  - intros Hn (p & Hp & _). congruence.
  - intros (p & Hp & _) Hn. congruence.
  - intros (p & Hp & Hin & Hj) (q & Hq & Hin' & Hk). rewrite Hp in Hq. injection Hq as E.
    rewrite <- (inode_inj p q Hin Hin' E) in Hk. f_equal. by eapply IH.
Qed.
Lemma at_depth_path (k : nat) (n : NamespaceNodeRecord) :
  n ∈ nodes -> at_depth k n ->
  exists path, length path = S k /\ NoDup path /\ (forall m, m ∈ path -> m ∈ nodes /\ exists j, (j <= k)%nat /\ at_depth j m).
Proof using Hinodes.
  revert n. induction k as [|k IH]; intros n Hn Hd.
  - exists [n]. split_and!; [done|apply NoDup_singleton|]. intros m ->%list_elem_of_singleton. split; [done|]. by exists 0%nat.
  - destruct Hd as (p & Hp & Hin & Hd). destruct (IH p Hin Hd) as (path & Hl & Hnd & Hall).
    exists (n :: path). split_and!; [by rewrite length_cons, Hl| |].
    + constructor; [|done]. intros (_ & j & Hj & Hdj)%Hall.
      assert (j = S k) by (apply (at_depth_det j (S k) n Hdj); simpl; eauto). lia.
    + intros m [->|Hm]%elem_of_cons.
      * split; [done|]. exists (S k). split; [lia|]. simpl. eauto.
      * destruct (Hall m Hm) as (? & j & ? & ?). split; [done|]. exists j. split; [lia|done].
Qed.
Lemma at_depth_bound (k : nat) (n : NamespaceNodeRecord) : n ∈ nodes -> at_depth k n -> (k <= length nodes - 1)%nat.
Proof using Hinodes.
  intros Hn Hd. destruct (at_depth_path k n Hn Hd) as (path & Hl & Hnd & Hall).
  assert (length path <= length nodes)%nat; [|lia]. apply NoDup_incl_length.
  - by apply NoDup_ListNoDup.
  - intros m Hm%list_elem_of_In. apply list_elem_of_In. by apply Hall.
Qed.

Lemma ascend_spec (fuel : nat) (n : NamespaceNodeRecord) :
  ascend (known_nodes nodes) fuel n = Reached <-> exists k, (k <= fuel)%nat /\ at_depth k n.
Proof using Hinodes.
  revert n. induction fuel as [|fuel IH]; intros n; cbn [ascend]; destruct (nn_parent n) as [i|] eqn:Hp.
  - destruct (known_nodes nodes !! i); (split; [done|]); intros (k & Hk & Hd); destruct k as [|k]; simpl in Hd; [congruence|lia|congruence|lia].
  - split; [|done]. intros _. by exists 0%nat.
  - destruct (known_nodes nodes !! i) as [p|] eqn:Hk.
    + apply known_spec in Hk as [Hin <-]. rewrite IH. split.
      * intros (k & ? & ?). exists (S k). split; [lia|]. simpl. eauto.
      * intros ([|k] & ? & Hd); simpl in Hd; [congruence|]. destruct Hd as (q & Hq & Hin' & Hd). rewrite Hp in Hq. injection Hq as E.
        rewrite <- (inode_inj p q Hin Hin' E) in Hd. exists k. split; [lia|done].
    + split; [done|]. intros ([|k] & ? & Hd); simpl in Hd; [congruence|]. destruct Hd as (q & Hq & Hin' & Hd).
      rewrite Hp in Hq. injection Hq as ->. rewrite (proj2 (known_spec (nn_inode q) q)) in Hk; done.
  - split; [|done]. intros _. exists 0%nat. split; [lia|done].
Qed.

(** *** The checks *)
Definition parent_fine (n : NamespaceNodeRecord) : Prop :=
  match nn_parent n with
  | None => nn_directory n = true
  | Some i => i <> nn_inode n /\ exists p, p ∈ nodes /\ nn_inode p = i /\ nn_directory p = true
  end.
Definition is_root (n : NamespaceNodeRecord) : bool := match nn_parent n with None => true | Some _ => false end.

Lemma check_parent_spec (n : NamespaceNodeRecord) (b : bool) :
  check_parent (known_nodes nodes) n = Ok b <-> b = is_root n /\ parent_fine n.
Proof using Hinodes.
  unfold check_parent, parent_fine, is_root. destruct (nn_parent n) as [i|].
  - destruct (Z.eqb_spec i (nn_inode n)); [naive_solver|]. destruct (known_nodes nodes !! i) as [p|] eqn:Hk; simpl.
    + apply known_spec in Hk as [Hin <-]. destruct (nn_directory p) eqn:Hd; [naive_solver|]. split; [done|].
      intros (_ & _ & q & Hq & E & Hdq). rewrite (inode_inj q p Hq Hin E) in Hdq. congruence.
    + split; [done|]. intros (_ & _ & q & Hq & E & _). rewrite (proj2 (known_spec i q)) in Hk; done.
  - destruct (nn_directory n); naive_solver.
Qed.
Lemma count_roots_spec (l : list NamespaceNodeRecord) (k r : Z) :
  count_roots (known_nodes nodes) l k = Ok r <-> Forall parent_fine l /\ r = k + cnt is_root l.
Proof using Hinodes.
  revert k. induction l as [|n l IH]; intros k; cbn [count_roots].
  - unfold cnt. simpl. rewrite Z.add_0_r. split; [intros [= ->]; by repeat constructor|by intros [_ ->]].
  - rewrite cnt_cons. destruct (check_parent (known_nodes nodes) n) as [b|] eqn:E; cbn [mbind result_bind].
    + apply check_parent_spec in E as [-> Hn]. rewrite IH, Forall_cons.
      destruct (is_root n); simpl; (split; [intros [? ?]|intros [[_ ?] ?]]); split; try done; lia.
    + split; [done|]. intros [[Hn _]%Forall_cons _]. rewrite (proj2 (check_parent_spec n (is_root n))) in E; done.
Qed.
Lemma single_root :
  cnt is_root nodes = 1 <-> exists r, r ∈ nodes /\ nn_parent r = None /\ forall n, n ∈ nodes -> nn_parent n = None -> n = r.
Proof using Hinodes.
  assert (Hroot : forall n, is_root n = true <-> nn_parent n = None) by (intros n; unfold is_root; destruct (nn_parent n); done).
  assert (Hnd : NoDup nodes) by (by eapply NoDup_fmap_1). clear Hinodes. induction nodes as [|n l IH].
  - unfold cnt. simpl. split; [done|]. by intros (r & ?%not_elem_of_nil & _).
  - apply NoDup_cons in Hnd as [Hn Hnd]. rewrite cnt_cons. pose proof (cnt_bounds is_root l) as Hb. destruct (is_root n) eqn:Er; simpl.
    + assert (Hz : cnt is_root l = 0 <-> forall m, m ∈ l -> nn_parent m <> None).
      { split.
        - intros Hz m Hm Hp. assert (0 < cnt is_root l); [|lia]. apply cnt_pos, existsb_exists. exists m. split; [by apply list_elem_of_In|by apply Hroot].
        - intros H. destruct (Z.eq_dec (cnt is_root l) 0); [done|]. assert (Hp : 0 < cnt is_root l) by lia.
          apply cnt_pos, existsb_exists in Hp as (m & Hm%list_elem_of_In & Hr%Hroot). by destruct (H m Hm). }
      split.
      * intros H1. exists n. split_and!; [left|by apply Hroot|]. intros m [->|Hm]%elem_of_cons Hp; [done|].
        destruct (proj1 Hz ltac:(lia) m Hm Hp).
      * intros (r & _ & _ & Hall). assert (n = r) as <- by (apply Hall; [left|by apply Hroot]).
        enough (cnt is_root l = 0) by lia. apply Hz. intros m Hm Hp. assert (m = n) as -> by (apply Hall; [by right|done]). done.
    + rewrite Z.add_0_l, (IH Hnd). assert (nn_parent n <> None) by (intros H%Hroot; congruence). split; intros (r & Hr & Hp & Hall).
      * exists r. split_and!; [by right|done|]. intros m [->|Hm]%elem_of_cons Hm'; [done|]. by apply Hall.
      * exists r. apply elem_of_cons in Hr as [->|Hr]; [done|]. split_and!; [done|done|]. intros m Hm. apply Hall. by right.
Qed.

Lemma rooted_depth (n : NamespaceNodeRecord) : rooted nodes n -> n ∈ nodes /\ exists k, at_depth k n.
Proof using Type. induction 1 as [n Hn Hp _|n p Hn Hp _ _ (Hin & k & Hk)]; (split; [done|]); [by exists 0%nat|]. exists (S k). simpl. eauto. Qed.
Lemma depth_rooted (k : nat) (n : NamespaceNodeRecord) : Forall parent_fine nodes -> n ∈ nodes -> at_depth k n -> rooted nodes n.
Proof using Hinodes.
  intros Hf. rewrite Forall_forall in Hf. revert n. induction k as [|k IH]; intros n Hn Hd; pose proof (Hf n Hn) as Hfn; unfold parent_fine in Hfn.
  - simpl in Hd. rewrite Hd in Hfn. by apply rooted_root.
  - destruct Hd as (p & Hp & Hin & Hd). rewrite Hp in Hfn. destruct Hfn as (_ & q & Hq & E & Hdq).
    rewrite (inode_inj q p Hq Hin E) in Hdq. apply (rooted_child _ n p); auto.
Qed.
Lemma rooted_parent_fine (n : NamespaceNodeRecord) : rooted nodes n -> parent_fine n.
Proof using Hinodes.
  intros H. destruct (rooted_depth n H) as (Hn & k & Hk). unfold parent_fine. inversion H as [? _ Hp Hd|? p _ Hp Hd Hr]; subst; rewrite Hp; [done|].
  destruct (rooted_depth p Hr) as (Hin & j & Hj). split; [|eauto]. intros E.
  assert (p = n) as -> by (by apply inode_inj). assert (j = S j); [|lia]. apply (at_depth_det j (S j) n Hj). simpl. eauto.
Qed.

(** The checks accept exactly the trees; the walk never indexes a missing
    key. *)
Lemma check_graph_spec : check_graph nodes = Ok tt <-> namespace_tree nodes.
Proof using Hinodes.
  unfold check_graph. destruct (count_roots (known_nodes nodes) nodes 0) as [r|e] eqn:Er; cbn [mbind result_bind].
  2:{ split; [done|]. intros [Hr _ _]. rewrite (proj2 (count_roots_spec nodes 0 (cnt is_root nodes))) in Er; [done|]. split; [|done].
      apply Forall_forall. intros n Hn. by apply rooted_parent_fine, Hr. }
  apply count_roots_spec in Er as [Hf ->]. rewrite Z.add_0_l. destruct (Z.eqb_spec (cnt is_root nodes) 1) as [H1|H1]; cbn [negb].
  2:{ split; [done|]. intros [_ Hr _]. by apply single_root in Hr. }
  destruct (check_siblings nodes ∅) as [[]|] eqn:Es; cbn [mbind result_bind].
  2:{ split; [done|]. intros [_ _ Hs]. rewrite (proj2 (check_siblings_spec nodes ∅)) in Es; [done|]. split; [done|]. set_solver. }
  apply check_siblings_spec in Es as [Hs _]. rewrite all_checks_spec. unfold check_acyclic. split.
  - intros Ha. constructor; [|by apply single_root|done]. intros n Hn. specialize (Ha n Hn).
    destruct (ascend (known_nodes nodes) (length nodes - 1) n) eqn:E; try done. apply ascend_spec in E as (k & _ & Hk). by eapply depth_rooted.
  - intros [Hr _ _] n Hn. destruct (rooted_depth n (Hr n Hn)) as (_ & k & Hk).
    rewrite (proj2 (ascend_spec (length nodes - 1) n)); [done|]. exists k. split; [by eapply at_depth_bound|done].
Qed.
End graph.

(** A byte string decodes to a checkpoint exactly when it is the encoding
    of that checkpoint, fits the document bound, and the checkpoint's fields
    fit, its inodes ascend strictly and its nodes form a single tree: one
    root, every node under it through directories, and no two children of a
    directory with the same folded name. *)
Theorem checkpoint_codec_exact (b : list Z) (c : NamespaceCheckpoint) :
  is_bytes b ->
  decode_checkpoint b = Ok c <->
  encode_checkpoint c = Ok b /\ checkpoint_ok c /\ namespace_tree (nc_nodes c) /\
  Z.of_nat (length b) <= MAX_NAMESPACE_DOCUMENT_BYTES.
Proof.
  intros Hb. unfold decode_checkpoint. split.
  - intros H. apply bind_Ok_inv in H as ([c' rest] & (_ & -> & Hc & Hl)%(cur_checkpoint_spec _ _ _ Hb) & H).
    apply bind_Ok_inv in H as ([] & Hg & H). apply Ok_inj in H as ->. split_and!; [by apply encode_checkpoint_ok|done| |done].
    by apply (check_graph_spec _ (sorted_inodes_NoDup _ (co_sorted c Hc))).
  - intros (He & Hc & Ht & Hl). rewrite (encode_checkpoint_ok c Hc) in He. apply Ok_inj in He as <-.
    rewrite (proj2 (cur_checkpoint_spec _ c [] Hb)) by done. cbn [mbind result_bind].
    by rewrite (proj2 (check_graph_spec _ (sorted_inodes_NoDup _ (co_sorted c Hc)))).
Qed.

Definition demo_sorted : NamespaceCheckpoint := mkCheckpoint (demo_inode 9) 3 (Some (from_be (replicate 32 5))) [demo_root; demo_file].
Definition demo_document : list Z := match encode_checkpoint demo_sorted with Ok b => b | Err _ => [] end.
(** Witness. *)
Lemma checkpoint_codec_exact_witness : decode_checkpoint demo_document = Ok demo_sorted /\ namespace_tree (nc_nodes demo_sorted).
Proof.
  assert (Hd : decode_checkpoint demo_document = Ok demo_sorted) by (vm_compute; reflexivity). split; [exact Hd|].
  refine (proj1 (proj2 (proj2 (proj1 (checkpoint_codec_exact demo_document demo_sorted _) Hd)))).
  apply bytes_check. vm_compute. reflexivity.
Defined.

(** ** Errors *)
Definition raises {A : Type} (p : parser A) : Prop := forall b e, p b = Err e -> kind e = ManifestInvalid.
Lemma raises_ret {A : Type} (a : A) : raises (mret a).
Proof. done. Qed.
Lemma raises_bind {A B : Type} (p : parser A) (k : A -> parser B) : raises p -> (forall a, raises (k a)) -> raises (p ≫= k).
Proof.
  intros Hp Hk b e. unfold mbind, parser_bind. destruct (p b) as [[a b1]|e1] eqn:E; [apply Hk|]. intros [= <-]. by eapply Hp.
Qed.
Lemma raises_refuse_if (c : bool) (m : string) : raises (refuse_if c (manifest_invalid m)).
Proof. intros b e. unfold refuse_if. destruct c; [by intros [= <-]|done]. Qed.
Lemma raises_refuse {A : Type} (m : string) : raises (@refuse A (manifest_invalid m)).
Proof. intros b e. unfold refuse. by intros [= <-]. Qed.
Lemma raises_take (n : nat) : raises (cur_take n).
Proof. intros b e. unfold cur_take. destruct (n <=? length b)%nat; [done|]. by intros [= <-]. Qed.
Lemma raises_done : raises cur_done.
Proof. intros b e. unfold cur_done. destruct b; [done|]. by intros [= <-]. Qed.
Create HintDb raises.
#[export] Hint Resolve raises_ret raises_bind raises_refuse_if raises_refuse raises_take raises_done : raises.
Ltac raises_tac :=
  repeat match goal with
  | |- raises (_ ≫= _) => apply raises_bind; [|intros ?]
  | |- raises (if ?c then _ else _) => destruct c
  end; eauto with raises.
Lemma raises_text : raises cur_text.
Proof. unfold cur_text, cur_u32. raises_tac. Qed.
Lemma raises_opt {A : Type} (m : string) (p : parser A) : raises p -> raises (cur_opt (manifest_invalid m) p).
Proof. intros. unfold cur_opt, cur_byte. raises_tac. Qed.
Lemma raises_id (n : nat) : raises (cur_id n).
Proof. unfold cur_id. raises_tac. Qed.
Lemma raises_u64 : raises cur_u64.
Proof. unfold cur_u64. raises_tac. Qed.
#[export] Hint Resolve raises_text raises_opt raises_id raises_u64 : raises.
Lemma raises_node (previous : option InodeId) : raises (cur_node previous).
Proof. unfold cur_node, cur_inode, cur_opt16, cur_opt32, cur_kind, cur_byte. raises_tac. Qed.
Lemma raises_nodes (count : nat) (previous : option InodeId) : raises (cur_nodes count previous).
Proof. revert previous. induction count; intros previous; cbn [cur_nodes]; [apply raises_ret|]. pose proof (raises_node previous). raises_tac. Qed.

(** The walk comes after the parent checks. *)
Lemma ascend_no_panic (nodes : list NamespaceNodeRecord) (fuel : nat) (n : NamespaceNodeRecord) :
  NoDup (map nn_inode nodes) -> Forall (parent_fine nodes) nodes -> n ∈ nodes ->
  ascend (known_nodes nodes) fuel n <> MissingKey.
Proof.
  intros Hi Hf. pose proof (proj1 (Forall_forall _ _) Hf) as Hf'. revert n. induction fuel as [|fuel IH]; intros n Hn; cbn [ascend];
    pose proof (Hf' n Hn) as Hfn; unfold parent_fine in Hfn; destruct (nn_parent n) as [i|]; try done;
    destruct Hfn as (_ & p & Hp & E & _); rewrite (proj2 (known_spec nodes Hi i p)) by done; [done|]. by apply IH.
Qed.
Lemma check_parent_errors (known : gmap Z NamespaceNodeRecord) (n : NamespaceNodeRecord) (e : MirageError) :
  check_parent known n = Err e -> kind e = ManifestInvalid.
Proof.
  unfold check_parent. destruct (nn_parent n) as [i|].
  - destruct (i =? nn_inode n); [by intros [= <-]|]. destruct (known !! i) as [p|]; simpl; [destruct (nn_directory p)|]; by intros [= <-].
  - destruct (nn_directory n); [done|]. by intros [= <-].
Qed.
Lemma check_graph_errors (nodes : list NamespaceNodeRecord) (e : MirageError) :
  NoDup (map nn_inode nodes) -> check_graph nodes = Err e -> kind e = ManifestInvalid.
Proof.
  intros Hi. unfold check_graph. destruct (count_roots (known_nodes nodes) nodes 0) as [r|e1] eqn:Er; cbn [mbind result_bind].
  2:{ intros [= <-]. clear -Er. revert Er. generalize nodes at 2. generalize 0. intros k l. revert k.
      induction l as [|n l IH]; intros k; cbn [count_roots]; [done|].
      destruct (check_parent (known_nodes nodes) n) as [b|e2] eqn:E; cbn [mbind result_bind]; [apply IH|]. intros [= <-]. by apply check_parent_errors in E. }
  apply count_roots_spec in Er as [Hf ->]; [|done]. destruct (negb _); [by intros [= <-]|].
  destruct (check_siblings nodes ∅) as [[]|e1] eqn:Es; cbn [mbind result_bind].
  2:{ intros [= <-]. clear -Es. revert Es. generalize (∅ : gset (Z * Str)). induction nodes as [|n l IH]; intros seen; cbn [check_siblings]; [done|].
      case_match; [by intros [= <-]|apply IH]. }
  assert (Ha : forall l, (forall n, n ∈ l -> n ∈ nodes) -> all_checks (check_acyclic (known_nodes nodes) nodes) l = Err e -> kind e = ManifestInvalid).
  { induction l as [|n l IH]; intros Hl; cbn [all_checks]; [done|].
    pose proof (ascend_no_panic nodes (length nodes - 1) n Hi Hf (Hl n ltac:(left))) as Hn.
    destruct (check_acyclic (known_nodes nodes) nodes n) as [[]|e1] eqn:E; cbn [mbind result_bind].
    2:{ intros [= <-]. unfold check_acyclic in E. destruct (ascend _ _ n); [done|by injection E as <-|done]. }
    apply IH. intros m Hm. apply Hl. by right. }
  by apply Ha.
Qed.

(** A document that this version must not read: known magic, another version. *)
Definition other_version (magic : list Z) (maximum : Z) (b : list Z) : Prop :=
  exists v rest, b = magic ++ to_le 4 v ++ rest /\ in_u32 v /\ v <> NAMESPACE_FORMAT_VERSION /\ Z.of_nat (length b) <= maximum.

Lemma check_magic_errors (magic b : list Z) (maximum : Z) (e : MirageError) :
  is_bytes b -> length magic = 4%nat -> check_magic magic maximum b = Err e ->
  kind e = UnsupportedLayout /\ other_version magic maximum b \/ kind e = ManifestInvalid /\ ~ other_version magic maximum b.
Proof.
  intros Hb Hm. unfold check_magic, mbind at 1, parser_bind at 1, refuse_if at 1.
  destruct (Z.ltb_spec maximum (Z.of_nat (length b))) as [Hlt|Hle].
  { intros [= <-]. right. split; [done|]. intros (v & rest & _ & _ & _ & ?). lia. }
  unfold mbind at 1, parser_bind at 1. destruct (cur_take 4 b) as [[m b1]|e1] eqn:E1.
  2:{ intros [= <-]. right. split; [by apply raises_take in E1|]. intros (v & rest & -> & _).
      rewrite (proj2 (parses_take 4 _ magic (to_le 4 v ++ rest) Hb)) in E1; [done|]. apply Forall_app in Hb as [? _]. done. }
  apply parses_take in E1 as (-> & Hl & _); [|done]. unfold mbind at 1, parser_bind at 1, refuse_if at 1.
  destruct (bool_decide_reflect (m = magic)) as [->|Hne]; cbn [negb].
  2:{ intros [= <-]. right. split; [done|]. intros (v & rest & E & _). apply app_inj_1 in E as [? _]; [done|congruence]. }
  apply Forall_app in Hb as [_ Hb]. unfold mbind, parser_bind. destruct (cur_u32 b1) as [[v rest]|e1] eqn:E2.
  - apply parses_u32 in E2 as [-> Hv]; [|done]. unfold refuse_if. destruct (Z.eqb_spec v NAMESPACE_FORMAT_VERSION); cbn [negb]; [done|].
    intros [= <-]. left. split; [done|]. by exists v, rest.
  - intros [= <-]. right. split.
    + assert (Hr : raises cur_u32) by (unfold cur_u32; raises_tac). by eapply Hr.
    + intros (v & rest & E & Hv & _). apply app_inj_1 in E as [_ ->]; [|done]. rewrite (proj2 (parses_u32 _ v rest Hb)) in E2; done.
Qed.

(** A byte string that is no checkpoint is refused with an error of kind
    [UnsupportedLayout] exactly when it is a document of another format
    version, within the size bound; every other refusal is [ManifestInvalid].
    In particular the ancestor walk never indexes a missing inode. *)
Theorem checkpoint_decode_errors (b : list Z) (e : MirageError) :
  is_bytes b -> decode_checkpoint b = Err e ->
  kind e = UnsupportedLayout /\ other_version CHECKPOINT_MAGIC MAX_NAMESPACE_DOCUMENT_BYTES b \/
  kind e = ManifestInvalid /\ ~ other_version CHECKPOINT_MAGIC MAX_NAMESPACE_DOCUMENT_BYTES b.
Proof.
  intros Hb. unfold decode_checkpoint. destruct (cur_checkpoint b) as [[c rest]|e1] eqn:E; cbn [mbind result_bind].
  - apply cur_checkpoint_spec in E as (_ & -> & Hc & Hl); [|done].
    destruct (check_graph (nc_nodes c)) as [[]|e1] eqn:Eg; cbn [mbind result_bind]; [done|]. intros [= <-]. right. split.
    + by apply check_graph_errors in Eg; [|apply sorted_inodes_NoDup, (co_sorted c Hc)].
    + intros (v & rest' & E & Hv & Hne & _). unfold enc_checkpoint in E. apply app_inj_1 in E as [_ E]; [|done].
      apply app_inj_1 in E as [E _]; [|by rewrite !length_le]. apply (f_equal from_le) in E.
      rewrite !le_val_le in E by (unfold NAMESPACE_FORMAT_VERSION in *; change (256 ^ Z.of_nat 4) with 4294967296; mach). done.
  - intros [= <-]. revert E. unfold cur_checkpoint. unfold mbind at 1, parser_bind at 1.
    destruct (check_magic CHECKPOINT_MAGIC MAX_NAMESPACE_DOCUMENT_BYTES b) as [[[] b1]|e2] eqn:Em.
    + intros E. right. split.
      * revert E. set (p := volume_id ← _; _). assert (Hp : raises p); [|apply Hp]. unfold p, cur_u32. raises_tac.
        { intros b0 e0. apply raises_refuse_if. } apply raises_nodes.
      * intros (v & rest' & -> & Hv & Hne & Hl). apply parses_magic in Em as [E' _]; [|done|done|by apply bytes_check].
        apply app_inj_1 in E' as [_ E']; [|done]. apply app_inj_1 in E' as [E' _]; [|by rewrite !length_le]. apply (f_equal from_le) in E'.
        rewrite !le_val_le in E' by (unfold NAMESPACE_FORMAT_VERSION in *; change (256 ^ Z.of_nat 4) with 4294967296; mach). done.
    + intros [= <-]. by apply check_magic_errors in Em.
Qed.

(** Witness. *)
Lemma checkpoint_decode_errors_witness :
  exists e, decode_checkpoint (CHECKPOINT_MAGIC ++ to_le 4 2) = Err e /\
    (kind e = UnsupportedLayout /\ other_version CHECKPOINT_MAGIC MAX_NAMESPACE_DOCUMENT_BYTES (CHECKPOINT_MAGIC ++ to_le 4 2) \/
     kind e = ManifestInvalid /\ ~ other_version CHECKPOINT_MAGIC MAX_NAMESPACE_DOCUMENT_BYTES (CHECKPOINT_MAGIC ++ to_le 4 2)).
Proof.
  eexists. split; [vm_compute; reflexivity|]. apply checkpoint_decode_errors; [by apply bytes_check|vm_compute; reflexivity].
Defined.

(** ** Deltas

    The directory byte of a [Create] is read as a C boolean, so several bytes
    stand for [true]; [cur_op_raw] keeps the byte beside the operation. *)
Definition cur_op_raw : parser (NamespaceOp * Z) :=
  tag ← cur_byte;
  if tag =? 0 then
    parent ← cur_inode; inode ← cur_inode; display_name ← cur_text; folded_name ← cur_text;
    directory ← cur_byte; size ← cur_u64;
    mret (OpCreate parent inode display_name folded_name (negb (directory =? 0)) size, directory)
  else op ← (if tag =? 1 then
    inode ← cur_inode; from_parent ← cur_inode; from_folded ← cur_text; to_parent ← cur_inode;
    display_name ← cur_text; folded_name ← cur_text;
    mret (OpRename inode from_parent from_folded to_parent display_name folded_name)
  else if tag =? 2 then
    parent ← cur_inode; folded_name ← cur_text; inode ← cur_inode;
    mret (OpDelete parent folded_name inode)
  else if tag =? 3 then
    inode ← cur_inode; size ← cur_u64; version_root ← cur_opt32; extent_root ← cur_opt32;
    mret (OpSetRoots inode size version_root extent_root)
  else refuse (manifest_invalid "namespace delta operation tag is unknown")); mret (op, 0).

Definition op_tag (op : NamespaceOp) : Z := match op with OpCreate _ _ _ _ _ _ => 0 | OpRename _ _ _ _ _ _ => 1 | OpDelete _ _ _ => 2 | OpSetRoots _ _ _ _ => 3 end.
Definition op_body (op : NamespaceOp) (flag : Z) : list Z :=
  match op with
  | OpCreate p i d f _ s => to_be 16 p ++ to_be 16 i ++ enc_text d ++ enc_text f ++ [flag] ++ to_le 8 s
  | OpRename i p f t d g => to_be 16 i ++ to_be 16 p ++ enc_text f ++ to_be 16 t ++ enc_text d ++ enc_text g
  | OpDelete p f i => to_be 16 p ++ enc_text f ++ to_be 16 i
  | OpSetRoots i s v e => to_be 16 i ++ to_le 8 s ++ sink_opt 32 v ++ sink_opt 32 e
  end.
Definition op_flag (op : NamespaceOp) (flag : Z) : Prop :=
  match op with OpCreate _ _ _ _ dir _ => in_u8 flag /\ dir = negb (flag =? 0) | _ => flag = 0 end.

(** Parts of an operation, for the reads of each branch. *)
Definition op_id1 (op : NamespaceOp) : Z := match op with OpCreate p _ _ _ _ _ => p | OpRename i _ _ _ _ _ => i | OpDelete p _ _ => p | OpSetRoots i _ _ _ => i end.
Definition op_id2 (op : NamespaceOp) : Z := match op with OpCreate _ i _ _ _ _ => i | OpRename _ p _ _ _ _ => p | OpDelete _ _ i => i | OpSetRoots _ s _ _ => s end.
Definition op_text1 (op : NamespaceOp) : Str := match op with OpCreate _ _ d _ _ _ => d | OpRename _ _ f _ _ _ => f | OpDelete _ f _ => f | _ => [] end.
Definition op_text2 (op : NamespaceOp) : Str := match op with OpCreate _ _ _ f _ _ => f | OpRename _ _ _ _ d _ => d | _ => [] end.
Definition op_text3 (op : NamespaceOp) : Str := match op with OpRename _ _ _ _ _ g => g | _ => [] end.
Definition op_id3 (op : NamespaceOp) : Z := match op with OpRename _ _ _ t _ _ => t | OpCreate _ _ _ _ _ s => s | _ => 0 end.
Definition op_root1 (op : NamespaceOp) : option Z := match op with OpSetRoots _ _ v _ => v | _ => None end.
Definition op_root2 (op : NamespaceOp) : option Z := match op with OpSetRoots _ _ _ e => e | _ => None end.

Definition is_tag (t : Z) (op : NamespaceOp) : Prop := op_tag op = t /\ op_ok op.

(** The last conjunct says how the value was built. *)
Ltac last_eq H := cbn beta in H; repeat match type of H with _ /\ _ => destruct H as [_ H] end; rewrite H; reflexivity.

Lemma parses_create :
  parses (parent ← cur_inode; inode ← cur_inode; display_name ← cur_text; folded_name ← cur_text;
    directory ← cur_byte; size ← cur_u64;
    mret (OpCreate parent inode display_name folded_name (negb (directory =? 0)) size, directory))
    (fun c => op_body c.1 c.2) (fun c => is_tag 0 c.1 /\ op_flag c.1 c.2).
Proof.
  eapply parses_ext.
  - apply (parses_bind (fun c : NamespaceOp * Z => op_id1 c.1)); [apply parses_inode|intros p _|].
    1: apply (parses_bind (fun c : NamespaceOp * Z => op_id2 c.1)); [apply parses_inode|intros i _|].
    1: apply (parses_bind (fun c : NamespaceOp * Z => op_text1 c.1)); [apply parses_text|intros d _|].
    1: apply (parses_bind (fun c : NamespaceOp * Z => op_text2 c.1)); [apply parses_text|intros f _|].
    1: apply (parses_bind (fun c : NamespaceOp * Z => c.2)); [apply parses_byte|intros k _|].
    1: apply (parses_bind (fun c : NamespaceOp * Z => op_id3 c.1)); [apply parses_u64|intros s _; apply parses_ret|].
    all: intros ? ? _ H; last_eq H.
  - intros [op k] ?. cbn [fst snd] in *. destruct_and?. destruct op; simplify_eq. cbn [op_body op_id1 op_id2 op_id3 op_text1 op_text2 op_text3 op_root1 op_root2]. by rewrite app_nil_r.
  - intros [op k]. unfold is_tag. cbn [fst snd]. split.
    + intros ?. destruct_and?. destruct op; simplify_eq. cbn [op_id1 op_id2 op_text1 op_text2 op_id3] in *. unfold op_ok, op_flag. tauto.
    + intros ([Ht Hok] & Hf). destruct op; try discriminate Ht. destruct Hok as (? & ? & ? & ? & ?), Hf as [? ->]. tauto.
Qed.
Lemma parses_rename :
  parses (inode ← cur_inode; from_parent ← cur_inode; from_folded ← cur_text; to_parent ← cur_inode;
    display_name ← cur_text; folded_name ← cur_text;
    mret (OpRename inode from_parent from_folded to_parent display_name folded_name))
    (fun op => op_body op 0) (is_tag 1).
Proof.
  eapply parses_ext.
  - apply (parses_bind op_id1); [apply parses_inode|intros i _|].
    1: apply (parses_bind op_id2); [apply parses_inode|intros p _|].
    1: apply (parses_bind op_text1); [apply parses_text|intros f _|].
    1: apply (parses_bind op_id3); [apply parses_inode|intros t _|].
    1: apply (parses_bind op_text2); [apply parses_text|intros d _|].
    1: apply (parses_bind op_text3); [apply parses_text|intros g _; apply parses_ret|].
    all: intros ? ? _ H; last_eq H.
  - intros op H. cbn beta in H. destruct_and?. destruct op; simplify_eq. cbn [op_body op_id1 op_id2 op_id3 op_text1 op_text2 op_text3 op_root1 op_root2]. by rewrite app_nil_r.
  - intros op. unfold is_tag. split.
    + intros ?. destruct_and?. destruct op; simplify_eq. unfold op_ok. tauto.
    + intros [Ht Hok]. destruct op; try discriminate Ht. unfold op_ok in Hok. tauto.
Qed.
Lemma parses_delete :
  parses (parent ← cur_inode; folded_name ← cur_text; inode ← cur_inode; mret (OpDelete parent folded_name inode))
    (fun op => op_body op 0) (is_tag 2).
Proof.
  eapply parses_ext.
  - apply (parses_bind op_id1); [apply parses_inode|intros i _|].
    1: apply (parses_bind op_text1); [apply parses_text|intros f _|].
    1: apply (parses_bind op_id2); [apply parses_inode|intros t _; apply parses_ret|].
    all: intros ? ? _ H; last_eq H.
  - intros op H. cbn beta in H. destruct_and?. destruct op; simplify_eq. cbn [op_body op_id1 op_id2 op_id3 op_text1 op_text2 op_text3 op_root1 op_root2]. by rewrite app_nil_r.
  - intros op. unfold is_tag. split.
    + intros ?. destruct_and?. destruct op; simplify_eq. unfold op_ok. tauto.
    + intros [Ht Hok]. destruct op; try discriminate Ht. unfold op_ok in Hok. tauto.
Qed.
Lemma parses_set_roots :
  parses (inode ← cur_inode; size ← cur_u64; version_root ← cur_opt32; extent_root ← cur_opt32;
    mret (OpSetRoots inode size version_root extent_root))
    (fun op => op_body op 0) (is_tag 3).
Proof.
  eapply parses_ext.
  - apply (parses_bind op_id1); [apply parses_inode|intros i _|].
    1: apply (parses_bind op_id2); [apply parses_u64|intros s _|].
    1: apply (parses_bind op_root1); [apply parses_opt32|intros v _|].
    1: apply (parses_bind op_root2); [apply parses_opt32|intros t _; apply parses_ret|].
    all: intros ? ? _ H; last_eq H.
  - intros op H. cbn beta in H. destruct_and?. destruct op; simplify_eq. cbn [op_body op_id1 op_id2 op_id3 op_text1 op_text2 op_text3 op_root1 op_root2]. by rewrite app_nil_r.
  - intros op. unfold is_tag. split.
    + intros ?. destruct_and?. destruct op; simplify_eq. unfold op_ok. tauto.
    + intros [Ht Hok]. destruct op; try discriminate Ht. unfold op_ok in Hok. tauto.
Qed.

Lemma parses_op_raw :
  parses cur_op_raw (fun c => op_tag c.1 :: op_body c.1 c.2) (fun c => op_ok c.1 /\ op_flag c.1 c.2).
Proof.
  unfold cur_op_raw. apply (parses_tag _ (fun c : NamespaceOp * Z => op_tag c.1) (fun c => op_body c.1 c.2)); [|by intros [[] ?] _].
  assert (Hpair : forall p t, t <> 0 -> parses p (fun op => op_body op 0) (is_tag t) ->
    parses (op ← p; mret (op, 0)) (fun c => op_body c.1 c.2) (fun c => op_tag c.1 = t /\ op_ok c.1 /\ op_flag c.1 c.2)).
  { intros p t Ht Hp. eapply parses_ext; [apply (parses_map (fun op => (op, 0)) fst); [exact Hp|done]| |].
    - intros [op k] [_ [= ->]]. done.
    - intros [op k]. unfold is_tag. cbn [fst snd]. split.
      + intros [[<- ?] [= ->]]. split_and!; [done|done|]. destruct op; done.
      + intros (<- & ? & Hf). split; [done|]. destruct op; [done|..]; by rewrite Hf. }
  intros t. destruct (Z.eqb_spec t 0) as [->|H0].
  { eapply parses_ext; [apply parses_create|done|]. intros [op k]. unfold is_tag. tauto. }
  destruct (Z.eqb_spec t 1) as [->|H1]; [apply Hpair; [done|apply parses_rename]|].
  destruct (Z.eqb_spec t 2) as [->|H2]; [apply Hpair; [done|apply parses_delete]|].
  destruct (Z.eqb_spec t 3) as [->|H3]; [apply Hpair; [done|apply parses_set_roots]|].
  intros b [op k] rest _. split; [done|]. intros (_ & Ht & _). destruct op; simpl in Ht; lia.
Qed.

Lemma cur_op_is_raw (b : list Z) : cur_op b = '(c, rest) ← cur_op_raw b; Ok (c.1, rest).
Proof.
  unfold cur_op, cur_op_raw, mbind, parser_bind, result_bind, mret, parser_ret, refuse.
  destruct (cur_byte b) as [[t b1]|]; [|done]. destruct (t =? 0); [repeat case_match; done|].
  destruct (t =? 1); [repeat case_match; done|]. destruct (t =? 2); [repeat case_match; done|].
  destruct (t =? 3); [repeat case_match; done|done].
Qed.

Definition op_byte (op : NamespaceOp) : Z := match op with OpCreate _ _ _ _ dir _ => flag_byte dir | _ => 0 end.
Definition enc_op (op : NamespaceOp) : list Z := op_tag op :: op_body op (op_byte op).
Lemma encode_op_ok (op : NamespaceOp) : op_ok op -> encode_op op = Ok (enc_op op).
Proof. intros H. destruct op; unfold encode_op; by rewrite ?text_ok_sink by (unfold op_ok in H; tauto). Qed.

Lemma opt_bytes_ok (n : nat) (o : option Z) : is_bytes (sink_opt n o).
Proof. destruct o; (constructor; [done|]); [apply be_bytes|constructor]. Qed.
Lemma text_bytes (t : Str) : text_ok t -> is_bytes (enc_text t).
Proof. intros (Ht & _). apply Forall_app. split; [apply le_bytes|done]. Qed.
Lemma flag_bytes (b : bool) : is_bytes [flag_byte b].
Proof. by destruct b; apply bytes_check. Qed.
Lemma is_bytes_app (l k : list Z) : is_bytes l -> is_bytes k -> is_bytes (l ++ k).
Proof. intros. by apply Forall_app. Qed.
Ltac bytes_app := repeat match goal with |- is_bytes (_ ++ _) => apply is_bytes_app end.
#[local] Hint Resolve be_bytes le_bytes opt_bytes_ok text_bytes flag_bytes : bytes.
Lemma enc_op_bytes (op : NamespaceOp) : op_ok op -> is_bytes (enc_op op).
Proof.
  intros H. unfold enc_op. constructor; [by destruct op|]. change (is_bytes (op_body op (op_byte op))). destruct op; cbn [op_body op_byte op_ok] in *;
    bytes_app; (apply text_bytes; tauto) || eauto with bytes.
Qed.

Lemma enc_checkpoint_bytes (c : NamespaceCheckpoint) : checkpoint_ok c -> is_bytes (enc_checkpoint c).
Proof.
  intros []. unfold enc_checkpoint. bytes_app; eauto with bytes; [by apply bytes_check|].
  apply Forall_concat, Forall_map. eapply Forall_impl; [exact co_nodes0|]. intros n []. change (is_bytes (enc_node n)). unfold enc_node. bytes_app; eauto with bytes.
Qed.
Lemma cur_op_complete (op : NamespaceOp) (rest : list Z) :
  is_bytes (enc_op op ++ rest) -> op_ok op -> cur_op (enc_op op ++ rest) = Ok (op, rest).
Proof.
  intros Hb Hok. rewrite cur_op_is_raw, (proj2 (parses_op_raw _ (op, op_byte op) rest Hb)); [done|]. split_and!; [done|done|].
  destruct op as [? ? ? ? []| | |]; done.
Qed.
Lemma cur_op_sound (b rest : list Z) (op : NamespaceOp) :
  is_bytes b -> cur_op b = Ok (op, rest) -> op_ok op /\ is_bytes rest /\ length b = (length (enc_op op) + length rest)%nat.
Proof.
  intros Hb. rewrite cur_op_is_raw. intros H. apply bind_Ok_inv in H as ([[op' k] rest'] & H & E). apply Ok_inj in E. cbn [fst] in E. injection E as <- <-.
  apply parses_op_raw in H as (-> & Hok & _); [|done]. cbn [fst snd] in *. split_and!; [done|by apply Forall_app in Hb as [_ ?]|].
  rewrite length_app. f_equal. unfold enc_op. cbn [length]. f_equal. destruct op'; cbn [op_body op_byte]; rewrite ?length_app; done.
Qed.
Lemma cur_ops_complete (ops : list NamespaceOp) (rest : list Z) :
  is_bytes (concat (map enc_op ops) ++ rest) -> Forall op_ok ops ->
  cur_ops (length ops) (concat (map enc_op ops) ++ rest) = Ok (ops, rest).
Proof.
  intros Hb Hok. induction Hok as [|op ops Hop Hok IH]; [done|]. cbn [map concat length cur_ops] in *. rewrite <- app_assoc in Hb |- *.
  unfold mbind, parser_bind. rewrite cur_op_complete by done. apply Forall_app in Hb as [_ Hb]. by rewrite IH.
Qed.
Lemma cur_ops_sound (count : nat) (b rest : list Z) (ops : list NamespaceOp) :
  is_bytes b -> cur_ops count b = Ok (ops, rest) ->
  length ops = count /\ Forall op_ok ops /\ length b = (length (concat (map enc_op ops)) + length rest)%nat.
Proof.
  revert b ops. induction count as [|count IH]; intros b ops Hb; cbn [cur_ops]; unfold mbind, parser_bind, mret, parser_ret.
  - by intros [= <- <-].
  - destruct (cur_op b) as [[op b1]|] eqn:E1; [|done]. destruct (cur_ops count b1) as [[l b2]|] eqn:E2; [|done]. intros [= <- <-].
    apply cur_op_sound in E1 as (Hop & Hb1 & Hl1); [|done]. apply IH in E2 as (<- & Hok & Hl2); [|done].
    cbn [map concat length]. rewrite length_app. split_and!; [done|by constructor|lia].
Qed.

Record delta_ok (d : NamespaceDelta) : Prop := mk_delta_ok {
  do_volume : id_ok 16 (nd_volume_id d); do_hash : id_ok 32 (nd_base_document_hash d); do_seq : in_u64 (nd_delta_seq d);
  do_count : Z.of_nat (length (nd_ops d)) <= MAX_DELTA_OPS; do_ops : Forall op_ok (nd_ops d)
}.
Definition enc_delta (d : NamespaceDelta) : list Z :=
  DELTA_MAGIC ++ to_le 4 NAMESPACE_FORMAT_VERSION ++ to_be 16 (nd_volume_id d) ++ to_be 32 (nd_base_document_hash d) ++
  to_le 8 (nd_delta_seq d) ++ to_le 4 (Z.of_nat (length (nd_ops d))) ++ concat (map enc_op (nd_ops d)).
Lemma encode_delta_ok (d : NamespaceDelta) : delta_ok d -> encode_delta d = Ok (enc_delta d).
Proof.
  intros []. unfold encode_delta. rewrite (proj2 (Z.ltb_ge _ _)) by done. rewrite (encode_all_ok _ enc_op); [done|].
  intros op Hop. apply encode_op_ok. by apply (proj1 (Forall_forall _ _) do_ops0).
Qed.
Lemma enc_delta_bytes (d : NamespaceDelta) : delta_ok d -> is_bytes (enc_delta d).
Proof.
  intros []. unfold enc_delta. bytes_app; eauto with bytes; [by apply bytes_check|].
  apply Forall_concat, Forall_map. eapply Forall_impl; [exact do_ops0|]. apply enc_op_bytes.
Qed.
Lemma length_enc_delta (d : NamespaceDelta) : length (enc_delta d) = (68 + length (concat (map enc_op (nd_ops d))))%nat.
Proof. unfold enc_delta. rewrite !length_app, !length_le, !length_be. done. Qed.

Lemma decode_enc_delta (d : NamespaceDelta) :
  delta_ok d -> Z.of_nat (length (enc_delta d)) <= MAX_DELTA_DOCUMENT_BYTES -> decode_delta (enc_delta d) = Ok d.
Proof.
  intros Hd Hl. pose proof (enc_delta_bytes d Hd) as Hb. destruct Hd.
  assert (cur_delta (enc_delta d) = Ok (d, [])) as H; [|unfold decode_delta; by rewrite H]. unfold cur_delta, enc_delta in *. unfold mbind, parser_bind.
  rewrite (proj2 (parses_magic DELTA_MAGIC _ _ MAX_DELTA_DOCUMENT_BYTES Hb eq_refl (bytes_check DELTA_MAGIC eq_refl)) (conj eq_refl Hl)).
  do 2 apply Forall_app in Hb as [_ Hb].
  rewrite (proj2 (parses_be 16 _ _ _ Hb) (conj eq_refl do_volume0)). apply Forall_app in Hb as [_ Hb].
  rewrite (proj2 (parses_be 32 _ _ _ Hb) (conj eq_refl do_hash0)). apply Forall_app in Hb as [_ Hb].
  rewrite (proj2 (parses_u64 _ _ _ Hb) (conj eq_refl do_seq0)). apply Forall_app in Hb as [_ Hb].
  rewrite (proj2 (parses_u32 _ (Z.of_nat (length (nd_ops d))) _ Hb)) by (split; [done|unfold MAX_DELTA_OPS in *; mach]). apply Forall_app in Hb as [_ Hb].
  unfold refuse_if. rewrite (proj2 (Z.ltb_ge _ _)), Nat2Z.id by done.
  rewrite <- (app_nil_r (concat _)) in Hb |- *. rewrite cur_ops_complete by done. simpl. by destruct d.
Qed.

Lemma decode_delta_sound (b : list Z) (d : NamespaceDelta) :
  is_bytes b -> decode_delta b = Ok d ->
  delta_ok d /\ length b = length (enc_delta d) /\ Z.of_nat (length b) <= MAX_DELTA_DOCUMENT_BYTES.
Proof.
  intros Hb. unfold decode_delta, cur_delta. intros H. apply bind_Ok_inv in H as ([d' rest] & H & E). apply Ok_inj in E as ->. revert H.
  unfold mbind, parser_bind. destruct (check_magic DELTA_MAGIC MAX_DELTA_DOCUMENT_BYTES b) as [[[] b1]|] eqn:E1; [|done].
  apply parses_magic in E1 as [-> Hl]; [|done|done|by apply bytes_check]. do 2 apply Forall_app in Hb as [_ Hb].
  destruct (cur_id 16 b1) as [[v b2]|] eqn:E2; [|done]. apply parses_be in E2 as [-> Hv]; [|done]. apply Forall_app in Hb as [_ Hb].
  destruct (cur_id 32 b2) as [[h b3]|] eqn:E3; [|done]. apply parses_be in E3 as [-> Hh]; [|done]. apply Forall_app in Hb as [_ Hb].
  destruct (cur_u64 b3) as [[s b4]|] eqn:E4; [|done]. apply parses_u64 in E4 as [-> Hs]; [|done]. apply Forall_app in Hb as [_ Hb].
  destruct (cur_u32 b4) as [[n b5]|] eqn:E5; [|done]. apply parses_u32 in E5 as [-> Hn]; [|done]. apply Forall_app in Hb as [_ Hb].
  unfold refuse_if. destruct (Z.ltb_spec MAX_DELTA_OPS n); [done|].
  destruct (cur_ops (Z.to_nat n) b5) as [[ops b6]|] eqn:E6; [|done]. apply cur_ops_sound in E6 as (Hc & Hok & Hlo); [|done].
  unfold cur_done, mret, parser_ret. destruct b6; [|done]. intros [= <- <-]. split_and!; [|rewrite length_enc_delta, !length_app, !length_le, !length_be; unfold DELTA_MAGIC; cbn [nd_ops length] in *; lia|done].
  constructor; try done. cbn [nd_ops]. rewrite Hc. mach.
Qed.

(** Every delta whose fields fit encodes, and its document, if within the
    bound, decodes to the same delta; and whatever decodes is such a delta and
    re-encodes to a document of the same length that decodes to it again (the
    encoding normalises the directory byte). *)
Theorem delta_roundtrip :
  (forall d, delta_ok d -> exists b, encode_delta d = Ok b /\ is_bytes b /\
     (Z.of_nat (length b) <= MAX_DELTA_DOCUMENT_BYTES -> decode_delta b = Ok d)) /\
  (forall b d, is_bytes b -> decode_delta b = Ok d ->
     delta_ok d /\ exists b', encode_delta d = Ok b' /\ length b' = length b /\ decode_delta b' = Ok d).
Proof.
  split.
  - intros d Hd. exists (enc_delta d). split_and!; [by apply encode_delta_ok|by apply enc_delta_bytes|]. by apply decode_enc_delta.
  - intros b d Hb (Hd & Hl & Hm)%decode_delta_sound; [|done]. split; [done|]. exists (enc_delta d).
    split_and!; [by apply encode_delta_ok|done|]. apply decode_enc_delta; [done|lia].
Qed.

(** The lenient directory byte. *)
Definition demo_delta : NamespaceDelta := mkDelta 4 5 7 [OpCreate 1 2 [120] [88] true 5; OpDelete 1 [88] 2].
Example directory_byte_is_normalised :
  (b ← encode_delta demo_delta; d ← decode_delta (<[111%nat := 9]> b); Ok (bool_decide (b !! 111%nat = Some 1), nd_ops d))
  = Ok (true, nd_ops demo_delta).
Proof. vm_compute. reflexivity. Qed.

(** The decoder bounds names by 1024 bytes, the encoder does not: a name of
    255 UTF-16 units whose folded form is longer (6 bytes per unit here) makes
    a checkpoint that its own reader refuses. *)
Example long_folded_name_is_not_readable :
  let long := concat (replicate 200 [206; 153; 204; 136; 204; 129]) in
  let nodes := [demo_root; mkNode (demo_inode 2) (Some (demo_inode 1)) long [97] false 7 None None] in
  (b ← encode_checkpoint (mkCheckpoint 1 0 None nodes); c ← decode_checkpoint b; Ok (nc_nodes c))
  = Err (manifest_invalid "namespace name exceeds the component bound").
Proof. vm_compute. reflexivity. Qed.
(** Witness. *)
Lemma delta_roundtrip_witness : exists b, encode_delta demo_delta = Ok b /\ decode_delta b = Ok demo_delta.
Proof.
  assert (Hid : forall n x, (0 <=? x) && (x <? 256 ^ Z.of_nat n) = true -> id_ok n x) by (intros n x E; unfold id_ok; zbool; lia).
  assert (Ht : text_ok [120] /\ text_ok [88]) by (split; (split; [by apply bytes_check|by split])).
  assert (H : delta_ok demo_delta).
  { constructor; [by apply Hid|by apply Hid|done|done|]. cbn [nd_ops demo_delta].
    apply Forall_cons; split; [|apply Forall_cons; split; [|by apply Forall_nil]]; cbn [op_ok]; destruct Ht.
    - split; [by apply Hid|]. split; [by apply Hid|]. done.
    - split; [by apply Hid|]. split; [done|]. by apply Hid. }
  destruct (proj1 delta_roundtrip demo_delta H) as (b & He & _ & Hd). exists b. split; [exact He|]. apply Hd.
  rewrite encode_delta_ok in He by exact H. apply Ok_inj in He as <-. vm_compute. discriminate.
Defined.
