(* ===== verification/Names.v ===== *)
(** * Names and identifiers

    [mirage-types/src/inode.rs]: the Windows naming policy and the root inode.
    A [&str] is the list of its characters, each a Unicode scalar value; its
    bytes are [utf8_encode].  [char::to_uppercase] is the parameter [upper],
    from a character to the characters of its uppercase.

    Proved: exactly which names the policy accepts, that an accepted name is
    valid UTF-8 of at most 765 bytes, and which names share a key. *)
From S2P Require Export NamespaceDoc.
From Stdlib Require Import Ascii.

(** ** Characters *)
Definition is_char (c : Z) : bool := (0 <=? c) && (c <=? 1114111) && negb ((55296 <=? c) && (c <=? 57343)).
Definition utf16_len (c : Z) : Z := if c <=? 65535 then 1 else 2.
(** [encode_utf16().count()]. *)
Definition utf16_units (s : list Z) : Z := sumZ utf16_len s.
Definition utf8_char (c : Z) : list Z :=
  if c <=? 127 then [c]
  else if c <=? 2047 then [192 + c / 64; 128 + c mod 64]
  else if c <=? 65535 then [224 + c / 4096; 128 + c / 64 mod 64; 128 + c mod 64]
  else [240 + c / 262144; 128 + c / 4096 mod 64; 128 + c / 64 mod 64; 128 + c mod 64].
Definition utf8_encode (s : list Z) : list Z := concat (map utf8_char s).
(** [char::is_control]: the general category [Cc]. *)
Definition is_control (c : Z) : bool := (c <=? 31) || ((127 <=? c) && (c <=? 159)).
Definition chars (s : string) : list Z := map (fun a => Z.of_N (N_of_ascii a)) (String.list_ascii_of_string s).

(** ** The naming policy *)
Definition MAX_NAME_UNITS : Z := 255.
Definition RESERVED_STEMS : list (list Z) := map chars
  ["CON"; "PRN"; "AUX"; "NUL"; "CLOCK$"; "CONIN$"; "CONOUT$"; "COM1"; "COM2"; "COM3"; "COM4";
   "COM5"; "COM6"; "COM7"; "COM8"; "COM9"; "LPT1"; "LPT2"; "LPT3"; "LPT4"; "LPT5"; "LPT6"; "LPT7";
   "LPT8"; "LPT9"]%string.
(** Slash, backslash, colon, star, question mark, double quote, angle brackets
    and bar. *)
Definition invalid_chars : list Z := [47; 92; 58; 42; 63; 34; 60; 62; 124].
Definition invalid_char (c : Z) : bool := is_control c || bool_decide (c ∈ invalid_chars).
(** [ends_with(['.', ' '])]. *)
Definition ends_badly (s : list Z) : bool := match last s with Some c => (c =? 46) || (c =? 32) | None => false end.
(** [split('.').next()]. *)
Fixpoint stem_of (s : list Z) : list Z := match s with [] => [] | c :: s => if c =? 46 then [] else c :: stem_of s end.

Section fold.
Variable upper : Z -> list Z.
Definition to_uppercase (s : list Z) : list Z := concat (map upper s).
Definition fold_name (display_name : list Z) : result (list Z) :=
  if bool_decide (display_name = []) || (MAX_NAME_UNITS <? utf16_units display_name) || ends_badly display_name
  then Err (invalid_argument "name is empty, oversized, or has a trailing dot or space")
  else if existsb invalid_char display_name
  then Err (invalid_argument "name contains a character that is invalid on Windows")
  else if bool_decide (to_uppercase (stem_of display_name) ∈ RESERVED_STEMS)
  then Err (invalid_argument "name uses a reserved Windows device name")
  else Ok (to_uppercase display_name).
End fold.

(** ** The root inode: the seed and the volume id, byte by byte. *)
Definition ROOT_INODE_SEED : Z := from_be (chars "MIRAGE-ROOT-INOD").
Definition root_inode (volume : Z) : InodeId := Z.lxor ROOT_INODE_SEED volume.

Definition ascii_upper (c : Z) : list Z := if (97 <=? c) && (c <=? 122) then [c - 32] else [c].
Example fold_readme : fold_name ascii_upper (chars "ReadMe.txt") = Ok (chars "README.TXT").
Proof. reflexivity. Qed.
Example fold_device : fold_name ascii_upper (chars "con.txt") = Err (invalid_argument "name uses a reserved Windows device name").
Proof. reflexivity. Qed.
Example fold_trailing_dot : fold_name ascii_upper (chars "a.") = Err (invalid_argument "name is empty, oversized, or has a trailing dot or space").
Proof. reflexivity. Qed.

(** ** Encoding *)
Ltac div_eqs := Z.to_euclidean_division_equations; lia.
Ltac in_range := unfold utf8_in; apply andb_true_iff; split; apply Z.leb_le; div_eqs.

Lemma utf8_cont_mod (x : Z) : utf8_cont (128 + x mod 64) = true.
Proof. unfold utf8_cont. pose proof (Z.mod_pos_bound x 64). in_range. Qed.

Lemma lead3_char (c : Z) : 2048 <= c <= 65535 -> ~ (55296 <= c <= 57343) -> utf8_lead3 (224 + c / 4096) (128 + c / 64 mod 64) = true.
Proof.
  intros Hc Hs. unfold utf8_lead3. rewrite !orb_true_iff, !andb_true_iff, !Z.eqb_eq.
  destruct (Z_lt_le_dec c 4096); [left; left; left; split; [div_eqs|in_range]|].
  destruct (Z_lt_le_dec c 53248); [left; left; right; split; [in_range|apply utf8_cont_mod]|].
  destruct (Z_lt_le_dec c 57344); [left; right; split; [div_eqs|in_range]|].
  right. split; [in_range|apply utf8_cont_mod].
Qed.
Lemma lead4_char (c : Z) : 65536 <= c <= 1114111 -> utf8_lead4 (240 + c / 262144) (128 + c / 4096 mod 64) = true.
Proof.
  intros Hc. unfold utf8_lead4. rewrite !orb_true_iff, !andb_true_iff, !Z.eqb_eq.
  destruct (Z_lt_le_dec c 262144); [left; left; split; [div_eqs|in_range]|].
  destruct (Z_lt_le_dec c 1048576); [left; right; split; [in_range|apply utf8_cont_mod]|].
  right. split; [div_eqs|in_range].
Qed.
Lemma is_char_spec (c : Z) : is_char c = true <-> 0 <= c <= 1114111 /\ ~ (55296 <= c <= 57343).
Proof. unfold is_char. rewrite !andb_true_iff, negb_true_iff, andb_false_iff, !Z.leb_le, !Z.leb_gt. lia. Qed.

Lemma utf8_char_valid (c : Z) (l : list Z) : is_char c = true -> utf8_valid (utf8_char c ++ l) = utf8_valid l.
Proof.
  intros [Hc Hs]%is_char_spec. unfold utf8_char.
  destruct (Z.leb_spec c 127); [cbn [app utf8_valid]; by rewrite (proj2 (Z.leb_le c 127))|].
  destruct (Z.leb_spec c 2047).
  { cbn [app utf8_valid]. rewrite (proj2 (Z.leb_gt _ 127)) by div_eqs.
    replace (utf8_in 194 223 (192 + c / 64)) with true by (symmetry; in_range). by rewrite utf8_cont_mod. }
  destruct (Z.leb_spec c 65535).
  { cbn [app utf8_valid]. rewrite (proj2 (Z.leb_gt _ 127)) by div_eqs.
    replace (utf8_in 194 223 (224 + c / 4096)) with false by (symmetry; unfold utf8_in; apply andb_false_iff; right; apply Z.leb_gt; div_eqs).
    rewrite lead3_char by lia. by rewrite utf8_cont_mod. }
  cbn [app utf8_valid]. rewrite (proj2 (Z.leb_gt _ 127)) by div_eqs.
  replace (utf8_in 194 223 (240 + c / 262144)) with false by (symmetry; unfold utf8_in; apply andb_false_iff; right; apply Z.leb_gt; div_eqs).
  replace (utf8_lead3 (240 + c / 262144) (128 + c / 4096 mod 64)) with false.
  - rewrite lead4_char by lia. by rewrite !utf8_cont_mod.
  - symmetry. unfold utf8_lead3, utf8_in.
    rewrite (proj2 (Z.eqb_neq _ 224)), (proj2 (Z.eqb_neq _ 237)), (proj2 (Z.leb_gt _ 236)), (proj2 (Z.leb_gt _ 239)) by div_eqs.
    by rewrite !andb_false_r.
Qed.

Lemma utf8_char_bytes (c : Z) : is_char c = true -> is_bytes (utf8_char c).
Proof.
  intros [Hc _]%is_char_spec. unfold utf8_char.
  repeat match goal with |- context [?a <=? ?b] => destruct (Z.leb_spec a b) end;
    repeat constructor; unfold is_byte; apply andb_true_iff; split; apply Z.leb_le; div_eqs.
Qed.
Lemma utf8_char_length (c : Z) : is_char c = true -> 1 <= Z.of_nat (length (utf8_char c)) <= 3 * utf16_len c.
Proof. intros [Hc _]%is_char_spec. unfold utf8_char, utf16_len. repeat case_match; cbn [length]; zbool; lia. Qed.

Definition is_str (s : list Z) : Prop := Forall (fun c => is_char c = true) s.
(** A string's bytes are what [String::from_utf8] accepts. *)
Lemma utf8_encode_valid (s : list Z) : is_str s -> utf8_valid (utf8_encode s) = true /\ is_bytes (utf8_encode s).
Proof.
  unfold utf8_encode. induction 1 as [|c s Hc Hs [IH1 IH2]]; [by repeat constructor|]. cbn [map concat].
  rewrite utf8_char_valid by done. split; [done|]. apply Forall_app. split; [by apply utf8_char_bytes|done].
Qed.
Lemma utf8_encode_length (s : list Z) : is_str s -> Z.of_nat (length (utf8_encode s)) <= 3 * utf16_units s.
Proof.
  unfold utf8_encode, utf16_units. induction 1 as [|c s Hc Hs IH]; [done|]. cbn [map concat]. rewrite length_app, sumZ_cons.
  pose proof (utf8_char_length c Hc). lia.
Qed.

(** ** Different strings have different bytes *)
Definition first_len (b : Z) : nat := if b <=? 127 then 1 else if b <=? 223 then 2 else if b <=? 239 then 3 else 4.
Lemma utf8_char_head (c : Z) : is_char c = true -> exists b l, utf8_char c = b :: l /\ first_len b = length (utf8_char c).
Proof.
  intros [Hc _]%is_char_spec. unfold utf8_char. repeat case_match; zbool; eexists _, _; (split; [done|]); unfold first_len; cbn [length].
  - by rewrite (proj2 (Z.leb_le c 127)).
  - rewrite (proj2 (Z.leb_gt _ 127)), (proj2 (Z.leb_le _ 223)) by div_eqs. done.
  - rewrite (proj2 (Z.leb_gt _ 127)), (proj2 (Z.leb_gt _ 223)), (proj2 (Z.leb_le _ 239)) by div_eqs. done.
  - rewrite (proj2 (Z.leb_gt _ 127)), (proj2 (Z.leb_gt _ 223)), (proj2 (Z.leb_gt _ 239)) by div_eqs. done.
Qed.
Lemma utf8_char_inj (c1 c2 : Z) : is_char c1 = true -> is_char c2 = true -> utf8_char c1 = utf8_char c2 -> c1 = c2.
Proof.
  intros [H1 _]%is_char_spec [H2 _]%is_char_spec. unfold utf8_char.
  repeat match goal with |- context [?a <=? ?b] => destruct (Z.leb_spec a b) end; intros E; try discriminate E; injection E; intros; div_eqs.
Qed.
Lemma utf8_encode_inj (s1 s2 : list Z) : is_str s1 -> is_str s2 -> utf8_encode s1 = utf8_encode s2 -> s1 = s2.
Proof.
  unfold utf8_encode. intros H1. revert s2. induction H1 as [|c1 s1 Hc1 H1 IH]; intros s2 H2; destruct H2 as [|c2 s2 Hc2 H2]; cbn [map concat]; [done|..].
  - destruct (utf8_char_head c2 Hc2) as (b & l & -> & _). done.
  - destruct (utf8_char_head c1 Hc1) as (b & l & -> & _). done.
  - intros E. assert (Hl : length (utf8_char c1) = length (utf8_char c2)).
    { destruct (utf8_char_head c1 Hc1) as (b1 & l1 & E1 & <-), (utf8_char_head c2 Hc2) as (b2 & l2 & E2 & <-). rewrite E1, E2 in E. by injection E as -> _. }
    apply app_inj_1 in E as [E1 E2]; [|done]. f_equal; [by apply utf8_char_inj|by apply IH].
Qed.
Lemma utf8_encode_nil (s : list Z) : is_str s -> utf8_encode s = [] -> s = [].
Proof. intros Hs E. apply (utf8_encode_inj s []); [done|constructor|done]. Qed.

(** ** The results of the policy *)
Section policy.
Context (upper : Z -> list Z) (Hupper : forall c, is_char c = true -> is_str (upper c) /\ upper c <> []).

Lemma to_uppercase_str (s : list Z) : is_str s -> is_str (to_uppercase upper s).
Proof. unfold to_uppercase. induction 1 as [|c s Hc Hs IH]; [constructor|]. cbn [map concat]. apply Forall_app. split; [by apply Hupper|done]. Qed.

(** The names of the policy: not empty, at most 255 UTF-16 units, no trailing
    dot or space, no control character and none of the characters Windows
    refuses, and no device name before the first dot. *)
Definition acceptable (name : list Z) : Prop :=
  name <> [] /\ utf16_units name <= 255 /\ (forall c, last name = Some c -> c <> 46 /\ c <> 32) /\
  (forall c, c ∈ name -> is_control c = false /\ c ∉ invalid_chars) /\
  (forall stem rest, 46 ∉ stem -> name = stem \/ name = stem ++ 46 :: rest -> to_uppercase upper stem ∉ RESERVED_STEMS).

Lemma stem_of_spec (s : list Z) : 46 ∉ stem_of s /\ (s = stem_of s \/ exists rest, s = stem_of s ++ 46 :: rest).
Proof.
  induction s as [|c s [IH1 IH2]]; cbn [stem_of]; [split; [apply not_elem_of_nil|by left]|]. destruct (Z.eqb_spec c 46) as [->|Hne]; [split; [apply not_elem_of_nil|right; by exists s]|].
  split; [by apply not_elem_of_cons|]. destruct IH2 as [E|[rest E]]; [left; by rewrite <-E|right; exists rest; cbn; by rewrite <-E].
Qed.
Lemma stem_of_unique (stem rest s : list Z) : 46 ∉ stem -> s = stem \/ s = stem ++ 46 :: rest -> stem_of s = stem.
Proof.
  intros Hn Hs. revert s Hs. induction stem as [|c stem IH]; intros s Hs; [by destruct Hs as [->| ->]|]. apply not_elem_of_cons in Hn as [Hc Hn].
  destruct Hs as [->| ->]; cbn [stem_of app]; rewrite (proj2 (Z.eqb_neq c 46)) by done; f_equal; apply IH; eauto.
Qed.
Lemma fold_name_acceptable (name folded : list Z) : fold_name upper name = Ok folded <-> acceptable name /\ folded = to_uppercase upper name.
Proof.
  unfold fold_name, acceptable. destruct (bool_decide_reflect (name = [])) as [E|Hne]; cbn [orb]; [split; [done|by intros [[? _] _]]|].
  destruct (Z.ltb_spec MAX_NAME_UNITS (utf16_units name)) as [Hu|Hu]; cbn [orb]; unfold MAX_NAME_UNITS in Hu; [split; [done|intros [(_ & ? & _) _]; lia]|].
  assert (ends_badly name = true <-> exists c, last name = Some c /\ (c = 46 \/ c = 32)) as He.
  { unfold ends_badly. destruct (last name) as [c|]; [|split; [done|by intros (? & ? & _)]]. rewrite orb_true_iff, !Z.eqb_eq. split; [intros; eauto|by intros (? & [= ->] & ?)]. }
  destruct (ends_badly name).
  { split; [done|]. intros [(_ & _ & Hl & _) _]. destruct (proj1 He eq_refl) as (c & Hc & Hd). destruct (Hl c Hc). by destruct Hd. }
  assert (existsb invalid_char name = true <-> exists c, c ∈ name /\ (is_control c = true \/ c ∈ invalid_chars)) as Hx.
  { rewrite existsb_exists. split; intros (c & Hc & Hb); exists c; (split; [by apply list_elem_of_In|]); unfold invalid_char in *; rewrite orb_true_iff, bool_decide_eq_true in *; done. }
  destruct (existsb invalid_char name).
  { split; [done|]. intros [(_ & _ & _ & Hc & _) _]. destruct (proj1 Hx eq_refl) as (c & Hin & Hd). destruct (Hc c Hin) as [H1 H2]. destruct Hd as [Hd|Hd]; [congruence|done]. }
  destruct (stem_of_spec name) as [Hs1 Hs2]. destruct (bool_decide_reflect (to_uppercase upper (stem_of name) ∈ RESERVED_STEMS)) as [Hr|Hr].
  { split; [done|]. intros [(_ & _ & _ & _ & Hc) _]. exfalso. destruct Hs2 as [E|[rest E]]; [by apply (Hc (stem_of name) [] Hs1); [left|]|by apply (Hc (stem_of name) rest Hs1); [right|]]. }
  split; [intros ->%Ok_inj|by intros [_ ->]]. split; [|done]. split_and!; [done|done| | |].
  - intros c Hc. split; intros ->; assert (false = true) by (apply He; eauto); done.
  - intros c Hc. split; [destruct (is_control c) eqn:E; [|done]|intros Hd]; assert (false = true) by (apply Hx; eauto); done.
  - intros stem rest Hs Hn. by rewrite <-(stem_of_unique stem rest name Hs Hn).
Qed.

(** An accepted name and its key as texts. *)
Lemma fold_name_valid (name folded : list Z) : is_str name -> fold_name upper name = Ok folded ->
  text_ok (utf8_encode name) /\ is_str folded /\ folded <> [] /\ utf8_valid (utf8_encode folded) = true /\ is_bytes (utf8_encode folded).
Proof using Hupper.
  intros Hs [(Hne & Hu & _) ->]%fold_name_acceptable. destruct (utf8_encode_valid name Hs) as [Hv Hb]. assert (Hup : is_str (to_uppercase upper name)) by (by apply to_uppercase_str).
  pose proof (utf8_encode_length name Hs). split_and!; [split; [done|]; split; [done|lia]|done| |by apply utf8_encode_valid|by apply utf8_encode_valid].
  destruct name as [|c s]; [done|]. apply Forall_cons in Hs as [Hc _]. destruct (Hupper c Hc) as [_ Hn]. unfold to_uppercase. cbn [map concat]. by destruct (upper c).
Qed.

(** ASCII letters, as [char::to_uppercase] maps them. *)
Context (Hascii : forall c, 0 <= c <= 127 -> upper c = ascii_upper c).
Definition ascii_lower (c : Z) : Z := if (65 <=? c) && (c <=? 90) then c + 32 else c.
Definition is_ascii (s : list Z) : Prop := Forall (fun c => 0 <= c <= 127) s.
Lemma upper_ascii (c : Z) : 0 <= c <= 127 -> upper c = [if (97 <=? c) && (c <=? 122) then c - 32 else c].
Proof. intros Hc. rewrite Hascii by done. unfold ascii_upper. by destruct (_ && _). Qed.
Lemma upper_lower_ascii (a b : Z) : 0 <= a <= 127 -> 0 <= b <= 127 -> (upper a = upper b <-> ascii_lower a = ascii_lower b).
Proof.
  intros Ha Hb. rewrite !upper_ascii by done. unfold ascii_lower.
  destruct (Z.leb_spec 97 a), (Z.leb_spec a 122), (Z.leb_spec 97 b), (Z.leb_spec b 122), (Z.leb_spec 65 a), (Z.leb_spec a 90), (Z.leb_spec 65 b), (Z.leb_spec b 90); cbn [andb]; (split; [intros [=]; lia|intros; f_equal; lia]).
Qed.
Lemma fold_lower_ascii (s t : list Z) : is_ascii s -> is_ascii t -> (to_uppercase upper s = to_uppercase upper t <-> map ascii_lower s = map ascii_lower t).
Proof.
  intros Hs. revert t. unfold to_uppercase. induction Hs as [|a s Ha Hs IH]; intros t Ht; destruct Ht as [|b t Hb Ht]; cbn [map concat]; [done|rewrite upper_ascii by done; done|rewrite upper_ascii by done; done|].
  pose proof (upper_lower_ascii a b Ha Hb) as E. rewrite (upper_ascii a Ha), (upper_ascii b Hb) in E |- *. cbn [app]. specialize (IH t Ht). split.
  - intros [= H1 H2]. f_equal; [apply E; by rewrite H1|by apply IH].
  - intros [= H1 H2]. apply E in H1. injection H1 as ->. f_equal. by apply IH.
Qed.
Lemma ascii_lower_range (a b : Z) : 0 <= b <= 127 -> ascii_lower a = ascii_lower b -> 0 <= a <= 127 /\ (a = 46 -> b = 46).
Proof. unfold ascii_lower. intros Hb. destruct (Z.leb_spec 65 a), (Z.leb_spec a 90), (Z.leb_spec 65 b), (Z.leb_spec b 90); cbn [andb]; lia. Qed.
(** A device name in any case. *)
Lemma reserved_any_case (stem r : list Z) : r ∈ RESERVED_STEMS -> map ascii_lower stem = map ascii_lower r -> 46 ∉ stem /\ to_uppercase upper stem ∈ RESERVED_STEMS.
Proof.
  intros Hr E. assert (Forall (fun r => forallb (fun c => (0 <=? c) && (c <=? 96) && negb (c =? 46)) r = true) RESERVED_STEMS) as HR by (repeat constructor).
  rewrite Forall_forall in HR. specialize (HR r Hr). assert (Forall (fun c => 0 <= c <= 96 /\ c <> 46) r) as Hc.
  { apply Forall_forall. intros c Hc%list_elem_of_In. pose proof (proj1 (forallb_forall _ _) HR c Hc) as Hb. rewrite !andb_true_iff, negb_true_iff, Z.eqb_neq, !Z.leb_le in Hb. lia. }
  assert (to_uppercase upper stem = r /\ 46 ∉ stem) as [-> ?]; [|done]. clear Hr HR. revert stem E. induction Hc as [|b r [Hb Hd] Hr IH]; intros stem E.
  - destruct stem; [|done]. split; [done|apply not_elem_of_nil].
  - destruct stem as [|a stem]; [done|]. injection E as E1 E2. destruct (ascii_lower_range a b ltac:(lia) E1) as [Ha Hdot]. destruct (IH stem E2) as [IH1 IH2].
    pose proof (proj2 (upper_lower_ascii a b Ha ltac:(lia)) E1) as Eu. split.
    + unfold to_uppercase in *. cbn [map concat]. rewrite Eu, IH1, upper_ascii by lia. rewrite (proj2 (Z.leb_gt 97 b)) by lia. done.
    + apply not_elem_of_cons. split; [|done]. intros <-. by apply Hd, Hdot.
Qed.

End policy.

Lemma is_str_check (s : list Z) : forallb is_char s = true -> is_str s.
Proof. intros H. apply Forall_forall. intros c Hc%list_elem_of_In. by apply (proj1 (forallb_forall _ _) H). Qed.
Lemma ascii_upper_ok (c : Z) : is_char c = true -> is_str (ascii_upper c) /\ ascii_upper c <> [].
Proof.
  intros Hc. unfold ascii_upper. destruct (_ && _) eqn:E; (split; [|done]); constructor; try constructor; [|done].
  apply andb_true_iff in E as [?%Z.leb_le ?%Z.leb_le]. apply is_char_spec. lia.
Qed.
