(* ===== verification/Namespace.v ===== *)
(** * The durable namespace

    [mirage-db/src/namespace.rs], with the finalization of pending unlinks in
    [extent.rs], over the tables of [migrations/0011], [0012], [0026] and
    [0031] for one volume.  A table is a map from its primary key, the
    foreign keys are [RESTRICT] and enforced; a failed statement is the error
    [sqlite] makes of it.  An operation runs in a transaction that its caller
    drops on an error, so it is a function from a database to a result with
    the new database.  Strings are lists of characters ([Names]); BLAKE3,
    [char::to_uppercase] and the volume id are parameters.

    Proved over every sequence of operations: the directory entries form a
    forest under the root and the inodes pending unlink; what rename, create
    and delete change; that paged listings enumerate a directory; and that
    the checkpoint of a namespace without entries under unlinked directories
    is a readable document. *)
From S2P Require Export Names Sql.

(** ** Tables *)
Inductive NamespaceNodeKind : Set := NDirectory | NFile.
#[export] Instance NamespaceNodeKind_eq_dec : EqDecision NamespaceNodeKind.
Proof. solve_decision. Defined.

Record VolumeRow : Set := mkVolume { vr_next_sequence : Z; vr_root_inode : InodeId; vr_created_ns : Z }.
Record InodeRow : Set := mkInode {
  ir_kind : NamespaceNodeKind; ir_size : Z; ir_version_root : option Hash; ir_extent_root : option Hash;
  ir_created_ns : Z; ir_modified_ns : Z; ir_unlink_pending : bool
}.
Record Dirent : Set := mkDirent { d_display : Str; d_child : InodeId }.
Record DeltaRow : Set := mkDeltaRow {
  dl_checkpoint_seq : Z; dl_delta_seq : Z; dl_op : string; dl_payload_hash : Hash; dl_payload : list Z; dl_created_ns : Z
}.
Record CheckpointRow : Set := mkCheckpointRow {
  ck_document_hash : Hash; ck_document : list Z; ck_entry_count : Z; ck_created_ns : Z
}.
Record Db : Set := mkDb {
  volumes : option VolumeRow; inodes : gmap InodeId InodeRow; dirents : gmap (InodeId * Str) Dirent;
  legacy_map : gmap Str InodeId; ns_pins : gmap InodeId Z; deltas : list DeltaRow; checkpoints : gmap Z CheckpointRow
}.
Definition empty_db : Db := mkDb None ∅ ∅ ∅ ∅ [] ∅.

Definition set_volumes (v : option VolumeRow) (db : Db) : Db :=
  mkDb v (inodes db) (dirents db) (legacy_map db) (ns_pins db) (deltas db) (checkpoints db).
Definition set_inodes (m : gmap InodeId InodeRow) (db : Db) : Db :=
  mkDb (volumes db) m (dirents db) (legacy_map db) (ns_pins db) (deltas db) (checkpoints db).
Definition set_dirents (m : gmap (InodeId * Str) Dirent) (db : Db) : Db :=
  mkDb (volumes db) (inodes db) m (legacy_map db) (ns_pins db) (deltas db) (checkpoints db).
Definition set_legacy (m : gmap Str InodeId) (db : Db) : Db :=
  mkDb (volumes db) (inodes db) (dirents db) m (ns_pins db) (deltas db) (checkpoints db).
Definition set_pins (m : gmap InodeId Z) (db : Db) : Db :=
  mkDb (volumes db) (inodes db) (dirents db) (legacy_map db) m (deltas db) (checkpoints db).
Definition set_deltas (l : list DeltaRow) (db : Db) : Db :=
  mkDb (volumes db) (inodes db) (dirents db) (legacy_map db) (ns_pins db) l (checkpoints db).
Definition set_checkpoints (m : gmap Z CheckpointRow) (db : Db) : Db :=
  mkDb (volumes db) (inodes db) (dirents db) (legacy_map db) (ns_pins db) (deltas db) m.

Record NamespaceStat : Set := mkStat {
  st_inode : InodeId; st_kind : NamespaceNodeKind; st_size : Z; st_version_root : option Hash; st_extent_root : option Hash;
  st_created_ns : Z; st_modified_ns : Z
}.
Record DirEntry : Set := mkEntry {
  en_inode : InodeId; en_display_name : Str; en_folded_name : Str; en_kind : NamespaceNodeKind; en_size : Z;
  en_created_ns : Z; en_modified_ns : Z
}.

Definition MAX_LIST_LIMIT : Z := 4096.
Definition MAX_RENAME_DEPTH : nat := 256.

(** ** Statements *)
(** Rows of [dirents] whose child, or parent, is the inode. *)
Definition entries_of (db : Db) (f : InodeId * Str -> Dirent -> bool) : list ((InodeId * Str) * Dirent) :=
  List.filter (fun x => f x.1 x.2) (map_to_list (dirents db)).
Definition by_child (db : Db) (i : InodeId) : list ((InodeId * Str) * Dirent) := entries_of db (fun _ d => d_child d =? i).
Definition by_parent (db : Db) (i : InodeId) : list ((InodeId * Str) * Dirent) := entries_of db (fun k _ => k.1 =? i).

Definition insert_inode (context : string) (i : InodeId) (row : InodeRow) (db : Db) : result Db :=
  match volumes db, inodes db !! i with
  | Some _, None => Ok (set_inodes (<[i := row]> (inodes db)) db)
  | _, _ => Err (sqlite context)
  end.
(** [DELETE FROM inodes WHERE inode = ?]: refused while a row refers to it. *)
Definition delete_inode (context : string) (i : InodeId) (db : Db) : result Db :=
  if bool_decide (is_Some (inodes db !! i)) &&
     negb (bool_decide (by_child db i = []) && bool_decide (by_parent db i = []) &&
           forallb (fun x => negb (x.2 =? i)) (map_to_list (legacy_map db)))
  then Err (sqlite context)
  else Ok (set_inodes (delete i (inodes db)) db).
Definition delete_legacy_of (i : InodeId) (db : Db) : Db := set_legacy (filter (fun x => x.2 <> i) (legacy_map db)) db.
Definition delete_pin (i : InodeId) (db : Db) : Db := set_pins (delete i (ns_pins db)) db.
Definition update_inode (i : InodeId) (f : InodeRow -> InodeRow) (db : Db) : Db := set_inodes (alter f i (inodes db)) db.
Definition mark_pending (r : InodeRow) : InodeRow :=
  mkInode (ir_kind r) (ir_size r) (ir_version_root r) (ir_extent_root r) (ir_created_ns r) (ir_modified_ns r) true.
Definition touch (now : Z) (r : InodeRow) : InodeRow :=
  mkInode (ir_kind r) (ir_size r) (ir_version_root r) (ir_extent_root r) (ir_created_ns r) now (ir_unlink_pending r).

(** ** Queries *)
Definition entry_of (f : Str) (d : Dirent) (r : InodeRow) : DirEntry :=
  mkEntry (d_child d) (d_display d) f (ir_kind r) (ir_size r) (ir_created_ns r) (ir_modified_ns r).
Definition ns_stat (db : Db) (i : InodeId) : option NamespaceStat :=
  r ← inodes db !! i;
  Some (mkStat i (ir_kind r) (ir_size r) (ir_version_root r) (ir_extent_root r) (ir_created_ns r) (ir_modified_ns r)).
(** [dirents JOIN inodes] at a folded name. *)
Definition find_entry (db : Db) (parent : InodeId) (folded : Str) : option DirEntry :=
  d ← dirents db !! (parent, folded); r ← inodes db !! d_child d; Some (entry_of folded d r).

(** The first row that [entry_of_child] finds. *)
Definition entry_of_child (db : Db) (i : InodeId) : option (InodeId * Str) :=
  x ← head (by_child db i); Some (x.1.1, d_display x.2).

(** Binary order of the folded names. *)
Fixpoint str_lt (a b : Str) : bool :=
  match a, b with
  | _, [] => false
  | [], _ :: _ => true
  | x :: a, y :: b => (x <? y) || ((x =? y) && str_lt a b)
  end.
Definition str_le (a b : Str) : bool := negb (str_lt b a).

Definition list_children (db : Db) (parent : InodeId) (marker : option Str) (limit : Z) : result (list DirEntry) :=
  if (limit =? 0) || (MAX_LIST_LIMIT <? limit) then Err (invalid_argument "namespace listing limit is out of bounds")
  else
    let rows := omap (fun x => r ← inodes db !! d_child x.2; Some (entry_of x.1.2 x.2 r)) (by_parent db parent) in
    let rows := List.filter (fun e => match marker with None => true | Some m => str_lt m (en_folded_name e) end) rows in
    Ok (firstn (Z.to_nat limit) (sort_by (fun a b => str_le (en_folded_name a) (en_folded_name b)) rows)).

Definition resolve_legacy (db : Db) (path : Str) : option InodeId := legacy_map db !! path.

(** [split('/')]: the parts between the slashes, empty ones included. *)
Fixpoint split_slash (s : Str) : list Str :=
  match s with
  | [] => [[]]
  | c :: s =>
      if c =? 47 then [] :: split_slash s
      else match split_slash s with p :: ps => (c :: p) :: ps | [] => [[c]] end
  end.
Definition path_components (path : Str) : list Str := List.filter (fun p => negb (bool_decide (p = []))) (split_slash path).

(** [pin_held]: [fuel] hops at most. *)
Fixpoint pin_walk (db : Db) (fuel : nat) (current : InodeId) : bool :=
  match fuel with
  | O => false
  | S fuel =>
      if bool_decide (is_Some (ns_pins db !! current)) then true
      else match entry_of_child db current with Some (parent, _) => pin_walk db fuel parent | None => false end
  end.
Definition pin_held (db : Db) (i : InodeId) : bool := pin_walk db 128 i.

Definition pending_unlinks (db : Db) : list InodeId :=
  map fst (List.filter (fun x => ir_unlink_pending x.2) (map_to_list (inodes db))).

(** ** History *)
(** [ORDER BY checkpoint_seq DESC LIMIT 1], or [(0, [0; 32])]. *)
Definition current_delta_segment (db : Db) : Z * Hash :=
  match map_to_list (checkpoints db) with
  | [] => (0, 0)
  | x :: l => let seq := foldr (fun y m => Z.max y.1 m) x.1 l in (seq, match checkpoints db !! seq with Some r => ck_document_hash r | None => 0 end)
  end.
(** [COALESCE(MAX(delta_seq) + 1, 0)] of a segment. *)
Definition next_delta_seq (db : Db) (checkpoint_seq : Z) : Z :=
  match map dl_delta_seq (List.filter (fun r => dl_checkpoint_seq r =? checkpoint_seq) (deltas db)) with
  | [] => 0
  | x :: l => foldr Z.max x l + 1
  end.
Definition delta_backlog (db : Db) : Z :=
  Z.of_nat (length (List.filter (fun r => dl_checkpoint_seq r =? (current_delta_segment db).1) (deltas db))).
Definition op_name (op : NamespaceOp) : string :=
  match op with
  | OpCreate _ _ _ _ _ _ => "create" | OpRename _ _ _ _ _ _ => "rename"
  | OpDelete _ _ _ => "delete" | OpSetRoots _ _ _ _ => "set_roots"
  end.

Section namespace.
Context (upper : Z -> list Z) (blake3 : list Z -> Z) (volume_id : Z).

Definition lookup_name (db : Db) (parent : InodeId) (name : Str) : result (option DirEntry) :=
  folded ← fold_name upper name; Ok (find_entry db parent folded).

Fixpoint resolve_from (db : Db) (current : InodeId) (components : list Str) : result (option InodeId) :=
  match components with
  | [] => Ok (Some current)
  | c :: cs =>
      e ← lookup_name db current c;
      match e with Some e => resolve_from db (en_inode e) cs | None => Ok None end
  end.
Definition resolve_components (db : Db) (components : list Str) : result (option InodeId) :=
  resolve_from db (root_inode volume_id) components.
Definition resolve_path (db : Db) (path : Str) : result (option InodeId) :=
  resolve_from db (root_inode volume_id) (path_components path).

Definition record_delta (op : NamespaceOp) (now : Z) (db : Db) : result Db :=
  let '(checkpoint_seq, base_hash) := current_delta_segment db in
  let delta_seq := next_delta_seq db checkpoint_seq in
  payload ← encode_delta (mkDelta volume_id base_hash delta_seq [op]);
  if 65536 <? Z.of_nat (length payload) then Err (manifest_invalid "namespace delta payload exceeds the durable bound")
  else if existsb (fun r => (dl_checkpoint_seq r =? checkpoint_seq) && (dl_delta_seq r =? delta_seq)) (deltas db)
  then Err (sqlite "namespace delta record failed")
  else Ok (set_deltas (deltas db ++ [mkDeltaRow checkpoint_seq delta_seq (op_name op) (blake3 payload) payload now]) db).

(** ** Operations *)
Definition create_volume (now : Z) (db : Db) : result (InodeId * Db) :=
  let root := root_inode volume_id in
  match volumes db with
  | Some _ => Err (sqlite "failed to create namespace volume")
  | None =>
      let db1 := set_volumes (Some (mkVolume 1 root now)) db in
      db2 ← insert_inode "failed to seed namespace root" root (mkInode NDirectory 0 None None now now false) db1;
      Ok (root, db2)
  end.

Definition inode_label : list Z := chars "MirageSSD inode v1" ++ [0].
Definition inode_of (sequence : Z) : InodeId :=
  from_be (get 0 16 (to_be 32 (blake3 (inode_label ++ to_be 16 volume_id ++ to_le 8 sequence)))).
Definition allocate_inode (db : Db) : result (InodeId * Db) :=
  match volumes db with
  | None => Err (invalid_argument "namespace volume does not exist")
  | Some v =>
      let sequence := vr_next_sequence v in
      if sequence =? i64_max then Err (sqlite "namespace allocator update failed")
      else Ok (inode_of sequence, set_volumes (Some (mkVolume (sequence + 1) (vr_root_inode v) (vr_created_ns v))) db)
  end.

Definition create_node_in (parent : InodeId) (display_name : Str) (k : NamespaceNodeKind) (now : Z) (db : Db) : result (DirEntry * Db) :=
  folded ← fold_name upper display_name;
  parent_stat ← ok_or (invalid_argument "namespace parent inode is missing") (ns_stat db parent);
  if negb (bool_decide (st_kind parent_stat = NDirectory)) then Err (invalid_argument "namespace parent is not a directory")
  else
    '(inode, db1) ← allocate_inode db;
    db2 ← insert_inode "namespace inode insert failed" inode (mkInode k 0 None None now now false) db1;
    match dirents db2 !! (parent, folded) with
    | Some _ => Err (repository_conflict "namespace entry already exists")
    | None =>
        let db3 := set_dirents (<[(parent, folded) := mkDirent display_name inode]> (dirents db2)) db2 in
        db4 ← record_delta (OpCreate parent inode (utf8_encode display_name) (utf8_encode folded) (bool_decide (k = NDirectory)) 0) now db3;
        Ok (mkEntry inode display_name folded k 0 now now, db4)
    end.

(** The ancestor walk of rename; [fuel] is [MAX_RENAME_DEPTH - hops]. *)
Fixpoint rename_walk (db : Db) (moved : InodeId) (fuel : nat) (ancestor : InodeId) : result unit :=
  match fuel with
  | O => Err (integrity_mismatch "namespace ancestor chain exceeds the depth bound")
  | S fuel =>
      if ancestor =? moved then Err (repository_conflict "namespace rename would create a directory cycle")
      else match entry_of_child db ancestor with
           | None => Ok tt
           | Some (parent, _) => rename_walk db moved fuel parent
           end
  end.

(** The removal of what a rename replaces. *)
Definition remove_victim (to_parent : InodeId) (victim : DirEntry) (replace retain : bool) (now : Z) (db : Db) : result Db :=
  victim_stat ← ok_or (integrity_mismatch "namespace victim inode is missing") (ns_stat db (en_inode victim));
  if bool_decide (st_kind victim_stat = NDirectory) && negb (bool_decide (by_parent db (en_inode victim) = []))
  then Err (repository_conflict "namespace rename target is a non-empty directory")
  else
    let db1 := set_dirents (delete (to_parent, en_folded_name victim) (dirents db)) db in
    if negb replace then Err (repository_conflict "namespace rename target already exists")
    else
      let db2 := delete_legacy_of (en_inode victim) db1 in
      db3 ← (if retain : bool then Ok (update_inode (en_inode victim) mark_pending db2)
             else delete_inode "namespace victim inode removal failed" (en_inode victim) db2);
      let db4 := delete_pin (en_inode victim) db3 in
      record_delta (OpDelete to_parent (utf8_encode (en_folded_name victim)) (en_inode victim)) now db4.

Definition rename_in_with_policy (from_parent : InodeId) (from_name : Str) (to_parent : InodeId) (to_name : Str) (now : Z)
    (replace retain_victim : bool) (expected_victim : option (option InodeId)) (db : Db) : result Db :=
  from_folded ← fold_name upper from_name;
  to_folded ← fold_name upper to_name;
  found ← lookup_name db from_parent from_name;
  entry ← ok_or (invalid_argument "namespace rename source is missing") found;
  to_stat ← ok_or (invalid_argument "namespace rename target parent is missing") (ns_stat db to_parent);
  if negb (bool_decide (st_kind to_stat = NDirectory)) then Err (invalid_argument "namespace rename target parent is not a directory")
  else
    _ ← (if bool_decide (en_kind entry = NDirectory) then rename_walk db (en_inode entry) MAX_RENAME_DEPTH to_parent else Ok tt);
    found_victim ← lookup_name db to_parent to_name;
    let victim := match found_victim with Some v => if en_inode v =? en_inode entry then None else Some v | None => None end in
    if match expected_victim with Some expected => negb (bool_decide (expected = en_inode <$> victim)) | None => false end
    then Err (repository_conflict "rename target identity changed")
    else
      db1 ← (match victim with Some v => remove_victim to_parent v replace retain_victim now db | None => Ok db end);
      match dirents db1 !! (from_parent, from_folded) with
      | None => Err (repository_conflict "namespace rename source vanished mid-transaction")
      | Some d =>
          if negb (bool_decide ((to_parent, to_folded) = (from_parent, from_folded))) && bool_decide (is_Some (dirents db1 !! (to_parent, to_folded)))
          then Err (sqlite "namespace rename move failed")
          else
            let db2 := set_dirents (<[(to_parent, to_folded) := mkDirent to_name (d_child d)]> (delete (from_parent, from_folded) (dirents db1))) db1 in
            let db3 := update_inode (en_inode entry) (touch now) db2 in
            record_delta (OpRename (en_inode entry) from_parent (utf8_encode from_folded) to_parent (utf8_encode to_name) (utf8_encode to_folded)) now db3
      end.
Definition rename_in (from_parent : InodeId) (from_name : Str) (to_parent : InodeId) (to_name : Str) (now : Z) (db : Db) : result Db :=
  rename_in_with_policy from_parent from_name to_parent to_name now true false None db.

Definition delete_node_with_lifetime_in (parent : InodeId) (name : Str) (now : Z) (retain_inode : bool) (db : Db) : result Db :=
  folded ← fold_name upper name;
  found ← lookup_name db parent name;
  entry ← ok_or (invalid_argument "namespace delete target is missing") found;
  if bool_decide (en_kind entry = NDirectory) && negb (bool_decide (by_parent db (en_inode entry) = []))
  then Err (repository_conflict "namespace delete target is a non-empty directory")
  else
    let db1 := set_dirents (delete (parent, folded) (dirents db)) db in
    let db2 := delete_legacy_of (en_inode entry) db1 in
    db3 ← (if retain_inode : bool then Ok (update_inode (en_inode entry) mark_pending db2)
           else delete_inode "namespace inode delete failed" (en_inode entry) db2);
    let db4 := delete_pin (en_inode entry) db3 in
    record_delta (OpDelete parent (utf8_encode folded) (en_inode entry)) now db4.

Definition set_times (i : InodeId) (created modified : option Z) (db : Db) : result Db :=
  match inodes db !! i with
  | None => Err (invalid_argument "namespace inode is missing")
  | Some _ => Ok (update_inode i (fun r => mkInode (ir_kind r) (ir_size r) (ir_version_root r) (ir_extent_root r)
                    (default (ir_created_ns r) created) (default (ir_modified_ns r) modified) (ir_unlink_pending r)) db)
  end.

Definition set_file_roots (i : InodeId) (size : Z) (version_root extent_root : option Hash) (now : Z) (db : Db) : result Db :=
  if i64_max <? size then Err (invalid_argument "namespace size overflows")
  else match inodes db !! i with
  | Some r =>
      if bool_decide (ir_kind r = NFile)
      then record_delta (OpSetRoots i size version_root extent_root) now
             (update_inode i (fun r => mkInode (ir_kind r) size version_root extent_root (ir_created_ns r) now (ir_unlink_pending r)) db)
      else Err (invalid_argument "namespace file inode is missing")
  | None => Err (invalid_argument "namespace file inode is missing")
  end.

Definition record_legacy (path : Str) (i : InodeId) (db : Db) : result Db :=
  if bool_decide (is_Some (inodes db !! i)) then Ok (set_legacy (<[path := i]> (legacy_map db)) db)
  else Err (sqlite "legacy inode map write failed").

Definition pin (i : InodeId) (now : Z) (db : Db) : Db := set_pins (<[i := now]> (ns_pins db)) db.
Definition unpin (i : InodeId) (db : Db) : bool * Db := (bool_decide (is_Some (ns_pins db !! i)), delete_pin i db).

(** The tombstone half of [release_inode_extents]. *)
Definition finalize_unlink (i : InodeId) (db : Db) : result Db :=
  match inodes db !! i with
  | Some r =>
      if ir_unlink_pending r then delete_inode "pending inode finalization failed" i (delete_legacy_of i db) else Ok db
  | None => Ok db
  end.

(** ** Checkpoints *)
Definition node_of (i : InodeId) (r : InodeRow) (x : option ((InodeId * Str) * Dirent)) : NamespaceNodeRecord :=
  mkNode i (option_map (fun x => x.1.1) x)
    (match x with Some x => utf8_encode x.1.2 | None => [] end) (match x with Some x => utf8_encode (d_display x.2) | None => [] end)
    (bool_decide (ir_kind r = NDirectory)) (ir_size r) (ir_version_root r) (ir_extent_root r).
(** [inodes LEFT JOIN dirents] on the child, without the pending. *)
Definition nodes_of_row (db : Db) (x : InodeId * InodeRow) : list NamespaceNodeRecord :=
  if ir_unlink_pending x.2 then []
  else match by_child db x.1 with
       | [] => [node_of x.1 x.2 None]
       | rows => map (fun d => node_of x.1 x.2 (Some d)) rows
       end.
Definition live_nodes (db : Db) : list NamespaceNodeRecord :=
  concat (map (nodes_of_row db) (sort_by_key fst (map_to_list (inodes db)))).
Definition create_checkpoint (now : Z) (db : Db) : result (Z * Hash * Db) :=
  let nodes := live_nodes db in
  let checkpoint_seq := (current_delta_segment db).1 + 1 in
  document ← encode_checkpoint (mkCheckpoint volume_id checkpoint_seq None nodes);
  if i64_max <? checkpoint_seq then Err (internal_invariant "namespace checkpoint sequence overflows")
  else match checkpoints db !! checkpoint_seq with
  | Some _ => Err (sqlite "namespace checkpoint insert failed")
  | None =>
      let row := mkCheckpointRow (checkpoint_hash blake3 document) document (Z.of_nat (length nodes)) now in
      Ok (checkpoint_seq, checkpoint_hash blake3 document, set_checkpoints (<[checkpoint_seq := row]> (checkpoints db)) db)
  end.
End namespace.

(** ** Operations and runs *)
Inductive NsOp : Set :=
| NCreate (parent : InodeId) (name : Str) (k : NamespaceNodeKind)
| NRename (from_parent : InodeId) (from_name : Str) (to_parent : InodeId) (to_name : Str)
    (replace retain_victim : bool) (expected_victim : option (option InodeId))
| NDelete (parent : InodeId) (name : Str) (retain_inode : bool)
| NSetTimes (i : InodeId) (created modified : option Z)
| NSetRoots (i : InodeId) (size : Z) (version_root extent_root : option Hash)
| NRecordLegacy (path : Str) (i : InodeId)
| NPin (i : InodeId) | NUnpin (i : InodeId) | NFinalize (i : InodeId) | NCheckpoint.
#[export] Instance NsOp_eq_dec : EqDecision NsOp.
Proof. solve_decision. Defined.

Section run.
Context (upper : Z -> list Z) (blake3 : list Z -> Z) (volume_id : Z).
Definition ns_try (op : NsOp) (now : Z) (db : Db) : result Db :=
  match op with
  | NCreate p n k => x ← create_node_in upper blake3 volume_id p n k now db; Ok x.2
  | NRename fp fn tp tn r v e => rename_in_with_policy upper blake3 volume_id fp fn tp tn now r v e db
  | NDelete p n r => delete_node_with_lifetime_in upper blake3 volume_id p n now r db
  | NSetTimes i c m => set_times i c m db
  | NSetRoots i s v e => set_file_roots blake3 volume_id i s v e now db
  | NRecordLegacy p i => record_legacy p i db
  | NPin i => Ok (pin i now db)
  | NUnpin i => Ok (unpin i db).2
  | NFinalize i => finalize_unlink i db
  | NCheckpoint => x ← create_checkpoint blake3 volume_id now db; Ok x.2
  end.
(** A failed operation rolls back. *)
Definition ns_step (db : Db) (x : NsOp * Z) : Db := match ns_try x.1 x.2 db with Ok db' => db' | Err _ => db end.
Definition ns_run (db : Db) (ops : list (NsOp * Z)) : Db := foldl ns_step db ops.
End run.

(** A directory moved under its own child is refused; a case-only rename
    keeps the inode. *)
Definition demo_blake3 (l : list Z) : Z := sum256 l * 2 ^ 160 mod 2 ^ 256.
Definition demo_run (ops : list (NsOp * Z)) : Db :=
  ns_run ascii_upper demo_blake3 5 (match create_volume 5 0 empty_db with Ok (_, db) => db | Err _ => empty_db end) ops.
Definition demo_dir : InodeId := inode_of demo_blake3 5 1.
Definition demo_tree : list (NsOp * Z) :=
  [(NCreate (root_inode 5) (chars "docs") NDirectory, 1); (NCreate demo_dir (chars "a.txt") NFile, 2);
   (NCreate demo_dir (chars "sub") NDirectory, 3)].
Example rename_into_child_refused :
  ns_try ascii_upper demo_blake3 5 (NRename (root_inode 5) (chars "docs") (inode_of demo_blake3 5 3) (chars "x") true false None) 4 (demo_run demo_tree)
  = Err (repository_conflict "namespace rename would create a directory cycle").
Proof. vm_compute. reflexivity. Qed.
Example case_rename_keeps_inode :
  let db := demo_run (demo_tree ++ [(NRename (root_inode 5) (chars "docs") (root_inode 5) (chars "DOCS") true false None, 4)]) in
  option_map (fun e => (en_inode e, en_display_name e)) (find_entry db (root_inode 5) (chars "DOCS")) = Some (demo_dir, chars "DOCS").
Proof. vm_compute. reflexivity. Qed.

(** ** Trees of entries *)
Definition child_at (D : gmap (InodeId * Str) Dirent) (p c : InodeId) : Prop := exists f d, D !! (p, f) = Some d /\ d_child d = c.
(** Following entries upwards ends in [T]. *)
Inductive grounded (D : gmap (InodeId * Str) Dirent) (T : InodeId -> Prop) : InodeId -> Prop :=
| gr_top i : T i -> grounded D T i
| gr_child i p : child_at D p i -> grounded D T p -> grounded D T i.

Definition pending (db : Db) (i : InodeId) : Prop := exists r, inodes db !! i = Some r /\ ir_unlink_pending r = true.
Definition is_dir (db : Db) (i : InodeId) : Prop := exists r, inodes db !! i = Some r /\ ir_kind r = NDirectory.

(** Well-formed rows. *)
Record row_ok (r : InodeRow) : Prop := mk_row_ok {
  ro_size : 0 <= ir_size r <= i64_max; ro_version : opt_ok (id_ok 32) (ir_version_root r); ro_extent : opt_ok (id_ok 32) (ir_extent_root r)
}.

Section invariant.
Context (upper : Z -> list Z) (root : InodeId).
Record ns_ok (db : Db) : Prop := mk_ns_ok {
  nk_volume : is_Some (volumes db);
  nk_root : is_dir db root /\ ~ pending db root;
  nk_parent : forall p f d, dirents db !! (p, f) = Some d -> is_dir db p;
  nk_child : forall p f d, dirents db !! (p, f) = Some d -> is_Some (inodes db !! d_child d) /\ d_child d <> root /\ ~ pending db (d_child d);
  nk_unique : forall k1 k2 d1 d2, dirents db !! k1 = Some d1 -> dirents db !! k2 = Some d2 -> d_child d1 = d_child d2 -> k1 = k2;
  nk_folded : forall p f d, dirents db !! (p, f) = Some d -> fold_name upper (d_display d) = Ok f;
  nk_grounded : forall i, is_Some (inodes db !! i) -> grounded (dirents db) (fun i => i = root \/ pending db i) i;
  nk_legacy : forall path i, legacy_map db !! path = Some i -> is_Some (inodes db !! i)
}.
End invariant.

(** ** Rows of the entry table *)
Lemma by_child_spec (db : Db) (i : InodeId) (k : InodeId * Str) (d : Dirent) :
  (k, d) ∈ by_child db i <-> dirents db !! k = Some d /\ d_child d = i.
Proof.
  unfold by_child, entries_of. rewrite list_elem_of_In, filter_In, <- list_elem_of_In, elem_of_map_to_list. simpl. by rewrite Z.eqb_eq.
Qed.
Lemma by_parent_spec (db : Db) (i : InodeId) (k : InodeId * Str) (d : Dirent) :
  (k, d) ∈ by_parent db i <-> dirents db !! k = Some d /\ k.1 = i.
Proof.
  unfold by_parent, entries_of. rewrite list_elem_of_In, filter_In, <- list_elem_of_In, elem_of_map_to_list. simpl. by rewrite Z.eqb_eq.
Qed.
Lemma by_parent_nil (db : Db) (i : InodeId) : by_parent db i = [] <-> forall f, dirents db !! (i, f) = None.
Proof.
  split.
  - intros H f. destruct (dirents db !! (i, f)) as [d|] eqn:E; [|done].
    assert (Hin : ((i, f), d) ∈ by_parent db i) by (by apply by_parent_spec). rewrite H in Hin. by apply not_elem_of_nil in Hin.
  - intros H. destruct (by_parent db i) as [|[[p f] d] l] eqn:E; [done|].
    assert (Hin : ((p, f), d) ∈ by_parent db i) by (rewrite E; left). apply by_parent_spec in Hin as [Hd Hp]. simpl in Hp. subst p. by rewrite H in Hd.
Qed.
Lemma by_child_nil (db : Db) (i : InodeId) : by_child db i = [] <-> forall k d, dirents db !! k = Some d -> d_child d <> i.
Proof.
  split.
  - intros H k d Hd Hc. assert (Hin : (k, d) ∈ by_child db i) by (by apply by_child_spec). rewrite H in Hin. by apply not_elem_of_nil in Hin.
  - intros H. destruct (by_child db i) as [|[k d] l] eqn:E; [done|].
    assert (Hin : (k, d) ∈ by_child db i) by (rewrite E; left). apply by_child_spec in Hin as [Hd Hp]. by destruct (H k d Hd).
Qed.
Lemma entry_of_child_Some (db : Db) (i p : InodeId) (n : Str) : entry_of_child db i = Some (p, n) -> child_at (dirents db) p i.
Proof.
  unfold entry_of_child. destruct (by_child db i) as [|[[q f] d] l] eqn:E; [done|]. simpl. intros [= -> _].
  assert (Hin : ((p, f), d) ∈ by_child db i) by (rewrite E; left). apply by_child_spec in Hin as [Hd Hc]. by exists f, d.
Qed.
Lemma entry_of_child_None (db : Db) (i : InodeId) : entry_of_child db i = None <-> forall p, ~ child_at (dirents db) p i.
Proof.
  unfold entry_of_child. split.
  - destruct (by_child db i) eqn:E; [|done]. intros _ p (f & d & Hd & Hc). by apply (proj1 (by_child_nil db i) E (p, f) d Hd).
  - intros H. destruct (by_child db i) as [|[[q f] d] l] eqn:E; [done|]. exfalso. apply (H q).
    assert (Hin : ((q, f), d) ∈ by_child db i) by (rewrite E; left). apply by_child_spec in Hin as [Hd Hc]. by exists f, d.
Qed.

(** ** Deleting an inode *)
Lemma delete_inode_Ok (context : string) (i : InodeId) (db db' : Db) :
  delete_inode context i db = Ok db' ->
  db' = set_inodes (delete i (inodes db)) db /\
  (is_Some (inodes db !! i) ->
     by_child db i = [] /\ by_parent db i = [] /\ forall path, legacy_map db !! path <> Some i).
Proof.
  unfold delete_inode. destruct (bool_decide_reflect (is_Some (inodes db !! i))) as [Hs|Hs]; cbn [andb].
  - destruct (_ && _) eqn:E; cbn [negb]; [|done]. intros H. apply Ok_inj in H as <-. split; [done|]. intros _.
    apply andb_true_iff in E as [[E1 E2]%andb_true_iff E3]. apply bool_decide_eq_true in E1, E2. split_and!; [done|done|].
    intros path Hp. assert (Hin : In (path, i) (map_to_list (legacy_map db))) by (by apply list_elem_of_In, elem_of_map_to_list).
    pose proof (proj1 (forallb_forall _ _) E3 _ Hin) as Hx. simpl in Hx. by rewrite Z.eqb_refl in Hx.
  - intros H. apply Ok_inj in H as <-. done.
Qed.

(** ** Grounding *)
Lemma grounded_mono (D D' : gmap (InodeId * Str) Dirent) (T T' : InodeId -> Prop) (i : InodeId) :
  D ⊆ D' -> (forall i, T i -> T' i) -> grounded D T i -> grounded D' T' i.
Proof.
  intros HD HT. induction 1 as [i Hi|i p (f & d & Hd & Hc) _ IH]; [apply gr_top; auto|].
  apply (gr_child _ _ _ p); [|done]. exists f, d. split; [|done]. by eapply lookup_weaken.
Qed.
(** Dropping the entry of a node without children. *)
Lemma grounded_drop_leaf (D : gmap (InodeId * Str) Dirent) (T : InodeId -> Prop) (k : InodeId * Str) (c i : InodeId) :
  (forall d, D !! k = Some d -> d_child d = c) -> (forall f, D !! (c, f) = None) -> i <> c -> grounded D T i -> grounded (delete k D) T i.
Proof.
  intros Hk Hc Hi Hg. revert Hi. induction Hg as [i Ht|i p (f & d & Hd & He) _ IH]; intros Hi; [by apply gr_top|].
  apply (gr_child _ _ _ p).
  - exists f, d. split; [|done]. rewrite lookup_delete_ne; [done|]. intros ->. rewrite (Hk d Hd) in He. congruence.
  - apply IH. intros ->. by rewrite Hc in Hd.
Qed.

Section preserve.
Context (upper : Z -> list Z) (root : InodeId).
Notation ok := (ns_ok upper root).
Notation tops db := (fun i : InodeId => i = root \/ pending db i).

Lemma ns_ok_view (db db' : Db) :
  is_Some (volumes db') -> inodes db' = inodes db -> dirents db' = dirents db -> legacy_map db' = legacy_map db -> ok db -> ok db'.
Proof.
  intros Hv Hi Hd Hl []. unfold is_dir, pending in *. constructor; unfold is_dir, pending; rewrite ?Hi, ?Hd, ?Hl; done.
Qed.

(** Row updates that keep the kind and the tombstone mark. *)
Lemma ns_ok_alter (db : Db) (i : InodeId) (f : InodeRow -> InodeRow) :
  (forall r, ir_kind (f r) = ir_kind r /\ ir_unlink_pending (f r) = ir_unlink_pending r) -> ok db -> ok (update_inode i f db).
Proof.
  intros Hf [].
  assert (Hsome : forall j, is_Some (alter f i (inodes db) !! j) <-> is_Some (inodes db !! j)) by (intros; apply lookup_alter_is_Some).
  assert (Hget : forall (P : InodeRow -> Prop) j, (forall r, P (f r) <-> P r) ->
    (exists r, alter f i (inodes db) !! j = Some r /\ P r) <-> (exists r, inodes db !! j = Some r /\ P r)).
  { intros P j HP. destruct (decide (j = i)) as [->|Hne].
    - rewrite lookup_alter_eq. destruct (inodes db !! i) as [r|]; simpl; [|naive_solver].
      split; intros (r' & [= <-] & Hr); eexists; (split; [done|]); by apply HP.
    - by rewrite lookup_alter_ne by congruence. }
  assert (Hdir : forall j, is_dir (update_inode i f db) j <-> is_dir db j).
  { intros j. apply (Hget (fun r => ir_kind r = NDirectory)). intros r. by destruct (Hf r) as [-> _]. }
  assert (Hpend : forall j, pending (update_inode i f db) j <-> pending db j).
  { intros j. apply (Hget (fun r => ir_unlink_pending r = true)). intros r. by destruct (Hf r) as [_ ->]. }
  constructor; cbn [dirents legacy_map volumes inodes update_inode set_inodes]; try done.
  - by rewrite Hdir, Hpend.
  - intros p g d Hd. apply Hdir. by eapply nk_parent0.
  - intros p g d Hd. rewrite Hsome, Hpend. by eapply nk_child0.
  - intros j Hj%Hsome. eapply grounded_mono; [done| |by apply nk_grounded0]. intros j' [->|Hp]; [by left|]. right. by apply Hpend.
  - intros path j Hj. apply Hsome. by eapply nk_legacy0.
Qed.

(** *** Unlinking an entry without children *)
Lemma legacy_filter (db : Db) (c : InodeId) (path : Str) (i : InodeId) :
  legacy_map (delete_legacy_of c db) !! path = Some i <-> legacy_map db !! path = Some i /\ i <> c.
Proof. cbn [legacy_map delete_legacy_of set_legacy]. by rewrite map_lookup_filter_Some. Qed.

Lemma ns_ok_unlink (db : Db) (k : InodeId * Str) (d : Dirent) (retain : bool) :
  ok db -> dirents db !! k = Some d -> (forall f, dirents db !! (d_child d, f) = None) ->
  ok (let db2 := delete_legacy_of (d_child d) (set_dirents (delete k (dirents db)) db) in
      if retain then update_inode (d_child d) mark_pending db2 else set_inodes (delete (d_child d) (inodes db2)) db2).
Proof.
  intros [] Hk Hleaf. set (c := d_child d). destruct k as [p0 f0]. destruct (nk_child0 _ _ _ Hk) as (Hc & Hcr & Hcp). fold c in Hc, Hcr, Hcp.
  set (db' := if retain then _ else _).
  assert (Hdir' : forall j, j <> c -> is_dir db j -> is_dir db' j).
  { intros j Hj (r & Hr & ?). exists r. split; [|done]. unfold db'. destruct retain; simpl; [by rewrite lookup_alter_ne by congruence|by rewrite lookup_delete_ne by congruence]. }
  assert (Hpend' : forall j, j <> c -> pending db' j <-> pending db j).
  { intros j Hj. unfold pending, db'. destruct retain; simpl; [by rewrite lookup_alter_ne by congruence|by rewrite lookup_delete_ne by congruence]. }
  assert (Hsome' : forall j, j <> c -> is_Some (inodes db' !! j) <-> is_Some (inodes db !! j)).
  { intros j Hj. unfold db'. destruct retain; simpl; [by rewrite lookup_alter_ne by congruence|by rewrite lookup_delete_ne by congruence]. }
  assert (Hdirs : dirents db' = delete (p0, f0) (dirents db)) by (unfold db'; by destruct retain).
  assert (Hne : forall p f e, dirents db' !! (p, f) = Some e -> dirents db !! (p, f) = Some e /\ d_child e <> c /\ p <> c).
  { intros p f e He. rewrite Hdirs in He. apply lookup_delete_Some in He as [Hk' He]. split_and!; [done| |].
    - intros E. apply Hk'. by eapply nk_unique0.
    - intros ->. unfold c in He. by rewrite Hleaf in He. }
  constructor.
  - unfold db'. by destruct retain.
  - destruct nk_root0 as [Hr Hp]. split; [by apply Hdir'|]. by rewrite Hpend'.
  - intros p f e (He & _ & Hp)%Hne. apply Hdir'; [done|]. by eapply nk_parent0.
  - intros p f e (He & Hec & _)%Hne. rewrite Hsome', Hpend' by done. by eapply nk_child0.
  - intros [p1 f1] [p2 f2] d1 d2 (H1 & _ & _)%Hne (H2 & _ & _)%Hne. by eapply nk_unique0.
  - intros p f e (He & _ & _)%Hne. by eapply nk_folded0.
  - intros i Hi. rewrite Hdirs. destruct (decide (i = c)) as [->|Hic].
    + apply gr_top. right. unfold db' in *. destruct retain; simpl in *.
      * destruct Hc as [r Hr]. exists (mark_pending r). simpl. by rewrite lookup_alter_eq, Hr.
      * rewrite lookup_delete_eq in Hi. by destruct Hi.
    + apply (grounded_mono (delete (p0, f0) (dirents db)) _ (tops db)); [done| |].
      * intros j [->|Hj]; [by left|]. destruct (decide (j = c)) as [->|Hjc]; [done|]. right. by apply Hpend'.
      * apply (grounded_drop_leaf _ _ _ c); [|done|done|].
        { intros e He. rewrite Hk in He. by injection He as <-. }
        apply nk_grounded0. by apply Hsome'.
  - intros path i Hl. assert (Hl' : legacy_map (delete_legacy_of c db) !! path = Some i) by (unfold db' in Hl; by destruct retain).
    apply legacy_filter in Hl' as [Hl' Hic]. apply Hsome'; [done|]. by eapply nk_legacy0.
Qed.

(** *** Moving an entry *)
Lemma ns_ok_move (db : Db) (fk tk : InodeId * Str) (d : Dirent) (name : Str) :
  ok db -> dirents db !! fk = Some d -> (tk = fk \/ dirents db !! tk = None) -> fold_name upper name = Ok tk.2 -> is_dir db tk.1 ->
  grounded (delete fk (dirents db)) (tops db) tk.1 ->
  ok (set_dirents (<[tk := mkDirent name (d_child d)]> (delete fk (dirents db))) db).
Proof.
  intros Hok Hfk Htk Hname Hdir Hg. pose proof Hok as [].
  assert (Hfree : delete fk (dirents db) !! tk = None).
  { destruct Htk as [->|Htk]; [apply lookup_delete_eq|]. apply lookup_delete_None. by right. }
  set (D' := <[tk := mkDirent name (d_child d)]> (delete fk (dirents db))).
  assert (Hcase : forall k e, D' !! k = Some e -> k = tk /\ e = mkDirent name (d_child d) \/ dirents db !! k = Some e /\ k <> fk /\ k <> tk).
  { intros k e [[-> <-]|[Hne He]]%lookup_insert_Some; [by left|]. apply lookup_delete_Some in He as [? He]. right. done. }
  assert (Hother : forall k e, dirents db !! k = Some e -> k <> fk -> d_child e <> d_child d).
  { intros k e He Hne Hc. apply Hne. by eapply nk_unique0. }
  constructor; cbn [dirents volumes inodes legacy_map set_dirents]; fold D'; try done.
  - intros p f e [[<- ->]|(He & _ & _)]%Hcase; [done|]. by eapply nk_parent0.
  - intros p f e [[<- ->]|(He & _ & _)]%Hcase; [|by eapply nk_child0]. destruct fk as [p0 f0]. exact (nk_child0 _ _ d Hfk).
  - intros k1 k2 e1 e2 [[-> ->]|(H1 & N1 & _)]%Hcase [[-> ->]|(H2 & N2 & _)]%Hcase; simpl; intros Hc; [done|..].
    + by destruct (Hother _ _ H2 N2).
    + by destruct (Hother _ _ H1 N1).
    + by eapply nk_unique0.
  - intros p f e [[<- ->]|(He & _ & _)]%Hcase; [done|]. by eapply nk_folded0.
  - intros i Hi. specialize (nk_grounded0 i Hi).
    assert (Hsub : delete fk (dirents db) ⊆ D') by (by apply insert_subseteq).
    induction nk_grounded0 as [i Ht|i p (f & e & He & Hc) Hp IH]; [by apply gr_top|].
    destruct (decide ((p, f) = fk)) as [Hk|Hk].
    + rewrite Hk, Hfk in He. injection He as <-. apply (gr_child _ _ _ tk.1).
      * exists tk.2, (mkDirent name (d_child d)). split; [|done]. destruct tk. apply lookup_insert_eq.
      * by eapply grounded_mono; [exact Hsub| |exact Hg].
    + apply (gr_child _ _ _ p).
      * exists f, e. split; [|done]. eapply lookup_weaken; [|exact Hsub]. by rewrite lookup_delete_ne.
      * apply IH. destruct (nk_parent0 _ _ _ He) as (r & Hr & _). by exists r.
Qed.

(** The walk that found no cycle. *)
Lemma rename_walk_grounded (db : Db) (fk : InodeId * Str) (d : Dirent) (fuel : nat) (a : InodeId) :
  ok db -> dirents db !! fk = Some d -> is_Some (inodes db !! a) ->
  rename_walk db (d_child d) fuel a = Ok tt -> grounded (delete fk (dirents db)) (tops db) a.
Proof.
  intros [] Hfk. revert a. induction fuel as [|fuel IH]; intros a Ha; cbn [rename_walk]; [done|].
  destruct (Z.eqb_spec a (d_child d)) as [|Hne]; [done|]. destruct (entry_of_child db a) as [[p n]|] eqn:E.
  - apply entry_of_child_Some in E as (f & e & He & Hc). intros Hw. apply (gr_child _ _ _ p).
    + exists f, e. split; [|done]. rewrite lookup_delete_ne; [done|]. intros E. rewrite E, He in Hfk. injection Hfk as ->. done.
    + apply IH; [|done]. destruct (nk_parent0 _ _ _ He) as (r & Hr & _). by exists r.
  - intros _. destruct (nk_grounded0 a Ha) as [a Ht|a p Hc _]; [by apply gr_top|].
    by destruct (proj1 (entry_of_child_None db a) E p).
Qed.
(** Moving a file cannot cut a directory off. *)
Lemma file_move_grounded (db : Db) (fk : InodeId * Str) (d : Dirent) (a : InodeId) :
  ok db -> dirents db !! fk = Some d -> ~ is_dir db (d_child d) -> is_dir db a -> grounded (delete fk (dirents db)) (tops db) a.
Proof.
  intros [] Hfk Hfile Ha. assert (Hs : is_Some (inodes db !! a)) by (destruct Ha as (r & Hr & _); by exists r).
  specialize (nk_grounded0 a Hs). clear Hs. induction nk_grounded0 as [a Ht|a p (f & e & He & Hc) _ IH]; [by apply gr_top|].
  apply (gr_child _ _ _ p); [|apply IH; by eapply nk_parent0]. exists f, e. split; [|done].
  rewrite lookup_delete_ne; [done|]. intros E. rewrite E, He in Hfk. injection Hfk as ->. by subst a.
Qed.
End preserve.

(** ** What the operations did when they succeed *)
Lemma find_entry_Some (db : Db) (p : InodeId) (f : Str) (e : DirEntry) :
  find_entry db p f = Some e <-> exists d r, dirents db !! (p, f) = Some d /\ inodes db !! d_child d = Some r /\ e = entry_of f d r.
Proof.
  unfold find_entry. destruct (dirents db !! (p, f)) as [d|]; simpl; [|naive_solver].
  destruct (inodes db !! d_child d) as [r|] eqn:Er; simpl; naive_solver.
Qed.
Lemma ns_stat_Some (db : Db) (i : InodeId) (st : NamespaceStat) :
  ns_stat db i = Some st -> exists r, inodes db !! i = Some r /\ st_kind st = ir_kind r.
Proof. unfold ns_stat. destruct (inodes db !! i) as [r|]; [|done]. intros [= <-]. by exists r. Qed.

Section specs.
Context (upper : Z -> list Z) (blake3 : list Z -> Z) (volume_id : Z).

Lemma record_delta_Ok (op : NamespaceOp) (now : Z) (db db' : Db) :
  record_delta blake3 volume_id op now db = Ok db' -> exists l, db' = set_deltas l db.
Proof.
  unfold record_delta. destruct (current_delta_segment db) as [cs bh]. intros H. apply bind_Ok_inv in H as (payload & _ & H).
  destruct (65536 <? _); [done|]. destruct (existsb _ _); [done|]. apply Ok_inj in H as <-. by eexists.
Qed.

(** The view of a database that the other tables do not show. *)
Definition same_tree (db' : Db) (I : gmap InodeId InodeRow) (D : gmap (InodeId * Str) Dirent) (L : gmap Str InodeId) (P : gmap InodeId Z) : Prop :=
  inodes db' = I /\ dirents db' = D /\ legacy_map db' = L /\ ns_pins db' = P.

Lemma create_node_Ok (parent : InodeId) (name : Str) (k : NamespaceNodeKind) (now : Z) (db db' : Db) (e : DirEntry) :
  create_node_in upper blake3 volume_id parent name k now db = Ok (e, db') ->
  exists f i, fold_name upper name = Ok f /\ is_dir db parent /\ dirents db !! (parent, f) = None /\ inodes db !! i = None /\
    e = mkEntry i name f k 0 now now /\ (exists s, i = inode_of blake3 volume_id s) /\ is_Some (volumes db') /\
    same_tree db' (<[i := mkInode k 0 None None now now false]> (inodes db)) (<[(parent, f) := mkDirent name i]> (dirents db)) (legacy_map db) (ns_pins db).
Proof.
  unfold create_node_in. intros H. apply bind_Ok_inv in H as (f & Hf & H). apply bind_Ok_inv in H as (st & Hst%ok_or_Ok_inv & H).
  apply ns_stat_Some in Hst as (r & Hr & Hk). destruct (bool_decide_reflect (st_kind st = NDirectory)) as [Hd|]; cbn [negb] in H; [|done].
  apply bind_Ok_inv in H as ([i db1] & Ha & H). unfold allocate_inode in Ha. destruct (volumes db) as [v|] eqn:Ev; [|done].
  destruct (_ =? i64_max); [done|]. apply Ok_inj in Ha. injection Ha as <- <-.
  apply bind_Ok_inv in H as (db2 & Hi & H). unfold insert_inode in Hi. cbn [volumes set_volumes inodes] in Hi.
  destruct (inodes db !! inode_of blake3 volume_id (vr_next_sequence v)) eqn:Ei; [done|]. apply Ok_inj in Hi as <-. cbn [dirents set_inodes set_volumes] in H.
  destruct (dirents db !! (parent, f)) eqn:Ed; [done|]. apply bind_Ok_inv in H as (db4 & [l ->]%record_delta_Ok & H).
  apply Ok_inj in H. injection H as <- <-. exists f, (inode_of blake3 volume_id (vr_next_sequence v)).
  split; [done|]. split; [exists r; split; congruence|]. do 3 (split; [done|]). split; [by eexists|]. split; [by eexists|]. done.
Qed.

(** What unlinking an entry leaves. *)
Definition unlink_inodes (I : gmap InodeId InodeRow) (c : InodeId) (retain : bool) : gmap InodeId InodeRow :=
  if retain then alter mark_pending c I else delete c I.

Lemma unlink_Ok (context : string) (c : InodeId) (k : InodeId * Str) (retain : bool) (db db3 : Db) :
  (if retain then Ok (update_inode c mark_pending (delete_legacy_of c (set_dirents (delete k (dirents db)) db)))
   else delete_inode context c (delete_legacy_of c (set_dirents (delete k (dirents db)) db))) = Ok db3 ->
  db3 = (let db2 := delete_legacy_of c (set_dirents (delete k (dirents db)) db) in
         if retain then update_inode c mark_pending db2 else set_inodes (delete c (inodes db2)) db2).
Proof. destruct retain; [by intros <-%Ok_inj|]. by intros [-> _]%delete_inode_Ok. Qed.

Lemma delete_node_Ok (parent : InodeId) (name : Str) (now : Z) (retain : bool) (db db' : Db) :
  delete_node_with_lifetime_in upper blake3 volume_id parent name now retain db = Ok db' ->
  exists f d r, fold_name upper name = Ok f /\ dirents db !! (parent, f) = Some d /\ inodes db !! d_child d = Some r /\
    (ir_kind r = NDirectory -> by_parent db (d_child d) = []) /\ volumes db' = volumes db /\
    same_tree db' (unlink_inodes (inodes db) (d_child d) retain) (delete (parent, f) (dirents db))
      (legacy_map (delete_legacy_of (d_child d) db)) (delete (d_child d) (ns_pins db)).
Proof.
  unfold delete_node_with_lifetime_in, lookup_name. intros H. apply bind_Ok_inv in H as (f & Hf & H). rewrite Hf in H. cbn [mbind result_bind] in H.
  apply bind_Ok_inv in H as (e & He%ok_or_Ok_inv & H). apply find_entry_Some in He as (d & r & Hd & Hr & ->). cbn [entry_of en_kind en_inode] in H.
  destruct (_ && _) eqn:Ec; [done|]. apply bind_Ok_inv in H as (db3 & ->%unlink_Ok & H).
  apply record_delta_Ok in H as [l ->]. exists f, d, r. split_and!; [done|done|done| |by destruct retain|by destruct retain].
  intros Hk. apply andb_false_iff in Ec as [Ec|Ec]; [by apply bool_decide_eq_false in Ec|]. by apply negb_false_iff, bool_decide_eq_true in Ec.
Qed.

Lemma remove_victim_Ok (tp : InodeId) (v : DirEntry) (replace retain : bool) (now : Z) (db db' : Db) :
  remove_victim blake3 volume_id tp v replace retain now db = Ok db' ->
  replace = true /\ exists r, inodes db !! en_inode v = Some r /\
    (ir_kind r = NDirectory -> by_parent db (en_inode v) = []) /\ volumes db' = volumes db /\
    same_tree db' (unlink_inodes (inodes db) (en_inode v) retain) (delete (tp, en_folded_name v) (dirents db))
      (legacy_map (delete_legacy_of (en_inode v) db)) (delete (en_inode v) (ns_pins db)).
Proof.
  unfold remove_victim. intros H. apply bind_Ok_inv in H as (st & Hst%ok_or_Ok_inv & H). apply ns_stat_Some in Hst as (r & Hr & Hk).
  destruct (_ && _) eqn:Ec; [done|]. destruct replace; cbn [negb] in H; [|done]. split; [done|].
  apply bind_Ok_inv in H as (db3 & ->%unlink_Ok & H). apply record_delta_Ok in H as [l ->]. exists r.
  split_and!; [done| |by destruct retain|by destruct retain].
  intros Hk'. rewrite <- Hk in Hk'. apply andb_false_iff in Ec as [Ec|Ec]; [by apply bool_decide_eq_false in Ec|]. by apply negb_false_iff, bool_decide_eq_true in Ec.
Qed.

(** The replaced entry of a rename, if it is another inode. *)
Definition rename_victim (db : Db) (tk : InodeId * Str) (moved : InodeId) : option DirEntry :=
  match find_entry db tk.1 tk.2 with Some v => if en_inode v =? moved then None else Some v | None => None end.

Record renamed (db db' : Db) (fp : InodeId) (ff : Str) (tp : InodeId) (tf to_name : Str) (now : Z) (retain : bool) (d : Dirent) (r : InodeRow) : Prop := mk_renamed {
  rn_source : dirents db !! (fp, ff) = Some d;
  rn_row : inodes db !! d_child d = Some r;
  rn_target : is_dir db tp;
  rn_walk : ir_kind r = NDirectory -> rename_walk db (d_child d) MAX_RENAME_DEPTH tp = Ok tt;
  rn_tree : exists db1,
    match rename_victim db (tp, tf) (d_child d) with
    | Some v => exists rv, inodes db !! en_inode v = Some rv /\ (ir_kind rv = NDirectory -> by_parent db (en_inode v) = []) /\
        volumes db1 = volumes db /\
        same_tree db1 (unlink_inodes (inodes db) (en_inode v) retain) (delete (tp, tf) (dirents db)) (legacy_map (delete_legacy_of (en_inode v) db)) (delete (en_inode v) (ns_pins db))
    | None => db1 = db
    end /\
    dirents db1 !! (fp, ff) = Some d /\ ((tp, tf) = (fp, ff) \/ dirents db1 !! (tp, tf) = None) /\ volumes db' = volumes db1 /\
    same_tree db' (alter (touch now) (d_child d) (inodes db1)) (<[(tp, tf) := mkDirent to_name (d_child d)]> (delete (fp, ff) (dirents db1))) (legacy_map db1) (ns_pins db1)
}.
Lemma rename_Ok (fp : InodeId) (from_name : Str) (tp : InodeId) (to_name : Str) (now : Z) (replace retain : bool)
    (expected : option (option InodeId)) (db db' : Db) :
  rename_in_with_policy upper blake3 volume_id fp from_name tp to_name now replace retain expected db = Ok db' ->
  exists ff tf d r, fold_name upper from_name = Ok ff /\ fold_name upper to_name = Ok tf /\
    (forall x, expected = Some x -> x = en_inode <$> rename_victim db (tp, tf) (d_child d)) /\
    renamed db db' fp ff tp tf to_name now retain d r.
Proof.
  unfold rename_in_with_policy, lookup_name. intros H. apply bind_Ok_inv in H as (ff & Hff & H). apply bind_Ok_inv in H as (tf & Htf & H).
  rewrite Hff, Htf in H. cbn [mbind result_bind] in H.
  apply bind_Ok_inv in H as (e & He%ok_or_Ok_inv & H). apply find_entry_Some in He as (d & r & Hd & Hr & ->). cbn [entry_of en_kind en_inode] in H.
  apply bind_Ok_inv in H as (st & Hst%ok_or_Ok_inv & H). apply ns_stat_Some in Hst as (rt & Hrt & Hk).
  destruct (bool_decide_reflect (st_kind st = NDirectory)) as [Hdir|]; cbn [negb] in H; [|done].
  apply bind_Ok_inv in H as ([] & Hw & H). fold (rename_victim db (tp, tf) (d_child d)) in H.
  destruct (match expected with Some _ => _ | None => _ end) eqn:Ee; [done|].
  apply bind_Ok_inv in H as (db1 & H1 & H). destruct (dirents db1 !! (fp, ff)) as [d1|] eqn:Ed1; [|done].
  destruct (_ && _) eqn:Ec; [done|]. apply record_delta_Ok in H as [l ->]. exists ff, tf, d, r. split_and!; [done|done| |].
  { intros x ->. by apply negb_false_iff, bool_decide_eq_true in Ee. }
  assert (Hv : match rename_victim db (tp, tf) (d_child d) with
    | Some v => exists rv, inodes db !! en_inode v = Some rv /\ (ir_kind rv = NDirectory -> by_parent db (en_inode v) = []) /\
        volumes db1 = volumes db /\
        same_tree db1 (unlink_inodes (inodes db) (en_inode v) retain) (delete (tp, tf) (dirents db)) (legacy_map (delete_legacy_of (en_inode v) db)) (delete (en_inode v) (ns_pins db))
    | None => db1 = db
    end).
  { unfold rename_victim in *. cbn [fst snd] in *. destruct (find_entry db tp tf) as [v|] eqn:Ef; [|by apply Ok_inj in H1 as <-].
    destruct (en_inode v =? d_child d); [by apply Ok_inj in H1 as <-|]. apply remove_victim_Ok in H1 as (_ & rv & H1).
    exists rv. apply find_entry_Some in Ef as (dv & rv' & _ & _ & ->). done. }
  assert (d1 = d) as ->.
  { destruct (rename_victim db (tp, tf) (d_child d)); [|subst db1; congruence].
    destruct Hv as (_ & _ & _ & _ & _ & Hdd & _). rewrite Hdd in Ed1. apply lookup_delete_Some in Ed1 as [_ Ed1]. congruence. }
  constructor; try done; [exists rt; split; congruence|intros Hkd; by rewrite bool_decide_eq_true_2 in Hw|].
  exists db1. split_and!; [done|done| |done|done].
  apply andb_false_iff in Ec as [Ec|Ec]; [left; by apply negb_false_iff, bool_decide_eq_true in Ec|right].
  apply bool_decide_eq_false in Ec. by destruct (dirents db1 !! (tp, tf)); [destruct Ec|].
Qed.
End specs.

(** ** The invariant over every operation *)
Section run_ok.
Context (upper : Z -> list Z) (blake3 : list Z -> Z) (volume_id : Z).
Let root := root_inode volume_id.
Notation ok := (ns_ok upper root).
Notation tops db := (fun i : InodeId => i = root \/ pending db i).

Lemma create_volume_ok (now : Z) (i : InodeId) (db : Db) :
  create_volume volume_id now empty_db = Ok (i, db) -> i = root /\ ok db.
Proof.
  unfold create_volume. cbn [volumes empty_db]. intros H. apply bind_Ok_inv in H as (db2 & H2 & H). apply Ok_inj in H. injection H as <- <-.
  split; [done|]. apply Ok_inj in H2 as <-. fold root. constructor; cbn [volumes inodes dirents legacy_map set_inodes set_volumes empty_db].
  - done.
  - split; [eexists; split; [apply lookup_insert_eq|done]|]. intros (r & Hr & Hp). cbn [inodes set_inodes] in Hr. rewrite lookup_insert_eq in Hr. by injection Hr as <-.
  - intros p f d H. by rewrite lookup_empty in H.
  - intros p f d H. by rewrite lookup_empty in H.
  - intros k1 k2 d1 d2 H. by rewrite lookup_empty in H.
  - intros p f d H. by rewrite lookup_empty in H.
  - intros i Hi. apply gr_top. left. destruct (decide (i = root)) as [->|Hne]; [done|]. rewrite lookup_insert_ne, lookup_empty in Hi by congruence. by destruct Hi.
  - intros path i H. by rewrite lookup_empty in H.
Qed.

(** A fresh inode with its entry. *)
Lemma ns_ok_insert (db db' : Db) (parent : InodeId) (f name : Str) (i : InodeId) (row : InodeRow) :
  ok db -> is_dir db parent -> dirents db !! (parent, f) = None -> inodes db !! i = None -> fold_name upper name = Ok f ->
  ir_unlink_pending row = false -> is_Some (volumes db') ->
  inodes db' = <[i := row]> (inodes db) -> dirents db' = <[(parent, f) := mkDirent name i]> (dirents db) ->
  (forall path j, legacy_map db' !! path = Some j -> is_Some (inodes db' !! j)) -> ok db'.
Proof.
  intros Hok Hdir Hfree Hnew Hf Hrow Hvol HI HD HL. pose proof Hok as [].
  assert (Hne : forall j, is_Some (inodes db !! j) -> j <> i) by (intros j Hj ->; rewrite Hnew in Hj; by destruct Hj).
  assert (Hget : forall j, j <> i -> inodes db' !! j = inodes db !! j) by (intros j Hj; by rewrite HI, lookup_insert_ne by congruence).
  assert (Hd' : forall j, is_dir db j -> is_dir db' j).
  { intros j (r & Hr & ?). exists r. split; [|done]. by rewrite Hget by (apply Hne; by exists r). }
  assert (Hp' : forall j, pending db' j <-> pending db j).
  { intros j. unfold pending. destruct (decide (j = i)) as [->|Hj]; [|by rewrite Hget]. rewrite HI, lookup_insert_eq, Hnew.
    split; [intros (r & [= <-] & Hp); congruence|by intros (r & Hr & _)]. }
  assert (Hs' : forall j, is_Some (inodes db !! j) -> is_Some (inodes db' !! j)) by (intros j Hj; rewrite Hget; auto).
  assert (Hroot : is_Some (inodes db !! root)) by (destruct nk_root0 as [(r & Hr & _) _]; by exists r).
  assert (Hcase : forall p g d, dirents db' !! (p, g) = Some d -> (p, g) = (parent, f) /\ d = mkDirent name i \/ dirents db !! (p, g) = Some d).
  { intros p g d. rewrite HD. intros [[<- <-]|[_ Hd]]%lookup_insert_Some; [by left|by right]. }
  constructor.
  - done.
  - destruct nk_root0 as [? ?]. split; [by apply Hd'|]. by rewrite Hp'.
  - intros p g d [[[= -> ->] ->]|Hd]%Hcase; [by apply Hd'|]. apply Hd'. by eapply nk_parent0.
  - intros p g d [[[= -> ->] ->]|Hd]%Hcase; simpl.
    + rewrite Hp', HI, lookup_insert_eq. split_and!; [done|intros E; by destruct (Hne root Hroot)|]. intros (r & Hr & _). congruence.
    + destruct (nk_child0 _ _ _ Hd) as (? & ? & ?). rewrite Hp'. split_and!; auto.
  - intros [p1 g1] [p2 g2] d1 d2 [[-> ->]|H1]%Hcase [[-> ->]|H2]%Hcase; simpl; intros E; [done|..].
    + destruct (nk_child0 _ _ _ H2) as (Hc & _). by destruct (Hne _ Hc).
    + destruct (nk_child0 _ _ _ H1) as (Hc & _). by destruct (Hne _ Hc).
    + by eapply nk_unique0.
  - intros p g d [[[= -> ->] ->]|Hd]%Hcase; [done|]. by eapply nk_folded0.
  - intros j Hj.
    assert (Hold : forall j, is_Some (inodes db !! j) -> grounded (dirents db') (tops db') j).
    { intros j' Hj'. apply (grounded_mono (dirents db) _ (tops db)); [| |by apply nk_grounded0].
      - rewrite HD. by apply insert_subseteq.
      - intros x [->|Hx]; [by left|]. right. by apply Hp'. }
    destruct (decide (j = i)) as [->|Hji]; [|apply Hold; by rewrite Hget in Hj by done].
    apply (gr_child _ _ _ parent); [|apply Hold; destruct Hdir as (r & Hr & _); by exists r].
    exists f, (mkDirent name i). split; [|done]. rewrite HD. apply lookup_insert_eq.
  - done.
Qed.

Lemma create_node_ok (parent : InodeId) (name : Str) (k : NamespaceNodeKind) (now : Z) (db db' : Db) (e : DirEntry) :
  ok db -> create_node_in upper blake3 volume_id parent name k now db = Ok (e, db') -> ok db'.
Proof.
  intros Hok H. apply create_node_Ok in H as (f & i & Hf & Hdir & Hfree & Hnew & _ & _ & Hvol & HI & HD & HL & _).
  apply (ns_ok_insert db db' parent f name i (mkInode k 0 None None now now false)); try done. intros path j. rewrite HL, HI. intros Hj%(nk_legacy _ _ db Hok). apply lookup_insert_is_Some'. by right.
Qed.

(** Nothing hangs under an entry that may be unlinked. *)
Lemma leaf_of (db : Db) (c : InodeId) (r : InodeRow) :
  ok db -> inodes db !! c = Some r -> (ir_kind r = NDirectory -> by_parent db c = []) -> forall f, dirents db !! (c, f) = None.
Proof.
  intros [] Hr Hk f. destruct (dirents db !! (c, f)) as [d|] eqn:E; [|done]. destruct (nk_parent0 _ _ _ E) as (r' & Hr' & Hd).
  rewrite Hr in Hr'. injection Hr' as <-. by rewrite (proj1 (by_parent_nil db c) (Hk Hd)) in E.
Qed.

Lemma unlink_view (db db' : Db) (k : InodeId * Str) (d : Dirent) (retain : bool) (P : gmap InodeId Z) :
  ok db -> dirents db !! k = Some d -> (forall f, dirents db !! (d_child d, f) = None) -> volumes db' = volumes db ->
  same_tree db' (unlink_inodes (inodes db) (d_child d) retain) (delete k (dirents db)) (legacy_map (delete_legacy_of (d_child d) db)) P -> ok db'.
Proof.
  intros Hok Hk Hleaf Hv (HI & HD & HL & _). pose proof (ns_ok_unlink upper root db k d retain Hok Hk Hleaf) as Hu. cbv zeta in Hu.
  destruct Hok. destruct retain; (eapply ns_ok_view; [| | | |exact Hu]); by rewrite ?Hv, ?HI, ?HD, ?HL.
Qed.

Lemma delete_node_ok (parent : InodeId) (name : Str) (now : Z) (retain : bool) (db db' : Db) :
  ok db -> delete_node_with_lifetime_in upper blake3 volume_id parent name now retain db = Ok db' -> ok db'.
Proof.
  intros Hok H. apply delete_node_Ok in H as (f & d & r & _ & Hd & Hr & Hk & Hv & Ht). eapply unlink_view; try done. by eapply leaf_of.
Qed.

Lemma is_dir_row (db : Db) (i : InodeId) (r : InodeRow) : inodes db !! i = Some r -> is_dir db i <-> ir_kind r = NDirectory.
Proof. intros Hr. unfold is_dir. rewrite Hr. split; [by intros (? & [= <-] & ?)|by exists r]. Qed.

Lemma rename_ok_inv (db db' : Db) (fp tp : InodeId) (ff tf to_name : Str) (now : Z) (retain : bool) (d : Dirent) (r : InodeRow) :
  ok db -> fold_name upper to_name = Ok tf -> renamed db db' fp ff tp tf to_name now retain d r -> ok db'.
Proof.
  intros Hok Htf [Hd Hr Htp Hw (db1 & Hv & Hd1 & Hfree & Hvol & HI & HD & HL & _)]. pose proof Hok as [].
  assert (Hg : grounded (delete (fp, ff) (dirents db)) (tops db) tp).
  { destruct (ir_kind r) eqn:Ek.
    - eapply rename_walk_grounded; [done|done| |by apply Hw]. destruct Htp as (rt & Hrt & _). by exists rt.
    - eapply file_move_grounded; [done|done| |done]. rewrite (is_dir_row _ _ _ Hr). by rewrite Ek. }
  assert (H1 : ok db1 /\ is_dir db1 tp /\ grounded (delete (fp, ff) (dirents db1)) (tops db1) tp).
  { unfold rename_victim in Hv. cbn [fst snd] in Hv. destruct (find_entry db tp tf) as [v|] eqn:Ef; [|by subst db1].
    destruct (en_inode v =? d_child d); [by subst db1|]. apply find_entry_Some in Ef as (dv & rv' & Hdv & Hrv' & ->).
    cbn [en_inode entry_of] in Hv. destruct Hv as (rv & Hrv & Hkv & Hvv & Ht).
    pose proof (leaf_of db _ rv Hok Hrv Hkv) as Hleaf. pose proof (unlink_view db db1 _ _ _ _ Hok Hdv Hleaf Hvv Ht) as Hok1.
    assert (Hne : tp <> d_child dv).
    { intros ->. by rewrite Hleaf in Hdv. }
    destruct Ht as (HI1 & HD1 & _ & _). split; [done|]. split.
    - destruct Htp as (rt & Hrt & Hkt). exists rt. split; [|done]. rewrite HI1. unfold unlink_inodes.
      destruct retain; [by rewrite lookup_alter_ne by congruence|by rewrite lookup_delete_ne by congruence].
    - rewrite HD1, delete_delete. apply (grounded_mono (delete (tp, tf) (delete (fp, ff) (dirents db))) _ (tops db)); [done| |].
      + intros x [->|(rx & Hrx & Hpx)]; [by left|]. right.
        destruct (decide (x = d_child dv)) as [->|Hx]; [|exists rx; split; [|done]; rewrite HI1; unfold unlink_inodes;
          destruct retain; [by rewrite lookup_alter_ne by congruence|by rewrite lookup_delete_ne by congruence]].
        destruct (nk_child0 _ _ _ Hdv) as (_ & _ & Hnp). destruct Hnp. by exists rx.
      + apply (grounded_drop_leaf _ _ _ (d_child dv)); [| |done|done].
        * intros x Hx. apply lookup_delete_Some in Hx as [_ Hx]. rewrite Hdv in Hx. by injection Hx as <-.
        * intros f. apply lookup_delete_None. right. apply Hleaf. }
  destruct H1 as (Hok1 & Hdir1 & Hg1).
  pose proof (ns_ok_move upper root db1 (fp, ff) (tp, tf) d to_name Hok1 Hd1 Hfree Htf Hdir1 Hg1) as Hm.
  apply (ns_ok_alter upper root _ (d_child d) (touch now)) in Hm; [|done].
  eapply ns_ok_view; [| | | |exact Hm]; [|done|done|done]. rewrite Hvol. by destruct Hok1.
Qed.

Lemma finalize_ok (i : InodeId) (db db' : Db) : ok db -> finalize_unlink i db = Ok db' -> ok db'.
Proof.
  intros Hok. pose proof Hok as []. unfold finalize_unlink. destruct (inodes db !! i) as [r|] eqn:Er; [|by intros <-%Ok_inj].
  destruct (ir_unlink_pending r) eqn:Ep; [|by intros <-%Ok_inj]. intros [-> Hfk]%delete_inode_Ok. cbn [inodes set_legacy delete_legacy_of] in Hfk.
  rewrite Er in Hfk. destruct (Hfk ltac:(by eexists)) as (Hc & Hp & _). clear Hfk.
  assert (Hpi : pending db i) by (by exists r).
  pose proof (proj1 (by_child_nil (delete_legacy_of i db) i) Hc) as Hc'. pose proof (proj1 (by_parent_nil (delete_legacy_of i db) i) Hp) as Hp'. cbn [dirents set_legacy delete_legacy_of] in Hc', Hp'.
  set (db' := set_inodes _ _).
  assert (Hget : forall j, j <> i -> inodes db' !! j = inodes db !! j) by (intros j Hj; unfold db'; cbn [inodes set_inodes]; by rewrite lookup_delete_ne by congruence).
  assert (Hd' : forall j, j <> i -> is_dir db' j <-> is_dir db j) by (intros j Hj; unfold is_dir; by rewrite Hget).
  assert (Hq' : forall j, j <> i -> pending db' j <-> pending db j) by (intros j Hj; unfold pending; by rewrite Hget).
  constructor; cbn [dirents volumes legacy_map set_inodes delete_legacy_of set_legacy db']; try done.
  - assert (root <> i) by (intros ->; by destruct nk_root0). by rewrite Hd', Hq'.
  - intros p f d Hd. assert (p <> i) by (intros ->; by rewrite Hp' in Hd). rewrite Hd' by done. by eapply nk_parent0.
  - intros p f d Hd. pose proof (Hc' _ _ Hd). rewrite Hget, Hq' by done. by eapply nk_child0.
  - intros j Hj. assert (j <> i) as Hji by (intros ->; unfold db' in Hj; cbn [inodes set_inodes] in Hj; rewrite lookup_delete_eq in Hj; by destruct Hj).
    rewrite Hget in Hj by done. specialize (nk_grounded0 j Hj). clear Hj. induction nk_grounded0 as [j [->|Hj]|j p (f & d & Hd & He) _ IH].
    + apply gr_top. by left.
    + apply gr_top. right. by apply Hq'.
    + apply (gr_child _ _ _ p); [by exists f, d|]. apply IH. intros ->. by rewrite Hp' in Hd.
  - intros path j (Hj & Hji)%legacy_filter. rewrite Hget by done. by eapply nk_legacy0.
Qed.

Lemma ns_try_ok (op : NsOp) (now : Z) (db db' : Db) : ok db -> ns_try upper blake3 volume_id op now db = Ok db' -> ok db'.
Proof.
  intros Hok. pose proof Hok as []. destruct op; cbn [ns_try]; intros H.
  - apply bind_Ok_inv in H as ([e db1] & H & E). apply Ok_inj in E as <-. by eapply create_node_ok.
  - apply rename_Ok in H as (ff & tf & d & r & _ & Htf & _ & Hren). by eapply rename_ok_inv.
  - by eapply delete_node_ok.
  - unfold set_times in H. destruct (inodes db !! i); [|done]. apply Ok_inj in H as <-. by apply ns_ok_alter.
  - unfold set_file_roots in H. destruct (i64_max <? size); [done|]. destruct (inodes db !! i) as [r|]; [|done].
    destruct (bool_decide (ir_kind r = NFile)); [|done]. apply record_delta_Ok in H as [l ->].
    eapply ns_ok_view; [| | | |eapply (ns_ok_alter upper root db i); [|exact Hok]]; done.
  - unfold record_legacy in H. destruct (bool_decide_reflect (is_Some (inodes db !! i))) as [Hi|]; [|done]. apply Ok_inj in H as <-.
    constructor; try done. intros p j. cbn [legacy_map set_legacy inodes]. intros [[_ <-]|[_ Hj]]%lookup_insert_Some; [done|]. by eapply nk_legacy0.
  - apply Ok_inj in H as <-. by eapply ns_ok_view; [| | | |exact Hok].
  - apply Ok_inj in H as <-. by eapply ns_ok_view; [| | | |exact Hok].
  - by eapply finalize_ok.
  - apply bind_Ok_inv in H as ([[s h] db1] & H & E). apply Ok_inj in E as <-. unfold create_checkpoint in H.
    apply bind_Ok_inv in H as (doc & _ & H). destruct (i64_max <? _); [done|]. destruct (checkpoints db !! _); [done|].
    apply Ok_inj in H. injection H as _ _ <-. by eapply ns_ok_view; [| | | |exact Hok].
Qed.
End run_ok.

(** The last step of a path. *)
Lemma tc_last (R : relation InodeId) (j k : InodeId) : tc R j k -> exists p, R p k /\ (p = j \/ tc R j p).
Proof.
  induction 1 as [j k H|j m k H Hmk (p & Hp & [->|Hpk])]; [by exists j; auto| |].
  - exists m. split; [done|]. right. by apply tc_once.
  - exists p. split; [done|]. right. by eapply tc_l.
Qed.

Section theorems.
Context (upper : Z -> list Z) (blake3 : list Z -> Z) (volume_id : Z).
Let root := root_inode volume_id.
Notation ok := (ns_ok upper root).

Lemma ns_run_ok (ops : list (NsOp * Z)) (db : Db) : ok db -> ok (ns_run upper blake3 volume_id db ops).
Proof.
  revert db. unfold ns_run. induction ops as [|[op now] ops IH]; intros db Hok; [done|]. cbn [foldl]. apply IH. unfold ns_step. cbn [fst snd].
  destruct (ns_try upper blake3 volume_id op now db) as [db'|] eqn:E; [|done]. by eapply ns_try_ok.
Qed.

(** No inode is above itself. *)
Lemma ns_acyclic (db : Db) (i : InodeId) : ok db -> is_Some (inodes db !! i) -> ~ tc (child_at (dirents db)) i i.
Proof.
  intros [] Hi. specialize (nk_grounded0 i Hi). clear Hi.
  induction nk_grounded0 as [j Ht|j q (f & d & Hd & Hc) _ IH]; intros Htc; destruct (tc_last _ j j Htc) as (p & (g & e & He & Hec) & Hpj).
  - destruct (nk_child0 _ _ _ He) as (_ & Hnr & Hnp). rewrite Hec in Hnr, Hnp. destruct Ht; done.
  - assert ((q, f) = (p, g)) as [= -> ->] by (eapply nk_unique0; [done|done|congruence]). apply IH.
    assert (Hpc : child_at (dirents db) p j) by (by exists g, e). destruct Hpj as [<-|Hjp]; [by apply tc_once|]. by eapply tc_l.
Qed.

(** C6: whatever operations run on a created volume, in any order, succeeding
    or failing, the entries form a forest: the root is a live directory and no
    entry leads to it; every entry leads from a directory to an inode that
    exists and is not pending unlink, under the folded form of its name; an
    inode has at most one entry; no inode is above itself; and every inode
    hangs, entry by entry, under the root or under an inode pending unlink. *)
Theorem namespace_forest (now : Z) (i : InodeId) (db0 : Db) (ops : list (NsOp * Z)) :
  create_volume volume_id now empty_db = Ok (i, db0) ->
  let db := ns_run upper blake3 volume_id db0 ops in
  i = root_inode volume_id /\ is_dir db i /\ ~ pending db i /\
  (forall p f d, dirents db !! (p, f) = Some d ->
     is_dir db p /\ is_Some (inodes db !! d_child d) /\ d_child d <> i /\ ~ pending db (d_child d) /\ fold_name upper (d_display d) = Ok f) /\
  (forall k1 k2 d1 d2, dirents db !! k1 = Some d1 -> dirents db !! k2 = Some d2 -> d_child d1 = d_child d2 -> k1 = k2) /\
  (forall j, is_Some (inodes db !! j) ->
     ~ tc (child_at (dirents db)) j j /\ grounded (dirents db) (fun j => j = i \/ pending db j) j).
Proof.
  intros [-> Hok0]%(create_volume_ok upper) db. assert (Hok : ok db) by (by apply ns_run_ok). pose proof Hok as []. destruct nk_root0.
  split_and!; try done.
  - intros p f d Hd. destruct (nk_child0 _ _ _ Hd) as (? & ? & ?). split_and!; eauto.
  - intros j Hj. split; [by apply ns_acyclic|by apply nk_grounded0].
Qed.

(** ** Rename *)
Lemma child_at_chain (db : Db) (c a : InodeId) (fuel : nat) :
  ok db -> rename_walk db c fuel a = Ok tt -> c <> a /\ ~ tc (child_at (dirents db)) c a.
Proof.
  intros []. revert a. induction fuel as [|fuel IH]; intros a; cbn [rename_walk]; [done|]. destruct (Z.eqb_spec a c) as [|Hne]; [done|].
  destruct (entry_of_child db a) as [[p n]|] eqn:E; intros Hw; (split; [congruence|]); intros (q & Hq & Hcq)%tc_last.
  - apply entry_of_child_Some in E as (f & e & He & Hc). destruct Hq as (g & e' & He' & Hc').
    assert ((p, f) = (q, g)) as [= -> ->] by (eapply nk_unique0; [done|done|congruence]). destruct (IH q Hw) as [? ?]. destruct Hcq; congruence.
  - by apply (proj1 (entry_of_child_None db a) E q).
Qed.

(** A rename that succeeds in a reachable namespace moves the entry and
    keeps the inode: the target name leads to it, with its kind, size, roots
    and creation time, modified now; the source name leads nowhere (unless it
    is the same name); a directory is never moved into itself or below; every
    other entry is untouched, and so is every other inode except the replaced
    one, which was not a non-empty directory and is gone, or pending unlink
    when it is to be retained; and the expected victim was the actual one. *)
Theorem rename_moves_entry (db db' : Db) (fp : InodeId) (from_name : Str) (tp : InodeId) (to_name : Str) (now : Z)
    (replace retain : bool) (expected : option (option InodeId)) :
  ok db -> rename_in_with_policy upper blake3 volume_id fp from_name tp to_name now replace retain expected db = Ok db' ->
  exists ff tf d r, fold_name upper from_name = Ok ff /\ fold_name upper to_name = Ok tf /\
    dirents db !! (fp, ff) = Some d /\ inodes db !! d_child d = Some r /\
    dirents db' !! (tp, tf) = Some (mkDirent to_name (d_child d)) /\ inodes db' !! d_child d = Some (touch now r) /\
    (ir_kind r = NDirectory -> d_child d <> tp /\ ~ tc (child_at (dirents db)) (d_child d) tp) /\
    ((fp, ff) <> (tp, tf) -> dirents db' !! (fp, ff) = None) /\
    (forall k, k <> (fp, ff) -> k <> (tp, tf) -> dirents db' !! k = dirents db !! k) /\
    (let victim := rename_victim db (tp, tf) (d_child d) in
     (forall j, j <> d_child d -> en_inode <$> victim <> Some j -> inodes db' !! j = inodes db !! j) /\
     (forall v, victim = Some v -> by_parent db (en_inode v) = [] /\
        inodes db' !! en_inode v = if retain then mark_pending <$> (inodes db !! en_inode v) else None) /\
     (forall x, expected = Some x -> x = en_inode <$> victim)).
Proof.
  intros Hok H. apply rename_Ok in H as (ff & tf & d & r & Hff & Htf & Hex & [Hd Hr Htp Hw (db1 & Hv & Hd1 & Hfree & _ & HI & HD & _ & _)]).
  exists ff, tf, d, r. pose proof Hok as [].
  assert (Hvne : forall v, rename_victim db (tp, tf) (d_child d) = Some v -> en_inode v <> d_child d /\ exists dv, dirents db !! (tp, tf) = Some dv /\ d_child dv = en_inode v).
  { intros v. unfold rename_victim. cbn [fst snd]. destruct (find_entry db tp tf) as [x|] eqn:Ef; [|done].
    destruct (Z.eqb_spec (en_inode x) (d_child d)); [done|]. intros [= ->]. split; [done|]. apply find_entry_Some in Ef as (dv & rv & ? & _ & ->). by exists dv. }
  assert (Hin1 : forall j, en_inode <$> rename_victim db (tp, tf) (d_child d) <> Some j -> inodes db1 !! j = inodes db !! j).
  { intros j Hj. destruct (rename_victim db (tp, tf) (d_child d)) as [v|]; [|by subst db1]. destruct Hv as (rv & _ & _ & _ & HI1 & _). rewrite HI1.
    unfold unlink_inodes. destruct retain; [rewrite lookup_alter_ne|rewrite lookup_delete_ne]; try done; intros E; apply Hj; simpl; congruence. }
  assert (Hdn : inodes db1 !! d_child d = Some r).
  { rewrite Hin1; [done|]. destruct (rename_victim db (tp, tf) (d_child d)) as [v|]; [|done]. simpl. intros [= E]. by destruct (Hvne v eq_refl). }
  cbv zeta. split_and!; [done|done|done|done| | | | | | | |done].
  - rewrite HD. apply lookup_insert_eq.
  - by rewrite HI, lookup_alter_eq, Hdn.
  - intros Hk. by apply (child_at_chain db _ _ MAX_RENAME_DEPTH Hok), Hw.
  - intros Hne. rewrite HD, lookup_insert_ne by congruence. apply lookup_delete_eq.
  - intros k H1 H2. rewrite HD, lookup_insert_ne, lookup_delete_ne by congruence.
    destruct (rename_victim db (tp, tf) (d_child d)) as [v|]; [|by subst db1]. destruct Hv as (rv & _ & _ & _ & _ & HD1 & _). by rewrite HD1, lookup_delete_ne by congruence.
  - intros j Hj Hnv. rewrite HI, lookup_alter_ne by congruence. by apply Hin1.
  - intros v Hvs. destruct (Hvne v Hvs) as [Hne (dv & Hdv & Hcv)]. rewrite Hvs in Hv. destruct Hv as (rv & Hrv & Hkv & _ & HI1 & _).
    split; [apply by_parent_nil; by apply (leaf_of upper volume_id db _ rv)|].
    rewrite HI, lookup_alter_ne, HI1 by congruence. unfold unlink_inodes. destruct retain; [by rewrite lookup_alter_eq|apply lookup_delete_eq].
Qed.
End theorems.

(** Witnesses. *)
Lemma namespace_forest_witness :
  exists i db0, create_volume 5 0 empty_db = Ok (i, db0) /\
    is_dir (ns_run ascii_upper demo_blake3 5 db0 (demo_tree ++ [(NDelete demo_dir (chars "a.txt") false, 4)])) i.
Proof.
  eexists _, _. split; [reflexivity|]. exact (proj1 (proj2 (namespace_forest ascii_upper demo_blake3 5 0 _ _ _ eq_refl))).
Defined.
Definition demo_rename : result Db :=
  rename_in_with_policy ascii_upper demo_blake3 5 demo_dir (chars "a.txt") (root_inode 5) (chars "b.txt") 9 true false None (demo_run demo_tree).
Lemma rename_moves_entry_witness :
  exists db', demo_rename = Ok db' /\
    exists ff tf d r, fold_name ascii_upper (chars "a.txt") = Ok ff /\ fold_name ascii_upper (chars "b.txt") = Ok tf /\
      dirents (demo_run demo_tree) !! (demo_dir, ff) = Some d /\ inodes (demo_run demo_tree) !! d_child d = Some r.
Proof.
  assert (Hr : exists db', demo_rename = Ok db') by (eexists; vm_compute; reflexivity). destruct Hr as [db' Hr]. exists db'. split; [exact Hr|].
  destruct (rename_moves_entry ascii_upper demo_blake3 5 (demo_run demo_tree) db' demo_dir (chars "a.txt") (root_inode 5) (chars "b.txt") 9 true false None
    (ns_run_ok ascii_upper demo_blake3 5 demo_tree _ (proj2 (create_volume_ok ascii_upper 5 0 _ _ eq_refl))) Hr)
    as (ff & tf & d & r & H1 & H2 & H3 & H4 & _). exists ff, tf, d, r. exact (conj H1 (conj H2 (conj H3 H4))).
Defined.
