(* ===== verification/NamespaceViews.v ===== *)
(** * What readers see of the namespace

    The queries of [mirage-db/src/namespace.rs] over a namespace that
    satisfies the invariant of [Namespace]: paged directory listings, the
    cover of pins, and the checkpoint document, which composes the database
    with the codec and the tree checks of [NamespaceDoc]. *)
From S2P Require Export Namespace.

(** ** The order of names *)
Lemma str_lt_irrefl (a : Str) : str_lt a a = false.
Proof. induction a as [|x a IH]; [done|]. cbn [str_lt]. by rewrite Z.ltb_irrefl, Z.eqb_refl, IH. Qed.
Lemma str_lt_trans (a b c : Str) : str_lt a b = true -> str_lt b c = true -> str_lt a c = true.
Proof.
  revert b c. induction a as [|x a IH]; intros [|y b] [|z c]; cbn [str_lt]; try done.
  rewrite !orb_true_iff, !andb_true_iff, !Z.ltb_lt, !Z.eqb_eq. intros [|[-> ?]] [|[-> ?]]; [left; lia|by left|by left|]. right. split; [done|]. by eapply IH.
Qed.
Lemma str_lt_total (a b : Str) : str_lt a b = true \/ a = b \/ str_lt b a = true.
Proof.
  revert b. induction a as [|x a IH]; intros [|y b]; cbn [str_lt]; auto.
  destruct (Z.lt_trichotomy x y) as [H|[->|H]].
  - left. by rewrite (proj2 (Z.ltb_lt x y)).
  - rewrite Z.ltb_irrefl, Z.eqb_refl. cbn [orb andb]. destruct (IH b) as [?|[->|?]]; auto.
  - right. right. by rewrite (proj2 (Z.ltb_lt y x)).
Qed.
Lemma str_le_spec (a b : Str) : str_le a b = true <-> str_lt a b = true \/ a = b.
Proof.
  unfold str_le. rewrite negb_true_iff. split.
  - intros H. destruct (str_lt_total a b) as [?|[?|E]]; [by left|by right|congruence].
  - intros [H| ->]; [|apply str_lt_irrefl]. destruct (str_lt b a) eqn:E; [|done]. pose proof (str_lt_trans _ _ _ H E) as Hx. by rewrite str_lt_irrefl in Hx.
Qed.

(** ** Listings *)
Definition entry_le (a b : DirEntry) : bool := str_le (en_folded_name a) (en_folded_name b).
Definition entry_lt (a b : DirEntry) : Prop := str_lt (en_folded_name a) (en_folded_name b) = true.
Lemma entry_le_total (a b : DirEntry) : entry_le a b = false -> entry_le b a = true.
Proof. unfold entry_le, str_le. rewrite negb_false_iff, negb_true_iff. intros H.
  destruct (str_lt (en_folded_name a) (en_folded_name b)) eqn:E; [|done].
  pose proof (str_lt_trans _ _ _ H E) as Hx. by rewrite str_lt_irrefl in Hx. Qed.
Lemma entry_le_trans (a b c : DirEntry) : entry_le a b = true -> entry_le b c = true -> entry_le a c = true.
Proof.
  unfold entry_le. rewrite !str_le_spec. intros [H1| ->] [H2|E]; try rewrite <- E; auto. left. by eapply str_lt_trans.
Qed.
Definition child_rows (db : Db) (parent : InodeId) : list DirEntry :=
  omap (fun x => r ← inodes db !! d_child x.2; Some (entry_of x.1.2 x.2 r)) (by_parent db parent).

Lemma child_rows_spec (db : Db) (parent : InodeId) (e : DirEntry) :
  e ∈ child_rows db parent <-> exists f, find_entry db parent f = Some e.
Proof.
  unfold child_rows. rewrite list_elem_of_omap. split.
  - intros ([[p f] d] & [Hd Hp]%by_parent_spec & He). simpl in *. subst p. exists f. apply find_entry_Some.
    destruct (inodes db !! d_child d) as [r|] eqn:Er; [|done]. injection He as <-. by exists d, r.
  - intros (f & (d & r & Hd & Hr & ->)%find_entry_Some). exists ((parent, f), d). split; [by apply by_parent_spec|]. simpl. by rewrite Hr.
Qed.
Lemma child_rows_NoDup (db : Db) (parent : InodeId) : NoDup (map en_folded_name (child_rows db parent)).
Proof.
  unfold child_rows, by_parent, entries_of.
  assert (Hnd : NoDup (map_to_list (dirents db)).*1) by apply NoDup_fst_map_to_list.
  induction (map_to_list (dirents db)) as [|[[p f] d] l IH]; [constructor|]. cbn [fmap list_fmap fst] in Hnd.
  apply NoDup_cons in Hnd as [Hnotin Hnd]. specialize (IH Hnd). cbn [List.filter fst snd]. destruct (Z.eqb_spec p parent) as [->|]; [|done].
  cbn [omap list_omap fst snd]. destruct (inodes db !! d_child d) as [r|]; simpl; [|done]. constructor; [|done].
  intros (e & He & Hin)%list_elem_of_fmap. apply list_elem_of_omap in Hin as ([[p' f'] d'] & Hin & He'). simpl in *.
  apply list_elem_of_In, filter_In in Hin as [Hin Hp']. simpl in Hp'. apply Z.eqb_eq in Hp' as ->. apply list_elem_of_In in Hin.
  destruct (inodes db !! d_child d') as [r'|]; [|done]. injection He' as <-. simpl in He. subst f'.
  apply Hnotin, list_elem_of_fmap. by exists ((parent, f), d').
Qed.

Lemma sorted_strict (l : list DirEntry) :
  StronglySorted (fun a b => entry_le a b = true) l -> NoDup (map en_folded_name l) -> StronglySorted entry_lt l.
Proof.
  induction 1 as [|e l Hs IH Hf]; [constructor|]. cbn [map]. intros [Hn Hnd]%NoDup_cons. constructor; [by apply IH|].
  apply Forall_forall. intros x Hx. pose proof (proj1 (Forall_forall _ _) Hf x Hx) as Hle. apply str_le_spec in Hle as [?|E]; [done|].
  destruct Hn. rewrite E. apply list_elem_of_fmap. by exists x.
Qed.
Lemma sorted_weak (l : list DirEntry) : StronglySorted entry_lt l -> StronglySorted (fun a b => entry_le a b = true) l.
Proof. intros H. eapply StronglySorted_mono; [|exact H]. intros a b Hab. apply str_le_spec. by left. Qed.

(** What comes after an element of a sorted list. *)
Lemma filter_after (A B : list DirEntry) (x : DirEntry) :
  StronglySorted entry_lt (A ++ x :: B) -> List.filter (fun e => str_lt (en_folded_name x) (en_folded_name e)) (A ++ x :: B) = B.
Proof.
  induction A as [|a A IH]; cbn [app]; intros Hs; apply StronglySorted_inv in Hs as [Hs Hf]; cbn [List.filter].
  - rewrite str_lt_irrefl. rewrite Forall_forall in Hf. apply forallb_filter_id. apply forallb_forall. intros e He%list_elem_of_In. by apply Hf.
  - assert (Hax : entry_lt a x) by (apply (proj1 (Forall_forall _ _) Hf); apply elem_of_app; right; left).
    destruct (str_lt (en_folded_name x) (en_folded_name a)) eqn:E; [|by apply IH].
    pose proof (str_lt_trans _ _ _ Hax E) as Hx. by rewrite str_lt_irrefl in Hx.
Qed.
Lemma filter_perm {A : Type} (f : A -> bool) (l k : list A) : l ≡ₚ k -> List.filter f l ≡ₚ List.filter f k.
Proof.
  induction 1 as [|x l k H IH|x y l|l k m _ IH1 _ IH2]; cbn [List.filter]; [done| | |by etrans].
  - destruct (f x); [by constructor|done].
  - destruct (f x), (f y); try done. apply perm_swap.
Qed.
Lemma sort_filtered (l s : list DirEntry) (f : DirEntry -> bool) :
  s ≡ₚ l -> StronglySorted entry_lt (List.filter f s) -> NoDup (map en_folded_name l) -> sort_by entry_le (List.filter f l) = List.filter f s.
Proof.
  intros Hp Hs Hnd. assert (Hpf : List.filter f l ≡ₚ List.filter f s) by (apply filter_perm; by symmetry).
  apply (StronglySorted_unique_strong (fun a b => entry_le a b = true)); [|apply sort_by_sorted; [apply entry_le_total|apply entry_le_trans]|by apply sorted_weak|by rewrite sort_by_perm].
  - intros a b Ha Hb Hab Hba. apply str_le_spec in Hab as [Hab|Hab]; [apply str_le_spec in Hba as [Hba|Hba]|].
    + pose proof (str_lt_trans _ _ _ Hab Hba) as Hx. by rewrite str_lt_irrefl in Hx.
    + rewrite Hba, str_lt_irrefl in Hab. done.
    + assert (Hinj : forall l : list DirEntry, NoDup (map en_folded_name l) -> a ∈ l -> b ∈ l -> a = b).
      { clear -Hab. induction l as [|x l IH]; [by intros _ ?%not_elem_of_nil|]. cbn [map]. intros [Hn Hnd]%NoDup_cons [->|Ha]%elem_of_cons [->|Hb]%elem_of_cons; try done.
        - destruct Hn. rewrite Hab. apply list_elem_of_fmap. by exists b.
        - destruct Hn. rewrite <- Hab. apply list_elem_of_fmap. by exists a.
        - by apply IH. }
      apply (Hinj l Hnd); [|rewrite <- Hp].
      * rewrite sort_by_perm in Ha. by apply list_elem_of_In, filter_In in Ha as [?%list_elem_of_In _].
      * by apply list_elem_of_In, filter_In in Hb as [?%list_elem_of_In _].
Qed.

(** A directory listing is paged without loss or repetition: there is one
    list of all children in strictly ascending order of their folded names,
    exactly the entries that lookups find; a listing without marker returns
    its first [limit] elements, and a listing after the name of any of its
    elements the [limit] elements that follow; a limit of zero or above 4096
    is refused. *)
Theorem listing_pages (db : Db) (parent : InodeId) :
  exists children, StronglySorted entry_lt children /\
    (forall e, e ∈ children <-> exists f, find_entry db parent f = Some e) /\
    (forall limit, 0 <= limit ->
       (1 <= limit <= MAX_LIST_LIMIT /\
        list_children db parent None limit = Ok (firstn (Z.to_nat limit) children) /\
        forall A x B, children = A ++ x :: B ->
          list_children db parent (Some (en_folded_name x)) limit = Ok (firstn (Z.to_nat limit) B)) \/
       (~ (1 <= limit <= MAX_LIST_LIMIT) /\ forall marker, exists e, list_children db parent marker limit = Err e /\ kind e = InvalidArgument)).
Proof.
  set (rows := child_rows db parent). exists (sort_by entry_le rows).
  assert (Hsorted : StronglySorted entry_lt (sort_by entry_le rows)).
  { apply sorted_strict; [apply sort_by_sorted; [apply entry_le_total|apply entry_le_trans]|]. by rewrite sort_by_perm; apply child_rows_NoDup. }
  split_and!; [done|intros e; by rewrite sort_by_perm, <- child_rows_spec|].
  intros limit Hl. unfold list_children. destruct (Z.eqb_spec limit 0) as [->|H0]; cbn [orb].
  { right. split; [lia|]. intros marker. by eexists. }
  destruct (Z.ltb_spec MAX_LIST_LIMIT limit) as [Hm|Hm]; [right; split; [lia|]; intros marker; by eexists|left]. fold (child_rows db parent) rows.
  split_and!; [lia|lia| |].
  - do 2 f_equal. rewrite forallb_filter_id; [done|]. by apply forallb_forall.
  - intros A x B Hsplit. do 2 f_equal.
    change (sort_by entry_le (List.filter (fun e => str_lt (en_folded_name x) (en_folded_name e)) rows) = B).
    rewrite (sort_filtered rows (sort_by entry_le rows)); [| |rewrite Hsplit, filter_after; [|by rewrite <- Hsplit]|apply child_rows_NoDup].
    + rewrite Hsplit, filter_after; [done|by rewrite <- Hsplit].
    + apply sort_by_perm.
    + rewrite Hsplit in Hsorted. clear -Hsorted. induction A as [|a A IH]; apply StronglySorted_inv in Hsorted as [? ?]; auto.
Qed.

(** ** Typed rows *)
Lemma root_inode_ok (v : Z) : id_ok 16 v -> id_ok 16 (root_inode v).
Proof.
  unfold id_ok. change (256 ^ Z.of_nat 16) with (2 ^ 128). intros Hv. unfold root_inode.
  assert (Hs : 0 <= ROOT_INODE_SEED < 2 ^ 128) by (vm_compute; split; [discriminate|reflexivity]).
  assert (Hn : 0 <= Z.lxor ROOT_INODE_SEED v) by (apply Z.lxor_nonneg; lia). split; [done|].
  destruct (Z.eq_dec (Z.lxor ROOT_INODE_SEED v) 0) as [->|Hne]; [lia|].
  apply Z.log2_lt_pow2; [lia|]. pose proof (Z.log2_lxor ROOT_INODE_SEED v ltac:(lia) ltac:(lia)) as Hl.
  assert (Hb : forall x, 0 <= x < 2 ^ 128 -> Z.log2 x < 128).
  { intros x Hx. destruct (Z.eq_dec x 0) as [->|]; [done|]. apply Z.log2_lt_pow2; lia. }
  pose proof (Hb _ Hs). pose proof (Hb _ Hv). lia.
Qed.
Lemma inode_of_ok (blake3 : list Z -> Z) (v s : Z) : id_ok 16 (inode_of blake3 v s).
Proof. unfold inode_of, id_ok. apply (be_get_bound 16 0); [apply be_bytes|rewrite length_be; lia]. Qed.

Definition op_typed (op : NsOp) : Prop :=
  match op with
  | NCreate _ name _ => is_str name
  | NRename _ _ _ to_name _ _ _ => is_str to_name
  | NSetRoots _ size v e => 0 <= size /\ opt_ok (id_ok 32) v /\ opt_ok (id_ok 32) e
  | _ => True
  end.
Definition rows_typed (I : gmap InodeId InodeRow) : Prop := forall i r, I !! i = Some r -> id_ok 16 i /\ row_ok r.
Record ns_typed (db : Db) : Prop := mk_ns_typed {
  ty_rows : rows_typed (inodes db);
  ty_names : forall k d, dirents db !! k = Some d -> is_str (d_display d);
  ty_checkpoints : forall s r, checkpoints db !! s = Some r -> 0 <= s
}.

Lemma rows_typed_insert (I : gmap InodeId InodeRow) (i : InodeId) (r : InodeRow) :
  rows_typed I -> id_ok 16 i -> row_ok r -> rows_typed (<[i := r]> I).
Proof. intros HI Hi Hr j r' [[<- <-]|[_ Hj]]%lookup_insert_Some; [done|by apply HI]. Qed.
Lemma rows_typed_alter (I : gmap InodeId InodeRow) (i : InodeId) (f : InodeRow -> InodeRow) :
  (forall r, row_ok r -> row_ok (f r)) -> rows_typed I -> rows_typed (alter f i I).
Proof.
  intros Hf HI j r Hj. destruct (decide (j = i)) as [->|Hne]; [|rewrite lookup_alter_ne in Hj by congruence; by apply HI].
  rewrite lookup_alter_eq in Hj. destruct (I !! i) as [r0|] eqn:E; [|done]. injection Hj as <-. destruct (HI i r0 E). auto.
Qed.
Lemma rows_typed_delete (I : gmap InodeId InodeRow) (i : InodeId) : rows_typed I -> rows_typed (delete i I).
Proof. intros HI j r [_ Hj]%lookup_delete_Some. by apply HI. Qed.
Lemma rows_typed_unlink (I : gmap InodeId InodeRow) (c : InodeId) (retain : bool) : rows_typed I -> rows_typed (unlink_inodes I c retain).
Proof. intros HI. destruct retain; [apply rows_typed_alter; [|done]; by intros r []|by apply rows_typed_delete]. Qed.
#[local] Hint Resolve rows_typed_insert rows_typed_alter rows_typed_delete rows_typed_unlink : typed.

(** The newest checkpoint is one of the table. *)
Lemma segment_nonneg (db : Db) : (forall s r, checkpoints db !! s = Some r -> 0 <= s) -> 0 <= (current_delta_segment db).1.
Proof.
  intros H. unfold current_delta_segment. assert (Hl : Forall (fun x => 0 <= x.1) (map_to_list (checkpoints db))).
  { apply Forall_forall. intros [s r] Hs%elem_of_map_to_list. by eapply H. }
  destruct Hl as [|x l Hx Hl]; [done|]. cbn [fst]. induction Hl as [|y l Hy Hl IH]; cbn [foldr]; lia.
Qed.

Section typed.
Context (upper : Z -> list Z) (blake3 : list Z -> Z) (volume_id : Z) (Hvolume : id_ok 16 volume_id).
Let root := root_inode volume_id.
Notation ok := (ns_ok upper root).

Lemma record_delta_checkpoints (op : NamespaceOp) (now : Z) (db db' : Db) :
  record_delta blake3 volume_id op now db = Ok db' -> checkpoints db' = checkpoints db.
Proof. by intros [l ->]%record_delta_Ok. Qed.

Lemma create_volume_typed (now : Z) (i : InodeId) (db : Db) : create_volume volume_id now empty_db = Ok (i, db) -> ns_typed db.
Proof using Hvolume.
  unfold create_volume. cbn [volumes empty_db]. intros H. apply bind_Ok_inv in H as (db2 & H2 & H). apply Ok_inj in H. injection H as <- <-.
  apply Ok_inj in H2 as <-. constructor; cbn [inodes dirents checkpoints set_inodes set_volumes empty_db].
  - apply rows_typed_insert; [intros j r Hj; by rewrite lookup_empty in Hj|by apply root_inode_ok|]. by constructor.
  - intros k d Hd. by rewrite lookup_empty in Hd.
  - intros s r Hs. by rewrite lookup_empty in Hs.
Qed.

(** The checkpoint table changes only by checkpoints. *)
Lemma checkpoints_kept (op : NsOp) (now : Z) (db db' : Db) :
  op <> NCheckpoint -> ns_try upper blake3 volume_id op now db = Ok db' -> checkpoints db' = checkpoints db.
Proof.
  intros Hop. destruct op; cbn [ns_try]; intros H; try done.
  - apply bind_Ok_inv in H as ([e db1] & H & E). apply Ok_inj in E as <-. unfold create_node_in in H.
    apply bind_Ok_inv in H as (f & _ & H). apply bind_Ok_inv in H as (st & _ & H). destruct (negb _); [done|].
    apply bind_Ok_inv in H as ([i db2] & Ha & H). unfold allocate_inode in Ha. destruct (volumes db); [|done]. destruct (_ =? _); [done|].
    apply Ok_inj in Ha. injection Ha as <- <-. apply bind_Ok_inv in H as (db3 & Hi & H). unfold insert_inode in Hi. cbn [volumes set_volumes] in Hi.
    destruct (inodes _ !! _) in Hi; [done|]. apply Ok_inj in Hi as <-. destruct (dirents _ !! _); [done|].
    apply bind_Ok_inv in H as (db4 & Hr%record_delta_checkpoints & H). apply Ok_inj in H. by injection H as _ <-.
  - unfold rename_in_with_policy in H. do 3 apply bind_Ok_inv in H as (? & _ & H). apply bind_Ok_inv in H as (e & _ & H). apply bind_Ok_inv in H as (st & _ & H).
    destruct (negb _); [done|]. apply bind_Ok_inv in H as ([] & _ & H). apply bind_Ok_inv in H as (v & _ & H). cbv zeta in H.
    destruct (match expected_victim with Some _ => _ | None => _ end); [done|]. apply bind_Ok_inv in H as (db1 & H1 & H).
    assert (Hc1 : checkpoints db1 = checkpoints db).
    { destruct (match v with Some _ => _ | None => _ end) as [w|]; [|by apply Ok_inj in H1 as <-]. unfold remove_victim in H1.
      apply bind_Ok_inv in H1 as (vs & _ & H1). destruct (_ && _); [done|]. destruct replace; [|done]. cbn [negb] in H1.
      apply bind_Ok_inv in H1 as (db3 & H3 & ->%record_delta_checkpoints). apply unlink_Ok in H3 as ->. by destruct retain_victim. }
    destruct (dirents db1 !! _); [|done]. destruct (_ && _); [done|]. by apply record_delta_checkpoints in H as ->.
  - unfold delete_node_with_lifetime_in in H. do 2 apply bind_Ok_inv in H as (? & _ & H). apply bind_Ok_inv in H as (e & _ & H). destruct (_ && _); [done|].
    apply bind_Ok_inv in H as (db3 & H3 & ->%record_delta_checkpoints). apply unlink_Ok in H3 as ->. by destruct retain_inode.
  - unfold set_times in H. destruct (inodes db !! i); [|done]. by apply Ok_inj in H as <-.
  - unfold set_file_roots in H. destruct (_ <? _); [done|]. destruct (inodes db !! i); [|done]. destruct (bool_decide _); [|done]. by apply record_delta_checkpoints in H.
  - unfold record_legacy in H. destruct (bool_decide _); [|done]. by apply Ok_inj in H as <-.
  - by apply Ok_inj in H as <-.
  - by apply Ok_inj in H as <-.
  - unfold finalize_unlink in H. destruct (inodes db !! i) as [r|]; [|by apply Ok_inj in H as <-]. destruct (ir_unlink_pending r); [|by apply Ok_inj in H as <-].
    by apply delete_inode_Ok in H as [-> _].
Qed.

Lemma create_checkpoint_Ok (now s : Z) (h : Hash) (db db' : Db) :
  create_checkpoint blake3 volume_id now db = Ok (s, h, db') ->
  exists document, encode_checkpoint (mkCheckpoint volume_id s None (live_nodes db)) = Ok document /\ h = blake3 document /\
    s = (current_delta_segment db).1 + 1 /\ s <= i64_max /\
    db' = set_checkpoints (<[s := mkCheckpointRow h document (Z.of_nat (length (live_nodes db))) now]> (checkpoints db)) db.
Proof.
  unfold create_checkpoint. intros H. apply bind_Ok_inv in H as (doc & Hdoc & H). destruct (Z.ltb_spec i64_max ((current_delta_segment db).1 + 1)); [done|].
  destruct (checkpoints db !! _); [done|]. apply Ok_inj in H. injection H as <- <- <-. by exists doc.
Qed.

Lemma ns_try_typed (op : NsOp) (now : Z) (db db' : Db) :
  op_typed op -> ns_typed db -> ns_try upper blake3 volume_id op now db = Ok db' -> ns_typed db'.
Proof.
  intros Hop [Hrows Hnames Hcks] H.
  assert (Hck : forall s r, checkpoints db' !! s = Some r -> 0 <= s).
  { destruct (decide (op = NCheckpoint)) as [->|Hne]; [|by rewrite (checkpoints_kept _ _ _ _ Hne H)].
    cbn [ns_try] in H. apply bind_Ok_inv in H as ([[s h] db1] & (doc & _ & _ & -> & _ & ->)%create_checkpoint_Ok & E). apply Ok_inj in E as <-.
    pose proof (segment_nonneg db Hcks). intros s r. cbn [checkpoints set_checkpoints snd]. intros [[<- _]|[_ Hs]]%lookup_insert_Some; [lia|by eapply Hcks]. }
  assert (Hkeep : inodes db' = inodes db -> dirents db' = dirents db -> ns_typed db') by (intros E1 E2; constructor; rewrite ?E1, ?E2; done).
  destruct op; cbn [ns_try op_typed] in *.
  - apply bind_Ok_inv in H as ([e db1] & H & E). apply Ok_inj in E. cbn [snd] in E. subst db1.
    apply create_node_Ok in H as (f & i & _ & _ & _ & _ & _ & (s & ->) & _ & HI & HD & _). constructor; [rewrite HI|rewrite HD|done].
    + apply rows_typed_insert; [done|apply inode_of_ok|by constructor].
    + intros k' d [[_ <-]|[_ Hd]]%lookup_insert_Some; [done|by eapply Hnames].
  - apply rename_Ok in H as (ff & tf & d & r & _ & _ & _ & [_ _ _ _ (db1 & Hv & _ & _ & _ & HI & HD & _)]).
    assert (H1 : rows_typed (inodes db1) /\ forall k d, dirents db1 !! k = Some d -> is_str (d_display d)).
    { destruct (rename_victim db (to_parent, tf) (d_child d)); [|by subst db1]. destruct Hv as (rv & _ & _ & _ & HI1 & HD1 & _).
      rewrite HI1, HD1. split; [by apply rows_typed_unlink|]. intros k e [_ He]%lookup_delete_Some. by eapply Hnames. }
    destruct H1 as [H1 H2]. constructor; [rewrite HI|rewrite HD|done].
    + apply rows_typed_alter; [by intros r' []|done].
    + intros k e [[_ <-]|[_ He]]%lookup_insert_Some; [done|]. apply lookup_delete_Some in He as [_ He]. by eapply H2.
  - apply delete_node_Ok in H as (f & d & r & _ & _ & _ & _ & _ & HI & HD & _). constructor; [rewrite HI; by apply rows_typed_unlink|rewrite HD|done].
    intros k e [_ He]%lookup_delete_Some. by eapply Hnames.
  - unfold set_times in H. destruct (inodes db !! i); [|done]. apply Ok_inj in H as <-. constructor; try done. cbn [inodes update_inode set_inodes].
    apply rows_typed_alter; [by intros r' []|done].
  - unfold set_file_roots in H. destruct (Z.ltb_spec i64_max size); [done|]. destruct (inodes db !! i); [|done]. destruct (bool_decide _); [|done].
    apply record_delta_Ok in H as [l ->]. destruct Hop as (? & ? & ?). constructor; try done. cbn [inodes update_inode set_inodes set_deltas].
    apply rows_typed_alter; [|done]. intros r' _. by constructor.
  - unfold record_legacy in H. destruct (bool_decide _); [|done]. apply Ok_inj in H as <-. by apply Hkeep.
  - apply Ok_inj in H as <-. by apply Hkeep.
  - apply Ok_inj in H as <-. by apply Hkeep.
  - unfold finalize_unlink in H. destruct (inodes db !! i) as [r|]; [|apply Ok_inj in H as <-; by apply Hkeep].
    destruct (ir_unlink_pending r); [|apply Ok_inj in H as <-; by apply Hkeep]. apply delete_inode_Ok in H as [-> _]. constructor; try done.
    cbn [inodes set_inodes delete_legacy_of set_legacy]. by apply rows_typed_delete.
  - apply bind_Ok_inv in H as ([[s h] db1] & (doc & _ & _ & _ & _ & ->)%create_checkpoint_Ok & E). apply Ok_inj in E as <-. by apply Hkeep.
Qed.

Lemma ns_run_typed (ops : list (NsOp * Z)) (db : Db) :
  Forall (fun x => op_typed x.1) ops -> ns_typed db -> ns_typed (ns_run upper blake3 volume_id db ops).
Proof.
  intros Hops. revert db. unfold ns_run. induction Hops as [|[op now] ops Hop Hops IH]; intros db Hty; [done|]. cbn [foldl]. apply IH.
  unfold ns_step. cbn [fst snd] in *. destruct (ns_try upper blake3 volume_id op now db) as [db'|] eqn:E; [|done]. by eapply ns_try_typed.
Qed.
End typed.

(** ** Checkpoints *)
Definition live (db : Db) (i : InodeId) : Prop := exists r, inodes db !! i = Some r /\ ir_unlink_pending r = false.
Definition live_node (db : Db) (x : InodeId * InodeRow) : NamespaceNodeRecord := node_of x.1 x.2 (head (by_child db x.1)).
Definition live_rows (db : Db) : list (InodeId * InodeRow) :=
  List.filter (fun x => negb (ir_unlink_pending x.2)) (sort_by_key fst (map_to_list (inodes db))).

Lemma live_rows_spec (db : Db) (i : InodeId) (r : InodeRow) : (i, r) ∈ live_rows db <-> inodes db !! i = Some r /\ ir_unlink_pending r = false.
Proof.
  unfold live_rows. rewrite list_elem_of_In, filter_In, <- list_elem_of_In, sort_by_key_perm, elem_of_map_to_list. simpl. by rewrite negb_true_iff.
Qed.
Lemma strict_of_weak {A : Type} (k : A -> Z) (l : list A) :
  StronglySorted (fun a b => k a <= k b) l -> NoDup (map k l) -> StronglySorted (fun a b => k a < k b) l.
Proof.
  induction 1 as [|x l Hs IH Hf]; [constructor|]. cbn [map]. intros [Hn Hnd]%NoDup_cons. constructor; [by apply IH|].
  apply Forall_forall. intros y Hy. pose proof (proj1 (Forall_forall _ _) Hf y Hy) as Hle. simpl in Hle.
  assert (k x <> k y); [|lia]. intros E. apply Hn. rewrite E. apply list_elem_of_fmap. by exists y.
Qed.
Lemma sorted_filter {A : Type} (R : relation A) (f : A -> bool) (l : list A) : StronglySorted R l -> StronglySorted R (List.filter f l).
Proof.
  induction 1 as [|x l Hs IH Hf]; [constructor|]. cbn [List.filter]. destruct (f x); [|done]. constructor; [done|].
  apply Forall_forall. intros y Hy%list_elem_of_In. apply filter_In in Hy as [Hy%list_elem_of_In _]. by apply (proj1 (Forall_forall _ _) Hf).
Qed.
Lemma live_rows_sorted (db : Db) : StronglySorted (fun a b => a.1 < b.1) (live_rows db).
Proof.
  apply sorted_filter, strict_of_weak; [apply sort_by_key_sorted|]. change (NoDup (sort_by_key fst (map_to_list (inodes db))).*1).
  rewrite sort_by_key_perm. apply NoDup_fst_map_to_list.
Qed.

Section checkpoint.
Context (upper : Z -> list Z) (volume_id : Z) (Hvolume : id_ok 16 volume_id)
  (Hupper : forall c, is_char c = true -> is_str (upper c) /\ upper c <> []).
Let root := root_inode volume_id.
Notation ok := (ns_ok upper root).
Context (db : Db) (Hok : ok db) (Hty : ns_typed db).

(** An inode has at most one row in the entry table. *)
Lemma by_child_one (i : InodeId) : by_child db i = [] \/ exists p f d, by_child db i = [((p, f), d)] /\ dirents db !! (p, f) = Some d /\ d_child d = i.
Proof using Hok.
  destruct (by_child db i) as [|[[p f] d] [|[k2 d2] l]] eqn:E; [by left|right..].
  - exists p, f, d. split; [done|]. apply by_child_spec. rewrite E. left.
  - exfalso. pose proof Hok as [nk_volume0 nk_root0 nk_parent0 nk_child0 nk_unique0 nk_folded0 nk_grounded0 nk_legacy0]. assert (H1 : ((p, f), d) ∈ by_child db i) by (rewrite E; left). assert (H2 : (k2, d2) ∈ by_child db i) by (rewrite E; right; left).
    apply by_child_spec in H1 as [H1 C1]. apply by_child_spec in H2 as [H2 C2]. assert ((p, f) = k2) as <- by (eapply nk_unique0; [done|done|congruence]).
    assert (Hnd : NoDup (map_to_list (dirents db))) by apply NoDup_map_to_list.
    assert (NoDup (by_child db i)) as Hb by (apply NoDup_ListNoDup, List.NoDup_filter, NoDup_ListNoDup, Hnd).
    rewrite E in Hb. apply NoDup_cons in Hb as [Hb _]. apply Hb. rewrite H1 in H2. injection H2 as <-. left.
Qed.

Lemma live_nodes_rows : live_nodes db = map (live_node db) (live_rows db).
Proof using Hok.
  unfold live_nodes, live_rows. induction (sort_by_key fst (map_to_list (inodes db))) as [|[i r] l IH]; [done|].
  cbn [map concat List.filter fst snd]. rewrite IH. unfold nodes_of_row at 1. cbn [fst snd]. destruct (ir_unlink_pending r); cbn [negb]; [done|]. cbn [map].
  unfold live_node at 2. cbn [fst snd]. destruct (by_child_one i) as [->|(p & f & d & -> & _)]; done.
Qed.
Lemma live_nodes_sorted : StronglySorted (fun a b => nn_inode a < nn_inode b) (live_nodes db).
Proof using Hok.
  rewrite live_nodes_rows. pose proof (live_rows_sorted db) as Hs. induction Hs as [|x l Hs IH Hf]; cbn [map]; constructor; [done|].
  apply Forall_map. done.
Qed.

(** The node of a live inode, by the entry that leads to it. *)
Lemma live_nodes_elem (n : NamespaceNodeRecord) :
  n ∈ live_nodes db <->
  exists i r, inodes db !! i = Some r /\ ir_unlink_pending r = false /\
    ((forall k d, dirents db !! k = Some d -> d_child d <> i) /\ n = node_of i r None \/
     exists p f d, dirents db !! (p, f) = Some d /\ d_child d = i /\ n = node_of i r (Some ((p, f), d))).
Proof using Hok.
  rewrite live_nodes_rows, list_elem_of_fmap. split.
  - intros ([i r] & -> & [Hi Hp]%live_rows_spec). exists i, r. split_and!; [done|done|]. unfold live_node. cbn [fst snd].
    destruct (by_child_one i) as [E|(p & f & d & E & Hd & Hc)]; rewrite E.
    + left. split; [|done]. by apply by_child_nil.
    + right. by exists p, f, d.
  - intros (i & r & Hi & Hp & Hn). exists (i, r). split; [|by apply live_rows_spec]. unfold live_node. cbn [fst snd].
    destruct (by_child_one i) as [E|(p & f & d & E & Hd & Hc)]; rewrite E; destruct Hn as [[Hn ->]|(p' & f' & d' & Hd' & Hc' & ->)]; try done.
    + by destruct (proj1 (by_child_nil db i) E _ _ Hd').
    + by destruct (Hn _ _ Hd).
    + pose proof Hok as [nk_volume0 nk_root0 nk_parent0 nk_child0 nk_unique0 nk_folded0 nk_grounded0 nk_legacy0]. assert ((p, f) = (p', f')) as [= -> ->] by (eapply nk_unique0; [done|done|congruence]). rewrite Hd in Hd'. by injection Hd' as ->.
Qed.

Context (Horphans : forall p f d, dirents db !! (p, f) = Some d -> ~ pending db p)
  (Hshort : forall p f d, dirents db !! (p, f) = Some d -> Z.of_nat (length (utf8_encode f)) <= 1024).

Lemma live_node_ok (n : NamespaceNodeRecord) : n ∈ live_nodes db -> node_ok n.
Proof using Hok Hty Hupper Hshort.
  pose proof Hty as [ty_rows0 ty_names0 ty_checkpoints0]. intros (i & r & Hi & _ & Hn)%live_nodes_elem. destruct (ty_rows0 i r Hi) as [Hid []]. pose proof Hok as [nk_volume0 nk_root0 nk_parent0 nk_child0 nk_unique0 nk_folded0 nk_grounded0 nk_legacy0].
  assert (Hempty : text_ok []) by (by repeat split; try constructor).
  assert (Hsize : in_u64 (ir_size r)) by (unfold in_u64, i64_max, u64_max in *; lia).
  destruct Hn as [[_ ->]|(p & f & d & Hd & _ & ->)]; constructor; cbn [node_of nn_inode nn_parent nn_folded_name nn_display_name nn_size nn_version_root nn_extent_root option_map fst snd]; try done.
  - destruct (nk_parent0 _ _ _ Hd) as (rp & Hrp & _). simpl. by destruct (ty_rows0 p rp Hrp).
  - destruct (fold_name_valid upper Hupper (d_display d) f (ty_names0 _ _ Hd) (nk_folded0 _ _ _ Hd)) as (_ & _ & _ & ? & ?).
    split; [done|]. split; [done|]. by eapply Hshort.
  - by destruct (fold_name_valid upper Hupper (d_display d) f (ty_names0 _ _ Hd) (nk_folded0 _ _ _ Hd)) as (? & _).
Qed.

(** The node that stands for an inode. *)
Lemma live_node_exists (i : InodeId) : live db i -> exists n, n ∈ live_nodes db /\ nn_inode n = i.
Proof using Hok.
  intros (r & Hi & Hp). destruct (by_child_one i) as [E|(p & f & d & _ & Hd & Hc)].
  - exists (node_of i r None). split; [|done]. apply live_nodes_elem. exists i, r. split_and!; [done|done|]. left. split; [|done]. by apply by_child_nil.
  - exists (node_of i r (Some ((p, f), d))). split; [|done]. apply live_nodes_elem. exists i, r. split_and!; [done|done|]. right. by exists p, f, d.
Qed.
Lemma live_node_unique (n m : NamespaceNodeRecord) : n ∈ live_nodes db -> m ∈ live_nodes db -> nn_inode n = nn_inode m -> n = m.
Proof using Hok. apply inode_inj, sorted_inodes_NoDup, live_nodes_sorted. Qed.

Lemma live_rooted (i : InodeId) (n : NamespaceNodeRecord) : live db i -> n ∈ live_nodes db -> nn_inode n = i -> rooted (live_nodes db) n.
Proof using Hok Horphans.
  pose proof Hok as [nk_volume0 nk_root0 nk_parent0 nk_child0 nk_unique0 nk_folded0 nk_grounded0 nk_legacy0].
  intros Hl. assert (Hg : grounded (dirents db) (fun i => i = root \/ pending db i) i) by (apply nk_grounded0; destruct Hl as (r & Hr & _); by exists r).
  revert n Hl. induction Hg as [i Ht|i p (f & d & Hd & Hc) _ IH]; intros n Hl Hn Hi.
  - destruct Ht as [->|(r & Hr & Hp)]; [|destruct Hl as (r' & Hr' & Hp'); congruence].
    pose proof Hn as Hn'. apply live_nodes_elem in Hn' as (i & r & Hr & _ & Hcase). destruct nk_root0 as [(r' & Hr' & Hk) _].
    destruct Hcase as [[_ ->]|(p & f & d & Hd & Hc & ->)]; cbn [node_of nn_inode] in Hi; subst i.
    + apply rooted_root; [done|done|]. cbn [node_of nn_directory]. apply bool_decide_eq_true. congruence.
    + by destruct (nk_child0 _ _ _ Hd) as (_ & ? & _).
  - destruct (nk_parent0 _ _ _ Hd) as (rp & Hrp & Hkp). pose proof (Horphans _ _ _ Hd) as Hnp.
    assert (Hlp : live db p) by (exists rp; split; [done|]; destruct (ir_unlink_pending rp) eqn:E; [|done]; by destruct Hnp; exists rp).
    destruct (live_node_exists p Hlp) as (m & Hm & Hmi). pose proof Hn as Hn'. apply live_nodes_elem in Hn' as (j & r & Hr & _ & Hcase).
    destruct Hcase as [[Hnone ->]|(q & g & e & He & Hce & ->)]; cbn [node_of nn_inode] in Hi; subst j; [by destruct (Hnone _ _ Hd)|].
    assert ((p, f) = (q, g)) as [= <- <-] by (eapply nk_unique0; [done|done|congruence]).
    apply (rooted_child _ _ m); [done|cbn [node_of nn_parent option_map fst]; congruence| |by apply IH].
    apply live_nodes_elem in Hm as (j & rj & Hrj & _ & Hm). assert (nn_directory m = bool_decide (ir_kind rj = NDirectory) /\ nn_inode m = j) as [-> <-].
    { by destruct Hm as [[_ ->]|(? & ? & ? & _ & _ & ->)]. }
    apply bool_decide_eq_true. congruence.
Qed.

Lemma sibling_key_inj (n m : NamespaceNodeRecord) : n ∈ live_nodes db -> m ∈ live_nodes db -> sibling_key n = sibling_key m -> n = m.
Proof using Hok Hty Hupper.
  pose proof Hok as [nk_volume0 nk_root0 nk_parent0 nk_child0 nk_unique0 nk_folded0 nk_grounded0 nk_legacy0]. pose proof Hty as [_ ty_names0 _].
  intros Hn Hm E. apply live_node_unique; [done|done|].
  apply live_nodes_elem in Hn as (i & r & Hr & Hpr & Hn). apply live_nodes_elem in Hm as (j & s & Hs & Hps & Hm).
  assert (Hstr : forall p f d, dirents db !! (p, f) = Some d -> is_str f /\ f <> []).
  { intros p f d Hd. by destruct (fold_name_valid upper Hupper (d_display d) f (ty_names0 _ _ Hd) (nk_folded0 _ _ _ Hd)) as (_ & ? & ? & _). }
  assert (Htop : forall i r, inodes db !! i = Some r -> ir_unlink_pending r = false -> (forall k d, dirents db !! k = Some d -> d_child d <> i) -> i = root).
  { intros x rx Hx Hpx Hnone. destruct (nk_grounded0 x ltac:(by exists rx)) as [x [->|(rx' & Hx' & Hpx')]|x q (f & d & Hd & Hc) _]; [done|congruence|].
    by destruct (Hnone _ _ Hd). }
  unfold sibling_key in E. injection E as E1 E2.
  destruct Hn as [[Hn ->]|(p & f & d & Hd & Hc & ->)], Hm as [[Hm ->]|(q & g & e & He & Hce & ->)];
    cbn [node_of nn_inode nn_parent nn_folded_name option_map default fst snd] in *.
  - by rewrite (Htop i r), (Htop j s).
  - destruct (Hstr _ _ _ He) as [Hg Hgn]. by destruct Hgn; apply utf8_encode_nil.
  - destruct (Hstr _ _ _ Hd) as [Hf Hfn]. by destruct Hfn; apply utf8_encode_nil.
  - assert (p = q) as <- by exact E1. apply utf8_encode_inj in E2; [|by eapply Hstr|by eapply Hstr]. subst g. rewrite Hd in He. injection He as <-. congruence.
Qed.

Lemma live_tree : namespace_tree (live_nodes db).
Proof using Hok Hty Hupper Horphans.
  pose proof Hok as [nk_volume0 nk_root0 nk_parent0 nk_child0 nk_unique0 nk_folded0 nk_grounded0 nk_legacy0].
  assert (Hlive : forall n, n ∈ live_nodes db -> live db (nn_inode n)).
  { intros n (i & r & Hr & Hp & Hn)%live_nodes_elem. exists r. by destruct Hn as [[_ ->]|(? & ? & ? & _ & _ & ->)]. }
  constructor.
  - intros n Hn. apply (live_rooted (nn_inode n)); [by apply Hlive|done|done].
  - destruct nk_root0 as [(r & Hr & Hk) Hnp].
    assert (Hnone : forall k d, dirents db !! k = Some d -> d_child d <> root) by (intros [p f] d Hd; by destruct (nk_child0 _ _ _ Hd) as (_ & ? & _)).
    exists (node_of root r None). split_and!; [|done|].
    + apply live_nodes_elem. exists root, r. split_and!; [done| |by left]. destruct (ir_unlink_pending r) eqn:E; [|done]. by destruct Hnp; exists r.
    + intros n (i & s & Hs & Hp & [[Hn ->]|(p & f & d & _ & _ & ->)])%live_nodes_elem; [|done]. intros _.
      destruct (nk_grounded0 i ltac:(by exists s)) as [x [->|(rx & Hx & Hpx)]|x q (f & d & Hd & Hc) _]; [congruence|congruence|]. by destruct (Hn _ _ Hd).
  - apply NoDup_fmap_2_strong; [|by eapply NoDup_fmap_1, sorted_inodes_NoDup, live_nodes_sorted]. intros n m. apply sibling_key_inj.
Qed.

(** The document of a snapshot. *)
Lemma snapshot_decodes (s : Z) (document : list Z) :
  encode_checkpoint (mkCheckpoint volume_id s None (live_nodes db)) = Ok document -> in_u64 s ->
  Z.of_nat (length document) <= MAX_NAMESPACE_DOCUMENT_BYTES ->
  decode_checkpoint document = Ok (mkCheckpoint volume_id s None (live_nodes db)).
Proof using Hvolume Hupper Hok Hty Horphans Hshort.
  intros He Hs Hl. assert (Hc : checkpoint_ok (mkCheckpoint volume_id s None (live_nodes db))).
  { constructor; cbn [nc_volume_id nc_checkpoint_seq nc_parent_commit nc_nodes]; try done.
    - unfold encode_checkpoint in He. cbn [nc_nodes] in He. destruct (duplicate_inode _); [done|].
      destruct (Z.ltb_spec u32_max (Z.of_nat (length (sort_by_key nn_inode (live_nodes db))))) as [|Hle]; [done|]. by rewrite sort_by_key_perm in Hle.
    - apply Forall_forall. apply live_node_ok.
    - apply live_nodes_sorted. }
  rewrite (encode_checkpoint_ok _ Hc) in He. apply Ok_inj in He as <-. unfold decode_checkpoint.
  assert (Hb : is_bytes (enc_checkpoint (mkCheckpoint volume_id s None (live_nodes db)))) by (by apply enc_checkpoint_bytes).
  rewrite (proj2 (cur_checkpoint_spec _ _ [] Hb)) by done. cbn [mbind result_bind nc_nodes].
  rewrite (proj2 (check_graph_spec _ (sorted_inodes_NoDup _ live_nodes_sorted)) live_tree). done.
Qed.
End checkpoint.

(** In every namespace reached from a created volume by well-typed
    operations, if no entry hangs under a directory pending unlink and every
    folded name has at most 1024 bytes, a checkpoint that is taken (and fits
    the document bound) can be read back: its document decodes to the live
    inodes with their entries, one node for each inode not pending unlink,
    and its recorded hash is the hash of the document. *)
Theorem checkpoint_readable (upper : Z -> list Z) (blake3 : list Z -> Z) (volume_id created now s : Z) (i : InodeId) (h : Hash) (db0 db' : Db) (ops : list (NsOp * Z)) :
  id_ok 16 volume_id -> (forall c, is_char c = true -> is_str (upper c) /\ upper c <> []) ->
  create_volume volume_id created empty_db = Ok (i, db0) -> Forall (fun x => op_typed x.1) ops ->
  let db := ns_run upper blake3 volume_id db0 ops in
  (forall p f d, dirents db !! (p, f) = Some d -> ~ pending db p /\ Z.of_nat (length (utf8_encode f)) <= 1024) ->
  create_checkpoint blake3 volume_id now db = Ok (s, h, db') ->
  exists row, checkpoints db' !! s = Some row /\ ck_document_hash row = h /\ h = checkpoint_hash blake3 (ck_document row) /\
    (Z.of_nat (length (ck_document row)) <= MAX_NAMESPACE_DOCUMENT_BYTES ->
     exists c, decode_checkpoint (ck_document row) = Ok c /\ nc_volume_id c = volume_id /\ nc_checkpoint_seq c = s /\
       (forall j, (exists n, n ∈ nc_nodes c /\ nn_inode n = j) <-> live db j) /\
       (forall n, n ∈ nc_nodes c -> nn_parent n = fst <$> entry_of_child db (nn_inode n))).
Proof.
  intros Hv Hup Hcreate Hops db Hcond Hck. destruct (create_volume_ok upper volume_id created i db0 Hcreate) as [-> Hok0].
  pose proof (create_volume_typed volume_id Hv created _ db0 Hcreate) as Hty0.
  assert (Hok : ns_ok upper (root_inode volume_id) db) by (by apply ns_run_ok). assert (Hty : ns_typed db) by (by apply ns_run_typed).
  apply create_checkpoint_Ok in Hck as (doc & He & -> & Hs & Hmax & ->). eexists. split; [apply lookup_insert_eq|]. cbn [ck_document_hash ck_document].
  split; [done|]. split; [done|]. intros Hl. pose proof (segment_nonneg db (ty_checkpoints db Hty)) as Hseg.
  eexists. split.
  { apply (snapshot_decodes upper volume_id Hv Hup db Hok Hty); try done.
    - intros p f d Hd. by destruct (Hcond _ _ _ Hd).
    - intros p f d Hd. by destruct (Hcond _ _ _ Hd).
    - unfold in_u64, u64_max, i64_max in *. lia. }
  cbn [nc_volume_id nc_checkpoint_seq nc_nodes]. split_and!; [done|done| |].
  - intros j. split; [|by apply (live_node_exists upper volume_id db Hok)].
    intros (n & (x & r & Hr & Hp & Hn)%(live_nodes_elem upper volume_id db Hok) & <-). exists r. by destruct Hn as [[_ ->]|(? & ? & ? & _ & _ & ->)].
  - intros n (x & r & Hr & Hp & Hn)%(live_nodes_elem upper volume_id db Hok). unfold entry_of_child.
    destruct (by_child_one upper volume_id db Hok (nn_inode n)) as [E|(p & f & d & E & Hd & Hc)]; rewrite E; simpl;
      destruct Hn as [[Hn ->]|(q & g & e & Hd' & Hc' & ->)]; cbn [node_of nn_inode nn_parent option_map fst] in *; try done.
    + by destruct (proj1 (by_child_nil db x) E _ _ Hd').
    + by destruct (Hn _ _ Hd).
    + pose proof (nk_unique _ _ db Hok) as nk_unique0. assert ((p, f) = (q, g)) as [= -> ->] by (eapply nk_unique0; [done|done|congruence]). done.
Qed.

(** ** Witnesses *)
Lemma listing_pages_witness :
  list_children (demo_run demo_tree) demo_dir None 1 = Ok (firstn 1 (sort_by entry_le (child_rows (demo_run demo_tree) demo_dir))) /\
  exists children : list DirEntry, forall e, e ∈ children <-> exists f, find_entry (demo_run demo_tree) demo_dir f = Some e.
Proof.
  split; [vm_compute; reflexivity|]. destruct (listing_pages (demo_run demo_tree) demo_dir) as (children & _ & H & _). exists children. exact H.
Defined.

Definition demo_snapshot : result (Z * Hash * Db) := create_checkpoint demo_blake3 5 9 (demo_run demo_tree).
Definition demo_document_of (r : result (Z * Hash * Db)) : list Z :=
  match r with Ok (s, _, db) => match checkpoints db !! s with Some row => ck_document row | None => [] end | Err _ => [] end.
(** The snapshot of the demonstration tree reads back with its four nodes. *)
Example demo_snapshot_reads :
  (c ← decode_checkpoint (demo_document_of demo_snapshot); Ok (length (nc_nodes c))) = Ok 4%nat.
Proof. vm_compute. reflexivity. Qed.

(** A directory deleted while open keeps its inode, and an entry can still be
    created under it: the next checkpoint is not readable. *)
Definition orphan_run : list (NsOp * Z) :=
  [(NCreate (root_inode 5) (chars "docs") NDirectory, 1); (NDelete (root_inode 5) (chars "docs") true, 2);
   (NCreate demo_dir (chars "late.txt") NFile, 3)].
Example orphan_checkpoint_unreadable :
  (c ← decode_checkpoint (demo_document_of (create_checkpoint demo_blake3 5 9 (demo_run orphan_run))); Ok (nc_nodes c))
  = Err (manifest_invalid "namespace checkpoint references a missing parent").
Proof. vm_compute. reflexivity. Qed.
(** And its tombstone cannot be finalized. *)
Example orphan_blocks_finalization :
  ns_try ascii_upper demo_blake3 5 (NFinalize demo_dir) 4 (demo_run orphan_run) = Err (sqlite "pending inode finalization failed").
Proof. vm_compute. reflexivity. Qed.

Definition demo_tree_safe (db : Db) : bool :=
  forallb (fun x => match inodes db !! x.1.1 with Some r => negb (ir_unlink_pending r) | None => false end &&
                    (Z.of_nat (length (utf8_encode x.1.2)) <=? 1024)) (map_to_list (dirents db)).
Lemma demo_tree_safe_ok (db : Db) : demo_tree_safe db = true ->
  forall p f d, dirents db !! (p, f) = Some d -> ~ pending db p /\ Z.of_nat (length (utf8_encode f)) <= 1024.
Proof.
  intros H p f d Hd. assert (Hin : In ((p, f), d) (map_to_list (dirents db))) by (by apply list_elem_of_In, elem_of_map_to_list).
  pose proof (proj1 (forallb_forall _ _) H _ Hin) as Hx. simpl in Hx. apply andb_true_iff in Hx as [Hx Hl%Z.leb_le]. split; [|done].
  intros (r & Hr & Hp). rewrite Hr, Hp in Hx. done.
Qed.
Lemma checkpoint_readable_witness :
  exists s h db' row, demo_snapshot = Ok (s, h, db') /\ checkpoints db' !! s = Some row /\ ck_document_hash row = h.
Proof.
  assert (Hs : exists x, demo_snapshot = Ok x) by (eexists; vm_compute; reflexivity). destruct Hs as [[[s h] db'] Hs].
  destruct (checkpoint_readable ascii_upper demo_blake3 5 0 9 s (root_inode 5) h
    (match create_volume 5 0 empty_db with Ok (_, db) => db | Err _ => empty_db end) db' demo_tree) as (row & H1 & H2 & _).
  - split; [discriminate|reflexivity].
  - exact ascii_upper_ok.
  - reflexivity.
  - repeat constructor; apply is_str_check; reflexivity.
  - apply demo_tree_safe_ok. vm_compute. reflexivity.
  - exact Hs.
  - exists s, h, db', row. exact (conj Hs (conj H1 H2)).
Defined.

(** ** Pins *)
Fixpoint ancestor_at (db : Db) (k : nat) (i : InodeId) : option InodeId :=
  match k with O => Some i | S k => x ← entry_of_child db i; ancestor_at db k x.1 end.
(** A pin covers what is fewer than 128 levels below it. *)
Lemma pin_held_spec (db : Db) (i : InodeId) :
  pin_held db i = true <-> exists k a, (k < 128)%nat /\ ancestor_at db k i = Some a /\ is_Some (ns_pins db !! a).
Proof.
  unfold pin_held. generalize 128%nat as fuel. intros fuel. revert i. induction fuel as [|fuel IH]; intros i; cbn [pin_walk].
  - split; [done|]. intros (k & a & ? & _). lia.
  - destruct (bool_decide_reflect (is_Some (ns_pins db !! i))) as [Hp|Hp].
    + split; [|done]. intros _. exists 0%nat, i. split_and!; [lia|done|done].
    + destruct (entry_of_child db i) as [[p n]|] eqn:E; [rewrite IH|]; split.
      * intros (k & a & ? & Ha & ?). exists (S k), a. split_and!; [lia| |done]. simpl. by rewrite E.
      * intros ([|k] & a & ? & Ha & Hpa); [simpl in Ha; by injection Ha as ->|]. simpl in Ha. rewrite E in Ha. exists k, a. split_and!; [lia|done|done].
      * done.
      * intros ([|k] & a & ? & Ha & Hpa); simpl in Ha; [by injection Ha as ->|]. by rewrite E in Ha.
Qed.
(** A file 128 levels below a pinned directory is not covered, although
    creating it was accepted. *)
Definition deep_run : list (NsOp * Z) :=
  (NCreate (root_inode 5) (chars "d") NDirectory, 1) ::
  map (fun k => (NCreate (inode_of demo_blake3 5 (Z.of_nat k)) (chars "d") NDirectory, 1)) (seq 1 128) ++ [(NPin (inode_of demo_blake3 5 1), 2)].
Example deep_descendant_not_covered :
  let db := demo_run deep_run in
  (pin_held db (inode_of demo_blake3 5 128), pin_held db (inode_of demo_blake3 5 129)) = (true, false) /\
  ancestor_at db 128 (inode_of demo_blake3 5 129) = Some (inode_of demo_blake3 5 1).
Proof. vm_compute. done. Qed.
