(* ===== verification/NamespaceSeed.v ===== *)
(** * Seeding a namespace

    [seed_volume_body] and [seed_managed_volume] of
    [mirage-db/src/namespace.rs]: a volume's namespace built in one
    transaction from the nodes of a manifest tree, directories on demand,
    with the marker that makes it happen once.

    Proved: seeding a tree in which nothing lies below a file gives a
    namespace that satisfies the invariant, so that all of [Namespace] applies
    to it, and every seeded path resolves. *)
From S2P Require Export NamespaceViews.

Record NamespaceSeedNode : Set := mkSeed { sn_path : Str; sn_is_directory : bool; sn_size : Z; sn_version_root : option Hash }.

(** The database, the allocator's sequence, [path_inode] and [seeded]. *)
Record SeedState : Set := mkSeedState { sd_db : Db; sd_sequence : Z; sd_paths : gmap Str InodeId; sd_seeded : Z }.

Section seed.
Context (upper : Z -> list Z) (blake3 : list Z -> Z) (volume_id : Z).

(** The closure [allocate]. *)
Definition seed_allocate (sequence : Z) : result (InodeId * Z) :=
  next ← ok_or (internal_invariant "namespace allocator overflowed") (checked_add_i64 sequence 1);
  Ok (inode_of blake3 volume_id sequence, next).

(** A component that is not there yet. *)
Definition seed_insert (node : NamespaceSeedNode) (now : Z) (parent : InodeId) (prefix component : Str) (is_leaf : bool) (s : SeedState)
    : result (InodeId * SeedState) :=
  folded ← fold_name upper component;
  '(inode, next) ← seed_allocate (sd_sequence s);
  let k := if is_leaf && negb (sn_is_directory node) then NFile else NDirectory in
  let size := if is_leaf then sn_size node else 0 in
  if i64_max <? size then Err (invalid_argument "namespace seed size overflows")
  else
    db1 ← insert_inode "namespace seed inode insert failed" inode (mkInode k size (sn_version_root node) None now now false) (sd_db s);
    if bool_decide (is_Some (dirents db1 !! (parent, folded))) || negb (bool_decide (is_Some (inodes db1 !! parent)))
    then Err (sqlite "namespace seed dirent insert failed")
    else
      let db2 := set_dirents (<[(parent, folded) := mkDirent component inode]> (dirents db1)) db1 in
      let db3 := set_legacy (<[prefix := inode]> (legacy_map db2)) db2 in
      Ok (inode, mkSeedState db3 next (<[prefix := inode]> (sd_paths s)) (if is_leaf then sd_seeded s + 1 else sd_seeded s)).

Definition extend_prefix (prefix component : Str) : Str := match prefix with [] => component | _ => prefix ++ 47 :: component end.

Fixpoint seed_path (node : NamespaceSeedNode) (now : Z) (parent : InodeId) (prefix : Str) (components : list Str) (s : SeedState) : result SeedState :=
  match components with
  | [] => Ok s
  | component :: rest =>
      let prefix := extend_prefix prefix component in
      let is_leaf := bool_decide (rest = []) in
      match sd_paths s !! prefix with
      | Some inode =>
          if is_leaf then Err (repository_conflict "namespace seed contains a duplicate path")
          else seed_path node now inode prefix rest s
      | None =>
          '(inode, s') ← seed_insert node now parent prefix component is_leaf s;
          seed_path node now inode prefix rest s'
      end
  end.
Definition seed_node (now : Z) (s : SeedState) (node : NamespaceSeedNode) : result SeedState :=
  seed_path node now (root_inode volume_id) [] (path_components (sn_path node)) s.
Fixpoint seed_nodes (now : Z) (nodes : list NamespaceSeedNode) (s : SeedState) : result SeedState :=
  match nodes with [] => Ok s | node :: nodes => s' ← seed_node now s node; seed_nodes now nodes s' end.

Definition seed_volume_body (nodes : list NamespaceSeedNode) (now : Z) (db : Db) : result (Z * Db) :=
  let root := root_inode volume_id in
  match volumes db with
  | Some _ => Err (sqlite "namespace volume insert failed")
  | None =>
      let db1 := set_volumes (Some (mkVolume 1 root now)) db in
      db2 ← insert_inode "namespace root insert failed" root (mkInode NDirectory 0 None None now now false) db1;
      s ← seed_nodes now nodes (mkSeedState db2 1 {[ [] := root ]} 0);
      Ok (sd_seeded s, set_volumes (option_map (fun v => mkVolume (sd_sequence s) (vr_root_inode v) (vr_created_ns v)) (volumes (sd_db s))) (sd_db s))
  end.

(** With the [managed_namespace_seeds] row of the volume. *)
Definition seed_managed_volume (nodes : list NamespaceSeedNode) (commit_hash : Hash) (now : Z) (x : Db * option Hash)
    : result (option Hash * (Db * option Hash)) :=
  let '(db, marker) := x in
  match marker with
  | Some hash => Ok (Some hash, x)
  | None =>
      db1 ← (match volumes db with
             | Some _ => Ok db
             | None => r ← seed_volume_body nodes now db; Ok r.2
             end);
      Ok (None, (db1, Some commit_hash))
  end.
End seed.

Definition demo_seed : list NamespaceSeedNode :=
  [mkSeed (chars "docs/a.txt") false 10 None; mkSeed (chars "docs/b.txt") false 20 None; mkSeed (chars "empty") true 0 None].
Definition seeded_demo : Db := match seed_volume_body ascii_upper demo_blake3 5 demo_seed 0 empty_db with Ok (_, db) => db | Err _ => empty_db end.
Example seed_resolves :
  resolve_path ascii_upper 5 seeded_demo (chars "/docs/A.TXT") = Ok (Some (inode_of demo_blake3 5 2)) /\
  resolve_path ascii_upper 5 seeded_demo (chars "docs/c.txt") = Ok None.
Proof. vm_compute. done. Qed.
Example seed_duplicate :
  seed_volume_body ascii_upper demo_blake3 5 [mkSeed (chars "a") false 1 None; mkSeed (chars "/a/") true 0 None] 0 empty_db
  = Err (repository_conflict "namespace seed contains a duplicate path").
Proof. vm_compute. reflexivity. Qed.

(** The parent of a seeded entry is not checked to be a directory: a node
    below a file is accepted, and as rename walks the ancestors of directories
    only, the file can then be moved below itself. *)
Definition below_file : Db :=
  match seed_volume_body ascii_upper demo_blake3 5 [mkSeed (chars "a") false 1 None; mkSeed (chars "a/b") true 0 None] 0 empty_db with Ok (_, db) => db | Err _ => empty_db end.
Example file_moved_below_itself :
  match rename_in ascii_upper demo_blake3 5 (root_inode 5) (chars "a") (inode_of demo_blake3 5 2) (chars "a") 1 below_file with
  | Ok db => ancestor_at db 2 (inode_of demo_blake3 5 1) = Some (inode_of demo_blake3 5 1)
  | Err _ => False
  end.
Proof. vm_compute. reflexivity. Qed.

(** ** Paths and their components *)
Definition component_ok (c : Str) : Prop := c <> [] /\ 47 ∉ c.
Definition join_path (components : list Str) : Str := foldl extend_prefix [] components.

Lemma split_slash_parts (s : Str) : Forall (fun c => 47 ∉ c) (split_slash s) /\ split_slash s <> [].
Proof.
  induction s as [|c s [IH Hne]]; cbn [split_slash]; [split; [constructor; [set_solver|constructor]|done]|].
  destruct (Z.eqb_spec c 47) as [->|Hc]; [split; [constructor; [set_solver|done]|done]|].
  destruct (split_slash s) as [|p ps]; [done|]. apply Forall_cons in IH as [Hp Hps]. split; [|done]. constructor; [|done]. set_solver.
Qed.
Lemma path_components_ok (s : Str) : Forall component_ok (path_components s).
Proof.
  unfold path_components. destruct (split_slash_parts s) as [H _]. apply Forall_forall. intros c Hc%list_elem_of_In.
  apply filter_In in Hc as [Hc%list_elem_of_In Hne]. apply negb_true_iff, bool_decide_eq_false in Hne. split; [done|]. by apply (proj1 (Forall_forall _ _) H).
Qed.
Lemma split_slash_free (c : Str) : 47 ∉ c -> split_slash c = [c].
Proof.
  induction c as [|x c IH]; intros Hc; [done|]. apply not_elem_of_cons in Hc as [Hx Hc]. cbn [split_slash].
  destruct (Z.eqb_spec x 47); [congruence|]. by rewrite IH.
Qed.
Lemma split_slash_app (c s : Str) : 47 ∉ c -> split_slash (c ++ 47 :: s) = c :: split_slash s.
Proof.
  induction c as [|x c IH]; intros Hc; [done|]. apply not_elem_of_cons in Hc as [Hx Hc]. cbn [split_slash app].
  destruct (Z.eqb_spec x 47); [congruence|]. by rewrite IH.
Qed.
Lemma join_path_snoc (cs : list Str) (c : Str) : join_path (cs ++ [c]) = extend_prefix (join_path cs) c.
Proof. unfold join_path. by rewrite foldl_app. Qed.
Lemma join_path_nil (cs : list Str) : Forall component_ok cs -> join_path cs = [] -> cs = [].
Proof.
  destruct cs as [|c cs _] using rev_ind; [done|]. intros [_ [[Hc _] _]%Forall_cons]%Forall_app. rewrite join_path_snoc. unfold extend_prefix.
  destruct (join_path cs); [by intros ->|]. intros E. by apply app_eq_nil in E as [? _].
Qed.
(** Splitting a joined path gives its components back. *)
Lemma split_join (cs : list Str) : Forall component_ok cs -> cs <> [] -> split_slash (join_path cs) = cs.
Proof.
  induction cs as [|c cs IH] using rev_ind; [done|]. intros Hcs _. pose proof Hcs as [Hcs' [[Hc Hs] _]%Forall_cons]%Forall_app.
  rewrite join_path_snoc. unfold extend_prefix. destruct (join_path cs) as [|x p] eqn:E.
  - apply join_path_nil in E as ->; [|done]. by apply split_slash_free.
  - assert (Hne : cs <> []) by (intros ->; done). specialize (IH Hcs' Hne). clear -IH Hs. revert IH. generalize (x :: p) cs. clear x p cs. intros l.
    induction l as [|y l IHl]; intros cs; cbn [split_slash app]; [intros <-; by rewrite split_slash_free|].
    destruct (Z.eqb_spec y 47) as [->|Hy]; [intros <-; cbn [app]; by rewrite (IHl (split_slash l))|].
    destruct (split_slash l) as [|q qs] eqn:El; [by destruct (split_slash_parts l)|]. intros <-. rewrite (IHl (q :: qs)); done.
Qed.
Lemma join_path_components (cs : list Str) : Forall component_ok cs -> path_components (join_path cs) = cs.
Proof.
  intros Hcs. destruct (decide (cs = [])) as [->|Hne]; [done|]. unfold path_components. rewrite split_join by done. apply forallb_filter_id, forallb_forall.
  intros c Hc%list_elem_of_In. apply negb_true_iff, bool_decide_eq_false. by apply (proj1 (Forall_forall _ _) Hcs).
Qed.
Lemma join_path_inj (cs ds : list Str) : Forall component_ok cs -> Forall component_ok ds -> join_path cs = join_path ds -> cs = ds.
Proof. intros Hc Hd E. by rewrite <- (join_path_components cs Hc), <- (join_path_components ds Hd), E. Qed.

(** ** The invariant of the seed loop *)
Definition seed_kind (n : NamespaceSeedNode) : NamespaceNodeKind := if sn_is_directory n then NDirectory else NFile.
Definition components_of (n : NamespaceSeedNode) : list Str := path_components (sn_path n).

Section seed_ok.
Context (upper : Z -> list Z) (blake3 : list Z -> Z) (volume_id : Z) (nodes : list NamespaceSeedNode).
Let root := root_inode volume_id.
(** Nothing lies below a file. *)
Context (Htree : forall n m tail, n ∈ nodes -> m ∈ nodes -> sn_is_directory n = false -> components_of n <> [] -> tail <> [] -> components_of m <> components_of n ++ tail).

Record seed_inv (s : SeedState) : Prop := mk_seed_inv {
  si_ok : ns_ok upper root (sd_db s);
  si_root : sd_paths s !! [] = Some root;
  si_path : forall cs c i, Forall component_ok (cs ++ [c]) -> sd_paths s !! join_path (cs ++ [c]) = Some i ->
    exists p f d, sd_paths s !! join_path cs = Some p /\ fold_name upper c = Ok f /\ dirents (sd_db s) !! (p, f) = Some d /\ d_child d = i;
  si_kind : forall cs i, Forall component_ok cs -> sd_paths s !! join_path cs = Some i ->
    is_dir (sd_db s) i \/ exists n, n ∈ nodes /\ sn_is_directory n = false /\ components_of n = cs /\ cs <> []
}.
(** Rows, entries and paths are only added. *)
Definition grows (s s' : SeedState) : Prop :=
  inodes (sd_db s) ⊆ inodes (sd_db s') /\ dirents (sd_db s) ⊆ dirents (sd_db s') /\ sd_paths s ⊆ sd_paths s'.
Lemma grows_refl (s : SeedState) : grows s s.
Proof. by repeat split. Qed.
Lemma grows_trans (s1 s2 s3 : SeedState) : grows s1 s2 -> grows s2 s3 -> grows s1 s3.
Proof. intros (? & ? & ?) (? & ? & ?). split_and!; by etrans. Qed.

Lemma seed_insert_inv (n : NamespaceSeedNode) (now : Z) (parent i : InodeId) (pre : list Str) (c : Str) (rest : list Str) (s s' : SeedState) :
  n ∈ nodes -> components_of n = pre ++ c :: rest -> seed_inv s -> sd_paths s !! join_path pre = Some parent -> is_dir (sd_db s) parent ->
  sd_paths s !! join_path (pre ++ [c]) = None ->
  seed_insert upper blake3 volume_id n now parent (join_path (pre ++ [c])) c (bool_decide (rest = [])) s = Ok (i, s') ->
  seed_inv s' /\ grows s s' /\ sd_paths s' !! join_path (pre ++ [c]) = Some i /\ (rest <> [] -> is_dir (sd_db s') i) /\
  (rest = [] -> exists r, inodes (sd_db s') !! i = Some r /\ ir_kind r = seed_kind n /\ ir_size r = sn_size n).
Proof.
  intros Hn Hc [Hok Hr Hpath Hkind] Hpar Hdir Hnew H. unfold seed_insert in H. apply bind_Ok_inv in H as (f & Hf & H). apply bind_Ok_inv in H as ([j next] & Ha & H).
  unfold seed_allocate in Ha. apply bind_Ok_inv in Ha as (nx & _ & Ha). apply Ok_inj in Ha. injection Ha as <- <-.
  set (row := mkInode _ _ _ _ _ _ _) in H. destruct (i64_max <? _); [done|]. apply bind_Ok_inv in H as (db1 & Hi & H). unfold insert_inode in Hi.
  destruct (volumes (sd_db s)) as [v|] eqn:Ev; [|done]. destruct (inodes (sd_db s) !! inode_of blake3 volume_id (sd_sequence s)) eqn:Ei; [done|].
  apply Ok_inj in Hi as <-. set (j := inode_of blake3 volume_id (sd_sequence s)) in *. cbn [dirents inodes set_inodes] in H.
  destruct (bool_decide_reflect (is_Some (dirents (sd_db s) !! (parent, f)))) as [|Hfree]; [done|]. cbn [orb] in H. destruct (negb (bool_decide _)); [done|].
  apply Ok_inj in H. injection H as <- <-. apply eq_None_not_Some in Hfree.
  assert (Hcs : Forall component_ok (pre ++ [c])).
  { pose proof (path_components_ok (sn_path n)) as Hp. fold (components_of n) in Hp. rewrite Hc in Hp. apply Forall_app in Hp as [? [? _]%Forall_cons]. apply Forall_app. split; [done|]. constructor; [done|constructor]. }
  assert (Hg : grows s (mkSeedState (set_legacy (<[join_path (pre ++ [c]) := j]> (legacy_map (sd_db s))) (set_dirents (<[(parent, f) := mkDirent c j]> (dirents (sd_db s))) (set_inodes (<[j := row]> (inodes (sd_db s))) (sd_db s)))) nx (<[join_path (pre ++ [c]) := j]> (sd_paths s)) (if bool_decide (rest = []) then sd_seeded s + 1 else sd_seeded s))).
  { split_and!; cbn [sd_db sd_paths inodes dirents set_legacy set_dirents set_inodes]; by apply insert_subseteq. }
  split_and!; [|exact Hg|apply lookup_insert_eq| |].
  - constructor; cbn [sd_db sd_paths].
    + apply (ns_ok_insert upper volume_id (sd_db s) _ parent f c j row); try done.
      intros path x. cbn [legacy_map inodes set_legacy set_dirents set_inodes]. rewrite lookup_insert_is_Some'.
      intros [[_ <-]|[_ Hx]]%lookup_insert_Some; [by left|]. right. by eapply (nk_legacy _ _ _ Hok).
    + rewrite lookup_insert_ne; [done|]. intros E. by apply join_path_nil, app_eq_nil in E as [_ ?].
    + intros cs x y Hx [[E <-]|[_ Hy]]%lookup_insert_Some.
      * apply join_path_inj in E; [|done|done]. apply app_inj_tail in E as [-> ->]. exists parent, f, (mkDirent x j). split_and!; [|done|apply lookup_insert_eq|done].
        rewrite lookup_insert_ne; [done|]. intros E. apply join_path_inj in E; [|done|by apply Forall_app in Hx as [? _]].
        apply (f_equal length) in E. rewrite length_app in E. simpl in E. lia.
      * destruct (Hpath cs x y Hx Hy) as (p & g & d & H1 & H2 & H3 & H4). exists p, g, d. split_and!; [|done| |done].
        { eapply lookup_weaken; [exact H1|apply Hg]. }
        eapply lookup_weaken; [exact H3|apply Hg].
    + intros cs x Hx [[E <-]|[_ Hy]]%lookup_insert_Some.
      * apply join_path_inj in E; [|done|done]. subst cs. destruct (bool_decide_reflect (rest = [])) as [->|Hrest].
        { destruct (sn_is_directory n) eqn:Ed; [left|right; exists n; split_and!; [done|done|done|by destruct pre]].
          exists row. split; [apply lookup_insert_eq|done]. }
        left. exists row. split; [apply lookup_insert_eq|done].
      * destruct (Hkind cs x Hx Hy) as [(r & Hrx & Hk)|?]; [left|by right]. exists r. split; [|done]. eapply lookup_weaken; [exact Hrx|apply Hg].
  - intros Hrest. exists row. split; [apply lookup_insert_eq|]. unfold row. by rewrite bool_decide_eq_false_2.
  - intros ->. exists row. split; [apply lookup_insert_eq|]. unfold row, seed_kind. cbn [ir_kind ir_size bool_decide]. rewrite bool_decide_eq_true_2 by done. by destruct (sn_is_directory n).
Qed.

Lemma seed_path_inv (n : NamespaceSeedNode) (now : Z) (rest : list Str) (parent : InodeId) (pre : list Str) (s s' : SeedState) :
  n ∈ nodes -> components_of n = pre ++ rest -> seed_inv s -> sd_paths s !! join_path pre = Some parent -> is_dir (sd_db s) parent ->
  seed_path upper blake3 volume_id n now parent (join_path pre) rest s = Ok s' ->
  seed_inv s' /\ grows s s' /\
  (rest <> [] -> exists i r, sd_paths s' !! join_path (components_of n) = Some i /\ inodes (sd_db s') !! i = Some r /\
     ir_kind r = seed_kind n /\ ir_size r = sn_size n).
Proof using Htree.
  intros Hn. revert parent pre s. induction rest as [|c rest IH]; intros parent pre s Hc Hinv Hpar Hdir; cbn [seed_path].
  - intros <-%Ok_inj. split_and!; [done|apply grows_refl|done].
  - rewrite <- join_path_snoc. cbv zeta. destruct (sd_paths s !! join_path (pre ++ [c])) as [i|] eqn:E.
    + destruct (bool_decide_reflect (rest = [])) as [|Hrest]; [done|]. intros H.
      assert (Hcs : Forall component_ok (pre ++ [c])).
      { pose proof (path_components_ok (sn_path n)) as Hp. fold (components_of n) in Hp. rewrite Hc in Hp. apply Forall_app in Hp as [? [? _]%Forall_cons].
        apply Forall_app. split; [done|]. constructor; [done|constructor]. }
      assert (Hd : is_dir (sd_db s) i).
      { destruct (si_kind s Hinv (pre ++ [c]) i Hcs E) as [?|(m & Hm & Hf & Hcm & Hne)]; [done|]. exfalso.
        apply (Htree m n rest Hm Hn Hf); [by rewrite Hcm|done|]. by rewrite Hcm, <- app_assoc. }
      assert (Hc' : components_of n = (pre ++ [c]) ++ rest) by (by rewrite <- app_assoc).
      destruct (IH i (pre ++ [c]) s Hc' Hinv E Hd H) as (? & ? & Hleaf). split_and!; [done|done|]. intros _. by apply Hleaf.
    + intros H. apply bind_Ok_inv in H as ([i s1] & H1 & H2).
      destruct (seed_insert_inv n now parent i pre c rest s s1 Hn Hc Hinv Hpar Hdir E H1) as (Hinv1 & Hg1 & Hp1 & Hd1 & Hl1).
      assert (Hc' : components_of n = (pre ++ [c]) ++ rest) by (by rewrite <- app_assoc).
      destruct (decide (rest = [])) as [->|Hrest].
      * cbn [seed_path] in H2. apply Ok_inj in H2 as <-. split_and!; [done|done|]. intros _. destruct (Hl1 eq_refl) as (r & ? & ? & ?).
        exists i, r. split_and!; try done. rewrite Hc'. by rewrite app_nil_r.
      * destruct (IH i (pre ++ [c]) s1 Hc' Hinv1 Hp1 (Hd1 Hrest) H2) as (? & ? & Hleaf). split_and!; [done|by eapply grows_trans|]. intros _. by apply Hleaf.
Qed.

(** What a seeded node became. *)
Definition seeded (s : SeedState) (n : NamespaceSeedNode) : Prop :=
  components_of n <> [] -> exists i r, sd_paths s !! join_path (components_of n) = Some i /\ inodes (sd_db s) !! i = Some r /\
    ir_kind r = seed_kind n /\ ir_size r = sn_size n.
Lemma seeded_grows (s s' : SeedState) (n : NamespaceSeedNode) : grows s s' -> seeded s n -> seeded s' n.
Proof.
  intros (Hi & _ & Hp) Hs Hne. destruct (Hs Hne) as (i & r & H1 & H2 & ? & ?). exists i, r. split_and!; [by eapply lookup_weaken|by eapply lookup_weaken|done|done].
Qed.

Lemma seed_nodes_inv (now : Z) (l : list NamespaceSeedNode) (s s' : SeedState) :
  (forall n, n ∈ l -> n ∈ nodes) -> seed_inv s -> seed_nodes upper blake3 volume_id now l s = Ok s' ->
  seed_inv s' /\ grows s s' /\ Forall (seeded s') l.
Proof using Htree.
  revert s. induction l as [|n l IH]; intros s Hl Hinv; cbn [seed_nodes].
  - intros <-%Ok_inj. split_and!; [done|apply grows_refl|constructor].
  - intros H. apply bind_Ok_inv in H as (s1 & H1 & H2). unfold seed_node in H1.
    destruct (seed_path_inv n now (components_of n) root [] s s1 (Hl n ltac:(left)) eq_refl Hinv (si_root s Hinv)) as (Hinv1 & Hg1 & Hleaf); [|exact H1|].
    { by destruct (nk_root _ _ _ (si_ok s Hinv)) as [? _]. }
    destruct (IH s1 ltac:(intros m Hm; apply Hl; by right) Hinv1 H2) as (Hinv' & Hg' & Hall). split_and!; [done|by eapply grows_trans|].
    constructor; [|done]. by eapply seeded_grows.
Qed.

(** A path in the seed's map resolves. *)
Lemma resolve_snoc (db : Db) (cs : list Str) (c : Str) (i : InodeId) :
  resolve_from upper db i (cs ++ [c]) =
  match resolve_from upper db i cs with
  | Ok (Some p) => match lookup_name upper db p c with Ok e => Ok (option_map en_inode e) | Err e => Err e end
  | Ok None => Ok None
  | Err e => Err e
  end.
Proof.
  revert i. induction cs as [|d cs IH]; intros i; cbn [app resolve_from].
  - destruct (lookup_name upper db i c) as [[e|]|]; done.
  - destruct (lookup_name upper db i d) as [[e|]|]; cbn [mbind result_bind]; [apply IH|done|done].
Qed.
Lemma resolve_view (db db' : Db) (cs : list Str) (i : InodeId) :
  inodes db' = inodes db -> dirents db' = dirents db -> resolve_from upper db' i cs = resolve_from upper db i cs.
Proof.
  intros HI HD. assert (Hl : forall p c, lookup_name upper db' p c = lookup_name upper db p c) by (intros p c; unfold lookup_name, find_entry; by rewrite HI, HD).
  revert i. induction cs as [|c cs IH]; intros i; cbn [resolve_from]; [done|]. rewrite Hl. destruct (lookup_name upper db i c) as [[e|]|]; cbn [mbind result_bind]; auto.
Qed.
Lemma seeded_resolves (s : SeedState) (cs : list Str) (i : InodeId) :
  seed_inv s -> Forall component_ok cs -> sd_paths s !! join_path cs = Some i -> resolve_from upper (sd_db s) root cs = Ok (Some i).
Proof.
  intros Hinv. pose proof Hinv as [Hok Hr Hpath _]. revert i. induction cs as [|c cs IH] using rev_ind; intros i Hcs Hi.
  - change (join_path []) with ([] : Str) in Hi. rewrite Hr in Hi. by injection Hi as <-.
  - destruct (Hpath cs c i Hcs Hi) as (p & f & d & Hp & Hf & Hd & Hc). apply Forall_app in Hcs as [Hcs _].
    rewrite resolve_snoc, (IH p Hcs Hp). unfold lookup_name. rewrite Hf. cbn [mbind result_bind].
    destruct (nk_child _ _ _ Hok _ _ _ Hd) as ([r Hrow] & _). rewrite (proj2 (find_entry_Some (sd_db s) p f (entry_of f d r))); [|by exists d, r].
    cbn [mbind result_bind fmap option_fmap option_map en_inode entry_of]. by rewrite Hc.
Qed.
End seed_ok.

(** Seeding an empty volume with nodes of which none lies below a file,
    when it succeeds, gives a namespace in which the invariant of all later
    operations holds and every seeded path resolves to an inode of the node's
    kind and size; and once the marker is there, seeding again changes
    nothing. *)
Theorem seed_builds_namespace (upper : Z -> list Z) (blake3 : list Z -> Z) (volume_id now count : Z) (nodes : list NamespaceSeedNode) (db : Db) :
  (forall n m tail, n ∈ nodes -> m ∈ nodes -> sn_is_directory n = false -> components_of n <> [] -> tail <> [] -> components_of m <> components_of n ++ tail) ->
  seed_volume_body upper blake3 volume_id nodes now empty_db = Ok (count, db) ->
  ns_ok upper (root_inode volume_id) db /\
  (forall n, n ∈ nodes -> components_of n <> [] -> exists i r,
     resolve_path upper volume_id db (sn_path n) = Ok (Some i) /\ inodes db !! i = Some r /\ ir_kind r = seed_kind n /\ ir_size r = sn_size n) /\
  (forall commit hash, seed_managed_volume upper blake3 volume_id nodes commit now (empty_db, None) = Ok (None, (db, Some commit)) /\
     seed_managed_volume upper blake3 volume_id nodes hash now (db, Some commit) = Ok (Some commit, (db, Some commit))).
Proof.
  intros Htree H. assert (Hm : forall commit, seed_managed_volume upper blake3 volume_id nodes commit now (empty_db, None) = Ok (None, (db, Some commit))).
  { intros commit. unfold seed_managed_volume. cbn [volumes empty_db]. rewrite H. done. }
  unfold seed_volume_body in H. cbn [volumes empty_db] in H. apply bind_Ok_inv in H as (db2 & H2 & H). apply bind_Ok_inv in H as (s & Hs & H).
  apply Ok_inj in H. injection H as _ <-.
  assert (Hok2 : ns_ok upper (root_inode volume_id) db2).
  { apply (create_volume_ok upper volume_id now (root_inode volume_id) db2). apply Ok_inj in H2 as <-. reflexivity. }
  assert (Hinv : seed_inv upper volume_id nodes (mkSeedState db2 1 {[ [] := root_inode volume_id ]} 0)).
  { constructor; cbn [sd_db sd_paths]; [done|apply lookup_singleton_eq| |].
    - intros cs c i Hcs [E _]%lookup_singleton_Some. symmetry in E. by apply join_path_nil, app_eq_nil in E as [_ ?].
    - intros cs i _ [_ <-]%lookup_singleton_Some. left. by destruct (nk_root _ _ _ Hok2). }
  destruct (seed_nodes_inv upper blake3 volume_id nodes Htree now nodes _ s ltac:(done) Hinv Hs) as (Hinv' & _ & Hall).
  pose proof (si_ok _ _ _ s Hinv') as Hok. split_and!.
  - apply (ns_ok_view upper _ (sd_db s)); try done. destruct Hok as [[v Hv] _ _ _ _ _ _ _]. cbn [volumes set_volumes]. rewrite Hv. done.
  - intros n Hn Hne. destruct (proj1 (Forall_forall _ _) Hall n Hn Hne) as (i & r & Hi & Hr & ? & ?). exists i, r. split_and!; try done.
    unfold resolve_path. rewrite (resolve_view upper (sd_db s)) by done. apply (seeded_resolves upper volume_id nodes s); [done|apply path_components_ok|done].
  - intros commit hash. split; [apply Hm|done].
Qed.

(** Witness. *)
Lemma seed_builds_namespace_witness : exists count db,
  seed_volume_body ascii_upper demo_blake3 5 demo_seed 0 empty_db = Ok (count, db) /\ ns_ok ascii_upper (root_inode 5) db.
Proof.
  assert (Hs : exists x, seed_volume_body ascii_upper demo_blake3 5 demo_seed 0 empty_db = Ok x) by (eexists; vm_compute; reflexivity).
  destruct Hs as [[count db] Hs]. exists count, db. split; [exact Hs|].
  refine (proj1 (seed_builds_namespace ascii_upper demo_blake3 5 0 count demo_seed db _ Hs)). clear Hs.
  assert (Hlen : forallb (fun n => (length (components_of n) <=? 2)%nat && (sn_is_directory n || (2 <=? length (components_of n))%nat)) demo_seed = true) by reflexivity.
  rewrite forallb_forall in Hlen. intros n m tail Hn Hm Hf _ Htail E. apply (f_equal length) in E. rewrite length_app in E.
  apply list_elem_of_In, Hlen, andb_true_iff in Hn as [_ Hn]. apply list_elem_of_In, Hlen, andb_true_iff in Hm as [Hm _].
  rewrite Hf in Hn. apply Nat.leb_le in Hn, Hm. destruct tail; [done|simpl in E; lia].
Defined.
