(* ===== verification/Mutation.v ===== *)
(** * Journaled mutations of a volume

    The transactions of [mirage-db/src/operation.rs] that change several
    parts of a volume at once, and what [mirage-ffi/src/write.rs] builds on
    them: a namespace change with its journal entry, and the commit of a new
    file version (extent rows, head, journal operation, payload markers and
    the physical ledger).  The state of a volume is the namespace
    ([Namespace]), the extent store ([ExtentStore]) and the journal
    ([Journal]); an operation is a function to a result with the new state,
    and an error drops the transaction.

    Proved: a committed file version is the one a reload of the volume sees,
    byte for byte; a mutation that returns has an acknowledged journal
    operation and durable payloads, and leaves the other files alone. *)
From S2P Require Export ExtentStore Journal Namespace.

Record VolDb : Set := mkVol { v_ns : Db; v_store : StoreDb; v_journal : JournalDb }.
Definition set_ns (n : Db) (s : VolDb) : VolDb := mkVol n (v_store s) (v_journal s).
Definition set_store (t : StoreDb) (s : VolDb) : VolDb := mkVol (v_ns s) t (v_journal s).
Definition set_journal (j : JournalDb) (s : VolDb) : VolDb := mkVol (v_ns s) (v_store s) j.
Definition empty_vol : VolDb := mkVol empty_db empty_store empty_journal.

Record ExtentMutation : Set := mkExtentMutation { xm_volume : Z; xm_inode : Z; xm_version : Z; xm_eof : Z; xm_extents : list ByteExtent }.
Record PhysicalCommit : Set := mkPhysicalCommit { pc_extent_id : Z; pc_page_hash : Hash; pc_checksum : Hash }.
Record SequencedMutation : Set := mkMutation {
  sm_reservation : option (PhysicalExtentRecord * (Z * Z)); sm_extents : option ExtentMutation; sm_operation : OperationRecord;
  sm_payloads : list OperationPayloadRecord; sm_physical : option PhysicalCommit; sm_modified_ns : option (Z * Z); sm_now_ns : Z
}.

(** ** The mutation commit *)
Fixpoint insert_durable_payloads (id now : Z) (ps : list OperationPayloadRecord) (j : JournalDb) : result JournalDb :=
  match ps with
  | [] => Ok j
  | p :: ps =>
      if negb (pl_operation_id p =? id) then Err (invalid_argument "payload record belongs to a different operation")
      else
        j ← insert_payload (mkPayload (payload_id p) id (pl_path p) (pl_bytes p) (pl_checksum p) (Some now)) j;
        insert_durable_payloads id now ps j
  end.
Fixpoint check_extents (volume inode : Z) (previous : option Z) (es : list ByteExtent) : result () :=
  match es with
  | [] => Ok ()
  | e :: es =>
      _ ← check_extent volume inode e; _ ← check_overlap previous e;
      check_extents volume inode (Some (saturating_add (be_start e) (be_length e))) es
  end.
Fixpoint insert_byte_extents (volume inode v now : Z) (es : list ByteExtent) (s : StoreDb) : result StoreDb :=
  match es with
  | [] => Ok s
  | e :: es => s ← insert_byte_extent volume inode v now e s; insert_byte_extents volume inode v now es s
  end.
Definition commit_extents (m : ExtentMutation) (now : Z) (s : StoreDb) : result StoreDb :=
  _ ← check_extents (xm_volume m) (xm_inode m) None (xm_extents m);
  s ← insert_byte_extents (xm_volume m) (xm_inode m) (xm_version m) now (xm_extents m)
        (delete_rows (at_version (xm_volume m) (xm_inode m) (xm_version m)) s);
  write_head (xm_volume m) (xm_inode m) (xm_version m) (xm_eof m) now s.
Definition commit_mutation_in (extents : option ExtentMutation) (o : OperationRecord) (ps : list OperationPayloadRecord)
  (physical : option PhysicalCommit) (now : Z) (s : VolDb) : result VolDb :=
  _ ← check_new o (v_journal s);
  j ← insert_operation o (v_journal s);
  j ← insert_durable_payloads (operation_id o) now ps j;
  st ← match extents with Some m => commit_extents m now (v_store s) | None => Ok (v_store s) end;
  let '(committed, j) := update_status_of (operation_id o) (is_status Pending) (set_status Committed) j in
  if negb (committed =? 1) then Err (repository_conflict "operation is not pending")
  else
    st ← match physical with
         | Some p => d ← commit_extent (pc_extent_id p) (pc_page_hash p) (pc_checksum p) now (phys st); Ok (set_phys d st)
         | None => Ok st
         end;
    Ok (mkVol (v_ns s) st j).
Definition sequenced_mutation_commit (m : SequencedMutation) (s : VolDb) : result VolDb :=
  s ← match sm_reservation m with
      | Some (e, (owner, expires)) => d ← reserve_extent_in e owner expires (phys (v_store s)); Ok (set_store (set_phys d (v_store s)) s)
      | None => Ok s
      end;
  '(seq, j) ← allocate_device_seq_in (op_volume (sm_operation m)) (v_journal s);
  s ← commit_mutation_in (sm_extents m) (with_device_seq seq (sm_operation m)) (sm_payloads m) (sm_physical m) (sm_now_ns m) (set_journal j s);
  match sm_modified_ns m with
  | Some (inode, modified) =>
      match set_times inode None (Some modified) (v_ns s) with
      | Ok n => Ok (set_ns n s)
      | Err e => if decide (kind e = InvalidArgument) then Ok s else Err e
      end
  | None => Ok s
  end.

(** ** Namespace changes with their journal entry *)
Section journaled.
Context (upper : Z -> list Z) (blake3 : list Z -> Z) (volume_id : Z).

Definition namespace_create_journaled (parent : InodeId) (name : Str) (k : NamespaceNodeKind) (now : Z) (e : JournalEntry) (s : VolDb)
  : result (DirEntry * VolDb) :=
  '(entry, n) ← create_node_in upper blake3 volume_id parent name k now (v_ns s);
  j ← journal_entry_commit_in volume_id e (v_journal s);
  Ok (entry, mkVol n (v_store s) j).
Definition namespace_rename_journaled (from_parent : InodeId) (from_name : Str) (to_parent : InodeId) (to_name : Str) (now : Z)
  (e : JournalEntry) (replace retain_victim : bool) (expected_victim : option (option InodeId)) (s : VolDb) : result VolDb :=
  n ← rename_in_with_policy upper blake3 volume_id from_parent from_name to_parent to_name now replace retain_victim expected_victim (v_ns s);
  j ← journal_entry_commit_in volume_id e (v_journal s);
  Ok (mkVol n (v_store s) j).
Definition namespace_delete_journaled (parent : InodeId) (name : Str) (now : Z) (e : JournalEntry) (retain_inode : bool) (s : VolDb) : result VolDb :=
  n ← delete_node_with_lifetime_in upper blake3 volume_id parent name now retain_inode (v_ns s);
  j ← journal_entry_commit_in volume_id e (v_journal s);
  Ok (mkVol n (v_store s) j).
End journaled.

(** ** The write path over them *)
(** [ids] and [op_id] are the ids the random source gives. *)
Definition build_extent_mutation_commit (volume inode : Z) (m : ExtentMap) (k : OperationKind) (payload : Z) (path : string)
  (bytes : Z) (checksum : option Hash) (physical : option PhysicalCommit) (now : Z) (ids : nat -> Hash) (op_id : Z) : SequencedMutation :=
  mkMutation None
    (Some (mkExtentMutation volume inode (version m) (file_size m) (to_extents m volume inode (version m) now ids)))
    (mkOperation op_id 0 volume None k (to_be 16 inode) Pending None None now)
    (if bool_decide (path = "") then [] else [mkPayload payload op_id path (Z.min bytes i64_max) checksum None])
    physical None now.
(** The map [extent_map_for] loads; [base] is the size of the indexed file. *)
Definition load_extent_map (volume inode : Z) (base : option Z) (s : StoreDb) : ExtentMap :=
  match latest_version volume inode s with
  | Some v =>
      let m := replay (extents_at volume inode v s) in
      match extent_head volume inode s with Some (hv, eof) => set_head m hv eof | None => m end
  | None => match base with
            | Some size => if 0 <? size then seed_base ExtentMap_default size 0 else ExtentMap_default
            | None => ExtentMap_default
            end
  end.

(** ** Extents of a committed version *)
Lemma as_i64_nonneg (x : Z) : 0 <= x <= u64_max -> 0 <= as_i64 x -> as_i64 x = x.
Proof. unfold as_i64. intros Hx H. destruct (Z.leb_spec x i64_max); [done|lia]. Qed.

Lemma insert_byte_extents_Ok (volume inode v now : Z) (es : list ByteExtent) (s s' : StoreDb) :
  insert_byte_extents volume inode v now es s = Ok s' ->
  heads s' = heads s /\ phys s' = phys s /\ Forall (fun e => rows s !! be_extent_id e = None) es /\ NoDup (map be_extent_id es) /\
  Forall (fun e => row_check (be_extent_id e) (stored_row volume inode v now e) = true) es /\
  forall id e, rows s' !! id = Some e <->
    (exists e0, e0 ∈ es /\ id = be_extent_id e0 /\ e = stored_row volume inode v now e0) \/ rows s !! id = Some e.
Proof.
  revert s. induction es as [|e es IH]; intros s; cbn [insert_byte_extents].
  { intros [= <-]. split_and!; [done|done|constructor..|]. intros id e. split; [auto|]. by intros [(e0 & ?%elem_of_nil & _)|?]. }
  intros (s1 & (Hn & Hc & ->)%insert_byte_extent_Ok & H)%bind_Ok_inv. destruct (IH _ H) as (Hh & Hp & Hnone & Hnd & Hf & Hr).
  cbn [rows heads phys set_rows] in *. rewrite Forall_forall in Hnone.
  split_and!; [done|done| | |by constructor|].
  - constructor; [done|]. apply Forall_forall. intros x Hx. by apply Hnone, lookup_insert_None in Hx as [Hx _].
  - cbn [map]. apply NoDup_cons. split; [|done]. intros Hin%list_elem_of_In. apply in_map_iff in Hin as (x & E & Hx%list_elem_of_In).
    apply Hnone, lookup_insert_None in Hx as [_ Hx]. congruence.
  - intros id x. rewrite Hr. split.
    + intros [(e0 & Hin & H1 & H2)|[[<- <-]|[_ Hx]]%lookup_insert_Some]; [|left; exists e; split; [left|done]|by right].
      left. exists e0. split; [by right|done].
    + intros [(e0 & [->|Hin]%elem_of_cons & -> & ->)|Hx]; [right; by rewrite lookup_insert_eq|left; eauto|].
      right. rewrite lookup_insert_ne; [done|]. congruence.
Qed.

Lemma commit_extents_Ok (m : ExtentMutation) (now : Z) (s s' : StoreDb) :
  commit_extents m now s = Ok s' ->
  let stored := stored_row (xm_volume m) (xm_inode m) (xm_version m) now in
  phys s' = phys s /\ NoDup (map be_extent_id (xm_extents m)) /\
  Forall (fun e => row_check (be_extent_id e) (stored e) = true) (xm_extents m) /\
  (forall id e, rows s' !! id = Some e <-> (exists e0, e0 ∈ xm_extents m /\ id = be_extent_id e0 /\ e = stored e0) \/
     (rows s !! id = Some e /\ at_version (xm_volume m) (xm_inode m) (xm_version m) e = false)) /\
  exists s1, heads s1 = heads s /\ write_head (xm_volume m) (xm_inode m) (xm_version m) (xm_eof m) now s1 = Ok s'.
Proof.
  intros (_ & _ & H)%bind_Ok_inv stored. apply bind_Ok_inv in H as (s1 & H1 & H2).
  apply insert_byte_extents_Ok in H1 as (Hh & Hp & _ & Hnd & Hf & Hr). pose proof (write_head_rows _ _ _ _ _ _ _ H2) as (Er & Ep & _).
  split_and!; [by rewrite Ep, Hp|done|done| |by exists s1]. intros id e. rewrite Er, Hr, delete_rows_lookup. done.
Qed.

(** The rows of the committed version, in order of their offsets. *)
Lemma committed_extents_at (m : ExtentMutation) (now : Z) (s s' : StoreDb) :
  commit_extents m now s = Ok s' ->
  let stored := stored_row (xm_volume m) (xm_inode m) (xm_version m) now in
  StronglySorted (fun a b => be_start a < be_start b) (map stored (xm_extents m)) ->
  extents_at (xm_volume m) (xm_inode m) (xm_version m) s' = map stored (xm_extents m).
Proof.
  intros H stored Hs. destruct (commit_extents_Ok m now s s' H) as (_ & Hnd & _ & Hr & _). fold stored in Hr.
  assert (NoDup (map stored (xm_extents m))) as Hn1.
  { apply (NoDup_fmap_1 be_extent_id). change (NoDup (map be_extent_id (map stored (xm_extents m)))). by rewrite map_map. }
  assert (forall e, at_version (xm_volume m) (xm_inode m) (xm_version m) (stored e) = true) as Hat
    by (intros e; unfold at_version, of_inode; cbn; by rewrite !Z.eqb_refl).
  assert (extents_at (xm_volume m) (xm_inode m) (xm_version m) s' ≡ₚ map stored (xm_extents m)) as Hperm.
  { unfold extents_at. rewrite sort_by_key_perm. apply NoDup_Permutation; [|done|].
    - apply (NoDup_filter_values _ _ be_extent_id). intros k x [(e0 & _ & -> & ->)|[_ Hf]]%Hr Ha; [done|congruence].
    - intros x. rewrite list_elem_of_In, filter_In, in_map_iff, list_elem_of_In, in_map_iff. split.
      + intros [([k y] & <- & Hy%list_elem_of_In%elem_of_map_to_list) Ha]. apply Hr in Hy as [(e0 & He0 & -> & ->)|[_ Hf]]; [|cbn in Ha; congruence].
        exists e0. by rewrite <-list_elem_of_In.
      + intros (e0 & <- & He0%list_elem_of_In). split; [|apply Hat]. exists (be_extent_id e0, stored e0). split; [done|].
        apply list_elem_of_In, elem_of_map_to_list, Hr. left. eauto. }
  assert (NoDup (map be_start (map stored (xm_extents m)))) as Hns.
  { clear -Hs. induction Hs as [|x l Hs IH Hx]; [constructor|]. cbn. apply NoDup_cons. split; [|done].
    intros Hin%list_elem_of_In. apply in_map_iff in Hin as (y & E & Hy%list_elem_of_In). rewrite Forall_forall in Hx. specialize (Hx y Hy). lia. }
  assert (AntiSymm (=) (fun a b : ByteExtent => be_start a < be_start b)) as Hanti by (intros a b ? ?; lia).
  apply (StronglySorted_unique (fun a b => be_start a < be_start b)); [|done|done].
  apply strict_of_sorted; [|apply sort_by_key_sorted]. by rewrite Hperm.
Qed.

(** ** Reloading *)
Lemma latest_version_Some (volume inode v : Z) (s : StoreDb) :
  latest_version volume inode s = Some v <->
  ((exists h, heads s !! (volume, inode) = Some h /\ hd_version h = v) \/
   (exists id e, rows s !! id = Some e /\ of_inode volume inode e = true /\ be_version e = v)) /\
  (forall h, heads s !! (volume, inode) = Some h -> hd_version h <= v) /\
  (forall id e, rows s !! id = Some e -> of_inode volume inode e = true -> be_version e <= v).
Proof.
  unfold latest_version.
  set (L := match heads s !! (volume, inode) with Some h => [hd_version h] | None => [] end ++
        map be_version (List.filter (of_inode volume inode) (map snd (map_to_list (rows s))))).
  assert (forall x, x ∈ L <-> (exists h, heads s !! (volume, inode) = Some h /\ hd_version h = x) \/
    (exists id e, rows s !! id = Some e /\ of_inode volume inode e = true /\ be_version e = x)) as HL.
  { intros x. unfold L. rewrite elem_of_app.
    split; (intros [H|H]; [left|right]).
    - destruct (heads s !! (volume, inode)) as [h|]; [|by apply elem_of_nil in H]. apply list_elem_of_singleton in H as ->. eauto.
    - apply list_elem_of_In, in_map_iff in H as (e & <- & [Hin Ho]%filter_In). apply in_map_iff in Hin as ([id y] & <- & Hin%list_elem_of_In%elem_of_map_to_list). eauto.
    - destruct H as (h & -> & <-). by left.
    - destruct H as (id & e & He & Ho & <-). apply list_elem_of_In, in_map, filter_In. split; [|done].
      apply in_map_iff. exists (id, e). split; [done|by apply list_elem_of_In, elem_of_map_to_list]. }
  assert ((forall h, heads s !! (volume, inode) = Some h -> hd_version h <= v) /\
    (forall id e, rows s !! id = Some e -> of_inode volume inode e = true -> be_version e <= v) <-> forall x, x ∈ L -> x <= v) as Hmax.
  { split.
    - intros [H1 H2] x [(h & Hh & <-)|(id & e & He & Ho & <-)]%HL; eauto.
    - intros H. split; [intros h Hh|intros id e He Ho]; apply H, HL; eauto 6. }
  rewrite Hmax, <-HL. clearbody L. clear. destruct L as [|x l].
  - split; [done|]. by intros [?%elem_of_nil _].
  - assert (foldr Z.max x l ∈ x :: l /\ forall y, y ∈ x :: l -> y <= foldr Z.max x l) as [Hin Hle].
    { induction l as [|y l [IH1 IH2]]; cbn [foldr]; [split; [left|]; intros y Hy; by apply list_elem_of_singleton in Hy as ->|]. split.
      - destruct (Z.max_spec y (foldr Z.max x l)) as [[_ ->]|[_ ->]]; [|right; left].
        apply elem_of_cons in IH1 as [->|H]; [left|right; by right].
      - intros z Hz. apply elem_of_cons in Hz as [->|[->|Hz]%elem_of_cons].
        + specialize (IH2 x ltac:(left)). lia.
        + lia.
        + specialize (IH2 z ltac:(by right)). lia. }
    split.
    + intros [= <-]. done.
    + intros [Hv Hall]. f_equal. specialize (Hall _ Hin). specialize (Hle _ Hv). lia.
Qed.

(** A row that fits the 64-bit columns is stored as it is. *)
Lemma stored_row_id (volume inode v now id : Z) (i : Interval) : iv_ok i ->
  let e := extent_of_interval volume inode v now id i in
  row_check (be_extent_id e) (stored_row volume inode v now e) = true -> stored_row volume inode v now e = e.
Proof.
  intros (H1 & H2 & H3 & H4) e Hc. unfold row_check in Hc. destruct i as [st ln src]. cbn in *.
  assert (forall x, 0 <= x <= u64_max -> 0 <= as_i64 x -> as_i64 x = x) as Hid by apply as_i64_nonneg.
  unfold e in *. destruct src as [h off|p off|]; cbn in Hc, H4; unfold stored_row; cbn; zbool; rewrite !Hid by lia; reflexivity.
Qed.

Lemma fill_holes_wf (m : ExtentMap) : map_ok m -> wf (fill_holes (intervals m) 0 (file_size m)).
Proof.
  intros (Hwf & [Hf1 Hf2] & Hin). pose proof Hwf as [Hok _].
  destruct (fill_holes_spec (intervals m) 0 (file_size m)) as (Hwk & _);
    [done|lia|done|done|eapply Forall_impl; [exact Hok|]; intros i (?&_); done|done].
Qed.
Lemma rows_sorted (es : list ByteExtent) : wf (interval_of_extent <$> es) -> StronglySorted (fun a b => be_start a < be_start b) es.
Proof.
  induction es as [|e es IH]; intros Hw; [constructor|]. constructor; [apply IH; by eapply wf_tail|].
  destruct Hw as [[He _]%Forall_cons Hs]. apply StronglySorted_inv in Hs as [_ Hs].
  change (Forall (before (interval_of_extent e)) (interval_of_extent <$> es)) in Hs. rewrite Forall_fmap in Hs.
  eapply Forall_impl; [exact Hs|]. intros x Hx. destruct He as (_ & Hlen & _). unfold before in Hx. cbn in Hx, Hlen. lia.
Qed.
(** What a commit of a map's extents stores is the rows of the map. *)
Lemma committed_rows (m : ExtentMap) (volume inode now : Z) (ids : nat -> Hash) (s s' : StoreDb) :
  map_ok m ->
  commit_extents (mkExtentMutation volume inode (version m) (file_size m) (to_extents m volume inode (version m) now ids)) now s = Ok s' ->
  map (stored_row volume inode (version m) now) (to_extents m volume inode (version m) now ids) = to_extents m volume inode (version m) now ids /\
  extents_at volume inode (version m) s' = to_extents m volume inode (version m) now ids.
Proof.
  intros Hm H. pose proof (fill_holes_wf m Hm) as Hw.
  assert (map (stored_row volume inode (version m) now) (to_extents m volume inode (version m) now ids) = to_extents m volume inode (version m) now ids) as Hst.
  { destruct (commit_extents_Ok _ _ _ _ H) as (_ & _ & Hc & _). cbn [xm_volume xm_inode xm_version xm_extents] in Hc.
    rewrite <-map_id. apply map_ext_in. intros e He%list_elem_of_In. rewrite Forall_forall in Hc. pose proof (Hc e He) as Hce.
    apply to_extents_elem in He as (n & i & Hi & ->). apply stored_row_id; [|exact Hce]. destruct Hw as [Hok _]. rewrite Forall_forall in Hok. by apply Hok. }
  split; [done|]. pose proof (committed_extents_at _ _ _ _ H) as Hat. cbn [xm_volume xm_inode xm_version xm_extents] in Hat. rewrite Hst in Hat.
  apply Hat, rows_sorted. rewrite to_extents_rows. exact Hw.
Qed.

(** The newest committed version is the one a load finds. *)
Lemma reload_committed (m : ExtentMap) (volume inode now : Z) (ids : nat -> Hash) (base : option Z) (s s' : StoreDb) :
  map_ok m -> (forall l, latest_version volume inode s = Some l -> l < version m) ->
  commit_extents (mkExtentMutation volume inode (version m) (file_size m) (to_extents m volume inode (version m) now ids)) now s = Ok s' ->
  let m' := load_extent_map volume inode base s' in
  map_ok m' /\ file_size m' = file_size m /\ version m' = version m /\ (forall p, content (intervals m') p = content (intervals m) p).
Proof.
  intros Hm Hnew H. destruct (committed_rows _ _ _ _ _ _ _ Hm H) as [_ Hat].
  destruct (commit_extents_Ok _ _ _ _ H) as (_ & _ & _ & Hr & s1 & Hh1 & Hw). cbn [xm_volume xm_inode xm_version xm_extents xm_eof] in *.
  apply write_head_rows in Hw as (_ & _ & Hv0 & He0 & Hh).
  assert (forall x, ((exists h, heads s !! (volume, inode) = Some h /\ hd_version h = x) \/
    (exists id e, rows s !! id = Some e /\ of_inode volume inode e = true /\ be_version e = x)) -> x < version m) as Hold.
  { intros x Hx. destruct (latest_version volume inode s) as [l|] eqn:El.
    - specialize (Hnew l eq_refl). apply latest_version_Some in El as (_ & H1 & H2). destruct Hx as [(h & Hh' & <-)|(id & e & He & Ho & <-)].
      + specialize (H1 h Hh'). lia.
      + specialize (H2 id e He Ho). lia.
    - exfalso. unfold latest_version in El. destruct Hx as [(h & Hh' & _)|(id & e & He & Ho & _)]; [by rewrite Hh' in El|].
      destruct (heads s !! (volume, inode)); [done|]. cbn in El. destruct (map be_version _) eqn:Em; [|done]. apply map_eq_nil in Em.
      assert (e ∈ List.filter (of_inode volume inode) (map snd (map_to_list (rows s)))) as Hin.
      { apply list_elem_of_In, filter_In. split; [|done]. apply in_map_iff. exists (id, e). split; [done|by apply list_elem_of_In, elem_of_map_to_list]. }
      rewrite Em in Hin. by apply elem_of_nil in Hin. }
  assert (heads s' !! (volume, inode) = Some (mkHead (version m) (file_size m) now)) as Hhead.
  { destruct Hm as (_ & Hsz & _). rewrite (as_i64_nonneg _ Hsz He0) in Hh. rewrite Hh1 in Hh.
    destruct (heads s !! (volume, inode)) as [h|] eqn:Eh; [|by rewrite Hh, lookup_insert_eq].
    assert (hd_version h < version m) as Hlt by (apply Hold; eauto). apply Z.ltb_lt in Hlt. rewrite Hlt in Hh. by rewrite Hh, lookup_insert_eq. }
  assert (latest_version volume inode s' = Some (version m)) as Hl.
  { apply latest_version_Some. split_and!; [left; rewrite Hhead; eauto|intros h; rewrite Hhead; by intros [= <-]|].
    intros id e [(e0 & _ & _ & ->)|[He _]]%Hr Ho; [done|]. apply Z.lt_le_incl, Hold. eauto 6. }
  unfold load_extent_map, extent_head. rewrite Hl, Hat, Hhead. cbn.
  destruct (to_extents_replay_ok m volume inode (version m) now ids Hm Hv0) as ((Hwf & _ & Hin) & Hsz & _ & Hver & Hc & _).
  split; [|split; [done|split; [|done]]].
  - split; [exact Hwf|]. split; [apply Hm|]. cbn. by rewrite Hsz in Hin.
  - cbn in *. rewrite Hver. destruct (file_size m =? 0); lia.
Qed.

(** ** Mutations as a whole *)
Lemma insert_durable_payloads_eq (id now : Z) (ps : list OperationPayloadRecord) (j j' : JournalDb) :
  insert_durable_payloads id now ps j = Ok j' -> insert_payloads id (Some now) ps j = Ok j'.
Proof.
  revert j. induction ps as [|p ps IH]; intros j; cbn [insert_durable_payloads insert_payloads]; [done|].
  destruct (negb _); [done|]. intros (j1 & -> & H)%bind_Ok_inv. by apply IH.
Qed.

Definition physical_committed (p : option PhysicalCommit) (now : Z) (d d' : PhysDb) : Prop :=
  match p with
  | Some p => commit_extent (pc_extent_id p) (pc_page_hash p) (pc_checksum p) now d = Ok d'
  | None => d' = d
  end.
Definition extents_committed (x : option ExtentMutation) (now : Z) (s s' : StoreDb) : Prop :=
  match x with Some m => commit_extents m now s = Ok s' | None => s' = s end.

(** A mutation that returns has added its operation committed, with its
    payloads flushed, and made the changes of the store. *)
Lemma commit_mutation_Ok (x : option ExtentMutation) (o : OperationRecord) (ps : list OperationPayloadRecord)
  (p : option PhysicalCommit) (now : Z) (s s' : VolDb) :
  commit_mutation_in x o ps p now s = Ok s' ->
  status o = Pending /\ v_ns s' = v_ns s /\ adds (set_status Committed o) (Some now) (v_journal s) (v_journal s') /\
  exists st d, extents_committed x now (v_store s) st /\ physical_committed p now (phys st) d /\ v_store s' = set_phys d st.
Proof.
  intros (u & Hs%check_new_ok & H)%bind_Ok_inv. apply bind_Ok_inv in H as (j1 & (Hn & -> & Hcl & Hg)%insert_operation_ok & H).
  apply bind_Ok_inv in H as (j2 & (E1 & E2 & E3 & E4 & E5)%insert_durable_payloads_eq%insert_payloads_ok & H). cbn in E1, E2, E3, E4, E5.
  apply bind_Ok_inv in H as (st & Hst & H). unfold update_status_of in H.
  replace (operations j2 !! operation_id o) with (Some o) in H by (rewrite E1, lookup_insert_eq; done).
  rewrite (proj2 (is_status_true Pending o) Hs) in H. cbn [negb Z.eqb Pos.eqb] in H.
  apply bind_Ok_inv in H as (st' & Hp & [= <-]). split_and!; [done|done| |].
  - split_and!; cbn; [done|by rewrite E1, insert_insert_eq|done|done|done|done|done|].
    intros pid q Hq. destruct (E5 pid q Hq) as [?|(? & ? & _)]; auto.
  - exists st. cbn. destruct p as [p|].
    + apply bind_Ok_inv in Hp as (d & Hd & [= <-]). exists d. split_and!; [destruct x as [m|]; [done|by injection Hst as <-]|done|done].
    + injection Hp as <-. exists (phys st). split_and!; [destruct x as [m|]; [done|by injection Hst as <-]|done|by destruct st].
Qed.

Lemma sequenced_mutation_Ok (m : SequencedMutation) (s s' : VolDb) :
  sequenced_mutation_commit m s = Ok s' ->
  exists d seq j d1 st, match sm_reservation m with
      | Some (e, (owner, expires)) => reserve_extent_in e owner expires (phys (v_store s)) = Ok d
      | None => d = phys (v_store s)
      end /\
    allocate_device_seq_in (op_volume (sm_operation m)) (v_journal s) = Ok (seq, j) /\ status (sm_operation m) = Pending /\
    adds (set_status Committed (with_device_seq seq (sm_operation m))) (Some (sm_now_ns m)) j (v_journal s') /\
    extents_committed (sm_extents m) (sm_now_ns m) (set_phys d (v_store s)) st /\
    physical_committed (sm_physical m) (sm_now_ns m) (phys st) d1 /\ v_store s' = set_phys d1 st.
Proof.
  intros (s1 & H1 & H)%bind_Ok_inv. apply bind_Ok_inv in H as ([seq j] & Ha & H). apply bind_Ok_inv in H as (s2 & Hc & H).
  apply commit_mutation_Ok in Hc as (Hs & _ & Hadd & st & d1 & Hx & Hp & Hst).
  assert (v_journal s' = v_journal s2 /\ v_store s' = v_store s2) as [-> ->].
  { destruct (sm_modified_ns m) as [[inode modified]|]; [|by injection H as <-]. destruct (set_times _ _ _ _); [by injection H as <-|].
    destruct (decide _); [by injection H as <-|done]. }
  destruct (sm_reservation m) as [[e [owner expires]]|].
  - apply bind_Ok_inv in H1 as (d & Hd & [= <-]). exists d, seq, j, d1, st. by split_and!.
  - injection H1 as <-. exists (phys (v_store s)), seq, j, d1, st. cbn in *. split_and!; try done. by destruct (v_store s).
Qed.

(** ** Volumes *)
Inductive VolOp : Set :=
| VMutate (m : SequencedMutation) | VJournal (o : JournalOp) | VStore (o : StoreOp)
| VCreate (parent : InodeId) (name : Str) (k : NamespaceNodeKind) (now : Z) (e : JournalEntry)
| VRename (from_parent : InodeId) (from_name : Str) (to_parent : InodeId) (to_name : Str) (now : Z) (e : JournalEntry)
    (replace retain_victim : bool) (expected_victim : option (option InodeId))
| VDelete (parent : InodeId) (name : Str) (now : Z) (e : JournalEntry) (retain_inode : bool).

Definition keep_vol (s : VolDb) (r : result VolDb) : VolDb := match r with Ok s' => s' | Err _ => s end.

Section volume.
Context (upper : Z -> list Z) (blake3 : list Z -> Z) (volume_id : Z).

Definition vol_step (s : VolDb) (o : VolOp) : VolDb :=
  match o with
  | VMutate m => keep_vol s (sequenced_mutation_commit m s)
  | VJournal o => set_journal (journal_step (v_journal s) o) s
  | VStore o => set_store (store_step (v_store s) o) s
  | VCreate parent name k now e => keep_vol s ('(_, s') ← namespace_create_journaled upper blake3 volume_id parent name k now e s; Ok s')
  | VRename fp fn tp tn now e replace retain expected =>
      keep_vol s (namespace_rename_journaled upper blake3 volume_id fp fn tp tn now e replace retain expected s)
  | VDelete parent name now e retain => keep_vol s (namespace_delete_journaled upper blake3 volume_id parent name now e retain s)
  end.
Definition vol_run (s : VolDb) (os : list VolOp) : VolDb := fold_left vol_step os s.

Definition vol_inv (s : VolDb) : Prop := journal_inv (v_journal s) /\ phys_inv (phys (v_store s)).

Lemma store_step_inv (o : StoreOp) (s : StoreDb) : phys_inv (phys s) -> phys_inv (phys (store_step s o)).
Proof. exact (store_run_inv [o] s). Qed.

Lemma mutation_ok (m : SequencedMutation) (s s' : VolDb) :
  vol_inv s -> sequenced_mutation_commit m s = Ok s' -> vol_inv s' /\ extends (v_journal s) (v_journal s').
Proof.
  intros [Hj Hp] (d & seq & j & d1 & st & Hres & Ha & Hs & Hadd & Hx & Hph & Est)%sequenced_mutation_Ok.
  apply allocate_ok in Ha as (n & _ & _ & _ & ->).
  destruct (adds_inv _ _ _ _ ltac:(by eexists) Hadd (set_sequences_ok _ _ Hj)) as [Hj' He].
  split; [split; [done|]|exact He]. rewrite Est. cbn.
  assert (phys_inv d) as Hd by (destruct (sm_reservation m) as [[e [owner expires]]|]; [by eapply reserve_extent_ok|by subst d]).
  assert (phys st = d) as Ed.
  { unfold extents_committed in Hx. destruct (sm_extents m) as [x|]; [|by subst st]. by apply commit_extents_Ok in Hx as (-> & _). }
  unfold physical_committed in Hph. destruct (sm_physical m) as [p|]; [|by subst d1; rewrite Ed]. rewrite Ed in Hph. by eapply commit_extent_ok.
Qed.

Lemma vol_step_ok (o : VolOp) (s : VolDb) : vol_inv s -> vol_inv (vol_step s o) /\ extends (v_journal s) (v_journal (vol_step s o)).
Proof.
  intros Hs. assert (vol_inv s /\ extends (v_journal s) (v_journal s)) as Hrefl by (split; [done|apply extends_refl]).
  assert (forall r, (forall s', r = Ok s' -> vol_inv s' /\ extends (v_journal s) (v_journal s')) ->
    vol_inv (keep_vol s r) /\ extends (v_journal s) (v_journal (keep_vol s r))) as Hkeep by (intros [s'|] H; cbn; [by apply H|done]).
  assert (forall n e j, journal_entry_commit_in volume_id e (v_journal s) = Ok j ->
    vol_inv (mkVol n (v_store s) j) /\ extends (v_journal s) j) as Hentry.
  { intros n e j H. apply journal_entry_ok in H as (H1 & H2 & _); [|apply Hs]. split; [split; [done|apply Hs]|done]. }
  destruct o; cbn [vol_step]; try apply Hkeep.
  - intros s'. by apply mutation_ok.
  - destruct (journal_step_ok o (v_journal s) (proj1 Hs)) as [H1 H2]. split; [split; [done|apply Hs]|done].
  - split; [split; [apply Hs|by apply store_step_inv, Hs]|apply extends_refl].
  - intros s' ([en s1] & H & [= <-])%bind_Ok_inv. apply bind_Ok_inv in H as ([en' n] & _ & H). apply bind_Ok_inv in H as (j & Hjj & [= _ <-]). exact (Hentry n _ j Hjj).
  - intros s' (n & _ & H)%bind_Ok_inv. apply bind_Ok_inv in H as (j & Hjj & [= <-]). exact (Hentry n _ j Hjj).
  - intros s' (n & _ & H)%bind_Ok_inv. apply bind_Ok_inv in H as (j & Hjj & [= <-]). exact (Hentry n _ j Hjj).
Qed.
Lemma vol_run_ok (os : list VolOp) (s : VolDb) : vol_inv s -> vol_inv (vol_run s os).
Proof. revert s. induction os as [|o os IH]; intros s Hs; [done|]. cbn. by apply IH, vol_step_ok. Qed.
End volume.

(** ** Claims *)
(** C4: A committed file version survives a reload.  If the transaction of a
    new version of a file returns, the version being newer than what the
    store has of the file, then loading the file from the tables (latest
    version, its extent rows, the head) gives a well-formed map of the same
    version, size and content, byte for byte; the journal operation is
    committed with its payload flushed; and no other file changed. *)
Theorem committed_version_reloads (volume inode : Z) (m : ExtentMap) (k : OperationKind) (payload : Z) (path : string) (bytes : Z)
  (checksum : option Hash) (physical : option PhysicalCommit) (now : Z) (ids : nat -> Hash) (op_id : Z) (base : option Z) (s s' : VolDb) :
  map_ok m -> (forall l, latest_version volume inode (v_store s) = Some l -> l < version m) ->
  sequenced_mutation_commit (build_extent_mutation_commit volume inode m k payload path bytes checksum physical now ids op_id) s = Ok s' ->
  let m' := load_extent_map volume inode base (v_store s') in
  (map_ok m' /\ file_size m' = file_size m /\ version m' = version m /\ (forall p, content (intervals m') p = content (intervals m) p)) /\
  (exists o, operations (v_journal s') !! op_id = Some o /\ status o = Committed /\ op_volume o = volume /\ op_kind o = k) /\
  (forall w i v e, (w, i) <> (volume, inode) -> extent_head w i (v_store s') = extent_head w i (v_store s) /\
     (e ∈ extents_at w i v (v_store s') <-> e ∈ extents_at w i v (v_store s))).
Proof.
  intros Hm Hnew (d & seq & j & d1 & st & -> & _ & _ & (_ & Hop & _) & Hx & _ & Est)%sequenced_mutation_Ok m'.
  cbn in Hop. cbn [build_extent_mutation_commit sm_extents sm_now_ns extents_committed] in Hx.
  replace (set_phys (phys (v_store s)) (v_store s)) with (v_store s) in Hx by (by destruct (v_store s)).
  assert (forall w i b, load_extent_map w i b (set_phys d1 st) = load_extent_map w i b st) as Hload by done.
  subst m'. rewrite Est, Hload. split; [|split].
  - exact (reload_committed m volume inode now ids base (v_store s) st Hm Hnew Hx).
  - eexists. rewrite Hop. cbn. rewrite lookup_insert_eq. done.
  - destruct (commit_extents_Ok _ _ _ _ Hx) as (_ & _ & _ & Hr & s1 & Hh1 & Hw). cbn [xm_volume xm_inode xm_version xm_extents xm_eof] in *.
    apply write_head_rows in Hw as (_ & _ & _ & _ & Hh). intros w i v e Hne. split.
    + unfold extent_head. cbn. rewrite Hh1 in Hh. assert (heads st !! (w, i) = heads (v_store s) !! (w, i)) as ->; [|done].
      destruct (heads (v_store s) !! (volume, inode)) as [h|]; [destruct (hd_version h <? version m)|]; rewrite Hh; try done; by rewrite lookup_insert_ne.
    + change (e ∈ extents_at w i v st <-> e ∈ extents_at w i v (v_store s)). rewrite !elem_of_extents_at.
      split; intros [Ha (id & He)]; (split; [done|]); exists id.
      * apply Hr in He as [(e0 & _ & _ & ->)|[He _]]; [|done]. exfalso. apply Hne. unfold at_version, of_inode in Ha. cbn in Ha. zbool. congruence.
      * apply Hr. right. split; [done|]. apply not_true_iff_false. intros Hb. apply Hne. unfold at_version, of_inode in Ha, Hb. zbool. congruence.
Qed.
Definition t_map : ExtentMap := mkExtentMap [mkInterval 0 10 (SDirty 5 0); mkInterval 20 4 (SDirty 5 10)] 3 30 false.
Definition t_mutation : SequencedMutation := build_extent_mutation_commit 1 2 t_map KWrite 5 "p" 14 None None 7 (fun n => Z.of_nat n + 100) 9.
Lemma committed_version_reloads_witness :
  exists s', sequenced_mutation_commit t_mutation empty_vol = Ok s' /\ map_ok (load_extent_map 1 2 None (v_store s')) /\
    content (intervals (load_extent_map 1 2 None (v_store s'))) 21 = SDirty 5 11.
Proof.
  assert (exists s', sequenced_mutation_commit t_mutation empty_vol = Ok s') as [s' H] by (eexists; vm_compute; reflexivity).
  assert (map_ok t_map) as Hm.
  { split; [split; [repeat constructor; cbn; unfold u64_max; lia|repeat constructor; unfold before; cbn; lia]|].
    split; [cbn; unfold in_u64, u64_max; lia|repeat constructor; cbn; lia]. }
  assert (forall l, latest_version 1 2 (v_store empty_vol) = Some l -> l < version t_map) as Hl by (intros l Hl; vm_compute in Hl; discriminate).
  pose proof (committed_version_reloads 1 2 t_map KWrite 5 "p" 14 None None 7 (fun n => Z.of_nat n + 100) 9 None empty_vol s' Hm Hl H) as [(H1 & _ & _ & H4) _].
  exists s'. split; [exact H|]. split; [exact H1|]. rewrite H4. reflexivity.
Defined.

(** C37: Whatever mutations, journaled namespace changes, journal calls and
    store operations run on a volume, in any order and with any arguments,
    failed ones included: acknowledged journal operations have only flushed
    payloads, no physical slot has two extents and an extent is reserved
    exactly while it has a reservation; a further operation keeps the journal
    (statuses move along their lifecycle, no acknowledged operation is lost). *)
Theorem volume_operations_durable (upper : Z -> list Z) (blake3 : list Z -> Z) (volume_id : Z) (os : list VolOp) (o : VolOp) :
  let s := vol_run upper blake3 volume_id empty_vol os in
  durable (v_journal s) /\ extends (v_journal s) (v_journal (vol_step upper blake3 volume_id s o)) /\
  (forall id1 id2 e1 e2, phys_extents (phys (v_store s)) !! id1 = Some e1 -> phys_extents (phys (v_store s)) !! id2 = Some e2 ->
     pe_file_id e1 = pe_file_id e2 -> pe_slot_index e1 = pe_slot_index e2 -> id1 = id2) /\
  (forall id, is_Some (phys_reservations (phys (v_store s)) !! id) <->
     exists e, phys_extents (phys (v_store s)) !! id = Some e /\ pe_state e = Reserved).
Proof.
  intros s. assert (vol_inv s) as Hs by (apply vol_run_ok; split; [apply empty_journal_inv|apply empty_phys_inv]).
  split_and!; [apply Hs|by apply vol_step_ok| |apply Hs].
  intros id1 id2 e1 e2 H1 H2 Hf Hsl. destruct (decide (id1 = id2)) as [|Hne]; [done|].
  pose proof (proj2 (pi_slots _ (proj2 Hs)) id1 id2 e1 e2 H1 H2 Hne) as Hc. unfold extent_clash in Hc. by rewrite Hf, Hsl, !Z.eqb_refl in Hc.
Qed.
