(* ===== verification/Manifest.v ===== *)
(** * Repository manifests

    [mirage-manifest/src]: [model.rs], [path.rs] and [validate.rs].  A [String]
    is the list of its characters; object identifiers keep their bytes as
    [RemoteObjectRef] has them.  [char::to_uppercase] is the parameter [upper]
    of the naming policy. *)
From S2P Require Export Names Scheduler PackFormat.

(** ** The model *)
Definition MANIFEST_FORMAT_VERSION : Z := 2.
Inductive FileClass : Set :=
| NativeExecutable | NativeLibrary | NativeConfiguration | NativeMutable | VirtualAsset | VirtualContainer.
#[export] Instance FileClass_eq_dec : EqDecision FileClass.
Proof. solve_decision. Defined.
Definition is_virtual (c : FileClass) : bool := match c with VirtualAsset | VirtualContainer => true | _ => false end.
Definition FileClass_code (c : FileClass) : Z :=
  match c with
  | NativeExecutable => 0 | NativeLibrary => 1 | NativeConfiguration => 2 | NativeMutable => 3 | VirtualAsset => 4 | VirtualContainer => 5
  end.

Record MDirectory : Set := mkMDirectory { md_parent : option Z; md_name : list Z }.
Record MFile : Set := mkMFile {
  mf_parent_directory : Z; mf_name : list Z; mf_logical_size : Z; mf_stable_id : Z; mf_class : FileClass; mf_extent_start : Z; mf_extent_count : Z
}.
Record MExtent : Set := mkMExtent { mx_logical_offset : Z; mx_logical_length : Z; mx_page_start : Z; mx_page_count : Z }.
Record MPage : Set := mkMPage { mp_plaintext_hash : Hash; mp_logical_length : Z; mp_remote_location : Z }.
Record RemoteLocation : Set := mkRemoteLocation {
  rm_object : RemoteObjectRef; rm_offset : Z; rm_encoded_length : Z; rm_codec : Codec
}.
Record RepositoryManifest : Set := mkManifest {
  man_format_version : Z; man_repository_id : Z; man_generation_id : Z; man_page_size : Z;
  man_directories : list MDirectory; man_files : list MFile; man_extents : list MExtent; man_pages : list MPage;
  man_remote_locations : list RemoteLocation
}.
Record ManifestSummary : Set := mkSummary {
  sum_total : Z; sum_unique_pages : Z; sum_native : Z; sum_virtual : Z
}.

(** ** Paths *)
Definition MAX_COMPONENT_BYTES : Z := 255.
Definition MAX_LOGICAL_PATH_BYTES : Z := 32767.
(** [str::len]. *)
Definition str_len (s : list Z) : Z := Z.of_nat (length (utf8_encode s)).

Section paths.
Variable upper : Z -> list Z.
Definition validate_component (component : list Z) : result () :=
  if bool_decide (component = [46]) || bool_decide (component = [46; 46])
  then Err (manifest_invalid "relative path components are forbidden") else
  match fold_name upper component with
  | Ok _ => Ok ()
  | Err _ => Err (manifest_invalid "path component is not valid under the Windows naming policy")
  end.
Definition windows_case_key (component : list Z) : list Z :=
  match fold_name upper component with Ok k => k | Err _ => [] end.
End paths.

(** ** Validation *)
Definition MAX_DIRECTORIES : Z := 1000000.
Definition MAX_FILES : Z := 1000000.
Definition MAX_EXTENTS : Z := 16000000.
Definition MAX_PAGES : Z := 16000000.
Definition MAX_REMOTE_LOCATIONS : Z := 16000000.
Definition MAX_FILE_BYTES : Z := i64_max.
Definition EXECUTABLE_EXTENSIONS : list (list Z) := map chars ["bat"; "cmd"; "com"; "cpl"; "dll"; "exe"; "msi"; "ps1"; "scr"; "sys"]%string.

Definition check_count (actual maximum : Z) (label : string) : result () :=
  fail_if (maximum <? actual) (manifest_invalid ("manifest " +:+ label +:+ " count exceeds its declared bound")).

Definition directories_len (m : RepositoryManifest) : Z := Z.of_nat (length (man_directories m)).
(** The directory at an index below the length of the table. *)
Definition directory_at (m : RepositoryManifest) (i : Z) : option MDirectory := man_directories m !! Z.to_nat i.

(** [iter().enumerate().filter(...)] for the roots: their indices. *)
Definition roots_of (ds : list MDirectory) : list (nat * MDirectory) :=
  filter (fun p : nat * MDirectory => md_parent p.2 = None) (imap pair ds).

(** The loop up from [cursor].  [hops] grows on every round and is bounded by
    the number of directories, so [fuel] rounds are never used up. *)
Fixpoint climb_to_root (m : RepositoryManifest) (root_index : Z) (fuel : nat) (cursor hops : Z) : result () :=
  match fuel with
  | O => Err (internal_invariant "unreachable")
  | S fuel =>
      if cursor =? root_index then Ok () else
      let hops := hops + 1 in
      if directories_len m <? hops then Err (manifest_invalid "directory parent graph contains a cycle") else
      parent ← ok_or (manifest_invalid "directory ancestry does not reach root") (directory_at m cursor ≫= md_parent);
      if directories_len m <=? parent then Err (manifest_invalid "directory parent index is out of bounds")
      else climb_to_root m root_index fuel parent hops
  end.

(** The loop of [logical_directory_length]; it runs on directories whose
    ancestry reaches the root, in at most as many rounds as there are
    directories. *)
Fixpoint directory_length_loop (m : RepositoryManifest) (fuel : nat) (index length_ : Z) : result Z :=
  match fuel with
  | O => Err (internal_invariant "unreachable")
  | S fuel =>
      match directory_at m index with
      | None => Err (internal_invariant "index out of bounds")
      | Some directory =>
          length_ ← (if bool_decide (md_name directory = []) then Ok length_
                     else ok_or (manifest_invalid "logical path length overflows")
                            (checked_add length_ (str_len (md_name directory) + (if length_ =? 0 then 0 else 1))));
          match md_parent directory with
          | Some parent => directory_length_loop m fuel parent length_
          | None => Ok length_
          end
      end
  end.
Definition logical_directory_length (m : RepositoryManifest) (index : Z) : result Z :=
  directory_length_loop m (S (length (man_directories m))) index 0.

(** [rsplit_once('.')] and the extension test. *)
Fixpoint after_last_dot (s : list Z) : option (list Z) :=
  match s with
  | [] => None
  | c :: s => match after_last_dot s with Some e => Some e | None => if c =? 46 then Some s else None end
  end.
Definition ascii_lower (c : Z) : Z := if (65 <=? c) && (c <=? 90) then c + 32 else c.
Definition eq_ignore_ascii_case (a b : list Z) : bool := bool_decide (map ascii_lower a = map ascii_lower b).
Definition has_executable_extension (name : list Z) : bool :=
  match after_last_dot name with Some e => existsb (eq_ignore_ascii_case e) EXECUTABLE_EXTENSIONS | None => false end.

Definition RemoteObjectRef_validate (r : RemoteObjectRef) : result () :=
  fail_if (ro_byte_length r =? 0) (invalid_argument "immutable remote objects must contain at least one byte").

Definition validate_location (location : RemoteLocation) : result () :=
  _ ← RemoteObjectRef_validate (rm_object location);
  if negb (bool_decide (ro_kind (rm_object location) = KPack))
  then Err (manifest_invalid "page remote location must reference an immutable pack") else
  if rm_encoded_length location =? 0 then Err (manifest_invalid "encoded page range cannot be empty") else
  range ← CheckedRange_new (rm_offset location) (rm_encoded_length location);
  fail_if (ro_byte_length (rm_object location) <? end_exclusive range)
    (manifest_invalid "encoded page range exceeds immutable object length").
Definition validate_page (m : RepositoryManifest) (page_size : Z) (page : MPage) : result () :=
  if (mp_logical_length page =? 0) || (page_size <? mp_logical_length page)
  then Err (manifest_invalid "page logical length is zero or exceeds page size") else
  fail_if (Z.of_nat (length (man_remote_locations m)) <=? mp_remote_location page)
    (manifest_invalid "page remote location index is out of bounds").
Definition validate_pages_and_locations (m : RepositoryManifest) (page_size : Z) : result () :=
  _ ← for_each validate_location (man_remote_locations m);
  for_each (validate_page m page_size) (man_pages m).

(** [&items[start..start + count]], in bounds. *)
Definition zslice {A : Type} (start_ count : Z) (l : list A) : list A := take (Z.to_nat count) (drop (Z.to_nat start_) l).

(** The pages of one extent: all but the last are full; the sum of the lengths. *)
Definition validate_extent_page (page_size page_count : Z) (page_bytes : Z) (entry : nat * MPage) : result Z :=
  if negb (Z.of_nat entry.1 + 1 =? page_count) && negb (mp_logical_length entry.2 =? page_size)
  then Err (manifest_invalid "only the final page in an extent may be short")
  else ok_or (manifest_invalid "extent page length overflows") (checked_add page_bytes (mp_logical_length entry.2)).
Definition validate_extent (m : RepositoryManifest) (page_size : Z) (expected_offset : Z) (extent : MExtent) : result Z :=
  if negb (mx_logical_offset extent =? expected_offset) || (mx_logical_length extent =? 0)
  then Err (manifest_invalid "file extents are gapped, overlapping, unsorted, or empty") else
  page_end ← ok_or (manifest_invalid "extent page slice overflows") (checked_add (mx_page_start extent) (mx_page_count extent));
  if (mx_page_count extent =? 0) || (Z.of_nat (length (man_pages m)) <? page_end)
  then Err (manifest_invalid "extent page slice is empty or out of bounds") else
  page_bytes ← for_fold (validate_extent_page page_size (mx_page_count extent)) 0
    (imap pair (zslice (mx_page_start extent) (mx_page_count extent) (man_pages m)));
  if negb (page_bytes =? mx_logical_length extent) then Err (manifest_invalid "extent logical length does not equal its page lengths") else
  ok_or (manifest_invalid "file extent length overflows") (checked_add expected_offset (mx_logical_length extent)).

Definition validate_file_extents (m : RepositoryManifest) (file : MFile) (page_size : Z) : result () :=
  let count := mf_extent_count file in
  end_ ← ok_or (manifest_invalid "file extent slice overflows") (checked_add (mf_extent_start file) count);
  if Z.of_nat (length (man_extents m)) <? end_ then Err (manifest_invalid "file extent slice is out of bounds") else
  if negb (is_virtual (mf_class file))
  then fail_if (negb (count =? 0)) (manifest_invalid "native files cannot reference virtual page extents") else
  if mf_logical_size file =? 0
  then fail_if (negb (count =? 0)) (manifest_invalid "empty virtual file must not contain extents") else
  if count =? 0 then Err (manifest_invalid "non-empty virtual file has no extents") else
  expected_offset ← for_fold (validate_extent m page_size) 0 (zslice (mf_extent_start file) count (man_extents m));
  fail_if (negb (expected_offset =? mf_logical_size file)) (manifest_invalid "file extents do not cover the exact logical file length").

Section validation.
Variable upper : Z -> list Z.

Definition validate_directory (m : RepositoryManifest) (root_index : Z) (entry : nat * MDirectory) : result () :=
  let index := Z.of_nat entry.1 in
  let directory := entry.2 in
  _ ← (if index =? root_index then Ok () else
       _ ← validate_component upper (md_name directory);
       parent ← ok_or (manifest_invalid "non-root directory has no parent") (md_parent directory);
       fail_if ((directories_len m <=? parent) || (parent =? index)) (manifest_invalid "directory parent index is invalid"));
  _ ← climb_to_root m root_index (S (S (length (man_directories m)))) index 0;
  length_ ← logical_directory_length m index;
  fail_if (MAX_LOGICAL_PATH_BYTES <? length_) (manifest_invalid "logical directory path exceeds its declared bound").

(** [siblings.insert((parent, key))]. *)
Definition add_sibling (siblings : gset (Z * list Z)) (directory : MDirectory) : result (gset (Z * list Z)) :=
  match md_parent directory with
  | None => Ok siblings
  | Some parent =>
      let key := (parent, windows_case_key upper (md_name directory)) in
      if bool_decide (key ∈ siblings) then Err (manifest_invalid "case-colliding sibling directories are forbidden")
      else Ok ({[key]} ∪ siblings)
  end.

Definition validate_directories (m : RepositoryManifest) : result () :=
  match roots_of (man_directories m) with
  | [(root_index, root)] =>
      if negb (bool_decide (md_name root = []))
      then Err (manifest_invalid "manifest must contain exactly one empty-name root directory") else
      _ ← for_each (validate_directory m (Z.of_nat root_index)) (imap pair (man_directories m));
      _ ← for_fold add_sibling ∅ (man_directories m);
      Ok ()
  | _ => Err (manifest_invalid "manifest must contain exactly one empty-name root directory")
  end.

(** The names taken by directories. *)
Definition directory_names (m : RepositoryManifest) : gset (Z * list Z) :=
  list_to_set (omap (fun d => (fun p => (p, windows_case_key upper (md_name d))) <$> md_parent d) (man_directories m)).

(** The sets threaded through the loop over the files: sibling names, remaining
    directory names, stable identifiers. *)
Definition FileSets : Type := gset (Z * list Z) * gset (Z * list Z) * gset Z.
Definition validate_file (m : RepositoryManifest) (page_size : Z) (st : FileSets) (file : MFile) : result FileSets :=
  let '(sibling_names, directory_names, stable_ids) := st in
  _ ← validate_component upper (mf_name file);
  let parent := mf_parent_directory file in
  if directories_len m <=? parent then Err (manifest_invalid "file parent directory is out of bounds") else
  let key := (parent, windows_case_key upper (mf_name file)) in
  if bool_decide (key ∈ sibling_names) || bool_decide (key ∈ directory_names)
  then Err (manifest_invalid "case-colliding sibling paths are forbidden") else
  if bool_decide (mf_stable_id file ∈ stable_ids) then Err (manifest_invalid "duplicate stable file identifier") else
  if MAX_FILE_BYTES <? mf_logical_size file then Err (manifest_invalid "file logical length exceeds declared bound") else
  length_ ← logical_directory_length m parent;
  path_length ← ok_or (manifest_invalid "logical file path length overflows") (checked_add length_ (str_len (mf_name file) + 1));
  if MAX_LOGICAL_PATH_BYTES <? path_length then Err (manifest_invalid "logical file path exceeds declared bound") else
  if is_virtual (mf_class file) && has_executable_extension (mf_name file)
  then Err (manifest_invalid "executable-class extension cannot be virtualized by default") else
  _ ← validate_file_extents m file page_size;
  Ok ({[key]} ∪ sibling_names, directory_names, {[mf_stable_id file]} ∪ stable_ids).
Definition validate_files (m : RepositoryManifest) (page_size : Z) : result () :=
  _ ← for_fold (validate_file m page_size) (∅, directory_names m, ∅) (man_files m);
  Ok ().

Definition validate_manifest (m : RepositoryManifest) : result () :=
  if negb (man_format_version m =? MANIFEST_FORMAT_VERSION) then Err (unsupported_layout "manifest format version is not supported") else
  let page_size := man_page_size m in
  if negb ((65536 <=? page_size) && (page_size <=? 16777216)) || negb (is_power_of_two page_size)
  then Err (manifest_invalid "manifest page size is outside the supported power-of-two range") else
  _ ← check_count (directories_len m) MAX_DIRECTORIES "directories";
  _ ← check_count (Z.of_nat (length (man_files m))) MAX_FILES "files";
  _ ← check_count (Z.of_nat (length (man_extents m))) MAX_EXTENTS "extents";
  _ ← check_count (Z.of_nat (length (man_pages m))) MAX_PAGES "pages";
  _ ← check_count (Z.of_nat (length (man_remote_locations m))) MAX_REMOTE_LOCATIONS "remote locations";
  _ ← validate_directories m;
  _ ← validate_pages_and_locations m page_size;
  validate_files m page_size.

(** ** Summary *)
Definition summary_step (acc : Z * Z * Z) (file : MFile) : result (Z * Z * Z) :=
  let '(total_, native, virtual_bytes) := acc in
  total_ ← ok_or (manifest_invalid "manifest total logical bytes overflow") (checked_add total_ (mf_logical_size file));
  if is_virtual (mf_class file)
  then v ← ok_or (manifest_invalid "manifest virtual byte total overflows") (checked_add virtual_bytes (mf_logical_size file)); Ok (total_, native, v)
  else n ← ok_or (manifest_invalid "manifest native byte total overflows") (checked_add native (mf_logical_size file)); Ok (total_, n, virtual_bytes).
Definition manifest_summary (m : RepositoryManifest) : result ManifestSummary :=
  acc ← for_fold summary_step (0, 0, 0) (man_files m);
  let '(total_, native, virtual_bytes) := acc in
  Ok (mkSummary total_ (Z.of_nat (size (list_to_set (map mp_plaintext_hash (man_pages m)) : gset Z))) native virtual_bytes).
Definition summary (m : RepositoryManifest) : result ManifestSummary := _ ← validate_manifest m; manifest_summary m.
End validation.

(** ** Typing

    The integer widths and the well-formed text of the Rust types. *)
Definition location_typed (l : RemoteLocation) : Prop :=
  in_u64 (rm_offset l) /\ in_u64 (rm_encoded_length l) /\ in_u64 (ro_byte_length (rm_object l)) /\ 0 <= ro_content_hash (rm_object l) < 2 ^ 256 /\
  utf8_valid (chars (ro_backend_id (rm_object l))) = true /\ utf8_valid (chars (ro_provider_object_id (rm_object l))) = true /\
  opt_ok (fun r => utf8_valid (chars r) = true) (ro_immutable_revision (rm_object l)).
Definition manifest_typed (m : RepositoryManifest) : Prop :=
  0 <= man_repository_id m < 2 ^ 128 /\ in_u64 (man_generation_id m) /\ in_u64 (man_page_size m) /\
  Forall (fun d => opt_ok in_u32 (md_parent d) /\ is_str (md_name d)) (man_directories m) /\
  Forall (fun f => in_u32 (mf_parent_directory f) /\ is_str (mf_name f) /\ in_u64 (mf_logical_size f) /\ in_u64 (mf_stable_id f) /\
                   in_u32 (mf_extent_start f) /\ in_u32 (mf_extent_count f)) (man_files m) /\
  Forall (fun x => in_u64 (mx_logical_offset x) /\ in_u64 (mx_logical_length x) /\ in_u32 (mx_page_start x) /\ in_u32 (mx_page_count x)) (man_extents m) /\
  Forall (fun p => 0 <= mp_plaintext_hash p < 2 ^ 256 /\ in_u32 (mp_logical_length p) /\ in_u32 (mp_remote_location p)) (man_pages m) /\
  Forall location_typed (man_remote_locations m).

(** ** What a validated manifest is *)

(** The parent chain from [i] reaches the root in [k] steps. *)
Inductive climbs (m : RepositoryManifest) (root : nat) : nat -> nat -> Prop :=
| climbs_root : climbs m root 0 root
| climbs_parent (k i p : nat) (d : MDirectory) : i <> root -> man_directories m !! i = Some d -> md_parent d = Some (Z.of_nat p) ->
    (p < length (man_directories m))%nat -> climbs m root k p -> climbs m root (S k) i.

(** ** What the extents of a file are *)

(** The extents [xs] cover [o .. e) in order, each by a non-empty slice of the
    page table whose pages are full but the last. *)
Inductive extents_cover (m : RepositoryManifest) : Z -> list MExtent -> Z -> Prop :=
| cover_done (o : Z) : extents_cover m o [] o
| cover_next (o e : Z) (x : MExtent) (xs : list MExtent) :
    mx_logical_offset x = o -> 0 < mx_logical_length x -> 0 < mx_page_count x ->
    mx_page_start x + mx_page_count x <= Z.of_nat (length (man_pages m)) ->
    (let pages := zslice (mx_page_start x) (mx_page_count x) (man_pages m) in
     foldr Z.add 0 (map mp_logical_length pages) = mx_logical_length x /\
     forall i p, pages !! i = Some p -> Z.of_nat i + 1 < mx_page_count x -> mp_logical_length p = man_page_size m) ->
    extents_cover m (o + mx_logical_length x) xs e -> extents_cover m o (x :: xs) e.
Definition file_covered (m : RepositoryManifest) (f : MFile) : Prop :=
  mf_extent_start f + mf_extent_count f <= Z.of_nat (length (man_extents m)) /\
  if is_virtual (mf_class f) then extents_cover m 0 (zslice (mf_extent_start f) (mf_extent_count f) (man_extents m)) (mf_logical_size f)
  else mf_extent_count f = 0.

Lemma extent_pages_Ok (ps n : Z) (pages : list MPage) (k : nat) (b b' : Z) :
  for_fold (validate_extent_page ps n) b (imap (fun i p => ((k + i)%nat, p)) pages) = Ok b' ->
  b' = b + foldr Z.add 0 (map mp_logical_length pages) /\
  forall i p, pages !! i = Some p -> Z.of_nat (k + i) + 1 < n -> mp_logical_length p = ps.
Proof.
  revert k b. induction pages as [|q pages IH]; intros k b; cbn [for_fold imap map foldr]; [intros <-%Ok_inj; split; [lia|done]|].
  intros (b1 & H1 & H2)%bind_Ok_inv. unfold validate_extent_page in H1. cbn [fst snd] in H1.
  destruct (negb _ && negb _) eqn:E; [done|]. apply ok_or_Ok_inv, checked_add_Some in H1 as [_ ->].
  rewrite (imap_ext _ (fun i p => ((S k + i)%nat, p))) in H2 by (intros; cbn; f_equal; lia). apply IH in H2 as [-> Hp]. split; [cbn; lia|].
  intros [|i] p Hq Hn; cbn in Hq; [injection Hq as <-; apply andb_false_iff in E as [E|E]; zbool; lia|]. apply (Hp i p Hq). lia.
Qed.

Lemma validate_extent_cover (m : RepositoryManifest) (xs : list MExtent) (o e : Z) :
  Forall (fun x => in_u64 (mx_logical_offset x) /\ in_u64 (mx_logical_length x) /\ in_u32 (mx_page_start x) /\ in_u32 (mx_page_count x)) xs ->
  for_fold (validate_extent m (man_page_size m)) o xs = Ok e -> extents_cover m o xs e.
Proof.
  intros Ht. revert o. induction Ht as [|x xs (_ & [L _] & [P _] & [C _]) Ht IH]; intros o; cbn [for_fold]; [intros <-%Ok_inj; constructor|].
  intros (o1 & H1 & H2)%bind_Ok_inv. unfold validate_extent in H1. destruct (_ || _) eqn:E1; [done|].
  apply bind_Ok_inv in H1 as (pe & [_ ->]%ok_or_Ok_inv%checked_add_Some & H1). destruct ((_ =? 0) || (_ <? _)) eqn:E2; [done|].
  apply bind_Ok_inv in H1 as (pb & Hpb & H1). destruct (negb (_ =? mx_logical_length x)) eqn:E3; [done|]. apply ok_or_Ok_inv, checked_add_Some in H1 as [_ ->].
  apply (extent_pages_Ok _ _ _ 0) in Hpb as [-> Hp]. zbool. constructor; [lia..| |by apply IH]. split; [lia|]. intros i p Hi Hn. by apply (Hp i p Hi).
Qed.

Lemma validate_file_extents_covered (m : RepositoryManifest) (f : MFile) : manifest_typed m -> in_u64 (mf_logical_size f) ->
  validate_file_extents m f (man_page_size m) = Ok tt -> file_covered m f.
Proof.
  intros (_ & _ & _ & _ & _ & Ht & _) _. unfold validate_file_extents. intros (e & [_ ->]%ok_or_Ok_inv%checked_add_Some & H)%bind_Ok_inv.
  destruct (Z.ltb_spec (Z.of_nat (length (man_extents m))) (mf_extent_start f + mf_extent_count f)); [done|]. split; [done|].
  destruct (is_virtual (mf_class f)); cbn [negb] in H; [|apply fail_if_Ok_inv in H; zbool; lia].
  destruct (Z.eqb_spec (mf_logical_size f) 0) as [->|]; [apply fail_if_Ok_inv in H; zbool; replace (mf_extent_count f) with 0 by lia; constructor|].
  destruct (_ =? _); [done|]. apply bind_Ok_inv in H as (o & Ho & H%fail_if_Ok_inv). zbool. replace (mf_logical_size f) with o by lia.
  apply validate_extent_cover; [|done]. unfold zslice. by apply Forall_take, Forall_drop.
Qed.

Section facts.
Variable upper : Z -> list Z.

Record directories_wf (m : RepositoryManifest) (root : nat) : Prop := mkDirectoriesWf {
  dw_root : exists d, man_directories m !! root = Some d /\ md_parent d = None /\ md_name d = [];
  dw_other : forall i d, man_directories m !! i = Some d -> i <> root ->
    validate_component upper (md_name d) = Ok tt /\ exists p : nat, md_parent d = Some (Z.of_nat p) /\ (p < length (man_directories m))%nat /\ p <> i;
  dw_climbs : forall i, (i < length (man_directories m))%nat -> exists k, (k <= length (man_directories m))%nat /\ climbs m root k i;
  dw_keys : forall i j d e, man_directories m !! i = Some d -> man_directories m !! j = Some e -> i <> j ->
    is_Some (md_parent d) -> md_parent d = md_parent e -> windows_case_key upper (md_name d) <> windows_case_key upper (md_name e)
}.

Lemma roots_of_spec (ds : list MDirectory) (i : nat) (d : MDirectory) : (i, d) ∈ roots_of ds <-> ds !! i = Some d /\ md_parent d = None.
Proof.
  unfold roots_of. rewrite list_elem_of_filter. cbn. split.
  - intros [Hp Hin]. apply list_elem_of_lookup_1 in Hin as (k & Hk). rewrite list_lookup_imap in Hk. destruct (ds !! k) eqn:E; [|done]. cbn in Hk. by injection Hk as -> ->.
  - intros [Hd Hp]. split; [done|]. apply list_elem_of_lookup_2 with i. rewrite list_lookup_imap, Hd. done.
Qed.

Lemma climb_Ok (m : RepositoryManifest) (root : nat) (fuel : nat) (i : nat) (hops : Z) :
  Forall (fun d => opt_ok in_u32 (md_parent d) /\ is_str (md_name d)) (man_directories m) ->
  climb_to_root m (Z.of_nat root) fuel (Z.of_nat i) hops = Ok tt -> hops <= directories_len m ->
  exists k, Z.of_nat k + hops <= directories_len m /\ climbs m root k i.
Proof.
  intros Ht. revert i hops. induction fuel as [|fuel IH]; intros i hops; [done|]. cbn [climb_to_root].
  destruct (Z.eqb_spec (Z.of_nat i) (Z.of_nat root)) as [E|Hne]; [intros _ Hh; apply Nat2Z.inj in E as ->; exists 0%nat; split; [lia|constructor]|].
  destruct (Z.ltb_spec (directories_len m) (hops + 1)); [done|]. intros (p & Hp%ok_or_Ok_inv & Hrest)%bind_Ok_inv Hh.
  destruct (Z.leb_spec (directories_len m) p); [done|]. unfold directory_at in Hp. rewrite Nat2Z.id in Hp.
  destruct (man_directories m !! i) as [d|] eqn:Ed; [|done]. cbn in Hp.
  assert (Hp0 : 0 <= p). { apply (Forall_lookup_1 _ _ _ _ Ht) in Ed as [Hpt _]. rewrite Hp in Hpt. apply Hpt. }
  rewrite <- (Z2Nat.id p) in Hrest by done. apply IH in Hrest as (k & Hk & Hc); [|lia]. exists (S k). split; [lia|].
  apply (climbs_parent m root k i (Z.to_nat p) d); [lia|done|by rewrite Z2Nat.id|unfold directories_len in *; lia|done].
Qed.

Lemma add_sibling_keys (ds : list MDirectory) (s s' : gset (Z * list Z)) : for_fold (add_sibling upper) s ds = Ok s' ->
  s ⊆ s' /\ (forall i d p, ds !! i = Some d -> md_parent d = Some p -> (p, windows_case_key upper (md_name d)) ∉ s) /\
  (forall i j d e p, ds !! i = Some d -> ds !! j = Some e -> i <> j -> md_parent d = Some p -> md_parent e = Some p ->
     windows_case_key upper (md_name d) <> windows_case_key upper (md_name e)).
Proof.
  revert s. induction ds as [|d ds IH]; intros s; cbn [for_fold]; [intros <-%Ok_inj; done|]. intros (s1 & H1 & H2)%bind_Ok_inv.
  destruct (IH s1 H2) as (Hs & Hnew & Hdiff). unfold add_sibling in H1.
  assert (Hs1 : s ⊆ s1 /\ forall p, md_parent d = Some p -> (p, windows_case_key upper (md_name d)) ∉ s /\ (p, windows_case_key upper (md_name d)) ∈ s1).
  { destruct (md_parent d) as [p|]; [|apply Ok_inj in H1 as ->; done]. case_bool_decide as Hin; [done|]. apply Ok_inj in H1 as <-. split; [set_solver|]. intros q [= <-]. set_solver. }
  destruct Hs1 as [Hss Hd]. split_and!; [set_solver| |].
  - intros [|i] e p He Hp; cbn in He; [injection He as <-; by apply (Hd p)|]. intros Hin. apply (Hnew i e p He Hp). set_solver.
  - intros [|i] [|j] e f p He Hf Hne Hpe Hpf; cbn in He, Hf; [done| | |].
    + injection He as <-. intros E. apply (Hnew j f p Hf Hpf). rewrite <- E. by apply Hd.
    + injection Hf as <-. intros E. apply (Hnew i e p He Hpe). rewrite E. by apply Hd.
    + apply (Hdiff i j e f p); [done|done|congruence|done|done].
Qed.

Lemma validate_directories_wf (m : RepositoryManifest) : manifest_typed m -> validate_directories upper m = Ok tt -> exists root, directories_wf m root.
Proof.
  intros (_ & _ & _ & Ht & _). unfold validate_directories. destruct (roots_of (man_directories m)) as [|[root rd] [|]] eqn:Er; [done| |done].
  case_bool_decide as Hn; [|done]. cbn [negb]. intros ([] & Heach%for_each_Ok & (s & Hs & _)%bind_Ok_inv)%bind_Ok_inv. exists root.
  assert (Hroots : forall i d, man_directories m !! i = Some d -> md_parent d = None -> i = root /\ d = rd).
  { intros i d Hd Hp. assert (Hin : (i, d) ∈ roots_of (man_directories m)) by (by apply roots_of_spec). rewrite Er in Hin. apply list_elem_of_singleton in Hin. by injection Hin. }
  assert (Hrd : man_directories m !! root = Some rd /\ md_parent rd = None) by (apply roots_of_spec; rewrite Er; by apply list_elem_of_singleton).
  assert (Hdir : forall i d, man_directories m !! i = Some d -> validate_directory upper m (Z.of_nat root) (i, d) = Ok tt).
  { intros i d Hd. rewrite Forall_forall in Heach. apply Heach. apply list_elem_of_lookup_2 with i. by rewrite list_lookup_imap, Hd. }
  split.
  - exists rd. by destruct Hrd.
  - intros i d Hd Hne. pose proof (Hdir i d Hd) as H. unfold validate_directory in H. cbn [fst snd] in H. rewrite (proj2 (Z.eqb_neq (Z.of_nat i) (Z.of_nat root))) in H by lia.
    apply bind_Ok_inv in H as ([] & H & _). apply bind_Ok_inv in H as ([] & Hc & H). split; [done|].
    apply bind_Ok_inv in H as (p & Hp%ok_or_Ok_inv & Hf%fail_if_Ok_inv). zbool. apply (Forall_lookup_1 _ _ _ _ Ht) in Hd as [Hpt _]. rewrite Hp in Hpt. destruct Hpt as [Hp0 _].
    exists (Z.to_nat p). unfold directories_len in *. split_and!; [by rewrite Z2Nat.id|lia|lia].
  - intros i Hi. destruct (lookup_lt_is_Some_2 _ _ Hi) as [d Hd]. pose proof (Hdir i d Hd) as H. unfold validate_directory in H. cbn [fst snd] in H.
    apply bind_Ok_inv in H as ([] & _ & H). apply bind_Ok_inv in H as ([] & Hc & _). apply climb_Ok in Hc as (k & Hk & Hcl); [|done|unfold directories_len; lia].
    exists k. split; [unfold directories_len in *; lia|done].
  - intros i j d e Hd He Hne [p Hp] Epe. destruct (add_sibling_keys _ _ _ Hs) as (_ & _ & Hk). apply (Hk i j d e p); congruence.
Qed.

Record files_wf (m : RepositoryManifest) : Prop := mkFilesWf {
  fw_file : forall i f, man_files m !! i = Some f ->
    validate_component upper (mf_name f) = Ok tt /\ 0 <= mf_parent_directory f < directories_len m /\ mf_logical_size f <= MAX_FILE_BYTES /\ file_covered m f;
  fw_keys : forall i j f g, man_files m !! i = Some f -> man_files m !! j = Some g -> i <> j -> mf_parent_directory f = mf_parent_directory g ->
    windows_case_key upper (mf_name f) <> windows_case_key upper (mf_name g);
  fw_directories : forall i j f d, man_files m !! i = Some f -> man_directories m !! j = Some d -> md_parent d = Some (mf_parent_directory f) ->
    windows_case_key upper (mf_name f) <> windows_case_key upper (md_name d);
  fw_ids : forall i j f g, man_files m !! i = Some f -> man_files m !! j = Some g -> i <> j -> mf_stable_id f <> mf_stable_id g
}.

Lemma validate_file_Ok (m : RepositoryManifest) (st st' : FileSets) (f : MFile) : validate_file upper m (man_page_size m) st f = Ok st' ->
  let key := (mf_parent_directory f, windows_case_key upper (mf_name f)) in
  validate_component upper (mf_name f) = Ok tt /\ mf_parent_directory f < directories_len m /\ key ∉ st.1.1 /\ key ∉ st.1.2 /\ mf_stable_id f ∉ st.2 /\
  mf_logical_size f <= MAX_FILE_BYTES /\ validate_file_extents m f (man_page_size m) = Ok tt /\
  st' = ({[key]} ∪ st.1.1, st.1.2, {[mf_stable_id f]} ∪ st.2).
Proof.
  destruct st as [[sn dn] ids]. unfold validate_file. cbn [fst snd]. intros ([] & Hc & H)%bind_Ok_inv.
  destruct (Z.leb_spec (directories_len m) (mf_parent_directory f)); [done|].
  case_bool_decide as K1; [done|]. case_bool_decide as K2; [done|]. cbn [orb] in H. case_bool_decide as K3; [done|].
  destruct (Z.ltb_spec MAX_FILE_BYTES (mf_logical_size f)); [done|]. apply bind_Ok_inv in H as (l & _ & H). apply bind_Ok_inv in H as (pl & _ & H).
  destruct (_ <? _); [done|]. destruct (_ && _); [done|]. apply bind_Ok_inv in H as ([] & He & <-%Ok_inj). by split_and!.
Qed.

Lemma validate_files_fold (m : RepositoryManifest) (fs : list MFile) (st st' : FileSets) : for_fold (validate_file upper m (man_page_size m)) st fs = Ok st' ->
  (forall i f, fs !! i = Some f -> validate_component upper (mf_name f) = Ok tt /\ mf_parent_directory f < directories_len m /\
     mf_logical_size f <= MAX_FILE_BYTES /\ validate_file_extents m f (man_page_size m) = Ok tt /\
     (mf_parent_directory f, windows_case_key upper (mf_name f)) ∉ st.1.1 /\ (mf_parent_directory f, windows_case_key upper (mf_name f)) ∉ st.1.2 /\ mf_stable_id f ∉ st.2) /\
  (forall i j f g, fs !! i = Some f -> fs !! j = Some g -> (i < j)%nat ->
     (mf_parent_directory f, windows_case_key upper (mf_name f)) <> (mf_parent_directory g, windows_case_key upper (mf_name g)) /\ mf_stable_id f <> mf_stable_id g).
Proof.
  revert st. induction fs as [|f fs IH]; intros st; cbn [for_fold]; [done|].
  intros (s1 & (H1 & H2 & H3 & H4 & H5 & H6 & H7 & ->)%validate_file_Ok & Hrest)%bind_Ok_inv. destruct (IH _ Hrest) as [Hf Hd]. cbn [fst snd] in Hf. split.
  - intros [|i] g Hg; cbn in Hg; [injection Hg as <-; by split_and!|]. destruct (Hf i g Hg) as (K1 & K2 & K3 & K4 & K5 & K6 & K7). split_and!; [done..| | |]; set_solver.
  - intros [|i] [|j] g h Hg Hh Hij; cbn in Hg, Hh; [lia| |lia|apply (Hd i j g h Hg Hh); lia]. injection Hg as <-.
    destruct (Hf j h Hh) as (_ & _ & _ & _ & K5 & _ & K7). split; [intros E; apply K5; rewrite <- E; set_solver|intros E; apply K7; rewrite <- E; set_solver].
Qed.

Lemma validate_files_wf (m : RepositoryManifest) : manifest_typed m -> validate_files upper m (man_page_size m) = Ok tt -> files_wf m.
Proof.
  intros Hm (st & Hst & _)%bind_Ok_inv. pose proof Hm as (_ & _ & _ & _ & Ht & _). destruct (validate_files_fold m _ _ _ Hst) as [Hf Hd]. cbn [fst snd] in Hf. split.
  - intros i f Hi. destruct (Hf i f Hi) as (K1 & K2 & K3 & K4 & _). apply (Forall_lookup_1 _ _ _ _ Ht) in Hi as ([Hp _] & _ & Hs & _). split_and!; [done..|by apply validate_file_extents_covered].
  - intros i j f g Hi Hj Hne Hp E. destruct (Nat.lt_total i j) as [Hlt|[?|Hlt]]; [|done|].
    + apply (proj1 (Hd i j f g Hi Hj Hlt)). by rewrite Hp, E.
    + apply (proj1 (Hd j i g f Hj Hi Hlt)). by rewrite Hp, E.
  - intros i j f d Hi Hj Hp E. destruct (Hf i f Hi) as (_ & _ & _ & _ & _ & K6 & _). apply K6. unfold directory_names. apply elem_of_list_to_set, list_elem_of_omap.
    exists d. split; [by eapply list_elem_of_lookup_2|]. rewrite Hp. cbn. by rewrite E.
  - intros i j f g Hi Hj Hne E. destruct (Nat.lt_total i j) as [Hlt|[?|Hlt]]; [|done|].
    + by apply (proj2 (Hd i j f g Hi Hj Hlt)).
    + by apply (proj2 (Hd j i g f Hj Hi Hlt)).
Qed.

Record pages_wf (m : RepositoryManifest) : Prop := mkPagesWf {
  pw_page : Forall (fun p => 0 < mp_logical_length p <= man_page_size m /\ 0 <= mp_remote_location p < Z.of_nat (length (man_remote_locations m))) (man_pages m);
  pw_location : Forall (fun l => ro_kind (rm_object l) = KPack /\ 0 < rm_encoded_length l /\ rm_offset l + rm_encoded_length l <= ro_byte_length (rm_object l)) (man_remote_locations m)
}.
Lemma validate_pages_wf (m : RepositoryManifest) : manifest_typed m -> validate_pages_and_locations m (man_page_size m) = Ok tt -> pages_wf m.
Proof.
  intros (_ & _ & _ & _ & _ & _ & Hp & Hl) ([] & H1%for_each_Ok & H2%for_each_Ok)%bind_Ok_inv. split.
  - rewrite Forall_forall in *. intros p Hin. specialize (Hp p Hin) as (_ & [P1 _] & [P2 _]). specialize (H2 p Hin). unfold validate_page in H2.
    destruct ((mp_logical_length p =? 0) || (man_page_size m <? mp_logical_length p)) eqn:E; [done|]. apply fail_if_Ok_inv in H2. zbool. lia.
  - rewrite Forall_forall in *. intros l Hin. specialize (Hl l Hin) as ([L1 _] & [L2 _] & _). specialize (H1 l Hin). unfold validate_location in H1.
    apply bind_Ok_inv in H1 as ([] & _ & H1). case_bool_decide as Hk; [|done]. cbn [negb] in H1. destruct (Z.eqb_spec (rm_encoded_length l) 0); [done|].
    apply bind_Ok_inv in H1 as (r & Hr & H1%fail_if_Ok_inv). unfold CheckedRange_new in Hr. destruct (checked_add _ _) as [e|] eqn:Ea; [|done]. apply Ok_inj in Hr as <-.
    apply checked_add_Some in Ea as [Ea _]. zbool. unfold end_exclusive in H1. cbn [start len] in H1. rewrite checked_add_fits in H1 by done. split_and!; [done|lia|lia].
Qed.

Lemma check_count_Ok (n mx : Z) (label : string) : check_count n mx label = Ok tt -> n <= mx.
Proof. intros H%fail_if_Ok_inv. by zbool. Qed.
Lemma validate_manifest_wf (m : RepositoryManifest) : manifest_typed m -> validate_manifest upper m = Ok tt ->
  exists root, directories_wf m root /\ files_wf m /\ pages_wf m /\ 65536 <= man_page_size m <= 16777216 /\ is_power_of_two (man_page_size m) = true /\
    directories_len m <= MAX_DIRECTORIES /\ Z.of_nat (length (man_files m)) <= MAX_FILES /\ Z.of_nat (length (man_extents m)) <= MAX_EXTENTS /\
    Z.of_nat (length (man_pages m)) <= MAX_PAGES /\ Z.of_nat (length (man_remote_locations m)) <= MAX_REMOTE_LOCATIONS.
Proof.
  intros Ht. unfold validate_manifest. destruct (negb (man_format_version m =? MANIFEST_FORMAT_VERSION)); [done|].
  destruct (negb ((65536 <=? man_page_size m) && (man_page_size m <=? 16777216)) || negb (is_power_of_two (man_page_size m))) eqn:E; [done|].
  apply orb_false_iff in E as [E1 E2]. apply negb_false_iff in E1, E2. zbool.
  intros ([] & C1%check_count_Ok & ([] & C2%check_count_Ok & ([] & C3%check_count_Ok & ([] & C4%check_count_Ok & ([] & C5%check_count_Ok & HR)%bind_Ok_inv)%bind_Ok_inv)%bind_Ok_inv)%bind_Ok_inv)%bind_Ok_inv.
  apply bind_Ok_inv in HR as ([] & (root & Hd)%validate_directories_wf & HR); [|done]. apply bind_Ok_inv in HR as ([] & Hp%validate_pages_wf & Hf%validate_files_wf); [|done..].
  exists root. split_and!; assumption.
Qed.
(** ** Every refusal is a verdict on the manifest *)
Definition verdict {A : Type} (r : result A) : Prop :=
  match r with Ok _ => True | Err e => kind e = ManifestInvalid \/ kind e = UnsupportedLayout \/ kind e = InvalidArgument end.
Lemma verdict_bind {A B : Type} (r : result A) (f : A -> result B) : verdict r -> (forall a, r = Ok a -> verdict (f a)) -> verdict (r ≫= f).
Proof. destruct r; cbn; auto. Qed.
Lemma verdict_ok_or {A : Type} (msg : string) (o : option A) : verdict (ok_or (manifest_invalid msg) o).
Proof. destruct o; cbn; auto. Qed.
Lemma verdict_fail_if (c : bool) (msg : string) : verdict (fail_if c (manifest_invalid msg)).
Proof. destruct c; cbn; auto. Qed.
Lemma verdict_manifest {A : Type} (msg : string) : verdict (Err (manifest_invalid msg) : result A).
Proof. cbn; auto. Qed.
Lemma verdict_for_each {A : Type} (body : A -> result ()) (l : list A) : (forall x, x ∈ l -> verdict (body x)) -> verdict (for_each body l).
Proof.
  induction l as [|x l IH]; intros H; cbn; [done|]. apply verdict_bind; [apply H, elem_of_cons; by left|]. intros _ _. apply IH. intros y Hy. apply H, elem_of_cons. by right.
Qed.
Lemma verdict_for_fold {A S : Type} (body : S -> A -> result S) (s : S) (l : list A) : (forall s x, x ∈ l -> verdict (body s x)) -> verdict (for_fold body s l).
Proof.
  revert s. induction l as [|x l IH]; intros s H; cbn; [done|]. apply verdict_bind; [apply H, elem_of_cons; by left|]. intros s' _. apply IH. intros s'' y Hy. apply H, elem_of_cons. by right.
Qed.
#[local] Hint Resolve verdict_ok_or verdict_fail_if verdict_manifest : verdict.

Lemma validate_component_verdict (s : list Z) : verdict (validate_component upper s).
Proof. unfold validate_component. destruct (_ || _); [auto with verdict|]. destruct (fold_name upper s); cbn; auto. Qed.

(** The climb stops by itself. *)
Lemma climb_verdict (m : RepositoryManifest) (root : Z) (fuel : nat) (cursor hops : Z) :
  hops <= directories_len m -> directories_len m - hops + 2 <= Z.of_nat fuel -> verdict (climb_to_root m root fuel cursor hops).
Proof.
  revert cursor hops. induction fuel as [|fuel IH]; intros cursor hops Hh Hf; [lia|]. cbn [climb_to_root]. destruct (cursor =? root); [done|].
  destruct (Z.ltb_spec (directories_len m) (hops + 1)); [auto with verdict|]. apply verdict_bind; [auto with verdict|]. intros p _.
  destruct (_ <=? _); [auto with verdict|]. apply IH; lia.
Qed.
(** A directory whose chain reaches the root has a path length. *)
Lemma directory_length_verdict (m : RepositoryManifest) (root k i fuel : nat) (len_ : Z) :
  (exists d, man_directories m !! root = Some d /\ md_parent d = None) -> climbs m root k i -> (k < fuel)%nat ->
  verdict (directory_length_loop m fuel (Z.of_nat i) len_).
Proof.
  intros Hd Hc. revert fuel len_. induction Hc as [|k i p d Hne Hi Hp Hlt Hc IH]; intros fuel len_ Hf; (destruct fuel as [|fuel]; [lia|]); cbn [directory_length_loop]; unfold directory_at; rewrite Nat2Z.id.
  - destruct Hd as (d & -> & ->). apply verdict_bind; [destruct (bool_decide _); [done|auto with verdict]|done].
  - rewrite Hi, Hp. apply verdict_bind; [destruct (bool_decide _); [done|auto with verdict]|]. intros l _. apply IH. lia.
Qed.

Lemma validate_extents_verdict (m : RepositoryManifest) (f : MFile) (ps : Z) : verdict (validate_file_extents m f ps).
Proof.
  unfold validate_file_extents. apply verdict_bind; [auto with verdict|]. intros e _. destruct (_ <? _); [auto with verdict|].
  destruct (negb (is_virtual _)); [auto with verdict|]. destruct (mf_logical_size f =? 0); [auto with verdict|]. destruct (mf_extent_count f =? 0); [auto with verdict|].
  apply verdict_bind; [|auto with verdict]. apply verdict_for_fold. intros o x _. unfold validate_extent. destruct (_ || _); [auto with verdict|].
  apply verdict_bind; [auto with verdict|]. intros pe _. destruct (_ || _); [auto with verdict|]. apply verdict_bind.
  - apply verdict_for_fold. intros b [j p] _. unfold validate_extent_page. destruct (_ && _); auto with verdict.
  - intros b _. destruct (negb _); auto with verdict.
Qed.

Lemma validate_directories_verdict (m : RepositoryManifest) : manifest_typed m -> verdict (validate_directories upper m).
Proof.
  intros (_ & _ & _ & Ht & _). unfold validate_directories. destruct (roots_of (man_directories m)) as [|[root rd] [|]] eqn:Er; [auto with verdict| |auto with verdict].
  case_bool_decide as Hn; [|cbn; auto]. cbn [negb]. apply verdict_bind.
  - apply verdict_for_each. intros [i d] (j & Hj)%list_elem_of_lookup_1. rewrite list_lookup_imap in Hj. destruct (man_directories m !! j) as [d'|] eqn:Ed; [|done]. cbn in Hj. injection Hj as -> ->.
    unfold validate_directory. cbn [fst snd]. apply verdict_bind.
    { destruct (_ =? _); [done|]. apply verdict_bind; [apply validate_component_verdict|]. intros _ _. apply verdict_bind; auto with verdict. }
    intros _ _. apply verdict_bind; [apply climb_verdict; unfold directories_len; lia|]. intros [] Hc%climb_Ok; [|done|unfold directories_len; lia].
    destruct Hc as (k & Hk & Hc). apply verdict_bind; [|auto with verdict]. apply (directory_length_verdict m root k); [|done|unfold directories_len in *; lia].
    exists rd. apply roots_of_spec. rewrite Er. by apply list_elem_of_singleton.
  - intros _ _. apply verdict_bind; [|done]. apply verdict_for_fold. intros s d _. unfold add_sibling. destruct (md_parent d); [|done]. case_bool_decide; cbn; auto.
Qed.

(** C32: What manifest validation establishes.  A manifest it accepts has one
    empty-named root from which every directory descends by at most as many
    parents as there are directories, valid names, siblings (directories and
    files together) that differ under the case folding, distinct stable ids,
    pages within the page size at existing non-empty pack ranges, and the
    extents of every virtual file cover it exactly, in order, by pages that are
    full but the last of each extent; all within the declared bounds.  Every refusal is a
    verdict on the manifest: the loops over parents always end. *)
Theorem manifest_validation_sound (m : RepositoryManifest) : manifest_typed m ->
  (validate_manifest upper m = Ok tt ->
   exists root, directories_wf m root /\ files_wf m /\ pages_wf m /\ 65536 <= man_page_size m <= 16777216 /\ is_power_of_two (man_page_size m) = true /\
    directories_len m <= MAX_DIRECTORIES /\ Z.of_nat (length (man_files m)) <= MAX_FILES /\ Z.of_nat (length (man_extents m)) <= MAX_EXTENTS /\
    Z.of_nat (length (man_pages m)) <= MAX_PAGES /\ Z.of_nat (length (man_remote_locations m)) <= MAX_REMOTE_LOCATIONS) /\
  verdict (validate_manifest upper m).
Proof.
  intros Ht. split; [by apply validate_manifest_wf|]. unfold validate_manifest. destruct (negb _); [cbn; auto|]. destruct (_ || _); [auto with verdict|].
  do 5 (apply verdict_bind; [unfold check_count; auto with verdict|]; intros _ _).
  apply verdict_bind; [by apply validate_directories_verdict|]. intros [] (root & Hd)%validate_directories_wf; [|done].
  apply verdict_bind; [|intros _ _; apply verdict_bind; [|done]].
  - apply verdict_bind; [|intros _ _]; apply verdict_for_each.
    + intros l _. unfold validate_location. apply verdict_bind; [unfold RemoteObjectRef_validate; destruct (_ =? _); cbn; auto|]. intros _ _.
      destruct (negb _); [auto with verdict|]. destruct (_ =? _); [auto with verdict|]. apply verdict_bind; [|auto with verdict].
      unfold CheckedRange_new. destruct (checked_add _ _); cbn; auto.
    + intros p _. unfold validate_page. destruct (_ || _); auto with verdict.
  - apply verdict_for_fold. intros [[sn dn] ids] f (i & Hf)%list_elem_of_lookup_1. unfold validate_file. apply verdict_bind; [apply validate_component_verdict|]. intros _ _.
    destruct (Z.leb_spec (directories_len m) (mf_parent_directory f)) as [|Hlt]; [auto with verdict|]. destruct (_ || _); [auto with verdict|].
    destruct (bool_decide _); [auto with verdict|]. destruct (_ <? _); [auto with verdict|].
    apply verdict_bind.
    + destruct Ht as (_ & _ & _ & _ & Htf & _). apply (Forall_lookup_1 _ _ _ _ Htf) in Hf as [[Hp _] _]. unfold directories_len in Hlt.
      destruct (dw_climbs _ _ Hd (Z.to_nat (mf_parent_directory f)) ltac:(lia)) as (k & Hk & Hc). unfold logical_directory_length.
      rewrite <- (Z2Nat.id (mf_parent_directory f)) by done. apply (directory_length_verdict m root k); [|done|lia]. destruct (dw_root _ _ Hd) as (d & ? & ? & _). eauto.
    + intros l _. apply verdict_bind; [auto with verdict|]. intros pl _. destruct (_ <? _); [auto with verdict|]. destruct (_ && _); [auto with verdict|].
      apply verdict_bind; [apply validate_extents_verdict|done].
Qed.
End facts.

(** ** A small manifest *)
Definition sample_object : RemoteObjectRef := mkRemote "local" "pack-1" (Some "r1"%string) 500000 77 KPack.
Definition sample_manifest : RepositoryManifest :=
  mkManifest 2 9 4 65536 [mkMDirectory (Some 1) (chars "Maps"); mkMDirectory None []]
    [mkMFile 0 (chars "level.pak") 70000 101 VirtualContainer 0 1; mkMFile 1 (chars "game.exe") 4096 102 NativeExecutable 1 0]
    [mkMExtent 0 70000 0 2] [mkMPage 11 65536 0; mkMPage 12 4464 0] [mkRemoteLocation sample_object 64 1000 CNone].
(** A file whose name collides with a directory's under the case folding. *)
Example colliding_file_refused :
  validate_manifest ascii_upper (mkManifest 2 9 4 65536 (man_directories sample_manifest) [mkMFile 1 (chars "MAPS") 5 7 NativeMutable 0 0] [] [] []) =
  Err (manifest_invalid "case-colliding sibling paths are forbidden").
Proof. vm_compute. reflexivity. Qed.
(** A directory that is its own ancestor. *)
Example directory_cycle_refused :
  validate_manifest ascii_upper
    (mkManifest 2 9 4 65536 [mkMDirectory None []; mkMDirectory (Some 2) (chars "a"); mkMDirectory (Some 1) (chars "b")] [] [] [] []) =
  Err (manifest_invalid "directory parent graph contains a cycle").
Proof. vm_compute. reflexivity. Qed.
(** The same page listed for two files counts once. *)
Example sample_summary : summary ascii_upper sample_manifest = Ok (mkSummary 74096 2 4096 70000).
Proof. vm_compute. reflexivity. Qed.

Lemma manifest_validation_sound_witness : exists root, directories_wf ascii_upper sample_manifest root /\ files_wf ascii_upper sample_manifest.
Proof.
  destruct (manifest_validation_sound ascii_upper sample_manifest) as [H _]; [|destruct H as (root & ? & ? & _); [vm_compute; reflexivity|eauto]].
  unfold manifest_typed, location_typed, in_u64, in_u32, is_str; cbn. split_and!; try lia; repeat constructor; try lia; try done.
Defined.
