(* ===== verification/IndexNames.v ===== *)
(** * Name order of the mount index

    [mirage-index/src/name.rs], with the parts of [str] it uses: decoding of
    UTF-8 ([str::from_utf8]), [char]s as UTF-16, splitting of paths.

    Both builds of [compare_ordinal_ignore_case] are here.  The portable one
    compares the bytes of the uppercase text; the Windows one calls
    [CompareStringOrdinal], a parameter whose documented behaviour (a binary
    comparison of the UTF-16 units through the operating system's uppercase
    table) is a hypothesis of its instance.  What the reader relies on is the
    class [NameOrderLaws]: the comparison is the lexicographic comparison of
    some key.  Each build gives an instance. *)
From S2P Require Export Manifest.

(** ** Lexicographic comparison ([Iterator::cmp]) *)
Fixpoint lex_compare (l r : list Z) : comparison :=
  match l, r with
  | [], [] => Eq
  | [], _ :: _ => Lt
  | _ :: _, [] => Gt
  | a :: l, b :: r => match a ?= b with Eq => lex_compare l r | c => c end
  end.

Lemma lex_compare_eq (l r : list Z) : lex_compare l r = Eq <-> l = r.
Proof.
  revert r. induction l as [|a l IH]; intros [|b r]; simpl; try done.
  destruct (Z.compare_spec a b); [subst|split; [done|intros [= ->]; lia]..].
  rewrite IH. split; [by intros ->|by intros [= ->]].
Qed.
Lemma lex_compare_refl (l : list Z) : lex_compare l l = Eq.
Proof. by apply lex_compare_eq. Qed.
Lemma lex_compare_antisym (l r : list Z) : lex_compare r l = CompOpp (lex_compare l r).
Proof.
  revert r. induction l as [|a l IH]; intros [|b r]; simpl; try done.
  rewrite (Z.compare_antisym a b). destruct (a ?= b); simpl; auto.
Qed.
Lemma lex_compare_trans (l m r : list Z) : lex_compare l m = Lt -> lex_compare m r = Lt -> lex_compare l r = Lt.
Proof.
  revert m r. induction l as [|a l IH]; intros [|b m] [|c r]; simpl; try done.
  destruct (Z.compare_spec a b) as [->| |]; [|intros _|done].
  - destruct (b ?= c); [eauto|done..].
  - destruct (Z.compare_spec b c) as [->| |]; [|intros _|done].
    + by rewrite (proj2 (Z.compare_lt_iff a c)).
    + by rewrite (proj2 (Z.compare_lt_iff a c)) by lia.
Qed.
Lemma lex_compare_lt_le (l m r : list Z) : lex_compare l m = Lt -> lex_compare m r <> Gt -> lex_compare l r = Lt.
Proof. intros H1. destruct (lex_compare m r) eqn:E; [apply lex_compare_eq in E as <-; done| |done]. intros _. by eapply lex_compare_trans. Qed.
Lemma lex_compare_le_lt (l m r : list Z) : lex_compare l m <> Gt -> lex_compare m r = Lt -> lex_compare l r = Lt.
Proof. intros H1 H2. destruct (lex_compare l m) eqn:E; [apply lex_compare_eq in E as ->; done| |done]. by eapply lex_compare_trans. Qed.
Lemma lex_compare_gt (l r : list Z) : lex_compare l r = Gt <-> lex_compare r l = Lt.
Proof. rewrite (lex_compare_antisym r l). by destruct (lex_compare r l). Qed.

(** ** Text *)
(** [str::from_utf8]: the characters of a byte string, when it is well formed. *)
Fixpoint from_utf8 (l : list Z) : option (list Z) :=
  match l with
  | [] => Some []
  | a :: l1 =>
      if a <=? 127 then cons a <$> from_utf8 l1
      else match l1 with
      | [] => None
      | b :: l2 =>
          if utf8_in 194 223 a then if utf8_cont b then cons ((a - 192) * 64 + (b - 128)) <$> from_utf8 l2 else None
          else match l2 with
          | [] => None
          | c :: l3 =>
              if utf8_lead3 a b
              then if utf8_cont c then cons ((a - 224) * 4096 + (b - 128) * 64 + (c - 128)) <$> from_utf8 l3 else None
              else match l3 with
              | [] => None
              | d :: l4 =>
                  if utf8_lead4 a b && utf8_cont c && utf8_cont d
                  then cons ((a - 240) * 262144 + (b - 128) * 4096 + (c - 128) * 64 + (d - 128)) <$> from_utf8 l4
                  else None
              end
          end
      end
  end.

Definition is_ascii (s : list Z) : bool := forallb (fun c => c <=? 127) s.
Definition to_ascii_uppercase (b : Z) : Z := if (97 <=? b) && (b <=? 122) then b - 32 else b.
(** [char::encode_utf16] over a string. *)
Definition utf16_char (c : Z) : list Z :=
  if c <=? 65535 then [c] else [55296 + (c - 65536) / 1024; 56320 + (c - 65536) mod 1024].
Definition encode_utf16 (s : list Z) : list Z := concat (map utf16_char s).

Definition is_separator (c : Z) : bool := (c =? 47) || (c =? 92).
Fixpoint trim_start (s : list Z) : list Z :=
  match s with c :: s' => if is_separator c then trim_start s' else s | [] => [] end.
(** [trim_matches] and [split] at the separators. *)
Definition trim_separators (s : list Z) : list Z := reverse (trim_start (reverse (trim_start s))).
Fixpoint split_components (s : list Z) : list (list Z) :=
  match s with
  | [] => [[]]
  | c :: s => if is_separator c then [] :: split_components s
              else match split_components s with w :: ws => (c :: w) :: ws | [] => [[c]] end
  end.

(** ** The comparison *)
Definition i32_max : Z := 2147483647.

(** The build's [compare_ordinal_ignore_case]. *)
Class NameOrder : Set := compare_ordinal_ignore_case : list Z -> list Z -> comparison.

Section name.
Variable upper : Z -> list Z.

Definition ordinal_key (value : list Z) : list Z := to_uppercase upper value.

Definition compare_ascii_ignore_case (left right : list Z) : comparison :=
  lex_compare (map to_ascii_uppercase (utf8_encode left)) (map to_ascii_uppercase (utf8_encode right)).

Definition fallback_compare (left right : list Z) : comparison :=
  lex_compare (utf8_encode (ordinal_key left)) (utf8_encode (ordinal_key right)).

(** [cfg(not(windows))] *)
Definition compare_portable : NameOrder := fun left right =>
  if is_ascii left && is_ascii right then compare_ascii_ignore_case left right else fallback_compare left right.

(** [cfg(windows)]: the call returns 1, 2, 3 for less, equal, greater. *)
Definition compare_windows (CompareStringOrdinal : list Z -> list Z -> Z) : NameOrder := fun left right =>
  if is_ascii left && is_ascii right then compare_ascii_ignore_case left right else
  let left_wide := encode_utf16 left in
  let right_wide := encode_utf16 right in
  if i32_max <? Z.of_nat (length left_wide) then fallback_compare left right else
  if i32_max <? Z.of_nat (length right_wide) then fallback_compare left right else
  match CompareStringOrdinal left_wide right_wide with
  | 1 => Lt | 2 => Eq | 3 => Gt | _ => fallback_compare left right
  end.
End name.

Definition compare_names `{NameOrder} (left right : list Z) : comparison :=
  match compare_ordinal_ignore_case left right with
  | Eq => lex_compare (utf8_encode left) (utf8_encode right)
  | c => c
  end.

Definition lookup_component_ok (component : list Z) : bool :=
  negb (bool_decide (component = []) || bool_decide (component = [46]) || bool_decide (component = [46; 46])
        || (MAX_COMPONENT_BYTES <? str_len component)
        || existsb (fun c => is_separator c || (c =? 0)) component).
(** [name::validate_component]. *)
Definition validate_lookup_component (component : list Z) : result () :=
  fail_if (negb (lookup_component_ok component)) (invalid_argument "lookup path contains an invalid component").

(** ** What the reader relies on *)
Definition short_str (s : list Z) : Prop := is_str s /\ utf16_units s <= i32_max.

Class NameOrderLaws (O : NameOrder) : Type := {
  name_key : list Z -> list Z;
  name_key_spec : forall l r, short_str l -> short_str r ->
    compare_ordinal_ignore_case l r = lex_compare (name_key l) (name_key r)
}.

(** ** Text lemmas *)
Lemma utf8_encode_cons (c : Z) (s : list Z) : utf8_encode (c :: s) = utf8_char c ++ utf8_encode s.
Proof. done. Qed.
Lemma utf8_encode_ascii (s : list Z) : is_ascii s = true -> utf8_encode s = s.
Proof.
  induction s as [|c s IH]; [done|]. cbn [is_ascii forallb]. intros [Hc Hs]%andb_true_iff.
  rewrite utf8_encode_cons, IH by done. unfold utf8_char. by rewrite Hc.
Qed.
Lemma encode_utf16_ascii (s : list Z) : is_ascii s = true -> encode_utf16 s = s.
Proof.
  unfold encode_utf16. induction s as [|c s IH]; [done|]. cbn [is_ascii forallb map concat]. intros [Hc Hs]%andb_true_iff.
  rewrite IH by done. unfold utf16_char. zbool. by rewrite (proj2 (Z.leb_le c 65535)) by lia.
Qed.
Lemma length_encode_utf16 (s : list Z) : Z.of_nat (length (encode_utf16 s)) = utf16_units s.
Proof.
  unfold encode_utf16, utf16_units. induction s as [|c s IH]; [done|]. cbn [map concat]. rewrite length_app, sumZ_cons, Nat2Z.inj_add, IH.
  unfold utf16_char, utf16_len. by destruct (c <=? 65535).
Qed.

Lemma utf8_cont_spec (b : Z) : utf8_cont b = true <-> 128 <= b <= 191.
Proof. unfold utf8_cont, utf8_in. rewrite andb_true_iff, !Z.leb_le. lia. Qed.
Lemma utf8_in_spec (lo hi b : Z) : utf8_in lo hi b = true <-> lo <= b <= hi.
Proof. unfold utf8_in. rewrite andb_true_iff, !Z.leb_le. lia. Qed.

(** Decoding one character from the front. *)
Lemma from_utf8_char (c : Z) (l : list Z) : is_char c = true -> from_utf8 (utf8_char c ++ l) = cons c <$> from_utf8 l.
Proof.
  intros [Hc Hs]%is_char_spec. unfold utf8_char.
  destruct (Z.leb_spec c 127); [cbn [app from_utf8]; by rewrite (proj2 (Z.leb_le c 127))|].
  destruct (Z.leb_spec c 2047).
  { cbn [app from_utf8]. rewrite (proj2 (Z.leb_gt _ 127)) by div_eqs.
    replace (utf8_in 194 223 (192 + c / 64)) with true by (symmetry; in_range). rewrite utf8_cont_mod.
    do 2 f_equal. div_eqs. }
  destruct (Z.leb_spec c 65535).
  { cbn [app from_utf8]. rewrite (proj2 (Z.leb_gt _ 127)) by div_eqs.
    replace (utf8_in 194 223 (224 + c / 4096)) with false by (symmetry; unfold utf8_in; apply andb_false_iff; right; apply Z.leb_gt; div_eqs).
    rewrite lead3_char by lia. rewrite utf8_cont_mod. do 2 f_equal. div_eqs. }
  cbn [app from_utf8]. rewrite (proj2 (Z.leb_gt _ 127)) by div_eqs.
  replace (utf8_in 194 223 (240 + c / 262144)) with false by (symmetry; unfold utf8_in; apply andb_false_iff; right; apply Z.leb_gt; div_eqs).
  replace (utf8_lead3 (240 + c / 262144) (128 + c / 4096 mod 64)) with false.
  - rewrite lead4_char by lia. rewrite !utf8_cont_mod. cbn [andb]. do 2 f_equal. div_eqs.
  - symmetry. unfold utf8_lead3, utf8_in.
    rewrite (proj2 (Z.eqb_neq _ 224)), (proj2 (Z.eqb_neq _ 237)), (proj2 (Z.leb_gt _ 236)), (proj2 (Z.leb_gt _ 239)) by div_eqs.
    by rewrite !andb_false_r.
Qed.
Lemma from_utf8_encode (s : list Z) : is_str s -> from_utf8 (utf8_encode s) = Some s.
Proof. induction 1 as [|c s Hc Hs IH]; [done|]. by rewrite utf8_encode_cons, from_utf8_char, IH. Qed.

(** The character a well-formed sequence spells is encoded by that sequence. *)
Lemma char2_spec (a b : Z) : 194 <= a <= 223 -> 128 <= b <= 191 ->
  let c := (a - 192) * 64 + (b - 128) in is_char c = true /\ utf8_char c = [a; b].
Proof.
  intros Ha Hb c. assert (Hc : 128 <= c <= 2047) by (subst c; lia). split; [apply is_char_spec; lia|].
  unfold utf8_char. rewrite (proj2 (Z.leb_gt c 127)), (proj2 (Z.leb_le c 2047)) by lia. subst c. repeat f_equal; div_eqs.
Qed.
Lemma char3_spec (a b d : Z) : utf8_lead3 a b = true -> 128 <= d <= 191 ->
  let c := (a - 224) * 4096 + (b - 128) * 64 + (d - 128) in is_char c = true /\ utf8_char c = [a; b; d].
Proof.
  intros Hab Hd c. unfold utf8_lead3 in Hab. rewrite !orb_true_iff, !andb_true_iff, !Z.eqb_eq, !utf8_in_spec, !utf8_cont_spec in Hab.
  assert (Hc : 2048 <= c <= 65535 /\ ~ (55296 <= c <= 57343)) by (subst c; lia). split; [apply is_char_spec; lia|].
  unfold utf8_char. rewrite (proj2 (Z.leb_gt c 127)), (proj2 (Z.leb_gt c 2047)), (proj2 (Z.leb_le c 65535)) by lia.
  assert (128 <= b <= 191) by lia. clear Hab Hc. subst c. repeat f_equal; div_eqs.
Qed.
Lemma char4_spec (a b d e : Z) : utf8_lead4 a b = true -> 128 <= d <= 191 -> 128 <= e <= 191 ->
  let c := (a - 240) * 262144 + (b - 128) * 4096 + (d - 128) * 64 + (e - 128) in is_char c = true /\ utf8_char c = [a; b; d; e].
Proof.
  intros Hab Hd He c. unfold utf8_lead4 in Hab. rewrite !orb_true_iff, !andb_true_iff, !Z.eqb_eq, !utf8_in_spec, !utf8_cont_spec in Hab.
  assert (Hc : 65536 <= c <= 1114111) by (subst c; lia). split; [apply is_char_spec; lia|].
  unfold utf8_char. rewrite (proj2 (Z.leb_gt c 127)), (proj2 (Z.leb_gt c 2047)), (proj2 (Z.leb_gt c 65535)) by lia.
  assert (128 <= b <= 191) by lia. clear Hab Hc. subst c. repeat f_equal; div_eqs.
Qed.

Lemma from_utf8_sound_n (n : nat) (l s : list Z) :
  (length l <= n)%nat -> is_bytes l -> from_utf8 l = Some s -> is_str s /\ utf8_encode s = l.
Proof.
  revert l s. induction n as [|n IH]; intros l s Hn Hb.
  { destruct l; [|simpl in Hn; lia]. intros [= <-]. split; [constructor|done]. }
  assert (Hstep : forall (l0 : list Z) (c : Z) (w : list Z), is_char c = true -> utf8_char c = w -> (length l0 <= n)%nat -> is_bytes l0 ->
    cons c <$> from_utf8 l0 = Some s -> is_str s /\ utf8_encode s = w ++ l0).
  { intros l0 c w Hc Hw Hl Hb0. destruct (from_utf8 l0) as [s0|] eqn:E; [|done]. intros [= <-].
    destruct (IH l0 s0 Hl Hb0 E) as [Hs He]. split; [by constructor|]. by rewrite utf8_encode_cons, Hw, He. }
  destruct l as [|a l1]; [intros [= <-]; split; [constructor|done]|]. cbn [from_utf8]. simpl in Hn. apply Forall_cons in Hb as [Ha Hb].
  unfold is_byte in Ha. zbool. destruct (Z.leb_spec a 127) as [H127|H127].
  { apply (Hstep l1 a [a]); [apply is_char_spec; lia| |lia|done]. unfold utf8_char. by rewrite (proj2 (Z.leb_le a 127)). }
  destruct l1 as [|b l2]; [done|]. simpl in Hn. apply Forall_cons in Hb as [_ Hb].
  destruct (utf8_in 194 223 a) eqn:Ea.
  { destruct (utf8_cont b) eqn:Eb; [|done]. apply utf8_in_spec in Ea. apply utf8_cont_spec in Eb.
    destruct (char2_spec a b Ea Eb). by apply (Hstep l2 _ [a; b]); [| |lia|]. }
  destruct l2 as [|c l3]; [done|]. simpl in Hn. apply Forall_cons in Hb as [_ Hb]. destruct (utf8_lead3 a b) eqn:E3.
  { destruct (utf8_cont c) eqn:Ec; [|done]. apply utf8_cont_spec in Ec.
    destruct (char3_spec a b c E3 Ec). by apply (Hstep l3 _ [a; b; c]); [| |lia|]. }
  destruct l3 as [|d l4]; [done|]. simpl in Hn. apply Forall_cons in Hb as [_ Hb].
  destruct (utf8_lead4 a b && utf8_cont c && utf8_cont d) eqn:E4; [|done].
  apply andb_true_iff in E4 as [[E4 Ec]%andb_true_iff Ed]. apply utf8_cont_spec in Ec, Ed.
  destruct (char4_spec a b c d E4 Ec Ed). by apply (Hstep l4 _ [a; b; c; d]); [| |lia|].
Qed.
(** [str::from_utf8] accepts exactly the bytes of strings. *)
Lemma from_utf8_spec (l s : list Z) : is_bytes l -> from_utf8 l = Some s <-> is_str s /\ utf8_encode s = l.
Proof. intros Hb. split; [by apply (from_utf8_sound_n (length l))|]. intros [Hs <-]. by apply from_utf8_encode. Qed.

(** ** Both builds satisfy the laws *)
Section laws.
Context (upper : Z -> list Z) (Hascii : forall c, c <= 127 -> upper c = [to_ascii_uppercase c]).

Lemma ordinal_key_ascii (s : list Z) : is_ascii s = true -> ordinal_key upper s = map to_ascii_uppercase s.
Proof using Hascii.
  unfold ordinal_key, to_uppercase. induction s as [|c s IH]; [done|]. cbn [is_ascii forallb map concat]. intros [Hc Hs]%andb_true_iff.
  zbool. by rewrite Hascii, IH.
Qed.
Lemma ascii_upper_map (s : list Z) : is_ascii s = true -> is_ascii (map to_ascii_uppercase s) = true.
Proof.
  unfold is_ascii. induction s as [|c s IH]; [done|]. cbn [forallb map]. intros [Hc Hs]%andb_true_iff. apply andb_true_iff. split; [|auto].
  zbool. apply Z.leb_le. unfold to_ascii_uppercase. destruct (_ && _); lia.
Qed.

#[export] Instance portable_laws : NameOrderLaws (compare_portable upper).
Proof using Hascii.
  exists (fun s => utf8_encode (ordinal_key upper s)). intros l r _ _. unfold compare_ordinal_ignore_case, compare_portable.
  destruct (is_ascii l && is_ascii r) eqn:E; [|done]. apply andb_true_iff in E as [El Er]. unfold compare_ascii_ignore_case.
  by rewrite !ordinal_key_ascii, !utf8_encode_ascii by auto using ascii_upper_map.
Defined.

Context (CompareStringOrdinal : list Z -> list Z -> Z) (os_upper : Z -> Z).
Context (Hos : forall c, c <= 127 -> os_upper c = to_ascii_uppercase c).
Context (Hcso : forall l r, CompareStringOrdinal l r =
  match lex_compare (map os_upper l) (map os_upper r) with Lt => 1 | Eq => 2 | Gt => 3 end).

#[export] Instance windows_laws : NameOrderLaws (compare_windows upper CompareStringOrdinal).
Proof using Hos Hcso.
  exists (fun s => map os_upper (encode_utf16 s)). intros l r [_ Hl] [_ Hr]. unfold compare_ordinal_ignore_case, compare_windows.
  destruct (is_ascii l && is_ascii r) eqn:E.
  - apply andb_true_iff in E as [El Er]. unfold compare_ascii_ignore_case. rewrite !encode_utf16_ascii, !utf8_encode_ascii by done.
    assert (Hm : forall s, is_ascii s = true -> map os_upper s = map to_ascii_uppercase s).
    { intros s Hs. apply map_ext_in. intros c Hc. apply Hos. apply (proj1 (forallb_forall _ _) Hs) in Hc. by zbool. }
    by rewrite !Hm.
  - rewrite !length_encode_utf16. rewrite !(proj2 (Z.ltb_ge _ _)) by done. rewrite Hcso. by destruct (lex_compare _ _).
Defined.
End laws.

(** ** The order of the names *)
Section order.
Context {Ord : NameOrder} {L : NameOrderLaws Ord}.

Lemma compare_names_key (l r : list Z) : short_str l -> short_str r ->
  compare_names l r = match lex_compare (name_key l) (name_key r) with Eq => lex_compare (utf8_encode l) (utf8_encode r) | c => c end.
Proof. intros Hl Hr. unfold compare_names. by rewrite name_key_spec. Qed.
Lemma compare_ordinal_eq (l r : list Z) : short_str l -> short_str r ->
  compare_ordinal_ignore_case l r = Eq <-> name_key l = name_key r.
Proof. intros Hl Hr. by rewrite name_key_spec, lex_compare_eq. Qed.
Lemma compare_names_eq (l r : list Z) : short_str l -> short_str r -> compare_names l r = Eq <-> l = r.
Proof.
  intros Hl Hr. rewrite compare_names_key by done. destruct (lex_compare (name_key l) (name_key r)) eqn:E.
  - rewrite lex_compare_eq. split; [apply utf8_encode_inj; [apply Hl|apply Hr]|by intros ->].
  - split; [done|]. intros ->. by rewrite lex_compare_refl in E.
  - split; [done|]. intros ->. by rewrite lex_compare_refl in E.
Qed.
Lemma compare_names_antisym (l r : list Z) : short_str l -> short_str r -> compare_names r l = CompOpp (compare_names l r).
Proof.
  intros Hl Hr. rewrite !compare_names_key by done. rewrite (lex_compare_antisym (name_key l) (name_key r)).
  destruct (lex_compare (name_key l) (name_key r)); simpl; [apply lex_compare_antisym|done..].
Qed.
Lemma compare_names_trans (l m r : list Z) : short_str l -> short_str m -> short_str r ->
  compare_names l m = Lt -> compare_names m r = Lt -> compare_names l r = Lt.
Proof.
  intros Hl Hm Hr. rewrite !compare_names_key by done.
  destruct (lex_compare (name_key l) (name_key m)) eqn:E1; [apply lex_compare_eq in E1 as ->| |done].
  - destruct (lex_compare (name_key m) (name_key r)); [apply lex_compare_trans|done..].
  - intros _. destruct (lex_compare (name_key m) (name_key r)) eqn:E2; [apply lex_compare_eq in E2 as <-; by rewrite E1| |done].
    intros _. by rewrite (lex_compare_trans _ _ _ E1 E2).
Qed.
Lemma compare_names_lt_key (l r : list Z) : short_str l -> short_str r ->
  compare_names l r = Lt -> lex_compare (name_key l) (name_key r) <> Gt.
Proof. intros Hl Hr. rewrite compare_names_key by done. by destruct (lex_compare _ _). Qed.
End order.
