(* ===== verification/IndexFormat.v ===== *)
(** * Mount index format

    [mirage-index/src]: [checked_slice.rs], [format.rs], [record.rs] and
    [header.rs].  A record is written into a zeroed buffer of its width, so its
    encoding is the concatenation of its fields in offset order with zeros in
    the gaps.  BLAKE3 is a parameter; identifiers and hashes are the integers
    of their bytes.

    Proved: each of the five record codecs and the header codec is exact. *)
From S2P Require Export IndexNames.

(** ** Checked slices *)
Definition bytes_at (bytes : list Z) (offset length_ : Z) : result (list Z) :=
  end_ ← ok_or (manifest_invalid "index slice overflows address space") (checked_add offset length_);
  if end_ <=? Z.of_nat (length bytes) then Ok (get (Z.to_nat offset) (Z.to_nat length_) bytes)
  else Err (manifest_invalid "index slice lies outside file").

Definition array_at (n : nat) (bytes : list Z) (offset : nat) : result (list Z) :=
  end_ ← ok_or (manifest_invalid "index field offset overflows") (checked_add (Z.of_nat offset) (Z.of_nat n));
  if end_ <=? Z.of_nat (length bytes) then Ok (get offset n bytes) else Err (manifest_invalid "index field is truncated").

Definition ix_read_u32 (bytes : list Z) (offset : nat) : result Z := l ← array_at 4 bytes offset; Ok (from_le l).
Definition ix_read_u64 (bytes : list Z) (offset : nat) : result Z := l ← array_at 8 bytes offset; Ok (from_le l).

(** [write_bytes]: the slice is replaced in place. *)
Definition write_bytes (bytes : list Z) (offset : nat) (value : list Z) : result (list Z) :=
  end_ ← ok_or (internal_invariant "index write offset overflows") (checked_add (Z.of_nat offset) (Z.of_nat (length value)));
  if end_ <=? Z.of_nat (length bytes)
  then Ok (firstn offset bytes ++ value ++ skipn (offset + length value) bytes)
  else Err (internal_invariant "index write exceeds buffer").

(** ** Constants and sections *)
Definition INDEX_MAGIC : list Z := chars "MIRIDX02".
Definition INDEX_FORMAT_VERSION : Z := 2.
Definition HEADER_SIZE : nat := 320.
Definition HEADER_ALIGNMENT : Z := 64.
Definition SECTION_DIRECTORY_OFFSET : nat := 128.
Definition SECTION_ENTRY_SIZE : nat := 32.
Definition SECTION_COUNT : nat := 6.
Definition INDEX_HASH_OFFSET : nat := 88.
Definition INDEX_HASH_LENGTH : nat := 32.
Definition DIRECTORY_RECORD_SIZE : Z := 56.
Definition FILE_RECORD_SIZE : Z := 64.
Definition EXTENT_RECORD_SIZE : Z := 32.
Definition PAGE_RECORD_SIZE : Z := 48.
Definition REMOTE_LOCATION_RECORD_SIZE : Z := 104.
Definition FORMAT_DESCRIPTOR : list Z :=
  chars "MirageSSD/MIRIDX02/le/header320/sections:string1,dir56,file64,extent32,page48,remote104/hash-zeroed-v2".

Inductive SectionKind : Set := Strings | Directories | Files | Extents | Pages | RemoteLocations.
#[export] Instance SectionKind_eq_dec : EqDecision SectionKind.
Proof. solve_decision. Defined.
Definition SectionKind_ALL : list SectionKind := [Strings; Directories; Files; Extents; Pages; RemoteLocations].
Definition SectionKind_u32 (k : SectionKind) : Z :=
  match k with Strings => 1 | Directories => 2 | Files => 3 | Extents => 4 | Pages => 5 | RemoteLocations => 6 end.
Definition SectionKind_from_u32 (value : Z) : result SectionKind :=
  match value with
  | 1 => Ok Strings | 2 => Ok Directories | 3 => Ok Files | 4 => Ok Extents | 5 => Ok Pages | 6 => Ok RemoteLocations
  | _ => Err (manifest_invalid "index contains an unknown section kind")
  end.
Definition SectionKind_index (k : SectionKind) : nat := Z.to_nat (SectionKind_u32 k - 1).
Definition record_size (k : SectionKind) : Z :=
  match k with
  | Strings => 1 | Directories => DIRECTORY_RECORD_SIZE | Files => FILE_RECORD_SIZE | Extents => EXTENT_RECORD_SIZE
  | Pages => PAGE_RECORD_SIZE | RemoteLocations => REMOTE_LOCATION_RECORD_SIZE
  end.

Record IndexSection : Set := mkSection { sec_kind : SectionKind; sec_offset : Z; sec_length : Z; sec_count : Z }.
#[export] Instance IndexSection_inhabited : Inhabited IndexSection := populate (mkSection Strings 0 0 0).
Definition section_end (s : IndexSection) : result Z :=
  ok_or (manifest_invalid "index section end overflows") (checked_add (sec_offset s) (sec_length s)).

Definition align_up (value alignment : Z) : result Z :=
  if (alignment =? 0) || negb (is_power_of_two alignment) then Err (internal_invariant "index alignment is invalid") else
  adjusted ← ok_or (manifest_invalid "aligned index offset overflows") (checked_add value (alignment - 1));
  Ok (Z.land adjusted (u64_max - (alignment - 1))).

(** ** Records *)
Definition NO_PARENT : Z := u32_max.
Record StringRef : Set := mkStringRef { sr_offset : Z; sr_length : Z }.

Record DirectoryRecord : Set := mkDirectoryRecord {
  dr_parent : Z; dr_name : StringRef; dr_key : StringRef; dr_first_directory : Z; dr_directory_count : Z;
  dr_first_file : Z; dr_file_count : Z; dr_canonical_index : Z
}.

Definition decode_file_class (code : Z) : result FileClass :=
  match code with
  | 0 => Ok NativeExecutable | 1 => Ok NativeLibrary | 2 => Ok NativeConfiguration | 3 => Ok NativeMutable
  | 4 => Ok VirtualAsset | 5 => Ok VirtualContainer
  | _ => Err (manifest_invalid "index file class is invalid")
  end.

Record FileRecord : Set := mkFileRecord {
  fl_parent_directory : Z; fl_class : FileClass; fl_name : StringRef; fl_key : StringRef; fl_logical_size : Z;
  fl_stable_id : Z; fl_extent_start : Z; fl_extent_count : Z; fl_canonical_index : Z
}.
Record ExtentRecord : Set := mkExtentRecord {
  xr_logical_offset : Z; xr_logical_length : Z; xr_page_start : Z; xr_page_count : Z; xr_tail_length : Z
}.
Record PageRecord : Set := mkPageRecord { pr_plaintext_hash : Hash; pr_logical_length : Z; pr_remote_location : Z }.
Record RemoteLocationRecord : Set := mkRemoteLocationRecord {
  rl_backend_id : StringRef; rl_provider_object_id : StringRef; rl_immutable_revision : option StringRef;
  rl_object_length : Z; rl_object_hash : Hash; rl_object_kind : ObjectKind; rl_codec : Codec; rl_pack_offset : Z; rl_encoded_length : Z
}.

Definition object_kind_code (k : ObjectKind) : Z :=
  match k with KRepositoryConfig => 0 | KPack => 1 | KManifest => 2 | KCommit => 3 | KProfile => 4 | KPayload => 5 end.
Definition decode_object_kind (code : Z) : result ObjectKind :=
  match code with
  | 0 => Ok KRepositoryConfig | 1 => Ok KPack | 2 => Ok KManifest | 3 => Ok KCommit | 4 => Ok KProfile | 5 => Ok KPayload
  | _ => Err (manifest_invalid "index object kind is invalid")
  end.
Definition decode_codec (code : Z) : result Codec :=
  match code with
  | 0 => Ok CNone | 1 => Ok CZstd | 2 => Ok CLz4 | _ => Err (manifest_invalid "index codec is invalid")
  end.

Definition exact_width (bytes : list Z) (expected : Z) : result () :=
  fail_if (negb (Z.of_nat (length bytes) =? expected)) (manifest_invalid "mount index record has an invalid width").
Definition require_zero (bytes : list Z) : result () :=
  fail_if (negb (all_zero bytes)) (unsupported_layout "mount index reserved record bytes are nonzero").

Definition DirectoryRecord_encode (r : DirectoryRecord) : list Z :=
  to_le 4 (dr_parent r) ++ zeros 4 ++ to_le 8 (sr_offset (dr_name r)) ++ to_le 4 (sr_length (dr_name r))
  ++ to_le 4 (sr_length (dr_key r)) ++ to_le 8 (sr_offset (dr_key r)) ++ to_le 4 (dr_first_directory r)
  ++ to_le 4 (dr_directory_count r) ++ to_le 4 (dr_first_file r) ++ to_le 4 (dr_file_count r)
  ++ to_le 4 (dr_canonical_index r) ++ zeros 4.
Definition DirectoryRecord_decode (input : list Z) : result DirectoryRecord :=
  _ ← exact_width input DIRECTORY_RECORD_SIZE;
  _ ← require_zero (get 4 4 input);
  _ ← require_zero (get 52 4 input);
  parent ← ix_read_u32 input 0;
  no ← ix_read_u64 input 8;
  nl ← ix_read_u32 input 16;
  ko ← ix_read_u64 input 24;
  kl ← ix_read_u32 input 20;
  fd ← ix_read_u32 input 32;
  dc ← ix_read_u32 input 36;
  ff ← ix_read_u32 input 40;
  fc ← ix_read_u32 input 44;
  ci ← ix_read_u32 input 48;
  Ok (mkDirectoryRecord parent (mkStringRef no nl) (mkStringRef ko kl) fd dc ff fc ci).

Definition FileRecord_encode (r : FileRecord) : list Z :=
  to_le 4 (fl_parent_directory r) ++ [FileClass_code (fl_class r)] ++ zeros 3 ++ to_le 8 (sr_offset (fl_name r))
  ++ to_le 4 (sr_length (fl_name r)) ++ to_le 4 (sr_length (fl_key r)) ++ to_le 8 (sr_offset (fl_key r))
  ++ to_le 8 (fl_logical_size r) ++ to_le 8 (fl_stable_id r) ++ to_le 4 (fl_extent_start r) ++ to_le 4 (fl_extent_count r)
  ++ to_le 4 (fl_canonical_index r) ++ zeros 4.
Definition FileRecord_decode (input : list Z) : result FileRecord :=
  _ ← exact_width input FILE_RECORD_SIZE;
  _ ← require_zero (get 5 3 input);
  _ ← require_zero (get 60 4 input);
  parent ← ix_read_u32 input 0;
  class ← decode_file_class (from_le (get 4 1 input));
  no ← ix_read_u64 input 8;
  nl ← ix_read_u32 input 16;
  ko ← ix_read_u64 input 24;
  kl ← ix_read_u32 input 20;
  size ← ix_read_u64 input 32;
  sid ← ix_read_u64 input 40;
  es ← ix_read_u32 input 48;
  ec ← ix_read_u32 input 52;
  ci ← ix_read_u32 input 56;
  Ok (mkFileRecord parent class (mkStringRef no nl) (mkStringRef ko kl) size sid es ec ci).

Definition ExtentRecord_encode (r : ExtentRecord) : list Z :=
  to_le 8 (xr_logical_offset r) ++ to_le 8 (xr_logical_length r) ++ to_le 4 (xr_page_start r) ++ to_le 4 (xr_page_count r)
  ++ to_le 4 (xr_tail_length r) ++ zeros 4.
Definition ExtentRecord_decode (input : list Z) : result ExtentRecord :=
  _ ← exact_width input EXTENT_RECORD_SIZE;
  _ ← require_zero (get 28 4 input);
  lo ← ix_read_u64 input 0;
  ll ← ix_read_u64 input 8;
  ps ← ix_read_u32 input 16;
  pc ← ix_read_u32 input 20;
  tl ← ix_read_u32 input 24;
  Ok (mkExtentRecord lo ll ps pc tl).

Definition PageRecord_encode (r : PageRecord) : list Z :=
  to_be 32 (pr_plaintext_hash r) ++ to_le 4 (pr_logical_length r) ++ to_le 4 (pr_remote_location r) ++ zeros 8.
Definition PageRecord_decode (input : list Z) : result PageRecord :=
  _ ← exact_width input PAGE_RECORD_SIZE;
  _ ← require_zero (get 40 8 input);
  h ← array_at 32 input 0;
  ll ← ix_read_u32 input 32;
  rl ← ix_read_u32 input 36;
  Ok (mkPageRecord (from_be h) ll rl).

(** The revision of a remote location, at offsets 24 to 40. *)
Definition revision_bytes (o : option StringRef) : list Z :=
  match o with Some v => to_le 8 (sr_offset v) ++ to_le 4 (sr_length v) ++ to_le 4 1 | None => zeros 16 end.
Definition RemoteLocationRecord_encode (r : RemoteLocationRecord) : list Z :=
  to_le 8 (sr_offset (rl_backend_id r)) ++ to_le 4 (sr_length (rl_backend_id r)) ++ to_le 4 (sr_length (rl_provider_object_id r))
  ++ to_le 8 (sr_offset (rl_provider_object_id r))
  ++ revision_bytes (rl_immutable_revision r)
  ++ to_le 8 (rl_object_length r) ++ to_be 32 (rl_object_hash r) ++ [object_kind_code (rl_object_kind r)] ++ [Codec_code (rl_codec r)]
  ++ zeros 6 ++ to_le 8 (rl_pack_offset r) ++ to_le 8 (rl_encoded_length r).
(** The match on the presence flag. *)
Definition read_revision (input : list Z) (present : Z) : result (option StringRef) :=
  if present =? 0 then _ ← require_zero (get 24 12 input); Ok None
  else if present =? 1 then o ← ix_read_u64 input 24; l ← ix_read_u32 input 32; Ok (Some (mkStringRef o l))
  else Err (manifest_invalid "index revision presence flag is invalid").
Definition RemoteLocationRecord_decode (input : list Z) : result RemoteLocationRecord :=
  _ ← exact_width input REMOTE_LOCATION_RECORD_SIZE;
  _ ← require_zero (get 82 6 input);
  revision_present ← ix_read_u32 input 36;
  immutable_revision ← read_revision input revision_present;
  bo ← ix_read_u64 input 0;
  bl ← ix_read_u32 input 8;
  po ← ix_read_u64 input 16;
  pl ← ix_read_u32 input 12;
  ol ← ix_read_u64 input 40;
  oh ← array_at 32 input 48;
  kind_ ← decode_object_kind (from_le (get 80 1 input));
  codec ← decode_codec (from_le (get 81 1 input));
  off ← ix_read_u64 input 88;
  el ← ix_read_u64 input 96;
  Ok (mkRemoteLocationRecord (mkStringRef bo bl) (mkStringRef po pl) immutable_revision ol (from_be oh) kind_ codec off el).

(** ** Header *)
Record IndexHeader : Set := mkIndexHeader {
  ih_repository_id : Z; ih_generation_id : Z; ih_page_size : Z; ih_index_hash : Hash; ih_file_length : Z; ih_sections : list IndexSection
}.
(** [section]: the array is indexed by the kind. *)
Definition header_section (h : IndexHeader) (k : SectionKind) : IndexSection := ih_sections h !!! SectionKind_index k.
Definition with_index_hash (h : IndexHeader) (x : Hash) : IndexHeader :=
  mkIndexHeader (ih_repository_id h) (ih_generation_id h) (ih_page_size h) x (ih_file_length h) (ih_sections h).

(** One round of the loop of [validate_sections]: the span of a section that
    is not empty. *)
Definition check_section (h : IndexHeader) (expected : SectionKind) : result (list (Z * Z)) :=
  let section := header_section h expected in
  if negb (bool_decide (sec_kind section = expected)) then Err (manifest_invalid "mount index section order is invalid") else
  if (sec_offset section <? Z.of_nat HEADER_SIZE) || negb (sec_offset section mod HEADER_ALIGNMENT =? 0)
  then Err (manifest_invalid "mount index section alignment is invalid") else
  expected_length ← ok_or (manifest_invalid "mount index section size overflows")
    (checked_mul (sec_count section) (record_size (sec_kind section)));
  if negb (sec_length section =? expected_length) then Err (manifest_invalid "mount index section length is contradictory") else
  end_ ← section_end section;
  if ih_file_length h <? end_ then Err (manifest_invalid "mount index section exceeds file length") else
  Ok (if sec_length section =? 0 then [] else [(sec_offset section, end_)]).
Fixpoint check_sections (h : IndexHeader) (ks : list SectionKind) : result (list (Z * Z)) :=
  match ks with [] => Ok [] | k :: ks => s ← check_section h k; rest ← check_sections h ks; Ok (s ++ rest) end.
(** The order of pairs, and [windows(2)]. *)
Definition span_le (a b : Z * Z) : bool := (a.1 <? b.1) || ((a.1 =? b.1) && (a.2 <=? b.2)).
Fixpoint spans_overlap (l : list (Z * Z)) : bool :=
  match l with a :: (b :: _) as l' => (b.1 <? a.2) || spans_overlap l' | _ => false end.
Definition validate_sections (h : IndexHeader) : result () :=
  spans ← check_sections h SectionKind_ALL;
  fail_if (spans_overlap (sort_by span_le spans)) (manifest_invalid "mount index sections overlap").

Definition IndexHeader_new (repository_id generation_id page_size : Z) (index_hash : Hash) (file_length : Z) (sections : list IndexSection) : result IndexHeader :=
  let header := mkIndexHeader repository_id generation_id page_size index_hash file_length sections in
  _ ← validate_sections header; Ok header.

(** One entry of the section directory. *)
Definition parse_section (bytes : list Z) (entry_index : nat) (parsed : list (option IndexSection)) : result (list (option IndexSection)) :=
  let base := (SECTION_DIRECTORY_OFFSET + entry_index * SECTION_ENTRY_SIZE)%nat in
  code ← ix_read_u32 bytes base;
  kind_ ← SectionKind_from_u32 code;
  if negb (bool_decide (Some kind_ = SectionKind_ALL !! entry_index))
  then Err (manifest_invalid "mount index section directory is not canonical") else
  width ← ix_read_u32 bytes (base + 4);
  if negb (width =? record_size kind_) then Err (unsupported_layout "mount index record width is unknown") else
  offset ← ix_read_u64 bytes (base + 8);
  len_ ← ix_read_u64 bytes (base + 16);
  count ← ix_read_u64 bytes (base + 24);
  if bool_decide (is_Some (parsed !!! SectionKind_index kind_))
  then Err (manifest_invalid "mount index section kind is duplicated")
  else Ok (<[SectionKind_index kind_ := Some (mkSection kind_ offset len_ count)]> parsed).
Fixpoint parse_directory (bytes : list Z) (indices : list nat) (parsed : list (option IndexSection)) : result (list (option IndexSection)) :=
  match indices with
  | [] => Ok parsed
  | i :: indices => parsed' ← parse_section bytes i parsed; parse_directory bytes indices parsed'
  end.

Section Hashing.
Variable blake3 : list Z -> Z.

Definition format_hash : Hash := blake3 FORMAT_DESCRIPTOR.

Definition IndexHeader_parse (bytes : list Z) : result IndexHeader :=
  if (length bytes <? HEADER_SIZE)%nat then Err (manifest_invalid "mount index header is truncated") else
  if negb (bool_decide (get 0 8 bytes = INDEX_MAGIC)) then Err (unsupported_layout "mount index magic is invalid") else
  version ← ix_read_u32 bytes 8;
  if negb (version =? INDEX_FORMAT_VERSION) then Err (unsupported_layout "mount index version is unsupported") else
  size ← ix_read_u32 bytes 12;
  if negb (size =? Z.of_nat HEADER_SIZE) then Err (unsupported_layout "mount index header size is unsupported") else
  count ← ix_read_u32 bytes 48;
  if negb (count =? Z.of_nat SECTION_COUNT) then Err (manifest_invalid "mount index section count is invalid") else
  flags ← ix_read_u32 bytes 52;
  if negb (flags =? 0) then Err (unsupported_layout "mount index flags are unsupported") else
  fh ← array_at 32 bytes 56;
  if negb (from_be fh =? format_hash) then Err (unsupported_layout "mount index format hash is unknown") else
  file_length ← ix_read_u64 bytes 120;
  if negb (file_length =? Z.of_nat (length bytes)) then Err (manifest_invalid "mount index file length is contradictory") else
  parsed ← parse_directory bytes (seq 0 SECTION_COUNT) (replicate SECTION_COUNT None);
  sections ← ok_or (manifest_invalid "mount index section is missing") (mapM id parsed);
  rid ← array_at 16 bytes 16;
  gid ← ix_read_u64 bytes 32;
  page_size ← ix_read_u64 bytes 40;
  hash ← array_at 32 bytes INDEX_HASH_OFFSET;
  let header := mkIndexHeader (from_be rid) gid page_size (from_be hash) file_length sections in
  _ ← validate_sections header;
  Ok header.

Definition section_entry (s : IndexSection) : list Z :=
  to_le 4 (SectionKind_u32 (sec_kind s)) ++ to_le 4 (record_size (sec_kind s)) ++ to_le 8 (sec_offset s)
  ++ to_le 8 (sec_length s) ++ to_le 8 (sec_count s).
Definition header_bytes (h : IndexHeader) : list Z :=
  INDEX_MAGIC ++ to_le 4 INDEX_FORMAT_VERSION ++ to_le 4 (Z.of_nat HEADER_SIZE) ++ to_be 16 (ih_repository_id h)
  ++ to_le 8 (ih_generation_id h) ++ to_le 8 (ih_page_size h) ++ to_le 4 (Z.of_nat SECTION_COUNT) ++ to_le 4 0
  ++ to_be 32 format_hash ++ to_be 32 (ih_index_hash h) ++ to_le 8 (ih_file_length h) ++ concat (map section_entry (ih_sections h)).
Definition IndexHeader_encode (h : IndexHeader) : result (list Z) := _ ← validate_sections h; Ok (header_bytes h).

(** The hash of the file with its hash field zeroed. *)
Definition compute_index_hash (bytes : list Z) : result Hash :=
  if (length bytes <? INDEX_HASH_OFFSET + INDEX_HASH_LENGTH)%nat then Err (manifest_invalid "mount index hash field is truncated")
  else Ok (blake3 (firstn INDEX_HASH_OFFSET bytes ++ zeros INDEX_HASH_LENGTH ++ skipn (INDEX_HASH_OFFSET + INDEX_HASH_LENGTH) bytes)).
End Hashing.

(** ** Typing of the records *)
Definition sr_typed (s : StringRef) : Prop := in_u64 (sr_offset s) /\ in_u32 (sr_length s).
Definition hash256 (x : Z) : Prop := 0 <= x < 2 ^ 256.
Definition dr_typed (r : DirectoryRecord) : Prop :=
  in_u32 (dr_parent r) /\ sr_typed (dr_name r) /\ sr_typed (dr_key r) /\ in_u32 (dr_first_directory r) /\ in_u32 (dr_directory_count r) /\
  in_u32 (dr_first_file r) /\ in_u32 (dr_file_count r) /\ in_u32 (dr_canonical_index r).
Definition fl_typed (r : FileRecord) : Prop :=
  in_u32 (fl_parent_directory r) /\ sr_typed (fl_name r) /\ sr_typed (fl_key r) /\ in_u64 (fl_logical_size r) /\ in_u64 (fl_stable_id r) /\
  in_u32 (fl_extent_start r) /\ in_u32 (fl_extent_count r) /\ in_u32 (fl_canonical_index r).
Definition xr_typed (r : ExtentRecord) : Prop :=
  in_u64 (xr_logical_offset r) /\ in_u64 (xr_logical_length r) /\ in_u32 (xr_page_start r) /\ in_u32 (xr_page_count r) /\ in_u32 (xr_tail_length r).
Definition pr_typed (r : PageRecord) : Prop :=
  hash256 (pr_plaintext_hash r) /\ in_u32 (pr_logical_length r) /\ in_u32 (pr_remote_location r).
Definition rl_typed (r : RemoteLocationRecord) : Prop :=
  sr_typed (rl_backend_id r) /\ sr_typed (rl_provider_object_id r) /\ opt_ok sr_typed (rl_immutable_revision r) /\
  in_u64 (rl_object_length r) /\ hash256 (rl_object_hash r) /\ in_u64 (rl_pack_offset r) /\ in_u64 (rl_encoded_length r).

(** ** Record codecs *)
Lemma array_at_Ok (n : nat) (bytes : list Z) (off : nat) :
  (off + n <= length bytes)%nat -> Z.of_nat (length bytes) <= u64_max -> array_at n bytes off = Ok (get off n bytes).
Proof.
  intros HL HU. unfold array_at. rewrite checked_add_fits by lia. cbn [ok_or mbind result_bind]. by rewrite (proj2 (Z.leb_le _ _)) by lia.
Qed.
Lemma ix_read_u32_Ok (bytes : list Z) (off : nat) :
  (off + 4 <= length bytes)%nat -> Z.of_nat (length bytes) <= u64_max -> ix_read_u32 bytes off = Ok (from_le (get off 4 bytes)).
Proof. intros. unfold ix_read_u32. by rewrite array_at_Ok. Qed.
Lemma ix_read_u64_Ok (bytes : list Z) (off : nat) :
  (off + 8 <= length bytes)%nat -> Z.of_nat (length bytes) <= u64_max -> ix_read_u64 bytes off = Ok (from_le (get off 8 bytes)).
Proof. intros. unfold ix_read_u64. by rewrite array_at_Ok. Qed.

(** [readx] resolves the field reads of a byte string of known length. *)
Ltac readx :=
  repeat (first [rewrite array_at_Ok by mach | rewrite ix_read_u32_Ok by mach | rewrite ix_read_u64_Ok by mach]; cbn [mbind result_bind]).

Lemma le_u32 (off : nat) (b : list Z) : is_bytes b -> (off + 4 <= length b)%nat -> in_u32 (from_le (get off 4 b)).
Proof. intros Hb HL. pose proof (le_get_bound 4 off b Hb HL) as H. change (256 ^ Z.of_nat 4) with 4294967296 in H. mach. Qed.
Lemma le_u64 (off : nat) (b : list Z) : is_bytes b -> (off + 8 <= length b)%nat -> in_u64 (from_le (get off 8 b)).
Proof. intros Hb HL. pose proof (le_get_bound 8 off b Hb HL) as H. change (256 ^ Z.of_nat 8) with 18446744073709551616 in H. mach. Qed.
Lemma be_hash (off : nat) (b : list Z) : is_bytes b -> (off + 32 <= length b)%nat -> hash256 (from_be (get off 32 b)).
Proof. intros Hb HL. pose proof (be_get_bound 32 off b Hb HL) as H. exact H. Qed.
Lemma le_val_u32 (x : Z) : in_u32 x -> from_le (to_le 4 x) = x.
Proof. intros. apply le_val_le. change (256 ^ Z.of_nat 4) with 4294967296. mach. Qed.
Lemma le_val_u64 (x : Z) : in_u64 x -> from_le (to_le 8 x) = x.
Proof. intros. apply le_val_le. change (256 ^ Z.of_nat 8) with 18446744073709551616. mach. Qed.
Lemma be_val_hash (x : Z) : hash256 x -> from_be (to_be 32 x) = x.
Proof. intros. by apply be_val_be. Qed.

Lemma exact_width_Ok (b : list Z) (n : Z) : exact_width b n = Ok tt <-> Z.of_nat (length b) = n.
Proof. unfold exact_width. destruct (Z.eqb_spec (Z.of_nat (length b)) n); simpl; split; congruence. Qed.
Lemma require_zero_Ok (b : list Z) : require_zero b = Ok tt <-> all_zero b = true.
Proof. unfold require_zero. destruct (all_zero b); simpl; split; congruence. Qed.

(** Opening a successful decoder: the width, then the reserved bytes. *)
Ltac open_record H :=
  apply bind_Ok_inv in H as ([] & HL%exact_width_Ok & H);
  match type of HL with _ = ?n => unfold n in HL end;
  repeat match type of H with
  | (require_zero _ ≫= _) = Ok _ => let E := fresh "Ez" in apply bind_Ok_inv in H as ([] & E%require_zero_Ok & H)
  end; revert H; readx; intros H.
(** [rebuild ws b]: an encoding of what was read is [b], field by field. *)
Ltac rebuild_field := first [reflexivity | apply le_get; (done || lia) | apply be_get; (done || lia) | apply zeros_get; (done || lia)].
Ltac rebuild ws b :=
  etransitivity; [|apply (fields_all ws b); simpl; lia]; cbn [fields concat Nat.add app];
  rewrite ?app_nil_r; repeat (apply (f_equal2 app); [rebuild_field|]); rebuild_field.
Ltac typed_reads := split_and!; first [apply le_u32; (done || lia) | apply le_u64; (done || lia) | apply be_hash; (done || lia) | idtac].
Ltac field_reads := getf; rewrite ?be_val_hash, ?le_val_u32, ?le_val_u64, ?from_le_byte by done; try done.
(** The reserved bytes and the width of an encoding. *)
Lemma exact_width_eq (b : list Z) (n : Z) : Z.of_nat (length b) = n -> exact_width b n = Ok tt.
Proof. by intros ?%exact_width_Ok. Qed.
Lemma require_zero_eq (b : list Z) (n : nat) : b = zeros n -> require_zero b = Ok tt.
Proof. intros ->. apply require_zero_Ok, all_zero_zeros. Qed.

Lemma length_dr (r : DirectoryRecord) : length (DirectoryRecord_encode r) = 56%nat.
Proof. unfold DirectoryRecord_encode. flen. Qed.
Lemma directory_codec (b : list Z) (r : DirectoryRecord) :
  is_bytes b -> DirectoryRecord_decode b = Ok r <-> DirectoryRecord_encode r = b /\ dr_typed r.
Proof.
  intros Hb. unfold DirectoryRecord_decode. split.
  - intros H. open_record H. apply Ok_inj in H as <-. split.
    + unfold DirectoryRecord_encode. cbn [dr_parent dr_name dr_key dr_first_directory dr_directory_count dr_first_file dr_file_count dr_canonical_index sr_offset sr_length].
      rebuild [4; 4; 8; 4; 4; 8; 4; 4; 4; 4; 4; 4]%nat b.
    + unfold dr_typed, sr_typed. cbn. typed_reads.
  - intros [<- (T1 & [T2 T3] & [T4 T5] & T6 & T7 & T8 & T9 & T10)]. pose proof (length_dr r) as HL.
    rewrite exact_width_eq by (rewrite HL; done). cbn [mbind result_bind].
    rewrite (require_zero_eq _ 4), (require_zero_eq _ 4) by (unfold DirectoryRecord_encode; getf; done). cbn [mbind result_bind]. readx.
    clear HL. unfold DirectoryRecord_encode. field_reads. by destruct r as [? [] [] ? ? ? ? ?].
Qed.

Lemma length_fl (r : FileRecord) : length (FileRecord_encode r) = 64%nat.
Proof. unfold FileRecord_encode. flen. Qed.
Lemma decode_file_class_Ok (z : Z) (c : FileClass) : decode_file_class z = Ok c <-> FileClass_code c = z.
Proof. unfold decode_file_class. split; [|by intros <-; destruct c]. repeat case_match; intros E; try discriminate E; by apply Ok_inj in E as <-. Qed.
Lemma decode_object_kind_Ok (z : Z) (c : ObjectKind) : decode_object_kind z = Ok c <-> object_kind_code c = z.
Proof. unfold decode_object_kind. split; [|by intros <-; destruct c]. repeat case_match; intros E; try discriminate E; by apply Ok_inj in E as <-. Qed.
Lemma decode_codec_Ok (z : Z) (c : Codec) : decode_codec z = Ok c <-> Codec_code c = z.
Proof. unfold decode_codec. split; [|by intros <-; destruct c]. repeat case_match; intros E; try discriminate E; by apply Ok_inj in E as <-. Qed.

Lemma file_codec (b : list Z) (r : FileRecord) :
  is_bytes b -> FileRecord_decode b = Ok r <-> FileRecord_encode r = b /\ fl_typed r.
Proof.
  intros Hb. unfold FileRecord_decode. split.
  - intros H. open_record H. apply bind_Ok_inv in H as (c & Hc%decode_file_class_Ok & H). revert H. readx. intros H. apply Ok_inj in H as <-. split.
    + unfold FileRecord_encode. cbn [fl_parent_directory fl_class fl_name fl_key fl_logical_size fl_stable_id fl_extent_start fl_extent_count fl_canonical_index sr_offset sr_length].
      rewrite Hc, <- get_byte by (done || lia). rebuild [4; 1; 3; 8; 4; 4; 8; 8; 8; 4; 4; 4; 4]%nat b.
    + unfold fl_typed, sr_typed. cbn. typed_reads.
  - intros [<- (T1 & [T2 T3] & [T4 T5] & T6 & T7 & T8 & T9 & T10)]. pose proof (length_fl r) as HL.
    rewrite exact_width_eq by (rewrite HL; done). cbn [mbind result_bind].
    rewrite (require_zero_eq (get 5 3 _) 3), (require_zero_eq (get 60 4 _) 4) by (unfold FileRecord_encode; getf; done). cbn [mbind result_bind]. readx.
    rewrite (proj2 (decode_file_class_Ok _ (fl_class r))) by (unfold FileRecord_encode; field_reads). cbn [mbind result_bind]. readx.
    clear HL. unfold FileRecord_encode. field_reads. by destruct r as [? ? [] [] ? ? ? ? ?].
Qed.

Lemma length_xr (r : ExtentRecord) : length (ExtentRecord_encode r) = 32%nat.
Proof. unfold ExtentRecord_encode. flen. Qed.
Lemma extent_codec (b : list Z) (r : ExtentRecord) :
  is_bytes b -> ExtentRecord_decode b = Ok r <-> ExtentRecord_encode r = b /\ xr_typed r.
Proof.
  intros Hb. unfold ExtentRecord_decode. split.
  - intros H. open_record H. apply Ok_inj in H as <-. split.
    + unfold ExtentRecord_encode. cbn [xr_logical_offset xr_logical_length xr_page_start xr_page_count xr_tail_length].
      rebuild [8; 8; 4; 4; 4; 4]%nat b.
    + unfold xr_typed. cbn. typed_reads.
  - intros [<- (T1 & T2 & T3 & T4 & T5)]. pose proof (length_xr r) as HL.
    rewrite exact_width_eq by (rewrite HL; done). cbn [mbind result_bind].
    rewrite (require_zero_eq _ 4) by (unfold ExtentRecord_encode; getf; done). cbn [mbind result_bind]. readx.
    clear HL. unfold ExtentRecord_encode. field_reads. by destruct r.
Qed.

Lemma length_pr (r : PageRecord) : length (PageRecord_encode r) = 48%nat.
Proof. unfold PageRecord_encode. flen. Qed.
Lemma page_codec (b : list Z) (r : PageRecord) :
  is_bytes b -> PageRecord_decode b = Ok r <-> PageRecord_encode r = b /\ pr_typed r.
Proof.
  intros Hb. unfold PageRecord_decode. split.
  - intros H. open_record H. apply Ok_inj in H as <-. split.
    + unfold PageRecord_encode. cbn [pr_plaintext_hash pr_logical_length pr_remote_location]. rebuild [32; 4; 4; 8]%nat b.
    + unfold pr_typed. cbn. typed_reads.
  - intros [<- (T1 & T2 & T3)]. pose proof (length_pr r) as HL.
    rewrite exact_width_eq by (rewrite HL; done). cbn [mbind result_bind].
    rewrite (require_zero_eq _ 8) by (unfold PageRecord_encode; getf; done). cbn [mbind result_bind]. readx.
    clear HL. unfold PageRecord_encode. field_reads. by destruct r.
Qed.

Lemma length_revision (o : option StringRef) : length (revision_bytes o) = 16%nat.
Proof. destruct o; unfold revision_bytes; flen. Qed.
Ltac flen ::= rewrite ?length_app, ?length_le, ?length_be, ?length_zeros, ?length_revision; cbn [length Nat.add Nat.sub]; try lia.
Ltac getf ::=
  repeat (first
    [ rewrite get_app_0 by (flen; reflexivity)
    | rewrite get_app_l by flen
    | rewrite get_all by (flen; reflexivity)
    | rewrite get_app_r by flen; rewrite ?length_le, ?length_be, ?length_zeros, ?length_revision; cbn [length Nat.sub] ]).
Lemma length_rl (r : RemoteLocationRecord) : length (RemoteLocationRecord_encode r) = 104%nat.
Proof. unfold RemoteLocationRecord_encode. destruct (rl_immutable_revision r); flen. Qed.

Lemma read_revision_Ok (b : list Z) (o : option StringRef) : is_bytes b -> length b = 104%nat ->
  read_revision b (from_le (get 36 4 b)) = Ok o <-> get 24 16 b = revision_bytes o /\ opt_ok sr_typed o.
Proof.
  intros Hb HL. unfold read_revision. readx. 
  assert (Hf : get 24 16 b = get 24 8 b ++ get 32 4 b ++ get 36 4 b).
  { change 16%nat with (Bytes.total [8; 4; 4]%nat). rewrite get_fields by (simpl; lia). cbn [fields concat Nat.add]. by rewrite app_nil_r. }
  assert (Hf' : get 24 12 b = get 24 8 b ++ get 32 4 b).
  { change 12%nat with (Bytes.total [8; 4]%nat). rewrite get_fields by (simpl; lia). cbn [fields concat Nat.add]. by rewrite app_nil_r. }
  rewrite Hf. pose proof (le_get 4 36 b Hb ltac:(lia)) as H36.
  destruct (Z.eqb_spec (from_le (get 36 4 b)) 0) as [E0|N0]; [|destruct (Z.eqb_spec (from_le (get 36 4 b)) 1) as [E1|N1]].
  - rewrite E0 in H36. split.
    + intros ([] & Hz%require_zero_Ok & <-%Ok_inj)%bind_Ok_inv. split; [|done]. rewrite app_assoc, <- Hf'. apply all_zero_spec in Hz.
      rewrite Hz, length_get, <- H36 by lia. done.
    + intros [E _]. destruct o as [v|]; [exfalso|].
      { unfold revision_bytes in E. rewrite !app_assoc in E. apply app_inj_2 in E as [_ E]; [|by rewrite length_le, length_get by lia].
        rewrite E in E0. done. }
      rewrite (require_zero_eq _ 12); [done|]. rewrite Hf'. rewrite app_assoc in E. change (revision_bytes None) with (zeros 12 ++ zeros 4) in E.
      apply app_inj_1 in E as [E _]; [done|]. rewrite length_app, !length_get, length_zeros by lia. done.
  - rewrite E1 in H36. split.
    + intros <-%Ok_inj. cbn [revision_bytes opt_ok sr_offset sr_length]. rewrite !le_get by (done || lia). rewrite H36. split; [done|].
      split; cbn; [apply le_u64|apply le_u32]; (done || lia).
    + intros [E Ht]. destruct o as [v|]; [|exfalso].
      * cbn [revision_bytes] in E. apply app_inj_1 in E as [Ea E]; [|by rewrite length_le, length_get by lia].
        apply app_inj_1 in E as [Eb _]; [|by rewrite length_le, length_get by lia]. destruct Ht as [Ht1 Ht2].
        rewrite Ea, Eb, le_val_u64, le_val_u32 by done. by destruct v.
      * rewrite app_assoc in E. change (revision_bytes None) with (zeros 12 ++ zeros 4) in E.
        apply app_inj_1 in E as [_ E]; [|by rewrite length_app, !length_get, length_zeros by lia]. rewrite E in E1. done.
  - split; [done|]. intros [E _]. exfalso. destruct o as [v|].
    + unfold revision_bytes in E. rewrite !app_assoc in E. apply app_inj_2 in E as [_ E]; [|by rewrite length_le, length_get by lia]. by rewrite E in N1.
    + rewrite app_assoc in E. change (revision_bytes None) with (zeros 12 ++ zeros 4) in E.
      apply app_inj_1 in E as [_ E]; [|by rewrite length_app, !length_get, length_zeros by lia]. by rewrite E in N0.
Qed.
Lemma remote_codec (b : list Z) (r : RemoteLocationRecord) :
  is_bytes b -> RemoteLocationRecord_decode b = Ok r <-> RemoteLocationRecord_encode r = b /\ rl_typed r.
Proof.
  intros Hb. unfold RemoteLocationRecord_decode. split.
  - intros H. open_record H.
    apply bind_Ok_inv in H as (o & [Ho1 Ho2]%read_revision_Ok & H); [|done|lia]. revert H. readx. intros H.
    apply bind_Ok_inv in H as (k & Hk%decode_object_kind_Ok & H). apply bind_Ok_inv in H as (c & Hc%decode_codec_Ok & H).
    revert H. readx. intros H. apply Ok_inj in H as <-. split.
    + unfold RemoteLocationRecord_encode.
      cbn [rl_backend_id rl_provider_object_id rl_immutable_revision rl_object_length rl_object_hash rl_object_kind rl_codec rl_pack_offset rl_encoded_length sr_offset sr_length].
      rewrite Hk, Hc, <- !get_byte, <- Ho1 by (done || lia). rebuild [8; 4; 4; 8; 16; 8; 32; 1; 1; 6; 8; 8]%nat b.
    + unfold rl_typed, sr_typed. cbn. split_and!; first [apply le_u32; (done || lia) | apply le_u64; (done || lia) | apply be_hash; (done || lia) | done].
  - intros [<- ([T1 T2] & [T3 T4] & T5 & T6 & T7 & T8 & T9)]. pose proof (length_rl r) as HL.
    rewrite exact_width_eq by (rewrite HL; done). cbn [mbind result_bind]. pose proof (length_revision (rl_immutable_revision r)) as HR.
    rewrite (require_zero_eq (get 82 6 _) 6) by (unfold RemoteLocationRecord_encode; getf; done). cbn [mbind result_bind]. readx.
    rewrite (proj2 (read_revision_Ok _ (rl_immutable_revision r) Hb HL)) by (split; [unfold RemoteLocationRecord_encode; getf; done|done]).
    cbn [mbind result_bind]. readx.
    rewrite (proj2 (decode_object_kind_Ok _ (rl_object_kind r))) by (unfold RemoteLocationRecord_encode; field_reads). cbn [mbind result_bind].
    rewrite (proj2 (decode_codec_Ok _ (rl_codec r))) by (unfold RemoteLocationRecord_encode; field_reads). cbn [mbind result_bind]. readx.
    clear HL. unfold RemoteLocationRecord_encode. field_reads. by destruct r as [[] [] ? ? ? ? ? ? ?].
Qed.

(** ** Tables of records of one width *)
Lemma get_chunk (w : nat) (ls : list (list Z)) (k o n : nat) (x : list Z) :
  Forall (fun l => length l = w) ls -> ls !! k = Some x -> (o + n <= w)%nat -> get (k * w + o) n (concat ls) = get o n x.
Proof.
  intros HF. revert k. induction HF as [|y ls Hy HF IH]; intros k; [done|]. destruct k as [|k]; simpl; intros Hk Ho.
  - injection Hk as ->. by rewrite get_app_l by lia.
  - rewrite get_app_r by lia. rewrite <- (IH k Hk Ho). f_equal. lia.
Qed.
Lemma length_concat_w {A : Type} (w : nat) (ls : list (list A)) : Forall (fun l => length l = w) ls -> length (concat ls) = (length ls * w)%nat.
Proof. induction 1 as [|y ls Hy HF IH]; [done|]. simpl. rewrite length_app. lia. Qed.

(** ** Header codec *)
Definition sec_typed (s : IndexSection) : Prop := in_u64 (sec_offset s) /\ in_u64 (sec_length s) /\ in_u64 (sec_count s).
Definition header_typed (h : IndexHeader) : Prop :=
  0 <= ih_repository_id h < 2 ^ 128 /\ in_u64 (ih_generation_id h) /\ in_u64 (ih_page_size h) /\ hash256 (ih_index_hash h) /\
  in_u64 (ih_file_length h) /\ length (ih_sections h) = 6%nat /\ Forall sec_typed (ih_sections h).

Definition sec_at (b : list Z) (i : nat) (k : SectionKind) : IndexSection :=
  let base := (128 + i * 32)%nat in
  mkSection k (from_le (get (base + 8) 8 b)) (from_le (get (base + 16) 8 b)) (from_le (get (base + 24) 8 b)).

Lemma SectionKind_from_u32_Ok (z : Z) (k : SectionKind) : SectionKind_from_u32 z = Ok k <-> z = SectionKind_u32 k.
Proof. unfold SectionKind_from_u32. split; [|by intros ->; destruct k]. repeat case_match; intros E; try discriminate E; by apply Ok_inj in E as <-. Qed.
Lemma length_section_entry (s : IndexSection) : length (section_entry s) = 32%nat.
Proof. unfold section_entry. flen. Qed.
Lemma record_size_u32 (k : SectionKind) : in_u32 (record_size k).
Proof. by destruct k. Qed.
Lemma SectionKind_u32_u32 (k : SectionKind) : in_u32 (SectionKind_u32 k).
Proof. by destruct k. Qed.

Lemma parse_section_Ok (b : list Z) (i : nat) (k : SectionKind) (parsed p' : list (option IndexSection)) :
  is_bytes b -> Z.of_nat (length b) <= u64_max -> (320 <= length b)%nat -> SectionKind_ALL !! i = Some k -> parsed !!! i = None ->
  parse_section b i parsed = Ok p' <->
  from_le (get (128 + i * 32) 4 b) = SectionKind_u32 k /\ from_le (get (128 + i * 32 + 4) 4 b) = record_size k /\
  p' = <[i := Some (sec_at b i k)]> parsed.
Proof.
  intros Hb HU HL Hk Hn. assert (Hi : (i < 6)%nat) by (apply lookup_lt_Some in Hk; exact Hk).
  assert (Hki : SectionKind_index k = i).
  { clear -Hk. do 6 (destruct i as [|i]; [by injection Hk as <-|]). done. }
  unfold parse_section, SECTION_DIRECTORY_OFFSET, SECTION_ENTRY_SIZE. rewrite Hk. readx. split.
  - intros H. apply bind_Ok_inv in H as (k' & Hk'%SectionKind_from_u32_Ok & H). case_bool_decide as E; [|done]. injection E as ->. cbn [negb] in H.
    destruct (Z.eqb_spec (from_le (get (128 + i * 32 + 4) 4 b)) (record_size k)) as [Ew|]; [|done]. cbn [negb] in H.
    rewrite Hki, Hn in H. rewrite bool_decide_eq_false_2 in H by (by intros [? ?]). by apply Ok_inj in H as <-.
  - intros (Hc & Hw & ->). rewrite (proj2 (SectionKind_from_u32_Ok _ k) Hc). cbn [mbind result_bind]. rewrite bool_decide_eq_true_2 by done.
    cbn [negb]. rewrite Hw, Z.eqb_refl. cbn [negb]. rewrite Hki, Hn. by rewrite bool_decide_eq_false_2 by (by intros [? ?]).
Qed.

(** The six entries, in their order. *)
Definition entries_ok (b : list Z) (i : nat) (ks : list SectionKind) : Prop :=
  forall j k, ks !! j = Some k ->
    from_le (get (128 + (i + j) * 32) 4 b) = SectionKind_u32 k /\ from_le (get (128 + (i + j) * 32 + 4) 4 b) = record_size k.

Lemma parse_directory_Ok (b : list Z) (ks : list SectionKind) (done_ : list SectionKind) (parsed p' : list (option IndexSection)) :
  is_bytes b -> Z.of_nat (length b) <= u64_max -> (320 <= length b)%nat -> SectionKind_ALL = done_ ++ ks ->
  parsed = imap (fun i k => Some (sec_at b i k)) done_ ++ replicate (length ks) None ->
  parse_directory b (seq (length done_) (length ks)) parsed = Ok p' <->
  entries_ok b (length done_) ks /\ p' = imap (fun i k => Some (sec_at b i k)) SectionKind_ALL.
Proof.
  intros Hb HU HL. revert done_ parsed. induction ks as [|k ks IH]; intros done_ parsed Hall Hp; cbn [seq length parse_directory].
  - rewrite app_nil_r in Hall. subst done_. cbn [replicate length] in Hp. rewrite app_nil_r in Hp. subst parsed. split.
    + intros <-%Ok_inj. split; [|done]. by intros j k.
    + by intros [_ ->].
  - assert (Hk : SectionKind_ALL !! length done_ = Some k) by (rewrite Hall; apply list_lookup_middle; done).
    assert (Hn : parsed !!! length done_ = None).
    { subst parsed. apply list_lookup_total_correct. rewrite lookup_app_r by (by rewrite length_imap). by rewrite length_imap, Nat.sub_diag. }
    set (p1 := <[length done_ := Some (sec_at b (length done_) k)]> parsed).
    assert (Hp1 : p1 = imap (fun i k => Some (sec_at b i k)) (done_ ++ [k]) ++ replicate (length ks) None).
    { subst p1 parsed. rewrite insert_app_r_alt by (by rewrite length_imap). rewrite length_imap, Nat.sub_diag. cbn [length replicate].
      rewrite imap_app, <- app_assoc. unfold imap, compose. cbn. by rewrite Nat.add_0_r. }
    specialize (IH (done_ ++ [k]) p1). rewrite <- app_assoc in IH. specialize (IH Hall Hp1). rewrite length_app in IH. cbn [length] in IH.
    rewrite Nat.add_1_r in IH. split.
    + intros (q & Hq & H)%bind_Ok_inv. apply (parse_section_Ok b (length done_) k) in Hq as (H1 & H2 & ->); [|done..].
      apply IH in H as [He ->]. split; [|done]. intros [|j] k' Hj; [injection Hj as <-; by rewrite Nat.add_0_r|].
      specialize (He j k' Hj). by rewrite Nat.add_succ_r.
    + intros [He ->]. pose proof (He 0%nat k eq_refl) as [H1 H2]. rewrite Nat.add_0_r in H1, H2.
      rewrite (proj2 (parse_section_Ok b (length done_) k parsed p1 Hb HU HL Hk Hn)) by (by split_and!). cbn [mbind result_bind].
      apply IH. split; [|done]. intros j k' Hj. specialize (He (S j) k' Hj). by rewrite Nat.add_succ_r in He.
Qed.

Lemma le_of (n off : nat) (b : list Z) (x : Z) :
  is_bytes b -> (off + n <= length b)%nat -> from_le (get off n b) = x -> to_le n x = get off n b.
Proof. intros Hb HL <-. by apply le_get. Qed.
Lemma be_of (n off : nat) (b : list Z) (x : Z) :
  is_bytes b -> (off + n <= length b)%nat -> from_be (get off n b) = x -> to_be n x = get off n b.
Proof. intros Hb HL <-. by apply be_get. Qed.
Lemma check_section_kind (h : IndexHeader) (k : SectionKind) (s : list (Z * Z)) :
  check_section h k = Ok s -> sec_kind (header_section h k) = k.
Proof. unfold check_section. by case_bool_decide. Qed.
Lemma check_sections_kinds (h : IndexHeader) (ks : list SectionKind) (s : list (Z * Z)) :
  check_sections h ks = Ok s -> Forall (fun k => sec_kind (header_section h k) = k) ks.
Proof.
  revert s. induction ks as [|k ks IH]; intros s; cbn [check_sections]; [constructor|].
  intros (s1 & H1%check_section_kind & (s2 & H2 & _)%bind_Ok_inv)%bind_Ok_inv. constructor; [done|by eapply IH].
Qed.
Lemma validate_kinds (h : IndexHeader) :
  length (ih_sections h) = 6%nat -> validate_sections h = Ok tt -> map sec_kind (ih_sections h) = SectionKind_ALL.
Proof.
  intros HL (s & Hs%check_sections_kinds & _)%bind_Ok_inv. unfold header_section in Hs. destruct (ih_sections h) as [|s0 [|s1 [|s2 [|s3 [|s4 [|s5 [|]]]]]]]; try done.
  unfold SectionKind_ALL in Hs. rewrite !Forall_cons in Hs. destruct Hs as (H0 & H1 & H2 & H3 & H4 & H5 & _).
  cbn in H0, H1, H2, H3, H4, H5. unfold SectionKind_ALL. cbn [map]. by repeat f_equal.
Qed.

Section HeaderCodec.
Context (blake3 : list Z -> Z) (Hblake : forall l, hash256 (blake3 l)).

Definition header_prefix (h : IndexHeader) : list Z :=
  INDEX_MAGIC ++ to_le 4 INDEX_FORMAT_VERSION ++ to_le 4 (Z.of_nat HEADER_SIZE) ++ to_be 16 (ih_repository_id h)
  ++ to_le 8 (ih_generation_id h) ++ to_le 8 (ih_page_size h) ++ to_le 4 (Z.of_nat SECTION_COUNT) ++ to_le 4 0
  ++ to_be 32 (format_hash blake3) ++ to_be 32 (ih_index_hash h) ++ to_le 8 (ih_file_length h).
Lemma header_bytes_eq (h : IndexHeader) : header_bytes blake3 h = header_prefix h ++ concat (map section_entry (ih_sections h)).
Proof. unfold header_bytes, header_prefix. by rewrite <- !app_assoc. Qed.
Lemma INDEX_MAGIC_eq : INDEX_MAGIC = [77; 73; 82; 73; 68; 88; 48; 50].
Proof. reflexivity. Qed.
Lemma length_header_prefix (h : IndexHeader) : length (header_prefix h) = 128%nat.
Proof. unfold header_prefix. rewrite INDEX_MAGIC_eq. flen. Qed.
Lemma entries_width (l : list IndexSection) : Forall (fun l => length l = 32%nat) (map section_entry l).
Proof. apply Forall_map, Forall_true. apply length_section_entry. Qed.
Lemma length_header_bytes (h : IndexHeader) : length (ih_sections h) = 6%nat -> length (header_bytes blake3 h) = 320%nat.
Proof. intros HL. rewrite header_bytes_eq, length_app, length_header_prefix, (length_concat_w 32), length_map, HL by apply entries_width. done. Qed.

Lemma header_entry_get (h : IndexHeader) (rest : list Z) (i o n : nat) (s : IndexSection) :
  ih_sections h !! i = Some s -> (o + n <= 32)%nat ->
  get (128 + i * 32 + o) n (header_bytes blake3 h ++ rest) = get o n (section_entry s).
Proof.
  intros Hs Ho. assert (Hi : (i < length (ih_sections h))%nat) by (by eapply lookup_lt_Some).
  rewrite header_bytes_eq, <- app_assoc, get_app_r by (rewrite length_header_prefix; lia). rewrite length_header_prefix.
  rewrite get_app_l by (rewrite (length_concat_w 32), length_map by apply entries_width; lia).
  replace (128 + i * 32 + o - 128)%nat with (i * 32 + o)%nat by lia. apply get_chunk; [apply entries_width| |done].
  by rewrite list_lookup_fmap, Hs.
Qed.

Lemma section_entry_fields (s : IndexSection) : sec_typed s ->
  let e := section_entry s in
  from_le (get 0 4 e) = SectionKind_u32 (sec_kind s) /\ from_le (get 4 4 e) = record_size (sec_kind s) /\
  from_le (get 8 8 e) = sec_offset s /\ from_le (get 16 8 e) = sec_length s /\ from_le (get 24 8 e) = sec_count s.
Proof.
  intros (T1 & T2 & T3) e. unfold e, section_entry. pose proof (record_size_u32 (sec_kind s)). pose proof (SectionKind_u32_u32 (sec_kind s)).
  split_and!; field_reads.
Qed.

Lemma header_codec_dec (b : list Z) (h : IndexHeader) :
  is_bytes b -> Z.of_nat (length b) <= u64_max -> IndexHeader_parse blake3 b = Ok h ->
  header_typed h /\ ih_file_length h = Z.of_nat (length b) /\ IndexHeader_encode blake3 h = Ok (header_bytes blake3 h) /\
  b = header_bytes blake3 h ++ skipn 320 b.
Proof using Hblake.
  intros Hb HU. unfold IndexHeader_parse, HEADER_SIZE, INDEX_HASH_OFFSET. destruct (Nat.ltb_spec (length b) 320) as [|HL]; [done|].
  case_bool_decide as Hm; [|done]. cbn [negb]. readx.
  destruct (Z.eqb_spec (from_le (get 8 4 b)) INDEX_FORMAT_VERSION) as [Ev|]; [|done]. cbn [negb]. readx.
  destruct (Z.eqb_spec (from_le (get 12 4 b)) (Z.of_nat 320)) as [Es|]; [|done]. cbn [negb]. readx.
  destruct (Z.eqb_spec (from_le (get 48 4 b)) (Z.of_nat SECTION_COUNT)) as [Ec|]; [|done]. cbn [negb]. readx.
  destruct (Z.eqb_spec (from_le (get 52 4 b)) 0) as [Ef|]; [|done]. cbn [negb]. readx.
  destruct (Z.eqb_spec (from_be (get 56 32 b)) (format_hash blake3)) as [Eh|]; [|done]. cbn [negb]. readx.
  destruct (Z.eqb_spec (from_le (get 120 8 b)) (Z.of_nat (length b))) as [El|]; [|done]. cbn [negb].
  intros (p & Hp & H)%bind_Ok_inv. apply (parse_directory_Ok b SectionKind_ALL []) in Hp as [He ->]; [|done..].
  apply bind_Ok_inv in H as (secs & Hsecs%ok_or_Ok_inv & H). cbn in Hsecs. injection Hsecs as <-. revert H. readx. intros ([] & Hv & <-%Ok_inj)%bind_Ok_inv.
  assert (Hee : forall i k, SectionKind_ALL !! i = Some k -> section_entry (sec_at b i k) = concat (fields (128 + i * 32) [4; 4; 8; 8; 8]%nat b)).
  { intros i k Hk. pose proof (lookup_lt_Some _ _ _ Hk) as Hi. change (length SectionKind_ALL) with 6%nat in Hi. destruct (He i k Hk) as [E1 E2].
    unfold section_entry, sec_at. cbn [sec_kind sec_offset sec_length sec_count fields concat]. rewrite app_nil_r.
    rewrite <- !Nat.add_assoc. cbn [Nat.add].
    rewrite (le_of 4 (128 + i * 32) b _ Hb ltac:(lia) E1), (le_of 4 (128 + i * 32 + 4) b _ Hb ltac:(lia) E2), !le_get by (done || lia). by rewrite <- !Nat.add_assoc. }
  split_and!.
  - unfold header_typed. cbn [ih_repository_id ih_generation_id ih_page_size ih_index_hash ih_file_length ih_sections].
    split_and!; first [apply le_u64; (done || lia) | apply be_hash; (done || lia) | done | idtac].
    + pose proof (be_get_bound 16 16 b Hb ltac:(lia)) as B. apply B.
    + pose proof (be_get_bound 16 16 b Hb ltac:(lia)) as B. apply B.
    + repeat constructor; unfold sec_at; cbn [sec_offset sec_length sec_count]; apply le_u64; (done || simpl; lia).
  - done.
  - unfold IndexHeader_encode. rewrite Hv. done.
  - rewrite <- (firstn_skipn 320 b) at 1. f_equal. change (firstn 320 b) with (get 0 (Bytes.total ([8; 4; 4; 16; 8; 8; 4; 4; 32; 32; 8] ++ [4; 4; 8; 8; 8] ++ [4; 4; 8; 8; 8] ++ [4; 4; 8; 8; 8] ++ [4; 4; 8; 8; 8] ++ [4; 4; 8; 8; 8] ++ [4; 4; 8; 8; 8])%nat) b).
    rewrite get_fields by (simpl; lia). rewrite header_bytes_eq. unfold header_prefix, HEADER_SIZE.
    cbn [ih_repository_id ih_generation_id ih_page_size ih_index_hash ih_file_length ih_sections map concat].
    rewrite (Hee 0%nat Strings), (Hee 1%nat Directories), (Hee 2%nat Files), (Hee 3%nat Extents), (Hee 4%nat Pages), (Hee 5%nat RemoteLocations) by done.
    rewrite (le_of 4 8 b _ Hb ltac:(lia) Ev), (le_of 4 12 b _ Hb ltac:(lia) Es), (le_of 4 48 b _ Hb ltac:(lia) Ec), (le_of 4 52 b _ Hb ltac:(lia) Ef),
      (be_of 32 56 b _ Hb ltac:(lia) Eh), !le_get, !be_get, <- Hm by (done || lia).
    cbn [app fields concat Nat.add Nat.mul]. by rewrite ?app_nil_r, <- ?app_assoc.
Qed.

Lemma header_codec_enc (h : IndexHeader) (rest : list Z) :
  is_bytes (header_bytes blake3 h ++ rest) -> Z.of_nat (length (header_bytes blake3 h ++ rest)) <= u64_max -> header_typed h ->
  ih_file_length h = Z.of_nat (length (header_bytes blake3 h ++ rest)) -> validate_sections h = Ok tt ->
  IndexHeader_parse blake3 (header_bytes blake3 h ++ rest) = Ok h.
Proof using Hblake.
  intros Hb HU (T1 & T2 & T3 & T4 & T5 & T6 & T7) Hf Hv. set (b := header_bytes blake3 h ++ rest) in *.
  assert (HL : (320 <= length b)%nat) by (subst b; rewrite length_app, length_header_bytes by done; lia).
  pose proof (Hblake FORMAT_DESCRIPTOR) as Hfh. fold (format_hash blake3) in Hfh.
  assert (Hpre : b = header_prefix h ++ (concat (map section_entry (ih_sections h)) ++ rest)) by (subst b; by rewrite header_bytes_eq, <- app_assoc).
  assert (Hg : get 0 8 b = INDEX_MAGIC /\ from_le (get 8 4 b) = INDEX_FORMAT_VERSION /\ from_le (get 12 4 b) = 320 /\
    from_be (get 16 16 b) = ih_repository_id h /\ from_le (get 32 8 b) = ih_generation_id h /\ from_le (get 40 8 b) = ih_page_size h /\
    from_le (get 48 4 b) = 6 /\ from_le (get 52 4 b) = 0 /\ from_be (get 56 32 b) = format_hash blake3 /\
    from_be (get 88 32 b) = ih_index_hash h /\ from_le (get 120 8 b) = ih_file_length h).
  { rewrite Hpre. pose proof (length_header_prefix h) as HP. rewrite !get_app_l by (rewrite HP; lia). clear - T1 T2 T3 T4 T5 Hfh.
    unfold header_prefix. rewrite INDEX_MAGIC_eq. split_and!; getf; rewrite ?be_val_hash, ?le_val_u32, ?le_val_u64, ?(be_val_be 16) by done; done. }
  destruct Hg as (G1 & G2 & G3 & G4 & G5 & G6 & G7 & G8 & G9 & G10 & G11).
  pose proof (validate_kinds h T6 Hv) as Hk.
  assert (Hsec : forall i k, SectionKind_ALL !! i = Some k -> exists s, ih_sections h !! i = Some s /\ sec_kind s = k /\ sec_typed s).
  { intros i k Hik. rewrite <- Hk, list_lookup_fmap in Hik. destruct (ih_sections h !! i) as [s|] eqn:E; [|done]. injection Hik as <-.
    exists s. split_and!; [done|done|]. by eapply Forall_lookup_1. }
  assert (Hent : forall i k, SectionKind_ALL !! i = Some k -> (from_le (get (128 + i * 32) 4 b) = SectionKind_u32 k /\
     from_le (get (128 + i * 32 + 4) 4 b) = record_size k) /\ ih_sections h !! i = Some (sec_at b i k)).
  { intros i k Hik. destruct (Hsec i k Hik) as (s & Hs & <- & Ht). destruct (section_entry_fields s Ht) as (F1 & F2 & F3 & F4 & F5).
    pose proof (header_entry_get h rest i 0 4 s Hs ltac:(lia)) as E0. rewrite Nat.add_0_r in E0.
    unfold sec_at, b. rewrite E0, !(header_entry_get h rest i _ _ s Hs) by lia. rewrite F1, F2, F3, F4, F5, Hs. by destruct s. }
  unfold IndexHeader_parse, HEADER_SIZE, INDEX_HASH_OFFSET. rewrite (proj2 (Nat.ltb_ge _ _) HL). rewrite bool_decide_eq_true_2 by done. cbn [negb]. readx.
  rewrite G2. cbn [Z.eqb Pos.eqb INDEX_FORMAT_VERSION negb]. readx. rewrite G3. cbn [negb]. readx. rewrite G7. cbn [negb]. readx. rewrite G8. cbn [negb]. readx.
  rewrite G9, Z.eqb_refl. cbn [negb]. readx. rewrite G11, Hf, Z.eqb_refl. cbn [negb].
  assert (Hdir : parse_directory b (seq 0 SECTION_COUNT) (replicate SECTION_COUNT None) = Ok (imap (fun i k => Some (sec_at b i k)) SectionKind_ALL)).
  { apply (parse_directory_Ok b SectionKind_ALL [] _ _ Hb HU HL eq_refl eq_refl). split; [|reflexivity]. intros j k Hj. apply (Hent j k Hj). }
  rewrite Hdir. cbn [mbind result_bind]. assert (Hmap : mapM id (imap (fun i k => Some (sec_at b i k)) SectionKind_ALL) = Some (ih_sections h)).
  2: rewrite Hmap; clear Hmap Hdir.
  - destruct (ih_sections h) as [|s0 [|s1 [|s2 [|s3 [|s4 [|s5 [|]]]]]]] eqn:Es; try done.
    pose proof (proj2 (Hent 0%nat _ eq_refl)) as E0. pose proof (proj2 (Hent 1%nat _ eq_refl)) as E1. pose proof (proj2 (Hent 2%nat _ eq_refl)) as E2.
    pose proof (proj2 (Hent 3%nat _ eq_refl)) as E3. pose proof (proj2 (Hent 4%nat _ eq_refl)) as E4. pose proof (proj2 (Hent 5%nat _ eq_refl)) as E5.
    cbn [lookup list_lookup] in E0, E1, E2, E3, E4, E5. injection E0 as ->. injection E1 as ->. injection E2 as ->. injection E3 as ->. injection E4 as ->. injection E5 as ->.
    reflexivity.
  - cbn [ok_or mbind result_bind]. readx. rewrite G4, G5, G6, G10, <- Hf.
    assert (Hh : mkIndexHeader (ih_repository_id h) (ih_generation_id h) (ih_page_size h) (ih_index_hash h) (ih_file_length h) (ih_sections h) = h) by (clear; by destruct h).
    by rewrite Hh, Hv, !Z.eqb_refl.
Qed.

Lemma encode_header_Ok (h : IndexHeader) (pre : list Z) :
  IndexHeader_encode blake3 h = Ok pre -> validate_sections h = Ok tt /\ pre = header_bytes blake3 h.
Proof. unfold IndexHeader_encode. by intros ([] & -> & <-%Ok_inj)%bind_Ok_inv. Qed.

(** The mount index codecs are exact.  A file parses to a header if and
    only if the header has well-typed fields, states the file's length, passes
    the section checks and the file begins with its 320-byte encoding; a byte
    string decodes to a directory, file, extent, page or remote-location record
    if and only if it is that record's encoding, reserved bytes included. *)
Theorem index_codecs_exact (b : list Z) :
  is_bytes b -> Z.of_nat (length b) <= u64_max ->
  (forall h, IndexHeader_parse blake3 b = Ok h <->
     header_typed h /\ ih_file_length h = Z.of_nat (length b) /\
     exists pre rest, IndexHeader_encode blake3 h = Ok pre /\ length pre = HEADER_SIZE /\ b = pre ++ rest) /\
  (forall r, DirectoryRecord_decode b = Ok r <-> DirectoryRecord_encode r = b /\ dr_typed r) /\
  (forall r, FileRecord_decode b = Ok r <-> FileRecord_encode r = b /\ fl_typed r) /\
  (forall r, ExtentRecord_decode b = Ok r <-> ExtentRecord_encode r = b /\ xr_typed r) /\
  (forall r, PageRecord_decode b = Ok r <-> PageRecord_encode r = b /\ pr_typed r) /\
  (forall r, RemoteLocationRecord_decode b = Ok r <-> RemoteLocationRecord_encode r = b /\ rl_typed r).
Proof using Hblake.
  intros Hb HU. split; [|split_and!; intros r; auto using directory_codec, file_codec, extent_codec, page_codec, remote_codec].
  intros h. split.
  - intros (Ht & Hf & He & Hr)%header_codec_dec; [|done..]. split_and!; [done..|]. exists (header_bytes blake3 h), (skipn 320 b).
    split_and!; [done| |done]. apply length_header_bytes. apply Ht.
  - intros (Ht & Hf & pre & rest & [Hv ->]%encode_header_Ok & _ & ->). by apply header_codec_enc.
Qed.
End HeaderCodec.

(** An index with a root directory and nothing else. *)
Definition sample_header : IndexHeader :=
  mkIndexHeader 7 3 65536 12345 376
    [mkSection Strings 320 0 0; mkSection Directories 320 56 1; mkSection Files 320 0 0; mkSection Extents 320 0 0;
     mkSection Pages 320 0 0; mkSection RemoteLocations 320 0 0].
Definition sample_root : list Z := DirectoryRecord_encode (mkDirectoryRecord NO_PARENT (mkStringRef 0 0) (mkStringRef 0 0) 1 0 0 0 0).
Lemma sum256_hash (l : list Z) : hash256 (sum256 l).
Proof. apply sum256_bound. Qed.
Lemma index_codecs_exact_witness :
  IndexHeader_parse sum256 (header_bytes sum256 sample_header ++ sample_root)
  = Ok sample_header.
Proof.
  apply (proj1 (index_codecs_exact sum256 sum256_hash (header_bytes sum256 sample_header ++ sample_root) ltac:(apply bytes_check; vm_compute; reflexivity) ltac:(vm_compute; discriminate)) sample_header).
  split_and!; [|reflexivity|].
  - unfold header_typed, hash256. cbn. split_and!; try mach; try done. repeat constructor; vm_compute; discriminate.
  - exists (header_bytes sum256 sample_header), sample_root.
    split_and!; vm_compute; reflexivity.
Defined.
