(* ===== verification/IndexReader.v ===== *)
(** * Mount index reader

    [mirage-index/src/reader.rs] and [view.rs].  An opened index is its bytes
    and its parsed header; a view is the ordinal and the decoded record, and the
    accessors that read strings take the index.  The backing (memory map or
    owned buffer) is its bytes.

    Proved here: what an index that passed the whole-file validation looks
    like: every ordinal of a table decodes, names resolve, child ranges
    partition the tables and are sorted, extents and pages tile the files.  The
    queries of [IndexQueries] are verified against this. *)
From S2P Require Export IndexFormat.

Record MountIndex : Set := mkMountIndex { mi_bytes : list Z; mi_header : IndexHeader }.

(** ** Reading records and strings *)
Definition index_count (idx : MountIndex) (k : SectionKind) : Z := sec_count (header_section (mi_header idx) k).

Definition index_string (idx : MountIndex) (reference : StringRef) : result (list Z) :=
  let section := header_section (mi_header idx) Strings in
  relative_end ← ok_or (manifest_invalid "string reference overflows") (checked_add (sr_offset reference) (sr_length reference));
  if sec_length section <? relative_end then Err (manifest_invalid "string reference exceeds string table") else
  absolute ← ok_or (manifest_invalid "string offset overflows") (checked_add (sec_offset section) (sr_offset reference));
  bytes ← bytes_at (mi_bytes idx) absolute (sr_length reference);
  ok_or (manifest_invalid "index string is not valid UTF-8") (from_utf8 bytes).

Definition record_bytes (idx : MountIndex) (k : SectionKind) (index : Z) : result (list Z) :=
  let section := header_section (mi_header idx) k in
  if sec_count section <=? index then Err (invalid_argument "mount index record ordinal is out of bounds") else
  relative ← ok_or (manifest_invalid "record offset overflows") (checked_mul index (record_size k));
  absolute ← ok_or (manifest_invalid "record address overflows") (checked_add (sec_offset section) relative);
  bytes_at (mi_bytes idx) absolute (record_size k).

(** ** Views *)
Record DirectoryView : Set := mkDirectoryView { dv_ordinal : Z; dv_record : DirectoryRecord }.
Record FileView : Set := mkFileView { fv_ordinal : Z; fv_record : FileRecord }.
Record ExtentView : Set := mkExtentView { xv_ordinal : Z; xv_record : ExtentRecord }.
Record PageView : Set := mkPageView { pv_ordinal : Z; pv_record : PageRecord }.
Record RemoteLocationView : Set := mkRemoteLocationView { rv_ordinal : Z; rv_record : RemoteLocationRecord }.

Definition directory_by_index (idx : MountIndex) (index : Z) : result DirectoryView :=
  b ← record_bytes idx Directories index; r ← DirectoryRecord_decode b; Ok (mkDirectoryView index r).
Definition file_by_index (idx : MountIndex) (index : Z) : result FileView :=
  b ← record_bytes idx Files index; r ← FileRecord_decode b; Ok (mkFileView index r).
Definition extent_by_index (idx : MountIndex) (index : Z) : result ExtentView :=
  b ← record_bytes idx Extents index; r ← ExtentRecord_decode b; Ok (mkExtentView index r).
Definition page_by_ordinal (idx : MountIndex) (ordinal : Z) : result PageView :=
  b ← record_bytes idx Pages ordinal; r ← PageRecord_decode b; Ok (mkPageView ordinal r).
Definition remote_location_by_index (idx : MountIndex) (index : Z) : result RemoteLocationView :=
  b ← record_bytes idx RemoteLocations index; r ← RemoteLocationRecord_decode b; Ok (mkRemoteLocationView index r).

Definition dv_name (idx : MountIndex) (v : DirectoryView) : result (list Z) := index_string idx (dr_name (dv_record v)).
Definition dv_key (idx : MountIndex) (v : DirectoryView) : result (list Z) := index_string idx (dr_key (dv_record v)).
Definition dv_first_directory (v : DirectoryView) : Z := dr_first_directory (dv_record v).
Definition dv_directory_count (v : DirectoryView) : Z := dr_directory_count (dv_record v).
Definition dv_first_file (v : DirectoryView) : Z := dr_first_file (dv_record v).
Definition dv_file_count (v : DirectoryView) : Z := dr_file_count (dv_record v).
Definition dv_parent_index (v : DirectoryView) : Z := dr_parent (dv_record v).
Definition fv_name (idx : MountIndex) (v : FileView) : result (list Z) := index_string idx (fl_name (fv_record v)).
Definition fv_key (idx : MountIndex) (v : FileView) : result (list Z) := index_string idx (fl_key (fv_record v)).
Definition fv_extent_count (v : FileView) : Z := fl_extent_count (fv_record v).
Definition fv_logical_size (v : FileView) : Z := fl_logical_size (fv_record v).
Definition fv_parent_index (v : FileView) : Z := fl_parent_directory (fv_record v).
Definition xv_logical_offset (v : ExtentView) : Z := xr_logical_offset (xv_record v).
Definition xv_logical_length (v : ExtentView) : Z := xr_logical_length (xv_record v).
Definition xv_page_count (v : ExtentView) : Z := xr_page_count (xv_record v).
Definition pv_logical_length (v : PageView) : Z := pr_logical_length (pv_record v).

(** [FileView::extent] and [ExtentView::page]. *)
Definition fv_extent (idx : MountIndex) (file : FileView) (relative : Z) : result ExtentView :=
  if fv_extent_count file <=? relative then Err (invalid_argument "file extent ordinal is out of bounds") else
  ordinal ← ok_or (manifest_invalid "file extent ordinal overflows") (checked_add_u32 (fl_extent_start (fv_record file)) relative);
  extent_by_index idx ordinal.
Definition xv_page (idx : MountIndex) (extent : ExtentView) (relative : Z) : result PageView :=
  if xv_page_count extent <=? relative then Err (invalid_argument "extent page ordinal is out of bounds") else
  ordinal ← ok_or (manifest_invalid "extent page ordinal overflows") (checked_add_u32 (xr_page_start (xv_record extent)) relative);
  page_by_ordinal idx ordinal.

Definition rv_backend_id (idx : MountIndex) (v : RemoteLocationView) : result (list Z) := index_string idx (rl_backend_id (rv_record v)).
Definition rv_provider_object_id (idx : MountIndex) (v : RemoteLocationView) : result (list Z) := index_string idx (rl_provider_object_id (rv_record v)).
Definition rv_immutable_revision (idx : MountIndex) (v : RemoteLocationView) : result (option (list Z)) :=
  match rl_immutable_revision (rv_record v) with
  | Some value => s ← index_string idx value; Ok (Some s)
  | None => Ok None
  end.

(** ** Validation of the records *)
Definition u32_try_from (x : Z) (message : string) : result Z := if x <=? u32_max then Ok x else Err (manifest_invalid message).

Definition validate_range (start_ count maximum : Z) (label : string) : result () :=
  end_ ← ok_or (manifest_invalid (label +:+ " overflows")) (checked_add start_ count);
  fail_if (maximum <? end_) (manifest_invalid (label +:+ " exceeds its section")).

(** [first..first.checked_add(count)?] on [u32]. *)
Definition child_range (first count : Z) (message : string) : result (list Z) :=
  _ ← ok_or (manifest_invalid message) (checked_add_u32 first count); Ok (zrange first count).

Section validation.
Context (upper : Z -> list Z) {Ord : NameOrder}.

(** A loop over sibling names in strictly increasing order; the state is the
    previous name. *)
Definition order_step (name_of : Z -> result (list Z)) (message : string) (previous : option (list Z)) (child : Z) : result (option (list Z)) :=
  name ← name_of child;
  match previous with
  | Some value => match compare_names value name with Lt => Ok (Some name) | _ => Err (manifest_invalid message) end
  | None => Ok (Some name)
  end.

Definition directory_name_at (idx : MountIndex) (i : Z) : result (list Z) := v ← directory_by_index idx i; dv_name idx v.
Definition file_name_at (idx : MountIndex) (i : Z) : result (list Z) := v ← file_by_index idx i; fv_name idx v.

(** The merge that looks for a name taken twice; each round moves a cursor, so
    the two counts bound the rounds. *)
Fixpoint collision_loop (idx : MountIndex) (fuel : nat) (directory_cursor directory_end file_cursor file_end : Z) : result () :=
  match fuel with
  | O => Ok ()
  | S fuel =>
      if (directory_cursor <? directory_end) && (file_cursor <? file_end) then
        directory_name ← directory_name_at idx directory_cursor;
        file_name ← file_name_at idx file_cursor;
        match compare_ordinal_ignore_case directory_name file_name with
        | Lt => collision_loop idx fuel (directory_cursor + 1) directory_end file_cursor file_end
        | Gt => collision_loop idx fuel directory_cursor directory_end (file_cursor + 1) file_end
        | Eq => Err (manifest_invalid "directory and file names collide under lookup semantics")
        end
      else Ok ()
  end.

Definition validate_child_order (idx : MountIndex) (directory : DirectoryView) : result () :=
  directories ← child_range (dv_first_directory directory) (dv_directory_count directory) "directory child range overflows";
  _ ← for_fold (order_step (directory_name_at idx) "directory children are not in strict lookup-key order") None directories;
  files ← child_range (dv_first_file directory) (dv_file_count directory) "file child range overflows";
  _ ← for_fold (order_step (file_name_at idx) "file children are not in strict lookup-key order") None files;
  collision_loop idx (Z.to_nat (dv_directory_count directory + dv_file_count directory))
    (dv_first_directory directory) (dv_first_directory directory + dv_directory_count directory)
    (dv_first_file directory) (dv_first_file directory + dv_file_count directory).

(** One round over the directories; the state is the next expected starts. *)
Definition validate_directory_record (idx : MountIndex) (st : Z * Z) (index : Z) : result (Z * Z) :=
  index ← u32_try_from index "directory count exceeds u32";
  directory ← directory_by_index idx index;
  if negb (dr_canonical_index (dv_record directory) =? index) then Err (manifest_invalid "directory canonical index is contradictory") else
  if negb (Bool.eqb (index =? 0) (dv_parent_index directory =? NO_PARENT))
  then Err (manifest_invalid "mount index root or parent identity is invalid") else
  if negb (index =? 0) && (index <=? dv_parent_index directory) then Err (manifest_invalid "directory parent must precede its child") else
  _ ← (name ← dv_name idx directory;
       if index =? 0 then fail_if (negb (bool_decide (name = []))) (manifest_invalid "mount index root name is not empty")
       else validate_component upper name);
  _ ← validate_range (dv_first_directory directory) (dv_directory_count directory) (index_count idx Directories) "directory child range";
  _ ← validate_range (dv_first_file directory) (dv_file_count directory) (index_count idx Files) "file child range";
  if negb (dv_first_directory directory =? st.1) || negb (dv_first_file directory =? st.2)
  then Err (manifest_invalid "namespace child ranges are not canonical partitions") else
  ds ← ok_or (manifest_invalid "directory partition overflows") (checked_add st.1 (dv_directory_count directory));
  fs ← ok_or (manifest_invalid "file partition overflows") (checked_add st.2 (dv_file_count directory));
  name ← dv_name idx directory;
  key ← dv_key idx directory;
  if negb (bool_decide (ordinal_key upper name = key)) then Err (manifest_invalid "directory lookup key does not match its name") else
  directories ← child_range (dv_first_directory directory) (dv_directory_count directory) "child range overflows";
  _ ← for_each (fun child => v ← directory_by_index idx child;
         fail_if (negb (dv_parent_index v =? index)) (manifest_invalid "directory child range has a foreign parent")) directories;
  files ← child_range (dv_first_file directory) (dv_file_count directory) "file range overflows";
  _ ← for_each (fun child => v ← file_by_index idx child;
         fail_if (negb (fv_parent_index v =? index)) (manifest_invalid "file child range has a foreign parent")) files;
  _ ← validate_child_order idx directory;
  Ok (ds, fs).

(** The pages of an extent, summed. *)
Definition layout_page (idx : MountIndex) (extent : ExtentView) (page_bytes page_index : Z) : result Z :=
  page ← xv_page idx extent page_index;
  if negb (page_index + 1 =? xv_page_count extent) && negb (pv_logical_length page =? ih_page_size (mi_header idx))
  then Err (manifest_invalid "non-final extent page is shorter than page size")
  else ok_or (manifest_invalid "extent page bytes overflow") (checked_add page_bytes (pv_logical_length page)).
Definition layout_extent (idx : MountIndex) (file : FileView) (expected_offset extent_index : Z) : result Z :=
  extent ← fv_extent idx file extent_index;
  if negb (xv_logical_offset extent =? expected_offset) || (xv_logical_length extent =? 0)
  then Err (manifest_invalid "file extents are gapped, overlapping, or empty") else
  page_bytes ← for_fold (layout_page idx extent) 0 (zrange 0 (xv_page_count extent));
  if negb (page_bytes =? xv_logical_length extent) then Err (manifest_invalid "extent length does not equal its page bytes") else
  ok_or (manifest_invalid "file length overflows") (checked_add expected_offset (xv_logical_length extent)).
Definition validate_file_layout (idx : MountIndex) (file : FileView) : result () :=
  if negb (is_virtual (fl_class (fv_record file)))
  then fail_if (negb (fv_extent_count file =? 0)) (manifest_invalid "native file contains virtual extents") else
  if fv_logical_size file =? 0
  then fail_if (negb (fv_extent_count file =? 0)) (manifest_invalid "empty virtual file contains extents") else
  if fv_extent_count file =? 0 then Err (manifest_invalid "non-empty virtual file has no extents") else
  expected_offset ← for_fold (layout_extent idx file) 0 (zrange 0 (fv_extent_count file));
  fail_if (negb (expected_offset =? fv_logical_size file)) (manifest_invalid "file extents do not cover its exact logical size").

(** One round over the files; the state is the next extent and the stable
    identifiers seen. *)
Definition validate_file_record (idx : MountIndex) (st : Z * gset Z) (index : Z) : result (Z * gset Z) :=
  ordinal ← u32_try_from index "file count exceeds u32";
  file ← file_by_index idx ordinal;
  if negb (fl_canonical_index (fv_record file) =? ordinal) then Err (manifest_invalid "file canonical index is contradictory") else
  if index_count idx Directories <=? fv_parent_index file then Err (manifest_invalid "file parent is out of bounds") else
  name ← fv_name idx file;
  _ ← validate_component upper name;
  key ← fv_key idx file;
  if negb (bool_decide (ordinal_key upper name = key)) then Err (manifest_invalid "file lookup key does not match its name") else
  _ ← validate_range (fl_extent_start (fv_record file)) (fv_extent_count file) (index_count idx Extents) "file extent range";
  if negb (fl_extent_start (fv_record file) =? st.1) then Err (manifest_invalid "file extent ranges are not a canonical partition") else
  next ← ok_or (manifest_invalid "extent partition overflows") (checked_add st.1 (fv_extent_count file));
  if bool_decide (fl_stable_id (fv_record file) ∈ st.2) then Err (manifest_invalid "mount index contains duplicate stable file IDs") else
  _ ← validate_file_layout idx file;
  Ok (next, {[fl_stable_id (fv_record file)]} ∪ st.2).

Definition validate_extent_record (idx : MountIndex) (expected_page_start index : Z) : result Z :=
  ordinal ← u32_try_from index "extent count exceeds u32";
  extent ← extent_by_index idx ordinal;
  _ ← validate_range (xr_page_start (xv_record extent)) (xv_page_count extent) (index_count idx Pages) "extent page range";
  if (xv_logical_length extent =? 0) || (xv_page_count extent =? 0) then Err (manifest_invalid "mount index extent is empty") else
  if negb (xr_page_start (xv_record extent) =? expected_page_start) then Err (manifest_invalid "extent page ranges are not a canonical partition") else
  next ← ok_or (manifest_invalid "page partition overflows") (checked_add expected_page_start (xv_page_count extent));
  last_page ← xv_page idx extent (xv_page_count extent - 1);
  if negb (xr_tail_length (xv_record extent) =? pv_logical_length last_page)
  then Err (manifest_invalid "extent tail length contradicts its final page") else Ok next.

Definition validate_page_record (idx : MountIndex) (index : Z) : result () :=
  ordinal ← u32_try_from index "page count exceeds u32";
  page ← page_by_ordinal idx ordinal;
  fail_if ((pv_logical_length page =? 0) || (ih_page_size (mi_header idx) <? pv_logical_length page)
           || negb (pr_remote_location (pv_record page) =? index))
    (manifest_invalid "page record has invalid length or remote location").

Definition validate_remote_record (idx : MountIndex) (index : Z) : result () :=
  ordinal ← u32_try_from index "remote location count exceeds u32";
  location ← remote_location_by_index idx ordinal;
  _ ← rv_backend_id idx location;
  _ ← rv_provider_object_id idx location;
  _ ← rv_immutable_revision idx location;
  let r := rv_record location in
  if negb (bool_decide (rl_object_kind r = KPack)) || (rl_encoded_length r =? 0)
  then Err (manifest_invalid "remote location is not a non-empty immutable pack range") else
  end_ ← ok_or (manifest_invalid "remote pack range overflows") (checked_add (rl_pack_offset r) (rl_encoded_length r));
  fail_if (rl_object_length r <? end_) (manifest_invalid "remote pack range exceeds object length").

Definition validate_records (idx : MountIndex) : result () :=
  if (length (mi_bytes idx) <? HEADER_SIZE)%nat || (index_count idx Directories =? 0)
  then Err (manifest_invalid "mount index has no root directory") else
  st ← for_fold (validate_directory_record idx) (1, 0) (zrange 0 (index_count idx Directories));
  if negb (st.1 =? index_count idx Directories) || negb (st.2 =? index_count idx Files)
  then Err (manifest_invalid "namespace child ranges do not cover their tables") else
  fst_ ← for_fold (validate_file_record idx) (0, ∅) (zrange 0 (index_count idx Files));
  if negb (fst_.1 =? index_count idx Extents) then Err (manifest_invalid "file extent ranges do not cover the extent table") else
  pages ← for_fold (validate_extent_record idx) 0 (zrange 0 (index_count idx Extents));
  if negb (pages =? index_count idx Pages) then Err (manifest_invalid "extent page ranges do not cover the page table") else
  if negb (index_count idx RemoteLocations =? index_count idx Pages)
  then Err (manifest_invalid "canonical mount index requires one remote record per page") else
  _ ← for_each (validate_page_record idx) (zrange 0 (index_count idx Pages));
  for_each (validate_remote_record idx) (zrange 0 (index_count idx RemoteLocations)).

(** [MountIndex::from_bytes]. *)
Definition MountIndex_from_bytes (blake3 : list Z -> Z) (bytes : list Z) : result MountIndex :=
  header ← IndexHeader_parse blake3 bytes;
  computed ← compute_index_hash blake3 bytes;
  if negb (computed =? ih_index_hash header) then Err (integrity_mismatch "mount index whole-file hash does not match") else
  let index := mkMountIndex bytes header in
  _ ← validate_records index;
  Ok index.
End validation.

(** ** Reading a validated index *)
Lemma for_fold_zrange {S : Type} (body : S -> Z -> result S) (Inv : Z -> S -> Prop) (n : Z) (s s' : S) :
  0 <= n -> for_fold body s (zrange 0 n) = Ok s' -> Inv 0 s ->
  (forall i st st', 0 <= i < n -> Inv i st -> body st i = Ok st' -> Inv (i + 1) st') ->
  Inv n s' /\ forall i, 0 <= i < n -> exists st st', Inv i st /\ body st i = Ok st' /\ Inv (i + 1) st'.
Proof.
  intros Hn. revert s'. pattern n. apply natlike_ind; [| |done]; clear n Hn.
  - rewrite zrange_nil by lia. intros s' <-%Ok_inj Hs _. split; [done|]. lia.
  - intros n Hn IH s'. unfold Z.succ. rewrite zrange_succ, for_fold_app by done. intros (s1 & H1 & H2)%bind_Ok_inv Hs Hstep. cbn in H2.
    apply bind_Ok_inv in H2 as (s2 & H2 & <-%Ok_inj). destruct (IH s1 H1 Hs) as [Hn1 Hall]; [intros i st st' Hi; apply Hstep; lia|].
    assert (Hs2 : Inv (n + 1) s2) by (eapply Hstep; [|done|done]; lia). split; [done|]. intros i Hi.
    destruct (Z.eq_dec i n) as [->|Hne]; [eauto|]. apply Hall. lia.
Qed.
Lemma for_each_zrange (body : Z -> result ()) (a n i : Z) : for_each body (zrange a n) = Ok tt -> a <= i < a + n -> body i = Ok tt.
Proof. rewrite for_each_Ok, Forall_forall. intros H Hi. apply H. by apply elem_of_zrange. Qed.

Section reading.
Context (idx : MountIndex) (Hbytes : is_bytes (mi_bytes idx)).

Lemma bytes_at_bytes (o l : Z) (b : list Z) : bytes_at (mi_bytes idx) o l = Ok b -> is_bytes b.
Proof using Hbytes.
  unfold bytes_at. intros (e & _ & H)%bind_Ok_inv. destruct (_ <=? _); [|done]. apply Ok_inj in H as <-. by apply get_bytes.
Qed.
Lemma index_string_str (r : StringRef) (s : list Z) : index_string idx r = Ok s -> is_str s.
Proof using Hbytes.
  unfold index_string. intros (e & _ & H)%bind_Ok_inv. destruct (_ <? _); [done|]. apply bind_Ok_inv in H as (a & _ & H).
  apply bind_Ok_inv in H as (b & Hb & H%ok_or_Ok_inv). apply from_utf8_spec in H as [Hs _]; [done|by eapply bytes_at_bytes].
Qed.
Lemma record_bytes_Ok (k : SectionKind) (i : Z) (b : list Z) : record_bytes idx k i = Ok b -> is_bytes b /\ i < index_count idx k.
Proof using Hbytes.
  unfold record_bytes, index_count. destruct (Z.leb_spec (sec_count (header_section (mi_header idx) k)) i); [done|].
  intros (r & _ & (a & _ & Hb)%bind_Ok_inv)%bind_Ok_inv. split; [by eapply bytes_at_bytes|done].
Qed.
Lemma directory_by_index_Ok (i : Z) (v : DirectoryView) :
  directory_by_index idx i = Ok v -> dv_ordinal v = i /\ dr_typed (dv_record v) /\ i < index_count idx Directories.
Proof using Hbytes.
  intros (b & [Hb Hi]%record_bytes_Ok & (r & Hr & <-%Ok_inj)%bind_Ok_inv)%bind_Ok_inv. apply directory_codec in Hr as [_ Ht]; [|done]. done.
Qed.
Lemma file_by_index_Ok (i : Z) (v : FileView) :
  file_by_index idx i = Ok v -> fv_ordinal v = i /\ fl_typed (fv_record v) /\ i < index_count idx Files.
Proof using Hbytes.
  intros (b & [Hb Hi]%record_bytes_Ok & (r & Hr & <-%Ok_inj)%bind_Ok_inv)%bind_Ok_inv. apply file_codec in Hr as [_ Ht]; [|done]. done.
Qed.
Lemma extent_by_index_Ok (i : Z) (v : ExtentView) :
  extent_by_index idx i = Ok v -> xv_ordinal v = i /\ xr_typed (xv_record v) /\ i < index_count idx Extents.
Proof using Hbytes.
  intros (b & [Hb Hi]%record_bytes_Ok & (r & Hr & <-%Ok_inj)%bind_Ok_inv)%bind_Ok_inv. apply extent_codec in Hr as [_ Ht]; [|done]. done.
Qed.
Lemma page_by_ordinal_Ok (i : Z) (v : PageView) :
  page_by_ordinal idx i = Ok v -> pv_ordinal v = i /\ pr_typed (pv_record v) /\ i < index_count idx Pages.
Proof using Hbytes.
  intros (b & [Hb Hi]%record_bytes_Ok & (r & Hr & <-%Ok_inj)%bind_Ok_inv)%bind_Ok_inv. apply page_codec in Hr as [_ Ht]; [|done]. done.
Qed.
End reading.

Lemma validate_component_short (upper : Z -> list Z) (s : list Z) : is_str s -> validate_component upper s = Ok tt -> short_str s /\ s <> [].
Proof.
  intros Hs. unfold validate_component. destruct (_ || _); [done|]. unfold fold_name.
  destruct (bool_decide_reflect (s = [])); [done|]. cbn [orb]. destruct (Z.ltb_spec MAX_NAME_UNITS (utf16_units s)); [done|]. intros _.
  split; [|done]. split; [done|]. unfold MAX_NAME_UNITS, i32_max in *. lia.
Qed.

(** ** Sorted siblings *)
Section siblings.
Context {Ord : NameOrder} {L : NameOrderLaws Ord}.

(** The names from [first] are readable, short and strictly increasing. *)
Definition sorted_names (name_of : Z -> result (list Z)) (first count : Z) : Prop :=
  forall c, first <= c < first + count -> exists n, name_of c = Ok n /\ short_str n /\
    forall c', c < c' < first + count -> exists n', name_of c' = Ok n' /\ compare_names n n' = Lt.

Lemma order_fold_sorted (name_of : Z -> result (list Z)) (msg : string) (first count : Z) (st : option (list Z)) :
  0 <= count -> (forall c n, first <= c < first + count -> name_of c = Ok n -> short_str n) ->
  for_fold (order_step name_of msg) None (zrange first count) = Ok st ->
  sorted_names name_of first count /\ (0 < count -> exists n, st = Some n /\ name_of (first + count - 1) = Ok n).
Proof using L.
  intros Hc Hshort. revert st. pattern count. revert count Hc Hshort. 
  refine (fun count Hc => natlike_ind (fun count => (forall c n, first <= c < first + count -> name_of c = Ok n -> short_str n) -> _) _ _ count Hc).
  - rewrite zrange_nil by lia. intros _ st <-%Ok_inj. split; [intros c; lia|lia].
  - clear count Hc. intros count Hc IH Hshort st. unfold Z.succ in *. rewrite zrange_succ, for_fold_app by done.
    intros (s1 & H1 & H2)%bind_Ok_inv. cbn in H2. apply bind_Ok_inv in H2 as (s2 & H2 & <-%Ok_inj).
    destruct (IH ltac:(intros c n Hcn; apply Hshort; lia) s1 H1) as [Hs Hl]. unfold order_step in H2. apply bind_Ok_inv in H2 as (nm & Hnm & H2).
    assert (Hnms : short_str nm) by (eapply Hshort; [|done]; lia).
    assert (Hs2 : s2 = Some nm /\ forall c n, first <= c < first + count -> name_of c = Ok n -> compare_names n nm = Lt).
    { destruct (Z.eq_dec count 0) as [->|Hne].
      - rewrite zrange_nil in H1 by lia. apply Ok_inj in H1 as <-. apply Ok_inj in H2 as <-. split; [done|]. lia.
      - destruct (Hl ltac:(lia)) as (pn & -> & Hpn). destruct (compare_names pn nm) eqn:E; try done. apply Ok_inj in H2 as <-. split; [done|].
        intros c n Hcn Hn. destruct (Z.eq_dec c (first + count - 1)) as [->|Hne2]; [congruence|].
        destruct (Hs c ltac:(lia)) as (n' & Hn' & Hsn & Hlt). destruct (Hlt (first + count - 1) ltac:(lia)) as (pn' & Hpn' & Hlt').
        rewrite Hn in Hn'. apply Ok_inj in Hn' as <-. rewrite Hpn in Hpn'. apply Ok_inj in Hpn' as <-.
        apply (compare_names_trans n pn nm); [done| |done|done|done]. eapply Hshort; [|exact Hpn]. lia. }
    destruct Hs2 as [-> Hlt]. split.
    + intros c Hcr. destruct (Z.eq_dec c (first + count)) as [->|Hne].
      * exists nm. split_and!; [done|done|]. intros c'. lia.
      * destruct (Hs c ltac:(lia)) as (n & Hn & Hsn & Hnext). exists n. split_and!; [done|done|]. intros c' Hc'.
        destruct (Z.eq_dec c' (first + count)) as [->|Hne2]; [exists nm; split; [done|]; eapply Hlt; [|done]; lia|]. apply Hnext. lia.
    + intros _. exists nm. split; [done|]. by replace (first + (count + 1) - 1) with (first + count) by lia.
Qed.
Lemma sorted_names_tail (name_of : Z -> result (list Z)) (first count : Z) :
  sorted_names name_of first count -> sorted_names name_of (first + 1) (count - 1).
Proof using.
  intros H c Hc. destruct (H c ltac:(lia)) as (n & Hn & Hs & Hnext). exists n. split_and!; [done|done|]. intros c' Hc'. apply Hnext. lia.
Qed.
Lemma sorted_names_key (name_of : Z -> result (list Z)) (first count c c' : Z) (n n' : list Z) :
  sorted_names name_of first count -> first <= c -> c <= c' -> c' < first + count -> name_of c = Ok n -> name_of c' = Ok n' ->
  lex_compare (name_key n) (name_key n') <> Gt.
Proof using.
  intros H H1 H2 H3 Hn Hn'. destruct (Z.eq_dec c c') as [->|Hne].
  { rewrite Hn in Hn'. apply Ok_inj in Hn' as <-. by rewrite lex_compare_refl. }
  destruct (H c ltac:(lia)) as (m & Hm & Hs & Hnext). destruct (Hnext c' ltac:(lia)) as (m' & Hm' & Hlt).
  destruct (H c' ltac:(lia)) as (m2 & Hm2 & Hs2 & _).
  rewrite Hn in Hm. apply Ok_inj in Hm as <-. rewrite Hn' in Hm', Hm2. apply Ok_inj in Hm' as <-. apply Ok_inj in Hm2 as <-.
  by apply compare_names_lt_key.
Qed.

(** A merge that ends found no pair of equal names. *)
Lemma collision_none (idx : MountIndex) (fuel : nat) (dc de fc fe : Z) :
  sorted_names (directory_name_at idx) dc (de - dc) -> sorted_names (file_name_at idx) fc (fe - fc) ->
  Z.max 0 (de - dc) + Z.max 0 (fe - fc) <= Z.of_nat fuel -> collision_loop idx fuel dc de fc fe = Ok tt ->
  forall c f n m, dc <= c < de -> fc <= f < fe -> directory_name_at idx c = Ok n -> file_name_at idx f = Ok m ->
    compare_ordinal_ignore_case n m <> Eq.
Proof using L.
  revert dc fc. induction fuel as [|fuel IH]; intros dc fc Hd Hf Hfuel; [lia|]. cbn [collision_loop].
  destruct (Z.ltb_spec dc de); [|lia]. destruct (Z.ltb_spec fc fe); [|lia]. cbn [andb].
  destruct (Hd dc ltac:(lia)) as (n0 & Hn0 & Hsn0 & _), (Hf fc ltac:(lia)) as (m0 & Hm0 & Hsm0 & _). rewrite Hn0, Hm0. cbn [mbind result_bind].
  destruct (compare_ordinal_ignore_case n0 m0) eqn:E; [done|..]; intros Hl c f n m Hc Hfr Hn Hm; rewrite name_key_spec in E by done.
  - destruct (Z.eq_dec c dc) as [->|Hne].
    + rewrite Hn0 in Hn. apply Ok_inj in Hn as <-. destruct (Hf f ltac:(lia)) as (m' & Hm' & Hsm & _). rewrite Hm in Hm'. apply Ok_inj in Hm' as <-.
      rewrite name_key_spec by done. rewrite (lex_compare_lt_le _ _ _ E); [done|]. eapply sorted_names_key; [exact Hf| | | |done..]; lia.
    + eapply (IH (dc + 1) fc); [| |lia|exact Hl| | |done|done]; [|done|lia|lia].
      apply sorted_names_tail in Hd. by replace (de - (dc + 1)) with (de - dc - 1) by lia.
  - destruct (Z.eq_dec f fc) as [->|Hne].
    + rewrite Hm0 in Hm. apply Ok_inj in Hm as <-. destruct (Hd c ltac:(lia)) as (n' & Hn' & Hsn & _). rewrite Hn in Hn'. apply Ok_inj in Hn' as <-.
      rewrite name_key_spec by done. apply lex_compare_gt in E.
      assert (Hlt : lex_compare (name_key m0) (name_key n) = Lt) by (eapply lex_compare_lt_le; [exact E|]; eapply sorted_names_key; [exact Hd| | | |done..]; lia).
      rewrite lex_compare_antisym, Hlt. done.
    + eapply (IH dc (fc + 1)); [| |lia|exact Hl| | |done|done]; [done| |lia|lia].
      apply sorted_names_tail in Hf. by replace (fe - (fc + 1)) with (fe - fc - 1) by lia.
Qed.
End siblings.

(** ** What the validation of the directories establishes *)
Section validated.
Context (upper : Z -> list Z) {Ord : NameOrder} {L : NameOrderLaws Ord} (idx : MountIndex).
Context (Hbytes : is_bytes (mi_bytes idx)) (Hcounts : forall k, 0 <= index_count idx k) (Hvalid : validate_records upper idx = Ok tt).
Notation ND := (index_count idx Directories).
Notation NF := (index_count idx Files).
Notation NX := (index_count idx Extents).
Notation NP := (index_count idx Pages).

Record dir_facts (i : Z) (v : DirectoryView) (name : list Z) : Prop := mkDirFacts {
  df_read : directory_by_index idx i = Ok v;
  df_name : dv_name idx v = Ok name;
  df_short : short_str name;
  df_valid : i <> 0 -> validate_component upper name = Ok tt;
  df_root : i = 0 -> name = [];
  df_parent : i = 0 \/ 0 <= dv_parent_index v < i;
  df_key : dv_key idx v = Ok (ordinal_key upper name);
  df_dirs : 0 <= dv_first_directory v /\ 0 <= dv_directory_count v /\ dv_first_directory v + dv_directory_count v <= Z.min ND u32_max;
  df_files : 0 <= dv_first_file v /\ 0 <= dv_file_count v /\ dv_first_file v + dv_file_count v <= Z.min NF u32_max;
  df_child_dirs : forall c, dv_first_directory v <= c < dv_first_directory v + dv_directory_count v ->
    exists w, directory_by_index idx c = Ok w /\ dv_parent_index w = i;
  df_child_files : forall c, dv_first_file v <= c < dv_first_file v + dv_file_count v ->
    exists w, file_by_index idx c = Ok w /\ fv_parent_index w = i;
  df_order : validate_child_order idx v = Ok tt
}.

Lemma u32_try_from_Ok (x y : Z) (msg : string) : u32_try_from x msg = Ok y -> y = x /\ x <= u32_max.
Proof. unfold u32_try_from. destruct (Z.leb_spec x u32_max); [|done]. by intros <-%Ok_inj. Qed.
Lemma checked_add_u32_Some (a b c : Z) : checked_add_u32 a b = Some c <-> a + b <= u32_max /\ c = a + b.
Proof. unfold checked_add_u32. zcase; naive_solver lia. Qed.
Lemma child_range_Ok (first count : Z) (msg : string) (l : list Z) :
  child_range first count msg = Ok l -> first + count <= u32_max /\ l = zrange first count.
Proof. unfold child_range. by intros (e & [? _]%ok_or_Ok_inv%checked_add_u32_Some & <-%Ok_inj)%bind_Ok_inv. Qed.
Lemma validate_range_Ok (a n m : Z) (label : string) : validate_range a n m label = Ok tt -> a + n <= m.
Proof.
  unfold validate_range. intros (e & [_ ->]%ok_or_Ok_inv%checked_add_Some & H%fail_if_Ok_inv)%bind_Ok_inv. zbool. lia.
Qed.

Lemma directory_record_facts (st st' : Z * Z) (i : Z) : 0 <= i ->
  validate_directory_record upper idx st i = Ok st' ->
  exists v name, dir_facts i v name /\ dv_first_directory v = st.1 /\ dv_first_file v = st.2 /\
    st' = (st.1 + dv_directory_count v, st.2 + dv_file_count v).
Proof using Hbytes.
  intros Hi0. unfold validate_directory_record. intros (j & [-> Hi]%u32_try_from_Ok & (v & Hv & H)%bind_Ok_inv)%bind_Ok_inv.
  destruct (directory_by_index_Ok idx Hbytes i v Hv) as (_ & Ht & _). destruct Ht as (T1 & _ & _ & T2 & T3 & T4 & T5 & _).
  destruct (negb (dr_canonical_index (dv_record v) =? i)); [done|].
  destruct (negb (Bool.eqb _ _)) eqn:Ep; [done|]. apply negb_false_iff, eqb_prop in Ep.
  destruct (negb (i =? 0) && (i <=? dv_parent_index v)) eqn:Epp; [done|].
  apply bind_Ok_inv in H as ([] & Hname & H). apply bind_Ok_inv in Hname as (name & Hname & Hcomp).
  apply bind_Ok_inv in H as ([] & Hr1%validate_range_Ok & H). apply bind_Ok_inv in H as ([] & Hr2%validate_range_Ok & H).
  destruct (negb (dv_first_directory v =? st.1) || negb (dv_first_file v =? st.2)) eqn:Est; [done|]. zbool.
  apply bind_Ok_inv in H as (ds & [_ ->]%ok_or_Ok_inv%checked_add_Some & H). apply bind_Ok_inv in H as (fs & [_ ->]%ok_or_Ok_inv%checked_add_Some & H).
  rewrite Hname in H. cbn [mbind result_bind] in H. apply bind_Ok_inv in H as (key & Hkey & H).
  case_bool_decide as Hk; [|done]. cbn [negb] in H.
  apply bind_Ok_inv in H as (dl & [Hd ->]%child_range_Ok & H). apply bind_Ok_inv in H as ([] & Hdc & H).
  apply bind_Ok_inv in H as (fl & [Hf ->]%child_range_Ok & H). apply bind_Ok_inv in H as ([] & Hfc & H).
  apply bind_Ok_inv in H as ([] & Horder & <-%Ok_inj).
  pose proof (index_string_str idx Hbytes _ _ Hname) as Hstr.
  exists v, name. unfold dv_first_directory, dv_directory_count, dv_first_file, dv_file_count, dv_parent_index in *. split_and!; [|done|done|done]. split.
  - done.
  - done.
  - destruct (i =? 0) eqn:E0.
    + apply fail_if_Ok_inv, negb_false_iff, bool_decide_eq_true in Hcomp as ->. split; [done|]. done.
    + by apply (validate_component_short upper).
  - intros Hne. by rewrite (proj2 (Z.eqb_neq i 0)) in Hcomp.
  - intros ->. cbn in Hcomp. by apply fail_if_Ok_inv, negb_false_iff, bool_decide_eq_true in Hcomp.
  - destruct (Z.eqb_spec i 0); [by left|]. cbn [negb andb] in Epp. zbool. right. unfold in_u32 in T1. unfold dv_parent_index in *. lia.
  - by rewrite Hk.
  - unfold dv_first_directory, dv_directory_count. unfold in_u32 in *. lia.
  - unfold dv_first_file, dv_file_count. unfold in_u32 in *. lia.
  - intros c Hc. apply (for_each_zrange _ _ _ c) in Hdc; [|done]. apply bind_Ok_inv in Hdc as (w & Hw & Hp%fail_if_Ok_inv). zbool. eauto.
  - intros c Hc. apply (for_each_zrange _ _ _ c) in Hfc; [|done]. apply bind_Ok_inv in Hfc as (w & Hw & Hp%fail_if_Ok_inv). zbool. eauto.
  - done.
Qed.

(** The invariant of the loop: the ranges so far cover what they reach. *)
Definition dirs_inv (i : Z) (st : Z * Z) : Prop :=
  1 <= st.1 /\ 0 <= st.2 /\
  (forall c, 1 <= c < st.1 -> exists j v name, 0 <= j < i /\ dir_facts j v name /\ dv_first_directory v <= c < dv_first_directory v + dv_directory_count v) /\
  (forall c, 0 <= c < st.2 -> exists j v name, 0 <= j < i /\ dir_facts j v name /\ dv_first_file v <= c < dv_first_file v + dv_file_count v).

Lemma dirs_validated :
  0 < ND /\ dirs_inv ND (ND, NF) /\ (forall i, 0 <= i < ND -> exists v name, dir_facts i v name /\ 1 <= dv_first_directory v).
Proof using Hbytes Hcounts Hvalid.
  unfold validate_records in Hvalid. destruct ((length (mi_bytes idx) <? HEADER_SIZE)%nat || (ND =? 0)) eqn:E0; [done|].
  apply orb_false_iff in E0 as [_ E0]. zbool. pose proof (Hcounts Directories) as Hnn. split; [lia|].
  apply bind_Ok_inv in Hvalid as (st & Hfold & Hrest). destruct (negb (st.1 =? ND) || negb (st.2 =? NF)) eqn:Est; [done|]. zbool.
  destruct st as [a b]. cbn in *. subst a b.
  destruct (for_fold_zrange _ dirs_inv ND (1, 0) (ND, NF) Hnn Hfold) as [Hend Hall].
  - split_and!; [done|done|intros; simpl in *; lia..].
  - intros i st st' Hi (Hs1 & Hs2 & Hcd & Hcf) Hb. apply directory_record_facts in Hb as (v & name & Hf & Hfd & Hff & ->); [|lia].
    destruct (df_dirs _ _ _ Hf) as (D1 & D2 & _), (df_files _ _ _ Hf) as (F1 & F2 & _). unfold dirs_inv. cbn [fst snd]. split_and!; [lia|lia| |].
    + intros c Hc. destruct (Z_lt_le_dec c st.1) as [Hlt|Hge].
      * destruct (Hcd c ltac:(lia)) as (j & w & nm & Hj & Hw & Hr). exists j, w, nm. split_and!; [lia|lia|done|lia|lia].
      * exists i, v, name. split_and!; [lia|lia|done|lia|lia].
    + intros c Hc. destruct (Z_lt_le_dec c st.2) as [Hlt|Hge].
      * destruct (Hcf c ltac:(lia)) as (j & w & nm & Hj & Hw & Hr). exists j, w, nm. split_and!; [lia|lia|done|lia|lia].
      * exists i, v, name. split_and!; [lia|lia|done|lia|lia].
  - split; [done|]. intros i Hi. destruct (Hall i Hi) as (st & st' & (Hs1 & _) & Hb & _). apply directory_record_facts in Hb as (v & name & Hf & Hfd & _); [|lia].
    exists v, name. split; [done|lia].
Qed.

(** ** Files, extents, pages *)
Record file_facts (i : Z) (v : FileView) (name : list Z) : Prop := mkFileFacts {
  ff_read : file_by_index idx i = Ok v;
  ff_name : fv_name idx v = Ok name;
  ff_short : short_str name;
  ff_valid : validate_component upper name = Ok tt;
  ff_parent : 0 <= fv_parent_index v < ND;
  ff_key : fv_key idx v = Ok (ordinal_key upper name);
  ff_extents : 0 <= fl_extent_start (fv_record v) /\ 0 <= fv_extent_count v /\ fl_extent_start (fv_record v) + fv_extent_count v <= NX;
  ff_layout : validate_file_layout idx v = Ok tt
}.
Record extent_facts (i : Z) (v : ExtentView) : Prop := mkExtentFacts {
  xf_read : extent_by_index idx i = Ok v;
  xf_length : 0 < xv_logical_length v;
  xf_pages : 0 <= xr_page_start (xv_record v) /\ 0 < xv_page_count v /\ xr_page_start (xv_record v) + xv_page_count v <= NP
}.
Record page_facts (i : Z) (v : PageView) : Prop := mkPageFacts {
  pg_read : page_by_ordinal idx i = Ok v;
  pg_length : 0 < pv_logical_length v <= ih_page_size (mi_header idx);
  pg_remote : pr_remote_location (pv_record v) = i
}.

Lemma file_record_facts (st st' : Z * gset Z) (i : Z) :
  validate_file_record upper idx st i = Ok st' ->
  exists v name, file_facts i v name /\ fl_extent_start (fv_record v) = st.1 /\ fl_stable_id (fv_record v) ∉ st.2 /\
    st' = (st.1 + fv_extent_count v, {[fl_stable_id (fv_record v)]} ∪ st.2).
Proof using Hbytes.
  unfold validate_file_record. intros (j & [-> Hi]%u32_try_from_Ok & (v & Hv & H)%bind_Ok_inv)%bind_Ok_inv.
  destruct (file_by_index_Ok idx Hbytes i v Hv) as (_ & Ht & _). destruct Ht as (T1 & _ & _ & T2 & T3 & T4 & T5 & _).
  destruct (negb (fl_canonical_index (fv_record v) =? i)); [done|].
  destruct (ND <=? fv_parent_index v) eqn:Ep; [done|]. apply bind_Ok_inv in H as (name & Hname & H).
  apply bind_Ok_inv in H as ([] & Hcomp & H). apply bind_Ok_inv in H as (key & Hkey & H). case_bool_decide as Hk; [|done]. cbn [negb] in H.
  apply bind_Ok_inv in H as ([] & Hr%validate_range_Ok & H). destruct (negb (fl_extent_start (fv_record v) =? st.1)) eqn:Es; [done|]. zbool.
  apply bind_Ok_inv in H as (nx & [_ ->]%ok_or_Ok_inv%checked_add_Some & H). case_bool_decide as Hid; [done|].
  apply bind_Ok_inv in H as ([] & Hlay & <-%Ok_inj). pose proof (index_string_str idx Hbytes _ _ Hname) as Hstr.
  exists v, name. split_and!; [|done|done|done]. unfold in_u32, fv_parent_index, fv_extent_count in *.
  split; try done; [by apply (validate_component_short upper)| |by rewrite Hk|]; unfold fv_parent_index, fv_extent_count; lia.
Qed.

Definition files_inv (i : Z) (st : Z * gset Z) : Prop :=
  0 <= st.1 /\
  (forall x, 0 <= x < st.1 -> exists j v name, 0 <= j < i /\ file_facts j v name /\
     fl_extent_start (fv_record v) <= x < fl_extent_start (fv_record v) + fv_extent_count v) /\
  (forall j v, 0 <= j < i -> file_by_index idx j = Ok v -> fl_stable_id (fv_record v) ∈ st.2).

Lemma extent_record_facts (st st' i : Z) :
  validate_extent_record idx st i = Ok st' -> exists v, extent_facts i v /\ xr_page_start (xv_record v) = st /\ st' = st + xv_page_count v.
Proof using Hbytes.
  unfold validate_extent_record. intros (j & [-> Hi]%u32_try_from_Ok & (v & Hv & H)%bind_Ok_inv)%bind_Ok_inv.
  destruct (extent_by_index_Ok idx Hbytes i v Hv) as (_ & Ht & _). destruct Ht as (T1 & T2 & T3 & T4 & T5).
  apply bind_Ok_inv in H as ([] & Hr%validate_range_Ok & H).
  destruct ((xv_logical_length v =? 0) || (xv_page_count v =? 0)) eqn:Ez; [done|].
  destruct (negb (xr_page_start (xv_record v) =? st)) eqn:Es; [done|]. zbool.
  apply bind_Ok_inv in H as (nx & [_ ->]%ok_or_Ok_inv%checked_add_Some & H). apply bind_Ok_inv in H as (lp & _ & H).
  destruct (negb _); [done|]. apply Ok_inj in H as <-. exists v. split_and!; [|done|done].
  unfold in_u32, in_u64, xv_page_count, xv_logical_length in *. split; [done|unfold xv_logical_length; lia|unfold xv_page_count; lia].
Qed.

(** ** The tables of a validated index *)
Record index_ok : Prop := mkIndexOk {
  ok_root : 0 < ND;
  ok_dir : forall i, 0 <= i < ND -> exists v name, dir_facts i v name;
  ok_first_dir : forall i v, directory_by_index idx i = Ok v -> 0 <= i < ND -> 1 <= dv_first_directory v;
  ok_file : forall i, 0 <= i < NF -> exists v name, file_facts i v name;
  ok_extent : forall i, 0 <= i < NX -> exists v, extent_facts i v;
  ok_page : forall i, 0 <= i < NP -> exists v, page_facts i v;
  ok_dir_parent : forall c, 1 <= c < ND -> exists j v name, 0 <= j < ND /\ dir_facts j v name /\
    dv_first_directory v <= c < dv_first_directory v + dv_directory_count v;
  ok_file_parent : forall c, 0 <= c < NF -> exists j v name, 0 <= j < ND /\ dir_facts j v name /\
    dv_first_file v <= c < dv_first_file v + dv_file_count v;
  ok_stable_ids : forall i j v w, 0 <= i < NF -> 0 <= j < NF -> file_by_index idx i = Ok v -> file_by_index idx j = Ok w ->
    fl_stable_id (fv_record v) = fl_stable_id (fv_record w) -> i = j
}.

Lemma index_validated : index_ok.
Proof using Hbytes Hcounts Hvalid.
  destruct dirs_validated as (Hnd & (_ & _ & Hcd & Hcf) & Hdirs). cbn [fst snd] in Hcd, Hcf.
  unfold validate_records in Hvalid. destruct ((length (mi_bytes idx) <? HEADER_SIZE)%nat || (ND =? 0)); [done|].
  apply bind_Ok_inv in Hvalid as (dst & _ & H). destruct (negb (dst.1 =? ND) || negb (dst.2 =? NF)); [done|].
  apply bind_Ok_inv in H as (fst_ & Hff & H). destruct (negb (fst_.1 =? NX)); [done|].
  apply bind_Ok_inv in H as (pst & Hxf & H). destruct (negb (pst =? NP)); [done|]. destruct (negb (_ =? _)); [done|].
  apply bind_Ok_inv in H as ([] & Hpf & _).
  destruct (for_fold_zrange _ files_inv NF (0, ∅) fst_ (Hcounts Files) Hff) as [_ Hfiles].
  { split_and!; [done|intros; simpl in *; lia|intros; lia]. }
  { intros i st st' Hi (H0 & Hx & Hid) (v & name & Hf & Hes & Hnew & ->)%file_record_facts.
    destruct (ff_extents _ _ _ Hf) as (E1 & E2 & _). unfold files_inv. cbn [fst snd]. split_and!; [lia| |].
    - intros x Hxr. destruct (Z_lt_le_dec x st.1) as [Hlt|Hge].
      + destruct (Hx x ltac:(lia)) as (j & w & nm & Hj & Hw & Hr). exists j, w, nm. split_and!; [lia|lia|done|lia|lia].
      + exists i, v, name. split_and!; [lia|lia|done|lia|lia].
    - intros j w Hj Hw. destruct (Z.eq_dec j i) as [->|Hne]; [|apply elem_of_union_r, (Hid j); [lia|done]].
      rewrite (ff_read _ _ _ Hf) in Hw. apply Ok_inj in Hw as <-. set_solver. }
  destruct (for_fold_zrange _ (fun _ _ => True) NX 0 pst (Hcounts Extents) Hxf I ltac:(done)) as [_ Hextents].
  assert (Hids : forall i j v w, 0 <= i -> i < j -> j < NF -> file_by_index idx i = Ok v -> file_by_index idx j = Ok w ->
    fl_stable_id (fv_record v) <> fl_stable_id (fv_record w)).
  { intros i j v w H0 Hij HjN Hv Hw E. destruct (Hfiles j ltac:(lia)) as (st & st' & (_ & _ & Hid) & (w' & nm & Hf & _ & Hnew & _)%file_record_facts & _).
    rewrite (ff_read _ _ _ Hf) in Hw. apply Ok_inj in Hw as ->. rewrite <- E in Hnew. apply Hnew. apply (Hid i); [lia|done]. }
  split; try done.
  - intros i Hi. destruct (Hdirs i Hi) as (v & name & Hf & _). eauto.
  - intros i v Hv Hi. destruct (Hdirs i Hi) as (w & name & Hf & Hle). rewrite (df_read _ _ _ Hf) in Hv. by apply Ok_inj in Hv as <-.
  - intros i Hi. destruct (Hfiles i Hi) as (st & st' & _ & (v & name & Hf & _)%file_record_facts & _). eauto.
  - intros i Hi. destruct (Hextents i Hi) as (st & st' & _ & (v & Hf & _)%extent_record_facts & _). eauto.
  - intros i Hi. apply (for_each_zrange _ _ _ i) in Hpf; [|lia]. unfold validate_page_record in Hpf.
    apply bind_Ok_inv in Hpf as (o & [-> _]%u32_try_from_Ok & (v & Hv & Hg%fail_if_Ok_inv)%bind_Ok_inv). zbool.
    exists v. destruct (page_by_ordinal_Ok idx Hbytes i v Hv) as (_ & (_ & [? ?] & _) & _). split; [done| |done]. unfold pv_logical_length in *. lia.
  - intros i j v w Hi Hj Hv Hw E. destruct (Z.lt_trichotomy i j) as [Hlt|[->|Hgt]]; [|done|]; exfalso.
    + by eapply (Hids i j v w); [lia|done|lia|..].
    + by eapply (Hids j i w v); [lia|done|lia|..].
Qed.

(** ** The children of a directory *)
Lemma directory_name_facts (c : Z) : index_ok -> 0 <= c < ND -> exists w n, dir_facts c w n /\ directory_name_at idx c = Ok n.
Proof using.
  intros Hok Hc. destruct (ok_dir Hok c Hc) as (w & n & Hw). exists w, n. split; [done|]. unfold directory_name_at.
  rewrite (df_read _ _ _ Hw). cbn [mbind result_bind]. apply (df_name _ _ _ Hw).
Qed.
Lemma file_name_facts (c : Z) : index_ok -> 0 <= c < NF -> exists w n, file_facts c w n /\ file_name_at idx c = Ok n.
Proof using.
  intros Hok Hc. destruct (ok_file Hok c Hc) as (w & n & Hw). exists w, n. split; [done|]. unfold file_name_at.
  rewrite (ff_read _ _ _ Hw). cbn [mbind result_bind]. apply (ff_name _ _ _ Hw).
Qed.

Lemma children_sorted (i : Z) (v : DirectoryView) (name : list Z) : index_ok -> dir_facts i v name ->
  sorted_names (directory_name_at idx) (dv_first_directory v) (dv_directory_count v) /\
  sorted_names (file_name_at idx) (dv_first_file v) (dv_file_count v) /\
  (forall c f n m, dv_first_directory v <= c < dv_first_directory v + dv_directory_count v ->
     dv_first_file v <= f < dv_first_file v + dv_file_count v ->
     directory_name_at idx c = Ok n -> file_name_at idx f = Ok m -> compare_ordinal_ignore_case n m <> Eq).
Proof using L.
  intros Hok Hf. destruct (df_dirs _ _ _ Hf) as (D1 & D2 & D3), (df_files _ _ _ Hf) as (F1 & F2 & F3).
  pose proof (df_order _ _ _ Hf) as H. unfold validate_child_order in H.
  apply bind_Ok_inv in H as (dl & [_ ->]%child_range_Ok & H). apply bind_Ok_inv in H as (ds & Hds & H).
  apply bind_Ok_inv in H as (fl & [_ ->]%child_range_Ok & H). apply bind_Ok_inv in H as (fs & Hfs & H).
  assert (S1 : sorted_names (directory_name_at idx) (dv_first_directory v) (dv_directory_count v)).
  { eapply order_fold_sorted; [done| |exact Hds]. intros c n Hc Hn. destruct (directory_name_facts c Hok ltac:(lia)) as (w & n' & Hw & Hn').
    rewrite Hn in Hn'. apply Ok_inj in Hn' as <-. apply (df_short _ _ _ Hw). }
  assert (S2 : sorted_names (file_name_at idx) (dv_first_file v) (dv_file_count v)).
  { eapply order_fold_sorted; [done| |exact Hfs]. intros c n Hc Hn. destruct (file_name_facts c Hok ltac:(lia)) as (w & n' & Hw & Hn').
    rewrite Hn in Hn'. apply Ok_inj in Hn' as <-. apply (ff_short _ _ _ Hw). }
  split_and!; [done|done|].
  eapply collision_none; [| | |exact H].
  - by replace (dv_first_directory v + dv_directory_count v - dv_first_directory v) with (dv_directory_count v) by lia.
  - by replace (dv_first_file v + dv_file_count v - dv_first_file v) with (dv_file_count v) by lia.
  - lia.
Qed.
End validated.

(** ** Opening *)
Lemma from_bytes_ok (upper : Z -> list Z) {Ord : NameOrder} (blake3 : list Z -> Z) (Hblake : forall l, hash256 (blake3 l)) (b : list Z) (idx : MountIndex) :
  is_bytes b -> Z.of_nat (length b) <= u64_max -> MountIndex_from_bytes upper blake3 b = Ok idx ->
  mi_bytes idx = b /\ is_bytes (mi_bytes idx) /\ (forall k, 0 <= index_count idx k) /\ index_ok upper idx.
Proof.
  intros Hb HU. unfold MountIndex_from_bytes. intros (h & Hh & H)%bind_Ok_inv. apply bind_Ok_inv in H as (x & _ & H).
  destruct (negb _); [done|]. apply bind_Ok_inv in H as ([] & Hv & <-%Ok_inj).
  apply header_codec_dec in Hh as ((_ & _ & _ & _ & _ & Hlen & Hsec) & _); [|done..].
  assert (Hc : forall k, 0 <= index_count (mkMountIndex b h) k).
  { intros k. unfold index_count, header_section. cbn [mi_header]. apply (proj1 (Forall_lookup _ _)  Hsec (SectionKind_index k)).
    apply list_lookup_lookup_total_lt. rewrite Hlen. by destruct k; vm_compute; lia. }
  split_and!; [done|done|done|]. by apply index_validated.
Qed.
