(* ===== verification/IndexCompiler.v ===== *)
(** * Mount index compiler

    [mirage-index/src/compiler.rs] and [string_table.rs]: the breadth-first
    layout of the directories, the records of the files below them, the string
    table and the assembly of the sections with their header and hash.

    [compile_to_path] writes the bytes to a temporary file, reopens it with the
    reader and renames it; the file operations are not modelled. *)
From S2P Require Export IndexReader.

(** ** String table *)
Record StringInterner : Type := mkInterner { in_bytes : list Z; in_entries : gmap (list Z) StringRef }.
(** A string is given by its UTF-8 bytes. *)
Definition intern (st : StringInterner) (value : list Z) : result (StringRef * StringInterner) :=
  match in_entries st !! value with
  | Some existing => Ok (existing, st)
  | None =>
      if u32_max <? Z.of_nat (length value) then Err (manifest_invalid "index string length exceeds u32") else
      let reference := mkStringRef (Z.of_nat (length (in_bytes st))) (Z.of_nat (length value)) in
      Ok (reference, mkInterner (in_bytes st ++ value) (<[value := reference]> (in_entries st)))
  end.

Definition to_u32 (value : nat) (label : string) : result Z :=
  if Z.of_nat value <=? u32_max then Ok (Z.of_nat value) else Err (manifest_invalid (label +:+ " exceeds u32")).

(** ** Layout of the directories *)
Section compiler.
Context (upper : Z -> list Z) {Ord : NameOrder}.

(** [group.sort_by(compare_names)]: a stable sort. *)
Definition name_le (a b : list Z) : bool := match compare_names a b with Gt => false | _ => true end.
Definition sort_group {A : Type} (name_of : A -> list Z) (group : list A) : list A := sort_by (fun a b => name_le (name_of a) (name_of b)) group.

(** The indices whose parent is [d], in their order. *)
Definition children_of (parents : list (option Z)) (d : nat) : list nat :=
  omap (fun p : nat * option Z => if bool_decide (p.2 = Some (Z.of_nat d)) then Some p.1 else None) (imap pair parents).

Definition dir_name (m : RepositoryManifest) (i : nat) : list Z := match man_directories m !! i with Some d => md_name d | None => [] end.
Definition file_name (m : RepositoryManifest) (i : nat) : list Z := match man_files m !! i with Some f => mf_name f | None => [] end.
(** [children] of [directory_layout] and [sorted_file_children]: one sorted group
    per directory. *)
Definition sorted_directory_children (m : RepositoryManifest) : list (list nat) :=
  map (fun d => sort_group (dir_name m) (children_of (map md_parent (man_directories m)) d)) (seq 0 (length (man_directories m))).
Definition sorted_file_children (m : RepositoryManifest) : list (list nat) :=
  map (fun d => sort_group (file_name m) (children_of (map (fun f => Some (mf_parent_directory f)) (man_files m)) d)) (seq 0 (length (man_directories m))).

Record DirectoryLayout : Type := mkLayout { dl_order : list nat; dl_ranges : list (Z * Z); dl_source_to_new : list Z }.
Definition place_child (l : DirectoryLayout) (child : nat) : result DirectoryLayout :=
  new ← to_u32 (length (dl_order l)) "directory index";
  Ok (mkLayout (dl_order l ++ [child]) (dl_ranges l ++ [(0, 0)]) (<[child := new]> (dl_source_to_new l))).
(** The queue loop; a directory enters the queue once, so the number of
    directories bounds the rounds. *)
Fixpoint layout_loop (children : list (list nat)) (fuel cursor : nat) (l : DirectoryLayout) : result DirectoryLayout :=
  match fuel with
  | O => Ok l
  | S fuel =>
      match dl_order l !! cursor with
      | None => Ok l
      | Some source =>
          first ← to_u32 (length (dl_order l)) "directory child index";
          let group := children !!! source in
          count ← to_u32 (length group) "directory child count";
          l' ← for_fold place_child (mkLayout (dl_order l) (<[cursor := (first, count)]> (dl_ranges l)) (dl_source_to_new l)) group;
          layout_loop children fuel (S cursor) l'
      end
  end.
(** [iter().position(...)]. *)
Fixpoint root_position (ds : list MDirectory) : option nat :=
  match ds with [] => None | d :: ds => match md_parent d with None => Some 0%nat | Some _ => S <$> root_position ds end end.
Definition directory_layout (m : RepositoryManifest) : result DirectoryLayout :=
  root ← ok_or (manifest_invalid "manifest has no root directory") (root_position (man_directories m));
  let n := length (man_directories m) in
  layout_loop (sorted_directory_children m) (S n) 0 (mkLayout [root] [(0, 0)] (<[root := 0]> (replicate n u32_max))).

(** ** The records *)
Record CompState : Type := mkComp {
  c_interner : StringInterner; c_directories : list DirectoryRecord; c_files : list FileRecord; c_extents : list ExtentRecord;
  c_pages : list PageRecord; c_locations : list RemoteLocationRecord
}.

Definition intern_option (st : StringInterner) (value : option string) : result (option StringRef * StringInterner) :=
  match value with
  | None => Ok (None, st)
  | Some v => '(r, st) ← intern st (chars v); Ok (Some r, st)
  end.

Definition compile_page (m : RepositoryManifest) (c : CompState) (page : MPage) : result CompState :=
  location ← ok_or (manifest_invalid "remote location index is invalid") (man_remote_locations m !! Z.to_nat (mp_remote_location page));
  remote_location ← to_u32 (length (c_locations c)) "remote location index";
  let object := rm_object location in
  '(backend_id, st) ← intern (c_interner c) (chars (ro_backend_id object));
  '(provider_object_id, st) ← intern st (chars (ro_provider_object_id object));
  '(immutable_revision, st) ← intern_option st (ro_immutable_revision object);
  Ok (mkComp st (c_directories c) (c_files c) (c_extents c)
        (c_pages c ++ [mkPageRecord (mp_plaintext_hash page) (mp_logical_length page) remote_location])
        (c_locations c ++ [mkRemoteLocationRecord backend_id provider_object_id immutable_revision (ro_byte_length object)
                             (ro_content_hash object) (ro_kind object) (rm_codec location) (rm_offset location) (rm_encoded_length location)])).

(** [items.get(start..end)]. *)
Definition get_slice {A : Type} (items : list A) (start_ count : Z) (overflow invalid : string) : result (list A) :=
  end_ ← ok_or (manifest_invalid overflow) (checked_add start_ count);
  if end_ <=? Z.of_nat (length items) then Ok (zslice start_ count items) else Err (manifest_invalid invalid).

Definition compile_extent (m : RepositoryManifest) (c : CompState) (extent : MExtent) : result CompState :=
  page_start ← to_u32 (length (c_pages c)) "page ordinal";
  source_pages ← get_slice (man_pages m) (mx_page_start extent) (mx_page_count extent) "page source slice overflows" "page source slice is invalid";
  c ← for_fold (compile_page m) c source_pages;
  Ok (mkComp (c_interner c) (c_directories c) (c_files c)
        (c_extents c ++ [mkExtentRecord (mx_logical_offset extent) (mx_logical_length extent) page_start (mx_page_count extent)
                           (match last source_pages with Some page => mp_logical_length page | None => 0 end)])
        (c_pages c) (c_locations c)).

Definition compile_file (m : RepositoryManifest) (new_index : nat) (c : CompState) (source_file_index : nat) : result CompState :=
  match man_files m !! source_file_index with
  | None => Err (internal_invariant "index out of bounds")
  | Some file =>
      extent_start ← to_u32 (length (c_extents c)) "extent index";
      extents ← get_slice (man_extents m) (mf_extent_start file) (mf_extent_count file) "extent source slice overflows" "extent source slice is invalid";
      c ← for_fold (compile_extent m) c extents;
      parent ← to_u32 new_index "directory index";
      '(name, st) ← intern (c_interner c) (utf8_encode (mf_name file));
      '(key, st) ← intern st (utf8_encode (ordinal_key upper (mf_name file)));
      canonical ← to_u32 (length (c_files c)) "canonical file index";
      Ok (mkComp st (c_directories c)
            (c_files c ++ [mkFileRecord parent (mf_class file) name key (mf_logical_size file) (mf_stable_id file) extent_start (mf_extent_count file) canonical])
            (c_extents c) (c_pages c) (c_locations c))
  end.

Definition compile_directory (m : RepositoryManifest) (layout : DirectoryLayout) (file_children : list (list nat)) (c : CompState) (entry : nat * nat) : result CompState :=
  let '(new_index, source_index) := entry in
  match man_directories m !! source_index with
  | None => Err (internal_invariant "index out of bounds")
  | Some source =>
      let '(first_directory, directory_count) := dl_ranges layout !!! new_index in
      let children := file_children !!! source_index in
      first_file ← to_u32 (length (c_files c)) "file index";
      c ← for_fold (compile_file m new_index) c children;
      parent ← (match md_parent source with
                | None => Ok NO_PARENT
                | Some p => match dl_source_to_new layout !! Z.to_nat p with
                            | Some index => if index =? u32_max then Err (manifest_invalid "directory parent is not compiled") else Ok index
                            | None => Err (manifest_invalid "directory parent is not compiled")
                            end
                end);
      '(name, st) ← intern (c_interner c) (utf8_encode (md_name source));
      '(key, st) ← intern st (utf8_encode (ordinal_key upper (md_name source)));
      file_count ← to_u32 (length children) "file child count";
      canonical ← to_u32 new_index "canonical directory index";
      Ok (mkComp st (c_directories c ++ [mkDirectoryRecord parent name key first_directory directory_count first_file file_count canonical])
            (c_files c) (c_extents c) (c_pages c) (c_locations c))
  end.

(** ** Assembly *)
Definition encode_records {A : Type} (records : list A) (k : SectionKind) (encode : A -> list Z) : result (list Z) :=
  _ ← ok_or (manifest_invalid "record section allocation overflows") (checked_mul (Z.of_nat (length records)) (record_size k));
  Ok (concat (map encode records)).

(** One section appended at the next aligned offset. *)
Definition append_section (acc : list Z * list IndexSection) (payload : SectionKind * list Z * Z) : result (list Z * list IndexSection) :=
  let '(output, sections) := acc in
  let '(k, bytes, count) := payload in
  aligned ← align_up (Z.of_nat (length output)) HEADER_ALIGNMENT;
  Ok (output ++ zeros (Z.to_nat aligned - length output) ++ bytes, sections ++ [mkSection k aligned (Z.of_nat (length bytes)) count]).

(** The header is written with a zero hash, the hash of the file is taken and
    the header is written again. *)
Definition assemble (blake3 : list Z -> Z) (repository_id generation_id page_size : Z) (payloads : list (SectionKind * list Z * Z)) : result (list Z) :=
  '(output, sections) ← for_fold append_section (zeros HEADER_SIZE, []) payloads;
  header ← IndexHeader_new repository_id generation_id page_size 0 (Z.of_nat (length output)) sections;
  h0 ← IndexHeader_encode blake3 header;
  output ← write_bytes output 0 h0;
  hash ← compute_index_hash blake3 output;
  h1 ← IndexHeader_encode blake3 (with_index_hash header hash);
  write_bytes output 0 h1.

(** The payloads of the six sections. *)
Definition payloads_of (c : CompState) : result (list (SectionKind * list Z * Z)) :=
  ds ← encode_records (c_directories c) Directories DirectoryRecord_encode;
  fs ← encode_records (c_files c) Files FileRecord_encode;
  xs ← encode_records (c_extents c) Extents ExtentRecord_encode;
  ps ← encode_records (c_pages c) Pages PageRecord_encode;
  ls ← encode_records (c_locations c) RemoteLocations RemoteLocationRecord_encode;
  let strings := in_bytes (c_interner c) in
  Ok [(Strings, strings, Z.of_nat (length strings)); (Directories, ds, Z.of_nat (length (c_directories c)));
      (Files, fs, Z.of_nat (length (c_files c))); (Extents, xs, Z.of_nat (length (c_extents c)));
      (Pages, ps, Z.of_nat (length (c_pages c))); (RemoteLocations, ls, Z.of_nat (length (c_locations c)))].

Definition comp_empty : CompState := mkComp (mkInterner [] ∅) [] [] [] [] [].
Definition compile_to_bytes (blake3 : list Z -> Z) (m : RepositoryManifest) : result (list Z) :=
  _ ← validate_manifest upper m;
  layout ← directory_layout m;
  c ← for_fold (compile_directory m layout (sorted_file_children m)) comp_empty (imap pair (dl_order layout));
  payloads ← payloads_of c;
  assemble blake3 (man_repository_id m) (man_generation_id m) (man_page_size m) payloads.
End compiler.

(** ** An example *)
Definition demo_object : RemoteObjectRef := mkRemote "local" "pack-1" (Some "r1"%string) 500000 77 KPack.
Definition demo_manifest : RepositoryManifest :=
  mkManifest 2 9 4 65536
    [mkMDirectory (Some 2) (chars "data"); mkMDirectory (Some 0) (chars "Maps"); mkMDirectory None []; mkMDirectory (Some 2) (chars "Bin")]
    [mkMFile 1 (chars "level.pak") 70000 101 VirtualContainer 0 1; mkMFile 3 (chars "game.exe") 4096 102 NativeExecutable 1 0;
     mkMFile 0 (chars "Notes.txt") 100 103 VirtualAsset 1 1; mkMFile 0 (chars "empty.bin") 0 104 VirtualAsset 2 0]
    [mkMExtent 0 70000 0 2; mkMExtent 0 100 2 1]
    [mkMPage 11 65536 0; mkMPage 12 4464 1; mkMPage 13 100 0]
    [mkRemoteLocation demo_object 64 1000 CNone; mkRemoteLocation demo_object 2000 300 CNone].
Definition portable_order : NameOrder := compare_portable ascii_upper.
Definition demo_bytes : list Z :=
  match compile_to_bytes ascii_upper (Ord := portable_order) sum256 demo_manifest with Ok b => b | Err _ => [] end.
Definition demo_index : result MountIndex := MountIndex_from_bytes ascii_upper (Ord := portable_order) sum256 demo_bytes.
Example demo_index_opens : exists idx, demo_index = Ok idx /\ index_count idx Directories = 4 /\ index_count idx Files = 4 /\ index_count idx Pages = 3.
Proof. eexists. split_and!; vm_compute; reflexivity. Qed.
