(* ===== verification/IndexQueries.v ===== *)
(** * Queries on the mount index

    [mirage-index/src]: [lookup.rs] and [enumerate.rs].

    Proved for every byte string the reader opens: a child lookup finds exactly
    a child with that name up to case; the path of every node leads back to it;
    the listing pages enumerate the children in order. *)
From S2P Require Export IndexCompiler.

(** ** Lookup *)
Inductive NodeIndex : Set := NDirectory (i : Z) | NFile (i : Z).
#[export] Instance NodeIndex_eq_dec : EqDecision NodeIndex.
Proof. solve_decision. Defined.

Section queries.
Context {Ord : NameOrder}.

(** The loop of [binary_search]; each round halves [high - low], so [high - low]
    rounds are enough. *)
Fixpoint binary_search_loop (fuel : nat) (first low high : Z) (needle : list Z) (key_at : Z -> result (list Z)) : result (option Z) :=
  match fuel with
  | O => Ok None
  | S fuel =>
      if low <? high then
        let middle := low + (high - low) / 2 in
        ordinal ← ok_or (manifest_invalid "lookup child ordinal overflows") (checked_add_u32 first middle);
        key ← key_at ordinal;
        match compare_ordinal_ignore_case key needle with
        | Lt => binary_search_loop fuel first (middle + 1) high needle key_at
        | Eq => Ok (Some ordinal)
        | Gt => binary_search_loop fuel first low middle needle key_at
        end
      else Ok None
  end.
Definition binary_search (first count : Z) (needle : list Z) (key_at : Z -> result (list Z)) : result (option Z) :=
  binary_search_loop (S (Z.to_nat count)) first 0 count needle key_at.

Definition lookup_child (idx : MountIndex) (directory : DirectoryView) (name : list Z) : result (option NodeIndex) :=
  _ ← validate_lookup_component name;
  directory_match ← binary_search (dv_first_directory directory) (dv_directory_count directory) name (directory_name_at idx);
  file_match ← binary_search (dv_first_file directory) (dv_file_count directory) name (file_name_at idx);
  match directory_match, file_match with
  | Some _, Some _ => Err (repository_conflict "mount index contains an ambiguous namespace key")
  | Some index, None => Ok (Some (NDirectory index))
  | None, Some index => Ok (Some (NFile index))
  | None, None => Ok None
  end.

(** The walk over the components. *)
Fixpoint lookup_components (idx : MountIndex) (current : DirectoryView) (components : list (list Z)) : result (option NodeIndex) :=
  match components with
  | [] => Ok (Some (NDirectory (dv_ordinal current)))
  | component :: rest =>
      found ← lookup_child idx current component;
      match found, rest with
      | Some (NDirectory index), _ :: _ => next ← directory_by_index idx index; lookup_components idx next rest
      | Some node, [] => Ok (Some node)
      | Some (NFile _), _ :: _ => Ok None
      | None, _ => Ok None
      end
  end.
Definition lookup_path (idx : MountIndex) (path : list Z) : result (option NodeIndex) :=
  let trimmed := trim_separators path in
  if bool_decide (trimmed = []) then Ok (Some (NDirectory 0)) else
  current ← directory_by_index idx 0;
  lookup_components idx current (split_components trimmed).

(** ** Enumeration *)
Inductive DirectoryEntry : Set := EDirectory (index : Z) (name : list Z) | EFile (index : Z) (name : list Z).
Definition entry_name (e : DirectoryEntry) : list Z := match e with EDirectory _ n | EFile _ n => n end.

Fixpoint upper_bound_loop (fuel : nat) (first low high : Z) (marker : list Z) (name_at : Z -> result (list Z)) : result Z :=
  match fuel with
  | O => Ok low
  | S fuel =>
      if low <? high then
        let middle := low + (high - low) / 2 in
        ordinal ← ok_or (manifest_invalid "marker search ordinal overflows") (checked_add_u32 first middle);
        name ← name_at ordinal;
        match compare_names name marker with
        | Gt => upper_bound_loop fuel first low middle marker name_at
        | _ => upper_bound_loop fuel first (middle + 1) high marker name_at
        end
      else Ok low
  end.
Definition upper_bound (first count : Z) (marker : list Z) (name_at : Z -> result (list Z)) : result Z :=
  low ← upper_bound_loop (S (Z.to_nat count)) first 0 count marker name_at;
  ok_or (manifest_invalid "marker result ordinal overflows") (checked_add_u32 first low).

(** The merge of the two child ranges; every round adds one entry, so [limit]
    bounds the rounds. *)
Fixpoint merge_entries (idx : MountIndex) (limit : nat) (directory_cursor directory_end file_cursor file_end : Z) : result (list DirectoryEntry) :=
  match limit with
  | O => Ok []
  | S limit =>
      if (directory_cursor <? directory_end) || (file_cursor <? file_end) then
        take_directory ←
          (if negb (file_cursor <? file_end) then Ok true
           else if negb (directory_cursor <? directory_end) then Ok false
           else directory_name ← directory_name_at idx directory_cursor;
                file_name ← file_name_at idx file_cursor;
                Ok (match compare_names directory_name file_name with Gt => false | _ => true end));
        if (take_directory : bool) then
          view ← directory_by_index idx directory_cursor;
          name ← dv_name idx view;
          rest ← merge_entries idx limit (directory_cursor + 1) directory_end file_cursor file_end;
          Ok (EDirectory (dv_ordinal view) name :: rest)
        else
          view ← file_by_index idx file_cursor;
          name ← fv_name idx view;
          rest ← merge_entries idx limit directory_cursor directory_end (file_cursor + 1) file_end;
          Ok (EFile (fv_ordinal view) name :: rest)
      else Ok []
  end.

Definition children_after_marker (idx : MountIndex) (directory : DirectoryView) (marker : option (list Z)) (limit : Z) : result (list DirectoryEntry) :=
  if 4096 <? limit then Err (invalid_argument "directory enumeration page exceeds 4096 entries") else
  directory_end ← ok_or (manifest_invalid "directory child range overflows")
    (checked_add_u32 (dv_first_directory directory) (dv_directory_count directory));
  file_end ← ok_or (manifest_invalid "file child range overflows") (checked_add_u32 (dv_first_file directory) (dv_file_count directory));
  cursors ← (match marker with
             | Some marker =>
                 d ← upper_bound (dv_first_directory directory) (dv_directory_count directory) marker (directory_name_at idx);
                 f ← upper_bound (dv_first_file directory) (dv_file_count directory) marker (file_name_at idx);
                 Ok (d, f)
             | None => Ok (dv_first_directory directory, dv_first_file directory)
             end);
  _ ← ok_or (manifest_invalid "directory child count overflows") (checked_add (dv_directory_count directory) (dv_file_count directory));
  merge_entries idx (Z.to_nat limit) cursors.1 directory_end cursors.2 file_end.
End queries.


(** ** Lookup *)
Section lookup.
Context (upper : Z -> list Z) {Ord : NameOrder} {L : NameOrderLaws Ord}.

Lemma half_range (low high : Z) : low < high -> low <= low + (high - low) / 2 < high.
Proof. intros H. pose proof (Z.div_lt (high - low) 2 ltac:(lia) ltac:(lia)). pose proof (Z.div_pos (high - low) 2 ltac:(lia) ltac:(lia)). lia. Qed.

Definition search_result (name_at : Z -> result (list Z)) (first count : Z) (needle : list Z) (r : option Z) : Prop :=
  match r with
  | Some c => first <= c < first + count /\ exists n, name_at c = Ok n /\ compare_ordinal_ignore_case n needle = Eq
  | None => forall c n, first <= c < first + count -> name_at c = Ok n -> compare_ordinal_ignore_case n needle <> Eq
  end.

Lemma binary_search_loop_spec (name_at : Z -> result (list Z)) (first count : Z) (needle : list Z) (fuel : nat) (low high : Z) :
  sorted_names name_at first count -> short_str needle -> 0 <= first -> first + count <= u32_max ->
  0 <= low -> low <= high -> high <= count -> high - low < Z.of_nat fuel ->
  (forall c n, first <= c < first + low -> name_at c = Ok n -> compare_ordinal_ignore_case n needle <> Eq) ->
  (forall c n, first + high <= c < first + count -> name_at c = Ok n -> compare_ordinal_ignore_case n needle <> Eq) ->
  exists r, binary_search_loop fuel first low high needle name_at = Ok r /\ search_result name_at first count needle r.
Proof using L.
  intros Hs Hn Hf Hu. revert low high. induction fuel as [|fuel IH]; intros low high Hl Hlh Hh Hfuel Hlow Hhigh; [lia|]. cbn [binary_search_loop].
  destruct (Z.ltb_spec low high) as [Hlt|Hge].
  - pose proof (half_range low high Hlt) as Hm. set (mid := low + (high - low) / 2) in *.
    rewrite (proj2 (checked_add_u32_Some first mid (first + mid))) by lia. cbn [ok_or mbind result_bind].
    destruct (Hs (first + mid) ltac:(lia)) as (n & Hnm & Hsn & _). rewrite Hnm. cbn [mbind result_bind].
    destruct (compare_ordinal_ignore_case n needle) eqn:E.
    + exists (Some (first + mid)). split; [done|]. split; [lia|eauto].
    + apply IH; try lia; [|done]. intros c m Hc Hm' Heq. destruct (Hs c ltac:(lia)) as (m' & Hm2 & Hsm & _). rewrite Hm' in Hm2. apply Ok_inj in Hm2 as <-.
      rewrite name_key_spec in E, Heq by done. assert (Hle : lex_compare (name_key m) (name_key n) <> Gt) by (eapply (sorted_names_key name_at first count c (first + mid)); [done|lia|lia|lia|done|done]).
      by rewrite (lex_compare_le_lt _ _ _ Hle E) in Heq.
    + apply IH; try lia; [done|]. intros c m Hc Hm' Heq. destruct (Hs c ltac:(lia)) as (m' & Hm2 & Hsm & _). rewrite Hm' in Hm2. apply Ok_inj in Hm2 as <-.
      rewrite name_key_spec in E, Heq by done. assert (Hle : lex_compare (name_key n) (name_key m) <> Gt) by (eapply (sorted_names_key name_at first count (first + mid) c); [done|lia|lia|lia|done|done]).
      apply lex_compare_gt in E. apply lex_compare_eq in Heq. rewrite Heq in Hle. apply lex_compare_gt in E. done.
  - exists None. split; [done|]. intros c n Hc. destruct (Z_lt_le_dec c (first + low)); [apply Hlow; lia|apply Hhigh; lia].
Qed.
Lemma binary_search_spec (name_at : Z -> result (list Z)) (first count : Z) (needle : list Z) :
  sorted_names name_at first count -> short_str needle -> 0 <= first -> 0 <= count -> first + count <= u32_max ->
  exists r, binary_search first count needle name_at = Ok r /\ search_result name_at first count needle r.
Proof using L. intros. apply binary_search_loop_spec; try lia; try done; intros c n Hc; lia. Qed.

(** The nodes that [name] denotes in a directory. *)
Definition child_named (idx : MountIndex) (v : DirectoryView) (name : list Z) (node : NodeIndex) : Prop :=
  match node with
  | NDirectory c => dv_first_directory v <= c < dv_first_directory v + dv_directory_count v /\
      exists n, directory_name_at idx c = Ok n /\ compare_ordinal_ignore_case n name = Eq
  | NFile c => dv_first_file v <= c < dv_first_file v + dv_file_count v /\
      exists n, file_name_at idx c = Ok n /\ compare_ordinal_ignore_case n name = Eq
  end.

Lemma lookup_ok_short (name : list Z) : is_str name -> lookup_component_ok name = true -> short_str name.
Proof using.
  intros Hs H. split; [done|]. unfold lookup_component_ok in H. zbool.
  enough (utf16_units name <= str_len name) by (unfold MAX_COMPONENT_BYTES, i32_max in *; lia).
  clear -Hs. unfold str_len, utf16_units. induction Hs as [|c s Hc Hs IH]; [done|].
  rewrite utf8_encode_cons, length_app, sumZ_cons. apply is_char_spec in Hc as [Hc _].
  assert (utf16_len c <= Z.of_nat (length (utf8_char c))) by (unfold utf16_len, utf8_char; repeat case_match; cbn [length]; zbool; lia). lia.
Qed.

Lemma lookup_child_spec (idx : MountIndex) (i : Z) (v : DirectoryView) (name : list Z) :
  index_ok upper idx -> 0 <= i < index_count idx Directories -> directory_by_index idx i = Ok v -> is_str name -> lookup_component_ok name = true ->
  exists r, lookup_child idx v name = Ok r /\
    match r with Some node => child_named idx v name node | None => forall node, ~ child_named idx v name node end.
Proof using L.
  intros Hok Hi Hv Hs Hc. destruct (ok_dir _ _ Hok i Hi) as (v' & dn & Hd). pose proof (df_read _ _ _ _ _ Hd) as Hr. rewrite Hv in Hr. apply Ok_inj in Hr as <-.
  destruct (children_sorted upper idx i v dn Hok Hd) as (S1 & S2 & Hno). pose proof (lookup_ok_short name Hs Hc) as Hsh.
  destruct (df_dirs _ _ _ _ _ Hd) as (D1 & D2 & D3), (df_files _ _ _ _ _ Hd) as (F1 & F2 & F3).
  unfold lookup_child, validate_lookup_component. rewrite Hc. cbn [negb fail_if mbind result_bind].
  destruct (binary_search_spec _ _ _ name S1 Hsh D1 D2 ltac:(lia)) as (rd & -> & Hrd).
  destruct (binary_search_spec _ _ _ name S2 Hsh F1 F2 ltac:(lia)) as (rf & -> & Hrf). cbn [mbind result_bind].
  destruct rd as [cd|], rf as [cf|].
  - exfalso. destruct Hrd as [Hcd (n & Hn & En)], Hrf as [Hcf (m & Hm & Em)].
    destruct (S1 cd Hcd) as (n' & Hn' & Hsn & _), (S2 cf Hcf) as (m' & Hm' & Hsm & _). rewrite Hn in Hn'. apply Ok_inj in Hn' as <-. rewrite Hm in Hm'. apply Ok_inj in Hm' as <-.
    apply (Hno cd cf n m Hcd Hcf Hn Hm). apply compare_ordinal_eq in En, Em; [|done..]. apply compare_ordinal_eq; [done..|]. congruence.
  - eexists. split; [done|]. exact Hrd.
  - eexists. split; [done|]. exact Hrf.
  - eexists. split; [done|]. intros [c|c] [Hr (n & Hn & E)]; [by apply (Hrd c n)|by apply (Hrf c n)].
Qed.

(** ** Paths *)
Inductive descends (idx : MountIndex) : Z -> list (list Z) -> NodeIndex -> Prop :=
| descends_here (i : Z) : descends idx i [] (NDirectory i)
| descends_dir (i : Z) (v : DirectoryView) (c : Z) (n : list Z) (rest : list (list Z)) (node : NodeIndex) :
    directory_by_index idx i = Ok v -> dv_first_directory v <= c < dv_first_directory v + dv_directory_count v ->
    directory_name_at idx c = Ok n -> descends idx c rest node -> descends idx i (n :: rest) node
| descends_file (i : Z) (v : DirectoryView) (c : Z) (n : list Z) :
    directory_by_index idx i = Ok v -> dv_first_file v <= c < dv_first_file v + dv_file_count v ->
    file_name_at idx c = Ok n -> descends idx i [n] (NFile c).

(** Siblings of one kind differ in their lookup key. *)
Definition no_case_collisions (idx : MountIndex) : Prop :=
  forall i v, 0 <= i < index_count idx Directories -> directory_by_index idx i = Ok v ->
  (forall c c' n n', dv_first_directory v <= c < dv_first_directory v + dv_directory_count v ->
     dv_first_directory v <= c' < dv_first_directory v + dv_directory_count v ->
     directory_name_at idx c = Ok n -> directory_name_at idx c' = Ok n' -> compare_ordinal_ignore_case n n' = Eq -> c = c') /\
  (forall c c' n n', dv_first_file v <= c < dv_first_file v + dv_file_count v -> dv_first_file v <= c' < dv_first_file v + dv_file_count v ->
     file_name_at idx c = Ok n -> file_name_at idx c' = Ok n' -> compare_ordinal_ignore_case n n' = Eq -> c = c').

(** The components joined with slashes. *)
Fixpoint join_path (components : list (list Z)) : list Z :=
  match components with [] => [] | [w] => w | w :: rest => w ++ 47 :: join_path rest end.
Definition plain_component (w : list Z) : Prop := w <> [] /\ Forall (fun c => is_separator c = false) w.

Lemma split_plain (w : list Z) (s : list Z) : Forall (fun c => is_separator c = false) w ->
  split_components (w ++ 47 :: s) = w :: split_components s.
Proof using. induction 1 as [|c w Hc Hw IH]; [done|]. cbn [app split_components]. by rewrite Hc, IH. Qed.
Lemma split_single (w : list Z) : Forall (fun c => is_separator c = false) w -> split_components w = [w].
Proof using. induction 1 as [|c w Hc Hw IH]; [done|]. cbn [split_components]. by rewrite Hc, IH. Qed.
Lemma split_components_join (ws : list (list Z)) : ws <> [] -> Forall plain_component ws -> split_components (join_path ws) = ws.
Proof using.
  induction ws as [|w ws IH]; [done|]. intros _ [Hw Hws]%Forall_cons. destruct ws as [|w' ws]; [by apply split_single, Hw|].
  change (join_path (w :: w' :: ws)) with (w ++ 47 :: join_path (w' :: ws)). rewrite split_plain by apply Hw. by rewrite IH.
Qed.
Lemma trim_start_plain (s : list Z) : (forall c s', s = c :: s' -> is_separator c = false) -> trim_start s = s.
Proof using. destruct s as [|c s]; [done|]. intros H. cbn [trim_start]. by rewrite (H c s eq_refl). Qed.
Lemma join_head (ws : list (list Z)) : Forall plain_component ws -> forall c s, join_path ws = c :: s -> is_separator c = false.
Proof using.
  destruct ws as [|w ws]; [done|]. intros [[Hne Hw] _]%Forall_cons c s. destruct w as [|d w]; [done|]. apply Forall_cons in Hw as [Hd _].
  destruct ws; intros [= -> _]; done.
Qed.
Lemma join_last (ws : list (list Z)) : Forall plain_component ws -> forall c s, join_path ws = s ++ [c] -> is_separator c = false.
Proof using.
  induction ws as [|w ws IH]; [by intros _ c []|]. intros [[Hne Hw] Hws]%Forall_cons c s. destruct ws as [|w' ws].
  - intros E. change (join_path [w]) with w in E. rewrite E in Hw. apply Forall_app in Hw as [_ Hc]. by apply Forall_cons in Hc as [? _].
  - change (join_path (w :: w' :: ws)) with (w ++ 47 :: join_path (w' :: ws)). intros E.
    destruct (join_path (w' :: ws)) as [|d t _] eqn:Ej using rev_ind.
    + exfalso. apply Forall_cons in Hws as [[Hn _] _]. destruct ws; [by subst|]. destruct w'; done.
    + rewrite app_comm_cons, app_assoc in E. apply app_inj_tail in E as [_ <-]. by apply (IH Hws d t).
Qed.
Lemma trim_join (ws : list (list Z)) : Forall plain_component ws -> trim_separators (join_path ws) = join_path ws.
Proof using.
  intros H. unfold trim_separators. rewrite (trim_start_plain (join_path ws)) by (by apply join_head).
  rewrite trim_start_plain; [apply reverse_involutive|]. intros c s E. apply (join_last ws H c (reverse s)).
  rewrite <- (reverse_involutive (join_path ws)), E. by rewrite reverse_cons.
Qed.
Lemma join_nonempty (ws : list (list Z)) : ws <> [] -> Forall plain_component ws -> join_path ws <> [].
Proof using. destruct ws as [|w ws]; [done|]. intros _ [[Hn _] _]%Forall_cons. destruct ws, w; done. Qed.

Lemma valid_plain (w : list Z) : validate_component upper w = Ok tt -> plain_component w.
Proof using.
  unfold validate_component. destruct (_ || _); [done|]. unfold fold_name. destruct (bool_decide_reflect (w = [])) as [|Hne]; [done|]. cbn [orb].
  destruct (_ || _); [done|]. destruct (existsb invalid_char w) eqn:E; [done|]. intros _. split; [done|].
  apply Forall_forall. intros c Hc. destruct (is_separator c) eqn:Es; [|done]. exfalso.
  assert (invalid_char c = true); [|by assert (existsb invalid_char w = true) by (apply existsb_exists; exists c; split; [by apply list_elem_of_In|done]); congruence].
  unfold is_separator in Es. unfold invalid_char. apply orb_true_iff in Es as [E1|E1]; apply Z.eqb_eq in E1 as ->; reflexivity.
Qed.

Section resolution.
Context (idx : MountIndex) (Hok : index_ok upper idx).

Lemma dir_view_facts (i : Z) (v : DirectoryView) : 0 <= i < index_count idx Directories -> directory_by_index idx i = Ok v -> exists n, dir_facts upper idx i v n.
Proof using Hok. intros Hi Hv. destruct (ok_dir _ _ Hok i Hi) as (w & n & Hw). pose proof (df_read _ _ _ _ _ Hw) as E. rewrite Hv in E. apply Ok_inj in E as <-. eauto. Qed.
Lemma child_dir_bounds (i : Z) (v : DirectoryView) (c : Z) : 0 <= i < index_count idx Directories -> directory_by_index idx i = Ok v ->
  dv_first_directory v <= c < dv_first_directory v + dv_directory_count v -> 1 <= c < index_count idx Directories.
Proof using Hok.
  intros Hi Hv Hc. destruct (dir_view_facts i v Hi Hv) as (n & Hd). destruct (df_dirs _ _ _ _ _ Hd) as (D1 & D2 & D3).
  pose proof (ok_first_dir _ _ Hok i v Hv Hi). lia.
Qed.

(** The components along a path are valid names. *)
Lemma descends_plain (i : Z) (comps : list (list Z)) (node : NodeIndex) :
  0 <= i < index_count idx Directories -> descends idx i comps node -> Forall (fun w => is_str w /\ plain_component w) comps.
Proof using Hok.
  intros Hi H. induction H as [i|i v c n rest node Hv Hc Hn H IH|i v c n Hv Hc Hn]; [constructor|..].
  - pose proof (child_dir_bounds i v c Hi Hv Hc) as Hcb. constructor; [|apply IH; lia].
    destruct (directory_name_facts upper idx c Hok ltac:(lia)) as (w & n' & Hw & Hn'). rewrite Hn in Hn'. apply Ok_inj in Hn' as <-.
    split; [apply (df_short _ _ _ _ _ Hw)|]. apply valid_plain, (df_valid _ _ _ _ _ Hw). lia.
  - destruct (dir_view_facts i v Hi Hv) as (dn & Hd). destruct (df_files _ _ _ _ _ Hd) as (D1 & D2 & D3).
    destruct (file_name_facts upper idx c Hok ltac:(lia)) as (w & n' & Hw & Hn'). rewrite Hn in Hn'. apply Ok_inj in Hn' as <-.
    repeat constructor; [apply (ff_short _ _ _ _ _ Hw)|apply (valid_plain n), (ff_valid _ _ _ _ _ Hw)..].
Qed.

Lemma lookup_component_sound (name : list Z) (i : Z) (v : DirectoryView) (node : NodeIndex) :
  no_case_collisions idx -> 0 <= i < index_count idx Directories -> directory_by_index idx i = Ok v -> is_str name -> lookup_component_ok name = true ->
  match node with
  | NDirectory c => dv_first_directory v <= c < dv_first_directory v + dv_directory_count v /\ directory_name_at idx c = Ok name
  | NFile c => dv_first_file v <= c < dv_first_file v + dv_file_count v /\ file_name_at idx c = Ok name
  end -> lookup_child idx v name = Ok (Some node).
Proof using Hok L.
  intros Hnc Hi Hv Hs Hc Hnode. pose proof (lookup_ok_short name Hs Hc) as Hsh.
  destruct (lookup_child_spec idx i v name Hok Hi Hv Hs Hc) as (r & -> & Hr). destruct (dir_view_facts i v Hi Hv) as (dn & Hd).
  destruct (children_sorted upper idx i v dn Hok Hd) as (_ & _ & Hno). destruct (Hnc i v Hi Hv) as [Hnd Hnf].
  assert (Hrefl : compare_ordinal_ignore_case name name = Eq) by (by apply compare_ordinal_eq).
  destruct r as [node'|].
  - do 2 f_equal. destruct node' as [c'|c'], node as [c|c]; destruct Hr as [Hcr (n & Hn & E)], Hnode as [Hcn Hname].
    + f_equal. by apply (Hnd c' c n name).
    + exfalso. by apply (Hno c' c n name Hcr Hcn Hn Hname).
    + exfalso. assert (Hsn : short_str n).
      { destruct (df_files _ _ _ _ _ Hd) as (F1 & F2 & F3). destruct (file_name_facts upper idx c' Hok ltac:(lia)) as (w & n' & Hw & Hn').
        rewrite Hn in Hn'. apply Ok_inj in Hn' as <-. apply (ff_short _ _ _ _ _ Hw). }
      apply (Hno c c' name n Hcn Hcr Hname Hn). apply compare_ordinal_eq; [done..|]. apply compare_ordinal_eq in E; done.
    + f_equal. by apply (Hnf c' c n name).
  - exfalso. apply (Hr node). destruct node as [c|c]; destruct Hnode as [Hcn Hname]; split; eauto.
Qed.

Lemma lookup_components_descend (i : Z) (v : DirectoryView) (comps : list (list Z)) (node : NodeIndex) :
  no_case_collisions idx -> 0 <= i < index_count idx Directories -> directory_by_index idx i = Ok v -> descends idx i comps node ->
  Forall (fun w => lookup_component_ok w = true) comps -> comps <> [] -> lookup_components idx v comps = Ok (Some node).
Proof using Hok L.
  intros Hnc Hi Hv H. revert v Hi Hv. induction H as [i|i u c n rest node Hu Hc Hn H IH|i u c n Hu Hc Hn]; intros v Hi Hv Hlc Hne; [done|..].
  - rewrite Hv in Hu. apply Ok_inj in Hu as <-. pose proof (child_dir_bounds i v c Hi Hv Hc) as Hcb.
    apply Forall_cons in Hlc as [Hl1 Hl2]. destruct (directory_name_facts upper idx c Hok ltac:(lia)) as (w & n' & Hw & Hn').
    rewrite Hn in Hn'. apply Ok_inj in Hn' as <-. cbn [lookup_components].
    rewrite (lookup_component_sound n i v (NDirectory c)) by (done || apply (df_short _ _ _ _ _ Hw)). cbn [mbind result_bind].
    destruct rest as [|r rest]; [by inversion H|]. rewrite (df_read _ _ _ _ _ Hw). cbn [mbind result_bind]. apply IH; [lia|apply Hw|done|done].
  - rewrite Hv in Hu. apply Ok_inj in Hu as <-. apply Forall_cons in Hlc as [Hl1 _]. destruct (dir_view_facts i v Hi Hv) as (dn & Hd).
    destruct (df_files _ _ _ _ _ Hd) as (F1 & F2 & F3). destruct (file_name_facts upper idx c Hok ltac:(lia)) as (w & n' & Hw & Hn').
    rewrite Hn in Hn'. apply Ok_inj in Hn' as <-. cbn [lookup_components].
    rewrite (lookup_component_sound n i v (NFile c)) by (done || apply (ff_short _ _ _ _ _ Hw)). done.
Qed.

Lemma descends_snoc (i : Z) (comps : list (list Z)) (j : Z) (more : list (list Z)) (node : NodeIndex) :
  descends idx i comps (NDirectory j) -> descends idx j more node -> descends idx i (comps ++ more) node.
Proof using.
  intros H. remember (NDirectory j) as target eqn:Et. induction H as [i|i v c n rest t Hv Hc Hn H IH|]; intros Hm; simplify_eq; [done|].
  cbn [app]. eapply descends_dir; [done..|]. by apply IH.
Qed.
(** Every directory, hence every file, is reached from the root. *)
Lemma directory_reached (c : Z) : 0 <= c < index_count idx Directories -> exists comps, descends idx 0 comps (NDirectory c).
Proof using Hok.
  intros Hc. assert (Hind : forall n : nat, forall c, 0 <= c < Z.of_nat n -> c < index_count idx Directories -> exists comps, descends idx 0 comps (NDirectory c)).
  { clear c Hc. induction n as [|n IH]; intros c Hcn Hc; [lia|]. destruct (Z.eq_dec c 0) as [->|Hne]; [exists []; constructor|].
    destruct (ok_dir_parent _ _ Hok c ltac:(lia)) as (j & v & nm & Hj & Hd & Hr). destruct (df_child_dirs _ _ _ _ _ Hd c Hr) as (w & Hw & Hp).
    destruct (directory_name_facts upper idx c Hok ltac:(lia)) as (w' & cn & Hw' & Hcn'). pose proof (df_read _ _ _ _ _ Hw') as E. rewrite Hw in E. apply Ok_inj in E as <-.
    destruct (df_parent _ _ _ _ _ Hw') as [|Hpar]; [lia|]. rewrite Hp in Hpar. destruct (IH j ltac:(lia) ltac:(lia)) as (comps & Hcomps).
    exists (comps ++ [cn]). eapply descends_snoc; [done|]. eapply descends_dir; [apply Hd|done|done|constructor]. }
  apply (Hind (S (Z.to_nat c))); lia.
Qed.
End resolution.

(** ** Listings *)
Definition entry_lt (a b : DirectoryEntry) : Prop := compare_names (entry_name a) (entry_name b) = Lt.
Definition after_marker (marker : option (list Z)) (e : DirectoryEntry) : bool :=
  match marker with None => true | Some m => match compare_names (entry_name e) m with Gt => true | _ => false end end.

(** The entries of the children from the cursors on. *)
Definition entry_within (idx : MountIndex) (dc de fc fe : Z) (e : DirectoryEntry) : Prop :=
  match e with
  | EDirectory c n => dc <= c < de /\ directory_name_at idx c = Ok n
  | EFile c n => fc <= c < fe /\ file_name_at idx c = Ok n
  end.
Definition is_child_entry (idx : MountIndex) (v : DirectoryView) : DirectoryEntry -> Prop :=
  entry_within idx (dv_first_directory v) (dv_first_directory v + dv_directory_count v) (dv_first_file v) (dv_first_file v + dv_file_count v).

Lemma name_at_view (idx : MountIndex) (c : Z) (n : list Z) : is_bytes (mi_bytes idx) -> directory_name_at idx c = Ok n ->
  exists v, directory_by_index idx c = Ok v /\ dv_name idx v = Ok n /\ dv_ordinal v = c.
Proof using. intros Hb (v & Hv & Hn)%bind_Ok_inv. exists v. split_and!; [done|done|]. by apply (directory_by_index_Ok idx Hb). Qed.
Lemma file_name_at_view (idx : MountIndex) (c : Z) (n : list Z) : is_bytes (mi_bytes idx) -> file_name_at idx c = Ok n ->
  exists v, file_by_index idx c = Ok v /\ fv_name idx v = Ok n /\ fv_ordinal v = c.
Proof using. intros Hb (v & Hv & Hn)%bind_Ok_inv. exists v. split_and!; [done|done|]. by apply (file_by_index_Ok idx Hb). Qed.

Lemma compare_names_gt (l r : list Z) : short_str l -> short_str r -> compare_names l r = Gt <-> compare_names r l = Lt.
Proof using L. intros Hl Hr. rewrite (compare_names_antisym r l) by done. by destruct (compare_names r l). Qed.

(** [M] is what the merge lists from the cursors on, whatever the limit. *)
Definition listing (idx : MountIndex) (dc de fc fe : Z) (M : list DirectoryEntry) : Prop :=
  (forall k, merge_entries idx k dc de fc fe = Ok (take k M)) /\ StronglySorted entry_lt M /\
  (forall e, e ∈ M <-> entry_within idx dc de fc fe e).

(** Adding the directory, or the file, at the cursor. *)
Lemma listing_directory (idx : MountIndex) (dc de fc fe : Z) (nd : list Z) (M : list DirectoryEntry) : is_bytes (mi_bytes idx) ->
  sorted_names (directory_name_at idx) dc (de - dc) -> dc < de -> directory_name_at idx dc = Ok nd ->
  (forall k, merge_entries idx (S k) dc de fc fe = (view ← directory_by_index idx dc; name ← dv_name idx view;
     rest ← merge_entries idx k (dc + 1) de fc fe; Ok (EDirectory (dv_ordinal view) name :: rest))) ->
  (forall f m, fc <= f < fe -> file_name_at idx f = Ok m -> compare_names nd m = Lt) ->
  listing idx (dc + 1) de fc fe M -> listing idx dc de fc fe (EDirectory dc nd :: M).
Proof using.
  intros Hb Hd Hlt Hnd Hunf Hsm (HM & HS & Hin). destruct (name_at_view idx dc nd Hb Hnd) as (v & Hv & Hvn & Hvo).
  destruct (Hd dc ltac:(lia)) as (nd' & Hnd' & Hsn & Hnext). rewrite Hnd in Hnd'. apply Ok_inj in Hnd' as <-. split; [|split].
  - intros [|k]; [done|]. rewrite Hunf, Hv. cbn [mbind result_bind]. rewrite Hvn. cbn [mbind result_bind]. rewrite HM. cbn [mbind result_bind]. by rewrite Hvo.
  - constructor; [done|]. apply Forall_forall. intros e He%Hin. unfold entry_lt. cbn [entry_name].
    destruct e as [c n|f m]; destruct He as [Hr Hn]; cbn [entry_name]; [|by apply (Hsm f)].
    destruct (Hnext c ltac:(lia)) as (n' & Hn' & Hl). rewrite Hn in Hn'. by apply Ok_inj in Hn' as <-.
  - intros e. rewrite elem_of_cons, Hin. split.
    + intros [->|He]; [split; [lia|done]|]. destruct e; destruct He as [? ?]; split; (done || lia).
    + destruct e as [c n|f m]; intros [Hr Hn]; [|right; split; [lia|done]]. destruct (Z.eq_dec c dc) as [->|Hne]; [left; congruence|].
      right. split; [lia|done].
Qed.
Lemma listing_file (idx : MountIndex) (dc de fc fe : Z) (nf : list Z) (M : list DirectoryEntry) : is_bytes (mi_bytes idx) ->
  sorted_names (file_name_at idx) fc (fe - fc) -> fc < fe -> file_name_at idx fc = Ok nf ->
  (forall k, merge_entries idx (S k) dc de fc fe = (view ← file_by_index idx fc; name ← fv_name idx view;
     rest ← merge_entries idx k dc de (fc + 1) fe; Ok (EFile (fv_ordinal view) name :: rest))) ->
  (forall c n, dc <= c < de -> directory_name_at idx c = Ok n -> compare_names nf n = Lt) ->
  listing idx dc de (fc + 1) fe M -> listing idx dc de fc fe (EFile fc nf :: M).
Proof using.
  intros Hb Hf Hlt Hnf Hunf Hsm (HM & HS & Hin). destruct (file_name_at_view idx fc nf Hb Hnf) as (v & Hv & Hvn & Hvo).
  destruct (Hf fc ltac:(lia)) as (nf' & Hnf' & Hsn & Hnext). rewrite Hnf in Hnf'. apply Ok_inj in Hnf' as <-. split; [|split].
  - intros [|k]; [done|]. rewrite Hunf, Hv. cbn [mbind result_bind]. rewrite Hvn. cbn [mbind result_bind]. rewrite HM. cbn [mbind result_bind]. by rewrite Hvo.
  - constructor; [done|]. apply Forall_forall. intros e He%Hin. unfold entry_lt. cbn [entry_name].
    destruct e as [c n|f m]; destruct He as [Hr Hn]; cbn [entry_name]; [by apply (Hsm c)|].
    destruct (Hnext f ltac:(lia)) as (m' & Hm' & Hl). rewrite Hn in Hm'. by apply Ok_inj in Hm' as <-.
  - intros e. rewrite elem_of_cons, Hin. split.
    + intros [->|He]; [split; [lia|done]|]. destruct e; destruct He as [? ?]; split; (done || lia).
    + destruct e as [c n|f m]; intros [Hr Hn]; [right; split; [lia|done]|]. destruct (Z.eq_dec f fc) as [->|Hne]; [left; congruence|].
      right. split; [lia|done].
Qed.
(** A name below the first of a sorted range is below them all. *)
Lemma below_sorted (name_at : Z -> result (list Z)) (first count : Z) (n m : list Z) :
  sorted_names name_at first count -> short_str n -> name_at first = Ok m -> compare_names n m = Lt ->
  forall c k, first <= c < first + count -> name_at c = Ok k -> compare_names n k = Lt.
Proof using L.
  intros Hs Hn Hm Hlt c k Hc Hk. destruct (Hs first ltac:(lia)) as (m' & Hm' & Hsm & Hnext). rewrite Hm in Hm'. apply Ok_inj in Hm' as <-.
  destruct (Z.eq_dec c first) as [->|Hne]; [congruence|]. destruct (Hnext c ltac:(lia)) as (k' & Hk' & Hl). rewrite Hk in Hk'. apply Ok_inj in Hk' as <-.
  destruct (Hs c Hc) as (k2 & Hk2 & Hsk & _). rewrite Hk in Hk2. apply Ok_inj in Hk2 as <-. by apply (compare_names_trans n m k).
Qed.

Lemma merge_entries_spec (idx : MountIndex) (rem : nat) (dc de fc fe : Z) : is_bytes (mi_bytes idx) ->
  sorted_names (directory_name_at idx) dc (de - dc) -> sorted_names (file_name_at idx) fc (fe - fc) ->
  (forall c f n m, dc <= c < de -> fc <= f < fe -> directory_name_at idx c = Ok n -> file_name_at idx f = Ok m -> compare_ordinal_ignore_case n m <> Eq) ->
  Z.max 0 (de - dc) + Z.max 0 (fe - fc) = Z.of_nat rem -> exists M, listing idx dc de fc fe M.
Proof using L.
  intros Hb. revert dc fc. induction rem as [|rem IH]; intros dc fc Hd Hf Hno Hrem.
  { exists []. split; [|split; [constructor|]].
    - intros [|k]; [done|]. cbn [merge_entries]. destruct (Z.ltb_spec dc de); [lia|]. destruct (Z.ltb_spec fc fe); [lia|]. done.
    - intros e. split; [by intros ?%elem_of_nil|]. destruct e; intros [? _]; lia. }
  assert (Hstepd : dc < de -> exists M, listing idx (dc + 1) de fc fe M).
  { intros Hlt. apply IH; [|done|intros c f n m Hc; apply Hno; lia|lia].
    apply sorted_names_tail in Hd. by replace (de - (dc + 1)) with (de - dc - 1) by lia. }
  assert (Hstepf : fc < fe -> exists M, listing idx dc de (fc + 1) fe M).
  { intros Hlt. apply IH; [done| |intros c f n m Hc Hff; apply Hno; lia|lia].
    apply sorted_names_tail in Hf. by replace (fe - (fc + 1)) with (fe - fc - 1) by lia. }
  destruct (Z_lt_le_dec dc de) as [Hdlt|Hdge], (Z_lt_le_dec fc fe) as [Hflt|Hfge]; [| | |lia].
  - destruct (Hd dc ltac:(lia)) as (nd & Hnd & Hsnd & _), (Hf fc ltac:(lia)) as (nf & Hnf & Hsnf & _).
    destruct (Hstepd Hdlt) as (Md & HMd), (Hstepf Hflt) as (Mf & HMf). destruct (compare_names nd nf) eqn:E.
    + exfalso. apply compare_names_eq in E as ->; [|done..]. apply (Hno dc fc nf nf ltac:(lia) ltac:(lia) Hnd Hnf). by apply compare_ordinal_eq.
    + eexists. apply (listing_directory idx dc de fc fe nd Md); [done..| | |done].
      * intros k. cbn [merge_entries]. rewrite (proj2 (Z.ltb_lt dc de) Hdlt), (proj2 (Z.ltb_lt fc fe) Hflt), Hnd, Hnf. cbn [orb negb mbind result_bind]. by rewrite E.
      * intros f m Hr. apply (below_sorted _ _ _ nd nf Hf); [done..|lia].
    + eexists. apply (listing_file idx dc de fc fe nf Mf); [done..| | |done].
      * intros k. cbn [merge_entries]. rewrite (proj2 (Z.ltb_lt dc de) Hdlt), (proj2 (Z.ltb_lt fc fe) Hflt), Hnd, Hnf. cbn [orb negb mbind result_bind]. by rewrite E.
      * apply compare_names_gt in E; [|done..]. intros c n Hr. apply (below_sorted _ _ _ nf nd Hd); [done..|lia].
  - destruct (Hd dc ltac:(lia)) as (nd & Hnd & _), (Hstepd Hdlt) as (Md & HMd). eexists.
    apply (listing_directory idx dc de fc fe nd Md); [done..| |intros f m; lia|done].
    intros k. cbn [merge_entries]. by rewrite (proj2 (Z.ltb_lt dc de) Hdlt), (proj2 (Z.ltb_ge fc fe) Hfge).
  - destruct (Hf fc ltac:(lia)) as (nf & Hnf & _), (Hstepf Hflt) as (Mf & HMf). eexists.
    apply (listing_file idx dc de fc fe nf Mf); [done..| |intros c n; lia|done].
    intros k. cbn [merge_entries]. by rewrite (proj2 (Z.ltb_ge dc de) Hdge), (proj2 (Z.ltb_lt fc fe) Hflt).
Qed.

Lemma upper_bound_loop_spec (name_at : Z -> result (list Z)) (first count : Z) (marker : list Z) (fuel : nat) (low high : Z) :
  sorted_names name_at first count -> short_str marker -> 0 <= first -> first + count <= u32_max ->
  0 <= low -> low <= high -> high <= count -> high - low < Z.of_nat fuel ->
  (forall c n, first <= c < first + low -> name_at c = Ok n -> compare_names n marker <> Gt) ->
  (forall c n, first + high <= c < first + count -> name_at c = Ok n -> compare_names n marker = Gt) ->
  exists r, upper_bound_loop fuel first low high marker name_at = Ok r /\ 0 <= r <= count /\
    forall c n, first <= c < first + count -> name_at c = Ok n -> (compare_names n marker = Gt <-> first + r <= c).
Proof using L.
  intros Hs Hn Hf Hu. revert low high. induction fuel as [|fuel IH]; intros low high Hl Hlh Hh Hfuel Hlow Hhigh; [lia|]. cbn [upper_bound_loop].
  destruct (Z.ltb_spec low high) as [Hlt|Hge].
  - pose proof (half_range low high Hlt) as Hm. set (mid := low + (high - low) / 2) in *.
    rewrite (proj2 (checked_add_u32_Some first mid (first + mid))) by lia. cbn [ok_or mbind result_bind].
    destruct (Hs (first + mid) ltac:(lia)) as (n & Hnm & Hsn & Hnext). rewrite Hnm. cbn [mbind result_bind].
    assert (Hmono : compare_names n marker <> Gt -> forall c m, first <= c < first + (mid + 1) -> name_at c = Ok m -> compare_names m marker <> Gt).
    { intros Hle c m Hc Hcm. destruct (Z.eq_dec c (first + mid)) as [->|Hne]; [congruence|]. destruct (Hs c ltac:(lia)) as (m' & Hm2 & Hsm & Hmn).
      rewrite Hcm in Hm2. apply Ok_inj in Hm2 as <-. destruct (Hmn (first + mid) ltac:(lia)) as (n' & Hn' & Hl'). rewrite Hnm in Hn'. apply Ok_inj in Hn' as <-.
      intros Hgt. apply Hle. apply compare_names_gt in Hgt; [|done..]. apply compare_names_gt; [done..|]. by apply (compare_names_trans marker m n). }
    destruct (compare_names n marker) eqn:E; [apply IH; try lia; [by apply Hmono|done]|apply IH; try lia; [by apply Hmono|done]|].
    apply IH; try lia; [done|]. intros c m Hc Hcm. destruct (Z.eq_dec c (first + mid)) as [->|Hne]; [congruence|].
    destruct (Hnext c ltac:(lia)) as (m' & Hm' & Hl'). rewrite Hcm in Hm'. apply Ok_inj in Hm' as <-. destruct (Hs c ltac:(lia)) as (m2 & Hm2 & Hsm & _).
    rewrite Hcm in Hm2. apply Ok_inj in Hm2 as <-. apply compare_names_gt in E; [|done..]. apply compare_names_gt; [done..|]. by apply (compare_names_trans marker n m).
  - exists low. split_and!; [done|lia|lia|]. intros c n Hc Hcn. split.
    + intros Hgt. destruct (Z_lt_le_dec c (first + low)) as [Hl2|]; [|done]. exfalso. by apply (Hlow c n); [lia|..].
    + intros Hle. apply (Hhigh c n); [lia|done].
Qed.
Lemma upper_bound_spec (name_at : Z -> result (list Z)) (first count : Z) (marker : list Z) :
  sorted_names name_at first count -> short_str marker -> 0 <= first -> 0 <= count -> first + count <= u32_max ->
  exists r, upper_bound first count marker name_at = Ok r /\ first <= r <= first + count /\
    forall c n, first <= c < first + count -> name_at c = Ok n -> (compare_names n marker = Gt <-> r <= c).
Proof using L.
  intros Hs Hm Hf Hc Hu. unfold upper_bound.
  destruct (upper_bound_loop_spec name_at first count marker (S (Z.to_nat count)) 0 count Hs Hm Hf Hu) as (r & -> & Hr & Hspec);
    [lia..|intros c n; lia|intros c n; lia|].
  cbn [mbind result_bind]. rewrite (proj2 (checked_add_u32_Some first r (first + r))) by lia. exists (first + r). split_and!; [done|lia|lia|done].
Qed.

Lemma sorted_names_suffix (name_of : Z -> result (list Z)) (first count r : Z) :
  sorted_names name_of first count -> first <= r -> sorted_names name_of r (first + count - r).
Proof using.
  intros H Hr c Hc. destruct (H c ltac:(lia)) as (n & Hn & Hs & Hnext). exists n. split_and!; [done|done|]. intros c' Hc'. apply Hnext. lia.
Qed.

(** Strictly sorted listings with the same entries are equal. *)
Lemma sorted_entries_eq (l k : list DirectoryEntry) : StronglySorted entry_lt l -> StronglySorted entry_lt k ->
  (forall e, e ∈ l -> short_str (entry_name e)) -> (forall e, e ∈ l <-> e ∈ k) -> l = k.
Proof using L.
  intros Hl. revert k. induction Hl as [|x l Hl IH Hx]; intros k Hk Hs Hiff.
  { destruct k as [|y k]; [done|]. exfalso. by apply (not_elem_of_nil y), Hiff, elem_of_cons; left. }
  assert (Hirr : forall e, e ∈ x :: l -> ~ entry_lt e e).
  { intros e He Hlt. unfold entry_lt in Hlt. rewrite (proj2 (compare_names_eq _ _ (Hs e He) (Hs e He)) eq_refl) in Hlt. done. }
  assert (Hasym : forall e f, e ∈ x :: l -> f ∈ x :: l -> entry_lt e f -> ~ entry_lt f e).
  { intros e f He Hf H1 H2. unfold entry_lt in *. rewrite (compare_names_antisym (entry_name e) (entry_name f)), H1 in H2 by auto. done. }
  destruct k as [|y k]; [exfalso; by apply (not_elem_of_nil x), Hiff, elem_of_cons; left|].
  inversion_clear Hk as [|? ? Hk' Hy]. rewrite Forall_forall in Hx, Hy.
  assert (Exy : x = y).
  { assert (Hxk : x ∈ y :: k) by (apply Hiff, elem_of_cons; by left). assert (Hyl : y ∈ x :: l) by (apply Hiff, elem_of_cons; by left).
    apply elem_of_cons in Hxk as [|Hxk]; [done|]. pose proof Hyl as Hyl2. apply elem_of_cons in Hyl2 as [|Hyl2]; [done|]. exfalso.
    apply (Hasym y x); [done|apply elem_of_cons; by left|by apply Hy|by apply Hx]. }
  subst y. f_equal. apply IH; [done|intros e He; apply Hs, elem_of_cons; by right|]. intros e. split; intros He.
  - assert (Hek : e ∈ x :: k) by (apply Hiff, elem_of_cons; by right). apply elem_of_cons in Hek as [->|]; [|done].
    exfalso. apply (Hirr x); [apply elem_of_cons; by left|by apply Hx].
  - assert (Hek : e ∈ x :: l) by (apply Hiff, elem_of_cons; by right). apply elem_of_cons in Hek as [->|]; [|done].
    exfalso. apply (Hirr x); [apply elem_of_cons; by left|by apply Hy].
Qed.
Lemma StronglySorted_filter_bool {A : Type} (R : A -> A -> Prop) (f : A -> bool) (l : list A) : StronglySorted R l -> StronglySorted R (List.filter f l).
Proof using.
  induction 1 as [|x l Hl IH Hx]; [constructor|]. cbn. destruct (f x); [|done]. constructor; [done|].
  rewrite Forall_forall in *. intros y Hy%list_elem_of_In%filter_In. apply Hx, list_elem_of_In, Hy.
Qed.

Lemma listing_short (idx : MountIndex) (i : Z) (v : DirectoryView) (e : DirectoryEntry) :
  index_ok upper idx -> 0 <= i < index_count idx Directories -> directory_by_index idx i = Ok v -> is_child_entry idx v e -> short_str (entry_name e).
Proof using L.
  intros Hok Hi Hv He. destruct (dir_view_facts idx Hok i v Hi Hv) as (dn & Hd). destruct (children_sorted upper idx i v dn Hok Hd) as (S1 & S2 & _).
  destruct e as [c n|c n]; destruct He as [Hc Hn]; cbn [entry_name].
  - destruct (S1 c ltac:(lia)) as (n' & Hn' & Hs & _). congruence.
  - destruct (S2 c ltac:(lia)) as (n' & Hn' & Hs & _). congruence.
Qed.

Lemma listing_spec (idx : MountIndex) (i : Z) (v : DirectoryView) :
  is_bytes (mi_bytes idx) -> index_ok upper idx -> 0 <= i < index_count idx Directories -> directory_by_index idx i = Ok v ->
  exists all, StronglySorted entry_lt all /\ (forall e, e ∈ all <-> is_child_entry idx v e) /\
    forall marker limit, 0 <= limit <= 4096 -> opt_ok short_str marker ->
      children_after_marker idx v marker limit = Ok (take (Z.to_nat limit) (List.filter (after_marker marker) all)).
Proof using L.
  intros Hb Hok Hi Hv. destruct (dir_view_facts idx Hok i v Hi Hv) as (dn & Hd). destruct (children_sorted upper idx i v dn Hok Hd) as (S1 & S2 & Hno).
  destruct (df_dirs _ _ _ _ _ Hd) as (D1 & D2 & D3), (df_files _ _ _ _ _ Hd) as (F1 & F2 & F3).
  set (de := dv_first_directory v + dv_directory_count v) in *. set (fe := dv_first_file v + dv_file_count v) in *.
  assert (Hlist : forall dc fc, dv_first_directory v <= dc <= de -> dv_first_file v <= fc <= fe -> exists M, listing idx dc de fc fe M).
  { intros dc fc Hdc Hfc. apply (merge_entries_spec idx (Z.to_nat ((de - dc) + (fe - fc)))); [done| | | |lia].
    - subst de. apply sorted_names_suffix; [done|lia].
    - subst fe. apply sorted_names_suffix; [done|lia].
    - intros c f n m Hc Hf. apply Hno; lia. }
  destruct (Hlist (dv_first_directory v) (dv_first_file v)) as (all & HM & HS & Hin); [lia..|]. exists all. split_and!; [done|done|].
  intros marker limit Hlim Hmark. unfold children_after_marker. rewrite (proj2 (Z.ltb_ge 4096 limit)) by lia.
  rewrite (proj2 (checked_add_u32_Some (dv_first_directory v) (dv_directory_count v) de)) by lia. cbn [ok_or mbind result_bind].
  rewrite (proj2 (checked_add_u32_Some (dv_first_file v) (dv_file_count v) fe)) by lia. cbn [ok_or mbind result_bind].
  rewrite (checked_add_fits (dv_directory_count v) (dv_file_count v)) by mach.
  destruct marker as [m|].
  - cbn [opt_ok] in Hmark. destruct (upper_bound_spec _ _ _ m S1 Hmark D1 D2 ltac:(lia)) as (rd & -> & Hrd & Hsd).
    destruct (upper_bound_spec _ _ _ m S2 Hmark F1 F2 ltac:(lia)) as (rf & -> & Hrf & Hsf). cbn [ok_or mbind result_bind fst snd].
    destruct (Hlist rd rf) as (M & HM' & HS' & Hin'); [lia..|]. rewrite HM'. do 2 f_equal. apply sorted_entries_eq; [done|by apply StronglySorted_filter_bool| |].
    + intros e He%Hin'. apply (listing_short idx i v); [done..|]. destruct e; destruct He as [? ?]; split; (done || lia).
    + intros e. assert (Hfil : e ∈ List.filter (after_marker (Some m)) all <-> e ∈ all /\ after_marker (Some m) e = true) by (rewrite !list_elem_of_In; apply filter_In).
      rewrite Hfil, Hin, Hin'. unfold after_marker.
      destruct e as [c n|c n]; cbn [entry_within entry_name]; split.
      * intros [Hc Hn]. split; [split; [lia|done]|]. by rewrite (proj2 (Hsd c n ltac:(lia) Hn)) by lia.
      * intros [[Hc Hn] Hgt]. split; [|done]. split; [|lia]. apply (Hsd c n Hc Hn). by destruct (compare_names n m).
      * intros [Hc Hn]. split; [split; [lia|done]|]. by rewrite (proj2 (Hsf c n ltac:(lia) Hn)) by lia.
      * intros [[Hc Hn] Hgt]. split; [|done]. split; [|lia]. apply (Hsf c n Hc Hn). by destruct (compare_names n m).
  - cbn [ok_or mbind result_bind fst snd]. rewrite HM. do 2 f_equal. cbn [after_marker]. clear. induction all as [|x all IH]; [done|]. cbn. by rewrite <- IH.
Qed.
(** The entries after an entry's name are those behind it. *)
Lemma filter_after_entry (all : list DirectoryEntry) (k : nat) (e : DirectoryEntry) : StronglySorted entry_lt all ->
  (forall e, e ∈ all -> short_str (entry_name e)) -> all !! k = Some e -> List.filter (after_marker (Some (entry_name e))) all = drop (S k) all.
Proof using L.
  intros HS. revert k. induction HS as [|x all HS IH Hx]; intros k Hs Hk; [done|]. rewrite Forall_forall in Hx.
  assert (Hsx : short_str (entry_name x)) by (apply Hs, elem_of_cons; by left). destruct k as [|k]; cbn [lookup list_lookup] in Hk.
  - injection Hk as <-. cbn [List.filter after_marker drop]. rewrite (proj2 (compare_names_eq _ _ Hsx Hsx) eq_refl).
    assert (Hall : forall y, y ∈ all -> after_marker (Some (entry_name x)) y = true).
    { intros y Hy. cbn [after_marker]. assert (Hsy : short_str (entry_name y)) by (apply Hs, elem_of_cons; by right).
      by rewrite (proj2 (compare_names_gt _ _ Hsy Hsx) (Hx y Hy)). }
    clear -Hall. induction all as [|y all IH]; [done|]. cbn [List.filter]. rewrite (Hall y) by (apply elem_of_cons; by left).
    f_equal. cbn [drop] in IH. rewrite drop_0 in IH. rewrite IH; [done|]. intros z Hz. apply Hall, elem_of_cons. by right.
  - assert (He : e ∈ all) by (by eapply list_elem_of_lookup_2). cbn [List.filter after_marker drop]. rewrite (Hx e He).
    apply IH; [|done]. intros y Hy. apply Hs, elem_of_cons. by right.
Qed.
End lookup.

(** ** The properties *)
Section properties.
Context (upper : Z -> list Z) {Ord : NameOrder} {L : NameOrderLaws Ord} (blake3 : list Z -> Z) (Hblake : forall l, hash256 (blake3 l)).
Context (b : list Z) (idx : MountIndex) (Hb : is_bytes b) (Hlen : Z.of_nat (length b) <= u64_max).
Context (Hopen : MountIndex_from_bytes upper blake3 b = Ok idx).


(** In every opened index each directory and each file has a path from the
    root, and when no two siblings of one kind differ only in case the path
    leads back: looking up its components joined with slashes, each of at most
    255 bytes, returns that node. *)
Theorem index_paths_resolve :
  (forall c, 0 <= c < index_count idx Directories -> exists comps, descends idx 0 comps (NDirectory c)) /\
  (forall c, 0 <= c < index_count idx Files -> exists comps, descends idx 0 comps (NFile c)) /\
  (no_case_collisions idx -> forall comps node, descends idx 0 comps node -> Forall (fun w => lookup_component_ok w = true) comps ->
     lookup_path idx (join_path comps) = Ok (Some node)).
Proof using All.
  destruct (from_bytes_ok upper blake3 Hblake b idx Hb Hlen Hopen) as (_ & _ & _ & Hok). pose proof (ok_root _ _ Hok) as Hroot. split_and!.
  - intros c Hc. by apply (directory_reached upper).
  - intros c Hc. destruct (ok_file_parent _ _ Hok c Hc) as (j & v & nm & Hj & Hd & Hr). destruct (directory_reached upper idx Hok j Hj) as (comps & Hcomps).
    destruct (file_name_facts upper idx c Hok Hc) as (w & n & Hw & Hn). exists (comps ++ [n]). eapply descends_snoc; [done|]. eapply descends_file; [apply Hd|done|done].
  - intros Hnc comps node Hd Hl. destruct (ok_dir _ _ Hok 0 ltac:(lia)) as (v & nm & Hv).
    assert (Hp : Forall plain_component comps) by (eapply Forall_impl; [apply (descends_plain upper idx Hok 0 comps node); [lia|done]|by intros w [_ ?]]).
    unfold lookup_path. rewrite trim_join by done. destruct comps as [|w comps]; [by inversion Hd|].
    rewrite bool_decide_eq_false_2 by (by apply join_nonempty). rewrite (df_read _ _ _ _ _ Hv). cbn [mbind result_bind]. rewrite split_components_join by done.
    apply (lookup_components_descend upper idx Hok 0); [done|lia|apply Hv|done|done|done].
Qed.

(** Directory listings of an opened index are exact.  The children of a
    directory, directories and files together, are one list in strictly
    increasing name order; every page is the first entries of that list that
    come after the marker, and a page that starts after an entry's name
    continues right behind that entry, so that paging neither repeats nor skips
    a child; only limits above 4096 are refused. *)
Theorem index_listing_exact (i : Z) (v : DirectoryView) :
  0 <= i < index_count idx Directories -> directory_by_index idx i = Ok v ->
  exists all, StronglySorted entry_lt all /\ (forall e, e ∈ all <-> is_child_entry idx v e) /\
    (forall limit, 0 <= limit <= 4096 -> children_after_marker idx v None limit = Ok (take (Z.to_nat limit) all)) /\
    (forall marker limit, 0 <= limit <= 4096 -> short_str marker ->
       children_after_marker idx v (Some marker) limit = Ok (take (Z.to_nat limit) (List.filter (after_marker (Some marker)) all))) /\
    (forall k e limit, all !! k = Some e -> 0 <= limit <= 4096 ->
       children_after_marker idx v (Some (entry_name e)) limit = Ok (take (Z.to_nat limit) (drop (S k) all))) /\
    (forall marker limit, 4096 < limit -> is_err_kind InvalidArgument (children_after_marker idx v marker limit)).
Proof using All.
  intros Hi Hv. destruct (from_bytes_ok upper blake3 Hblake b idx Hb Hlen Hopen) as (_ & Hbi & _ & Hok).
  destruct (listing_spec upper idx i v Hbi Hok Hi Hv) as (all & HS & Hin & Hpage).
  assert (Hshort : forall e, e ∈ all -> short_str (entry_name e)) by (intros e He%Hin; by apply (listing_short upper idx i v)).
  exists all. split_and!; [done|done| | | |].
  - intros limit Hl. rewrite (Hpage None limit Hl I). f_equal. cbn [after_marker]. clear. f_equal. induction all as [|x all IH]; [done|]. cbn. by rewrite IH.
  - intros marker limit Hl Hm. by apply (Hpage (Some marker)).
  - intros k e limit Hk Hl. rewrite (Hpage (Some (entry_name e)) limit Hl); [|by apply Hshort, (list_elem_of_lookup_2 all k)].
    do 2 f_equal. apply filter_after_entry; [done|done|done].
  - intros marker limit Hl. unfold children_after_marker. by rewrite (proj2 (Z.ltb_lt 4096 limit) Hl).
Qed.

End properties.

(** ** The example index *)
Lemma ascii_upper_ascii (c : Z) : c <= 127 -> ascii_upper c = [to_ascii_uppercase c].
Proof. intros _. unfold ascii_upper, to_ascii_uppercase. by destruct (_ && _). Qed.
#[export] Instance portable_order_laws : NameOrderLaws portable_order := portable_laws ascii_upper ascii_upper_ascii.
#[export] Instance portable_order_inst : NameOrder := portable_order.
Definition opened (r : result MountIndex) : MountIndex := match r with Ok idx => idx | Err _ => mkMountIndex [] sample_header end.
Definition dir_of (idx : MountIndex) (i : Z) : DirectoryView :=
  match directory_by_index idx i with Ok v => v | Err _ => mkDirectoryView 0 (mkDirectoryRecord 0 (mkStringRef 0 0) (mkStringRef 0 0) 0 0 0 0 0) end.
Definition demo_idx : MountIndex := opened demo_index.
Definition demo_dir (i : Z) : DirectoryView := dir_of demo_idx i.
Lemma demo_opens : MountIndex_from_bytes ascii_upper sum256 demo_bytes = Ok demo_idx.
Proof. vm_compute. reflexivity. Qed.
Lemma demo_is_bytes : is_bytes demo_bytes.
Proof. apply bytes_check. vm_compute. reflexivity. Qed.
Lemma demo_length : Z.of_nat (length demo_bytes) <= u64_max.
Proof. vm_compute. discriminate. Qed.

Example demo_lookup : lookup_path demo_idx (chars "/data\MAPS/Level.pak") = Ok (Some (NFile 3)) /\ lookup_path demo_idx (chars "data/none") = Ok None.
Proof. split; vm_compute; reflexivity. Qed.
Lemma index_paths_resolve_witness : exists comps, descends demo_idx 0 comps (NFile 3).
Proof.
  refine (proj1 (proj2 (index_paths_resolve ascii_upper sum256 sum256_hash demo_bytes demo_idx demo_is_bytes demo_length demo_opens)) 3 _).
  vm_compute. split; [discriminate|reflexivity].
Defined.
Lemma index_listing_exact_witness : exists all, StronglySorted entry_lt all /\ (forall e, e ∈ all <-> is_child_entry demo_idx (demo_dir 2) e).
Proof.
  destruct (index_listing_exact ascii_upper sum256 sum256_hash demo_bytes demo_idx demo_is_bytes demo_length demo_opens 2 (demo_dir 2)) as (all & H1 & H2 & _).
  - vm_compute. split; [discriminate|reflexivity].
  - vm_compute. reflexivity.
  - exists all. split; assumption.
Defined.
Example demo_listing : children_after_marker demo_idx (demo_dir 2) None 10 =
  Ok [EFile 1 (chars "empty.bin"); EDirectory 3 (chars "Maps"); EFile 2 (chars "Notes.txt")].
Proof. vm_compute. reflexivity. Qed.

(** ** Names the index holds but lookup refuses

    A component may have 255 UTF-16 units under the naming policy, which is up to
    765 bytes; [lookup_child] refuses components above 255 bytes.  The file of
    this manifest has a name of 86 characters and 258 bytes. *)
Definition long_name : list Z := replicate 86 26085.
Definition long_manifest : RepositoryManifest :=
  mkManifest 2 9 4 65536 [mkMDirectory None []] [mkMFile 0 long_name 4096 1 NativeMutable 0 0] [] [] [].
Definition long_idx : result MountIndex :=
  b ← compile_to_bytes ascii_upper sum256 long_manifest; MountIndex_from_bytes ascii_upper sum256 b.
Example long_name_not_found : long_idx = Ok (opened long_idx) /\
  children_after_marker (opened long_idx) (dir_of (opened long_idx) 0) None 1 = Ok [EFile 0 long_name] /\
  lookup_child (opened long_idx) (dir_of (opened long_idx) 0) long_name = Err (invalid_argument "lookup path contains an invalid component").
Proof. split_and!; vm_compute; reflexivity. Qed.

(** ** Siblings that differ only in case

    The reader compares siblings with [compare_names], which breaks ties of the
    lookup key by the bytes of the names: an index with the sibling directories
    A and a opens, and looking A up finds a. *)
Definition colliding_bytes : result (list Z) :=
  assemble sum256 9 4 65536
    [(Strings, chars "Aa", 2);
     (Directories, DirectoryRecord_encode (mkDirectoryRecord NO_PARENT (mkStringRef 0 0) (mkStringRef 0 0) 1 2 0 0 0)
        ++ DirectoryRecord_encode (mkDirectoryRecord 0 (mkStringRef 0 1) (mkStringRef 0 1) 3 0 0 0 1)
        ++ DirectoryRecord_encode (mkDirectoryRecord 0 (mkStringRef 1 1) (mkStringRef 0 1) 3 0 0 0 2), 3);
     (Files, [], 0); (Extents, [], 0); (Pages, [], 0); (RemoteLocations, [], 0)].
Definition colliding_idx : result MountIndex := b ← colliding_bytes; MountIndex_from_bytes ascii_upper sum256 b.
Example colliding_siblings_shadow : colliding_idx = Ok (opened colliding_idx) /\
  directory_name_at (opened colliding_idx) 1 = Ok (chars "A") /\ directory_name_at (opened colliding_idx) 2 = Ok (chars "a") /\
  lookup_child (opened colliding_idx) (dir_of (opened colliding_idx) 0) (chars "A") = Ok (Some (NDirectory 2)).
Proof. split_and!; vm_compute; reflexivity. Qed.
