(* ===== verification/IndexResolve.v ===== *)
(** * Resolution of reads on the mount index

    [mirage-index/src/resolve.rs].  Proved: in every index the reader opens, the
    extents and pages of a virtual file tile it, and a read resolves to the same
    spans as a walk over all its pages. *)
From S2P Require Export IndexQueries.

(** ** Definitions *)
Definition MAX_RESOLVED_SPANS : Z := 1048576.
Record ResolvedSpan : Set := mkSpan { rs_page_ordinal : Z; rs_page_offset : Z; rs_len : Z; rs_dst_offset : Z }.

Definition fv_page_size (idx : MountIndex) : Z := ih_page_size (mi_header idx).

(** The search for the first extent that ends after [offset]. *)
Fixpoint extent_search (idx : MountIndex) (file : FileView) (offset : Z) (fuel : nat) (low high : Z) : result Z :=
  match fuel with
  | O => Ok low
  | S fuel =>
      if low <? high then
        let middle := low + (high - low) / 2 in
        extent ← fv_extent idx file middle;
        end_ ← ok_or (manifest_invalid "extent end overflows") (checked_add (xv_logical_offset extent) (xv_logical_length extent));
        if end_ <=? offset then extent_search idx file offset fuel (middle + 1) high else extent_search idx file offset fuel low middle
      else Ok low
  end.

Definition first_page_for_offset (idx : MountIndex) (extent : ExtentView) (offset : Z) : result Z :=
  if offset <=? xv_logical_offset extent then Ok 0 else
  let relative := offset - xv_logical_offset extent in
  let page := relative / fv_page_size idx in
  page ← u32_try_from page "page seek ordinal exceeds u32";
  if xv_page_count extent <=? page then Err (manifest_invalid "page seek ordinal exceeds extent") else Ok page.

(** The address of the first page visited in an extent. *)
Definition page_seek (idx : MountIndex) (extent : ExtentView) (first_page : Z) : result Z :=
  o ← ok_or (manifest_invalid "page seek offset overflows") (checked_mul first_page (fv_page_size idx));
  ok_or (manifest_invalid "page seek address overflows") (checked_add (xv_logical_offset extent) o).

Definition u32_span (x : Z) (message : string) : result Z := u32_try_from x message.

(** The pages of one extent from [page_index] on; [rest] rounds are left.  The
    [break] leaves this loop only. *)
Fixpoint page_loop (idx : MountIndex) (extent : ExtentView) (offset clipped_end : Z) (rest : nat) (page_index page_logical_offset : Z) : result (list ResolvedSpan) :=
  match rest with
  | O => Ok []
  | S rest =>
      page ← xv_page idx extent page_index;
      page_end ← ok_or (manifest_invalid "page end overflows") (checked_add page_logical_offset (pv_logical_length page));
      let intersection_start := Z.max page_logical_offset offset in
      let intersection_end := Z.min page_end clipped_end in
      span ← (if intersection_start <? intersection_end then
                po ← u32_span (intersection_start - page_logical_offset) "page offset exceeds u32";
                ln ← u32_span (intersection_end - intersection_start) "span length exceeds u32";
                ds ← u32_span (intersection_start - offset) "destination offset exceeds u32";
                Ok [mkSpan (pv_ordinal page) po ln ds]
              else Ok []);
      if clipped_end <=? page_end then Ok span
      else spans ← page_loop idx extent offset clipped_end rest (page_index + 1) page_end; Ok (span ++ spans)
  end.

Fixpoint extent_loop (idx : MountIndex) (file : FileView) (offset clipped_end : Z) (rest : nat) (extent_index : Z) : result (list ResolvedSpan) :=
  match rest with
  | O => Ok []
  | S rest =>
      extent ← fv_extent idx file extent_index;
      if clipped_end <=? xv_logical_offset extent then Ok [] else
      first_page ← first_page_for_offset idx extent offset;
      page_logical_offset ← page_seek idx extent first_page;
      spans ← page_loop idx extent offset clipped_end (Z.to_nat (xv_page_count extent - first_page)) first_page page_logical_offset;
      more ← extent_loop idx file offset clipped_end rest (extent_index + 1);
      Ok (spans ++ more)
  end.

(** [count_spans]: the same walk, counting; it stops above the bound. *)
Fixpoint count_page_loop (idx : MountIndex) (extent : ExtentView) (offset clipped_end : Z) (rest : nat) (page_index page_logical_offset count : Z) : result (Z * bool) :=
  match rest with
  | O => Ok (count, false)
  | S rest =>
      page ← xv_page idx extent page_index;
      page_end ← ok_or (manifest_invalid "page end overflows") (checked_add page_logical_offset (pv_logical_length page));
      count' ← (if Z.max page_logical_offset offset <? Z.min page_end clipped_end
                then ok_or (invalid_argument "resolved span count overflows") (checked_add count 1) else Ok count);
      if (Z.max page_logical_offset offset <? Z.min page_end clipped_end) && (MAX_RESOLVED_SPANS <? count') then Ok (count', true) else
      if clipped_end <=? page_end then Ok (count', false)
      else count_page_loop idx extent offset clipped_end rest (page_index + 1) page_end count'
  end.
Fixpoint count_extent_loop (idx : MountIndex) (file : FileView) (offset clipped_end : Z) (rest : nat) (extent_index count : Z) : result Z :=
  match rest with
  | O => Ok count
  | S rest =>
      extent ← fv_extent idx file extent_index;
      if clipped_end <=? xv_logical_offset extent then Ok count else
      first_page ← first_page_for_offset idx extent offset;
      page_logical_offset ← page_seek idx extent first_page;
      r ← count_page_loop idx extent offset clipped_end (Z.to_nat (xv_page_count extent - first_page)) first_page page_logical_offset count;
      if (r.2 : bool) then Ok r.1 else count_extent_loop idx file offset clipped_end rest (extent_index + 1) r.1
  end.
Definition count_spans (idx : MountIndex) (file : FileView) (first_extent offset clipped_end : Z) : result Z :=
  count_extent_loop idx file offset clipped_end (Z.to_nat (fv_extent_count file - first_extent)) first_extent 0.

(** The [try_fold] of the span lengths. *)
Definition span_total (spans : list ResolvedSpan) : option Z :=
  foldl (fun total_ span => t ← total_; checked_add t (rs_len span)) (Some 0) spans.

Definition resolve_range (idx : MountIndex) (file : FileView) (offset len_ : Z) : result (list ResolvedSpan) :=
  if len_ =? 0 then Ok [] else
  requested_end ← ok_or (invalid_argument "read range overflows") (checked_add offset len_);
  if fv_logical_size file <=? offset then Ok [] else
  let clipped_end := Z.min requested_end (fv_logical_size file) in
  let clipped_length := clipped_end - offset in
  if u32_max <? clipped_length then Err (invalid_argument "one resolved read cannot exceed u32::MAX bytes") else
  low ← extent_search idx file offset (S (Z.to_nat (fv_extent_count file))) 0 (fv_extent_count file);
  span_count ← count_spans idx file low offset clipped_end;
  if MAX_RESOLVED_SPANS <? span_count then Err (invalid_argument "read would exceed the resolved-span safety bound") else
  output ← extent_loop idx file offset clipped_end (Z.to_nat (fv_extent_count file - low)) low;
  if bool_decide (span_total output = Some clipped_length) then Ok output
  else Err (manifest_invalid "resolved spans do not cover the clipped read exactly").

(** ** Layout of a file *)
Notation Laid := (ExtentView * list PageView)%type.
Definition pages_len (ps : list PageView) : Z := sumZ pv_logical_length ps.
Definition laid_len (es : list Laid) : Z := sumZ (fun e => xv_logical_length e.1) es.

(** The pages of an extent, as read: all full but the last. *)
Record laid_extent (idx : MountIndex) (x : ExtentView) (ps : list PageView) : Prop := mkLaid {
  le_pages : forall k p, ps !! k = Some p -> xv_page idx x (Z.of_nat k) = Ok p;
  le_count : Z.of_nat (length ps) = xv_page_count x;
  le_u32 : xv_page_count x <= u32_max;
  le_full : forall k p, ps !! k = Some p -> (S k < length ps)%nat -> pv_logical_length p = fv_page_size idx;
  le_size : Forall (fun p => 0 < pv_logical_length p <= fv_page_size idx /\ pv_logical_length p <= u32_max) ps;
  le_total : pages_len ps = xv_logical_length x;
  le_pos : 0 < xv_logical_length x
}.
Fixpoint placed (idx : MountIndex) (off : Z) (es : list Laid) : Prop :=
  match es with
  | [] => True
  | (x, ps) :: es => xv_logical_offset x = off /\ laid_extent idx x ps /\ placed idx (off + xv_logical_length x) es
  end.
Lemma placed_snoc (idx : MountIndex) (off : Z) (es : list Laid) (x : ExtentView) (ps : list PageView) :
  placed idx off es -> xv_logical_offset x = off + laid_len es -> laid_extent idx x ps -> placed idx off (es ++ [(x, ps)]).
Proof.
  revert off. induction es as [|[y qs] es IH]; intros off; cbn [placed app laid_len].
  - unfold laid_len. cbn. rewrite Z.add_0_r. by intros _ -> H.
  - intros (Hy & Hl & Hp) Hx H. split_and!; [done|done|]. apply IH; [done| |done]. unfold laid_len in *. cbn [sumZ foldr fst] in Hx. unfold sumZ in *. lia.
Qed.

Section layout.
Context (upper : Z -> list Z) {Ord : NameOrder} (idx : MountIndex) (Hbytes : is_bytes (mi_bytes idx)) (Hok : index_ok upper idx).

Lemma xv_page_facts (x : ExtentView) (i k : Z) (p : PageView) : extent_by_index idx i = Ok x -> 0 <= k -> xv_page idx x k = Ok p ->
  0 < pv_logical_length p <= fv_page_size idx /\ pv_logical_length p <= u32_max.
Proof using Hbytes Hok.
  intros Hx Hk. unfold xv_page. destruct (_ <=? _); [done|]. intros (o & [Hle ->]%ok_or_Ok_inv%checked_add_u32_Some & Hp)%bind_Ok_inv.
  destruct (page_by_ordinal_Ok idx Hbytes _ p Hp) as (_ & (_ & [_ Hu] & _) & Hlt).
  destruct (extent_by_index_Ok idx Hbytes i x Hx) as (_ & (_ & _ & [Hs _] & _) & _).
  destruct (ok_page _ _ Hok (xr_page_start (xv_record x) + k) ltac:(lia)) as (p' & Hp'). pose proof (pg_read _ _ _ Hp') as E. rewrite Hp in E. apply Ok_inj in E as <-.
  split; [apply (pg_length _ _ _ Hp')|exact Hu].
Qed.
Lemma fv_extent_facts (file : FileView) (j : Z) (x : ExtentView) : fv_extent idx file j = Ok x ->
  extent_by_index idx (fl_extent_start (fv_record file) + j) = Ok x.
Proof using. unfold fv_extent. destruct (_ <=? _); [done|]. by intros (o & [Hle ->]%ok_or_Ok_inv%checked_add_u32_Some & Hp)%bind_Ok_inv. Qed.

(** The page loop of the validation, as the list of the pages. *)
Lemma layout_pages (x : ExtentView) (i n s : Z) : extent_by_index idx i = Ok x -> 0 <= n -> for_fold (layout_page idx x) 0 (zrange 0 n) = Ok s ->
  exists ps, Z.of_nat (length ps) = n /\ (forall k p, ps !! k = Some p -> xv_page idx x (Z.of_nat k) = Ok p) /\ pages_len ps = s /\
    (forall k p, ps !! k = Some p -> Z.of_nat k + 1 <> xv_page_count x -> pv_logical_length p = fv_page_size idx).
Proof using.
  intros Hx Hn. revert s. pattern n. apply natlike_ind; [| |done]; clear n Hn.
  - rewrite zrange_nil by lia. intros s <-%Ok_inj. exists []. split_and!; done.
  - intros n Hn IH s. unfold Z.succ. rewrite zrange_succ, for_fold_app, Z.add_0_l by done. intros (s1 & H1 & H2)%bind_Ok_inv. cbn in H2.
    apply bind_Ok_inv in H2 as (s2 & H2 & <-%Ok_inj). destruct (IH s1 H1) as (ps & Hl & Hps & Hsum & Hfull).
    unfold layout_page in H2. apply bind_Ok_inv in H2 as (p & Hp & H2).
    destruct (negb (n + 1 =? xv_page_count x) && negb (pv_logical_length p =? ih_page_size (mi_header idx))) eqn:E; [done|].
    apply ok_or_Ok_inv, checked_add_Some in H2 as [_ ->]. exists (ps ++ [p]).
    assert (Hcase : forall k q, (ps ++ [p]) !! k = Some q -> ps !! k = Some q \/ Z.of_nat k = n /\ q = p).
    { intros k q. rewrite lookup_app. destruct (ps !! k) as [q'|] eqn:Ek; [naive_solver|]. apply lookup_ge_None in Ek.
      destruct (k - length ps)%nat eqn:E'; cbn; [|by intros [=]]. intros [= <-]. right. split; [lia|done]. }
    split_and!.
    + rewrite length_app. simpl. lia.
    + intros k q [Hq|[Hk ->]]%Hcase; [by apply Hps|]. by rewrite Hk.
    + unfold pages_len in *. rewrite sumZ_app, Hsum. cbn. lia.
    + intros k q [Hq|[Hk ->]]%Hcase Hne; [by apply (Hfull k)|]. rewrite Hk in Hne. rewrite (proj2 (Z.eqb_neq _ _) Hne) in E. cbn [negb andb] in E. zbool. done.
Qed.

Lemma layout_extents (file : FileView) (n s : Z) : 0 <= n -> for_fold (layout_extent idx file) 0 (zrange 0 n) = Ok s ->
  exists es, Z.of_nat (length es) = n /\ placed idx 0 es /\ laid_len es = s /\ (forall j e, es !! j = Some e -> fv_extent idx file (Z.of_nat j) = Ok e.1).
Proof using Hbytes Hok.
  intros Hn. revert s. pattern n. apply natlike_ind; [| |done]; clear n Hn.
  - rewrite zrange_nil by lia. intros s <-%Ok_inj. exists []. split_and!; done.
  - intros n Hn IH s. unfold Z.succ. rewrite zrange_succ, for_fold_app, Z.add_0_l by done. intros (s1 & H1 & H2)%bind_Ok_inv. cbn in H2.
    apply bind_Ok_inv in H2 as (s2 & H2 & <-%Ok_inj). destruct (IH s1 H1) as (es & Hl & Hpl & Hsum & Hes).
    unfold layout_extent in H2. apply bind_Ok_inv in H2 as (x & Hx & H2).
    destruct (negb (xv_logical_offset x =? s1) || (xv_logical_length x =? 0)) eqn:E; [done|]. zbool.
    apply bind_Ok_inv in H2 as (pb & Hpb & H2). destruct (negb (pb =? xv_logical_length x)) eqn:E2; [done|]. zbool.
    apply ok_or_Ok_inv, checked_add_Some in H2 as [_ ->]. pose proof (fv_extent_facts _ _ _ Hx) as Hxr.
    destruct (extent_by_index_Ok idx Hbytes _ x Hxr) as (_ & (_ & [Hlen _] & _ & [Hpc Hpu] & _) & _).
    destruct (layout_pages x _ (xv_page_count x) pb Hxr Hpc Hpb) as (ps & Hpl' & Hps & Hpsum & Hfull).
    exists (es ++ [(x, ps)]). split_and!.
    + rewrite length_app. simpl. lia.
    + apply placed_snoc; [done|lia|]. split; [done|lia|exact Hpu| | |lia|unfold xv_logical_length in *; lia].
      * intros k p Hk Hlt. apply (Hfull k p Hk). lia.
      * apply Forall_lookup. intros k p Hk. eapply xv_page_facts; [exact Hxr| |apply (Hps k p Hk)]. lia.
    + unfold laid_len in *. rewrite sumZ_app, Hsum. cbn. lia.
    + intros j e. rewrite lookup_app. destruct (es !! j) as [e'|] eqn:Ej; [intros [= <-]; by apply Hes|]. apply lookup_ge_None in Ej.
      destruct (j - length es)%nat eqn:E'; cbn; [|by intros [=]]. intros [= <-]. cbn. by replace (Z.of_nat j) with n by lia.
Qed.

(** The extents and pages of a virtual file tile it. *)
Lemma file_laid (i : Z) (file : FileView) : 0 <= i < index_count idx Files -> file_by_index idx i = Ok file -> is_virtual (fl_class (fv_record file)) = true ->
  exists es, Z.of_nat (length es) = fv_extent_count file /\ placed idx 0 es /\ laid_len es = fv_logical_size file /\
    (forall j e, es !! j = Some e -> fv_extent idx file (Z.of_nat j) = Ok e.1).
Proof using Hbytes Hok.
  intros Hi Hf Hvirt. destruct (ok_file _ _ Hok i Hi) as (w & n & Hw). pose proof (ff_read _ _ _ _ _ Hw) as E. rewrite Hf in E. apply Ok_inj in E as <-.
  pose proof (ff_layout _ _ _ _ _ Hw) as H. destruct (ff_extents _ _ _ _ _ Hw) as (_ & Hc & _). unfold validate_file_layout in H. rewrite Hvirt in H. cbn [negb] in H.
  destruct (Z.eqb_spec (fv_logical_size file) 0) as [E0|].
  { apply fail_if_Ok_inv in H. zbool. exists []. rewrite E0. split_and!; try done; simpl; lia. }
  destruct (Z.eqb_spec (fv_extent_count file) 0); [done|]. apply bind_Ok_inv in H as (s & Hs & H%fail_if_Ok_inv). zbool.
  destruct (layout_extents file _ s Hc Hs) as (es & H1 & H2 & H3 & H4). exists es. split_and!; [done|done|lia|done].
Qed.
End layout.

(** ** The reference: every page of the file, intersected with the read *)
Definition page_span (offset clipped_end off : Z) (p : PageView) : list ResolvedSpan :=
  let s := Z.max off offset in
  let e := Z.min (off + pv_logical_length p) clipped_end in
  if s <? e then [mkSpan (pv_ordinal p) (s - off) (e - s) (s - offset)] else [].
Fixpoint page_spans (offset clipped_end off : Z) (ps : list PageView) : list ResolvedSpan :=
  match ps with [] => [] | p :: ps => page_span offset clipped_end off p ++ page_spans offset clipped_end (off + pv_logical_length p) ps end.
Definition file_pages (es : list Laid) : list PageView := concat (map snd es).
Definition resolve_reference (offset clipped_end : Z) (es : list Laid) : list ResolvedSpan := page_spans offset clipped_end 0 (file_pages es).

Lemma page_spans_app (o e off : Z) (ps qs : list PageView) :
  page_spans o e off (ps ++ qs) = page_spans o e off ps ++ page_spans o e (off + pages_len ps) qs.
Proof.
  revert off. induction ps as [|p ps IH]; intros off; cbn [page_spans app pages_len].
  - unfold pages_len. cbn. by rewrite Z.add_0_r.
  - rewrite IH, <- app_assoc. unfold pages_len. by rewrite sumZ_cons, Z.add_assoc.
Qed.
Lemma page_spans_beyond (o e off : Z) (ps : list PageView) : e <= off -> Forall (fun p => 0 <= pv_logical_length p) ps -> page_spans o e off ps = [].
Proof.
  intros He H. revert off He. induction H as [|p ps Hp H IH]; intros off He; [done|]. cbn [page_spans]. rewrite IH by lia.
  unfold page_span. by rewrite (proj2 (Z.ltb_ge _ _)) by lia.
Qed.
Lemma page_spans_before (o e off : Z) (ps : list PageView) : off + pages_len ps <= o -> Forall (fun p => 0 <= pv_logical_length p) ps -> page_spans o e off ps = [].
Proof.
  intros Ho H. revert off Ho. unfold pages_len. induction H as [|p ps Hp H IH]; intros off Ho; [done|]. cbn [page_spans]. rewrite sumZ_cons in Ho.
  assert (0 <= sumZ pv_logical_length ps) by (by apply sumZ_nonneg). rewrite IH by lia. unfold page_span. by rewrite (proj2 (Z.ltb_ge _ _)) by lia.
Qed.
Lemma sizes_nonneg (idx : MountIndex) (ps : list PageView) :
  Forall (fun p => 0 < pv_logical_length p <= fv_page_size idx /\ pv_logical_length p <= u32_max) ps -> Forall (fun p => 0 <= pv_logical_length p) ps.
Proof. intros H. eapply Forall_impl; [exact H|]. cbn. lia. Qed.
Lemma pages_len_nonneg (ps : list PageView) : Forall (fun p => 0 <= pv_logical_length p) ps -> 0 <= pages_len ps.
Proof. intros H. by apply sumZ_nonneg. Qed.

Section loops.
Context (idx : MountIndex) (offset clipped_end : Z).
Context (Hoff : 0 <= offset < clipped_end) (Hclip : clipped_end - offset <= u32_max) (Hend : clipped_end <= u64_max).
Notation size_ok := (fun p => 0 < pv_logical_length p <= fv_page_size idx /\ pv_logical_length p <= u32_max).

Lemma page_span_Ok (off : Z) (p : PageView) : 0 <= off -> 0 < pv_logical_length p <= u32_max ->
  (if Z.max off offset <? Z.min (off + pv_logical_length p) clipped_end then
     po ← u32_span (Z.max off offset - off) "page offset exceeds u32";
     ln ← u32_span (Z.min (off + pv_logical_length p) clipped_end - Z.max off offset) "span length exceeds u32";
     ds ← u32_span (Z.max off offset - offset) "destination offset exceeds u32";
     Ok [mkSpan (pv_ordinal p) po ln ds]
   else Ok []) = Ok (page_span offset clipped_end off p).
Proof using Hoff Hclip Hend.
  intros Ho Hl. unfold page_span. destruct (Z.ltb_spec (Z.max off offset) (Z.min (off + pv_logical_length p) clipped_end)); [|done].
  unfold u32_span, u32_try_from. rewrite !(proj2 (Z.leb_le _ _)) by lia. done.
Qed.

Lemma page_loop_spec (x : ExtentView) (ps : list PageView) (k off : Z) :
  (forall j p, ps !! j = Some p -> xv_page idx x (k + Z.of_nat j) = Ok p) -> Forall size_ok ps -> 0 <= off -> off + pages_len ps <= u64_max ->
  page_loop idx x offset clipped_end (length ps) k off = Ok (page_spans offset clipped_end off ps).
Proof using Hoff Hclip Hend.
  revert k off. induction ps as [|p ps IH]; intros k off Hps Hsz Ho Hu; [done|]. apply Forall_cons in Hsz as [[Hp1 Hp2] Hsz]. cbn [length page_loop page_spans].
  pose proof (Hps 0%nat p eq_refl) as H0. rewrite Z.add_0_r in H0. rewrite H0. cbn [mbind result_bind].
  unfold pages_len in Hu. rewrite sumZ_cons in Hu. pose proof (pages_len_nonneg ps (sizes_nonneg idx ps Hsz)) as Hnn. unfold pages_len in Hnn.
  rewrite checked_add_fits by lia. cbn [ok_or mbind result_bind]. rewrite page_span_Ok by lia. cbn [mbind result_bind].
  destruct (Z.leb_spec clipped_end (off + pv_logical_length p)).
  - rewrite (page_spans_beyond offset clipped_end (off + pv_logical_length p) ps), app_nil_r by (done || by eapply sizes_nonneg). done.
  - rewrite IH; [done| |done|lia|unfold pages_len; lia]. intros j q Hj. rewrite <- (Hps (S j) q Hj). f_equal. lia.
Qed.

(** The pages in front of the seek end before the read. *)
Lemma full_prefix (x : ExtentView) (ps : list PageView) (n : nat) : laid_extent idx x ps -> (n < length ps)%nat ->
  pages_len (take n ps) = Z.of_nat n * fv_page_size idx.
Proof using.
  intros Hx Hn. unfold pages_len. assert (Hall : Forall (fun p => pv_logical_length p = fv_page_size idx) (take n ps)).
  { apply Forall_lookup. intros k p [Hk Hlt]%lookup_take_Some. apply (le_full _ _ _ Hx k p Hk). lia. }
  assert (HL : length (take n ps) = n) by (rewrite length_take; lia). revert HL Hall. generalize (take n ps) as qs. clear. intros qs <- H.
  induction H as [|p qs Hp H IH]; [done|]. rewrite sumZ_cons, IH, Hp. cbn [length]. lia.
Qed.

Lemma seek_spec (x : ExtentView) (ps : list PageView) (off : Z) : xv_logical_offset x = off -> laid_extent idx x ps -> 0 <= off ->
  off + xv_logical_length x <= u64_max -> offset < off + xv_logical_length x ->
  exists n : nat, (n < length ps)%nat /\ first_page_for_offset idx x offset = Ok (Z.of_nat n) /\
    page_seek idx x (Z.of_nat n) = Ok (off + pages_len (take n ps)) /\ page_spans offset clipped_end off (take n ps) = [].
Proof using Hoff Hend.
  intros Hxo Hx Ho Hu Hlt. pose proof (le_size _ _ _ Hx) as Hsz. pose proof (le_total _ _ _ Hx) as Htot. pose proof (le_pos _ _ _ Hx) as Hpos.
  assert (Hne : (0 < length ps)%nat).
  { destruct ps; [|simpl; lia]. exfalso. unfold pages_len in Htot. cbn in Htot. lia. }
  assert (Hps : 0 < fv_page_size idx) by (destruct ps as [|p ps]; [simpl in Hne; lia|]; apply Forall_cons in Hsz as [? _]; lia).
  assert (Hbound : pages_len ps <= Z.of_nat (length ps) * fv_page_size idx).
  { clear -Hsz. unfold pages_len. induction Hsz as [|p ps Hp H IH]; [done|]. rewrite sumZ_cons. cbn [length]. lia. }
  unfold first_page_for_offset. rewrite Hxo. destruct (Z.leb_spec offset off) as [Hle|Hgt].
  - exists 0%nat. split_and!; [done|done| |done]. unfold page_seek. rewrite Hxo.
    assert (checked_mul (Z.of_nat 0) (fv_page_size idx) = Some 0) as -> by done. cbn [ok_or mbind result_bind]. by rewrite checked_add_fits by lia.
  - set (n := Z.to_nat ((offset - off) / fv_page_size idx)).
    assert (Hn : Z.of_nat n = (offset - off) / fv_page_size idx) by (apply Z2Nat.id, Z.div_pos; lia).
    assert (Hnlt : (n < length ps)%nat).
    { apply Nat2Z.inj_lt. rewrite Hn. apply Z.div_lt_upper_bound; [done|]. lia. }
    pose proof (Z.mul_div_le (offset - off) (fv_page_size idx) Hps) as Hdiv. rewrite <- Hn in Hdiv |- *.
    exists n. pose proof (full_prefix x ps n Hx Hnlt) as Hfp. split_and!.
    + done.
    + unfold u32_try_from. pose proof (le_count _ _ _ Hx) as Hc. pose proof (le_u32 _ _ _ Hx). rewrite (proj2 (Z.leb_le _ _)) by lia. cbn [mbind result_bind].
      by rewrite (proj2 (Z.leb_gt _ _)) by lia.
    + unfold page_seek. rewrite Hxo, Hfp. unfold checked_mul. rewrite (proj2 (Z.leb_le _ _)) by lia. cbn [ok_or mbind result_bind].
      by rewrite checked_add_fits by lia.
    + apply page_spans_before; [lia|]. apply Forall_take. by eapply sizes_nonneg.
Qed.
(** Extents whose ends lie at or before the read give no span, those that start
    at or after its end neither. *)
Lemma placed_sizes (off : Z) (es : list Laid) : placed idx off es -> Forall (fun p => 0 <= pv_logical_length p) (file_pages es) /\ pages_len (file_pages es) = laid_len es.
Proof using.
  revert off. induction es as [|[x ps] es IH]; intros off; [by split; [constructor|]|]. intros (Hxo & Hx & Hpl). destruct (IH _ Hpl) as [H1 H2].
  unfold file_pages, pages_len, laid_len in *. cbn [map concat snd]. rewrite sumZ_app, sumZ_cons, H2. cbn [fst]. rewrite <- (le_total _ _ _ Hx). split; [|done].
  apply Forall_app. split; [|done]. eapply sizes_nonneg, (le_size _ _ _ Hx).
Qed.
Lemma laid_len_nonneg (off : Z) (es : list Laid) : placed idx off es -> 0 <= laid_len es.
Proof using. intros H. destruct (placed_sizes off es H) as [H1 <-]. by apply pages_len_nonneg. Qed.

Lemma page_loop_whole (x : ExtentView) (ps : list PageView) (off : Z) : xv_logical_offset x = off -> laid_extent idx x ps -> 0 <= off ->
  off + xv_logical_length x <= u64_max -> offset < off + xv_logical_length x ->
  exists n : nat, (n < length ps)%nat /\ first_page_for_offset idx x offset = Ok (Z.of_nat n) /\
    page_seek idx x (Z.of_nat n) = Ok (off + pages_len (take n ps)) /\
    page_loop idx x offset clipped_end (Z.to_nat (xv_page_count x - Z.of_nat n)) (Z.of_nat n) (off + pages_len (take n ps))
    = Ok (page_spans offset clipped_end off ps).
Proof using Hoff Hclip Hend.
  intros Hxo Hx Ho Hu Hlt. destruct (seek_spec x ps off Hxo Hx Ho Hu Hlt) as (n & Hn & Hf & Hs & Hpre). exists n. split_and!; [done..|].
  rewrite <- (take_drop n ps) at 2. rewrite page_spans_app, Hpre. cbn [app].
  pose proof (le_size _ _ _ Hx) as Hsz. pose proof (le_total _ _ _ Hx) as Htot.
  replace (Z.to_nat (xv_page_count x - Z.of_nat n)) with (length (drop n ps)) by (rewrite length_drop; pose proof (le_count _ _ _ Hx); lia).
  assert (Hsplit : pages_len ps = pages_len (take n ps) + pages_len (drop n ps)) by (unfold pages_len; by rewrite <- sumZ_app, take_drop).
  assert (0 <= pages_len (take n ps)) by (apply pages_len_nonneg, Forall_take; by eapply sizes_nonneg).
  apply page_loop_spec; [|by apply Forall_drop|lia|lia].
  intros j p Hj. rewrite lookup_drop in Hj. rewrite <- (le_pages _ _ _ Hx _ _ Hj). f_equal. lia.
Qed.

Lemma extent_loop_spec (file : FileView) (es : list Laid) (j off : Z) :
  (forall k e, es !! k = Some e -> fv_extent idx file (j + Z.of_nat k) = Ok e.1) -> placed idx off es -> 0 <= off -> off + laid_len es <= u64_max ->
  (forall x ps es', es = (x, ps) :: es' -> offset < off + xv_logical_length x) ->
  extent_loop idx file offset clipped_end (length es) j = Ok (page_spans offset clipped_end off (file_pages es)).
Proof using Hoff Hclip Hend.
  revert j off. induction es as [|[x ps] es IH]; intros j off Hes Hpl Ho Hu Hfirst; [done|]. destruct Hpl as (Hxo & Hx & Hpl). cbn [length extent_loop].
  pose proof (Hes 0%nat (x, ps) eq_refl) as H0. rewrite Z.add_0_r in H0. rewrite H0. cbn [mbind result_bind fst].
  pose proof (le_pos _ _ _ Hx) as Hpos. pose proof (laid_len_nonneg _ _ Hpl) as Hnn. unfold laid_len in Hu, Hnn. rewrite sumZ_cons in Hu. cbn [fst] in Hu.
  destruct (Z.leb_spec clipped_end (xv_logical_offset x)) as [Hle|Hgt].
  { rewrite page_spans_beyond; [done|lia|]. apply (placed_sizes off ((x, ps) :: es)). done. }
  destruct (page_loop_whole x ps off Hxo Hx Ho ltac:(lia) (Hfirst x ps es eq_refl)) as (n & Hn & -> & Hseek & Hloop). cbn [mbind result_bind].
  rewrite Hseek. cbn [mbind result_bind]. rewrite Hloop. cbn [mbind result_bind].
  rewrite (IH (j + 1) (off + xv_logical_length x)); [|..|unfold laid_len; lia|]; [|..|done|lia|].
  - cbn [mbind result_bind]. unfold file_pages. cbn [map concat snd]. by rewrite page_spans_app, (le_total _ _ _ Hx).
  - intros k e Hk. rewrite <- (Hes (S k) e Hk). f_equal. lia.
  - intros y qs es' ->. destruct Hpl as (_ & Hy & _). pose proof (le_pos _ _ _ Hy). specialize (Hfirst x ps _ eq_refl). lia.
Qed.
End loops.

(** ** Counting, searching *)
Lemma page_span_length (o e off : Z) (p : PageView) :
  length (page_span o e off p) = if Z.max off o <? Z.min (off + pv_logical_length p) e then 1%nat else 0%nat.
Proof. unfold page_span. by destruct (_ <? _). Qed.

(** What a counter that stops above the bound returns for [n] more spans. *)
Definition counted (count n c : Z) (stopped : bool) : Prop :=
  if count + n <=? MAX_RESOLVED_SPANS then c = count + n /\ stopped = false else MAX_RESOLVED_SPANS < c /\ stopped = true.

Section counting.
Context (idx : MountIndex) (offset clipped_end : Z).
Context (Hoff : 0 <= offset < clipped_end) (Hclip : clipped_end - offset <= u32_max) (Hend : clipped_end <= u64_max).
Notation size_ok := (fun p => 0 < pv_logical_length p <= fv_page_size idx /\ pv_logical_length p <= u32_max).
Notation spans := (page_spans offset clipped_end).

Lemma count_page_loop_spec (x : ExtentView) (ps : list PageView) (k off count : Z) :
  (forall j p, ps !! j = Some p -> xv_page idx x (k + Z.of_nat j) = Ok p) -> Forall size_ok ps -> 0 <= off -> off + pages_len ps <= u64_max ->
  0 <= count <= MAX_RESOLVED_SPANS ->
  exists c st, count_page_loop idx x offset clipped_end (length ps) k off count = Ok (c, st) /\ counted count (Z.of_nat (length (spans off ps))) c st.
Proof using Hoff Hclip Hend.
  revert k off count. induction ps as [|p ps IH]; intros k off count Hps Hsz Ho Hu Hc.
  { exists count, false. split; [done|]. unfold counted. cbn [page_spans length]. by rewrite (proj2 (Z.leb_le _ _)) by (simpl; lia); rewrite Z.add_0_r. }
  apply Forall_cons in Hsz as [[Hp1 Hp2] Hsz]. cbn [length count_page_loop page_spans].
  pose proof (Hps 0%nat p eq_refl) as H0. rewrite Z.add_0_r in H0. rewrite H0. cbn [mbind result_bind].
  unfold pages_len in Hu. rewrite sumZ_cons in Hu. pose proof (pages_len_nonneg ps (sizes_nonneg idx ps Hsz)) as Hnn. unfold pages_len in Hnn.
  rewrite (checked_add_fits off (pv_logical_length p)) by lia. cbn [ok_or mbind result_bind]. rewrite length_app, page_span_length.
  set (hit := Z.max off offset <? Z.min (off + pv_logical_length p) clipped_end).
  set (h := if hit then 1 else 0).
  assert (Hcount : (if hit then ok_or (invalid_argument "resolved span count overflows") (checked_add count 1) else Ok count) = Ok (count + h)).
  { subst h. destruct hit; [|by rewrite Z.add_0_r]. rewrite checked_add_fits; [done|]. unfold MAX_RESOLVED_SPANS in Hc. mach. }
  rewrite Hcount. cbn [mbind result_bind]. replace (Z.of_nat ((if hit then 1 else 0) + length (spans (off + pv_logical_length p) ps)))
    with (h + Z.of_nat (length (spans (off + pv_logical_length p) ps))) by (subst h; destruct hit; lia).
  destruct (hit && (MAX_RESOLVED_SPANS <? count + h)) eqn:Estop.
  { exists (count + h), true. split; [done|]. zbool. unfold counted. rewrite (proj2 (Z.leb_gt _ _)) by lia. done. }
  assert (Hle : count + h <= MAX_RESOLVED_SPANS) by (subst h; destruct hit; cbn in Estop; zbool; lia).
  assert (Hh : 0 <= h) by (subst h; destruct hit; lia).
  destruct (Z.leb_spec clipped_end (off + pv_logical_length p)) as [Hbr|Hgo].
  - rewrite page_spans_beyond by (done || by eapply sizes_nonneg). exists (count + h), false. split; [done|]. unfold counted. cbn [length].
    rewrite (proj2 (Z.leb_le _ _)) by lia. split; [lia|done].
  - destruct (IH (k + 1) (off + pv_logical_length p) (count + h)) as (c & st & -> & Hcst);
      [intros j q Hj; rewrite <- (Hps (S j) q Hj); f_equal; lia|done|lia|unfold pages_len; lia|lia|]. exists c, st. split; [done|].
    unfold counted in *. by rewrite Z.add_assoc.
Qed.

Lemma count_extent_loop_spec (file : FileView) (es : list Laid) (j off count : Z) :
  (forall k e, es !! k = Some e -> fv_extent idx file (j + Z.of_nat k) = Ok e.1) -> placed idx off es -> 0 <= off -> off + laid_len es <= u64_max ->
  (forall x ps es', es = (x, ps) :: es' -> offset < off + xv_logical_length x) -> 0 <= count <= MAX_RESOLVED_SPANS ->
  exists c st, count_extent_loop idx file offset clipped_end (length es) j count = Ok c /\ counted count (Z.of_nat (length (spans off (file_pages es)))) c st.
Proof using Hoff Hclip Hend.
  revert j off count. induction es as [|[x ps] es IH]; intros j off count Hes Hpl Ho Hu Hfirst Hc.
  { exists count, false. split; [done|]. unfold counted. cbn [file_pages map concat page_spans length].
    rewrite (proj2 (Z.leb_le _ _)) by (simpl; lia). by rewrite Z.add_0_r. }
  destruct Hpl as (Hxo & Hx & Hpl). cbn [length count_extent_loop].
  pose proof (Hes 0%nat (x, ps) eq_refl) as H0. rewrite Z.add_0_r in H0. rewrite H0. cbn [mbind result_bind fst].
  pose proof (le_pos _ _ _ Hx) as Hpos. pose proof (laid_len_nonneg idx _ _ Hpl) as Hnn. unfold laid_len in Hu, Hnn. rewrite sumZ_cons in Hu. cbn [fst] in Hu.
  destruct (Z.leb_spec clipped_end (xv_logical_offset x)) as [Hle|Hgt].
  { exists count, false. split; [done|]. rewrite page_spans_beyond; [|lia|apply (placed_sizes idx off ((x, ps) :: es)); done].
    unfold counted. cbn [length]. rewrite (proj2 (Z.leb_le _ _)) by (simpl; lia). by rewrite Z.add_0_r. }
  destruct (seek_spec idx offset clipped_end Hoff Hend x ps off Hxo Hx Ho ltac:(lia) (Hfirst x ps es eq_refl)) as (n & Hn & -> & Hseek & Hpre). cbn [mbind result_bind]. rewrite Hseek. cbn [mbind result_bind].
  pose proof (le_size _ _ _ Hx) as Hsz. pose proof (le_total _ _ _ Hx) as Htot.
  replace (Z.to_nat (xv_page_count x - Z.of_nat n)) with (length (drop n ps)) by (rewrite length_drop; pose proof (le_count _ _ _ Hx); lia).
  assert (Hsplit : pages_len ps = pages_len (take n ps) + pages_len (drop n ps)) by (unfold pages_len; by rewrite <- sumZ_app, take_drop).
  assert (0 <= pages_len (take n ps)) by (apply pages_len_nonneg, Forall_take; by eapply sizes_nonneg).
  destruct (count_page_loop_spec x (drop n ps) (Z.of_nat n) (off + pages_len (take n ps)) count) as (c & st & -> & Hcst);
    [intros k p Hk; rewrite lookup_drop in Hk; rewrite <- (le_pages _ _ _ Hx _ _ Hk); f_equal; lia|by apply Forall_drop|lia|lia|done|].
  cbn [mbind result_bind fst snd].
  assert (Hwhole : spans (off + pages_len (take n ps)) (drop n ps) = spans off ps) by (rewrite <- (take_drop n ps) at 3; by rewrite page_spans_app, Hpre).
  rewrite Hwhole in Hcst. unfold file_pages. cbn [map concat snd]. rewrite page_spans_app, length_app, Nat2Z.inj_add, Htot.
  fold (file_pages es). unfold counted in Hcst. destruct (Z.leb_spec (count + Z.of_nat (length (spans off ps))) MAX_RESOLVED_SPANS) as [Hle|Hgt2]; destruct Hcst as [Hc1 ->].
  - subst c. destruct (IH (j + 1) (off + xv_logical_length x) (count + Z.of_nat (length (spans off ps)))) as (c & st & -> & Hcst);
      [intros k e Hk; rewrite <- (Hes (S k) e Hk); f_equal; lia|done|lia|unfold laid_len; lia| |lia|].
    { intros y qs es' ->. destruct Hpl as (_ & Hy & _). pose proof (le_pos _ _ _ Hy). specialize (Hfirst x ps _ eq_refl). lia. }
    exists c, st. split; [done|]. unfold counted in *. by rewrite Z.add_assoc.
  - exists c, true. split; [done|]. unfold counted. rewrite (proj2 (Z.leb_gt _ _)) by lia. done.
Qed.
End counting.

Lemma placed_lookup (idx : MountIndex) (off : Z) (es : list Laid) (k : nat) (x : ExtentView) (ps : list PageView) :
  placed idx off es -> es !! k = Some (x, ps) -> xv_logical_offset x = off + laid_len (take k es) /\ laid_extent idx x ps /\ placed idx (off + laid_len (take k es)) (drop k es).
Proof.
  revert off k. induction es as [|[y qs] es IH]; intros off k; [done|]. intros (Hy & Hl & Hp). destruct k as [|k]; cbn [lookup list_lookup].
  - intros [= -> ->]. unfold laid_len. cbn. rewrite Z.add_0_r. by split_and!.
  - intros Hk. destruct (IH _ k Hp Hk) as (H1 & H2 & H3). unfold laid_len in *. cbn [take drop]. rewrite sumZ_cons. cbn [fst]. rewrite Z.add_assoc. done.
Qed.
Lemma laid_len_take_S (es : list Laid) (k : nat) (x : ExtentView) (ps : list PageView) : es !! k = Some (x, ps) ->
  laid_len (take (S k) es) = laid_len (take k es) + xv_logical_length x.
Proof. intros Hk. rewrite (take_S_r es k (x, ps) Hk). unfold laid_len. rewrite sumZ_app. cbn. lia. Qed.

Lemma extent_search_spec (idx : MountIndex) (file : FileView) (es : list Laid) (offset : Z) (fuel : nat) (low high : nat) :
  placed idx 0 es -> laid_len es <= u64_max -> (forall j e, es !! j = Some e -> fv_extent idx file (Z.of_nat j) = Ok e.1) -> offset < laid_len es ->
  (low <= high <= length es)%nat -> (high - low < fuel)%nat -> laid_len (take low es) <= offset ->
  (forall k, (high <= k < length es)%nat -> offset < laid_len (take (S k) es)) ->
  exists r : nat, extent_search idx file offset fuel (Z.of_nat low) (Z.of_nat high) = Ok (Z.of_nat r) /\ (r < length es)%nat /\
    laid_len (take r es) <= offset < laid_len (take (S r) es).
Proof.
  intros Hpl Hu Hes Hlt. assert (Hmono : forall k, laid_len (take k es) <= laid_len es).
  { intros k. destruct (es !! k) as [[x ps]|] eqn:Ek.
    - destruct (placed_lookup idx 0 es k x ps Hpl Ek) as (_ & _ & Hd). apply laid_len_nonneg in Hd.
      assert (laid_len es = laid_len (take k es) + laid_len (drop k es)) by (unfold laid_len; by rewrite <- sumZ_app, take_drop). lia.
    - rewrite take_ge; [done|]. by apply lookup_ge_None. }
  revert low high. induction fuel as [|fuel IH]; intros low high Hlh Hfuel Hlow Hhigh; [lia|]. cbn [extent_search].
  destruct (Z.ltb_spec (Z.of_nat low) (Z.of_nat high)) as [H1|H1].
  - pose proof (half_range (Z.of_nat low) (Z.of_nat high) H1) as Hm. set (mid := Z.of_nat low + (Z.of_nat high - Z.of_nat low) / 2) in *.
    assert (Hmid : mid = Z.of_nat (Z.to_nat mid)) by lia. set (m := Z.to_nat mid) in *. rewrite Hmid in Hm |- *. clearbody m. clear Hmid mid.
    destruct (lookup_lt_is_Some_2 es m ltac:(lia)) as [[x ps] Hx]. rewrite (Hes m _ Hx). cbn [mbind result_bind fst].
    destruct (placed_lookup idx 0 es m x ps Hpl Hx) as (Hxo & _ & _). pose proof (laid_len_take_S es m x ps Hx) as HS. pose proof (Hmono (S m)).
    rewrite checked_add_fits by lia. cbn [ok_or mbind result_bind].
    destruct (Z.leb_spec (xv_logical_offset x + xv_logical_length x) offset) as [Hle|Hgt].
    + replace (Z.of_nat m + 1) with (Z.of_nat (S m)) by lia. apply IH; [lia|lia|lia|done].
    + apply IH; [lia|lia|done|]. intros k Hk. destruct (decide (k = m)) as [->|]; [lia|].
      assert (laid_len (take (S m) es) <= laid_len (take (S k) es)); [|lia].
      assert (Htt : take (S m) (take (S k) es) = take (S m) es) by (rewrite take_take; f_equal; lia). rewrite <- Htt.
      assert (Hsp : laid_len (take (S k) es) = laid_len (take (S m) (take (S k) es)) + laid_len (drop (S m) (take (S k) es))) by (unfold laid_len; by rewrite <- sumZ_app, take_drop).
      enough (0 <= laid_len (drop (S m) (take (S k) es))) by lia. unfold laid_len. apply sumZ_nonneg, Forall_drop, Forall_take, Forall_lookup.
      intros q [y qs] Hq. destruct (placed_lookup idx 0 es q y qs Hpl Hq) as (_ & Hy & _). pose proof (le_pos _ _ _ Hy). cbn. lia.
  - assert (low = high) as <- by lia. exists low. split; [done|]. assert (Hll : (low < length es)%nat).
    { destruct (decide (low < length es)%nat); [done|]. exfalso. rewrite take_ge in Hlow by lia. lia. }
    split; [done|]. split; [done|]. apply Hhigh. lia.
Qed.

(** ** The spans tile the read *)
Fixpoint tiles (d : Z) (spans : list ResolvedSpan) (d' : Z) : Prop :=
  match spans with [] => d = d' | s :: spans => rs_dst_offset s = d /\ 0 < rs_len s /\ tiles (d + rs_len s) spans d' end.
(** A span reads, inside its page, the bytes the file has at its place. *)
Definition span_placed (offset : Z) (ps : list PageView) (s : ResolvedSpan) : Prop :=
  exists k p, ps !! k = Some p /\ rs_page_ordinal s = pv_ordinal p /\ 0 <= rs_page_offset s /\ rs_page_offset s + rs_len s <= pv_logical_length p /\
    pages_len (take k ps) + rs_page_offset s = offset + rs_dst_offset s.

Lemma tiles_app (d m d' : Z) (a b : list ResolvedSpan) : tiles d a m -> tiles m b d' -> tiles d (a ++ b) d'.
Proof. revert d. induction a as [|s a IH]; intros d; cbn [tiles app]; [by intros ->|]. intros (H1 & H2 & H3) Hb. split_and!; auto. Qed.
Lemma span_total_tiles (d d' : Z) (spans : list ResolvedSpan) : tiles d spans d' -> d' - d <= u64_max -> span_total spans = Some (d' - d).
Proof.
  intros H Hu. unfold span_total. assert (Hgen : forall a, 0 <= a -> a + (d' - d) <= u64_max ->
    foldl (fun t s => t ← t; checked_add t (rs_len s)) (Some a) spans = Some (a + (d' - d))).
  { clear Hu. revert d H. induction spans as [|s spans IH]; intros d H a Ha Hb; cbn [tiles foldl] in *; [by subst; rewrite Z.sub_diag, Z.add_0_r|].
    destruct H as (_ & Hp & Ht). assert (Hd : d + rs_len s <= d') by (clear -Ht; revert Ht; generalize (d + rs_len s); induction spans as [|s' l IH]; intros z; cbn [tiles]; [lia|]; intros (_ & H1 & H2); specialize (IH _ H2); lia).
    cbn [mbind option_bind]. rewrite checked_add_fits by lia. rewrite (IH _ Ht) by lia. f_equal. lia. }
  rewrite Hgen by lia. by rewrite Z.add_0_l.
Qed.

Lemma page_spans_tile (o e off : Z) (ps : list PageView) : o <= e -> Forall (fun p => 0 < pv_logical_length p) ps ->
  tiles (Z.max o (Z.min off e) - o) (page_spans o e off ps) (Z.max o (Z.min (off + pages_len ps) e) - o).
Proof.
  intros Hoe H. revert off. induction H as [|p ps Hp H IH]; intros off; unfold pages_len in *; cbn [page_spans].
  { cbn [tiles sumZ foldr]. by rewrite Z.add_0_r. }
  rewrite sumZ_cons, Z.add_assoc. eapply tiles_app; [|apply IH].
  unfold page_span. destruct (Z.ltb_spec (Z.max off o) (Z.min (off + pv_logical_length p) e)); cbn [tiles rs_dst_offset rs_len]; lia.
Qed.
Lemma page_spans_placed (o e off : Z) (ps qs : list PageView) : off = pages_len qs ->
  Forall (span_placed o (qs ++ ps)) (page_spans o e off ps).
Proof.
  revert off qs. induction ps as [|p ps IH]; intros off qs Hoff; cbn [page_spans]; [constructor|]. apply Forall_app. split.
  - unfold page_span. destruct (Z.ltb_spec (Z.max off o) (Z.min (off + pv_logical_length p) e)); [|constructor]. repeat constructor.
    exists (length qs), p. cbn [rs_page_ordinal rs_page_offset rs_len rs_dst_offset]. rewrite (list_lookup_middle qs ps p) by done.
    rewrite take_app_length. split_and!; [done|done|lia|lia|lia].
  - replace (qs ++ p :: ps) with ((qs ++ [p]) ++ ps) by (by rewrite <- app_assoc). apply IH. unfold pages_len in *. rewrite sumZ_app. cbn. lia.
Qed.

(** ** Resolution *)
Section resolve.
Context (upper : Z -> list Z) {Ord : NameOrder} (idx : MountIndex) (Hbytes : is_bytes (mi_bytes idx)) (Hok : index_ok upper idx).

(** The result in terms of the reference. *)
Definition resolved (file : FileView) (es : list Laid) (offset len_ : Z) : result (list ResolvedSpan) :=
  if len_ =? 0 then Ok [] else
  if u64_max <? offset + len_ then Err (invalid_argument "read range overflows") else
  if fv_logical_size file <=? offset then Ok [] else
  let clipped_end := Z.min (offset + len_) (fv_logical_size file) in
  if u32_max <? clipped_end - offset then Err (invalid_argument "one resolved read cannot exceed u32::MAX bytes") else
  let spans := resolve_reference offset clipped_end es in
  if MAX_RESOLVED_SPANS <? Z.of_nat (length spans) then Err (invalid_argument "read would exceed the resolved-span safety bound") else Ok spans.

Lemma placed_positive (off : Z) (es : list Laid) : placed idx off es -> Forall (fun p => 0 < pv_logical_length p) (file_pages es).
Proof using.
  revert off. induction es as [|[x ps] es IH]; intros off; [constructor|]. intros (_ & Hx & Hpl). apply Forall_app. split; [|by eapply IH].
  eapply Forall_impl; [apply (le_size _ _ _ Hx)|]. cbn. lia.
Qed.
Lemma reference_tiles (es : list Laid) (offset clipped_end : Z) : placed idx 0 es -> 0 <= offset < clipped_end -> clipped_end <= laid_len es ->
  tiles 0 (resolve_reference offset clipped_end es) (clipped_end - offset) /\ Forall (span_placed offset (file_pages es)) (resolve_reference offset clipped_end es).
Proof using.
  intros Hpl Ho Hc. destruct (placed_sizes idx 0 es Hpl) as [_ Hlen]. split; [|by apply (page_spans_placed offset clipped_end 0 (file_pages es) [])].
  pose proof (page_spans_tile offset clipped_end 0 (file_pages es) ltac:(lia) (placed_positive 0 es Hpl)) as H. rewrite Hlen in H.
  replace (Z.max offset (Z.min 0 clipped_end) - offset) with 0 in H by lia.
  by replace (Z.max offset (Z.min (0 + laid_len es) clipped_end) - offset) with (clipped_end - offset) in H by lia.
Qed.

Lemma resolve_range_spec (i : Z) (file : FileView) (es : list Laid) (offset len_ : Z) :
  file_by_index idx i = Ok file -> in_u64 offset -> in_u64 len_ ->
  Z.of_nat (length es) = fv_extent_count file -> placed idx 0 es -> laid_len es = fv_logical_size file ->
  (forall j e, es !! j = Some e -> fv_extent idx file (Z.of_nat j) = Ok e.1) ->
  resolve_range idx file offset len_ = resolved file es offset len_.
Proof using Hbytes.
  intros Hf [Ho _] [Hl _] Hcnt Hpl Hsz Hes. destruct (file_by_index_Ok idx Hbytes i file Hf) as (_ & (_ & _ & _ & [_ Hsu] & _) & _). fold (fv_logical_size file) in Hsu.
  unfold resolve_range, resolved. destruct (Z.eqb_spec len_ 0); [done|].
  destruct (Z.ltb_spec u64_max (offset + len_)) as [Hov|Hov]; [by rewrite (proj2 (checked_add_None _ _)) by lia|].
  rewrite checked_add_fits by lia. cbn [ok_or mbind result_bind]. destruct (Z.leb_spec (fv_logical_size file) offset); [done|].
  set (e := Z.min (offset + len_) (fv_logical_size file)) in *. destruct (Z.ltb_spec u32_max (e - offset)) as [|Hu32]; [done|].
  destruct (extent_search_spec idx file es offset (S (Z.to_nat (fv_extent_count file))) 0 (length es) Hpl) as (r & Hr & Hrl & Hra & Hrb); [lia|done|lia|lia|lia|done|lia|].
  rewrite Hcnt in Hr. change (Z.of_nat 0) with 0 in Hr. rewrite Hr. cbn [mbind result_bind].
  destruct (lookup_lt_is_Some_2 es r Hrl) as [[x ps] Hx]. destruct (placed_lookup idx 0 es r x ps Hpl Hx) as (Hxo & Hxl & Hpd). rewrite Z.add_0_l in Hxo, Hpd.
  assert (Hsplit : laid_len es = laid_len (take r es) + laid_len (drop r es)) by (unfold laid_len; by rewrite <- sumZ_app, take_drop).
  assert (Hnn : 0 <= laid_len (take r es)).
  { unfold laid_len. apply sumZ_nonneg, Forall_take, Forall_lookup. intros q [y qs] Hq. destruct (placed_lookup idx 0 es q y qs Hpl Hq) as (_ & Hy & _). pose proof (le_pos _ _ _ Hy). cbn. lia. }
  assert (Hdes : forall k e0, drop r es !! k = Some e0 -> fv_extent idx file (Z.of_nat r + Z.of_nat k) = Ok e0.1).
  { intros k e0 Hk. rewrite lookup_drop in Hk. rewrite <- (Hes _ _ Hk). f_equal. lia. }
  assert (Hfirst : forall y qs es', drop r es = (y, qs) :: es' -> offset < laid_len (take r es) + xv_logical_length y).
  { intros y qs es' Ed. rewrite (drop_S es (x, ps) r Hx) in Ed. injection Ed as <- <- _. by rewrite <- (laid_len_take_S es r x ps Hx). }
  assert (Hn : Z.to_nat (fv_extent_count file - Z.of_nat r) = length (drop r es)) by (rewrite length_drop; lia).
  assert (Href : page_spans offset e (laid_len (take r es)) (file_pages (drop r es)) = resolve_reference offset e es).
  { unfold resolve_reference. rewrite <- (take_drop r es) at 3. unfold file_pages at 2. rewrite map_app, concat_app, page_spans_app. fold (file_pages (take r es)) (file_pages (drop r es)).
    assert (Hpt : placed idx 0 (take r es)). { clear -Hpl. revert r Hpl. generalize 0. induction es as [|[y qs] es IH]; intros off [|r]; try done. intros (H1 & H2 & H3). split_and!; auto. }
    destruct (placed_sizes idx 0 (take r es) Hpt) as [H1 H2]. rewrite H2, Z.add_0_l, (page_spans_before offset e 0 (file_pages (take r es))) by (done || lia). done. }
  unfold count_spans. rewrite Hn.
  destruct (count_extent_loop_spec idx offset e ltac:(lia) ltac:(lia) ltac:(lia) file (drop r es) (Z.of_nat r) (laid_len (take r es)) 0 Hdes Hpd Hnn ltac:(lia) Hfirst) as (c & st & -> & Hcst);
    [unfold MAX_RESOLVED_SPANS; lia|].
  cbn [mbind result_bind]. rewrite Href in Hcst. unfold counted in Hcst. rewrite Z.add_0_l in Hcst.
  destruct (Z.leb_spec (Z.of_nat (length (resolve_reference offset e es))) MAX_RESOLVED_SPANS) as [Hle|Hgt]; destruct Hcst as [Hc _].
  - subst c. rewrite !(proj2 (Z.ltb_ge MAX_RESOLVED_SPANS _)) by lia.
    rewrite (extent_loop_spec idx offset e ltac:(lia) ltac:(lia) ltac:(lia) file (drop r es) (Z.of_nat r) (laid_len (take r es)) Hdes Hpd Hnn ltac:(lia) Hfirst). cbn [mbind result_bind]. rewrite Href.
    destruct (reference_tiles es offset e Hpl ltac:(lia) ltac:(lia)) as [Ht _]. apply span_total_tiles in Ht; [|lia]. rewrite Z.sub_0_r in Ht. by rewrite bool_decide_eq_true_2.
  - by rewrite !(proj2 (Z.ltb_lt MAX_RESOLVED_SPANS _)) by lia.
Qed.
End resolve.

(** ** The properties *)
Section properties.
Context (upper : Z -> list Z) {Ord : NameOrder} {L : NameOrderLaws Ord} (blake3 : list Z -> Z) (Hblake : forall l, hash256 (blake3 l)).
Context (b : list Z) (idx : MountIndex) (Hb : is_bytes b) (Hlen : Z.of_nat (length b) <= u64_max).
Context (Hopen : MountIndex_from_bytes upper blake3 b = Ok idx).

(** C9: Reads of a virtual file of an opened index resolve to the reference:
    the extents and pages of the file tile it, and the optimised resolution
    (binary search for the extent, seek to the page, early exits) returns
    exactly the intersections of the clipped read with all the pages in order,
    or refuses an overflowing range, more than 2^32 - 1 bytes or more than
    1048576 spans; returned spans tile the clipped read without gap or overlap
    and each lies inside its page at the place the file has it.  Native files
    have no spans: a read below their size fails as an invalid manifest. *)
Theorem resolve_range_exact (i : Z) (file : FileView) (offset len_ : Z) :
  0 <= i < index_count idx Files -> file_by_index idx i = Ok file -> in_u64 offset -> in_u64 len_ ->
  (is_virtual (fl_class (fv_record file)) = true ->
   exists es, Z.of_nat (length es) = fv_extent_count file /\ placed idx 0 es /\ laid_len es = fv_logical_size file /\
     (forall j e, es !! j = Some e -> fv_extent idx file (Z.of_nat j) = Ok e.1) /\
     resolve_range idx file offset len_ = resolved file es offset len_ /\
     (forall spans, 0 < len_ -> offset < fv_logical_size file -> resolve_range idx file offset len_ = Ok spans ->
        tiles 0 spans (Z.min (offset + len_) (fv_logical_size file) - offset) /\ Forall (span_placed offset (file_pages es)) spans)) /\
  (is_virtual (fl_class (fv_record file)) = false -> 0 < len_ -> offset + len_ <= u64_max -> offset < fv_logical_size file ->
   Z.min (offset + len_) (fv_logical_size file) - offset <= u32_max -> is_err_kind ManifestInvalid (resolve_range idx file offset len_)).
Proof using All.
  intros Hi Hf Ho Hl. destruct (from_bytes_ok upper blake3 Hblake b idx Hb Hlen Hopen) as (_ & Hbi & _ & Hok). split.
  - intros Hv. destruct (file_laid upper idx Hbi Hok i file Hi Hf Hv) as (es & H1 & H2 & H3 & H4). exists es. split_and!; try done.
    + by apply (resolve_range_spec idx Hbi i).
    + intros spans Hlp Hos. rewrite (resolve_range_spec idx Hbi i file es) by done. unfold resolved. rewrite (proj2 (Z.eqb_neq len_ 0)) by lia.
      destruct (Z.ltb_spec u64_max (offset + len_)); [done|]. rewrite (proj2 (Z.leb_gt _ _)) by lia. destruct (u32_max <? _); [done|].
      destruct (MAX_RESOLVED_SPANS <? _); [done|]. intros <-%Ok_inj. apply (reference_tiles idx es); [done| |lia]. destruct Ho. lia.
  - intros Hv Hlp Hov Hos Hu. destruct (ok_file _ _ Hok i Hi) as (w & n & Hw). pose proof (ff_read _ _ _ _ _ Hw) as E. rewrite Hf in E. apply Ok_inj in E as <-.
    pose proof (ff_layout _ _ _ _ _ Hw) as Hlay. unfold validate_file_layout in Hlay. rewrite Hv in Hlay. cbn [negb] in Hlay. apply fail_if_Ok_inv in Hlay. zbool.
    unfold resolve_range. rewrite (proj2 (Z.eqb_neq len_ 0)), checked_add_fits by lia. cbn [ok_or mbind result_bind].
    rewrite (proj2 (Z.leb_gt _ _)), (proj2 (Z.ltb_ge _ _)) by lia. unfold count_spans. rewrite Hlay.
    assert (extent_search idx file offset (S (Z.to_nat 0)) 0 0 = Ok 0) as -> by done. cbn [mbind result_bind].
    change (Z.to_nat (0 - 0)) with 0%nat. cbn [count_extent_loop extent_loop mbind result_bind]. change (MAX_RESOLVED_SPANS <? 0) with false. cbn iota.
    case_bool_decide as E0; [|done]. unfold span_total in E0. cbn in E0. injection E0. lia.
Qed.
End properties.

Definition demo_file (i : Z) : FileView :=
  match file_by_index demo_idx i with Ok v => v | Err _ => mkFileView 0 (mkFileRecord 0 VirtualAsset (mkStringRef 0 0) (mkStringRef 0 0) 0 0 0 0 0) end.
Example demo_resolve : resolve_range demo_idx (demo_file 3) 65530 100 = Ok [mkSpan 1 65530 6 0; mkSpan 2 0 94 6].
Proof. vm_compute. reflexivity. Qed.
Lemma resolve_range_exact_witness : exists es, laid_len es = 70000 /\ resolve_range demo_idx (demo_file 3) 65530 100 = resolved (demo_file 3) es 65530 100.
Proof.
  destruct (proj1 (resolve_range_exact ascii_upper sum256 sum256_hash demo_bytes demo_idx demo_is_bytes demo_length demo_opens 3 (demo_file 3) 65530 100
    ltac:(vm_compute; split; [discriminate|reflexivity]) ltac:(vm_compute; reflexivity) ltac:(vm_compute; split; discriminate) ltac:(vm_compute; split; discriminate))) as (es & _ & _ & H3 & _ & H5 & _).
  - vm_compute. reflexivity.
  - exists es. split; [|exact H5]. rewrite H3. vm_compute. reflexivity.
Defined.
