(* ===== verification/Cbor.v ===== *)
(** * CBOR items

    The manifest and commit codecs of [mirage-manifest] write and read CBOR
    through the [minicbor] crate.  The class [Cbor] is the part of its
    [Encoder] and [Decoder] they call, [CborLaws] what they rely on: a written
    item is read back and what follows it is left, integers are written
    independently of their Rust width, [datatype] tells a null from the other
    items, and decoded values have their type.  Writing to a [Vec] cannot fail
    but for [i128], which need not fit a CBOR integer.

    The instance [rfc_cbor] is a definite-length coding of the same items by
    RFC 8949; it shows that the laws can hold and runs the examples. *)
From S2P Require Export Parser IndexNames.

(** A decoder call: the message of its error, or the value and the unread bytes. *)
Definition dec (A : Type) : Type := list Z -> string + A * list Z.

(** Strings are given by their UTF-8 bytes. *)
Class Cbor : Type := mkCbor {
  enc_map : Z -> list Z; enc_array : Z -> list Z;
  enc_u8 : Z -> list Z; enc_u16 : Z -> list Z; enc_u32 : Z -> list Z; enc_u64 : Z -> list Z; enc_i128 : Z -> option (list Z);
  enc_bytes : list Z -> list Z; enc_str : list Z -> list Z; enc_null : list Z;
  dec_map : dec (option Z); dec_array : dec (option Z);
  dec_u8 : dec Z; dec_u16 : dec Z; dec_u32 : dec Z; dec_u64 : dec Z; dec_i128 : dec Z;
  dec_bytes : dec (list Z); dec_str : dec (list Z); dec_null : dec unit;
  (** [datatype()? == Type::Null] *)
  next_is_null : list Z -> string + bool
}.

Definition in_u16 (x : Z) : Prop := 0 <= x <= u16_max.
(** The integers CBOR has without tags. *)
Definition in_cbor_int (x : Z) : Prop := - 2 ^ 64 <= x < 2 ^ 64.
Definition in_i128 (x : Z) : Prop := - 2 ^ 127 <= x < 2 ^ 127.
(** The bytes of a [str]; a length is a [usize]. *)
Definition is_utf8 (l : list Z) : Prop := is_bytes l /\ utf8_valid l = true /\ Z.of_nat (length l) <= u64_max.

(** A decoder call returns values in [P] and leaves bytes. *)
Definition dec_typed {A : Type} (d : dec A) (P : A -> Prop) : Prop := forall b a r, is_bytes b -> d b = inr (a, r) -> P a /\ is_bytes r.

Class CborLaws (C : Cbor) : Prop := mkCborLaws {
  cbor_map (n : Z) (r : list Z) : in_u64 n -> dec_map (enc_map n ++ r) = inr (Some n, r);
  cbor_array (n : Z) (r : list Z) : in_u64 n -> dec_array (enc_array n ++ r) = inr (Some n, r);
  cbor_u8 (x : Z) (r : list Z) : in_u8 x -> dec_u8 (enc_u8 x ++ r) = inr (x, r);
  cbor_key (x : Z) (r : list Z) : in_u8 x -> dec_u32 (enc_u8 x ++ r) = inr (x, r);
  cbor_u16 (x : Z) (r : list Z) : in_u16 x -> dec_u16 (enc_u16 x ++ r) = inr (x, r);
  cbor_u32 (x : Z) (r : list Z) : in_u32 x -> dec_u32 (enc_u32 x ++ r) = inr (x, r);
  cbor_u64 (x : Z) (r : list Z) : in_u64 x -> dec_u64 (enc_u64 x ++ r) = inr (x, r);
  cbor_i128 (x : Z) : in_cbor_int x -> exists e, enc_i128 x = Some e /\ forall r, dec_i128 (e ++ r) = inr (x, r);
  cbor_bytes (l r : list Z) : is_bytes l -> Z.of_nat (length l) <= u64_max -> dec_bytes (enc_bytes l ++ r) = inr (l, r);
  cbor_str (l r : list Z) : is_utf8 l -> dec_str (enc_str l ++ r) = inr (l, r);
  cbor_null (r : list Z) : dec_null (enc_null ++ r) = inr (tt, r);
  null_next (r : list Z) : next_is_null (enc_null ++ r) = inr true;
  null_u32 (x : Z) (r : list Z) : in_u32 x -> next_is_null (enc_u32 x ++ r) = inr false;
  null_bytes (l r : list Z) : is_bytes l -> Z.of_nat (length l) <= u64_max -> next_is_null (enc_bytes l ++ r) = inr false;
  null_str (l r : list Z) : is_utf8 l -> next_is_null (enc_str l ++ r) = inr false;
  typed_map : dec_typed dec_map (opt_ok in_u64); typed_array : dec_typed dec_array (opt_ok in_u64);
  typed_u8 : dec_typed dec_u8 in_u8; typed_u16 : dec_typed dec_u16 in_u16; typed_u32 : dec_typed dec_u32 in_u32;
  typed_u64 : dec_typed dec_u64 in_u64; typed_i128 : dec_typed dec_i128 in_i128;
  typed_bytes : dec_typed dec_bytes is_bytes; typed_str : dec_typed dec_str is_utf8; typed_null : dec_typed dec_null (fun _ => True)
}.

(** ** A coding by RFC 8949 *)

(** The initial byte with the argument in its shortest form. *)
Definition cbor_head (major n : Z) : list Z :=
  if n <=? 23 then [32 * major + n]
  else if n <=? 255 then (32 * major + 24) :: to_be 1 n
  else if n <=? 65535 then (32 * major + 25) :: to_be 2 n
  else if n <=? 4294967295 then (32 * major + 26) :: to_be 4 n
  else (32 * major + 27) :: to_be 8 n.
Definition read_be (k : nat) (major : Z) (b : list Z) : string + (Z * Z) * list Z :=
  if (k <=? length b)%nat then inr ((major, from_be (firstn k b)), skipn k b) else inl "end of input bytes"%string.
Definition dec_head : dec (Z * Z) := fun b =>
  match b with
  | [] => inl "end of input bytes"%string
  | a :: b =>
      let major := a / 32 in let info := a mod 32 in
      if info <=? 23 then inr ((major, info), b)
      else if info =? 24 then read_be 1 major b
      else if info =? 25 then read_be 2 major b
      else if info =? 26 then read_be 4 major b
      else if info =? 27 then read_be 8 major b
      else inl "unexpected type"%string
  end.

Definition dec_uint (maximum : Z) : dec Z := fun b =>
  match dec_head b with
  | inl e => inl e
  | inr ((major, n), b) => if negb (major =? 0) then inl "unexpected type"%string else if maximum <? n then inl "integer overflow"%string else inr (n, b)
  end.
Definition dec_length (major : Z) : dec (option Z) := fun b =>
  if bool_decide (head b = Some (32 * major + 31)) then inr (None, tail b) else
  match dec_head b with
  | inl e => inl e
  | inr ((m, n), b) => if m =? major then inr (Some n, b) else inl "unexpected type"%string
  end.
Definition dec_chunk (major : Z) : dec (list Z) := fun b =>
  match dec_head b with
  | inl e => inl e
  | inr ((m, n), b) =>
      if negb (m =? major) then inl "unexpected type"%string else
      if Z.of_nat (length b) <? n then inl "end of input bytes"%string else inr (firstn (Z.to_nat n) b, skipn (Z.to_nat n) b)
  end.

Definition rfc_cbor : Cbor := {|
  enc_map := cbor_head 5; enc_array := cbor_head 4;
  enc_u8 := cbor_head 0; enc_u16 := cbor_head 0; enc_u32 := cbor_head 0; enc_u64 := cbor_head 0;
  enc_i128 x := if (- 2 ^ 64 <=? x) && (x <? 2 ^ 64) then Some (if 0 <=? x then cbor_head 0 x else cbor_head 1 (- 1 - x)) else None;
  enc_bytes l := cbor_head 2 (Z.of_nat (length l)) ++ l; enc_str l := cbor_head 3 (Z.of_nat (length l)) ++ l; enc_null := [246];
  dec_map := dec_length 5; dec_array := dec_length 4;
  dec_u8 := dec_uint u8_max; dec_u16 := dec_uint u16_max; dec_u32 := dec_uint u32_max; dec_u64 := dec_uint u64_max;
  dec_i128 b := match dec_head b with
                | inl e => inl e
                | inr ((major, n), b) => if major =? 0 then inr (n, b) else if major =? 1 then inr (- 1 - n, b) else inl "unexpected type"%string
                end;
  dec_bytes := dec_chunk 2;
  dec_str b := match dec_chunk 3 b with inr (l, b) => if utf8_valid l then inr (l, b) else inl "invalid UTF-8"%string | inl e => inl e end;
  dec_null b := match b with a :: b => if a =? 246 then inr (tt, b) else inl "unexpected type"%string | [] => inl "end of input bytes"%string end;
  next_is_null b := match b with [] => inl "end of input bytes"%string | a :: _ => inr (a =? 246) end
|}.

Lemma read_be_spec (k : nat) (major n : Z) (r : list Z) : 0 <= n < 256 ^ Z.of_nat k -> read_be k major (to_be k n ++ r) = inr ((major, n), r).
Proof.
  intros Hn. unfold read_be. rewrite length_app, length_be, (proj2 (Nat.leb_le _ _)) by lia.
  rewrite firstn_app, skipn_app, length_be, Nat.sub_diag, firstn_all2, skipn_all2 by (rewrite length_be; lia). cbn. by rewrite app_nil_r, be_val_be.
Qed.
Lemma head_split (major i : Z) : 0 <= i < 32 -> (32 * major + i) / 32 = major /\ (32 * major + i) mod 32 = i.
Proof. intros Hi. split; [symmetry; apply Z.div_unique with i; lia|symmetry; apply Z.mod_unique with major; lia]. Qed.
Lemma dec_head_spec (major n : Z) (r : list Z) : in_u64 n -> dec_head (cbor_head major n ++ r) = inr ((major, n), r).
Proof.
  intros [Hn0 Hn]. unfold u64_max in Hn. unfold cbor_head, dec_head.
  destruct (Z.leb_spec n 23); [cbn [app]; destruct (head_split major n) as [-> ->]; [lia|]; by rewrite (proj2 (Z.leb_le _ _)) by lia|].
  destruct (Z.leb_spec n 255); [cbn [app]; destruct (head_split major 24) as [-> ->]; [lia|]; cbn; apply read_be_spec; change (256 ^ Z.of_nat 1) with 256; lia|].
  destruct (Z.leb_spec n 65535); [cbn [app]; destruct (head_split major 25) as [-> ->]; [lia|]; cbn [Z.leb Z.eqb]; apply read_be_spec; change (256 ^ Z.of_nat 2) with 65536; lia|].
  destruct (Z.leb_spec n 4294967295); [cbn [app]; destruct (head_split major 26) as [-> ->]; [lia|]; apply read_be_spec; change (256 ^ Z.of_nat 4) with 4294967296; lia|].
  cbn [app]; destruct (head_split major 27) as [-> ->]; [lia|]; apply read_be_spec. change (256 ^ Z.of_nat 8) with 18446744073709551616; lia.
Qed.
Lemma cbor_head_first (major n : Z) : exists i l, cbor_head major n = (32 * major + i) :: l /\ i <= 27 /\ (0 <= n -> 0 <= i).
Proof. unfold cbor_head. repeat case_match; zbool; eexists _, _; (split; [reflexivity|lia]). Qed.
Lemma read_be_typed (k : nat) (major m n : Z) (b r : list Z) : (k <= 8)%nat -> is_bytes b -> read_be k major b = inr ((m, n), r) -> in_u64 n /\ is_bytes r.
Proof.
  unfold read_be. intros Hk Hb. destruct (Nat.leb_spec k (length b)); [|done]. intros [= <- <- <-]. split; [|by apply Forall_drop].
  pose proof (be_val_bound (firstn k b) ltac:(by apply Forall_take)) as H1. rewrite length_firstn, Nat.min_l in H1 by lia.
  assert (256 ^ Z.of_nat k <= 256 ^ 8) by (apply Z.pow_le_mono_r; lia). change (256 ^ 8) with 18446744073709551616 in *. unfold in_u64, u64_max. lia.
Qed.
Lemma dec_head_typed : dec_typed dec_head (fun p => in_u64 p.2).
Proof.
  intros [|a b] [m n] r Hb; [done|]. apply Forall_cons in Hb as [_ Hb]. unfold dec_head.
  destruct (Z.leb_spec (a mod 32) 23); [intros [= <- <- <-]; split; [|done]; cbn; pose proof (Z.mod_pos_bound a 32); unfold in_u64, u64_max; lia|].
  repeat case_match; try done; apply read_be_typed; (done || lia).
Qed.
Lemma dec_uint_typed (maximum : Z) : dec_typed (dec_uint maximum) (fun x => 0 <= x <= maximum).
Proof.
  intros b x r Hb. unfold dec_uint. destruct (dec_head b) as [|[[m n] b1]] eqn:E; [done|]. apply dec_head_typed in E as [[Hn _] Hr]; [|done].
  destruct (negb _); [done|]. destruct (Z.ltb_spec maximum n); [done|]. intros [= <- <-]. cbn in Hn. split; [lia|done].
Qed.
Lemma dec_length_typed (major : Z) : dec_typed (dec_length major) (opt_ok in_u64).
Proof.
  intros b x r Hb. unfold dec_length. case_bool_decide.
  - intros [= <- <-]. split; [done|]. destruct Hb; [constructor|done].
  - destruct (dec_head b) as [|[[m n] b1]] eqn:E; [done|]. apply dec_head_typed in E as [Hn Hr]; [|done]. destruct (_ =? _); [|done]. by intros [= <- <-].
Qed.
Lemma dec_chunk_typed (major : Z) : dec_typed (dec_chunk major) (fun l => is_bytes l /\ Z.of_nat (length l) <= u64_max).
Proof.
  intros b x r Hb. unfold dec_chunk. destruct (dec_head b) as [|[[m n] b1]] eqn:E; [done|]. apply dec_head_typed in E as [Hn Hr]; [|done].
  destruct (negb _); [done|]. destruct (_ <? _); [done|]. intros [= <- <-]. destruct Hn as [Hn0 Hn]. cbn in Hn0, Hn.
  split_and!; [by apply Forall_take|rewrite length_firstn; lia|by apply Forall_drop].
Qed.
Lemma dec_uint_head (maximum x : Z) (r : list Z) : 0 <= x <= maximum -> maximum <= u64_max -> dec_uint maximum (cbor_head 0 x ++ r) = inr (x, r).
Proof. intros Hx Hm. unfold dec_uint. rewrite dec_head_spec by (split; lia). cbn [negb Z.eqb]. by rewrite (proj2 (Z.ltb_ge _ _)) by lia. Qed.
Lemma dec_length_head (major n : Z) (r : list Z) : in_u64 n -> dec_length major (cbor_head major n ++ r) = inr (Some n, r).
Proof.
  intros Hn. unfold dec_length. rewrite bool_decide_false; [by rewrite dec_head_spec, Z.eqb_refl|].
  destruct (cbor_head_first major n) as (i & l & -> & Hi & _). cbn. intros [= ?]. lia.
Qed.
Lemma dec_chunk_head (major : Z) (l r : list Z) : Z.of_nat (length l) <= u64_max ->
  dec_chunk major ((cbor_head major (Z.of_nat (length l)) ++ l) ++ r) = inr (l, r).
Proof.
  intros Hl. unfold dec_chunk. rewrite <- app_assoc, dec_head_spec by (split; lia). rewrite Z.eqb_refl. cbn [negb].
  rewrite length_app, (proj2 (Z.ltb_ge _ _)), Nat2Z.id by lia. by rewrite take_app_length, drop_app_length.
Qed.
Lemma next_head (major n : Z) (l r : list Z) : 0 <= n -> 0 <= major < 7 -> next_is_null (Cbor := rfc_cbor) ((cbor_head major n ++ l) ++ r) = inr false.
Proof. intros Hn Hm. destruct (cbor_head_first major n) as (i & l' & -> & Hi & Hi0). cbn. f_equal. apply Z.eqb_neq. lia. Qed.

#[export] Instance rfc_cbor_laws : CborLaws rfc_cbor.
Proof.
  split; cbn [enc_map enc_array enc_u8 enc_u16 enc_u32 enc_u64 enc_i128 enc_bytes enc_str enc_null dec_map dec_array dec_u8 dec_u16 dec_u32 dec_u64
              dec_i128 dec_bytes dec_str dec_null rfc_cbor].
  - intros. by apply dec_length_head.
  - intros. by apply dec_length_head.
  - intros. by apply dec_uint_head.
  - intros x r [? ?]. apply dec_uint_head; unfold u8_max, u32_max, u64_max in *; lia.
  - intros. by apply dec_uint_head.
  - intros. by apply dec_uint_head.
  - intros. by apply dec_uint_head.
  - intros x [H1 H2]. rewrite (proj2 (Z.leb_le _ _)), (proj2 (Z.ltb_lt _ _)) by lia. eexists. split; [reflexivity|]. intros r.
    destruct (Z.leb_spec 0 x); rewrite dec_head_spec by (unfold in_u64, u64_max; lia); [done|]. cbn. do 2 f_equal. lia.
  - intros. by apply dec_chunk_head.
  - intros l r (_ & Hu & Hl). rewrite dec_chunk_head by done. by rewrite Hu.
  - done.
  - done.
  - intros x r [? ?]. rewrite <- (app_nil_r (cbor_head 0 x)). apply next_head; lia.
  - intros. apply next_head; lia.
  - intros. apply next_head; lia.
  - apply dec_length_typed.
  - apply dec_length_typed.
  - apply dec_uint_typed.
  - apply dec_uint_typed.
  - apply dec_uint_typed.
  - apply dec_uint_typed.
  - intros b x r Hb H. destruct (dec_head b) as [|[[m n] b1]] eqn:E; [done|]. apply dec_head_typed in E as [[Hn0 Hn] Hr]; [|done]. cbn in Hn, Hn0. unfold u64_max in Hn.
    destruct (m =? 0); [|destruct (m =? 1); [|done]]; injection H as <- <-; (split; [unfold in_i128; lia|done]).
  - intros b x r Hb [[? _] ?]%dec_chunk_typed; done.
  - intros b x r Hb H. destruct (dec_chunk 3 b) as [|[l b1]] eqn:E; [done|]. apply dec_chunk_typed in E as [[Hl Hle] Hr]; [|done].
    destruct (utf8_valid l) eqn:Eu; [|done]. injection H as <- <-. done.
  - intros b x r Hb H. split; [done|]. destruct Hb as [|a b Ha Hb]; [done|]. destruct (a =? 246); [|done]. by injection H as <- <-.
Qed.
