(* ===== verification/ManifestCodec.v ===== *)
(** * Canonical manifest encoding

    [mirage-manifest/src]: the map bookkeeping of [canonical.rs] and the
    manifest codec of [codec.rs], over the CBOR interface of [Cbor]; the
    validated identifiers of [mirage-backend/src/object.rs].

    A decoded map is a loop over as many fields as it declares, in any order,
    that collects options; [FieldSet] refuses repeated and unknown keys.

    Proved: what is encoded decodes to itself, so that equal encodings are
    equal manifests, and whatever is accepted is a typed, valid manifest
    within the limits. *)
From S2P Require Export Cbor Manifest.

(** ** [canonical.rs] *)
Definition decode_error (error : string) : MirageError := manifest_invalid ("invalid CBOR: " +:+ error).
(** [.map_err(decode_error)?] on a decoder call, [?] on a result. *)
Definition lift {A : Type} (d : dec A) : parser A := fun b => match d b with inl e => Err (decode_error e) | inr p => Ok p end.
Definition of_result {A : Type} (r : result A) : parser A := fun b => match r with Ok a => Ok (a, b) | Err e => Err e end.

(** The bits of a [u64]. *)
Definition FieldSet : Set := Z.
Definition FieldSet_insert (fields : FieldSet) (key maximum : Z) : result FieldSet :=
  if (key =? 0) || (maximum <? key) || (64 <=? key) then Err (manifest_invalid "CBOR map contains an unknown field") else
  let bit := Z.shiftl 1 key in
  if negb (Z.land fields bit =? 0) then Err (manifest_invalid "CBOR map contains a duplicate field") else Ok (Z.lor fields bit).
Definition FieldSet_require_all (fields : FieldSet) (maximum : Z) : result () :=
  let required := fold_left (fun bits key => Z.lor bits (Z.shiftl 1 key)) (zrange 1 maximum) 0 in
  fail_if (negb (fields =? required)) (manifest_invalid "CBOR map is missing a required field").

Section codec.
Context {C : Cbor}.

Definition definite_map (expected_fields : Z) : parser Z :=
  o ← lift dec_map;
  fields ← of_result (ok_or (manifest_invalid "indefinite CBOR maps are forbidden") o);
  _ ← refuse_if (negb (fields =? expected_fields)) (manifest_invalid "CBOR map has an unexpected field count");
  mret fields.
Definition definite_array (maximum : Z) (label : string) : parser Z :=
  o ← lift dec_array;
  count ← of_result (ok_or (manifest_invalid "indefinite CBOR arrays are forbidden") o);
  _ ← refuse_if (maximum <? count) (manifest_invalid ("declared " +:+ label +:+ " count exceeds the decode budget"));
  mret count.

(** ** Validated identifiers *)
Definition bytes_str (l : list Z) : string := String.string_of_list_ascii (map (fun z => Ascii.ascii_of_N (Z.to_N z)) l).
Definition opaque_id_new (name : string) (maximum : Z) (validator : list Z -> bool) (value : list Z) : result string :=
  if bool_decide (value = []) || (maximum <? Z.of_nat (length value)) || negb (validator value)
  then Err (invalid_argument (name +:+ " is empty, oversized, or contains forbidden characters")) else Ok (bytes_str value).
Definition valid_backend_id (value : list Z) : bool :=
  forallb (fun b => (97 <=? b) && (b <=? 122) || (48 <=? b) && (b <=? 57) || (b =? 45) || (b =? 95) || (b =? 46)) value.
Definition valid_opaque_id (value : list Z) : bool := negb (existsb is_control (default [] (from_utf8 value))).
Definition BackendId_new : list Z -> result string := opaque_id_new "BackendId" 64 valid_backend_id.
Definition ProviderObjectId_new : list Z -> result string := opaque_id_new "ProviderObjectId" 1024 valid_opaque_id.
Definition ImmutableRevision_new : list Z -> result string := opaque_id_new "ImmutableRevision" 512 valid_opaque_id.

(** ** Codes *)
Definition FileClass_from_code (code : Z) : result FileClass :=
  match code with
  | 0 => Ok NativeExecutable | 1 => Ok NativeLibrary | 2 => Ok NativeConfiguration
  | 3 => Ok NativeMutable | 4 => Ok VirtualAsset | 5 => Ok VirtualContainer
  | _ => Err (manifest_invalid "unknown file class")
  end.
Definition ManifestCodec_from_code (code : Z) : result Codec :=
  match code with 0 => Ok CNone | 1 => Ok CZstd | 2 => Ok CLz4 | _ => Err (manifest_invalid "unknown page codec") end.
Definition manifest_kind_code (k : ObjectKind) : Z :=
  match k with KRepositoryConfig => 0 | KPack => 1 | KManifest => 2 | KCommit => 3 | KProfile => 4 | KPayload => 5 end.
Definition manifest_decode_kind (code : Z) : result ObjectKind :=
  match code with
  | 0 => Ok KRepositoryConfig | 1 => Ok KPack | 2 => Ok KManifest | 3 => Ok KCommit | 4 => Ok KProfile | 5 => Ok KPayload
  | _ => Err (manifest_invalid "unknown immutable object kind")
  end.

(** ** Encoding *)
Definition encode_directory (directory : MDirectory) : list Z :=
  enc_map 2 ++ enc_u8 1 ++ (match md_parent directory with Some parent => enc_u32 parent | None => enc_null end) ++
  enc_u8 2 ++ enc_str (utf8_encode (md_name directory)).
Definition encode_file (file : MFile) : list Z :=
  enc_map 7 ++ enc_u8 1 ++ enc_u32 (mf_parent_directory file) ++ enc_u8 2 ++ enc_str (utf8_encode (mf_name file)) ++
  enc_u8 3 ++ enc_u64 (mf_logical_size file) ++ enc_u8 4 ++ enc_u64 (mf_stable_id file) ++ enc_u8 5 ++ enc_u8 (FileClass_code (mf_class file)) ++
  enc_u8 6 ++ enc_u32 (mf_extent_start file) ++ enc_u8 7 ++ enc_u32 (mf_extent_count file).
Definition encode_extent (extent : MExtent) : list Z :=
  enc_map 4 ++ enc_u8 1 ++ enc_u64 (mx_logical_offset extent) ++ enc_u8 2 ++ enc_u64 (mx_logical_length extent) ++
  enc_u8 3 ++ enc_u32 (mx_page_start extent) ++ enc_u8 4 ++ enc_u32 (mx_page_count extent).
Definition encode_page (page : MPage) : list Z :=
  enc_map 3 ++ enc_u8 1 ++ enc_bytes (to_be 32 (mp_plaintext_hash page)) ++ enc_u8 2 ++ enc_u32 (mp_logical_length page) ++
  enc_u8 3 ++ enc_u32 (mp_remote_location page).
Definition encode_optional_revision (revision : option string) : list Z :=
  match revision with Some revision => enc_str (chars revision) | None => enc_null end.
Definition encode_remote_location (location : RemoteLocation) : list Z :=
  let object := rm_object location in
  enc_map 9 ++ enc_u8 1 ++ enc_str (chars (ro_backend_id object)) ++ enc_u8 2 ++ enc_str (chars (ro_provider_object_id object)) ++
  enc_u8 3 ++ encode_optional_revision (ro_immutable_revision object) ++
  enc_u8 4 ++ enc_u64 (ro_byte_length object) ++ enc_u8 5 ++ enc_bytes (to_be 32 (ro_content_hash object)) ++
  enc_u8 6 ++ enc_u8 (manifest_kind_code (ro_kind object)) ++ enc_u8 7 ++ enc_u64 (rm_offset location) ++
  enc_u8 8 ++ enc_u64 (rm_encoded_length location) ++ enc_u8 9 ++ enc_u8 (Codec_code (rm_codec location)).
Definition encode_object_ref (object : RemoteObjectRef) : list Z :=
  enc_map 6 ++ enc_u8 1 ++ enc_str (chars (ro_backend_id object)) ++ enc_u8 2 ++ enc_str (chars (ro_provider_object_id object)) ++
  enc_u8 3 ++ encode_optional_revision (ro_immutable_revision object) ++
  enc_u8 4 ++ enc_u64 (ro_byte_length object) ++ enc_u8 5 ++ enc_bytes (to_be 32 (ro_content_hash object)) ++
  enc_u8 6 ++ enc_u8 (manifest_kind_code (ro_kind object)).

(** [array(items.len())] and the items. *)
Definition encode_array {A : Type} (encode : A -> list Z) (items : list A) : list Z := enc_array (Z.of_nat (length items)) ++ concat (map encode items).
Definition encode_manifest_inner (m : RepositoryManifest) : list Z :=
  enc_map 9 ++ enc_u8 1 ++ enc_u32 (man_format_version m) ++ enc_u8 2 ++ enc_bytes (to_be 16 (man_repository_id m)) ++
  enc_u8 3 ++ enc_u64 (man_generation_id m) ++ enc_u8 4 ++ enc_u64 (man_page_size m) ++
  enc_u8 5 ++ encode_array encode_directory (man_directories m) ++ enc_u8 6 ++ encode_array encode_file (man_files m) ++
  enc_u8 7 ++ encode_array encode_extent (man_extents m) ++ enc_u8 8 ++ encode_array encode_page (man_pages m) ++
  enc_u8 9 ++ encode_array encode_remote_location (man_remote_locations m).
Definition encode_manifest (upper : Z -> list Z) (m : RepositoryManifest) : result (list Z) :=
  _ ← validate_manifest upper m;
  Ok (encode_manifest_inner m).
(** [hash.rs]; [blake3] is the hash of the crate of that name. *)
Definition manifest_hash (blake3 : list Z -> Hash) (upper : Z -> list Z) (m : RepositoryManifest) : result Hash :=
  bytes ← encode_manifest upper m;
  Ok (blake3 bytes).

(** ** Decoding *)

(** [for _ in 0..n]: a key, its place in the set, and the value [step] reads. *)
Fixpoint fields_loop {St : Type} (step : Z -> St -> parser St) (maximum : Z) (n : nat) (fields : FieldSet) (st : St) : parser (FieldSet * St) :=
  match n with
  | O => mret (fields, st)
  | S n =>
      key ← lift dec_u32;
      fields ← of_result (FieldSet_insert fields key maximum);
      st ← step key st;
      fields_loop step maximum n fields st
  end.
(** A map of [n] fields: the loop, [require_all], and the record it builds. *)
Definition decode_map {St A : Type} (n : Z) (step : Z -> St -> parser St) (st : St) (finish : St -> result A) : parser A :=
  _ ← definite_map n;
  '(fields, st) ← fields_loop step n (Z.to_nat n) 0 st;
  _ ← of_result (FieldSet_require_all fields n);
  of_result (finish st).
(** [unreachable!]: the field set refuses the other keys. *)
Definition unreachable_key {A : Type} : parser A := refuse (internal_invariant "FieldSet rejects unknown keys").

Definition required {A : Type} (value : option A) : result A := ok_or (manifest_invalid "CBOR map is missing a required field") value.
Definition fixed_bytes (message : string) (n : nat) : parser Z :=
  bytes ← lift dec_bytes;
  _ ← refuse_if (negb (length bytes =? n)%nat) (manifest_invalid message);
  mret (from_be bytes).
Definition decode_fixed : nat -> parser Z := fixed_bytes "CBOR byte string has an invalid fixed length".
(** [datatype()? == Null]: the null, or what follows. *)
Definition decode_optional {A : Type} (value : parser A) : parser (option A) := fun b =>
  match next_is_null b with
  | inl e => Err (decode_error e)
  | inr true => (_ ← lift dec_null; mret None) b
  | inr false => (x ← value; mret (Some x)) b
  end.
Definition decode_optional_u32 : parser (option Z) := decode_optional (lift dec_u32).
(** [str()?.to_string()] *)
Definition decode_text : parser (list Z) :=
  l ← lift dec_str;
  mret (default [] (from_utf8 l)).
Definition decode_id (new : list Z -> result string) : parser string :=
  l ← lift dec_str;
  of_result (new l).
Definition decode_optional_revision : parser (option string) := decode_optional (decode_id ImmutableRevision_new).
Fixpoint decode_items {A : Type} (item : parser A) (n : nat) : parser (list A) :=
  match n with O => mret [] | S n => x ← item; l ← decode_items item n; mret (x :: l) end.
Definition decode_array {A : Type} (maximum : Z) (label : string) (item : parser A) : parser (list A) :=
  count ← definite_array maximum label;
  decode_items item (Z.to_nat count).

Definition directory_step (key : Z) (st : option Z * bool * option (list Z)) : parser (option Z * bool * option (list Z)) :=
  let '(parent, parent_seen, name) := st in
  match key with
  | 1 => p ← decode_optional_u32; mret (p, true, name)
  | 2 => n ← decode_text; mret (parent, parent_seen, Some n)
  | _ => unreachable_key
  end.
Definition directory_finish (st : option Z * bool * option (list Z)) : result MDirectory :=
  let '(parent, parent_seen, name) := st in
  if negb parent_seen then Err (manifest_invalid "directory parent is missing") else
  name ← required name;
  Ok (mkMDirectory parent name).
Definition decode_directory : parser MDirectory := decode_map 2 directory_step (None, false, None) directory_finish.
Definition decode_directories (maximum : Z) : parser (list MDirectory) := decode_array maximum "directory" decode_directory.

Definition FileFields : Type := option Z * option (list Z) * option Z * option Z * option FileClass * option Z * option Z.
Definition file_step (key : Z) (st : FileFields) : parser FileFields :=
  let '(parent, name, size, stable_id, class, extent_start, extent_count) := st in
  match key with
  | 1 => x ← lift dec_u32; mret (Some x, name, size, stable_id, class, extent_start, extent_count)
  | 2 => x ← decode_text; mret (parent, Some x, size, stable_id, class, extent_start, extent_count)
  | 3 => x ← lift dec_u64; mret (parent, name, Some x, stable_id, class, extent_start, extent_count)
  | 4 => x ← lift dec_u64; mret (parent, name, size, Some x, class, extent_start, extent_count)
  | 5 => x ← lift dec_u8; c ← of_result (FileClass_from_code x); mret (parent, name, size, stable_id, Some c, extent_start, extent_count)
  | 6 => x ← lift dec_u32; mret (parent, name, size, stable_id, class, Some x, extent_count)
  | 7 => x ← lift dec_u32; mret (parent, name, size, stable_id, class, extent_start, Some x)
  | _ => unreachable_key
  end.
Definition file_finish (st : FileFields) : result MFile :=
  let '(parent, name, size, stable_id, class, extent_start, extent_count) := st in
  parent ← required parent; name ← required name; size ← required size; stable_id ← required stable_id;
  class ← required class; extent_start ← required extent_start; extent_count ← required extent_count;
  Ok (mkMFile parent name size stable_id class extent_start extent_count).
Definition decode_file : parser MFile := decode_map 7 file_step (None, None, None, None, None, None, None) file_finish.
Definition decode_files (maximum : Z) : parser (list MFile) := decode_array maximum "file" decode_file.

Definition extent_step (key : Z) (st : option Z * option Z * option Z * option Z) : parser (option Z * option Z * option Z * option Z) :=
  let '(offset, length_, page_start, page_count) := st in
  match key with
  | 1 => x ← lift dec_u64; mret (Some x, length_, page_start, page_count)
  | 2 => x ← lift dec_u64; mret (offset, Some x, page_start, page_count)
  | 3 => x ← lift dec_u32; mret (offset, length_, Some x, page_count)
  | 4 => x ← lift dec_u32; mret (offset, length_, page_start, Some x)
  | _ => unreachable_key
  end.
Definition extent_finish (st : option Z * option Z * option Z * option Z) : result MExtent :=
  let '(offset, length_, page_start, page_count) := st in
  offset ← required offset; length_ ← required length_; page_start ← required page_start; page_count ← required page_count;
  Ok (mkMExtent offset length_ page_start page_count).
Definition decode_extent : parser MExtent := decode_map 4 extent_step (None, None, None, None) extent_finish.
Definition decode_extents (maximum : Z) : parser (list MExtent) := decode_array maximum "extent" decode_extent.

Definition page_step (key : Z) (st : option Z * option Z * option Z) : parser (option Z * option Z * option Z) :=
  let '(hash, length_, remote) := st in
  match key with
  | 1 => x ← decode_fixed 32; mret (Some x, length_, remote)
  | 2 => x ← lift dec_u32; mret (hash, Some x, remote)
  | 3 => x ← lift dec_u32; mret (hash, length_, Some x)
  | _ => unreachable_key
  end.
Definition page_finish (st : option Z * option Z * option Z) : result MPage :=
  let '(hash, length_, remote) := st in
  hash ← required hash; length_ ← required length_; remote ← required remote;
  Ok (mkMPage hash length_ remote).
Definition decode_page : parser MPage := decode_map 3 page_step (None, None, None) page_finish.
Definition decode_pages (maximum : Z) : parser (list MPage) := decode_array maximum "page" decode_page.

(** The fields of an object reference, shared by a location's map. *)
Record ObjectFields : Type := mkObjectFields {
  of_backend : option string; of_provider : option string; of_revision : option string; of_revision_seen : bool;
  of_length : option Z; of_hash : option Z; of_kind : option ObjectKind
}.
Definition no_object : ObjectFields := mkObjectFields None None None false None None None.
Definition object_step (key : Z) (st : ObjectFields) : parser ObjectFields :=
  let '(mkObjectFields backend provider revision revision_seen length_ hash kind_) := st in
  match key with
  | 1 => x ← decode_id BackendId_new; mret (mkObjectFields (Some x) provider revision revision_seen length_ hash kind_)
  | 2 => x ← decode_id ProviderObjectId_new; mret (mkObjectFields backend (Some x) revision revision_seen length_ hash kind_)
  | 3 => x ← decode_optional_revision; mret (mkObjectFields backend provider x true length_ hash kind_)
  | 4 => x ← lift dec_u64; mret (mkObjectFields backend provider revision revision_seen (Some x) hash kind_)
  | 5 => x ← decode_fixed 32; mret (mkObjectFields backend provider revision revision_seen length_ (Some x) kind_)
  | 6 => x ← lift dec_u8; k ← of_result (manifest_decode_kind x); mret (mkObjectFields backend provider revision revision_seen length_ hash (Some k))
  | _ => unreachable_key
  end.
Definition object_finish (st : ObjectFields) : result RemoteObjectRef :=
  if negb (of_revision_seen st) then Err (manifest_invalid "object revision field is missing") else
  backend ← required (of_backend st); provider ← required (of_provider st); length_ ← required (of_length st);
  hash ← required (of_hash st); kind_ ← required (of_kind st);
  Ok (mkRemote backend provider (of_revision st) length_ hash kind_).
Definition decode_object_ref : parser RemoteObjectRef := decode_map 6 object_step no_object object_finish.

(** A location has the object's six keys and three of its own. *)
Definition location_step (key : Z) (st : ObjectFields * option Z * option Z * option Codec) : parser (ObjectFields * option Z * option Z * option Codec) :=
  let '(object, offset, encoded_length, codec) := st in
  match key with
  | 7 => x ← lift dec_u64; mret (object, Some x, encoded_length, codec)
  | 8 => x ← lift dec_u64; mret (object, offset, Some x, codec)
  | 9 => x ← lift dec_u8; c ← of_result (ManifestCodec_from_code x); mret (object, offset, encoded_length, Some c)
  | _ => object ← object_step key object; mret (object, offset, encoded_length, codec)
  end.
Definition location_finish (st : ObjectFields * option Z * option Z * option Codec) : result RemoteLocation :=
  let '(object, offset, encoded_length, codec) := st in
  object ← object_finish object; offset ← required offset; encoded_length ← required encoded_length; codec ← required codec;
  Ok (mkRemoteLocation object offset encoded_length codec).
Definition decode_remote_location : parser RemoteLocation := decode_map 9 location_step (no_object, None, None, None) location_finish.
Definition decode_remote_locations (maximum : Z) : parser (list RemoteLocation) := decode_array maximum "remote location" decode_remote_location.

Record DecodeLimits : Set := mkDecodeLimits {
  max_input_bytes : Z; max_directories : Z; max_files : Z; max_extents : Z; max_pages : Z; max_remote_locations : Z
}.
Definition DecodeLimits_default : DecodeLimits :=
  mkDecodeLimits (1024 * 1024 * 1024) MAX_DIRECTORIES MAX_FILES MAX_EXTENTS MAX_PAGES MAX_REMOTE_LOCATIONS.

Record ManifestFields : Type := mkManifestFields {
  mfs_version : option Z; mfs_repository : option Z; mfs_generation : option Z; mfs_page_size : option Z;
  mfs_directories : option (list MDirectory); mfs_files : option (list MFile); mfs_extents : option (list MExtent);
  mfs_pages : option (list MPage); mfs_locations : option (list RemoteLocation)
}.
Definition no_manifest : ManifestFields := mkManifestFields None None None None None None None None None.
Definition manifest_step (limits : DecodeLimits) (key : Z) (st : ManifestFields) : parser ManifestFields :=
  let '(mkManifestFields v r g p d f e a l) := st in
  match key with
  | 1 => x ← lift dec_u32; mret (mkManifestFields (Some x) r g p d f e a l)
  | 2 => x ← decode_fixed 16; mret (mkManifestFields v (Some x) g p d f e a l)
  | 3 => x ← lift dec_u64; mret (mkManifestFields v r (Some x) p d f e a l)
  | 4 => x ← lift dec_u64; mret (mkManifestFields v r g (Some x) d f e a l)
  | 5 => x ← decode_directories (max_directories limits); mret (mkManifestFields v r g p (Some x) f e a l)
  | 6 => x ← decode_files (max_files limits); mret (mkManifestFields v r g p d (Some x) e a l)
  | 7 => x ← decode_extents (max_extents limits); mret (mkManifestFields v r g p d f (Some x) a l)
  | 8 => x ← decode_pages (max_pages limits); mret (mkManifestFields v r g p d f e (Some x) l)
  | 9 => x ← decode_remote_locations (max_remote_locations limits); mret (mkManifestFields v r g p d f e a (Some x))
  | _ => unreachable_key
  end.
Definition manifest_finish (st : ManifestFields) : result RepositoryManifest :=
  v ← required (mfs_version st); r ← required (mfs_repository st); g ← required (mfs_generation st); p ← required (mfs_page_size st);
  d ← required (mfs_directories st); f ← required (mfs_files st); e ← required (mfs_extents st); a ← required (mfs_pages st);
  l ← required (mfs_locations st);
  Ok (mkManifest v r g p d f e a l).
(** Trailing data is refused before the fields are taken together. *)
Definition decode_manifest_bounded (upper : Z -> list Z) (bytes : list Z) (limits : DecodeLimits) : result RepositoryManifest :=
  if max_input_bytes limits <? Z.of_nat (length bytes) then Err (manifest_invalid "manifest input exceeds the decode byte budget") else
  '(_, b) ← definite_map 9 bytes;
  '((fields, st), b) ← fields_loop (manifest_step limits) 9 9 0 no_manifest b;
  _ ← FieldSet_require_all fields 9;
  if negb (bool_decide (b = [])) then Err (manifest_invalid "manifest contains trailing CBOR data") else
  manifest ← manifest_finish st;
  _ ← validate_manifest upper manifest;
  Ok manifest.
End codec.

(** ** Identifiers and text *)
Lemma from_utf8_valid_n (n : nat) (l : list Z) : (length l <= n)%nat -> utf8_valid l = true -> is_Some (from_utf8 l).
Proof.
  revert l. induction n as [|n IH]; intros l Hn; [destruct l; [done|cbn in Hn; lia]|].
  destruct l as [|a l1]; [done|]. cbn [utf8_valid from_utf8]. cbn in Hn. destruct (_ <=? _); [intros H; apply fmap_is_Some, IH; [lia|done]|].
  destruct l1 as [|b l2]; [done|]. cbn in Hn. destruct (utf8_in _ _ _); [intros [-> H]%andb_true_iff; apply fmap_is_Some, IH; [lia|done]|].
  destruct l2 as [|c l3]; [done|]. cbn in Hn. destruct (utf8_lead3 _ _); [intros [-> H]%andb_true_iff; apply fmap_is_Some, IH; [lia|done]|].
  destruct l3 as [|d l4]; [done|]. cbn in Hn. intros [-> H]%andb_true_iff. apply fmap_is_Some, IH; [lia|done].
Qed.
Lemma utf8_text (l : list Z) : is_utf8 l -> exists s, from_utf8 l = Some s /\ is_str s /\ utf8_encode s = l.
Proof. intros (Hb & Hv & _). destruct (from_utf8_valid_n (length l) l (le_n _) Hv) as [s Hs]. exists s. split; [done|]. by apply from_utf8_spec. Qed.
Lemma bytes_str_chars (s : string) : bytes_str (chars s) = s.
Proof.
  unfold bytes_str, chars. rewrite map_map. rewrite <- (String.string_of_list_ascii_of_string s) at 2. f_equal.
  induction (String.list_ascii_of_string s) as [|a l IH]; [done|]. cbn [map]. by rewrite N2Z.id, Ascii.ascii_N_embedding, IH.
Qed.
Lemma chars_bytes_str (l : list Z) : is_bytes l -> chars (bytes_str l) = l.
Proof.
  unfold bytes_str, chars. rewrite String.list_ascii_of_string_of_list_ascii. induction 1 as [|b l Hb Hl IH]; [done|]. cbn [map].
  unfold is_byte in Hb. zbool. rewrite Ascii.N_ascii_embedding by lia. by rewrite Z2N.id, IH by lia.
Qed.
Lemma opaque_id_Ok (name : string) (maximum : Z) (v : list Z -> bool) (l : list Z) (s : string) : is_bytes l -> opaque_id_new name maximum v l = Ok s ->
  chars s = l /\ opaque_id_new name maximum v (chars s) = Ok s.
Proof.
  intros Hb. unfold opaque_id_new. destruct (_ || _) eqn:E; [done|]. intros <-%Ok_inj. rewrite chars_bytes_str by done. split; [done|]. by rewrite E.
Qed.

(** What a remote object reference is: its identifiers were accepted by their
    constructors. *)
Definition object_typed (o : RemoteObjectRef) : Prop :=
  (is_utf8 (chars (ro_backend_id o)) /\ BackendId_new (chars (ro_backend_id o)) = Ok (ro_backend_id o)) /\
  (is_utf8 (chars (ro_provider_object_id o)) /\ ProviderObjectId_new (chars (ro_provider_object_id o)) = Ok (ro_provider_object_id o)) /\
  opt_ok (fun r => is_utf8 (chars r) /\ ImmutableRevision_new (chars r) = Ok r) (ro_immutable_revision o) /\
  in_u64 (ro_byte_length o) /\ 0 <= ro_content_hash o < 2 ^ 256.

Lemma FileClass_code_roundtrip (c : FileClass) : in_u8 (FileClass_code c) /\ FileClass_from_code (FileClass_code c) = Ok c.
Proof. by destruct c. Qed.
Lemma Codec_code_roundtrip (c : Codec) : in_u8 (Codec_code c) /\ ManifestCodec_from_code (Codec_code c) = Ok c.
Proof. by destruct c. Qed.
Lemma kind_code_roundtrip (k : ObjectKind) : in_u8 (manifest_kind_code k) /\ manifest_decode_kind (manifest_kind_code k) = Ok k.
Proof. by destruct k. Qed.

(** ** Reading back what was written *)
Definition reads {A : Type} (p : parser A) (e : list Z) (a : A) : Prop := forall r, p (e ++ r) = Ok (a, r).

Lemma reads_bind {A B : Type} (p : parser A) (k : A -> parser B) (e1 e2 : list Z) (a : A) (b : B) :
  reads p e1 a -> reads (k a) e2 b -> reads (p ≫= k) (e1 ++ e2) b.
Proof. intros H1 H2 r. unfold mbind, parser_bind. by rewrite <- app_assoc, H1. Qed.
Lemma reads_ret {A : Type} (a : A) : reads (mret a) [] a.
Proof. done. Qed.
Lemma reads_eq {A : Type} (p : parser A) (e : list Z) (a b : A) : reads p e a -> a = b -> reads p e b.
Proof. by intros H <-. Qed.
Lemma reads_then {A B : Type} (p : parser A) (k : A -> parser B) (e : list Z) (a : A) (b : B) :
  reads p e a -> reads (k a) [] b -> reads (p ≫= k) e b.
Proof. intros H1 H2. rewrite <- (app_nil_r e). by eapply reads_bind. Qed.
Lemma reads_of_result {A : Type} (r : result A) (a : A) : r = Ok a -> reads (of_result r) [] a.
Proof. by intros ->. Qed.
Lemma reads_refuse_if (c : bool) (e : MirageError) : c = false -> reads (refuse_if c e) [] tt.
Proof. by intros ->. Qed.
Lemma reads_lift {A : Type} (d : dec A) (e : list Z) (a : A) : (forall r, d (e ++ r) = inr (a, r)) -> reads (lift d) e a.
Proof. intros H r. unfold lift. by rewrite H. Qed.

Section reading.
Context {C : Cbor} {L : CborLaws C}.

Lemma reads_u8 (x : Z) : in_u8 x -> reads (lift dec_u8) (enc_u8 x) x.
Proof. intros. apply reads_lift. intros. by apply cbor_u8. Qed.
Lemma reads_u32 (x : Z) : in_u32 x -> reads (lift dec_u32) (enc_u32 x) x.
Proof. intros. apply reads_lift. intros. by apply cbor_u32. Qed.
Lemma reads_u64 (x : Z) : in_u64 x -> reads (lift dec_u64) (enc_u64 x) x.
Proof. intros. apply reads_lift. intros. by apply cbor_u64. Qed.
Lemma fixed_length (n : nat) (x : Z) : (n <= 64)%nat -> Z.of_nat (length (to_be n x)) <= u64_max.
Proof. rewrite length_be. unfold u64_max. lia. Qed.
Lemma reads_fixed (message : string) (n : nat) (x : Z) : (n <= 64)%nat -> 0 <= x < 256 ^ Z.of_nat n -> reads (fixed_bytes message n) (enc_bytes (to_be n x)) x.
Proof.
  intros Hn Hx. unfold fixed_bytes. eapply reads_then; [apply reads_lift; intros; apply cbor_bytes; [apply be_bytes|by apply fixed_length]|].
  eapply (reads_bind _ _ []); [apply reads_refuse_if; by rewrite length_be, Nat.eqb_refl|]. by rewrite be_val_be.
Qed.
Lemma reads_hash (x : Z) : 0 <= x < 2 ^ 256 -> reads (decode_fixed 32) (enc_bytes (to_be 32 x)) x.
Proof. intros. apply reads_fixed; [lia|done]. Qed.
Lemma reads_id16 (x : Z) : 0 <= x < 2 ^ 128 -> reads (decode_fixed 16) (enc_bytes (to_be 16 x)) x.
Proof. intros. apply reads_fixed; [lia|done]. Qed.
(** A [String]. *)
Definition is_text (s : list Z) : Prop := is_str s /\ is_utf8 (utf8_encode s).
Lemma reads_text (s : list Z) : is_text s -> reads decode_text (enc_str (utf8_encode s)) s.
Proof. intros [Hs Hu]. unfold decode_text. eapply reads_then; [apply reads_lift; intros; by apply cbor_str|]. by rewrite from_utf8_encode. Qed.
Lemma reads_id (new : list Z -> result string) (s : string) : is_utf8 (chars s) -> new (chars s) = Ok s -> reads (decode_id new) (enc_str (chars s)) s.
Proof. intros Hu Hn. unfold decode_id. eapply reads_then; [apply reads_lift; intros; by apply cbor_str|]. by apply reads_of_result. Qed.
Lemma reads_none {A : Type} (p : parser A) : reads (decode_optional p) enc_null None.
Proof. intros r. unfold decode_optional. rewrite null_next. unfold mbind, parser_bind, lift. by rewrite cbor_null. Qed.
Lemma reads_some {A : Type} (p : parser A) (e : list Z) (x : A) : (forall r, next_is_null (e ++ r) = inr false) -> reads p e x -> reads (decode_optional p) e (Some x).
Proof. intros Hn Hp r. unfold decode_optional. rewrite Hn. unfold mbind, parser_bind. by rewrite Hp. Qed.

Lemma reads_revision (o : option string) : opt_ok (fun r => is_utf8 (chars r) /\ ImmutableRevision_new (chars r) = Ok r) o ->
  reads decode_optional_revision (encode_optional_revision o) o.
Proof.
  destruct o as [s|]; cbn [opt_ok encode_optional_revision]; [|intros _; apply reads_none]. intros [Hu Hn].
  apply reads_some; [intros; by apply null_str|by apply reads_id].
Qed.
Lemma reads_optional_u32 (o : option Z) : opt_ok in_u32 o -> reads decode_optional_u32 (match o with Some p => enc_u32 p | None => enc_null end) o.
Proof. destruct o as [x|]; cbn; [|intros _; apply reads_none]. intros Hx. apply reads_some; [intros; by apply null_u32|by apply reads_u32]. Qed.

(** One field, the fields, the map. *)
Lemma fields_next {St : Type} (step : Z -> St -> parser St) (maximum : Z) (n : nat) (fields fields1 : FieldSet) (st st1 : St) (k : Z) (e e' : list Z) (res : FieldSet * St) :
  in_u8 k -> FieldSet_insert fields k maximum = Ok fields1 -> reads (step k st) e st1 -> reads (fields_loop step maximum n fields1 st1) e' res ->
  reads (fields_loop step maximum (S n) fields st) (enc_u8 k ++ e ++ e') res.
Proof.
  intros Hk Hi Hs Hr. cbn [fields_loop]. eapply reads_bind; [apply reads_lift; intros; by apply cbor_key|].
  eapply (reads_bind _ _ []); [by apply reads_of_result|]. by eapply reads_bind.
Qed.
Lemma fields_last {St : Type} (step : Z -> St -> parser St) (maximum : Z) (fields fields1 : FieldSet) (st st1 : St) (k : Z) (e : list Z) :
  in_u8 k -> FieldSet_insert fields k maximum = Ok fields1 -> reads (step k st) e st1 ->
  reads (fields_loop step maximum 1 fields st) (enc_u8 k ++ e) (fields1, st1).
Proof. intros Hk Hi Hs. rewrite <- (app_nil_r e). eapply fields_next; [done..|]. apply reads_ret. Qed.
Lemma reads_definite_map (n : Z) : in_u64 n -> reads (definite_map n) (enc_map n) n.
Proof.
  intros Hn. unfold definite_map. eapply reads_then; [apply reads_lift; intros; by apply cbor_map|]. eapply (reads_bind _ _ []); [by apply reads_of_result|].
  eapply (reads_bind _ _ []); [apply reads_refuse_if; by rewrite Z.eqb_refl|apply reads_ret].
Qed.
Lemma reads_map {St A : Type} (n : Z) (step : Z -> St -> parser St) (st st1 : St) (fields : FieldSet) (finish : St -> result A) (a : A) (e : list Z) :
  in_u64 n -> reads (fields_loop step n (Z.to_nat n) 0 st) e (fields, st1) -> FieldSet_require_all fields n = Ok tt -> finish st1 = Ok a ->
  reads (decode_map n step st finish) (enc_map n ++ e) a.
Proof.
  intros Hn Hl Hr Hf. unfold decode_map. eapply reads_bind; [by apply reads_definite_map|].
  eapply reads_then; [exact Hl|]. cbn beta iota. eapply (reads_bind _ _ []); [by apply reads_of_result|by apply reads_of_result].
Qed.
Lemma reads_items {A : Type} (item : parser A) (encode : A -> list Z) (l : list A) :
  Forall (fun a => reads item (encode a) a) l -> reads (decode_items item (length l)) (concat (map encode l)) l.
Proof.
  induction 1 as [|a l Ha Hl IH]; [apply reads_ret|]. cbn [length decode_items map concat].
  eapply reads_bind; [exact Ha|]. eapply reads_then; [exact IH|apply reads_ret].
Qed.
Lemma reads_array {A : Type} (maximum : Z) (label : string) (item : parser A) (encode : A -> list Z) (l : list A) :
  Z.of_nat (length l) <= maximum -> Z.of_nat (length l) <= u64_max -> Forall (fun a => reads item (encode a) a) l ->
  reads (decode_array maximum label item) (encode_array encode l) l.
Proof.
  intros Hm Hu Hl. unfold decode_array, encode_array, definite_array. eapply reads_bind.
  - eapply reads_then; [apply reads_lift; intros; apply cbor_array; split; lia|]. eapply (reads_bind _ _ []); [by apply reads_of_result|].
    eapply (reads_bind _ _ []); [apply reads_refuse_if; apply Z.ltb_ge; lia|apply reads_ret].
  - rewrite Nat2Z.id. by apply reads_items.
Qed.

(** A value read for a field, then the new record of options. *)
Lemma reads_field {A St : Type} (p : parser A) (f : A -> St) (e : list Z) (a : A) : reads p e a -> reads (x ← p; mret (f x)) e (f a).
Proof. intros H. eapply reads_then; [exact H|apply reads_ret]. Qed.
Lemma reads_code {A St : Type} (from_code : Z -> result A) (f : A -> St) (code : Z) (a : A) : in_u8 code /\ from_code code = Ok a ->
  reads (x ← lift dec_u8; c ← of_result (from_code x); mret (f c)) (enc_u8 code) (f a).
Proof. intros [Hc Ha]. eapply reads_then; [by apply reads_u8|]. eapply (reads_bind _ _ []); [by apply reads_of_result|apply reads_ret]. Qed.

End reading.

Ltac read_value := cbn beta iota; first [apply reads_field | apply reads_code];
  lazymatch goal with |- reads (object_step _ _) _ _ => cbn [object_step]; first [apply reads_field | apply reads_code] | _ => idtac end.
Tactic Notation "read_fields" reference(step) :=
  repeat (first [eapply fields_last; [unfold in_u8, u8_max; lia|reflexivity|cbn [step]; read_value]
                |eapply fields_next; [unfold in_u8, u8_max; lia|reflexivity|cbn [step]; read_value|]]).

Section records.
Context {C : Cbor} {L : CborLaws C}.

Lemma reads_directory (d : MDirectory) : opt_ok in_u32 (md_parent d) -> is_text (md_name d) -> reads decode_directory (encode_directory d) d.
Proof.
  intros Hp Hs. destruct d as [parent name]. cbn [md_parent md_name] in *. unfold decode_directory, encode_directory. cbn [md_parent md_name].
  eapply reads_map; [done|change (Z.to_nat 2) with 2%nat; read_fields directory_step|reflexivity|reflexivity].
  - by apply reads_optional_u32.
  - by apply reads_text.
Qed.
Lemma reads_file (f : MFile) : in_u32 (mf_parent_directory f) -> is_text (mf_name f) -> in_u64 (mf_logical_size f) -> in_u64 (mf_stable_id f) ->
  in_u32 (mf_extent_start f) -> in_u32 (mf_extent_count f) -> reads decode_file (encode_file f) f.
Proof.
  intros Hp Hs Hz Hi He Hc. destruct f as [pa na sz si cl xs xc]. cbn [mf_parent_directory mf_name mf_logical_size mf_stable_id mf_extent_start mf_extent_count] in *.
  unfold decode_file, encode_file. cbn [mf_parent_directory mf_name mf_logical_size mf_stable_id mf_class mf_extent_start mf_extent_count].
  eapply reads_map; [done|change (Z.to_nat 7) with 7%nat; read_fields file_step|reflexivity|reflexivity].
  - by apply reads_u32.
  - by apply reads_text.
  - by apply reads_u64.
  - by apply reads_u64.
  - apply FileClass_code_roundtrip.
  - by apply reads_u32.
  - by apply reads_u32.
Qed.
Lemma reads_extent (x : MExtent) : in_u64 (mx_logical_offset x) -> in_u64 (mx_logical_length x) -> in_u32 (mx_page_start x) -> in_u32 (mx_page_count x) ->
  reads decode_extent (encode_extent x) x.
Proof.
  intros H1 H2 H3 H4. destruct x as [lo ll ps pc]. unfold decode_extent, encode_extent. cbn [mx_logical_offset mx_logical_length mx_page_start mx_page_count] in *.
  eapply reads_map; [done|change (Z.to_nat 4) with 4%nat; read_fields extent_step|reflexivity|reflexivity];
    first [by apply reads_u64 | by apply reads_u32].
Qed.
Lemma reads_page (p : MPage) : 0 <= mp_plaintext_hash p < 2 ^ 256 -> in_u32 (mp_logical_length p) -> in_u32 (mp_remote_location p) ->
  reads decode_page (encode_page p) p.
Proof.
  intros H1 H2 H3. destruct p as [ph pl pr]. unfold decode_page, encode_page. cbn [mp_plaintext_hash mp_logical_length mp_remote_location] in *.
  eapply reads_map; [done|change (Z.to_nat 3) with 3%nat; read_fields page_step|reflexivity|reflexivity];
    first [by apply reads_hash | by apply reads_u32].
Qed.

(** The six fields of an object, read by whatever contains them. *)
Lemma reads_object_ref (o : RemoteObjectRef) : object_typed o -> reads decode_object_ref (encode_object_ref o) o.
Proof.
  intros ([U1 N1] & [U2 N2] & Hr & Hl & Hh). destruct o as [b p r l h k].
  unfold decode_object_ref, encode_object_ref. cbn [ro_backend_id ro_provider_object_id ro_immutable_revision ro_byte_length ro_content_hash ro_kind] in *.
  eapply reads_map; [done|change (Z.to_nat 6) with 6%nat; unfold no_object; read_fields object_step|reflexivity|reflexivity].
  - by apply reads_id.
  - by apply reads_id.
  - by apply reads_revision.
  - by apply reads_u64.
  - by apply reads_hash.
  - apply kind_code_roundtrip.
Qed.
Lemma reads_remote_location (l : RemoteLocation) : object_typed (rm_object l) -> in_u64 (rm_offset l) -> in_u64 (rm_encoded_length l) ->
  reads decode_remote_location (encode_remote_location l) l.
Proof.
  intros ([U1 N1] & [U2 N2] & Hr & Hl & Hh) H1 H2. destruct l as [[b p r ln h k] offset len codec].
  unfold decode_remote_location, encode_remote_location.
  cbn [rm_object rm_offset rm_encoded_length rm_codec ro_backend_id ro_provider_object_id ro_immutable_revision ro_byte_length ro_content_hash ro_kind] in *.
  eapply reads_map; [done|change (Z.to_nat 9) with 9%nat; unfold no_object; read_fields location_step|reflexivity|reflexivity].
  - by apply reads_id.
  - by apply reads_id.
  - by apply reads_revision.
  - by apply reads_u64.
  - by apply reads_hash.
  - apply kind_code_roundtrip.
  - by apply reads_u64.
  - by apply reads_u64.
  - apply Codec_code_roundtrip.
Qed.

(** ** Manifests *)
Definition limits_allow (limits : DecodeLimits) (m : RepositoryManifest) : Prop :=
  Z.of_nat (length (man_directories m)) <= max_directories limits /\ Z.of_nat (length (man_files m)) <= max_files limits /\
  Z.of_nat (length (man_extents m)) <= max_extents limits /\ Z.of_nat (length (man_pages m)) <= max_pages limits /\
  Z.of_nat (length (man_remote_locations m)) <= max_remote_locations limits.
(** A value of the Rust type: widths, strings, accepted identifiers. *)
Definition manifest_value (m : RepositoryManifest) : Prop :=
  in_u32 (man_format_version m) /\ 0 <= man_repository_id m < 2 ^ 128 /\ in_u64 (man_generation_id m) /\ in_u64 (man_page_size m) /\
  Forall (fun d => opt_ok in_u32 (md_parent d) /\ is_text (md_name d)) (man_directories m) /\
  Forall (fun f => in_u32 (mf_parent_directory f) /\ is_text (mf_name f) /\ in_u64 (mf_logical_size f) /\ in_u64 (mf_stable_id f) /\
                   in_u32 (mf_extent_start f) /\ in_u32 (mf_extent_count f)) (man_files m) /\
  Forall (fun x => in_u64 (mx_logical_offset x) /\ in_u64 (mx_logical_length x) /\ in_u32 (mx_page_start x) /\ in_u32 (mx_page_count x)) (man_extents m) /\
  Forall (fun p => 0 <= mp_plaintext_hash p < 2 ^ 256 /\ in_u32 (mp_logical_length p) /\ in_u32 (mp_remote_location p)) (man_pages m) /\
  Forall (fun l => object_typed (rm_object l) /\ in_u64 (rm_offset l) /\ in_u64 (rm_encoded_length l)) (man_remote_locations m).
(** [Vec] lengths are [usize]s. *)
Definition lengths_fit (m : RepositoryManifest) : Prop := limits_allow (mkDecodeLimits 0 u64_max u64_max u64_max u64_max u64_max) m.

Lemma manifest_reads (limits : DecodeLimits) (m : RepositoryManifest) : manifest_value m -> lengths_fit m -> limits_allow limits m ->
  reads (fields_loop (manifest_step limits) 9 9 0 no_manifest)
    (enc_u8 1 ++ enc_u32 (man_format_version m) ++ enc_u8 2 ++ enc_bytes (to_be 16 (man_repository_id m)) ++
     enc_u8 3 ++ enc_u64 (man_generation_id m) ++ enc_u8 4 ++ enc_u64 (man_page_size m) ++
     enc_u8 5 ++ encode_array encode_directory (man_directories m) ++ enc_u8 6 ++ encode_array encode_file (man_files m) ++
     enc_u8 7 ++ encode_array encode_extent (man_extents m) ++ enc_u8 8 ++ encode_array encode_page (man_pages m) ++
     enc_u8 9 ++ encode_array encode_remote_location (man_remote_locations m))
    (1022, mkManifestFields (Some (man_format_version m)) (Some (man_repository_id m)) (Some (man_generation_id m)) (Some (man_page_size m))
       (Some (man_directories m)) (Some (man_files m)) (Some (man_extents m)) (Some (man_pages m)) (Some (man_remote_locations m))).
Proof.
  intros (Hv & Hr & Hg & Hp & Hd & Hf & He & Ha & Hl) (U1 & U2 & U3 & U4 & U5) (M1 & M2 & M3 & M4 & M5). cbn in U1, U2, U3, U4, U5.
  unfold no_manifest. eapply reads_eq; [read_fields manifest_step|reflexivity].
  - by apply reads_u32.
  - by apply reads_id16.
  - by apply reads_u64.
  - by apply reads_u64.
  - apply reads_array; [done..|]. apply (Forall_impl _ _ _ Hd). intros d [? ?]. by apply reads_directory.
  - apply reads_array; [done..|]. apply (Forall_impl _ _ _ Hf). intros f (? & ? & ? & ? & ? & ?). by apply reads_file.
  - apply reads_array; [done..|]. apply (Forall_impl _ _ _ He). intros x (? & ? & ? & ?). by apply reads_extent.
  - apply reads_array; [done..|]. apply (Forall_impl _ _ _ Ha). intros p (? & ? & ?). by apply reads_page.
  - apply reads_array; [done..|]. apply (Forall_impl _ _ _ Hl). intros l (? & ? & ?). by apply reads_remote_location.
Qed.

Lemma decode_encoded (upper : Z -> list Z) (limits : DecodeLimits) (m : RepositoryManifest) :
  manifest_value m -> lengths_fit m -> limits_allow limits m -> validate_manifest upper m = Ok tt ->
  Z.of_nat (length (encode_manifest_inner m)) <= max_input_bytes limits -> decode_manifest_bounded upper (encode_manifest_inner m) limits = Ok m.
Proof.
  intros Hm Hf Hl Hv Hb. unfold decode_manifest_bounded. rewrite (proj2 (Z.ltb_ge _ _)) by lia. unfold encode_manifest_inner.
  rewrite (reads_definite_map 9 ltac:(done)). cbn [mbind result_bind].
  rewrite <- (app_nil_r (enc_u8 1 ++ _)). rewrite (manifest_reads limits m Hm Hf Hl []). cbn [mbind result_bind].
  change (FieldSet_require_all 1022 9) with (Ok tt). cbn [mbind result_bind]. rewrite bool_decide_true by done. cbn [negb].
  destruct m. cbn. rewrite Hv. done.
Qed.
Lemma encode_injective (upper : Z -> list Z) (m1 m2 : RepositoryManifest) (b : list Z) :
  manifest_value m1 -> manifest_value m2 -> lengths_fit m1 -> lengths_fit m2 -> encode_manifest upper m1 = Ok b -> encode_manifest upper m2 = Ok b -> m1 = m2.
Proof.
  intros V1 V2 F1 F2 ([] & E1 & B1%Ok_inj)%bind_Ok_inv ([] & E2 & B2%Ok_inj)%bind_Ok_inv.
  set (limits := mkDecodeLimits (Z.of_nat (length b)) u64_max u64_max u64_max u64_max u64_max).
  pose proof (decode_encoded upper limits m1 V1 F1 F1 E1) as D1. pose proof (decode_encoded upper limits m2 V2 F2 F2 E2) as D2.
  rewrite B1 in D1. rewrite B2 in D2. specialize (D1 (Z.le_refl _)). specialize (D2 (Z.le_refl _)). congruence.
Qed.
End records.

(** ** What is accepted *)

(** A parser that leaves bytes and returns values in [P]. *)
Definition yields {A : Type} (p : parser A) (P : A -> Prop) : Prop := forall b a r, is_bytes b -> p b = Ok (a, r) -> P a /\ is_bytes r.
Lemma yields_bind {A B : Type} (p : parser A) (k : A -> parser B) (P : A -> Prop) (Q : B -> Prop) :
  yields p P -> (forall a, P a -> yields (k a) Q) -> yields (p ≫= k) Q.
Proof.
  intros Hp Hk b c r Hb. unfold mbind, parser_bind. destruct (p b) as [[a b1]|] eqn:E; [|done]. destruct (Hp b a b1 Hb E) as [Ha Hb1]. by apply Hk.
Qed.
Lemma yields_ret {A : Type} (a : A) (P : A -> Prop) : P a -> yields (mret a) P.
Proof. by intros Ha b x r Hb [= <- <-]. Qed.
Lemma yields_impl {A : Type} (p : parser A) (P Q : A -> Prop) : yields p P -> (forall a, P a -> Q a) -> yields p Q.
Proof. intros Hp H b a r Hb E. destruct (Hp b a r Hb E). auto. Qed.
Lemma yields_lift {A : Type} (d : dec A) (P : A -> Prop) : dec_typed d P -> yields (lift d) P.
Proof. intros Hd b a r Hb. unfold lift. destruct (d b) as [|[x b1]] eqn:E; [done|]. intros [= <- <-]. by eapply Hd. Qed.
Lemma yields_of_result {A : Type} (x : result A) : yields (of_result x) (fun a => x = Ok a).
Proof. intros b a r Hb. unfold of_result. destruct x; [|done]. by intros [= <- <-]. Qed.
Lemma yields_refuse {A : Type} (e : MirageError) (P : A -> Prop) : yields (refuse e) P.
Proof. done. Qed.
Lemma yields_refuse_if (c : bool) (e : MirageError) : yields (refuse_if c e) (fun _ => c = false).
Proof. intros b a r Hb. unfold refuse_if. destruct c; [done|]. by intros [= <- <-]. Qed.

Section accepted.
Context {C : Cbor} {L : CborLaws C}.

Lemma yields_loop {St : Type} (Inv : St -> Prop) (step : Z -> St -> parser St) (maximum : Z) (n : nat) (fields : FieldSet) (st : St) :
  (forall k s, Inv s -> yields (step k s) Inv) -> Inv st -> yields (fields_loop step maximum n fields st) (fun p => Inv p.2).
Proof.
  intros Hs. revert fields st. induction n as [|n IH]; intros fields st Hi; cbn [fields_loop]; [by apply yields_ret|].
  eapply yields_bind; [apply yields_lift, typed_u32|]. intros k _. eapply yields_bind; [apply yields_of_result|]. intros fields1 _.
  eapply yields_bind; [by apply Hs|]. intros st1 H1. by apply IH.
Qed.
Lemma yields_definite_map (n : Z) : yields (definite_map n) (fun _ => True).
Proof.
  unfold definite_map. eapply yields_bind; [apply yields_lift, typed_map|]. intros o _. eapply yields_bind; [apply yields_of_result|]. intros f _.
  eapply yields_bind; [apply yields_refuse_if|]. intros _ _. by apply yields_ret.
Qed.
Lemma yields_map {St A : Type} (Inv : St -> Prop) (P : A -> Prop) (n : Z) (step : Z -> St -> parser St) (st : St) (finish : St -> result A) :
  (forall k s, Inv s -> yields (step k s) Inv) -> Inv st -> (forall s a, Inv s -> finish s = Ok a -> P a) -> yields (decode_map n step st finish) P.
Proof.
  intros Hs Hi Hf. unfold decode_map. eapply yields_bind; [apply yields_definite_map|]. intros _ _.
  eapply yields_bind; [by apply (yields_loop Inv)|]. intros [fields st1] H1. eapply yields_bind; [apply yields_of_result|]. intros _ _.
  eapply yields_impl; [apply yields_of_result|]. cbn. eauto.
Qed.
Lemma yields_items {A : Type} (P : A -> Prop) (item : parser A) (n : nat) : yields item P -> yields (decode_items item n) (fun l => length l = n /\ Forall P l).
Proof.
  intros Hi. induction n as [|n IH]; cbn [decode_items]; [by apply yields_ret|]. eapply yields_bind; [exact Hi|]. intros x Hx.
  eapply yields_bind; [exact IH|]. intros l [<- Hl]. apply yields_ret. by split; [|constructor].
Qed.
Lemma yields_array {A : Type} (P : A -> Prop) (maximum : Z) (label : string) (item : parser A) :
  yields item P -> yields (decode_array maximum label item) (fun l => (Z.of_nat (length l) <= maximum /\ Z.of_nat (length l) <= u64_max) /\ Forall P l).
Proof.
  intros Hi. unfold decode_array, definite_array. apply (yields_bind _ _ (fun n => 0 <= n /\ n <= maximum /\ n <= u64_max)).
  - eapply yields_bind; [apply yields_lift, typed_array|]. intros o Ho. eapply yields_bind; [apply yields_of_result|]. intros c Hc%ok_or_Ok_inv.
    subst o. cbn in Ho. eapply yields_bind; [apply yields_refuse_if|]. intros [] Hm. apply yields_ret. zbool. destruct Ho. lia.
  - intros n (H0 & H1 & H2). eapply yields_impl; [by apply yields_items|]. cbn. intros l [Hl HP]. split; [lia|done].
Qed.
Lemma yields_fixed (message : string) (n : nat) : yields (fixed_bytes message n) (fun x => 0 <= x < 256 ^ Z.of_nat n).
Proof.
  unfold fixed_bytes. eapply yields_bind; [apply yields_lift, typed_bytes|]. intros l Hl. eapply yields_bind; [apply yields_refuse_if|].
  intros [] He. apply yields_ret. apply negb_false_iff, Nat.eqb_eq in He as <-. by apply be_val_bound.
Qed.
Lemma yields_text : yields decode_text is_text.
Proof.
  unfold decode_text. eapply yields_bind; [apply yields_lift, typed_str|]. intros l Hl. apply yields_ret.
  destruct (utf8_text l Hl) as (s & -> & Hs & He). cbn. split; [done|]. by rewrite He.
Qed.
Lemma yields_optional {A : Type} (p : parser A) (P : A -> Prop) : yields p P -> yields (decode_optional p) (opt_ok P).
Proof.
  intros Hp b a r Hb. unfold decode_optional. destruct (next_is_null b) as [|[]]; [done| |].
  - apply (yields_bind (lift dec_null) _ (fun _ => True)); [apply yields_lift, typed_null|intros; by apply yields_ret|done].
  - apply (yields_bind p _ P); [done|intros; by apply yields_ret|done].
Qed.
Lemma yields_id (name : string) (maximum : Z) (v : list Z -> bool) :
  yields (decode_id (opaque_id_new name maximum v)) (fun s => is_utf8 (chars s) /\ opaque_id_new name maximum v (chars s) = Ok s).
Proof.
  unfold decode_id. eapply yields_bind; [apply yields_lift, typed_str|]. intros l Hl. eapply yields_impl; [apply yields_of_result|]. cbn.
  intros s Hs. destruct (opaque_id_Ok name maximum v l s ltac:(apply Hl) Hs) as [E ?]. split; [by rewrite E|done].
Qed.

End accepted.

(** Each step keeps the options it has collected typed. *)
Ltac yield_value :=
  first [ eapply yields_bind; [first [apply yields_lift; eassumption || apply typed_u8 || apply typed_u32 || apply typed_u64
                                      | apply yields_text | apply yields_fixed | apply yields_id | apply yields_optional, yields_lift, typed_u32
                                      | apply yields_optional, yields_id | apply yields_of_result]|]; intros ? ?; yield_value
        | apply yields_ret ].
Ltac by_key := repeat case_match; try apply yields_refuse.

Section typed.
Context {C : Cbor} {L : CborLaws C}.

Lemma yields_directory : yields decode_directory (fun d => opt_ok in_u32 (md_parent d) /\ is_text (md_name d)).
Proof.
  apply (yields_map (fun st => opt_ok in_u32 st.1.1 /\ opt_ok is_text st.2)); [|done|].
  - intros k [[p s] n] [Hp Hn]. unfold directory_step. by_key; yield_value; by split.
  - intros [[p s] n] d [Hp Hn]. unfold directory_finish. destruct s; [|done]. cbn [negb]. intros (x & ->%ok_or_Ok_inv & <-%Ok_inj)%bind_Ok_inv. done.
Qed.
Lemma yields_file : yields decode_file (fun f => in_u32 (mf_parent_directory f) /\ is_text (mf_name f) /\ in_u64 (mf_logical_size f) /\ in_u64 (mf_stable_id f) /\
  in_u32 (mf_extent_start f) /\ in_u32 (mf_extent_count f)).
Proof.
  apply (yields_map (fun '(p, n, s, i, c, es, ec) => opt_ok in_u32 p /\ opt_ok is_text n /\ opt_ok in_u64 s /\ opt_ok in_u64 i /\ opt_ok in_u32 es /\ opt_ok in_u32 ec));
    [|done|].
  - intros k [[[[[[p n] s] i] c] es] ec] (H1 & H2 & H3 & H4 & H5 & H6). unfold file_step. by_key; yield_value; by split_and!.
  - intros [[[[[[p n] s] i] c] es] ec] f (H1 & H2 & H3 & H4 & H5 & H6). unfold file_finish.
    intros (? & ->%ok_or_Ok_inv & (? & ->%ok_or_Ok_inv & (? & ->%ok_or_Ok_inv & (? & ->%ok_or_Ok_inv & (? & ->%ok_or_Ok_inv & (? & ->%ok_or_Ok_inv &
      (? & ->%ok_or_Ok_inv & <-%Ok_inj)%bind_Ok_inv)%bind_Ok_inv)%bind_Ok_inv)%bind_Ok_inv)%bind_Ok_inv)%bind_Ok_inv)%bind_Ok_inv. done.
Qed.
Lemma yields_extent : yields decode_extent (fun x => in_u64 (mx_logical_offset x) /\ in_u64 (mx_logical_length x) /\ in_u32 (mx_page_start x) /\ in_u32 (mx_page_count x)).
Proof.
  apply (yields_map (fun '(o, l, s, c) => opt_ok in_u64 o /\ opt_ok in_u64 l /\ opt_ok in_u32 s /\ opt_ok in_u32 c)); [|done|].
  - intros k [[[o l] s] c] (H1 & H2 & H3 & H4). unfold extent_step. by_key; yield_value; by split_and!.
  - intros [[[o l] s] c] x (H1 & H2 & H3 & H4). unfold extent_finish.
    intros (? & ->%ok_or_Ok_inv & (? & ->%ok_or_Ok_inv & (? & ->%ok_or_Ok_inv & (? & ->%ok_or_Ok_inv & <-%Ok_inj)%bind_Ok_inv)%bind_Ok_inv)%bind_Ok_inv)%bind_Ok_inv. done.
Qed.
Lemma yields_page : yields decode_page (fun p => 0 <= mp_plaintext_hash p < 2 ^ 256 /\ in_u32 (mp_logical_length p) /\ in_u32 (mp_remote_location p)).
Proof.
  apply (yields_map (fun '(h, l, r) => opt_ok (fun h => 0 <= h < 2 ^ 256) h /\ opt_ok in_u32 l /\ opt_ok in_u32 r)); [|done|].
  - intros k [[h l] r] (H1 & H2 & H3). unfold page_step. by_key; yield_value; by split_and!.
  - intros [[h l] r] x (H1 & H2 & H3). unfold page_finish.
    intros (? & ->%ok_or_Ok_inv & (? & ->%ok_or_Ok_inv & (? & ->%ok_or_Ok_inv & <-%Ok_inj)%bind_Ok_inv)%bind_Ok_inv)%bind_Ok_inv. done.
Qed.

Definition object_fields_typed (st : ObjectFields) : Prop :=
  opt_ok (fun s => is_utf8 (chars s) /\ BackendId_new (chars s) = Ok s) (of_backend st) /\
  opt_ok (fun s => is_utf8 (chars s) /\ ProviderObjectId_new (chars s) = Ok s) (of_provider st) /\
  opt_ok (fun s => is_utf8 (chars s) /\ ImmutableRevision_new (chars s) = Ok s) (of_revision st) /\
  opt_ok in_u64 (of_length st) /\ opt_ok (fun h => 0 <= h < 2 ^ 256) (of_hash st).
Lemma yields_object_step (k : Z) (st : ObjectFields) : object_fields_typed st -> yields (object_step k st) object_fields_typed.
Proof.
  destruct st as [b p r s l h kd]. intros (H1 & H2 & H3 & H4 & H5). cbn in H1, H2, H3, H4, H5. unfold object_step. by_key; yield_value; by split_and!.
Qed.
Lemma object_finish_typed (st : ObjectFields) (o : RemoteObjectRef) : object_fields_typed st -> object_finish st = Ok o -> object_typed o.
Proof.
  destruct st as [b p r s l h kd]. intros (H1 & H2 & H3 & H4 & H5). unfold object_finish. cbn [of_backend of_provider of_revision of_revision_seen of_length of_hash of_kind] in *.
  destruct s; [|done]. cbn [negb].
  intros (? & ->%ok_or_Ok_inv & (? & ->%ok_or_Ok_inv & (? & ->%ok_or_Ok_inv & (? & ->%ok_or_Ok_inv & (? & ->%ok_or_Ok_inv & <-%Ok_inj)%bind_Ok_inv)%bind_Ok_inv)%bind_Ok_inv)%bind_Ok_inv)%bind_Ok_inv.
  exact (conj H1 (conj H2 (conj H3 (conj H4 H5)))).
Qed.
Lemma yields_object_ref : yields decode_object_ref object_typed.
Proof. apply (yields_map object_fields_typed); [apply yields_object_step|by split_and!|apply object_finish_typed]. Qed.
Lemma yields_remote_location : yields decode_remote_location (fun l => object_typed (rm_object l) /\ in_u64 (rm_offset l) /\ in_u64 (rm_encoded_length l)).
Proof.
  apply (yields_map (fun '(ob, o, e, c) => object_fields_typed ob /\ opt_ok in_u64 o /\ opt_ok in_u64 e)); [|by split_and!|].
  - intros k [[[ob o] e] c] (H1 & H2 & H3). unfold location_step. by_key;
      first [eapply yields_bind; [by apply yields_object_step|]; intros ? ?; by apply yields_ret | yield_value; by split_and!].
  - intros [[[ob o] e] c] l (H1 & H2 & H3). unfold location_finish.
    intros (? & Ho & (? & ->%ok_or_Ok_inv & (? & ->%ok_or_Ok_inv & (? & ->%ok_or_Ok_inv & <-%Ok_inj)%bind_Ok_inv)%bind_Ok_inv)%bind_Ok_inv)%bind_Ok_inv.
    split_and!; [by eapply object_finish_typed|done..].
Qed.

Definition fields_typed (limits : DecodeLimits) (st : ManifestFields) : Prop :=
  opt_ok in_u32 (mfs_version st) /\ opt_ok (fun x => 0 <= x < 2 ^ 128) (mfs_repository st) /\ opt_ok in_u64 (mfs_generation st) /\ opt_ok in_u64 (mfs_page_size st) /\
  opt_ok (fun l => (Z.of_nat (length l) <= max_directories limits /\ Z.of_nat (length l) <= u64_max) /\
                   Forall (fun d => opt_ok in_u32 (md_parent d) /\ is_text (md_name d)) l) (mfs_directories st) /\
  opt_ok (fun l => (Z.of_nat (length l) <= max_files limits /\ Z.of_nat (length l) <= u64_max) /\
                   Forall (fun f => in_u32 (mf_parent_directory f) /\ is_text (mf_name f) /\ in_u64 (mf_logical_size f) /\ in_u64 (mf_stable_id f) /\
                                    in_u32 (mf_extent_start f) /\ in_u32 (mf_extent_count f)) l) (mfs_files st) /\
  opt_ok (fun l => (Z.of_nat (length l) <= max_extents limits /\ Z.of_nat (length l) <= u64_max) /\
                   Forall (fun x => in_u64 (mx_logical_offset x) /\ in_u64 (mx_logical_length x) /\ in_u32 (mx_page_start x) /\ in_u32 (mx_page_count x)) l) (mfs_extents st) /\
  opt_ok (fun l => (Z.of_nat (length l) <= max_pages limits /\ Z.of_nat (length l) <= u64_max) /\
                   Forall (fun p => 0 <= mp_plaintext_hash p < 2 ^ 256 /\ in_u32 (mp_logical_length p) /\ in_u32 (mp_remote_location p)) l) (mfs_pages st) /\
  opt_ok (fun l => (Z.of_nat (length l) <= max_remote_locations limits /\ Z.of_nat (length l) <= u64_max) /\
                   Forall (fun l => object_typed (rm_object l) /\ in_u64 (rm_offset l) /\ in_u64 (rm_encoded_length l)) l) (mfs_locations st).
Lemma yields_manifest_step (limits : DecodeLimits) (k : Z) (st : ManifestFields) : fields_typed limits st -> yields (manifest_step limits k st) (fields_typed limits).
Proof.
  destruct st as [v r g p d f e a l]. intros (H1 & H2 & H3 & H4 & H5 & H6 & H7 & H8 & H9).
  cbn [mfs_version mfs_repository mfs_generation mfs_page_size mfs_directories mfs_files mfs_extents mfs_pages mfs_locations] in *. unfold manifest_step.
  by_key;
    (eapply yields_bind; [first [apply yields_lift; apply typed_u32 || apply typed_u64 | apply yields_fixed
                                | apply yields_array; apply yields_directory | apply yields_array; apply yields_file | apply yields_array; apply yields_extent
                                | apply yields_array; apply yields_page | apply yields_array; apply yields_remote_location]|];
     intros x Hx; apply yields_ret; unfold fields_typed;
     cbn [mfs_version mfs_repository mfs_generation mfs_page_size mfs_directories mfs_files mfs_extents mfs_pages mfs_locations opt_ok];
     split_and!; assumption || apply Hx).
Qed.
Lemma manifest_finish_typed (limits : DecodeLimits) (st : ManifestFields) (m : RepositoryManifest) : fields_typed limits st -> manifest_finish st = Ok m ->
  manifest_value m /\ lengths_fit m /\ limits_allow limits m.
Proof.
  destruct st as [v r g p d f e a l]. intros (H1 & H2 & H3 & H4 & H5 & H6 & H7 & H8 & H9). unfold manifest_finish.
  cbn [mfs_version mfs_repository mfs_generation mfs_page_size mfs_directories mfs_files mfs_extents mfs_pages mfs_locations] in *.
  intros (? & ->%ok_or_Ok_inv & (? & ->%ok_or_Ok_inv & (? & ->%ok_or_Ok_inv & (? & ->%ok_or_Ok_inv & (? & ->%ok_or_Ok_inv & (? & ->%ok_or_Ok_inv &
    (? & ->%ok_or_Ok_inv & (? & ->%ok_or_Ok_inv & (? & ->%ok_or_Ok_inv & <-%Ok_inj)%bind_Ok_inv)%bind_Ok_inv)%bind_Ok_inv)%bind_Ok_inv)%bind_Ok_inv)%bind_Ok_inv)%bind_Ok_inv)%bind_Ok_inv)%bind_Ok_inv.
  cbn [opt_ok] in *. destruct H5 as [[] ?], H6 as [[] ?], H7 as [[] ?], H8 as [[] ?], H9 as [[] ?].
  unfold manifest_value, lengths_fit, limits_allow. cbn. split_and!; assumption || apply H2.
Qed.
Lemma decode_manifest_typed (upper : Z -> list Z) (limits : DecodeLimits) (b : list Z) (m : RepositoryManifest) :
  is_bytes b -> decode_manifest_bounded upper b limits = Ok m ->
  manifest_value m /\ lengths_fit m /\ limits_allow limits m /\ validate_manifest upper m = Ok tt /\ Z.of_nat (length b) <= max_input_bytes limits.
Proof.
  intros Hb. unfold decode_manifest_bounded. destruct (Z.ltb_spec (max_input_bytes limits) (Z.of_nat (length b))); [done|].
  intros ([x b1] & E1 & H1)%bind_Ok_inv. apply yields_definite_map in E1 as [_ Hb1]; [|done].
  apply bind_Ok_inv in H1 as ([[fields st] b2] & E2 & H2). apply (yields_loop (fields_typed limits)) in E2 as [Hst Hb2]; [|apply yields_manifest_step|done|done].
  apply bind_Ok_inv in H2 as ([] & _ & H2). destruct (negb _); [done|]. apply bind_Ok_inv in H2 as (m' & E3 & H3). apply bind_Ok_inv in H3 as ([] & Hv & <-%Ok_inj).
  destruct (manifest_finish_typed limits st m' Hst E3) as (? & ? & ?). by split_and!.
Qed.
End typed.

(** C30: The manifest codec is exact.  A valid manifest encodes, and its encoding
    decodes to it under any limits it respects; different manifests never share
    an encoding, so the manifest hash covers every field; and whatever bytes the
    decoder accepts, the manifest is a typed one within the limits that passes
    validation and can be encoded again. *)
Theorem manifest_codec_exact {C : Cbor} {L : CborLaws C} (upper : Z -> list Z) (limits : DecodeLimits) :
  (forall m, manifest_value m -> lengths_fit m -> limits_allow limits m -> validate_manifest upper m = Ok tt ->
     exists b, encode_manifest upper m = Ok b /\ (Z.of_nat (length b) <= max_input_bytes limits -> decode_manifest_bounded upper b limits = Ok m)) /\
  (forall m1 m2 b, manifest_value m1 -> manifest_value m2 -> lengths_fit m1 -> lengths_fit m2 ->
     encode_manifest upper m1 = Ok b -> encode_manifest upper m2 = Ok b -> m1 = m2) /\
  (forall b m, is_bytes b -> decode_manifest_bounded upper b limits = Ok m ->
     manifest_value m /\ limits_allow limits m /\ validate_manifest upper m = Ok tt /\ exists b', encode_manifest upper m = Ok b' /\
     (Z.of_nat (length b') <= max_input_bytes limits -> decode_manifest_bounded upper b' limits = Ok m)).
Proof.
  assert (H1 : forall m, manifest_value m -> lengths_fit m -> limits_allow limits m -> validate_manifest upper m = Ok tt ->
     exists b, encode_manifest upper m = Ok b /\ (Z.of_nat (length b) <= max_input_bytes limits -> decode_manifest_bounded upper b limits = Ok m)).
  { intros m Hm Hf Hl Hv. exists (encode_manifest_inner m). split; [unfold encode_manifest; by rewrite Hv|by apply decode_encoded]. }
  split_and!; [exact H1|intros m1 m2 b; apply encode_injective|].
  intros b m Hb (Hm & Hf & Hl & Hv & _)%decode_manifest_typed; [|done]. split_and!; auto.
Qed.

(** ** The RFC coding at work *)
Definition sample_encoded : list Z := match encode_manifest (C := rfc_cbor) ascii_upper sample_manifest with Ok b => b | Err _ => [] end.
Example sample_decodes : decode_manifest_bounded (C := rfc_cbor) ascii_upper sample_encoded DecodeLimits_default = Ok sample_manifest.
Proof. vm_compute. reflexivity. Qed.
Example sample_trailing_refused : decode_manifest_bounded (C := rfc_cbor) ascii_upper (sample_encoded ++ [0]) DecodeLimits_default =
  Err (manifest_invalid "manifest contains trailing CBOR data").
Proof. vm_compute. reflexivity. Qed.
(** Fields are accepted in any order, so one manifest has several encodings the
    decoder takes; only one of them is canonical. *)
Example directory_field_order :
  decode_directory (C := rfc_cbor) [162; 2; 97; 97; 1; 0] = decode_directory (C := rfc_cbor) [162; 1; 0; 2; 97; 97].
Proof. reflexivity. Qed.
Lemma manifest_codec_exact_witness : exists m, decode_manifest_bounded (C := rfc_cbor) ascii_upper sample_encoded DecodeLimits_default = Ok m /\ manifest_value m.
Proof.
  exists sample_manifest. assert (E : decode_manifest_bounded (C := rfc_cbor) ascii_upper sample_encoded DecodeLimits_default = Ok sample_manifest) by (vm_compute; reflexivity).
  split; [exact E|]. destruct (manifest_codec_exact (L := rfc_cbor_laws) ascii_upper DecodeLimits_default) as (_ & _ & H).
  destruct (H sample_encoded sample_manifest) as (Hm & _); [|exact E|exact Hm]. vm_compute. repeat constructor.
Defined.
