(* ===== verification/CommitChain.v ===== *)
(** * Signed commits and the generation chain

    [mirage-manifest/src]: the signature envelope and the test signer of
    [signature.rs], the commit codec of [commit.rs] and the selection of the
    chain that descends from a trusted commit ([chain.rs]).

    Signing and verifying are the records [CommitSigner] and [CommitVerifier],
    the traits of the source; BLAKE3 and its keyed form are parameters.

    Proved: the commit codec is exact, so that signature and commit hash cover
    every field; what a matching signer signs is accepted; and the selected
    chain is the only maximal chain of valid links from the trust root, found
    in at most one round per candidate, or a fork is reported. *)
From S2P Require Export ManifestCodec.

(** ** [signature.rs] *)
Inductive SignatureAlgorithm : Set := Ed25519 | TestOnlyBlake3Keyed.
#[export] Instance SignatureAlgorithm_eq_dec : EqDecision SignatureAlgorithm.
Proof. solve_decision. Defined.
Definition SignatureAlgorithm_code (a : SignatureAlgorithm) : Z := match a with Ed25519 => 1 | TestOnlyBlake3Keyed => u16_max end.
Definition SignatureAlgorithm_from_code (code : Z) : result SignatureAlgorithm :=
  if code =? 1 then Ok Ed25519 else if code =? u16_max then Ok TestOnlyBlake3Keyed else Err (manifest_invalid "unknown commit signature algorithm").
Record SignatureEnvelope : Set := mkSignature { sig_algorithm : SignatureAlgorithm; sig_key_id : Z; sig_signature : list Z }.
Definition validate_shape (s : SignatureEnvelope) : result () :=
  fail_if (bool_decide (sig_signature s = []) || (128 <? Z.of_nat (length (sig_signature s))))
    (manifest_invalid "commit signature length is outside 1..=128 bytes").
(** The traits. *)
Record CommitSigner : Type := mkSigner { sg_algorithm : SignatureAlgorithm; sg_key_id : Z; sg_sign : list Z -> result (list Z) }.
Definition CommitVerifier : Type := list Z -> SignatureEnvelope -> result ().

Definition constant_time_equal (expected actual : list Z) : bool :=
  if negb (length expected =? length actual)%nat then false else
  fold_left (fun difference p => Z.lor difference (Z.lxor p.1 p.2)) (zip expected actual) 0 =? 0.
(** [InMemoryTestSigner]; a hash is the integer of its 32 bytes. *)
Definition test_signer (keyed_hash : Z -> list Z -> Hash) (key_id key : Z) : CommitSigner :=
  mkSigner TestOnlyBlake3Keyed key_id (fun body => Ok (to_be 32 (keyed_hash key body))).
Definition test_verifier (keyed_hash : Z -> list Z -> Hash) (key_id key : Z) : CommitVerifier := fun body signature =>
  _ ← validate_shape signature;
  if negb (bool_decide (sig_algorithm signature = TestOnlyBlake3Keyed)) || negb (sig_key_id signature =? key_id)
  then Err (integrity_mismatch "commit signature key or algorithm does not match verifier") else
  fail_if (negb (constant_time_equal (to_be 32 (keyed_hash key body)) (sig_signature signature)))
    (integrity_mismatch "commit signature verification failed").

(** ** [commit.rs] *)
Definition COMMIT_FORMAT_VERSION : Z := 1.
Definition MAX_COMMIT_BYTES : Z := 64 * 1024.
Record UnsignedCommitBody : Set := mkBody {
  cb_format_version : Z; cb_repository_id : Z; cb_sequence : Z; cb_parent_commit : option Hash; cb_manifest_hash : Hash;
  cb_manifest_object : RemoteObjectRef; cb_referenced_pack_set_hash : Hash; cb_created_utc_ns : Z; cb_writer_device_id : Z;
  cb_update_journal_id : option Z
}.
Record RepositoryCommit : Set := mkCommit { cm_body : UnsignedCommitBody; cm_signature : SignatureEnvelope }.

Definition validate_body (body : UnsignedCommitBody) : result () :=
  if negb (cb_format_version body =? COMMIT_FORMAT_VERSION) then Err (unsupported_layout "commit format version is not supported") else
  if (cb_sequence body =? 0) && bool_decide (is_Some (cb_parent_commit body)) then Err (manifest_invalid "trust-root commit cannot declare a parent") else
  if negb (cb_sequence body =? 0) && bool_decide (cb_parent_commit body = None) then Err (manifest_invalid "non-root commit must declare a parent hash") else
  _ ← RemoteObjectRef_validate (cb_manifest_object body);
  if negb (bool_decide (ro_kind (cb_manifest_object body) = KManifest))
  then Err (manifest_invalid "commit manifest object has the wrong immutable object kind") else
  fail_if (negb (ro_content_hash (cb_manifest_object body) =? cb_manifest_hash body))
    (integrity_mismatch "commit manifest hash and manifest object hash differ").

Section commit.
Context {C : Cbor} (blake3 : list Z -> Hash).

Definition encode_optional_id (n : nat) (o : option Z) : list Z := match o with Some x => enc_bytes (to_be n x) | None => enc_null end.
(** Only the [i128] can fail to encode. *)
Definition encode_unsigned_body_into (body : UnsignedCommitBody) : option (list Z) :=
  created ← enc_i128 (cb_created_utc_ns body);
  Some (enc_map 10 ++ enc_u8 1 ++ enc_u32 (cb_format_version body) ++ enc_u8 2 ++ enc_bytes (to_be 16 (cb_repository_id body)) ++
        enc_u8 3 ++ enc_u64 (cb_sequence body) ++ enc_u8 4 ++ encode_optional_id 32 (cb_parent_commit body) ++
        enc_u8 5 ++ enc_bytes (to_be 32 (cb_manifest_hash body)) ++ enc_u8 6 ++ encode_object_ref (cb_manifest_object body) ++
        enc_u8 7 ++ enc_bytes (to_be 32 (cb_referenced_pack_set_hash body)) ++ enc_u8 8 ++ created ++
        enc_u8 9 ++ enc_bytes (to_be 16 (cb_writer_device_id body)) ++ enc_u8 10 ++ encode_optional_id 16 (cb_update_journal_id body)).
Definition encode_failure : MirageError := internal_invariant "canonical commit encoding failed".
Definition encode_unsigned_body (body : UnsignedCommitBody) : result (list Z) := ok_or encode_failure (encode_unsigned_body_into body).
Definition encode_signature_into (s : SignatureEnvelope) : list Z :=
  enc_map 3 ++ enc_u8 1 ++ enc_u16 (SignatureAlgorithm_code (sig_algorithm s)) ++ enc_u8 2 ++ enc_bytes (to_be 16 (sig_key_id s)) ++
  enc_u8 3 ++ enc_bytes (sig_signature s).
Definition encode_commit (commit : RepositoryCommit) : result (list Z) :=
  _ ← validate_body (cm_body commit);
  _ ← validate_shape (cm_signature commit);
  body ← ok_or encode_failure (encode_unsigned_body_into (cm_body commit));
  Ok (enc_map 2 ++ enc_u8 1 ++ body ++ enc_u8 2 ++ encode_signature_into (cm_signature commit)).
Definition commit_hash (commit : RepositoryCommit) : result Hash :=
  bytes ← encode_commit commit;
  Ok (blake3 bytes).

Definition sign_commit (body : UnsignedCommitBody) (signer : CommitSigner) : result RepositoryCommit :=
  _ ← validate_body body;
  bytes ← encode_unsigned_body body;
  s ← sg_sign signer bytes;
  let signature := mkSignature (sg_algorithm signer) (sg_key_id signer) s in
  _ ← validate_shape signature;
  Ok (mkCommit body signature).
Definition validate_commit (commit : RepositoryCommit) (verifier : CommitVerifier) : result () :=
  _ ← validate_body (cm_body commit);
  _ ← validate_shape (cm_signature commit);
  bytes ← encode_unsigned_body (cm_body commit);
  verifier bytes (cm_signature commit).

Definition commit_required {A : Type} (value : option A) : result A := ok_or (manifest_invalid "commit map is missing a required field") value.
Definition commit_decode_fixed : nat -> parser Z := fixed_bytes "commit byte string has an invalid length".
Definition decode_optional_hash : parser (option Z) := decode_optional (commit_decode_fixed 32).
Definition decode_optional_update : parser (option Z) := decode_optional (commit_decode_fixed 16).

Record BodyFields : Type := mkBodyFields {
  bf_version : option Z; bf_repository : option Z; bf_sequence : option Z; bf_parent : option Z; bf_parent_seen : bool; bf_manifest_hash : option Z;
  bf_object : option RemoteObjectRef; bf_pack_set : option Z; bf_created : option Z; bf_writer : option Z; bf_update : option Z; bf_update_seen : bool
}.
Definition no_body : BodyFields := mkBodyFields None None None None false None None None None None None false.
Definition body_step (key : Z) (st : BodyFields) : parser BodyFields :=
  let '(mkBodyFields v r s p ps m o k c w u us) := st in
  match key with
  | 1 => x ← lift dec_u32; mret (mkBodyFields (Some x) r s p ps m o k c w u us)
  | 2 => x ← commit_decode_fixed 16; mret (mkBodyFields v (Some x) s p ps m o k c w u us)
  | 3 => x ← lift dec_u64; mret (mkBodyFields v r (Some x) p ps m o k c w u us)
  | 4 => x ← decode_optional_hash; mret (mkBodyFields v r s x true m o k c w u us)
  | 5 => x ← commit_decode_fixed 32; mret (mkBodyFields v r s p ps (Some x) o k c w u us)
  | 6 => x ← decode_object_ref; mret (mkBodyFields v r s p ps m (Some x) k c w u us)
  | 7 => x ← commit_decode_fixed 32; mret (mkBodyFields v r s p ps m o (Some x) c w u us)
  | 8 => x ← lift dec_i128; mret (mkBodyFields v r s p ps m o k (Some x) w u us)
  | 9 => x ← commit_decode_fixed 16; mret (mkBodyFields v r s p ps m o k c (Some x) u us)
  | 10 => x ← decode_optional_update; mret (mkBodyFields v r s p ps m o k c w x true)
  | _ => unreachable_key
  end.
Definition body_finish (st : BodyFields) : result UnsignedCommitBody :=
  if negb (bf_parent_seen st) || negb (bf_update_seen st) then Err (manifest_invalid "commit optional field is missing") else
  v ← commit_required (bf_version st); r ← commit_required (bf_repository st); s ← commit_required (bf_sequence st);
  m ← commit_required (bf_manifest_hash st); o ← commit_required (bf_object st); k ← commit_required (bf_pack_set st);
  c ← commit_required (bf_created st); w ← commit_required (bf_writer st);
  Ok (mkBody v r s (bf_parent st) m o k c w (bf_update st)).
Definition decode_unsigned_body : parser UnsignedCommitBody := decode_map 10 body_step no_body body_finish.

Definition signature_step (key : Z) (st : option SignatureAlgorithm * option Z * option (list Z)) : parser (option SignatureAlgorithm * option Z * option (list Z)) :=
  let '(algorithm, key_id, signature) := st in
  match key with
  | 1 => x ← lift dec_u16; a ← of_result (SignatureAlgorithm_from_code x); mret (Some a, key_id, signature)
  | 2 => x ← commit_decode_fixed 16; mret (algorithm, Some x, signature)
  | 3 => x ← lift dec_bytes; mret (algorithm, key_id, Some x)
  | _ => unreachable_key
  end.
Definition signature_finish (st : option SignatureAlgorithm * option Z * option (list Z)) : result SignatureEnvelope :=
  let '(algorithm, key_id, signature) := st in
  a ← commit_required algorithm; k ← commit_required key_id; s ← commit_required signature;
  Ok (mkSignature a k s).
Definition decode_signature : parser SignatureEnvelope := decode_map 3 signature_step (None, None, None) signature_finish.

Definition commit_step (key : Z) (st : option UnsignedCommitBody * option SignatureEnvelope) : parser (option UnsignedCommitBody * option SignatureEnvelope) :=
  let '(body, signature) := st in
  match key with
  | 1 => x ← decode_unsigned_body; mret (Some x, signature)
  | 2 => x ← decode_signature; mret (body, Some x)
  | _ => unreachable_key
  end.
Definition decode_commit_bounded (bytes : list Z) : result RepositoryCommit :=
  if MAX_COMMIT_BYTES <? Z.of_nat (length bytes) then Err (manifest_invalid "commit exceeds the 64 KiB decode bound") else
  '(_, b) ← definite_map 2 bytes;
  '((fields, st), b) ← fields_loop commit_step 2 2 0 (None, None) b;
  _ ← FieldSet_require_all fields 2;
  if negb (bool_decide (b = [])) then Err (manifest_invalid "commit contains trailing CBOR data") else
  body ← ok_or (manifest_invalid "commit body is missing") st.1;
  signature ← ok_or (manifest_invalid "commit signature is missing") st.2;
  _ ← validate_body body;
  _ ← validate_shape signature;
  Ok (mkCommit body signature).

(** ** [chain.rs] *)
Inductive ChainValidationError : Type :=
| ChainInvalid (error : MirageError)
| ChainForked (error : MirageError) (parent : Hash) (children : list Hash).

Definition validate_link (parent child : RepositoryCommit) (verifier : CommitVerifier) : result () :=
  _ ← validate_commit parent verifier;
  _ ← validate_commit child verifier;
  if negb (cb_repository_id (cm_body parent) =? cb_repository_id (cm_body child))
  then Err (repository_conflict "commit link crosses repository identities") else
  expected_sequence ← ok_or (repository_conflict "commit sequence overflows") (checked_add (cb_sequence (cm_body parent)) 1);
  if negb (cb_sequence (cm_body child) =? expected_sequence) then Err (repository_conflict "commit sequence does not increment by exactly one") else
  h ← commit_hash parent;
  fail_if (negb (bool_decide (cb_parent_commit (cm_body child) = Some h))) (repository_conflict "commit parent hash does not match canonical parent bytes").

Definition is_ok {A : Type} (r : result A) : bool := match r with Ok _ => true | Err _ => false end.
(** [by_parent.entry(parent).or_default().push(candidate)] *)
Definition add_candidate (by_parent : gmap Hash (list RepositoryCommit)) (candidate : RepositoryCommit) : gmap Hash (list RepositoryCommit) :=
  match cb_parent_commit (cm_body candidate) with
  | Some parent => <[parent := default [] (by_parent !! parent) ++ [candidate]]> by_parent
  | None => by_parent
  end.
Definition group_by_parent (candidates : list RepositoryCommit) : gmap Hash (list RepositoryCommit) := fold_left add_candidate candidates ∅.

Definition collect {A B : Type} (f : A -> result B) (l : list A) : result (list B) :=
  foldr (fun x acc => y ← f x; ys ← acc; Ok (y :: ys)) (Ok []) l.
(** The loop; each round adds a commit with the next sequence number, so there
    are at most as many rounds as candidates and one more. *)
Fixpoint chain_loop (verifier : CommitVerifier) (by_parent : gmap Hash (list RepositoryCommit)) (fuel : nat) (chain : list RepositoryCommit) (current : RepositoryCommit)
    : ChainValidationError + list RepositoryCommit :=
  match fuel with
  | O => inl (ChainInvalid (internal_invariant "unreachable"))
  | S fuel =>
      match commit_hash current with
      | Err e => inl (ChainInvalid e)
      | Ok current_hash =>
          match List.filter (fun child => is_ok (validate_link current child verifier)) (default [] (by_parent !! current_hash)) with
          | [] => inr (chain ++ [current])
          | [child] => chain_loop verifier by_parent fuel (chain ++ [current]) child
          | children =>
              match collect commit_hash children with
              | Err e => inl (ChainInvalid e)
              | Ok hashes => inl (ChainForked (repository_conflict "multiple valid commits descend from one trusted parent") current_hash (sort_by Z.leb hashes))
              end
          end
      end
  end.
Definition select_highest_valid_chain (trust_root : RepositoryCommit) (candidates : list RepositoryCommit) (verifier : CommitVerifier)
    : ChainValidationError + list RepositoryCommit :=
  match validate_commit trust_root verifier with
  | Err e => inl (ChainInvalid e)
  | Ok _ => chain_loop verifier (group_by_parent candidates) (S (length candidates)) [] trust_root
  end.
End commit.

(** ** Typing *)
Definition body_value (b : UnsignedCommitBody) : Prop :=
  in_u32 (cb_format_version b) /\ 0 <= cb_repository_id b < 2 ^ 128 /\ in_u64 (cb_sequence b) /\ opt_ok (fun h => 0 <= h < 2 ^ 256) (cb_parent_commit b) /\
  0 <= cb_manifest_hash b < 2 ^ 256 /\ object_typed (cb_manifest_object b) /\ 0 <= cb_referenced_pack_set_hash b < 2 ^ 256 /\ in_i128 (cb_created_utc_ns b) /\
  0 <= cb_writer_device_id b < 2 ^ 128 /\ opt_ok (fun h => 0 <= h < 2 ^ 128) (cb_update_journal_id b).
Definition commit_value (c : RepositoryCommit) : Prop :=
  body_value (cm_body c) /\ 0 <= sig_key_id (cm_signature c) < 2 ^ 128 /\ is_bytes (sig_signature (cm_signature c)).
(** The time of a commit fits a CBOR integer: until the year 2554. *)
Definition dated (b : UnsignedCommitBody) : Prop := in_cbor_int (cb_created_utc_ns b).

Section codec_facts.
Context {C : Cbor} {L : CborLaws C}.

Lemma reads_commit_fixed (n : nat) (x : Z) : (n <= 64)%nat -> 0 <= x < 256 ^ Z.of_nat n -> reads (commit_decode_fixed n) (enc_bytes (to_be n x)) x.
Proof. apply reads_fixed. Qed.
Lemma reads_optional_id (n : nat) (o : option Z) : (n <= 64)%nat -> opt_ok (fun x => 0 <= x < 256 ^ Z.of_nat n) o ->
  reads (decode_optional (commit_decode_fixed n)) (encode_optional_id n o) o.
Proof.
  intros Hn. destruct o as [x|]; cbn [opt_ok encode_optional_id]; [|intros _; apply reads_none]. intros Hx.
  apply reads_some; [intros; apply null_bytes; [apply be_bytes|by apply fixed_length]|by apply reads_commit_fixed].
Qed.
Lemma reads_body (b : UnsignedCommitBody) : body_value b -> dated b -> exists e, encode_unsigned_body_into b = Some e /\ reads decode_unsigned_body e b.
Proof.
  intros (H1 & H2 & H3 & H4 & H5 & H6 & H7 & _ & H9 & H10) Hd. destruct (cbor_i128 _ Hd) as (created & Ec & Hc). unfold encode_unsigned_body_into. rewrite Ec.
  cbn [mbind option_bind]. eexists. split; [reflexivity|]. destruct b as [v r s p m o k c w u].
  cbn [cb_format_version cb_repository_id cb_sequence cb_parent_commit cb_manifest_hash cb_manifest_object cb_referenced_pack_set_hash cb_created_utc_ns
       cb_writer_device_id cb_update_journal_id] in *.
  unfold decode_unsigned_body. eapply reads_map; [done|change (Z.to_nat 10) with 10%nat; unfold no_body; read_fields body_step|reflexivity|reflexivity].
  - by apply reads_u32.
  - apply reads_commit_fixed; [lia|done].
  - by apply reads_u64.
  - apply reads_optional_id; [lia|done].
  - apply reads_commit_fixed; [lia|done].
  - by apply reads_object_ref.
  - apply reads_commit_fixed; [lia|done].
  - by apply reads_lift.
  - apply reads_commit_fixed; [lia|done].
  - apply reads_optional_id; [lia|done].
Qed.
Lemma algorithm_roundtrip (a : SignatureAlgorithm) : in_u16 (SignatureAlgorithm_code a) /\ SignatureAlgorithm_from_code (SignatureAlgorithm_code a) = Ok a.
Proof. by destruct a. Qed.
Lemma reads_algorithm {St : Type} (f : SignatureAlgorithm -> St) (a : SignatureAlgorithm) :
  reads (x ← lift dec_u16; a ← of_result (SignatureAlgorithm_from_code x); mret (f a)) (enc_u16 (SignatureAlgorithm_code a)) (f a).
Proof.
  eapply reads_then; [apply reads_lift; intros; apply cbor_u16, algorithm_roundtrip|].
  eapply (reads_bind _ _ []); [apply reads_of_result, algorithm_roundtrip|apply reads_ret].
Qed.
Lemma validate_shape_length (s : SignatureEnvelope) : validate_shape s = Ok tt -> Z.of_nat (length (sig_signature s)) <= 128.
Proof. unfold validate_shape. intros H%fail_if_Ok_inv. zbool. lia. Qed.
Lemma reads_signature (s : SignatureEnvelope) : 0 <= sig_key_id s < 2 ^ 128 -> is_bytes (sig_signature s) -> validate_shape s = Ok tt ->
  reads decode_signature (encode_signature_into s) s.
Proof.
  intros H1 H2 H3%validate_shape_length. destruct s as [a k s]. cbn in H1, H2, H3. unfold decode_signature, encode_signature_into. cbn [sig_algorithm sig_key_id sig_signature].
  eapply reads_map; [done|change (Z.to_nat 3) with 3%nat;
    eapply fields_next; [unfold in_u8, u8_max; lia|reflexivity|cbn [signature_step]; apply reads_algorithm|read_fields signature_step]|reflexivity|reflexivity].
  - apply reads_commit_fixed; [lia|done].
  - apply reads_lift. intros. apply cbor_bytes; [done|]. unfold u64_max. lia.
Qed.
Lemma reads_commit (c : RepositoryCommit) (e : list Z) : commit_value c -> validate_shape (cm_signature c) = Ok tt -> reads decode_unsigned_body e (cm_body c) ->
  reads (fields_loop commit_step 2 2 0 (None, None)) (enc_u8 1 ++ e ++ enc_u8 2 ++ encode_signature_into (cm_signature c)) (6, (Some (cm_body c), Some (cm_signature c))).
Proof. intros (_ & Hk & Hs) Hv He. eapply reads_eq; [read_fields commit_step|reflexivity]; [exact He|by apply reads_signature]. Qed.
Lemma decode_encoded_commit (c : RepositoryCommit) (b : list Z) : commit_value c -> dated (cm_body c) -> encode_commit c = Ok b -> Z.of_nat (length b) <= MAX_COMMIT_BYTES ->
  decode_commit_bounded b = Ok c.
Proof.
  intros Hc Hd ([] & Hb & ([] & Hs & (e & He%ok_or_Ok_inv & <-%Ok_inj)%bind_Ok_inv)%bind_Ok_inv)%bind_Ok_inv Hl.
  destruct (reads_body (cm_body c) ltac:(apply Hc) Hd) as (e' & He' & Hr). replace e' with e in * by congruence.
  unfold decode_commit_bounded. rewrite (proj2 (Z.ltb_ge _ _)) by lia. rewrite (reads_definite_map 2 ltac:(done)). cbn [mbind result_bind].
  rewrite <- (app_nil_r (enc_u8 1 ++ _)), (reads_commit c e Hc Hs Hr []). cbn [mbind result_bind].
  change (FieldSet_require_all 6 2) with (Ok tt). cbn [mbind result_bind]. rewrite bool_decide_true by done. cbn [negb fst snd ok_or mbind result_bind].
  rewrite Hb. cbn [mbind result_bind]. rewrite Hs. by destruct c.
Qed.
(** Injectivity without the length bound of the decoder. *)
Lemma commit_encoding_injective (c1 c2 : RepositoryCommit) (b : list Z) : commit_value c1 -> commit_value c2 -> dated (cm_body c1) -> dated (cm_body c2) ->
  encode_commit c1 = Ok b -> encode_commit c2 = Ok b -> c1 = c2.
Proof.
  intros V1 V2 D1 D2 ([] & B1 & ([] & S1 & (e1 & E1%ok_or_Ok_inv & F1%Ok_inj)%bind_Ok_inv)%bind_Ok_inv)%bind_Ok_inv
    ([] & B2 & ([] & S2 & (e2 & E2%ok_or_Ok_inv & F2%Ok_inj)%bind_Ok_inv)%bind_Ok_inv)%bind_Ok_inv.
  destruct (reads_body _ ltac:(apply V1) D1) as (e1' & E1' & R1). destruct (reads_body _ ltac:(apply V2) D2) as (e2' & E2' & R2).
  replace e1' with e1 in * by congruence. replace e2' with e2 in * by congruence.
  pose proof (reads_bind (definite_map 2) (fun _ => fields_loop commit_step 2 2 0 (None, None)) _ _ _ _ (reads_definite_map 2 ltac:(done)) (reads_commit c1 e1 V1 S1 R1) []) as P1.
  pose proof (reads_bind (definite_map 2) (fun _ => fields_loop commit_step 2 2 0 (None, None)) _ _ _ _ (reads_definite_map 2 ltac:(done)) (reads_commit c2 e2 V2 S2 R2) []) as P2.
  rewrite F1 in P1. rewrite F2 in P2. rewrite P1 in P2. destruct c1, c2. cbn in P2. congruence.
Qed.
Lemma body_encoding_injective (b1 b2 : UnsignedCommitBody) (e : list Z) : body_value b1 -> body_value b2 -> dated b1 -> dated b2 ->
  encode_unsigned_body b1 = Ok e -> encode_unsigned_body b2 = Ok e -> b1 = b2.
Proof.
  intros V1 V2 D1 D2 E1%ok_or_Ok_inv E2%ok_or_Ok_inv. destruct (reads_body _ V1 D1) as (e1 & E1' & R1). destruct (reads_body _ V2 D2) as (e2 & E2' & R2).
  replace e1 with e in * by congruence. replace e2 with e in * by congruence. specialize (R1 []). specialize (R2 []). congruence.
Qed.

(** What the decoder accepts. *)
Definition body_fields_typed (st : BodyFields) : Prop :=
  opt_ok in_u32 (bf_version st) /\ opt_ok (fun x => 0 <= x < 2 ^ 128) (bf_repository st) /\ opt_ok in_u64 (bf_sequence st) /\
  opt_ok (fun x => 0 <= x < 2 ^ 256) (bf_parent st) /\ opt_ok (fun x => 0 <= x < 2 ^ 256) (bf_manifest_hash st) /\ opt_ok object_typed (bf_object st) /\
  opt_ok (fun x => 0 <= x < 2 ^ 256) (bf_pack_set st) /\ opt_ok in_i128 (bf_created st) /\ opt_ok (fun x => 0 <= x < 2 ^ 128) (bf_writer st) /\
  opt_ok (fun x => 0 <= x < 2 ^ 128) (bf_update st).
Lemma yields_body : yields decode_unsigned_body body_value.
Proof.
  apply (yields_map body_fields_typed); [|by split_and!|].
  - intros k [v r s p ps m o kk c w u us] (H1 & H2 & H3 & H4 & H5 & H6 & H7 & H8 & H9 & H10).
    cbn [bf_version bf_repository bf_sequence bf_parent bf_manifest_hash bf_object bf_pack_set bf_created bf_writer bf_update] in *. unfold body_step.
    by_key; (eapply yields_bind; [first [apply yields_lift; apply typed_u32 || apply typed_u64 || apply typed_i128 | apply yields_fixed | apply yields_optional, yields_fixed
                                        | apply yields_object_ref]|]; intros x Hx; apply yields_ret; unfold body_fields_typed;
      cbn [bf_version bf_repository bf_sequence bf_parent bf_manifest_hash bf_object bf_pack_set bf_created bf_writer bf_update opt_ok];
      refine (conj _ (conj _ (conj _ (conj _ (conj _ (conj _ (conj _ (conj _ (conj _ _))))))))); assumption).
  - intros [v r s p ps m o kk c w u us] b (H1 & H2 & H3 & H4 & H5 & H6 & H7 & H8 & H9 & H10). unfold body_finish.
    cbn [bf_version bf_repository bf_sequence bf_parent bf_parent_seen bf_manifest_hash bf_object bf_pack_set bf_created bf_writer bf_update bf_update_seen] in *.
    destruct (_ || _); [done|].
    intros (? & ->%ok_or_Ok_inv & (? & ->%ok_or_Ok_inv & (? & ->%ok_or_Ok_inv & (? & ->%ok_or_Ok_inv & (? & ->%ok_or_Ok_inv & (? & ->%ok_or_Ok_inv &
      (? & ->%ok_or_Ok_inv & (? & ->%ok_or_Ok_inv & <-%Ok_inj)%bind_Ok_inv)%bind_Ok_inv)%bind_Ok_inv)%bind_Ok_inv)%bind_Ok_inv)%bind_Ok_inv)%bind_Ok_inv)%bind_Ok_inv.
    exact (conj H1 (conj H2 (conj H3 (conj H4 (conj H5 (conj H6 (conj H7 (conj H8 (conj H9 H10))))))))).
Qed.
Lemma yields_signature : yields decode_signature (fun s => 0 <= sig_key_id s < 2 ^ 128 /\ is_bytes (sig_signature s)).
Proof.
  apply (yields_map (fun '(a, k, s) => opt_ok (fun x => 0 <= x < 2 ^ 128) k /\ opt_ok is_bytes s)); [|done|].
  - intros key [[a k] s] [H1 H2]. unfold signature_step. by_key.
    + eapply yields_bind; [apply yields_lift, typed_bytes|]. intros x Hx. by apply yields_ret.
    + eapply yields_bind; [apply yields_fixed|]. intros x Hx. by apply yields_ret.
    + eapply yields_bind; [apply yields_lift, typed_u16|]. intros x _. eapply yields_bind; [apply yields_of_result|]. intros ? _. by apply yields_ret.
  - intros [[a k] s] x [H1 H2]. unfold signature_finish.
    intros (? & ->%ok_or_Ok_inv & (? & ->%ok_or_Ok_inv & (? & ->%ok_or_Ok_inv & <-%Ok_inj)%bind_Ok_inv)%bind_Ok_inv)%bind_Ok_inv. done.
Qed.
Lemma decode_commit_typed (b : list Z) (c : RepositoryCommit) : is_bytes b -> decode_commit_bounded b = Ok c ->
  commit_value c /\ validate_body (cm_body c) = Ok tt /\ validate_shape (cm_signature c) = Ok tt /\ Z.of_nat (length b) <= MAX_COMMIT_BYTES.
Proof.
  intros Hb. unfold decode_commit_bounded. destruct (Z.ltb_spec MAX_COMMIT_BYTES (Z.of_nat (length b))); [done|].
  intros ([x b1] & E1 & H1)%bind_Ok_inv. apply yields_definite_map in E1 as [_ Hb1]; [|done].
  apply bind_Ok_inv in H1 as ([[fields [bo si]] b2] & E2 & H2).
  apply (yields_loop (fun st => opt_ok body_value st.1 /\ opt_ok (fun s => 0 <= sig_key_id s < 2 ^ 128 /\ is_bytes (sig_signature s)) st.2)) in E2 as [[T1 T2] Hb2]; [| |done|done].
  2:{ intros k [bb s] [J1 J2]. unfold commit_step.
      by_key; (eapply yields_bind; [first [apply yields_signature | apply yields_body]|]; intros y Hy; by apply yields_ret). }
  apply bind_Ok_inv in H2 as ([] & _ & H2). destruct (negb _); [done|]. cbn [fst snd] in *.
  apply bind_Ok_inv in H2 as (bo' & ->%ok_or_Ok_inv & H2). apply bind_Ok_inv in H2 as (si' & ->%ok_or_Ok_inv & H2).
  apply bind_Ok_inv in H2 as ([] & Hv & H2). apply bind_Ok_inv in H2 as ([] & Hs & <-%Ok_inj). cbn in T1, T2. destruct T2. by split_and!.
Qed.
End codec_facts.

(** ** Signing *)
Lemma fold_lor_zero (l : list (Z * Z)) (d : Z) :
  fold_left (fun difference p => Z.lor difference (Z.lxor p.1 p.2)) l d = 0 <-> d = 0 /\ Forall (fun p => p.1 = p.2) l.
Proof.
  revert d. induction l as [|[a b] l IH]; intros d; cbn [fold_left]; [split; [done|by intros [? _]]|].
  rewrite IH, Z.lor_eq_0_iff, Z.lxor_eq_0_iff, Forall_cons. cbn. tauto.
Qed.
Lemma zip_equal (a b : list Z) : length a = length b -> Forall (fun p => p.1 = p.2) (zip a b) <-> a = b.
Proof.
  revert b. induction a as [|x a IH]; intros [|y b] Hl; [split; [done|by repeat constructor]|done..|]. injection Hl as Hl. specialize (IH b Hl).
  cbn [zip zip_with]. rewrite Forall_cons. cbn. split; [intros [-> H]; f_equal; by apply IH|]. intros [= -> ->]. split; [done|]. by apply IH.
Qed.
Lemma constant_time_equal_spec (a b : list Z) : constant_time_equal a b = true <-> a = b.
Proof.
  unfold constant_time_equal. destruct (Nat.eqb_spec (length a) (length b)) as [Hl|Hl]; cbn [negb]; [|split; [done|by intros ->]].
  rewrite Z.eqb_eq, fold_lor_zero, zip_equal by done. tauto.
Qed.
(** What a signer signs, its verifier accepts. *)
Definition signer_matches (signer : CommitSigner) (verifier : CommitVerifier) : Prop :=
  forall body s, sg_sign signer body = Ok s -> validate_shape (mkSignature (sg_algorithm signer) (sg_key_id signer) s) = Ok tt ->
    verifier body (mkSignature (sg_algorithm signer) (sg_key_id signer) s) = Ok tt.
Lemma test_signer_matches (keyed_hash : Z -> list Z -> Hash) (key_id key : Z) : signer_matches (test_signer keyed_hash key_id key) (test_verifier keyed_hash key_id key).
Proof.
  intros body s Hs Hv. unfold test_verifier. rewrite Hv. cbn in *. rewrite Z.eqb_refl. cbn. apply Ok_inj in Hs as <-.
  by rewrite (proj2 (constant_time_equal_spec _ _)).
Qed.
Lemma sign_validates {C : Cbor} (body : UnsignedCommitBody) (signer : CommitSigner) (verifier : CommitVerifier) (c : RepositoryCommit) :
  signer_matches signer verifier -> sign_commit body signer = Ok c -> cm_body c = body /\ validate_commit c verifier = Ok tt.
Proof.
  intros Hm ([] & Hb & (e & He & (s & Hs & ([] & Hv & <-%Ok_inj)%bind_Ok_inv)%bind_Ok_inv)%bind_Ok_inv)%bind_Ok_inv. split; [done|].
  unfold validate_commit. cbn [cm_body cm_signature]. rewrite Hb, Hv. cbn [mbind result_bind]. rewrite He. by apply Hm.
Qed.

(** C31: Commits are coded exactly and signatures cover them.  The encoding of a
    commit decodes to it; neither two commit bodies (what is signed) nor two
    commits (what is hashed and linked) share an encoding; accepted bytes give a
    typed commit whose body and signature shape are valid; and a commit made
    by a signer is accepted by its verifier. *)
Theorem commit_codec_exact {C : Cbor} {L : CborLaws C} :
  (forall c b, commit_value c -> dated (cm_body c) -> encode_commit c = Ok b -> Z.of_nat (length b) <= MAX_COMMIT_BYTES -> decode_commit_bounded b = Ok c) /\
  (forall b1 b2 e, body_value b1 -> body_value b2 -> dated b1 -> dated b2 -> encode_unsigned_body b1 = Ok e -> encode_unsigned_body b2 = Ok e -> b1 = b2) /\
  (forall c1 c2 b, commit_value c1 -> commit_value c2 -> dated (cm_body c1) -> dated (cm_body c2) -> encode_commit c1 = Ok b -> encode_commit c2 = Ok b -> c1 = c2) /\
  (forall b c, is_bytes b -> decode_commit_bounded b = Ok c -> commit_value c /\ validate_body (cm_body c) = Ok tt /\ validate_shape (cm_signature c) = Ok tt) /\
  (forall body signer verifier c, signer_matches signer verifier -> sign_commit body signer = Ok c -> cm_body c = body /\ validate_commit c verifier = Ok tt).
Proof.
  split_and!.
  - intros. by apply decode_encoded_commit.
  - intros. by eapply body_encoding_injective.
  - intros. by eapply commit_encoding_injective.
  - intros b c Hb (? & ? & ? & _)%decode_commit_typed; done.
  - intros. by eapply sign_validates.
Qed.

(** ** The chain *)

(** Commits that continue [root] one valid link after the other. *)
Inductive linked {C : Cbor} (blake3 : list Z -> Hash) (verifier : CommitVerifier) : RepositoryCommit -> list RepositoryCommit -> Prop :=
| linked_end (root : RepositoryCommit) : linked blake3 verifier root []
| linked_next (root c : RepositoryCommit) (rest : list RepositoryCommit) :
    validate_link blake3 root c verifier = Ok tt -> linked blake3 verifier c rest -> linked blake3 verifier root (c :: rest).
Definition tip (root : RepositoryCommit) (rest : list RepositoryCommit) : RepositoryCommit := List.last rest root.

Section chain_facts.
Context {C : Cbor} (blake3 : list Z -> Hash) (verifier : CommitVerifier) (root : RepositoryCommit) (candidates : list RepositoryCommit).
#[local] Abbreviation link p c := (validate_link blake3 p c verifier).
#[local] Abbreviation linked := (linked blake3 verifier).

Lemma validate_link_inv (p c : RepositoryCommit) : link p c = Ok tt ->
  validate_commit p verifier = Ok tt /\ validate_commit c verifier = Ok tt /\ cb_sequence (cm_body c) = cb_sequence (cm_body p) + 1 /\
  exists h, commit_hash blake3 p = Ok h /\ cb_parent_commit (cm_body c) = Some h.
Proof.
  intros ([] & Hp & ([] & Hc & H)%bind_Ok_inv)%bind_Ok_inv. destruct (negb _); [done|].
  apply bind_Ok_inv in H as (s & [_ ->]%ok_or_Ok_inv%checked_add_Some & H). destruct (negb (_ =? _ + 1)) eqn:Es; [done|].
  apply bind_Ok_inv in H as (h & Hh & H%fail_if_Ok_inv). case_bool_decide; [|done]. zbool. split_and!; [done..|]. by exists h.
Qed.
Lemma validated_hash (c : RepositoryCommit) : validate_commit c verifier = Ok tt -> exists h, commit_hash blake3 c = Ok h.
Proof.
  intros ([] & Hb & ([] & Hs & (e & He & _)%bind_Ok_inv)%bind_Ok_inv)%bind_Ok_inv. unfold commit_hash, encode_commit, encode_unsigned_body in *.
  rewrite Hb, Hs. cbn [mbind result_bind]. rewrite He. cbn [mbind result_bind]. eauto.
Qed.

Lemma group_lookup (cs : list RepositoryCommit) (m : gmap Hash (list RepositoryCommit)) (h : Hash) :
  default [] (fold_left add_candidate cs m !! h) = default [] (m !! h) ++ List.filter (fun c => bool_decide (cb_parent_commit (cm_body c) = Some h)) cs.
Proof.
  revert m. induction cs as [|c cs IH]; intros m; cbn [fold_left List.filter]; [by rewrite app_nil_r|]. rewrite IH. unfold add_candidate.
  destruct (cb_parent_commit (cm_body c)) as [p|]; [|by rewrite bool_decide_false]. destruct (decide (p = h)) as [->|Hne].
  - rewrite lookup_insert_eq, bool_decide_true by done. cbn. by rewrite <- app_assoc.
  - rewrite lookup_insert_ne, bool_decide_false by congruence. done.
Qed.
Lemma filter_filter {A : Type} (f g : A -> bool) (l : list A) : (forall x, f x = true -> g x = true) -> List.filter f (List.filter g l) = List.filter f l.
Proof.
  intros H. induction l as [|x l IH]; [done|]. cbn [List.filter]. destruct (g x) eqn:Eg; cbn [List.filter]; [by rewrite IH|].
  destruct (f x) eqn:Ef; [apply H in Ef; congruence|done].
Qed.
Lemma is_ok_spec (r : result ()) : is_ok r = true <-> r = Ok tt.
Proof. destruct r as [[]|]; cbn; split; congruence. Qed.
(** The valid children of a commit, found through the map, are all of them. *)
Lemma valid_children (p : RepositoryCommit) (h : Hash) : commit_hash blake3 p = Ok h ->
  List.filter (fun c => is_ok (link p c)) (default [] (group_by_parent candidates !! h)) = List.filter (fun c => is_ok (link p c)) candidates.
Proof.
  intros Hh. unfold group_by_parent. rewrite group_lookup, lookup_empty. cbn [default app]. apply filter_filter.
  intros c (_ & _ & _ & h' & Hh' & Hc)%is_ok_spec%validate_link_inv. apply bool_decide_eq_true. congruence.
Qed.

Lemma linked_app (r : RepositoryCommit) (l k : list RepositoryCommit) : linked r (l ++ k) <-> linked r l /\ linked (tip r l) k.
Proof.
  revert r. induction l as [|c l IH]; intros r; cbn [app].
  - split; [split; [constructor|done]|by intros [_ ?]].
  - assert (Htip : tip r (c :: l) = tip c l) by (unfold tip; destruct l; [done|]; cbn; clear; revert r0; induction l as [|a l IH]; intros; [done|apply IH]).
    rewrite Htip. split.
    + intros H. inversion H as [|? ? ? H1 H2]; subst. apply IH in H2 as [? ?]. split; [by constructor|done].
    + intros [H H3]. inversion H as [|? ? ? H1 H2]; subst. constructor; [done|]. by apply IH.
Qed.
Lemma linked_sequence (r : RepositoryCommit) (l : list RepositoryCommit) (i : nat) (c : RepositoryCommit) :
  linked r l -> l !! i = Some c -> cb_sequence (cm_body c) = cb_sequence (cm_body r) + Z.of_nat i + 1.
Proof.
  intros H. revert i. induction H as [|r c' l Hl H IH]; intros [|i] Hi; cbn in Hi; [done..| |].
  - injection Hi as ->. apply validate_link_inv in Hl as (_ & _ & Hs & _). lia.
  - apply IH in Hi. apply validate_link_inv in Hl as (_ & _ & Hs & _). lia.
Qed.
Lemma linked_length (l : list RepositoryCommit) : linked root l -> incl l candidates -> (length l <= length candidates)%nat.
Proof.
  intros H Hi. apply NoDup_incl_length; [|done]. apply NoDup_ListNoDup, NoDup_alt. intros i j c E1 E2.
  pose proof (linked_sequence _ _ _ _ H E1). pose proof (linked_sequence _ _ _ _ H E2). lia.
Qed.
Lemma tip_snoc (r : RepositoryCommit) (l : list RepositoryCommit) (c : RepositoryCommit) : tip r (l ++ [c]) = c.
Proof. apply last_last. Qed.
Lemma tip_valid (l : list RepositoryCommit) : validate_commit root verifier = Ok tt -> linked root l -> validate_commit (tip root l) verifier = Ok tt.
Proof.
  intros Hr. destruct l as [|c l _] using rev_ind; [done|]. rewrite tip_snoc. intros [_ H]%linked_app. inversion H as [|? ? ? H1]; subst.
  by apply validate_link_inv in H1 as (_ & ? & _).
Qed.
Lemma collect_validated (l : list RepositoryCommit) : Forall (fun c => validate_commit c verifier = Ok tt) l ->
  exists hs, collect (commit_hash blake3) l = Ok hs /\ Forall2 (fun c h => commit_hash blake3 c = Ok h) l hs.
Proof.
  induction 1 as [|c l Hc Hl (hs & IH1 & IH2)]; [by exists []|]. destruct (validated_hash c Hc) as [h Hh]. exists (h :: hs). unfold collect in *. cbn [foldr].
  rewrite Hh, IH1. split; [done|by constructor].
Qed.

(** What the loop returns from a chain it has built. *)
Definition selected (r : ChainValidationError + list RepositoryCommit) : Prop :=
  match r with
  | inr chain => exists rest, chain = root :: rest /\ linked root rest /\ incl rest candidates /\
      (forall c, In c candidates -> link (tip root rest) c <> Ok tt) /\
      (forall other, linked root other -> incl other candidates -> other `prefix_of` rest)
  | inl (ChainForked e parent hashes) => exists rest children, linked root rest /\ incl rest candidates /\ commit_hash blake3 (tip root rest) = Ok parent /\
      children = List.filter (fun c => is_ok (link (tip root rest) c)) candidates /\ (2 <= length children)%nat /\
      exists hs, Forall2 (fun c h => commit_hash blake3 c = Ok h) children hs /\ hashes = sort_by Z.leb hs
  | inl (ChainInvalid e) => validate_commit root verifier = Err e
  end.
Lemma chain_loop_selected (fuel : nat) (chain rest : list RepositoryCommit) : validate_commit root verifier = Ok tt ->
  chain ++ [tip root rest] = root :: rest -> linked root rest -> incl rest candidates -> (length candidates < length rest + fuel)%nat ->
  (forall other, linked root other -> incl other candidates -> other `prefix_of` rest \/ rest `prefix_of` other) ->
  selected (chain_loop blake3 verifier (group_by_parent candidates) fuel chain (tip root rest)).
Proof.
  intros Hv. revert chain rest. induction fuel as [|fuel IH]; intros chain rest Hch Hl Hi Hf Hu.
  { pose proof (linked_length rest Hl Hi). lia. }
  cbn [chain_loop]. destruct (validated_hash _ (tip_valid rest Hv Hl)) as [h Hh]. rewrite Hh, (valid_children _ _ Hh).
  assert (Hin : forall c, In c (List.filter (fun c => is_ok (link (tip root rest) c)) candidates) <-> In c candidates /\ link (tip root rest) c = Ok tt).
  { intros c. by rewrite filter_In, is_ok_spec. }
  destruct (List.filter _ candidates) as [|child [|child2 more]] eqn:Ef.
  - exists rest. split_and!; [done..| |].
    + intros c Hc Hok. by apply (Hin c).
    + intros other Ho Hio. destruct (Hu other Ho Hio) as [?|[[|x t] ->]]; [done|by rewrite app_nil_r|].
      apply linked_app in Ho as [_ Ho]. inversion Ho as [|? ? ? H1]; subst. exfalso. apply (Hin x). split; [|done]. apply Hio, in_or_app. right. by left.
  - destruct (proj1 (Hin child) (or_introl eq_refl)) as [Hc Hk].
    pose proof (IH (chain ++ [tip root rest]) (rest ++ [child])) as H. rewrite tip_snoc in H. apply H.
    + by rewrite Hch.
    + apply linked_app. split; [done|]. constructor; [done|constructor].
    + intros c [?|[<-|[]]]%in_app_or; [by apply Hi|done].
    + rewrite length_app. cbn. lia.
    + intros other Ho Hio. destruct (Hu other Ho Hio) as [?|[[|x t] ->]]; [left; by apply prefix_app_r|rewrite app_nil_r; left; by apply prefix_app_r|].
      apply linked_app in Ho as [_ Ho]. inversion Ho as [|? ? ? H1]; subst. right.
      destruct (proj2 (Hin x)) as [<-|[]]; [split; [apply Hio, in_or_app; right; by left|done]|]. exists t. by rewrite <- app_assoc.
  - destruct (collect_validated (child :: child2 :: more)) as (hs & Hc & Hhs).
    { apply Forall_forall. intros c [_ (_ & ? & _)%validate_link_inv]%list_elem_of_In%Hin. done. }
    rewrite Hc. exists rest, (child :: child2 :: more). split_and!; [done..|cbn; lia|]. by exists hs.
Qed.
End chain_facts.

(** C29: Chain selection.  The selected chain starts at the trust root, each of
    its commits is a candidate with a valid link to the one before, no candidate
    continues it, and every other chain of valid links from the root among the
    candidates is a prefix of it.  Otherwise the root is invalid, or the chain
    of valid links forks: at its tip, whose hash is reported, at least two
    candidates follow, and their hashes are reported in order.  The loop always
    ends, within one round per candidate and one more. *)
Theorem chain_selection_exact {C : Cbor} (blake3 : list Z -> Hash) (verifier : CommitVerifier) (root : RepositoryCommit) (candidates : list RepositoryCommit) :
  selected blake3 verifier root candidates (select_highest_valid_chain blake3 root candidates verifier).
Proof.
  unfold select_highest_valid_chain. destruct (validate_commit root verifier) as [[]|e] eqn:Ev; [|done].
  apply (chain_loop_selected blake3 verifier root candidates (S (length candidates)) [] []); [done..|constructor|intros c []|cbn; lia|].
  intros other _ _. right. apply prefix_nil.
Qed.

(** ** A small repository *)
Definition demo_keyed (key : Z) (l : list Z) : Hash := (sum256 l + key) mod 2 ^ 256.
Definition demo_signer : CommitSigner := test_signer demo_keyed 5 77.
Definition demo_verifier : CommitVerifier := test_verifier demo_keyed 5 77.
Definition demo_body (sequence : Z) (parent : option Hash) (manifest : Hash) : UnsignedCommitBody :=
  mkBody 1 9 sequence parent manifest (mkRemote "local" "manifest" None 100 manifest KManifest) 3 1700000000000000000 4 None.
Definition demo_commit (sequence : Z) (parent : option Hash) (manifest : Hash) : RepositoryCommit :=
  match sign_commit (C := rfc_cbor) (demo_body sequence parent manifest) demo_signer with Ok c => c | Err _ => mkCommit (demo_body 0 None 0) (mkSignature Ed25519 0 []) end.
Definition demo_hash (c : RepositoryCommit) : option Hash := match commit_hash (C := rfc_cbor) sum256 c with Ok h => Some h | Err _ => None end.
Definition commit0 : RepositoryCommit := demo_commit 0 None 50.
Definition commit1 : RepositoryCommit := demo_commit 1 (demo_hash commit0) 51.
Definition commit2 : RepositoryCommit := demo_commit 2 (demo_hash commit1) 52.
Definition commit2' : RepositoryCommit := demo_commit 2 (demo_hash commit1) 1000.
Example demo_chain : select_highest_valid_chain (C := rfc_cbor) sum256 commit0 [commit2; demo_commit 7 (Some 1) 53; commit1] demo_verifier = inr [commit0; commit1; commit2].
Proof. vm_compute. reflexivity. Qed.
Definition fork_hashes (r : ChainValidationError + list RepositoryCommit) : option (nat * bool) :=
  match r with inl (ChainForked _ _ hs) => Some (length hs, bool_decide (NoDup hs)) | _ => None end.
Example demo_fork : fork_hashes (select_highest_valid_chain (C := rfc_cbor) sum256 commit0 [commit2; commit1; commit2'] demo_verifier) = Some (2%nat, true).
Proof. vm_compute. reflexivity. Qed.
(** The same commit given twice is reported as a fork. *)
Example duplicate_commit_forks : fork_hashes (select_highest_valid_chain (C := rfc_cbor) sum256 commit0 [commit1; commit1] demo_verifier) = Some (2%nat, false).
Proof. vm_compute. reflexivity. Qed.
Lemma commit_codec_exact_witness : exists b, encode_commit (C := rfc_cbor) commit1 = Ok b /\ decode_commit_bounded (C := rfc_cbor) b = Ok commit1.
Proof.
  assert (E : exists b, encode_commit (C := rfc_cbor) commit1 = Ok b /\ Z.of_nat (length b) <= MAX_COMMIT_BYTES)
    by (eexists; split; [vm_compute; reflexivity|vm_compute; discriminate]).
  destruct E as (b & E & Hb). exists b. split; [exact E|]. destruct (commit_codec_exact (L := rfc_cbor_laws)) as [H _].
  assert (Hv : commit_value commit1 /\ dated (cm_body commit1)).
  { let c := eval vm_compute in commit1 in replace commit1 with c by (vm_compute; reflexivity).
    unfold commit_value, body_value, object_typed, dated, is_utf8, in_u32, in_u64, in_i128, in_cbor_int, u32_max, u64_max. cbn -[Z.pow].
    split_and!; try lia; try reflexivity; try (vm_compute; congruence); repeat constructor. }
  destruct Hv as [Hv Hd]. by apply H.
Defined.
