(* ===== verification/Objects.v ===== *)
(** * Immutable objects and the local backend

    [mirage-types/src/hash.rs] (hexadecimal hashes), [mirage-backend/src]
    ([error.rs], [traits.rs], the streams of [object.rs], [verify.rs]) and
    [mirage-backend-local/src] ([layout.rs], [backend.rs]).

    [ObjectBackend] is the trait: operations on a world of stored objects.
    [BackendContract] is what publication and recovery rely on; the local
    backend, a directory of content-addressed files, discharges it.  Its I/O
    succeeds here: the errors modelled are those the code decides.  A stream is
    the list of the chunks its source yields; cancellation is the state of the
    token, constant over a call. *)
From stdpp Require Export pretty.
From S2P Require Export CommitChain.

(** ** Hashes in hexadecimal *)
Definition hex_char (n : Z) : Z := if n <=? 9 then 48 + n else 87 + n.
Definition hex_byte (b : Z) : list Z := [hex_char (Z.shiftr b 4); hex_char (Z.land b 15)].
Definition encode_canonical_hex_32 (h : Hash) : string := bytes_str (concat (map hex_byte (to_be 32 h))).
Definition decode_hex_nibble (b : Z) : string + Z :=
  if (48 <=? b) && (b <=? 57) then inr (b - 48)
  else if (97 <=? b) && (b <=? 102) then inr (b - 97 + 10)
  else if (65 <=? b) && (b <=? 70) then inl "uppercase hex character is non-canonical"%string
  else inl "invalid hexadecimal character"%string.
Definition nibble_at (i : nat) (b : Z) : result Z :=
  match decode_hex_nibble b with
  | inr n => Ok n
  | inl e => Err (invalid_argument ("invalid hex at index " +:+ pretty (Z.of_nat i) +:+ ": " +:+ e))
  end.
Fixpoint hex_loop (i : nat) (bytes : list Z) : result (list Z) :=
  match bytes with
  | hi :: lo :: rest =>
      hi ← nibble_at (i * 2) hi;
      lo ← nibble_at (i * 2 + 1) lo;
      out ← hex_loop (S i) rest;
      Ok (Z.lor (Z.shiftl hi 4) lo :: out)
  | _ => Ok []
  end.
Definition parse_canonical_hex_32 (s : string) : result Hash :=
  let bytes := chars s in
  if negb (Z.of_nat (length bytes) =? 64)
  then Err (invalid_argument ("invalid hex length: expected exactly 64 characters, got " +:+ pretty (Z.of_nat (length bytes)))) else
  out ← hex_loop 0 bytes;
  Ok (from_be out).
Definition constant_time_eq_32 (a b : Hash) : bool :=
  fold_left (fun diff p => Z.lor diff (Z.lxor p.1 p.2)) (zip (to_be 32 a) (to_be 32 b)) 0 =? 0.

Lemma decode_hex_char (n : Z) : 0 <= n < 16 -> decode_hex_nibble (hex_char n) = inr n.
Proof.
  intros Hn. unfold hex_char, decode_hex_nibble. destruct (Z.leb_spec n 9).
  - rewrite (proj2 (Z.leb_le _ _)), (proj2 (Z.leb_le _ _)) by lia. cbn [andb]. f_equal. lia.
  - rewrite (proj2 (Z.leb_le 48 _)), (proj2 (Z.leb_gt (87 + n) 57)) by lia. cbn [andb]. rewrite (proj2 (Z.leb_le _ _)), (proj2 (Z.leb_le _ _)) by lia.
    cbn [andb]. f_equal. lia.
Qed.
Lemma byte_nibbles (b : Z) : is_byte b = true -> 0 <= Z.shiftr b 4 < 16 /\ 0 <= Z.land b 15 < 16 /\ Z.lor (Z.shiftl (Z.shiftr b 4) 4) (Z.land b 15) = b.
Proof.
  unfold is_byte. intros H. zbool.
  assert (Hall : forallb (fun b => (0 <=? Z.shiftr b 4) && (Z.shiftr b 4 <? 16) && (0 <=? Z.land b 15) && (Z.land b 15 <? 16) &&
                                   (Z.lor (Z.shiftl (Z.shiftr b 4) 4) (Z.land b 15) =? b)) (zrange 0 256) = true) by (vm_compute; reflexivity).
  rewrite forallb_forall in Hall. specialize (Hall b). rewrite <- list_elem_of_In, elem_of_zrange in Hall. specialize (Hall ltac:(lia)). zbool. lia.
Qed.
Lemma hex_loop_bytes (i : nat) (l : list Z) : is_bytes l -> hex_loop i (concat (map hex_byte l)) = Ok l.
Proof.
  intros Hl. revert i. induction Hl as [|b l Hb Hl IH]; intros i; [done|]. cbn [map concat hex_byte app hex_loop]. unfold nibble_at.
  destruct (byte_nibbles b Hb) as (H1 & H2 & H3). rewrite (decode_hex_char _ H1). cbn [mbind result_bind]. rewrite (decode_hex_char _ H2). cbn [mbind result_bind].
  rewrite IH. cbn [mbind result_bind]. by rewrite H3.
Qed.
Lemma hex_byte_bytes (b : Z) : is_byte b = true -> is_bytes (hex_byte b).
Proof.
  intros (H1 & H2 & _)%byte_nibbles. unfold hex_byte.
  assert (Hc : forall n, 0 <= n < 16 -> is_byte (hex_char n) = true) by (intros n Hn; unfold is_byte, hex_char; destruct (Z.leb_spec n 9); lia).
  apply Forall_cons. split; [auto|]. apply Forall_singleton. auto.
Qed.
Lemma hex_bytes (l : list Z) : is_bytes l -> is_bytes (concat (map hex_byte l)) /\ length (concat (map hex_byte l)) = (2 * length l)%nat.
Proof.
  induction 1 as [|b l Hb Hl [IH1 IH2]]; [split; [constructor|done]|]. cbn [map concat]. rewrite length_app, IH2. split; [apply Forall_app; split; [by apply hex_byte_bytes|done]|cbn; lia].
Qed.
Lemma hex_roundtrip (h : Hash) : 0 <= h < 2 ^ 256 -> parse_canonical_hex_32 (encode_canonical_hex_32 h) = Ok h.
Proof.
  intros Hh. unfold parse_canonical_hex_32, encode_canonical_hex_32. destruct (hex_bytes (to_be 32 h) (be_bytes 32 h)) as [Hb Hl]. rewrite length_be in Hl.
  rewrite chars_bytes_str, Hl by done. cbn [Z.of_nat]. change (Z.of_nat (2 * 32) =? 64) with true. cbn [negb].
  rewrite hex_loop_bytes by apply be_bytes. cbn [mbind result_bind]. by rewrite be_val_be.
Qed.
Lemma hex_injective (g h : Hash) : 0 <= g < 2 ^ 256 -> 0 <= h < 2 ^ 256 -> encode_canonical_hex_32 g = encode_canonical_hex_32 h -> g = h.
Proof. intros Hg Hh E. apply Ok_inj. rewrite <- (hex_roundtrip g Hg), <- (hex_roundtrip h Hh). by rewrite E. Qed.
Lemma constant_time_eq_32_spec (a b : Hash) : 0 <= a < 2 ^ 256 -> 0 <= b < 2 ^ 256 -> constant_time_eq_32 a b = true <-> a = b.
Proof.
  intros Ha Hb. unfold constant_time_eq_32. rewrite Z.eqb_eq, fold_lor_zero, zip_equal by (by rewrite !length_be). split; [|by intros ->].
  intros [_ E]. rewrite <- (be_val_be 32 a Ha), <- (be_val_be 32 b Hb). by rewrite E.
Qed.

(** ** Backend errors *)
Record BackendError : Set := mkBackendError { be_class : BackendErrorClass; be_safe_message : string; be_retry_after : option Z }.
Definition BackendError_new (class : BackendErrorClass) (message : string) : BackendError := mkBackendError class message None.
Definition be_integrity : string -> BackendError := BackendError_new Integrity.
Definition be_permanent : string -> BackendError := BackendError_new Permanent.
Definition backend_unauthenticated (m : string) : MirageError := MirageError_new BackendUnauthenticated (default_code BackendUnauthenticated) m.
Definition provider_unavailable (m : string) : MirageError := MirageError_new ProviderUnavailable (default_code ProviderUnavailable) m.
(** [From<BackendError> for MirageError] *)
Definition from_backend_error (error : BackendError) : MirageError :=
  let message := be_safe_message error in
  match be_class error with
  | Authentication => backend_unauthenticated message
  | Permission => backend_permission_denied message
  | RateLimit => backend_rate_limited message (be_retry_after error)
  | Missing => remote_object_missing message
  | TransientTransport => backend_unavailable message
  | Integrity => integrity_mismatch message
  | Unsupported => provider_unavailable message
  | Permanent => with_retry (MirageError_new BackendUnavailable (default_code BackendUnavailable) message) Never
  end.
Notation bresult := (sum BackendError).
#[export] Instance bresult_ret : MRet bresult := fun A a => inr a.
#[export] Instance bresult_bind : MBind bresult := fun A B f r => match r with inr a => f a | inl e => inl e end.
Definition from_backend {A : Type} (r : bresult A) : result A := match r with inr a => Ok a | inl e => Err (from_backend_error e) end.
Definition be_fail_if (c : bool) (e : BackendError) : bresult () := if c then inl e else inr ().

(** ** Streams *)
Record BackendByteStream : Type := mkStream { bs_inner : list (bresult (list Z)); bs_remaining : Z; bs_finished : bool }.
Definition BackendByteStream_new (inner : list (bresult (list Z))) (expected_bytes : Z) : BackendByteStream := mkStream inner expected_bytes false.
Definition BackendByteStream_from_bytes (bytes : list Z) : BackendByteStream := BackendByteStream_new [inr bytes] (Z.of_nat (length bytes)).
(** [poll_next], ready. *)
Definition stream_next (s : BackendByteStream) : option (bresult (list Z)) * BackendByteStream :=
  if bs_finished s then (None, s) else
  match bs_inner s with
  | inr chunk :: inner =>
      let length_ := Z.of_nat (length chunk) in
      if length_ =? 0 then (Some (inl (be_integrity "backend produced an empty stream chunk")), mkStream inner (bs_remaining s) true) else
      if bs_remaining s <? length_ then (Some (inl (be_integrity "backend produced more bytes than declared")), mkStream inner (bs_remaining s) true)
      else (Some (inr chunk), mkStream inner (bs_remaining s - length_) false)
  | inl e :: inner => (Some (inl e), mkStream inner (bs_remaining s) true)
  | [] =>
      if bs_remaining s =? 0 then (None, mkStream [] (bs_remaining s) true)
      else (Some (inl (be_integrity "backend stream ended before its declared length")), mkStream [] (bs_remaining s) true)
  end.
(** [while let Some(chunk) = next().await { output.extend(&chunk?) }]: every
    round but the last takes a chunk of [bs_inner]. *)
Fixpoint collect_loop (fuel : nat) (s : BackendByteStream) (output : list Z) : bresult (list Z) :=
  match fuel with
  | O => inl (be_permanent "unreachable")
  | S fuel =>
      match stream_next s with
      | (None, _) => inr output
      | (Some (inr chunk), s) => collect_loop fuel s (output ++ chunk)
      | (Some (inl e), _) => inl e
      end
  end.
Definition collect_stream (s : BackendByteStream) : bresult (list Z) := collect_loop (S (S (length (bs_inner s)))) s [].
Definition collect_bounded (s : BackendByteStream) (maximum : Z) : bresult (list Z) :=
  if maximum <? bs_remaining s then inl (be_permanent "byte stream exceeds the caller's collection limit") else collect_stream s.

(** Of the response metadata, the revision the provider observed. *)
Record BackendRead : Type := mkRead {
  rd_requested_range : CheckedRange; rd_received_length : Z; rd_observed_revision : option string; rd_stream : BackendByteStream
}.
Definition BackendRead_new (requested_range : CheckedRange) (received_length : Z) (observed_revision : option string) (stream : BackendByteStream) : bresult BackendRead :=
  if negb (len requested_range =? received_length) || negb (bs_remaining stream =? received_length)
  then inl (be_integrity "backend range response length contradicts the request") else inr (mkRead requested_range received_length observed_revision stream).
Record UploadSource : Type := mkUpload { up_length : Z; up_stream : BackendByteStream }.
Definition UploadSource_from_bytes (bytes : list Z) : UploadSource := mkUpload (Z.of_nat (length bytes)) (BackendByteStream_from_bytes bytes).
Definition UploadSource_new (length_ : Z) (stream : BackendByteStream) : bresult UploadSource :=
  if negb (length_ =? bs_remaining stream) then inl (be_integrity "upload source length contradicts its stream bound") else inr (mkUpload length_ stream).

(** A collected stream is exactly its declared length. *)
Lemma collect_loop_length (fuel : nat) (s : BackendByteStream) (out l : list Z) :
  bs_finished s = false -> collect_loop fuel s out = inr l -> Z.of_nat (length l) = Z.of_nat (length out) + bs_remaining s.
Proof.
  revert s out. induction fuel as [|fuel IH]; intros [inner rem fin] out Hf; [done|]. cbn in Hf. subst fin. cbn [collect_loop]. unfold stream_next. cbn [bs_finished bs_inner bs_remaining].
  destruct inner as [|[e|chunk] inner].
  - destruct (Z.eqb_spec rem 0) as [->|]; [|done]. intros [= <-]. lia.
  - done.
  - destruct (_ =? 0); [done|]. destruct (_ <? _); [done|]. intros H%IH; [|done]. rewrite length_app in H. cbn in H. lia.
Qed.
Lemma collect_from_bytes (b : list Z) : b <> [] -> collect_stream (BackendByteStream_from_bytes b) = inr b.
Proof.
  intros Hb. unfold collect_stream, BackendByteStream_from_bytes, BackendByteStream_new. cbn [bs_inner length collect_loop]. unfold stream_next at 1. cbn [bs_finished bs_inner bs_remaining].
  rewrite (proj2 (Z.eqb_neq _ 0)) by (destruct b; [done|cbn; lia]). rewrite Z.ltb_irrefl. cbn [app]. unfold stream_next. cbn [bs_finished bs_inner bs_remaining].
  by rewrite Z.sub_diag.
Qed.

(** ** The trait *)
Record ObjectStat : Set := mkStat { st_byte_length : Z; st_content_hash : Hash; st_immutable_revision : option string; st_kind : ObjectKind }.
Record DeletionProof : Set := mkProof { pf_repository_id : Z; pf_object_hash : Hash; pf_retained_root_set_hash : Hash; pf_validated_at_sequence : Z }.
(** The last argument of the operations that take a token is its state. *)
Class ObjectBackend (W : Type) : Type := mkBackend {
  can_publish : bool;
  read_range : W -> RemoteObjectRef -> CheckedRange -> bool -> bresult BackendRead;
  put_immutable : ObjectKind -> UploadSource -> Hash -> bool -> W -> bresult RemoteObjectRef * W;
  stat : W -> RemoteObjectRef -> bresult ObjectStat;
  enumerate_commits : W -> Z -> bresult (list RemoteObjectRef);
  delete_immutable : RemoteObjectRef -> DeletionProof -> bool -> W -> bresult () * W
}.

(** ** [verify.rs] *)
Definition VERIFY_WINDOW : Z := 4 * 1024 * 1024.
Section verify.
Context {W : Type} {B : ObjectBackend W} (blake3 : list Z -> Hash).

(** The chunks of one window; the hasher has seen [hashed]. *)
Fixpoint verify_chunks (fuel : nat) (cancel : bool) (s : BackendByteStream) (remaining : Z) (hashed : list Z) : bresult (Z * list Z) :=
  match fuel with
  | O => inl (be_permanent "unreachable")
  | S fuel =>
      match stream_next s with
      | (None, _) => inr (remaining, hashed)
      | (Some chunk, s) =>
          if cancel then inl (BackendError_new TransientTransport "publication readback cancelled") else
          chunk ← chunk;
          match checked_sub remaining (Z.of_nat (length chunk)) with
          | None => inl (be_integrity "publication readback exceeded its range")
          | Some remaining => verify_chunks fuel cancel s remaining (hashed ++ chunk)
          end
      end
  end.
Fixpoint verify_loop (fuel : nat) (w : W) (object : RemoteObjectRef) (cancel : bool) (offset : Z) (hashed : list Z) : bresult (list Z) :=
  match fuel with
  | O => inl (be_permanent "unreachable")
  | S fuel =>
      if offset <? ro_byte_length object then
        if cancel then inl (BackendError_new TransientTransport "publication readback cancelled") else
        let length_ := Z.min (ro_byte_length object - offset) VERIFY_WINDOW in
        match CheckedRange_new offset length_ with
        | Err _ => inl (be_integrity "publication verification range overflow")
        | Ok range =>
            read ← read_range w object range cancel;
            if negb (bool_decide (rd_requested_range read = range)) || negb (rd_received_length read =? length_)
            then inl (be_integrity "publication readback returned a different range") else
            '(remaining, hashed) ← verify_chunks (S (S (length (bs_inner (rd_stream read))))) cancel (rd_stream read) length_ hashed;
            if negb (remaining =? 0) then inl (be_integrity "publication readback ended early")
            else verify_loop fuel w object cancel (offset + length_) hashed
        end
      else inr hashed
  end.
Definition verify_object_bytes (w : W) (object : RemoteObjectRef) (cancel : bool) : bresult () :=
  hashed ← verify_loop (S (Z.to_nat (ro_byte_length object / VERIFY_WINDOW + 1))) w object cancel 0 [];
  be_fail_if (negb (blake3 hashed =? ro_content_hash object)) (be_integrity "published bytes do not match their content hash").
End verify.

(** ** The local backend *)
Definition kind_directory (k : ObjectKind) : string :=
  match k with
  | KRepositoryConfig => "config" | KPack => "packs" | KManifest => "manifests" | KCommit => "commits" | KProfile => "profiles" | KPayload => "payloads"
  end%string.
(** [{hash}.bin] *)
Definition object_file (h : Hash) : string := encode_canonical_hex_32 h +:+ ".bin".
Definition object_id (k : ObjectKind) (h : Hash) : string := kind_directory k +:+ "/" +:+ object_file h.
(** The files below the repository root, by directory and name. *)
Notation LocalFiles := (gmap (string * string) (list Z)).
Definition object_path (object : RemoteObjectRef) : bresult (string * string) :=
  if negb (bool_decide (ro_provider_object_id object = object_id (ro_kind object) (ro_content_hash object)))
  then inl (be_permanent "local object ID is not canonical for its kind and content hash")
  else inr (kind_directory (ro_kind object), object_file (ro_content_hash object)).
Definition READ_CHUNK_LIMIT : Z := 16 * 1024 * 1024.
Definition cancelled_local (cancel : bool) : bresult () := be_fail_if cancel (BackendError_new TransientTransport "local backend operation canceled").
(** [io_error] of a missing file. *)
Definition open_error : BackendError := BackendError_new Missing "cannot open immutable local object".

(** [Path::extension] of a file name. *)
Definition file_extension (f : list Z) : option (list Z) :=
  match after_last_dot f with Some e => if (length f =? S (length e))%nat then None else Some e | None => None end.

Section local.
Context (blake3 : list Z -> Hash) (repository_id : Z).

Definition validate_ref (object : RemoteObjectRef) : bresult (string * string) :=
  if negb (bool_decide (ro_backend_id object = "local"%string)) then inl (be_permanent "object belongs to a different backend") else object_path object.
Definition local_reference (k : ObjectKind) (h : Hash) (length_ : Z) : RemoteObjectRef :=
  mkRemote "local" (object_id k h) (Some (encode_canonical_hex_32 h)) length_ h k.
Definition hash_file (w : LocalFiles) (path : string * string) : bresult (Hash * Z) :=
  match w !! path with None => inl open_error | Some bytes => inr (blake3 bytes, Z.of_nat (length bytes)) end.
Definition verify_existing (w : LocalFiles) (path : string * string) (expected : Hash) (expected_length : Z) : bresult () :=
  '(actual, length_) ← hash_file w path;
  be_fail_if (negb (actual =? expected) || negb (length_ =? expected_length)) (be_integrity "existing local object conflicts with immutable identity").

Definition local_read_range (w : LocalFiles) (object : RemoteObjectRef) (range : CheckedRange) (cancel : bool) : bresult BackendRead :=
  _ ← cancelled_local cancel;
  if READ_CHUNK_LIMIT <? len range then inl (be_permanent "local range exceeds the bounded read window") else
  path ← validate_ref object;
  match w !! path with
  | None => inl open_error
  | Some bytes =>
      let length_ := Z.of_nat (length bytes) in
      if negb (length_ =? ro_byte_length object) || (length_ <? end_exclusive range)
      then inl (be_integrity "local immutable object length or requested range is invalid") else
      BackendRead_new range (len range) (ro_immutable_revision object) (BackendByteStream_from_bytes (zslice (start range) (len range) bytes))
  end.
(** The upload goes to a temporary file that is renamed to the target when its
    length and hash are right, and removed otherwise. *)
Definition local_put_immutable (k : ObjectKind) (source : UploadSource) (expected_hash : Hash) (cancel : bool) (w : LocalFiles)
    : bresult RemoteObjectRef * LocalFiles :=
  let length_ := up_length source in
  let target := (kind_directory k, object_file expected_hash) in
  match cancelled_local cancel with
  | inl e => (inl e, w)
  | inr _ =>
      if length_ =? 0 then (inl (be_permanent "immutable objects cannot be empty"), w) else
      match w !! target with
      | Some _ =>
          match verify_existing w target expected_hash length_ with
          | inl e => (inl e, w)
          | inr _ => (inr (local_reference k expected_hash length_), w)
          end
      | None =>
          match collect_stream (up_stream source) with
          | inl e => (inl e, w)
          | inr bytes =>
              if negb (Z.of_nat (length bytes) =? length_) || negb (blake3 bytes =? expected_hash)
              then (inl (be_integrity "local upload length or content hash mismatch"), w)
              else (inr (local_reference k expected_hash length_), <[target := bytes]> w)
          end
      end
  end.
Definition local_stat (w : LocalFiles) (object : RemoteObjectRef) : bresult ObjectStat :=
  path ← validate_ref object;
  '(hash, length_) ← hash_file w path;
  if negb (hash =? ro_content_hash object) || negb (length_ =? ro_byte_length object)
  then inl (be_integrity "local immutable object identity changed")
  else inr (mkStat length_ hash (ro_immutable_revision object) (ro_kind object)).
(** [sort_by] on the provider identifiers, as bytes. *)
Definition id_le (a b : RemoteObjectRef) : bool :=
  match lex_compare (chars (ro_provider_object_id a)) (chars (ro_provider_object_id b)) with Gt => false | _ => true end.
Definition commit_refs (w : LocalFiles) : list RemoteObjectRef :=
  omap (fun p : (string * string) * list Z =>
    let '((directory, file), bytes) := p in
    if bool_decide (directory = kind_directory KCommit) && bool_decide (file_extension (chars file) = Some (chars "bin"))
    then Some (local_reference KCommit (blake3 bytes) (Z.of_nat (length bytes))) else None) (map_to_list w).
Definition local_enumerate_commits (w : LocalFiles) (repository : Z) : bresult (list RemoteObjectRef) :=
  if negb (repository =? repository_id) then inr [] else inr (sort_by id_le (commit_refs w)).
Definition local_delete_immutable (object : RemoteObjectRef) (proof : DeletionProof) (cancel : bool) (w : LocalFiles) : bresult () * LocalFiles :=
  match cancelled_local cancel with
  | inl e => (inl e, w)
  | inr _ =>
      if negb (pf_repository_id proof =? repository_id) || negb (pf_object_hash proof =? ro_content_hash object)
      then (inl (be_permanent "deletion proof does not authorize this local object"), w) else
      match validate_ref object with
      | inl e => (inl e, w)
      | inr path =>
          match w !! path with
          | None => (inl (BackendError_new Missing "cannot delete immutable local object"), w)
          | Some _ => (inr (), delete path w)
          end
      end
  end.
Definition local_backend : ObjectBackend LocalFiles := {|
  can_publish := true; read_range := local_read_range; put_immutable := local_put_immutable; stat := local_stat;
  enumerate_commits := local_enumerate_commits; delete_immutable := local_delete_immutable
|}.
End local.

(** ** What clients rely on *)

(** [holds w o b]: the object [o] is stored and its bytes are [b].  [window]
    bounds a single read. *)
Class BackendContract {W : Type} (B : ObjectBackend W) (blake3 : list Z -> Hash) (window repository : Z) : Type := mkContract {
  holds : W -> RemoteObjectRef -> list Z -> Prop;
  holds_identity w o b : holds w o b -> b <> [] /\ ro_byte_length o = Z.of_nat (length b) /\ ro_content_hash o = blake3 b;
  put_holds k src h w o w' : in_u64 (up_length src) -> put_immutable k src h false w = (inr o, w') ->
    ro_kind o = k /\ ro_content_hash o = h /\ exists b, holds w' o b /\ (holds w o b \/ collect_stream (up_stream src) = inr b);
  put_typed k src h w o w' : in_u64 (up_length src) -> 0 <= h < 2 ^ 256 -> put_immutable k src h false w = (inr o, w') -> object_typed o;
  put_new k src h c w r w' o b : put_immutable k src h c w = (r, w') -> holds w' o b -> holds w o b \/ ro_kind o = k;
  put_keeps k src h c w r w' o b : put_immutable k src h c w = (r, w') -> holds w o b -> holds w' o b;
  read_holds w o b s l : holds w o b -> 0 <= s -> 0 < l -> s + l <= Z.of_nat (length b) -> l <= window ->
    exists rd, read_range w o (mkRange s l) false = inr rd /\ rd_requested_range rd = mkRange s l /\ rd_received_length rd = l /\
      (bs_remaining (rd_stream rd) = l /\ bs_finished (rd_stream rd) = false) /\ collect_stream (rd_stream rd) = inr (zslice s l b);
  stat_holds w o b : holds w o b -> exists s, stat w o = inr s /\ st_content_hash s = ro_content_hash o /\ st_byte_length s = ro_byte_length o;
  commits_other k src h c w r w' l : k <> KCommit -> put_immutable k src h c w = (r, w') -> enumerate_commits w repository = inr l ->
    exists l', enumerate_commits w' repository = inr l' /\ l' ≡ₚ l;
  commits_put src h w o w' l : put_immutable KCommit src h false w = (inr o, w') -> enumerate_commits w repository = inr l ->
    exists l', enumerate_commits w' repository = inr l' /\ (o ∈ l /\ l' ≡ₚ l \/ l' ≡ₚ o :: l)
}.

Lemma chars_app (a b : string) : chars (a +:+ b) = chars a ++ chars b.
Proof. unfold chars. induction a as [|c a IH]; [done|]. cbn. by rewrite <- IH. Qed.
Lemma after_last_dot_app (l e : list Z) : 46 ∉ e -> after_last_dot (l ++ 46 :: e) = Some e.
Proof.
  intros He. assert (Hn : forall e, 46 ∉ e -> after_last_dot e = None).
  { clear. induction e as [|c e IH]; [done|]. rewrite not_elem_of_cons. intros [Hc He]. cbn. rewrite (IH He). by rewrite (proj2 (Z.eqb_neq c 46)). }
  induction l as [|c l IH]; cbn [app after_last_dot]; [by rewrite (Hn e He)|]. by rewrite IH.
Qed.
Lemma object_file_extension (h : Hash) : file_extension (chars (object_file h)) = Some (chars "bin").
Proof.
  unfold file_extension, object_file. rewrite chars_app. change (chars ".bin") with (46 :: chars "bin").
  rewrite after_last_dot_app by (change (chars "bin") with [98; 105; 110]; rewrite !not_elem_of_cons; split_and!; [done..|apply not_elem_of_nil]).
  destruct (hex_bytes (to_be 32 h) (be_bytes 32 h)) as [Hb Hl]. rewrite length_be in Hl.
  unfold encode_canonical_hex_32. rewrite chars_bytes_str, length_app, Hl by done. done.
Qed.
Lemma kind_directory_commit (k : ObjectKind) : kind_directory k = kind_directory KCommit -> k = KCommit.
Proof. by destruct k. Qed.

(** Identifiers of printable ASCII characters. *)
Lemma printable_text (l : list Z) : Forall (fun c => 32 <= c <= 126) l -> is_bytes l /\ utf8_valid l = true /\ from_utf8 l = Some l /\ existsb is_control l = false.
Proof.
  induction 1 as [|c l Hc Hl (IH1 & IH2 & IH3 & IH4)]; [split_and!; done || constructor|]. cbn [utf8_valid from_utf8 existsb].
  rewrite (proj2 (Z.leb_le c 127)) by lia. rewrite IH3, IH4. unfold is_control.
  rewrite (proj2 (Z.leb_gt c 31)), (proj2 (Z.leb_gt 127 c)) by lia. split_and!; [|done..]. constructor; [unfold is_byte; lia|done].
Qed.
Lemma hex_printable (h : Hash) : Forall (fun c => 32 <= c <= 126) (chars (encode_canonical_hex_32 h)) /\ length (chars (encode_canonical_hex_32 h)) = 64%nat.
Proof.
  unfold encode_canonical_hex_32. pose proof (be_bytes 32 h) as Hb. destruct (hex_bytes _ Hb) as [Hx Hl]. rewrite length_be in Hl.
  rewrite chars_bytes_str by done. split; [|done]. clear Hx Hl. induction Hb as [|b l Hb _ IH]; [constructor|]. cbn [map concat]. apply Forall_app. split; [|done].
  destruct (byte_nibbles b Hb) as (H1 & H2 & _). assert (Hc : forall n, 0 <= n < 16 -> 32 <= hex_char n <= 126) by (intros n Hn; unfold hex_char; destruct (Z.leb_spec n 9); lia).
  unfold hex_byte. apply Forall_cons. split; [auto|]. apply Forall_singleton. auto.
Qed.
Lemma printable_id (name : string) (maximum : Z) (s : string) : maximum <= 1024 -> Forall (fun c => 32 <= c <= 126) (chars s) ->
  (0 < length (chars s))%nat -> Z.of_nat (length (chars s)) <= maximum -> is_utf8 (chars s) /\ opaque_id_new name maximum valid_opaque_id (chars s) = Ok s.
Proof.
  intros Hm Hp H0 Hl. destruct (printable_text _ Hp) as (H1 & H2 & H3 & H4). split; [split_and!; [done..|unfold u64_max; lia]|].
  unfold opaque_id_new, valid_opaque_id. rewrite H3. cbn [from_option id]. rewrite H4, (proj2 (Z.ltb_ge _ _)), bool_decide_false by (lia || by intros E; rewrite E in H0; cbn in H0; lia).
  cbn. by rewrite bytes_str_chars.
Qed.
Ltac printable := cbn; repeat first [apply Forall_nil_2|apply Forall_cons; split; [lia|]].
Lemma local_reference_typed (k : ObjectKind) (h : Hash) (n : Z) : 0 <= h < 2 ^ 256 -> in_u64 n -> object_typed (local_reference k h n).
Proof.
  intros Hh Hn. unfold object_typed, local_reference. cbn [ro_backend_id ro_provider_object_id ro_immutable_revision ro_byte_length ro_content_hash opt_ok].
  destruct (hex_printable h) as [Hp Hl].
  assert (Hid : Forall (fun c => 32 <= c <= 126) (chars (object_id k h)) /\ (0 < length (chars (object_id k h)))%nat /\ Z.of_nat (length (chars (object_id k h))) <= 1024).
  { unfold object_id, object_file. rewrite !chars_app, !length_app, Hl. split_and!; [|cbn; lia|destruct k; cbn; lia].
    apply Forall_app; split; [destruct k; printable|]. apply Forall_app; split; [printable|].
    apply Forall_app; split; [done|printable]. }
  destruct Hid as (I1 & I2 & I3). split; [split; [split_and!; [repeat constructor|done|done]|reflexivity]|].
  split; [by apply printable_id|]. split; [apply printable_id; [lia|done|lia|lia]|]. split; [done|exact Hh].
Qed.

Section local_contract.
Context (blake3 : list Z -> Hash) (repository_id : Z).
#[local] Abbreviation B := (local_backend blake3 repository_id).

Definition local_holds (w : LocalFiles) (o : RemoteObjectRef) (b : list Z) : Prop :=
  (exists path, validate_ref o = inr path /\ w !! path = Some b) /\ (b <> [] /\ Z.of_nat (length b) <= u64_max) /\ ro_byte_length o = Z.of_nat (length b) /\ ro_content_hash o = blake3 b.

Lemma local_reference_ref (k : ObjectKind) (h : Hash) (n : Z) : validate_ref (local_reference k h n) = inr (kind_directory k, object_file h).
Proof. unfold validate_ref, local_reference, object_path. cbn [ro_backend_id ro_provider_object_id ro_kind ro_content_hash]. by rewrite !bool_decide_true by done. Qed.
Lemma validate_ref_kind (o : RemoteObjectRef) (path : string * string) : validate_ref o = inr path -> kind_directory (ro_kind o) = fst path.
Proof.
  unfold validate_ref, object_path. generalize (object_file (ro_content_hash o)) as f. intros f. destruct (negb _); [done|]. destruct (negb _); [done|]. by intros [= <-].
Qed.
(** What an accepted upload did. *)
Lemma local_put_inv (k : ObjectKind) (src : UploadSource) (h : Hash) (c : bool) (w w' : LocalFiles) (o : RemoteObjectRef) :
  local_put_immutable blake3 k src h c w = (inr o, w') ->
  o = local_reference k h (up_length src) /\ exists b, blake3 b = h /\ Z.of_nat (length b) = up_length src /\ b <> [] /\
  let target := (kind_directory k, object_file h) in
  (w !! target = Some b /\ w' = w \/ w !! target = None /\ collect_stream (up_stream src) = inr b /\ w' = <[target := b]> w).
Proof.
  unfold local_put_immutable. destruct c; [done|]. cbn [cancelled_local be_fail_if]. destruct (Z.eqb_spec (up_length src) 0) as [|Hnz]; [done|].
  destruct (w !! _) as [b|] eqn:Ew.
  - unfold verify_existing, hash_file. rewrite Ew. cbn [mbind bresult_bind]. unfold be_fail_if. destruct (_ || _) eqn:E; [done|]. intros [= <- <-]. zbool.
    split; [done|]. exists b. split_and!; [done..|intros ->; cbn in *; lia|by left].
  - destruct (collect_stream (up_stream src)) as [|b] eqn:Ec; [done|]. destruct (_ || _) eqn:E; [done|]. intros [= <- <-]. zbool.
    split; [done|]. exists b. split_and!; [done..|intros ->; cbn in *; lia|by right].
Qed.
Lemma local_put_lookup (k : ObjectKind) (src : UploadSource) (h : Hash) (c : bool) (w w' : LocalFiles) (r : bresult RemoteObjectRef) :
  local_put_immutable blake3 k src h c w = (r, w') -> w' = w \/ exists b, w !! (kind_directory k, object_file h) = None /\ w' = <[(kind_directory k, object_file h) := b]> w.
Proof.
  unfold local_put_immutable. destruct (cancelled_local c); [intros [= _ <-]; by left|]. destruct (_ =? 0); [intros [= _ <-]; by left|].
  destruct (w !! _) as [b|] eqn:Ew; [destruct (verify_existing _ _ _ _ _); intros [= _ <-]; by left|].
  destruct (collect_stream _) as [|b]; [intros [= _ <-]; by left|]. destruct (_ || _); intros [= _ <-]; [by left|right; by exists b].
Qed.
Lemma commit_refs_insert (w : LocalFiles) (d f : string) (b : list Z) : w !! (d, f) = None ->
  commit_refs blake3 (<[(d, f) := b]> w) ≡ₚ
    (if bool_decide (d = kind_directory KCommit) && bool_decide (file_extension (chars f) = Some (chars "bin"))
     then [local_reference KCommit (blake3 b) (Z.of_nat (length b))] else []) ++ commit_refs blake3 w.
Proof.
  intros Hw. unfold commit_refs. rewrite (map_to_list_insert w (d, f) b Hw). cbn [omap list_omap]. by destruct (_ && _).
Qed.

Lemma local_commits (w : LocalFiles) (l : list RemoteObjectRef) : local_enumerate_commits blake3 repository_id w repository_id = inr l -> l ≡ₚ commit_refs blake3 w.
Proof. unfold local_enumerate_commits. rewrite Z.eqb_refl. intros [= <-]. apply sort_by_perm. Qed.
Lemma local_commits_ok (w : LocalFiles) : exists l, local_enumerate_commits blake3 repository_id w repository_id = inr l /\ l ≡ₚ commit_refs blake3 w.
Proof. eexists. unfold local_enumerate_commits. rewrite Z.eqb_refl. split; [reflexivity|apply sort_by_perm]. Qed.

#[export] Instance local_contract : BackendContract B blake3 READ_CHUNK_LIMIT repository_id.
Proof.
  exists local_holds.
  - by intros w o b (_ & [? _] & ? & ?).
  - intros k src h w o w' Hu (-> & b & <- & Hl & Hb & Hcase)%local_put_inv. cbn [ro_kind ro_content_hash]. split_and!; [done..|]. exists b.
    assert (Hh : w' !! (kind_directory k, object_file (blake3 b)) = Some b) by (destruct Hcase as [[? ->]|(_ & _ & ->)]; [done|apply lookup_insert_eq]).
    assert (Hlen : b <> [] /\ Z.of_nat (length b) <= u64_max) by (split; [done|destruct Hu; lia]).
    split; [split_and!; [eexists; split; [apply local_reference_ref|done]|apply Hlen..|done|done]|].
    destruct Hcase as [[Hw ->]|(_ & Hc & _)]; [left|by right]. split_and!; [eexists; split; [apply local_reference_ref|done]|apply Hlen..|done|done].
  - intros k src h w o w' Hu Hh (-> & _)%local_put_inv. by apply local_reference_typed.
  - intros k src h c w r w' o b Hp ((path & Hv & Hl) & Hb & H1 & H2). apply local_put_lookup in Hp as [->|(b' & Hn & ->)]; [left; split; [eauto|by split]|].
    destruct (decide (path = (kind_directory k, object_file h))) as [->|Hne].
    + right. apply validate_ref_kind in Hv. cbn [fst] in Hv. by destruct (ro_kind o), k.
    + left. rewrite lookup_insert_ne in Hl by congruence. split; [eauto|by split].
  - intros k src h c w r w' o b Hp ((path & Hv & Hl) & Hb & H1 & H2). split; [|by split]. exists path. split; [done|].
    apply local_put_lookup in Hp as [->|(b' & Hn & ->)]; [done|]. rewrite lookup_insert_ne; [done|]. intros <-. congruence.
  - intros w o b s l ((path & Hv & Hl) & [Hb Hmax] & H1 & H2) Hs Hl0 Hle Hw. cbn [read_range B local_backend]. unfold local_read_range.
    cbn [cancelled_local be_fail_if mbind bresult_bind len]. rewrite (proj2 (Z.ltb_ge _ _)) by lia. rewrite Hv. cbn [mbind bresult_bind]. rewrite Hl, H1, Z.eqb_refl.
    unfold end_exclusive. cbn [start len negb orb]. rewrite checked_add_fits by lia. rewrite (proj2 (Z.ltb_ge _ _)) by lia.
    assert (Hz : Z.of_nat (length (zslice s l b)) = l) by (unfold zslice; rewrite length_take, length_drop; lia).
    unfold BackendRead_new. cbn [len BackendByteStream_from_bytes BackendByteStream_new bs_remaining]. rewrite Hz, Z.eqb_refl. cbn [negb orb].
    eexists. split; [reflexivity|]. cbn [rd_stream rd_requested_range rd_received_length]. split_and!; [done..|]. apply collect_from_bytes. intros E. rewrite E in Hz. cbn in Hz. lia.
  - intros w o b ((path & Hv & Hl) & Hb & H1 & H2). cbn [stat B local_backend]. unfold local_stat. rewrite Hv. cbn [mbind bresult_bind]. unfold hash_file. rewrite Hl.
    cbn [mbind bresult_bind]. rewrite H1, H2, !Z.eqb_refl. cbn. eauto.
  - cbn [enumerate_commits put_immutable B local_backend]. intros k src h c w r w' l Hk Hp El%local_commits. destruct (local_commits_ok w') as (l' & El' & Hl'). exists l'. split; [done|].
    rewrite El, Hl'. apply local_put_lookup in Hp as [->|(b' & Hn & ->)]; [done|]. rewrite commit_refs_insert by done.
    rewrite bool_decide_false by (intros E; by apply Hk, kind_directory_commit). done.
  - cbn [enumerate_commits put_immutable B local_backend]. intros src h w o w' l (-> & b & <- & Hl & Hb & Hcase)%local_put_inv El%local_commits.
    destruct (local_commits_ok w') as (l' & El' & Hl'). exists l'. split; [done|]. rewrite <- Hl. destruct Hcase as [[Hw ->]|(Hn & _ & ->)].
    + left. split; [|by rewrite Hl', El]. rewrite El. unfold commit_refs. apply list_elem_of_omap. exists ((kind_directory KCommit, object_file (blake3 b)), b).
      split; [by apply elem_of_map_to_list|]. rewrite !bool_decide_true by (done || apply object_file_extension). done.
    + right. rewrite Hl', El, commit_refs_insert by done. rewrite !bool_decide_true by (done || apply object_file_extension). done.
Defined.
End local_contract.

(** ** Readback *)
Section readback.
Context {W : Type} {B : ObjectBackend W} (blake3 : list Z -> Hash).

(** One window of a stream that declares its length is collected. *)
Lemma verify_chunks_collect (fuel : nat) (s : BackendByteStream) (hashed out : list Z) : bs_finished s = false ->
  verify_chunks fuel false s (bs_remaining s) (hashed ++ out) = (l ← collect_loop fuel s out; inr (0, hashed ++ l)).
Proof.
  revert s out. induction fuel as [|fuel IH]; intros [inner rem fin] out Hf; [done|]. cbn in Hf. subst fin. cbn [verify_chunks collect_loop bs_remaining].
  unfold stream_next. cbn [bs_finished bs_inner bs_remaining]. destruct inner as [|[e|chunk] inner]; [|done|].
  - by destruct (Z.eqb_spec rem 0) as [->|].
  - destruct (_ =? 0); [done|]. destruct (Z.ltb_spec rem (Z.of_nat (length chunk))); [done|]. cbn [mbind bresult_bind].
    unfold checked_sub. rewrite (proj2 (Z.leb_le _ _)) by lia. rewrite <- app_assoc.
    by rewrite <- (IH (mkStream inner (rem - Z.of_nat (length chunk)) false) (out ++ chunk)).
Qed.
(** Whatever the stream yields, the hasher has seen what was taken off. *)
Lemma verify_chunks_length (fuel : nat) (s : BackendByteStream) (rem rem' : Z) (hashed hashed' : list Z) :
  verify_chunks fuel false s rem hashed = inr (rem', hashed') -> Z.of_nat (length hashed') - Z.of_nat (length hashed) = rem - rem'.
Proof.
  revert s rem hashed. induction fuel as [|fuel IH]; intros s rem hashed; [done|]. cbn [verify_chunks]. destruct (stream_next s) as [[[e|chunk]|] s'].
  - done.
  - cbn [mbind bresult_bind]. destruct (checked_sub _ _) as [r|] eqn:Er; [|done]. apply checked_sub_Some in Er as [_ ->]. intros H%IH. rewrite length_app in H. lia.
  - intros [= <- <-]. lia.
Qed.
Lemma verify_loop_length (fuel : nat) (w : W) (o : RemoteObjectRef) (offset : Z) (hashed hashed' : list Z) : offset <= ro_byte_length o ->
  verify_loop fuel w o false offset hashed = inr hashed' -> Z.of_nat (length hashed') - Z.of_nat (length hashed) = ro_byte_length o - offset.
Proof.
  revert offset hashed. induction fuel as [|fuel IH]; intros offset hashed Ho; [done|]. cbn [verify_loop].
  destruct (Z.ltb_spec offset (ro_byte_length o)); [|intros [= <-]; lia]. unfold CheckedRange_new. destruct (checked_add _ _); [|done].
  destruct (read_range _ _ _ _) as [|rd]; [done|]. cbn [mbind bresult_bind]. destruct (_ || _); [done|].
  destruct (verify_chunks _ _ _ _ _) as [|[rem h1]] eqn:Ev; [done|]. cbn [mbind bresult_bind]. apply verify_chunks_length in Ev.
  destruct (Z.eqb_spec rem 0) as [->|]; [|done]. cbn [negb]. intros H1%IH; lia.
Qed.

Lemma zslice_append (b : list Z) (s l : Z) : 0 <= s -> 0 <= l -> take (Z.to_nat s) b ++ zslice s l b = take (Z.to_nat (s + l)) b.
Proof. intros Hs Hl. unfold zslice. rewrite Z2Nat.inj_add by lia. by rewrite take_take_drop. Qed.
(** An object whose ranges read as [b] is hashed as [b]. *)
Definition ranges_read (window : Z) (w : W) (o : RemoteObjectRef) (b : list Z) : Prop :=
  forall s l, 0 <= s -> 0 < l -> s + l <= Z.of_nat (length b) -> l <= window ->
    exists rd, read_range w o (mkRange s l) false = inr rd /\ rd_requested_range rd = mkRange s l /\ rd_received_length rd = l /\
      (bs_remaining (rd_stream rd) = l /\ bs_finished (rd_stream rd) = false) /\ collect_stream (rd_stream rd) = inr (zslice s l b).
Lemma verify_loop_reads (window : Z) (w : W) (o : RemoteObjectRef) (b : list Z) (fuel : nat) (offset : Z) :
  ranges_read window w o b -> ro_byte_length o = Z.of_nat (length b) -> VERIFY_WINDOW <= window -> Z.of_nat (length b) <= u64_max -> 0 <= offset <= Z.of_nat (length b) ->
  Z.of_nat (length b) - offset <= (Z.of_nat fuel - 1) * VERIFY_WINDOW -> verify_loop fuel w o false offset (take (Z.to_nat offset) b) = inr b.
Proof.
  intros Hh Hl Hw Hu. revert offset. induction fuel as [|fuel IH]; intros offset Ho Hf; [unfold VERIFY_WINDOW in Hf; lia|].
  cbn [verify_loop]. rewrite Hl. destruct (Z.ltb_spec offset (Z.of_nat (length b))); [|by rewrite take_ge by lia].
  set (l := Z.min _ _). assert (Hl1 : 0 < l /\ offset + l <= Z.of_nat (length b) /\ l <= window) by (unfold l, VERIFY_WINDOW in *; lia).
  unfold CheckedRange_new. rewrite checked_add_fits by lia.
  destruct (Hh offset l) as (rd & -> & Hr1 & Hr2 & [Hr3 Hr4] & Hr5); [lia..|]. cbn [mbind bresult_bind].
  rewrite Hr1, Hr2, bool_decide_true, Z.eqb_refl by done. cbn [negb orb]. rewrite <- Hr3. rewrite <- (app_nil_r (take _ b)), verify_chunks_collect by done.
  unfold collect_stream in Hr5. rewrite Hr5. cbn [mbind bresult_bind negb Z.eqb]. rewrite zslice_append by lia. rewrite Hr3. apply IH; [lia|].
  unfold l, VERIFY_WINDOW in *. lia.
Qed.
Lemma verify_reads (window : Z) (w : W) (o : RemoteObjectRef) (b : list Z) : ranges_read window w o b -> ro_byte_length o = Z.of_nat (length b) -> VERIFY_WINDOW <= window ->
  Z.of_nat (length b) <= u64_max -> verify_object_bytes blake3 w o false = be_fail_if (negb (blake3 b =? ro_content_hash o)) (be_integrity "published bytes do not match their content hash").
Proof.
  intros Hh Hl Hw Hu. unfold verify_object_bytes. change (@nil Z) with (take (Z.to_nat 0) b) at 1. rewrite (verify_loop_reads window w o b); [done..| |].
  - lia.
  - rewrite Hl. pose proof (Z.mul_succ_div_gt (Z.of_nat (length b)) VERIFY_WINDOW ltac:(unfold VERIFY_WINDOW; lia)).
    pose proof (Z.div_pos (Z.of_nat (length b)) VERIFY_WINDOW ltac:(lia) ltac:(unfold VERIFY_WINDOW; lia)). rewrite Nat2Z.inj_succ, Z2Nat.id by lia. unfold VERIFY_WINDOW in *. lia.
Qed.

Context {window repository : Z} {K : BackendContract B blake3 window repository}.
(** Readback of a published object.  Whatever the backend returns, a
    successful verification has read bytes of exactly the declared length whose
    hash is the object's content hash; and on a backend that keeps its contract
    every object it holds is verified, in windows of at most 4 MiB. *)
Theorem readback_verifies (w : W) (o : RemoteObjectRef) :
  (0 <= ro_byte_length o -> verify_object_bytes blake3 w o false = inr tt -> exists b, Z.of_nat (length b) = ro_byte_length o /\ blake3 b = ro_content_hash o) /\
  (forall b, holds w o b -> VERIFY_WINDOW <= window -> Z.of_nat (length b) <= u64_max -> verify_object_bytes blake3 w o false = inr tt).
Proof.
  unfold verify_object_bytes. split.
  - intros H0. destruct (verify_loop _ _ _ _ _ _) as [|h] eqn:E; [done|]. cbn [mbind bresult_bind]. unfold be_fail_if. destruct (Z.eqb_spec (blake3 h) (ro_content_hash o)); [|done].
    intros _. exists h. apply verify_loop_length in E; [|done]. cbn [length] in E. split; [lia|done].
  - intros b Hh Hw Hu. destruct (holds_identity w o b Hh) as (Hb & Hl & Hc). change (verify_object_bytes blake3 w o false = inr tt).
    rewrite (verify_reads window w o b) by (done || by intros s l; apply read_holds). unfold be_fail_if. by rewrite Hc, Z.eqb_refl.
Qed.
End readback.
Lemma readback_verifies_witness :
  let b := [1; 2; 3] in let o := local_reference KPack (sum256 b) 3 in let w := {[ (kind_directory KPack, object_file (sum256 b)) := b ]} in
  verify_object_bytes (B := local_backend sum256 9) sum256 w o false = inr tt.
Proof.
  cbn zeta. destruct (readback_verifies (B := local_backend sum256 9) (K := local_contract sum256 9) sum256
    {[ (kind_directory KPack, object_file (sum256 [1; 2; 3])) := [1; 2; 3] ]} (local_reference KPack (sum256 [1; 2; 3]) 3)) as [_ H].
  apply (H [1; 2; 3]); [|unfold VERIFY_WINDOW, READ_CHUNK_LIMIT; lia|unfold u64_max; cbn; lia].
  split; [eexists; split; [apply local_reference_ref|apply lookup_singleton_eq]|]. split; [split; [done|unfold u64_max; cbn; lia]|done].
Defined.
