(* ===== verification/Publication.v ===== *)
(** * Publishing and recovering generations

    [mirage-engine/src]: [repository_writer.rs], [repository_reader.rs] and
    [pack_set_hash] of [object_plan.rs], against any [ObjectBackend].

    A generation is published in the order packs, manifest, commit, each
    verified before the next; it is recovered from the commits a backend
    enumerates.  The operations that upload run in a monad over the backend's
    world; the clock is an argument, and opening a pack's file gives its upload
    source.

    Proved: on a backend that keeps its contract, recovery after a first
    publication whose packs are all referenced returns the published manifest. *)
From S2P Require Export Effects Objects.

#[export] Instance SignatureEnvelope_eq_dec : EqDecision SignatureEnvelope.
Proof. solve_decision. Defined.
#[export] Instance UnsignedCommitBody_eq_dec : EqDecision UnsignedCommitBody.
Proof. solve_decision. Defined.
#[export] Instance RepositoryCommit_eq_dec : EqDecision RepositoryCommit.
Proof. solve_decision. Defined.

(** ** Uploads in the monad of the backend's world *)
Definition io_put {W A : Type} (f : W -> bresult A * W) : io W A := fun w => let '(r, w') := f w in (from_backend r, w').

(** ** [object_plan.rs] *)
Fixpoint dedup_adjacent {A : Type} (same : A -> A -> bool) (l : list A) : list A :=
  match l with
  | [] => []
  | x :: l => x :: match dedup_adjacent same l with y :: l' => if same x y then l' else y :: l' | [] => [] end
  end.
Definition pack_set_hash (blake3 : list Z -> Hash) (hashes : list Hash) : Hash :=
  blake3 (chars "MirageSSD pack set v1" ++ [0] ++ concat (map (to_be 32) (dedup_adjacent Z.eqb (sort_by Z.leb hashes)))).

Record CompletedPack : Type := mkPack { cp_source : result UploadSource; cp_content_hash : Hash; cp_byte_length : Z }.
Record PublishedGeneration : Type := mkPublished {
  pg_packs : list RemoteObjectRef; pg_published_manifest : RepositoryManifest; pg_manifest : RemoteObjectRef; pg_commit : RemoteObjectRef;
  pg_commit_hash : Hash; pg_commit_body : RepositoryCommit
}.
Record RecoveredRepository : Type := mkRecovered {
  rr_chain : list RepositoryCommit; rr_head_hash : Hash; rr_manifest : RepositoryManifest; rr_manifest_object : RemoteObjectRef; rr_verified_pack_count : nat
}.

Section publication.
Context {C : Cbor} {W : Type} {B : ObjectBackend W} (blake3 : list Z -> Hash) (upper : Z -> list Z).

Definition read_complete (w : W) (object : RemoteObjectRef) (maximum : Z) : result (list Z) :=
  if maximum <? ro_byte_length object then Err (manifest_invalid "immutable metadata object exceeds its read bound") else
  range ← CheckedRange_new 0 (ro_byte_length object);
  read ← from_backend (read_range w object range false);
  from_backend (collect_bounded (rd_stream read) maximum).

(** ** [repository_writer.rs] *)
Fixpoint find_candidate (w : W) (signer : CommitSigner) (repository_id sequence : Z) (parent : option Hash) (m_hash : Hash) (update_journal_id : option Z)
    (candidates : list RemoteObjectRef) : result (option (RemoteObjectRef * Hash * RepositoryCommit)) :=
  match candidates with
  | [] => Ok None
  | candidate :: rest =>
      bytes ← read_complete w candidate (1024 * 1024);
      let next := find_candidate w signer repository_id sequence parent m_hash update_journal_id rest in
      match decode_commit_bounded bytes with
      | Err _ => next
      | Ok decoded =>
          let body := cm_body decoded in
          if (cb_repository_id body =? repository_id) && (cb_sequence body =? sequence) && bool_decide (cb_parent_commit body = parent) &&
             (cb_manifest_hash body =? m_hash) && bool_decide (cb_update_journal_id body = update_journal_id) then
            signed ← sign_commit body signer;
            if negb (bool_decide (cm_signature signed = cm_signature decoded))
            then Err (integrity_mismatch "existing publication commit is not signed by the authorized writer") else
            hash ← commit_hash blake3 decoded;
            Ok (Some (candidate, hash, decoded))
          else next
      end
  end.
Definition find_committed (w : W) (signer : CommitSigner) (repository_id sequence : Z) (parent : option Hash) (m_hash : Hash) (update_journal_id : option Z)
    : result (option (RemoteObjectRef * Hash * RepositoryCommit)) :=
  candidates ← from_backend (enumerate_commits w repository_id);
  find_candidate w signer repository_id sequence parent m_hash update_journal_id candidates.

Definition require_publish_capability : result () :=
  fail_if (negb can_publish) (provider_unavailable "origin is read-only and cannot publish a generation").

Fixpoint publish_packs (packs : list CompletedPack) : io W (list RemoteObjectRef) :=
  match packs with
  | [] => mret []
  | pack :: packs =>
      source ← io_pure (cp_source pack);
      uploaded ← io_put (put_immutable KPack source (cp_content_hash pack) false);
      stat ← io_read (fun w => from_backend (stat w uploaded));
      _ ← io_pure (fail_if (negb (st_content_hash stat =? cp_content_hash pack) || negb (st_byte_length stat =? cp_byte_length pack))
                     (integrity_mismatch "published pack identity failed verification"));
      _ ← io_read (fun w => from_backend (verify_object_bytes blake3 w uploaded false));
      rest ← publish_packs packs;
      mret (uploaded :: rest)
  end.
(** The location with the uploaded pack of its content hash. *)
Definition place_location (remote_packs : list RemoteObjectRef) (location : RemoteLocation) : result RemoteLocation :=
  object ← ok_or (integrity_mismatch "manifest references a pack absent from the publication plan")
             (List.find (fun object => ro_content_hash object =? ro_content_hash (rm_object location)) remote_packs);
  Ok (mkRemoteLocation object (rm_offset location) (rm_encoded_length location) (rm_codec location)).
Definition place_locations (remote_packs : list RemoteObjectRef) (m : RepositoryManifest) : result RepositoryManifest :=
  locations ← collect (place_location remote_packs) (man_remote_locations m);
  Ok (mkManifest (man_format_version m) (man_repository_id m) (man_generation_id m) (man_page_size m) (man_directories m) (man_files m) (man_extents m)
        (man_pages m) locations).

(** Sign the body, upload the commit, read it back. *)
Definition publish_commit (message : string) (body : UnsignedCommitBody) (signer : CommitSigner) : io W (RemoteObjectRef * Hash * RepositoryCommit) :=
  commit_body ← io_pure (sign_commit body signer);
  commit_bytes ← io_pure (encode_commit commit_body);
  hash ← io_pure (commit_hash blake3 commit_body);
  commit ← io_put (put_immutable KCommit (UploadSource_from_bytes commit_bytes) hash false);
  downloaded ← io_read (fun w => read_complete w commit (64 * 1024));
  _ ← io_pure (if negb (bool_decide (downloaded = commit_bytes)) then Err (integrity_mismatch message) else
               decoded ← decode_commit_bounded downloaded;
               fail_if (negb (bool_decide (decoded = commit_body))) (integrity_mismatch message));
  mret (commit, hash, commit_body).

Definition publish_base_generation (packs : list CompletedPack) (manifest : RepositoryManifest) (signer : CommitSigner) (now : result Z) : io W PublishedGeneration :=
  _ ← io_pure require_publish_capability;
  remote_packs ← publish_packs packs;
  published_manifest ← io_pure (place_locations remote_packs manifest);
  manifest_bytes ← io_pure (encode_manifest upper published_manifest);
  m_hash ← io_pure (manifest_hash blake3 upper published_manifest);
  manifest_object ← io_put (put_immutable KManifest (UploadSource_from_bytes manifest_bytes) m_hash false);
  manifest_stat ← io_read (fun w => from_backend (stat w manifest_object));
  _ ← io_pure (fail_if (negb (st_content_hash manifest_stat =? m_hash)) (integrity_mismatch "published manifest identity failed verification"));
  _ ← io_read (fun w => from_backend (verify_object_bytes blake3 w manifest_object false));
  existing ← io_read (fun w => find_committed w signer (man_repository_id manifest) 0 None m_hash None);
  match existing with
  | Some (commit, hash, body) => mret (mkPublished remote_packs published_manifest manifest_object commit hash body)
  | None =>
      created ← io_pure now;
      '(commit, hash, body) ← publish_commit "published commit failed readback verification"
        (mkBody COMMIT_FORMAT_VERSION (man_repository_id manifest) 0 None m_hash manifest_object
           (pack_set_hash blake3 (map ro_content_hash remote_packs)) created (sg_key_id signer) None) signer;
      mret (mkPublished remote_packs published_manifest manifest_object commit hash body)
  end.

(** [sort_by_key(content_hash)] and [dedup_by_key]. *)
Definition distinct_packs (m : RepositoryManifest) : list RemoteObjectRef :=
  dedup_adjacent (fun a b => ro_content_hash a =? ro_content_hash b)
    (sort_by (fun a b => ro_content_hash a <=? ro_content_hash b) (map rm_object (man_remote_locations m))).
Definition check_successor_pack (w : W) (pack : RemoteObjectRef) : result () :=
  if negb (bool_decide (ro_kind pack = KPack)) then Err (manifest_invalid "successor manifest references a non-pack page object") else
  stat ← from_backend (stat w pack);
  if negb (st_content_hash stat =? ro_content_hash pack) || negb (st_byte_length stat =? ro_byte_length pack)
  then Err (integrity_mismatch "successor pack identity failed verification") else
  from_backend (verify_object_bytes blake3 w pack false).
Definition publish_successor_generation (manifest : RepositoryManifest) (parent : RepositoryCommit) (signer : CommitSigner) (update_id : Z) (now : result Z)
    : io W PublishedGeneration :=
  _ ← io_pure require_publish_capability;
  _ ← io_pure (fail_if (negb (cb_repository_id (cm_body parent) =? man_repository_id manifest) || (man_generation_id manifest <=? cb_sequence (cm_body parent)))
                 (repository_conflict "successor manifest does not advance its parent repository"));
  let remote_packs := distinct_packs manifest in
  _ ← io_read (fun w => for_each (check_successor_pack w) remote_packs);
  manifest_bytes ← io_pure (encode_manifest upper manifest);
  m_hash ← io_pure (manifest_hash blake3 upper manifest);
  manifest_object ← io_put (put_immutable KManifest (UploadSource_from_bytes manifest_bytes) m_hash false);
  sequence ← io_pure (ok_or (invalid_argument "commit sequence overflows") (checked_add (cb_sequence (cm_body parent)) 1));
  parent_hash ← io_pure (commit_hash blake3 parent);
  _ ← io_read (fun w => from_backend (verify_object_bytes blake3 w manifest_object false));
  existing ← io_read (fun w => find_committed w signer (man_repository_id manifest) sequence (Some parent_hash) m_hash (Some update_id));
  match existing with
  | Some (commit, hash, body) => mret (mkPublished remote_packs manifest manifest_object commit hash body)
  | None =>
      created ← io_pure now;
      '(commit, hash, body) ← publish_commit "published successor commit failed readback verification"
        (mkBody COMMIT_FORMAT_VERSION (man_repository_id manifest) sequence (Some parent_hash) m_hash manifest_object
           (pack_set_hash blake3 (map ro_content_hash remote_packs)) created (sg_key_id signer) (Some update_id)) signer;
      mret (mkPublished remote_packs manifest manifest_object commit hash body)
  end.

(** ** [repository_reader.rs] *)
Record RecoveryHints : Set := mkHints { cached_commit : option RemoteObjectRef; latest_hint : option RemoteObjectRef }.
Definition no_hints : RecoveryHints := mkHints None None.
Definition hint_list (o : option RemoteObjectRef) : list RemoteObjectRef := match o with Some r => [r] | None => [] end.
(** A readable, decodable, valid commit of the repository. *)
Definition valid_commit (w : W) (repository_id : Z) (verifier : CommitVerifier) (object : RemoteObjectRef) : option RepositoryCommit :=
  if negb (bool_decide (ro_kind object = KCommit)) then None else
  match read_complete w object (64 * 1024) with
  | Err _ => None
  | Ok bytes =>
      match decode_commit_bounded bytes with
      | Err _ => None
      | Ok commit => if (cb_repository_id (cm_body commit) =? repository_id) && is_ok (validate_commit commit verifier) then Some commit else None
      end
  end.
Definition commit_references (w : W) (repository_id : Z) (hints : RecoveryHints) : result (list RemoteObjectRef) :=
  enumerated ← from_backend (enumerate_commits w repository_id);
  Ok (dedup_adjacent (fun a b => bool_decide (ro_provider_object_id a = ro_provider_object_id b))
        (sort_by id_le (hint_list (cached_commit hints) ++ hint_list (latest_hint hints) ++ enumerated))).
(** [commit_hash(commit).unwrap_or([0xff; 32])] *)
Definition root_key (c : RepositoryCommit) : Hash := match commit_hash blake3 c with Ok h => h | Err _ => 2 ^ 256 - 1 end.
Definition trust_roots (valid : list RepositoryCommit) : list RepositoryCommit :=
  sort_by (fun a b => root_key a <=? root_key b)
    (List.filter (fun c => (cb_sequence (cm_body c) =? 0) && bool_decide (cb_parent_commit (cm_body c) = None)) valid).
Definition check_recovered_pack (w : W) (pack : RemoteObjectRef) : result () :=
  stat ← from_backend (stat w pack);
  fail_if (negb (st_content_hash stat =? ro_content_hash pack) || negb (st_byte_length stat =? ro_byte_length pack))
    (integrity_mismatch "manifest pack metadata failed verification").
Definition chain_error {A : Type} (r : ChainValidationError + A) : result A :=
  match r with inr a => Ok a | inl (ChainInvalid e) => Err e | inl (ChainForked e _ _) => Err e end.
(** From the head of the chain to the verified manifest. *)
Definition recover_head (w : W) (repository_id : Z) (chain : list RepositoryCommit) : result RecoveredRepository :=
  head ← ok_or (internal_invariant "recovered chain is empty") (last chain);
  let manifest_object := cb_manifest_object (cm_body head) in
  manifest_bytes ← read_complete w manifest_object (256 * 1024 * 1024);
  manifest ← decode_manifest_bounded upper manifest_bytes DecodeLimits_default;
  _ ← (if negb (man_repository_id manifest =? repository_id) then Err (integrity_mismatch "recovered manifest does not match the authoritative commit") else
       h ← manifest_hash blake3 upper manifest;
       fail_if (negb (h =? cb_manifest_hash (cm_body head))) (integrity_mismatch "recovered manifest does not match the authoritative commit"));
  let packs := distinct_packs manifest in
  _ ← for_each (check_recovered_pack w) packs;
  if negb (pack_set_hash blake3 (map ro_content_hash packs) =? cb_referenced_pack_set_hash (cm_body head))
  then Err (integrity_mismatch "commit pack-set hash differs from recovered manifest") else
  head_hash ← commit_hash blake3 head;
  Ok (mkRecovered chain head_hash manifest manifest_object (length packs)).
Definition recover_repository_with_hints (w : W) (repository_id : Z) (verifier : CommitVerifier) (hints : RecoveryHints) : result RecoveredRepository :=
  references ← commit_references w repository_id hints;
  let valid := omap (valid_commit w repository_id verifier) references in
  match trust_roots valid with
  | [] => Err (remote_object_missing "no valid trust-root commit was discovered")
  | [trust_root] =>
      let candidates := List.filter (fun c => negb (cb_sequence (cm_body c) =? 0)) valid in
      chain ← chain_error (select_highest_valid_chain blake3 trust_root candidates verifier);
      recover_head w repository_id chain
  | _ => Err (repository_conflict "multiple valid trust-root commits were discovered")
  end.
Definition recover_repository (w : W) (repository_id : Z) (verifier : CommitVerifier) : result RecoveredRepository :=
  recover_repository_with_hints w repository_id verifier no_hints.
End publication.

(** ** Runs *)
Lemma from_backend_Ok {A : Type} (r : bresult A) (a : A) : from_backend r = Ok a -> r = inr a.
Proof. destruct r; [done|]. by intros [= ->]. Qed.
Lemma io_put_inv {W A B : Type} (f : W -> bresult A * W) (k : A -> io W B) (w w' : W) (b : B) :
  (io_put f ≫= k) w = (Ok b, w') -> exists a w1, f w = (inr a, w1) /\ k a w1 = (Ok b, w').
Proof.
  intros (a & w1 & H1 & H2)%io_bind_inv. unfold io_put in H1. destruct (f w) as [r w2]. injection H1 as H1%from_backend_Ok ->. subst r. eauto.
Qed.

(** ** Sorted sets of hashes *)
Lemma dedup_adjacent_elem {A : Type} (same : A -> A -> bool) (l : list A) (x : A) : x ∈ dedup_adjacent same l -> x ∈ l.
Proof.
  revert x. induction l as [|y l IH]; [done|]. intros x. cbn [dedup_adjacent]. rewrite !elem_of_cons. intros [->|H]; [by left|]. right. apply IH.
  destruct (dedup_adjacent same l) as [|z l']; [done|]. destruct (same y z); [by right|done].
Qed.
Lemma dedup_adjacent_key {A : Type} (k : A -> Z) (l : list A) (x : A) : x ∈ l -> exists y, y ∈ dedup_adjacent (fun a b => k a =? k b) l /\ k y = k x.
Proof.
  revert x. induction l as [|z l IH]; [by intros ? ?%not_elem_of_nil|]. intros x. rewrite elem_of_cons. cbn [dedup_adjacent]. intros [->|H]; [exists z; split; [by left|done]|].
  destruct (IH x H) as (y & Hy & E). destruct (dedup_adjacent _ l) as [|v l']; [by apply not_elem_of_nil in Hy|]. destruct (Z.eqb_spec (k z) (k v)) as [Ev|].
  - apply elem_of_cons in Hy as [->|Hy]; [exists z; split; [by left|congruence]|]. exists y. split; [by right|done].
  - exists y. split; [by right|done].
Qed.
Lemma dedup_adjacent_strict {A : Type} (k : A -> Z) (l : list A) : StronglySorted (fun a b => k a <= k b) l ->
  StronglySorted (fun a b => k a < k b) (dedup_adjacent (fun a b => k a =? k b) l).
Proof.
  induction 1 as [|x l Hs IH Hx]; [constructor|]. cbn [dedup_adjacent].
  assert (Hx' : Forall (fun b => k x <= k b) (dedup_adjacent (fun a b => k a =? k b) l)).
  { rewrite Forall_forall in *. intros y Hy%dedup_adjacent_elem. by apply Hx. }
  destruct (dedup_adjacent _ l) as [|y l']; [constructor; constructor|]. inversion IH as [|? ? Hs' Hy]; subst. apply Forall_cons in Hx' as [Hxy _].
  destruct (Z.eqb_spec (k x) (k y)) as [E|].
  - constructor; [done|]. eapply Forall_impl; [exact Hy|]. cbn. lia.
  - constructor; [done|]. constructor; [lia|]. eapply Forall_impl; [exact Hy|]. cbn. lia.
Qed.
Lemma strict_unique (l k : list Z) : StronglySorted Z.lt l -> StronglySorted Z.lt k -> (forall x, x ∈ l <-> x ∈ k) -> l = k.
Proof.
  intros Hl. revert k. induction Hl as [|x l Hl IH Hx]; intros k Hk Hin.
  - destruct k as [|y k]; [done|]. exfalso. apply (not_elem_of_nil y), Hin. by left.
  - destruct Hk as [|y k Hk Hy]; [exfalso; apply (not_elem_of_nil x), Hin; by left|]. rewrite Forall_forall in Hx, Hy.
    assert (x = y) as <-.
    { destruct (proj1 (elem_of_cons _ _ _) (proj1 (Hin x) ltac:(by left))) as [?|H1]; [done|].
      destruct (proj1 (elem_of_cons _ _ _) (proj2 (Hin y) ltac:(by left))) as [?|H2]; [done|]. apply Hy in H1. apply Hx in H2. lia. }
    f_equal. apply IH; [done|]. intros z. specialize (Hin z). rewrite !elem_of_cons in Hin. split; intros Hz.
    + pose proof (Hx z Hz). destruct (proj1 Hin (or_intror Hz)) as [->|?]; [lia|done].
    + pose proof (Hy z Hz). destruct (proj2 Hin (or_intror Hz)) as [->|?]; [lia|done].
Qed.
Lemma sorted_hashes (l : list Z) : StronglySorted Z.lt (dedup_adjacent Z.eqb (sort_by Z.leb l)) /\ forall x, x ∈ dedup_adjacent Z.eqb (sort_by Z.leb l) <-> x ∈ l.
Proof.
  split.
  - apply (dedup_adjacent_strict id). apply (sort_by_key_sorted id).
  - intros x. split; [intros H%dedup_adjacent_elem; by rewrite sort_by_perm in H|]. intros H. rewrite <- (sort_by_perm Z.leb l) in H.
    apply (dedup_adjacent_key id) in H as (y & Hy & E). cbn in E. by subst y.
Qed.
(** The hash of a set of packs depends on the set only. *)
Lemma pack_set_hash_set (blake3 : list Z -> Hash) (l k : list Hash) : (forall x, x ∈ l <-> x ∈ k) -> pack_set_hash blake3 l = pack_set_hash blake3 k.
Proof.
  intros H. unfold pack_set_hash. destruct (sorted_hashes l) as [S1 E1], (sorted_hashes k) as [S2 E2]. do 5 f_equal. apply strict_unique; [done..|].
  intros x. by rewrite E1, E2.
Qed.
Lemma distinct_packs_elem (m : RepositoryManifest) (o : RemoteObjectRef) : o ∈ distinct_packs m -> o ∈ map rm_object (man_remote_locations m).
Proof. intros H%dedup_adjacent_elem. by rewrite sort_by_perm in H. Qed.
Lemma distinct_packs_hashes (m : RepositoryManifest) (h : Hash) :
  h ∈ map ro_content_hash (distinct_packs m) <-> exists l, l ∈ man_remote_locations m /\ ro_content_hash (rm_object l) = h.
Proof.
  rewrite list_elem_of_fmap. split.
  - intros (o & -> & (l & -> & Hl)%distinct_packs_elem%list_elem_of_fmap). eauto.
  - intros (l & Hl & <-). assert (Hs : rm_object l ∈ sort_by (fun a b => ro_content_hash a <=? ro_content_hash b) (map rm_object (man_remote_locations m))).
    { rewrite sort_by_perm. apply list_elem_of_fmap. eauto. }
    apply (dedup_adjacent_key ro_content_hash) in Hs as (o & Ho & E). exists o. by split.
Qed.

(** ** What publication leaves behind *)
Lemma validate_manifest_counts (upper : Z -> list Z) (m : RepositoryManifest) : validate_manifest upper m = Ok tt -> limits_allow DecodeLimits_default m /\ lengths_fit m.
Proof.
  unfold validate_manifest. destruct (negb _); [done|]. destruct (_ || _); [done|].
  intros ([] & C1%check_count_Ok & ([] & C2%check_count_Ok & ([] & C3%check_count_Ok & ([] & C4%check_count_Ok & ([] & C5%check_count_Ok & _)%bind_Ok_inv)%bind_Ok_inv)%bind_Ok_inv)%bind_Ok_inv)%bind_Ok_inv.
  unfold directories_len in C1. unfold limits_allow, lengths_fit, DecodeLimits_default, limits_allow. cbn [max_directories max_files max_extents max_pages max_remote_locations].
  unfold MAX_DIRECTORIES, MAX_FILES, MAX_EXTENTS, MAX_PAGES, MAX_REMOTE_LOCATIONS, u64_max in *. split_and!; lia.
Qed.
Lemma collect_Ok {A B : Type} (f : A -> result B) (l : list A) (k : list B) : collect f l = Ok k -> Forall2 (fun a b => f a = Ok b) l k.
Proof.
  revert k. unfold collect. induction l as [|x l IH]; intros k; cbn [foldr]; [by intros <-%Ok_inj|].
  intros (y & Hy & (ys & Hys & <-%Ok_inj)%bind_Ok_inv)%bind_Ok_inv. constructor; auto.
Qed.
Lemma place_location_inv (packs : list RemoteObjectRef) (l l' : RemoteLocation) : place_location packs l = Ok l' ->
  rm_object l' ∈ packs /\ ro_content_hash (rm_object l') = ro_content_hash (rm_object l) /\ rm_offset l' = rm_offset l /\ rm_encoded_length l' = rm_encoded_length l.
Proof.
  intros (o & [Hin He]%ok_or_Ok_inv%List.find_some & <-%Ok_inj)%bind_Ok_inv. cbn. zbool. split; [by apply list_elem_of_In|done].
Qed.

Section publication_facts.
Context {C : Cbor} {L : CborLaws C} {W : Type} {B : ObjectBackend W} (blake3 : list Z -> Hash) (upper : Z -> list Z).
Context {window repository : Z} {K : BackendContract B blake3 window repository}.

(** One world after another: objects stay, new ones are of kind [k]. *)
Definition accrues (k : ObjectKind) (w w' : W) : Prop :=
  (forall o b, holds w o b -> holds w' o b) /\ (forall o b, holds w' o b -> holds w o b \/ ro_kind o = k) /\
  (k <> KCommit -> forall l, enumerate_commits w repository = inr l -> exists l', enumerate_commits w' repository = inr l' /\ l' ≡ₚ l).
Lemma accrues_refl (k : ObjectKind) (w : W) : accrues k w w.
Proof. split_and!; eauto. Qed.
Lemma accrues_trans (k : ObjectKind) (w1 w2 w3 : W) : accrues k w1 w2 -> accrues k w2 w3 -> accrues k w1 w3.
Proof.
  intros (A1 & A2 & A3) (B1 & B2 & B3). split_and!; [auto| |].
  - intros o b [H|?]%B2; [auto|by right].
  - intros Hk l (l2 & E2 & P2)%A3; [|done]. destruct (B3 Hk l2 E2) as (l3 & E3 & P3). exists l3. split; [done|by rewrite P3].
Qed.
Lemma put_accrues (k : ObjectKind) (src : UploadSource) (h : Hash) (c : bool) (w w' : W) (r : bresult RemoteObjectRef) :
  put_immutable k src h c w = (r, w') -> accrues k w w'.
Proof.
  intros E. split_and!; [intros o b; by eapply put_keeps|intros o b; by eapply put_new|].
  intros Hk l El. by eapply commits_other.
Qed.
Lemma read_complete_holds (w : W) (o : RemoteObjectRef) (b : list Z) (maximum : Z) :
  holds w o b -> Z.of_nat (length b) <= maximum -> Z.of_nat (length b) <= window -> Z.of_nat (length b) <= u64_max -> read_complete w o maximum = Ok b.
Proof.
  intros Hh Hm Hw Hu. destruct (holds_identity w o b Hh) as (Hb & Hl & _). unfold read_complete. rewrite Hl, (proj2 (Z.ltb_ge _ _)) by lia.
  unfold CheckedRange_new. rewrite checked_add_fits by lia. cbn [mbind result_bind].
  destruct (read_holds w o b 0 (Z.of_nat (length b)) Hh) as (rd & -> & _ & _ & [Hr1 _] & Hr2); [lia|destruct b; [done|cbn; lia]|lia|lia|].
  cbn [from_backend mbind result_bind]. unfold collect_bounded. rewrite Hr1, (proj2 (Z.ltb_ge _ _)), Hr2 by lia. unfold zslice. rewrite drop_0, take_ge by lia. done.
Qed.

Definition pack_typed (p : CompletedPack) : Prop := 0 <= cp_content_hash p < 2 ^ 256 /\ forall src, cp_source p = Ok src -> in_u64 (up_length src).
Lemma publish_packs_spec (packs : list CompletedPack) (w w' : W) (rs : list RemoteObjectRef) :
  Forall pack_typed packs -> publish_packs blake3 packs w = (Ok rs, w') ->
  accrues KPack w w' /\ map ro_content_hash rs = map cp_content_hash packs /\ Forall (fun r => object_typed r /\ exists b, holds w' r b) rs.
Proof.
  intros Ht. revert w w' rs. induction Ht as [|p packs [Hh Hl] Ht IH]; intros w w' rs; cbn [publish_packs].
  - intros [= <- <-]. split_and!; [apply accrues_refl|done..].
  - intros (src & Hsrc & (o & w1 & Hp & (s & _ & ([] & _ & ([] & _ & (rest & w2 & (G & Em & Hr)%IH & [= <- <-])%io_bind_inv)%io_read_inv)%io_pure_inv)%io_read_inv)%io_put_inv)%io_pure_inv.
    pose proof (Hl _ Hsrc) as Hu. destruct (put_holds _ _ _ _ _ _ Hu Hp) as (_ & Hc & b & Hb & _). pose proof G as (Hk & _). split_and!.
    + eapply accrues_trans; [by eapply put_accrues|done].
    + cbn [map]. by rewrite Hc, Em.
    + constructor; [|done]. split; [by eapply put_typed|]. exists b. by apply Hk.
Qed.
Lemma place_locations_spec (rs : list RemoteObjectRef) (m m' : RepositoryManifest) : Forall object_typed rs -> manifest_value m -> place_locations rs m = Ok m' ->
  manifest_value m' /\ man_repository_id m' = man_repository_id m /\ Forall (fun l => rm_object l ∈ rs) (man_remote_locations m') /\
  Forall2 (fun l l' => ro_content_hash (rm_object l') = ro_content_hash (rm_object l)) (man_remote_locations m) (man_remote_locations m').
Proof.
  intros Ht Hm (ls & Hls%collect_Ok & <-%Ok_inj)%bind_Ok_inv. destruct Hm as (M1 & M2 & M3 & M4 & M5 & M6 & M7 & M8 & M9).
  rewrite Forall_forall in Ht.
  assert (Hls' : Forall (fun l => rm_object l ∈ rs) ls /\ Forall2 (fun l l' => ro_content_hash (rm_object l') = ro_content_hash (rm_object l)) (man_remote_locations m) ls /\
                 Forall (fun l => object_typed (rm_object l) /\ in_u64 (rm_offset l) /\ in_u64 (rm_encoded_length l)) ls).
  { clear -Ht M9 Hls. induction Hls as [|l l' t t' Hl _ IH]; [done|]. apply Forall_cons in M9 as [(_ & M9a & M9b) M9]. destruct (IH M9) as (I1 & I2 & I3).
    apply place_location_inv in Hl as (P1 & P2 & P3 & P4). split_and!; constructor; try done. rewrite P3, P4. split_and!; [by apply Ht|done..]. }
  destruct Hls' as (L1 & L2 & L3). cbn [man_repository_id man_remote_locations]. split_and!; [|done..].
  unfold manifest_value. cbn. exact (conj M1 (conj M2 (conj M3 (conj M4 (conj M5 (conj M6 (conj M7 (conj M8 L3)))))))).
Qed.
(** A commit that was published is valid and can be read back. *)
Lemma publish_commit_spec (message : string) (body : UnsignedCommitBody) (signer : CommitSigner) (verifier : CommitVerifier) (w w' : W) (o : RemoteObjectRef) (h : Hash)
    (c : RepositoryCommit) : signer_matches signer verifier -> publish_commit blake3 message body signer w = (Ok (o, h, c), w') ->
  cm_body c = body /\ validate_commit c verifier = Ok tt /\ commit_hash blake3 c = Ok h /\ accrues KCommit w w' /\
  (cb_repository_id body = repository -> valid_commit w' repository verifier o = Some c) /\
  (forall l, enumerate_commits w repository = inr l -> exists l', enumerate_commits w' repository = inr l' /\ (o ∈ l /\ l' ≡ₚ l \/ l' ≡ₚ o :: l)).
Proof.
  intros Hs (c' & Hc & (bytes & Hb & (h' & Hh & (o' & w1 & Hp & (read & Hr & ([] & Hd & [= -> -> -> ->])%io_pure_inv)%io_read_inv)%io_put_inv)%io_pure_inv)%io_pure_inv)%io_pure_inv.
  destruct (sign_validates _ _ _ _ Hs Hc) as [Hbody Hv]. case_bool_decide as He; [|done]. cbn [negb] in Hd. subst read.
  apply bind_Ok_inv in Hd as (d & Hd & E%fail_if_Ok_inv). case_bool_decide as Ed; [|done]. subst d.
  assert (Hlen : Z.of_nat (length bytes) <= MAX_COMMIT_BYTES) by (unfold decode_commit_bounded in Hd; destruct (Z.ltb_spec MAX_COMMIT_BYTES (Z.of_nat (length bytes))); [done|lia]).
  destruct (put_holds KCommit (UploadSource_from_bytes bytes) h w o w') as (Hk & _); [cbn; unfold MAX_COMMIT_BYTES, in_u64, u64_max in *; lia|done|].
  split_and!; [done..|by eapply put_accrues| |].
  - intros Hrep. unfold valid_commit. rewrite Hk, bool_decide_true by done. cbn [negb]. rewrite Hr, Hd, Hbody, Hrep, Z.eqb_refl, Hv. done.
  - intros l El. by eapply commits_put.
Qed.

Lemma check_recovered_packs (w : W) (packs : list RemoteObjectRef) : Forall (fun o => exists b, holds w o b) packs -> for_each (check_recovered_pack w) packs = Ok tt.
Proof.
  intros H. apply for_each_Ok. eapply Forall_impl; [exact H|]. intros o (b & Hb). unfold check_recovered_pack. destruct (stat_holds w o b Hb) as (s & -> & E1 & E2).
  cbn [from_backend mbind result_bind]. by rewrite E1, E2, !Z.eqb_refl.
Qed.
(** A head whose manifest and packs are held is recovered. *)
Lemma recover_head_held (w : W) (chain : list RepositoryCommit) (head : RepositoryCommit) (h : Hash) (m : RepositoryManifest) :
  last chain = Some head -> commit_hash blake3 head = Ok h -> manifest_value m -> man_repository_id m = repository ->
  manifest_hash blake3 upper m = Ok (cb_manifest_hash (cm_body head)) -> holds w (cb_manifest_object (cm_body head)) (encode_manifest_inner m) ->
  Z.of_nat (length (encode_manifest_inner m)) <= Z.min window (256 * 1024 * 1024) ->
  Forall (fun l => exists b, holds w (rm_object l) b) (man_remote_locations m) ->
  pack_set_hash blake3 (map ro_content_hash (distinct_packs m)) = cb_referenced_pack_set_hash (cm_body head) ->
  recover_head blake3 upper w repository chain = Ok (mkRecovered chain h m (cb_manifest_object (cm_body head)) (length (distinct_packs m))).
Proof.
  intros Hlast Hh Hm Hrep Hhash Hobj Hlen Hpacks Hset. unfold recover_head. rewrite Hlast. cbn [ok_or mbind result_bind].
  rewrite (read_complete_holds w _ (encode_manifest_inner m)) by (done || unfold u64_max; lia). cbn [mbind result_bind].
  assert (Hv : validate_manifest upper m = Ok tt) by (apply bind_Ok_inv in Hhash as (? & ([] & ? & _)%bind_Ok_inv & _); done).
  destruct (validate_manifest_counts upper m Hv) as [Hl1 Hl2]. rewrite decode_encoded by (done || cbn; lia). cbn [mbind result_bind].
  rewrite Hrep, Z.eqb_refl, Hhash. cbn [negb mbind result_bind]. rewrite Z.eqb_refl. cbn [negb fail_if mbind result_bind].
  rewrite check_recovered_packs. 2:{ apply Forall_forall. intros o (l & -> & Hl)%distinct_packs_elem%list_elem_of_fmap. rewrite Forall_forall in Hpacks. by apply Hpacks. }
  cbn [mbind result_bind]. rewrite Hset, Z.eqb_refl, Hh. done.
Qed.
(** A repository with one commit, a trust root. *)
Lemma recover_single (w : W) (verifier : CommitVerifier) (o : RemoteObjectRef) (c : RepositoryCommit) (h : Hash) :
  enumerate_commits w repository = inr [o] -> valid_commit w repository verifier o = Some c -> validate_commit c verifier = Ok tt -> commit_hash blake3 c = Ok h ->
  cb_sequence (cm_body c) = 0 -> cb_parent_commit (cm_body c) = None ->
  recover_repository blake3 upper w repository verifier = recover_head blake3 upper w repository [c].
Proof.
  intros He Hv Hok Hh Hs Hp. unfold recover_repository, recover_repository_with_hints, commit_references. rewrite He. cbn [from_backend mbind result_bind no_hints cached_commit latest_hint hint_list app sort_by insert_by dedup_adjacent].
  cbn [omap list_omap]. rewrite Hv. unfold trust_roots. cbn [List.filter]. rewrite Hs, Hp, bool_decide_true by done. cbn [Z.eqb andb sort_by insert_by negb].
  unfold select_highest_valid_chain. rewrite Hok. cbn [length chain_loop]. rewrite Hh. cbn. done.
Qed.

(** C19: What is published is recovered.  On any backend that keeps its contract
    and holds no commit of the repository, a base generation whose publication
    succeeds is what recovery then returns: the chain of its commit, the hash
    of that commit and the published manifest, each of whose locations keeps the
    content hash it had in the plan, is in one of the packs, and names an object
    the backend holds.  It supposes that every pack of the plan is referenced by
    the manifest, that the manifest fits one read of the backend, and that the
    backend holds no manifest with the same hash and other bytes. *)
Theorem published_generation_recovers (w w' : W) (packs : list CompletedPack) (m : RepositoryManifest) (signer : CommitSigner) (verifier : CommitVerifier) (now : result Z)
    (g : PublishedGeneration)
    (Hempty : enumerate_commits w (man_repository_id m) = inr []) (Hrepository : man_repository_id m = repository) (Hsigner : signer_matches signer verifier)
    (Hvalue : manifest_value m) (Hpacks : Forall pack_typed packs)
    (Hreferenced : Forall (fun p => exists l, l ∈ man_remote_locations m /\ ro_content_hash (rm_object l) = cp_content_hash p) packs)
    (Hrun : publish_base_generation blake3 upper packs m signer now w = (Ok g, w'))
    (Hsize : Z.of_nat (length (encode_manifest_inner (pg_published_manifest g))) <= Z.min window (256 * 1024 * 1024))
    (Hcollision : forall o b, holds w o b -> ro_kind o = KManifest -> blake3 b = blake3 (encode_manifest_inner (pg_published_manifest g)) ->
                  b = encode_manifest_inner (pg_published_manifest g)) :
  recover_repository blake3 upper w' (man_repository_id m) verifier =
    Ok (mkRecovered [pg_commit_body g] (pg_commit_hash g) (pg_published_manifest g) (pg_manifest g) (length (distinct_packs (pg_published_manifest g)))) /\
  Forall2 (fun l l' => ro_content_hash (rm_object l') = ro_content_hash (rm_object l)) (man_remote_locations m) (man_remote_locations (pg_published_manifest g)) /\
  Forall (fun l => ro_content_hash (rm_object l) ∈ map cp_content_hash packs /\ exists b, holds w' (rm_object l) b) (man_remote_locations (pg_published_manifest g)).
Proof.
  rewrite Hrepository in *. apply io_pure_inv in Hrun as ([] & _ & Hrun). apply io_bind_inv in Hrun as (rs & w1 & Hrs & Hrun).
  apply publish_packs_spec in Hrs as (G1 & Eh & Hrs); [|done].
  apply io_pure_inv in Hrun as (pm & Hpm & Hrun). apply place_locations_spec in Hpm as (Vm & Rm & Lm & Fm); [|eapply Forall_impl; [exact Hrs|by intros ? []]|done].
  apply io_pure_inv in Hrun as (mb & Hmb & Hrun). apply io_pure_inv in Hrun as (mh & Hmh & Hrun). apply io_put_inv in Hrun as (mo & w2 & Hmo & Hrun).
  apply io_read_inv in Hrun as (ms & _ & Hrun). apply io_pure_inv in Hrun as ([] & _ & Hrun). apply io_read_inv in Hrun as ([] & _ & Hrun).
  pose proof (put_accrues _ _ _ _ _ _ _ Hmo) as G2. destruct (proj2 (proj2 G1) ltac:(done) _ Hempty) as (l1 & E1 & ->%Permutation_nil_r).
  destruct (proj2 (proj2 G2) ltac:(done) _ E1) as (l2 & E2 & ->%Permutation_nil_r).
  apply io_read_inv in Hrun as (existing & Hex & Hrun). unfold find_committed in Hex. rewrite Hrepository, E2 in Hex. apply Ok_inj in Hex as <-.
  apply io_pure_inv in Hrun as (created & _ & Hrun). apply io_bind_inv in Hrun as ([[co h] c] & w3 & Hco & [= <- <-]).
  cbn [pg_published_manifest pg_commit_body pg_commit_hash pg_manifest] in *.
  assert (Emb : mb = encode_manifest_inner pm) by (by apply bind_Ok_inv in Hmb as ([] & _ & <-%Ok_inj)).
  assert (Emh : mh = blake3 mb) by (unfold manifest_hash in Hmh; rewrite Hmb in Hmh; by apply Ok_inj in Hmh). subst mb.
  destruct (publish_commit_spec _ _ _ verifier _ _ _ _ _ Hsigner Hco) as (Hbody & Hcv & Hch & G3 & Hvc & Hen).
  destruct (put_holds KManifest (UploadSource_from_bytes (encode_manifest_inner pm)) mh w1 mo w2) as (Hmk & Hmc & b & Hb & Hor); [cbn; unfold in_u64, u64_max; lia|done|].
  assert (b = encode_manifest_inner pm) as ->.
  { destruct (holds_identity w2 mo b Hb) as (_ & _ & Hi). destruct Hor as [Hold|Hc].
    - apply (proj1 (proj2 G1)) in Hold as [Hold|Hk]; [apply (Hcollision mo b Hold); congruence|congruence].
    - destruct (encode_manifest_inner pm) as [|x t]; [done|]. cbn [UploadSource_from_bytes up_stream] in Hc. rewrite collect_from_bytes in Hc by done. by injection Hc. }
  destruct (Hen [] E2) as (l3 & E3 & [[Hin _]|El3%Permutation_singleton_r]); [by apply not_elem_of_nil in Hin|]. subst l3.
  assert (Hk : forall o b, holds w1 o b -> holds w3 o b) by (intros o b0 H%(proj1 G2); by apply (proj1 G3)).
  split; cycle 1.
  { split; [done|]. eapply Forall_impl; [exact Lm|]. intros l Hl. split; [rewrite <-Eh; apply list_elem_of_fmap; by exists (rm_object l)|].
    destruct (proj1 (Forall_forall _ _) Hrs _ Hl) as (_ & b & Hb1). eauto. }
  rewrite (recover_single w3 verifier co c h); [|done|by apply Hvc|done|done|by rewrite Hbody..].
  replace mo with (cb_manifest_object (cm_body c)) by (by rewrite Hbody). apply recover_head_held; [done|done|done|congruence| | |done| |]; rewrite ?Hbody; cbn [cb_manifest_hash cb_manifest_object cb_referenced_pack_set_hash].
  - congruence.
  - by apply (proj1 G3).
  - eapply Forall_impl; [exact Lm|]. intros l Hl. destruct (proj1 (Forall_forall _ _) Hrs _ Hl) as (_ & b & Hb1). eauto.
  - apply pack_set_hash_set. intros x. rewrite distinct_packs_hashes. rewrite Eh, list_elem_of_fmap. split.
    + intros (l & Hl & <-). apply list_elem_of_fmap. change (_ <$> packs) with (map cp_content_hash packs). rewrite <- Eh. apply list_elem_of_fmap. exists (rm_object l).
      split; [done|]. exact (proj1 (Forall_forall _ _) Lm l Hl).
    + intros (p & -> & Hp). destruct (proj1 (Forall_forall _ _) Hreferenced p Hp) as (l & Hl & <-).
      apply list_elem_of_lookup in Hl as (i & Hi). destruct (Forall2_lookup_l _ _ _ _ _ Fm Hi) as (l' & Hi' & E). exists l'. split; [by eapply list_elem_of_lookup_2|done].
Qed.
End publication_facts.

(** ** A local repository *)
Definition demo_pack_bytes : list Z := [7; 8; 9; 10].
Definition demo_pack (bytes : list Z) : CompletedPack := mkPack (Ok (UploadSource_from_bytes bytes)) (sum256 bytes) (Z.of_nat (length bytes)).
Definition demo_manifest : RepositoryManifest :=
  mkManifest 2 9 1 65536 [mkMDirectory None []] [mkMFile 0 (chars "level.pak") 3 101 VirtualContainer 0 1] [mkMExtent 0 3 0 1] [mkMPage 11 3 0]
    [mkRemoteLocation (mkRemote "plan" "pack" None 4 (sum256 demo_pack_bytes) KPack) 1 3 CNone].
Definition demo_publish (packs : list CompletedPack) : result PublishedGeneration * LocalFiles :=
  publish_base_generation (C := rfc_cbor) (B := local_backend sum256 9) sum256 ascii_upper packs demo_manifest demo_signer (Ok 1700000000000000000) ∅.
Definition demo_recover (w : LocalFiles) : result RecoveredRepository :=
  recover_repository (C := rfc_cbor) (B := local_backend sum256 9) sum256 ascii_upper w 9 demo_verifier.

(** Publishing a second time finds the commit that is there. *)
Example republish_is_idempotent :
  match demo_publish [demo_pack demo_pack_bytes] with
  | (Ok g, w) => match publish_base_generation (C := rfc_cbor) (B := local_backend sum256 9) sum256 ascii_upper [demo_pack demo_pack_bytes] demo_manifest demo_signer
                         (Ok 1800000000000000000) w with
                 | (Ok g', w') => bool_decide (pg_commit_hash g' = pg_commit_hash g) && bool_decide (w' = w)
                 | _ => false
                 end
  | _ => false
  end = true.
Proof. vm_compute. reflexivity. Qed.
(** A plan with a pack that no location references is published and then not
    recovered: the commit hashes the packs of the plan, recovery those of the
    manifest. *)
Example unreferenced_pack_unrecoverable :
  match demo_publish [demo_pack demo_pack_bytes; demo_pack [1; 2; 3]] with
  | (Ok g, w) => demo_recover w = Err (integrity_mismatch "commit pack-set hash differs from recovered manifest")
  | _ => False
  end.
Proof. vm_compute. reflexivity. Qed.
(** The local backend serves at most 16 MiB at once, and recovery reads a
    manifest at once. *)
Lemma local_large_manifest_unreadable (blake3 : list Z -> Hash) (repository_id maximum : Z) (w : LocalFiles) (o : RemoteObjectRef) :
  READ_CHUNK_LIMIT < ro_byte_length o -> exists e, read_complete (B := local_backend blake3 repository_id) w o maximum = Err e.
Proof.
  intros H. unfold read_complete. destruct (maximum <? _); [eauto|]. unfold CheckedRange_new. destruct (checked_add _ _); cbn [mbind result_bind]; [|eauto].
  cbn [read_range local_backend]. unfold local_read_range. cbn [cancelled_local be_fail_if mbind bresult_bind len]. rewrite (proj2 (Z.ltb_lt _ _) H). cbn. eauto.
Qed.

Lemma published_generation_recovers_witness :
  exists g w', demo_publish [demo_pack demo_pack_bytes] = (Ok g, w') /\
    demo_recover w' = Ok (mkRecovered [pg_commit_body g] (pg_commit_hash g) (pg_published_manifest g) (pg_manifest g) (length (distinct_packs (pg_published_manifest g)))).
Proof.
  assert (E : match demo_publish [demo_pack demo_pack_bytes] with
              | (Ok g, _) => Z.of_nat (length (encode_manifest_inner (C := rfc_cbor) (pg_published_manifest g))) <=? 65536 | _ => false end = true) by (vm_compute; reflexivity).
  destruct (demo_publish [demo_pack demo_pack_bytes]) as [[g|] w'] eqn:Er; [|done]. exists g, w'. split; [done|].
  refine (proj1 (published_generation_recovers (L := rfc_cbor_laws) (K := local_contract sum256 9) sum256 ascii_upper ∅ w' [demo_pack demo_pack_bytes] demo_manifest demo_signer demo_verifier
           (Ok 1700000000000000000) g _ _ _ _ _ _ _ _ _)).
  - vm_compute. reflexivity.
  - reflexivity.
  - apply test_signer_matches.
  - apply (decode_manifest_typed (L := rfc_cbor_laws) ascii_upper DecodeLimits_default (encode_manifest_inner (C := rfc_cbor) demo_manifest) demo_manifest).
    + vm_compute. repeat constructor.
    + vm_compute. reflexivity.
  - apply Forall_singleton. split; [apply sum256_bound|]. intros src [= <-]. split; vm_compute; congruence.
  - apply Forall_singleton. eexists. split; [by left|reflexivity].
  - exact Er.
  - apply Z.leb_le in E. unfold READ_CHUNK_LIMIT. lia.
  - intros o b ((path & _ & Hl) & _). by rewrite lookup_empty in Hl.
Defined.
