(* ===== verification/LifecycleDb.v ===== *)
(** * Repositories, generations, updates, sessions and pins

    The tables of [mirage-db] that keep the lifecycle of a repository:
    [repository.rs], [generation.rs], [update.rs], [session.rs] and [pin.rs]
    over [migrations/0002], [0004], [0005] and [0007], with the codecs of
    [state_codec.rs] and [value.rs]; and the activation of a generation by the
    engine ([update/activate.rs]).

    A table is a map from its primary key; an operation returns the new tables
    with its result and an error leaves them as they were.  The partial unique
    index, the foreign keys and the trigger that guards sealed sessions are
    spelled out; the length checks of the schema are weaker than the bounds the
    operations check and are left out.  A path is its text, or [None] when it
    is not UTF-8.

    Proved over every sequence of operations: the active generation of a
    repository is a verified row with its commit hash, a repository has at most
    one unfinished update, the event log of an update replays to its state, and
    a session holds all its leases until it completes and none once it is
    finished.  An activation that fails leaves the generation that was active,
    if there was one. *)
From S2P Require Export StateMachines SlotTable IndexNames Bytes.
From Stdlib Require Import Ascii.

(** ** Values *)
Definition Path : Set := option string.
Definition text_len (s : string) : Z := Z.of_nat (length (chars s)).
Definition text_chars (s : string) : list Z := default [] (from_utf8 (chars s)).
Definition path_text (path : Path) : result string :=
  match path with
  | Some s => if (0 <? text_len s) && (text_len s <=? 32767) then Ok s else Err (invalid_argument "database path must be bounded valid UTF-8")
  | None => Err (invalid_argument "database path must be bounded valid UTF-8")
  end.
Definition path_text_opt (path : option Path) : result (option string) :=
  match path with Some p => s ← path_text p; Ok (Some s) | None => Ok None end.
Definition stored_path (value : string) : result string :=
  if (text_len value =? 0) || (32767 <? text_len value) then Err (integrity_mismatch "stored database path is empty or oversized") else Ok value.
Definition stored_path_opt (value : option string) : result (option string) :=
  match value with Some v => s ← stored_path v; Ok (Some s) | None => Ok None end.
Definition bounded_text (value : string) (minimum maximum : Z) (label : string) : result () :=
  if (minimum <=? text_len value) && (text_len value <=? maximum) && negb (existsb is_control (text_chars value)) then Ok tt
  else Err (invalid_argument (label +:+ " is empty, oversized, or contains control characters")).
(** [char::is_whitespace]: the characters with the property White_Space. *)
Definition is_whitespace (c : Z) : bool :=
  ((9 <=? c) && (c <=? 13)) || (c =? 32) || (c =? 133) || (c =? 160) || (c =? 5760) || ((8192 <=? c) && (c <=? 8202)) ||
  (c =? 8232) || (c =? 8233) || (c =? 8239) || (c =? 8287) || (c =? 12288).
Definition starts_with (prefix s : list Z) : bool := bool_decide (take (length prefix) s = prefix).
Definition sid_byte (b : Z) : bool := ((48 <=? b) && (b <=? 57)) || (b =? 83) || (b =? 45).
Definition validate_owner_sid (value : string) : result () :=
  _ ← bounded_text value 5 256 "repository owner SID";
  fail_if (negb (starts_with (chars "S-") (chars value)) || existsb is_whitespace (text_chars value) || negb (forallb sid_byte (chars value)))
    (invalid_argument "repository owner SID is malformed").
Definition transition_rejected {A : Type} (r : TransitionError + A) : result A :=
  match r with inr a => Ok a | inl _ => Err (repository_conflict "durable state transition was rejected") end.

(** ** [state_codec.rs] *)
Definition RepositoryState_ALL : list Repository.RepositoryState :=
  [Repository.Uninitialized; Repository.Importing; Repository.UploadingBase; Repository.VerifyingBase; Repository.ReadyUnmounted; Repository.Mounting;
   Repository.ReadyMounted; Repository.AdmittingSession; Repository.PlayingSealed; Repository.PlayingBalanced; Repository.Updating;
   Repository.Recovering; Repository.Degraded; Repository.Conflicted; Repository.Error].
Definition SessionState_ALL : list Session.SessionState :=
  [Session.Planned; Session.Reserving; Session.Materializing; Session.Verifying; Session.SealedReady; Session.Launching; Session.Active;
   Session.DrainingHelpers; Session.Completed; Session.Violated; Session.Aborted].
Definition UpdateState_ALL : list Update.UpdateState :=
  [Update.Created; Update.NativeSnapshotInProgress; Update.Applying; Update.DirtyPagesPresent; Update.Staging; Update.AllContentStaged;
   Update.ManifestUploaded; Update.CommitUploaded; Update.CommitVerified; Update.LocalActivationPending; Update.Committed;
   Update.RollbackPending; Update.RolledBack; Update.RecoveryRequired].
Definition codec_repository (value : string) : result Repository.RepositoryState :=
  ok_or (integrity_mismatch "database repository state is unknown") (List.find (fun s => bool_decide (Repository.RepositoryState_as_str s = value)) RepositoryState_ALL).
Definition codec_session (value : string) : result Session.SessionState :=
  ok_or (integrity_mismatch "database session state is unknown") (List.find (fun s => bool_decide (Session.SessionState_as_str s = value)) SessionState_ALL).
Definition codec_update (value : string) : result Update.UpdateState :=
  ok_or (integrity_mismatch "database update state is unknown") (List.find (fun s => bool_decide (Update.UpdateState_as_str s = value)) UpdateState_ALL).

Inductive VolumeMode : Set := Legacy | Managed.
Definition VolumeMode_as_str (m : VolumeMode) : string := match m with Legacy => "legacy" | Managed => "managed" end.
Definition VolumeMode_parse (value : string) : result VolumeMode :=
  ok_or (integrity_mismatch "database repository volume mode is unknown") (List.find (fun m => bool_decide (VolumeMode_as_str m = value)) [Legacy; Managed]).

(** ** Tables *)
Record RepositoryRow : Set := mkRepositoryRow {
  rp_display_name : string; rp_local_root : string; rp_active_generation : option Z; rp_active_commit_hash : option Hash; rp_state : string;
  rp_created_at_ns : Z; rp_updated_at_ns : Z; rp_owner_sid : string; rp_content_encrypted : Z; rp_volume_mode : string
}.
Record GenerationRow : Set := mkGenerationRow {
  gn_commit_hash : Hash; gn_manifest_hash : Hash; gn_manifest_local_path : string; gn_mount_index_path : option string; gn_verified : Z; gn_created_at_ns : Z
}.
Record UpdateRow : Set := mkUpdateRow {
  up_repository_id : Z; up_base_generation : Z; up_target_generation : Z; up_state : string; up_journal_path : string; up_created_at_ns : Z; up_updated_at_ns : Z
}.
Record EventRow : Set := mkEventRow { ev_kind : string; ev_details : string; ev_created_at_ns : Z }.
Record OverlayRow : Set := mkOverlayRow {
  ov_state : string; ov_arena_id : option Z; ov_slot_index : option Z; ov_page_hash : option Hash; ov_staging_object_key : option Hash;
  ov_staging_offset : option Z; ov_encoded_length : option Z
}.
Record SnapshotRow : Set := mkSnapshotRow { sn_snapshot_path : string; sn_byte_length : Z; sn_content_hash : Hash }.
Record SessionRow : Set := mkSessionRow {
  se_repository_id : Z; se_generation : Z; se_capsule_id : option Z; se_state : string; se_expected_lease_count : Z; se_started_at_ns : Z;
  se_ended_at_ns : option Z; se_seal_violation_count : Z; se_first_violation_summary : option string
}.
Record ProcessRow : Set := mkProcessRow { pr_started_at_ns : Z; pr_ended_at_ns : option Z }.

Record LifecycleDb : Set := mkLifecycleDb {
  lc_repositories : gmap Z RepositoryRow; lc_generations : gmap (Z * Z) GenerationRow; lc_updates : gmap Z UpdateRow; lc_events : gmap (Z * Z) EventRow;
  lc_overlay : gmap (Z * Z * Z) OverlayRow; lc_snapshots : gmap (Z * string) SnapshotRow; lc_sessions : gmap Z SessionRow;
  lc_processes : gmap (Z * Z) ProcessRow; lc_leases : gmap (Z * Hash) string; lc_pins : gset (Hash * (string * list Z)); lc_slots : SlotDb
}.
Definition empty_lifecycle : LifecycleDb := mkLifecycleDb ∅ ∅ ∅ ∅ ∅ ∅ ∅ ∅ ∅ ∅ empty_slots.
Definition with_repositories (t : gmap Z RepositoryRow) (d : LifecycleDb) : LifecycleDb :=
  mkLifecycleDb t (lc_generations d) (lc_updates d) (lc_events d) (lc_overlay d) (lc_snapshots d) (lc_sessions d) (lc_processes d) (lc_leases d) (lc_pins d) (lc_slots d).
Definition with_generations (t : gmap (Z * Z) GenerationRow) (d : LifecycleDb) : LifecycleDb :=
  mkLifecycleDb (lc_repositories d) t (lc_updates d) (lc_events d) (lc_overlay d) (lc_snapshots d) (lc_sessions d) (lc_processes d) (lc_leases d) (lc_pins d) (lc_slots d).
Definition with_updates (t : gmap Z UpdateRow) (d : LifecycleDb) : LifecycleDb :=
  mkLifecycleDb (lc_repositories d) (lc_generations d) t (lc_events d) (lc_overlay d) (lc_snapshots d) (lc_sessions d) (lc_processes d) (lc_leases d) (lc_pins d) (lc_slots d).
Definition with_events (t : gmap (Z * Z) EventRow) (d : LifecycleDb) : LifecycleDb :=
  mkLifecycleDb (lc_repositories d) (lc_generations d) (lc_updates d) t (lc_overlay d) (lc_snapshots d) (lc_sessions d) (lc_processes d) (lc_leases d) (lc_pins d) (lc_slots d).
Definition with_overlay (t : gmap (Z * Z * Z) OverlayRow) (d : LifecycleDb) : LifecycleDb :=
  mkLifecycleDb (lc_repositories d) (lc_generations d) (lc_updates d) (lc_events d) t (lc_snapshots d) (lc_sessions d) (lc_processes d) (lc_leases d) (lc_pins d) (lc_slots d).
Definition with_snapshots (t : gmap (Z * string) SnapshotRow) (d : LifecycleDb) : LifecycleDb :=
  mkLifecycleDb (lc_repositories d) (lc_generations d) (lc_updates d) (lc_events d) (lc_overlay d) t (lc_sessions d) (lc_processes d) (lc_leases d) (lc_pins d) (lc_slots d).
Definition with_sessions (t : gmap Z SessionRow) (d : LifecycleDb) : LifecycleDb :=
  mkLifecycleDb (lc_repositories d) (lc_generations d) (lc_updates d) (lc_events d) (lc_overlay d) (lc_snapshots d) t (lc_processes d) (lc_leases d) (lc_pins d) (lc_slots d).
Definition with_processes (t : gmap (Z * Z) ProcessRow) (d : LifecycleDb) : LifecycleDb :=
  mkLifecycleDb (lc_repositories d) (lc_generations d) (lc_updates d) (lc_events d) (lc_overlay d) (lc_snapshots d) (lc_sessions d) t (lc_leases d) (lc_pins d) (lc_slots d).
Definition with_leases (t : gmap (Z * Hash) string) (d : LifecycleDb) : LifecycleDb :=
  mkLifecycleDb (lc_repositories d) (lc_generations d) (lc_updates d) (lc_events d) (lc_overlay d) (lc_snapshots d) (lc_sessions d) (lc_processes d) t (lc_pins d) (lc_slots d).
Definition with_pins (t : gset (Hash * (string * list Z))) (d : LifecycleDb) : LifecycleDb :=
  mkLifecycleDb (lc_repositories d) (lc_generations d) (lc_updates d) (lc_events d) (lc_overlay d) (lc_snapshots d) (lc_sessions d) (lc_processes d) (lc_leases d) t (lc_slots d).

(** ** [repository.rs] *)
Record NewRepository : Set := mkNewRepository {
  nr_repository_id : Z; nr_display_name : string; nr_local_root : Path; nr_owner_sid : string; nr_content_encrypted : bool;
  nr_initial_state : Repository.RepositoryState; nr_created_at_ns : Z
}.
Definition set_active (g : option Z) (c : option Hash) (at_ns : Z) (r : RepositoryRow) : RepositoryRow :=
  mkRepositoryRow (rp_display_name r) (rp_local_root r) g c (rp_state r) (rp_created_at_ns r) at_ns (rp_owner_sid r) (rp_content_encrypted r) (rp_volume_mode r).
Definition repository_create (n : NewRepository) (d : LifecycleDb) : result (() * LifecycleDb) :=
  _ ← bounded_text (nr_display_name n) 1 256 "repository display name";
  _ ← validate_owner_sid (nr_owner_sid n);
  local_root ← path_text (nr_local_root n);
  match lc_repositories d !! nr_repository_id n with
  | Some _ => Err (sqlite "failed to create repository")
  | None =>
      Ok (tt, with_repositories
        (<[nr_repository_id n := mkRepositoryRow (nr_display_name n) local_root None None (Repository.RepositoryState_as_str (nr_initial_state n)) (nr_created_at_ns n)
             (nr_created_at_ns n) (nr_owner_sid n) (if nr_content_encrypted n then 1 else 0) "legacy"]> (lc_repositories d)) d)
  end.
(** [UPDATE repositories SET f WHERE repository_id AND p], with the row count. *)
Definition update_repository (id : Z) (p : RepositoryRow -> bool) (f : RepositoryRow -> RepositoryRow) (d : LifecycleDb) : Z * LifecycleDb :=
  match lc_repositories d !! id with
  | Some r => if p r then (1, with_repositories (<[id := f r]> (lc_repositories d)) d) else (0, d)
  | None => (0, d)
  end.
Definition set_owner_sid (repository_id : Z) (expected_owner_sid new_owner_sid : string) (d : LifecycleDb) : result (() * LifecycleDb) :=
  _ ← validate_owner_sid expected_owner_sid;
  _ ← validate_owner_sid new_owner_sid;
  let '(changed, d') := update_repository repository_id (fun r => bool_decide (rp_owner_sid r = expected_owner_sid))
    (fun r => mkRepositoryRow (rp_display_name r) (rp_local_root r) (rp_active_generation r) (rp_active_commit_hash r) (rp_state r) (rp_created_at_ns r)
                (rp_updated_at_ns r) new_owner_sid (rp_content_encrypted r) (rp_volume_mode r)) d in
  if negb (changed =? 1) then Err (conflict "repository owner changed concurrently") else Ok (tt, d').
Definition set_volume_mode (repository_id : Z) (mode : VolumeMode) (d : LifecycleDb) : result (() * LifecycleDb) :=
  let '(changed, d') := update_repository repository_id (fun _ => true)
    (fun r => mkRepositoryRow (rp_display_name r) (rp_local_root r) (rp_active_generation r) (rp_active_commit_hash r) (rp_state r) (rp_created_at_ns r)
                (rp_updated_at_ns r) (rp_owner_sid r) (rp_content_encrypted r) (VolumeMode_as_str mode)) d in
  if negb (changed =? 1) then Err (invalid_argument "repository does not exist") else Ok (tt, d').
Definition repository_set_state (repository_id : Z) (expected : Repository.RepositoryState) (event : Repository.RepositoryEvent) (updated_at_ns : Z) (d : LifecycleDb)
    : result (Repository.RepositoryState * LifecycleDb) :=
  row ← ok_or (invalid_argument "repository does not exist") (lc_repositories d !! repository_id);
  actual ← codec_repository (rp_state row);
  if negb (bool_decide (actual = expected)) then Err (conflict "repository state changed concurrently") else
  next ← transition_rejected (Repository.transition_repository actual event);
  let '(changed, d') := update_repository repository_id (fun r => bool_decide (rp_state r = Repository.RepositoryState_as_str actual))
    (fun r => mkRepositoryRow (rp_display_name r) (rp_local_root r) (rp_active_generation r) (rp_active_commit_hash r) (Repository.RepositoryState_as_str next)
                (rp_created_at_ns r) updated_at_ns (rp_owner_sid r) (rp_content_encrypted r) (rp_volume_mode r)) d in
  if negb (changed =? 1) then Err (conflict "repository state changed concurrently") else Ok (next, d').

Definition load_repository_owner_sid (d : LifecycleDb) (id : Z) : option string := rp_owner_sid <$> lc_repositories d !! id.
Definition load_repository_content_encrypted (d : LifecycleDb) (id : Z) : result (option bool) :=
  match lc_repositories d !! id with
  | None => Ok None
  | Some r => match rp_content_encrypted r with
              | 0 => Ok (Some false) | 1 => Ok (Some true) | _ => Err (integrity_mismatch "repository encryption policy is invalid")
              end
  end.
Definition load_repository_volume_mode (d : LifecycleDb) (id : Z) : result (option VolumeMode) :=
  match lc_repositories d !! id with None => Ok None | Some r => m ← VolumeMode_parse (rp_volume_mode r); Ok (Some m) end.
Definition load_repository_root (d : LifecycleDb) (id : Z) : result (option string) :=
  match lc_repositories d !! id with None => Ok None | Some r => p ← stored_path (rp_local_root r); Ok (Some p) end.
Definition load_repository_state (d : LifecycleDb) (id : Z) : result (option Repository.RepositoryState) :=
  match lc_repositories d !! id with None => Ok None | Some r => s ← codec_repository (rp_state r); Ok (Some s) end.
(** The pair of active columns. *)
Definition active_columns (r : RepositoryRow) : result (option (Z * Hash)) :=
  match rp_active_generation r, rp_active_commit_hash r with
  | None, None => Ok None
  | Some g, Some c => g' ← nonnegative g "active generation"; Ok (Some (g', c))
  | _, _ => Err (integrity_mismatch "repository active generation columns disagree")
  end.
Record RepositorySummary : Set := mkRepositorySummary { rs_repository_id : Z; rs_display_name : string; rs_state : Repository.RepositoryState; rs_active : option (Z * Hash) }.
Definition summarize (x : Z * RepositoryRow) : result RepositorySummary :=
  active ← active_columns x.2;
  s ← codec_repository (rp_state x.2);
  Ok (mkRepositorySummary x.1 (rp_display_name x.2) s active).
Fixpoint summarize_all (l : list (Z * RepositoryRow)) : result (list RepositorySummary) :=
  match l with [] => Ok [] | x :: l => s ← summarize x; rest ← summarize_all l; Ok (s :: rest) end.
Definition list_repositories (d : LifecycleDb) : result (list RepositorySummary) := summarize_all (sort_by_key fst (map_to_list (lc_repositories d))).

(** ** [generation.rs] *)
Record VerifiedGeneration : Set := mkVerifiedGeneration {
  vg_repository_id : Z; vg_generation_id : Z; vg_commit_hash : Hash; vg_manifest_hash : Hash; vg_manifest_local_path : Path; vg_mount_index_path : option Path;
  vg_created_at_ns : Z
}.
Record ActiveGeneration : Set := mkActiveGeneration {
  ag_repository_id : Z; ag_generation_id : Z; ag_commit_hash : Hash; ag_manifest_hash : Hash; ag_manifest_local_path : string; ag_mount_index_path : option string
}.
Record Activation : Set := mkActivation {
  ac_repository_id : Z; ac_target_generation : Z; ac_target_commit_hash : Hash; ac_expected_current : option (Z * Hash); ac_updated_at_ns : Z
}.
Definition load_verified_generation (d : LifecycleDb) (repository_id generation_id : Z) : result (option VerifiedGeneration) :=
  g ← sqlite_integer generation_id "generation";
  match lc_generations d !! (repository_id, g) with
  | Some r =>
      if negb (gn_verified r =? 1) then Ok None else
      path ← stored_path (gn_manifest_local_path r);
      index ← stored_path_opt (gn_mount_index_path r);
      Ok (Some (mkVerifiedGeneration repository_id generation_id (gn_commit_hash r) (gn_manifest_hash r) (Some path) (Some <$> index) (gn_created_at_ns r)))
  | None => Ok None
  end.
Definition insert_verified (v : VerifiedGeneration) (d : LifecycleDb) : result (() * LifecycleDb) :=
  g ← sqlite_integer (vg_generation_id v) "generation";
  manifest_path ← path_text (vg_manifest_local_path v);
  index_path ← path_text_opt (vg_mount_index_path v);
  match lc_generations d !! (vg_repository_id v, g) with
  | Some r =>
      if (gn_commit_hash r =? vg_commit_hash v) && (gn_manifest_hash r =? vg_manifest_hash v) && bool_decide (gn_manifest_local_path r = manifest_path) &&
         bool_decide (gn_mount_index_path r = index_path) && (gn_verified r =? 1)
      then Ok (tt, d) else Err (conflict "generation identity conflicts with an existing row")
  | None =>
      match lc_repositories d !! vg_repository_id v with
      | None => Err (sqlite "failed to insert verified generation")
      | Some _ => Ok (tt, with_generations (<[(vg_repository_id v, g) := mkGenerationRow (vg_commit_hash v) (vg_manifest_hash v) manifest_path index_path 1 (vg_created_at_ns v)]> (lc_generations d)) d)
      end
  end.
Definition generation_activate (a : Activation) (d : LifecycleDb) : result (() * LifecycleDb) :=
  target ← sqlite_integer (ac_target_generation a) "target generation";
  row ← ok_or (invalid_argument "repository does not exist") (lc_repositories d !! ac_repository_id a);
  current ← active_columns row;
  if negb (bool_decide (current = ac_expected_current a)) then Err (conflict "active generation changed concurrently") else
  target_row ← ok_or (invalid_argument "target generation does not exist") (lc_generations d !! (ac_repository_id a, target));
  if negb (gn_verified target_row =? 1) || negb (gn_commit_hash target_row =? ac_target_commit_hash a)
  then Err (conflict "activation target is unverified or has a different commit hash") else
  Ok (tt, with_repositories (<[ac_repository_id a := set_active (Some target) (Some (ac_target_commit_hash a)) (ac_updated_at_ns a) row]> (lc_repositories d)) d).
Definition load_active_generation (d : LifecycleDb) (repository_id : Z) : result (option ActiveGeneration) :=
  match lc_repositories d !! repository_id with
  | Some r =>
      match rp_active_generation r with
      | Some g =>
          match lc_generations d !! (repository_id, g) with
          | Some gr =>
              commit ← ok_or (sqlite "failed to load active generation") (rp_active_commit_hash r);
              g' ← nonnegative g "generation";
              path ← stored_path (gn_manifest_local_path gr);
              index ← stored_path_opt (gn_mount_index_path gr);
              Ok (Some (mkActiveGeneration repository_id g' commit (gn_manifest_hash gr) path index))
          | None => Ok None
          end
      | None => Ok None
      end
  | None => Ok None
  end.

(** ** [update.rs] *)
Record NewUpdateJournal : Set := mkNewUpdate {
  nu_update_id : Z; nu_repository_id : Z; nu_base_generation : Z; nu_target_generation : Z; nu_journal_path : Path; nu_created_at_ns : Z
}.
Record ActiveUpdate : Set := mkActiveUpdate {
  au_update_id : Z; au_repository_id : Z; au_base_generation : Z; au_target_generation : Z; au_state : Update.UpdateState
}.
Record OverlayPage : Set := mkOverlayPage {
  op_update_id : Z; op_file_id : Z; op_page_index : Z; op_state : Page.PageState; op_arena_slot : option (Z * Z); op_page_hash : option Hash;
  op_staging_object_key : option Hash; op_staging_offset : option Z; op_encoded_length : option Z
}.
Record NativeSnapshot : Set := mkNativeSnapshot {
  ns_update_id : Z; ns_relative_path : string; ns_snapshot_path : Path; ns_byte_length : Z; ns_content_hash : Hash
}.
Definition unfinished (r : UpdateRow) : bool := negb (bool_decide (up_state r = "committed") || bool_decide (up_state r = "rolled_back")).
Definition active_updates (d : LifecycleDb) (repository_id : Z) : list (Z * UpdateRow) :=
  List.filter (fun x => (up_repository_id x.2 =? repository_id) && unfinished x.2) (map_to_list (lc_updates d)).
(** [ORDER BY created_at_ns DESC LIMIT 1] *)
Definition load_active_update (d : LifecycleDb) (repository_id : Z) : result (option ActiveUpdate) :=
  match sort_by (fun a b => up_created_at_ns b.2 <=? up_created_at_ns a.2) (active_updates d repository_id) with
  | [] => Ok None
  | x :: _ =>
      base ← nonnegative (up_base_generation x.2) "base generation";
      target ← nonnegative (up_target_generation x.2) "target generation";
      s ← codec_update (up_state x.2);
      Ok (Some (mkActiveUpdate x.1 repository_id base target s))
  end.
Definition load_update_state (d : LifecycleDb) (update_id : Z) : result (option Update.UpdateState) :=
  match lc_updates d !! update_id with None => Ok None | Some r => s ← codec_update (up_state r); Ok (Some s) end.
(** The partial index [one_nonterminal_update_per_repository] refuses a second
    unfinished row. *)
Definition create_journal (n : NewUpdateJournal) (d : LifecycleDb) : result (() * LifecycleDb) :=
  base ← sqlite_integer (nu_base_generation n) "base generation";
  target ← sqlite_integer (nu_target_generation n) "target generation";
  if target <=? base then Err (invalid_argument "target generation must exceed base generation") else
  journal_path ← path_text (nu_journal_path n);
  match active_updates d (nu_repository_id n) with
  | _ :: _ => Err (MirageError_new UpdateActive (default_code UpdateActive) "repository already has an active update journal")
  | [] =>
      match lc_generations d !! (nu_repository_id n, base) with
      | Some g =>
          if negb (gn_verified g =? 1) then Err (conflict "update journal requires a verified base generation") else
          if bool_decide (is_Some (lc_updates d !! nu_update_id n)) then Err (sqlite "failed to create update journal") else
          if bool_decide (is_Some (lc_events d !! (nu_update_id n, 0))) then Err (sqlite "failed to create initial journal event") else
          Ok (tt, with_events (<[(nu_update_id n, 0) := mkEventRow "created" "" (nu_created_at_ns n)]> (lc_events d))
                    (with_updates (<[nu_update_id n := mkUpdateRow (nu_repository_id n) base target (Update.UpdateState_as_str Update.Created) journal_path
                                       (nu_created_at_ns n) (nu_created_at_ns n)]> (lc_updates d)) d))
      | None => Err (conflict "update journal requires a verified base generation")
      end
  end.
Definition opt_integer (v : option Z) (label : string) : result (option Z) :=
  match v with Some x => y ← sqlite_integer x label; Ok (Some y) | None => Ok None end.
Definition upsert_overlay (p : OverlayPage) (d : LifecycleDb) : result (() * LifecycleDb) :=
  file_id ← sqlite_integer (op_file_id p) "overlay file ID";
  staging_offset ← opt_integer (op_staging_offset p) "staging offset";
  encoded_length ← opt_integer (op_encoded_length p) "encoded length";
  if bool_decide (encoded_length = Some 0) || bool_decide (lc_updates d !! op_update_id p = None) then Err (sqlite "failed to persist overlay page") else
  Ok (tt, with_overlay (<[(op_update_id p, file_id, op_page_index p) :=
            mkOverlayRow (Page.PageState_as_str (op_state p)) (fst <$> op_arena_slot p) (snd <$> op_arena_slot p) (op_page_hash p) (op_staging_object_key p)
              staging_offset encoded_length]> (lc_overlay d)) d).
Definition upsert_snapshot (n : NativeSnapshot) (d : LifecycleDb) : result (() * LifecycleDb) :=
  _ ← bounded_text (ns_relative_path n) 1 32767 "snapshot relative path";
  snapshot_path ← path_text (ns_snapshot_path n);
  byte_length ← sqlite_integer (ns_byte_length n) "snapshot length";
  if bool_decide (lc_updates d !! ns_update_id n = None) then Err (sqlite "failed to persist native snapshot") else
  Ok (tt, with_snapshots (<[(ns_update_id n, ns_relative_path n) := mkSnapshotRow snapshot_path byte_length (ns_content_hash n)]> (lc_snapshots d)) d).
(** [COALESCE(max(sequence), -1) + 1] *)
Definition next_sequence (d : LifecycleDb) (update_id : Z) : Z :=
  foldr Z.max (-1) (map (fun x => x.1.2) (List.filter (fun x => x.1.1 =? update_id) (map_to_list (lc_events d)))) + 1.
Definition update_transition (update_id : Z) (expected : Update.UpdateState) (event : Update.UpdateEvent) (details : string) (at_ns : Z) (d : LifecycleDb)
    : result (Update.UpdateState * LifecycleDb) :=
  if 4096 <? text_len details then Err (invalid_argument "journal event details exceed 4096 bytes") else
  row ← ok_or (invalid_argument "update journal does not exist") (lc_updates d !! update_id);
  actual ← codec_update (up_state row);
  if negb (bool_decide (actual = expected)) then Err (conflict "update journal state changed concurrently") else
  next ← transition_rejected (Update.transition_update actual event);
  let sequence := next_sequence d update_id in
  let row' := mkUpdateRow (up_repository_id row) (up_base_generation row) (up_target_generation row) (Update.UpdateState_as_str next) (up_journal_path row)
                (up_created_at_ns row) at_ns in
  if unfinished row' && negb (unfinished row) && bool_decide (active_updates d (up_repository_id row) <> []) then Err (sqlite "failed to persist update transition") else
  if bool_decide (is_Some (lc_events d !! (update_id, sequence))) then Err (sqlite "failed to append update journal event") else
  Ok (next, with_events (<[(update_id, sequence) := mkEventRow (Update.UpdateEvent_as_str event) details at_ns]> (lc_events d))
              (with_updates (<[update_id := row']> (lc_updates d)) d)).

(** ** [session.rs] *)
Record LeaseSpec : Set := mkLeaseSpec { ls_page_hash : Hash; ls_reason : string }.
Record NewSealedSession : Set := mkNewSession {
  nse_session_id : Z; nse_repository_id : Z; nse_generation_id : Z; nse_capsule_id : option Z; nse_expected_lease_count : Z; nse_leases : list LeaseSpec;
  nse_started_at_ns : Z
}.
Fixpoint unique_leases (l : list LeaseSpec) (unique : gmap Hash string) : result (gmap Hash string) :=
  match l with
  | [] => Ok unique
  | lease :: l =>
      _ ← bounded_text (ls_reason lease) 1 64 "lease reason";
      if bool_decide (is_Some (unique !! ls_page_hash lease)) && negb (bool_decide (unique !! ls_page_hash lease = Some (ls_reason lease)))
      then Err (invalid_argument "duplicate page lease has conflicting reasons")
      else unique_leases l (<[ls_page_hash lease := ls_reason lease]> unique)
  end.
Fixpoint insert_leases (session_id : Z) (l : list (Hash * string)) (t : gmap (Z * Hash) string) : result (gmap (Z * Hash) string) :=
  match l with
  | [] => Ok t
  | (page_hash, reason) :: l =>
      if bool_decide (is_Some (t !! (session_id, page_hash))) then Err (sqlite "failed to create session lease")
      else insert_leases session_id l (<[(session_id, page_hash) := reason]> t)
  end.
Definition create_with_leases (n : NewSealedSession) (d : LifecycleDb) : result (() * LifecycleDb) :=
  unique ← unique_leases (nse_leases n) ∅;
  if negb (Z.of_nat (size unique) =? nse_expected_lease_count n) then Err (invalid_argument "sealed session lease set does not match expected count") else
  g ← sqlite_integer (nse_generation_id n) "session generation";
  match lc_generations d !! (nse_repository_id n, g) with
  | Some gr =>
      if negb (gn_verified gr =? 1) then Err (conflict "sealed session requires an existing verified generation") else
      if bool_decide (is_Some (lc_sessions d !! nse_session_id n)) then Err (sqlite "failed to create sealed session") else
      leases ← insert_leases (nse_session_id n) (map_to_list unique) (lc_leases d);
      Ok (tt, with_leases leases
                (with_sessions (<[nse_session_id n := mkSessionRow (nse_repository_id n) g (nse_capsule_id n) (Session.SessionState_as_str Session.Verifying)
                                    (nse_expected_lease_count n) (nse_started_at_ns n) None 0 None]> (lc_sessions d)) d))
  | None => Err (conflict "sealed session requires an existing verified generation")
  end.
Definition record_process (session_id process_id started_at_ns : Z) (d : LifecycleDb) : result (() * LifecycleDb) :=
  if process_id =? 0 then Err (invalid_argument "session process ID must be nonzero") else
  match lc_processes d !! (session_id, process_id) with
  | Some r => if pr_started_at_ns r =? started_at_ns then Ok (tt, d) else Err (conflict "session process identity changed")
  | None =>
      if bool_decide (lc_sessions d !! session_id = None) then Err (sqlite "failed to persist session process") else
      Ok (tt, with_processes (<[(session_id, process_id) := mkProcessRow started_at_ns None]> (lc_processes d)) d)
  end.
Definition session_load_state (d : LifecycleDb) (session_id : Z) : result Session.SessionState :=
  row ← ok_or (invalid_argument "session does not exist") (lc_sessions d !! session_id);
  codec_session (se_state row).
Definition session_lease_count (d : LifecycleDb) (session_id : Z) : Z := cnt (fun x => x.1.1 =? session_id) (map_to_list (lc_leases d)).
(** The trigger [sessions_sealed_ready_update_guard]. *)
Definition sealed_ready_guard (d : LifecycleDb) (session_id : Z) (new : SessionRow) : bool :=
  negb (bool_decide (se_state new = "sealed_ready")) || (session_lease_count d session_id =? se_expected_lease_count new).
Definition set_session_state (s : Session.SessionState) (r : SessionRow) : SessionRow :=
  mkSessionRow (se_repository_id r) (se_generation r) (se_capsule_id r) (Session.SessionState_as_str s) (se_expected_lease_count r) (se_started_at_ns r)
    (se_ended_at_ns r) (se_seal_violation_count r) (se_first_violation_summary r).
Definition session_transition (session_id : Z) (expected : Session.SessionState) (event : Session.SessionEvent) (at_ns : Z) (d : LifecycleDb)
    : result (Session.SessionState * LifecycleDb) :=
  actual ← session_load_state d session_id;
  if negb (bool_decide (actual = expected)) then Err (conflict "session state changed concurrently") else
  next ← transition_rejected (Session.transition_session actual event);
  match lc_sessions d !! session_id with
  | Some r =>
      if negb (bool_decide (se_state r = Session.SessionState_as_str actual)) then Err (conflict "session state changed concurrently") else
      if negb (sealed_ready_guard d session_id (set_session_state next r)) then Err (sqlite "failed to persist session transition") else
      Ok (next, with_sessions (<[session_id := set_session_state next r]> (lc_sessions d)) d)
  | None => Err (conflict "session state changed concurrently")
  end.
Definition mark_violation (session_id : Z) (summary : string) (d : LifecycleDb) : result (Z * LifecycleDb) :=
  _ ← bounded_text summary 1 1024 "seal violation summary";
  actual ← session_load_state d session_id;
  next ← (if bool_decide (actual = Session.Violated) then Ok Session.Violated else transition_rejected (Session.transition_session actual Session.SealViolated));
  match lc_sessions d !! session_id with
  | Some r =>
      if i64_max <? se_seal_violation_count r + 1 then Err (sqlite "failed to persist seal violation") else
      let r' := mkSessionRow (se_repository_id r) (se_generation r) (se_capsule_id r) (Session.SessionState_as_str next) (se_expected_lease_count r) (se_started_at_ns r)
                  (se_ended_at_ns r) (se_seal_violation_count r + 1) (Some (default summary (se_first_violation_summary r))) in
      if negb (sealed_ready_guard d session_id r') then Err (sqlite "failed to persist seal violation") else
      count ← nonnegative (se_seal_violation_count r') "seal violation count";
      Ok (count, with_sessions (<[session_id := r']> (lc_sessions d)) d)
  | None => Err (sqlite "failed to load seal violation count")
  end.
Definition live_processes (d : LifecycleDb) (session_id : Z) : list Z :=
  map (fun x => x.1.2) (List.filter (fun x => (x.1.1 =? session_id) && bool_decide (pr_ended_at_ns x.2 = None)) (map_to_list (lc_processes d))).
Fixpoint recorded_processes (l : list Z) : result (gset Z) :=
  match l with
  | [] => Ok ∅
  | p :: l =>
      p ← nonnegative p "process ID";
      if u32_max <? p then Err (integrity_mismatch "stored process ID exceeds u32") else
      rest ← recorded_processes l; Ok ({[p]} ∪ rest)
  end.
Definition session_finish (session_id : Z) (verified_terminated_processes : list Z) (ended_at_ns : Z) (d : LifecycleDb) : result (() * LifecycleDb) :=
  actual ← session_load_state d session_id;
  if bool_decide (actual = Session.Completed) then Ok (tt, d) else
  recorded ← recorded_processes (sort_by Z.leb (live_processes d session_id));
  if negb (bool_decide (recorded = list_to_set verified_terminated_processes))
  then Err (conflict "verified terminated process set does not match live session ownership") else
  next ← transition_rejected (Session.transition_session actual Session.ProcessesExited);
  match lc_sessions d !! session_id with
  | Some r =>
      let processes := map_imap (fun k p => Some (if (k.1 =? session_id) && bool_decide (pr_ended_at_ns p = None)
                                                  then mkProcessRow (pr_started_at_ns p) (Some ended_at_ns) else p)) (lc_processes d) in
      let leases := filter (fun x => x.1.1 <> session_id) (lc_leases d) in
      let r' := mkSessionRow (se_repository_id r) (se_generation r) (se_capsule_id r) (Session.SessionState_as_str next) (se_expected_lease_count r)
                  (se_started_at_ns r) (Some ended_at_ns) (se_seal_violation_count r) (se_first_violation_summary r) in
      if negb (sealed_ready_guard (with_leases leases d) session_id r') then Err (sqlite "failed to finish session") else
      Ok (tt, with_sessions (<[session_id := r']> (lc_sessions d)) (with_leases leases (with_processes processes d)))
  | None => Err (sqlite "failed to finish session")
  end.
Definition load_session_state (d : LifecycleDb) (session_id : Z) : result (option Session.SessionState) :=
  match lc_sessions d !! session_id with None => Ok None | Some r => s ← codec_session (se_state r); Ok (Some s) end.

(** ** [pin.rs] *)
Inductive PersistentPinReason : Set := PinMandatory | PinSession (id : Z) | PinDirty (id : Z) | PinRecovery.
Definition encode_reason (reason : PersistentPinReason) : string * list Z :=
  match reason with
  | PinMandatory => ("mandatory"%string, []) | PinSession id => ("session"%string, to_be 16 id)
  | PinDirty id => ("dirty"%string, to_be 16 id) | PinRecovery => ("recovery"%string, [])
  end.
Definition fixed_id (value : list Z) (label : string) : result Z :=
  if Nat.eqb (length value) 16 then Ok (from_be value) else Err (integrity_mismatch ("database " +:+ label +:+ " has invalid byte width")).
Definition decode_reason (kind : string) (owner : list Z) : result PersistentPinReason :=
  if bool_decide (kind = "mandatory") && bool_decide (owner = []) then Ok PinMandatory else
  if bool_decide (kind = "recovery") && bool_decide (owner = []) then Ok PinRecovery else
  if bool_decide (kind = "session") then id ← fixed_id owner "session pin owner"; Ok (PinSession id) else
  if bool_decide (kind = "dirty") then id ← fixed_id owner "dirty pin owner"; Ok (PinDirty id) else
  Err (integrity_mismatch "cache pin reason and owner disagree").
Definition validate_pin_owner (d : LifecycleDb) (reason : PersistentPinReason) : result () :=
  match reason with
  | PinSession id => fail_if (bool_decide (lc_sessions d !! id = None)) (invalid_argument "cache pin owner does not exist")
  | PinDirty id => fail_if (bool_decide (lc_updates d !! id = None)) (invalid_argument "cache pin owner does not exist")
  | _ => Ok tt
  end.
Definition check_resident (d : LifecycleDb) (page : Hash) : result () :=
  fail_if (bool_decide (slots_where (holds_hash page Resident) (lc_slots d) = [])) (cache_full "cache pin batch contains a non-resident page").
Definition pin_pages (reason : PersistentPinReason) (pages : list Hash) (d : LifecycleDb) : result (() * LifecycleDb) :=
  let pages := remove_dups (sort_by Z.leb pages) in
  if bool_decide (pages = []) then Err (invalid_argument "cache pin batch is empty") else
  _ ← validate_pin_owner d reason;
  _ ← for_each (check_resident d) pages;
  Ok (tt, with_pins (list_to_set (map (fun page => (page, encode_reason reason)) pages) ∪ lc_pins d) d).
Definition release_pins (reason : PersistentPinReason) (d : LifecycleDb) : result (() * LifecycleDb) :=
  Ok (tt, with_pins (filter (fun x => x.2 <> encode_reason reason) (lc_pins d)) d).
(** [ORDER BY page_hash, reason, owner_id] *)
Definition pin_le (a b : Hash * (string * list Z)) : bool :=
  match a.1 ?= b.1 with
  | Lt => true
  | Gt => false
  | Eq => match lex_compare (chars a.2.1) (chars b.2.1) with Lt => true | Gt => false | Eq => match lex_compare a.2.2 b.2.2 with Gt => false | _ => true end end
  end.
Fixpoint decode_pins (l : list (Hash * (string * list Z))) : result (list (Hash * PersistentPinReason)) :=
  match l with
  | [] => Ok []
  | x :: l =>
      match decode_reason x.2.1 x.2.2 with
      | Err _ => Err (sqlite "failed to decode cache pins")
      | Ok reason => rest ← decode_pins l; Ok ((x.1, reason) :: rest)
      end
  end.
Definition load_pins (d : LifecycleDb) : result (list (Hash * PersistentPinReason)) := decode_pins (sort_by pin_le (elements (lc_pins d))).

(** ** Activation by the engine ([update/activate.rs])

    The mounter is the caller's; its operations act on its own world. *)
Record GenerationMounter (M : Type) : Type := mkMounter { mo_quiesce : M -> result () * M; mo_mount_and_smoke_test : Z -> M -> result () * M }.
#[global] Arguments mkMounter {M}.
#[global] Arguments mo_quiesce {M}.
#[global] Arguments mo_mount_and_smoke_test {M}.
Record ActivationPlan : Set := mkActivationPlan { apl_repository : Z; apl_generation : Z; apl_commit : Hash; apl_timestamp_ns : Z }.
Record ActivationReport : Set := mkActivationReport { arp_previous : option (Z * Hash); arp_active : Z * Hash }.
Definition activation_active (d : LifecycleDb) (repository : Z) : result (option (Z * Hash)) :=
  active ← load_active_generation d repository;
  Ok (match active with Some a => Some (ag_generation_id a, ag_commit_hash a) | None => None end).
Definition activation_switch (repository : Z) (target : Z * Hash) (expected : option (Z * Hash)) (timestamp_ns : Z) (d : LifecycleDb) : result (() * LifecycleDb) :=
  generation_activate (mkActivation repository target.1 target.2 expected timestamp_ns) d.
Definition engine_activate_generation {M : Type} (mounter : GenerationMounter M) (plan : ActivationPlan) (m : M) (d : LifecycleDb)
    : result ActivationReport * M * LifecycleDb :=
  match activation_active d (apl_repository plan) with
  | Err e => (Err e, m, d)
  | Ok previous =>
      match mo_quiesce mounter m with
      | (Err e, m) => (Err e, m, d)
      | (Ok _, m) =>
          let target := (apl_generation plan, apl_commit plan) in
          match activation_switch (apl_repository plan) target previous (apl_timestamp_ns plan) d with
          | Err e => (Err e, m, d)
          | Ok (_, d) =>
              match mo_mount_and_smoke_test mounter (apl_generation plan) m with
              | (Ok _, m) => (Ok (mkActivationReport previous target), m, d)
              | (Err mount_error, m) =>
                  match previous with
                  | None => (Err mount_error, m, d)
                  | Some old =>
                      match activation_switch (apl_repository plan) old (Some target) (apl_timestamp_ns plan) d with
                      | Err e => (Err e, m, d)
                      | Ok (_, d) => (Err mount_error, snd (mo_mount_and_smoke_test mounter old.1 m), d)
                      end
                  end
              end
          end
      end
  end.

(** ** Every sequence of operations *)
Inductive LifecycleOp : Type :=
| OpCreateRepository (n : NewRepository)
| OpSetOwnerSid (repository_id : Z) (expected new : string)
| OpSetVolumeMode (repository_id : Z) (mode : VolumeMode)
| OpSetRepositoryState (repository_id : Z) (expected : Repository.RepositoryState) (event : Repository.RepositoryEvent) (at_ns : Z)
| OpInsertGeneration (v : VerifiedGeneration)
| OpActivate (a : Activation)
| OpCreateJournal (n : NewUpdateJournal)
| OpUpsertOverlay (p : OverlayPage)
| OpUpsertSnapshot (n : NativeSnapshot)
| OpUpdateTransition (update_id : Z) (expected : Update.UpdateState) (event : Update.UpdateEvent) (details : string) (at_ns : Z)
| OpCreateSession (n : NewSealedSession)
| OpRecordProcess (session_id process_id started_at_ns : Z)
| OpSessionTransition (session_id : Z) (expected : Session.SessionState) (event : Session.SessionEvent) (at_ns : Z)
| OpMarkViolation (session_id : Z) (summary : string)
| OpFinishSession (session_id : Z) (processes : list Z) (at_ns : Z)
| OpPin (reason : PersistentPinReason) (pages : list Hash)
| OpRelease (reason : PersistentPinReason)
| OpCache (slots : SlotDb).
Definition after {A : Type} (r : result (A * LifecycleDb)) (d : LifecycleDb) : LifecycleDb := match r with Ok (_, d') => d' | Err _ => d end.
Definition run_op (o : LifecycleOp) (d : LifecycleDb) : LifecycleDb :=
  match o with
  | OpCreateRepository n => after (repository_create n d) d
  | OpSetOwnerSid r e n => after (set_owner_sid r e n d) d
  | OpSetVolumeMode r m => after (set_volume_mode r m d) d
  | OpSetRepositoryState r x e t => after (repository_set_state r x e t d) d
  | OpInsertGeneration v => after (insert_verified v d) d
  | OpActivate a => after (generation_activate a d) d
  | OpCreateJournal n => after (create_journal n d) d
  | OpUpsertOverlay p => after (upsert_overlay p d) d
  | OpUpsertSnapshot n => after (upsert_snapshot n d) d
  | OpUpdateTransition u x e s t => after (update_transition u x e s t d) d
  | OpCreateSession n => after (create_with_leases n d) d
  | OpRecordProcess s p t => after (record_process s p t d) d
  | OpSessionTransition s x e t => after (session_transition s x e t d) d
  | OpMarkViolation s x => after (mark_violation s x d) d
  | OpFinishSession s p t => after (session_finish s p t d) d
  | OpPin r l => after (pin_pages r l d) d
  | OpRelease r => after (release_pins r d) d
  | OpCache s => mkLifecycleDb (lc_repositories d) (lc_generations d) (lc_updates d) (lc_events d) (lc_overlay d) (lc_snapshots d) (lc_sessions d) (lc_processes d)
                   (lc_leases d) (lc_pins d) s
  end.
(** Generation numbers are [u64]s. *)
Definition op_typed (o : LifecycleOp) : Prop :=
  match o with
  | OpInsertGeneration v => in_u64 (vg_generation_id v)
  | OpActivate a => in_u64 (ac_target_generation a)
  | OpCreateJournal n => in_u64 (nu_base_generation n) /\ in_u64 (nu_target_generation n)
  | _ => True
  end.
Definition lifecycle_run (l : list LifecycleOp) (d : LifecycleDb) : LifecycleDb := fold_left (fun d o => run_op o d) l d.

(** The sessions a history ends with the bare transition, not with
    [session_finish]. *)
Definition bare_exit (l : list LifecycleOp) (s : Z) : Prop := exists x t, OpSessionTransition s x Session.ProcessesExited t ∈ l.

(** ** What holds of every reachable state *)
Section reachable_states.
(** The sessions that the bare transition may have completed. *)
Context (bare : Z -> Prop).
Definition op_bare (o : LifecycleOp) : Prop := match o with OpSessionTransition s _ Session.ProcessesExited _ => bare s | _ => True end.
Definition path_ok (s : string) : Prop := 0 < text_len s <= 32767.
Definition generations_ok (d : LifecycleDb) : Prop := forall r g x, lc_generations d !! (r, g) = Some x ->
  0 <= g <= i64_max /\ gn_verified x = 1 /\ path_ok (gn_manifest_local_path x) /\ opt_ok path_ok (gn_mount_index_path x).
Definition active_ok (d : LifecycleDb) : Prop := forall r row, lc_repositories d !! r = Some row ->
  (exists s, rp_state row = Repository.RepositoryState_as_str s) /\
  match rp_active_generation row, rp_active_commit_hash row with
  | None, None => True
  | Some g, Some c => exists x, lc_generations d !! (r, g) = Some x /\ gn_commit_hash x = c
  | _, _ => False
  end.
(** The event kinds of an update, in sequence. *)
Definition log_is (d : LifecycleDb) (u : Z) (l : list string) : Prop := forall k, ev_kind <$> lc_events d !! (u, k) = if 0 <=? k then l !! Z.to_nat k else None.
Definition updates_ok (d : LifecycleDb) : Prop :=
  (forall u row, lc_updates d !! u = Some row -> 0 <= up_base_generation row < up_target_generation row /\ up_target_generation row <= i64_max /\
     is_Some (lc_generations d !! (up_repository_id row, up_base_generation row)) /\
     exists s tr, up_state row = Update.UpdateState_as_str s /\ steps Update.Created tr s /\ log_is d u ("created"%string :: map Update.UpdateEvent_as_str tr)) /\
  (forall u k, is_Some (lc_events d !! (u, k)) -> is_Some (lc_updates d !! u)) /\
  (forall u v a b, lc_updates d !! u = Some a -> lc_updates d !! v = Some b -> up_repository_id a = up_repository_id b -> unfinished a = true -> unfinished b = true -> u = v).
Definition sessions_ok (d : LifecycleDb) : Prop :=
  (forall s row, lc_sessions d !! s = Some row -> is_Some (lc_generations d !! (se_repository_id row, se_generation row)) /\
     exists st, se_state row = Session.SessionState_as_str st /\
       if bool_decide (st = Session.Completed) then session_lease_count d s = 0 \/ bare s /\ session_lease_count d s = se_expected_lease_count row
       else session_lease_count d s = se_expected_lease_count row) /\
  (forall s h, is_Some (lc_leases d !! (s, h)) -> is_Some (lc_sessions d !! s)).
Definition lifecycle_ok (d : LifecycleDb) : Prop := generations_ok d /\ active_ok d /\ updates_ok d /\ sessions_ok d.

(** ** Codecs *)
Lemma codec_update_str (s : Update.UpdateState) : codec_update (Update.UpdateState_as_str s) = Ok s.
Proof. by destruct s. Qed.
Lemma codec_session_str (s : Session.SessionState) : codec_session (Session.SessionState_as_str s) = Ok s.
Proof. by destruct s. Qed.
Lemma codec_repository_str (s : Repository.RepositoryState) : codec_repository (Repository.RepositoryState_as_str s) = Ok s.
Proof. by destruct s. Qed.
Lemma codec_repository_inv (v : string) (s : Repository.RepositoryState) : codec_repository v = Ok s -> v = Repository.RepositoryState_as_str s.
Proof. intros [_ H]%ok_or_Ok_inv%List.find_some. by apply bool_decide_eq_true in H. Qed.
Lemma transition_accepted {A : Type} (r : TransitionError + A) (a : A) : transition_rejected r = Ok a -> r = inr a.
Proof. destruct r; [done|]. by intros [= ->]. Qed.
Lemma path_text_ok (p : Path) (s : string) : path_text p = Ok s -> path_ok s.
Proof. unfold path_text. destruct p as [t|]; [|done]. destruct (_ && _) eqn:E; [|done]. intros [= <-]. zbool. unfold path_ok. lia. Qed.
Lemma path_text_opt_ok (p : option Path) (s : option string) : path_text_opt p = Ok s -> opt_ok path_ok s.
Proof. destruct p as [p|]; cbn; [|by intros [= <-]]. intros (t & Ht%path_text_ok & [= <-])%bind_Ok_inv. done. Qed.
Lemma stored_path_ok (s : string) : path_ok s -> stored_path s = Ok s.
Proof. unfold path_ok, stored_path. intros H. rewrite (proj2 (Z.eqb_neq _ _)), (proj2 (Z.ltb_ge _ _)) by lia. done. Qed.
Lemma sqlite_integer_inv (v : Z) (l : string) (x : Z) : sqlite_integer v l = Ok x -> x = v /\ v <= i64_max.
Proof. unfold sqlite_integer. destruct (Z.leb_spec v i64_max); [|done]. by intros [= ->]. Qed.
Lemma nonnegative_inv (v : Z) (l : string) (x : Z) : nonnegative v l = Ok x -> x = v /\ 0 <= v.
Proof. unfold nonnegative. destruct (Z.leb_spec 0 v); [|done]. by intros [= ->]. Qed.

(** ** Repositories and generations *)
Lemma update_repository_inv (id : Z) (p : RepositoryRow -> bool) (f : RepositoryRow -> RepositoryRow) (d d' : LifecycleDb) (n : Z) :
  update_repository id p f d = (n, d') -> d' = d \/ exists row, lc_repositories d !! id = Some row /\ d' = with_repositories (<[id := f row]> (lc_repositories d)) d.
Proof. unfold update_repository. destruct (_ !! id) as [row|]; [destruct (p row)|]; intros [= _ <-]; eauto. Qed.
(** A row that keeps its active columns and has a known state. *)
Lemma active_ok_row (d : LifecycleDb) (id : Z) (row row' : RepositoryRow) : active_ok d -> lc_repositories d !! id = Some row ->
  rp_active_generation row' = rp_active_generation row -> rp_active_commit_hash row' = rp_active_commit_hash row ->
  (exists s, rp_state row' = Repository.RepositoryState_as_str s) -> active_ok (with_repositories (<[id := row']> (lc_repositories d)) d).
Proof.
  intros Ha Hr E1 E2 Hs r x. cbn [lc_repositories lc_generations with_repositories]. rewrite lookup_insert_Some. intros [[<- <-]|[_ Hx]]; [|by apply Ha].
  split; [done|]. rewrite E1, E2. apply (Ha id row Hr).
Qed.
Lemma update_repository_ok (id : Z) (p : RepositoryRow -> bool) (f : RepositoryRow -> RepositoryRow) (d d' : LifecycleDb) (n : Z) :
  active_ok d -> (forall row, lc_repositories d !! id = Some row -> rp_active_generation (f row) = rp_active_generation row /\
    rp_active_commit_hash (f row) = rp_active_commit_hash row /\ exists s, rp_state (f row) = Repository.RepositoryState_as_str s) ->
  update_repository id p f d = (n, d') -> active_ok d' /\ lc_generations d' = lc_generations d /\ lc_updates d' = lc_updates d /\ lc_events d' = lc_events d /\
    lc_sessions d' = lc_sessions d /\ lc_leases d' = lc_leases d.
Proof.
  intros Ha Hf [->|(row & Hr & ->)]%update_repository_inv; [done|]. destruct (Hf row Hr) as (F1 & F2 & F3). split; [by eapply active_ok_row|done].
Qed.
(** The other invariants read the other tables. *)
Lemma frame_ok (d d' : LifecycleDb) : lc_generations d' = lc_generations d -> lc_updates d' = lc_updates d -> lc_events d' = lc_events d ->
  lc_sessions d' = lc_sessions d -> lc_leases d' = lc_leases d -> active_ok d' -> lifecycle_ok d -> lifecycle_ok d'.
Proof.
  intros E1 E2 E3 E4 E5 Ha (Hg & _ & Hu & Hs). unfold lifecycle_ok, generations_ok, updates_ok, sessions_ok, log_is, session_lease_count in *.
  rewrite E1, E2, E3, E4, E5. done.
Qed.
Lemma repository_frame (d : LifecycleDb) (id : Z) (f : RepositoryRow -> RepositoryRow) (p : RepositoryRow -> bool) (n : Z) (d' : LifecycleDb) :
  lifecycle_ok d -> (forall row, lc_repositories d !! id = Some row -> rp_active_generation (f row) = rp_active_generation row /\
    rp_active_commit_hash (f row) = rp_active_commit_hash row /\ exists s, rp_state (f row) = Repository.RepositoryState_as_str s) ->
  update_repository id p f d = (n, d') -> lifecycle_ok d'.
Proof.
  intros Hd Hf (Ha & ? & ? & ? & ? & ?)%update_repository_ok; [|apply Hd|done]. by apply (frame_ok d).
Qed.
Lemma repository_create_ok (n : NewRepository) (d d' : LifecycleDb) : lifecycle_ok d -> repository_create n d = Ok (tt, d') -> lifecycle_ok d'.
Proof.
  intros Hd ([] & _ & ([] & _ & (root & _ & H)%bind_Ok_inv)%bind_Ok_inv)%bind_Ok_inv. destruct (_ !! _) eqn:E; [done|]. injection H as <-.
  apply (frame_ok d); [done..| |done]. intros r x. cbn [lc_repositories lc_generations with_repositories]. rewrite lookup_insert_Some.
  intros [[<- <-]|[_ Hx]]; [cbn; eauto|]. by apply Hd.
Qed.
Lemma set_owner_sid_ok (r : Z) (e n : string) (d d' : LifecycleDb) : lifecycle_ok d -> set_owner_sid r e n d = Ok (tt, d') -> lifecycle_ok d'.
Proof.
  intros Hd ([] & _ & ([] & _ & H)%bind_Ok_inv)%bind_Ok_inv. destruct (update_repository _ _ _ _) as [c d1] eqn:E. destruct (negb _); [done|]. injection H as <-.
  eapply repository_frame; [done| |exact E]. intros row Hr. cbn. split_and!; [done..|]. by apply Hd in Hr as [? _].
Qed.
Lemma set_volume_mode_ok (r : Z) (m : VolumeMode) (d d' : LifecycleDb) : lifecycle_ok d -> set_volume_mode r m d = Ok (tt, d') -> lifecycle_ok d'.
Proof.
  intros Hd. unfold set_volume_mode. destruct (update_repository _ _ _ _) as [c d1] eqn:E. destruct (negb _); [done|]. intros [= <-].
  eapply repository_frame; [done| |exact E]. intros row Hr. cbn. split_and!; [done..|]. by apply Hd in Hr as [? _].
Qed.
Lemma repository_set_state_ok (r : Z) (x : Repository.RepositoryState) (e : Repository.RepositoryEvent) (t : Z) (d d' : LifecycleDb) (s : Repository.RepositoryState) :
  lifecycle_ok d -> repository_set_state r x e t d = Ok (s, d') -> lifecycle_ok d'.
Proof.
  intros Hd (row & _ & (a & _ & H)%bind_Ok_inv)%bind_Ok_inv. destruct (negb _); [done|]. apply bind_Ok_inv in H as (next & _ & H).
  destruct (update_repository _ _ _ _) as [c d1] eqn:E. destruct (negb _); [done|]. injection H as <- <-.
  eapply repository_frame; [done| |exact E]. intros row' Hr. cbn. eauto.
Qed.
Lemma insert_verified_ok (v : VerifiedGeneration) (d d' : LifecycleDb) : in_u64 (vg_generation_id v) -> lifecycle_ok d -> insert_verified v d = Ok (tt, d') -> lifecycle_ok d'.
Proof.
  intros Hv Hd (g & [-> Hg]%sqlite_integer_inv & (p & Hp%path_text_ok & (i & Hi%path_text_opt_ok & H)%bind_Ok_inv)%bind_Ok_inv)%bind_Ok_inv.
  destruct (lc_generations d !! _) as [row|] eqn:E; [destruct (_ && _); [by injection H as <-|done]|]. destruct (lc_repositories d !! _); [|done]. injection H as <-.
  destruct Hd as (HG & HA & (U1 & U2 & U3) & (S1 & S2)).
  assert (Hin : forall k : Z * Z, is_Some (lc_generations d !! k) -> is_Some (<[(vg_repository_id v, vg_generation_id v) := mkGenerationRow (vg_commit_hash v) (vg_manifest_hash v) p i 1 (vg_created_at_ns v)]> (lc_generations d) !! k)).
  { intros k Hk. destruct (decide (k = (vg_repository_id v, vg_generation_id v))) as [->|Hne]; [rewrite E in Hk; by destruct Hk|]. by rewrite lookup_insert_ne. }
  split_and!.
  - intros r0 g x. cbn [lc_generations with_generations]. rewrite lookup_insert_Some. intros [[[= <- <-] <-]|[_ Hx]]; [|by eapply HG]. destruct Hv. cbn. split_and!; [lia|done..].
  - intros r0 row Hr. destruct (HA r0 row Hr) as [Hs Hact]. split; [done|]. cbn [lc_generations with_generations]. destruct (rp_active_generation row) as [g|], (rp_active_commit_hash row) as [c|]; try done.
    destruct Hact as (x & Hx & <-). exists x. split; [|done]. rewrite lookup_insert_ne; [done|]. intros Ek. rewrite Ek in E. congruence.
  - split_and!; [|exact U2|exact U3]. intros u row Hu. destruct (U1 u row Hu) as (? & ? & Hbase & Hrest). split_and!; [lia..|by apply Hin|exact Hrest].
  - split; [|exact S2]. intros s row Hs. destruct (S1 s row Hs) as (Hg' & Hrest). split; [by apply Hin|exact Hrest].
Qed.
Lemma generation_activate_ok (a : Activation) (d d' : LifecycleDb) : lifecycle_ok d -> generation_activate a d = Ok (tt, d') -> lifecycle_ok d'.
Proof.
  intros Hd (g & [-> _]%sqlite_integer_inv & (row & Hr%ok_or_Ok_inv & (cur & _ & H)%bind_Ok_inv)%bind_Ok_inv)%bind_Ok_inv. destruct (negb _); [done|].
  apply bind_Ok_inv in H as (x & Hx%ok_or_Ok_inv & H). destruct (_ || _) eqn:E; [done|]. injection H as <-. apply (frame_ok d); [done..| |done].
  intros r y. cbn [lc_repositories lc_generations with_repositories]. rewrite lookup_insert_Some. intros [[<- <-]|[_ Hy]]; [|by apply Hd].
  cbn. split; [by apply Hd in Hr as [? _]|]. exists x. zbool. split; [done|lia].
Qed.

(** ** Updates *)
Lemma foldr_max_range (l : list Z) (n : nat) : (forall k, k ∈ l <-> 0 <= k < Z.of_nat n) -> foldr Z.max (-1) l = Z.of_nat n - 1.
Proof.
  intros H. assert (Hb : forall l m, (forall k, k ∈ l -> k <= m) -> -1 <= m -> foldr Z.max (-1) l <= m).
  { clear. intros l m. induction l as [|x l IH]; intros Hl Hm; cbn [foldr]; [done|]. pose proof (Hl x ltac:(by left)). pose proof (IH ltac:(intros k Hk; apply Hl; by right) Hm). lia. }
  assert (Hu : forall l k, k ∈ l -> k <= foldr Z.max (-1) l) by (clear; intros l k; induction 1; cbn [foldr]; lia).
  assert (Hm : forall l, -1 <= foldr Z.max (-1) l) by (clear; intros l; induction l; cbn [foldr]; lia).
  apply Z.le_antisymm; [apply Hb; [intros k Hk%H; lia|lia]|]. destruct n as [|n]; [apply Hm|]. apply Hu, H. lia.
Qed.
Lemma next_sequence_log (d : LifecycleDb) (u : Z) (l : list string) : log_is d u l -> next_sequence d u = Z.of_nat (length l).
Proof.
  intros Hl. unfold next_sequence. rewrite (foldr_max_range _ (length l)); [lia|]. intros k. rewrite list_elem_of_fmap. specialize (Hl k). split.
  - intros ([[v j] x] & -> & Hx%list_elem_of_In). apply filter_In in Hx as [Hx%list_elem_of_In%elem_of_map_to_list Hv]. cbn in *. apply Z.eqb_eq in Hv as ->.
    rewrite Hx in Hl. destruct (Z.leb_spec 0 j); [|done]. cbn in Hl. symmetry in Hl. apply lookup_lt_Some in Hl. lia.
  - intros Hk. rewrite (proj2 (Z.leb_le 0 k)) in Hl by lia. destruct (lookup_lt_is_Some_2 l (Z.to_nat k)) as [y Hy]; [lia|]. rewrite Hy in Hl.
    apply fmap_Some in Hl as (x & Hx & _). exists ((u, k), x). split; [done|]. apply list_elem_of_In, filter_In. split; [by apply list_elem_of_In, elem_of_map_to_list|].
    apply Z.eqb_refl.
Qed.
Lemma log_is_append (t : gmap (Z * Z) EventRow) (u : Z) (l : list string) (e : EventRow) (d d' : LifecycleDb) : lc_events d = t ->
  lc_events d' = <[(u, Z.of_nat (length l)) := e]> t -> log_is d u l -> log_is d' u (l ++ [ev_kind e]).
Proof.
  intros <- E H k. specialize (H k). rewrite E. destruct (decide (k = Z.of_nat (length l))) as [->|Hne].
  - rewrite lookup_insert_eq, (proj2 (Z.leb_le _ _)), Nat2Z.id by lia. by rewrite list_lookup_middle.
  - rewrite lookup_insert_ne by congruence. rewrite H. destruct (Z.leb_spec 0 k); [|done]. destruct (decide (k < Z.of_nat (length l))).
    + by rewrite lookup_app_l by lia.
    + rewrite lookup_app_r, lookup_ge_None_2 by lia. symmetry. apply lookup_ge_None_2. cbn. lia.
Qed.
Lemma log_is_other (d d' : LifecycleDb) (u v k : Z) (l : list string) (e : EventRow) : u <> v -> lc_events d' = <[(v, k) := e]> (lc_events d) -> log_is d u l -> log_is d' u l.
Proof. intros Hne E H j. rewrite E, lookup_insert_ne by congruence. apply H. Qed.
Lemma active_updates_nil (d : LifecycleDb) (r u : Z) (row : UpdateRow) : active_updates d r = [] -> lc_updates d !! u = Some row -> up_repository_id row = r -> unfinished row = false.
Proof.
  intros H Hu Hr. destruct (unfinished row) eqn:E; [|done]. exfalso. assert (In (u, row) (active_updates d r)) as Hin; [|by rewrite H in Hin].
  apply filter_In. split; [by apply list_elem_of_In, elem_of_map_to_list|]. cbn. by rewrite Hr, Z.eqb_refl, E.
Qed.
Lemma terminal_finished (s s' : Update.UpdateState) (e : Update.UpdateEvent) (r r' : UpdateRow) : up_state r = Update.UpdateState_as_str s ->
  up_state r' = Update.UpdateState_as_str s' -> Update.transition_update s e = inr s' -> unfinished r' = true -> unfinished r = true.
Proof. unfold unfinished. intros -> ->. destruct s, e; try done; intros [= <-]; done. Qed.

Lemma create_journal_ok (n : NewUpdateJournal) (d d' : LifecycleDb) : in_u64 (nu_base_generation n) -> lifecycle_ok d -> create_journal n d = Ok (tt, d') -> lifecycle_ok d'.
Proof.
  intros Hn Hd (base & [-> Hb]%sqlite_integer_inv & (target & [-> Ht]%sqlite_integer_inv & H)%bind_Ok_inv)%bind_Ok_inv. destruct (Z.leb_spec (nu_target_generation n) (nu_base_generation n)); [done|].
  apply bind_Ok_inv in H as (path & _ & H). destruct (active_updates d (nu_repository_id n)) eqn:Eact; [|done].
  destruct (lc_generations d !! _) as [g|] eqn:Eg; [|done]. destruct (negb _); [done|]. case_bool_decide as Hup; [done|]. case_bool_decide as Hev; [done|]. injection H as <-.
  apply eq_None_not_Some in Hup. destruct Hd as (HG & HA & (U1 & U2 & U3) & HS). split_and!; [exact HG|exact HA| |exact HS]. split_and!.
  - intros u row. cbn [lc_updates with_updates with_events]. rewrite lookup_insert_Some. intros [[<- <-]|[Hne Hu]].
    + cbn. destruct Hn. split_and!; [lia..|by rewrite Eg|]. exists Update.Created, []. split_and!; [done|constructor|]. intros k. cbn [lc_events with_events with_updates].
      destruct (decide (k = 0)) as [->|Hk]; [by rewrite lookup_insert_eq|]. rewrite lookup_insert_ne by congruence.
      destruct (lc_events d !! (nu_update_id n, k)) eqn:Ek; [destruct (U2 (nu_update_id n) k); [by rewrite Ek|congruence]|]. destruct (Z.leb_spec 0 k); [|done]. cbn.
      symmetry. apply lookup_ge_None_2. cbn. lia.
    + destruct (U1 u row Hu) as (? & ? & ? & s & tr & H1 & H2 & H3). split_and!; [lia..|done|]. exists s, tr. split_and!; [done..|].
      eapply log_is_other; [|reflexivity|exact H3]. done.
  - intros u k. cbn [lc_updates lc_events with_updates with_events]. destruct (decide (u = nu_update_id n)) as [->|Hne]; [by rewrite lookup_insert_eq|].
    rewrite !lookup_insert_ne by congruence. apply U2.
  - intros u v a b. cbn [lc_updates with_updates with_events]. rewrite !lookup_insert_Some.
    intros [[<- <-]|[Hn1 Ha]] [[<- <-]|[Hn2 Hb']] Hr Fa Fb; [done|..]; cbn [up_repository_id] in Hr.
    + rewrite (active_updates_nil d _ v b Eact Hb') in Fb; done.
    + rewrite (active_updates_nil d _ u a Eact Ha) in Fa; done.
    + by eapply U3.
Qed.
Lemma update_transition_ok (u : Z) (x : Update.UpdateState) (e : Update.UpdateEvent) (s : string) (t : Z) (d d' : LifecycleDb) (next : Update.UpdateState) :
  lifecycle_ok d -> update_transition u x e s t d = Ok (next, d') -> lifecycle_ok d'.
Proof.
  intros Hd. unfold update_transition. destruct (4096 <? _); [done|]. intros (row & Hrow%ok_or_Ok_inv & (actual & Hact & H)%bind_Ok_inv)%bind_Ok_inv.
  destruct (negb _); [done|]. apply bind_Ok_inv in H as (nx & Hnx%transition_accepted & H). destruct (_ && _); [done|]. case_bool_decide; [done|]. injection H as <- <-.
  destruct Hd as (HG & HA & (U1 & U2 & U3) & HS). destruct (U1 u row Hrow) as (? & ? & Hgen & s0 & tr & E0 & Hst & Hlog).
  rewrite E0, codec_update_str in Hact. injection Hact as <-. rewrite (next_sequence_log d u _ Hlog).
  split_and!; [exact HG|exact HA| |exact HS]. split_and!.
  - intros v r. cbn [lc_updates with_updates with_events]. rewrite lookup_insert_Some. intros [[<- <-]|[Hne Hv]].
    + cbn [up_base_generation up_target_generation up_repository_id up_state]. split_and!; [lia..|done|]. exists nx, (tr ++ [e]). split_and!; [done|by apply (steps_snoc _ tr s0)|].
      rewrite map_app. cbn [map]. rewrite app_comm_cons. eapply (log_is_append _ u _ (mkEventRow (Update.UpdateEvent_as_str e) s t)); [reflexivity|reflexivity|exact Hlog].
    + destruct (U1 v r Hv) as (? & ? & ? & s1 & tr1 & K1 & K2 & K3). split_and!; [lia..|done|]. exists s1, tr1. split_and!; [done..|].
      eapply log_is_other; [|reflexivity|exact K3]. done.
  - intros v k. cbn [lc_updates lc_events with_updates with_events]. destruct (decide (v = u)) as [->|Hne]; [by rewrite lookup_insert_eq|].
    rewrite !lookup_insert_ne by congruence. apply U2.
  - assert (Hold : forall r', up_state r' = Update.UpdateState_as_str nx -> unfinished r' = true -> unfinished row = true) by (intros r' Hr' Hf; by eapply terminal_finished).
    intros v1 v2 a b. cbn [lc_updates with_updates with_events]. rewrite !lookup_insert_Some.
    intros [[<- <-]|[Hn1 Ha]] [[<- <-]|[Hn2 Hb]] Hr Fa Fb; [done|..].
    + apply (U3 u v2 row b); [done..| |done]. refine (Hold _ _ Fa). done.
    + apply (U3 v1 u a row); [done..|]. refine (Hold _ _ Fb). done.
    + by eapply U3.
Qed.

(** ** Sessions *)
Definition lease_count (t : gmap (Z * Hash) string) (s : Z) : Z := cnt (fun x => x.1.1 =? s) (map_to_list t).
Lemma lease_count_insert (t : gmap (Z * Hash) string) (s v : Z) (h : Hash) (r : string) : t !! (v, h) = None ->
  lease_count (<[(v, h) := r]> t) s = Z.b2z (v =? s) + lease_count t s.
Proof. intros H. unfold lease_count. rewrite map_to_list_insert by done. by rewrite cnt_cons. Qed.
Lemma lease_count_zero (t : gmap (Z * Hash) string) (s : Z) : (forall h, t !! (s, h) = None) -> lease_count t s = 0.
Proof.
  intros H. unfold lease_count. destruct (Z.lt_trichotomy (cnt (fun x => x.1.1 =? s) (map_to_list t)) 0) as [Hlt|[?|Hgt]]; [|done|exfalso].
  { pose proof (cnt_bounds (fun x => x.1.1 =? s) (map_to_list t)). lia. }
  apply cnt_pos, existsb_exists in Hgt as ([[v h] r] & Hin & Hv). cbn in Hv. apply Z.eqb_eq in Hv as ->.
  apply list_elem_of_In, elem_of_map_to_list in Hin. by rewrite H in Hin.
Qed.
Lemma insert_leases_inv (s : Z) (l : list (Hash * string)) (t t' : gmap (Z * Hash) string) : insert_leases s l t = Ok t' ->
  (forall v, lease_count t' v = lease_count t v + if v =? s then Z.of_nat (length l) else 0) /\ (forall v h, is_Some (t' !! (v, h)) -> is_Some (t !! (v, h)) \/ v = s).
Proof.
  revert t. induction l as [|[h r] l IH]; intros t; cbn [insert_leases].
  - intros [= <-]. split; [intros v; destruct (v =? s); cbn; lia|by left].
  - case_bool_decide as Hn; [done|]. apply eq_None_not_Some in Hn. intros [I1 I2]%IH. split.
    + intros v. rewrite I1, lease_count_insert by done. cbn [length]. rewrite (Z.eqb_sym s v). destruct (v =? s); cbn [Z.b2z]; lia.
    + intros v h' [H| ->]%I2; [|by right]. destruct (decide ((s, h) = (v, h'))) as [[= <- <-]|Hne]; [by right|]. rewrite lookup_insert_ne in H by done. by left.
Qed.
Lemma filter_leases (t : gmap (Z * Hash) string) (s v : Z) (h : Hash) : filter (fun x : (Z * Hash) * string => x.1.1 <> s) t !! (v, h) = if v =? s then None else t !! (v, h).
Proof.
  rewrite map_lookup_filter. destruct (t !! (v, h)); cbn; [|by destruct (v =? s)]. destruct (Z.eqb_spec v s) as [->|Hne]; [by rewrite option_guard_False by auto|by rewrite option_guard_True by auto].
Qed.
Lemma lease_count_filter (t : gmap (Z * Hash) string) (s v : Z) : lease_count (filter (fun x : (Z * Hash) * string => x.1.1 <> s) t) v = if v =? s then 0 else lease_count t v.
Proof.
  induction t as [|[u h] r t Hn IH] using map_ind.
  { rewrite map_filter_empty. by destruct (v =? s). }
  destruct (decide (u = s)) as [->|Hne].
  - rewrite map_filter_insert_not by (cbn; intros; tauto). rewrite IH, lease_count_insert by done. rewrite (Z.eqb_sym s v). destruct (v =? s); cbn; lia.
  - rewrite map_filter_insert_True by done. rewrite !lease_count_insert; [|done|by rewrite filter_leases, Hn; destruct (u =? s)]. rewrite IH.
    destruct (Z.eqb_spec v s) as [->|]; [|done]. by rewrite (proj2 (Z.eqb_neq u s)).
Qed.
(** A session row that changes its state, to completed only if it may. *)
Lemma sessions_ok_row (d : LifecycleDb) (s : Z) (row row' : SessionRow) (st st' : Session.SessionState) : sessions_ok d -> lc_sessions d !! s = Some row ->
  se_state row = Session.SessionState_as_str st -> se_state row' = Session.SessionState_as_str st' -> st <> Session.Completed -> (st' = Session.Completed -> bare s) ->
  se_expected_lease_count row' = se_expected_lease_count row -> se_repository_id row' = se_repository_id row -> se_generation row' = se_generation row ->
  sessions_ok (with_sessions (<[s := row']> (lc_sessions d)) d).
Proof.
  intros [S1 S2] Hr E E' Hst Hst' X1 X2 X3. split.
  - intros v r. cbn [lc_sessions with_sessions lc_generations]. rewrite lookup_insert_Some. intros [[<- <-]|[_ Hv]]; [|by apply S1].
    destruct (S1 s row Hr) as (Hg & st0 & E0 & Hc). rewrite X1, X2, X3. split; [done|]. exists st'. split; [done|].
    replace st0 with st in Hc; [rewrite bool_decide_false in Hc by done; destruct (bool_decide_reflect (st' = Session.Completed)); [right; auto|done]|]. rewrite E in E0. pose proof (codec_session_str st). rewrite E0, codec_session_str in H. congruence.
  - intros v h Hl%S2. cbn [lc_sessions with_sessions]. destruct (decide (v = s)) as [->|]; [by rewrite lookup_insert_eq|by rewrite lookup_insert_ne].
Qed.
Lemma session_load_state_inv (d : LifecycleDb) (s : Z) (st : Session.SessionState) : session_load_state d s = Ok st ->
  exists row, lc_sessions d !! s = Some row /\ se_state row = Session.SessionState_as_str st.
Proof.
  intros (row & Hr%ok_or_Ok_inv & [_ H]%ok_or_Ok_inv%List.find_some)%bind_Ok_inv. exists row. split; [done|]. by apply bool_decide_eq_true in H.
Qed.
Lemma session_frame (d d' : LifecycleDb) : lc_generations d' = lc_generations d -> lc_repositories d' = lc_repositories d -> lc_updates d' = lc_updates d ->
  lc_events d' = lc_events d -> sessions_ok d' -> lifecycle_ok d -> lifecycle_ok d'.
Proof.
  intros E1 E2 E3 E4 Hs (Hg & Ha & Hu & _). unfold lifecycle_ok, generations_ok, active_ok, updates_ok, log_is in *. rewrite E1, E2, E3, E4. done.
Qed.
Lemma create_with_leases_ok (n : NewSealedSession) (d d' : LifecycleDb) : lifecycle_ok d -> create_with_leases n d = Ok (tt, d') -> lifecycle_ok d'.
Proof.
  intros Hd (unique & _ & H)%bind_Ok_inv. destruct (negb _) eqn:En; [done|]. apply negb_false_iff, Z.eqb_eq in En. apply bind_Ok_inv in H as (g & _ & H).
  destruct (lc_generations d !! _) as [gr|] eqn:Eg; [|done]. destruct (negb _); [done|]. case_bool_decide as Hs; [done|]. apply eq_None_not_Some in Hs.
  apply bind_Ok_inv in H as (leases & [I1 I2]%insert_leases_inv & [= <-]). apply (session_frame d); [done..| |done]. destruct Hd as (_ & _ & _ & S1 & S2). split.
  - intros s row. cbn [lc_sessions with_sessions with_leases lc_generations]. unfold session_lease_count. cbn [lc_leases with_leases].
    change (cnt _ (map_to_list leases)) with (lease_count leases s). rewrite I1. rewrite lookup_insert_Some. intros [[<- <-]|[Hne Hv]].
    + cbn. split; [by rewrite Eg|]. exists Session.Verifying. split; [done|]. rewrite bool_decide_false by done. rewrite Z.eqb_refl, length_map_to_list.
      rewrite (lease_count_zero (lc_leases d) (nse_session_id n)); [lia|]. intros h.
      destruct (lc_leases d !! (nse_session_id n, h)) eqn:El; [destruct (S2 (nse_session_id n) h); [by rewrite El|congruence]|done].
    + rewrite (proj2 (Z.eqb_neq s (nse_session_id n))) by congruence. rewrite Z.add_0_r. by apply S1.
  - intros v h. cbn [lc_sessions with_sessions with_leases lc_leases]. intros [Hl%S2| ->]%I2; [|by rewrite lookup_insert_eq].
    destruct (decide (v = nse_session_id n)) as [->|]; [by rewrite lookup_insert_eq|by rewrite lookup_insert_ne].
Qed.
Lemma session_transition_ok (s : Z) (x : Session.SessionState) (e : Session.SessionEvent) (t : Z) (d d' : LifecycleDb) (next : Session.SessionState) :
  op_bare (OpSessionTransition s x e t) -> lifecycle_ok d -> session_transition s x e t d = Ok (next, d') -> lifecycle_ok d'.
Proof.
  intros He Hd (actual & (row & Hr & Es)%session_load_state_inv & H)%bind_Ok_inv. destruct (negb _); [done|]. apply bind_Ok_inv in H as (nx & Hn%transition_accepted & H).
  rewrite Hr in H. destruct (negb _); [done|]. destruct (negb _); [done|]. injection H as <- <-. apply (session_frame d); [done..| |done].
  eapply sessions_ok_row; [apply Hd|done|done|done| | |done..].
  - intros ->. by destruct e.
  - intros ->. destruct e; try exact He; by destruct actual.
Qed.
Lemma mark_violation_ok (s : Z) (x : string) (d d' : LifecycleDb) (n : Z) : lifecycle_ok d -> mark_violation s x d = Ok (n, d') -> lifecycle_ok d'.
Proof.
  intros Hd ([] & _ & (actual & (row & Hr & Es)%session_load_state_inv & (nx & Hn & H)%bind_Ok_inv)%bind_Ok_inv)%bind_Ok_inv. rewrite Hr in H.
  destruct (_ <? _); [done|]. cbn zeta in H. destruct (negb _); [done|]. apply bind_Ok_inv in H as (c & _ & [= <- <-]). apply (session_frame d); [done..| |done].
  assert (Hst : actual <> Session.Completed /\ nx <> Session.Completed).
  { case_bool_decide as Ea; [subst actual; by injection Hn as <-|]. apply transition_accepted in Hn. split; intros ->; [done|]. by destruct actual. }
  eapply sessions_ok_row; [apply Hd|done|done|done|apply Hst|intros E; by destruct (proj2 Hst)|done|done|done].
Qed.
Lemma session_finish_ok (s : Z) (l : list Z) (t : Z) (d d' : LifecycleDb) : lifecycle_ok d -> session_finish s l t d = Ok (tt, d') -> lifecycle_ok d'.
Proof.
  intros Hd (actual & (row & Hr & Es)%session_load_state_inv & H)%bind_Ok_inv. case_bool_decide as Ea; [by injection H as <-|]. apply bind_Ok_inv in H as (rec & _ & H).
  destruct (negb _); [done|]. apply bind_Ok_inv in H as (nx & Hn%transition_accepted & H). rewrite Hr in H. cbn zeta in H. destruct (negb _); [done|]. injection H as <-.
  apply (session_frame d); [done..| |done]. destruct Hd as (_ & _ & _ & S1 & S2). assert (nx = Session.Completed) as -> by (destruct actual; try done; by injection Hn). split.
  - intros v r. cbn [lc_sessions with_sessions with_leases with_processes lc_generations]. unfold session_lease_count. cbn [lc_leases with_leases with_sessions with_processes].
    change (cnt _ (map_to_list ?m)) with (lease_count m v). rewrite lease_count_filter. rewrite lookup_insert_Some. intros [[<- <-]|[Hne Hv]].
    + cbn [se_repository_id se_generation se_state]. split; [by apply (S1 s row)|]. exists Session.Completed. split; [done|]. rewrite Z.eqb_refl, bool_decide_true by done. by left.
    + rewrite (proj2 (Z.eqb_neq v s)) by congruence. by apply S1.
  - intros v h. cbn [lc_sessions with_sessions with_leases with_processes lc_leases]. rewrite filter_leases. destruct (Z.eqb_spec v s) as [->|Hne]; [by intros []|].
    rewrite lookup_insert_ne by congruence. apply S2.
Qed.
(** The tables the other operations write are not part of the invariant. *)
Lemma record_process_ok (s p t : Z) (d d' : LifecycleDb) : lifecycle_ok d -> record_process s p t d = Ok (tt, d') -> lifecycle_ok d'.
Proof.
  intros Hd. unfold record_process. destruct (p =? 0); [done|]. destruct (_ !! _) as [r|]; [destruct (_ =? _); [by intros [= <-]|done]|]. case_bool_decide; [done|]. by intros [= <-].
Qed.
Lemma upsert_overlay_ok (p : OverlayPage) (d d' : LifecycleDb) : lifecycle_ok d -> upsert_overlay p d = Ok (tt, d') -> lifecycle_ok d'.
Proof. intros Hd (f & _ & (o & _ & (l & _ & H)%bind_Ok_inv)%bind_Ok_inv)%bind_Ok_inv. destruct (_ || _); [done|]. by injection H as <-. Qed.
Lemma upsert_snapshot_ok (n : NativeSnapshot) (d d' : LifecycleDb) : lifecycle_ok d -> upsert_snapshot n d = Ok (tt, d') -> lifecycle_ok d'.
Proof. intros Hd ([] & _ & (p & _ & (l & _ & H)%bind_Ok_inv)%bind_Ok_inv)%bind_Ok_inv. case_bool_decide; [done|]. by injection H as <-. Qed.
Lemma pin_pages_ok (r : PersistentPinReason) (l : list Hash) (d d' : LifecycleDb) : lifecycle_ok d -> pin_pages r l d = Ok (tt, d') -> lifecycle_ok d'.
Proof. intros Hd. unfold pin_pages. case_bool_decide; [done|]. intros ([] & _ & ([] & _ & [= <-])%bind_Ok_inv)%bind_Ok_inv. done. Qed.

Lemma after_ok {A : Type} (r : result (A * LifecycleDb)) (d : LifecycleDb) : lifecycle_ok d -> (forall a d', r = Ok (a, d') -> lifecycle_ok d') -> lifecycle_ok (after r d).
Proof. intros Hd H. destruct r as [[a d']|]; cbn; eauto. Qed.
Lemma run_op_ok (o : LifecycleOp) (d : LifecycleDb) : op_typed o -> op_bare o -> lifecycle_ok d -> lifecycle_ok (run_op o d).
Proof.
  intros Ho Hx Hd. destruct o; cbn [run_op]; [apply after_ok; [done|]; intros x d' E..|done].
  - destruct x. eapply repository_create_ok; [exact Hd|exact E].
  - destruct x. eapply set_owner_sid_ok; [exact Hd|exact E].
  - destruct x. eapply set_volume_mode_ok; [exact Hd|exact E].
  - eapply repository_set_state_ok; [exact Hd|exact E].
  - destruct x. eapply insert_verified_ok; [exact Ho|exact Hd|exact E].
  - destruct x. eapply generation_activate_ok; [exact Hd|exact E].
  - destruct x. eapply create_journal_ok; [apply Ho|exact Hd|exact E].
  - destruct x. eapply upsert_overlay_ok; [exact Hd|exact E].
  - destruct x. eapply upsert_snapshot_ok; [exact Hd|exact E].
  - eapply update_transition_ok; [exact Hd|exact E].
  - destruct x. eapply create_with_leases_ok; [exact Hd|exact E].
  - destruct x. eapply record_process_ok; [exact Hd|exact E].
  - eapply session_transition_ok; [exact Hx|exact Hd|exact E].
  - eapply mark_violation_ok; [exact Hd|exact E].
  - destruct x. eapply session_finish_ok; [exact Hd|exact E].
  - destruct x. eapply pin_pages_ok; [exact Hd|exact E].
  - injection E as <- <-. exact Hd.
Qed.
Lemma lifecycle_run_ok (l : list LifecycleOp) (d : LifecycleDb) : Forall op_typed l -> Forall op_bare l -> lifecycle_ok d -> lifecycle_ok (lifecycle_run l d).
Proof.
  unfold lifecycle_run. intros Hl Hx. revert d. induction Hl as [|o l Ho Hl IH]; intros d Hd; [done|]. apply Forall_cons in Hx as [Hx1 Hx]. cbn. apply IH; [done|]. by apply run_op_ok.
Qed.
Lemma empty_lifecycle_ok : lifecycle_ok empty_lifecycle.
Proof.
  unfold lifecycle_ok, generations_ok, active_ok, updates_ok, sessions_ok, empty_lifecycle. cbn [lc_generations lc_repositories lc_updates lc_events lc_sessions lc_leases].
  refine (conj _ (conj _ (conj (conj _ (conj _ _)) (conj _ _)))); intros *; rewrite lookup_empty; try done; by intros [].
Qed.

(** ** What the loads return *)
Lemma load_active_exact (d : LifecycleDb) (r : Z) : lifecycle_ok d -> match lc_repositories d !! r with
  | Some row => match rp_active_generation row with
      | Some g => exists x, lc_generations d !! (r, g) = Some x /\ gn_verified x = 1 /\ rp_active_commit_hash row = Some (gn_commit_hash x) /\
          load_active_generation d r = Ok (Some (mkActiveGeneration r g (gn_commit_hash x) (gn_manifest_hash x) (gn_manifest_local_path x) (gn_mount_index_path x)))
      | None => load_active_generation d r = Ok None
      end
  | None => load_active_generation d r = Ok None
  end.
Proof.
  intros (HG & HA & _). destruct (lc_repositories d !! r) as [row|] eqn:Er; [|unfold load_active_generation; by rewrite Er].
  destruct (HA r row Er) as [_ Hact]. destruct (rp_active_generation row) as [g|] eqn:Eg; [|unfold load_active_generation; by rewrite Er, Eg].
  destruct (rp_active_commit_hash row) as [c|] eqn:Ec; [|done]. destruct Hact as (x & Hx & <-). destruct (HG r g x Hx) as (Hr & Hv & Hp & Hi).
  exists x. split_and!; [done..|]. unfold load_active_generation. rewrite Er, Eg, Hx, Ec. cbn [ok_or mbind result_bind]. rewrite nonnegative_nonneg by lia.
  cbn [mbind result_bind]. rewrite stored_path_ok by done. cbn [mbind result_bind]. destruct (gn_mount_index_path x) as [i|]; cbn in *; [rewrite stored_path_ok by done|]; done.
Qed.
Lemma active_updates_one (d : LifecycleDb) (r : Z) : lifecycle_ok d -> (length (active_updates d r) <= 1)%nat.
Proof.
  intros (_ & _ & (_ & _ & U3) & _). unfold active_updates. assert (Hl : forall y, y ∈ map_to_list (lc_updates d) -> lc_updates d !! y.1 = Some y.2) by (intros [k x]; by rewrite elem_of_map_to_list).
  pose proof (NoDup_fst_map_to_list (lc_updates d)) as Hn. set (f := fun x : Z * UpdateRow => _). set (l := map_to_list _) in *. clearbody l.
  assert (Hf : forall x y, x ∈ List.filter f l -> y ∈ List.filter f l -> x.1 = y.1).
  { intros x y Hx%list_elem_of_In Hy%list_elem_of_In. apply filter_In in Hx as [Hx%list_elem_of_In [Rx Fx]%andb_true_iff], Hy as [Hy%list_elem_of_In [Ry Fy]%andb_true_iff].
    apply (U3 x.1 y.1 x.2 y.2); [by apply Hl..|lia|done|done]. }
  assert (Hd : NoDup (map fst (List.filter f l))) by (clear -Hn; induction l as [|x l IH]; [constructor|]; apply NoDup_cons in Hn as [Hx Hn]; cbn [List.filter];
    destruct (f x); [|by apply IH]; cbn [map]; apply NoDup_cons; split; [|by apply IH]; intros (y & E & Hy%list_elem_of_In)%list_elem_of_fmap; apply filter_In in Hy as [Hy _]; apply Hx;
    apply list_elem_of_fmap; exists y; split; [done|by apply list_elem_of_In]).
  destruct (List.filter f l) as [|x [|y rest]]; cbn; [lia|lia|]. exfalso. cbn [map] in Hd. apply NoDup_cons in Hd as [Hd _]. apply Hd. rewrite (Hf x y); [by left|by left|right; by left].
Qed.

(** ** Activation *)
Lemma activation_switch_ok (r : Z) (target : Z * Hash) (expected : option (Z * Hash)) (t : Z) (d d' : LifecycleDb) : lifecycle_ok d ->
  activation_switch r target expected t d = Ok (tt, d') -> lifecycle_ok d' /\ activation_active d' r = Ok (Some target) /\ lc_generations d' = lc_generations d /\
  (exists row, lc_repositories d !! r = Some row /\ lc_repositories d' = <[r := set_active (Some target.1) (Some target.2) t row]> (lc_repositories d)) /\
  exists x, lc_generations d !! (r, target.1) = Some x /\ gn_commit_hash x = target.2.
Proof.
  intros Hd H. pose proof (generation_activate_ok _ d d' Hd H) as Hd'.
  apply bind_Ok_inv in H as (g & [-> Hg]%sqlite_integer_inv & (row & Hr%ok_or_Ok_inv & (cur & Hc & H)%bind_Ok_inv)%bind_Ok_inv). cbn [ac_target_generation ac_repository_id ac_target_commit_hash ac_expected_current ac_updated_at_ns] in *.
  destruct (negb _); [done|]. apply bind_Ok_inv in H as (x & Hx%ok_or_Ok_inv & H). destruct (_ || _) eqn:E; [done|]. injection H as <-. zbool.
  pose proof (load_active_exact _ r Hd') as Hact. cbn [lc_repositories with_repositories lc_generations] in Hact |- *. rewrite lookup_insert_eq in Hact. cbn [set_active rp_active_generation rp_active_commit_hash] in Hact.
  destruct Hact as (x' & Hx' & _ & Ec & Hload). split_and!; [done| |done|by exists row|exists x; split; [done|lia]].
  unfold activation_active. rewrite Hload. cbn. injection Ec as <-. by destruct target.
Qed.
Lemma activation_active_ok (d : LifecycleDb) (r : Z) : lifecycle_ok d -> exists p, activation_active d r = Ok p /\
  forall row, lc_repositories d !! r = Some row -> active_columns row = Ok p /\
  forall old, p = Some old -> 0 <= old.1 <= i64_max /\ exists x, lc_generations d !! (r, old.1) = Some x /\ gn_verified x = 1 /\ gn_commit_hash x = old.2.
Proof.
  intros Hd. pose proof (load_active_exact d r Hd) as H. pose proof Hd as (HG & HA & _). unfold activation_active. destruct (lc_repositories d !! r) as [row|] eqn:Er; [|rewrite H; by exists None].
  destruct (HA r row Er) as [_ Hact]. unfold active_columns. destruct (rp_active_generation row) as [g|] eqn:Eg.
  - destruct H as (x & Hx & Hv & Ec & ->). destruct (HG r g x Hx) as (Hb & _). cbn [mbind result_bind ag_generation_id ag_commit_hash]. eexists. split; [reflexivity|].
    intros ? [= <-]. rewrite Eg, Ec, nonnegative_nonneg by lia. split; [done|]. intros old [= <-]. cbn. split; [lia|eauto].
  - rewrite H. cbn. exists None. split; [done|]. intros ? [= <-]. rewrite Eg. by destruct (rp_active_commit_hash row).
Qed.
(** Switching back to what was active succeeds. *)
Lemma activation_back (r : Z) (old target : Z * Hash) (t t' : Z) (d d' : LifecycleDb) : lifecycle_ok d -> activation_active d r = Ok (Some old) ->
  activation_switch r target (Some old) t d = Ok (tt, d') -> exists d'', activation_switch r old (Some target) t' d' = Ok (tt, d'').
Proof.
  intros Hd Ha Hs. destruct (activation_switch_ok _ _ _ _ _ _ Hd Hs) as (Hd' & Ha' & Eg & (row & Hr & Er) & _).
  destruct (activation_active_ok d r Hd) as (p & Hp & Hrow). rewrite Ha in Hp. injection Hp as <-. destruct (proj2 (Hrow row Hr) old eq_refl) as (Hb & x & Hx & Hv & Hc).
  destruct (activation_active_ok d' r Hd') as (p' & Hp' & Hrow'). rewrite Ha' in Hp'. injection Hp' as <-.
  pose proof Er as Hr'. apply (f_equal (lookup r)) in Hr'. rewrite lookup_insert_eq in Hr'. destruct (Hrow' _ Hr') as [Hcols _].
  unfold activation_switch, generation_activate. cbn [ac_target_generation ac_repository_id ac_target_commit_hash ac_expected_current ac_updated_at_ns].
  rewrite sqlite_integer_small by lia. cbn [mbind result_bind]. rewrite Hr'. cbn [ok_or mbind result_bind]. rewrite Hcols. cbn [mbind result_bind]. rewrite bool_decide_true by done. cbn [negb].
  rewrite Eg, Hx. cbn [ok_or mbind result_bind]. rewrite Hv, Hc, !Z.eqb_refl. cbn. eauto.
Qed.

End reachable_states.
Lemma lifecycle_reached (l : list LifecycleOp) : Forall op_typed l -> lifecycle_ok (bare_exit l) (lifecycle_run l empty_lifecycle).
Proof.
  intros Hl. apply lifecycle_run_ok; [done| |apply empty_lifecycle_ok]. apply Forall_forall. intros o Ho. destruct o as [| | | | | | | | | | | |s x e t| | | | |]; try done. destruct e; try done. by exists x, t.
Qed.

(** C27: The lifecycle tables are sound after every sequence of operations.  The
    active generation of a repository is a verified row whose commit hash it
    names, and it loads; a repository has at most one unfinished update; the
    durable state of an update is what the transitions recorded in its event log
    lead to, in sequence from zero, and the log holds the evidence of that state
    in order (all staging, upload and verification steps for a committed one); a
    session has exactly its expected leases until it completes, and then none,
    or all of them if the bare transition to completed was asked for instead of
    the operation that finishes it; so the guard of the schema never fires. *)
Theorem lifecycle_tables_sound (l : list LifecycleOp) (Hl : Forall op_typed l) :
  let d := lifecycle_run l empty_lifecycle in
  (forall r row g, lc_repositories d !! r = Some row -> rp_active_generation row = Some g -> exists x,
     lc_generations d !! (r, g) = Some x /\ gn_verified x = 1 /\ rp_active_commit_hash row = Some (gn_commit_hash x) /\
     load_active_generation d r = Ok (Some (mkActiveGeneration r g (gn_commit_hash x) (gn_manifest_hash x) (gn_manifest_local_path x) (gn_mount_index_path x)))) /\
  (forall r, (length (active_updates d r) <= 1)%nat) /\
  (forall u row, lc_updates d !! u = Some row -> exists s tr, load_update_state d u = Ok (Some s) /\ steps Update.Created tr s /\
     log_is d u ("created"%string :: map Update.UpdateEvent_as_str tr) /\ update_evidence s `sublist_of` tr) /\
  (forall s row, lc_sessions d !! s = Some row -> exists st, load_session_state d s = Ok (Some st) /\
     (if bool_decide (st = Session.Completed) then session_lease_count d s = 0 \/ bare_exit l s /\ session_lease_count d s = se_expected_lease_count row
      else session_lease_count d s = se_expected_lease_count row) /\
     forall e st', Session.transition_session st e = inr st' -> sealed_ready_guard d s (set_session_state st' row) = true).
Proof.
  intros d. pose proof (lifecycle_reached l Hl) as Hd. fold d in Hd. split_and!.
  - intros r row g Hr Hg. pose proof (load_active_exact _ d r Hd) as H. by rewrite Hr, Hg in H.
  - intros r. by eapply active_updates_one.
  - intros u row Hu. destruct Hd as (_ & _ & (U1 & _) & _). destruct (U1 u row Hu) as (_ & _ & _ & s & tr & E & Hst & Hlog). exists s, tr.
    unfold load_update_state. rewrite Hu, E, codec_update_str. split_and!; [done..|]. revert Hst. apply (evidence_sound update_evidence Update.Created eq_refl). apply update_evidence_step.
  - intros s row Hs. destruct Hd as (_ & _ & _ & S1 & _). destruct (S1 s row Hs) as (_ & st & E & Hc). exists st. unfold load_session_state. rewrite Hs, E, codec_session_str.
    split_and!; [done..|]. intros e st' Hst. unfold sealed_ready_guard. destruct (decide (st = Session.Completed)) as [->|]; [by destruct e|].
    rewrite (bool_decide_false (st = Session.Completed)) in Hc by done. cbn [set_session_state se_expected_lease_count]. by rewrite Hc, Z.eqb_refl, orb_true_r.
Qed.


(** ** Pins *)
Definition reason_typed (r : PersistentPinReason) : Prop := match r with PinSession id | PinDirty id => 0 <= id < 2 ^ 128 | _ => True end.
Lemma decode_encode_reason (r : PersistentPinReason) : reason_typed r -> decode_reason (encode_reason r).1 (encode_reason r).2 = Ok r.
Proof.
  assert (Hid : forall id l, 0 <= id < 2 ^ 128 -> fixed_id (to_be 16 id) l = Ok id) by (intros id l H; unfold fixed_id; rewrite length_be, Nat.eqb_refl, be_val_be by done; done).
  destruct r as [|id|id|]; intros Hr; unfold decode_reason; cbn [encode_reason fst snd]; rewrite ?(Hid id) by done; done.
Qed.
Lemma encode_reason_inj (a b : PersistentPinReason) : reason_typed a -> reason_typed b -> encode_reason a = encode_reason b -> a = b.
Proof. intros Ha%decode_encode_reason Hb%decode_encode_reason E. rewrite E in Ha. congruence. Qed.
(** The stored pins are the set [P]. *)
Definition pins_are (d : LifecycleDb) (P : Hash -> PersistentPinReason -> Prop) : Prop :=
  (forall h r, P h r -> reason_typed r) /\ forall h x, (h, x) ∈ lc_pins d <-> exists r, x = encode_reason r /\ P h r.
Lemma decode_pins_spec (P : Hash -> PersistentPinReason -> Prop) (l : list (Hash * (string * list Z))) : (forall h r, P h r -> reason_typed r) ->
  (forall h x, (h, x) ∈ l -> exists r, x = encode_reason r /\ P h r) ->
  exists k, decode_pins l = Ok k /\ length k = length l /\ forall h r, (h, r) ∈ k <-> reason_typed r /\ (h, encode_reason r) ∈ l.
Proof.
  intros HP. induction l as [|[h x] l IH]; intros Hl; cbn [decode_pins].
  - exists []. split_and!; [done..|]. intros h r. split; [by intros ?%not_elem_of_nil|by intros [_ ?%not_elem_of_nil]].
  - destruct IH as (k & -> & Hlen & Hk); [intros h' x' Hin; apply Hl; by right|]. destruct (Hl h x ltac:(by left)) as (r & -> & Hr). cbn [fst snd].
    rewrite decode_encode_reason by (by eapply HP). cbn [mbind result_bind]. eexists. split_and!; [reflexivity|cbn; by rewrite Hlen|]. intros h' r'. rewrite !elem_of_cons, Hk. split.
    + intros [[= -> ->]|[Ht Hin]]; [split; [by eapply HP|by left]|split; [done|by right]].
    + intros [Ht [[= -> E]|Hin]]; [left; f_equal; apply encode_reason_inj; [done|by eapply HP|done]|by right].
Qed.

(** Cache pins are a set of pages and reasons: a batch pins all its
    pages, every one of them resident and its owner known, or none; a release
    drops the pins of its reason and no other; and loading returns each stored
    pin once, with the reason it was stored under. *)
Theorem cache_pins_refine_set (d : LifecycleDb) (P : Hash -> PersistentPinReason -> Prop) (reason : PersistentPinReason) (pages : list Hash)
    (HP : pins_are d P) (Hr : reason_typed reason) :
  (forall d', pin_pages reason pages d = Ok (tt, d') -> pins_are d' (fun h r => P h r \/ h ∈ pages /\ r = reason) /\ validate_pin_owner d reason = Ok tt /\
     Forall (fun h => exists k row, lc_slots d = lc_slots d' /\ cache_slots (lc_slots d) !! k = Some row /\ holds_hash h Resident row = true) pages) /\
  (forall d', release_pins reason d = Ok (tt, d') -> pins_are d' (fun h r => P h r /\ r <> reason)) /\
  (exists l, load_pins d = Ok l /\ Z.of_nat (length l) = Z.of_nat (size (lc_pins d)) /\ forall h r, (h, r) ∈ l <-> P h r).
Proof.
  destruct HP as [HPt HPin]. assert (Hpages : forall h, h ∈ remove_dups (sort_by Z.leb pages) <-> h ∈ pages) by (intros h; rewrite elem_of_remove_dups; by rewrite sort_by_perm).
  split_and!.
  - intros d'. unfold pin_pages. case_bool_decide; [done|]. intros ([] & Hown & ([] & Hres%for_each_Ok & [= <-])%bind_Ok_inv)%bind_Ok_inv. split_and!; [split| |].
    + intros h r [H1|[_ ->]]; [by eapply HPt|done].
    + intros h x. cbn [lc_pins with_pins]. rewrite elem_of_union, elem_of_list_to_set, list_elem_of_fmap, HPin. split.
      * intros [(p & [= -> ->] & Hp%Hpages)|(r & -> & Hpr)]; eauto 6.
      * intros (r & -> & [Hpr|[Hp ->]]); [right; eauto|left]. exists h. split; [done|by apply Hpages].
    + done.
    + apply Forall_forall. intros h Hh%Hpages. rewrite Forall_forall in Hres. specialize (Hres h Hh). apply fail_if_Ok_inv in Hres. case_bool_decide as Hw; [done|].
      destruct (slots_where (holds_hash h Resident) (lc_slots d)) as [|[k row] rest] eqn:Es; [done|]. exists k, row. split; [done|].
      assert (Hin : (k, row) ∈ slots_where (holds_hash h Resident) (lc_slots d)) by (rewrite Es; by left). unfold slots_where in Hin. rewrite sort_by_perm in Hin.
      apply list_elem_of_In, filter_In in Hin as [Hin%list_elem_of_In%elem_of_map_to_list Hh']. by split.
  - intros d' [= <-]. split; [intros h r [H1 _]; by eapply HPt|]. intros h x. cbn [lc_pins with_pins]. rewrite elem_of_filter, HPin. cbn [snd]. split.
    + intros [Hne (r & -> & Hpr)]. exists r. split; [done|]. split; [done|]. by intros ->.
    + intros (r & -> & Hpr & Hne). split; [|eauto]. intros E. apply Hne, encode_reason_inj; [by eapply HPt|done..].
  - unfold load_pins. destruct (decode_pins_spec P (sort_by pin_le (elements (lc_pins d))) HPt) as (l & Hl & Hlen & Hin).
    { intros h x. rewrite sort_by_perm, elem_of_elements. apply HPin. }
    exists l. split_and!; [done|by rewrite Hlen, sort_by_perm|]. intros h r. rewrite Hin, sort_by_perm, elem_of_elements, HPin. split.
    + intros (Ht & r' & E & Hpr). apply encode_reason_inj in E as ->; [done..|by eapply HPt].
    + intros Hpr. split; [by eapply HPt|eauto].
Qed.

(** ** A repository at work *)
Definition demo_generation (g : Z) : VerifiedGeneration := mkVerifiedGeneration 9 g (100 + g) (200 + g) (Some "m"%string) None 5.
Definition demo_setup : list LifecycleOp :=
  [OpCreateRepository (mkNewRepository 9 "game" (Some "C:/game"%string) "S-1-5-18" false Repository.ReadyUnmounted 1);
   OpInsertGeneration (demo_generation 1); OpInsertGeneration (demo_generation 2); OpActivate (mkActivation 9 1 101 None 6);
   OpCreateJournal (mkNewUpdate 70 9 1 2 (Some "j"%string) 7); OpCreateJournal (mkNewUpdate 71 9 1 2 (Some "j"%string) 7);
   OpUpdateTransition 70 Update.Created Update.NativeSnapshotStarted "" 8; OpUpdateTransition 70 Update.NativeSnapshotInProgress Update.ApplyStarted "" 9;
   OpUpdateTransition 70 Update.Created Update.ApplyStarted "" 9;
   OpCreateSession (mkNewSession 30 9 1 None 2 [mkLeaseSpec 11 "seal"; mkLeaseSpec 12 "seal"; mkLeaseSpec 11 "seal"] 10); OpRecordProcess 30 1001 11;
   OpSessionTransition 30 Session.Verifying Session.VerificationPassed 12; OpSessionTransition 30 Session.SealedReady Session.LaunchRequested 13;
   OpSessionTransition 30 Session.Launching Session.LaunchObserved 14].
Definition demo_db : LifecycleDb := lifecycle_run demo_setup empty_lifecycle.
Lemma demo_setup_typed : Forall op_typed demo_setup.
Proof. repeat constructor; try done; cbn; unfold u64_max; lia. Qed.
Example demo_log : map (fun x => (x.1, ev_kind x.2)) (sort_by_key (fun x => x.1.2) (map_to_list (lc_events demo_db))) =
  [((70, 0), "created"%string); ((70, 1), "native_snapshot_started"%string); ((70, 2), "apply_started"%string)].
Proof. vm_compute. reflexivity. Qed.
(** A session is finished with exactly its live processes, and frees its leases. *)
Example demo_finish : session_lease_count demo_db 30 = 2 /\ run_op (OpFinishSession 30 [] 20) demo_db = demo_db /\
  session_lease_count (run_op (OpFinishSession 30 [1001] 20) demo_db) 30 = 0.
Proof. vm_compute. repeat split; reflexivity. Qed.
(** The bare transition also completes a session, and finishing it afterwards
    does nothing, so its leases stay. *)
Example transition_keeps_leases :
  let d := run_op (OpFinishSession 30 [1001] 20) (run_op (OpSessionTransition 30 Session.Active Session.ProcessesExited 19) demo_db) in
  load_session_state d 30 = Ok (Some Session.Completed) /\ session_lease_count d 30 = 2.
Proof. vm_compute. split; reflexivity. Qed.
(** A violated session cannot be finished. *)
Example violated_keeps_leases :
  let d := run_op (OpMarkViolation 30 "read outside the capsule") demo_db in
  load_session_state d 30 = Ok (Some Session.Violated) /\ run_op (OpFinishSession 30 [1001] 20) d = d /\ session_lease_count d 30 = 2.
Proof. vm_compute. repeat split; reflexivity. Qed.
Definition failing_mounter : GenerationMounter () := mkMounter (fun m => (Ok tt, m)) (fun _ m => (Err (internal_invariant "smoke test failed"), m)).
(** The first activation of a repository is not rolled back. *)
Example first_activation_stays :
  let d := lifecycle_run (take 3 demo_setup) empty_lifecycle in
  let '(r, _, d') := engine_activate_generation failing_mounter (mkActivationPlan 9 1 101 6) tt d in
  r = Err (internal_invariant "smoke test failed") /\ activation_active d 9 = Ok None /\ activation_active d' 9 = Ok (Some (1, 101)).
Proof. vm_compute. repeat split; reflexivity. Qed.

Lemma lifecycle_tables_sound_witness : Forall op_typed demo_setup /\ exists x, lc_generations demo_db !! (9, 1) = Some x /\ gn_verified x = 1.
Proof.
  split; [exact demo_setup_typed|]. destruct (lifecycle_tables_sound demo_setup demo_setup_typed) as [H _].
  assert (Hq : (r ← lc_repositories demo_db !! 9; rp_active_generation r) = Some 1) by (vm_compute; reflexivity).
  apply bind_Some in Hq as (row & Er & Hg). destruct (H 9 row 1 Er Hg) as (x & Hx & Hv & _). exists x. exact (conj Hx Hv).
Defined.
Lemma cache_pins_refine_set_witness : pins_are empty_lifecycle (fun _ _ => False) /\ load_pins empty_lifecycle = Ok [].
Proof.
  assert (H : pins_are empty_lifecycle (fun _ _ => False)) by (split; [done|]; intros h x; split; [intros E; by apply elem_of_empty in E|by intros (r & _ & [])]).
  split; [exact H|]. destruct (cache_pins_refine_set empty_lifecycle (fun _ _ => False) PinMandatory [] H I) as (_ & _ & l & -> & Hl & _). by destruct l.
Defined.
