(* ===== verification/Uploads.v ===== *)
(** * Upload sessions and resumable publication

    The ledger of upload sessions ([mirage-db/src/upload_session.rs], table
    [publication_sessions] of [migrations/0016]) and the driver that publishes
    one object through it ([mirage-engine/src/publication_session.rs]).

    The table is a map from session ids to rows; an operation returns the new
    table with its result.  The order in which a statement visits the rows is a
    parameter ([scan]): SQL leaves the order of rows with equal [created_ns]
    open.  The transport is a class over its own world, as the trait is, and
    [TransportContract] is what its documentation promises; the driver runs in
    the monad of [Effects] over the transport and the table, so that an error
    keeps everything done before it.  The loop of [step] takes fuel and returns
    [None] when it has not finished.

    Proved: whatever fails in between, a publication that returns success has
    bound the object to exactly the published bytes, and a transport that
    confirms what it is sent completes every publication. *)
From S2P Require Export Effects Sql Bytes.

(** ** [upload_session.rs] *)
Inductive SessionKind : Set := KindPack | KindManifest | KindCommit | KindTombstone.
Inductive SessionPhase : Set := Created | Initiated | Uploading | Uploaded | Committed | Aborted | Done.
#[export] Instance SessionKind_eq_dec : EqDecision SessionKind.
Proof. solve_decision. Defined.
#[export] Instance SessionPhase_eq_dec : EqDecision SessionPhase.
Proof. solve_decision. Defined.

Definition SessionKind_as_str (k : SessionKind) : string :=
  match k with KindPack => "pack" | KindManifest => "manifest" | KindCommit => "commit" | KindTombstone => "tombstone" end.
Definition SessionKind_parse (value : string) : result SessionKind :=
  if bool_decide (value = "pack"%string) then Ok KindPack else
  if bool_decide (value = "manifest"%string) then Ok KindManifest else
  if bool_decide (value = "commit"%string) then Ok KindCommit else
  if bool_decide (value = "tombstone"%string) then Ok KindTombstone else Err (integrity_mismatch "session kind is unknown").
Definition SessionPhase_as_str (p : SessionPhase) : string :=
  match p with
  | Created => "created" | Initiated => "initiated" | Uploading => "uploading" | Uploaded => "uploaded" | Committed => "committed"
  | Aborted => "aborted" | Done => "done"
  end.
Definition SessionPhase_parse (value : string) : result SessionPhase :=
  if bool_decide (value = "created"%string) then Ok Created else
  if bool_decide (value = "initiated"%string) then Ok Initiated else
  if bool_decide (value = "uploading"%string) then Ok Uploading else
  if bool_decide (value = "uploaded"%string) then Ok Uploaded else
  if bool_decide (value = "committed"%string) then Ok Committed else
  if bool_decide (value = "aborted"%string) then Ok Aborted else
  if bool_decide (value = "done"%string) then Ok Done else Err (integrity_mismatch "session phase is unknown").
Definition is_terminal (p : SessionPhase) : bool := match p with Committed | Aborted | Done => true | _ => false end.

Record UploadSession : Set := mkUploadSession {
  us_session_id : Z; us_volume_id : Z; us_kind : SessionKind; us_object_key : string; us_content_hash : option Hash; us_phase : SessionPhase;
  us_remote_upload_id : option string; us_session_uri : option string; us_chunk_offset : Z; us_committed_bytes : Z; us_total_bytes : option Z;
  us_next_ops : list Z; us_error_class : option string; us_attempts : Z; us_created_ns : Z; us_updated_ns : Z
}.
#[export] Instance UploadSession_eq_dec : EqDecision UploadSession.
Proof. solve_decision. Defined.

(** A row of [publication_sessions]; the id is the key of the table. *)
Record UploadRow : Set := mkUploadRow {
  sr_volume_id : Z; sr_kind : string; sr_object_key : string; sr_content_hash : option Hash; sr_phase : string;
  sr_remote_upload_id : option string; sr_session_uri : option string; sr_chunk_offset : Z; sr_committed_bytes : Z; sr_total_bytes : option Z;
  sr_next_ops : list Z; sr_error_class : option string; sr_attempts : Z; sr_created_ns : Z; sr_updated_ns : Z
}.
Notation SessionTable := (gmap Z UploadRow).

(** The [CHECK]s of the table that the codecs do not already give. *)
Definition upload_row_check (_ : Z) (r : UploadRow) : bool :=
  (0 <=? sr_chunk_offset r) && (0 <=? sr_committed_bytes r) && forallb (Z.leb 0) (option_list (sr_total_bytes r)) &&
  (0 <=? sr_attempts r) && (sr_attempts r <=? i64_max).
Definition insert_upload_row := insert_row upload_row_check (fun _ _ => false).
Definition update_upload_row := update_row upload_row_check (fun _ _ => false).

Definition create_session (session : UploadSession) (t : SessionTable) : result (() * SessionTable) :=
  if negb (bool_decide (us_phase session = Created)) || negb (us_chunk_offset session =? 0) || negb (us_committed_bytes session =? 0) ||
     bool_decide (is_Some (us_remote_upload_id session)) || bool_decide (is_Some (us_session_uri session))
  then Err (invalid_argument "a new upload session must start in the created phase") else
  match insert_upload_row (us_session_id session)
          (mkUploadRow (us_volume_id session) (SessionKind_as_str (us_kind session)) (us_object_key session) (us_content_hash session) "created"
             None None 0 0 (as_i64 <$> us_total_bytes session) (us_next_ops session) None 0 (us_created_ns session) (us_created_ns session)) t with
  | Some t' => Ok (tt, t')
  | None => Err (sqlite "upload session insert failed")
  end.

(** The columns of a row as a session, with the conversions of [row.get]. *)
Definition session_of_row (id : Z) (r : UploadRow) : option UploadSession :=
  match SessionKind_parse (sr_kind r), SessionPhase_parse (sr_phase r) with
  | Ok kind, Ok phase =>
      if (0 <=? sr_chunk_offset r) && (0 <=? sr_committed_bytes r) && forallb (Z.leb 0) (option_list (sr_total_bytes r)) &&
         (0 <=? sr_attempts r) && (sr_attempts r <=? u32_max)
      then Some (mkUploadSession id (sr_volume_id r) kind (sr_object_key r) (sr_content_hash r) phase (sr_remote_upload_id r) (sr_session_uri r)
                   (sr_chunk_offset r) (sr_committed_bytes r) (sr_total_bytes r) (sr_next_ops r) (sr_error_class r) (sr_attempts r)
                   (sr_created_ns r) (sr_updated_ns r))
      else None
  | _, _ => None
  end.
Definition load_session (id : Z) (t : SessionTable) : result (option UploadSession) :=
  match t !! id with
  | None => Ok None
  | Some r => match session_of_row id r with Some s => Ok (Some s) | None => Err (sqlite "upload session load failed") end
  end.
Definition find_session_by_id : Z -> SessionTable -> result (option UploadSession) := load_session.

(** [COALESCE(value, column)]. *)
Definition sql_coalesce {A : Type} (value column : option A) : option A := match value with Some _ => value | None => column end.
Definition advance_phase (id : Z) (expected_phase phase : SessionPhase) (remote_upload_id session_uri : option string) (chunk_offset committed_bytes : Z)
    (error_class : option string) (now_ns : Z) (t : SessionTable) : result (() * SessionTable) :=
  match update_upload_row id
          (fun r => bool_decide (sr_phase r = SessionPhase_as_str expected_phase) && (sr_committed_bytes r <=? as_i64 committed_bytes) &&
                    (sr_chunk_offset r <=? as_i64 chunk_offset))
          (fun r => mkUploadRow (sr_volume_id r) (sr_kind r) (sr_object_key r) (sr_content_hash r) (SessionPhase_as_str phase)
                      (sql_coalesce remote_upload_id (sr_remote_upload_id r)) (sql_coalesce session_uri (sr_session_uri r))
                      (as_i64 chunk_offset) (as_i64 committed_bytes) (sr_total_bytes r) (sr_next_ops r) error_class (sr_attempts r + 1)
                      (sr_created_ns r) now_ns) t with
  | None => Err (sqlite "upload session advance failed")
  | Some (changed, t') =>
      if changed =? 1 then Ok (tt, t') else Err (repository_conflict "upload session phase does not match the expected predecessor")
  end.

Section scan.
Context (scan : SessionTable -> list (Z * UploadRow)).

(** [ORDER BY created_ns DESC LIMIT 1]. *)
Definition newest (volume : Z) (object_key : string) (t : SessionTable) : option Z :=
  fst <$> head (sort_by_key (fun x => - sr_created_ns x.2)
                  (List.filter (fun x => (sr_volume_id x.2 =? volume) && bool_decide (sr_object_key x.2 = object_key)) (scan t))).
Definition find_session_by_key (volume : Z) (object_key : string) (t : SessionTable) : result (option UploadSession) :=
  match newest volume object_key t with Some id => load_session id t | None => Ok None end.
Definition unfinished_row (volume : Z) (r : UploadRow) : bool :=
  (sr_volume_id r =? volume) && negb (bool_decide (sr_phase r ∈ ["committed"%string; "aborted"%string; "done"%string])).
Definition unfinished_sessions (volume : Z) (t : SessionTable) : result (list UploadSession) :=
  mapM (fun id => s ← load_session id t; ok_or (internal_invariant "session vanished mid-scan") s)
    (map fst (sort_by_key (fun x => sr_created_ns x.2) (List.filter (fun x => unfinished_row volume x.2) (scan t)))).

(** ** [publication_session.rs] *)
Record RemoteSession : Set := mkRemoteSession { rs_upload_id : string; rs_session_uri : string }.
Class UploadTransport (T : Type) : Type := {
  tr_initiate : string -> option Z -> T -> result RemoteSession * T;
  tr_upload : string -> Z -> list Z -> T -> result Z * T;
  tr_commit : string -> T -> result () * T;
  tr_abort : string -> T -> result () * T
}.

Section driver.
Context {T : Type} `{UploadTransport T} (blake3 : list Z -> Hash) (volume : Z).
Notation W := (T * SessionTable)%type.

Definition on_transport {A : Type} (f : T -> result A * T) : io W A := fun w => let '(r, t) := f w.1 in (r, (t, w.2)).
Definition on_table (f : SessionTable -> result (() * SessionTable)) : io W () := fun w =>
  match f w.2 with Ok (_, t) => (Ok tt, (w.1, t)) | Err e => (Err e, w) end.

Definition load (id : Z) (t : SessionTable) : result UploadSession :=
  l ← unfinished_sessions volume t;
  match List.find (fun s => us_session_id s =? id) l with
  | Some s => Ok s
  | None =>
      match find_session_by_id id t with
      | Ok (Some s) => Ok s
      | _ => Err (repository_conflict "upload session is missing")
      end
  end.
Definition advance_session (session : UploadSession) (phase : SessionPhase) (remote_upload_id session_uri : option string) (chunk_offset committed_bytes : Z)
    (error_class : option string) (now_ns : Z) : io W () :=
  on_table (advance_phase (us_session_id session) (us_phase session) phase remote_upload_id session_uri chunk_offset committed_bytes error_class now_ns).

(** [bytes.get(start..end)]. *)
Definition get_range (l : list Z) (s e : Z) : option (list Z) :=
  if (s <=? e) && (e <=? Z.of_nat (length l)) then Some (take (Z.to_nat (e - s)) (drop (Z.to_nat s) l)) else None.

(** The arm of the phases [Initiated] and [Uploading]. *)
Definition send_chunk (session : UploadSession) (bytes : list Z) (now_ns : Z) : io W (option UploadSession) :=
  uri ← io_pure (ok_or (internal_invariant "initiated session has no upload URI") (us_session_uri session));
  let offset := us_committed_bytes session in
  let total := default (Z.of_nat (length bytes)) (us_total_bytes session) in
  if total <=? offset then _ ← advance_session session Uploaded None None offset offset None now_ns; mret None else
  let chunk_end := Z.min (offset +! 8388608) total in
  chunk ← io_pure (ok_or (integrity_mismatch "session byte range exceeds the payload") (get_range bytes offset chunk_end));
  committed ← on_transport (tr_upload uri offset chunk);
  _ ← advance_session session Uploading None None committed committed None now_ns;
  mret None.

(** One iteration of the loop: the session when it is finished. *)
Definition step_once (id : Z) (bytes : list Z) (now_ns : Z) : io W (option UploadSession) :=
  session ← io_read (fun w => load id w.2);
  match us_phase session with
  | Committed | Done => mret (Some session)
  | Aborted => io_pure (Err (repository_conflict "upload session was aborted"))
  | Created =>
      remote ← on_transport (tr_initiate (us_object_key session) (us_total_bytes session));
      _ ← advance_session session Initiated (Some (rs_upload_id remote)) (Some (rs_session_uri remote)) 0 0 None now_ns;
      mret None
  | Initiated | Uploading =>
      send_chunk session bytes now_ns
  | Uploaded =>
      uri ← io_pure (ok_or (internal_invariant "uploaded session has no upload URI") (us_session_uri session));
      _ ← on_transport (tr_commit uri);
      _ ← advance_session session Committed None None (us_committed_bytes session) (us_committed_bytes session) None now_ns;
      mret None
  end.
Fixpoint step (fuel : nat) (id : Z) (bytes : list Z) (now_ns : Z) : io W (option UploadSession) :=
  match fuel with
  | O => mret None
  | S fuel => r ← step_once id bytes now_ns; match r with Some s => mret (Some s) | None => step fuel id bytes now_ns end
  end.

Definition resume_unfinished (t : SessionTable) : result (list UploadSession) := unfinished_sessions volume t.
Definition record_error (id : Z) (error_class : string) (now_ns : Z) : io W () :=
  session ← io_read (fun w => load id w.2);
  on_table (advance_phase (us_session_id session) (us_phase session) (us_phase session) None None (us_chunk_offset session) (us_committed_bytes session)
              (Some error_class) now_ns).

(** [entropy] is what [getrandom] draws. *)
Definition create_new (entropy : option Z) (object_key : string) (content_hash : Hash) (total_bytes now_ns : Z) : io W UploadSession :=
  id ← io_pure (ok_or (internal_invariant "session id entropy failed") entropy);
  let session := mkUploadSession id volume KindPack object_key (Some content_hash) Created None None 0 0 (Some total_bytes) [] None 0 now_ns now_ns in
  _ ← on_table (create_session session); mret session.
Definition open_or_create (entropy : option Z) (object_key : string) (content_hash : Hash) (total_bytes now_ns : Z) : io W UploadSession :=
  existing ← io_read (fun w => find_session_by_key volume object_key w.2);
  match existing with
  | Some e =>
      if is_terminal (us_phase e) && bool_decide (us_content_hash e = Some content_hash) then mret e else
      if negb (is_terminal (us_phase e)) then
        if negb (bool_decide (us_content_hash e = Some content_hash)) || negb (bool_decide (us_total_bytes e = Some total_bytes))
        then io_pure (Err (integrity_mismatch "existing upload session covers different content")) else mret e
      else create_new entropy object_key content_hash total_bytes now_ns
  | None => create_new entropy object_key content_hash total_bytes now_ns
  end.
Definition publish (fuel : nat) (entropy : option Z) (object_key : string) (content_hash : Hash) (bytes : list Z) (now_ns : Z) : io W (option UploadSession) :=
  if negb (blake3 bytes =? content_hash) then io_pure (Err (integrity_mismatch "publication bytes do not match the declared content hash")) else
  session ← open_or_create entropy object_key content_hash (Z.of_nat (length bytes)) now_ns;
  step fuel (us_session_id session) bytes now_ns.
End driver.
End scan.

(** ** What a transport promises

    [tr_key] is the object an upload URI stands for, [tr_open] whether the
    upload can still be resumed, [tr_received] the bytes the remote holds for it
    and [tr_object] the bytes bound to an object key. *)
Class TransportContract (T : Type) `{UploadTransport T} : Type := {
  tr_key : T -> string -> option string;
  tr_open : T -> string -> bool;
  tr_received : T -> string -> list Z;
  tr_object : T -> string -> option (list Z);
  tr_initiate_spec : forall key total t r t', tr_initiate key total t = (r, t') ->
    (forall u, is_Some (tr_key t u) -> tr_key t' u = tr_key t u /\ tr_open t' u = tr_open t u /\ tr_received t' u = tr_received t u) /\
    (forall k, tr_object t' k = tr_object t k) /\
    (forall u, tr_key t u = None -> tr_key t' u = None \/ tr_key t' u = Some key /\ tr_received t' u = []) /\
    (forall s, r = Ok s -> tr_key t' (rs_session_uri s) = Some key /\ tr_open t' (rs_session_uri s) = true);
  tr_upload_spec : forall uri offset bytes t r t' key, tr_key t uri = Some key -> tr_open t uri = true ->
    0 <= offset <= Z.of_nat (length (tr_received t uri)) -> tr_upload uri offset bytes t = (r, t') ->
    (forall u, u <> uri -> tr_key t' u = tr_key t u /\ tr_open t' u = tr_open t u /\ tr_received t' u = tr_received t u) /\
    (forall k, tr_object t' k = tr_object t k) /\ tr_key t' uri = Some key /\ tr_open t' uri = true /\
    take (Z.to_nat offset) (tr_received t' uri) = take (Z.to_nat offset) (tr_received t uri) /\
    (length (tr_received t' uri) <= length (tr_received t uri) `max` (Z.to_nat offset + length bytes))%nat /\
    (forall c, r = Ok c -> 0 <= c <= Z.of_nat (length (tr_received t' uri)) /\ c <= offset + Z.of_nat (length bytes) /\
       take (Z.to_nat c) (tr_received t' uri) = take (Z.to_nat c) (take (Z.to_nat offset) (tr_received t uri) ++ bytes));
  tr_commit_spec : forall uri t r t' key, tr_key t uri = Some key -> tr_commit uri t = (r, t') ->
    (forall u, u <> uri -> tr_open t' u = tr_open t u) /\
    (forall u, tr_key t' u = tr_key t u /\ tr_received t' u = tr_received t u) /\
    (forall k, k <> key -> tr_object t' k = tr_object t k) /\
    (tr_object t' key = tr_object t key \/ tr_object t' key = Some (tr_received t uri)) /\
    (r = Ok tt -> tr_object t' key = Some (tr_received t uri) /\ tr_open t' uri = false)
}.

(** A transport that answers every request and confirms all it was sent. *)
Class ConfirmingTransport (T : Type) `{TransportContract T} : Prop := {
  tr_initiate_ok : forall key total t, exists s t', tr_initiate key total t = (Ok s, t');
  tr_upload_ok : forall uri offset bytes t key, tr_key t uri = Some key -> tr_open t uri = true ->
    0 <= offset <= Z.of_nat (length (tr_received t uri)) -> exists t', tr_upload uri offset bytes t = (Ok (offset + Z.of_nat (length bytes)), t');
  tr_commit_ok : forall uri t key, tr_key t uri = Some key -> exists t', tr_commit uri t = (Ok tt, t')
}.

(** ** The table *)
Lemma phase_codec (p : SessionPhase) : SessionPhase_parse (SessionPhase_as_str p) = Ok p.
Proof. by destruct p. Qed.
Lemma phase_str_inj (p q : SessionPhase) : SessionPhase_as_str p = SessionPhase_as_str q -> p = q.
Proof. intros E. apply (f_equal SessionPhase_parse) in E. rewrite !phase_codec in E. by injection E. Qed.
Lemma load_session_Some (id : Z) (t : SessionTable) (s : UploadSession) :
  load_session id t = Ok (Some s) -> exists r, t !! id = Some r /\ session_of_row id r = Some s.
Proof. unfold load_session. destruct (t !! id) as [r|]; [|done]. destruct (session_of_row id r) eqn:E; [|done]. intros [= <-]. eauto. Qed.
Lemma session_of_row_Some (id : Z) (r : UploadRow) (s : UploadSession) : session_of_row id r = Some s ->
  SessionPhase_parse (sr_phase r) = Ok (us_phase s) /\ us_session_id s = id /\ us_object_key s = sr_object_key r /\ us_content_hash s = sr_content_hash r /\
  us_session_uri s = sr_session_uri r /\ us_committed_bytes s = sr_committed_bytes r /\ us_chunk_offset s = sr_chunk_offset r /\
  us_total_bytes s = sr_total_bytes r.
Proof.
  unfold session_of_row. destruct (SessionKind_parse _); [|done]. destruct (SessionPhase_parse _) eqn:E; [|done]. destruct (_ && _); [|done].
  by intros [= <-].
Qed.

(** The row an advance writes. *)
Definition advanced (phase : SessionPhase) (upload_id uri : option string) (c : Z) (e : option string) (now : Z) (r : UploadRow) : UploadRow :=
  mkUploadRow (sr_volume_id r) (sr_kind r) (sr_object_key r) (sr_content_hash r) (SessionPhase_as_str phase)
    (sql_coalesce upload_id (sr_remote_upload_id r)) (sql_coalesce uri (sr_session_uri r)) c c (sr_total_bytes r) (sr_next_ops r) e (sr_attempts r + 1)
    (sr_created_ns r) now.
Lemma advance_phase_Ok (id : Z) (p q : SessionPhase) (upload_id uri : option string) (c : Z) (e : option string) (now : Z) (t t' : SessionTable) :
  0 <= c <= i64_max -> advance_phase id p q upload_id uri c c e now t = Ok (tt, t') ->
  exists r, t !! id = Some r /\ sr_phase r = SessionPhase_as_str p /\ sr_committed_bytes r <= c /\ t' = <[id := advanced q upload_id uri c e now r]> t /\
    upload_row_check id (advanced q upload_id uri c e now r) = true.
Proof.
  intros Hc. unfold advance_phase, update_upload_row, update_row. rewrite as_i64_small by lia.
  destruct (t !! id) as [r|]; [|by cbn]. destruct (_ && _) eqn:Ew; [|by cbn].
  change (mkUploadRow _ _ _ _ _ _ _ _ _ _ _ _ _ _ _) with (advanced q upload_id uri c e now r).
  destruct (fits_at _ _ id _ t) eqn:Ef; [|done]. cbn. intros [= <-]. zbool. apply bool_decide_eq_true in H. apply fits_at_iff in Ef as [Hk _].
  exists r. by split_and!.
Qed.
Lemma advance_phase_lands (id : Z) (p q : SessionPhase) (upload_id uri : option string) (c : Z) (e : option string) (now : Z) (t : SessionTable) (r : UploadRow) :
  0 <= c <= i64_max -> t !! id = Some r -> sr_phase r = SessionPhase_as_str p -> sr_committed_bytes r <= c -> sr_chunk_offset r <= c ->
  forallb (Z.leb 0) (option_list (sr_total_bytes r)) = true -> 0 <= sr_attempts r < i64_max ->
  advance_phase id p q upload_id uri c c e now t = Ok (tt, <[id := advanced q upload_id uri c e now r]> t).
Proof.
  intros Hc Hr Hp H1 H2 H3 H4. unfold advance_phase, update_upload_row, update_row. rewrite Hr, as_i64_small by lia.
  rewrite bool_decide_true by done. do 2 rewrite (proj2 (Z.leb_le _ _)) by done. cbn [andb].
  change (mkUploadRow _ _ _ _ _ _ _ _ _ _ _ _ _ _ _) with (advanced q upload_id uri c e now r).
  assert (Hf : fits_at upload_row_check (fun _ _ => false) id (advanced q upload_id uri c e now r) t = true).
  { apply fits_at_iff. split; [|done]. unfold upload_row_check. cbn. rewrite H3. repeat rewrite (proj2 (Z.leb_le _ _)) by lia. done. }
  by rewrite Hf.
Qed.

(** ** The invariant of table and transport *)
Section publication.
Context (scan : SessionTable -> list (Z * UploadRow)) (scan_all : forall t, scan t ≡ₚ map_to_list t).
Context {T : Type} `{TransportContract T} (blake3 : list Z -> Hash) (volume : Z).
Context (payload : list Z -> Prop) (no_collision : forall a b, payload a -> payload b -> blake3 a = blake3 b -> a = b).
Implicit Types (t : T) (tb : SessionTable) (r x : UploadRow) (b : list Z).

Definition row_unfinished (r : UploadRow) : Prop := sr_phase r <> SessionPhase_as_str Committed.
(** What the recorded phase says about the remote. *)
Definition phase_ok (t : T) (b : list Z) (r : UploadRow) (p : SessionPhase) : Prop :=
  match p with
  | Created => sr_session_uri r = None /\ sr_committed_bytes r = 0
  | Initiated | Uploading => exists u, sr_session_uri r = Some u /\ tr_key t u = Some (sr_object_key r) /\ tr_open t u = true /\
      sr_committed_bytes r <= Z.of_nat (length (tr_received t u)) /\ (length (tr_received t u) <= length b)%nat /\
      take (Z.to_nat (sr_committed_bytes r)) (tr_received t u) = take (Z.to_nat (sr_committed_bytes r)) b
  | Uploaded => exists u, sr_session_uri r = Some u /\ tr_key t u = Some (sr_object_key r) /\ tr_received t u = b
  | Committed => True
  | Aborted | Done => False
  end.
Definition upload_row_ok (t : T) (b : list Z) (r : UploadRow) (p : SessionPhase) : Prop :=
  (sr_volume_id r = volume /\ sr_kind r = "pack"%string /\ sr_content_hash r = Some (blake3 b) /\ sr_total_bytes r = Some (Z.of_nat (length b)) /\
   Z.of_nat (length b) <= i64_max /\ sr_phase r = SessionPhase_as_str p /\ sr_chunk_offset r = sr_committed_bytes r /\
   0 <= sr_committed_bytes r <= Z.of_nat (length b) /\ 0 <= sr_attempts r <= i64_max) /\ phase_ok t b r p.
Definition newer_than_others (tb : SessionTable) (id : Z) (r : UploadRow) : Prop :=
  forall j x, tb !! j = Some x -> j <> id -> sr_object_key x = sr_object_key r -> sr_created_ns x < sr_created_ns r.

Record uploads_ok (clock : Z) (t : T) (tb : SessionTable) : Prop := mkUploadsOk {
  so_rows : forall id r, tb !! id = Some r -> exists b p, payload b /\ upload_row_ok t b r p;
  so_clock : forall id r, tb !! id = Some r -> sr_created_ns r <= clock;
  so_distinct : forall i j r x, tb !! i = Some r -> tb !! j = Some x -> i <> j -> sr_object_key x = sr_object_key r -> sr_created_ns x <> sr_created_ns r;
  so_newest : forall id r, tb !! id = Some r -> row_unfinished r -> newer_than_others tb id r;
  so_object : forall id r b, tb !! id = Some r -> ~ row_unfinished r -> newer_than_others tb id r -> payload b -> sr_content_hash r = Some (blake3 b) ->
    tr_object t (sr_object_key r) = Some b;
  so_open : forall u k, tr_key t u = Some k -> tr_open t u = true -> tr_received t u = [] \/
    exists id r, tb !! id = Some r /\ row_unfinished r /\ sr_object_key r = k /\ sr_session_uri r = Some u
}.

Lemma unfinished_phase r p : sr_phase r = SessionPhase_as_str p -> row_unfinished r <-> p <> Committed.
Proof. unfold row_unfinished. intros ->. split; [by intros Hn ->|by intros Hn E%phase_str_inj]. Qed.
Lemma payload_of_row t r b b' p : payload b -> sr_content_hash r = Some (blake3 b) -> payload b' -> upload_row_ok t b' r p -> b' = b.
Proof. intros Hb Hh Hb' [(_ & _ & Hh' & _) _]. apply no_collision; congruence. Qed.
(** Unfinished sessions do not share an object, so they do not share an upload. *)
Lemma unfinished_unique clock t tb i j r x : uploads_ok clock t tb -> tb !! i = Some r -> tb !! j = Some x -> row_unfinished r -> row_unfinished x ->
  sr_object_key x = sr_object_key r -> i = j.
Proof.
  intros Hs Hr Hx Ur Ux Hk. destruct (decide (i = j)) as [|Hne]; [done|].
  pose proof (so_newest _ _ _ Hs i r Hr Ur j x Hx (not_eq_sym Hne) Hk). pose proof (so_newest _ _ _ Hs j x Hx Ux i r Hr Hne (eq_sym Hk)). lia.
Qed.

(** A change of the transport that keeps what the rows and the open uploads say. *)
Lemma uploads_ok_transport clock t t' tb : uploads_ok clock t tb ->
  (forall id r b p, tb !! id = Some r -> payload b -> upload_row_ok t b r p -> upload_row_ok t' b r p) ->
  (forall k, tr_object t' k = tr_object t k \/ exists id r, tb !! id = Some r /\ row_unfinished r /\ sr_object_key r = k) ->
  (forall u k, tr_key t' u = Some k -> tr_open t' u = true -> tr_received t' u = [] \/
     exists id r, tb !! id = Some r /\ row_unfinished r /\ sr_object_key r = k /\ sr_session_uri r = Some u) ->
  uploads_ok clock t' tb.
Proof.
  intros [S1 S2 S3 S4 S5 S6] Hr Ho Hu. split; try done.
  - intros id r Hi. destruct (S1 id r Hi) as (b & p & Hb & Hp). eauto.
  - intros id r b Hi Un Hn Hb Hh. destruct (Ho (sr_object_key r)) as [->|(j & x & Hj & Ux & Hk)]; [eauto|]. exfalso.
    destruct (decide (j = id)) as [->|Hne]; [by rewrite Hi in Hj; simplify_eq|].
    pose proof (Hn j x Hj Hne Hk). pose proof (S4 j x Hj Ux id r Hi (not_eq_sym Hne) (eq_sym Hk)). lia.
Qed.
Lemma row_ok_transport t t' b r p : upload_row_ok t b r p ->
  (forall u, sr_session_uri r = Some u -> row_unfinished r -> tr_key t u = Some (sr_object_key r) ->
     tr_key t' u = tr_key t u /\ tr_open t' u = tr_open t u /\ tr_received t' u = tr_received t u) -> upload_row_ok t' b r p.
Proof.
  intros [Hr Hp] Hf. split; [done|]. assert (Ep : sr_phase r = SessionPhase_as_str p) by tauto. pose proof (unfinished_phase r p Ep) as [_ Hu].
  destruct p; cbn in *; try done; destruct Hp as (u & Hu1 & Hk & Hp); destruct (Hf u Hu1 (Hu ltac:(done)) Hk) as (E1 & E2 & E3); exists u; rewrite E1, E3, ?E2; done.
Qed.

Lemma initiate_ok clock t t' tb id r total res : uploads_ok clock t tb -> tb !! id = Some r -> sr_phase r = SessionPhase_as_str Created ->
  tr_initiate (sr_object_key r) total t = (res, t') -> uploads_ok clock t' tb /\
  forall s, res = Ok s -> tr_key t' (rs_session_uri s) = Some (sr_object_key r) /\ tr_open t' (rs_session_uri s) = true /\ tr_received t' (rs_session_uri s) = [].
Proof.
  intros Hs Hr Hp Hi. destruct (tr_initiate_spec _ _ _ _ _ Hi) as (Hf & Ho & Hn & Hok). pose proof Hs as [S1 S2 S3 S4 S5 S6].
  assert (Hopen : forall u k, tr_key t' u = Some k -> tr_open t' u = true -> tr_received t' u = [] \/
     exists id r, tb !! id = Some r /\ row_unfinished r /\ sr_object_key r = k /\ sr_session_uri r = Some u).
  { intros u k Hk Hop. destruct (tr_key t u) as [k'|] eqn:E.
    - destruct (Hf u (ex_intro _ _ E)) as (E1 & E2 & E3). rewrite E3. apply S6; congruence.
    - destruct (Hn u E) as [E'|[_ E']]; [congruence|by left]. }
  split.
  - apply (uploads_ok_transport clock t t' tb Hs); [|by left; rewrite Ho|done].
    intros j x b p Hj _ Hx. apply (row_ok_transport t); [done|]. intros u _ _ Hk. apply Hf. by rewrite Hk.
  - intros s Es. destruct (Hok s Es) as [Hk Hop]. split_and!; [done..|]. destruct (Hopen _ _ Hk Hop) as [|(j & x & Hj & Ux & Hkx & Hux)]; [done|].
    exfalso. destruct (S1 id r Hr) as (b & p & Hb & (_ & _ & _ & _ & _ & Hp' & _) & Hph). rewrite Hp in Hp'. apply phase_str_inj in Hp' as <-.
    assert (id = j) as <- by (apply (unfinished_unique clock t tb id j r x); [done..|by apply (unfinished_phase r Created)|done|done]). destruct Hph. congruence.
Qed.

Lemma other_uri clock t tb id j r x u u' : uploads_ok clock t tb -> tb !! id = Some r -> tb !! j = Some x -> row_unfinished r -> row_unfinished x -> j <> id ->
  tr_key t u = Some (sr_object_key r) -> tr_key t u' = Some (sr_object_key x) -> u' <> u.
Proof. intros Hs Hr Hx Ur Ux Hne Hk Hk' ->. apply Hne. symmetry. apply (unfinished_unique clock t tb id j r x); congruence. Qed.

(** Sending the next chunk of a session keeps the invariant, confirmed or not. *)
Lemma upload_ok clock t t' tb id r u b chunk c' res : uploads_ok clock t tb -> tb !! id = Some r -> payload b ->
  sr_phase r = SessionPhase_as_str Initiated \/ sr_phase r = SessionPhase_as_str Uploading -> sr_content_hash r = Some (blake3 b) ->
  sr_session_uri r = Some u -> c' <= Z.of_nat (length b) -> sr_committed_bytes r <= c' ->
  chunk = take (Z.to_nat (c' - sr_committed_bytes r)) (drop (Z.to_nat (sr_committed_bytes r)) b) ->
  tr_upload u (sr_committed_bytes r) chunk t = (res, t') -> uploads_ok clock t' tb /\
  tr_key t' u = Some (sr_object_key r) /\ tr_open t' u = true /\ (length (tr_received t' u) <= length b)%nat /\
  forall c, res = Ok c -> 0 <= c <= c' /\ c <= Z.of_nat (length (tr_received t' u)) /\ take (Z.to_nat c) (tr_received t' u) = take (Z.to_nat c) b.
Proof.
  intros Hs Hr Hb Hp Hh Hu Hc' Hlo Hchunk Hup. pose proof Hs as [S1 S2 S3 S4 S5 S6]. destruct (S1 id r Hr) as (b' & p & Hb' & Hrow).
  rewrite (payload_of_row t r b b' p) in Hrow by done. clear b' Hb'. destruct Hrow as [(_ & _ & _ & _ & Hlen & Hp' & _ & Hcb & _) Hph].
  assert (Hph' : phase_ok t b r Initiated) by (destruct Hp as [Hp|Hp]; rewrite Hp in Hp'; apply phase_str_inj in Hp' as <-; exact Hph).
  assert (Ur : row_unfinished r) by (destruct Hp as [Hp|Hp]; by apply (unfinished_phase r _ Hp)). clear Hp' Hph.
  destruct Hph' as (u' & E & Hk & Hop & Hc & Hl & Hpre). rewrite Hu in E. injection E as <-.
  destruct (tr_upload_spec u (sr_committed_bytes r) chunk t res t' (sr_object_key r)) as (Hf & Ho & Hk' & Hop' & Htk & Hml & Hok); [done|done|lia|done|].
  assert (Hcl : length chunk = Z.to_nat (c' - sr_committed_bytes r)) by (rewrite Hchunk, length_take, length_drop; lia).
  assert (Hbig : (length (tr_received t' u) <= length b)%nat) by lia.
  split; [|split_and!; [done..|]].
  - apply (uploads_ok_transport clock t t' tb Hs); [|by left; rewrite Ho|].
    + intros j x b1 p1 Hj Hb1 Hx. destruct (decide (j = id)) as [->|Hne].
      * rewrite Hr in Hj. injection Hj as <-. rewrite (payload_of_row t r b b1 p1) in Hx |- * by done. destruct Hx as [Hx _]. split; [done|].
        assert (Hi : phase_ok t' b r Initiated).
        { exists u. split_and!; try done; [|by rewrite Htk]. apply (f_equal length) in Htk. rewrite !length_take in Htk. lia. }
        destruct Hx as (_ & _ & _ & _ & _ & Hpp & _). destruct Hp as [Hp|Hp]; rewrite Hp in Hpp; by apply phase_str_inj in Hpp as <-.
      * apply (row_ok_transport t); [done|]. intros u1 Hu1 Ux Hk1. apply Hf. by apply (other_uri clock t tb id j r x).
    + intros u1 k1 Hk1 Hop1. destruct (decide (u1 = u)) as [->|Hne]; [right; exists id, r; split_and!; congruence|].
      destruct (Hf u1 Hne) as (E1 & E2 & ->). rewrite E1 in Hk1. rewrite E2 in Hop1. eauto.
  - intros c Ec. destruct (Hok c Ec) as ([H1 H2] & H3 & H4). split_and!; [lia..|]. rewrite H4, Hpre, Hchunk, take_take_drop.
    rewrite take_take. f_equal. lia.
Qed.

Lemma commit_keeps clock t t' tb id r u b res : uploads_ok clock t tb -> tb !! id = Some r -> payload b -> sr_content_hash r = Some (blake3 b) ->
  sr_phase r = SessionPhase_as_str Uploaded -> sr_session_uri r = Some u -> tr_commit u t = (res, t') ->
  uploads_ok clock t' tb /\ (res = Ok tt -> tr_object t' (sr_object_key r) = Some b /\ tr_open t' u = false).
Proof.
  intros Hs Hr Hb Hh Hp Hu Hc. pose proof Hs as [S1 S2 S3 S4 S5 S6]. destruct (S1 id r Hr) as (b' & p & Hb' & Hrow).
  rewrite (payload_of_row t r b b' p) in Hrow by done. clear b' Hb'. destruct Hrow as [(_ & _ & _ & _ & _ & Hp' & _) Hph].
  rewrite Hp in Hp'. apply phase_str_inj in Hp' as <-. destruct Hph as (u' & E & Hk & Hrec). rewrite Hu in E. injection E as <-.
  assert (Ur : row_unfinished r) by by apply (unfinished_phase r _ Hp).
  destruct (tr_commit_spec u t res t' (sr_object_key r) Hk Hc) as (Hf & Hsame & Ho & Ho' & Hok).
  split; [|intros ->; rewrite <- Hrec; by apply Hok]. apply (uploads_ok_transport clock t t' tb Hs).
  - intros j x b1 p1 Hj Hb1 Hx. destruct (decide (j = id)) as [->|Hne].
    + rewrite Hr in Hj. injection Hj as <-. destruct Hx as [Hx Hpx]. split; [done|]. destruct Hx as (_ & _ & _ & _ & _ & Hpp & _).
      rewrite Hp in Hpp. apply phase_str_inj in Hpp as <-. destruct Hpx as (u1 & E1 & E2 & E3). exists u1. by destruct (Hsame u1) as [-> ->].
    + apply (row_ok_transport t); [done|]. intros u1 Hu1 Ux Hk1. destruct (Hsame u1) as [-> ->]. split; [done|]. split; [|done].
      apply Hf. by apply (other_uri clock t tb id j r x).
  - intros k. destruct (decide (k = sr_object_key r)) as [->|Hne]; [right; eauto|left; by apply Ho].
  - intros u1 k1 Hk1 Hop1. destruct (Hsame u1) as [E1 E2]. rewrite E1 in Hk1. rewrite E2. destruct (decide (u1 = u)) as [->|Hne].
    + right. exists id, r. split_and!; congruence.
    + rewrite Hf in Hop1 by done. eauto.
Qed.

(** A change of one row that keeps its identity. *)
Lemma uploads_ok_row clock t tb id r r' b p : uploads_ok clock t tb -> tb !! id = Some r -> payload b -> upload_row_ok t b r' p ->
  sr_object_key r' = sr_object_key r -> sr_created_ns r' = sr_created_ns r -> sr_content_hash r' = sr_content_hash r -> (row_unfinished r' -> row_unfinished r) ->
  (forall u, sr_session_uri r = Some u -> sr_session_uri r' = Some u) ->
  (row_unfinished r -> ~ row_unfinished r' -> tr_object t (sr_object_key r) = Some b /\ forall u, sr_session_uri r = Some u -> tr_open t u = false) ->
  uploads_ok clock t (<[id := r']> tb).
Proof.
  intros [S1 S2 S3 S4 S5 S6] Hr Hb Hrow Ek Ec Eh Hun Huri Hfin.
  assert (Hold : forall j x', <[id := r']> tb !! j = Some x' -> exists x, tb !! j = Some x /\ sr_object_key x' = sr_object_key x /\
    sr_created_ns x' = sr_created_ns x /\ sr_content_hash x' = sr_content_hash x /\ (row_unfinished x' -> row_unfinished x) /\ (j <> id -> x' = x)).
  { intros j x' Hj. destruct (decide (j = id)) as [->|Hne].
    - rewrite lookup_insert_eq in Hj. injection Hj as <-. exists r. by split_and!.
    - rewrite lookup_insert_ne in Hj by done. exists x'. by split_and!. }
  assert (Hnew : forall j x, tb !! j = Some x -> exists x', <[id := r']> tb !! j = Some x' /\ sr_object_key x' = sr_object_key x /\ sr_created_ns x' = sr_created_ns x).
  { intros j x Hj. destruct (decide (j = id)) as [->|Hne].
    - exists r'. rewrite Hr in Hj. injection Hj as <-. by rewrite lookup_insert_eq.
    - exists x. by rewrite lookup_insert_ne. }
  assert (Hnt : forall j x x', <[id := r']> tb !! j = Some x' -> tb !! j = Some x -> newer_than_others (<[id := r']> tb) j x' -> newer_than_others tb j x).
  { intros j x x' Hj Hx Hn k y Hy Hne Hk. destruct (Hold j x' Hj) as (x2 & Hx2 & E1 & E2 & _). rewrite Hx in Hx2. injection Hx2 as <-.
    destruct (Hnew k y Hy) as (y' & Hy' & E3 & E4). rewrite <- E2, <- E4. apply (Hn k y' Hy' Hne). congruence. }
  split.
  - intros j x' Hj. destruct (decide (j = id)) as [->|Hne].
    + rewrite lookup_insert_eq in Hj. injection Hj as <-. eauto.
    + rewrite lookup_insert_ne in Hj by done. eauto.
  - intros j x' Hj. destruct (Hold j x' Hj) as (x & Hx & _ & -> & _). eauto.
  - intros i j x' y' Hi Hj Hne Hk. destruct (Hold i x' Hi) as (x & Hx & E1 & -> & _), (Hold j y' Hj) as (y & Hy & E2 & -> & _). apply (S3 i j x y); congruence.
  - intros j x' Hj Hu k y' Hy' Hne Hk. destruct (Hold j x' Hj) as (x & Hx & E1 & -> & _ & Hux & _), (Hold k y' Hy') as (y & Hy & E2 & -> & _).
    apply (S4 j x Hx (Hux Hu) k y Hy Hne). congruence.
  - intros j x' b1 Hj Hu Hn Hb1 Hh. destruct (Hold j x' Hj) as (x & Hx & -> & _ & E3 & Hux & Hsame).
    assert (Hcase : ~ row_unfinished x \/ (j = id /\ row_unfinished x)).
    { destruct (decide (j = id)); [|left; by rewrite <- Hsame]. destruct (decide (sr_phase x = SessionPhase_as_str Committed)) as [E|E]; [left; by intros []|by right]. }
    destruct Hcase as [Hf|[-> Hf]]; [apply (S5 j x b1 Hx Hf); [by apply (Hnt j x x')|done|congruence]|].
    rewrite Hr in Hx. injection Hx as <-. rewrite lookup_insert_eq in Hj. injection Hj as <-.
    destruct (Hfin Hf Hu) as [-> _]. f_equal. by apply (payload_of_row t r' b1 b p).
  - intros u k Hk Hop. destruct (S6 u k Hk Hop) as [|(j & x & Hj & Ux & Ek' & Eu)]; [by left|]. destruct (decide (j = id)) as [->|Hne].
    + rewrite Hr in Hj. injection Hj as <-. destruct (decide (sr_phase r' = SessionPhase_as_str Committed)) as [E|E].
      * destruct (Hfin Ux) as [_ Hcl]; [by intros []|]. rewrite (Hcl u Eu) in Hop. done.
      * right. exists id, r'. rewrite lookup_insert_eq. split_and!; [done|done|congruence|by apply Huri].
    + right. exists j, x. by rewrite lookup_insert_ne.
Qed.

(** A new session for an object all of whose sessions are finished. *)
Lemma uploads_ok_insert clock now t tb id r b : uploads_ok clock t tb -> clock < now -> tb !! id = None -> payload b -> upload_row_ok t b r Created ->
  sr_created_ns r = now -> (forall j x, tb !! j = Some x -> sr_object_key x = sr_object_key r -> ~ row_unfinished x) -> uploads_ok now t (<[id := r]> tb).
Proof.
  intros [S1 S2 S3 S4 S5 S6] Hclk Hid Hb Hrow Ec Hfin.
  assert (Hold : forall j x, <[id := r]> tb !! j = Some x -> (j = id /\ x = r) \/ (j <> id /\ tb !! j = Some x /\ sr_created_ns x < now)).
  { intros j x Hj. destruct (decide (j = id)) as [->|Hne]; [left; rewrite lookup_insert_eq in Hj; by injection Hj|].
    rewrite lookup_insert_ne in Hj by done. right. split_and!; [done..|]. specialize (S2 j x Hj). lia. }
  assert (Hne : forall j x, tb !! j = Some x -> j <> id) by (intros j x Hj ->; congruence).
  split.
  - intros j x Hj. destruct (Hold j x Hj) as [[-> ->]|(_ & Hx & _)]; eauto.
  - intros j x Hj. destruct (Hold j x Hj) as [[-> ->]|(_ & Hx & Hl)]; lia.
  - intros i j x y Hi Hj Hij Hk. destruct (Hold i x Hi) as [[-> ->]|(_ & Hx & Hl)], (Hold j y Hj) as [[-> ->]|(_ & Hy & Hl')]; [done|lia|lia|eauto].
  - intros j x Hj Hu k y Hy Hjk Hk. destruct (Hold j x Hj) as [[-> ->]|(_ & Hx & Hl)], (Hold k y Hy) as [[-> ->]|(_ & Hy' & Hl')]; [done|lia| |].
    + destruct (Hfin j x Hx); [congruence|done].
    + by apply (S4 j x Hx Hu k y).
  - intros j x b1 Hj Hu Hn Hb1 Hh. destruct (Hold j x Hj) as [[-> ->]|(Hji & Hx & Hl)].
    + destruct Hrow as [(_ & _ & _ & _ & _ & Hp & _) _]. destruct Hu. by apply (unfinished_phase r Created).
    + apply (S5 j x b1); try done. intros k y Hy Hjk Hk. apply (Hn k y); [|done..]. rewrite lookup_insert_ne; [done|]. intros <-. congruence.
  - intros u k Hk Hop. destruct (S6 u k Hk Hop) as [|(j & x & Hj & Hrest)]; [by left|]. right. exists j, x. rewrite lookup_insert_ne; [done|]. intros <-. congruence.
Qed.
Lemma uploads_ok_later clock clock' t tb : clock <= clock' -> uploads_ok clock t tb -> uploads_ok clock' t tb.
Proof. intros Hc [S1 S2 S3 S4 S5 S6]. split; try done. intros id r Hr. specialize (S2 id r Hr). lia. Qed.

(** ** The driver *)
Notation W := (T * SessionTable)%type.
Lemma load_row id tb s : load scan volume id tb = Ok s -> exists r, tb !! id = Some r /\ session_of_row id r = Some s.
Proof.
  unfold load. intros (l & Hl & Hs)%bind_Ok_inv. destruct (List.find _ l) as [s'|] eqn:Ef.
  - injection Hs as <-. apply find_some in Ef as [Hin Hid%Z.eqb_eq]. unfold unfinished_sessions in Hl. apply mapM_Ok in Hl.
    apply list_elem_of_In, list_elem_of_lookup in Hin as (n & Hn). destruct (Forall2_lookup_r _ _ _ _ _ Hl Hn) as (j & _ & Hj).
    apply bind_Ok_inv in Hj as (o & Ho & ->%ok_or_Ok_inv). apply load_session_Some in Ho as (r & Hr & Hs').
    destruct (session_of_row_Some _ _ _ Hs') as (_ & E & _). replace id with j by congruence. eauto.
  - destruct (find_session_by_id id tb) as [[s'|]|] eqn:E; try done. injection Hs as <-. by apply load_session_Some.
Qed.
Lemma advanced_row_ok t b r p q upload_id uri c e now : upload_row_ok t b r p -> sr_committed_bytes r <= c <= Z.of_nat (length b) -> 
  upload_row_check 0 (advanced q upload_id uri c e now r) = true -> phase_ok t b (advanced q upload_id uri c e now r) q ->
  upload_row_ok t b (advanced q upload_id uri c e now r) q.
Proof.
  intros [(R1 & R2 & R3 & R4 & R5 & R6 & R7 & R8 & R9) _] Hc Hk Hp. split; [|done]. unfold upload_row_check in Hk. cbn in Hk. zbool.
  cbn. split_and!; try done; lia.
Qed.

(** What one iteration may do: the table keeps its sessions and their content,
    and both the table it leaves and the one it started from fit the remote. *)
Definition row_identity (r : UploadRow) : string * option Hash * Z := (sr_object_key r, sr_content_hash r, sr_created_ns r).
Definition iteration_ok (clock : Z) (w w' : W) : Prop :=
  uploads_ok clock w'.1 w'.2 /\ uploads_ok clock w'.1 w.2 /\ forall id, row_identity <$> w'.2 !! id = row_identity <$> w.2 !! id.
Lemma advance_ok clock t tb id r s b q upload_id uri c e now res w' : uploads_ok clock t tb -> tb !! id = Some r -> session_of_row id r = Some s -> payload b ->
  sr_content_hash r = Some (blake3 b) -> 0 <= c <= Z.of_nat (length b) -> (uri <> None -> us_phase s = Created) ->
  (forall r', tb !! id = Some r' -> phase_ok t b (advanced q upload_id uri c e now r') q) ->
  (us_phase s = Committed -> q = Committed) ->
  (us_phase s <> Committed -> q = Committed -> tr_object t (sr_object_key r) = Some b /\ forall u, sr_session_uri r = Some u -> tr_open t u = false) ->
  advance_session s q upload_id uri c c e now (t, tb) = (res, w') -> iteration_ok clock (t, tb) w'.
Proof.
  intros Hs Hr Hsr Hb Hh Hc Huri Hph Hq Hfin Hadv. destruct (session_of_row_Some _ _ _ Hsr) as (Hp & Hid & _).
  destruct (so_rows _ _ _ Hs id r Hr) as (b' & p & Hb' & Hrow). rewrite (payload_of_row t r b b' p) in Hrow by done. clear b' Hb'.
  pose proof Hrow as [(_ & _ & _ & _ & Hlen & Hpr & _) Hphase]. rewrite Hpr, phase_codec in Hp. injection Hp as ->.
  unfold advance_session, on_table in Hadv. cbn [fst snd] in Hadv. rewrite Hid in Hadv. destruct (advance_phase _ _ _ _ _ _ _ _ _ tb) as [[[] tb']|er] eqn:Ea.
  2: by injection Hadv as _ <-.
  injection Hadv as _ <-. apply advance_phase_Ok in Ea as (r1 & Hr1 & _ & Hle & -> & Hck); [|lia]. rewrite Hr in Hr1. injection Hr1 as <-.
  split; [|split; [done|]].
  - apply (uploads_ok_row clock t tb id r _ b q); try done.
    + apply (advanced_row_ok t b r (us_phase s)); [done|lia|done|by apply Hph].
    + intros Hu. apply (unfinished_phase r (us_phase s) Hpr). intros E. apply Hu. by rewrite (Hq E).
    + intros u Hu. cbn. destruct uri as [u'|]; [|done]. exfalso. rewrite (Huri ltac:(done)) in Hphase. destruct Hphase; congruence.
    + intros Hu Hu'. apply Hfin; [by apply (unfinished_phase r (us_phase s) Hpr)|]. destruct (decide (q = Committed)); [done|]. destruct Hu'.
      by apply (unfinished_phase (advanced q upload_id uri c e now r) q).
  - intros j. cbn. destruct (decide (j = id)) as [->|Hne]; [by rewrite lookup_insert_eq, Hr|by rewrite lookup_insert_ne].
Qed.
Lemma iteration_ok_transport clock t t' tb w' : uploads_ok clock t' tb -> iteration_ok clock (t', tb) w' -> iteration_ok clock (t, tb) w'.
Proof. by intros _ (H1 & H2 & H3). Qed.
Lemma get_range_Some (l k : list Z) (s e : Z) : get_range l s e = Some k -> s <= e <= Z.of_nat (length l) /\ k = take (Z.to_nat (e - s)) (drop (Z.to_nat s) l).
Proof. unfold get_range. destruct (_ && _) eqn:E; [|done]. intros [= <-]. zbool. by split_and!. Qed.

Lemma send_chunk_ok clock t tb id r s bytes now res w' : uploads_ok clock t tb -> payload bytes -> tb !! id = Some r -> session_of_row id r = Some s ->
  sr_content_hash r = Some (blake3 bytes) -> us_phase s = Initiated \/ us_phase s = Uploading -> send_chunk s bytes now (t, tb) = (res, w') ->
  iteration_ok clock (t, tb) w' /\ forall o, res = Ok o -> o = None.
Proof.
  intros Hs Hb Hr Hsr Hh Hp. unfold send_chunk, mbind, io_bind, io_pure, mret, io_ret, on_transport. cbn [fst snd].
  assert (Hsame : iteration_ok clock (t, tb) (t, tb)) by done.
  destruct (session_of_row_Some _ _ _ Hsr) as (Hpp & Hid & Hk & Hch & Hu & Hcb & Hco & Htot).
  destruct (so_rows _ _ _ Hs id r Hr) as (b' & p & Hb' & Hrow). rewrite (payload_of_row t r bytes b' p) in Hrow by done. clear b' Hb'.
  destruct Hrow as [(_ & _ & _ & Ht & Hlen & Hpr & _ & Hcr & _) Hphase]. rewrite Hpr, phase_codec in Hpp. injection Hpp as Ep. subst p.
  destruct (us_session_uri s) as [u|] eqn:Eu; cbn [ok_or fst snd]; [|by intros [= <- <-]; split]. symmetry in Hu.
  assert (Hi : phase_ok t bytes r Initiated) by (destruct Hp as [Hp|Hp]; by rewrite Hp in Hphase).
  assert (Hstr : sr_phase r = SessionPhase_as_str Initiated \/ sr_phase r = SessionPhase_as_str Uploading) by (destruct Hp as [Hp|Hp]; rewrite Hp in Hpr; auto).
  assert (Hnc : us_phase s <> Committed /\ us_phase s <> Created) by (destruct Hp as [Hp|Hp]; by rewrite Hp).
  destruct Hi as (u' & E & Hku & Hop & Hc & Hl & Hpre). rewrite Hu in E. injection E as <-. rewrite Htot, Ht, Hcb. cbn [from_option Datatypes.id].
  destruct (Z.leb_spec (Z.of_nat (length bytes)) (sr_committed_bytes r)).
  - destruct (advance_session s Uploaded None None _ _ None now (t, tb)) as [ra wa] eqn:Ea.
    assert (iteration_ok clock (t, tb) wa).
    { apply (advance_ok clock t tb id r s bytes Uploaded None None (sr_committed_bytes r) None now ra wa); try done; [|intros E; by destruct (proj1 Hnc E)].
      intros r' Hr'. rewrite Hr in Hr'. injection Hr' as <-. exists u. cbn. split_and!; [done..|]. rewrite !take_ge in Hpre by lia. done. }
    destruct ra; intros [= <- <-]; (split; [done|]); intros o Ho; by simplify_eq.
  - destruct (get_range _ _ _) as [chunk|] eqn:Eg; cbn [ok_or]; [|by intros [= <- <-]; split].
    cbn [fst snd]. destruct (get_range_Some _ _ _ _ Eg) as [Hrange Hchunk]. destruct (tr_upload u (sr_committed_bytes r) chunk t) as [r1 t1] eqn:Ei.
    destruct (upload_ok clock t t1 tb id r u bytes chunk _ r1 Hs Hr Hb Hstr Hh Hu (proj2 Hrange) (proj1 Hrange) Hchunk Ei) as (Hs1 & Hk1 & Hop1 & Hl1 & Hok).
    destruct r1 as [c|er]; [|by intros [= <- <-]; split]. destruct (Hok c eq_refl) as (Hc1 & Hc2 & Hc3).
    destruct (advance_session s Uploading None None c c None now (t1, tb)) as [ra wa] eqn:Ea.
    assert (iteration_ok clock (t1, tb) wa).
    { apply (advance_ok clock t1 tb id r s bytes Uploading None None c None now ra wa); try done; [lia| |intros E; by destruct (proj1 Hnc E)].
      intros r' Hr'. rewrite Hr in Hr'. injection Hr' as <-. exists u. cbn. by split_and!. }
    destruct ra; intros [= <- <-]; (split; [done|]); intros o Ho; by simplify_eq.
Qed.

Lemma step_once_ok clock t tb id bytes now res w' : uploads_ok clock t tb -> payload bytes ->
  (forall r, tb !! id = Some r -> sr_content_hash r = Some (blake3 bytes)) -> step_once scan volume id bytes now (t, tb) = (res, w') ->
  iteration_ok clock (t, tb) w' /\
  forall s, res = Ok (Some s) -> w' = (t, tb) /\ us_phase s = Committed /\ exists r, tb !! id = Some r /\ session_of_row id r = Some s.
Proof.
  intros Hs Hb Hh. unfold step_once, mbind, io_bind, io_read, io_pure, mret, io_ret, on_transport. cbn [fst snd].
  assert (Hsame : iteration_ok clock (t, tb) (t, tb)) by done.
  destruct (load scan volume id tb) as [s|er] eqn:El; [|by intros [= <- <-]; split]. apply load_row in El as (r & Hr & Hsr). specialize (Hh r Hr).
  destruct (session_of_row_Some _ _ _ Hsr) as (Hp & Hid & Hk & Hch & Hu & Hcb & Hco & Htot).
  destruct (so_rows _ _ _ Hs id r Hr) as (b' & p & Hb' & Hrow). rewrite (payload_of_row t r bytes b' p) in Hrow by done. clear b' Hb'.
  destruct Hrow as [(_ & _ & _ & Ht & Hlen & Hpr & _ & Hcr & _) Hphase]. rewrite Hpr, phase_codec in Hp. injection Hp as Ep. subst p.
  destruct (us_phase s) eqn:Ephase; cbn [fst snd]; try by destruct Hphase.
  - destruct (tr_initiate (us_object_key s) (us_total_bytes s) t) as [r1 t1] eqn:Ei. rewrite Hk in Ei. destruct (initiate_ok clock t t1 tb id r _ r1 Hs Hr Hpr Ei) as [Hs1 Hok].
    destruct r1 as [rs|er]; [|by intros [= <- <-]; split]. destruct (Hok rs eq_refl) as (Hk1 & Hop1 & Hrec).
    destruct (advance_session s Initiated _ _ 0 0 None now (t1, tb)) as [ra wa] eqn:Ea.
    assert (iteration_ok clock (t1, tb) wa).
    { apply (advance_ok clock t1 tb id r s bytes Initiated (Some (rs_upload_id rs)) (Some (rs_session_uri rs)) 0 None now ra wa); try done; [lia|intros r' Hr'|by intros; rewrite Ephase in *].
      rewrite Hr in Hr'. injection Hr' as <-. exists (rs_session_uri rs). cbn. rewrite Hrec. cbn. split_and!; (done || lia). }
    destruct ra; by intros [= <- <-].
  - intros E. destruct (send_chunk_ok clock t tb id r s bytes now res w') as [H1 H2]; try done; [by left|]. split; [done|]. intros s' ->. discriminate (H2 _ eq_refl).
  - intros E. destruct (send_chunk_ok clock t tb id r s bytes now res w') as [H1 H2]; try done; [by right|]. split; [done|]. intros s' ->. discriminate (H2 _ eq_refl).
  - destruct (us_session_uri s) as [u|] eqn:Eu; cbn [ok_or fst snd]; [|by intros [= <- <-]; split]. symmetry in Hu.
    destruct (tr_commit u t) as [r1 t1] eqn:Ei. destruct (commit_keeps clock t t1 tb id r u bytes r1) as [Hs1 Hok]; [done..|].
    destruct r1 as [[]|er]; [|by intros [= <- <-]; split]. destruct (Hok eq_refl) as [Hobj Hcl]. rewrite Hcb.
    destruct (advance_session s Committed None None (sr_committed_bytes r) (sr_committed_bytes r) None now (t1, tb)) as [ra wa] eqn:Ea.
    assert (iteration_ok clock (t1, tb) wa).
    { apply (advance_ok clock t1 tb id r s bytes Committed None None (sr_committed_bytes r) None now ra wa); try done. intros _ _. split; [done|].
      intros u' Hu'. rewrite Hu in Hu'. by injection Hu' as <-. }
    destruct ra; by intros [= <- <-].
  - intros [= <- <-]. split; [done|]. intros s' [= <-]. split_and!; eauto.
Qed.

Lemma same_identity tb tb' id r : (forall j, row_identity <$> tb' !! j = row_identity <$> tb !! j) -> tb' !! id = Some r ->
  exists r', tb !! id = Some r' /\ row_identity r' = row_identity r.
Proof. intros Hi Hr. specialize (Hi id). rewrite Hr in Hi. symmetry in Hi. by apply fmap_Some in Hi as (r' & Hr' & E); exists r'. Qed.
Lemma newer_identity tb tb' id r r' : (forall j, row_identity <$> tb' !! j = row_identity <$> tb !! j) -> row_identity r' = row_identity r ->
  newer_than_others tb id r -> newer_than_others tb' id r'.
Proof.
  intros Hi [= E1 _ E3] Hn j x Hx Hne Hk. destruct (same_identity tb tb' j x Hi Hx) as (x' & Hx' & [= E4 _ E6]).
  rewrite <- E6, E3. apply (Hn j x' Hx' Hne). congruence.
Qed.

Lemma step_ok clock fuel t tb id bytes now res w' : uploads_ok clock t tb -> payload bytes ->
  (forall r, tb !! id = Some r -> sr_content_hash r = Some (blake3 bytes)) -> step scan volume fuel id bytes now (t, tb) = (res, w') ->
  uploads_ok clock w'.1 w'.2 /\ (forall j, row_identity <$> w'.2 !! j = row_identity <$> tb !! j) /\
  forall s, res = Ok (Some s) -> us_phase s = Committed /\ exists r, w'.2 !! id = Some r /\ session_of_row id r = Some s.
Proof.
  revert t tb. induction fuel as [|fuel IH]; intros t tb Hs Hb Hh; cbn [step]; [by intros [= <- <-]|]. unfold mbind, io_bind.
  destruct (step_once _ _ id bytes now (t, tb)) as [r1 [t1 tb1]] eqn:E. destruct (step_once_ok clock t tb id bytes now r1 _ Hs Hb Hh E) as [(I1 & _ & I3) Hd].
  cbn [fst snd] in *. destruct r1 as [[s|]|er].
  - intros [= <- <-]. destruct (Hd s eq_refl) as (Hw & Hp & Hr). injection Hw as -> ->. split_and!; [done..|]. by intros s' [= <-].
  - intros H1. destruct (fun H => IH t1 tb1 I1 Hb H H1) as (J1 & J2 & J3).
    { intros r Hr. destruct (same_identity tb tb1 id r I3 Hr) as (r' & Hr' & [= _ E2 _]). rewrite <- E2. eauto. }
    split_and!; [done| |done]. intros j. by rewrite J2.
  - by intros [= <- <-].
Qed.

Lemma newest_spec key tb : match newest scan volume key tb with
  | Some id => exists r, tb !! id = Some r /\ sr_object_key r = key /\
      forall j x, tb !! j = Some x -> sr_volume_id x = volume -> sr_object_key x = key -> sr_created_ns x <= sr_created_ns r
  | None => forall j x, tb !! j = Some x -> sr_volume_id x = volume -> sr_object_key x <> key
  end.
Proof.
  unfold newest. set (l := List.filter _ _).
  assert (Hl : forall j x, (j, x) ∈ l <-> tb !! j = Some x /\ sr_volume_id x = volume /\ sr_object_key x = key).
  { intros j x. unfold l. rewrite list_elem_of_In, filter_In, <- list_elem_of_In, scan_all, elem_of_map_to_list. cbn. rewrite andb_true_iff, Z.eqb_eq, bool_decide_eq_true. tauto. }
  assert (Hp := sort_by_key_perm (fun y : Z * UploadRow => - sr_created_ns y.2) l). assert (Hst := sort_by_key_sorted (fun y : Z * UploadRow => - sr_created_ns y.2) l).
  destruct (sort_by_key _ l) as [|[id r] rest]; cbn.
  - intros j x Hx Hv Hk. apply (not_elem_of_nil (j, x)). rewrite Hp. by apply Hl.
  - destruct (proj1 (Hl id r)) as (Hr & _ & Hk); [rewrite <- Hp; by left|]. exists r. split_and!; [done..|]. intros j x Hx Hv Hk'.
    assert (Hin : (j, x) ∈ (id, r) :: rest) by (rewrite Hp; by apply Hl). apply elem_of_cons in Hin as [[= -> ->]|Hin]; [lia|].
    apply StronglySorted_inv in Hst as [_ Hf]. apply (proj1 (Forall_forall _ _)) with (x := (j, x)) in Hf; [|done]. cbn in Hf. lia.
Qed.
Lemma find_session_by_key_spec clock t key tb o : uploads_ok clock t tb -> find_session_by_key scan volume key tb = Ok o ->
  match o with
  | Some s => exists r, tb !! us_session_id s = Some r /\ session_of_row (us_session_id s) r = Some s /\ sr_object_key r = key /\ newer_than_others tb (us_session_id s) r
  | None => forall j x, tb !! j = Some x -> sr_object_key x <> key
  end.
Proof.
  intros Hs. unfold find_session_by_key. pose proof (newest_spec key tb) as Hn.
  assert (Hv : forall j x, tb !! j = Some x -> sr_volume_id x = volume) by (intros j x Hx; by destruct (so_rows _ _ _ Hs j x Hx) as (b & p & _ & (E & _) & _)).
  destruct (newest scan volume key tb) as [id|]; [|intros [= <-]; eauto]. destruct Hn as (r & Hr & Hk & Hmax). unfold load_session. rewrite Hr.
  destruct (session_of_row id r) as [s|] eqn:E; [|done]. intros [= <-]. destruct (session_of_row_Some _ _ _ E) as (_ & -> & _). exists r. split_and!; [done..|].
  intros j x Hx Hne Hkx. rewrite Hk in Hkx. pose proof (Hmax j x Hx (Hv j x Hx) Hkx).
  assert (sr_created_ns x <> sr_created_ns r) by (apply (so_distinct _ _ _ Hs id j r x); congruence). lia.
Qed.

(** The session a publication works on: it is the newest of its object. *)
Definition opened_ok (key : string) (b : list Z) (now : Z) (t : T) (res : result UploadSession) (w' : W) : Prop :=
  w'.1 = t /\ uploads_ok now t w'.2 /\
  forall s, res = Ok s -> exists r, w'.2 !! us_session_id s = Some r /\ row_identity r = (key, Some (blake3 b), sr_created_ns r) /\ newer_than_others w'.2 (us_session_id s) r.
Lemma create_new_ok clock t tb entropy key b now res w' : uploads_ok clock t tb -> clock < now -> payload b -> Z.of_nat (length b) <= i64_max ->
  (forall j x, tb !! j = Some x -> sr_object_key x = key -> ~ row_unfinished x) ->
  create_new volume entropy key (blake3 b) (Z.of_nat (length b)) now (t, tb) = (res, w') -> opened_ok key b now t res w'.
Proof.
  intros Hs Hclk Hb Hlen Hfin. assert (Hlater : uploads_ok now t tb) by (apply (uploads_ok_later clock); [lia|done]).
  unfold create_new, mbind, io_bind, io_pure, mret, io_ret, on_table. cbn [fst snd].
  destruct entropy as [id|]; cbn [ok_or]; [|by intros [= <- <-]]. unfold create_session. cbn [us_phase us_chunk_offset us_committed_bytes us_remote_upload_id us_session_uri].
  cbn [bool_decide negb orb]. rewrite bool_decide_true by done. rewrite !bool_decide_false by (by intros []). cbn [negb orb Z.eqb].
  unfold insert_upload_row, insert_row. cbn [us_session_id]. destruct (tb !! id) as [x|] eqn:Ei; [by intros [= <- <-]|]. cbn [us_total_bytes]. cbn [fmap option_fmap option_map].
  rewrite as_i64_small by lia. destruct (fits_at _ _ id _ tb) eqn:Efit; [|by intros [= <- <-]]. intros [= <- <-]. unfold opened_ok. cbn [fst snd].
  match goal with |- context [<[id := ?r]> tb] => set (row := r) end.
  assert (Hrow : upload_row_ok t b row Created) by (split; [cbn; split_and!; (done || lia || (unfold i64_max; lia))|done]).
  split_and!; [done|by apply (uploads_ok_insert clock now t tb id row b)|]. intros s [= <-]. exists row. cbn [us_session_id]. rewrite lookup_insert_eq. split_and!; [done..|].
  intros j x Hx Hne _. rewrite lookup_insert_ne in Hx by done. pose proof (so_clock _ _ _ Hs j x Hx). cbn. lia.
Qed.
Lemma open_or_create_ok clock t tb entropy key b now res w' : uploads_ok clock t tb -> clock < now -> payload b -> Z.of_nat (length b) <= i64_max ->
  open_or_create scan volume entropy key (blake3 b) (Z.of_nat (length b)) now (t, tb) = (res, w') -> opened_ok key b now t res w'.
Proof.
  intros Hs Hclk Hb Hlen. unfold open_or_create, mbind, io_bind, io_read, io_pure, mret, io_ret. cbn [fst snd].
  assert (Hlater : uploads_ok now t tb) by (apply (uploads_ok_later clock); [lia|done]).
  destruct (find_session_by_key scan volume key tb) as [o|er] eqn:Ef; [|by intros [= <- <-]]. pose proof (find_session_by_key_spec clock t key tb o Hs Ef) as Hf.
  destruct o as [e|]; [|intros H1; apply (create_new_ok clock t tb entropy key b now res w'); try done; intros j x Hx Hk; by destruct (Hf j x Hx)].
  destruct Hf as (r & Hr & Hsr & Hk & Hn). destruct (session_of_row_Some _ _ _ Hsr) as (Hp & _ & _ & Hch & _).
  assert (Hsame : us_content_hash e = Some (blake3 b) -> forall s, Ok e = Ok s -> exists r, tb !! us_session_id s = Some r /\
    row_identity r = (key, Some (blake3 b), sr_created_ns r) /\ newer_than_others tb (us_session_id s) r).
  { intros Hh s [= <-]. exists r. split_and!; [done| |done]. unfold row_identity. by rewrite Hk, <- Hch, Hh. }
  destruct (is_terminal (us_phase e)) eqn:Et; cbn [andb negb].
  - destruct (bool_decide_reflect (us_content_hash e = Some (blake3 b))); [intros [= <- <-]; split_and!; auto|]. intros H1. apply (create_new_ok clock t tb entropy key b now res w'); try done. intros j x Hx Hkx Hu.
    destruct (decide (j = us_session_id e)) as [->|Hne].
    + rewrite Hr in Hx. injection Hx as <-. destruct (so_rows _ _ _ Hs _ _ Hr) as (b' & p & _ & (_ & _ & _ & _ & _ & Hpr & _) & Hph).
      rewrite Hpr, phase_codec in Hp. injection Hp as ->. by destruct (us_phase e).
    + pose proof (Hn j x Hx Hne ltac:(congruence)). pose proof (so_newest _ _ _ Hs j x Hx Hu _ r Hr (not_eq_sym Hne) ltac:(congruence)). lia.
  - destruct (bool_decide_reflect (us_content_hash e = Some (blake3 b))) as [Hh|]; cbn [negb orb]; [|by intros [= <- <-]].
    destruct (bool_decide _); cbn [negb]; intros [= <- <-]; split_and!; auto. by intros s.
Qed.

Lemma publish_ok clock fuel t tb entropy key b now res w' : uploads_ok clock t tb -> clock < now -> payload b -> Z.of_nat (length b) <= i64_max ->
  publish scan blake3 volume fuel entropy key (blake3 b) b now (t, tb) = (res, w') ->
  uploads_ok now w'.1 w'.2 /\ forall s, res = Ok (Some s) -> us_phase s = Committed /\ tr_object w'.1 key = Some b.
Proof.
  intros Hs Hclk Hb Hlen. unfold publish. rewrite Z.eqb_refl. cbn [negb]. unfold mbind, io_bind.
  destruct (open_or_create _ _ entropy key _ _ now (t, tb)) as [r1 [t1 tb1]] eqn:E. destruct (open_or_create_ok clock t tb entropy key b now r1 _ Hs Hclk Hb Hlen E) as (Ht & Hs1 & Hok).
  cbn [fst snd] in *. subst t1. destruct r1 as [s|er]; [|by intros [= <- <-]]. destruct (Hok s eq_refl) as (r & Hr & Hid & Hn). intros Hstep.
  destruct (step_ok now fuel t tb1 (us_session_id s) b now res w') as (J1 & J2 & J3); [done..| |done|].
  { intros r' Hr'. rewrite Hr in Hr'. injection Hr' as <-. by injection Hid. }
  split; [done|]. intros s' Es. destruct (J3 s' Es) as (Hp & r' & Hr' & Hsr). split; [done|].
  destruct (same_identity tb1 w'.2 _ r' J2 Hr') as (r0 & Hr0 & Hi). rewrite Hr in Hr0. injection Hr0 as <-.
  destruct (session_of_row_Some _ _ _ Hsr) as (Hpp & _). pose proof Hi as Hi'. rewrite Hid in Hi'. injection Hi' as E1 E2 E3. rewrite E1.
  apply (so_object _ _ _ J1 (us_session_id s) r' b); [done| |by apply (newer_identity tb1 w'.2 _ r r')|done|done].
  intros Hu. destruct (so_rows _ _ _ J1 _ _ Hr') as (b' & p & _ & (_ & _ & _ & _ & _ & Hpr & _) & _). rewrite Hpr, phase_codec, Hp in Hpp. injection Hpp as ->.
  by apply (unfinished_phase r' Committed Hpr) in Hu.
Qed.
Lemma record_error_ok clock t tb id class now res w' : uploads_ok clock t tb -> record_error scan volume id class now (t, tb) = (res, w') ->
  uploads_ok clock w'.1 w'.2.
Proof.
  intros Hs. unfold record_error, mbind, io_bind, io_read. cbn [fst snd]. destruct (load scan volume id tb) as [s|er] eqn:El; [|by intros [= <- <-]].
  apply load_row in El as (r & Hr & Hsr). destruct (session_of_row_Some _ _ _ Hsr) as (Hp & Hid & Hk & Hch & Hu & Hcb & Hco & Htot).
  destruct (so_rows _ _ _ Hs id r Hr) as (b & p & Hb & Hrow). pose proof Hrow as [(_ & _ & Hh & _ & Hlen & Hpr & Heq & Hc & _) Hph].
  rewrite Hpr, phase_codec in Hp. injection Hp as ->. rewrite Hco, Heq, <- Hcb. intros E.
  assert (Hit : iteration_ok clock (t, tb) w'); [|by destruct Hit].
  apply (advance_ok clock t tb id r s b (us_phase s) None None (us_committed_bytes s) (Some class) now res w'); try done; [lia|].
  intros r' Hr'. rewrite Hr in Hr'. injection Hr' as <-. rewrite Hcb. destruct (us_phase s); exact Hph.
Qed.
End publication.

(** ** Every run

    The worlds that runs of one volume reach from an empty table: publications
    and resumptions cut off after any number of iterations, iterations whose
    database write is lost, and recorded errors.  A publication has a later
    clock than the ones before it; a resumption is given the payload of its
    session. *)
Section runs.
Context (scan : SessionTable -> list (Z * UploadRow)) {T : Type} `{TransportContract T} (blake3 : list Z -> Hash) (volume : Z) (payload : list Z -> Prop) (t0 : T).
Inductive reached : Z -> T * SessionTable -> Prop :=
| reached_start (clock : Z) : reached clock (t0, ∅)
| reached_publish (clock now : Z) (w w' : T * SessionTable) (fuel : nat) (entropy : option Z) (key : string) (hash : Hash) (b : list Z) (res : result (option UploadSession)) :
    reached clock w -> clock < now -> payload b -> Z.of_nat (length b) <= i64_max ->
    publish scan blake3 volume fuel entropy key hash b now w = (res, w') -> reached now w'
| reached_resume (clock now : Z) (w w' : T * SessionTable) (fuel : nat) (id : Z) (b : list Z) (res : result (option UploadSession)) :
    reached clock w -> payload b -> (forall r, w.2 !! id = Some r -> sr_content_hash r = Some (blake3 b)) ->
    step scan volume fuel id b now w = (res, w') -> reached clock w'
| reached_lost (clock now : Z) (w w' : T * SessionTable) (id : Z) (b : list Z) (res : result (option UploadSession)) :
    reached clock w -> payload b -> (forall r, w.2 !! id = Some r -> sr_content_hash r = Some (blake3 b)) ->
    step_once scan volume id b now w = (res, w') -> reached clock (w'.1, w.2)
| reached_error (clock now : Z) (w w' : T * SessionTable) (id : Z) (class : string) (res : result ()) :
    reached clock w -> record_error scan volume id class now w = (res, w') -> reached clock w'.

Context (scan_all : forall t, scan t ≡ₚ map_to_list t) (no_collision : forall a b, payload a -> payload b -> blake3 a = blake3 b -> a = b).
Context (no_uploads : forall u, tr_open t0 u = true -> tr_received t0 u = []).
Lemma reached_ok (clock : Z) (w : T * SessionTable) : reached clock w -> uploads_ok blake3 volume payload clock w.1 w.2.
Proof.
  induction 1 as [clock|clock now w w' fuel entropy key hash b res _ IH Hc Hb Hl E|clock now w w' fuel id b res _ IH Hb Hh E|clock now w w' id b res _ IH Hb Hh E|clock now w w' id class res _ IH E].
  - split; cbn; try by intros ? ? ?%lookup_empty_Some. 1: intros i j r x Hr; by rewrite lookup_empty in Hr. all: try (intros ? ? ? Hr; by rewrite lookup_empty in Hr).
    intros u k _ Hop. left. by apply no_uploads.
  - destruct w as [t tb]. unfold publish in E. destruct (Z.eqb_spec (blake3 b) hash) as [<-|Hne]; cbn [negb] in E.
    + eapply publish_ok; [done|done|exact IH|exact Hc|exact Hb|exact Hl|]. unfold publish. rewrite Z.eqb_refl. exact E.
    + injection E as _ <-. apply (uploads_ok_later _ _ _ clock); [lia|done].
  - destruct w as [t tb]. by eapply step_ok.
  - destruct w as [t tb]. cbn in *. eapply step_once_ok in E as [(_ & E & _) _]; eauto.
  - destruct w as [t tb]. by eapply record_error_ok.
Qed.
End runs.

(** ** Progress *)
Section progress.
Context (scan : SessionTable -> list (Z * UploadRow)) (scan_all : forall t, scan t ≡ₚ map_to_list t).
Context {T : Type} `{ConfirmingTransport T} (blake3 : list Z -> Hash) (volume : Z).
Context (payload : list Z -> Prop) (no_collision : forall a b, payload a -> payload b -> blake3 a = blake3 b -> a = b).
Notation ok := (uploads_ok blake3 volume payload).
Implicit Types (t : T) (tb : SessionTable) (r x : UploadRow) (b : list Z).

(** Iterations left in a phase, with [c] bytes confirmed. *)
Definition chunks (n : Z) : nat := Z.to_nat ((n + 8388607) / 8388608).
Definition iterations (p : SessionPhase) (c : Z) (b : list Z) : nat :=
  match p with
  | Created => S (S (S (chunks (Z.of_nat (length b)))))
  | Initiated | Uploading => S (S (chunks (Z.of_nat (length b) - c)))
  | Uploaded => 1
  | _ => 0
  end.
Definition loadable (tb : SessionTable) : Prop := forall j x, tb !! j = Some x -> sr_attempts x <= u32_max.

Lemma chunks_send (c n : Z) : c < n -> (S (chunks (n - Z.min (c + 8388608) n)) <= chunks (n - c))%nat.
Proof.
  intros Hc. unfold chunks. destruct (Z.le_ge_cases (c + 8388608) n).
  - rewrite Z.min_l by done. replace (n - c + 8388607) with (n - (c + 8388608) + 8388607 + 1 * 8388608) by lia. rewrite Z.div_add by lia.
    rewrite Z2Nat.inj_add; [lia|apply Z.div_pos; lia|lia].
  - rewrite Z.min_r by done. replace (n - n + 8388607) with 8388607 by lia. change (Z.to_nat (8388607 / 8388608)) with O.
    assert (1 <= (n - c + 8388607) / 8388608) by (apply Z.div_le_lower_bound; lia). lia.
Qed.
Lemma row_loads t b r p id : upload_row_ok blake3 volume t b r p -> sr_attempts r <= u32_max -> exists s, session_of_row id r = Some s /\ us_phase s = p.
Proof.
  intros [(R1 & R2 & R3 & R4 & R5 & R6 & R7 & R8 & R9) _] Ha. unfold session_of_row. rewrite R2, R6, phase_codec, R4, R7. change (SessionKind_parse "pack") with (Ok KindPack).
  change (forallb (Z.leb 0) (option_list (Some (Z.of_nat (length b))))) with ((0 <=? Z.of_nat (length b)) && true). rewrite andb_true_r. destruct (_ && _) eqn:E; [eexists; split; [reflexivity|done]|]. exfalso.
  apply not_true_iff_false in E. apply E. rewrite !andb_true_iff, !Z.leb_le. lia.
Qed.
Lemma load_total clock t tb id r s : ok clock t tb -> loadable tb -> tb !! id = Some r -> session_of_row id r = Some s -> load scan volume id tb = Ok s.
Proof.
  intros Hs Hl Hr Hsr. assert (Hu : exists l, unfinished_sessions scan volume tb = Ok l).
  { unfold unfinished_sessions. set (ids := map fst _). assert (Hids : Forall (fun j => is_Some (tb !! j)) ids).
    { apply Forall_forall. intros j Hj. unfold ids in Hj. apply list_elem_of_In, in_map_iff in Hj as ([j' x] & <- & Hin). apply list_elem_of_In in Hin. rewrite sort_by_key_perm in Hin.
      apply list_elem_of_In, filter_In in Hin as [Hin _]. apply list_elem_of_In in Hin. rewrite scan_all in Hin. apply elem_of_map_to_list in Hin. eauto. }
    clearbody ids. induction Hids as [|j ids [x Hx] _ [l Hl']]; [by exists []|].
    destruct (so_rows _ _ _ _ _ _ Hs j x Hx) as (b & p & _ & Hrow). destruct (row_loads t b x p j Hrow (Hl j x Hx)) as (s' & Es & _).
    exists (s' :: l). apply mapM_Ok. constructor; [|by apply mapM_Ok]. unfold load_session. by rewrite Hx, Es. }
  destruct Hu as [l Hlist]. assert (Hs' : exists s', load scan volume id tb = Ok s').
  { unfold load. rewrite Hlist. cbn [mbind result_bind]. destruct (List.find _ l); [eauto|]. unfold find_session_by_id, load_session. rewrite Hr, Hsr. eauto. }
  destruct Hs' as [s' Hs']. rewrite Hs'. apply load_row in Hs' as (r' & Hr' & Hsr'). congruence.
Qed.

Lemma advance_lands clock t tb id r s b q upload_id uri c now : ok clock t tb -> tb !! id = Some r -> session_of_row id r = Some s -> payload b ->
  sr_content_hash r = Some (blake3 b) -> sr_committed_bytes r <= c <= Z.of_nat (length b) -> sr_attempts r < u32_max ->
  advance_session s q upload_id uri c c None now (t, tb) = (Ok tt, (t, <[id := advanced q upload_id uri c None now r]> tb)).
Proof.
  intros Hs Hr Hsr Hb Hh Hc Ha. destruct (session_of_row_Some _ _ _ Hsr) as (Hp & Hid & _). destruct (so_rows _ _ _ _ _ _ Hs id r Hr) as (b' & p & Hb' & Hrow).
  rewrite (payload_of_row blake3 volume payload no_collision t r b b' p) in Hrow by done. destruct Hrow as [(_ & _ & _ & Ht & Hlen & Hpr & Hco & Hcb & Hat) _].
  rewrite Hpr, phase_codec in Hp. injection Hp as ->. unfold advance_session, on_table. cbn [fst snd]. rewrite Hid, (advance_phase_lands id _ _ _ _ _ _ _ _ r); try done; try lia.
  - rewrite Ht. cbn. rewrite (proj2 (Z.leb_le _ _)) by lia. done.
  - unfold u32_max, i64_max in *. lia.
Qed.

Lemma send_chunk_moves clock t tb id r s b p now : ok clock t tb -> tb !! id = Some r -> payload b -> session_of_row id r = Some s -> upload_row_ok blake3 volume t b r p ->
  p = Initiated \/ p = Uploading -> sr_attempts r < u32_max -> exists t' r' p', send_chunk s b now (t, tb) = (Ok None, (t', <[id := r']> tb)) /\
    row_identity r' = row_identity r /\ sr_phase r' = SessionPhase_as_str p' /\ sr_attempts r' = sr_attempts r + 1 /\
    (S (iterations p' (sr_committed_bytes r') b) <= S (S (chunks (Z.of_nat (length b) - sr_committed_bytes r))))%nat.
Proof.
  intros Hs Hr Hb Hsr Hrow Hor Ha. destruct (session_of_row_Some _ _ _ Hsr) as (_ & Hid & Hk & Hch & Hu & Hcb & Hco & Htot).
  destruct Hrow as [(_ & _ & Hh & Ht & Hlen & Hpr & Heq & Hc & _) Hph].
  assert (phase_ok t b r Initiated) as (u & Eu & Hku & Hop & Hcr & _) by (destruct Hor as [-> | ->]; exact Hph).
  unfold send_chunk, mbind, io_bind, io_pure, mret, io_ret, on_transport. rewrite Hu, Eu, Hcb, Htot, Ht. cbn [ok_or from_option Datatypes.id fst snd].
  destruct (Z.leb_spec (Z.of_nat (length b)) (sr_committed_bytes r)).
  - rewrite (advance_lands clock t tb id r s b Uploaded None None (sr_committed_bytes r) now); try done; try lia. eexists t, _, Uploaded. split_and!; try reflexivity. cbn. lia.
  - rewrite wadd_u64_small by (unfold u64_max, i64_max in *; lia). unfold get_range. set (e := Z.min _ _).
    assert (He : sr_committed_bytes r < e <= Z.of_nat (length b)) by (unfold e; lia). rewrite !(proj2 (Z.leb_le _ _)) by lia. cbn [andb ok_or fst snd].
    match goal with |- context [tr_upload u _ ?ch t] => destruct (tr_upload_ok u (sr_committed_bytes r) ch t (sr_object_key r)) as [t1 E]; [done|done|lia|]; rewrite E; set (chunk := ch) in * end.
    assert (Hcl : sr_committed_bytes r + Z.of_nat (length chunk) = e) by (unfold chunk; rewrite length_take, length_drop; lia). rewrite Hcl in E |- *.
    destruct (upload_ok blake3 volume payload no_collision clock t t1 tb id r u b chunk e (Ok e)) as (Hs1 & _); try done; [|lia..|].
    { destruct Hor as [-> | ->]; auto. }
    rewrite (advance_lands clock t1 tb id r s b Uploading None None e now); try done; try lia. eexists t1, _, Uploading. split_and!; try reflexivity.
    cbn [iterations sr_committed_bytes advanced]. pose proof (chunks_send (sr_committed_bytes r) (Z.of_nat (length b))). unfold e in *. lia.
Qed.

(** An iteration of an row_unfinished session moves it on. *)
Lemma step_once_moves clock t tb id r b p now : ok clock t tb -> loadable tb -> tb !! id = Some r -> payload b -> upload_row_ok blake3 volume t b r p -> p <> Committed ->
  sr_attempts r < u32_max -> exists t' r' p', step_once scan volume id b now (t, tb) = (Ok None, (t', <[id := r']> tb)) /\ row_identity r' = row_identity r /\
    sr_phase r' = SessionPhase_as_str p' /\ sr_attempts r' = sr_attempts r + 1 /\ (S (iterations p' (sr_committed_bytes r') b) <= iterations p (sr_committed_bytes r) b)%nat.
Proof.
  intros Hs Hl Hr Hb Hrow Hpc Ha. destruct (row_loads t b r p id Hrow (Hl id r Hr)) as (s & Hsr & Hp).
  destruct (session_of_row_Some _ _ _ Hsr) as (_ & Hid & Hk & Hch & Hu & Hcb & Hco & Htot). pose proof Hrow as [(_ & _ & Hh & Ht & Hlen & Hpr & Heq & Hc & _) Hph].
  unfold step_once, mbind, io_bind, io_read, io_pure, mret, io_ret, on_transport. cbn [fst snd]. rewrite (load_total clock t tb id r s Hs Hl Hr Hsr), Hp.
  destruct p; cbn [fst snd]; try by destruct Hph.
  - destruct Hph as [_ Hc0]. destruct (tr_initiate_ok (us_object_key s) (us_total_bytes s) t) as (rs & t1 & E). rewrite E. rewrite Hk in E.
    destruct (initiate_ok blake3 volume payload clock t t1 tb id r (us_total_bytes s) (Ok rs) Hs Hr Hpr E) as [Hs1 _].
    rewrite (advance_lands clock t1 tb id r s b Initiated _ _ 0 now); try done; try lia. eexists t1, _, Initiated. split_and!; try reflexivity. cbn [iterations sr_committed_bytes advanced].
    rewrite Z.sub_0_r. lia.
  - apply (send_chunk_moves clock t tb id r s b Initiated now); auto.
  - apply (send_chunk_moves clock t tb id r s b Uploading now); auto.
  - destruct Hph as (u & Eu & Hku & Hrec). rewrite Hu, Eu. cbn [ok_or fst snd]. destruct (tr_commit_ok u t _ Hku) as [t1 E]. rewrite E.
    destruct (commit_keeps blake3 volume payload no_collision clock t t1 tb id r u b (Ok tt)) as [Hs1 _]; try done. rewrite Hcb.
    rewrite (advance_lands clock t1 tb id r s b Committed None None (sr_committed_bytes r) now); try done; try lia. by eexists t1, _, Committed.
Qed.

Lemma step_completes clock n t tb id r b p now : ok clock t tb -> loadable tb -> tb !! id = Some r -> payload b -> upload_row_ok blake3 volume t b r p ->
  (iterations p (sr_committed_bytes r) b <= n)%nat -> sr_attempts r + Z.of_nat n <= u32_max ->
  exists s w', step scan volume (S n) id b now (t, tb) = (Ok (Some s), w').
Proof.
  revert t tb r p. induction n as [|n IH]; intros t tb r p Hs Hl Hr Hb Hrow Hn Ha.
  all: destruct (decide (p = Committed)) as [->|Hpc].
  1, 3: destruct (row_loads t b r Committed id Hrow (Hl id r Hr)) as (s & Hsr & Hp); exists s, (t, tb); cbn [step]; unfold step_once, mbind, io_bind, io_read; cbn [fst snd];
    rewrite (load_total clock t tb id r s Hs Hl Hr Hsr), Hp; done.
  - destruct Hrow as [_ Hph]. destruct p; cbn in Hn; (lia || done).
  - destruct (step_once_moves clock t tb id r b p now) as (t' & r' & p' & E & Hid & Hpr & Hat & Hit); try done; [lia|].
    assert (Hh : sr_content_hash r = Some (blake3 b)) by by destruct Hrow as [(_ & _ & E' & _) _].
    destruct (step_once_ok scan blake3 volume payload no_collision clock t tb id b now _ _ Hs Hb ltac:(intros x Hx; congruence) E) as [(Hs' & _) _]. cbn [fst snd] in Hs'.
    destruct (so_rows _ _ _ _ _ _ Hs' id r') as (b' & q & Hb' & Hrow'); [by rewrite lookup_insert_eq|]. injection Hid as E1 E2 E3.
    rewrite (payload_of_row blake3 volume payload no_collision t' r' b b' q) in Hrow' by congruence. pose proof Hrow' as [(_ & _ & _ & _ & _ & Hpr' & _) _].
    rewrite Hpr in Hpr'. apply phase_str_inj in Hpr' as <-.
    destruct (IH t' (<[id := r']> tb) r' p') as (s & w' & Es); try done; [|by rewrite lookup_insert_eq|lia..|].
    + intros j x Hx. destruct (decide (j = id)) as [->|Hne]; [rewrite lookup_insert_eq in Hx; injection Hx as <-; lia|]. rewrite lookup_insert_ne in Hx by done. by apply (Hl j x).
    + exists s, w'. change (step scan volume (S (S n)) id b now (t, tb)) with ((step_once scan volume id b now ≫= (fun o => match o with Some s => mret (Some s) | None => step scan volume (S n) id b now end)) (t, tb)).
      unfold mbind, io_bind. by rewrite E.
Qed.
End progress.

(** ** The theorems *)
Section theorems.
Context (scan : SessionTable -> list (Z * UploadRow)) {T : Type} `{TransportContract T} (blake3 : list Z -> Hash) (volume : Z) (payload : list Z -> Prop) (t0 : T).

(** C20: A publication that reports success has bound its object to exactly the
    published bytes, and its session is committed.  This holds when the clock of
    the volume has gone forward from each publication to the next, this one
    included, and distinct payloads have distinct hashes: then after every history
    of publications, resumptions and lost database writes of the volume, whatever
    the transport failed to do in between.  In every such state the remote holds
    for an unfinished session at least the bytes the table records as confirmed,
    and they are those of its payload, so resuming sends none of them again. *)
Theorem published_object_is_payload (clock now : Z) (w w' : T * SessionTable) (fuel : nat) (entropy : option Z) (key : string) (b : list Z) (s : UploadSession)
    (Hscan : forall t, scan t ≡ₚ map_to_list t) (Hcol : forall a b, payload a -> payload b -> blake3 a = blake3 b -> a = b)
    (Hstart : forall u, tr_open t0 u = true -> tr_received t0 u = []) (Hw : reached scan blake3 volume payload t0 clock w)
    (Hnow : clock < now) (Hb : payload b) (Hlen : Z.of_nat (length b) <= i64_max)
    (Hpub : publish scan blake3 volume fuel entropy key (blake3 b) b now w = (Ok (Some s), w')) :
  us_phase s = Committed /\ tr_object w'.1 key = Some b /\
  forall id r u, w.2 !! id = Some r -> sr_phase r <> SessionPhase_as_str Committed -> sr_session_uri r = Some u ->
    exists p, payload p /\ sr_content_hash r = Some (blake3 p) /\ sr_committed_bytes r <= Z.of_nat (length (tr_received w.1 u)) /\
      take (Z.to_nat (sr_committed_bytes r)) (tr_received w.1 u) = take (Z.to_nat (sr_committed_bytes r)) p.
Proof.
  pose proof (reached_ok scan blake3 volume payload t0 Hscan Hcol Hstart clock w Hw) as Hs. destruct w as [t tb].
  destruct (publish_ok scan Hscan blake3 volume payload Hcol clock fuel t tb entropy key b now (Ok (Some s)) w' Hs Hnow Hb Hlen Hpub) as [_ Hok].
  split_and!; [by apply (Hok s)|by apply (Hok s)|]. intros id r u Hr Hu Huri. destruct (so_rows _ _ _ _ _ _ Hs id r Hr) as (p & q & Hp & (_ & _ & Hh & _ & _ & Hpr & _ & Hcr & _) & Hph).
  exists p. cbn [fst snd] in *. split_and!; [done..| |]; destruct q; cbn in Hph; try done; try (destruct Hph; congruence);
    destruct Hph as (u' & E & Hrest); rewrite Huri in E; injection E as <-; destruct Hrest as [_ Hrest]; (tauto || subst p; (lia || done)).
Qed.

End theorems.

(** ** A transport in memory *)
Record MemoryTransport : Type := mkMemory { me_uploads : gmap string (string * bool * list Z); me_objects : gmap string (list Z) }.
Definition memory_initiate (key : string) (_ : option Z) (t : MemoryTransport) : result RemoteSession * MemoryTransport :=
  match List.find (fun x => bool_decide (x.2.1.1 = key) && x.2.1.2) (map_to_list (me_uploads t)) with
  | Some (u, _) => (Ok (mkRemoteSession u u), t)
  | None => let u := fresh (dom (me_uploads t)) in (Ok (mkRemoteSession u u), mkMemory (<[u := (key, true, [])]> (me_uploads t)) (me_objects t))
  end.
Definition memory_upload (uri : string) (offset : Z) (bytes : list Z) (t : MemoryTransport) : result Z * MemoryTransport :=
  match me_uploads t !! uri with
  | Some (k, true, received) =>
      (Ok (offset + Z.of_nat (length bytes)), mkMemory (<[uri := (k, true, take (Z.to_nat offset) received ++ bytes)]> (me_uploads t)) (me_objects t))
  | _ => (Err (backend_unavailable "no such upload"), t)
  end.
Definition memory_commit (uri : string) (t : MemoryTransport) : result () * MemoryTransport :=
  match me_uploads t !! uri with
  | Some (k, _, received) => (Ok tt, mkMemory (<[uri := (k, false, received)]> (me_uploads t)) (<[k := received]> (me_objects t)))
  | None => (Err (backend_unavailable "no such upload"), t)
  end.
Definition memory_abort (uri : string) (t : MemoryTransport) : result () * MemoryTransport := (Ok tt, mkMemory (delete uri (me_uploads t)) (me_objects t)).
#[export] Instance memory_transport : UploadTransport MemoryTransport :=
  {| tr_initiate := memory_initiate; tr_upload := memory_upload; tr_commit := memory_commit; tr_abort := memory_abort |}.
Definition memory_key (t : MemoryTransport) (u : string) : option string := (fun x => x.1.1) <$> me_uploads t !! u.
Definition memory_open (t : MemoryTransport) (u : string) : bool := match me_uploads t !! u with Some x => x.1.2 | None => false end.
Definition memory_received (t : MemoryTransport) (u : string) : list Z := match me_uploads t !! u with Some x => x.2 | None => [] end.
#[export] Instance memory_contract : TransportContract MemoryTransport.
Proof.
  refine {| tr_key := memory_key; tr_open := memory_open; tr_received := memory_received; tr_object := fun t k => me_objects t !! k |}.
  - intros key total t r t'. cbn. unfold memory_initiate. destruct (List.find _ _) as [[u x]|] eqn:Ef.
    + intros [= <- <-]. split_and!; [done..|auto|]. intros s [= <-]. cbn. apply find_some in Ef as [Hin Hx]. apply list_elem_of_In, elem_of_map_to_list in Hin. cbn in Hx. zbool.
      unfold memory_key, memory_open. rewrite Hin. cbn. apply bool_decide_eq_true in H. by subst.
    + set (u := fresh _). assert (Hu : me_uploads t !! u = None) by (apply not_elem_of_dom, is_fresh). intros [= <- <-]. unfold memory_key, memory_open, memory_received. cbn. split_and!.
      * intros u' Hk. destruct (decide (u' = u)) as [->|Hne]; [rewrite Hu in Hk; by destruct Hk|by rewrite !lookup_insert_ne].
      * done.
      * intros u' Hk. destruct (decide (u' = u)) as [->|Hne]; [right; by rewrite lookup_insert_eq|left; by rewrite lookup_insert_ne].
      * intros s [= <-]. cbn. by rewrite lookup_insert_eq.
  - intros uri offset bytes t r t' key Hk Ho Hoff. cbn. unfold memory_upload, memory_key, memory_open, memory_received in *.
    destruct (me_uploads t !! uri) as [[[k o] rec]|] eqn:Eu; [|done]. cbn in *. injection Hk as ->. subst o. intros [= <- <-]. cbn. rewrite lookup_insert_eq. cbn.
    rewrite length_app, length_take, take_app_le by (rewrite length_take; lia). rewrite take_take, Nat.min_id. split_and!; try done; [|lia|].
    + intros u Hne. by rewrite !lookup_insert_ne.
    + intros c [= <-]. split_and!; (done || lia).
  - intros uri t r t' key Hk. cbn. unfold memory_commit, memory_key, memory_open, memory_received in *.
    destruct (me_uploads t !! uri) as [[[k o] rec]|] eqn:Eu; [|done]. cbn in *. injection Hk as ->. intros [= <- <-]. cbn. rewrite lookup_insert_eq. split_and!.
    + intros u Hne. by rewrite lookup_insert_ne.
    + intros u. destruct (decide (u = uri)) as [->|Hne]; [by rewrite lookup_insert_eq, Eu|by rewrite lookup_insert_ne].
    + intros k Hne. by rewrite lookup_insert_ne.
    + by right.
    + by rewrite lookup_insert_eq.
Defined.
#[export] Instance memory_confirms : ConfirmingTransport MemoryTransport.
Proof.
  split.
  - intros key total t. cbn. unfold memory_initiate. destruct (List.find _ _) as [[u x]|]; eauto.
  - intros uri offset bytes t key Hk Ho _. cbn in *. unfold memory_key, memory_open, memory_upload in *. destruct (me_uploads t !! uri) as [[[k o] rec]|]; [|done]. cbn in *. subst o. eauto.
  - intros uri t key Hk. cbn in *. unfold memory_key, memory_commit in *. destruct (me_uploads t !! uri) as [[[k o] rec]|]; [|done]. eauto.
Qed.

Definition sum_hash (l : list Z) : Hash := foldr (fun x y => x + 256 * y) 1 l.
Definition upload_bytes : list Z := [7; 8; 9].
Definition upload_demo := publish map_to_list sum_hash 1 5 (Some 77) "objects/ab" (sum_hash upload_bytes) upload_bytes 10 (mkMemory ∅ ∅, ∅).
(** The object is bound by one publication, and the next call finds it done. *)
Example demo_publishes :
  (match upload_demo with (Ok (Some s), w) => bool_decide (us_phase s = Committed) && bool_decide (me_objects w.1 !! "objects/ab"%string = Some upload_bytes) | _ => false end) = true.
Proof. vm_compute. reflexivity. Qed.
(** A session that was aborted blocks its object for the same content. *)
Definition aborted_table : SessionTable := {[ 5 := mkUploadRow 1 "pack" "objects/ab" (Some (sum_hash upload_bytes)) "aborted" None None 0 0 (Some 3) [] None 1 4 6 ]}.
Example aborted_session_blocks :
  (match publish map_to_list sum_hash 1 9 (Some 77) "objects/ab" (sum_hash upload_bytes) upload_bytes 10 (mkMemory ∅ ∅, aborted_table) with
   | (Err e, w) => bool_decide (message e = "upload session was aborted"%string) && bool_decide (size w.2 = 1%nat) | _ => false end) = true.
Proof. vm_compute. reflexivity. Qed.
(** A transport that confirms no bytes keeps the driver sending the first chunk. *)
Definition stalled_transport : UploadTransport MemoryTransport :=
  {| tr_initiate := memory_initiate; tr_upload := fun _ offset _ t => (Ok offset, t); tr_commit := memory_commit; tr_abort := memory_abort |}.
Example stalled_upload_repeats :
  (match @publish map_to_list MemoryTransport stalled_transport sum_hash 1 100 (Some 77) "objects/ab" (sum_hash upload_bytes) upload_bytes 10 (mkMemory ∅ ∅, ∅) with
   | (Ok None, w) => bool_decide ((sr_attempts <$> w.2 !! 77) = Some 100) | _ => false end) = true.
Proof. vm_compute. reflexivity. Qed.
(** Sessions are compared by their clock: after the clock went back, publishing
    the older content again reports success while the object has the newer. *)
Definition publish_at (id now : Z) (bytes : list Z) (w : MemoryTransport * SessionTable) : result (option UploadSession) * (MemoryTransport * SessionTable) :=
  publish map_to_list sum_hash 1 9 (Some id) "objects/ab" (sum_hash bytes) bytes now w.
Example clock_step_back_hides_version :
  (let w1 := (publish_at 1 10 upload_bytes (mkMemory ∅ ∅, ∅)).2 in let w2 := (publish_at 2 5 [1] w1).2 in
   match publish_at 3 20 upload_bytes w2 with
   | (Ok (Some s), w) => bool_decide (us_phase s = Committed) && bool_decide (me_objects w.1 !! "objects/ab"%string = Some [1]) | _ => false end) = true.
Proof. vm_compute. reflexivity. Qed.

Lemma published_object_is_payload_witness : exists s w', upload_demo = (Ok (Some s), w') /\ us_phase s = Committed /\ tr_object w'.1 "objects/ab"%string = Some upload_bytes.
Proof.
  assert (Hp : exists s w', upload_demo = (Ok (Some s), w')).
  { pose proof demo_publishes as Hd. destruct upload_demo as [[[s|]|e] w']; [by exists s, w'|done|done]. }
  destruct Hp as (s & w' & Hp). exists s, w'. split; [exact Hp|].
  destruct (published_object_is_payload map_to_list sum_hash 1 (fun b => b = upload_bytes) (mkMemory ∅ ∅) 0 10 (mkMemory ∅ ∅, ∅) w' 5 (Some 77) "objects/ab" upload_bytes s) as (H1 & H2 & _);
    [reflexivity|by intros a b -> ->|done|apply reached_start|lia|done|vm_compute; discriminate|exact Hp|]. exact (conj H1 H2).
Defined.
