(* ===== verification/PayloadObjects.v ===== *)
(** * Payload objects

    The remote objects that hold journal payloads of a managed volume:
    encrypted frames ([mirage-pack/src/encrypted_frame.rs], over
    [mirage-crypto/src/aead.rs]), the proof catalogs that verify one sector of
    a frame ([verified_sector.rs]), and from [mirage-ffi/src/publisher.rs] the
    layout of an object, its encoder and the division of the pending payloads
    into objects and batches.

    The cipher and the tree hash are library code: [Aead] and [TreeHash] are
    the operations the sources call, [AeadLaws] and [TreeHashLaws] what their
    documentation promises.  A drawn nonce is an argument, [None] when the
    operating system has no randomness.

    Proved: an encoded object holds at the computed ranges frames that decode to
    the payload; a sector that verifies is the sector of the frame; the pending
    payloads are divided in order, without loss, within the stated bounds. *)
From S2P Require Export Effects Objects.

(** ** The cipher *)
Class Aead : Type := mkAead {
  aead_encrypt : list Z -> list Z -> list Z -> list Z -> option (list Z);
  aead_decrypt : list Z -> list Z -> list Z -> list Z -> option (list Z);
  (** One byte of the key stream, by position. *)
  key_stream : list Z -> list Z -> Z -> Z
}.
Definition apply_keystream {C : Aead} (key nonce : list Z) (position : Z) (bytes : list Z) : list Z :=
  imap (fun i b => Z.lxor b (key_stream key nonce (position + Z.of_nat i))) bytes.
Class AeadLaws (C : Aead) : Prop := mkAeadLaws {
  aead_roundtrip key nonce m aad c : aead_encrypt key nonce m aad = Some c -> aead_decrypt key nonce c aad = Some m;
  aead_layout key nonce m aad c : aead_encrypt key nonce m aad = Some c -> exists tag, length tag = 16%nat /\ c = apply_keystream key nonce 64 m ++ tag;
  aead_encrypts key nonce m aad : Z.of_nat (length m) <= u32_max -> is_Some (aead_encrypt key nonce m aad)
}.

(** [aead.rs] *)
Definition NONCE_LENGTH : nat := 24.
Definition seal {C : Aead} (key : list Z) (entropy : option (list Z)) (plaintext aad : list Z) : result (list Z * list Z) :=
  nonce ← ok_or (internal_invariant "OS randomness unavailable") entropy;
  ciphertext ← ok_or (internal_invariant "page encryption failed") (aead_encrypt key nonce plaintext aad);
  Ok (nonce, ciphertext).
Definition open_sealed {C : Aead} (key nonce ciphertext aad : list Z) : result (list Z) :=
  ok_or (integrity_mismatch "encrypted page authentication failed") (aead_decrypt key nonce ciphertext aad).

(** ** [encrypted_frame.rs] *)
Definition ENCRYPTED_MAGIC : list Z := chars "MENCv001".
Definition PREFIX_LENGTH : Z := 12 + 16 + Z.of_nat NONCE_LENGTH.
Record EncryptedFrameAad : Set := mkAad { fa_repository : Z; fa_pack_id : Z; fa_frame_index : Z; fa_plaintext_hash : Hash; fa_plaintext_length : Z }.
#[export] Instance EncryptedFrameAad_eq_dec : EqDecision EncryptedFrameAad.
Proof. solve_decision. Defined.
Definition aad_encode (a : EncryptedFrameAad) : list Z :=
  chars "MirageSSD encrypted frame v1" ++ [0] ++ to_be 16 (fa_repository a) ++ to_be 16 (fa_pack_id a) ++ to_le 8 (fa_frame_index a) ++
  to_be 32 (fa_plaintext_hash a) ++ to_le 4 (fa_plaintext_length a).

Section frame.
Context {C : Aead} (blake3 : list Z -> Hash).
Definition encode_encrypted_frame (key : list Z) (entropy : option (list Z)) (plaintext : list Z) (aad : EncryptedFrameAad) : result (list Z) :=
  if u32_max <? Z.of_nat (length plaintext) then Err (invalid_argument "encrypted frame plaintext is oversized") else
  let aad := mkAad (fa_repository aad) (fa_pack_id aad) (fa_frame_index aad) (fa_plaintext_hash aad) (Z.of_nat (length plaintext)) in
  if negb (blake3 plaintext =? fa_plaintext_hash aad) then Err (integrity_mismatch "encrypted frame plaintext hash disagrees with metadata") else
  '(nonce, ciphertext) ← seal key entropy plaintext (aad_encode aad);
  if u32_max <? Z.of_nat (length ciphertext) then Err (invalid_argument "encrypted frame ciphertext is oversized") else
  Ok (ENCRYPTED_MAGIC ++ to_le 4 (Z.of_nat (length ciphertext)) ++ to_be 16 (fa_pack_id aad) ++ nonce ++ ciphertext).
Definition decode_encrypted_frame (key frame : list Z) (aad : EncryptedFrameAad) : result (list Z) :=
  if (Z.of_nat (length frame) <? PREFIX_LENGTH) || negb (bool_decide (get 0 8 frame = ENCRYPTED_MAGIC))
  then Err (integrity_mismatch "encrypted frame header is invalid") else
  if negb (from_le (get 8 4 frame) =? Z.of_nat (length frame) - PREFIX_LENGTH) then Err (integrity_mismatch "encrypted frame length is invalid") else
  if negb (bool_decide (get 12 16 frame = to_be 16 (fa_pack_id aad))) then Err (integrity_mismatch "encrypted frame pack identity is invalid") else
  plaintext ← open_sealed key (get 28 24 frame) (drop 52 frame) (aad_encode aad);
  if negb (Z.of_nat (length plaintext) =? fa_plaintext_length aad) || negb (blake3 plaintext =? fa_plaintext_hash aad)
  then Err (integrity_mismatch "decrypted frame identity is invalid") else Ok plaintext.
Definition encrypted_frame_pack_id (frame : list Z) : result Z :=
  if (Z.of_nat (length frame) <? PREFIX_LENGTH) || negb (bool_decide (get 0 8 frame = ENCRYPTED_MAGIC))
  then Err (integrity_mismatch "encrypted frame header is invalid") else Ok (from_be (get 12 16 frame)).
End frame.

(** ** The payload object of [publisher.rs] *)
Definition PAYLOAD_FRAME_BYTES : Z := 4 * 1024 * 1024.
Definition div_ceil (a b : Z) : Z := (a + b - 1) / b.
Definition payload_frame_count (plaintext_len : Z) : Z := Z.max (div_ceil plaintext_len PAYLOAD_FRAME_BYTES) 1.

Section payload.
Context {C : Aead} (blake3 : list Z -> Hash).
(** The encoder is measured on one byte with a drawn nonce; [expect] panics
    when the probe does not encode, which [frame_overhead_68] excludes. *)
Definition frame_overhead (probe_nonce : list Z) : Z :=
  match encode_encrypted_frame blake3 (replicate 32 81) (Some probe_nonce) [120] (mkAad 0 0 0 (blake3 [120]) 1) with
  | Ok encoded => Z.of_nat (length encoded) - 1
  | Err _ => 0
  end.
Definition payload_frame_range (overhead plaintext_len frame_index : Z) : option (Z * Z) :=
  let count := payload_frame_count plaintext_len in
  if count <=? frame_index then None else
  let offset := frame_index *! (overhead +! PAYLOAD_FRAME_BYTES) in
  let plaintext_here := if frame_index +! 1 =? count then plaintext_len -! (frame_index *! PAYLOAD_FRAME_BYTES) else PAYLOAD_FRAME_BYTES in
  Some (offset, overhead +! plaintext_here).

(** The chunk of a frame, [&plaintext[start..end]]. *)
Definition frame_chunk (plaintext : list Z) (index : Z) : list Z :=
  let start := index * PAYLOAD_FRAME_BYTES in
  zslice start (Z.min ((index + 1) * PAYLOAD_FRAME_BYTES) (Z.of_nat (length plaintext)) - start) plaintext.
(** One iteration of the encoder; [nonces] are the drawn ones, by frame. *)
Definition encode_frame (key : list Z) (repository payload_id : Z) (nonces : Z -> option (list Z)) (plaintext : list Z)
    (acc : list Z * list Hash) (index : Z) : result (list Z * list Hash) :=
  let chunk := frame_chunk plaintext index in
  let plaintext_hash := blake3 chunk in
  frame ← encode_encrypted_frame blake3 key (nonces index) chunk (mkAad repository payload_id index plaintext_hash 0);
  Ok (acc.1 ++ frame, acc.2 ++ [plaintext_hash]).
Definition encode_payload_object (key : list Z) (repository payload_id : Z) (nonces : Z -> option (list Z)) (plaintext : list Z) : result (list Z * list Hash) :=
  for_fold (encode_frame key repository payload_id nonces plaintext) ([], []) (zrange 0 (payload_frame_count (Z.of_nat (length plaintext)))).
End payload.

(** ** Units and batches *)
Record UnpublishedPayload : Set := mkUnpublished { un_payload_id : Z; un_path : string; un_bytes : Z; un_checksum : option Hash; un_device_seq : Z }.
(** [u64::try_from(bytes).unwrap_or(0)] *)
Definition u64_or_zero (x : Z) : Z := if 0 <=? x then x else 0.
Definition PublishUnit : Set := list UnpublishedPayload.
Definition unit_bytes (unit : PublishUnit) : Z := fold_left (fun acc m => saturating_add acc (u64_or_zero (un_bytes m))) unit 0.
Definition PACK_MEMBER_MAX_BYTES : Z := 4 * 1024 * 1024.
Definition PACK_TARGET_BYTES : Z := 16 * 1024 * 1024.
Definition PACK_MAX_MEMBERS : Z := 1024.
Definition PUBLISH_PARALLELISM : nat := 16.
Definition PUBLISH_BATCH_BYTES : Z := 64 * 1024 * 1024.
Definition PUBLISH_BATCH_MAX_BYTES : Z := 256 * 1024 * 1024.

Record UnitState : Set := mkUnitState { ut_units : list PublishUnit; ut_pack : list UnpublishedPayload; ut_pack_bytes : Z }.
Definition flush_pack (s : UnitState) : UnitState :=
  match ut_pack s with [] => s | _ => mkUnitState (ut_units s ++ [ut_pack s]) [] 0 end.
Definition add_payload (s : UnitState) (payload : UnpublishedPayload) : UnitState :=
  let bytes := u64_or_zero (un_bytes payload) in
  if PACK_MEMBER_MAX_BYTES <? bytes then
    let s := flush_pack s in mkUnitState (ut_units s ++ [[payload]]) (ut_pack s) (ut_pack_bytes s)
  else
    let full := (PACK_TARGET_BYTES <? saturating_add (ut_pack_bytes s) bytes) || (PACK_MAX_MEMBERS <=? Z.of_nat (length (ut_pack s))) in
    let s := if full then flush_pack s else s in
    mkUnitState (ut_units s) (ut_pack s ++ [payload]) (saturating_add (ut_pack_bytes s) bytes).
Definition publish_units (pending : list UnpublishedPayload) : list PublishUnit :=
  ut_units (flush_pack (fold_left add_payload pending (mkUnitState [] [] 0))).

(** The loop of [next_batch] over the units from [start], returning how many
    it takes. *)
Fixpoint batch_loop (units : list PublishUnit) (taken : nat) (bytes cap : Z) : nat :=
  match units with
  | [] => taken
  | unit :: units =>
      if (PUBLISH_PARALLELISM <=? taken)%nat then taken else
      let next := unit_bytes unit in
      if (0 <? taken)%nat && (cap <? saturating_add bytes next) then taken else batch_loop units (S taken) (saturating_add bytes next) cap
  end.
Definition next_batch (units : list PublishUnit) (start : nat) (cap : Z) : nat := (start + batch_loop (drop start units) 0 0 cap)%nat.

(** [BatchSizer]; [measured] is the rate of the batch over the target time, as
    an integer. *)
Definition BatchSizer_new : Z := PUBLISH_BATCH_BYTES.
Definition record_success (measured cap : Z) : Z :=
  Z.min (Z.min (Z.max measured PUBLISH_BATCH_BYTES) PUBLISH_BATCH_MAX_BYTES) (saturating_mul cap 2).
Definition record_failure (cap : Z) : Z := PUBLISH_BATCH_BYTES.

(** ** The tree hash *)
Class TreeHash : Type := mkTreeHash {
  th_hash : list Z -> Hash;
  (** [Hasher::new().set_input_offset(o).update(bytes).finalize_non_root()] *)
  th_non_root : Z -> list Z -> Hash;
  left_subtree_len : Z -> Z;
  merge_subtrees_non_root : Hash -> Hash -> Hash;
  merge_subtrees_root : Hash -> Hash -> Hash
}.
Definition VERIFIED_SECTOR_BYTES : Z := 64 * 1024.
Definition MAX_VERIFIED_FRAME_BYTES : Z := 4 * 1024 * 1024.
(** What is promised for inputs longer than a sector: the left subtree is whole
    sectors, and hashes of subtrees merge to the hash of their concatenation. *)
Class TreeHashLaws (H : TreeHash) : Prop := mkTreeHashLaws {
  left_subtree_whole n : VERIFIED_SECTOR_BYTES < n -> (VERIFIED_SECTOR_BYTES | left_subtree_len n) /\ 0 < left_subtree_len n < n;
  non_root_merges o m : VERIFIED_SECTOR_BYTES < Z.of_nat (length m) -> (VERIFIED_SECTOR_BYTES | o) ->
    th_non_root o m = merge_subtrees_non_root (th_non_root o (take (Z.to_nat (left_subtree_len (Z.of_nat (length m)))) m))
      (th_non_root (o + left_subtree_len (Z.of_nat (length m))) (drop (Z.to_nat (left_subtree_len (Z.of_nat (length m)))) m));
  root_merges m : VERIFIED_SECTOR_BYTES < Z.of_nat (length m) ->
    th_hash m = merge_subtrees_root (th_non_root 0 (take (Z.to_nat (left_subtree_len (Z.of_nat (length m)))) m))
      (th_non_root (left_subtree_len (Z.of_nat (length m))) (drop (Z.to_nat (left_subtree_len (Z.of_nat (length m)))) m))
}.
(** The idealisation under which a hash identifies its input. *)
Class CollisionFree (H : TreeHash) : Prop := mkCollisionFree {
  hash_injective a b : th_hash a = th_hash b -> a = b;
  non_root_injective o a b : th_non_root o a = th_non_root o b -> a = b;
  merge_injective a b c d : merge_subtrees_non_root a b = merge_subtrees_non_root c d -> a = c /\ b = d;
  merge_root_injective a b c d : merge_subtrees_root a b = merge_subtrees_root c d -> a = c /\ b = d
}.

(** ** [verified_sector.rs] *)
Record FrameProofCatalog : Set := mkCatalog {
  pc_header : list Z; pc_root : Hash; pc_total : Z; pc_leaves : list Hash; pc_repository : Z; pc_frame_index : Z
}.
Definition invalid_sector : MirageError := integrity_mismatch "encrypted sector does not prove the published frame identity".
Section sector.
Context {C : Aead} {H : TreeHash}.

(** [plaintext.chunks(VERIFIED_SECTOR_BYTES).enumerate()] under the hasher. *)
Definition sector_leaves (plaintext : list Z) : list Hash :=
  map (fun i => th_non_root (i * VERIFIED_SECTOR_BYTES) (zslice (i * VERIFIED_SECTOR_BYTES) VERIFIED_SECTOR_BYTES plaintext))
    (zrange 0 (div_ceil (Z.of_nat (length plaintext)) VERIFIED_SECTOR_BYTES)).
Definition learn_verified_frame (key encoded : list Z) (aad : EncryptedFrameAad) : result (list Z * FrameProofCatalog) :=
  if MAX_VERIFIED_FRAME_BYTES <? fa_plaintext_length aad then Err invalid_sector else
  plaintext ← decode_encrypted_frame th_hash key encoded aad;
  Ok (plaintext, mkCatalog (take 52 encoded) (fa_plaintext_hash aad) (Z.of_nat (length plaintext)) (sector_leaves plaintext) (fa_repository aad) (fa_frame_index aad)).

(** The recursion halves the sectors; [fuel] is one more than their number. *)
Fixpoint rebuild (fuel : nat) (leaves : list Hash) (start length_ selected_index : Z) (selected : Hash) (root : bool) : result Hash :=
  match fuel with
  | O => Err invalid_sector
  | S fuel =>
      if length_ <=? VERIFIED_SECTOR_BYTES then
        let index := start / VERIFIED_SECTOR_BYTES in
        if index =? selected_index then Ok selected else ok_or invalid_sector (leaves !! Z.to_nat index)
      else
        let split := left_subtree_len length_ in
        left ← rebuild fuel leaves start split selected_index selected false;
        right ← rebuild fuel leaves (start + split) (length_ - split) selected_index selected false;
        Ok (if root then merge_subtrees_root left right else merge_subtrees_non_root left right)
  end.
Definition sector_fuel (total : Z) : nat := S (Z.to_nat (div_ceil total VERIFIED_SECTOR_BYTES)).
Definition decode_verified_sector (key : list Z) (catalog : FrameProofCatalog) (aad : EncryptedFrameAad) (offset : Z) (ciphertext : list Z) : result (list Z) :=
  let total := fa_plaintext_length aad in
  if (total =? 0) || (MAX_VERIFIED_FRAME_BYTES <? total) || negb (pc_total catalog =? total) || negb (pc_repository catalog =? fa_repository aad) ||
     negb (pc_frame_index catalog =? fa_frame_index aad) || negb (pc_root catalog =? fa_plaintext_hash aad) ||
     negb (Z.of_nat (length (pc_leaves catalog)) =? div_ceil total VERIFIED_SECTOR_BYTES) || negb (offset mod VERIFIED_SECTOR_BYTES =? 0) ||
     (total <=? offset) || negb (Z.of_nat (length ciphertext) =? Z.min VERIFIED_SECTOR_BYTES (total - offset)) ||
     negb (bool_decide (get 0 8 (pc_header catalog) = ENCRYPTED_MAGIC)) || negb (bool_decide (get 12 16 (pc_header catalog) = to_be 16 (fa_pack_id aad))) ||
     negb (from_le (get 8 4 (pc_header catalog)) =? total + 16)
  then Err invalid_sector else
  let plaintext := apply_keystream key (drop 28 (pc_header catalog)) (64 + offset) ciphertext in
  actual ← (if total <=? VERIFIED_SECTOR_BYTES then Ok (th_hash plaintext)
            else rebuild (sector_fuel total) (pc_leaves catalog) 0 total (offset / VERIFIED_SECTOR_BYTES) (th_non_root offset plaintext) true);
  if negb (actual =? fa_plaintext_hash aad) then Err invalid_sector else Ok plaintext.
End sector.

(** ** Lemmas: frames *)
Section frame_lemmas.
Context {C : Aead} {CL : AeadLaws C} (blake3 : list Z -> Hash).

Lemma length_keystream key nonce p l : length (apply_keystream key nonce p l) = length l.
Proof. apply length_imap. Qed.
Lemma encode_frame_Ok key entropy m aad f : encode_encrypted_frame blake3 key entropy m aad = Ok f -> exists nonce c,
  entropy = Some nonce /\ aead_encrypt key nonce m (aad_encode (mkAad (fa_repository aad) (fa_pack_id aad) (fa_frame_index aad) (fa_plaintext_hash aad) (Z.of_nat (length m)))) = Some c /\
  f = ENCRYPTED_MAGIC ++ to_le 4 (Z.of_nat (length c)) ++ to_be 16 (fa_pack_id aad) ++ nonce ++ c /\ blake3 m = fa_plaintext_hash aad /\
  Z.of_nat (length m) <= u32_max /\ Z.of_nat (length c) <= u32_max.
Proof.
  unfold encode_encrypted_frame, seal. cbn [fa_plaintext_hash fa_pack_id]. destruct (Z.ltb_spec u32_max (Z.of_nat (length m))); [done|]. destruct (Z.eqb_spec (blake3 m) (fa_plaintext_hash aad)) as [Hh|]; [|done].
  cbn [negb]. intros ([nonce c] & (n' & En & (c' & Ec & [= -> ->])%bind_Ok_inv)%bind_Ok_inv & Hf)%bind_Ok_inv. apply ok_or_Ok_inv in En, Ec.
  destruct (Z.ltb_spec u32_max (Z.of_nat (length c))); [done|]. injection Hf as <-. exists nonce, c. by split_and!.
Qed.
Lemma frame_length key nonce m aad f : length nonce = NONCE_LENGTH -> encode_encrypted_frame blake3 key (Some nonce) m aad = Ok f -> Z.of_nat (length f) = Z.of_nat (length m) + 68.
Proof.
  intros Hn (n' & c & [= <-] & Ec & -> & _)%encode_frame_Ok. destruct (aead_layout _ _ _ _ _ Ec) as (tag & Ht & ->). rewrite !length_app, length_le, length_be, length_keystream, Hn, Ht. cbn. lia.
Qed.
Lemma decode_encode key nonce m aad f : length nonce = NONCE_LENGTH -> encode_encrypted_frame blake3 key (Some nonce) m aad = Ok f ->
  decode_encrypted_frame blake3 key f (mkAad (fa_repository aad) (fa_pack_id aad) (fa_frame_index aad) (fa_plaintext_hash aad) (Z.of_nat (length m))) = Ok m.
Proof.
  intros Hn Hf. pose proof (frame_length key nonce m aad f Hn Hf) as Hlen. apply encode_frame_Ok in Hf as (n' & c & [= <-] & Ec & Ef & Hh & Hm & Hc).
  assert (Hlc : Z.of_nat (length f) = Z.of_nat (length c) + 52) by (rewrite Ef, !length_app, length_le, length_be, Hn; cbn; lia).
  assert (E0 : get 0 8 f = ENCRYPTED_MAGIC) by (rewrite Ef; by rewrite get_app_0).
  assert (E3 : get 8 4 f = to_le 4 (Z.of_nat (length c))).
  { rewrite Ef. rewrite get_app_r by (cbn; lia). change (8 - length ENCRYPTED_MAGIC)%nat with 0%nat. apply get_app_0, length_le. }
  assert (E4 : get 12 16 f = to_be 16 (fa_pack_id aad)).
  { rewrite Ef. rewrite get_app_r by (cbn; lia). change (12 - length ENCRYPTED_MAGIC)%nat with 4%nat. rewrite get_app_r by (rewrite length_le; lia). rewrite length_le. cbn [Nat.sub].
    apply get_app_0, length_be. }
  assert (E1 : get 28 24 f = nonce).
  { rewrite Ef. rewrite get_app_r by (cbn; lia). change (28 - length ENCRYPTED_MAGIC)%nat with 20%nat. rewrite get_app_r by (rewrite length_le; lia). rewrite length_le. cbn [Nat.sub].
    rewrite get_app_r by (rewrite length_be; lia). rewrite length_be. cbn [Nat.sub]. by rewrite get_app_0. }
  assert (E2 : drop 52 f = c).
  { rewrite Ef, !app_assoc. apply drop_app_length'. rewrite !length_app, length_le, length_be, Hn. done. }
  unfold decode_encrypted_frame. cbn [fa_pack_id fa_plaintext_length fa_plaintext_hash]. change PREFIX_LENGTH with 52.
  rewrite (proj2 (Z.ltb_ge _ _)) by lia. rewrite E0, E3, E4, E1, E2. rewrite !bool_decide_true by done. cbn [orb negb].
  rewrite le_val_le by (unfold u32_max in *; cbn; lia). rewrite (proj2 (Z.eqb_eq _ _)) by lia. cbn [negb]. unfold open_sealed. rewrite (aead_roundtrip _ _ _ _ _ Ec). cbn [ok_or mbind result_bind]. rewrite Hh, !Z.eqb_refl. done.
Qed.
Lemma encode_total key nonce m aad : Z.of_nat (length m) + 16 <= u32_max -> blake3 m = fa_plaintext_hash aad -> exists f, encode_encrypted_frame blake3 key (Some nonce) m aad = Ok f.
Proof.
  intros Hm Hh. unfold encode_encrypted_frame, seal. cbn [fa_plaintext_hash fa_pack_id]. rewrite (proj2 (Z.ltb_ge _ _)) by lia. rewrite Hh, Z.eqb_refl. cbn [negb ok_or mbind result_bind].
  match goal with |- context [aead_encrypt key nonce m ?a] => destruct (aead_encrypts key nonce m a) as [c Hc]; [lia|] end. rewrite Hc. cbn [ok_or mbind result_bind].
  destruct (aead_layout _ _ _ _ _ Hc) as (tag & Ht & E). rewrite (proj2 (Z.ltb_ge _ _)); [eauto|]. rewrite E, length_app, length_keystream, Ht. lia.
Qed.
Lemma frame_overhead_68 probe : length probe = NONCE_LENGTH -> frame_overhead blake3 probe = 68.
Proof.
  intros Hp. unfold frame_overhead. destruct (encode_total (replicate 32 81) probe [120] (mkAad 0 0 0 (blake3 [120]) 1)) as [f Hf]; [done|done|]. rewrite Hf.
  apply frame_length in Hf; [cbn in Hf; lia|done].
Qed.
End frame_lemmas.

(** ** Lemmas: objects *)
Lemma take_concat_at {A : Type} (L : nat) (fs : list (list A)) (i : nat) (f : list A) :
  (forall j g, (j < i)%nat -> fs !! j = Some g -> length g = L) -> fs !! i = Some f -> take (length f) (drop (i * L) (concat fs)) = f.
Proof.
  revert i. induction fs as [|g fs IH]; intros i Hl Hf; [done|]. destruct i as [|i]; cbn [concat].
  - injection Hf as ->. rewrite Nat.mul_0_l, drop_0. apply take_app_length.
  - rewrite drop_app_ge by (rewrite (Hl 0%nat g) by (done || lia); cbn; lia). rewrite (Hl 0%nat g) by (done || lia).
    replace (S i * L - L)%nat with (i * L)%nat by lia. apply IH; [|done]. intros j h Hj Hh. apply (Hl (S j) h); [lia|done].
Qed.
Lemma payload_frame_count_spec (n : Z) : 0 <= n -> 1 <= payload_frame_count n /\ (payload_frame_count n - 1) * PAYLOAD_FRAME_BYTES <= n <= payload_frame_count n * PAYLOAD_FRAME_BYTES /\
  (0 < n -> (payload_frame_count n - 1) * PAYLOAD_FRAME_BYTES < n).
Proof.
  intros Hn. unfold payload_frame_count, div_ceil. assert (HF : PAYLOAD_FRAME_BYTES = 4194304) by done. rewrite HF.
  pose proof (Z.div_mod (n + 4194304 - 1) 4194304 ltac:(lia)). pose proof (Z.mod_pos_bound (n + 4194304 - 1) 4194304 ltac:(lia)). lia.
Qed.
Lemma frame_chunk_length (P : list Z) (i : Z) : 0 <= i < payload_frame_count (Z.of_nat (length P)) ->
  Z.of_nat (length (frame_chunk P i)) = Z.min ((i + 1) * PAYLOAD_FRAME_BYTES) (Z.of_nat (length P)) - i * PAYLOAD_FRAME_BYTES /\
  0 <= Z.of_nat (length (frame_chunk P i)) <= PAYLOAD_FRAME_BYTES /\
  (i + 1 < payload_frame_count (Z.of_nat (length P)) -> Z.of_nat (length (frame_chunk P i)) = PAYLOAD_FRAME_BYTES).
Proof.
  intros Hi. pose proof (payload_frame_count_spec (Z.of_nat (length P)) ltac:(lia)) as (_ & Hc & _). unfold frame_chunk, zslice. cbv zeta. rewrite length_take, length_drop.
  assert (HF : PAYLOAD_FRAME_BYTES = 4194304) by done. rewrite HF in *. nia.
Qed.
Lemma concat_chunks (P : list Z) (k : Z) : 0 <= k <= payload_frame_count (Z.of_nat (length P)) ->
  concat (map (frame_chunk P) (zrange 0 k)) = take (Z.to_nat (k * PAYLOAD_FRAME_BYTES)) P.
Proof.
  intros [Hk Hle]. revert Hle. apply (natlike_ind (fun k => k <= _ -> concat (map (frame_chunk P) (zrange 0 k)) = take (Z.to_nat (k * PAYLOAD_FRAME_BYTES)) P)); [done| |done].
  clear k Hk. intros k Hk IH Hle. rewrite <- Z.add_1_r in *. rewrite zrange_succ, map_app, concat_app, IH by lia. cbn [map concat]. rewrite app_nil_r, Z.add_0_l.
  pose proof (payload_frame_count_spec (Z.of_nat (length P)) ltac:(lia)) as (_ & Hc & _). assert (HF : PAYLOAD_FRAME_BYTES = 4194304) by done. unfold frame_chunk. cbv zeta.
  rewrite zslice_append by (rewrite HF in *; nia). rewrite HF in *. destruct (Z.le_ge_cases ((k + 1) * 4194304) (Z.of_nat (length P))).
  - rewrite Z.min_l by done. f_equal. lia.
  - rewrite Z.min_r by done. rewrite !take_ge; [done|lia|lia].
Qed.

Section object_lemmas.
Context {C : Aead} {CL : AeadLaws C} (blake3 : list Z -> Hash).
Definition nonces_ok (nonces : Z -> option (list Z)) : Prop := forall i n, nonces i = Some n -> length n = NONCE_LENGTH.
Lemma encode_frames key repository id nonces P (l : list Z) acc res : for_fold (encode_frame blake3 key repository id nonces P) acc l = Ok res ->
  exists fs, res = (acc.1 ++ concat fs, acc.2 ++ map (fun i => blake3 (frame_chunk P i)) l) /\
    Forall2 (fun i f => encode_encrypted_frame blake3 key (nonces i) (frame_chunk P i) (mkAad repository id i (blake3 (frame_chunk P i)) 0) = Ok f) l fs.
Proof.
  revert acc. induction l as [|i l IH]; intros acc; cbn [for_fold].
  - intros [= <-]. exists []. cbn. rewrite !app_nil_r. by destruct acc.
  - unfold encode_frame at 1. intros (acc' & (f & Hf & [= <-])%bind_Ok_inv & H)%bind_Ok_inv. destruct (IH _ H) as (fs & -> & Hfs). exists (f :: fs). split; [|by constructor].
    cbn [fst snd map concat]. by rewrite <- !app_assoc.
Qed.
Lemma payload_frame_range_spec (n i : Z) (m : list Z) : Z.of_nat (length m) = n -> n <= i64_max -> 0 <= i < payload_frame_count n ->
  payload_frame_range 68 n i = Some (i * (68 + PAYLOAD_FRAME_BYTES), 68 + Z.of_nat (length (frame_chunk m i))).
Proof.
  intros Hm Hn Hi. pose proof (payload_frame_count_spec n ltac:(lia)) as (_ & Hc & _). destruct (frame_chunk_length m i) as (Hl & _ & Hfull); [by rewrite Hm|]. rewrite Hm in Hl, Hfull.
  unfold payload_frame_range. rewrite (proj2 (Z.leb_gt _ _)) by lia. assert (HF : PAYLOAD_FRAME_BYTES = 4194304) by done. rewrite HF in *. unfold i64_max in Hn.
  rewrite (wadd_u64_small 68 4194304), wmul_u64_small, (wadd_u64_small i 1) by (unfold u64_max; lia). destruct (Z.eqb_spec (i + 1) (payload_frame_count n)).
  - rewrite wmul_u64_small, wsub_u64_small by (unfold u64_max; lia). rewrite wadd_u64_small by (unfold u64_max; lia). do 2 f_equal. lia.
  - rewrite wadd_u64_small by (unfold u64_max; lia). rewrite Hfull by lia. done.
Qed.

(** What an encoded object holds at the range of a frame. *)
Lemma encoded_frame_at key repository id nonces P obj hs i : nonces_ok nonces -> Z.of_nat (length P) <= i64_max ->
  encode_payload_object blake3 key repository id nonces P = Ok (obj, hs) -> 0 <= i < payload_frame_count (Z.of_nat (length P)) ->
  exists nonce f, nonces i = Some nonce /\ encode_encrypted_frame blake3 key (Some nonce) (frame_chunk P i) (mkAad repository id i (blake3 (frame_chunk P i)) 0) = Ok f /\
    zslice (i * (68 + PAYLOAD_FRAME_BYTES)) (68 + Z.of_nat (length (frame_chunk P i))) obj = f /\ hs !! Z.to_nat i = Some (blake3 (frame_chunk P i)).
Proof.
  intros Hns Hn He Hi. unfold encode_payload_object in He. apply encode_frames in He as (fs & [= -> ->] & Hfs). cbn [fst snd app]. set (count := payload_frame_count _) in *.
  assert (Hz : forall j, 0 <= j < count -> zrange 0 count !! Z.to_nat j = Some j).
  { intros j Hj. unfold zrange. rewrite list_lookup_fmap, lookup_seq_lt by lia. cbn. f_equal. lia. }
  assert (Hlen : forall j f, 0 <= j < count -> fs !! Z.to_nat j = Some f -> exists nonce, nonces j = Some nonce /\
    encode_encrypted_frame blake3 key (Some nonce) (frame_chunk P j) (mkAad repository id j (blake3 (frame_chunk P j)) 0) = Ok f /\ Z.of_nat (length f) = Z.of_nat (length (frame_chunk P j)) + 68).
  { intros j f Hj Hf. pose proof (Forall2_lookup_lr _ _ _ _ _ _ Hfs (Hz j Hj) Hf) as E. cbn in E. destruct (nonces j) as [nonce|] eqn:En; [|by apply encode_frame_Ok in E as (? & ? & ? & _)].
    exists nonce. split_and!; [done..|]. apply (frame_length blake3 _ _ _ _ _ (Hns _ _ En) E). }
  assert (Hlf : length fs = Z.to_nat count) by (rewrite <- (Forall2_length _ _ _ Hfs); apply length_zrange).
  destruct (lookup_lt_is_Some_2 fs (Z.to_nat i)) as [f Hf]; [lia|]. destruct (Hlen i f Hi Hf) as (nonce & En & Ef & Hl). exists nonce, f. split_and!; [done..| |].
  - unfold zslice. replace (Z.to_nat (68 + Z.of_nat (length (frame_chunk P i)))) with (length f) by lia.
    rewrite Z2Nat.inj_mul by (done || lia). apply take_concat_at; [|done].
    intros j g Hj Hg. destruct (Hlen (Z.of_nat j) g) as (_ & _ & _ & Hlg); [lia|by rewrite Nat2Z.id|]. destruct (frame_chunk_length P (Z.of_nat j)) as (_ & _ & Hfull); [lia|]. fold count in Hfull. lia.
  - rewrite list_lookup_fmap, (Hz i Hi). done.
Qed.
(** The length and the hashes of an encoded object. *)
Lemma encoded_shape key repository id nonces P obj hs : nonces_ok nonces -> encode_payload_object blake3 key repository id nonces P = Ok (obj, hs) ->
  let count := payload_frame_count (Z.of_nat (length P)) in
  concat (map (frame_chunk P) (zrange 0 count)) = P /\ Z.of_nat (length obj) = Z.of_nat (length P) + 68 * count /\ hs = map (fun i => blake3 (frame_chunk P i)) (zrange 0 count).
Proof.
  intros Hns He count. pose proof (payload_frame_count_spec (Z.of_nat (length P)) ltac:(lia)) as (Hc1 & Hc & _). fold count in Hc1, Hc.
  assert (Hcc : concat (map (frame_chunk P) (zrange 0 count)) = P) by (rewrite concat_chunks by lia; apply take_ge; lia).
  unfold encode_payload_object in He. apply encode_frames in He as (fs & [= -> ->] & Hfs). cbn [fst snd app]. split_and!; [done| |done].
  assert (Hsum : forall l fs, Forall2 (fun i f => encode_encrypted_frame blake3 key (nonces i) (frame_chunk P i) (mkAad repository id i (blake3 (frame_chunk P i)) 0) = Ok f) l fs ->
    Z.of_nat (length (concat fs)) = Z.of_nat (length (concat (map (frame_chunk P) l))) + 68 * Z.of_nat (length l)).
  { induction 1 as [|i f l fs' Hf _ IH]; [done|]. cbn [concat map length]. rewrite !length_app. destruct (nonces i) as [n|] eqn:En; [|by apply encode_frame_Ok in Hf as (? & ? & ? & _)].
    apply (frame_length blake3 _ _ _ _ _ (Hns _ _ En)) in Hf. lia. }
  rewrite (Hsum _ _ Hfs). fold count. rewrite Hcc, length_zrange. lia.
Qed.
(** With nonces for its frames every payload is encoded. *)
Lemma encode_object_total key repository id nonces P : (forall i, exists n, nonces i = Some n /\ length n = NONCE_LENGTH) -> exists obj hs, encode_payload_object blake3 key repository id nonces P = Ok (obj, hs).
Proof.
  intros Hnonces. set (count := payload_frame_count (Z.of_nat (length P))).
  assert (Hchunk : forall i, 0 <= i < count -> Z.of_nat (length (frame_chunk P i)) <= PAYLOAD_FRAME_BYTES) by (intros i Hi; by destruct (frame_chunk_length P i Hi) as (_ & [_ ?] & _)).
  assert (Hok : forall l acc, Forall (fun i => 0 <= i < count) l -> exists res, for_fold (encode_frame blake3 key repository id nonces P) acc l = Ok res).
  { induction l as [|i l IH]; intros acc Hl; [by eexists|]. apply Forall_cons in Hl as [Hi Hl]. destruct (Hnonces i) as (n & En & _).
    destruct (encode_total blake3 key n (frame_chunk P i) (mkAad repository id i (blake3 (frame_chunk P i)) 0)) as [f Ef]; [|done|].
    { specialize (Hchunk i Hi). unfold u32_max. change PAYLOAD_FRAME_BYTES with 4194304 in Hchunk. lia. }
    assert (E : encode_frame blake3 key repository id nonces P acc i = Ok (acc.1 ++ f, acc.2 ++ [blake3 (frame_chunk P i)])) by (unfold encode_frame; by rewrite En, Ef).
    cbn [for_fold]. rewrite E. cbn [mbind result_bind]. by apply IH. }
  destruct (Hok (zrange 0 count) ([], [])) as [[obj hs] He]; [apply Forall_forall; intros i Hi; apply elem_of_zrange in Hi; lia|]. exists obj, hs. exact He.
Qed.
End object_lemmas.

(** C25: A payload object is read back frame by frame: the encoder of any payload
    succeeds when its nonces are drawn, and in its object, at the range that
    [payload_frame_range] computes with the measured overhead, every frame
    decodes under its recorded hash to its part of the payload; the parts put
    together are the payload, and the object is 68 bytes longer per frame. *)
Theorem payload_object_exact {C : Aead} {CL : AeadLaws C} (blake3 : list Z -> Hash) (key probe P : list Z) (repository id : Z) (nonces : Z -> option (list Z))
    (Hprobe : length probe = NONCE_LENGTH) (Hnonces : forall i, exists n, nonces i = Some n /\ length n = NONCE_LENGTH) (HP : Z.of_nat (length P) <= i64_max) :
  let count := payload_frame_count (Z.of_nat (length P)) in
  exists obj hs, encode_payload_object blake3 key repository id nonces P = Ok (obj, hs) /\ Z.of_nat (length obj) = Z.of_nat (length P) + 68 * count /\
    concat (map (frame_chunk P) (zrange 0 count)) = P /\ Z.of_nat (length hs) = count /\
    forall i, 0 <= i < count -> exists offset len h, payload_frame_range (frame_overhead blake3 probe) (Z.of_nat (length P)) i = Some (offset, len) /\ hs !! Z.to_nat i = Some h /\
      decode_encrypted_frame blake3 key (zslice offset len obj) (mkAad repository id i h (len - 68)) = Ok (frame_chunk P i).
Proof.
  intros count. pose proof (payload_frame_count_spec (Z.of_nat (length P)) ltac:(lia)) as (Hc1 & Hc & _). fold count in Hc1, Hc.
  assert (Hns : nonces_ok nonces) by (intros i n Hn; destruct (Hnonces i) as (n' & E & ?); congruence).
  destruct (encode_object_total blake3 key repository id nonces P Hnonces) as (obj & hs & He).
  exists obj, hs. split; [exact He|]. destruct (encoded_shape blake3 key repository id nonces P obj hs Hns He) as (Hcc & Hlen & Eh). cbv zeta in *. fold count in Hcc, Hlen, Eh.
  split_and!; [done|done|by rewrite Eh, length_map, length_zrange; lia|].
  - intros i Hi. destruct (encoded_frame_at blake3 key repository id nonces P obj hs i Hns HP He Hi) as (n & f & En & Ef & Hz & Hh).
    exists (i * (68 + PAYLOAD_FRAME_BYTES)), (68 + Z.of_nat (length (frame_chunk P i))), (blake3 (frame_chunk P i)). rewrite frame_overhead_68 by done.
    split_and!; [by apply payload_frame_range_spec|done|]. rewrite Hz. replace (68 + Z.of_nat (length (frame_chunk P i)) - 68) with (Z.of_nat (length (frame_chunk P i))) by lia.
    apply (decode_encode blake3 key n (frame_chunk P i) (mkAad repository id i (blake3 (frame_chunk P i)) 0) f (Hns _ _ En) Ef).
Qed.

(** ** Lemmas: sectors *)
Section sector_lemmas.
Context {C : Aead} {H : TreeHash} {HL : TreeHashLaws H}.
Notation S64 := VERIFIED_SECTOR_BYTES.
Implicit Types (m : list Z) (leaves : list Hash).

(** The subtree of a frame from [start], and the sector [i] of a frame. *)
Definition subtree m (start n : Z) : Hash := th_non_root start (zslice start n m).
Definition sector_of m (i : Z) : list Z := zslice (i * S64) (Z.min S64 (Z.of_nat (length m) - i * S64)) m.
(** Aligned pieces: whole sectors, or everything to the end. *)
Definition piece_ok m (start n : Z) : Prop := 0 <= start /\ (S64 | start) /\ 0 < n /\ start + n <= Z.of_nat (length m) /\ ((S64 | n) \/ start + n = Z.of_nat (length m)).

Lemma zslice_length {A : Type} (l : list A) (s n : Z) : 0 <= s -> 0 <= n -> s + n <= Z.of_nat (length l) -> Z.of_nat (length (zslice s n l)) = n.
Proof. intros. unfold zslice. rewrite length_take, length_drop. lia. Qed.
Lemma zslice_take {A : Type} (l : list A) (s n k : Z) : 0 <= k <= n -> take (Z.to_nat k) (zslice s n l) = zslice s k l.
Proof. intros. unfold zslice. rewrite take_take. f_equal. lia. Qed.
Lemma zslice_drop {A : Type} (l : list A) (s n k : Z) : 0 <= s -> 0 <= k <= n -> drop (Z.to_nat k) (zslice s n l) = zslice (s + k) (n - k) l.
Proof. intros. unfold zslice. rewrite skipn_firstn_comm, drop_drop. f_equal; [lia|]. f_equal. lia. Qed.
Lemma piece_split m s n : piece_ok m s n -> S64 < n -> let k := left_subtree_len n in
  0 < k < n /\ piece_ok m s k /\ piece_ok m (s + k) (n - k) /\ subtree m s n = merge_subtrees_non_root (subtree m s k) (subtree m (s + k) (n - k)) /\
  (n = Z.of_nat (length m) -> s = 0 -> th_hash m = merge_subtrees_root (subtree m 0 k) (subtree m k (n - k))).
Proof.
  intros (Hs & Hd & Hn & Hle & Hw) Hbig k. destruct (left_subtree_whole n Hbig) as [Hk1 Hk2]. fold k in Hk1, Hk2. split; [done|]. split; [split_and!; (done || lia || by left)|]. split.
  { split_and!; [lia|by apply Z.divide_add_r|lia|lia|]. destruct Hw as [Hw|Hw]; [left; by apply Z.divide_sub_r|right; lia]. }
  pose proof (zslice_length m s n Hs ltac:(lia) Hle) as Hl. split.
  - unfold subtree. rewrite non_root_merges by (rewrite ?Hl; done). rewrite Hl. fold k. rewrite zslice_take, zslice_drop by lia. done.
  - intros -> ->. rewrite root_merges by lia. fold k. unfold subtree, zslice. rewrite drop_0. do 2 f_equal. rewrite take_ge; [done|]. rewrite length_drop. lia.
Qed.
Lemma piece_leaf m s n : piece_ok m s n -> n <= S64 -> n = Z.min S64 (Z.of_nat (length m) - s) /\ s = s / S64 * S64.
Proof.
  intros (Hs & [q ->] & Hn & Hle & Hw) Hsm. rewrite Z.div_mul by done. split; [|done]. destruct Hw as [[q' ->]|Hw]; [|lia]. change S64 with 65536 in *. lia.
Qed.

(** With the right leaves the recursion computes the subtree. *)
Lemma rebuild_complete m leaves fuel s n i root : (forall j, 0 <= j < div_ceil (Z.of_nat (length m)) S64 -> leaves !! Z.to_nat j = Some (th_non_root (j * S64) (sector_of m j))) ->
  piece_ok m s n -> (Z.to_nat (div_ceil n S64) < fuel)%nat -> (root = true -> s = 0 /\ n = Z.of_nat (length m) /\ S64 < n) ->
  rebuild fuel leaves s n i (th_non_root (i * S64) (sector_of m i)) root = Ok (if root then th_hash m else subtree m s n).
Proof.
  intros Hleaves. revert s n root. induction fuel as [|fuel IH]; intros s n root Hp Hf Hr; [lia|]. cbn [rebuild]. destruct (Z.leb_spec n S64) as [Hsm|Hbig].
  - destruct root; [destruct (Hr eq_refl); lia|]. destruct (piece_leaf m s n Hp Hsm) as [Hn Hs]. destruct Hp as (Hs0 & _ & Hn0 & Hle & _).
    assert (E : th_non_root (s / S64 * S64) (sector_of m (s / S64)) = subtree m s n) by (unfold sector_of, subtree; by rewrite <- Hs, <- Hn).
    destruct (Z.eqb_spec (s / S64) i) as [<-|Hne]; [by rewrite E|]. rewrite Hleaves; [by cbn; rewrite E|]. change S64 with 65536 in *. unfold div_ceil. split; [apply Z.div_pos; lia|].
    apply Z.div_lt_upper_bound; [lia|]. pose proof (Z.div_mod (Z.of_nat (length m) + 65536 - 1) 65536 ltac:(lia)). pose proof (Z.mod_pos_bound (Z.of_nat (length m) + 65536 - 1) 65536 ltac:(lia)). lia.
  - destruct (piece_split m s n Hp Hbig) as (Hk & Hp1 & Hp2 & Hm & Hroot). cbv zeta in *. set (k := left_subtree_len n) in *.
    assert (Hfu : (Z.to_nat (div_ceil k S64) < fuel)%nat /\ (Z.to_nat (div_ceil (n - k) S64) < fuel)%nat).
    { destruct Hp1 as (_ & _ & _ & _ & _). destruct (left_subtree_whole n Hbig) as [[q Hq] _]. fold k in Hq. unfold div_ceil in *. change S64 with 65536 in *.
      pose proof (Z.div_mod (n + 65536 - 1) 65536 ltac:(lia)). pose proof (Z.mod_pos_bound (n + 65536 - 1) 65536 ltac:(lia)).
      pose proof (Z.div_mod (k + 65536 - 1) 65536 ltac:(lia)). pose proof (Z.mod_pos_bound (k + 65536 - 1) 65536 ltac:(lia)).
      pose proof (Z.div_mod (n - k + 65536 - 1) 65536 ltac:(lia)). pose proof (Z.mod_pos_bound (n - k + 65536 - 1) 65536 ltac:(lia)). lia. }
    rewrite (IH s k false Hp1) by (done || lia). cbn [mbind result_bind]. rewrite (IH (s + k) (n - k) false Hp2) by (done || lia). cbn [mbind result_bind].
    destruct root; [|by rewrite Hm]. destruct (Hr eq_refl) as (-> & -> & _). by rewrite Hroot.
Qed.
(** Whatever the leaves, the root determines the selected sector. *)
Lemma rebuild_sound {HC : CollisionFree H} m leaves fuel s n i sel root v : piece_ok m s n -> s <= i * S64 < s + n -> rebuild fuel leaves s n i sel root = Ok v ->
  (if root then s = 0 /\ n = Z.of_nat (length m) /\ S64 < n /\ v = th_hash m else v = subtree m s n) -> sel = th_non_root (i * S64) (sector_of m i).
Proof.
  revert s n root v. induction fuel as [|fuel IH]; intros s n root v Hp Hi; cbn [rebuild]; [done|]. destruct (Z.leb_spec n S64) as [Hsm|Hbig].
  - destruct (piece_leaf m s n Hp Hsm) as [Hn Hs]. assert (Ei : s / S64 = i) by (change S64 with 65536 in *; lia). rewrite Ei, Z.eqb_refl. intros [= <-].
    destruct root; [lia|]. intros ->. unfold subtree, sector_of. rewrite Ei in Hs. by rewrite <- Hs, <- Hn.
  - destruct (piece_split m s n Hp Hbig) as (Hk & Hp1 & Hp2 & Hm & Hroot). cbv zeta in *. set (k := left_subtree_len n) in *.
    intros (l & Hl & (r & Hr & [= <-])%bind_Ok_inv)%bind_Ok_inv Hv.
    assert (Hlr : l = subtree m s k /\ r = subtree m (s + k) (n - k)).
    { destruct root; [destruct Hv as (-> & -> & _ & Hv); rewrite Hroot in Hv by done; by apply merge_root_injective|rewrite Hm in Hv; by apply merge_injective]. }
    destruct Hlr as [El Er]. destruct (Z.lt_ge_cases (i * S64) (s + k)); [apply (IH s k false l Hp1 ltac:(lia) Hl El)|apply (IH (s + k) (n - k) false r Hp2 ltac:(lia) Hr Er)].
Qed.
Lemma sector_leaves_spec m j : 0 <= j < div_ceil (Z.of_nat (length m)) S64 -> sector_leaves m !! Z.to_nat j = Some (th_non_root (j * S64) (sector_of m j)).
Proof.
  intros Hj. unfold sector_leaves, zrange. rewrite !list_lookup_fmap, lookup_seq_lt by lia. cbn [fmap option_fmap option_map]. replace (0 + Z.of_nat (0 + Z.to_nat j)) with j by lia.
  do 2 f_equal. unfold sector_of, zslice. destruct (Z.le_ge_cases S64 (Z.of_nat (length m) - j * S64)); [by rewrite Z.min_l|]. rewrite Z.min_r by done.
  rewrite !take_ge; [done|rewrite length_drop; change S64 with 65536 in *; lia..].
Qed.
End sector_lemmas.

Lemma keystream_involutive {C : Aead} (key nonce : list Z) (p : Z) (l : list Z) : apply_keystream key nonce p (apply_keystream key nonce p l) = l.
Proof.
  unfold apply_keystream. apply list_eq. intros i. rewrite !list_lookup_imap. destruct (l !! i); cbn; [|done]. by rewrite Z.lxor_assoc, Z.lxor_nilpotent, Z.lxor_0_r.
Qed.
Lemma keystream_slice {C : Aead} (key nonce : list Z) (p s n : Z) (l : list Z) : 0 <= s -> zslice s n (apply_keystream key nonce p l) = apply_keystream key nonce (p + s) (zslice s n l).
Proof.
  intros Hs. unfold zslice, apply_keystream. apply list_eq. intros i. destruct (decide (i < Z.to_nat n)%nat) as [Hi|Hi].
  - rewrite list_lookup_imap, !lookup_take_lt, !lookup_drop, list_lookup_imap by lia. destruct (l !! _); cbn; [|done]. do 3 f_equal. lia.
  - rewrite list_lookup_imap, !lookup_take_ge by lia. done.
Qed.

Section sector_exact.
Context {C : Aead} {CL : AeadLaws C} {H : TreeHash} {HL : TreeHashLaws H} (key m : list Z) (aad : EncryptedFrameAad) (i : Z).
Context (Hlen : Z.of_nat (length m) = fa_plaintext_length aad) (Hmax : Z.of_nat (length m) <= MAX_VERIFIED_FRAME_BYTES) (Hh : th_hash m = fa_plaintext_hash aad).
Context (Hi : 0 <= i) (Hin : i * VERIFIED_SECTOR_BYTES < Z.of_nat (length m)).
Local Notation offset := (i * VERIFIED_SECTOR_BYTES).
Local Notation n := (Z.min VERIFIED_SECTOR_BYTES (Z.of_nat (length m) - i * VERIFIED_SECTOR_BYTES)).
Lemma whole_piece : piece_ok m 0 (Z.of_nat (length m)).
Proof. split_and!; [lia|by apply Z.divide_0_r|change VERIFIED_SECTOR_BYTES with 65536 in *; lia|lia|by right]. Qed.
Lemma offset_range : 0 <= offset < Z.of_nat (length m).
Proof. change VERIFIED_SECTOR_BYTES with 65536 in *. lia. Qed.
Lemma one_sector : Z.of_nat (length m) <= VERIFIED_SECTOR_BYTES -> zslice offset n m = m.
Proof. intros Hsm. assert (Eo : offset = 0) by (change VERIFIED_SECTOR_BYTES with 65536 in *; lia). unfold zslice. rewrite Eo, drop_0, take_ge; [done|lia]. Qed.
Lemma sector_sound {HC : CollisionFree H} (catalog : FrameProofCatalog) (bytes s : list Z) : decode_verified_sector key catalog aad offset bytes = Ok s -> s = zslice offset n m.
Proof.
  pose proof whole_piece as Hpiece. pose proof offset_range as Hoff. pose proof one_sector as Hsmall. assert (Hdiv : offset / VERIFIED_SECTOR_BYTES = i) by (by rewrite Z.div_mul).
  unfold decode_verified_sector. rewrite <- Hlen. destruct (_ || _); [done|]. intros (actual & Ha & Hs)%bind_Ok_inv.
  destruct (Z.eqb_spec actual (fa_plaintext_hash aad)) as [E|]; [|done]. cbn [negb] in Hs. injection Hs as <-. rewrite <- Hh in E. destruct (Z.leb_spec (Z.of_nat (length m)) VERIFIED_SECTOR_BYTES) as [Hsm|Hbig].
  + injection Ha as <-. apply hash_injective in E. rewrite E. symmetry. by apply Hsmall.
  + rewrite Hdiv in Ha. assert (Hrange : 0 <= i * VERIFIED_SECTOR_BYTES < 0 + Z.of_nat (length m)) by (change VERIFIED_SECTOR_BYTES with 65536 in *; lia).
    pose proof (rebuild_sound m _ _ 0 _ i _ true actual Hpiece Hrange Ha (conj eq_refl (conj eq_refl (conj Hbig E)))) as Hsel. by apply non_root_injective in Hsel.
Qed.
Lemma sector_decodes (nonce encoded : list Z) : length nonce = NONCE_LENGTH -> encode_encrypted_frame th_hash key (Some nonce) m aad = Ok encoded ->
  exists catalog, learn_verified_frame key encoded aad = Ok (m, catalog) /\
    decode_verified_sector key catalog aad offset (zslice (52 + offset) n encoded) = Ok (zslice offset n m).
Proof.
  pose proof whole_piece as Hpiece. pose proof offset_range as Hoff. pose proof one_sector as Hsmall. assert (Hdiv : offset / VERIFIED_SECTOR_BYTES = i) by (by rewrite Z.div_mul).
  intros Hn He. pose proof (decode_encode th_hash key nonce m aad encoded Hn He) as Hd. replace (mkAad _ _ _ _ _) with aad in Hd by (destruct aad; cbn in *; by rewrite Hlen).
  eexists. unfold learn_verified_frame. rewrite (proj2 (Z.ltb_ge _ _)) by lia. rewrite Hd. cbn [mbind result_bind]. split; [reflexivity|].
  pose proof He as Hf. apply encode_frame_Ok in Hf as (nonce' & c & [= <-] & Ec & Ef & _ & Hu & _). destruct (aead_layout _ _ _ _ _ Ec) as (tag & Ht & Htag).
  assert (Hc : Z.of_nat (length c) = Z.of_nat (length m) + 16) by (rewrite Htag, length_app, length_keystream; lia).
  assert (Hpre : take 52 encoded = ENCRYPTED_MAGIC ++ to_le 4 (Z.of_nat (length c)) ++ to_be 16 (fa_pack_id aad) ++ nonce).
  { rewrite Ef, !app_assoc. apply take_app_length'. rewrite !length_app, length_le, length_be, Hn. done. }
  assert (Hcut : zslice (52 + offset) n encoded = apply_keystream key nonce (64 + offset) (zslice offset n m)).
  { assert (E2 : drop 52 encoded = c) by (rewrite Ef, !app_assoc; apply drop_app_length'; rewrite !length_app, length_le, length_be, Hn; done).
    rewrite <- keystream_slice by lia. transitivity (zslice offset n c); [|rewrite Htag; unfold zslice].
    - rewrite <- E2. unfold zslice. rewrite drop_drop. do 2 f_equal. lia.
    - rewrite drop_app_le, take_app_le; [done| |rewrite length_keystream; lia]. rewrite length_drop, length_keystream. lia. }
  rewrite Hcut. unfold decode_verified_sector. cbn [pc_total pc_repository pc_frame_index pc_root pc_leaves pc_header]. rewrite Hpre, <- Hlen.
  assert (Hn1 : Z.of_nat (length (zslice offset n m)) = n) by (apply zslice_length; change VERIFIED_SECTOR_BYTES with 65536 in *; lia).
  rewrite (proj2 (Z.eqb_neq _ _)) by (change VERIFIED_SECTOR_BYTES with 65536 in *; lia). rewrite (proj2 (Z.ltb_ge _ _)) by lia. rewrite !Z.eqb_refl.
  rewrite length_keystream, Hn1. rewrite Z.eqb_refl.
  assert (Hll : Z.of_nat (length (sector_leaves m)) = div_ceil (Z.of_nat (length m)) VERIFIED_SECTOR_BYTES).
  { unfold sector_leaves. rewrite length_map, length_zrange. unfold div_ceil. assert (0 <= (Z.of_nat (length m) + VERIFIED_SECTOR_BYTES - 1) / VERIFIED_SECTOR_BYTES) by (apply Z.div_pos; change VERIFIED_SECTOR_BYTES with 65536; lia). lia. }
  rewrite Hll, Z.eqb_refl. assert (Hmod : offset mod VERIFIED_SECTOR_BYTES = 0) by (by rewrite Z.mod_mul). rewrite Hmod. rewrite (proj2 (Z.leb_gt _ _)) by (lia).
  rewrite get_app_0 by done. rewrite (get_app_r 12), (get_app_r 8) by (cbn; lia). change (12 - length ENCRYPTED_MAGIC)%nat with 4%nat. change (8 - length ENCRYPTED_MAGIC)%nat with 0%nat.
  rewrite (get_app_r 4) by (rewrite length_le; lia). rewrite length_le. cbn [Nat.sub]. rewrite (get_app_0 4) by apply length_le. rewrite (get_app_0 16) by apply length_be.
  rewrite le_val_le by (unfold u32_max in *; change MAX_VERIFIED_FRAME_BYTES with 4194304 in *; cbn; lia). rewrite Hc, Z.eqb_refl, !bool_decide_true by done. cbn [negb orb Z.eqb].
  assert (Hdr : drop 28 (ENCRYPTED_MAGIC ++ to_le 4 (Z.of_nat (length m) + 16) ++ to_be 16 (fa_pack_id aad) ++ nonce) = nonce).
  { rewrite !app_assoc. apply drop_app_length'. rewrite !length_app, length_le, length_be. done. }
  rewrite Z.eqb_refl. cbn [negb]. rewrite Hdr, keystream_involutive. destruct (Z.leb_spec (Z.of_nat (length m)) VERIFIED_SECTOR_BYTES).
  + cbn [mbind result_bind]. by rewrite Hsmall, Hh, Z.eqb_refl.
  + rewrite Hdiv. change (zslice offset n m) with (sector_of m i). rewrite (rebuild_complete m); [|by intros j; apply sector_leaves_spec|done|unfold sector_fuel; lia|done].
    cbn [mbind result_bind]. by rewrite Hh, Z.eqb_refl.
Qed.
End sector_exact.

(** C26: A sector verifies iff it is the sector of the frame.  Whatever bytes
    arrive, a decoded sector is exactly that part of the plaintext whose hash
    the publication records; and for a catalog learned from the frame, every
    sector cut out of the encoded frame decodes. *)
Theorem verified_sector_exact {C : Aead} {CL : AeadLaws C} {H : TreeHash} {HL : TreeHashLaws H} {HC : CollisionFree H}
    (key nonce m encoded : list Z) (aad : EncryptedFrameAad) (i : Z) (Hn : length nonce = NONCE_LENGTH) (Hlen : Z.of_nat (length m) = fa_plaintext_length aad)
    (Hmax : Z.of_nat (length m) <= MAX_VERIFIED_FRAME_BYTES) (Hh : th_hash m = fa_plaintext_hash aad) (Hi : 0 <= i) (Hin : i * VERIFIED_SECTOR_BYTES < Z.of_nat (length m))
    (He : encode_encrypted_frame th_hash key (Some nonce) m aad = Ok encoded) :
  let offset := i * VERIFIED_SECTOR_BYTES in let n := Z.min VERIFIED_SECTOR_BYTES (Z.of_nat (length m) - offset) in
  (forall catalog bytes s, decode_verified_sector key catalog aad offset bytes = Ok s -> s = zslice offset n m) /\
  exists catalog, learn_verified_frame key encoded aad = Ok (m, catalog) /\
    decode_verified_sector key catalog aad offset (zslice (52 + offset) n encoded) = Ok (zslice offset n m).
Proof. intros offset n. split; [intros catalog bytes s; by apply sector_sound|by apply (sector_decodes key m aad i Hlen Hmax Hh Hi Hin nonce)]. Qed.

(** ** Lemmas: units and batches *)
Definition unit_ok (u : PublishUnit) : Prop :=
  (exists p, u = [p]) \/ (u <> [] /\ Z.of_nat (length u) <= PACK_MAX_MEMBERS /\ Forall (fun p => u64_or_zero (un_bytes p) <= PACK_MEMBER_MAX_BYTES) u /\
    sumZ (fun p => u64_or_zero (un_bytes p)) u <= PACK_TARGET_BYTES).
Definition pack_ok (s : UnitState) : Prop :=
  Z.of_nat (length (ut_pack s)) <= PACK_MAX_MEMBERS /\ Forall (fun p => u64_or_zero (un_bytes p) <= PACK_MEMBER_MAX_BYTES) (ut_pack s) /\
  ut_pack_bytes s = sumZ (fun p => u64_or_zero (un_bytes p)) (ut_pack s) /\ 0 <= ut_pack_bytes s <= PACK_TARGET_BYTES.
Definition units_ok (done_ : list UnpublishedPayload) (s : UnitState) : Prop := Forall unit_ok (ut_units s) /\ pack_ok s /\ concat (ut_units s) ++ ut_pack s = done_.

Lemma flush_pack_ok done_ s : units_ok done_ s -> units_ok done_ (flush_pack s) /\ ut_pack (flush_pack s) = [] /\ ut_pack_bytes (flush_pack s) = 0.
Proof.
  intros (Hu & (H1 & H2 & H3 & H4) & Hc). unfold flush_pack. destruct (ut_pack s) as [|p pack] eqn:E.
  - split; [|by rewrite H3]. refine (conj _ (conj _ _)); [done| |by rewrite E]. unfold pack_ok. rewrite E. split_and!; (done || lia).
  - split; [|done]. refine (conj _ (conj _ _)); cbn [ut_units ut_pack ut_pack_bytes].
    + apply Forall_app. split; [done|]. apply Forall_singleton. right. split_and!; [done..|lia].
    + unfold pack_ok. cbn. split_and!; (done || lia || constructor).
    + by rewrite concat_app, app_nil_r; cbn [concat]; rewrite app_nil_r.
Qed.
Lemma saturating_add_le (a b t : Z) : saturating_add a b <= t -> t < u64_max -> a + b <= t.
Proof. unfold saturating_add. lia. Qed.
Lemma add_payload_ok done_ s p : units_ok done_ s -> units_ok (done_ ++ [p]) (add_payload s p).
Proof.
  assert (HT : PACK_TARGET_BYTES = 16777216) by reflexivity. assert (HM : PACK_MEMBER_MAX_BYTES = 4194304) by reflexivity. assert (HN : PACK_MAX_MEMBERS = 1024) by reflexivity.
  intros Hs. unfold add_payload. set (bytes := u64_or_zero (un_bytes p)). assert (Hb : 0 <= bytes) by (unfold bytes, u64_or_zero; destruct (Z.leb_spec 0 (un_bytes p)); lia).
  destruct (flush_pack_ok done_ s Hs) as (Hf & Hpk & Hpb). destruct (Z.ltb_spec PACK_MEMBER_MAX_BYTES bytes) as [Hbig|Hsm].
  - destruct Hf as (Hu & Hpok & Hc). refine (conj _ (conj _ _)); cbn [ut_units ut_pack ut_pack_bytes].
    + apply Forall_app. split; [done|]. apply Forall_singleton. left. by exists p.
    + exact Hpok.
    + rewrite Hpk, app_nil_r in *. rewrite <- Hc, concat_app. cbn [concat]. by rewrite app_nil_r.
  - assert (Hroom : forall full, full = (PACK_TARGET_BYTES <? saturating_add (ut_pack_bytes s) bytes) || (PACK_MAX_MEMBERS <=? Z.of_nat (length (ut_pack s))) ->
      let s' := if full then flush_pack s else s in units_ok done_ s' /\ Z.of_nat (length (ut_pack s')) < PACK_MAX_MEMBERS /\ ut_pack_bytes s' + bytes <= PACK_TARGET_BYTES).
    { intros full Ef s'. unfold s'. destruct full; [split; [done|]; rewrite Hpk, Hpb, HN, HT; cbn [length Z.of_nat]; lia|]. split; [done|]. symmetry in Ef. zbool.
      split; [done|]. apply saturating_add_le; [done|]. by rewrite HT. }
    specialize (Hroom _ eq_refl). cbv zeta in *. match goal with |- context [if ?c then flush_pack s else s] => set (s' := if c then flush_pack s else s) in * end. clearbody s'. destruct Hroom as ((Hu & (H1 & H2 & H3 & H4) & Hc) & Hr1 & Hr2).
    assert (Hsat : saturating_add (ut_pack_bytes s') bytes = ut_pack_bytes s' + bytes) by (unfold saturating_add, u64_max; lia). rewrite Hsat.
    refine (conj Hu (conj _ _)); cbn [ut_units ut_pack ut_pack_bytes]; [|by rewrite <- Hc, app_assoc]. unfold pack_ok. cbn [ut_pack ut_pack_bytes]. split_and!; [rewrite length_app; cbn; lia| | |lia|lia].
    + apply Forall_app. split; [done|]. by apply Forall_singleton.
    + rewrite sumZ_app, H3. unfold sumZ. cbn [foldr]. fold bytes. lia.
Qed.
Lemma batch_loop_spec units taken bytes cap : 0 <= bytes -> let k := batch_loop units taken bytes cap in
  (taken <= k <= taken + length units)%nat /\ (taken <= PUBLISH_PARALLELISM -> k <= PUBLISH_PARALLELISM)%nat /\ ((taken = 0)%nat -> units <> [] -> (0 < k)%nat) /\
  (forall b, b = fold_left (fun acc u => saturating_add acc (unit_bytes u)) (take (k - taken) units) bytes -> b <= cap \/ (k <= 1)%nat \/ k = taken).
Proof.
  revert taken bytes. induction units as [|u units IH]; intros taken bytes Hb; cbn [batch_loop].
  - cbv zeta. split; [cbn; lia|]. split; [done|]. split; [congruence|]. intros. right. by right.
  - destruct (Nat.leb_spec PUBLISH_PARALLELISM taken) as [Hp|Hp].
    + cbv zeta. split; [cbn; lia|]. split; [lia|]. split; [intros ->; unfold PUBLISH_PARALLELISM in Hp; lia|]. intros. right. by right.
    + assert (Hsat : 0 <= saturating_add bytes (unit_bytes u)).
      { assert (Hub : 0 <= unit_bytes u); [|unfold saturating_add, u64_max; lia]. unfold unit_bytes. assert (Hg : forall l a, 0 <= a -> 0 <= fold_left (fun acc m => saturating_add acc (u64_or_zero (un_bytes m))) l a).
        { induction l as [|m l IHl]; intros a Ha; cbn; [done|]. apply IHl. unfold saturating_add, u64_or_zero, u64_max. destruct (Z.leb_spec 0 (un_bytes m)); lia. } by apply Hg. }
      destruct ((0 <? taken)%nat && (cap <? saturating_add bytes (unit_bytes u))) eqn:E; cbv zeta.
      * apply andb_true_iff in E as [E _]. apply Nat.ltb_lt in E. split; [cbn; lia|]. split; [lia|]. split; [lia|]. intros. right. by right.
      * destruct (IH (S taken) (saturating_add bytes (unit_bytes u)) Hsat) as (I1 & I2 & I3 & I4). cbv zeta in *. set (k := batch_loop units (S taken) _ cap) in *.
        split; [cbn; lia|]. split; [intros _; apply I2; lia|]. split; [lia|]. intros b ->. destruct (k - taken)%nat as [|d] eqn:Ed; [lia|]. cbn [take fold_left].
        destruct (I4 _ eq_refl) as [Hc|[Hc|Hc]]; [left|right; by left|].
        -- replace (k - S taken)%nat with d in Hc by lia. exact Hc.
        -- replace d with 0%nat by lia. cbn [take fold_left]. apply andb_false_iff in E as [E|E]; [apply Nat.ltb_ge in E; right; left; lia|]. apply Z.ltb_ge in E. by left.
Qed.
Lemma batch_cap_bounds measured cap : PUBLISH_BATCH_BYTES <= cap <= PUBLISH_BATCH_MAX_BYTES -> PUBLISH_BATCH_BYTES <= record_success measured cap <= PUBLISH_BATCH_MAX_BYTES /\
  record_success measured cap <= 2 * cap /\ PUBLISH_BATCH_BYTES <= record_failure cap <= PUBLISH_BATCH_MAX_BYTES.
Proof.
  intros Hc. unfold record_success, record_failure, saturating_mul. change PUBLISH_BATCH_BYTES with 67108864 in *. change PUBLISH_BATCH_MAX_BYTES with 268435456 in *. unfold u64_max. lia.
Qed.

Lemma publish_units_shape (pending : list UnpublishedPayload) : concat (publish_units pending) = pending /\ Forall unit_ok (publish_units pending).
Proof.
  assert (Hall : forall l done_ s, units_ok done_ s -> units_ok (done_ ++ l) (fold_left add_payload l s)).
  { induction l as [|p l IH]; intros done_ s Hs; cbn [fold_left]; [by rewrite app_nil_r|]. change (p :: l) with ([p] ++ l). rewrite app_assoc. apply IH. by apply add_payload_ok. }
  assert (H0 : units_ok [] (mkUnitState [] [] 0)) by (refine (conj _ (conj _ _)); [constructor|unfold pack_ok; cbn; split_and!; (done || lia || constructor)|done]).
  destruct (flush_pack_ok _ _ (Hall pending [] _ H0)) as ((Hu & _ & Hc) & Hp & _). rewrite Hp, app_nil_r in Hc. split; [exact Hc|exact Hu].
Qed.

(** Pending payloads are uploaded in their order, each once: the units put
    together are the pending list, a unit is one payload or a pack of at most
    1024 small payloads of 16 MiB together, and the batches carved off the
    units advance, take at most 16 units and stay within the budget unless
    they are a single unit. *)
Theorem publish_units_partition (pending : list UnpublishedPayload) (start : nat) (cap : Z) :
  let units := publish_units pending in
  concat units = pending /\ Forall unit_ok units /\
  ((start < length units)%nat -> let stop := next_batch units start cap in
     (start < stop <= length units)%nat /\ (stop <= start + 16)%nat /\
     (stop = S start \/ fold_left (fun acc u => saturating_add acc (unit_bytes u)) (take (stop - start) (drop start units)) 0 <= cap)).
Proof.
  intros units. destruct (publish_units_shape pending) as [Hc Hu]. split; [exact Hc|]. split; [exact Hu|].
  intros Hs stop. destruct (batch_loop_spec (drop start units) 0 0 cap ltac:(lia)) as (B1 & B2 & B3 & B4). cbv zeta in *. unfold stop, next_batch. rewrite length_drop in B1.
  assert (Hne : drop start units <> []) by (intros E; apply (f_equal length) in E; rewrite length_drop in E; cbn in E; lia). specialize (B3 eq_refl Hne). set (k := batch_loop _ 0 0 cap) in *.
  assert (B2' := B2 ltac:(unfold PUBLISH_PARALLELISM; lia)). unfold PUBLISH_PARALLELISM in B2'. split_and!; [lia..|]. replace (start + k - start)%nat with k by lia.
  destruct (B4 _ eq_refl) as [Hcap|[Hk|Hk]]; [right; by rewrite Nat.sub_0_r in Hcap|left; lia|lia].
Qed.

(** ** Instances *)

(** A cipher whose key stream is the position. *)
#[local] Instance position_aead : Aead := {|
  aead_encrypt key nonce m aad := Some (imap (fun i b => Z.lxor b ((64 + Z.of_nat i) mod 256)) m ++ zeros 16);
  aead_decrypt key nonce c aad := if (16 <=? length c)%nat then Some (imap (fun i b => Z.lxor b ((64 + Z.of_nat i) mod 256)) (take (length c - 16) c)) else None;
  key_stream key nonce p := p mod 256
|}.
#[local] Instance position_aead_laws : AeadLaws position_aead.
Proof.
  split.
  - intros key nonce m aad c [= <-]. unfold aead_decrypt, position_aead. rewrite length_app, length_zeros. rewrite (proj2 (Nat.leb_le 16 _)) by lia. f_equal. rewrite take_app_length' by lia. apply (@keystream_involutive position_aead key nonce 64 m).
  - intros key nonce m aad c [= <-]. exists (zeros 16). by rewrite length_zeros.
  - intros key nonce m aad _. by eexists.
Qed.

(** A tree hash without collisions: trees of sectors, encoded as integers. *)
Definition code_leaf (tag : Z) (m : list Z) : Hash := Z.pos (encode (tag, m)).
Definition code_node (tag : Z) (a b : Hash) : Hash := Z.pos (encode (tag, [a; b])).
Fixpoint sector_tree (fuel : nat) (m : list Z) : Hash :=
  match fuel with
  | O => code_leaf 1 m
  | S fuel => if Z.of_nat (length m) <=? VERIFIED_SECTOR_BYTES then code_leaf 1 m
              else code_node 2 (code_leaf 1 (take (Z.to_nat VERIFIED_SECTOR_BYTES) m)) (sector_tree fuel (drop (Z.to_nat VERIFIED_SECTOR_BYTES) m))
  end.
Definition tree_of (m : list Z) : Hash := sector_tree (length m) m.
#[local] Instance sector_hash : TreeHash := {|
  th_hash m := if Z.of_nat (length m) <=? VERIFIED_SECTOR_BYTES then code_leaf 3 m
               else code_node 4 (tree_of (take (Z.to_nat VERIFIED_SECTOR_BYTES) m)) (tree_of (drop (Z.to_nat VERIFIED_SECTOR_BYTES) m));
  th_non_root o m := tree_of m;
  left_subtree_len n := VERIFIED_SECTOR_BYTES;
  merge_subtrees_non_root := code_node 2;
  merge_subtrees_root := code_node 4
|}.
Lemma code_leaf_inj t u a b : code_leaf t a = code_leaf u b -> t = u /\ a = b.
Proof. unfold code_leaf. intros [= E]. apply encode_inj in E. by injection E. Qed.
Lemma code_node_inj t u a b c d : code_node t a b = code_node u c d -> t = u /\ a = c /\ b = d.
Proof. unfold code_node. intros [= E]. apply encode_inj in E. injection E. auto. Qed.
Lemma code_leaf_node t u a b c : code_leaf t a = code_node u b c -> t = u.
Proof. unfold code_leaf, code_node. intros [= E]. apply encode_inj in E. by injection E. Qed.
Lemma sector_tree_fuel f g m : (length m <= f)%nat -> (length m <= g)%nat -> sector_tree f m = sector_tree g m.
Proof.
  assert (HS : Z.to_nat VERIFIED_SECTOR_BYTES <> 0%nat) by (intros E; apply (f_equal Z.of_nat) in E; rewrite Z2Nat.id in E by done; discriminate E).
  revert g m. induction f as [|f IH]; intros g m Hf Hg.
  - destruct m; [|cbn in Hf; lia]. by destruct g.
  - destruct g as [|g]; [destruct m; [done|cbn in Hg; lia]|]. cbn [sector_tree]. destruct (Z.leb_spec (Z.of_nat (length m)) VERIFIED_SECTOR_BYTES); [done|]. f_equal.
    apply IH; rewrite length_drop; lia.
Qed.
Lemma tree_of_unfold m : VERIFIED_SECTOR_BYTES < Z.of_nat (length m) ->
  tree_of m = code_node 2 (tree_of (take (Z.to_nat VERIFIED_SECTOR_BYTES) m)) (tree_of (drop (Z.to_nat VERIFIED_SECTOR_BYTES) m)).
Proof.
  assert (HS : 0 < VERIFIED_SECTOR_BYTES) by done. intros Hm. unfold tree_of at 1. destruct (length m) as [|f] eqn:E; [lia|]. cbn [sector_tree]. rewrite E, (proj2 (Z.leb_gt _ _)) by lia. f_equal.
  - unfold tree_of. rewrite length_take_le by lia. destruct (Z.to_nat VERIFIED_SECTOR_BYTES) as [|k] eqn:Ek; [lia|]. cbn [sector_tree]. rewrite length_take, (proj2 (Z.leb_le _ _)) by lia. done.
  - unfold tree_of. apply sector_tree_fuel; rewrite length_drop; lia.
Qed.
Lemma tree_of_small m : Z.of_nat (length m) <= VERIFIED_SECTOR_BYTES -> tree_of m = code_leaf 1 m.
Proof. intros Hm. unfold tree_of. destruct (length m) eqn:E; [done|]. cbn [sector_tree]. by rewrite E, (proj2 (Z.leb_le _ _)) by lia. Qed.
Lemma tree_of_inj a b : tree_of a = tree_of b -> a = b.
Proof.
  assert (HS : 0 < VERIFIED_SECTOR_BYTES) by done. remember (length a) as n eqn:Hn. revert a b Hn. induction (lt_wf n) as [n _ IH]. intros a b Hn.
  destruct (Z.le_gt_cases (Z.of_nat (length a)) VERIFIED_SECTOR_BYTES) as [Ha|Ha], (Z.le_gt_cases (Z.of_nat (length b)) VERIFIED_SECTOR_BYTES) as [Hb|Hb].
  - rewrite !tree_of_small by done. by intros [_ E]%code_leaf_inj.
  - rewrite (tree_of_small a), (tree_of_unfold b) by lia. by intros E%code_leaf_node.
  - rewrite (tree_of_small b), (tree_of_unfold a) by lia. intros E. symmetry in E. by apply code_leaf_node in E.
  - rewrite (tree_of_unfold a), (tree_of_unfold b) by lia. intros (_ & E1 & E2)%code_node_inj. rewrite !tree_of_small in E1 by (rewrite length_take; lia). apply code_leaf_inj in E1 as [_ E1].
    apply (IH (length (drop (Z.to_nat VERIFIED_SECTOR_BYTES) a))) in E2; [|rewrite length_drop; lia|done]. rewrite <- (take_drop (Z.to_nat VERIFIED_SECTOR_BYTES) a), <- (take_drop (Z.to_nat VERIFIED_SECTOR_BYTES) b). congruence.
Qed.
#[local] Instance sector_hash_laws : TreeHashLaws sector_hash.
Proof.
  split.
  - intros n Hn. cbn. split; [by exists 1|]. split; [done|lia].
  - intros o m Hm _. cbn. by apply tree_of_unfold.
  - intros m Hm. cbn. by rewrite (proj2 (Z.leb_gt _ _)) by lia.
Qed.
#[local] Instance sector_hash_free : CollisionFree sector_hash.
Proof.
  split; cbn.
  - intros a b. destruct (Z.leb_spec (Z.of_nat (length a)) VERIFIED_SECTOR_BYTES), (Z.leb_spec (Z.of_nat (length b)) VERIFIED_SECTOR_BYTES).
    + by intros [_ E]%code_leaf_inj.
    + by intros E%code_leaf_node.
    + intros E. symmetry in E. by apply code_leaf_node in E.
    + intros (_ & E1%tree_of_inj & E2%tree_of_inj)%code_node_inj. rewrite <- (take_drop (Z.to_nat VERIFIED_SECTOR_BYTES) a), <- (take_drop (Z.to_nat VERIFIED_SECTOR_BYTES) b). congruence.
  - intros _ a b. apply tree_of_inj.
  - by intros a b c d (_ & E1 & E2)%code_node_inj.
  - by intros a b c d (_ & E1 & E2)%code_node_inj.
Qed.

Definition demo_nonce : list Z := replicate 24 9.
Definition demo_payload : list Z := [1; 2; 3; 4; 5].
Lemma payload_object_exact_witness : exists obj hs, encode_payload_object th_hash [7] 1 2 (fun _ => Some demo_nonce) demo_payload = Ok (obj, hs) /\ Z.of_nat (length obj) = 73.
Proof.
  destruct (payload_object_exact th_hash [7] demo_nonce demo_payload 1 2 (fun _ => Some demo_nonce)) as (obj & hs & H1 & H2 & _); [reflexivity|by intros i; exists demo_nonce|vm_compute; discriminate|].
  exists obj, hs. exact (conj H1 H2).
Defined.
Definition demo_aad : EncryptedFrameAad := mkAad 1 2 0 (th_hash demo_payload) 5.
Lemma verified_sector_exact_witness : exists encoded, encode_encrypted_frame th_hash [7] (Some demo_nonce) demo_payload demo_aad = Ok encoded /\
  exists catalog, learn_verified_frame [7] encoded demo_aad = Ok (demo_payload, catalog).
Proof.
  destruct (encode_total th_hash [7] demo_nonce demo_payload demo_aad) as [encoded He]; [vm_compute; discriminate|reflexivity|]. exists encoded. split; [exact He|].
  destruct (verified_sector_exact [7] demo_nonce demo_payload encoded demo_aad 0) as (_ & catalog & H & _); [reflexivity|reflexivity|vm_compute; discriminate|reflexivity|lia|reflexivity|exact He|].
  exists catalog. exact H.
Defined.
Example demo_units : map (map un_payload_id) (publish_units [mkUnpublished 1 "a" 10 None 1; mkUnpublished 2 "b" 5000000 None 2; mkUnpublished 3 "c" 20 None 3; mkUnpublished 4 "d" (-1) None 4]) = [[1]; [2]; [3; 4]].
Proof. reflexivity. Qed.
