(* ===== verification/RemoteReads.v ===== *)
(** * Reading evicted payloads

    [mirage-ffi/src]: the bounded caches of [remote_cache.rs], the range fetches
    of [publisher.rs] and the read path of [remote_read_impl.rs], which serves
    the bytes of a payload from its remote object after the local copy is gone.

    A read goes frame by frame: a frame or the sectors of it come from the
    caches, or are fetched, decrypted and verified.  The threads of a read are
    run in the order of their frames; every one of them only touches the caches
    inside a lock, and the theorem holds from any state of the caches.  Errors
    inside a read are the two of [FetchFailure], kept as the [MirageError] that
    [failure] makes of them; the fetch class and the gate that bounds the
    fetches in flight do not appear.  [triple] is the Hoare triple of these
    computations, with the success of live runs as a third component.

    Proved: whatever the backend answers, a read that succeeds returns the
    bytes that were published, and the caches stay sound and within their
    budgets.  That reads succeed is proved of published payloads. *)
From S2P Require Export PayloadObjects.

(** ** [remote_cache.rs] *)
Record ByteLru (K V : Type) `{Countable K} : Type := mkLru { bl_entries : gmap K (V * Z * Z); bl_used : Z; bl_budget : Z; bl_clock : Z }.
Arguments mkLru {K V _ _}.
Arguments bl_entries {K V _ _}.
Arguments bl_used {K V _ _}.
Arguments bl_budget {K V _ _}.
Arguments bl_clock {K V _ _}.
Section lru.
Context {K V : Type} `{Countable K}.
Implicit Types (c : ByteLru K V) (k : K).

Definition ByteLru_new (budget : Z) : ByteLru K V := mkLru ∅ 0 budget 0.
Definition lru_get (k : K) (c : ByteLru K V) : option V * ByteLru K V :=
  match bl_entries c !! k with
  | None => (None, c)
  | Some (v, bytes, _) =>
      let clock := saturating_add (bl_clock c) 1 in
      (Some v, mkLru (<[k := (v, bytes, clock)]> (bl_entries c)) (bl_used c) (bl_budget c) clock)
  end.
(** [min_by_key] on the stamps. *)
Definition oldest (m : gmap K (V * Z * Z)) : option K := fst <$> head (sort_by_key (fun x => x.2.2) (map_to_list m)).
Definition lru_remove (k : K) (c : ByteLru K V) : ByteLru K V :=
  match bl_entries c !! k with
  | Some (_, old, _) => mkLru (delete k (bl_entries c)) (bl_used c -! old) (bl_budget c) (bl_clock c)
  | None => c
  end.
Fixpoint lru_shrink (fuel : nat) (bytes : Z) (c : ByteLru K V) : ByteLru K V :=
  match fuel with
  | O => c
  | S fuel =>
      if bl_budget c -! bytes <? bl_used c then
        match oldest (bl_entries c) with None => c | Some k => lru_shrink fuel bytes (lru_remove k c) end
      else c
  end.
Definition lru_insert (k : K) (v : V) (bytes : Z) (c : ByteLru K V) : ByteLru K V :=
  if bl_budget c <? bytes then c else
  let c := lru_remove k c in
  let c := lru_shrink (S (size (bl_entries c))) bytes c in
  let clock := saturating_add (bl_clock c) 1 in
  mkLru (<[k := (v, bytes, clock)]> (bl_entries c)) (bl_used c +! bytes) (bl_budget c) clock.
End lru.

(** ** The publication record and the store *)
Record PayloadRemoteObject : Set := mkPayloadRemote {
  pr_volume_id : Z; pr_payload_id : Z; pr_provider_object_id : string; pr_immutable_revision : option string; pr_object_length : Z; pr_object_hash : Hash;
  pr_plaintext_length : Z; pr_plaintext_hash : Hash; pr_frame_hashes : list Hash; pr_published_ns : Z; pr_member_offset : Z
}.
#[export] Instance PayloadRemoteObject_eq_dec : EqDecision PayloadRemoteObject.
Proof. solve_decision. Defined.
Record FrameKey : Set := mkFrameKey { fk_payload : Z; fk_index : Z; fk_root : Hash; fk_length : Z; fk_representation : Hash; fk_member_offset : Z }.
#[export] Instance FrameKey_eq_dec : EqDecision FrameKey.
Proof. solve_decision. Defined.
#[export] Instance FrameKey_countable : Countable FrameKey.
Proof.
  apply (inj_countable' (fun k => (fk_payload k, fk_index k, fk_root k, fk_length k, fk_representation k, fk_member_offset k))
    (fun '(a, b, c, d, e, f) => mkFrameKey a b c d e f)). by intros [].
Defined.
Record RemotePayloadStore : Type := mkStoreState {
  sp_frames : ByteLru FrameKey (list Z); sp_sectors : ByteLru (FrameKey * Z) (list Z); sp_proofs : ByteLru FrameKey FrameProofCatalog;
  sp_publications : gmap Z (option PayloadRemoteObject)
}.
Record RemoteReadBudgets : Set := mkBudgets { rb_frame_bytes : Z; rb_sector_bytes : Z; rb_proof_bytes : Z }.
Definition RemoteReadBudgets_default : RemoteReadBudgets := mkBudgets (32 * 1048576) (8 * 1048576) (8 * 1048576).
Definition with_budgets (b : RemoteReadBudgets) : RemotePayloadStore :=
  mkStoreState (ByteLru_new (rb_frame_bytes b)) (ByteLru_new (rb_sector_bytes b)) (ByteLru_new (rb_proof_bytes b)) ∅.
Definition PUBLICATION_CACHE_LIMIT : nat := 4096.
Definition FRAME_FETCH_PARALLELISM : nat := 8.
Definition SUBRANGE_BYTES : Z := 1024 * 1024.
Definition SUBRANGE_PARALLELISM : Z := 4.

Inductive FetchFailure : Set := FailBackend | FailIntegrity.
Definition failure (error : FetchFailure) : MirageError :=
  match error with
  | FailBackend => backend_unavailable "evicted payload fetch failed"
  | FailIntegrity => integrity_mismatch "evicted payload failed verification"
  end.
Notation fail_backend := (Err (failure FailBackend)).
Notation fail_integrity := (Err (failure FailIntegrity)).

(** ** Range fetches *)
Section fetch.
Context {W : Type} {B : ObjectBackend W} (w : W).
Fixpoint collect_exact (fuel : nat) (s : BackendByteStream) (out : list Z) (expected : Z) : result (list Z) :=
  match fuel with
  | O => fail_backend
  | S fuel =>
      match stream_next s with
      | (None, _) => if negb (Z.of_nat (length out) =? expected) then fail_integrity else Ok out
      | (Some (inl _), _) => fail_backend
      | (Some (inr chunk), s) =>
          if expected <? saturating_add (Z.of_nat (length out)) (Z.of_nat (length chunk)) then fail_integrity else collect_exact fuel s (out ++ chunk) expected
      end
  end.
Definition fetch_remote_part (reference : RemoteObjectRef) (range : CheckedRange) : result (list Z) :=
  match read_range w reference range false with
  | inl _ => fail_backend
  | inr read =>
      if negb (bool_decide (rd_requested_range read = range)) || negb (rd_received_length read =? len range) ||
         (bool_decide (is_Some (ro_immutable_revision reference)) && bool_decide (is_Some (rd_observed_revision read)) &&
          negb (bool_decide (ro_immutable_revision reference = rd_observed_revision read)))
      then fail_integrity else collect_exact (S (S (length (bs_inner (rd_stream read))))) (rd_stream read) [] (len range)
  end.
(** The sub-ranges; there are at most [SUBRANGE_PARALLELISM] of them. *)
Fixpoint split_parts (fuel : nat) (cursor end_ part_bytes : Z) : result (list CheckedRange) :=
  match fuel with
  | O => Ok []
  | S fuel =>
      if cursor <? end_ then
        let length_ := Z.min part_bytes (end_ - cursor) in
        part ← ok_or (failure FailIntegrity) (CheckedRange_try_new cursor length_);
        rest ← split_parts fuel (cursor +! length_) end_ part_bytes;
        Ok (part :: rest)
      else Ok []
  end.
Definition fetch_remote_range (reference : RemoteObjectRef) (range : CheckedRange) : result (list Z) :=
  if len range <=? SUBRANGE_BYTES then fetch_remote_part reference range else
  let part_count := Z.min (div_ceil (len range) SUBRANGE_BYTES) SUBRANGE_PARALLELISM in
  let part_bytes := div_ceil (len range) part_count in
  parts ← split_parts 5 (start range) (start range +! len range) part_bytes;
  results ← mapM (fetch_remote_part reference) parts;
  let bytes := concat results in
  if negb (Z.of_nat (length bytes) =? len range) then fail_integrity else Ok bytes.
End fetch.

(** ** The read path *)
Record FrameLocation : Type := mkLocation { fl_key : FrameKey; fl_aad : EncryptedFrameAad; fl_range : CheckedRange; fl_reference : RemoteObjectRef }.
(** [u64::try_from] of an [i64] column. *)
Definition column_u64 (x : Z) : result Z := if 0 <=? x then Ok x else fail_integrity.
Definition as_integrity {A : Type} (r : result A) : result A := match r with Ok a => Ok a | Err _ => fail_integrity end.
Definition as_backend {A : Type} (r : result A) : result A := match r with Ok a => Ok a | Err _ => fail_backend end.

Section store.
Context {C : Aead} {H : TreeHash} {W : Type} {B : ObjectBackend W} (key : list Z) (repository overhead : Z) (w : W).
Notation io := (io RemotePayloadStore).

Definition location (record : PayloadRemoteObject) (index : Z) : result FrameLocation :=
  total ← column_u64 (pr_plaintext_length record);
  '(offset, length_) ← ok_or (failure FailIntegrity) (payload_frame_range overhead total index);
  member ← column_u64 (pr_member_offset record);
  start ← ok_or (failure FailIntegrity) (checked_add member offset);
  range ← as_integrity (CheckedRange_new start length_);
  object_length ← column_u64 (pr_object_length record);
  if object_length <? end_exclusive range then fail_integrity else
  frame_start ← ok_or (failure FailIntegrity) (checked_mul index PAYLOAD_FRAME_BYTES);
  rest ← ok_or (failure FailIntegrity) (checked_sub total frame_start);
  let plain_length := Z.min rest PAYLOAD_FRAME_BYTES in
  root ← ok_or (failure FailIntegrity) (pr_frame_hashes record !! Z.to_nat index);
  backend_id ← as_backend (BackendId_new (chars "drive"));
  provider_id ← as_backend (ProviderObjectId_new (chars (pr_provider_object_id record)));
  revision ← (match pr_immutable_revision record with Some r => r' ← as_integrity (ImmutableRevision_new (chars r)); Ok (Some r') | None => Ok None end);
  Ok (mkLocation (mkFrameKey (pr_payload_id record) index root plain_length (pr_object_hash record) member)
        (mkAad repository (pr_payload_id record) index root plain_length) range (mkRemote backend_id provider_id revision object_length (pr_object_hash record) KPayload)).

(** The three caches behind their locks. *)
Definition get_frame (k : FrameKey) : io (option (list Z)) := fun s =>
  let '(v, c) := lru_get k (sp_frames s) in (Ok v, mkStoreState c (sp_sectors s) (sp_proofs s) (sp_publications s)).
Definition put_frame (k : FrameKey) (v : list Z) (bytes : Z) : io () := fun s =>
  (Ok tt, mkStoreState (lru_insert k v bytes (sp_frames s)) (sp_sectors s) (sp_proofs s) (sp_publications s)).
Definition get_sector (k : FrameKey * Z) : io (option (list Z)) := fun s =>
  let '(v, c) := lru_get k (sp_sectors s) in (Ok v, mkStoreState (sp_frames s) c (sp_proofs s) (sp_publications s)).
Definition put_sector (k : FrameKey * Z) (v : list Z) (bytes : Z) : io () := fun s =>
  (Ok tt, mkStoreState (sp_frames s) (lru_insert k v bytes (sp_sectors s)) (sp_proofs s) (sp_publications s)).
Definition get_proof (k : FrameKey) : io (option FrameProofCatalog) := fun s =>
  let '(v, c) := lru_get k (sp_proofs s) in (Ok v, mkStoreState (sp_frames s) (sp_sectors s) c (sp_publications s)).
Definition put_proof (k : FrameKey) (v : FrameProofCatalog) (bytes : Z) : io () := fun s =>
  (Ok tt, mkStoreState (sp_frames s) (sp_sectors s) (lru_insert k v bytes (sp_proofs s)) (sp_publications s)).
(** [memory_bytes]: the record and 32 bytes per leaf; [CATALOG_BYTES] is
    [size_of::<FrameProofCatalog>()]. *)
Context (CATALOG_BYTES : Z).
Definition memory_bytes (c : FrameProofCatalog) : Z := CATALOG_BYTES +! Z.of_nat (length (pc_leaves c)) *! 32.

(** The fetch of [full_frame], run by the owner of the flight. *)
Definition fetch_frame (l : FrameLocation) : io (list Z) :=
  hit ← get_frame (fl_key l);
  match hit with
  | Some bytes => mret bytes
  | None =>
      encoded ← io_pure (fetch_remote_range w (fl_reference l) (fl_range l));
      if negb (Z.of_nat (length encoded) =? len (fl_range l)) then io_pure fail_integrity else
      '(plain, catalog) ← io_pure (as_integrity (learn_verified_frame key encoded (fl_aad l)));
      _ ← (if VERIFIED_SECTOR_BYTES <? Z.of_nat (length plain) then put_proof (fl_key l) catalog (memory_bytes catalog) else mret tt);
      _ ← put_frame (fl_key l) plain (Z.of_nat (length plain));
      mret plain
  end.
Definition full_frame (l : FrameLocation) : io (list Z) :=
  hit ← get_frame (fl_key l);
  match hit with Some bytes => mret bytes | None => fetch_frame l end.
Definition fetch_sector (l : FrameLocation) (catalog : FrameProofCatalog) (start_ : Z) : io (list Z) :=
  hit ← get_sector (fl_key l, start_);
  match hit with
  | Some bytes => mret bytes
  | None =>
      let length_ := Z.min VERIFIED_SECTOR_BYTES (fk_length (fl_key l) -! start_) in
      absolute ← io_pure (ok_or (failure FailIntegrity) (a ← checked_add (start (fl_range l)) 52; checked_add a start_));
      range ← io_pure (as_integrity (CheckedRange_new absolute length_));
      encoded ← io_pure (fetch_remote_part w (fl_reference l) range);
      bytes ← io_pure (as_integrity (decode_verified_sector key catalog (fl_aad l) start_ encoded));
      _ ← put_sector (fl_key l, start_) bytes (Z.of_nat (length bytes));
      mret bytes
  end.
Definition sector (l : FrameLocation) (catalog : FrameProofCatalog) (start_ : Z) : io (list Z) :=
  hit ← get_sector (fl_key l, start_);
  match hit with Some bytes => mret bytes | None => fetch_sector l catalog start_ end.

(** [(first..end).step_by(VERIFIED_SECTOR_BYTES)] *)
Definition sector_starts (start_ end_ : Z) : list Z :=
  let first := start_ / VERIFIED_SECTOR_BYTES * VERIFIED_SECTOR_BYTES in
  map (fun i => first + i * VERIFIED_SECTOR_BYTES) (zrange 0 (div_ceil (end_ - first) VERIFIED_SECTOR_BYTES)).
(** [&sector[lo..hi]] of the sector that starts at [at_]. *)
Definition cut_sector (start_ end_ at_ : Z) (bytes : list Z) : list Z :=
  let lo := saturating_sub start_ at_ in
  let hi := Z.min (end_ - at_) (Z.of_nat (length bytes)) in
  zslice lo (hi - lo) bytes.
(** All sectors from the cache, or [None] at the first that is missing. *)
Fixpoint cached_sectors (k : FrameKey) (starts : list Z) : io (option (list (Z * list Z))) :=
  match starts with
  | [] => mret (Some [])
  | at_ :: starts =>
      hit ← get_sector (k, at_);
      match hit with
      | None => mret None
      | Some bytes => rest ← cached_sectors k starts; mret ((fun l => (at_, bytes) :: l) <$> rest)
      end
  end.
Fixpoint keep_sectors (k : FrameKey) (full : list Z) (starts : list Z) : io () :=
  match starts with
  | [] => mret tt
  | at_ :: starts =>
      let bytes := zslice at_ (Z.min (at_ + VERIFIED_SECTOR_BYTES) (Z.of_nat (length full)) - at_) full in
      _ ← put_sector (k, at_) bytes (Z.of_nat (length bytes)); keep_sectors k full starts
  end.
Fixpoint read_sectors (l : FrameLocation) (catalog : FrameProofCatalog) (start_ end_ : Z) (starts : list Z) (out : list Z) : io (list Z) :=
  match starts with
  | [] => mret out
  | at_ :: starts => bytes ← sector l catalog at_; read_sectors l catalog start_ end_ starts (out ++ cut_sector start_ end_ at_ bytes)
  end.
Definition piece (l : FrameLocation) (start_ length_ : Z) : io (Z * list Z) :=
  full ← get_frame (fl_key l);
  catalog ← get_proof (fl_key l);
  match full with
  | Some full => mret (0, full)
  | None =>
      let end_ := start_ + length_ in
      hits ← (if length_ <? fk_length (fl_key l) then cached_sectors (fl_key l) (sector_starts start_ end_) else mret None);
      match hits with
      | Some hits => mret (start_, concat (map (fun x => cut_sector start_ end_ x.1 x.2) hits))
      | None =>
          match (if length_ =? fk_length (fl_key l) then None else catalog) with
          | None =>
              full ← full_frame l;
              _ ← (if length_ <? Z.of_nat (length full) then keep_sectors (fl_key l) full (sector_starts start_ end_) else mret tt);
              mret (0, full)
          | Some catalog => bytes ← read_sectors l catalog start_ end_ (sector_starts start_ end_) []; mret (start_, bytes)
          end
      end
  end.
End store.

(** ** Whole reads *)
Section read.
Context {C : Aead} {H : TreeHash} {W : Type} {B : ObjectBackend W} (key : list Z) (repository overhead : Z) (w : W) (CATALOG_BYTES : Z).
(** [Database::payload_publication] by volume and payload, and whether a
    credential is installed. *)
Context (payload_publication : Z -> Z -> result (option PayloadRemoteObject)) (installed : bool).
Notation io := (io RemotePayloadStore).

Definition publication (volume payload_id : Z) : io (option PayloadRemoteObject) := fun s =>
  match sp_publications s !! payload_id with
  | Some hit => (Ok hit, s)
  | None =>
      match payload_publication volume payload_id with
      | Err e => (Err e, s)
      | Ok record =>
          let cache := if (PUBLICATION_CACHE_LIMIT <=? size (sp_publications s))%nat then ∅ else sp_publications s in
          (Ok record, mkStoreState (sp_frames s) (sp_sectors s) (sp_proofs s) (<[payload_id := record]> cache))
      end
  end.
Definition published_length (volume payload_id : Z) : io (option Z) :=
  record ← publication volume payload_id;
  match record with
  | None => mret None
  | Some record => if 0 <=? pr_plaintext_length record then mret (Some (pr_plaintext_length record))
                   else io_pure (Err (integrity_mismatch "published payload length is negative"))
  end.

(** One frame of a batch: its location, and the start and length within it. *)
Definition request (record : PayloadRemoteObject) (offset end_ index : Z) : result (FrameLocation * Z * Z) :=
  l ← location repository overhead record index;
  let frame_start := index * PAYLOAD_FRAME_BYTES in
  let start_ := saturating_sub offset frame_start in
  let take_end := Z.min (end_ - frame_start) (fk_length (fl_key l)) in
  Ok (l, start_, take_end -! start_).
(** A piece that is collected with its failure. *)
Definition try_piece (l : FrameLocation) (start_ length_ : Z) : io (result (Z * list Z)) := fun s =>
  let '(r, s) := piece key w CATALOG_BYTES l start_ length_ s in (Ok r, s).
Definition cached_or_piece (x : FrameLocation * Z * Z) : io (result (Z * list Z)) :=
  let '(l, start_, length_) := x in
  hit ← get_frame (fl_key l);
  match hit with Some bytes => mret (Ok (0, bytes)) | None => try_piece l start_ length_ end.
Fixpoint pieces (batch : list (FrameLocation * Z * Z)) : io (list (result (Z * list Z))) :=
  match batch with
  | [] => mret []
  | x :: batch => r ← cached_or_piece x; rest ← pieces batch; mret (r :: rest)
  end.
Definition run_batch (batch : list (FrameLocation * Z * Z)) : io (list (result (Z * list Z))) :=
  match batch with
  | [(l, start_, length_)] => r ← try_piece l start_ length_; mret [r]
  | _ => pieces batch
  end.
Definition append_piece (output : list Z) (x : (FrameLocation * Z * Z) * result (Z * list Z)) : result (list Z) :=
  let '((_, start_, length_), r) := x in
  '(base, bytes) ← r;
  lo ← ok_or (failure FailIntegrity) (checked_sub start_ base);
  hi ← ok_or (failure FailIntegrity) (checked_add lo length_);
  if hi <=? Z.of_nat (length bytes) then Ok (output ++ zslice lo length_ bytes) else fail_integrity.
(** The loop over batches; [cancelled i] is the flag at the [i]th poll.  A unit
    of fuel per frame and one to see the end. *)
Fixpoint read_batches (fuel poll : nat) (cancelled : nat -> bool) (record : PayloadRemoteObject) (offset end_ : Z) (pending output : list Z) : io (list Z) :=
  match fuel with
  | O => io_pure (Err (internal_invariant "unreachable"))
  | S fuel =>
      if cancelled poll then io_pure (Err (backend_unavailable "payload fetch cancelled")) else
      batch ← io_pure (mapM (request record offset end_) (take FRAME_FETCH_PARALLELISM pending));
      match batch with
      | [] => mret output
      | _ =>
          results ← run_batch batch;
          output ← io_pure (for_fold append_piece output (zip batch results));
          read_batches fuel (S poll) cancelled record offset end_ (drop FRAME_FETCH_PARALLELISM pending) output
      end
  end.
Definition read_inner (volume payload_id offset length_ : Z) (cancelled : nat -> bool) : io (option (list Z)) :=
  if negb (volume =? repository) then io_pure (Err (integrity_mismatch "payload belongs to another repository")) else
  if negb installed then io_pure (Err (backend_unavailable "payload fetch requires an installed backend credential")) else
  record ← publication volume payload_id;
  match record with
  | None => mret None
  | Some record =>
      total ← io_pure (column_u64 (pr_plaintext_length record));
      end_ ← io_pure (ok_or (invalid_argument "payload read range overflows") (checked_add offset length_));
      if total <? end_ then io_pure fail_integrity else
      if length_ =? 0 then mret (Some []) else
      let first := offset / PAYLOAD_FRAME_BYTES in
      let last := (end_ - 1) / PAYLOAD_FRAME_BYTES in
      output ← read_batches (S (S (Z.to_nat (last - first)))) 0 cancelled record offset end_ (zrange first (last - first + 1)) [];
      if negb (Z.of_nat (length output) =? length_) then io_pure fail_integrity else mret (Some output)
  end.
Definition read_payload (volume payload_id offset length_ : Z) : io (option (list Z)) := read_inner volume payload_id offset length_ (fun _ => false).
Definition fetch_whole (volume payload_id : Z) (cancelled : nat -> bool) : io (option (list Z * PayloadRemoteObject)) :=
  record ← publication volume payload_id;
  match record with
  | None => mret None
  | Some record =>
      if pr_plaintext_length record <? 0 then io_pure (Err (integrity_mismatch "published payload length overflows")) else
      let length_ := pr_plaintext_length record in
      bytes ← read_inner volume payload_id 0 length_ cancelled;
      bytes ← io_pure (ok_or (integrity_mismatch "publication vanished mid-read") bytes);
      if negb (Z.of_nat (length bytes) =? length_) then io_pure (Err (integrity_mismatch "published payload fetched short")) else
      if negb (th_hash bytes =? pr_plaintext_hash record) then io_pure (Err (integrity_mismatch "restaged payload failed whole-object verification"))
      else mret (Some (bytes, record))
  end.
End read.

(** ** Lemmas: the bounded cache *)
Section lru_lemmas.
Context {K V : Type} `{Countable K}.
Implicit Types (c : ByteLru K V) (k : K) (v : V).

(** The value of a key, without its charge and stamp. *)
Definition lru_value c k : option V := (fun x => x.1.1) <$> bl_entries c !! k.
(** The books: [used] is the sum of the charges and within the budget. *)
Definition lru_ok c : Prop := bl_used c = sumZ (fun x => x.2.1.2) (map_to_list (bl_entries c)) /\ 0 <= bl_used c <= bl_budget c /\ bl_budget c <= u64_max /\
  map_Forall (fun _ x => 0 <= x.1.2) (bl_entries c).

Lemma sum_insert (m : gmap K (V * Z * Z)) k x : m !! k = None ->
  sumZ (fun y => y.2.1.2) (map_to_list (<[k := x]> m)) = x.1.2 + sumZ (fun y => y.2.1.2) (map_to_list m).
Proof. intros Hk. rewrite (sumZ_perm _ _ _ (map_to_list_insert m k x Hk)). done. Qed.
Lemma sum_delete (m : gmap K (V * Z * Z)) k x : m !! k = Some x ->
  sumZ (fun y => y.2.1.2) (map_to_list m) = x.1.2 + sumZ (fun y => y.2.1.2) (map_to_list (delete k m)).
Proof. intros Hk. rewrite <- (insert_delete_id m k x Hk) at 1. apply sum_insert, lookup_delete_eq. Qed.
Lemma sum_nonneg (m : gmap K (V * Z * Z)) : map_Forall (fun _ x => 0 <= x.1.2) m -> 0 <= sumZ (fun y => y.2.1.2) (map_to_list m).
Proof.
  intros Hm. apply sumZ_nonneg, Forall_forall. intros [k x] Hx. apply elem_of_map_to_list in Hx. exact (Hm k x Hx).
Qed.
Lemma lru_get_value c k : fst (lru_get k c) = lru_value c k /\ forall j, lru_value (snd (lru_get k c)) j = lru_value c j.
Proof.
  unfold lru_get, lru_value. destruct (bl_entries c !! k) as [[[v b] t]|] eqn:E; cbn [fst snd bl_entries fmap option_fmap option_map]; [|done]. split; [done|]. intros j.
  destruct (decide (j = k)) as [->|Hne]; [by rewrite lookup_insert_eq, E|by rewrite lookup_insert_ne by congruence].
Qed.
Lemma lru_get_ok c k : lru_ok c -> lru_ok (snd (lru_get k c)).
Proof.
  unfold lru_get. destruct (bl_entries c !! k) as [[[v b] t]|] eqn:E; [|done]. intros (Hu & Hb & Hm & Ha). unfold lru_ok. cbn [snd bl_entries bl_used bl_budget]. split_and!; [|lia..|].
  - rewrite <- (insert_delete_eq (bl_entries c)), sum_insert by apply lookup_delete_eq. rewrite Hu, (sum_delete _ _ _ E). done.
  - apply map_Forall_insert_2; [exact (Ha _ _ E)|done].
Qed.
Lemma lru_remove_ok c k : lru_ok c -> lru_ok (lru_remove k c) /\ (forall j, bl_entries (lru_remove k c) !! j = if decide (j = k) then None else bl_entries c !! j) /\ bl_budget (lru_remove k c) = bl_budget c.
Proof.
  unfold lru_remove. intros (Hu & Hb & Hm & Ha). destruct (bl_entries c !! k) as [[[v b] t]|] eqn:E.
  - pose proof (sum_delete _ _ _ E) as Hs. cbn [fst snd] in Hs. pose proof (Ha _ _ E) as Hb0. cbn [fst snd] in Hb0. pose proof (map_Forall_delete _ _ k Ha) as Hd. pose proof (sum_nonneg _ Hd) as Hn.
    split_and!; [|intros j; cbn [bl_entries]; by rewrite lookup_delete; case_decide; case_decide|done].
    unfold lru_ok. cbn [bl_entries bl_used bl_budget]. rewrite wsub_u64_small by lia. split_and!; [lia..|done].
  - split_and!; [done..| |done]. intros j. case_decide; congruence.
Qed.
Lemma oldest_elem (m : gmap K (V * Z * Z)) k : oldest m = Some k -> is_Some (m !! k).
Proof.
  unfold oldest. intros ([k' x] & Hh & ->)%fmap_Some. cbn [fst]. apply head_Some_elem_of in Hh. rewrite sort_by_key_perm in Hh. apply elem_of_map_to_list in Hh. eauto.
Qed.
Lemma lru_shrink_ok fuel bytes c : lru_ok c -> 0 <= bytes <= bl_budget c -> (size (bl_entries c) < fuel)%nat ->
  let c' := lru_shrink fuel bytes c in lru_ok c' /\ bl_entries c' ⊆ bl_entries c /\ bl_budget c' = bl_budget c /\ bl_used c' + bytes <= bl_budget c'.
Proof.
  revert c. induction fuel as [|fuel IH]; intros c Hc Hb Hf; [lia|]. cbn [lru_shrink]. pose proof Hc as (Hu & Hr & Hm & Ha). rewrite wsub_u64_small by lia.
  destruct (Z.ltb_spec (bl_budget c - bytes) (bl_used c)) as [Hover|]; [|cbv zeta; split_and!; [done..|lia]].
  destruct (oldest (bl_entries c)) as [k|] eqn:Eo.
  - destruct (oldest_elem _ _ Eo) as [x Hx]. destruct (lru_remove_ok c k Hc) as (Hok & He & Hbud).
    assert (Hsub : bl_entries (lru_remove k c) ⊆ bl_entries c) by (apply map_subseteq_spec; intros j y; rewrite He; by case_decide).
    assert (Hsz : (size (bl_entries (lru_remove k c)) < fuel)%nat).
    { replace (bl_entries (lru_remove k c)) with (delete k (bl_entries c)) by (apply map_eq; intros j; rewrite He, lookup_delete; case_decide; case_decide; congruence).
      rewrite map_size_delete_Some by eauto. assert (size (bl_entries c) <> 0%nat) by (intros E0; apply map_size_empty_iff in E0; rewrite E0 in Hx; done). lia. }
    destruct (IH _ Hok) as (I1 & I2 & I3 & I4); [lia|done|]. cbv zeta in *. split_and!; [done| |lia|lia]. by etransitivity.
  - exfalso. assert (E0 : map_to_list (bl_entries c) = []).
    { unfold oldest in Eo. apply fmap_None in Eo. apply head_None in Eo. apply Permutation_nil_r. rewrite <- Eo. symmetry. apply sort_by_key_perm. }
    rewrite E0 in Hu. cbn in Hu. unfold sumZ in Hu. cbn in Hu. lia.
Qed.
(** An insertion keeps the books and adds at most its key. *)
Lemma lru_insert_spec c k v bytes : lru_ok c -> 0 <= bytes ->
  let c' := lru_insert k v bytes c in lru_ok c' /\ bl_budget c' = bl_budget c /\
  (forall j u, lru_value c' j = Some u -> (j = k /\ u = v) \/ lru_value c j = Some u) /\ (bytes <= bl_budget c -> lru_value c' k = Some v).
Proof.
  intros Hc Hb. unfold lru_insert. destruct (Z.ltb_spec (bl_budget c) bytes); [cbv zeta; split_and!; [done..|naive_solver|lia]|].
  destruct (lru_remove_ok c k Hc) as (Hok & He & Hbud). destruct (lru_shrink_ok (S (size (bl_entries (lru_remove k c)))) bytes _ Hok) as (I1 & I2 & I3 & I4); [lia|lia|].
  cbv zeta in *. set (c2 := lru_shrink _ bytes _) in *. destruct I1 as (Hu & Hr & Hm & Ha).
  assert (Hk : bl_entries c2 !! k = None) by (destruct (bl_entries c2 !! k) as [x|] eqn:E; [|done]; eapply lookup_weaken in E; [|exact I2]; rewrite He in E; by case_decide).
  unfold lru_ok, lru_value. cbn [bl_entries bl_used bl_budget]. rewrite wadd_u64_small by lia. split_and!.
  - rewrite sum_insert by done. cbn [fst snd]. lia.
  - lia.
  - lia.
  - lia.
  - by apply map_Forall_insert_2.
  - lia.
  - intros j u. destruct (decide (j = k)) as [->|Hne]; [rewrite lookup_insert_eq; intros [= <-]; by left|]. rewrite lookup_insert_ne by congruence. intros (x & E & ->)%fmap_Some.
    right. eapply lookup_weaken in E; [|exact I2]. rewrite He in E. case_decide; [done|]. by rewrite E.
  - intros _. by rewrite lookup_insert_eq.
Qed.
End lru_lemmas.

(** ** Lemmas: slices *)
Lemma zslice_glue {A : Type} (l : list A) (s a b : Z) : 0 <= s -> 0 <= a -> 0 <= b -> zslice s a l ++ zslice (s + a) b l = zslice s (a + b) l.
Proof.
  intros. unfold zslice. replace (Z.to_nat (s + a)) with (Z.to_nat s + Z.to_nat a)%nat by lia. rewrite <- drop_drop. replace (Z.to_nat (a + b)) with (Z.to_nat a + Z.to_nat b)%nat by lia.
  by rewrite take_take_drop.
Qed.
Lemma zslice_zslice {A : Type} (l : list A) (s n lo k : Z) : 0 <= s -> 0 <= lo -> lo + k <= n -> zslice lo k (zslice s n l) = zslice (s + lo) k l.
Proof.
  intros. unfold zslice. rewrite skipn_firstn_comm, drop_drop, take_take. f_equal; [lia|]. f_equal. lia.
Qed.
Lemma zslice_neg {A : Type} (l : list A) (s n : Z) : n <= 0 -> zslice s n l = [].
Proof. intros. unfold zslice. by replace (Z.to_nat n) with 0%nat by lia. Qed.
Lemma zslice_all {A : Type} (l : list A) : zslice 0 (Z.of_nat (length l)) l = l.
Proof. unfold zslice. rewrite drop_0. apply take_ge. lia. Qed.

(** The block of [m] that starts at [at_]; a sector is one of 64 KiB. *)
Definition block_at (size : Z) (m : list Z) (at_ : Z) : list Z := zslice at_ (Z.min size (Z.of_nat (length m) - at_)) m.
Notation sector_at := (block_at VERIFIED_SECTOR_BYTES).
Lemma div_ceil_spec (a b : Z) : 0 < b -> a <= div_ceil a b * b < a + b.
Proof. intros Hb. unfold div_ceil. pose proof (Z.div_mod (a + b - 1) b ltac:(lia)). pose proof (Z.mod_pos_bound (a + b - 1) b ltac:(lia)). lia. Qed.
Lemma floor_spec (a b : Z) : 0 < b -> 0 <= a -> 0 <= a / b /\ a / b * b <= a < a / b * b + b.
Proof. intros Hb Ha. pose proof (Z.div_mod a b ltac:(lia)). pose proof (Z.mod_pos_bound a b ltac:(lia)). split; [by apply Z.div_pos|lia]. Qed.
Lemma sector_starts_spec (start_ end_ at_ : Z) : 0 <= start_ < end_ -> at_ ∈ sector_starts start_ end_ -> exists i, 0 <= i /\ at_ = i * VERIFIED_SECTOR_BYTES /\ at_ < end_.
Proof.
  assert (HS : VERIFIED_SECTOR_BYTES = 65536) by reflexivity. intros Hr. unfold sector_starts. intros (i & -> & Hi)%list_elem_of_fmap. apply elem_of_zrange in Hi. exists (start_ / VERIFIED_SECTOR_BYTES + i).
  pose proof (floor_spec start_ VERIFIED_SECTOR_BYTES ltac:(lia) ltac:(lia)). pose proof (div_ceil_spec (end_ - start_ / VERIFIED_SECTOR_BYTES * VERIFIED_SECTOR_BYTES) VERIFIED_SECTOR_BYTES ltac:(lia)).
  rewrite HS in *. lia.
Qed.
(** The cuts of the blocks that a range meets are the range. *)
Lemma cut_blocks (size : Z) (m : list Z) (start_ end_ : Z) : 0 < size -> 0 <= start_ < end_ -> end_ <= Z.of_nat (length m) -> let first := start_ / size * size in
  concat (map (fun i => cut_sector start_ end_ (first + i * size) (block_at size m (first + i * size))) (zrange 0 (div_ceil (end_ - first) size))) = zslice start_ (end_ - start_) m.
Proof.
  intros Hz Hr Hle first. pose proof (floor_spec start_ size Hz ltac:(lia)) as [Hf0 Hf]. fold first in Hf. assert (Hf1 : 0 <= first) by (unfold first; nia).
  pose proof (div_ceil_spec (end_ - first) size Hz) as Hc. set (count := div_ceil (end_ - first) size) in *. clearbody first. clear Hf0.
  assert (Hall : forall k, 0 <= k -> k <= count -> concat (map (fun i => cut_sector start_ end_ (first + i * size) (block_at size m (first + i * size))) (zrange 0 k)) = zslice start_ (Z.min end_ (first + k * size) - start_) m).
  { apply (natlike_ind (fun k => k <= count -> concat (map (fun i => cut_sector start_ end_ (first + i * size) (block_at size m (first + i * size))) (zrange 0 k)) = zslice start_ (Z.min end_ (first + k * size) - start_) m)).
    - intros _. rewrite zslice_neg by lia. done.
    - intros k Hk IH Hle'. rewrite <- Z.add_1_r in *. rewrite zrange_succ, map_app, concat_app, IH by lia. cbn [map concat]. rewrite app_nil_r, Z.add_0_l.
      unfold cut_sector, block_at. set (at_ := first + k * size). assert (Hks : (k + 1) * size <= count * size) by (apply Z.mul_le_mono_nonneg_r; lia). assert (Hat : first <= at_ < end_) by (unfold at_; nia).
      assert (Hmore : first + (k + 1) * size = at_ + size) by (unfold at_; lia). rewrite Hmore. assert (Hsp : at_ <= start_ -> at_ = first).
      { unfold at_. intros Hs. destruct (Z.eq_dec k 0) as [->|Hk0]; [lia|]. assert (1 * size <= k * size) by (apply Z.mul_le_mono_nonneg_r; lia). lia. }
      assert (Hn : Z.of_nat (length (zslice at_ (Z.min size (Z.of_nat (length m) - at_)) m)) = Z.min size (Z.of_nat (length m) - at_)) by (apply zslice_length; lia). rewrite Hn.
      unfold saturating_sub. rewrite zslice_zslice by lia. clearbody at_ count. clear Hn IH Hc Hle' Hk Hks. destruct (Z.le_gt_cases at_ start_).
      + rewrite (zslice_neg m start_) by lia. cbn [app]. f_equal; lia.
      + rewrite (Z.min_r end_ at_) by lia. replace (at_ + Z.max (start_ - at_) 0) with (start_ + (at_ - start_)) by lia. rewrite zslice_glue by lia. f_equal. lia. }
  rewrite Hall by nia. f_equal. lia.
Qed.
Lemma cut_sectors (m : list Z) (start_ end_ : Z) : 0 <= start_ < end_ -> end_ <= Z.of_nat (length m) ->
  concat (map (fun at_ => cut_sector start_ end_ at_ (sector_at m at_)) (sector_starts start_ end_)) = zslice start_ (end_ - start_) m.
Proof. intros Hr Hle. unfold sector_starts. rewrite map_map. by apply (cut_blocks VERIFIED_SECTOR_BYTES). Qed.
(** Likewise the cuts of the frames. *)
Lemma frame_chunk_block (P : list Z) (i : Z) : frame_chunk P i = block_at PAYLOAD_FRAME_BYTES P (i * PAYLOAD_FRAME_BYTES).
Proof. unfold frame_chunk, block_at. f_equal. lia. Qed.
Lemma zrange_shift (a n : Z) : zrange a n = map (Z.add a) (zrange 0 n).
Proof. unfold zrange. rewrite map_map. apply map_ext. intros i. lia. Qed.
Lemma cut_frames (P : list Z) (offset end_ : Z) : 0 <= offset < end_ -> end_ <= Z.of_nat (length P) -> let first := offset / PAYLOAD_FRAME_BYTES in let last := (end_ - 1) / PAYLOAD_FRAME_BYTES in
  concat (map (fun i => cut_sector offset end_ (i * PAYLOAD_FRAME_BYTES) (frame_chunk P i)) (zrange first (last - first + 1))) = zslice offset (end_ - offset) P.
Proof.
  intros Hr Hle first last. assert (HF : 0 < PAYLOAD_FRAME_BYTES) by done. rewrite <- (cut_blocks PAYLOAD_FRAME_BYTES P offset end_ HF Hr Hle). rewrite zrange_shift, map_map.
  assert (Hn : last - first + 1 = div_ceil (end_ - first * PAYLOAD_FRAME_BYTES) PAYLOAD_FRAME_BYTES).
  { pose proof (div_ceil_spec (end_ - first * PAYLOAD_FRAME_BYTES) PAYLOAD_FRAME_BYTES HF). pose proof (floor_spec (end_ - 1) PAYLOAD_FRAME_BYTES HF ltac:(lia)) as Hfl. fold last in Hfl.
    assert (HV : PAYLOAD_FRAME_BYTES = 4194304) by reflexivity. set (c := div_ceil _ _) in *. clearbody c last first. rewrite HV in *. lia. }
  fold first. rewrite Hn. f_equal. apply map_ext. intros i. rewrite frame_chunk_block. f_equal; [lia|f_equal; lia].
Qed.

(** ** Triples

    [triple inv live m Q]: from a state with [inv], the run of [m] ends with
    [inv], its result satisfies [Q], and it has a result when [live]. *)
Section triples.
Context {S : Type} (inv : S -> Prop) (live : Prop).
Definition triple {A : Type} (m : io S A) (Q : A -> Prop) : Prop := forall s, inv s -> inv (snd (m s)) /\ (forall a, fst (m s) = Ok a -> Q a) /\ (live -> exists a, fst (m s) = Ok a).
Lemma triple_ret {A : Type} (a : A) (Q : A -> Prop) : Q a -> triple (mret a) Q.
Proof. intros Ha s Hs. cbn. split_and!; [done|by intros ? [= <-]|eauto]. Qed.
Lemma triple_pure {A : Type} (r : result A) (Q : A -> Prop) : (forall a, r = Ok a -> Q a) -> (live -> exists a, r = Ok a) -> triple (io_pure r) Q.
Proof. intros H1 H2 s Hs. cbn. by split_and!. Qed.
Lemma triple_bind {A B : Type} (m : io S A) (k : A -> io S B) (Q : A -> Prop) (R : B -> Prop) : triple m Q -> (forall a, Q a -> triple (k a) R) -> triple (m ≫= k) R.
Proof.
  intros Hm Hk s Hs. destruct (Hm s Hs) as (H1 & H2 & H3). unfold mbind, io_bind. destruct (m s) as [[a|e] s']; cbn [fst snd] in *.
  - exact (Hk a (H2 a eq_refl) s' H1).
  - split_and!; [done..|]. intros Hl. by destruct (H3 Hl).
Qed.
Lemma triple_weaken {A : Type} (m : io S A) (Q R : A -> Prop) : triple m Q -> (forall a, Q a -> R a) -> triple m R.
Proof. intros Hm Hqr s Hs. destruct (Hm s Hs) as (H1 & H2 & H3). split_and!; [done| |done]. intros a Ha. by apply Hqr, H2. Qed.
End triples.

(** ** Sound caches *)
Section sound.
Context {H : TreeHash} (Good : FrameKey -> FrameProofCatalog -> Prop) (Pub : Z -> option PayloadRemoteObject -> Prop).
(** A record states the frame hashes and the length of a payload. *)
Definition honest (r : PayloadRemoteObject) (P : list Z) : Prop :=
  pr_plaintext_length r = Z.of_nat (length P) /\ pr_frame_hashes r = map (fun i => th_hash (frame_chunk P i)) (zrange 0 (payload_frame_count (Z.of_nat (length P)))).
Definition frame_hit (k : FrameKey) (v : list Z) : Prop := th_hash v = fk_root k /\ Z.of_nat (length v) = fk_length k.
Definition sector_hit (k : FrameKey * Z) (v : list Z) : Prop := exists m, frame_hit k.1 m /\ v = sector_at m k.2.
Record store_ok (s : RemotePayloadStore) : Prop := mkStoreOk {
  so_frames : lru_ok (sp_frames s); so_sectors : lru_ok (sp_sectors s); so_proofs : lru_ok (sp_proofs s);
  so_frame k v : lru_value (sp_frames s) k = Some v -> frame_hit k v;
  so_sector k v : lru_value (sp_sectors s) k = Some v -> sector_hit k v;
  so_proof k v : lru_value (sp_proofs s) k = Some v -> Good k v;
  so_publication id o : sp_publications s !! id = Some o -> Pub id o;
  so_bounded : (size (sp_publications s) <= PUBLICATION_CACHE_LIMIT)%nat
}.
Context (live : Prop).
Notation tri := (triple store_ok live).
Lemma tri_get_frame k : tri (get_frame k) (fun o => forall v, o = Some v -> frame_hit k v).
Proof.
  intros s []. unfold get_frame. pose proof (lru_get_ok (sp_frames s) k so_frames0) as Hok. destruct (lru_get_value (sp_frames s) k) as [Hv Hs]. destruct (lru_get k (sp_frames s)) as [o c]. cbn [fst snd] in *.
  split_and!; [|intros a [= <-] v ->; by apply so_frame0|eauto]. split; cbn [sp_frames sp_sectors sp_proofs sp_publications]; [done..| |done|done|done|done]. intros j u. rewrite Hs. apply so_frame0.
Qed.
Lemma tri_get_sector k : tri (get_sector k) (fun o => forall v, o = Some v -> sector_hit k v).
Proof.
  intros s []. unfold get_sector. pose proof (lru_get_ok (sp_sectors s) k so_sectors0) as Hok. destruct (lru_get_value (sp_sectors s) k) as [Hv Hs]. destruct (lru_get k (sp_sectors s)) as [o c]. cbn [fst snd] in *.
  split_and!; [|intros a [= <-] v ->; by apply so_sector0|eauto]. split; cbn [sp_frames sp_sectors sp_proofs sp_publications]; [done..| |done|done|done]. intros j u. rewrite Hs. apply so_sector0.
Qed.
Lemma tri_get_proof k : tri (get_proof k) (fun o => forall v, o = Some v -> Good k v).
Proof.
  intros s []. unfold get_proof. pose proof (lru_get_ok (sp_proofs s) k so_proofs0) as Hok. destruct (lru_get_value (sp_proofs s) k) as [Hv Hs]. destruct (lru_get k (sp_proofs s)) as [o c]. cbn [fst snd] in *.
  split_and!; [|intros a [= <-] v ->; by apply so_proof0|eauto]. split; cbn [sp_frames sp_sectors sp_proofs sp_publications]; [done..| |done|done]. intros j u. rewrite Hs. apply so_proof0.
Qed.
Lemma tri_put_frame k v bytes : 0 <= bytes -> frame_hit k v -> tri (put_frame k v bytes) (fun _ => True).
Proof.
  intros Hb Hv s []. unfold put_frame. destruct (lru_insert_spec (sp_frames s) k v bytes so_frames0 Hb) as (Hok & _ & Hval & _). cbv zeta in *. cbn [fst snd]. split_and!; [|done|eauto].
  split; cbn [sp_frames sp_sectors sp_proofs sp_publications]; [done..| |done|done|done|done]. intros j u Hj. destruct (Hval j u Hj) as [[-> ->]|Hold]; [done|by apply so_frame0].
Qed.
Lemma tri_put_sector k v bytes : 0 <= bytes -> sector_hit k v -> tri (put_sector k v bytes) (fun _ => True).
Proof.
  intros Hb Hv s []. unfold put_sector. destruct (lru_insert_spec (sp_sectors s) k v bytes so_sectors0 Hb) as (Hok & _ & Hval & _). cbv zeta in *. cbn [fst snd]. split_and!; [|done|eauto].
  split; cbn [sp_frames sp_sectors sp_proofs sp_publications]; [done..| |done|done|done]. intros j u Hj. destruct (Hval j u Hj) as [[-> ->]|Hold]; [done|by apply so_sector0].
Qed.
Lemma tri_put_proof k v bytes : 0 <= bytes -> Good k v -> tri (put_proof k v bytes) (fun _ => True).
Proof.
  intros Hb Hv s []. unfold put_proof. destruct (lru_insert_spec (sp_proofs s) k v bytes so_proofs0 Hb) as (Hok & _ & Hval & _). cbv zeta in *. cbn [fst snd]. split_and!; [|done|eauto].
  split; cbn [sp_frames sp_sectors sp_proofs sp_publications]; [done..| |done|done]. intros j u Hj. destruct (Hval j u Hj) as [[-> ->]|Hold]; [done|by apply so_proof0].
Qed.
End sound.

(** ** Lemmas: one frame *)
Lemma decode_Ok_hash {C : Aead} (blake3 : list Z -> Hash) (key frame : list Z) (aad : EncryptedFrameAad) (plain : list Z) : decode_encrypted_frame blake3 key frame aad = Ok plain ->
  blake3 plain = fa_plaintext_hash aad /\ Z.of_nat (length plain) = fa_plaintext_length aad.
Proof.
  unfold decode_encrypted_frame. destruct (_ || _); [done|]. destruct (negb _); [done|]. destruct (negb _); [done|]. intros (p & _ & Hp)%bind_Ok_inv.
  destruct (negb _ || negb _) eqn:E; [done|]. injection Hp as <-. zbool. done.
Qed.
Section frame_triples.
Context {C : Aead} {H : TreeHash} {HL : TreeHashLaws H} {HC : CollisionFree H} {W : Type} {B : ObjectBackend W} (key : list Z) (w : W) (CATALOG_BYTES : Z).
Context (Good : FrameKey -> FrameProofCatalog -> Prop) (Pub : Z -> option PayloadRemoteObject -> Prop) (live : Prop).
Notation tri := (triple (store_ok Good Pub) live).

(** A location [l] of the frame [m]; when [live], the backend serves it. *)
Record frame_env (l : FrameLocation) (m : list Z) : Prop := mkFrameEnv {
  fe_hit : frame_hit (fl_key l) m;
  fe_hash : fa_plaintext_hash (fl_aad l) = fk_root (fl_key l);
  fe_length : fa_plaintext_length (fl_aad l) = fk_length (fl_key l);
  fe_learned enc c : fetch_remote_range w (fl_reference l) (fl_range l) = Ok enc -> learn_verified_frame key enc (fl_aad l) = Ok (m, c) -> Good (fl_key l) c;
  fe_fetch : live -> exists f c, fetch_remote_range w (fl_reference l) (fl_range l) = Ok f /\ Z.of_nat (length f) = len (fl_range l) /\ learn_verified_frame key f (fl_aad l) = Ok (m, c);
  fe_sector : live -> forall c i, Good (fl_key l) c -> 0 <= i -> i * VERIFIED_SECTOR_BYTES < Z.of_nat (length m) -> exists a r enc b,
    (a ← checked_add (start (fl_range l)) 52; checked_add a (i * VERIFIED_SECTOR_BYTES)) = Some a /\
    CheckedRange_new a (Z.min VERIFIED_SECTOR_BYTES (fk_length (fl_key l) -! i * VERIFIED_SECTOR_BYTES)) = Ok r /\ fetch_remote_part w (fl_reference l) r = Ok enc /\
    decode_verified_sector key c (fl_aad l) (i * VERIFIED_SECTOR_BYTES) enc = Ok b
}.
Context (l : FrameLocation) (m : list Z) (E : frame_env l m).

Lemma hit_is_frame v : frame_hit (fl_key l) v -> v = m.
Proof. intros [Hv _]. destruct (fe_hit _ _ E) as [Hm _]. apply hash_injective. congruence. Qed.
Lemma hit_is_sector at_ v : sector_hit (fl_key l, at_) v -> v = sector_at m at_.
Proof. intros (m' & Hm & ->). by rewrite (hit_is_frame m' Hm). Qed.
Lemma tri_hit : tri (get_frame (fl_key l)) (fun o => forall v, o = Some v -> v = m).
Proof. eapply triple_weaken; [apply tri_get_frame|]. intros o Ho v ->. by apply hit_is_frame, Ho. Qed.
Lemma memory_bytes_nonneg c : 0 <= memory_bytes CATALOG_BYTES c.
Proof. unfold memory_bytes, wadd_u64. apply Z.mod_pos_bound. done. Qed.
Lemma tri_fetch_frame : tri (fetch_frame key w CATALOG_BYTES l) (fun v => v = m).
Proof.
  unfold fetch_frame. eapply triple_bind; [apply tri_hit|]. intros [v|] Hv; [by apply triple_ret, Hv|].
  eapply (triple_bind _ _ _ _ (fun enc => fetch_remote_range w (fl_reference l) (fl_range l) = Ok enc)); [apply triple_pure; [done|intros Hl; destruct (fe_fetch _ _ E Hl) as (f & c & Hf & _); eauto]|].
  intros enc Henc. destruct (Z.eqb_spec (Z.of_nat (length enc)) (len (fl_range l))) as [Hlen|Hlen]; cbn [negb].
  2: { apply triple_pure; [done|]. intros Hl. destruct (fe_fetch _ _ E Hl) as (f & c & Hf & Hlf & _). congruence. }
  eapply (triple_bind _ _ _ _ (fun r => r.1 = m /\ Good (fl_key l) r.2)).
  - apply triple_pure.
    + unfold as_integrity. destruct (learn_verified_frame key enc (fl_aad l)) as [[plain c]|] eqn:El; [|done]. intros r [= <-]. cbn [fst snd].
      assert (plain = m) as -> by (unfold learn_verified_frame in El; destruct (_ <? _); [done|]; apply bind_Ok_inv in El as (p & Hp & [= <- _]); apply decode_Ok_hash in Hp as [Hp1 Hp2];
        apply hit_is_frame; split; [by rewrite Hp1, (fe_hash _ _ E)|by rewrite Hp2, (fe_length _ _ E)]). split; [done|]. exact (fe_learned _ _ E _ _ Henc El).
    + intros Hl. destruct (fe_fetch _ _ E Hl) as (f & c & Hf & _ & Hlearn). assert (enc = f) as -> by congruence. rewrite Hlearn. cbn. eauto.
  - intros [plain c] [Hp Hgood]. cbn [fst snd] in *. subst plain. eapply (triple_bind _ _ _ _ (fun _ => True)).
    { destruct (_ <? _); [|by apply triple_ret]. apply tri_put_proof; [apply memory_bytes_nonneg|done]. }
    intros _ _. eapply triple_bind; [apply tri_put_frame; [lia|exact (fe_hit _ _ E)]|]. intros _ _. by apply triple_ret.
Qed.
Lemma tri_full_frame : tri (full_frame key w CATALOG_BYTES l) (fun v => v = m).
Proof. unfold full_frame. eapply triple_bind; [apply tri_hit|]. intros [v|] Hv; [by apply triple_ret, Hv|apply tri_fetch_frame]. Qed.
Lemma tri_fetch_sector c i : Good (fl_key l) c -> 0 <= i -> i * VERIFIED_SECTOR_BYTES < Z.of_nat (length m) ->
  tri (fetch_sector key w l c (i * VERIFIED_SECTOR_BYTES)) (fun v => v = sector_at m (i * VERIFIED_SECTOR_BYTES)).
Proof.
  intros Hc Hi Hin. unfold fetch_sector. eapply triple_bind; [apply tri_get_sector|]. intros [v|] Hv; [by apply triple_ret, hit_is_sector, Hv|]. set (at_ := i * VERIFIED_SECTOR_BYTES) in *.
  eapply (triple_bind _ _ _ _ (fun a => (a ← checked_add (start (fl_range l)) 52; checked_add a at_) = Some a)).
  { apply triple_pure; [intros a Ha; by apply ok_or_Ok_inv in Ha|]. intros Hl. destruct (fe_sector _ _ E Hl c i Hc Hi Hin) as (a & r & enc & b & Ha & _). fold at_ in Ha. rewrite Ha. cbn. eauto. }
  intros a Ha. eapply (triple_bind _ _ _ _ (fun r => CheckedRange_new a (Z.min VERIFIED_SECTOR_BYTES (fk_length (fl_key l) -! at_)) = Ok r)).
  { apply triple_pure; [intros r; unfold as_integrity; by destruct (CheckedRange_new _ _)|]. intros Hl. destruct (fe_sector _ _ E Hl c i Hc Hi Hin) as (a' & r & enc & b & Ha' & Hr & _). fold at_ in Ha', Hr.
    rewrite Ha in Ha'. injection Ha' as <-. rewrite Hr. cbn. eauto. }
  intros r Hr. eapply (triple_bind _ _ _ _ (fun enc => fetch_remote_part w (fl_reference l) r = Ok enc)).
  { apply triple_pure; [done|]. intros Hl. destruct (fe_sector _ _ E Hl c i Hc Hi Hin) as (a' & r' & enc & b & Ha' & Hr' & He & _). fold at_ in Ha', Hr'.
    rewrite Ha in Ha'. injection Ha' as <-. rewrite Hr in Hr'. injection Hr' as <-. eauto. }
  intros enc Henc. eapply (triple_bind _ _ _ _ (fun v => v = sector_at m at_)).
  { apply triple_pure.
    - intros v. unfold as_integrity. destruct (decode_verified_sector key c (fl_aad l) at_ enc) as [b|] eqn:Eb; [|done]. intros [= <-].
      destruct (fe_hit _ _ E) as [Hm1 Hm2]. refine (sector_sound key m (fl_aad l) i _ _ Hi Hin c enc b Eb); [by rewrite (fe_length _ _ E)|by rewrite (fe_hash _ _ E)].
    - intros Hl. destruct (fe_sector _ _ E Hl c i Hc Hi Hin) as (a' & r' & enc' & b & Ha' & Hr' & He & Hd). fold at_ in Ha', Hr', Hd.
      rewrite Ha in Ha'. injection Ha' as <-. rewrite Hr in Hr'. injection Hr' as <-. rewrite Henc in He. injection He as <-. rewrite Hd. cbn. eauto. }
  intros v ->. eapply triple_bind; [apply tri_put_sector; [lia|exists m; split; [exact (fe_hit _ _ E)|done]]|]. intros _ _. by apply triple_ret.
Qed.
Lemma tri_sector c i : Good (fl_key l) c -> 0 <= i -> i * VERIFIED_SECTOR_BYTES < Z.of_nat (length m) ->
  tri (sector key w l c (i * VERIFIED_SECTOR_BYTES)) (fun v => v = sector_at m (i * VERIFIED_SECTOR_BYTES)).
Proof.
  intros Hc Hi Hin. unfold sector. eapply triple_bind; [apply tri_get_sector|]. intros [v|] Hv; [by apply triple_ret, hit_is_sector, Hv|by apply tri_fetch_sector].
Qed.

Definition in_frame (at_ : Z) : Prop := exists i, 0 <= i /\ at_ = i * VERIFIED_SECTOR_BYTES /\ at_ < Z.of_nat (length m).
Lemma tri_cached_sectors starts : tri (cached_sectors (fl_key l) starts) (fun o => forall hits, o = Some hits -> hits = map (fun at_ => (at_, sector_at m at_)) starts).
Proof.
  induction starts as [|at_ starts IH]; cbn [cached_sectors]; [apply triple_ret; by intros hits [= <-]|]. eapply triple_bind; [apply tri_get_sector|]. intros [v|] Hv; [|by apply triple_ret].
  eapply triple_bind; [exact IH|]. intros o Ho. apply triple_ret. intros hits (rest & -> & ->)%fmap_Some. cbn [map]. by rewrite (Ho rest eq_refl), (hit_is_sector at_ v (Hv v eq_refl)).
Qed.
Lemma tri_keep_sectors starts : Forall in_frame starts -> tri (keep_sectors (fl_key l) m starts) (fun _ => True).
Proof.
  induction 1 as [|at_ starts (i & Hi & -> & Hin) Hs IH]; cbn [keep_sectors]; [by apply triple_ret|]. eapply triple_bind; [|intros _ _; exact IH].
  apply tri_put_sector; [lia|]. exists m. split; [exact (fe_hit _ _ E)|]. cbn [snd]. unfold block_at. f_equal. lia.
Qed.
Lemma tri_read_sectors c start_ end_ starts out : Good (fl_key l) c -> Forall in_frame starts ->
  tri (read_sectors key w l c start_ end_ starts out) (fun v => v = out ++ concat (map (fun at_ => cut_sector start_ end_ at_ (sector_at m at_)) starts)).
Proof.
  intros Hc Hs. revert out. induction Hs as [|at_ starts (i & Hi & -> & Hin) Hs IH]; intros out; cbn [read_sectors map concat]; [apply triple_ret; by rewrite app_nil_r|].
  eapply triple_bind; [by apply tri_sector|]. intros v ->. eapply triple_weaken; [apply IH|]. cbn. intros a ->. by rewrite app_assoc.
Qed.
(** A piece is the frame, or the range itself. *)
Lemma tri_piece start_ length_ : 0 <= start_ -> 0 < length_ -> start_ + length_ <= Z.of_nat (length m) ->
  tri (piece key w CATALOG_BYTES l start_ length_) (fun r => r = (0, m) \/ r = (start_, zslice start_ length_ m)).
Proof.
  intros Hs Hl Hle. unfold piece. assert (Hst : Forall in_frame (sector_starts start_ (start_ + length_))).
  { apply Forall_forall. intros at_ Hat. apply sector_starts_spec in Hat as (i & Hi & -> & Hlt); [|lia]. exists i. split_and!; [done..|lia]. }
  pose proof (cut_sectors m start_ (start_ + length_) ltac:(lia) Hle) as Hcut. replace (start_ + length_ - start_) with length_ in Hcut by lia.
  eapply triple_bind; [apply tri_hit|]. intros full Hfull. eapply triple_bind; [apply tri_get_proof|]. intros catalog Hcat. destruct full as [full|]; [apply triple_ret; left; by rewrite (Hfull full eq_refl)|].
  eapply (triple_bind _ _ _ _ (fun o => forall hits, o = Some hits -> hits = map (fun at_ => (at_, sector_at m at_)) (sector_starts start_ (start_ + length_)))).
  { destruct (_ <? _); [apply tri_cached_sectors|by apply triple_ret]. }
  intros [hits|] Hh; [apply triple_ret; right; rewrite (Hh hits eq_refl), map_map; cbn [fst snd]; by rewrite Hcut|].
  assert (Hc : forall c, (if length_ =? fk_length (fl_key l) then None else catalog) = Some c -> Good (fl_key l) c) by (intros c; destruct (_ =? _); [done|apply Hcat]).
  destruct (if length_ =? fk_length (fl_key l) then None else catalog) as [c|].
  - eapply triple_bind; [by apply tri_read_sectors; [apply Hc|]|]. cbn. intros v ->. apply triple_ret. right. by rewrite Hcut.
  - eapply triple_bind; [apply tri_full_frame|]. cbn. intros v ->. eapply (triple_bind _ _ _ _ (fun _ => True)); [destruct (_ <? _); [by apply tri_keep_sectors|by apply triple_ret]|].
    intros _ _. apply triple_ret. by left.
Qed.
End frame_triples.

(** ** Lemmas: reads *)
Section read_triples.
Context {C : Aead} {H : TreeHash} {HL : TreeHashLaws H} {HC : CollisionFree H} {W : Type} {B : ObjectBackend W} (key : list Z) (repository overhead : Z) (w : W) (CATALOG_BYTES : Z).
Context (Good : FrameKey -> FrameProofCatalog -> Prop) (Pub : Z -> option PayloadRemoteObject -> Prop) (live : Prop).
Notation tri := (triple (store_ok Good Pub) live).
Context (record : PayloadRemoteObject) (P : list Z) (offset end_ : Z) (cancelled : nat -> bool).
Context (Hrange : 0 <= offset < end_) (Hend : end_ <= Z.of_nat (length P)) (Hcancel : live -> forall n, cancelled n = false).
Notation in_payload i := (0 <= i < payload_frame_count (Z.of_nat (length P))).
Context (Henv : forall i l, in_payload i -> location repository overhead record i = Ok l -> frame_env key w Good live l (frame_chunk P i)).
Context (Hloc : live -> forall i, in_payload i -> exists l, location repository overhead record i = Ok l).

(** The frames that the range meets. *)
Definition met (i : Z) : Prop := offset / PAYLOAD_FRAME_BYTES <= i <= (end_ - 1) / PAYLOAD_FRAME_BYTES.
Definition cut (i : Z) : list Z := cut_sector offset end_ (i * PAYLOAD_FRAME_BYTES) (frame_chunk P i).
Definition req_ok (i : Z) (x : FrameLocation * Z * Z) : Prop :=
  frame_env key w Good live x.1.1 (frame_chunk P i) /\ 0 <= x.1.2 /\ 0 < x.2 /\ x.1.2 + x.2 <= Z.of_nat (length (frame_chunk P i)) /\ zslice x.1.2 x.2 (frame_chunk P i) = cut i.
Definition res_ok (i : Z) (x : FrameLocation * Z * Z) (r : result (Z * list Z)) : Prop :=
  req_ok i x /\ (forall p, r = Ok p -> p = (0, frame_chunk P i) \/ p = (x.1.2, zslice x.1.2 x.2 (frame_chunk P i))) /\ (live -> exists p, r = Ok p).

Lemma met_in_payload i : met i -> in_payload i /\ offset < (i + 1) * PAYLOAD_FRAME_BYTES /\ i * PAYLOAD_FRAME_BYTES < end_ /\ 0 <= i.
Proof.
  intros [H1 H2]. assert (HF : PAYLOAD_FRAME_BYTES = 4194304) by reflexivity. pose proof (floor_spec offset PAYLOAD_FRAME_BYTES ltac:(lia) ltac:(lia)). pose proof (floor_spec (end_ - 1) PAYLOAD_FRAME_BYTES ltac:(lia) ltac:(lia)).
  pose proof (payload_frame_count_spec (Z.of_nat (length P)) ltac:(lia)) as (_ & Hc & _). rewrite HF in *. lia.
Qed.
Lemma request_ok i x : met i -> request repository overhead record offset end_ i = Ok x -> req_ok i x.
Proof.
  intros Hi. destruct (met_in_payload i Hi) as (Hp & Ho & He & _). unfold request. intros (l & Hl & [= <-])%bind_Ok_inv. pose proof (Henv i l Hp Hl) as E. unfold req_ok. cbn [fst snd].
  destruct (fe_hit _ _ _ _ _ _ E) as [_ Hlen]. rewrite <- Hlen. destruct (frame_chunk_length P i Hp) as (Hcl & _). unfold saturating_sub. assert (HF : PAYLOAD_FRAME_BYTES = 4194304) by reflexivity.
  assert (Hu : Z.of_nat (length (frame_chunk P i)) <= u64_max).
  { rewrite Hcl. rewrite HF. unfold u64_max. lia. }
  rewrite wsub_u64_small by (rewrite HF in *; lia). split_and!; [done|lia|rewrite HF in *; lia|lia|]. unfold cut, cut_sector, saturating_sub. done.
Qed.
Lemma request_lives i : live -> met i -> exists x, request repository overhead record offset end_ i = Ok x.
Proof. intros Hl Hi. destruct (met_in_payload i Hi) as (Hp & _). destruct (Hloc Hl i Hp) as [l E]. unfold request. rewrite E. cbn. eauto. Qed.
Lemma tri_try_piece i x : req_ok i x -> tri (try_piece key w CATALOG_BYTES x.1.1 x.1.2 x.2) (res_ok i x).
Proof.
  intros (E & H1 & H2 & H3 & H4) s Hs. destruct (tri_piece key w CATALOG_BYTES Good Pub live _ _ E _ _ H1 H2 H3 s Hs) as (T1 & T2 & T3). unfold try_piece. destruct (piece _ _ _ _ _ _ s) as [r s']. cbn [fst snd] in *.
  split_and!; [done| |eauto]. intros r' [= <-]. split_and!; [by split_and!|done|done].
Qed.
Lemma tri_cached_or_piece i x : req_ok i x -> tri (cached_or_piece key w CATALOG_BYTES x) (res_ok i x).
Proof.
  intros Hx. destruct x as [[l s] n]. unfold cached_or_piece. eapply triple_bind; [apply (tri_hit key w Good Pub live l (frame_chunk P i)), Hx|]. intros [v|] Hv; [|by apply (tri_try_piece i (l, s, n))].
  apply triple_ret. rewrite (Hv v eq_refl). split_and!; [apply Hx..| |eauto]. intros p [= <-]. by left.
Qed.
Lemma tri_pieces is_ batch : Forall2 req_ok is_ batch -> tri (pieces key w CATALOG_BYTES batch) (fun rs => Forall3 res_ok is_ batch rs).
Proof.
  induction 1 as [|i x is_ batch Hx Hb IH]; cbn [pieces]; [apply triple_ret; constructor|]. eapply triple_bind; [by apply tri_cached_or_piece|]. intros r Hr. eapply triple_bind; [exact IH|]. intros rs Hrs.
  apply triple_ret. by constructor.
Qed.
Lemma tri_run_batch is_ batch : Forall2 req_ok is_ batch -> tri (run_batch key w CATALOG_BYTES batch) (fun rs => Forall3 res_ok is_ batch rs).
Proof.
  intros Hb. destruct batch as [|[[l s] n] [|y batch]]; [by apply tri_pieces| |by apply tri_pieces]. unfold run_batch. apply Forall2_cons_inv_r in Hb as (i & is' & Hx & Hn & ->). apply Forall2_nil_inv_r in Hn as ->.
  eapply triple_bind; [by apply (tri_try_piece i (l, s, n))|]. intros r Hr. apply triple_ret. constructor; [done|constructor].
Qed.
Lemma append_piece_ok out i x r : res_ok i x r -> (forall out', append_piece out (x, r) = Ok out' -> out' = out ++ cut i) /\ (live -> exists out', append_piece out (x, r) = Ok out').
Proof.
  destruct x as [[l s] n]. intros ((E & H1 & H2 & H3 & H4) & Hp & Hl). cbn [fst snd] in *. assert (Hok : forall p, r = Ok p -> append_piece out ((l, s, n), r) = Ok (out ++ cut i)).
  { intros p ->. unfold append_piece. cbn [mbind result_bind]. assert (Hu : Z.of_nat (length (frame_chunk P i)) <= PAYLOAD_FRAME_BYTES).
    { assert (HF : PAYLOAD_FRAME_BYTES = 4194304) by reflexivity. unfold frame_chunk, zslice. rewrite length_take, HF. lia. }
    assert (HF : PAYLOAD_FRAME_BYTES = 4194304) by reflexivity. rewrite HF in Hu. destruct (Hp p eq_refl) as [->| ->].
    - unfold checked_sub. rewrite (proj2 (Z.leb_le 0 s)) by lia. cbn [ok_or mbind result_bind]. rewrite checked_add_fits by (unfold u64_max; lia). cbn [ok_or mbind result_bind]. rewrite Z.sub_0_r.
      rewrite (proj2 (Z.leb_le _ _)) by lia. by rewrite H4.
    - unfold checked_sub. rewrite Z.leb_refl, Z.sub_diag. cbn [ok_or mbind result_bind]. rewrite checked_add_fits by (unfold u64_max; lia). cbn [ok_or mbind result_bind].
      rewrite zslice_length, Z.leb_refl by lia. rewrite zslice_zslice, Z.add_0_r by lia. by rewrite H4. }
  split.
  - intros out' Ha. destruct r as [p|e]; [|done]. rewrite (Hok p eq_refl) in Ha. by injection Ha.
  - intros HL'. destruct (Hl HL') as [p Ep]. eauto.
Qed.
Lemma append_pieces_ok is_ batch rs out : Forall3 res_ok is_ batch rs -> (forall out', for_fold append_piece out (zip batch rs) = Ok out' -> out' = out ++ concat (map cut is_)) /\
  (live -> exists out', for_fold append_piece out (zip batch rs) = Ok out').
Proof.
  intros Hf. revert out. induction Hf as [|i x r is_ batch rs Hx Hf IH]; intros out; cbn [zip zip_with for_fold map concat].
  - split; [intros out' [= <-]; by rewrite app_nil_r|eauto].
  - destruct (append_piece_ok out i x r Hx) as [A1 A2]. split.
    + intros out' (o & Ho & Hr)%bind_Ok_inv. rewrite (A1 o Ho) in Hr. apply IH in Hr. by rewrite Hr, app_assoc.
    + intros Hl. destruct (A2 Hl) as [o Ho]. rewrite Ho. cbn [mbind result_bind]. by apply IH.
Qed.
Lemma tri_read_batches fuel poll pending output : (length pending < fuel)%nat -> Forall met pending ->
  tri (read_batches key repository overhead w CATALOG_BYTES fuel poll cancelled record offset end_ pending output) (fun v => v = output ++ concat (map cut pending)).
Proof.
  revert poll pending output. induction fuel as [|fuel IH]; intros poll pending output Hf Hm; [lia|]. cbn [read_batches]. destruct (cancelled poll) eqn:Ec; [apply triple_pure; [done|]; intros Hl; by rewrite (Hcancel Hl) in Ec|].
  set (now := take FRAME_FETCH_PARALLELISM pending). assert (Hnow : Forall met now) by (by apply Forall_take).
  eapply (triple_bind _ _ _ _ (fun batch => Forall2 req_ok now batch)).
  { apply triple_pure.
    - intros batch Hb%mapM_Ok. clearbody now. clear -Hb Hnow Henv Hrange Hend. induction Hb as [|i x is_ xs Hx Hb IHb]; [constructor|]. apply Forall_cons in Hnow as [Hi Hn]. constructor; [by apply request_ok|by apply IHb].
    - intros Hl. assert (Hex : exists batch, Forall2 (fun i x => request repository overhead record offset end_ i = Ok x) now batch); [|destruct Hex as [batch Hb]; exists batch; by apply mapM_Ok].
      clearbody now. induction Hnow as [|i is_ Hi Hn IHn]; [exists []; constructor|]. destruct IHn as [b Hb]. destruct (request_lives i Hl Hi) as [x Hx]. exists (x :: b). by constructor. }
  intros batch Hb. destruct batch as [|x xs] eqn:Eb.
  - apply Forall2_nil_inv_r in Hb. apply triple_ret. destruct pending; [by rewrite app_nil_r|done].
  - rewrite <- Eb in *. eapply triple_bind; [by apply tri_run_batch|]. intros rs Hrs. destruct (append_pieces_ok _ _ _ output Hrs) as [A1 A2].
    eapply (triple_bind _ _ _ _ (fun o => o = output ++ concat (map cut now))); [by apply triple_pure|]. intros o ->.
    eapply triple_weaken; [apply IH|].
    + rewrite length_drop. destruct pending as [|p pending]; [cbn in Hb; subst batch; inversion Hb|]. unfold FRAME_FETCH_PARALLELISM. cbn [length] in *. lia.
    + by apply Forall_drop.
    + cbn. intros a ->. rewrite <- app_assoc, <- concat_app, <- map_app. unfold now. by rewrite take_drop.
Qed.
End read_triples.
Section whole_reads.
Context {C : Aead} {H : TreeHash} {HL : TreeHashLaws H} {HC : CollisionFree H} {W : Type} {B : ObjectBackend W} (key : list Z) (repository overhead : Z) (w : W) (CATALOG_BYTES : Z).
Context (payload_publication : Z -> Z -> result (option PayloadRemoteObject)) (installed : bool).

Lemma location_frame record P i l : honest record P -> 0 <= i < payload_frame_count (Z.of_nat (length P)) -> location repository overhead record i = Ok l ->
  frame_hit (fl_key l) (frame_chunk P i) /\ fl_aad l = mkAad repository (pr_payload_id record) i (fk_root (fl_key l)) (fk_length (fl_key l)).
Proof.
  intros [Hlen Hhs] Hi. unfold location, column_u64. rewrite Hlen. rewrite (proj2 (Z.leb_le 0 (Z.of_nat (length P)))) by lia. cbn [mbind result_bind]. intros ([o n] & _ & Hl)%bind_Ok_inv.
  apply bind_Ok_inv in Hl as (member & _ & Hl). apply bind_Ok_inv in Hl as (st & _ & Hl). apply bind_Ok_inv in Hl as (rg & _ & Hl). apply bind_Ok_inv in Hl as (ol & _ & Hl). destruct (_ <? _); [done|].
  apply bind_Ok_inv in Hl as (fs & Hfs & Hl). apply bind_Ok_inv in Hl as (rest & Hrest & Hl). apply bind_Ok_inv in Hl as (root & Hroot & Hl). apply bind_Ok_inv in Hl as (b & _ & Hl). apply bind_Ok_inv in Hl as (pid & _ & Hl).
  apply bind_Ok_inv in Hl as (rev & _ & [= <-]). cbn [fl_key fl_aad fk_root fk_length]. split; [|done]. apply ok_or_Ok_inv in Hfs, Hrest, Hroot.
  unfold checked_mul in Hfs. destruct (_ <=? _); [|done]. injection Hfs as <-. unfold checked_sub in Hrest. destruct (Z.leb_spec (i * PAYLOAD_FRAME_BYTES) (Z.of_nat (length P))); [|done]. injection Hrest as <-.
  rewrite Hhs, list_lookup_fmap in Hroot. unfold zrange in Hroot. rewrite list_lookup_fmap, lookup_seq_lt in Hroot by lia. cbn in Hroot. injection Hroot as <-. split; cbn [fk_root fk_length].
  - do 2 f_equal. lia.
  - destruct (frame_chunk_length P i Hi) as [Hc _]. assert (HF : PAYLOAD_FRAME_BYTES = 4194304) by reflexivity. rewrite HF in *. lia.
Qed.

Section whole_triple.
Context (Good : FrameKey -> FrameProofCatalog -> Prop) (Pub : Z -> option PayloadRemoteObject -> Prop) (live : Prop).
Notation tri := (triple (store_ok Good Pub) live).
Lemma tri_publication volume id : (forall o, payload_publication volume id = Ok o -> Pub id o) -> (live -> exists o, payload_publication volume id = Ok o) -> tri (publication payload_publication volume id) (Pub id).
Proof.
  intros Hdb Hl s []. unfold publication. destruct (sp_publications s !! id) as [hit|] eqn:E; [cbn; split_and!; [done|intros a [= <-]; by apply so_publication0|eauto]|].
  destruct (payload_publication volume id) as [o|e] eqn:Eo; cbn [fst snd]; [|split_and!; [done|done|intros Hv; by destruct (Hl Hv)]].
  split_and!; [|intros a [= <-]; by apply Hdb|eauto]. split; cbn [sp_frames sp_sectors sp_proofs sp_publications]; [done..| |].
  - intros j u. destruct (decide (j = id)) as [->|Hne]; [rewrite lookup_insert_eq; intros [= <-]; by apply Hdb|]. rewrite lookup_insert_ne by congruence. destruct (_ <=? _)%nat; [done|]. apply so_publication0.
  - destruct (Nat.leb_spec PUBLICATION_CACHE_LIMIT (size (sp_publications s))) as [Hfull|Hroom].
    + rewrite map_size_insert_None by done. rewrite map_size_empty. unfold PUBLICATION_CACHE_LIMIT. lia.
    + rewrite map_size_insert_None by done. lia.
Qed.
Context (id : Z) (P : list Z) (offset length_ : Z) (cancelled : nat -> bool) (Ho : 0 <= offset) (Hlen : 0 <= length_).
Notation in_payload i := (0 <= i < payload_frame_count (Z.of_nat (length P))).
Context (Hpub : forall r, Pub id (Some r) -> honest r P /\ (forall i l, in_payload i -> location repository overhead r i = Ok l -> frame_env key w Good live l (frame_chunk P i)) /\
  (live -> forall i, in_payload i -> exists l, location repository overhead r i = Ok l)).
Context (Hdb : forall o, payload_publication repository id = Ok o -> Pub id o).
Context (Hlive : live -> installed = true /\ offset + length_ <= Z.of_nat (length P) <= u64_max /\ ~ Pub id None /\ (forall n, cancelled n = false) /\ exists o, payload_publication repository id = Ok o).
Lemma tri_read_inner : tri (read_inner key repository overhead w CATALOG_BYTES payload_publication installed repository id offset length_ cancelled)
  (fun out => match out with Some o => o = zslice offset length_ P /\ offset + length_ <= Z.of_nat (length P) | None => ~ live end).
Proof.
  unfold read_inner. rewrite Z.eqb_refl. cbn [negb]. destruct installed eqn:Ei; cbn [negb]; [|apply triple_pure; [done|]; intros Hl; by destruct (Hlive Hl)].
  eapply triple_bind; [apply tri_publication; [exact Hdb|intros Hl; by destruct (Hlive Hl) as (_ & _ & _ & _ & ?)]|]. intros [r|] Hr; [|apply triple_ret; intros Hl; by destruct (Hlive Hl) as (_ & _ & ? & _)].
  destruct (Hpub r Hr) as (Hh & Henv & Hloc). destruct Hh as [Hpl Hfh]. eapply (triple_bind _ _ _ _ (fun t => t = Z.of_nat (length P))).
  { unfold column_u64. rewrite Hpl, (proj2 (Z.leb_le _ _)) by lia. apply triple_pure; [by intros a [= <-]|eauto]. }
  intros total ->. eapply (triple_bind _ _ _ _ (fun e => e = offset + length_)).
  { apply triple_pure; [intros a Ha%ok_or_Ok_inv; by apply checked_add_Some in Ha as [_ ->]|]. intros Hl. destruct (Hlive Hl) as (_ & Hle & _). rewrite checked_add_fits by lia. cbn. eauto. }
  intros end_ ->. destruct (Z.ltb_spec (Z.of_nat (length P)) (offset + length_)) as [Hout|Hin]; [apply triple_pure; [done|]; intros Hl; destruct (Hlive Hl) as (_ & Hle & _); lia|].
  destruct (Z.eqb_spec length_ 0) as [->|Hne]; [apply triple_ret; split; [by rewrite zslice_neg|lia]|].
  assert (HF : PAYLOAD_FRAME_BYTES = 4194304) by reflexivity. set (first := offset / PAYLOAD_FRAME_BYTES). set (last := (offset + length_ - 1) / PAYLOAD_FRAME_BYTES).
  eapply (triple_bind _ _ _ _ (fun v => v = zslice offset length_ P)).
  - eapply triple_weaken; [apply (tri_read_batches key repository overhead w CATALOG_BYTES Good Pub live r P offset (offset + length_) cancelled)|].
    + lia.
    + lia.
    + intros Hl. by destruct (Hlive Hl) as (_ & _ & _ & ? & _).
    + exact Henv.
    + exact Hloc.
    + rewrite length_zrange. lia.
    + apply Forall_forall. intros i Hi%elem_of_zrange. unfold met. fold first last. lia.
    + cbn [app]. intros a ->. unfold cut. change (map (fun i => cut_sector offset (offset + length_) (i * PAYLOAD_FRAME_BYTES) (frame_chunk P i))) with (map (cut P offset (offset + length_))).
      pose proof (cut_frames P offset (offset + length_) ltac:(lia) ltac:(lia)) as Hcut. cbv zeta in Hcut. fold first last in Hcut. replace (offset + length_ - offset) with length_ in Hcut by lia. exact Hcut.
  - intros v ->. rewrite zslice_length, Z.eqb_refl by lia. cbn [negb]. by apply triple_ret.
Qed.
Lemma tri_fetch_whole : offset = 0 -> length_ = Z.of_nat (length P) -> (live -> forall r, Pub id (Some r) -> pr_plaintext_hash r = th_hash P) ->
  tri (fetch_whole key repository overhead w CATALOG_BYTES payload_publication installed repository id cancelled) (fun out => match out with Some (b, _) => b = P | None => ~ live end).
Proof.
  intros H0 Hl Hhash. pose proof tri_read_inner as T. rewrite H0, Hl in T. unfold fetch_whole. eapply triple_bind; [apply tri_publication; [exact Hdb|intros Hv; by destruct (Hlive Hv) as (_ & _ & _ & _ & ?)]|].
  intros [r|] Hr; [|apply triple_ret; intros Hv; by destruct (Hlive Hv) as (_ & _ & ? & _)]. destruct (Hpub r Hr) as ([Hpl _] & _). rewrite Hpl, (proj2 (Z.ltb_ge _ _)) by lia.
  eapply triple_bind; [exact T|]. intros out Hq. eapply (triple_bind _ _ _ _ (fun b => b = P)).
  { apply triple_pure; [intros b Hb%ok_or_Ok_inv; subst out; destruct Hq as [-> _]; apply zslice_all|]. intros Hv. destruct out; [cbn; eauto|done]. }
  intros b ->. rewrite Z.eqb_refl. cbn [negb]. destruct (Z.eqb_spec (th_hash P) (pr_plaintext_hash r)) as [Heq|Hne]; cbn [negb]; [by apply triple_ret|]. apply triple_pure; [done|]. intros Hv. by rewrite (Hhash Hv r Hr) in Hne.
Qed.
End whole_triple.
End whole_reads.

(** Caches that hold verified bytes only, and honest records. *)
Definition store_sound {H : TreeHash} (contents : Z -> list Z) (s : RemotePayloadStore) : Prop :=
  store_ok (fun _ _ => True) (fun id o => forall r, o = Some r -> honest r (contents id)) s.
Lemma with_budgets_ok {H : TreeHash} (Good : FrameKey -> FrameProofCatalog -> Prop) (Pub : Z -> option PayloadRemoteObject -> Prop) (b : RemoteReadBudgets) :
  in_u64 (rb_frame_bytes b) -> in_u64 (rb_sector_bytes b) -> in_u64 (rb_proof_bytes b) -> store_ok Good Pub (with_budgets b).
Proof.
  intros H1 H2 H3. assert (Hnew : forall (K V : Type) (EqK : EqDecision K) (CK : Countable K) n, in_u64 n -> lru_ok (ByteLru_new n : ByteLru K V)).
  { intros K V EqK CK n Hn. unfold lru_ok. cbn [ByteLru_new bl_entries bl_used bl_budget]. rewrite map_to_list_empty. destruct Hn. split_and!; [done|lia..|]. apply map_Forall_empty. }
  split; cbn [with_budgets sp_frames sp_sectors sp_proofs sp_publications]; [by apply Hnew..| | | | |rewrite map_size_empty; lia]; intros ? ?; unfold lru_value, ByteLru_new; cbn [bl_entries]; by rewrite lookup_empty.
Qed.

(** C21: Whatever the backend answers, an evicted payload reads as what was
    published or fails.  When the database records the frame hashes of the
    payloads, a read of any range, from caches in any sound state and with any
    cancellation, returns exactly the bytes of that range of the payload, and
    a whole fetch returns the payload; the caches stay sound and within their
    budgets, also when the read fails, and a new store is sound. *)
Theorem evicted_reads_sound {C : Aead} {H : TreeHash} {HL : TreeHashLaws H} {HC : CollisionFree H} {W : Type} {B : ObjectBackend W} (key : list Z) (repository overhead CATALOG_BYTES : Z) (w : W)
    (payload_publication : Z -> Z -> result (option PayloadRemoteObject)) (installed : bool) (contents : Z -> list Z)
    (Hdb : forall id r, payload_publication repository id = Ok (Some r) -> honest r (contents id))
    (id offset length_ : Z) (cancelled : nat -> bool) (Ho : 0 <= offset) (Hl : 0 <= length_) :
  (forall s, store_sound contents s ->
    let '(r, s') := read_inner key repository overhead w CATALOG_BYTES payload_publication installed repository id offset length_ cancelled s in
    store_sound contents s' /\ forall out, r = Ok (Some out) -> out = zslice offset length_ (contents id) /\ offset + length_ <= Z.of_nat (length (contents id))) /\
  (forall s, store_sound contents s ->
    let '(r, s') := fetch_whole key repository overhead w CATALOG_BYTES payload_publication installed repository id cancelled s in
    store_sound contents s' /\ forall out record, r = Ok (Some (out, record)) -> out = contents id) /\
  forall b, in_u64 (rb_frame_bytes b) -> in_u64 (rb_sector_bytes b) -> in_u64 (rb_proof_bytes b) -> store_sound contents (with_budgets b).
Proof.
  set (Pub := fun id o => forall r : PayloadRemoteObject, o = Some r -> honest r (contents id)).
  assert (Hpub : forall r, Pub id (Some r) -> honest r (contents id) /\ (forall i l, 0 <= i < payload_frame_count (Z.of_nat (length (contents id))) ->
    location repository overhead r i = Ok l -> frame_env key w (fun _ _ => True) False l (frame_chunk (contents id) i)) /\
    (False -> forall i, 0 <= i < payload_frame_count (Z.of_nat (length (contents id))) -> exists l, location repository overhead r i = Ok l)).
  { intros r Hr. split_and!; [by apply Hr| |done]. intros i l Hi El. destruct (location_frame repository overhead r (contents id) i l (Hr r eq_refl) Hi El) as [Hf Ha]. by split; [|rewrite Ha..| | |]. }
  assert (Hdb' : forall o, payload_publication repository id = Ok o -> Pub id o) by (intros o Eo r ->; by apply Hdb).
  split_and!.
  - intros s Hs. destruct (tri_read_inner key repository overhead w CATALOG_BYTES payload_publication installed (fun _ _ => True) Pub False id (contents id) offset length_ cancelled Ho Hl Hpub Hdb' ltac:(done) s Hs) as (T1 & T2 & _).
    destruct (read_inner _ _ _ _ _ _ _ _ _ _ _ _ s) as [r s']. cbn [fst snd] in *. split; [exact T1|]. intros out ->. exact (T2 (Some out) eq_refl).
  - intros s Hs. destruct (tri_fetch_whole key repository overhead w CATALOG_BYTES payload_publication installed (fun _ _ => True) Pub False id (contents id) 0 (Z.of_nat (length (contents id))) cancelled ltac:(lia) ltac:(lia) Hpub Hdb'
      ltac:(done) eq_refl eq_refl ltac:(done) s Hs) as (T1 & T2 & _).
    destruct (fetch_whole _ _ _ _ _ _ _ _ _ _ s) as [r s']. cbn [fst snd] in *. split; [exact T1|]. intros out record ->. exact (T2 (Some (out, record)) eq_refl).
  - intros b. apply with_budgets_ok.
Qed.

(** A backend that serves the bytes of its one object. *)
#[local] Instance one_object : ObjectBackend (list Z) := {|
  can_publish := false;
  read_range w o r c := BackendRead_new r (len r) (ro_immutable_revision o) (BackendByteStream_from_bytes (zslice (start r) (len r) w));
  put_immutable k src h c w := (inl (be_permanent "read only"), w);
  stat w o := inl (be_permanent "read only");
  enumerate_commits w r := inr [];
  delete_immutable o p c w := (inl (be_permanent "read only"), w)
|}.
#[local] Existing Instance position_aead.
#[local] Existing Instance sector_hash.
#[local] Existing Instance sector_hash_laws.
#[local] Existing Instance sector_hash_free.
Definition demo_encoded : list Z := match encode_payload_object th_hash [7] 1 2 (fun _ => Some demo_nonce) demo_payload with Ok (obj, _) => obj | Err _ => [] end.
Definition demo_record : PayloadRemoteObject := mkPayloadRemote 1 2 "object" None 73 (th_hash demo_encoded) 5 (th_hash demo_payload) [th_hash demo_payload] 0 0.
Definition demo_lookup (volume id : Z) : result (option PayloadRemoteObject) := Ok (if id =? 2 then Some demo_record else None).
Lemma evicted_reads_sound_witness : let '(r, s') := read_inner [7] 1 68 demo_encoded 64 demo_lookup true 1 2 1 3 (fun _ => false) (with_budgets RemoteReadBudgets_default) in
  r = Ok (Some [2; 3; 4]) /\ store_sound (fun _ => demo_payload) s'.
Proof.
  destruct (evicted_reads_sound [7] 1 68 64 demo_encoded demo_lookup true (fun _ => demo_payload)) with (id := 2) (offset := 1) (length_ := 3) (cancelled := fun _ : nat => false) as (H & _ & Hnew).
  - intros id r. unfold demo_lookup. destruct (id =? 2); [|done]. intros [= <-]. split; reflexivity.
  - lia.
  - lia.
  - specialize (H (with_budgets RemoteReadBudgets_default)).
    assert (Hw : in_u64 (32 * 1048576) /\ in_u64 (8 * 1048576)) by (unfold in_u64, u64_max; lia). specialize (H (Hnew RemoteReadBudgets_default (proj1 Hw) (proj2 Hw) (proj2 Hw))).
    assert (E : fst (read_inner [7] 1 68 demo_encoded 64 demo_lookup true 1 2 1 3 (fun _ => false) (with_budgets RemoteReadBudgets_default)) = Ok (Some [2; 3; 4])) by (vm_compute; reflexivity).
    destruct (read_inner _ _ _ _ _ _ _ _ _ _ _ _ _) as [r s']. cbn [fst] in E. destruct H as [H1 _]. exact (conj E H1).
Defined.
(** A store whose object was damaged: the read fails and never returns bytes. *)
Example damaged_object_refused : fst (read_inner [7] 1 68 (0 :: drop 1 demo_encoded) 64 demo_lookup true 1 2 1 3 (fun _ => false) (with_budgets RemoteReadBudgets_default)) = Err (failure FailIntegrity).
Proof. vm_compute. reflexivity. Qed.
