(* ===== verification/PayloadLedger.v ===== *)
(** * The payload ledger

    [mirage-db/src/payload_remote.rs], the publication records of journal
    payloads with the scans over journal, extents and physical ledger that
    drive publication and eviction, and from [mirage-ffi/src/publisher.rs] the
    publisher (encoding the members of a unit, upload, readback, record; the
    batches of a pass) and the eviction of published payloads.

    The journal directory is a map from file names to bytes; clocks, nonces and
    measured rates are arguments.  [PayloadHost] is what publisher and reader
    rely on: an object that an upload reported is served with some bytes of the
    length of its reference, under the id reported and under "drive", the one the
    reader asks for.  That they are the uploaded bytes is what the readback
    establishes, for a hash without collisions.

    Proved: a recorded payload can be read from caches in any state that does not
    remember it as absent, and reads return its bytes; publication and eviction
    in any order never lose a payload; an eviction changes nothing but the files
    and extents of published, closed and unpinned payloads. *)
From S2P Require Export Mutation Handles RemoteReads.

(** ** [payload_remote.rs] *)
Record LedgerDb : Set := mkLedger { ld_vol : VolDb; ld_remote : gmap Z PayloadRemoteObject }.
Definition MANAGED_JOURNAL_FILE_ID : Z := from_be (replicate 16 74).
(** The checks of the table. *)
Definition remote_check (_ : Z) (r : PayloadRemoteObject) : bool := (0 <? pr_object_length r) && (0 <=? pr_plaintext_length r).
Definition no_clash (_ _ : PayloadRemoteObject) : bool := false.
(** [EXISTS (SELECT 1 FROM byte_extents WHERE volume_id = .. AND payload_id = ..)] *)
Definition payload_referenced (volume payload : Z) (s : StoreDb) : bool :=
  existsb (fun x => (be_volume_id x.2 =? volume) && bool_decide (be_payload_id x.2 = Some payload)) (map_to_list (rows s)).
(** [ON CONFLICT(payload_id) DO UPDATE]: every column but the keys. *)
Definition excluded (old r : PayloadRemoteObject) : PayloadRemoteObject :=
  mkPayloadRemote (pr_volume_id old) (pr_payload_id old) (pr_provider_object_id r) (pr_immutable_revision r) (pr_object_length r) (pr_object_hash r)
    (pr_plaintext_length r) (pr_plaintext_hash r) (pr_frame_hashes r) (pr_published_ns r) (pr_member_offset r).
Definition upsert_remote (r : PayloadRemoteObject) (t : gmap Z PayloadRemoteObject) : result (gmap Z PayloadRemoteObject) :=
  let r' := match t !! pr_payload_id r with Some old => excluded old r | None => r end in
  if fits_at remote_check no_clash (pr_payload_id r) r' t then Ok (<[pr_payload_id r := r']> t) else Err (sqlite "payload publication insert failed").
Definition record_payload_publication_in (d : LedgerDb) (r : PayloadRemoteObject) : result LedgerDb :=
  if negb (payload_referenced (pr_volume_id r) (pr_payload_id r) (v_store (ld_vol d))) then Err (repository_conflict "published payload is no longer referenced") else
  t ← upsert_remote r (ld_remote d);
  Ok (mkLedger (ld_vol d) t).
Definition record_payload_publication (r : PayloadRemoteObject) (d : LedgerDb) : result LedgerDb := record_payload_publication_in d r.
Definition record_payload_publications (rs : list PayloadRemoteObject) (d : LedgerDb) : result LedgerDb := for_fold record_payload_publication_in d rs.
Definition payload_publication (d : LedgerDb) (volume payload : Z) : result (option PayloadRemoteObject) :=
  Ok (match ld_remote d !! payload with Some r => if pr_volume_id r =? volume then Some r else None | None => None end).
(** The join of payloads and operations behind [unpublished_payloads]. *)
Definition pending_row (d : LedgerDb) (volume : Z) (p : OperationPayloadRecord) : option UnpublishedPayload :=
  o ← operations (v_journal (ld_vol d)) !! pl_operation_id p;
  if (op_volume o =? volume) && bool_decide (status o ∈ [Committed; Flushed; Published]) && bool_decide (is_Some (pl_flushed_ns p)) &&
     payload_referenced volume (payload_id p) (v_store (ld_vol d)) && negb (bool_decide (is_Some (ld_remote d !! payload_id p))) &&
     negb (match phys_extents (phys (v_store (ld_vol d))) !! payload_id p with Some x => extent_in Dead x | None => false end)
  then Some (mkUnpublished (payload_id p) (pl_path p) (pl_bytes p) (pl_checksum p) (device_seq o)) else None.
Definition unpublished_payloads (volume : Z) (d : LedgerDb) : list UnpublishedPayload :=
  sort_by_key un_device_seq (omap (fun x => pending_row d volume x.2) (map_to_list (payloads (v_journal (ld_vol d))))).
Definition published_payloads_by_state (volume : Z) (state : PhysicalExtentState) (d : LedgerDb) : list (Z * Z * Z) :=
  map (fun r => (pr_payload_id r, pr_plaintext_length r, pr_published_ns r))
    (sort_by_key pr_published_ns (List.filter (fun r =>
      (pr_volume_id r =? volume) &&
      match phys_extents (phys (v_store (ld_vol d))) !! pr_payload_id r with
      | Some x => extent_in state x && (pe_pin_count x =? 0) && (pe_file_id x =? MANAGED_JOURNAL_FILE_ID) &&
                  (bool_decide (state = Dead) || payload_referenced (pr_volume_id r) (pr_payload_id r) (v_store (ld_vol d)))
      | None => false
      end) (map snd (map_to_list (ld_remote d))))).
Definition published_payloads_evictable (volume : Z) (d : LedgerDb) : list (Z * Z * Z) := published_payloads_by_state volume Alive d.
Definition published_payloads_pending_cleanup (volume : Z) (d : LedgerDb) : list (Z * Z * Z) := published_payloads_by_state volume Dead d.
Record PayloadPublicationStats : Set := mkPubStats {
  pps_pending_payloads : Z; pps_pending_bytes : Z; pps_published_payloads : Z; pps_published_bytes : Z; pps_evicted_payloads : Z
}.
(** [sum] fails outside the 64-bit range. *)
Definition sql_sum (context : string) (l : list Z) : result Z :=
  let s := sumZ id l in if (i64_min <=? s) && (s <=? i64_max) then Ok s else Err (sqlite context).
Definition payload_publication_stats (volume journal_file : Z) (d : LedgerDb) : result PayloadPublicationStats :=
  let pending := unpublished_payloads volume d in
  pending_bytes ← sql_sum "pending payload stats failed" (map un_bytes pending);
  let published := List.filter (fun r => (pr_volume_id r =? volume) && payload_referenced (pr_volume_id r) (pr_payload_id r) (v_store (ld_vol d))) (map snd (map_to_list (ld_remote d))) in
  published_bytes ← sql_sum "published payload stats failed" (map pr_plaintext_length published);
  let evicted := List.filter (fun r => match phys_extents (phys (v_store (ld_vol d))) !! pr_payload_id r with
    Some x => (pe_file_id x =? journal_file) && extent_in Dead x | None => false end) published in
  Ok (mkPubStats (Z.of_nat (length pending)) (Z.max pending_bytes 0) (Z.of_nat (length published)) (Z.max published_bytes 0) (Z.of_nat (length evicted))).
Definition payload_inodes (volume payload : Z) (d : LedgerDb) : list Z :=
  remove_dups (map (fun x => be_inode x.2) (List.filter (fun x => (be_volume_id x.2 =? volume) && bool_decide (be_payload_id x.2 = Some payload)) (map_to_list (rows (v_store (ld_vol d)))))).

(** ** The publisher *)
Notation JournalFiles := (gmap string (list Z)).
Record PublisherStats : Set := mkPublisherStats { pt_integrity_refusals : Z; pt_last_error : list Z }.
Definition record_error_class (message : string) (s : PublisherStats) : PublisherStats :=
  let bytes := take 31 (chars message) in mkPublisherStats (pt_integrity_refusals s) (bytes ++ zeros (32 - length bytes)).
Definition count_refusal (s : PublisherStats) : PublisherStats := mkPublisherStats (pt_integrity_refusals s +! 1) (pt_last_error s).
Inductive PublishFailure : Set := PublishBackend | PublishIntegrity.
#[export] Instance PublishFailure_eq_dec : EqDecision PublishFailure.
Proof. solve_decision. Defined.
#[export] Instance BackendErrorClass_eq_dec : EqDecision BackendErrorClass.
Proof. solve_decision. Defined.
Record EncodedMember : Set := mkMember { em_payload : UnpublishedPayload; em_member_offset : Z; em_plaintext_length : Z; em_plaintext_hash : Hash; em_frame_hashes : list Hash }.

Section publisher.
Context {C : Aead} {H : TreeHash} {W : Type} {B : ObjectBackend W} (key : list Z) (volume : Z).

Definition encode_member (files : JournalFiles) (nonces : Z -> option (list Z)) (payload : UnpublishedPayload) (member_offset : Z) (stats : PublisherStats)
    : option (EncodedMember * list Z) * PublisherStats :=
  match files !! un_path payload with
  | None => (None, record_error_class "payload file unreadable" stats)
  | Some plaintext =>
      if match un_checksum payload with Some expected => negb (th_hash plaintext =? expected) | None => false end
      then (None, record_error_class "payload checksum mismatch" (count_refusal stats)) else
      match encode_payload_object th_hash key volume (un_payload_id payload) nonces plaintext with
      | Err _ => (None, record_error_class "payload frame encode failed" stats)
      | Ok (encoded, frame_hashes) => (Some (mkMember payload member_offset (Z.of_nat (length plaintext)) (th_hash plaintext) frame_hashes, encoded), stats)
      end
  end.
(** The object and its members; [nonces] by payload and frame. *)
Fixpoint encode_members (files : JournalFiles) (nonces : Z -> Z -> option (list Z)) (unit : PublishUnit) (object : list Z) (members : list EncodedMember) (stats : PublisherStats)
    : list Z * list EncodedMember * PublisherStats :=
  match unit with
  | [] => (object, members, stats)
  | payload :: unit =>
      match encode_member files (nonces (un_payload_id payload)) payload (Z.of_nat (length object)) stats with
      | (None, stats) => encode_members files nonces unit object members stats
      | (Some (member, encoded), stats) => encode_members files nonces unit (object ++ encoded) (members ++ [member]) stats
      end
  end.
(** [i64::try_from(..).unwrap_or(i64::MAX)] *)
Definition i64_or_max (x : Z) : Z := if x <=? i64_max then x else i64_max.
Definition member_record (reference : RemoteObjectRef) (object_hash : Hash) (object_length published_ns : Z) (m : EncodedMember) : PayloadRemoteObject :=
  mkPayloadRemote volume (un_payload_id (em_payload m)) (ro_provider_object_id reference) (ro_immutable_revision reference) (i64_or_max object_length) object_hash
    (i64_or_max (em_plaintext_length m)) (em_plaintext_hash m) (em_frame_hashes m) published_ns (i64_or_max (em_member_offset m)).

Record PubState : Type := mkPubState { pu_db : LedgerDb; pu_backend : W; pu_stats : PublisherStats }.
Definition note (f : PublisherStats -> PublisherStats) (s : PubState) : PubState := mkPubState (pu_db s) (pu_backend s) (f (pu_stats s)).
(** [format!("{:?}", error.class)] *)
Definition class_name (c : BackendErrorClass) : string :=
  match c with
  | Authentication => "Authentication" | Permission => "Permission" | RateLimit => "RateLimit" | Missing => "Missing"
  | TransientTransport => "TransientTransport" | Integrity => "Integrity" | Unsupported => "Unsupported" | Permanent => "Permanent"
  end%string.
Definition publish_unit (files : JournalFiles) (nonces : Z -> Z -> option (list Z)) (now_ns : Z) (unit : PublishUnit) (s : PubState) : (PublishFailure + ()) * PubState :=
  let '(object, members, stats) := encode_members files nonces unit [] [] (pu_stats s) in
  let s := mkPubState (pu_db s) (pu_backend s) stats in
  if (length members =? 0)%nat then (inl PublishIntegrity, s) else
  let object_hash := th_hash object in
  let object_length := Z.of_nat (length object) in
  let '(result, w) := put_immutable KPayload (UploadSource_from_bytes object) object_hash false (pu_backend s) in
  let s := mkPubState (pu_db s) w (pu_stats s) in
  match result with
  | inl error => (inl PublishBackend, note (record_error_class (class_name (be_class error))) s)
  | inr reference =>
      if negb (ro_content_hash reference =? object_hash) || negb (ro_byte_length reference =? object_length) || negb (bool_decide (ro_kind reference = KPayload))
      then (inl PublishIntegrity, note count_refusal (note (record_error_class "published identity mismatch") s)) else
      match verify_object_bytes th_hash w reference false with
      | inl error =>
          let s := note (record_error_class "publication readback failed") s in
          if bool_decide (be_class error = Integrity) then (inl PublishIntegrity, note count_refusal s) else (inl PublishBackend, s)
      | inr _ =>
          match record_payload_publications (map (member_record reference object_hash object_length now_ns) members) (pu_db s) with
          | Ok db => (inr (), mkPubState db w (pu_stats s))
          | Err _ => (inl PublishIntegrity, note (record_error_class "payload publication record failed") s)
          end
      end
  end.
(** The units of a batch; the threads are run in order. *)
Fixpoint publish_batch (files : JournalFiles) (nonces : Z -> Z -> option (list Z)) (now_ns : Z) (batch : list PublishUnit) (s : PubState) : list (PublishFailure + ()) * PubState :=
  match batch with
  | [] => ([], s)
  | unit :: batch =>
      let '(r, s) := publish_unit files nonces now_ns unit s in
      let '(rs, s) := publish_batch files nonces now_ns batch s in (r :: rs, s)
  end.
Definition batch_failed (rs : list (PublishFailure + ())) : bool := existsb (fun r => bool_decide (r = inl PublishBackend)) rs.
(** One pass of [publisher_loop] over the units from [cursor]; the rates are
    those measured per batch.  A batch takes a unit at least. *)
Fixpoint publish_pass (fuel : nat) (files : JournalFiles) (nonces : Z -> Z -> option (list Z)) (now_ns : Z) (rates : nat -> Z) (units : list PublishUnit) (cursor : nat) (cap : Z) (s : PubState)
    : bool * Z * PubState :=
  match fuel with
  | O => (true, cap, s)
  | S fuel =>
      if (cursor <? length units)%nat then
        let end_ := next_batch units cursor cap in
        let '(rs, s) := publish_batch files nonces now_ns (take (end_ - cursor) (drop cursor units)) s in
        if batch_failed rs then (true, record_failure cap, s)
        else publish_pass fuel files nonces now_ns rates units end_ (record_success (rates cursor) cap) s
      else (false, cap, s)
  end.
Definition publish_pending (files : JournalFiles) (nonces : Z -> Z -> option (list Z)) (now_ns : Z) (rates : nat -> Z) (cap : Z) (s : PubState) : bool * Z * PubState :=
  let units := publish_units (unpublished_payloads volume (pu_db s)) in
  publish_pass (S (length units)) files nonces now_ns rates units 0 cap s.
End publisher.

(** ** Eviction *)
(** [<hex>.payload] *)
Definition payload_file_name (id : Z) : string := bytes_str (concat (map hex_byte (to_be 16 id))) +:+ ".payload".
(** [pin_held] of [publisher.rs]: the walk to the root, 4096 hops at most. *)
Fixpoint evict_pin_walk (ns : Db) (volume : Z) (pins : gset Z) (fuel : nat) (seen : gset Z) (current : Z) : bool :=
  match fuel with
  | O => true
  | S fuel =>
      if bool_decide (current ∈ pins) then true else
      if bool_decide (current ∈ seen) then true else
      match entry_of_child ns current with
      | Some (parent, _) => evict_pin_walk ns volume pins fuel ({[current]} ∪ seen) parent
      | None => negb (bool_decide (volumes ns <> None) && (root_inode volume =? current))
      end
  end.
Definition evict_pin_held (ns : Db) (volume : Z) (pins : gset Z) (inode : Z) : bool := evict_pin_walk ns volume pins 4096 ∅ inode.

Record EvictState : Set := mkEvictState { ev_db : LedgerDb; ev_files : JournalFiles; ev_used : Z }.
(** What the file system answers to a deletion. *)
Inductive Unlink : Set := UnlinkOk | UnlinkError (e : MirageError).
Section evict.
(** The clock, the open handles, the pins, and what the durability barrier and
    the deletion answer for a payload. *)
Context (volume now_ns : Z) (handles : gmap Z OpenRecord) (pins : gset Z) (barrier : option Z -> result ()) (unlink : Z -> Unlink).
Notation io := (io EvictState).

Definition set_vol_phys (p : PhysDb) (d : LedgerDb) : LedgerDb := mkLedger (set_store (set_phys p (v_store (ld_vol d))) (ld_vol d)) (ld_remote d).
Definition evict_mark_dead (id : Z) : io () := fun s =>
  match mark_extent_dead id now_ns (phys (v_store (ld_vol (ev_db s)))) with
  | Err e => (Err e, s)
  | Ok p => (Ok tt, mkEvictState (set_vol_phys p (ev_db s)) (ev_files s) (ev_used s))
  end.
Definition remove_file (id length_ : Z) : io bool := fun s =>
  match ev_files s !! payload_file_name id with
  | None => (Ok false, s)
  | Some _ =>
      match unlink id with
      | UnlinkError e => (Err e, s)
      | UnlinkOk => (Ok true, mkEvictState (ev_db s) (delete (payload_file_name id) (ev_files s)) (saturating_sub (ev_used s) length_))
      end
  end.
(** The closure that runs while the inodes are closed. *)
Definition reclaim (id length_ : Z) (already_dead : bool) : io bool :=
  _ ← (if already_dead then mret tt else evict_mark_dead id);
  _ ← io_pure (barrier (Some id));
  remove_file id length_.
Definition evict_one (target : Z) (acc : Z * Z) (x : Z * Z * Z * bool) : io (Z * Z) := fun s =>
  let '(id, plaintext_length, _, already_dead) := x in
  if target <=? acc.1 then (Ok acc, s) else
  let inodes := payload_inodes volume id (ev_db s) in
  if existsb (evict_pin_held (v_ns (ld_vol (ev_db s))) volume pins) inodes then (Ok (acc.1, acc.2 +! u64_or_zero plaintext_length), s) else
  let length_ := u64_or_zero plaintext_length in
  match with_closed_inodes handles inodes (reclaim id length_ already_dead) s with
  | (Err e, s) => (Err e, s)
  | (Ok None, s) => (Ok acc, s)
  | (Ok (Some (Err e)), s) => (Err e, s)
  | (Ok (Some (Ok reclaimed)), s) => (Ok (if reclaimed then acc.1 +! length_ else acc.1, acc.2), s)
  end.
Fixpoint evict_candidates (target : Z) (l : list (Z * Z * Z * bool)) (acc : Z * Z) : io (Z * Z) :=
  match l with
  | [] => mret acc
  | x :: l => acc ← evict_one target acc x; evict_candidates target l acc
  end.
Definition evict_list (s : EvictState) : list (Z * Z * Z * bool) :=
  sort_by_key (fun x => x.1.2)
    (map (fun x => (x, false)) (published_payloads_evictable volume (ev_db s)) ++
     map (fun x => (x, true)) (List.filter (fun x => bool_decide (is_Some (ev_files s !! payload_file_name x.1.1))) (published_payloads_pending_cleanup volume (ev_db s)))).
Definition evict_published (target : Z) : io (Z * Z) := fun s =>
  let l := evict_list s in
  (_ ← (if bool_decide (l = []) then mret tt else io_pure (barrier None)); evict_candidates target l (0, 0)) s.
End evict.

(** ** What publisher and reader rely on *)
(** A record keeps no backend id: the reader asks for its object under the id
    "drive" ([remote_read_impl.rs], [locate]). *)
Definition as_drive (o : RemoteObjectRef) : RemoteObjectRef :=
  mkRemote "drive" (ro_provider_object_id o) (ro_immutable_revision o) (ro_byte_length o) (ro_content_hash o) (ro_kind o).
(** An object an upload reported is served, with some bytes of its length, both
    under the id reported and under that of the reader: the Drive backend reports
    "drive", and [DirectoryObjectBackend] reports "local" and accepts either id.
    Served objects stay so over uploads, reads answer the revision of the
    reference or none, and reported names are valid. *)
Class PayloadHost {W : Type} (B : ObjectBackend W) : Type := mkHost {
  serves : W -> RemoteObjectRef -> list Z -> Prop;
  serves_length w o b : serves w o b -> ro_byte_length o = Z.of_nat (length b);
  serves_reads w o b : serves w o b -> ranges_read VERIFY_WINDOW w o b;
  serves_revision w o b s l rd : serves w o b -> read_range w o (mkRange s l) false = inr rd -> rd_observed_revision rd = None \/ rd_observed_revision rd = ro_immutable_revision o;
  put_serves src h w o w' : put_immutable KPayload src h false w = (inr o, w') -> exists b, serves w' o b /\ serves w' (as_drive o) b;
  put_named src h w o w' : put_immutable KPayload src h false w = (inr o, w') ->
    ProviderObjectId_new (chars (ro_provider_object_id o)) = Ok (ro_provider_object_id o) /\ opt_ok (fun r => ImmutableRevision_new (chars r) = Ok r) (ro_immutable_revision o);
  put_serving src h w r w' o b : put_immutable KPayload src h false w = (r, w') -> serves w o b -> serves w' o b
}.

(** ** Lemmas: range fetches *)
Section fetch_lemmas.
Context {W : Type} {B : ObjectBackend W} {PH : PayloadHost B} (w : W) (o : RemoteObjectRef) (obj : list Z) (Hs : serves w o obj) (Hu : Z.of_nat (length obj) <= u64_max).
Lemma collect_exact_ok (fuel : nat) (s : BackendByteStream) (out l : list Z) (n : Z) : bs_finished s = false -> Z.of_nat (length out) + bs_remaining s = n -> n <= u64_max ->
  collect_loop fuel s out = inr l -> collect_exact fuel s out n = Ok l.
Proof.
  revert s out. induction fuel as [|fuel IH]; intros [inner rem fin] out Hf Hn Hm; [done|]. cbn in Hf. subst fin. cbn [collect_loop collect_exact]. unfold stream_next. cbn [bs_finished bs_inner bs_remaining].
  destruct inner as [|[e|chunk] inner].
  - destruct (Z.eqb_spec rem 0) as [->|]; [|done]. intros [= <-]. cbn [bs_remaining] in Hn. by rewrite (proj2 (Z.eqb_eq _ _)) by lia.
  - done.
  - destruct (_ =? 0); [done|]. destruct (Z.ltb_spec rem (Z.of_nat (length chunk))); [done|]. cbn [bs_remaining] in Hn. intros Hc.
    rewrite (proj2 (Z.ltb_ge _ _)) by (unfold saturating_add; lia). apply IH; [done|rewrite length_app; cbn [bs_remaining]; lia|done|done].
Qed.
Lemma fetch_part_ok (s l : Z) : 0 <= s -> 0 < l -> s + l <= Z.of_nat (length obj) -> l <= VERIFY_WINDOW -> fetch_remote_part w o (mkRange s l) = Ok (zslice s l obj).
Proof.
  intros H1 H2 H3 H4. destruct (serves_reads w o obj Hs s l H1 H2 H3 H4) as (rd & Hr & Hq & Hl & [Hrem Hfin] & Hc). unfold fetch_remote_part. rewrite Hr, Hq, Hl. cbn [len].
  rewrite bool_decide_true, Z.eqb_refl by done. cbn [negb orb]. destruct (serves_revision w o obj s l rd Hs Hr) as [->| ->].
  - rewrite (bool_decide_false (is_Some (@None string))) by (intros [? ?]; done). rewrite andb_false_r. cbn [andb]. apply collect_exact_ok; [done|by rewrite Hrem|lia|exact Hc].
  - rewrite (bool_decide_true (ro_immutable_revision o = _)) by done. rewrite andb_false_r. apply collect_exact_ok; [done|by rewrite Hrem|lia|exact Hc].
Qed.
Lemma split_parts_ok (fuel : nat) (cursor end_ pb : Z) : 0 < pb <= VERIFY_WINDOW -> 0 <= cursor <= end_ -> end_ <= Z.of_nat (length obj) -> end_ - cursor <= Z.of_nat fuel * pb ->
  exists parts results, split_parts fuel cursor end_ pb = Ok parts /\ mapM (fetch_remote_part w o) parts = Ok results /\ concat results = zslice cursor (end_ - cursor) obj.
Proof.
  intros Hp. revert cursor. induction fuel as [|fuel IH]; intros cursor Hc He Hf.
  - exists [], []. split_and!; [done..|]. rewrite zslice_neg by lia. done.
  - cbn [split_parts]. destruct (Z.ltb_spec cursor end_) as [Hlt|Hge]; [|exists [], []; split_and!; [done..|]; rewrite zslice_neg by lia; done].
    set (l := Z.min pb (end_ - cursor)). assert (Hl : 0 < l <= pb /\ l <= end_ - cursor /\ (l = pb \/ l = end_ - cursor)) by (unfold l; lia). clearbody l.
    assert (Ht : CheckedRange_try_new cursor l = Some (mkRange cursor l)) by (unfold CheckedRange_try_new, CheckedRange_new; by rewrite checked_add_fits by lia).
    rewrite Ht. cbn [ok_or mbind result_bind]. rewrite wadd_u64_small by lia.
    destruct (IH (cursor + l)) as (parts & results & E1 & E2 & E3); [lia|lia|nia|]. rewrite E1. cbn [mbind result_bind]. exists (mkRange cursor l :: parts), (zslice cursor l obj :: results).
    split_and!; [done| |].
    + apply mapM_Ok. constructor; [apply fetch_part_ok; lia|by apply mapM_Ok].
    + cbn [concat]. rewrite E3. replace (end_ - (cursor + l)) with (end_ - cursor - l) by lia. rewrite zslice_glue by lia. f_equal. lia.
Qed.
Lemma fetch_range_ok (s l : Z) : 0 <= s -> 0 < l -> s + l <= Z.of_nat (length obj) -> l <= 68 + PAYLOAD_FRAME_BYTES -> fetch_remote_range w o (mkRange s l) = Ok (zslice s l obj).
Proof.
  intros H1 H2 H3 H4. assert (HF : PAYLOAD_FRAME_BYTES = 4194304) by reflexivity. assert (HB : SUBRANGE_BYTES = 1048576) by reflexivity. assert (HW : VERIFY_WINDOW = 4194304) by reflexivity. assert (HQ : SUBRANGE_PARALLELISM = 4) by reflexivity.
  unfold fetch_remote_range. cbn [len start]. destruct (Z.leb_spec l SUBRANGE_BYTES) as [Hsm|Hbig]; [apply fetch_part_ok; lia|].
  set (count := Z.min _ _). assert (Hc : 2 <= count <= 4) by (unfold count; pose proof (div_ceil_spec l SUBRANGE_BYTES ltac:(lia)); rewrite HB, HQ in *; lia). clearbody count.
  pose proof (div_ceil_spec l count ltac:(lia)) as Hpb. set (pb := div_ceil l count) in *. clearbody pb. rewrite HF, HB in *.
  assert (Hpb' : 0 < pb <= VERIFY_WINDOW /\ l <= 5 * pb) by (rewrite HW; nia).
  rewrite wadd_u64_small by lia. destruct (split_parts_ok 5 s (s + l) pb) as (parts & results & E1 & E2 & E3); [lia|lia|lia|lia|]. rewrite E1. cbn [mbind result_bind]. rewrite E2. cbn [mbind result_bind].
  rewrite E3. replace (s + l - s) with l by lia. by rewrite zslice_length, Z.eqb_refl by lia.
Qed.
End fetch_lemmas.

(** ** Lemmas: published payloads *)
Section published.
Context {C : Aead} {CL : AeadLaws C} {H : TreeHash} {HL : TreeHashLaws H} {HC : CollisionFree H} {W : Type} {B : ObjectBackend W} {PH : PayloadHost B} (key : list Z) (volume : Z).
(** The reference that the reader rebuilds from a record. *)
Definition reference_of (r : PayloadRemoteObject) : RemoteObjectRef :=
  mkRemote "drive" (pr_provider_object_id r) (pr_immutable_revision r) (pr_object_length r) (pr_object_hash r) KPayload.
(** The record [r] of the payload [P]: an object that holds the encoded payload
    at the member offset is served. *)
Record published_ok (w : W) (r : PayloadRemoteObject) (P : list Z) : Prop := mkPublishedOk {
  po_honest : honest r P;
  po_hash : pr_plaintext_hash r = th_hash P;
  po_ids : ProviderObjectId_new (chars (pr_provider_object_id r)) = Ok (pr_provider_object_id r) /\ opt_ok (fun v => ImmutableRevision_new (chars v) = Ok v) (pr_immutable_revision r);
  po_object : exists obj enc hs nonces, serves w (reference_of r) obj /\ th_hash obj = pr_object_hash r /\ Z.of_nat (length obj) <= i64_max /\ nonces_ok nonces /\
    encode_payload_object th_hash key volume (pr_payload_id r) nonces P = Ok (enc, hs) /\ 0 <= pr_member_offset r /\
    pr_member_offset r + Z.of_nat (length enc) <= Z.of_nat (length obj) /\ zslice (pr_member_offset r) (Z.of_nat (length enc)) obj = enc
}.
Notation in_payload P i := (0 <= i < payload_frame_count (Z.of_nat (length P))).
(** The location of a frame. *)
Definition frame_at (r : PayloadRemoteObject) (P : list Z) (i : Z) : FrameLocation :=
  let m := frame_chunk P i in
  mkLocation (mkFrameKey (pr_payload_id r) i (th_hash m) (Z.of_nat (length m)) (pr_object_hash r) (pr_member_offset r))
    (mkAad volume (pr_payload_id r) i (th_hash m) (Z.of_nat (length m)))
    (mkRange (pr_member_offset r + i * (68 + PAYLOAD_FRAME_BYTES)) (68 + Z.of_nat (length m))) (reference_of r).
(** What a catalog in the cache is: learned from the frame its key names. *)
Definition catalog_ok (k : FrameKey) (c : FrameProofCatalog) : Prop := forall obj, th_hash obj = fk_representation k -> exists m,
  learn_verified_frame key (zslice (fk_member_offset k + fk_index k * (68 + PAYLOAD_FRAME_BYTES)) (68 + fk_length k) obj)
    (mkAad volume (fk_payload k) (fk_index k) (fk_root k) (fk_length k)) = Ok (m, c).

Section one.
Context (w : W) (r : PayloadRemoteObject) (P obj enc : list Z) (hs : list Hash) (nonces : Z -> option (list Z)).
Context (Hh : honest r P) (Hids : ProviderObjectId_new (chars (pr_provider_object_id r)) = Ok (pr_provider_object_id r) /\ opt_ok (fun v => ImmutableRevision_new (chars v) = Ok v) (pr_immutable_revision r)).
Context (Hserves : serves w (reference_of r) obj) (Hrep : th_hash obj = pr_object_hash r) (Hobj : Z.of_nat (length obj) <= i64_max) (Hn : nonces_ok nonces).
Context (He : encode_payload_object th_hash key volume (pr_payload_id r) nonces P = Ok (enc, hs)) (Hm0 : 0 <= pr_member_offset r) (Hm : pr_member_offset r + Z.of_nat (length enc) <= Z.of_nat (length obj))
  (Hz : zslice (pr_member_offset r) (Z.of_nat (length enc)) obj = enc) (HP : Z.of_nat (length P) <= i64_max).

Lemma frame_bytes i : in_payload P i -> exists nonce f, length nonce = NONCE_LENGTH /\ encode_encrypted_frame th_hash key (Some nonce) (frame_chunk P i) (fl_aad (frame_at r P i)) = Ok f /\
  f = zslice (pr_member_offset r + i * (68 + PAYLOAD_FRAME_BYTES)) (68 + Z.of_nat (length (frame_chunk P i))) obj /\ Z.of_nat (length f) = 68 + Z.of_nat (length (frame_chunk P i)) /\
  i * (68 + PAYLOAD_FRAME_BYTES) + (68 + Z.of_nat (length (frame_chunk P i))) <= Z.of_nat (length enc) /\ 0 <= i * (68 + PAYLOAD_FRAME_BYTES).
Proof.
  intros Hi. destruct (encoded_frame_at th_hash key volume (pr_payload_id r) nonces P enc hs i Hn HP He Hi) as (nonce & f & En & Ef & Hzf & _). assert (Hi0 : 0 <= i * (68 + PAYLOAD_FRAME_BYTES)) by (apply Z.mul_nonneg_nonneg; [lia|done]).
  pose proof (frame_length th_hash _ _ _ _ _ (Hn _ _ En) Ef) as Hl. set (n := 68 + Z.of_nat (length (frame_chunk P i))) in *.
  assert (Hin : i * (68 + PAYLOAD_FRAME_BYTES) + n <= Z.of_nat (length enc)).
  { assert (Hlz : Z.of_nat (length (zslice (i * (68 + PAYLOAD_FRAME_BYTES)) n enc)) = n) by (rewrite Hzf; unfold n; lia). unfold zslice in Hlz. rewrite length_take, length_drop in Hlz. unfold n in *. lia. }
  exists nonce, f. split_and!; [by apply (Hn i)|exact Ef| |unfold n; lia|done|done]. rewrite <- Hzf, <- Hz. rewrite zslice_zslice by lia. f_equal.
Qed.
Lemma location_ok i : in_payload P i -> location volume 68 r i = Ok (frame_at r P i).
Proof.
  intros Hi. destruct (frame_bytes i Hi) as (nonce & f & _ & _ & _ & _ & Hin & Hi0). destruct Hh as [Hlen Hhs]. destruct Hids as [Hid Hrev]. pose proof (serves_length _ _ _ Hserves) as Hol. cbn [ro_byte_length reference_of] in Hol.
  destruct (frame_chunk_length P i Hi) as (Hcl & _). assert (HF : PAYLOAD_FRAME_BYTES = 4194304) by reflexivity.
  unfold location, column_u64. rewrite Hlen, Hol. rewrite !(proj2 (Z.leb_le 0 _)) by lia. cbn [mbind result_bind]. rewrite (payload_frame_range_spec (Z.of_nat (length P)) i P) by done. cbn [ok_or mbind result_bind].
  assert (Hbig : u64_max = 18446744073709551615 /\ i64_max = 9223372036854775807) by done. destruct Hbig as [HU HI].
  rewrite checked_add_fits by lia. cbn [ok_or mbind result_bind]. assert (HR : CheckedRange_new (pr_member_offset r + i * (68 + PAYLOAD_FRAME_BYTES)) (68 + Z.of_nat (length (frame_chunk P i))) =
    Ok (mkRange (pr_member_offset r + i * (68 + PAYLOAD_FRAME_BYTES)) (68 + Z.of_nat (length (frame_chunk P i))))) by (unfold CheckedRange_new; by rewrite checked_add_fits by lia).
  rewrite HR. cbn [as_integrity mbind result_bind]. unfold end_exclusive. cbn [start len]. rewrite checked_add_fits by lia. rewrite (proj2 (Z.ltb_ge _ _)) by lia.
  pose proof (payload_frame_count_spec (Z.of_nat (length P)) ltac:(lia)) as (_ & Hc & _).
  assert (Hmul : checked_mul i PAYLOAD_FRAME_BYTES = Some (i * PAYLOAD_FRAME_BYTES)) by (unfold checked_mul; rewrite (proj2 (Z.leb_le _ _)); [done|rewrite HF in *; lia]). rewrite Hmul. cbn [ok_or mbind result_bind].
  assert (Hsub : checked_sub (Z.of_nat (length P)) (i * PAYLOAD_FRAME_BYTES) = Some (Z.of_nat (length P) - i * PAYLOAD_FRAME_BYTES)) by (unfold checked_sub; rewrite (proj2 (Z.leb_le _ _)); [done|rewrite HF in *; lia]). rewrite Hsub. cbn [ok_or mbind result_bind].
  assert (Hroot : pr_frame_hashes r !! Z.to_nat i = Some (th_hash (frame_chunk P i))).
  { rewrite Hhs, list_lookup_fmap. unfold zrange. rewrite list_lookup_fmap, lookup_seq_lt by lia. cbn. do 3 f_equal. lia. }
  rewrite Hroot. cbn [ok_or mbind result_bind]. change (BackendId_new (chars "drive")) with (Ok "drive"%string). cbn [as_backend mbind result_bind]. rewrite Hid. cbn [as_backend mbind result_bind].
  assert (Hplain : Z.min (Z.of_nat (length P) - i * PAYLOAD_FRAME_BYTES) PAYLOAD_FRAME_BYTES = Z.of_nat (length (frame_chunk P i))) by (rewrite HF in *; lia). rewrite Hplain.
  destruct (pr_immutable_revision r) as [v|] eqn:Er; cbn [opt_ok] in Hrev; [rewrite Hrev; cbn [as_integrity mbind result_bind]|cbn [mbind result_bind]]; unfold frame_at, reference_of; rewrite Er, Hol; done.
Qed.
Lemma env_ok i : in_payload P i -> frame_env key w catalog_ok True (frame_at r P i) (frame_chunk P i).
Proof.
  intros Hi. destruct (frame_bytes i Hi) as (nonce & f & Hnl & Ef & Hf & Hfl & Hin & Hi0). destruct (frame_chunk_length P i Hi) as (Hcl & [_ Hmax] & _). assert (HF : PAYLOAD_FRAME_BYTES = 4194304) by reflexivity.
  assert (HU : u64_max = 18446744073709551615 /\ i64_max = 9223372036854775807) by done. destruct HU as [HU HI].
  assert (Hfetch : fetch_remote_range w (reference_of r) (mkRange (pr_member_offset r + i * (68 + PAYLOAD_FRAME_BYTES)) (68 + Z.of_nat (length (frame_chunk P i)))) = Ok f).
  { rewrite Hf. apply (fetch_range_ok w (reference_of r) obj Hserves); lia. }
  pose proof (decode_encode th_hash key nonce (frame_chunk P i) (fl_aad (frame_at r P i)) f Hnl Ef) as Hdec. cbn [frame_at fl_aad fa_repository fa_pack_id fa_frame_index fa_plaintext_hash] in Hdec.
  assert (Hlearn : exists c, learn_verified_frame key f (fl_aad (frame_at r P i)) = Ok (frame_chunk P i, c)).
  { unfold learn_verified_frame. cbn [frame_at fl_aad fa_plaintext_length]. rewrite (proj2 (Z.ltb_ge _ _)) by (change MAX_VERIFIED_FRAME_BYTES with PAYLOAD_FRAME_BYTES; lia). rewrite Hdec. cbn [mbind result_bind]. eauto. }
  split; cbn [frame_at fl_key fl_aad fl_range fl_reference fk_root fk_length fa_plaintext_hash fa_plaintext_length start len] in *.
  - done.
  - done.
  - done.
  - intros e c Hfe Hl obj' Ho. cbn [fk_representation fk_member_offset fk_index fk_length fk_payload fk_root] in *. assert (obj' = obj) as -> by (apply hash_injective; congruence).
    rewrite Hfetch in Hfe. injection Hfe as <-. exists (frame_chunk P i). by rewrite <- Hf.
  - intros _. destruct Hlearn as [c Hc]. exists f, c. by split_and!.
  - intros _ c j Hc Hj Hjl. destruct (Hc obj Hrep) as [m' Hc']. cbn [fk_member_offset fk_index fk_length fk_payload fk_root] in Hc'. rewrite <- Hf in Hc'. set (at_ := j * VERIFIED_SECTOR_BYTES) in *.
    assert (Hat : 0 <= at_) by (unfold at_; change VERIFIED_SECTOR_BYTES with 65536; lia).
    assert (HS : VERIFIED_SECTOR_BYTES = 65536) by reflexivity. set (n := Z.min VERIFIED_SECTOR_BYTES (Z.of_nat (length (frame_chunk P i)) - at_)).
    destruct (sector_decodes key (frame_chunk P i) (fl_aad (frame_at r P i)) j eq_refl ltac:(change MAX_VERIFIED_FRAME_BYTES with PAYLOAD_FRAME_BYTES; lia) eq_refl Hj Hjl nonce f Hnl Ef) as (c' & Hl & Hd).
    cbn [frame_at fl_aad] in Hl, Hd. assert (c' = c) as -> by congruence. fold at_ in Hd. fold n in Hd.
    exists (pr_member_offset r + i * (68 + PAYLOAD_FRAME_BYTES) + 52 + at_), (mkRange (pr_member_offset r + i * (68 + PAYLOAD_FRAME_BYTES) + 52 + at_) n), (zslice (52 + at_) n f).
    exists (zslice at_ n (frame_chunk P i)). split_and!.
    + rewrite checked_add_fits by lia. cbn. rewrite checked_add_fits by lia. done.
    + rewrite wsub_u64_small by lia. fold n. unfold CheckedRange_new. rewrite checked_add_fits by (unfold n; lia). done.
    + rewrite (fetch_part_ok w (reference_of r) obj Hserves); [|lia|lia|unfold n; lia|unfold n; lia|unfold n; change VERIFY_WINDOW with 4194304; lia].
      f_equal. rewrite Hf. rewrite zslice_zslice by (unfold n; lia). f_equal. lia.
    + exact Hd.
Qed.
End one.

Lemma published_env w r P : published_ok w r P -> Z.of_nat (length P) <= i64_max -> honest r P /\
  (forall i l, in_payload P i -> location volume 68 r i = Ok l -> frame_env key w catalog_ok True l (frame_chunk P i)) /\
  (True -> forall i, in_payload P i -> exists l, location volume 68 r i = Ok l).
Proof.
  intros [Hh _ Hids (obj & enc & hs & nonces & H1 & H2 & H3 & H4 & H5 & H6 & H7 & H8)] HP. split_and!; [done| |].
  - intros i l Hi Hl. rewrite (location_ok w r P obj enc hs nonces) in Hl by done. injection Hl as <-. by apply (env_ok w r P obj enc hs nonces).
  - intros _ i Hi. exists (frame_at r P i). by apply (location_ok w r P obj enc hs nonces).
Qed.
End published.

Section publishing.
Context {C : Aead} {CL : AeadLaws C} {H : TreeHash} {HL : TreeHashLaws H} {HC : CollisionFree H} {W : Type} {B : ObjectBackend W} {PH : PayloadHost B} (key : list Z) (volume : Z).
Context (contents : Z -> list Z).
(** Every record of the volume is of its payload. *)
Definition recorded_ok (w : W) (t : gmap Z PayloadRemoteObject) : Prop :=
  forall id r, t !! id = Some r -> pr_payload_id r = id /\ 0 <= id < 2 ^ 128 /\ (pr_volume_id r = volume -> published_ok key volume w r (contents id)).
(** Caches that hold verified bytes and proofs. *)
Definition store_ready (w : W) (s : RemotePayloadStore) : Prop :=
  store_ok (catalog_ok key volume) (fun id o => forall r, o = Some r -> published_ok key volume w r (contents id)) s.

Lemma store_ok_pub (Good : FrameKey -> FrameProofCatalog -> Prop) (Pub Pub' : Z -> option PayloadRemoteObject -> Prop) s :
  store_ok Good Pub s -> (forall id o, sp_publications s !! id = Some o -> Pub id o -> Pub' id o) -> store_ok Good Pub' s.
Proof. intros [? ? ? ? ? ? Hpub ?] Hp. split; [done..| |done]. intros id o Ho. apply Hp; [done|by apply Hpub]. Qed.
(** A read of a recorded payload. *)
Lemma read_recorded (CATALOG_BYTES : Z) (w : W) (d : LedgerDb) (id : Z) (r : PayloadRemoteObject) (s : RemotePayloadStore) (offset length_ : Z) (cancelled : nat -> bool) :
  recorded_ok w (ld_remote d) -> ld_remote d !! id = Some r -> pr_volume_id r = volume -> store_ready w s -> sp_publications s !! id <> Some None ->
  Z.of_nat (length (contents id)) <= i64_max -> 0 <= offset -> 0 <= length_ -> offset + length_ <= Z.of_nat (length (contents id)) -> (forall n, cancelled n = false) ->
  (exists s', read_inner key volume 68 w CATALOG_BYTES (payload_publication d) true volume id offset length_ cancelled s = (Ok (Some (zslice offset length_ (contents id))), s') /\ store_ready w s' /\ sp_publications s' !! id <> Some None) /\
  (exists s' r', fetch_whole key volume 68 w CATALOG_BYTES (payload_publication d) true volume id cancelled s = (Ok (Some (contents id, r')), s') /\ store_ready w s' /\ sp_publications s' !! id <> Some None).
Proof.
  intros Hrec Hr Hv Hs Hnn HP Ho Hl Hin Hcan. set (Pub := fun (i : Z) (o : option PayloadRemoteObject) => (forall r, o = Some r -> published_ok key volume w r (contents i)) /\ (i = id -> o <> None)).
  assert (HU : u64_max = 18446744073709551615 /\ i64_max = 9223372036854775807) by done.
  assert (Hs' : store_ok (catalog_ok key volume) Pub s) by (eapply store_ok_pub; [exact Hs|]; intros i o E Hp; split; [exact Hp|]; intros -> ->; done).
  assert (Hback : forall s', store_ok (catalog_ok key volume) Pub s' -> store_ready w s' /\ sp_publications s' !! id <> Some None).
  { intros s' H'. split; [eapply store_ok_pub; [exact H'|]; by intros i o _ [Hp _]|]. intros E. destruct (so_publication _ _ _ H' _ _ E) as [_ Hp]. by apply Hp. }
  assert (Hdb : payload_publication d volume id = Ok (Some r)) by (unfold payload_publication; by rewrite Hr, Hv, Z.eqb_refl).
  destruct (Hrec id r Hr) as (_ & _ & Hpo). specialize (Hpo Hv).
  assert (Hpub : forall r0, Pub id (Some r0) -> honest r0 (contents id) /\ (forall i l, 0 <= i < payload_frame_count (Z.of_nat (length (contents id))) ->
    location volume 68 r0 i = Ok l -> frame_env key w (catalog_ok key volume) True l (frame_chunk (contents id) i)) /\
    (True -> forall i, 0 <= i < payload_frame_count (Z.of_nat (length (contents id))) -> exists l, location volume 68 r0 i = Ok l)) by (intros r0 [Hp _]; apply (published_env key volume w r0 (contents id)); [by apply Hp|done]).
  assert (Hdb' : forall o, payload_publication d volume id = Ok o -> Pub id o) by (rewrite Hdb; intros o [= <-]; split; [by intros ? [= <-]|done]).
  assert (Hlive : forall o n, o + n <= Z.of_nat (length (contents id)) -> True -> true = true /\ o + n <= Z.of_nat (length (contents id)) <= u64_max /\ ~ Pub id None /\ (forall n, cancelled n = false) /\ exists o, payload_publication d volume id = Ok o).
  { intros o n Hon _. split_and!; [done|done|lia| |done|eauto]. intros [_ Hp]. by apply Hp. }
  split.
  - destruct (tri_read_inner key volume 68 w CATALOG_BYTES (payload_publication d) true (catalog_ok key volume) Pub True id (contents id) offset length_ cancelled Ho Hl Hpub Hdb' (Hlive offset length_ Hin) s Hs') as (T1 & T2 & T3).
    destruct (T3 I) as [out E]. specialize (T2 out E). destruct (read_inner _ _ _ _ _ _ _ _ _ _ _ _ s) as [r' s'']. cbn [fst snd] in *. subst r'. exists s''. destruct out as [out|]; [|done]. destruct T2 as [-> _]. split; [done|by apply Hback].
  - destruct (tri_fetch_whole key volume 68 w CATALOG_BYTES (payload_publication d) true (catalog_ok key volume) Pub True id (contents id) 0 (Z.of_nat (length (contents id))) cancelled ltac:(lia) ltac:(lia) Hpub Hdb' (Hlive 0 (Z.of_nat (length (contents id))) ltac:(lia)) eq_refl eq_refl) with (s := s) as (T1 & T2 & T3).
    { intros _ r0 [Hp _]. apply (po_hash _ _ _ _ _ (Hp r0 eq_refl)). }
    { exact Hs'. }
    destruct (T3 I) as [out E]. specialize (T2 out E). destruct (fetch_whole _ _ _ _ _ _ _ _ _ _ s) as [r' s'']. cbn [fst snd] in *. subst r'. destruct out as [[b r0]|]; [|done]. subst b. exists s'', r0. split; [done|by apply Hback].
Qed.

(** What a member of an object is. *)
Record member_ok (files : JournalFiles) (object : list Z) (unit : PublishUnit) (m : EncodedMember) : Prop := mkMemberOk {
  mo_unit : em_payload m ∈ unit;
  mo_encoded : exists P enc nonces, files !! un_path (em_payload m) = Some P /\ (forall h, un_checksum (em_payload m) = Some h -> th_hash P = h) /\ nonces_ok nonces /\
    encode_payload_object th_hash key volume (un_payload_id (em_payload m)) nonces P = Ok (enc, em_frame_hashes m) /\ em_plaintext_length m = Z.of_nat (length P) /\ em_plaintext_hash m = th_hash P /\
    0 <= em_member_offset m /\ em_member_offset m + Z.of_nat (length enc) <= Z.of_nat (length object) /\ zslice (em_member_offset m) (Z.of_nat (length enc)) object = enc
}.
Lemma member_ok_app files object extra unit unit' m : member_ok files object unit m -> member_ok files (object ++ extra) (unit ++ unit') m.
Proof.
  intros [Hu (P & enc & nonces & H1 & H2 & H3 & H4 & H5 & H6 & H7 & H8 & H9)]. split; [apply elem_of_app; by left|]. exists P, enc, nonces. split_and!; [done..| |].
  - rewrite length_app. lia.
  - unfold zslice in *. rewrite drop_app_le by lia. rewrite take_app_le; [done|]. rewrite length_drop. lia.
Qed.
Lemma encode_members_ok files nonces unit : (forall id, nonces_ok (nonces id)) -> forall done_ object members stats object' members' stats',
  Forall (member_ok files object done_) members -> encode_members key volume files nonces unit object members stats = (object', members', stats') -> Forall (member_ok files object' (done_ ++ unit)) members'.
Proof.
  intros Hn. induction unit as [|p unit IH]; intros done_ object members stats object' members' stats' Hm; cbn [encode_members].
  - intros [= <- <- _]. by rewrite app_nil_r.
  - replace (done_ ++ p :: unit) with ((done_ ++ [p]) ++ unit) by (by rewrite <- app_assoc).
    assert (Hskip : Forall (member_ok files object (done_ ++ [p])) members).
    { eapply Forall_impl; [exact Hm|]. cbn. intros m Hmm. rewrite <- (app_nil_r object). by apply member_ok_app. }
    unfold encode_member. destruct (files !! un_path p) as [P|] eqn:Ef; [|by apply IH].
    destruct (match un_checksum p with Some expected => negb (th_hash P =? expected) | None => false end) eqn:Ec; [by apply IH|].
    destruct (encode_payload_object th_hash key volume (un_payload_id p) (nonces (un_payload_id p)) P) as [[enc hs]|] eqn:Ee; [|by apply IH]. apply IH. apply Forall_app. split.
    + eapply Forall_impl; [exact Hm|]. cbn. intros m. apply member_ok_app.
    + apply Forall_singleton. split; cbn [em_payload]; [apply elem_of_app; right; by left|]. exists P, enc, (nonces (un_payload_id p)). cbn [em_payload em_frame_hashes em_plaintext_length em_plaintext_hash em_member_offset].
      split_and!; [done| |apply Hn|done|done|done|lia|rewrite length_app; lia|].
      * intros h Eh. rewrite Eh in Ec. apply negb_false_iff, Z.eqb_eq in Ec. done.
      * unfold zslice. rewrite !Nat2Z.id, drop_app_length. by apply take_ge.
Qed.

(** The record of a member is right once the readback has passed. *)
Lemma record_published files object unit m w o now : member_ok files object unit m -> (forall p, p ∈ unit -> un_checksum p = Some (th_hash (contents (un_payload_id p)))) ->
  serves w (as_drive o) object -> ro_content_hash o = th_hash object -> ro_byte_length o = Z.of_nat (length object) -> ro_kind o = KPayload ->
  ProviderObjectId_new (chars (ro_provider_object_id o)) = Ok (ro_provider_object_id o) -> opt_ok (fun r => ImmutableRevision_new (chars r) = Ok r) (ro_immutable_revision o) -> Z.of_nat (length object) <= i64_max ->
  published_ok key volume w (member_record volume o (th_hash object) (Z.of_nat (length object)) now m) (contents (un_payload_id (em_payload m))).
Proof.
  intros [Hu (P & enc & nonces & H1 & H2 & H3 & H4 & H5 & H6 & H7 & H8 & H9)] Hsum Hs Hh Hl Hk Hid Hrev Hmax. specialize (H2 _ (Hsum _ Hu)). apply hash_injective in H2. subst P.
  destruct (encoded_shape th_hash key volume (un_payload_id (em_payload m)) nonces _ enc (em_frame_hashes m) H3 H4) as (_ & Hlen & Ehs). cbv zeta in Hlen.
  pose proof (payload_frame_count_spec (Z.of_nat (length (contents (un_payload_id (em_payload m))))) ltac:(lia)) as (Hc1 & _).
  assert (Hsmall : forall x, x <= i64_max -> i64_or_max x = x) by (intros x Hx; unfold i64_or_max; by rewrite (proj2 (Z.leb_le _ _))). split.
  - split; cbn [member_record pr_plaintext_length pr_frame_hashes]; [rewrite H5; apply Hsmall; lia|exact Ehs].
  - done.
  - done.
  - exists object, enc, (em_frame_hashes m), nonces. unfold reference_of, member_record. cbn [pr_provider_object_id pr_immutable_revision pr_object_length pr_object_hash pr_payload_id pr_member_offset].
    rewrite !Hsmall by lia. split_and!; [|done..]. destruct o. unfold as_drive in Hs. cbn in *. by subst.
Qed.
Lemma published_ok_serving w w' r P : (forall o b, serves w o b -> serves w' o b) -> published_ok key volume w r P -> published_ok key volume w' r P.
Proof. intros Hs [H1 H2 H3 (obj & enc & hs & nonces & H4 & H5)]. split; [done..|]. exists obj, enc, hs, nonces. split; [by apply Hs|done]. Qed.
(** Records stay, with their volume. *)
Definition extends_volume (t t' : gmap Z PayloadRemoteObject) : Prop := forall id r, t !! id = Some r -> exists r', t' !! id = Some r' /\ pr_volume_id r' = pr_volume_id r.
Lemma upsert_recorded w r t t' : recorded_ok w t -> 0 <= pr_payload_id r < 2 ^ 128 -> published_ok key volume w r (contents (pr_payload_id r)) -> upsert_remote r t = Ok t' ->
  recorded_ok w t' /\ extends_volume t t' /\ is_Some (t' !! pr_payload_id r).
Proof.
  intros Ht Hr Hp. unfold upsert_remote. destruct (fits_at _ _ _ _ _); [|done]. intros [= <-]. split_and!.
  - intros id x. destruct (decide (id = pr_payload_id r)) as [->|Hne]; [|rewrite lookup_insert_ne by congruence; apply Ht]. rewrite lookup_insert_eq. intros [= <-]. destruct (t !! pr_payload_id r) as [old|] eqn:Eo.
    + destruct (Ht _ _ Eo) as (Hid & _ & _). split_and!; [exact Hid|lia..|]. intros _. destruct Hp as [[P1 P2] P3 P4 P5]. cbn in P1, P2, P3, P4. split; [by split|done|done|].
      unfold reference_of, excluded. cbn [pr_provider_object_id pr_immutable_revision pr_object_length pr_object_hash pr_payload_id pr_member_offset]. by rewrite Hid.
    + split_and!; [done|lia..|done].
  - intros id x Hx. destruct (decide (id = pr_payload_id r)) as [->|Hne]; [rewrite lookup_insert_eq, Hx; by eexists|rewrite lookup_insert_ne by congruence; eauto].
  - rewrite lookup_insert_eq. eauto.
Qed.
Definition of_volume (t : gmap Z PayloadRemoteObject) (id : Z) : Prop := forall r, t !! id = Some r -> pr_volume_id r = volume.
Lemma upsert_volume r t t' id : pr_volume_id r = volume -> upsert_remote r t = Ok t' -> of_volume t id -> of_volume t' id.
Proof.
  intros Hv. unfold upsert_remote. destruct (fits_at _ _ _ _ _); [|done]. intros [= <-] Ho x [[<- <-]|[_ Hx]]%lookup_insert_Some; [|by apply Ho].
  destruct (t !! pr_payload_id r) as [old|] eqn:E; [exact (Ho _ E)|done].
Qed.
Lemma record_all w rs d d' : recorded_ok w (ld_remote d) -> Forall (fun r => 0 <= pr_payload_id r < 2 ^ 128 /\ pr_volume_id r = volume /\ published_ok key volume w r (contents (pr_payload_id r))) rs ->
  record_payload_publications rs d = Ok d' -> recorded_ok w (ld_remote d') /\ ld_vol d' = ld_vol d /\ extends_volume (ld_remote d) (ld_remote d') /\
  Forall (fun r => of_volume (ld_remote d) (pr_payload_id r) -> exists r', ld_remote d' !! pr_payload_id r = Some r' /\ pr_volume_id r' = volume) rs.
Proof.
  unfold record_payload_publications. intros Hd Hrs. revert d Hd. induction Hrs as [|r rs (Hr & Hv & Hp) Hrs IH]; intros d Hd; cbn [for_fold].
  - intros [= <-]. split_and!; [done|done|intros id r Hr; eauto|constructor].
  - intros (d1 & H1 & H2)%bind_Ok_inv. unfold record_payload_publication_in in H1. destruct (negb _); [done|]. apply bind_Ok_inv in H1 as (t & Ht & [= <-]).
    destruct (upsert_recorded w r _ t Hd Hr Hp Ht) as (U1 & U2 & r' & U3). destruct (IH (mkLedger (ld_vol d) t) U1 H2) as (I1 & I2 & I3 & I4). cbn [ld_vol ld_remote] in *. split_and!; [done|done| |].
    + intros i x Hx. destruct (U2 i x Hx) as (x1 & Hx1 & V1). destruct (I3 i x1 Hx1) as (x2 & Hx2 & V2). exists x2. split; [done|congruence].
    + constructor.
      * intros Hold. destruct (I3 _ _ U3) as (x2 & Hx2 & V2). exists x2. split; [done|]. rewrite V2. by apply (upsert_volume r _ t (pr_payload_id r) Hv Ht Hold).
      * eapply Forall_impl; [exact I4|]. cbn. intros x Hx Hold. by apply Hx, (upsert_volume r _ t _ Hv Ht).
Qed.
End publishing.

(** ** Lemmas: units and passes *)
Section passes.
Context {C : Aead} {CL : AeadLaws C} {H : TreeHash} {HL : TreeHashLaws H} {HC : CollisionFree H} {W : Type} {B : ObjectBackend W} {PH : PayloadHost B} (key : list Z) (volume : Z).
Context (contents : Z -> list Z) (files : JournalFiles) (nonces : Z -> Z -> option (list Z)) (now_ns : Z).
Notation PubState := (@PubState W).
Notation recorded s := (recorded_ok key volume contents (pu_backend s) (ld_remote (pu_db s))).
(** The rows of a unit carry the checksum of their payload; the object of a
    unit is a vector, so its length is an [isize]. *)
Definition unit_row (p : UnpublishedPayload) : Prop := 0 <= un_payload_id p < 2 ^ 128 /\ un_checksum p = Some (th_hash (contents (un_payload_id p))).
Definition object_fits (unit : PublishUnit) : Prop := forall stats, Z.of_nat (length (encode_members key volume files nonces unit [] [] stats).1.1) <= i64_max.
(** How a pass may change the state. *)
Definition pub_moves (s s' : PubState) : Prop :=
  ld_vol (pu_db s') = ld_vol (pu_db s) /\ extends_volume (ld_remote (pu_db s)) (ld_remote (pu_db s')) /\ (forall o b, serves (pu_backend s) o b -> serves (pu_backend s') o b).
Lemma pub_moves_refl s : pub_moves s s.
Proof. split_and!; [done|intros id r Hr; eauto|done]. Qed.
Lemma pub_moves_trans s1 s2 s3 : pub_moves s1 s2 -> pub_moves s2 s3 -> pub_moves s1 s3.
Proof.
  intros (V1 & E1 & S1) (V2 & E2 & S2). split_and!; [congruence| |by intros o b Ho; apply S2, S1]. intros id r Hr. destruct (E1 id r Hr) as (r1 & Hr1 & ?). destruct (E2 id r1 Hr1) as (r2 & ? & ?). exists r2. split; [done|congruence].
Qed.
Context (Hn : forall id, nonces_ok (nonces id)).

(** An intact payload with nonces becomes a member. *)
Lemma encode_members_total unit p : p ∈ unit -> unit_row p -> files !! un_path p = Some (contents (un_payload_id p)) -> (forall i, is_Some (nonces (un_payload_id p) i)) ->
  forall object members stats, let '(_, members', _) := encode_members key volume files nonces unit object members stats in exists m, m ∈ members' /\ em_payload m = p.
Proof.
  intros Hp [_ Hc] Hf Hall. assert (Hkeep : forall u object members stats m, m ∈ members -> m ∈ (encode_members key volume files nonces u object members stats).1.2).
  { induction u as [|q u IH]; intros object members stats m Hm; cbn [encode_members]; [done|]. destruct (encode_member _ _ _ _ _ _ _) as [[[m1 e1]|] st]; apply IH; [apply elem_of_app; by left|done]. }
  induction unit as [|q unit IH]; [by apply elem_of_nil in Hp|]. intros object members stats. cbn [encode_members]. apply elem_of_cons in Hp as [<-|Hp].
  - destruct (encode_object_total th_hash key volume (un_payload_id p) (nonces (un_payload_id p)) (contents (un_payload_id p))) as (enc & hs & He); [intros i; destruct (Hall i) as [n En]; exists n; split; [done|by apply (Hn _ _ _ En)]|].
    unfold encode_member. rewrite Hf, Hc, Z.eqb_refl. cbn [negb]. rewrite He.
    match goal with |- context [encode_members key volume files nonces unit ?o (members ++ [?m]) ?st] => pose proof (Hkeep unit o (members ++ [m]) st m ltac:(apply elem_of_app; right; by left)) as Hin; destruct (encode_members key volume files nonces unit o (members ++ [m]) st) as [[? ms] ?]; exists m end.
    by split.
  - destruct (encode_member _ _ _ _ _ _ _) as [[[m1 e1]|] st]; by apply IH.
Qed.
Lemma recorded_serving t w w' : (forall o b, serves w o b -> serves w' o b) -> recorded_ok key volume contents w t -> recorded_ok key volume contents w' t.
Proof. intros Hs Ht id r Hr. destruct (Ht id r Hr) as (H1 & H2 & Hp). refine (conj H1 (conj H2 _)). intros Hv. eapply published_ok_serving; [exact Hs|by apply Hp]. Qed.
(** One unit: the records stay right, and on success hold its intact members. *)
Lemma publish_unit_ok unit s : Forall unit_row unit -> object_fits unit -> recorded s -> let '(r, s') := publish_unit key volume files nonces now_ns unit s in
  recorded s' /\ pub_moves s s' /\ (r = inr tt -> forall p, p ∈ unit -> of_volume volume (ld_remote (pu_db s)) (un_payload_id p) -> files !! un_path p = Some (contents (un_payload_id p)) -> (forall i, is_Some (nonces (un_payload_id p) i)) ->
    exists r', ld_remote (pu_db s') !! un_payload_id p = Some r' /\ pr_volume_id r' = volume).
Proof.
  intros Hrows Hfit Hrec. unfold publish_unit. specialize (Hfit (pu_stats s)). assert (Htot := fun p Hp Hr Hf Ha => encode_members_total unit p Hp Hr Hf Ha [] [] (pu_stats s)).
  pose proof (encode_members_ok key volume files nonces unit Hn [] [] [] (pu_stats s)) as Hmem.
  destruct (encode_members key volume files nonces unit [] [] (pu_stats s)) as [[object members] stats]. cbn [fst snd] in Hfit. specialize (Hmem object members stats (Forall_nil_2 _) eq_refl). cbn [app] in Hmem.
  destruct (_ =? 0)%nat; [refine (conj Hrec (conj (conj eq_refl (conj _ _)) _)); [intros i x Hx; eauto|done|done]|]. cbn [pu_backend pu_db pu_stats]. destruct (put_immutable KPayload _ _ false (pu_backend s)) as [res w] eqn:Ep.
  pose proof (fun o b => put_serving _ _ _ _ _ o b Ep) as Hsv. pose proof (recorded_serving _ _ _ Hsv Hrec) as Hrec'. assert (Hmv : forall st, pub_moves s (mkPubState (pu_db s) w st)) by (intros st; split_and!; [done|intros i x Hx; eauto|exact Hsv]).
  destruct res as [err|o]; [refine (conj Hrec' (conj (Hmv _) _)); done|]. destruct (_ || _) eqn:Eid; [refine (conj Hrec' (conj (Hmv _) _)); done|].
  destruct (verify_object_bytes th_hash w o false) as [err|[]] eqn:Ev; [destruct (bool_decide (be_class err = Integrity)); (refine (conj Hrec' (conj (Hmv _) _)); done)|].
  zbool. destruct (put_serves _ _ _ _ _ Ep) as (b & Hb & Hdb). destruct (put_named _ _ _ _ _ Ep) as (Hpid & Hrev). pose proof (serves_length _ _ _ Hb) as Hlb.
  assert (b = object) as ->.
  { assert (HU : u64_max = 18446744073709551615 /\ i64_max = 9223372036854775807) by done. rewrite (verify_reads th_hash VERIFY_WINDOW w o b) in Ev by (done || lia || by apply serves_reads). unfold be_fail_if in Ev.
    destruct (Z.eqb_spec (th_hash b) (ro_content_hash o)) as [E|]; [|done]. apply hash_injective. congruence. }
  match goal with H : bool_decide (ro_kind o = KPayload) = true |- _ => apply bool_decide_eq_true in H end.
  destruct (record_payload_publications _ _) as [db|e] eqn:Er; [|refine (conj Hrec' (conj (Hmv _) _)); done].
  assert (Hall : Forall (fun r => 0 <= pr_payload_id r < 2 ^ 128 /\ pr_volume_id r = volume /\ published_ok key volume w r (contents (pr_payload_id r))) (map (member_record volume o (th_hash object) (Z.of_nat (length object)) now_ns) members)).
  { apply Forall_fmap. eapply Forall_impl; [exact Hmem|]. cbn. intros m Hm. assert (Hmu : unit_row (em_payload m)) by (eapply Forall_forall in Hrows; [exact Hrows|by apply (mo_unit _ _ _ _ _ _ Hm)]). split_and!; [by apply Hmu..|done|].
    apply (record_published key volume contents files object unit m w o now_ns Hm); [|done..]. intros p Hp. eapply Forall_forall in Hrows; [|exact Hp]. by apply Hrows. }
  destruct (record_all key volume contents w _ (pu_db s) db Hrec' Hall Er) as (R1 & R2 & R3 & R4). cbn [pu_backend pu_db]. split_and!; [exact R1|split_and!; [exact R2|exact R3|exact Hsv]|].
  intros _ p Hp Hov Hf Ha. assert (Hpr : unit_row p) by (eapply Forall_forall in Hrows; [exact Hrows|exact Hp]). destruct (Htot p Hp Hpr Hf Ha) as (m & Hm & Em).
  apply Forall_fmap in R4. eapply Forall_forall in R4; [|exact Hm]. cbn in R4. rewrite Em in R4. by apply R4.
Qed.
Lemma publish_batch_ok batch s : Forall (Forall unit_row) batch -> Forall object_fits batch -> recorded s -> let '(_, s') := publish_batch key volume files nonces now_ns batch s in recorded s' /\ pub_moves s s'.
Proof.
  revert s. induction batch as [|unit batch IH]; intros s Hr Hf Hs; cbn [publish_batch]; [split; [done|apply pub_moves_refl]|]. apply Forall_cons in Hr as [Hr1 Hr2]. apply Forall_cons in Hf as [Hf1 Hf2].
  pose proof (publish_unit_ok unit s Hr1 Hf1 Hs) as Hu. destruct (publish_unit _ _ _ _ _ _ _) as [r s1]. destruct Hu as (Hs1 & Hm1 & _). specialize (IH s1 Hr2 Hf2 Hs1). destruct (publish_batch _ _ _ _ _ _ _) as [rs s2].
  destruct IH as [Hs2 Hm2]. split; [done|]. by eapply pub_moves_trans.
Qed.
Lemma publish_pass_ok fuel rates units cursor cap s : Forall (Forall unit_row) units -> Forall object_fits units -> recorded s ->
  let '(_, _, s') := publish_pass key volume fuel files nonces now_ns rates units cursor cap s in recorded s' /\ pub_moves s s'.
Proof.
  intros Hr Hf. revert cursor cap s. induction fuel as [|fuel IH]; intros cursor cap s Hs; cbn [publish_pass]; [split; [done|apply pub_moves_refl]|].
  destruct (_ <? _)%nat; [|split; [done|apply pub_moves_refl]]. set (batch := take _ _). pose proof (publish_batch_ok batch s) as Hb. assert (HB1 : Forall (Forall unit_row) batch) by (by apply Forall_take, Forall_drop).
  assert (HB2 : Forall object_fits batch) by (by apply Forall_take, Forall_drop). specialize (Hb HB1 HB2 Hs). destruct (publish_batch _ _ _ _ _ batch s) as [rs s1]. destruct Hb as [Hs1 Hm1]. destruct (batch_failed rs); [by split|].
  specialize (IH (next_batch units cursor cap) (record_success (rates cursor) cap) s1 Hs1). destruct (publish_pass _ _ _ _ _ _ _ _ _ _ s1) as [[? ?] s2]. destruct IH as [Hs2 Hm2]. split; [done|]. by eapply pub_moves_trans.
Qed.
(** The journal: flushed payloads have their checksum. *)
Definition journal_ok (d : LedgerDb) : Prop := forall pid p, payloads (v_journal (ld_vol d)) !! pid = Some p ->
  payload_id p = pid /\ 0 <= pid < 2 ^ 128 /\ (is_Some (pl_flushed_ns p) -> pl_checksum p = Some (th_hash (contents pid))).
Lemma unpublished_rows d : journal_ok d -> Forall unit_row (unpublished_payloads volume d).
Proof.
  intros Hj. apply Forall_forall. intros u Hu. unfold unpublished_payloads in Hu. rewrite sort_by_key_perm in Hu. apply list_elem_of_omap in Hu as ([pid p] & Hp & Hrow). apply elem_of_map_to_list in Hp. cbn [snd] in Hrow.
  destruct (Hj pid p Hp) as (Hid & Hrange & Hsum). unfold pending_row in Hrow. apply bind_Some in Hrow as (o & _ & Hrow). destruct (_ && _) eqn:E; [|done]. injection Hrow as <-. zbool.
  match goal with Hf : bool_decide (is_Some (pl_flushed_ns p)) = true |- _ => apply bool_decide_eq_true in Hf; specialize (Hsum Hf) end. split; cbn [un_payload_id un_checksum]; [lia|]. by rewrite Hid, Hsum.
Qed.
End passes.

(** ** Lemmas: eviction *)
Definition ledger_extents (d : LedgerDb) : gmap Z PhysicalExtentRecord := phys_extents (phys (v_store (ld_vol d))).
Definition dead_in (d : LedgerDb) (id : Z) : Prop := exists x, phys_extents (phys (v_store (ld_vol d))) !! id = Some x /\ pe_state x = Dead.
Definition keyed (t : gmap Z PayloadRemoteObject) : Prop := forall id r, t !! id = Some r -> pr_payload_id r = id.
Section eviction.
Context (volume now_ns : Z) (handles : gmap Z OpenRecord) (pins : gset Z) (barrier : option Z -> result ()) (unlink : Z -> Unlink).
(** A payload that may be evicted: published, its files neither open nor pinned. *)
Definition eligible (d : LedgerDb) (id : Z) : Prop :=
  (exists r, ld_remote d !! id = Some r /\ pr_volume_id r = volume) /\ existsb (is_open handles) (payload_inodes volume id d) = false /\
  existsb (evict_pin_held (v_ns (ld_vol d)) volume pins) (payload_inodes volume id d) = false.
(** A payload whose file is gone: its extent is dead. *)
Definition evicted_ok (d d' : LedgerDb) (id : Z) : Prop := eligible d id /\ dead_in d' id.
(** An extent of the journal, alive, unpinned and referenced. *)
Definition journal_extent (d : LedgerDb) (id : Z) (e : PhysicalExtentRecord) : Prop :=
  ledger_extents d !! id = Some e /\ pe_state e = Alive /\ pe_pin_count e = 0 /\ pe_file_id e = MANAGED_JOURNAL_FILE_ID /\ payload_referenced volume id (v_store (ld_vol d)) = true.
(** All an eviction changes in the database: such extents of eligible payloads
    are dead since [now_ns]. *)
Definition only_marked (d d' : LedgerDb) : Prop :=
  (exists t, d' = set_vol_phys (set_phys_extents t (phys (v_store (ld_vol d)))) d) /\
  forall id, ledger_extents d' !! id = ledger_extents d !! id \/ exists e, eligible d id /\ journal_extent d id e /\ ledger_extents d' !! id = Some (set_extent_state Dead now_ns e).
Definition evicts (d : LedgerDb) (files : JournalFiles) (s : EvictState) : Prop :=
  only_marked d (ev_db s) /\ forall name, ev_files s !! name = files !! name \/ (ev_files s !! name = None /\ exists id, name = payload_file_name id /\ evicted_ok d (ev_db s) id).
Definition candidate (d : LedgerDb) (x : Z * Z * Z * bool) : Prop :=
  (exists r, ld_remote d !! x.1.1.1 = Some r /\ pr_volume_id r = volume) /\ if x.2 then dead_in d x.1.1.1 else exists e, journal_extent d x.1.1.1 e.

Lemma evicts_start d files used : evicts d files (mkEvictState d files used).
Proof. split; [|intros name; by left]. split; [|intros id; by left]. exists (ledger_extents d). by destruct d as [[? [? ? [? ? ?]] ?] ?]. Qed.
Lemma only_marked_rest d d' : only_marked d d' -> ld_remote d' = ld_remote d /\ v_ns (ld_vol d') = v_ns (ld_vol d) /\ v_journal (ld_vol d') = v_journal (ld_vol d) /\ rows (v_store (ld_vol d')) = rows (v_store (ld_vol d)).
Proof. by intros [[t ->] _]. Qed.
Lemma dead_stays d d' id : only_marked d d' -> dead_in d id -> dead_in d' id.
Proof. intros [_ H] (x & Hx & Hd). destruct (H id) as [E|(e & _ & (He & Ha & _) & _)]; [exists x; split; [exact (eq_trans E Hx)|done]|]. unfold ledger_extents in He. congruence. Qed.
Lemma payload_inodes_same d d' id : only_marked d d' -> payload_inodes volume id d' = payload_inodes volume id d.
Proof. intros (_ & _ & _ & E)%only_marked_rest. unfold payload_inodes. by rewrite E. Qed.
(** Marking the extent of an eligible payload. *)
Lemma evict_mark_dead_ok d files id s s' : evicts d files s -> eligible d id -> (exists e, journal_extent d id e) -> evict_mark_dead now_ns id s = (Ok tt, s') -> evicts d files s' /\ dead_in (ev_db s') id.
Proof.
  intros [[[t Ht] Hm] Hf] Hel [e He]. unfold evict_mark_dead. destruct (mark_extent_dead _ _ _) as [p|] eqn:E; [|done]. intros [= <-]. unfold mark_extent_dead in E. apply bind_Ok_inv in E as ([n p1] & Hu & E).
  destruct (negb (n =? 1)) eqn:En; [done|]. injection E as <-. apply update_extent_Ok in Hu as [(-> & _)|(_ & e' & He' & Hp & _ & ->)]; [done|].
  apply andb_true_iff in Hp as [Hal%bool_decide_eq_true _]. assert (e' = e) as ->.
  { destruct (Hm id) as [E|(e1 & _ & _ & E)]; [destruct He as [He _]; unfold ledger_extents in E, He; congruence|]. unfold ledger_extents in E. rewrite E in He'. by injection He' as <-. }
  assert (Hx : ledger_extents (set_vol_phys (set_phys_extents (<[id := set_extent_state Dead now_ns e]> (phys_extents (phys (v_store (ld_vol (ev_db s)))))) (phys (v_store (ld_vol (ev_db s))))) (ev_db s)) =
    <[id := set_extent_state Dead now_ns e]> (ledger_extents (ev_db s))) by done.
  assert (Hdead : dead_in (set_vol_phys (set_phys_extents (<[id := set_extent_state Dead now_ns e]> (phys_extents (phys (v_store (ld_vol (ev_db s)))))) (phys (v_store (ld_vol (ev_db s))))) (ev_db s)) id)
    by (exists (set_extent_state Dead now_ns e); split; [apply lookup_insert_eq|done]).
  split; [|exact Hdead]. split; cbn [ev_db ev_files]; [split|].
  - rewrite Ht. by eexists.
  - intros j. rewrite Hx. destruct (decide (j = id)) as [->|Hne]; [right; exists e; by rewrite lookup_insert_eq|]. rewrite lookup_insert_ne by congruence. apply Hm.
  - intros name. destruct (Hf name) as [?|(? & j & -> & He1 & y & Hy & Hd)]; [by left|right]. split; [done|]. exists j. split; [done|]. split; [done|].
    destruct (decide (j = id)) as [->|Hne]; [exact Hdead|]. exists y. split; [|done]. change (ledger_extents (set_vol_phys (set_phys_extents (<[id := set_extent_state Dead now_ns e]> (phys_extents (phys (v_store (ld_vol (ev_db s)))))) (phys (v_store (ld_vol (ev_db s))))) (ev_db s)) !! j = Some y).
    rewrite Hx, lookup_insert_ne by congruence. exact Hy.
Qed.
(** The closure deletes the file of a closed, unpinned, published payload. *)
Lemma reclaim_evicts d files id length_ dead s : evicts d files s -> candidate d (id, 0, 0, dead) -> existsb (is_open handles) (payload_inodes volume id d) = false ->
  existsb (evict_pin_held (v_ns (ld_vol d)) volume pins) (payload_inodes volume id d) = false -> evicts d files (snd (reclaim now_ns barrier unlink id length_ dead s)).
Proof.
  intros Hs [Hrec Hc] Ho Hp. cbn [fst snd] in Hrec, Hc. unfold reclaim. assert (Hel : eligible d id) by by split_and!.
  assert (Hrest : forall s1, evicts d files s1 -> dead_in (ev_db s1) id -> evicts d files (snd ((io_pure (barrier (Some id)) ≫= (fun _ => remove_file unlink id length_)) s1))).
  { intros s1 Hs1 Hd1. unfold mbind, io_bind, io_pure. destruct (barrier (Some id)); [|done]. unfold remove_file. destruct (ev_files s1 !! payload_file_name id) eqn:Ef; [|done]. destruct (unlink id); [|done]. cbn [snd].
    destruct Hs1 as [Hl Hf]. split; [done|]. cbn [ev_files ev_db]. intros name. destruct (decide (name = payload_file_name id)) as [->|Hne]; [|rewrite lookup_delete_ne by congruence; apply Hf].
    right. split; [apply lookup_delete_eq|]. exists id. by split_and!. }
  destruct dead.
  - change ((mret () : io EvictState ()) ≫= (fun _ => io_pure (barrier (Some id)) ≫= (fun _ => remove_file unlink id length_))) with (fun s1 : EvictState => (io_pure (barrier (Some id)) ≫= (fun _ => remove_file unlink id length_)) s1).
    cbv beta. apply Hrest; [done|]. destruct Hs as [Hm _]. by eapply dead_stays.
  - unfold mbind at 1, io_bind at 1. destruct (evict_mark_dead now_ns id s) as [[[]|e] s1] eqn:E.
    + eapply evict_mark_dead_ok in E as [H1 H2]; [|done..]. by apply Hrest.
    + unfold evict_mark_dead in E. destruct (mark_extent_dead _ _ _); [done|]. by injection E as _ <-.
Qed.
Lemma evict_one_ok d files target acc x s : evicts d files s -> candidate d x -> evicts d files (snd (evict_one volume now_ns handles pins barrier unlink target acc x s)).
Proof.
  intros Hs Hc. destruct x as [[[id pl] pub] dead]. unfold evict_one. destruct (_ <=? _); [done|]. pose proof Hs as [Hl _]. rewrite (payload_inodes_same d (ev_db s) id Hl). pose proof Hl as (_ & Hns & _)%only_marked_rest. rewrite Hns.
  destruct (existsb (evict_pin_held _ _ _) _) eqn:Ep; [done|]. unfold with_closed_inodes. destruct (existsb (is_open handles) _) eqn:Eo; [done|].
  pose proof (reclaim_evicts d files id (u64_or_zero pl) dead s Hs Hc Eo Ep) as Hr. destruct (reclaim _ _ _ _ _ _ s) as [[b|e] s']; exact Hr.
Qed.
Lemma evict_candidates_ok d files target l acc s : evicts d files s -> Forall (candidate d) l -> evicts d files (snd (evict_candidates volume now_ns handles pins barrier unlink target l acc s)).
Proof.
  intros Hs Hl. revert acc s Hs. induction Hl as [|x l Hx Hl IH]; intros acc s Hs; [done|]. cbn [evict_candidates]. unfold mbind, io_bind. pose proof (evict_one_ok d files target acc x s Hs Hx) as H1.
  destruct (evict_one _ _ _ _ _ _ _ _ _ s) as [[acc'|e] s']; [by apply IH|exact H1].
Qed.
Lemma by_state_candidate state d x : keyed (ld_remote d) -> x ∈ published_payloads_by_state volume state d -> (exists r, ld_remote d !! x.1.1 = Some r /\ pr_volume_id r = volume) /\
  exists e, ledger_extents d !! x.1.1 = Some e /\ pe_state e = state /\ pe_pin_count e = 0 /\ pe_file_id e = MANAGED_JOURNAL_FILE_ID /\ (state <> Dead -> payload_referenced volume x.1.1 (v_store (ld_vol d)) = true).
Proof.
  intros Hk. unfold published_payloads_by_state. intros (r & -> & Hr)%list_elem_of_fmap. rewrite sort_by_key_perm in Hr. apply list_elem_of_In, filter_In in Hr as [Hin Hb]. cbn [fst snd].
  apply list_elem_of_In, list_elem_of_fmap in Hin as ([k r'] & -> & Hin). cbn [snd] in *. apply elem_of_map_to_list in Hin. pose proof (Hk _ _ Hin) as Ek. apply andb_true_iff in Hb as [Hv Hx]. apply Z.eqb_eq in Hv.
  rewrite Ek in *. split; [eauto|]. unfold ledger_extents. destruct (phys_extents _ !! k) as [y|]; [|done]. exists y. split; [done|]. rewrite !andb_true_iff, orb_true_iff, !Z.eqb_eq in Hx.
  destruct Hx as (((Hst%bool_decide_eq_true & Hpin) & Hfile) & [Hd%bool_decide_eq_true|Href]); split_and!; try done. by rewrite <-Hv.
Qed.
Lemma evictable_candidates s : keyed (ld_remote (ev_db s)) -> Forall (candidate (ev_db s)) (evict_list volume s).
Proof.
  intros Hk. apply Forall_forall. intros x Hx. unfold evict_list in Hx. rewrite sort_by_key_perm in Hx. apply elem_of_app in Hx as [Hx|Hx].
  - apply list_elem_of_fmap in Hx as (y & -> & Hy). destruct (by_state_candidate Alive _ y Hk Hy) as [H1 (e & H2 & H3 & H4 & H5 & H6)]. split; [exact H1|]. exists e. split_and!; try done. by apply H6.
  - apply list_elem_of_fmap in Hx as (y & -> & Hy). apply list_elem_of_In, filter_In in Hy as [Hy _]. apply list_elem_of_In in Hy. destruct (by_state_candidate Dead _ y Hk Hy) as [H1 (e & H2 & H3 & _)]. split; [exact H1|by exists e].
Qed.
Lemma evict_published_ok target s : keyed (ld_remote (ev_db s)) -> evicts (ev_db s) (ev_files s) (snd (evict_published volume now_ns handles pins barrier unlink target s)).
Proof.
  intros Hk. pose proof (evictable_candidates s Hk) as Hc. assert (Hstart : evicts (ev_db s) (ev_files s) s) by (destruct s; apply evicts_start). unfold evict_published. set (l := evict_list volume s) in *.
  unfold mbind, io_bind. destruct (bool_decide (l = [])); [cbn [mret io_ret]; by apply evict_candidates_ok|]. unfold io_pure. destruct (barrier None); [by apply evict_candidates_ok|exact Hstart].
Qed.
End eviction.

Lemma payload_file_name_inj a b : 0 <= a < 2 ^ 128 -> 0 <= b < 2 ^ 128 -> payload_file_name a = payload_file_name b -> a = b.
Proof.
  intros Ha Hb E. unfold payload_file_name in E. apply (f_equal chars) in E. rewrite !chars_app in E. destruct (hex_bytes _ (be_bytes 16 a)) as [Xa La], (hex_bytes _ (be_bytes 16 b)) as [Xb Lb]. rewrite length_be in La, Lb.
  rewrite !chars_bytes_str in E by done. apply app_inj_1 in E as [E _]; [|by rewrite La, Lb]. assert (Eb : to_be 16 a = to_be 16 b).
  { apply Ok_inj. rewrite <- (hex_loop_bytes 0 (to_be 16 a)), <- (hex_loop_bytes 0 (to_be 16 b)) by apply be_bytes. by rewrite E. }
  rewrite <- (be_val_be 16 a), <- (be_val_be 16 b) by (cbn; lia). by rewrite Eb.
Qed.

(** C23: Publication makes a payload readable.  Over a backend that serves the
    objects it reports, with whatever bytes it stored, under the id reported and
    under "drive" ([PayloadHost]), and a hash without collisions: a unit that
    publishes leaves only right records; and when it succeeds, every member whose
    file was intact can be read: from caches in any ready state that do not
    remember the payload as absent, every range of it and the whole payload are
    fetched with exactly the bytes that were in the file, and the caches stay
    ready. *)
Theorem published_payload_readable {C : Aead} {CL : AeadLaws C} {H : TreeHash} {HL : TreeHashLaws H} {HC : CollisionFree H} {W : Type} {B : ObjectBackend W} {PH : PayloadHost B}
    (key probe : list Z) (volume CATALOG_BYTES now_ns : Z) (contents : Z -> list Z) (files : JournalFiles) (nonces : Z -> Z -> option (list Z)) (unit : PublishUnit) (s : @PubState W)
    (Hprobe : length probe = NONCE_LENGTH) (Hn : forall id, nonces_ok (nonces id)) (Hrows : Forall (unit_row contents) unit) (Hfit : object_fits key volume files nonces unit)
    (Hs : recorded_ok key volume contents (pu_backend s) (ld_remote (pu_db s))) :
  let '(r, s') := publish_unit key volume files nonces now_ns unit s in
  recorded_ok key volume contents (pu_backend s') (ld_remote (pu_db s')) /\
  (r = inr tt -> forall p, p ∈ unit -> of_volume volume (ld_remote (pu_db s)) (un_payload_id p) -> files !! un_path p = Some (contents (un_payload_id p)) -> (forall i, is_Some (nonces (un_payload_id p) i)) ->
    Z.of_nat (length (contents (un_payload_id p))) <= i64_max -> forall store offset length_ cancelled, store_ready key volume contents (pu_backend s') store -> sp_publications store !! un_payload_id p <> Some None ->
    0 <= offset -> 0 <= length_ -> offset + length_ <= Z.of_nat (length (contents (un_payload_id p))) -> (forall n, cancelled n = false) ->
    (exists store', read_inner key volume (frame_overhead th_hash probe) (pu_backend s') CATALOG_BYTES (payload_publication (pu_db s')) true volume (un_payload_id p) offset length_ cancelled store =
       (Ok (Some (zslice offset length_ (contents (un_payload_id p)))), store') /\ store_ready key volume contents (pu_backend s') store') /\
    (exists store' record, fetch_whole key volume (frame_overhead th_hash probe) (pu_backend s') CATALOG_BYTES (payload_publication (pu_db s')) true volume (un_payload_id p) cancelled store =
       (Ok (Some (contents (un_payload_id p), record)), store') /\ store_ready key volume contents (pu_backend s') store')).
Proof.
  pose proof (publish_unit_ok key volume contents files nonces now_ns Hn unit s Hrows Hfit Hs) as Hu. destruct (publish_unit _ _ _ _ _ _ _) as [r s']. destruct Hu as (Hrec & _ & Hok). split; [exact Hrec|].
  intros Hr p Hp Hov Hf Ha HP store offset length_ cancelled Hst Hnn Ho Hl Hin Hcan. destruct (Hok Hr p Hp Hov Hf Ha) as (rec & Hlook & Hv). rewrite frame_overhead_68 by done.
  destruct (read_recorded key volume contents CATALOG_BYTES (pu_backend s') (pu_db s') _ rec store offset length_ cancelled Hrec Hlook Hv Hst Hnn HP Ho Hl Hin Hcan) as [(s1 & E1 & R1 & _) (s2 & r2 & E2 & R2 & _)]. split; eauto.
Qed.

(** C22: Eviction deletes only what can be fetched again.  Whatever the barrier
    and the file system answer, and also when it fails half-way, every file it
    deletes belongs to a published payload of the volume whose extent is dead in
    the ledger and none of whose files is open or pinned.  Every other file is
    untouched, and all that changes in the database is that journal extents which
    were alive, unpinned and referenced are marked dead, each of a payload that is
    published and has no open or pinned file. *)
Theorem eviction_deletes_published (volume now_ns : Z) (handles : gmap Z OpenRecord) (pins : gset Z) (barrier : option Z -> result ()) (unlink : Z -> Unlink) (target : Z) (s : EvictState)
    (Hk : keyed (ld_remote (ev_db s))) :
  let s' := snd (evict_published volume now_ns handles pins barrier unlink target s) in
  only_marked volume now_ns handles pins (ev_db s) (ev_db s') /\
  forall name, ev_files s' !! name = ev_files s !! name \/ (ev_files s' !! name = None /\ exists id, name = payload_file_name id /\ evicted_ok volume handles pins (ev_db s) (ev_db s') id).
Proof. apply evict_published_ok. exact Hk. Qed.

(** ** Publication and eviction together *)
Section host.
Context {C : Aead} {CL : AeadLaws C} {H : TreeHash} {HL : TreeHashLaws H} {HC : CollisionFree H} {W : Type} {B : ObjectBackend W} {PH : PayloadHost B} (key : list Z) (volume : Z) (contents : Z -> list Z).
Record HostState : Type := mkHostState { hs_pub : @PubState W; hs_files : JournalFiles; hs_used : Z }.
Inductive HostOp : Type :=
| HPublish (nonces : Z -> Z -> option (list Z)) (now_ns : Z) (rates : nat -> Z) (cap : Z)
| HEvict (now_ns : Z) (handles : gmap Z OpenRecord) (pins : gset Z) (barrier : option Z -> result ()) (unlink : Z -> Unlink) (target : Z).
Definition host_step (s : HostState) (o : HostOp) : HostState :=
  match o with
  | HPublish nonces now_ns rates cap =>
      let '(_, _, p) := publish_pending key volume (hs_files s) nonces now_ns rates cap (hs_pub s) in mkHostState p (hs_files s) (hs_used s)
  | HEvict now_ns handles pins barrier unlink target =>
      let '(_, e) := evict_published volume now_ns handles pins barrier unlink target (mkEvictState (pu_db (hs_pub s)) (hs_files s) (hs_used s)) in
      mkHostState (mkPubState (ev_db e) (pu_backend (hs_pub s)) (pu_stats (hs_pub s))) (ev_files e) (ev_used e)
  end.
(** Drawn nonces have their width, and the objects of the pending units fit. *)
Definition host_op_ok (s : HostState) (o : HostOp) : Prop :=
  match o with
  | HPublish nonces _ _ _ => (forall id, nonces_ok (nonces id)) /\ Forall (object_fits key volume (hs_files s) nonces) (publish_units (unpublished_payloads volume (pu_db (hs_pub s))))
  | HEvict _ _ _ _ _ _ => True
  end.
Inductive host_runs : HostState -> HostState -> Prop :=
| hr_refl s : host_runs s s
| hr_step s o s' : host_op_ok s o -> host_runs (host_step s o) s' -> host_runs s s'.
Definition host_ok (s : HostState) : Prop := recorded_ok key volume contents (pu_backend (hs_pub s)) (ld_remote (pu_db (hs_pub s))) /\ journal_ok contents (pu_db (hs_pub s)).
(** A payload that is in its file, or published. *)
Definition kept (s : HostState) (id : Z) : Prop := hs_files s !! payload_file_name id = Some (contents id) \/ exists r, ld_remote (pu_db (hs_pub s)) !! id = Some r /\ pr_volume_id r = volume.

Lemma host_step_ok s o : host_ok s -> host_op_ok s o -> host_ok (host_step s o) /\ forall id, 0 <= id < 2 ^ 128 -> kept s id -> kept (host_step s o) id.
Proof.
  intros [Hr Hj] Hop. destruct o as [nonces now_ns rates cap|now_ns handles pins barrier unlink target]; cbn [host_step].
  - destruct Hop as [Hn Hfit]. unfold publish_pending. set (units := publish_units _) in *. assert (Hrows : Forall (Forall (unit_row contents)) units).
    { pose proof (unpublished_rows volume contents (pu_db (hs_pub s)) Hj) as Hu. destruct (publish_units_shape (unpublished_payloads volume (pu_db (hs_pub s)))) as [Hc _]. rewrite <- Hc in Hu. by apply Forall_concat in Hu. }
    pose proof (publish_pass_ok key volume contents (hs_files s) nonces now_ns Hn (S (length units)) rates units 0 cap (hs_pub s) Hrows Hfit Hr) as Hp.
    destruct (publish_pass _ _ _ _ _ _ _ _ _ _ _) as [[? ?] p]. destruct Hp as (Hp & Hv & He & _). split.
    + split; cbn [hs_pub]; [exact Hp|]. unfold journal_ok. rewrite Hv. exact Hj.
    + intros id _ [Hf|(x & Hx & Hxv)]; [by left|right]. destruct (He id x Hx) as (y & Hy & Hyv). exists y. cbn [hs_pub]. split; [done|congruence].
  - assert (Hk : keyed (ld_remote (pu_db (hs_pub s)))) by (intros id x Hx; by destruct (Hr id x Hx)).
    pose proof (evict_published_ok volume now_ns handles pins barrier unlink target (mkEvictState (pu_db (hs_pub s)) (hs_files s) (hs_used s)) Hk) as He.
    destruct (evict_published _ _ _ _ _ _ _ _) as [res e]. cbn [snd ev_db ev_files] in He. destruct He as [(E1 & E2 & E3 & E4)%only_marked_rest Hf]. split.
    + split; cbn [hs_pub pu_db pu_backend]; [by rewrite E1|]. unfold journal_ok. rewrite E3. exact Hj.
    + intros id Hid Hkept. unfold kept. cbn [hs_pub hs_files pu_db]. rewrite E1. destruct Hkept as [Hfile|Hrec]; [|by right]. destruct (Hf (payload_file_name id)) as [Hsame|(_ & id' & En & ((x & Hx & Hxv) & _) & _)]; [left; by rewrite Hsame|right].
      destruct (Hr id' x Hx) as (_ & Hid' & _). apply payload_file_name_inj in En; [|done|done]. subst id'. eauto.
Qed.

(** C18: No payload is lost.  Over a backend that goes on serving the objects it
    reports, under the id reported and under "drive", with whatever bytes it
    stored and failing uploads as it likes ([PayloadHost]), and a hash without
    collisions: over every sequence of publication passes and evictions, whatever
    the file system and the open handles do, a payload that was in its journal
    file or published still is, and every record of the volume stays right.  Once
    its file is gone, every range of it is read back with exactly its bytes from
    caches in any ready state that do not remember the payload as absent. *)
Theorem payloads_never_lost (probe : list Z) (CATALOG_BYTES : Z) (s s' : HostState) (Hprobe : length probe = NONCE_LENGTH) (Hs : host_ok s) (Hrun : host_runs s s') :
  host_ok s' /\ forall id, 0 <= id < 2 ^ 128 -> kept s id -> kept s' id /\
  (hs_files s' !! payload_file_name id = None -> Z.of_nat (length (contents id)) <= i64_max -> forall store offset length_, store_ready key volume contents (pu_backend (hs_pub s')) store -> sp_publications store !! id <> Some None ->
    0 <= offset -> 0 <= length_ -> offset + length_ <= Z.of_nat (length (contents id)) ->
    exists store', read_payload key volume (frame_overhead th_hash probe) (pu_backend (hs_pub s')) CATALOG_BYTES (payload_publication (pu_db (hs_pub s'))) true volume id offset length_ store =
      (Ok (Some (zslice offset length_ (contents id))), store') /\ store_ready key volume contents (pu_backend (hs_pub s')) store').
Proof.
  assert (Hinv : host_ok s' /\ forall id, 0 <= id < 2 ^ 128 -> kept s id -> kept s' id).
  { induction Hrun as [s|s o s' Ho Hrun IH]; [done|]. destruct (host_step_ok s o Hs Ho) as [Hs1 Hk1]. destruct (IH Hs1) as [Hs2 Hk2]. split; [done|]. intros id Hid Hk. by apply Hk2, Hk1. }
  destruct Hinv as [Hok Hkept]. split; [exact Hok|]. intros id Hid Hk. pose proof (Hkept id Hid Hk) as Hk'. split; [exact Hk'|]. intros Hgone HP store offset length_ Hst Hnn Ho Hl Hin.
  destruct Hk' as [Hf|(r & Hr & Hv)]; [congruence|]. rewrite frame_overhead_68 by done. unfold read_payload.
  destruct (read_recorded key volume contents CATALOG_BYTES (pu_backend (hs_pub s')) (pu_db (hs_pub s')) id r store offset length_ (fun _ => false) (proj1 Hok) Hr Hv Hst Hnn HP Ho Hl Hin ltac:(done)) as [(s1 & E1 & R1 & _) _]. eauto.
Qed.
End host.

(** ** Instances *)
#[local] Existing Instance position_aead.
#[local] Existing Instance position_aead_laws.
#[local] Existing Instance sector_hash.
#[local] Existing Instance sector_hash_laws.
#[local] Existing Instance sector_hash_free.
(** A provider with room for one object, which names itself as the directory
    backend does. *)
Definition shelf_put (k : ObjectKind) (src : UploadSource) (h : Hash) (c : bool) (w : option (list Z)) : bresult RemoteObjectRef * option (list Z) :=
  match w, collect_stream (up_stream src) with
  | None, inr bytes => if Z.of_nat (length bytes) =? up_length src then (inr (mkRemote "local" "object" None (up_length src) h k), Some bytes) else (inl (be_integrity "short upload"), w)
  | _, _ => (inl (be_permanent "no room"), w)
  end.
Definition shelf_read (w : option (list Z)) (o : RemoteObjectRef) (r : CheckedRange) (c : bool) : bresult BackendRead :=
  match w with
  | None => inl (be_permanent "no object")
  | Some b => BackendRead_new r (len r) None (BackendByteStream_from_bytes (zslice (start r) (len r) b))
  end.
#[local] Instance shelf : ObjectBackend (option (list Z)) := {|
  can_publish := true; read_range := shelf_read; put_immutable := shelf_put; stat w o := inl (be_permanent "unused"); enumerate_commits w r := inr [];
  delete_immutable o p c w := (inl (be_permanent "unused"), w)
|}.
#[local] Instance shelf_host : PayloadHost shelf.
Proof.
  refine (mkHost _ shelf (fun w o b => w = Some b /\ ro_byte_length o = Z.of_nat (length b)) _ _ _ _ _ _).
  - by intros w o b [_ ?].
  - intros w o b [-> _] s l H1 H2 H3 _. cbn [read_range shelf shelf_read]. unfold BackendRead_new. cbn [start len BackendByteStream_from_bytes BackendByteStream_new bs_remaining].
    assert (Hz : Z.of_nat (length (zslice s l b)) = l) by (by apply zslice_length; lia). rewrite Hz, Z.eqb_refl. cbn [negb orb].
    eexists. split; [reflexivity|]. cbn [rd_stream rd_requested_range rd_received_length bs_remaining bs_finished]. split_and!; [done..|]. apply collect_from_bytes. intros E. rewrite E in Hz. cbn in Hz. lia.
  - intros w o b s l rd [-> _]. cbn [read_range shelf shelf_read]. unfold BackendRead_new. destruct (_ || _); [done|]. intros [= <-]. by left.
  - intros src h w o w'. cbn [put_immutable shelf]. unfold shelf_put. destruct w; [done|]. destruct (collect_stream _) as [|bytes]; [done|]. destruct (Z.eqb_spec (Z.of_nat (length bytes)) (up_length src)) as [E|]; [|done].
    intros [= <- <-]. exists bytes. by cbn.
  - intros src h w o w'. cbn [put_immutable shelf]. unfold shelf_put. destruct w; [done|]. destruct (collect_stream _) as [|bytes]; [done|]. destruct (_ =? _); [|done]. intros [= <- <-]. by split_and!.
  - intros src h w r w' o b. cbn [put_immutable shelf]. unfold shelf_put. destruct w; [|by intros _ [? _]]. by intros [= _ <-].
Defined.

(** A volume with one payload of five bytes, flushed and not published. *)
Definition demo_contents (id : Z) : list Z := demo_payload.
Definition demo_nonces (id i : Z) : option (list Z) := Some demo_nonce.
Definition demo_row : UnpublishedPayload := mkUnpublished 2 (payload_file_name 2) 5 (Some (th_hash demo_payload)) 1.
Definition demo_ledger : LedgerDb :=
  mkLedger (mkVol (set_volumes (Some (mkVolume 0 (root_inode 1) 0)) empty_db)
      (mkStore {[ 9 := mkByteExtent 9 1 (root_inode 1) 1 0 5 KDirty None None (Some 2) (Some 0) 0 ]} ∅
        (mkPhys ∅ {[ 2 := mkExtentRecord 2 MANAGED_JOURNAL_FILE_ID 0 5 Alive None None 0 0 0 ]} ∅))
      (mkJournal {[ 7 := mkOperation 7 1 1 None KWrite [] Committed None None 0 ]} {[ 2 := mkPayload 2 7 (payload_file_name 2) 5 (Some (th_hash demo_payload)) (Some 1) ]} ∅ ∅)) ∅.
Definition demo_files : JournalFiles := {[ payload_file_name 2 := demo_payload ]}.
Definition demo_pub : @PubState (option (list Z)) := mkPubState demo_ledger None (mkPublisherStats 0 (zeros 32)).
Lemma demo_fits : object_fits [7] 1 demo_files demo_nonces [demo_row].
Proof. intros [a b]. vm_compute. discriminate. Qed.
Lemma demo_nonces_ok : forall id, nonces_ok (demo_nonces id).
Proof. by intros id i n [= <-]. Qed.
Lemma demo_recorded : recorded_ok [7] 1 demo_contents (pu_backend demo_pub) (ld_remote (pu_db demo_pub)).
Proof. intros id r. cbn. by rewrite lookup_empty. Qed.
Lemma demo_store_ready w : store_ready [7] 1 demo_contents w (with_budgets RemoteReadBudgets_default).
Proof. apply with_budgets_ok; unfold in_u64, u64_max; cbn; lia. Qed.
Lemma published_payload_readable_witness : let '(r, s') := publish_unit [7] 1 demo_files demo_nonces 0 [demo_row] demo_pub in
  r = inr tt /\ exists store', read_inner [7] 1 (frame_overhead th_hash demo_nonce) (pu_backend s') 64 (payload_publication (pu_db s')) true 1 2 1 3 (fun _ => false) (with_budgets RemoteReadBudgets_default) = (Ok (Some [2; 3; 4]), store').
Proof.
  pose proof (published_payload_readable [7] demo_nonce 1 64 0 demo_contents demo_files demo_nonces [demo_row] demo_pub eq_refl demo_nonces_ok) as T.
  assert (Hrow : Forall (unit_row demo_contents) [demo_row]) by (constructor; [split; [split; [vm_compute; discriminate|reflexivity]|reflexivity]|constructor]). specialize (T Hrow demo_fits demo_recorded).
  assert (E : fst (publish_unit [7] 1 demo_files demo_nonces 0 [demo_row] demo_pub) = inr tt) by (vm_compute; reflexivity).
  destruct (publish_unit [7] 1 demo_files demo_nonces 0 [demo_row] demo_pub) as [r s']. cbn [fst] in E. subst r. destruct T as [_ T]. split; [reflexivity|].
  destruct (T eq_refl demo_row) with (store := with_budgets RemoteReadBudgets_default) (offset := 1) (length_ := 3) (cancelled := fun _ : nat => false) as [(store' & R & _) _].
  - by left.
  - intros x. cbn. by rewrite lookup_empty.
  - reflexivity.
  - intros i. by eexists.
  - vm_compute. discriminate.
  - apply demo_store_ready.
  - discriminate.
  - lia.
  - lia.
  - vm_compute. discriminate.
  - reflexivity.
  - exists store'. exact R.
Defined.
(** Publishing and evicting the payload. *)
Definition demo_host : @HostState (option (list Z)) := mkHostState demo_pub demo_files 5.
Definition demo_pass : HostOp := HPublish demo_nonces 0 (fun _ => 0) BatchSizer_new.
Definition demo_evict : HostOp := HEvict 1 ∅ ∅ (fun _ => Ok tt) (fun _ => UnlinkOk) 1.
Definition demo_end : @HostState (option (list Z)) := host_step [7] 1 (host_step [7] 1 demo_host demo_pass) demo_evict.
Example demo_evicted : hs_files demo_end !! payload_file_name 2 = None /\ hs_used demo_end = 0 /\ map fst (map_to_list (ld_remote (pu_db (hs_pub demo_end)))) = [2] /\
  hs_files (host_step [7] 1 demo_host demo_evict) !! payload_file_name 2 = Some demo_payload.
Proof. vm_compute. split_and!; reflexivity. Qed.
Definition demo_evict_state : EvictState := mkEvictState (pu_db (hs_pub (host_step [7] 1 demo_host demo_pass))) demo_files 5.
Lemma demo_keyed : keyed (ld_remote (ev_db demo_evict_state)).
Proof.
  intros id r Hr. assert (Hall : forallb (fun x => pr_payload_id x.2 =? x.1) (map_to_list (ld_remote (ev_db demo_evict_state))) = true) by (vm_compute; reflexivity).
  rewrite forallb_forall in Hall. apply Z.eqb_eq. apply (Hall (id, r)). by apply list_elem_of_In, elem_of_map_to_list.
Qed.
Lemma eviction_deletes_published_witness : let s' := snd (evict_published 1 1 ∅ ∅ (fun _ => Ok tt) (fun _ => UnlinkOk) 1 demo_evict_state) in
  ev_files s' !! payload_file_name 2 = None /\ exists id, payload_file_name 2 = payload_file_name id /\ evicted_ok 1 ∅ ∅ (ev_db demo_evict_state) (ev_db s') id.
Proof.
  cbv zeta. destruct (eviction_deletes_published 1 1 ∅ ∅ (fun _ => Ok tt) (fun _ => UnlinkOk) 1 demo_evict_state demo_keyed) as [_ Hf]. specialize (Hf (payload_file_name 2)).
  assert (E : ev_files (snd (evict_published 1 1 ∅ ∅ (fun _ => Ok tt) (fun _ => UnlinkOk) 1 demo_evict_state)) !! payload_file_name 2 = None) by (vm_compute; reflexivity).
  split; [exact E|]. destruct Hf as [Hf|[_ Hf]]; [|exact Hf]. exfalso. rewrite E in Hf. vm_compute in Hf. discriminate Hf.
Defined.
Lemma demo_journal_ok : journal_ok demo_contents demo_ledger.
Proof. intros pid p Hp. unfold demo_ledger in Hp. cbn [ld_vol v_journal payloads] in Hp. apply lookup_singleton_Some in Hp as [<- <-]. split; [reflexivity|]. split; [split; [vm_compute; discriminate|reflexivity]|]. intros _. reflexivity. Qed.
Lemma demo_pending : publish_units (unpublished_payloads 1 demo_ledger) = [[demo_row]].
Proof. vm_compute. reflexivity. Qed.
Lemma payloads_never_lost_witness : exists store', read_payload [7] 1 (frame_overhead th_hash demo_nonce) (pu_backend (hs_pub demo_end)) 64 (payload_publication (pu_db (hs_pub demo_end))) true 1 2 0 5 (with_budgets RemoteReadBudgets_default) =
  (Ok (Some demo_payload), store').
Proof.
  destruct (payloads_never_lost [7] 1 demo_contents demo_nonce 64 demo_host demo_end eq_refl) as [_ T].
  - exact (conj demo_recorded demo_journal_ok).
  - apply (hr_step [7] 1 demo_host demo_pass); [split; [exact demo_nonces_ok|]|apply (hr_step [7] 1 _ demo_evict); [exact I|apply hr_refl]].
    change (pu_db (hs_pub demo_host)) with demo_ledger. rewrite demo_pending. constructor; [exact demo_fits|constructor].
  - destruct (T 2) as [_ R]; [split; [vm_compute; discriminate|reflexivity]|left; vm_compute; reflexivity|].
    destruct (R (proj1 demo_evicted)) with (store := with_budgets RemoteReadBudgets_default) (offset := 0) (length_ := 5) as (store' & E & _).
    + vm_compute. discriminate.
    + apply demo_store_ready.
    + discriminate.
    + lia.
    + lia.
    + vm_compute. discriminate.
    + exists store'. exact E.
Defined.
(** A provider that stores other bytes than were uploaded is found out by the
    readback, and nothing is recorded. *)
Definition corrupting : ObjectBackend (option (list Z)) := {|
  can_publish := true; read_range := shelf_read; put_immutable k src h c w := match shelf_put k src h c w with (r, w') => (r, (fun b => 0 :: drop 1 b) <$> w') end;
  stat w o := inl (be_permanent "unused"); enumerate_commits w r := inr []; delete_immutable o p c w := (inl (be_permanent "unused"), w)
|}.
Example corrupted_upload_refused : let '(r, s') := publish_unit (B := corrupting) [7] 1 demo_files demo_nonces 0 [demo_row] demo_pub in
  r = inl PublishIntegrity /\ map_to_list (ld_remote (pu_db s')) = [] /\ pt_integrity_refusals (pu_stats s') = 1.
Proof. vm_compute. split_and!; reflexivity. Qed.
(** A payload that was asked for before it was published stays absent for the
    reader, also when it has been published since. *)
Example absence_is_remembered : let s1 := snd (publication (payload_publication demo_ledger) 1 2 (with_budgets RemoteReadBudgets_default)) in
  fst (publication (payload_publication (pu_db (hs_pub demo_end))) 1 2 s1) = Ok None /\ is_Some (ld_remote (pu_db (hs_pub demo_end)) !! 2).
Proof. vm_compute. split; [reflexivity|by eexists]. Qed.
