(* ===== verification/CachePins.v ===== *)
(** * The pin registry

    [mirage-cache/src/pin.rs] and [session_pin.rs]: the pins that eviction
    consults, kept in memory beside the pin table of [LifecycleDb].  The lock of
    the registry makes every operation one step.

    Proved: whatever batches are pinned and released, whatever the database
    refuses and whenever the process restarts, a rebuilt registry holds exactly
    the stored pins, it stays so while only the registry changes them, and it
    misses none of them while others only release. *)
From S2P Require Export LifecycleDb.

Inductive PinReason : Set := Mandatory | Session (id : Z) | Dirty (id : Z) | Recovery | ReadLease.
#[export] Instance pin_reason_eq_dec : EqDecision PinReason.
Proof. solve_decision. Defined.
#[export] Instance pin_reason_countable : Countable PinReason.
Proof.
  refine (inj_countable'
    (fun r => match r with Mandatory => (0, 0) | Session id => (1, id) | Dirty id => (2, id) | Recovery => (3, 0) | ReadLease => (4, 0) end)
    (fun x => match x with (0, _) => Mandatory | (1, id) => Session id | (2, id) => Dirty id | (3, _) => Recovery | _ => ReadLease end) _).
  by intros [].
Defined.
Notation PinRegistry := (gmap Z (gset PinReason)).

Definition to_persistent (reason : PinReason) : result PersistentPinReason :=
  match reason with
  | Mandatory => Ok PinMandatory
  | Session id => Ok (PinSession id)
  | Dirty id => Ok (PinDirty id)
  | Recovery => Ok PinRecovery
  | ReadLease => Err (invalid_argument "read leases are transient and cannot be persisted")
  end.
Definition from_persistent (reason : PersistentPinReason) : PinReason :=
  match reason with PinMandatory => Mandatory | PinSession id => Session id | PinDirty id => Dirty id | PinRecovery => Recovery end.

(** [entry(page).or_default().insert(reason)] *)
Definition add_pin (reason : PinReason) (pins : PinRegistry) (page : Hash) : PinRegistry :=
  <[page := {[reason]} ∪ default ∅ (pins !! page)]> pins.
Definition PinRegistry_rebuild (d : LifecycleDb) : result PinRegistry :=
  records ← load_pins d;
  Ok (fold_left (fun pins r => add_pin (from_persistent r.2) pins r.1) records ∅).
(** [refused]: an error of the database itself, which then has not committed. *)
Definition pin_batch (refused : option MirageError) (reason : PinReason) (pages : list Hash) (st : PinRegistry * LifecycleDb) : result () * (PinRegistry * LifecycleDb) :=
  match to_persistent reason with
  | Err e => (Err e, st)
  | Ok persistent =>
      let unique := remove_dups (sort_by Z.leb pages) in
      match refused, pin_pages persistent unique st.2 with
      | Some e, _ | None, Err e => (Err e, st)
      | None, Ok (_, d) => (Ok tt, (fold_left (add_pin reason) unique st.1, d))
      end
  end.
Definition drop_reason (reason : PinReason) (reasons : gset PinReason) : option (gset PinReason) :=
  let reasons := reasons ∖ {[reason]} in if decide (reasons = ∅) then None else Some reasons.
Definition PinRegistry_release (refused : option MirageError) (reason : PinReason) (st : PinRegistry * LifecycleDb) : result () * (PinRegistry * LifecycleDb) :=
  match to_persistent reason with
  | Err e => (Err e, st)
  | Ok persistent =>
      match refused, release_pins persistent st.2 with
      | Some e, _ | None, Err e => (Err e, st)
      | None, Ok (_, d) => (Ok tt, (omap (drop_reason reason) st.1, d))
      end
  end.
Definition PinRegistry_is_pinned (pins : PinRegistry) (hash : Hash) : bool :=
  match pins !! hash with Some reasons => bool_decide (reasons <> ∅) | None => false end.
Definition reasons (pins : PinRegistry) (hash : Hash) : gset PinReason := default ∅ (pins !! hash).
Definition pin_session (refused : option MirageError) (session : Z) (pages : list Hash) : PinRegistry * LifecycleDb -> result () * (PinRegistry * LifecycleDb) :=
  pin_batch refused (Session session) pages.
Definition release_session (refused : option MirageError) (session : Z) : PinRegistry * LifecycleDb -> result () * (PinRegistry * LifecycleDb) :=
  PinRegistry_release refused (Session session).

(** ** Runs *)
(** [PRestart]: the process restarts and the index rebuilds its registry.
    [POther]: an operation on the database that is not the registry's, among
    them pins and releases of other holders of the database. *)
Inductive PinOp : Type :=
| POther (o : LifecycleOp) | PPin (refused : option MirageError) (reason : PinReason) (pages : list Hash) | PRelease (refused : option MirageError) (reason : PinReason) | PRestart.
Definition pin_step (st : PinRegistry * LifecycleDb) (o : PinOp) : PinRegistry * LifecycleDb :=
  match o with
  | POther o => (st.1, run_op o st.2)
  | PPin refused reason pages => (pin_batch refused reason pages st).2
  | PRelease refused reason => (PinRegistry_release refused reason st).2
  | PRestart => match PinRegistry_rebuild st.2 with Ok pins => (pins, st.2) | Err _ => st end
  end.
Definition pin_op_typed (o : PinOp) : Prop :=
  match o with
  | PPin _ (Session id | Dirty id) _ | PRelease _ (Session id | Dirty id) => 0 <= id < 2 ^ 128
  | POther (OpPin (PinSession id | PinDirty id) _ | OpRelease (PinSession id | PinDirty id)) => 0 <= id < 2 ^ 128
  | _ => True
  end.
(** Pins and releases that bypass the registry. *)
Definition direct_pin (o : PinOp) : bool := match o with POther (OpPin _ _) => true | _ => false end.
Definition direct (o : PinOp) : bool := match o with POther (OpPin _ _ | OpRelease _) => true | _ => false end.
(** The registry is the table: each stored pin, and no empty entry. *)
Definition agrees (st : PinRegistry * LifecycleDb) : Prop :=
  pins_are st.2 (fun h r => from_persistent r ∈ reasons st.1 h) /\
  forall h rs, st.1 !! h = Some rs -> rs <> ∅ /\ ReadLease ∉ rs.

Lemma from_persistent_inj (a b : PersistentPinReason) : from_persistent a = from_persistent b -> a = b.
Proof. destruct a, b; by intros [=]; subst. Qed.
Lemma to_persistent_Ok (reason : PinReason) (p : PersistentPinReason) : to_persistent reason = Ok p <-> reason = from_persistent p.
Proof. destruct reason, p; cbn; naive_solver congruence. Qed.
Lemma persistent_or_lease (reason : PinReason) : reason = ReadLease \/ exists p, reason = from_persistent p.
Proof. destruct reason; [right|right|right|right|by left]; [exists PinMandatory|exists (PinSession id)|exists (PinDirty id)|exists PinRecovery]; done. Qed.
Lemma reasons_add (reason : PinReason) (pins : PinRegistry) (page h : Hash) :
  reasons (add_pin reason pins page) h = if decide (h = page) then {[reason]} ∪ reasons pins h else reasons pins h.
Proof. unfold reasons, add_pin. case_decide as E; [subst; by rewrite lookup_insert_eq|by rewrite lookup_insert_ne]. Qed.
Lemma elem_reasons_pins {A : Type} (f : A -> Hash) (g : A -> PinReason) (l : list A) (pins : PinRegistry) (h : Hash) (x : PinReason) :
  x ∈ reasons (fold_left (fun pins a => add_pin (g a) pins (f a)) l pins) h <-> x ∈ reasons pins h \/ exists a, a ∈ l /\ f a = h /\ g a = x.
Proof.
  revert pins. induction l as [|a l IH]; intros pins; cbn [fold_left]; [set_solver|]. rewrite IH, reasons_add. setoid_rewrite elem_of_cons. case_decide; [set_solver|naive_solver].
Qed.
(** What every entry satisfies: not empty and no transient lease. *)
Definition pin_entries_ok (pins : PinRegistry) : Prop := forall h rs, pins !! h = Some rs -> rs <> ∅ /\ ReadLease ∉ rs.
Lemma entries_pins {A : Type} (f : A -> Hash) (g : A -> PinReason) (l : list A) (pins : PinRegistry) : (forall a, a ∈ l -> g a <> ReadLease) -> pin_entries_ok pins ->
  pin_entries_ok (fold_left (fun pins a => add_pin (g a) pins (f a)) l pins).
Proof.
  revert pins. induction l as [|a l IH]; intros pins Hl Hp; cbn [fold_left]; [done|]. apply IH; [intros b Hb; apply Hl; by right|].
  intros h rs. unfold add_pin. intros [[<- <-]|[_ Hh]]%lookup_insert_Some; [|exact (Hp h rs Hh)]. split; [set_solver|]. intros [E%elem_of_singleton|E]%elem_of_union; [by apply (Hl a); [left|]|].
  destruct (pins !! f a) as [r0|] eqn:E0; [|set_solver]. by apply (Hp (f a) r0).
Qed.
(** Registries without empty entries are equal when their pins are. *)
Lemma registry_ext (a b : PinRegistry) : pin_entries_ok a -> pin_entries_ok b -> (forall h x, x ∈ reasons a h <-> x ∈ reasons b h) -> a = b.
Proof.
  intros Ha Hb H. apply map_eq. intros h. assert (reasons a h = reasons b h) as E by (apply set_eq; apply H). unfold reasons in E.
  destruct (a !! h) as [ra|] eqn:E1, (b !! h) as [rb|] eqn:E2; cbn in E; [by subst|destruct (Ha h ra E1); by subst|destruct (Hb h rb E2); by subst|done].
Qed.
Lemma reasons_release (reason : PinReason) (pins : PinRegistry) (h : Hash) : reasons (omap (drop_reason reason) pins) h = reasons pins h ∖ {[reason]}.
Proof. unfold reasons. rewrite lookup_omap. destruct (pins !! h) as [rs|]; cbn; [unfold drop_reason; case_decide as E; [cbn; by rewrite E|done]|set_solver]. Qed.
Lemma entries_release (reason : PinReason) (pins : PinRegistry) : pin_entries_ok pins -> pin_entries_ok (omap (drop_reason reason) pins).
Proof. intros Hp h rs. rewrite lookup_omap. intros (r0 & Hr & Hd)%bind_Some. unfold drop_reason in Hd. case_decide; [done|]. injection Hd as <-. destruct (Hp h r0 Hr). set_solver. Qed.
Lemma pins_are_ext (d : LifecycleDb) (P Q : Hash -> PersistentPinReason -> Prop) : (forall h r, P h r <-> Q h r) -> pins_are d P -> pins_are d Q.
Proof. intros E [H1 H2]. split; [intros h r; rewrite <-E; apply H1|]. intros h x. rewrite H2. by setoid_rewrite E. Qed.
(** Rebuilding the registry of an agreeing state. *)
Lemma rebuild_agrees (st : PinRegistry * LifecycleDb) : agrees st -> PinRegistry_rebuild st.2 = Ok st.1.
Proof.
  intros [Hd He]. destruct (cache_pins_refine_set st.2 _ PinMandatory [] Hd I) as (_ & _ & l & Hl & _ & Hin). unfold PinRegistry_rebuild. rewrite Hl. cbn [mbind result_bind]. f_equal.
  apply registry_ext; [|exact He|].
  - apply (entries_pins fst (fun r => from_persistent r.2)); [by intros [? []] _|]. intros h rs Hh. by rewrite lookup_empty in Hh.
  - intros h x. rewrite (elem_reasons_pins fst (fun r => from_persistent r.2)). unfold reasons at 1. rewrite lookup_empty. cbn. split.
    + intros [?|([h' r] & Ha & <- & <-)]; [set_solver|]. by apply Hin in Ha.
    + intros Hx. right. destruct (persistent_or_lease x) as [->|[p ->]]; [|exists (h, p); split; [by apply Hin|done]].
      unfold reasons in Hx. destruct (st.1 !! h) as [rs|] eqn:E; [|set_solver]. by apply (He h rs) in E as [_ ?].
Qed.
(** The other operations leave the pin table alone. *)
Ltac chase := repeat match goal with
  | H : mbind _ _ = Ok _ |- _ => apply bind_Ok_inv in H as (? & ? & H)
  | H : Ok _ = Ok _ |- _ => injection H; clear H; intros; subst
  | H : Err _ = Ok _ |- _ => discriminate H
  | H : (if ?b then _ else _) = Ok _ |- _ => destruct b
  | H : (match ?x with _ => _ end) = Ok _ |- _ => destruct x eqn:?
  end; try reflexivity.
Lemma pins_update_repository (id n : Z) (p : RepositoryRow -> bool) (f : RepositoryRow -> RepositoryRow) (d d' : LifecycleDb) :
  update_repository id p f d = (n, d') -> lc_pins d' = lc_pins d.
Proof. unfold update_repository. repeat case_match; by intros [= _ <-]. Qed.
Lemma pins_other (o : LifecycleOp) (d : LifecycleDb) : direct (POther o) = false -> lc_pins (run_op o d) = lc_pins d.
Proof.
  destruct o; intros H; try done; cbn [run_op]; unfold after;
    match goal with |- lc_pins match ?r with _ => _ end = _ => destruct r as [[? d']|?] eqn:E; [|reflexivity] end;
    match type of E with ?f _ _ = _ => unfold f in E | ?f _ _ _ = _ => unfold f in E | ?f _ _ _ _ = _ => unfold f in E | ?f _ _ _ _ _ = _ => unfold f in E | ?f _ _ _ _ _ _ = _ => unfold f in E end;
    chase; by eapply pins_update_repository.
Qed.
Lemma pin_step_agrees (o : PinOp) (st : PinRegistry * LifecycleDb) : pin_op_typed o -> direct o = false -> agrees st -> agrees (pin_step st o).
Proof.
  intros Ho Hdir Hst. destruct Hst as [Hd He]. destruct o as [o|refused reason pages|refused reason|]; cbn [pin_step].
  - split; [|exact He]. destruct Hd as [H1 H2]. split; [exact H1|]. cbn [fst snd]. rewrite (pins_other o st.2 Hdir). exact H2.
  - unfold pin_batch. destruct (to_persistent reason) as [p|e] eqn:Ep; [|by split]. apply to_persistent_Ok in Ep as ->. destruct refused as [e|]; [by split|].
    destruct (pin_pages p _ st.2) as [[[] d']|e] eqn:E; [|by split]. assert (reason_typed p) as Hp by (by destruct p).
    destruct (cache_pins_refine_set st.2 _ p (remove_dups (sort_by Z.leb pages)) Hd Hp) as (Hpin & _ & _). destruct (Hpin d' E) as (Hd' & _ & _). split; cbn [fst snd].
    + revert Hd'. apply pins_are_ext. intros h r. rewrite (elem_reasons_pins (fun p => p) (fun _ => from_persistent p)). split.
      * intros [Hr|[Hh ->]]; [by left|right; by exists h].
      * intros [Hr|(a & Ha & <- & Er%from_persistent_inj)]; [by left|right; by subst].
    + apply (entries_pins (fun p => p) (fun _ => from_persistent p)); [by destruct p|exact He].
  - unfold PinRegistry_release. destruct (to_persistent reason) as [p|e] eqn:Ep; [|by split]. apply to_persistent_Ok in Ep as ->. destruct refused as [e|]; [by split|].
    assert (reason_typed p) as Hp by (by destruct p). destruct (release_pins p st.2) as [[[] d']|e] eqn:E; [|by split].
    destruct (cache_pins_refine_set st.2 _ p [] Hd Hp) as (_ & Hrel & _). pose proof (Hrel d' E) as Hd'. split; cbn [fst snd].
    + revert Hd'. apply pins_are_ext. intros h r. rewrite reasons_release, elem_of_difference, elem_of_singleton. split; intros [H1 H2]; (split; [done|]); [by intros ?%from_persistent_inj|by intros ->].
    + by apply entries_release.
  - rewrite (rebuild_agrees st (conj Hd He)). destruct st. by split.
Qed.
Lemma agrees_empty : agrees (∅, empty_lifecycle).
Proof. split; [split|]; cbn; unfold reasons; [intros h r; rewrite lookup_empty; set_solver|intros h x; rewrite lookup_empty; set_solver|intros h rs; by rewrite lookup_empty]. Qed.

(** What others do to the table: it stays a table of typed pins, and a release
    only removes. *)
Definition table_ok (d : LifecycleDb) : Prop := exists P, pins_are d P.
Lemma other_table (o : LifecycleOp) (d : LifecycleDb) (P : Hash -> PersistentPinReason -> Prop) : pin_op_typed (POther o) -> pins_are d P ->
  exists Q, pins_are (run_op o d) Q /\ (direct_pin (POther o) = false -> forall h r, Q h r -> P h r).
Proof.
  intros Ho Hd. destruct (direct (POther o)) eqn:E.
  - destruct o; try done; cbn [run_op]; unfold after.
    + assert (reason_typed reason) as Hr by (by destruct reason). destruct (cache_pins_refine_set d P reason pages Hd Hr) as (Hp & _ & _). destruct (pin_pages reason pages d) as [[[] d']|e]; [|by exists P].
      destruct (Hp d' eq_refl) as (Hd' & _ & _). by eexists.
    + assert (reason_typed reason) as Hr by (by destruct reason). destruct (cache_pins_refine_set d P reason [] Hd Hr) as (_ & Hp & _). destruct (release_pins reason d) as [[[] d']|e]; [|by exists P].
      eexists. split; [by apply Hp|]. by intros _ h r [? _].
  - exists P. split; [|done]. destruct Hd as [H1 H2]. split; [exact H1|]. by rewrite (pins_other o d E).
Qed.
(** The registry misses no stored pin. *)
Definition covers_table (st : PinRegistry * LifecycleDb) : Prop := pin_entries_ok st.1 /\ exists P, pins_are st.2 P /\ forall h r, P h r -> from_persistent r ∈ reasons st.1 h.
Lemma rebuild_table (d : LifecycleDb) : table_ok d -> exists pins, PinRegistry_rebuild d = Ok pins /\ agrees (pins, d).
Proof.
  intros [P Hd]. destruct (cache_pins_refine_set d P PinMandatory [] Hd I) as (_ & _ & l & Hl & _ & Hin). unfold PinRegistry_rebuild. rewrite Hl. cbn [mbind result_bind]. eexists. split; [reflexivity|]. split; cbn [fst snd].
  - revert Hd. apply pins_are_ext. intros h r. rewrite (elem_reasons_pins fst (fun r => from_persistent r.2)). unfold reasons. rewrite lookup_empty. cbn. rewrite <-Hin. split.
    + intros Hr. right. by exists (h, r).
    + intros [Hr|([h' r'] & Ha & <- & Er%from_persistent_inj)]; [set_solver|]. cbn in *. by subst.
  - apply (entries_pins fst (fun r => from_persistent r.2)); [by intros [? []] _|]. intros h rs Hh. by rewrite lookup_empty in Hh.
Qed.
Lemma pin_step_covers (o : PinOp) (st : PinRegistry * LifecycleDb) : pin_op_typed o -> table_ok st.2 ->
  table_ok (pin_step st o).2 /\ (direct_pin o = false -> covers_table st -> covers_table (pin_step st o)).
Proof.
  intros Ho [P HP]. destruct o as [o|refused reason pages|refused reason|]; cbn [pin_step].
  - split; [destruct (other_table o st.2 P Ho HP) as (Q & HQ & _); by exists Q|]. intros Hdir (He & R & HR & Hc). destruct (other_table o st.2 R Ho HR) as (Q & HQ & Hsub). split; [exact He|]. exists Q. split; [exact HQ|]. intros h r Hr. by apply Hc, Hsub.
  - unfold pin_batch. destruct (to_persistent reason) as [p|e] eqn:Ep; [|split; [by exists P|done]]. apply to_persistent_Ok in Ep as ->. destruct refused as [e|]; [split; [by exists P|done]|].
    destruct (pin_pages p _ st.2) as [[[] d']|e] eqn:E; [|split; [by exists P|done]]. assert (reason_typed p) as Hp by (by destruct p).
    assert (forall R, pins_are st.2 R -> pins_are d' (fun h r => R h r \/ h ∈ remove_dups (sort_by Z.leb pages) /\ r = p)) as Hpin.
    { intros R HR. by destruct (cache_pins_refine_set st.2 R p (remove_dups (sort_by Z.leb pages)) HR Hp) as (H & _); destruct (H d' E) as (? & _). }
    split; [eexists; by apply Hpin|]. intros _ (He & R & HR & Hc). split; [apply (entries_pins (fun p => p) (fun _ => from_persistent p)); [by destruct p|exact He]|].
    eexists. split; [by apply Hpin|]. intros h r Hr. cbn [fst snd]. rewrite (elem_reasons_pins (fun p => p) (fun _ => from_persistent p)). destruct Hr as [Hr|[Hh ->]]; [left; by apply Hc|right; by exists h].
  - unfold PinRegistry_release. destruct (to_persistent reason) as [p|e] eqn:Ep; [|split; [by exists P|done]]. apply to_persistent_Ok in Ep as ->. destruct refused as [e|]; [split; [by exists P|done]|].
    destruct (release_pins p st.2) as [[[] d']|e] eqn:E; [|split; [by exists P|done]]. assert (reason_typed p) as Hp by (by destruct p).
    assert (forall R, pins_are st.2 R -> pins_are d' (fun h r => R h r /\ r <> p)) as Hrel by (intros R HR; by apply (proj1 (proj2 (cache_pins_refine_set st.2 R p [] HR Hp)))).
    split; [eexists; by apply Hrel|]. intros _ (He & R & HR & Hc). split; [by apply entries_release|]. eexists. split; [by apply Hrel|]. intros h r [Hr Hne]. cbn [fst snd].
    rewrite reasons_release, elem_of_difference, elem_of_singleton. split; [by apply Hc|]. by intros ?%from_persistent_inj.
  - destruct (rebuild_table st.2 (ex_intro _ P HP)) as (pins & -> & [Hd He]). split; [by exists P|]. intros _ _. split; [exact He|]. eexists. split; [exact Hd|done].
Qed.
Lemma pin_run_table (l : list PinOp) (st : PinRegistry * LifecycleDb) : Forall pin_op_typed l -> table_ok st.2 -> table_ok (fold_left pin_step l st).2.
Proof. revert st. induction l as [|o l IH]; intros st Hl Hst; cbn [fold_left]; [done|]. apply Forall_cons in Hl as [Ho Hl]. apply IH; [done|]. by apply pin_step_covers. Qed.
Lemma pin_run_covers (l : list PinOp) (st : PinRegistry * LifecycleDb) : Forall pin_op_typed l -> Forall (fun o => direct_pin o = false) l -> table_ok st.2 -> covers_table st -> covers_table (fold_left pin_step l st).
Proof.
  revert st. induction l as [|o l IH]; intros st Hl Hd Ht Hst; cbn [fold_left]; [done|]. apply Forall_cons in Hl as [Ho Hl]. apply Forall_cons in Hd as [Hdo Hd]. destruct (pin_step_covers o st Ho Ht) as [H1 H2]. apply IH; [done|done|done|by apply H2].
Qed.
Lemma pin_run_agrees (l : list PinOp) (st : PinRegistry * LifecycleDb) : Forall pin_op_typed l -> Forall (fun o => direct o = false) l -> agrees st -> agrees (fold_left pin_step l st).
Proof. revert st. induction l as [|o l IH]; intros st Hl Hd Hst; cbn [fold_left]; [done|]. apply Forall_cons in Hl as [Ho Hl]. apply Forall_cons in Hd as [Hdo Hd]. apply IH; [done|done|by apply pin_step_agrees]. Qed.
Lemma batch_pins (l : list Hash) (reason : PinReason) (m : PinRegistry) (h : Hash) : PinRegistry_is_pinned (fold_left (add_pin reason) l m) h = PinRegistry_is_pinned m h || bool_decide (h ∈ l).
Proof.
  revert m. induction l as [|b l IH]; intros m; cbn [fold_left]; [rewrite (bool_decide_eq_false_2 (h ∈ [])) by apply not_elem_of_nil; by rewrite orb_false_r|].
  rewrite IH. unfold PinRegistry_is_pinned at 1, add_pin. destruct (decide (h = b)) as [->|Hne].
  - rewrite lookup_insert_eq. rewrite (bool_decide_eq_true_2 (b ∈ b :: l)) by left. rewrite bool_decide_eq_true_2 by set_solver. by rewrite orb_true_r.
  - rewrite lookup_insert_ne by done. fold (PinRegistry_is_pinned m h). f_equal. apply bool_decide_ext. rewrite elem_of_cons. naive_solver.
Qed.

(** C17: The pin registry against the stored pins.  After any history, pins and
    releases of other holders of the database included, a rebuild succeeds and
    holds exactly the stored pins.  From a restart on, the registry is what a
    rebuild would yield as long as pins are changed through it alone, and it
    still holds every stored pin as long as others only release.  A batch that
    succeeds pins all its pages and unpins none, a release takes away exactly its
    reason, and an operation that fails changes neither registry nor table. *)
Theorem pin_registry_is_table (before since : list PinOp) (Hb : Forall pin_op_typed before) (Hs : Forall pin_op_typed since) :
  let st := fold_left pin_step since (pin_step (fold_left pin_step before (∅, empty_lifecycle)) PRestart) in
  (exists pins, PinRegistry_rebuild st.2 = Ok pins /\
     (forall h r, reason_typed r -> from_persistent r ∈ reasons pins h <-> (h, encode_reason r) ∈ lc_pins st.2) /\
     (Forall (fun o => direct o = false) since -> st.1 = pins) /\
     (Forall (fun o => direct_pin o = false) since -> forall h, reasons pins h ⊆ reasons st.1 h)) /\
  (forall refused reason pages o st', pin_batch refused reason pages st = (o, st') ->
     match o with Ok _ => forall h, PinRegistry_is_pinned st'.1 h = PinRegistry_is_pinned st.1 h || bool_decide (h ∈ pages) | Err _ => st' = st end) /\
  (forall refused reason o st', PinRegistry_release refused reason st = (o, st') ->
     match o with Ok _ => forall h, reasons st'.1 h = reasons st.1 h ∖ {[reason]} | Err _ => st' = st end).
Proof.
  assert (table_ok (fold_left pin_step before (∅, empty_lifecycle)).2) as Ht0 by (apply pin_run_table; [done|]; eexists; exact (proj1 agrees_empty)).
  set (st0 := fold_left pin_step before _) in *. destruct (rebuild_table st0.2 Ht0) as (pins0 & E0 & Hag). assert (pin_step st0 PRestart = (pins0, st0.2)) as -> by (cbn [pin_step]; by rewrite E0).
  intros st. assert (table_ok st.2) as Ht by (by apply pin_run_table). destruct (rebuild_table st.2 Ht) as (pins & E & Hd & He). split_and!.
  - exists pins. split_and!; [exact E| | |].
    + intros h r Hr. destruct Hd as [Ht' Hd]. rewrite Hd. split; [intros Hx; by exists r|]. intros (r' & Er & Hr'). apply encode_reason_inj in Er; [by subst|done|by eapply Ht'].
    + intros Hdir. pose proof (rebuild_agrees st (pin_run_agrees since _ Hs Hdir Hag)) as E'. rewrite E in E'. by apply Ok_inj in E'.
    + intros Hdir h x Hx. destruct (pin_run_covers since (pins0, st0.2) Hs Hdir Ht0) as (_ & P & HP & Hc); [split; [exact (proj2 Hag)|]; eexists; split; [exact (proj1 Hag)|done]|].
      destruct (persistent_or_lease x) as [->|[p ->]]; [unfold reasons in Hx; destruct (pins !! h) as [rs|] eqn:Eh; [by apply (He h rs) in Eh as [_ ?]|set_solver]|].
      apply Hc. assert (reason_typed p) as Hp by (by eapply (proj1 Hd)). assert ((h, encode_reason p) ∈ lc_pins st.2) as Hin by (apply Hd; by exists p). apply (proj2 HP) in Hin as (r & Er & Hr).
      apply encode_reason_inj in Er; [by subst|done|by eapply (proj1 HP)].
  - intros refused reason pages o st'. unfold pin_batch. destruct (to_persistent reason); [|by intros [= <- <-]]. destruct refused; [by intros [= <- <-]|].
    destruct (pin_pages _ _ _) as [[? d']|e]; intros [= <- <-]; [|done]. intros h. cbn [fst]. rewrite batch_pins. f_equal. apply bool_decide_ext. rewrite elem_of_remove_dups. by rewrite sort_by_perm.
  - intros refused reason o st'. unfold PinRegistry_release. destruct (to_persistent reason); [|by intros [= <- <-]]. destruct refused; [by intros [= <- <-]|].
    destruct (release_pins _ _) as [[? d']|e]; intros [= <- <-]; [|done]. intros h. apply reasons_release.
Qed.
Definition pinned_slots : SlotDb := set_slots {[(0, 0) := mkSlotRow 1 2 (Some 7) 100]} empty_slots.
Definition pin_ops : list PinOp := [POther (OpCache pinned_slots); PPin None Mandatory [7; 7]; PPin (Some (sqlite "disk full")) Recovery [7]].
Lemma pin_registry_is_table_witness : let st := fold_left pin_step [PPin None Recovery [7]] (pin_step (fold_left pin_step pin_ops (∅, empty_lifecycle)) PRestart) in
  (exists pins, PinRegistry_rebuild st.2 = Ok pins /\ st.1 = pins) /\ PinRegistry_is_pinned st.1 7 = true /\ reasons (PinRegistry_release None Mandatory st).2.1 7 = {[Recovery]}.
Proof.
  destruct (pin_registry_is_table pin_ops [PPin None Recovery [7]]) as ((pins & H1 & _ & H2 & _) & _); [by repeat constructor|by repeat constructor|].
  split; [exists pins; split; [exact H1|apply H2; by repeat constructor]|]. split; [vm_compute; reflexivity|]. apply (proj1 (bool_decide_eq_true _)). vm_compute. reflexivity.
Defined.
(** A release straight in the database leaves the registry with the pin. *)
Example direct_release_unseen : let st := fold_left pin_step (pin_ops ++ [POther (OpRelease PinMandatory)]) (∅, empty_lifecycle) in
  PinRegistry_is_pinned st.1 7 = true /\ PinRegistry_rebuild st.2 = Ok ∅.
Proof. split; vm_compute; reflexivity. Qed.
