(* ===== verification/CacheStore.v ===== *)
(** * The cache arena on disk

    [mirage-cache/src/arena.rs], [shard.rs], [slot.rs], [recover.rs],
    [reserve.rs], [insert.rs] and [reconcile.rs]: the arena file and its
    metadata sidecar, the insertion of pages into slots reserved in the slot
    table, and the repair of the arena from the table.

    The operating system answers every call: it may move fewer bytes than
    asked, fail after part of a write, or halt the machine.  A file remembers
    which of its bytes were written after its last successful sync; a halt
    leaves those bytes arbitrary and ends the run without destructors.  A
    database call that reports an error has not committed; one that a halt
    cuts off has committed or has not.  BLAKE3 and CRC-32 are parameters.

    Proved: whatever the answers and whenever the machine halts, the bytes of
    every resident slot are synced and hash to the slot's page, unless the medium
    changed them by itself. *)
From S2P Require Export CacheFormat SlotTable.

(** ** Runs that may fail or halt *)
Inductive Ended (A : Type) : Type := Done (a : A) | Failed (e : MirageError) | Halted.
Arguments Done {A} a.
Arguments Failed {A} e.
Arguments Halted {A}.
Definition run (W A : Type) : Type := W -> Ended A * W.
#[export] Instance run_ret (W : Type) : MRet (run W) := fun A a w => (Done a, w).
#[export] Instance run_bind (W : Type) : MBind (run W) := fun A B k m w =>
  match m w with (Done a, w') => k a w' | (Failed e, w') => (Failed e, w') | (Halted, w') => (Halted, w') end.
Definition lift {W A : Type} (r : result A) : run W A := fun w => (match r with Ok a => Done a | Err e => Failed e end, w).
Definition fails {W A : Type} (e : MirageError) : run W A := fun w => (Failed e, w).
(** A [Result] that is inspected or ignored instead of returned. *)
Definition attempt {W A : Type} (m : run W A) : run W (result A) := fun w =>
  match m w with (Done a, w') => (Done (Ok a), w') | (Failed e, w') => (Done (Err e), w') | (Halted, w') => (Halted, w') end.
(** What [m] leaves is dropped by [d] on every return; a halt drops nothing. *)
Definition dropping {W A : Type} (d : run W ()) (m : run W A) : run W A := fun w =>
  match m w with
  | (Halted, w') => (Halted, w')
  | (o, w') => match d w' with (Halted, w'') => (Halted, w'') | (_, w'') => (o, w'') end
  end.

(** ** Files *)
(** [fi_dirty]: the ranges written since the last sync. *)
Record ArenaFile : Set := mkFile { fi_bytes : list Z; fi_dirty : list (Z * Z) }.
Inductive ShardFile : Set := DataFile | MetaFile.
(** [Whole]: all that was asked for.  [Part n]: at most [n] bytes.  [Broken n e]:
    an error after [n] bytes.  [Stopped n]: the machine halts after [n] bytes; in
    a database call, after its commit when [0 < n]. *)
Inductive Reply : Set := Whole | Part (n : Z) | Broken (n : Z) (e : MirageError) | Stopped (n : Z).
(** [ResidentPage]: the record and the gate word. *)
Record ResidentPage : Set := mkResident { rp_record : CacheSlotRecord; rp_gate : Z }.
Record Cache : Type := mkCache {
  ca_db : SlotDb; ca_data : ArenaFile; ca_meta : ArenaFile; ca_replies : list Reply;
  ca_committed : bool; ca_index : gmap Z ResidentPage; ca_pinned : gset Z
}.
Notation io := (run Cache).

Definition set_db (d : SlotDb) (c : Cache) : Cache := mkCache d (ca_data c) (ca_meta c) (ca_replies c) (ca_committed c) (ca_index c) (ca_pinned c).
Definition file (f : ShardFile) (c : Cache) : ArenaFile := match f with DataFile => ca_data c | MetaFile => ca_meta c end.
Definition set_file (f : ShardFile) (x : ArenaFile) (c : Cache) : Cache :=
  match f with
  | DataFile => mkCache (ca_db c) x (ca_meta c) (ca_replies c) (ca_committed c) (ca_index c) (ca_pinned c)
  | MetaFile => mkCache (ca_db c) (ca_data c) x (ca_replies c) (ca_committed c) (ca_index c) (ca_pinned c)
  end.
Definition set_replies (l : list Reply) (c : Cache) : Cache := mkCache (ca_db c) (ca_data c) (ca_meta c) l (ca_committed c) (ca_index c) (ca_pinned c).
Definition mark_committed (b : bool) (c : Cache) : Cache := mkCache (ca_db c) (ca_data c) (ca_meta c) (ca_replies c) b (ca_index c) (ca_pinned c).
Definition set_index (m : gmap Z ResidentPage) (c : Cache) : Cache :=
  mkCache (ca_db c) (ca_data c) (ca_meta c) (ca_replies c) (ca_committed c) m (ca_pinned c).
Definition update (f : Cache -> Cache) : io () := fun c => (Done (), f c).
Definition asks {A : Type} (f : Cache -> A) : io A := fun c => (Done (f c), c).

(** The next answer of the system; once the list is used up every call succeeds. *)
Definition reply : io Reply := fun c =>
  match ca_replies c with [] => (Done Whole, c) | r :: l => (Done r, set_replies l c) end.
Definition halt {A : Type} : io A := fun c => (Halted, c).

(** A write past the end extends the file with zeros. *)
Definition file_write (off : Z) (bs : list Z) (l : list Z) : list Z :=
  let o := Z.to_nat off in
  firstn o (l ++ zeros (o - length l)) ++ bs ++ skipn (o + length bs) l.
Definition put (f : ShardFile) (off : Z) (bs : list Z) (c : Cache) : Cache :=
  set_file f (mkFile (file_write off bs (fi_bytes (file f c))) ((off, Z.of_nat (length bs)) :: fi_dirty (file f c))) c.
Definition synced (f : ShardFile) (c : Cache) : Cache := set_file f (mkFile (fi_bytes (file f c)) []) c.

Definition io_error (m : string) : MirageError := MirageError_new Io (default_code Io) m.
Definition some_of (n : Z) (bs : list Z) : list Z := firstn (Z.to_nat n) bs.
(** [write_at]: the number of bytes written. *)
Definition os_write (f : ShardFile) (bs : list Z) (off : Z) : io Z :=
  r ← reply;
  match r with
  | Whole => _ ← update (put f off bs); mret (Z.of_nat (length bs))
  | Part n => _ ← update (put f off (some_of n bs)); mret (Z.of_nat (length (some_of n bs)))
  | Broken n e => _ ← update (put f off (some_of n bs)); fails e
  | Stopped n => _ ← update (put f off (some_of n bs)); halt
  end.
Definition os_read (f : ShardFile) (len off : Z) : io (list Z) :=
  r ← reply;
  l ← asks (fun c => get (Z.to_nat off) (Z.to_nat len) (fi_bytes (file f c)));
  match r with Whole => mret l | Part n => mret (some_of n l) | Broken _ e => fails e | Stopped _ => halt end.
Definition os_sync (f : ShardFile) : io () :=
  r ← reply;
  match r with Whole | Part _ => update (synced f) | Broken _ e => fails e | Stopped _ => halt end.

(** Every round moves a byte: the length of the buffer is enough fuel. *)
Fixpoint write_at_loop (fuel : nat) (f : ShardFile) (bs : list Z) (off : Z) : io () :=
  match bs, fuel with
  | [], _ | _, O => mret ()
  | _, S fuel =>
      n ← os_write f bs off;
      if n =? 0 then fails (io_error "write zero") else write_at_loop fuel f (skipn (Z.to_nat n) bs) (off + n)
  end.
Definition write_exact_at (f : ShardFile) (bs : list Z) (off : Z) : io () := write_at_loop (length bs) f bs off.
Fixpoint read_at_loop (fuel : nat) (f : ShardFile) (len off : Z) : io (list Z) :=
  match fuel with
  | O => mret []
  | S fuel' =>
      if len =? 0 then mret []
      else
        l ← os_read f len off;
        let n := Z.of_nat (length l) in
        if n =? 0 then fails (io_error "unexpected end of file")
        else rest ← read_at_loop fuel' f (len - n) (off + n); mret (l ++ rest)
  end.
Definition read_exact_at (f : ShardFile) (len off : Z) : io (list Z) := read_at_loop (Z.to_nat len) f len off.

(** A statement of the database, on its own connection or through the writer. *)
Definition db_call {A : Type} (op : SlotDb -> result A * SlotDb) : io A :=
  r ← reply;
  let run_op : io (result A) := fun c => (Done (op (ca_db c)).1, set_db (op (ca_db c)).2 c) in
  match r with
  | Whole | Part _ => o ← run_op; lift o
  | Broken _ e => fails e
  | Stopped n => _ ← (if 0 <? n then _ ← run_op; mret () else mret ()); halt
  end.
Definition tx {A : Type} (op : SlotDb -> result (A * SlotDb)) (d : SlotDb) : result A * SlotDb := transact (op d) d.

(** ** Slot records and metadata *)
Definition metadata_for (r : CacheSlotRecord) (s : SlotState) : SlotMetadata :=
  mkSlotMetadata (generation r) s (default 0 (page_hash r)) (logical_length r).
Definition same_state (s : CacheSlotState) (m : SlotState) : bool :=
  match s, m with
  | Free, SFree | Reserved, SReserved | Resident, SResident | Evicting, SEvicting | RetryDeallocate, SRetryDeallocate => true
  | _, _ => false
  end.
Definition metadata_matches (r : CacheSlotRecord) (m : SlotMetadata) : bool :=
  (generation r =? sm_generation m) && (logical_length r =? sm_logical_length m) &&
  (default 0 (page_hash r) =? sm_page_hash m) && same_state (state r) (sm_state m).
(** The record of a slot about to be freed. *)
Definition freed (r : CacheSlotRecord) : CacheSlotRecord := mkSlot (shard_id r) (slot_index r) (generation r) Free None 0.

Inductive InsertStep : Set := StepReserved | StepWritten | StepFlushed | StepRehashed | StepMetadataCommitted.
Inductive InsertOutcome : Set := InsertInserted (r : CacheSlotRecord) | InsertExisting (r : CacheSlotRecord).
Inductive ReconcileAction : Set := ReclaimReserved | FinishEviction | RewriteFreeMetadata | QuarantineResident.
Record ReconcileReport : Set := mkReport {
  rr_inspected : Z; rr_healthy_residents : Z; rr_actions : list (Z * ReconcileAction); rr_repaired : Z; rr_blocked : list string
}.

(** [ArenaShard]: the layout and whether the data handle is unbuffered. *)
Record ArenaShard : Set := mkShard { sh_layout : CacheLayout; sh_unbuffered : bool }.
Notation page_size s := (cl_page_size (sh_layout s)).

Definition metadata_offset (slot : Z) : result Z :=
  ok_or (invalid_argument "cache metadata offset overflows")
    (v ← checked_mul slot SLOT_METADATA_BYTES; checked_add v ARENA_HEADER_BYTES).
Definition metadata_length (l : CacheLayout) : result Z :=
  m ← metadata_bytes l; ok_or (invalid_argument "cache metadata length overflows") (checked_add m ARENA_HEADER_BYTES).

Section store.
Variables (blake3 : list Z -> Hash) (crc32 : list Z -> Z).
(** Whether the output buffers of reads are 4096-aligned. *)
Variable aligned : bool.

(** ** The shard *)
(** [create_new]: a file that exists is one of the errors the system may give. *)
Definition open_new (f : ShardFile) : io () :=
  r ← reply; match r with Whole | Part _ => update (set_file f (mkFile [] [])) | Broken _ e => fails e | Stopped _ => halt end.
Definition set_len (f : ShardFile) (n : Z) : io () :=
  r ← reply;
  match r with
  | Whole | Part _ => update (fun c => let l := fi_bytes (file f c) in
      set_file f (mkFile (firstn (Z.to_nat n) (l ++ zeros (Z.to_nat n - length l))) ((0, n) :: fi_dirty (file f c))) c)
  | Broken _ e => fails e
  | Stopped _ => halt
  end.
Fixpoint write_free_slots (encoded : list Z) (slot : Z) (n : nat) : io () :=
  match n with
  | O => mret ()
  | S n => off ← lift (metadata_offset slot); _ ← write_exact_at MetaFile encoded off; write_free_slots encoded (slot + 1) n
  end.
Definition ArenaShard_create (l : CacheLayout) : io ArenaShard :=
  _ ← lift (CacheLayout_validate l);
  _ ← open_new DataFile;
  n ← lift (logical_shard_bytes l);
  _ ← set_len DataFile n;
  header ← lift (ArenaHeader_encode crc32 (mkHeader (cl_page_size l) (cl_slot_count l)));
  _ ← write_exact_at DataFile header 0;
  _ ← os_sync DataFile;
  _ ← open_new MetaFile;
  m ← lift (metadata_length l);
  _ ← set_len MetaFile m;
  _ ← write_exact_at MetaFile header 0;
  _ ← write_free_slots (SlotMetadata_encode crc32 (mkSlotMetadata 0 SFree 0 0)) 0 (Z.to_nat (cl_slot_count l));
  _ ← os_sync MetaFile;
  mret (mkShard l false).

Definition file_len (f : ShardFile) : io Z :=
  r ← reply;
  match r with Whole | Part _ => asks (fun c => Z.of_nat (length (fi_bytes (file f c)))) | Broken _ e => fails e | Stopped _ => halt end.
Definition open_file : io () := r ← reply; match r with Whole | Part _ => mret () | Broken _ e => fails e | Stopped _ => halt end.
Definition open_inner (expected : CacheLayout) (unbuffered : bool) : io ArenaShard :=
  _ ← lift (CacheLayout_validate expected);
  if unbuffered && negb (cl_page_size expected mod 4096 =? 0)
  then fails (unsupported_layout "unbuffered cache reads require a 4096-multiple page size")
  else
    _ ← open_file;
    bytes ← read_exact_at DataFile ARENA_HEADER_BYTES 0;
    header ← lift (ArenaHeader_decode crc32 bytes);
    let mismatch := unsupported_layout "cache shard does not match expected layout" in
    if negb (ah_page_size header =? cl_page_size expected) || negb (ah_slot_count header =? cl_slot_count expected) then fails mismatch
    else
      len ← file_len DataFile;
      n ← lift (logical_shard_bytes expected);
      if negb (len =? n) then fails mismatch
      else
        _ ← open_file;
        bytes' ← read_exact_at MetaFile ARENA_HEADER_BYTES 0;
        header' ← lift (ArenaHeader_decode crc32 bytes');
        let sidecar := unsupported_layout "cache metadata sidecar does not match arena" in
        if negb ((ah_page_size header' =? ah_page_size header) && (ah_slot_count header' =? ah_slot_count header)) then fails sidecar
        else
          len' ← file_len MetaFile;
          m ← lift (metadata_length expected);
          if negb (len' =? m) then fails sidecar
          else _ ← (if unbuffered then open_file else mret ()); mret (mkShard expected unbuffered).

Definition write_slot (s : ArenaShard) (slot : Z) (bs : list Z) : io () :=
  if (length bs =? 0)%nat || (page_size s <? Z.of_nat (length bs)) then fails (invalid_argument "cache slot payload length is invalid")
  else off ← lift (slot_offset (sh_layout s) slot); write_exact_at DataFile bs off.
Definition write_slots_contiguous (s : ArenaShard) (first_slot slot_count : Z) (bs : list Z) : io () :=
  if (slot_count =? 0) || (length bs =? 0)%nat then fails (invalid_argument "contiguous write covers zero slots or bytes")
  else
    last_slot ← lift (ok_or (invalid_argument "contiguous write slot overflows")
      (if first_slot + (slot_count - 1) <=? u32_max then Some (first_slot + (slot_count - 1)) else None));
    _ ← lift (slot_offset (sh_layout s) last_slot);
    full_prefix ← lift (ok_or (invalid_argument "contiguous write window overflows") (checked_mul (slot_count - 1) (page_size s)));
    let len := Z.of_nat (length bs) in
    if (len <=? full_prefix) || (full_prefix + page_size s <? len)
    then fails (invalid_argument "contiguous write payload does not fill every slot but the last")
    else off ← lift (slot_offset (sh_layout s) first_slot); write_exact_at DataFile bs off.

(** The scratch window of an unaligned read. *)
Definition read_slot_unbuffered (s : ArenaShard) (slot window_bytes offset len : Z) : io (list Z) :=
  slot_base ← lift (slot_offset (sh_layout s) slot);
  if len =? 0 then mret []
  else if (offset mod 4096 =? 0) && (len mod 4096 =? 0) && aligned then read_exact_at DataFile len (slot_base + offset)
  else
    let start := Z.land offset (Z.lnot 4095) in
    let want_end := offset + len in
    let end_ := Z.min (Z.land (want_end + 4095) (Z.lnot 4095)) window_bytes in
    scratch ← read_exact_at DataFile (end_ - start) (slot_base + start);
    mret (get (Z.to_nat (offset - start)) (Z.to_nat len) scratch).
Definition read_slot (s : ArenaShard) (slot logical_length offset len : Z) : io (list Z) :=
  end_ ← lift (ok_or (invalid_argument "cache read range overflows") (checked_add offset len));
  if (logical_length <? end_) || (page_size s <? logical_length) then fails (invalid_argument "cache read exceeds resident logical length")
  else if sh_unbuffered s then read_slot_unbuffered s slot (page_size s) offset len
  else
    base ← lift (slot_offset (sh_layout s) slot);
    off ← lift (ok_or (invalid_argument "cache read offset overflows") (checked_add base offset));
    read_exact_at DataFile len off.
Definition read_slots_contiguous (s : ArenaShard) (first_slot slot_count offset len : Z) : io (list Z) :=
  if slot_count =? 0 then fails (invalid_argument "contiguous read covers zero slots")
  else
    last_slot ← lift (ok_or (invalid_argument "contiguous read slot overflows")
      (if first_slot + (slot_count - 1) <=? u32_max then Some (first_slot + (slot_count - 1)) else None));
    _ ← lift (slot_offset (sh_layout s) last_slot);
    window_bytes ← lift (ok_or (invalid_argument "contiguous read window overflows") (checked_mul slot_count (page_size s)));
    end_ ← lift (ok_or (invalid_argument "contiguous read range overflows") (checked_add offset len));
    if window_bytes <? end_ then fails (invalid_argument "contiguous read exceeds the slot window")
    else if sh_unbuffered s then read_slot_unbuffered s first_slot window_bytes offset len
    else
      base ← lift (slot_offset (sh_layout s) first_slot);
      off ← lift (ok_or (invalid_argument "contiguous read offset overflows") (checked_add base offset));
      read_exact_at DataFile len off.

Definition write_metadata (s : ArenaShard) (slot : Z) (m : SlotMetadata) : io () :=
  _ ← lift (slot_offset (sh_layout s) slot);
  off ← lift (metadata_offset slot);
  write_exact_at MetaFile (SlotMetadata_encode crc32 m) off.
Definition read_metadata (s : ArenaShard) (slot : Z) : io SlotMetadata :=
  _ ← lift (slot_offset (sh_layout s) slot);
  off ← lift (metadata_offset slot);
  bytes ← read_exact_at MetaFile SLOT_METADATA_BYTES off;
  lift (SlotMetadata_decode crc32 bytes).
Definition flush_metadata : io () := os_sync MetaFile.
Definition flush : io () := os_sync DataFile.

(** The portable [deallocate]: zeros in chunks of 64 KiB, then a sync. *)
Definition ZERO_CHUNK : Z := 65536.
Fixpoint zero_chunks (fuel : nat) (remaining cursor : Z) : io () :=
  match fuel with
  | O => mret ()
  | S fuel =>
      if remaining =? 0 then mret ()
      else
        let count := Z.min remaining ZERO_CHUNK in
        _ ← write_exact_at DataFile (zeros (Z.to_nat count)) cursor;
        zero_chunks fuel (remaining - count) (cursor + count)
  end.
Definition deallocate (offset length_ : Z) : io () :=
  _ ← zero_chunks (Z.to_nat (length_ / ZERO_CHUNK + 1)) length_ offset; os_sync DataFile.
Definition deallocate_slot (s : ArenaShard) (slot : Z) : io () :=
  off ← lift (slot_offset (sh_layout s) slot); deallocate off (page_size s).

(** A metadata record and its sync. *)
Definition write_synced (s : ArenaShard) (slot : Z) (m : SlotMetadata) : io () :=
  _ ← write_metadata s slot m; flush_metadata.

(** ** Insertion *)
(** [SlotReservation::drop]. *)
Definition quarantine_and_deallocate (s : ArenaShard) (record : CacheSlotRecord) : io () :=
  committed ← asks ca_committed;
  if committed : bool then mret ()
  else
    released ← attempt (db_call (tx (release_cache_reservation record)));
    match released with
    | Err _ => mret ()
    | Ok _ =>
        let evicting := with_state Evicting record in
        _ ← attempt (write_metadata s (slot_index record) (metadata_for evicting SEvicting));
        _ ← attempt flush_metadata;
        freed_ ← attempt (deallocate_slot s (slot_index record));
        match freed_ with
        | Ok _ =>
            _ ← attempt (write_metadata s (slot_index record) (metadata_for (freed record) SFree));
            _ ← attempt flush_metadata;
            _ ← attempt (db_call (tx (finish_deallocation evicting))); mret ()
        | Err _ => _ ← attempt (db_call (tx (mark_retry evicting))); mret ()
        end
    end.
Fixpoint drop_reservations (s : ArenaShard) (records : list CacheSlotRecord) : io () :=
  match records with [] => mret () | r :: rs => _ ← quarantine_and_deallocate s r; drop_reservations s rs end.

(** From the reserved metadata record to the resident one. *)
Definition stage_page (s : ArenaShard) (hook : InsertStep -> result ()) (mismatch : string) (record : CacheSlotRecord) (expected : Hash) (bytes : list Z) : io () :=
  _ ← write_synced s (slot_index record) (metadata_for record SReserved);
  _ ← lift (hook StepReserved);
  _ ← write_slot s (slot_index record) bytes;
  _ ← lift (hook StepWritten);
  _ ← flush;
  _ ← lift (hook StepFlushed);
  verified ← read_slot s (slot_index record) (logical_length record) 0 (Z.of_nat (length bytes));
  if negb (blake3 verified =? expected) then fails (integrity_mismatch mismatch)
  else
    _ ← lift (hook StepRehashed);
    write_synced s (slot_index record) (metadata_for (with_state Resident record) SResident).
(** The page became resident in another slot: this one is freed, or left for a
    later deallocation. *)
Definition retire_duplicate (s : ArenaShard) (record : CacheSlotRecord) : io bool :=
  let evicting := with_state Evicting record in
  _ ← write_synced s (slot_index record) (metadata_for evicting SEvicting);
  freed_ ← attempt (deallocate_slot s (slot_index record));
  match freed_ with
  | Ok _ =>
      _ ← write_synced s (slot_index record) (metadata_for (freed record) SFree);
      _ ← db_call (tx (finish_deallocation evicting)); mret true
  | Err _ => _ ← db_call (tx (mark_retry evicting)); mret false
  end.

Definition insert_page (s : ArenaShard) (hook : InsertStep -> result ()) (expected : Hash) (bytes : list Z) : io InsertOutcome :=
  let logical := Z.of_nat (length bytes) in
  if u32_max <? logical then fails (invalid_argument "cache page exceeds u32")
  else if (logical =? 0) || (page_size s <? logical) then fails (invalid_argument "cache page length is outside the shard layout")
  else
    o ← db_call (reserve_cache_slot expected logical);
    match o with
    | ReserveExisting existing => mret (InsertExisting existing)
    | ReserveReserved record =>
        if negb (shard_id record =? 0) then fails (unsupported_layout "insertion shard routing is not configured")
        else
          _ ← update (mark_committed false);
          dropping (quarantine_and_deallocate s record)
            (_ ← stage_page s hook "cache payload rehash differs from reservation" record expected bytes;
             committed ← db_call (tx (commit_slot record));
             match committed with
             | CommitCommitted resident =>
                 _ ← update (mark_committed true); _ ← lift (hook StepMetadataCommitted); mret (InsertInserted resident)
             | CommitExisting existing =>
                 freed_ ← retire_duplicate s record;
                 if negb freed_ then fails (cache_full "duplicate slot deallocation requires retry")
                 else _ ← update (mark_committed true); mret (InsertExisting existing)
             end)
    end.

Definition insert_reserved_page (s : ArenaShard) (hook : InsertStep -> result ()) (record : CacheSlotRecord) (expected : Hash) (bytes : list Z) : io InsertOutcome :=
  if negb (bool_decide (state record = Reserved)) || negb (bool_decide (page_hash record = Some expected)) ||
     negb (logical_length record =? Z.of_nat (length bytes)) || negb (shard_id record =? 0) || (length bytes =? 0)%nat ||
     (page_size s <? Z.of_nat (length bytes))
  then fails (invalid_argument "reserved cache page does not match its payload")
  else
    _ ← update (mark_committed false);
    dropping (quarantine_and_deallocate s record)
      (_ ← stage_page s hook "cache payload rehash differs from batch reservation" record expected bytes;
       committed ← db_call (tx (commit_slot record));
       match committed with
       | CommitCommitted resident =>
           _ ← update (mark_committed true); _ ← lift (hook StepMetadataCommitted); mret (InsertInserted resident)
       | CommitExisting existing =>
           _ ← retire_duplicate s record; _ ← update (mark_committed true); mret (InsertExisting existing)
       end).

(** The pages that follow [prev] in its run. *)
Fixpoint extend_run (size : Z) (prev : CacheSlotRecord * list Z) (rest : list (CacheSlotRecord * list Z))
  : list (CacheSlotRecord * list Z) * list (CacheSlotRecord * list Z) :=
  match rest with
  | next :: rest' =>
      if (Z.of_nat (length prev.2) =? size) && (slot_index prev.1 + 1 <=? u32_max) && (slot_index next.1 =? slot_index prev.1 + 1)
      then let '(run_, remaining) := extend_run size next rest' in (next :: run_, remaining)
      else ([], rest)
  | [] => ([], [])
  end.
(** Every round takes a page: the number of pages is enough fuel. *)
Fixpoint write_runs (fuel : nat) (s : ArenaShard) (ordered : list (CacheSlotRecord * list Z)) : io () :=
  match ordered, fuel with
  | [], _ | _, O => mret ()
  | first :: rest, S fuel =>
      let '(run_, remaining) := extend_run (page_size s) first rest in
      _ ← (match run_ with
           | [] => write_slot s (slot_index first.1) first.2
           | _ => write_slots_contiguous s (slot_index first.1) (Z.of_nat (length (first :: run_))) (concat (map snd (first :: run_)))
           end);
      write_runs fuel s remaining
  end.
Definition write_contiguous_runs (s : ArenaShard) (pages : list (CacheSlotRecord * list Z)) : io () :=
  write_runs (length pages) s (sort_by_key (fun p => slot_index p.1) pages).

(** The checks of a batch; the result is its total length. *)
Fixpoint check_batch (s : ArenaShard) (slots : gset Z) (hashes : gset (option Z)) (total : Z) (pages : list (CacheSlotRecord * list Z)) : result Z :=
  match pages with
  | [] => Ok total
  | (record, bytes) :: rest =>
      if negb (bool_decide (state record = Reserved)) || negb (shard_id record =? 0) || bool_decide (page_hash record = None) ||
         negb (logical_length record =? Z.of_nat (length bytes)) || (length bytes =? 0)%nat || (page_size s <? Z.of_nat (length bytes)) ||
         bool_decide (slot_index record ∈ slots) || bool_decide (page_hash record ∈ hashes)
      then Err (invalid_argument "invalid or duplicate reserved cache batch page")
      else
        _ ← slot_offset (sh_layout s) (slot_index record);
        total ← ok_or (invalid_argument "cache insertion batch length overflows") (checked_add total (Z.of_nat (length bytes)));
        check_batch s ({[slot_index record]} ∪ slots) ({[page_hash record]} ∪ hashes) total rest
  end.
Fixpoint write_metadata_all (s : ArenaShard) (f : CacheSlotRecord -> SlotMetadata) (pages : list (CacheSlotRecord * list Z)) : io () :=
  match pages with
  | [] => mret ()
  | (record, _) :: rest => _ ← write_metadata s (slot_index record) (f record); write_metadata_all s f rest
  end.
Fixpoint rehash_all (s : ArenaShard) (pages : list (CacheSlotRecord * list Z)) : io () :=
  match pages with
  | [] => mret ()
  | (record, bytes) :: rest =>
      verified ← read_slot s (slot_index record) (logical_length record) 0 (Z.of_nat (length bytes));
      if negb (bool_decide (Some (blake3 verified) = page_hash record))
      then fails (integrity_mismatch "cache batch payload rehash differs from reservation")
      else rehash_all s rest
  end.
Definition insert_reserved_pages (s : ArenaShard) (hook : InsertStep -> result ()) (pages : list (CacheSlotRecord * list Z)) : io (list CacheSlotRecord) :=
  if (length pages =? 0)%nat || (64 <? length pages)%nat then fails (invalid_argument "cache insertion batch must contain 1 to 64 pages")
  else
    total ← lift (check_batch s ∅ ∅ 0 pages);
    if 33554432 <? total then fails (invalid_argument "cache insertion batch exceeds 32 MiB")
    else
      _ ← update (mark_committed false);
      dropping (drop_reservations s (map fst pages))
        (_ ← write_metadata_all s (fun r => metadata_for r SReserved) pages;
         _ ← flush_metadata;
         _ ← lift (hook StepReserved);
         _ ← write_contiguous_runs s pages;
         _ ← lift (hook StepWritten);
         _ ← flush;
         _ ← lift (hook StepFlushed);
         _ ← rehash_all s pages;
         _ ← lift (hook StepRehashed);
         _ ← write_metadata_all s (fun r => metadata_for (with_state Resident r) SResident) pages;
         _ ← flush_metadata;
         committed ← db_call (tx (commit_batch (map fst pages)));
         _ ← update (mark_committed true);
         _ ← lift (hook StepMetadataCommitted);
         mret committed).

(** ** Reconciliation *)
Definition write_free (s : ArenaShard) (record : CacheSlotRecord) : io () :=
  write_synced s (slot_index record) (metadata_for (freed record) SFree).
(** An evicting slot is zeroed and freed. *)
Definition finish_slot (s : ArenaShard) (record evicting : CacheSlotRecord) : io () :=
  _ ← deallocate_slot s (slot_index record);
  _ ← write_free s record;
  db_call (tx (finish_deallocation evicting)).
Definition act (action : Z * ReconcileAction) (repaired : bool) (r : ReconcileReport) : ReconcileReport :=
  mkReport (rr_inspected r) (rr_healthy_residents r) (rr_actions r ++ [action]) (if repaired then rr_repaired r + 1 else rr_repaired r) (rr_blocked r).
Definition is_ok_and {A : Type} (p : A -> bool) (r : result A) : bool := match r with Ok a => p a | Err _ => false end.
Definition reconcile_slot (s : ArenaShard) (dry_run : bool) (record : CacheSlotRecord) (r0 : ReconcileReport) : io ReconcileReport :=
  let r := mkReport (rr_inspected r0 + 1) (rr_healthy_residents r0) (rr_actions r0) (rr_repaired r0) (rr_blocked r0) in
  if negb (shard_id record =? 0) || (cl_slot_count (sh_layout s) <=? slot_index record)
  then mret (mkReport (rr_inspected r) (rr_healthy_residents r) (rr_actions r) (rr_repaired r)
               (rr_blocked r ++ ["cache DB references an unavailable shard or slot"%string]))
  else
    metadata ← attempt (read_metadata s (slot_index record));
    let healthy := is_ok_and (metadata_matches record) metadata in
    let repair (a : ReconcileAction) (m : io ()) : io ReconcileReport :=
      if dry_run then mret (act (slot_index record, a) false r) else _ ← m; mret (act (slot_index record, a) true r) in
    match state record with
    | Free =>
        if healthy then mret r
        else repair RewriteFreeMetadata (_ ← deallocate_slot s (slot_index record); write_free s record)
    | Reserved =>
        repair ReclaimReserved
          (_ ← db_call (tx (release_cache_reservation record));
           let evicting := with_state Evicting record in
           _ ← write_synced s (slot_index record) (metadata_for evicting SEvicting);
           finish_slot s record evicting)
    | Evicting | RetryDeallocate => repair FinishEviction (finish_slot s record record)
    | Resident =>
        if healthy then mret (mkReport (rr_inspected r) (rr_healthy_residents r + 1) (rr_actions r) (rr_repaired r) (rr_blocked r))
        else
          repair QuarantineResident
            (evicting ← db_call (tx (begin_cache_eviction record));
             _ ← write_synced s (slot_index record) (metadata_for evicting SEvicting);
             finish_slot s record evicting)
    end.
Fixpoint reconcile_all (s : ArenaShard) (dry_run : bool) (records : list CacheSlotRecord) (r : ReconcileReport) : io ReconcileReport :=
  match records with
  | [] => mret r
  | record :: rest => r ← reconcile_slot s dry_run record r; reconcile_all s dry_run rest r
  end.
Definition reconcile (s : ArenaShard) (dry_run : bool) : io ReconcileReport :=
  records ← db_call (fun d => (load_all d, d));
  report ← reconcile_all s dry_run records (mkReport 0 0 [] 0 []);
  _ ← (if dry_run then mret () else flush_metadata);
  mret report.
End store.

(** ** Runs on a small arena *)
Definition t_blake (l : list Z) : Hash := sum256 l.
Definition t_layout : CacheLayout := mkLayout 8 2 0 0.
Definition t_arena : ArenaShard := mkShard t_layout false.
Definition t_cache (replies : list Reply) : Cache :=
  mkCache t_db (mkFile (zeros 4112) []) (mkFile (zeros 8320) []) replies true ∅ ∅.
Definition t_insert (replies : list Reply) : Ended InsertOutcome * Cache :=
  insert_page t_blake sum32 false t_arena (fun _ => Ok ()) (t_blake [1; 2; 3]) [1; 2; 3] (t_cache replies).

Example insert_succeeds : (t_insert []).1 = Done (InsertInserted (mkSlot 0 0 1 Resident (Some (t_blake [1; 2; 3])) 3)).
Proof. vm_compute. reflexivity. Qed.
Example short_writes_are_continued : (t_insert [Whole; Part 10; Part 7]).1 = (t_insert []).1.
Proof. vm_compute. reflexivity. Qed.
(** A write that fails half way: the slot is free again. *)
Example failed_write_frees_slot :
  let '(o, c) := t_insert [Whole; Whole; Whole; Broken 2 (io_error "disk")] in
  o = Failed (io_error "disk") /\ cache_slots (ca_db c) !! (0, 0) = Some (mkSlotRow 1 0 None 0) /\ get 4096 8 (fi_bytes (ca_data c)) = zeros 8.
Proof. vm_compute. done. Qed.
Example halted_insert_is_reclaimed :
  let '(o, c) := t_insert [Whole; Whole; Whole; Stopped 2] in
  o = Halted /\ cache_slots (ca_db c) !! (0, 0) = Some (mkSlotRow 1 1 (Some (t_blake [1; 2; 3])) 3) /\
  let '(o', c') := reconcile sum32 t_arena false c in
  o' = Done (mkReport 2 0 [(0, ReclaimReserved)] 1 []) /\
  cache_slots (ca_db c') !! (0, 0) = Some (mkSlotRow 1 0 None 0).
Proof. vm_compute. done. Qed.

(** ** A program logic for runs

    Assertions speak of the tables, the data file and the resident index; a
    triple has one postcondition for the values returned and one for errors
    and halts. *)
Record Core : Type := mkCore { co_db : SlotDb; co_data : ArenaFile; co_index : gmap Z ResidentPage }.
Definition core (c : Cache) : Core := mkCore (ca_db c) (ca_data c) (ca_index c).
Definition with_db (d : SlotDb) (k : Core) : Core := mkCore d (co_data k) (co_index k).
Definition with_data (f : ArenaFile) (k : Core) : Core := mkCore (co_db k) f (co_index k).
Notation asn := (Core -> Prop).
Definition hoare {A : Type} (P : asn) (m : io A) (Q : A -> asn) (E : asn) : Prop :=
  forall c, P (core c) -> match m c with (Done a, c') => Q a (core c') | (Failed _, c') | (Halted, c') => E (core c') end.
(** [m] keeps [P] however it ends. *)
Notation keeps P m := (hoare P m (fun _ => P) P).

Section rules.
Context {A B : Type}.
Implicit Types (P R E : asn) (Q : A -> asn) (m : io A).
Lemma h_ret P Q E (a : A) : (forall k, P k -> Q a k) -> hoare P (mret a) Q E.
Proof. intros H c Hc. by apply H. Qed.
Lemma h_fails P Q E (e : MirageError) : (forall k, P k -> E k) -> hoare P (fails e : io A) Q E.
Proof. intros H c Hc. by apply H. Qed.
Lemma h_halt P Q E : (forall k, P k -> E k) -> hoare P (halt : io A) Q E.
Proof. intros H c Hc. by apply H. Qed.
Lemma h_lift P Q E (r : result A) : (forall k a, P k -> r = Ok a -> Q a k) -> (forall k, P k -> E k) -> hoare P (lift r) Q E.
Proof. intros H HE c Hc. destruct r as [a|e]; cbn; [by apply H|by apply HE]. Qed.
Lemma h_conseq (P P' : asn) (Q Q' : A -> asn) (E E' : asn) m :
  hoare P' m Q' E' -> (forall k, P k -> P' k) -> (forall a k, Q' a k -> Q a k) -> (forall k, E' k -> E k) -> hoare P m Q E.
Proof. intros H HP HQ HE c Hc. specialize (H c (HP _ Hc)). destruct (m c) as [[a|e|] c']; auto. Qed.
Lemma h_pre (P P' : asn) Q E m : hoare P' m Q E -> (forall k, P k -> P' k) -> hoare P m Q E.
Proof. intros H HP. by eapply h_conseq; [exact H|..]. Qed.
Lemma h_bind P E m (k : A -> io B) (R : A -> asn) (Q : B -> asn) : hoare P m R E -> (forall a, hoare (R a) (k a) Q E) -> hoare P (m ≫= k) Q E.
Proof. intros Hm Hk c Hc. specialize (Hm c Hc). unfold mbind, run_bind. destruct (m c) as [[a|e|] c']; [exact (Hk a c' Hm)|done|done]. Qed.
Lemma h_attempt P E (F : asn) m (Q : result A -> asn) :
  hoare P m (fun a => Q (Ok a)) F -> (forall k e, F k -> Q (Err e) k) -> (forall k, F k -> E k) -> hoare P (attempt m) Q E.
Proof. intros Hm HQ HE c Hc. specialize (Hm c Hc). unfold attempt. destruct (m c) as [[a|e|] c']; auto. Qed.
Lemma h_dropping P R m (d : io ()) : hoare P m (fun _ => R) R -> keeps R d -> hoare P (dropping d m) (fun _ => R) R.
Proof.
  intros Hm Hd c Hc. specialize (Hm c Hc). unfold dropping. destruct (m c) as [[a|e|] c']; [..|done];
    specialize (Hd c' Hm); destruct (d c') as [[u|e'|] c'']; done.
Qed.
(** A fact that the state does not change. *)
Lemma h_pure (phi : Prop) P Q E m : (phi -> hoare P m Q E) -> hoare (fun k => phi /\ P k) m Q E.
Proof. intros H c [Hphi Hc]. by apply H. Qed.
Lemma h_if (b : bool) P Q E (m n : io A) : (b = true -> hoare P m Q E) -> (b = false -> hoare P n Q E) -> hoare P (if b then m else n) Q E.
Proof. destruct b; auto. Qed.
End rules.

Lemma h_reply {A : Type} (P : asn) (k : Reply -> io A) (Q : A -> asn) (E : asn) : (forall r, hoare P (k r) Q E) -> hoare P (reply ≫= k) Q E.
Proof. intros H. eapply h_bind; [|exact H]. intros c Hc. unfold reply. by destruct (ca_replies c). Qed.
Lemma h_update (P Q E : asn) (f : Cache -> Cache) : (forall c, P (core c) -> Q (core (f c))) -> hoare P (update f) (fun _ => Q) E.
Proof. intros H c Hc. by apply H. Qed.
Lemma h_set_committed (P E : asn) (b : bool) : hoare P (update (mark_committed b)) (fun _ => P) E.
Proof. by apply h_update. Qed.

Lemma get_length_le (o n : nat) (l : list Z) : (length (get o n l) <= n)%nat.
Proof. unfold get. rewrite firstn_length. lia. Qed.
Lemma h_read (P : asn) (f : ShardFile) (len off : Z) :
  hoare P (os_read f len off) (fun l k => (length l <= Z.to_nat len)%nat /\ P k /\ (f = DataFile -> exists n, l = firstn n (get (Z.to_nat off) (Z.to_nat len) (fi_bytes (co_data k))))) P.
Proof.
  apply h_reply. intros r. apply (h_bind _ _ _ _ (fun l k => (length l <= Z.to_nat len)%nat /\ P k /\ (f = DataFile -> l = get (Z.to_nat off) (Z.to_nat len) (fi_bytes (co_data k))))).
  { intros c Hc. cbn. split_and!; [apply get_length_le|done|]. by intros ->. }
  intros l. destruct r as [|n|n e|n].
  - apply h_ret. intros k (Hn & Hk & Hl). split_and!; [done|done|]. intros Hf. exists (length l). rewrite <-(Hl Hf). by rewrite firstn_all.
  - apply h_ret. intros k (Hn & Hk & Hl). split_and!; [unfold some_of; rewrite firstn_length; lia|done|]. intros Hf. exists (Z.to_nat n). by rewrite <-(Hl Hf).
  - apply h_fails. by intros k (_ & ? & _).
  - apply h_halt. by intros k (_ & ? & _).
Qed.
Lemma get_split (o n a : nat) (l : list Z) : (a <= n)%nat -> get o n l = get o a l ++ get (o + a) (n - a) l.
Proof. intros H. unfold get. rewrite <-drop_drop, take_take_drop. f_equal. lia. Qed.
Lemma prefix_get (n o len : nat) (l : list Z) : firstn n (get o len l) = get o (length (firstn n (get o len l))) l.
Proof.
  unfold get. set (k := skipn o l). clearbody k. rewrite firstn_firstn, firstn_length.
  destruct (decide (min n len <= length k)%nat) as [Hd|Hd]; [by rewrite (Nat.min_l (min n len)) by lia|].
  rewrite (Nat.min_r (min n len)) by lia. rewrite !firstn_all2; [done|lia|lia].
Qed.
(** A read that returns has read the bytes asked for. *)
Lemma h_read_loop (P : asn) (fuel : nat) (f : ShardFile) (len off : Z) :
  0 <= off -> 0 <= len <= Z.of_nat fuel ->
  hoare P (read_at_loop fuel f len off) (fun l k => P k /\ (f = DataFile -> l = get (Z.to_nat off) (Z.to_nat len) (fi_bytes (co_data k)))) P.
Proof.
  revert P len off. induction fuel as [|fuel IH]; intros P len off Hoff Hlen; cbn [read_at_loop].
  { apply h_ret. intros k Hk. split; [done|]. intros _. by replace len with 0 by lia. }
  apply h_if; [intros ->%Z.eqb_eq; by apply h_ret; intros k Hk; split|]. intros Hne%Z.eqb_neq.
  eapply h_bind; [apply h_read|]. intros l. cbv zeta. apply h_if; [intros _; apply h_fails; by intros k (_ & ? & _)|]. intros Hl%Z.eqb_neq.
  apply h_pure. intros Hle. apply (h_bind _ _ _ _ (fun rest k => (P k /\ (f = DataFile -> l = get (Z.to_nat off) (length l) (fi_bytes (co_data k)))) /\
    (f = DataFile -> rest = get (Z.to_nat (off + Z.of_nat (length l))) (Z.to_nat (len - Z.of_nat (length l))) (fi_bytes (co_data k))))).
  - eapply h_conseq; [apply (IH (fun k => P k /\ (f = DataFile -> l = get (Z.to_nat off) (length l) (fi_bytes (co_data k)))) (len - Z.of_nat (length l)) (off + Z.of_nat (length l))); lia| |done|by intros k [? _]].
    intros k [Hk Hx]. split; [done|]. intros Hf. destruct (Hx Hf) as [n ->]. apply prefix_get.
  - intros rest. apply h_ret. intros k [[Hk Hx] Hr]. split; [done|]. intros Hf. rewrite (get_split _ _ (length l)) by lia.
    rewrite <-(Hx Hf). f_equal. rewrite (Hr Hf). f_equal; lia.
Qed.
Lemma h_read_exact (P : asn) (f : ShardFile) (len off : Z) : 0 <= off -> 0 <= len ->
  hoare P (read_exact_at f len off) (fun l k => P k /\ (f = DataFile -> l = get (Z.to_nat off) (Z.to_nat len) (fi_bytes (co_data k)))) P.
Proof. intros. apply h_read_loop; lia. Qed.

Lemma h_sync (P : asn) (f : ShardFile) :
  hoare P (os_sync f) (fun _ k => match f with DataFile => exists d, P (with_data (mkFile (fi_bytes (co_data k)) d) k) /\ fi_dirty (co_data k) = [] | MetaFile => P k end) P.
Proof.
  apply h_reply. intros [|n|n e|n]; [..|by apply h_fails|by apply h_halt];
    intros c Hc; destruct f; cbn; try done; exists (fi_dirty (ca_data c)); split; [|done| |done]; unfold with_data; cbn; destruct c as [? [? ?]]; exact Hc.
Qed.

(** A write keeps what every part of it keeps. *)
Definition written (off : Z) (bs : list Z) (f : ArenaFile) : ArenaFile :=
  mkFile (file_write off bs (fi_bytes f)) ((off, Z.of_nat (length bs)) :: fi_dirty f).
Lemma h_write_loop (P : asn) (fuel : nat) (f : ShardFile) (bs : list Z) (off : Z) :
  (length bs <= fuel)%nat ->
  (f = DataFile -> forall o l k, off <= o -> o + Z.of_nat (length l) <= off + Z.of_nat (length bs) -> P k -> P (with_data (written o l (co_data k)) k)) ->
  keeps P (write_at_loop fuel f bs off).
Proof.
  revert bs off. induction fuel as [|fuel IH]; intros bs off Hf HP; [destruct bs; by apply h_ret|].
  destruct bs as [|b bs]; [by apply h_ret|]. set (l := b :: bs) in *. cbn [write_at_loop]. 
  assert (forall n c, P (core c) -> P (core (put f off (firstn n l) c))) as Hput.
  { intros n c Hc. destruct f; [|exact Hc]. apply (HP eq_refl off (firstn n l) (core c)); [lia|rewrite firstn_length; lia|done]. }
  apply (h_bind _ _ _ _ (fun n k => P k /\ 0 <= n <= Z.of_nat (length l))).
  - apply h_reply. intros [|n|n e|n]; (eapply h_bind; [apply (h_update P P); intros c Hc; first [exact (Hput _ c Hc)|pose proof (Hput (length l) c Hc) as Hw; rewrite firstn_all in Hw; exact Hw]|]; intros u).
    + apply h_ret. intros k Hk. split; [done|lia].
    + apply h_ret. intros k Hk. split; [done|]. unfold some_of. rewrite firstn_length. lia.
    + by apply h_fails.
    + by apply h_halt.
  - intros n. apply h_if; [intros _; apply h_fails; by intros k [? _]|]. intros Hn%Z.eqb_neq.
    intros c [Hc Hb]. apply IH; [rewrite length_skipn; lia| |done]. intros Hd o x k Ho Hx. apply (HP Hd); [lia|]. rewrite length_skipn in Hx. lia.
Qed.
Lemma h_write_meta (P : asn) (bs : list Z) (off : Z) : keeps P (write_exact_at MetaFile bs off).
Proof. by apply h_write_loop. Qed.

(** ** Bytes of a file *)
Lemma file_write_in (off : Z) (bs l : list Z) : 0 <= off -> off + Z.of_nat (length bs) <= Z.of_nat (length l) ->
  file_write off bs l = firstn (Z.to_nat off) l ++ bs ++ skipn (Z.to_nat off + length bs) l.
Proof. intros H0 H. unfold file_write. replace (Z.to_nat off - length l)%nat with 0%nat by lia. by rewrite app_nil_r. Qed.
Lemma file_write_length (off : Z) (bs l : list Z) : 0 <= off -> off + Z.of_nat (length bs) <= Z.of_nat (length l) ->
  length (file_write off bs l) = length l.
Proof. intros H0 H. rewrite file_write_in by done. rewrite !length_app, firstn_length, length_skipn. lia. Qed.
Lemma file_write_nil (off : Z) (l : list Z) : 0 <= off <= Z.of_nat (length l) -> file_write off [] l = l.
Proof. intros H. rewrite file_write_in by (cbn; lia). cbn. by rewrite Nat.add_0_r, firstn_skipn. Qed.
Lemma get_firstn (o n m : nat) (l : list Z) : (o + n <= m)%nat -> get o n (firstn m l) = get o n l.
Proof. intros H. unfold get. rewrite skipn_firstn_comm, firstn_firstn. f_equal. lia. Qed.
(** A write leaves the ranges it does not touch. *)
Lemma get_file_write (off : Z) (bs l : list Z) (o n : nat) : 0 <= off -> off + Z.of_nat (length bs) <= Z.of_nat (length l) ->
  (o + n <= Z.to_nat off)%nat \/ (Z.to_nat off + length bs <= o)%nat -> get o n (file_write off bs l) = get o n l.
Proof.
  intros H0 H Hd. rewrite file_write_in by done. assert (length (firstn (Z.to_nat off) l) = Z.to_nat off) as Hlen by (rewrite firstn_length; lia).
  destruct Hd as [Hd|Hd].
  - rewrite get_app_l by lia. by apply get_firstn.
  - rewrite !get_app_r by lia. unfold get. rewrite skipn_skipn. do 2 f_equal. lia.
Qed.
Lemma get_file_write_self (off : Z) (bs l : list Z) : 0 <= off -> off + Z.of_nat (length bs) <= Z.of_nat (length l) ->
  get (Z.to_nat off) (length bs) (file_write off bs l) = bs.
Proof.
  intros H0 H. rewrite file_write_in by done. assert (length (firstn (Z.to_nat off) l) = Z.to_nat off) as Hlen by (rewrite firstn_length; lia).
  rewrite get_app_r by lia. rewrite Hlen, Nat.sub_diag. by apply get_app_0.
Qed.

(** ** Invariants of the store *)
Definition geometry (l : CacheLayout) : Prop :=
  0 < cl_page_size l /\ 0 <= cl_slot_count l /\ cl_slot_count l * cl_page_size l + ARENA_HEADER_BYTES <= u64_max.
Lemma validate_geometry (l : CacheLayout) : CacheLayout_validate l = Ok () -> 0 <= cl_slot_count l -> geometry l.
Proof. intros (H1 & _ & _ & H2)%CacheLayout_validate_Ok H0. unfold geometry. lia. Qed.

Lemma slot_index_nonneg (d : SlotDb) (key : Z * Z) (x : SlotRow) : slot_inv d -> cache_slots d !! key = Some x -> 0 <= key.2.
Proof. intros Hd Hx. destruct (proj1 Hd _ _ Hx) as (Hc & _). destruct x. by apply slot_check_iff in Hc as (? & _). Qed.

(** The slots whose bytes the medium may change by itself. *)
Class Medium : Type := worn : Z -> bool.
Section invariants.
Context {M : Medium}.
Variables (blake3 : list Z -> Hash) (s : ArenaShard).
Notation size := (page_size s).
Notation count := (cl_slot_count (sh_layout s)).
Definition base (i : Z) : Z := i * size + ARENA_HEADER_BYTES.
Definition slot_bytes (i len : Z) (f : ArenaFile) : list Z := get (Z.to_nat (base i)) (Z.to_nat len) (fi_bytes f).
Definition dirty_at (f : ArenaFile) (p : Z) : Prop := exists o n, (o, n) ∈ fi_dirty f /\ o <= p < o + n.
(** The first [len] bytes of slot [i] are on the disk and hash to the page,
    unless the medium may have changed them. *)
Definition page_good (i len : Z) (h : option Hash) (f : ArenaFile) : Prop :=
  worn i = true \/ Some (blake3 (slot_bytes i len f)) = h /\ forall p, base i <= p < base i + len -> ~ dirty_at f p.
Record store_ok (k : Core) : Prop := mkStoreOk {
  so_slots : slot_inv (co_db k);
  so_length : Z.of_nat (length (fi_bytes (co_data k))) = base count;
  so_resident : forall key x, cache_slots (co_db k) !! key = Some x -> sr_state x = 2 ->
    key.1 = 0 /\ key.2 < count /\ sr_logical_length x <= size /\ page_good key.2 (sr_logical_length x) (sr_page_hash x) (co_data k)
}.
(** No slot of [O] is resident. *)
Definition unused (O : Z -> Prop) (k : Core) : Prop := forall i x, O i -> cache_slots (co_db k) !! (0, i) = Some x -> sr_state x <> 2.
Definition owns (O : Z -> Prop) (k : Core) : Prop := store_ok k /\ unused O k.

Context (Hgeo : geometry (sh_layout s)).
Lemma base_header (i : Z) : 0 <= i -> ARENA_HEADER_BYTES <= base i.
Proof. destruct Hgeo. unfold base. nia. Qed.
Lemma base_end (i : Z) : i < count -> base i + size <= base count.
Proof. destruct Hgeo. unfold base. nia. Qed.
Lemma slot_offset_iff (i o : Z) : 0 <= i -> slot_offset (sh_layout s) i = Ok o <-> i < count /\ o = base i.
Proof.
  intros Hi. unfold slot_offset. destruct Hgeo as (Hs & Hc & Hmax). destruct (Z.leb_spec count i) as [Hle|Hlt]; [split; [done|lia]|].
  assert (HH : ARENA_HEADER_BYTES = 4096) by reflexivity.
  assert (i * size + ARENA_HEADER_BYTES <= u64_max) as Hb by nia. unfold checked_mul.
  rewrite (proj2 (Z.leb_le _ _)) by lia. cbn. rewrite checked_add_fits by lia. cbn. unfold base. split; [intros [= <-]; lia|by intros [_ ->]].
Qed.
Lemma base_inj (i j p : Z) : base i <= p < base i + size -> base j <= p < base j + size -> i = j.
Proof. intros Hi Hj. unfold base in *. destruct Hgeo as (Hs & _). nia. Qed.

(** [off, off + n) lies in the windows of slots of [O]. *)
Definition span_covers (O : Z -> Prop) (off n : Z) : Prop :=
  0 <= off /\ off + n <= base count /\ forall p, off <= p < off + n -> exists i, O i /\ base i <= p < base i + size.
Lemma covers_slot (O : Z -> Prop) (i n : Z) : O i -> 0 <= i < count -> n <= size -> span_covers O (base i) n.
Proof.
  intros HO Hi Hn. pose proof (base_header i ltac:(lia)) as Hh. pose proof (base_end i ltac:(lia)) as He.
  assert (HH : ARENA_HEADER_BYTES = 4096) by reflexivity.
  split_and!; [lia|lia|]. intros p Hp. exists i. split; [done|lia].
Qed.

Lemma dirty_written (off : Z) (l : list Z) (f : ArenaFile) (p : Z) :
  dirty_at (written off l f) p <-> off <= p < off + Z.of_nat (length l) \/ dirty_at f p.
Proof.
  unfold dirty_at, written. cbn. split.
  - intros (o & n & [[= -> ->]|Hin]%elem_of_cons & Hp); [by left|right; eauto].
  - intros [Hp|(o & n & Hin & Hp)]; [exists off, (Z.of_nat (length l)); split; [left|done]|exists o, n; split; [by right|done]].
Qed.
(** Writing to unused slots keeps every resident page. *)
Lemma owns_written (O : Z -> Prop) (off n o : Z) (l : list Z) (k : Core) :
  span_covers O off n -> off <= o -> o + Z.of_nat (length l) <= off + n -> owns O k -> owns O (with_data (written o l (co_data k)) k).
Proof.
  intros (H0 & Hend & Hcov) Ho Hn [[Hs Hlen Hres] Hun]. split; [|exact Hun]. split; cbn; [done| |].
  - rewrite file_write_length; [done|lia|rewrite Hlen; lia].
  - intros key x Hx H2. destruct (Hres key x Hx H2) as (Hk & Hi & Hsz & [Hw|[Hh Hclean]]); [split_and!; [done..|by left]|]. split_and!; [done..|right].
    pose proof (slot_index_nonneg _ _ _ Hs Hx) as Hk2.
    assert (forall p, base key.2 <= p < base key.2 + sr_logical_length x -> ~ o <= p < o + Z.of_nat (length l)) as Hsep.
    { intros p Hp Hw. destruct (Hcov p ltac:(lia)) as (i & HOi & Hpi). assert (i = key.2) as -> by (apply (base_inj i key.2 p); lia).
      destruct key as [k1 k2]. cbn in *. subst k1. exact (Hun k2 x HOi Hx H2). }
    pose proof (base_header key.2 Hk2) as Hb. assert (HH : ARENA_HEADER_BYTES = 4096) by reflexivity. split.
    + rewrite <-Hh. unfold slot_bytes. cbn. do 2 f_equal. destruct (decide (length l = 0)%nat) as [->%nil_length_inv|Hne].
      { rewrite file_write_nil; [done|]. cbn in *. lia. }
      destruct (decide (sr_logical_length x <= 0)) as [Hz|Hz]. { replace (Z.to_nat (sr_logical_length x)) with 0%nat by lia. done. }
      apply get_file_write; [lia|rewrite Hlen; lia|].
      pose proof (Hsep (Z.max o (base key.2))) as Hm. lia.
    + intros p Hp Hd%dirty_written. destruct Hd as [Hd|Hd]; [exact (Hsep p Hp Hd)|exact (Hclean p Hp Hd)].
Qed.
Lemma h_write_covered (O : Z -> Prop) (bs : list Z) (off : Z) : span_covers O off (Z.of_nat (length bs)) -> keeps (owns O) (write_exact_at DataFile bs off).
Proof. intros Hc. apply h_write_loop; [done|]. intros _ o l k Ho Hl. by apply (owns_written O off (Z.of_nat (length bs))). Qed.

Lemma owns_synced (O : Z -> Prop) (k : Core) (d : list (Z * Z)) :
  owns O (with_data (mkFile (fi_bytes (co_data k)) d) k) -> fi_dirty (co_data k) = [] -> owns O k.
Proof.
  intros [[Hs Hlen Hres] Hun] Hd. split; [|exact Hun]. split; [done|done|]. intros key x Hx H2.
  destruct (Hres key x Hx H2) as (Hk & Hi & Hsz & [Hw|[Hh _]]); [split_and!; [done..|by left]|]. split_and!; [done..|right]. split; [done|].
  intros p _ (o & n & Hin & _). rewrite Hd in Hin. by apply elem_of_nil in Hin.
Qed.
Lemma h_flush (O : Z -> Prop) : hoare (owns O) flush (fun _ k => owns O k /\ fi_dirty (co_data k) = []) (owns O).
Proof. eapply h_conseq; [apply h_sync|done| |done]. intros u k (d & Hk & Hd). split; [by eapply owns_synced|done]. Qed.
Lemma keeps_flush (O : Z -> Prop) : keeps (owns O) flush.
Proof. eapply h_conseq; [apply h_flush|done|by intros u k [? _]|done]. Qed.

(** Statements that make no slot resident. *)
Definition quiet {A : Type} (op : SlotDb -> result A * SlotDb) : Prop := forall d, slot_inv d -> slot_inv (op d).2 /\
  forall key x, cache_slots (op d).2 !! key = Some x -> sr_state x = 2 -> cache_slots d !! key = Some x.
Lemma owns_quiet {A : Type} (op : SlotDb -> result A * SlotDb) (O : Z -> Prop) (k : Core) : quiet op -> owns O k -> owns O (with_db (op (co_db k)).2 k).
Proof.
  intros Hq [[Hs Hlen Hres] Hun]. destruct (Hq _ Hs) as [Hs' Hback]. split.
  - split; cbn; [done|done|]. intros key x Hx H2. exact (Hres key x (Hback key x Hx H2) H2).
  - intros i x Hi Hx H2. exact (Hun i x Hi (Hback _ x Hx H2) H2).
Qed.
End invariants.

Lemma h_db {A : Type} (P E : asn) (Q : A -> asn) (op : SlotDb -> result A * SlotDb) :
  (forall k, P k -> E k) -> (forall k, P k -> E (with_db (op (co_db k)).2 k)) ->
  (forall k a, P k -> (op (co_db k)).1 = Ok a -> Q a (with_db (op (co_db k)).2 k)) -> hoare P (db_call op) Q E.
Proof.
  intros HE1 HE2 HQ. apply h_reply. intros r c Hc. pose proof (HE1 _ Hc) as H1. pose proof (HE2 _ Hc) as H2.
  pose proof (fun a => HQ (core c) a Hc) as H3. cbn in *. 
  destruct r as [|n|n e|n]; cbn; unfold mbind, run_bind; cbn; try (destruct (op (ca_db c)).1; cbn; [by apply H3|done]); try destruct (0 <? n); done.
Qed.
Lemma h_quiet {M : Medium} {A : Type} (blake3 : list Z -> Hash) (s : ArenaShard) (O : Z -> Prop) (op : SlotDb -> result A * SlotDb) :
  quiet op -> keeps (owns blake3 s O) (db_call op).
Proof. intros Hq. apply h_db; [done|..]; intros; by apply owns_quiet. Qed.
Lemma moves_quiet (ev : SlotEvent) (d d' : SlotDb) (key : Z * Z) (x : SlotRow) : ev <> EvPublish -> moves ev d d' ->
  cache_slots d' !! key = Some x -> sr_state x = 2 -> cache_slots d !! key = Some x.
Proof.
  intros Hne [_ Hm] Hx H2. destruct (Hm key) as [->|(r & r' & _ & Hr' & He)]; [done|]. rewrite Hx in Hr'. injection Hr' as <-. by inversion He; subst.
Qed.
Lemma quiet_tx {A : Type} (op : SlotDb -> result (A * SlotDb)) (ev : SlotEvent) : ev <> EvPublish ->
  (forall a d d', slot_inv d -> op d = Ok (a, d') -> slot_inv d' /\ moves ev d d') -> quiet (tx op).
Proof.
  intros Hne H d Hd. unfold tx, transact. destruct (op d) as [[a d']|e] eqn:Eo; cbn; [|done]. destruct (H a d d' Hd Eo) as [Hd' Hm].
  split; [done|]. intros key x. by apply (moves_quiet ev d d').
Qed.
Lemma quiet_release (r : CacheSlotRecord) : quiet (tx (release_cache_reservation r)).
Proof. apply (quiet_tx _ EvQuarantine); [done|]. intros a d d'. apply release_moves. Qed.
Lemma quiet_finish (r : CacheSlotRecord) : quiet (tx (finish_deallocation r)).
Proof. apply (quiet_tx _ EvFree); [done|]. intros a d d'. apply finish_deallocation_moves. Qed.
Lemma quiet_retry (r : CacheSlotRecord) : quiet (tx (mark_retry r)).
Proof. apply (quiet_tx _ EvRetry); [done|]. intros a d d'. apply mark_retry_moves. Qed.
Lemma quiet_begin (r : CacheSlotRecord) : quiet (tx (begin_cache_eviction r)).
Proof. apply (quiet_tx _ EvQuarantine); [done|]. intros a d d'. apply begin_eviction_moves. Qed.
Lemma quiet_reserve (h len : Z) : in_u32 len -> quiet (reserve_cache_slot h len).
Proof.
  intros Hl d Hd. destruct (reserve_cache_slot_moves h len d Hl Hd) as [Hd' Hm]. split; [done|]. intros key x. by apply (moves_quiet EvReserve).
Qed.

(** ** Slots *)
Lemma land_lnot_4095 (x : Z) : 0 <= x -> Z.land x (Z.lnot 4095) = x - x mod 4096.
Proof.
  intros Hx. change 4095 with (Z.ones 12). rewrite <-Z.ldiff_land, Z.ldiff_ones_r by lia.
  rewrite Z.shiftl_mul_pow2, Z.shiftr_div_pow2 by lia. change (2 ^ 12) with 4096. pose proof (Z.div_mod x 4096 ltac:(lia)). lia.
Qed.
Lemma get_get (a n o m : nat) (l : list Z) : (o + m <= n)%nat -> get o m (get a n l) = get (a + o) m l.
Proof. intros H. unfold get at 2. rewrite get_firstn by done. unfold get. by rewrite drop_drop. Qed.

Section slots.
Context {M : Medium}.
Variables (blake3 : list Z -> Hash) (crc32 : list Z -> Z) (aligned : bool) (s : ArenaShard).
Notation size := (page_size s).
Notation count := (cl_slot_count (sh_layout s)).
Notation owns := (owns blake3 s).
Context (Hgeo : geometry (sh_layout s)).

Lemma h_then {A B : Type} (P E : asn) (Q : B -> asn) (m : io A) (k : A -> io B) : (forall x, P x -> E x) -> keeps P m -> (forall a, hoare P (k a) Q E) -> hoare P (m ≫= k) Q E.
Proof. intros HE Hm Hk. eapply h_bind; [|exact Hk]. eapply h_conseq; [exact Hm|done|done|done]. Qed.
Lemma h_guard {A B : Type} (P E : asn) (Q : B -> asn) (r : result A) (k : A -> io B) : (forall x, P x -> E x) -> (forall a, r = Ok a -> hoare P (k a) Q E) -> hoare P (lift r ≫= k) Q E.
Proof. intros HE Hk. eapply (h_bind _ _ _ _ (fun a x => r = Ok a /\ P x)); [by apply h_lift|]. intros a. apply h_pure. by apply Hk. Qed.

Lemma keeps_write_metadata (P : asn) (i : Z) (m : SlotMetadata) : keeps P (write_metadata crc32 s i m).
Proof. apply h_guard; [done|]. intros _ _. apply h_guard; [done|]. intros off _. apply h_write_meta. Qed.
Lemma keeps_flush_metadata (P : asn) : keeps P flush_metadata.
Proof. apply (h_sync P MetaFile). Qed.
Lemma keeps_write_synced (P : asn) (i : Z) (m : SlotMetadata) : keeps P (write_synced crc32 s i m).
Proof. apply h_then; [done|apply keeps_write_metadata|]. intros _. apply keeps_flush_metadata. Qed.
Lemma metadata_offset_nonneg (i o : Z) : 0 <= i -> metadata_offset i = Ok o -> 0 <= o.
Proof.
  intros Hi Ho. unfold metadata_offset in Ho. apply ok_or_Ok_inv, bind_Some in Ho as (v & Hv%checked_mul_Some & Ho%checked_add_Some).
  assert (H1 : SLOT_METADATA_BYTES = 64) by reflexivity. assert (H2 : ARENA_HEADER_BYTES = 4096) by reflexivity. nia.
Qed.
Lemma keeps_read_metadata (P : asn) (i : Z) : 0 <= i -> keeps P (read_metadata crc32 s i).
Proof.
  intros Hi. apply h_guard; [done|]. intros _ _. apply h_guard; [done|]. intros off Ho%metadata_offset_nonneg; [|done].
  apply h_then; [done| |intros l; by apply h_lift]. eapply h_conseq; [by apply (h_read_exact P)|done|by intros l k [? _]|done].
Qed.
Lemma keeps_attempt {A : Type} (P : asn) (m : io A) : keeps P m -> keeps P (attempt m).
Proof. intros H. by apply (h_attempt _ _ P). Qed.

Lemma keeps_zero_chunks (O : Z -> Prop) (fuel : nat) (remaining cursor : Z) : 0 <= remaining -> span_covers s O cursor remaining -> keeps (owns O) (zero_chunks fuel remaining cursor).
Proof.
  revert remaining cursor. induction fuel as [|fuel IH]; intros remaining cursor H0 (Hc1 & Hc2 & Hc3); [by apply h_ret|]. cbn [zero_chunks].
  apply h_if; [intros _; by apply h_ret|]. intros _. cbv zeta. assert (HZ : ZERO_CHUNK = 65536) by reflexivity. set (n := Z.min remaining ZERO_CHUNK).
  apply h_then; [done| |].
  - apply h_write_covered; [done|]. rewrite length_zeros. split_and!; [lia|lia|]. intros p Hp. apply Hc3. lia.
  - intros _. apply IH; [lia|]. split_and!; [lia|lia|]. intros p Hp. apply Hc3. lia.
Qed.
Lemma keeps_deallocate_slot (O : Z -> Prop) (i : Z) : O i -> 0 <= i -> keeps (owns O) (deallocate_slot s i).
Proof.
  intros HO Hi. apply h_guard; [done|]. intros off [Hlt ->]%(slot_offset_iff s Hgeo); [|done].
  apply h_then; [done| |intros _; by apply keeps_flush]. destruct Hgeo as (Hs & _). apply keeps_zero_chunks; [lia|by apply covers_slot].
Qed.
Lemma keeps_write_slot (O : Z -> Prop) (i : Z) (bs : list Z) : O i -> 0 <= i -> keeps (owns O) (write_slot s i bs).
Proof.
  intros HO Hi. apply h_if; [intros _; by apply h_fails|]. intros [_ Hl%Z.ltb_ge]%orb_false_iff.
  apply h_guard; [done|]. intros off [Hlt ->]%(slot_offset_iff s Hgeo); [|done]. apply h_write_covered; [done|]. by apply covers_slot.
Qed.

Lemma h_read_unbuffered (P : asn) (i window offset len : Z) : 0 <= i -> 0 <= offset -> 0 <= len -> offset + len <= window ->
  hoare P (read_slot_unbuffered aligned s i window offset len)
    (fun l k => (i < count /\ l = get (Z.to_nat (base s i + offset)) (Z.to_nat len) (fi_bytes (co_data k))) /\ P k) P.
Proof.
  intros Hi Ho Hl Hw. apply h_guard; [done|]. intros off [Hlt ->]%(slot_offset_iff s Hgeo); [|done].
  pose proof (base_header s Hgeo i Hi) as Hb. assert (HH : ARENA_HEADER_BYTES = 4096) by reflexivity.
  apply h_if; [intros ->%Z.eqb_eq; by apply h_ret|]. intros Hne%Z.eqb_neq. apply h_if.
  - intros _. eapply h_conseq; [apply (h_read_exact P); lia|done| |done]. intros l k [Hk Hx]. rewrite (Hx eq_refl). by split.
  - intros _. cbv zeta. rewrite !land_lnot_4095 by lia. pose proof (Z.mod_pos_bound offset 4096 ltac:(lia)) as Hm. pose proof (Z.mod_pos_bound (offset + len + 4095) 4096 ltac:(lia)) as Hm'.
    pose proof (Z.mod_le offset 4096 ltac:(lia) ltac:(lia)) as Hle.
    set (start := offset - offset mod 4096) in *. set (end_ := Z.min _ window) in *.
    assert (offset + len <= end_) as He by lia.
    eapply h_bind; [apply (h_read_exact P); lia|]. intros l. apply h_ret. intros k [Hk Hx]. split; [|done]. split; [done|].
    rewrite (Hx eq_refl), get_get by lia. f_equal. lia.
Qed.
(** A read that returns has the bytes of the slot. *)
Lemma h_read_slot (P : asn) (i logical offset len : Z) : 0 <= i -> 0 <= offset -> 0 <= len ->
  hoare P (read_slot aligned s i logical offset len)
    (fun l k => (i < count /\ l = get (Z.to_nat (base s i + offset)) (Z.to_nat len) (fi_bytes (co_data k)) /\ offset + len <= logical /\ logical <= size) /\ P k) P.
Proof.
  intros Hi Ho Hl. apply h_guard; [done|]. intros e [_ ->]%ok_or_Ok_inv%checked_add_Some.
  apply h_if; [intros _; by apply h_fails|]. intros [H1%Z.ltb_ge H2%Z.ltb_ge]%orb_false_iff. apply h_if; intros _.
  - eapply h_conseq; [apply h_read_unbuffered; [done|done|done|lia]|done| |done]. intros l k [[H3 H4] Hk]. by split_and!.
  - apply h_guard; [done|]. intros b [Hlt ->]%(slot_offset_iff s Hgeo); [|done]. apply h_guard; [done|]. intros off [_ ->]%ok_or_Ok_inv%checked_add_Some.
    pose proof (base_header s Hgeo i Hi) as Hb. assert (HH : ARENA_HEADER_BYTES = 4096) by reflexivity.
    eapply h_conseq; [apply (h_read_exact P); lia|done| |done]. intros l k [Hk Hx]. rewrite (Hx eq_refl). by split_and!.
Qed.

(** ** Insertion keeps the store *)
(** What a statement that makes slots resident may publish. *)
Definition publishes {A : Type} (G : Z -> Z -> option Hash -> Prop) (op : SlotDb -> result A * SlotDb) : Prop := forall d, slot_inv d ->
  slot_inv (op d).2 /\ forall key x, cache_slots (op d).2 !! key = Some x -> sr_state x = 2 ->
    cache_slots d !! key = Some x \/ key.1 = 0 /\ G key.2 (sr_logical_length x) (sr_page_hash x).
Definition staged (G : Z -> Z -> option Hash -> Prop) (k : Core) : Prop :=
  forall i len h, G i len h -> i < count /\ len <= size /\ page_good blake3 s i len h (co_data k).
Lemma store_publishes {A : Type} (G : Z -> Z -> option Hash -> Prop) (op : SlotDb -> result A * SlotDb) (k : Core) :
  publishes G op -> staged G k -> store_ok blake3 s k -> store_ok blake3 s (with_db (op (co_db k)).2 k).
Proof.
  intros Hp Hg [Hs Hlen Hres]. destruct (Hp _ Hs) as [Hs' Hback]. split; cbn; [done|done|]. intros key x Hx H2.
  destruct (Hback key x Hx H2) as [Hold|[H0 HG]]; [by apply Hres|]. destruct (Hg _ _ _ HG) as (? & ? & ?). by split_and!.
Qed.
Definition of_record (r : CacheSlotRecord) (i len : Z) (h : option Hash) : Prop := i = slot_index r /\ len = logical_length r /\ h = page_hash r.

Lemma require_Ok (r : CacheSlotRecord) (st : CacheSlotState) (h : Hash) : require r st = Ok h -> page_hash r = Some h /\ state r = st /\ logical_length r <> 0.
Proof.
  unfold require. destruct (page_hash r) as [h'|]; [|done]. destruct (_ || _) eqn:E; [done|]. intros [= <-].
  apply orb_false_iff in E as [E1%negb_false_iff%bool_decide_eq_true E2%Z.eqb_neq]. done.
Qed.
Lemma publish_update (context : string) (r : CacheSlotRecord) (h : Hash) (d d' : SlotDb) (n : Z) : page_hash r = Some h ->
  update_slot context r (fun x => in_state Reserved x && holds_page h (logical_length r) x) (set_state Resident) d = Ok (n, d') ->
  forall key x, cache_slots d' !! key = Some x -> sr_state x = 2 -> cache_slots d !! key = Some x \/ key = slot_of r /\ of_record r key.2 (sr_logical_length x) (sr_page_hash x).
Proof.
  intros Hh [(-> & ->)|(-> & y & Hy & _ & Hp & _ & ->)]%update_slot_Ok key x Hx H2; [by left|]. cbn in Hx.
  destruct (decide ((shard_id r, slot_index r) = key)) as [<-|Hne]; [|rewrite lookup_insert_ne in Hx by done; by left]. right.
  rewrite lookup_insert_eq in Hx. injection Hx as <-. apply andb_true_iff in Hp as [_ Hp]. apply andb_true_iff in Hp as [Hp1%bool_decide_eq_true Hp2%Z.eqb_eq].
  split; [done|]. split_and!; [done|done|]. cbn. congruence.
Qed.
Lemma commit_publishes (r : CacheSlotRecord) : shard_id r = 0 -> publishes (of_record r) (tx (commit_slot r)).
Proof.
  intros H0 d Hd. unfold tx, transact. destruct (commit_slot r d) as [[o d']|e] eqn:Ec; cbn; [|by split; [done|left]].
  destruct (commit_slot_moves r d d' o Hd Ec) as [Hd' _]. split; [done|]. intros key x Hx H2. unfold commit_slot in Ec.
  apply bind_Ok_inv in Ec as (h & Hr%require_Ok & Ec). apply bind_Ok_inv in Ec as ([y|] & _ & Ec).
  - apply bind_Ok_inv in Ec as (d1 & Ht & [= _ <-]). apply transition_moves in Ht as [_ Hm]; [|by auto|done]. left. by apply (moves_quiet EvQuarantine d d1).
  - apply bind_Ok_inv in Ec as ([n d1] & Hu & Ec). destruct (negb (n =? 1)); [done|]. injection Ec as _ <-.
    destruct (publish_update _ r h d d1 n (proj1 Hr) Hu key x Hx H2) as [?|[-> ?]]; [by left|by right].
Qed.
(** The answer tells whether the reserved slot was published or retired. *)
Lemma commit_existing (r e : CacheSlotRecord) (d : SlotDb) : (tx (commit_slot r) d).1 = Ok (CommitExisting e) ->
  slot_inv d -> forall key x, cache_slots (tx (commit_slot r) d).2 !! key = Some x -> sr_state x = 2 -> cache_slots d !! key = Some x.
Proof.
  unfold tx, transact. destruct (commit_slot r d) as [[o d']|e'] eqn:Ec; cbn; [|done]. intros [= ->] Hd key x Hx H2. unfold commit_slot in Ec.
  apply bind_Ok_inv in Ec as (h & _ & Ec). apply bind_Ok_inv in Ec as ([y|] & _ & Ec).
  - apply bind_Ok_inv in Ec as (d1 & Ht & [= _ <-]). apply transition_moves in Ht as [_ Hm]; [|by auto|done]. by apply (moves_quiet EvQuarantine d d1).
  - apply bind_Ok_inv in Ec as ([n d1] & _ & Ec). by destruct (negb (n =? 1)).
Qed.

Lemma owns_store (O : Z -> Prop) (k : Core) : owns O k -> store_ok blake3 s k.
Proof. by intros [? _]. Qed.
Lemma owns_none (k : Core) : store_ok blake3 s k -> owns (fun _ => False) k.
Proof. intros H. split; [done|]. by intros i x []. Qed.

(** A released reservation is an evicting slot. *)
Lemma transition_row (r : CacheSlotRecord) (st : CacheSlotState) (d d' : SlotDb) : transition_to_evicting r st d = Ok d' ->
  exists x, cache_slots d' !! slot_of r = Some x /\ sr_state x = 3.
Proof.
  intros ([n d1] & Hu & H)%bind_Ok_inv. destruct (Z.eqb_spec n 1) as [->|]; [|done]. injection H as <-.
  apply update_slot_Ok in Hu as [[? _]|(_ & x & _ & _ & _ & _ & ->)]; [done|]. cbn. unfold slot_of. rewrite lookup_insert_eq. by eexists.
Qed.
Lemma h_release (r : CacheSlotRecord) : shard_id r = 0 ->
  hoare (store_ok blake3 s) (db_call (tx (release_cache_reservation r))) (fun _ k => 0 <= slot_index r /\ owns (fun i => i = slot_index r) k) (store_ok blake3 s).
Proof.
  intros H0. assert (forall k, store_ok blake3 s k -> store_ok blake3 s (with_db (tx (release_cache_reservation r) (co_db k)).2 k)) as Hq.
  { intros k Hk%owns_none. exact (proj1 (owns_quiet blake3 s _ _ k (quiet_release r) Hk)). }
  apply h_db; [done|exact Hq|]. intros k u Hk Ho. pose proof (Hq k Hk) as Hk'. unfold tx, transact in *.
  destruct (release_cache_reservation r (co_db k)) as [[u' d']|e] eqn:Er; [|done]. cbn in *.
  apply bind_Ok_inv in Er as (h & _ & Er). apply bind_Ok_inv in Er as (d1 & (x & Hx & H3)%transition_row & [= _ <-]).
  split; [exact (slot_index_nonneg _ _ _ (so_slots _ _ _ Hk') Hx)|]. split; [done|].
  intros i y -> Hy. cbn in Hy. unfold slot_of in Hx. rewrite H0 in Hx. rewrite Hx in Hy. injection Hy as <-. lia.
Qed.
Lemma keeps_quarantine (r : CacheSlotRecord) : shard_id r = 0 -> keeps (store_ok blake3 s) (quarantine_and_deallocate crc32 s r).
Proof.
  intros H0. unfold quarantine_and_deallocate. apply (h_bind _ _ _ _ (fun _ => store_ok blake3 s)); [by intros c Hc|]. intros b. apply h_if; [intros _; by apply h_ret|]. intros _.
  apply (h_bind _ _ _ _ (fun o k => match o with Ok _ => 0 <= slot_index r /\ owns (fun i => i = slot_index r) k | Err _ => store_ok blake3 s k end)).
  { by apply (h_attempt _ _ (store_ok blake3 s)); [apply h_release|..]. }
  intros [u|e]; [|by apply h_ret]. apply h_pure. intros Hi. cbv zeta.
  eapply h_conseq with (P' := owns (fun i => i = slot_index r)) (E' := owns (fun i => i = slot_index r)) (Q' := fun _ => owns (fun i => i = slot_index r));
    [|done|by intros ? ? ?%owns_store|by intros ? ?%owns_store].
  apply h_then; [done|apply keeps_attempt, keeps_write_metadata|]. intros _. apply h_then; [done|apply keeps_attempt, keeps_flush_metadata|]. intros _.
  apply h_then; [done|by apply keeps_attempt, keeps_deallocate_slot|]. intros [u'|e].
  - apply h_then; [done|apply keeps_attempt, keeps_write_metadata|]. intros _. apply h_then; [done|apply keeps_attempt, keeps_flush_metadata|]. intros _.
    apply h_then; [done|apply keeps_attempt, h_quiet, quiet_finish|]. intros _. by apply h_ret.
  - apply h_then; [done|apply keeps_attempt, h_quiet, quiet_retry|]. intros _. by apply h_ret.
Qed.
Lemma keeps_drop_reservations (rs : list CacheSlotRecord) : Forall (fun r => shard_id r = 0) rs -> keeps (store_ok blake3 s) (drop_reservations crc32 s rs).
Proof. induction 1 as [|r rs Hr Hrs IH]; [by apply h_ret|]. apply h_then; [done|by apply keeps_quarantine|]. intros _. exact IH. Qed.

Lemma keeps_retire (r : CacheSlotRecord) (O : Z -> Prop) : O (slot_index r) -> 0 <= slot_index r -> keeps (owns O) (retire_duplicate crc32 s r).
Proof.
  intros HO Hi. unfold retire_duplicate. cbv zeta. apply h_then; [done|apply keeps_write_synced|]. intros _.
  apply h_then; [done|by apply keeps_attempt, keeps_deallocate_slot|]. intros [u|e].
  - apply h_then; [done|apply keeps_write_synced|]. intros _. apply h_then; [done|apply h_quiet, quiet_finish|]. intros _. by apply h_ret.
  - apply h_then; [done|apply h_quiet, quiet_retry|]. intros _. by apply h_ret.
Qed.

(** A page read back after a flush. *)
Lemma page_good_clean (i len : Z) (h : option Hash) (l : list Z) (f : ArenaFile) :
  l = get (Z.to_nat (base s i + 0)) (Z.to_nat len) (fi_bytes f) -> Some (blake3 l) = h -> fi_dirty f = [] -> page_good blake3 s i len h f.
Proof.
  intros -> Hh Hd. right. split; [rewrite <-Hh; unfold slot_bytes; by rewrite Z.add_0_r|]. intros p _ (o & n & Hin & _). rewrite Hd in Hin. by apply elem_of_nil in Hin.
Qed.
Lemma h_stage (hook : InsertStep -> result ()) (mismatch : string) (r : CacheSlotRecord) (h : Hash) (bytes : list Z) (O : Z -> Prop) :
  O (slot_index r) -> 0 <= slot_index r -> page_hash r = Some h -> logical_length r = Z.of_nat (length bytes) ->
  hoare (owns O) (stage_page blake3 crc32 aligned s hook mismatch r h bytes) (fun _ k => owns O k /\ staged (of_record r) k) (owns O).
Proof.
  intros HO Hi Hh Hl. unfold stage_page. apply h_then; [done|apply keeps_write_synced|]. intros _. apply h_guard; [done|]. intros _ _.
  apply h_then; [done|by apply keeps_write_slot|]. intros _. apply h_guard; [done|]. intros _ _.
  eapply h_bind; [apply h_flush|]. intros ?. apply h_guard; [by intros k [? _]|]. intros _ _.
  eapply h_bind. { eapply h_conseq; [apply (h_read_slot (fun k => owns O k /\ fi_dirty (co_data k) = [])); lia|done| |by intros k [? _]]. intros l k H. exact H. }
  intros l. apply h_if; [intros _; apply h_fails; by intros k (_ & ? & _)|]. intros Hm%negb_false_iff%Z.eqb_eq.
  apply h_guard; [by intros k (_ & ? & _)|]. intros _ _.
  apply (h_conseq _ (fun k => owns O k /\ staged (of_record r) k) _ (fun _ k => owns O k /\ staged (of_record r) k) _ (fun k => owns O k /\ staged (of_record r) k));
    [apply keeps_write_synced| |done|by intros k [? _]].
  intros k ((Hlt & Hx & _ & Hsz) & Hk & Hd). split; [done|]. intros i len h' (-> & -> & ->). split_and!; [done|done|].
  eapply page_good_clean; [rewrite Hl; exact Hx|by rewrite Hm|done].
Qed.
Lemma h_commit (r : CacheSlotRecord) (O : Z -> Prop) : shard_id r = 0 ->
  hoare (fun k => owns O k /\ staged (of_record r) k) (db_call (tx (commit_slot r)))
    (fun o k => match o with CommitCommitted _ => store_ok blake3 s k | CommitExisting _ => owns O k end) (store_ok blake3 s).
Proof.
  intros H0. assert (forall k, owns O k /\ staged (of_record r) k -> store_ok blake3 s (with_db (tx (commit_slot r) (co_db k)).2 k)) as Hp.
  { intros k [[Hk _] Hs]. by apply (store_publishes (of_record r)); [apply commit_publishes|..]. }
  apply h_db; [by intros k [[? _] _]|exact Hp|]. intros k [resident|existing] Hk Ho; [by apply Hp|].
  split; [by apply Hp|]. intros i x Hi Hx H2. destruct Hk as [[Hk Hun] _]. exact (Hun i x Hi (commit_existing r existing _ Ho (so_slots _ _ _ Hk) _ x Hx H2) H2).
Qed.
Lemma h_weaken_owns {A : Type} (P : asn) (O : Z -> Prop) (m : io A) : hoare P m (fun _ => owns O) (owns O) -> hoare P m (fun _ => store_ok blake3 s) (store_ok blake3 s).
Proof. intros H. eapply h_conseq; [exact H|done|by intros ? ? ?%owns_store|by intros ? ?%owns_store]. Qed.

(** The row of a reservation. *)
Definition live (r : CacheSlotRecord) (k : Core) : Prop := cache_slots (co_db k) !! slot_of r = Some (row_of r).
Lemma live_owns (r : CacheSlotRecord) (k : Core) : shard_id r = 0 -> state r <> Resident -> store_ok blake3 s k -> live r k -> 0 <= slot_index r /\ owns (fun i => i = slot_index r) k.
Proof.
  intros H0 Hs Hk Hl. split; [exact (slot_index_nonneg _ _ _ (so_slots _ _ _ Hk) Hl)|]. split; [done|]. intros i x -> Hx.
  unfold live, slot_of in Hl. rewrite H0, Hx in Hl. injection Hl as ->. cbn. by destruct (state r).
Qed.
Lemma insert_reserves (h len : Z) : in_u32 len ->
  hoare (store_ok blake3 s) (db_call (reserve_cache_slot h len))
    (fun o k => store_ok blake3 s k /\ match o with ReserveReserved r => page_hash r = Some h /\ logical_length r = len /\ state r = Reserved /\ live r k | ReserveExisting _ => True end) (store_ok blake3 s).
Proof.
  intros Hl. assert (forall k, store_ok blake3 s k -> store_ok blake3 s (with_db (reserve_cache_slot h len (co_db k)).2 k)) as Hq.
  { intros k Hk%owns_none. exact (proj1 (owns_quiet blake3 s _ _ k (quiet_reserve h len Hl) Hk)). }
  apply h_db; [done|exact Hq|]. intros k o Hk Ho. split; [by apply Hq|]. destruct o as [r|r]; [|done].
  destruct (reserve_cache_slot h len (co_db k)) as [o' d'] eqn:Er. cbn in Ho. subst o'.
  destruct (reserve_Reserved h len _ _ r (so_slots _ _ _ Hk) Er) as (old & _ & _ & Hr & Hd). rewrite Hr. split_and!; [done..|].
  unfold live, slot_of, row_of. cbn. rewrite Hd. by rewrite lookup_insert_eq.
Qed.

Lemma h_stage_commit {A : Type} (hook : InsertStep -> result ()) (mismatch : string) (r : CacheSlotRecord) (h : Hash) (bytes : list Z) (finish : CommitCacheSlotOutcome -> io A) :
  shard_id r = 0 -> state r = Reserved -> page_hash r = Some h -> logical_length r = Z.of_nat (length bytes) ->
  (forall resident, keeps (store_ok blake3 s) (finish (CommitCommitted resident))) ->
  (forall existing, 0 <= slot_index r -> keeps (owns (fun i => i = slot_index r)) (finish (CommitExisting existing))) ->
  hoare (fun k => store_ok blake3 s k /\ live r k)
    (_ ← stage_page blake3 crc32 aligned s hook mismatch r h bytes; committed ← db_call (tx (commit_slot r)); finish committed)
    (fun _ => store_ok blake3 s) (store_ok blake3 s).
Proof.
  intros H0 Hst Hh Hlen Hf1 Hf2. apply (h_conseq _ (fun k => 0 <= slot_index r /\ owns (fun i => i = slot_index r) k) _ (fun _ => store_ok blake3 s) _ (store_ok blake3 s)); [|intros k [Hk Hl]; apply live_owns; [done|by rewrite Hst|done|done]|done|done].
  apply h_pure. intros Hi. eapply h_bind.
  { eapply h_conseq; [by apply (h_stage hook mismatch r h bytes (fun i => i = slot_index r))|done|intros ? k H; exact H|by intros ? ?%owns_store]. }
  intros ?. eapply h_bind; [by apply h_commit|]. intros [resident|existing]; [apply Hf1|]. by apply (h_weaken_owns _ (fun i => i = slot_index r)), Hf2.
Qed.

(** However an insertion ends, the store is sound. *)
Lemma keeps_insert_page (hook : InsertStep -> result ()) (h : Hash) (bytes : list Z) : keeps (store_ok blake3 s) (insert_page blake3 crc32 aligned s hook h bytes).
Proof.
  unfold insert_page. cbv zeta. apply h_if; [intros _; by apply h_fails|]. intros Hmax%Z.ltb_ge. apply h_if; [intros _; by apply h_fails|]. intros _.
  eapply h_bind; [apply insert_reserves; unfold in_u32; lia|]. intros [r|r]; [|apply h_ret; by intros k [? _]].
  apply h_if; [intros _; apply h_fails; by intros k [? _]|]. intros H0%negb_false_iff%Z.eqb_eq.
  eapply h_bind; [apply h_set_committed|]. intros ?. apply h_dropping; [|by apply keeps_quarantine].
  intros c (Hk & Hh & Hlen & Hst & Hlive). apply (h_stage_commit hook _ r h bytes); [done..| | |by split].
  - intros resident. eapply h_bind; [apply h_set_committed|]. intros ?. apply h_guard; [done|]. intros _ _. by apply h_ret.
  - intros existing Hi. apply h_then; [done|by apply keeps_retire|]. intros b. apply h_if; [intros _; by apply h_fails|]. intros _.
    eapply h_bind; [apply h_set_committed|]. intros ?. by apply h_ret.
Qed.
Lemma keeps_insert_reserved (hook : InsertStep -> result ()) (r : CacheSlotRecord) (h : Hash) (bytes : list Z) :
  hoare (fun k => store_ok blake3 s k /\ live r k) (insert_reserved_page blake3 crc32 aligned s hook r h bytes) (fun _ => store_ok blake3 s) (store_ok blake3 s).
Proof.
  unfold insert_reserved_page. apply h_if; [intros _; apply h_fails; by intros k [? _]|]. rewrite !orb_false_iff, !negb_false_iff, !bool_decide_eq_true, !Z.eqb_eq.
  intros (((((Hst & Hh) & Hlen) & H0) & _) & _). eapply h_bind; [apply h_set_committed|]. intros ?. apply h_dropping; [|by apply keeps_quarantine].
  apply (h_stage_commit hook _ r h bytes); [done..| |].
  - intros resident. eapply h_bind; [apply h_set_committed|]. intros ?. apply h_guard; [done|]. intros _ _. by apply h_ret.
  - intros existing Hi. apply h_then; [done|by apply keeps_retire|]. intros b. eapply h_bind; [apply h_set_committed|]. intros ?. by apply h_ret.
Qed.

(** ** Batches *)
Lemma extend_run_spec (prev : CacheSlotRecord * list Z) (rest run_ remaining : list (CacheSlotRecord * list Z)) :
  extend_run size prev rest = (run_, remaining) -> rest = run_ ++ remaining /\
  (forall j p, run_ !! j = Some p -> slot_index p.1 = slot_index prev.1 + 1 + Z.of_nat j) /\
  (forall j p, (prev :: run_) !! j = Some p -> (S j < length (prev :: run_))%nat -> Z.of_nat (length p.2) = size).
Proof.
  revert prev run_. induction rest as [|next rest IH]; intros prev run_; cbn [extend_run].
  - intros [= <- <-]. split_and!; [done|done|]. intros j p _ Hj. cbn in Hj. lia.
  - destruct (_ && _) eqn:E.
    + destruct (extend_run size next rest) as [run' remaining'] eqn:En. intros [= <- <-].
      apply andb_true_iff in E as [[E1%Z.eqb_eq _]%andb_true_iff E2%Z.eqb_eq].
      destruct (IH next run' En) as (-> & Hs & Hl). split_and!; [done|..].
      * intros [|j] p; cbn; [intros [= <-]; lia|]. intros Hj. rewrite (Hs j p Hj). lia.
      * intros [|j] p; cbn; [by intros [= <-]|]. intros Hj Hlt. apply (Hl j p Hj). cbn. lia.
    + intros [= <- <-]. split_and!; [done|done|]. intros j p _ Hj. cbn in Hj. lia.
Qed.
(** Consecutive slots cover a contiguous write. *)
Lemma covers_run (O : Z -> Prop) (first n len : Z) : 0 <= first -> first + n - 1 < count -> len <= n * size ->
  (forall j, first <= j < first + n -> O j) -> span_covers s O (base s first) len.
Proof.
  intros Hf Hn Hl HO. destruct Hgeo as (Hs & Hc & _). pose proof (base_header s Hgeo first Hf) as Hb. assert (HH : ARENA_HEADER_BYTES = 4096) by reflexivity.
  split_and!; [lia|unfold base; nia|]. intros p Hp. exists ((p - ARENA_HEADER_BYTES) / size). unfold base in *.
  pose proof (Z.div_mod (p - ARENA_HEADER_BYTES) size ltac:(lia)) as Hd. pose proof (Z.mod_pos_bound (p - ARENA_HEADER_BYTES) size Hs) as Hm.
  set (q := (p - ARENA_HEADER_BYTES) / size) in *. split; [apply HO; nia|lia].
Qed.
Lemma keeps_write_contiguous (O : Z -> Prop) (first n : Z) (bs : list Z) : 0 <= first -> 0 < n ->
  (forall j, first <= j < first + n -> O j) -> keeps (owns O) (write_slots_contiguous s first n bs).
Proof.
  intros Hf Hn HO. apply h_if; [intros _; by apply h_fails|]. intros _. apply h_guard; [done|]. intros last Hlast%ok_or_Ok_inv.
  destruct (_ <=? u32_max); [|done]. injection Hlast as <-. apply h_guard; [done|]. intros o [Hlt _]%(slot_offset_iff s Hgeo); [|lia].
  apply h_guard; [done|]. intros full [_ ->]%ok_or_Ok_inv%checked_mul_Some. cbv zeta. apply h_if; [intros _; by apply h_fails|].
  intros [_ Hle%Z.ltb_ge]%orb_false_iff. apply h_guard; [done|]. intros off [_ ->]%(slot_offset_iff s Hgeo); [|done].
  apply h_write_covered; [done|]. apply (covers_run O first n); [done|lia|nia|done].
Qed.
Lemma keeps_write_runs (O : Z -> Prop) (fuel : nat) (ordered : list (CacheSlotRecord * list Z)) :
  Forall (fun p => 0 <= slot_index p.1 /\ O (slot_index p.1)) ordered -> keeps (owns O) (write_runs fuel s ordered).
Proof.
  revert ordered. induction fuel as [|fuel IH]; intros ordered HO; [destruct ordered; by apply h_ret|].
  destruct ordered as [|first rest]; [by apply h_ret|]. cbn [write_runs]. destruct (extend_run size first rest) as [run_ remaining] eqn:E.
  destruct (extend_run_spec first rest run_ remaining E) as (-> & Hs & _). apply Forall_cons in HO as [[Hf HOf] HO]. apply Forall_app in HO as [HO1 HO2].
  apply h_then; [done| |intros _; by apply IH]. destruct run_ as [|next run_]; [by apply keeps_write_slot|].
  apply keeps_write_contiguous; [done|cbn; lia|]. intros j Hj. destruct (decide (j = slot_index first.1)) as [->|Hne]; [done|].
  destruct (lookup_lt_is_Some_2 (next :: run_) (Z.to_nat (j - slot_index first.1 - 1))) as [p Hp]; [cbn in *; lia|].
  rewrite Forall_forall in HO1. destruct (HO1 p (list_elem_of_lookup_2 _ _ _ Hp)) as [_ HOp]. rewrite (Hs _ p Hp) in HOp. by replace j with (slot_index first.1 + 1 + Z.of_nat (Z.to_nat (j - slot_index first.1 - 1))) by lia.
Qed.
Lemma keeps_write_metadata_all (P : asn) (f : CacheSlotRecord -> SlotMetadata) (pages : list (CacheSlotRecord * list Z)) : keeps P (write_metadata_all crc32 s f pages).
Proof. induction pages as [|[r bs] pages IH]; [by apply h_ret|]. apply h_then; [done|apply keeps_write_metadata|]. intros _. exact IH. Qed.

Definition of_pages (pages : list (CacheSlotRecord * list Z)) (i len : Z) (h : option Hash) : Prop := exists p, p ∈ pages /\ of_record p.1 i len h.
Lemma h_rehash_all (P : asn) (pages : list (CacheSlotRecord * list Z)) : (forall k, P k -> fi_dirty (co_data k) = []) ->
  Forall (fun p => 0 <= slot_index p.1 /\ logical_length p.1 = Z.of_nat (length p.2)) pages ->
  hoare P (rehash_all blake3 aligned s pages) (fun _ k => P k /\ staged (of_pages pages) k) P.
Proof.
  intros HP Hp. revert P HP. induction Hp as [|[r bs] pages [Hi Hl] Hp IH]; intros P HP; cbn [rehash_all].
  { apply h_ret. intros k Hk. split; [done|]. by intros i len h (p & Hin%elem_of_nil & _). }
  eapply h_bind; [apply (h_read_slot P); [exact Hi|lia|lia]|]. cbn in Hl.
  intros l. apply h_if; [intros _; apply h_fails; by intros k (_ & ?)|]. intros Hm%negb_false_iff%bool_decide_eq_true.
  eapply (h_conseq _ (fun k => P k /\ staged (of_record r) k)); [apply IH; by intros k [?%HP _]| | |by intros k [? _]].
  - intros k ((Hlt & Hx & _ & Hsz) & Hk). split; [done|]. intros i len h' (-> & -> & ->). split_and!; [done|done|].
    eapply page_good_clean; [rewrite Hl; exact Hx|done|by apply HP].
  - intros ? k [[Hk Hr] Hs]. split; [done|]. intros i len h (p & [->|Hin]%elem_of_cons & Hof); [by apply Hr|]. apply Hs. by exists p.
Qed.

Lemma batch_publish_published (rs : list CacheSlotRecord) (d d' : SlotDb) (out : list CacheSlotRecord) : batch_publish rs d = Ok (out, d') ->
  forall key x, cache_slots d' !! key = Some x -> sr_state x = 2 ->
    cache_slots d !! key = Some x \/ exists r, r ∈ rs /\ key = slot_of r /\ of_record r key.2 (sr_logical_length x) (sr_page_hash x).
Proof.
  revert d out. induction rs as [|r rs IH]; intros d out; cbn [batch_publish]; [intros [= _ <-]; by left|].
  intros (h & [Hh _]%require_Ok & H)%bind_Ok_inv key x Hx H2. apply bind_Ok_inv in H as ([y|] & _ & H); [done|].
  apply bind_Ok_inv in H as ([n d1] & Hu & H). destruct (negb (n =? 1)); [done|]. apply bind_Ok_inv in H as ([out1 d2] & Hr & [= _ <-]).
  destruct (IH d1 out1 Hr key x Hx H2) as [H1|(r' & Hin & Hr')]; [|right; exists r'; split; [by right|done]].
  destruct (publish_update _ r h d d1 n Hh Hu key x H1 H2) as [?|Hp]; [by left|right; exists r; split; [left|done]].
Qed.
Lemma commit_batch_publishes (pages : list (CacheSlotRecord * list Z)) : Forall (fun p => shard_id p.1 = 0) pages -> publishes (of_pages pages) (tx (commit_batch (map fst pages))).
Proof.
  intros H0 d Hd. unfold tx, transact. destruct (commit_batch (map fst pages) d) as [[o d']|e] eqn:Ec; cbn; [|by split; [done|left]].
  unfold commit_batch in Ec. destruct (_ || _); [done|]. apply bind_Ok_inv in Ec as (u & _ & Ec).
  split; [by eapply batch_publish_moves|]. intros key x Hx H2. destruct (batch_publish_published _ _ _ _ Ec key x Hx H2) as [?|(r & Hin & -> & Hof)]; [by left|].
  apply list_elem_of_In, in_map_iff in Hin as (p & <- & Hin%list_elem_of_In). right. rewrite Forall_forall in H0. split; [exact (H0 p Hin)|by exists p].
Qed.

Lemma check_batch_Ok (slots : gset Z) (hashes : gset (option Z)) (total n : Z) (pages : list (CacheSlotRecord * list Z)) :
  check_batch s slots hashes total pages = Ok n ->
  Forall (fun p => state p.1 = Reserved /\ shard_id p.1 = 0 /\ is_Some (page_hash p.1) /\ logical_length p.1 = Z.of_nat (length p.2) /\ p.2 <> [] /\ Z.of_nat (length p.2) <= size) pages.
Proof.
  revert slots hashes total. induction pages as [|[r bs] pages IH]; intros slots hashes total; cbn [check_batch]; [constructor|].
  destruct (_ || _) eqn:E; [done|]. intros (o & _ & H)%bind_Ok_inv. apply bind_Ok_inv in H as (t & _ & H%IH). constructor; [|done].
  rewrite !orb_false_iff, !negb_false_iff, bool_decide_eq_true, !Z.eqb_eq, bool_decide_eq_false, Nat.eqb_neq, Z.ltb_ge in E.
  destruct E as (((((((E1 & E2) & E3) & E4) & E5) & E6) & _) & _). cbn. split_and!; [done|done|by destruct (page_hash r)|done|by destruct bs|done].
Qed.
Lemma keeps_insert_batch (hook : InsertStep -> result ()) (pages : list (CacheSlotRecord * list Z)) :
  hoare (fun k => store_ok blake3 s k /\ Forall (fun p => live p.1 k) pages) (insert_reserved_pages blake3 crc32 aligned s hook pages) (fun _ => store_ok blake3 s) (store_ok blake3 s).
Proof.
  unfold insert_reserved_pages. apply h_if; [intros _; apply h_fails; by intros k [? _]|]. intros _. apply h_guard; [by intros k [? _]|]. intros total Hb%check_batch_Ok.
  apply h_if; [intros _; apply h_fails; by intros k [? _]|]. intros _. eapply h_bind; [apply h_set_committed|]. intros ?.
  assert (Forall (fun p => shard_id p.1 = 0) pages) as H0 by (eapply Forall_impl; [exact Hb|]; by intros p (_ & ? & _)).
  apply h_dropping; [|apply keeps_drop_reservations, Forall_map; exact H0].
  set (O := fun i => exists p, p ∈ pages /\ slot_index p.1 = i).
  apply (h_conseq _ (fun k => Forall (fun p => 0 <= slot_index p.1) pages /\ owns O k) _ (fun _ => store_ok blake3 s) _ (store_ok blake3 s)); [| |done|done].
  2: { intros k [Hk Hlive]. split.
    - eapply Forall_impl; [exact Hlive|]. intros p Hp. exact (slot_index_nonneg _ _ _ (so_slots _ _ _ Hk) Hp).
    - split; [done|]. intros i x (p & Hin & <-). rewrite Forall_forall in Hlive, Hb. destruct (Hb p Hin) as (Hst & H0' & _).
      refine (proj2 (proj2 (live_owns p.1 k H0' _ Hk (Hlive p Hin))) (slot_index p.1) x eq_refl). by rewrite Hst. }
  apply h_pure. intros Hi. apply h_then; [by apply owns_store|apply keeps_write_metadata_all|]. intros _. apply h_then; [by apply owns_store|apply keeps_flush_metadata|]. intros _.
  apply h_guard; [by apply owns_store|]. intros _ _. apply h_then; [by apply owns_store| |].
  { apply keeps_write_runs. rewrite sort_by_key_perm. apply Forall_forall. intros p Hp. rewrite Forall_forall in Hi. split; [by apply Hi|by exists p]. }
  intros _. apply h_guard; [by apply owns_store|]. intros _ _.
  eapply h_bind; [eapply h_conseq; [apply (h_flush blake3 s O)|done|intros u' k H; exact H|by apply owns_store]|]. intros ?.
  apply h_guard; [by intros k [?%owns_store _]|]. intros _ _.
  eapply h_bind. { eapply h_conseq; [apply (h_rehash_all (fun k => owns O k /\ fi_dirty (co_data k) = []) pages)|done|intros u' k H; exact H|by intros k [?%owns_store _]].
    - by intros k [_ ?].
    - rewrite Forall_forall in *. intros p Hp. split; [by apply Hi|]. by destruct (Hb p Hp) as (_ & _ & _ & ? & _). }
  intros ?. apply (h_conseq _ (fun k => store_ok blake3 s k /\ staged (of_pages pages) k) _ (fun _ => store_ok blake3 s) _ (store_ok blake3 s)); [|by intros k [[?%owns_store _] ?]|done|done].
  apply h_guard; [by intros k [? _]|]. intros _ _. apply h_then; [by intros k [? _]|apply keeps_write_metadata_all|]. intros _.
  apply h_then; [by intros k [? _]|apply keeps_flush_metadata|]. intros _.
  eapply (h_bind _ _ _ _ (fun _ => store_ok blake3 s)).
  - apply h_db; [by intros k [? _]|..]; intros k; [intros [Hk Hs]|intros out [Hk Hs] _]; (by eapply store_publishes; [by apply commit_batch_publishes|..]).
  - intros rs. eapply h_bind; [apply h_set_committed|]. intros ?. apply h_guard; [done|]. intros _ _. by apply h_ret.
Qed.

(** ** Reconciliation keeps the store *)
Lemma h_frame {A : Type} (P E : asn) (Q : A -> asn) (F : SlotDb -> Prop) (m : io A) :
  hoare P m Q E -> (forall d, keeps (fun k => co_db k = d) m) -> hoare (fun k => P k /\ F (co_db k)) m (fun a k => Q a k /\ F (co_db k)) E.
Proof.
  intros Hm Hd c [Hc HF]. specialize (Hm c Hc). specialize (Hd (co_db (core c)) c eq_refl). destruct (m c) as [[a|e|] c']; [|done..]. by rewrite Hd.
Qed.
Lemma zero_chunks_db (fuel : nat) (n off : Z) (d : SlotDb) : keeps (fun k => co_db k = d) (zero_chunks fuel n off).
Proof.
  revert n off. induction fuel as [|fuel IH]; intros n off; cbn [zero_chunks]; [by apply h_ret|].
  apply h_if; [intros _; by apply h_ret|]. intros _. cbv zeta. apply h_then; [done|by apply h_write_loop|]. intros _. apply IH.
Qed.
Lemma deallocate_slot_db (i : Z) (d : SlotDb) : keeps (fun k => co_db k = d) (deallocate_slot s i).
Proof.
  apply h_guard; [done|]. intros off _. apply h_then; [done|apply zero_chunks_db|].
  intros _. eapply h_conseq; [apply (h_sync (fun k => co_db k = d) DataFile)|done| |done]. by intros u k (dd & Hk & _).
Qed.
(** Statements about one record. *)
Definition only_slot {A : Type} (r : CacheSlotRecord) (op : SlotDb -> result A * SlotDb) : Prop :=
  forall d key, key <> slot_of r -> cache_slots (op d).2 !! key = cache_slots d !! key.
Lemma update_slot_only (context : string) (r : CacheSlotRecord) (p : SlotRow -> bool) (f : SlotRow -> SlotRow) (d d' : SlotDb) (n : Z) (key : Z * Z) :
  update_slot context r p f d = Ok (n, d') -> key <> slot_of r -> cache_slots d' !! key = cache_slots d !! key.
Proof. intros [[_ ->]|(_ & x & _ & _ & _ & _ & ->)]%update_slot_Ok Hne; [done|]. cbn. by rewrite lookup_insert_ne. Qed.
Lemma update_guarded_only {B : Type} (context : string) (e : MirageError) (r : CacheSlotRecord) (p : SlotRow -> bool) (f : SlotRow -> SlotRow) (d d' : SlotDb) (g : SlotDb -> B * SlotDb) (b : B) (key : Z * Z) :
  (forall x, (g x).2 = x) -> ('(changed, d1) ← update_slot context r p f d; if negb (changed =? 1) then Err e else Ok (g d1)) = Ok (b, d') ->
  key <> slot_of r -> cache_slots d' !! key = cache_slots d !! key.
Proof.
  intros Hg ([n d1] & Hu & H)%bind_Ok_inv Hne. destruct (negb (n =? 1)); [done|]. injection H as H. assert (d1 = d') as <- by (rewrite <-(Hg d1); by rewrite H).
  by apply (update_slot_only context r p f d d1 n).
Qed.
Lemma only_tx {A : Type} (r : CacheSlotRecord) (op : SlotDb -> result (A * SlotDb)) :
  (forall d d' a key, op d = Ok (a, d') -> key <> slot_of r -> cache_slots d' !! key = cache_slots d !! key) -> only_slot r (tx op).
Proof. intros H d key Hne. unfold tx, transact. destruct (op d) as [[a d']|e] eqn:E; [by apply (H d d' a)|done]. Qed.
Lemma only_release (r : CacheSlotRecord) : only_slot r (tx (release_cache_reservation r)).
Proof.
  apply only_tx. intros d d' a key (h & _ & H)%bind_Ok_inv Hne. apply bind_Ok_inv in H as (d1 & Ht & [= _ <-]). apply bind_Ok_inv in Ht as ([n d2] & Hu & Ht).
  destruct (negb (n =? 1)); [done|]. injection Ht as <-. by eapply update_slot_only.
Qed.
Lemma only_begin (r : CacheSlotRecord) : only_slot r (tx (begin_cache_eviction r)).
Proof. apply only_tx. intros d d' a key (h & _ & H)%bind_Ok_inv Hne. by eapply (update_guarded_only _ _ _ _ _ _ _ (fun x => (with_state Evicting r, x))) in H. Qed.
Lemma only_finish (r : CacheSlotRecord) : only_slot r (tx (finish_deallocation r)).
Proof. apply only_tx. intros d d' a key H Hne. unfold finish_deallocation in H. destruct (state r); try done; by eapply (update_guarded_only _ _ _ _ _ _ _ (fun x => ((), x))) in H. Qed.

Definition lives (rs : list CacheSlotRecord) (d : SlotDb) : Prop := Forall (fun r => cache_slots d !! slot_of r = Some (row_of r)) rs.
Lemma lives_only {A : Type} (r : CacheSlotRecord) (rs : list CacheSlotRecord) (op : SlotDb -> result A * SlotDb) (d : SlotDb) :
  only_slot r op -> Forall (fun q => slot_of q <> slot_of r) rs -> lives rs d -> lives rs (op d).2.
Proof. intros Ho Hne Hl. unfold lives in *. rewrite Forall_forall in *. intros q Hq. rewrite Ho by by apply Hne. by apply Hl. Qed.
Lemma h_quiet_only {A : Type} (r : CacheSlotRecord) (rs : list CacheSlotRecord) (O : Z -> Prop) (op : SlotDb -> result A * SlotDb) :
  quiet op -> only_slot r op -> Forall (fun q => slot_of q <> slot_of r) rs ->
  keeps (fun k => owns O k /\ lives rs (co_db k)) (db_call op).
Proof. intros Hq Ho Hne. apply h_db; [done|..]; intros k; [intros [Hk Hl]|intros a [Hk Hl] _]; (split; [by apply owns_quiet|by apply (lives_only r)]). Qed.

Definition remaining_ok (rs : list CacheSlotRecord) (k : Core) : Prop := store_ok blake3 s k /\ lives rs (co_db k).
Section one_slot.
Variables (r : CacheSlotRecord) (rs : list CacheSlotRecord).
Context (H0 : shard_id r = 0) (Hi : 0 <= slot_index r) (Hne : Forall (fun q => slot_of q <> slot_of r) rs).
Notation O := (fun i => i = slot_index r).
Notation mine := (fun k => owns O k /\ lives rs (co_db k)).
Lemma mine_store (k : Core) : mine k -> store_ok blake3 s k.
Proof. by intros [[? _] _]. Qed.
Lemma h_mine_deallocate : hoare mine (deallocate_slot s (slot_index r)) (fun _ => mine) (store_ok blake3 s).
Proof. eapply h_conseq; [apply (h_frame (owns O) (owns O) (fun _ => owns O) (lives rs))|done|done|by intros k ?%owns_store]; [by apply keeps_deallocate_slot|apply deallocate_slot_db]. Qed.
Lemma h_mine_any {A : Type} (m : io A) : (forall P : asn, keeps P m) -> hoare mine m (fun _ => mine) (store_ok blake3 s).
Proof. intros H. eapply h_conseq; [apply (H mine)|done|done|by apply mine_store]. Qed.
Lemma h_mine_db {A : Type} (op : SlotDb -> result A * SlotDb) : quiet op -> only_slot r op -> hoare mine (db_call op) (fun _ => mine) (store_ok blake3 s).
Proof. intros Hq Ho. eapply h_conseq; [by apply (h_quiet_only r rs O op)|done|done|by apply mine_store]. Qed.
Lemma h_finish_slot (e : CacheSlotRecord) : slot_of e = slot_of r -> hoare mine (finish_slot crc32 s r e) (fun _ => mine) (store_ok blake3 s).
Proof.
  intros He. eapply h_bind; [apply h_mine_deallocate|]. intros ?. eapply h_bind; [apply h_mine_any; intros P; apply keeps_write_synced|]. intros ?.
  apply h_mine_db; [apply quiet_finish|]. intros d key Hk. apply (only_finish e). by rewrite He.
Qed.
(** Taking the slot out of use. *)
Lemma h_take {A : Type} (op : SlotDb -> result A * SlotDb) (phi : A -> Prop) : quiet op -> only_slot r op ->
  (forall d a x, (op d).1 = Ok a -> cache_slots (op d).2 !! slot_of r = Some x -> sr_state x <> 2 /\ phi a) ->
  (forall d a, (op d).1 = Ok a -> is_Some (cache_slots (op d).2 !! slot_of r)) ->
  hoare (remaining_ok (r :: rs)) (db_call op) (fun a k => phi a /\ mine k) (store_ok blake3 s).
Proof.
  intros Hq Ho Hs Hx. assert (forall k, remaining_ok (r :: rs) k -> store_ok blake3 s (with_db (op (co_db k)).2 k) /\ lives rs (op (co_db k)).2) as H.
  { intros k [Hk [_ Hl]%Forall_cons]. split; [|by apply (lives_only r)]. exact (proj1 (owns_quiet blake3 s op _ k Hq (owns_none k Hk))). }
  apply h_db; [by intros k [? _]|by intros k [? _]%H|]. intros k a Hk Ha. destruct (H k Hk) as [H1 H2]. destruct (Hx _ _ Ha) as [x Hx']. destruct (Hs _ a x Ha Hx') as [Hx2 Hphi].
  split; [done|]. split; [|done]. split; [done|]. intros i y -> Hy. unfold slot_of in Hx'. cbn in Hy. rewrite H0, Hy in Hx'. by injection Hx' as ->.
Qed.
Lemma remaining_mine (k : Core) : state r <> Resident -> remaining_ok (r :: rs) k -> mine k.
Proof. intros Hs [Hk [Hr Hl]%Forall_cons]. split; [|done]. by apply (live_owns r k H0 Hs Hk). Qed.
Lemma mine_remaining (k : Core) : mine k -> remaining_ok rs k.
Proof. intros [[Hk _] Hl]. by split. Qed.
Lemma remaining_tail (k : Core) : remaining_ok (r :: rs) k -> remaining_ok rs k.
Proof. intros [Hk [_ Hl]%Forall_cons]. by split. Qed.
End one_slot.

Lemma release_takes (r : CacheSlotRecord) (d : SlotDb) (u : ()) : (tx (release_cache_reservation r) d).1 = Ok u ->
  exists x, cache_slots (tx (release_cache_reservation r) d).2 !! slot_of r = Some x /\ sr_state x = 3.
Proof.
  unfold tx, transact. destruct (release_cache_reservation r d) as [[u' d']|e] eqn:Er; [|done]. intros _. cbn. apply bind_Ok_inv in Er as (h & _ & Er).
  by apply bind_Ok_inv in Er as (d1 & ?%transition_row & [= _ <-]).
Qed.
Lemma begin_takes (r e : CacheSlotRecord) (d : SlotDb) : (tx (begin_cache_eviction r) d).1 = Ok e ->
  e = with_state Evicting r /\ exists x, cache_slots (tx (begin_cache_eviction r) d).2 !! slot_of r = Some x /\ sr_state x = 3.
Proof.
  unfold tx, transact. destruct (begin_cache_eviction r d) as [[e' d']|e'] eqn:Er; [|done]. intros [= <-]. cbn. apply bind_Ok_inv in Er as (h & _ & Er).
  apply bind_Ok_inv in Er as ([n d1] & Hu & Er). destruct (Z.eqb_spec n 1) as [->|]; [|done]. injection Er as <- <-. split; [done|].
  apply update_slot_Ok in Hu as [[? _]|(_ & y & _ & _ & _ & _ & ->)]; [done|]. cbn. unfold slot_of. rewrite lookup_insert_eq. by eexists.
Qed.
Lemma keeps_reconcile_slot (dry_run : bool) (r : CacheSlotRecord) (rs : list CacheSlotRecord) (r0 : ReconcileReport) :
  0 <= slot_index r -> Forall (fun q => slot_of q <> slot_of r) rs ->
  hoare (remaining_ok (r :: rs)) (reconcile_slot crc32 s dry_run r r0) (fun _ => remaining_ok rs) (store_ok blake3 s).
Proof.
  intros Hi Hne. unfold reconcile_slot. cbv zeta. assert (forall k, remaining_ok (r :: rs) k -> store_ok blake3 s k) as Hst by by intros k [? _].
  apply h_if; [intros _; apply h_ret, remaining_tail|]. intros [H0%negb_false_iff%Z.eqb_eq _]%orb_false_iff.
  apply h_then; [done|by apply keeps_attempt, keeps_read_metadata|]. intros metadata.
  assert (forall (m : io ()) (a : ReconcileReport), hoare (remaining_ok (r :: rs)) m (fun _ k => owns (fun i => i = slot_index r) k /\ lives rs (co_db k)) (store_ok blake3 s) ->
    forall b, hoare (remaining_ok (r :: rs)) (if dry_run then mret b else _ ← m; mret a) (fun _ => remaining_ok rs) (store_ok blake3 s)) as Hrep.
  { intros m a Hm b. apply h_if; intros _; [apply h_ret, remaining_tail|]. eapply h_bind; [exact Hm|]. intros ?. apply h_ret, mine_remaining. }
  pose proof (remaining_mine r rs H0) as Hmine. destruct (state r) eqn:Es.
  - apply h_if; [intros _; apply h_ret, remaining_tail|]. intros _. apply Hrep. eapply h_pre; [|intros k; by apply Hmine].
    eapply h_bind; [by apply h_mine_deallocate|]. intros ?. apply h_mine_any. intros P. apply keeps_write_synced.
  - apply Hrep. eapply h_bind.
    { apply (h_take r rs H0 Hne _ (fun _ => True)); [apply quiet_release|apply only_release|..]; intros d a; [intros x|]; intros (y & Hy & H3)%release_takes; [|by eexists].
      intros Hx. rewrite Hx in Hy. injection Hy as <-. split; [lia|done]. }
    intros ?. apply h_pure. intros _. eapply h_bind; [apply h_mine_any; intros P; apply keeps_write_synced|]. intros ?. by apply h_finish_slot.
  - apply h_if; [intros _; apply h_ret, remaining_tail|]. intros _. apply Hrep. eapply h_bind.
    { apply (h_take r rs H0 Hne _ (fun e => e = with_state Evicting r)); [apply quiet_begin|apply only_begin|..]; intros d a; [intros x|]; intros (-> & y & Hy & H3)%begin_takes; [|by eexists].
      intros Hx. rewrite Hx in Hy. injection Hy as <-. split; [lia|done]. }
    intros e. apply h_pure. intros ->. eapply h_bind; [apply h_mine_any; intros P; apply keeps_write_synced|]. intros ?. by apply h_finish_slot.
  - apply Hrep. eapply h_pre; [by apply (h_finish_slot r rs)|intros k; by apply Hmine].
  - apply Hrep. eapply h_pre; [by apply (h_finish_slot r rs)|intros k; by apply Hmine].
Qed.

Lemma decode_slots_Ok (context : string) (l : list ((Z * Z) * SlotRow)) (rs : list CacheSlotRecord) :
  decode_slots context l = Ok rs -> Forall2 (fun x r => decode_slot x = Some r) l rs.
Proof.
  revert rs. induction l as [|x l IH]; intros rs; cbn [decode_slots]; [intros [= <-]; constructor|].
  intros (r & Hr%ok_or_Ok_inv & H)%bind_Ok_inv. apply bind_Ok_inv in H as (rs' & Hrs%IH & [= <-]). by constructor.
Qed.
(** The records of the table are its rows, each slot once. *)
Lemma load_all_Ok (d : SlotDb) (rs : list CacheSlotRecord) : slot_inv d -> load_all d = Ok rs ->
  lives rs d /\ NoDup (map slot_of rs) /\ map slot_of rs = map fst (slots_where (fun _ => true) d) /\ Forall (fun r => 0 <= slot_index r) rs.
Proof.
  intros Hd H%decode_slots_Ok. assert (Forall2 (fun x r => x.1 = slot_of r /\ x.2 = row_of r /\ cache_slots d !! x.1 = Some x.2) (slots_where (fun _ => true) d) rs) as H2.
  { assert (Forall (fun x => cache_slots d !! x.1 = Some x.2) (slots_where (fun _ => true) d)) as Hin by (apply Forall_forall; by intros x [? _]%elem_of_slots_where).
    revert Hin. induction H as [|[k x] r l rs' Hx Hrest IH]; intros Hin; constructor; [|apply IH; by inversion Hin]. apply Forall_cons in Hin as [Hk _]. cbn in Hk.
    destruct (decode_slot_ok k x (proj1 Hd k x Hk)) as (st & Hs & Hdec). rewrite Hx in Hdec. injection Hdec as ->. split_and!; [by destruct k|unfold row_of; cbn; rewrite <-Hs; by destruct x|done]. }
  assert (map slot_of rs = map fst (slots_where (fun _ => true) d)) as Hm by (clear H; induction H2 as [|x r l rs' (Hx & _) _ IH]; cbn; [done|by rewrite IH, Hx]).
  split_and!; [|rewrite Hm; apply NoDup_slots_where|done|].
  - clear H Hm. unfold lives. induction H2 as [|x r l rs' (Hx & Hr & Hk) _ IH]; constructor; [by rewrite <-Hx, <-Hr|done].
  - clear H Hm. induction H2 as [|x r l rs' (Hx & Hr & Hk) _ IH]; constructor; [|done]. rewrite Hx in Hk. exact (slot_index_nonneg _ _ _ Hd Hk).
Qed.
Lemma keeps_reconcile_all (dry_run : bool) (rs : list CacheSlotRecord) (r0 : ReconcileReport) : NoDup (map slot_of rs) -> Forall (fun r => 0 <= slot_index r) rs ->
  hoare (remaining_ok rs) (reconcile_all crc32 s dry_run rs r0) (fun _ => store_ok blake3 s) (store_ok blake3 s).
Proof.
  revert r0. induction rs as [|r rs IH]; intros r0 Hnd Hi; cbn [reconcile_all]; [apply h_ret; by intros k [? _]|].
  apply NoDup_cons in Hnd as [Hr Hnd]. apply Forall_cons in Hi as [Hi1 Hi]. eapply h_bind; [apply (keeps_reconcile_slot dry_run r rs r0 Hi1)|intros r1; by apply IH].
  apply Forall_forall. intros q Hq Heq. apply Hr. rewrite <-Heq. by apply list_elem_of_In, in_map, list_elem_of_In.
Qed.
Lemma keeps_reconcile (dry_run : bool) : keeps (store_ok blake3 s) (reconcile crc32 s dry_run).
Proof.
  unfold reconcile. eapply (h_bind _ _ _ _ (fun rs k => (NoDup (map slot_of rs) /\ Forall (fun r => 0 <= slot_index r) rs) /\ remaining_ok rs k)).
  - apply h_db; [done|by intros [? ? ?]|]. intros k rs Hk Hrs. destruct (load_all_Ok (co_db k) rs (so_slots _ _ _ Hk) Hrs) as (Hl & Hn & _ & Hi).
    split; [done|]. split; [by destruct k|done].
  - intros rs. apply h_pure. intros [Hn Hi]. eapply h_bind; [by apply keeps_reconcile_all|]. intros r. apply h_then; [done| |intros _; by apply h_ret].
    apply h_if; intros _; [by apply h_ret|apply keeps_flush_metadata].
Qed.
End slots.
