(* ===== verification/CacheReads.v ===== *)
(** * Serving pages from the cache

    [mirage-cache/src/index.rs], [lease.rs], [evict.rs], [verify.rs],
    [scrub.rs] and [coalesced_read.rs], and the admission of a fetched page by
    [mirage-scheduler/src/worker.rs], over the store of [CacheStore]: the index
    of resident pages, reads under a guard, eviction, the verification of pages
    and reads that span adjacent slots.

    Operations run one at a time here; [ResidencyGate] interleaves the atomic
    steps of readers and evictors of one page.

    The invariant of one index over its arena over every sequence of
    operations, failures, halts, restarts and changes of the medium: outside the
    slots the medium changed, the bytes of a resident slot are synced and hash
    to its page. *)
From S2P Require Export CacheStore.
From S2P Require Import ResidencyGate.

Inductive IntegrityClass : Set := Clean | PinnedClean | Dirty | Staged.
Inductive VerifyOutcome : Set := Absent | Verified | Quarantined | RecoveryRequired.
Record ScrubReport : Set := mkScrub { sc_selected : Z; sc_verified : Z; sc_quarantined : Z; sc_paused : bool }.

Section reads.
Variables (blake3 : list Z -> Hash) (crc32 : list Z -> Z) (aligned : bool) (s : ArenaShard).

(** ** The index *)
Definition resident_page (r : CacheSlotRecord) : ResidentPage := mkResident r RESIDENT.
Fixpoint from_resident_records (pages : gmap Z ResidentPage) (records : list CacheSlotRecord) : result (gmap Z ResidentPage) :=
  match records with
  | [] => Ok pages
  | record :: rest =>
      if negb (bool_decide (state record = Resident)) then Err (integrity_mismatch "cache snapshot contains a non-resident slot")
      else if negb (shard_id record =? 0) then Err (unsupported_layout "resident shard routing is not configured")
      else
        hash ← ok_or (integrity_mismatch "resident cache slot has no hash") (page_hash record);
        match pages !! hash with
        | Some _ => Err (integrity_mismatch "duplicate resident page hash")
        | None => from_resident_records (<[hash := resident_page record]> pages) rest
        end
  end.
(** [pins]: the outcome of [PinRegistry::rebuild], modelled by [CachePins]; of
    the registry only the pinned pages matter here. *)
Definition ResidentIndex_rebuild (pins : result (gset Z)) : io () :=
  records ← db_call (fun d => (load_residents d, d));
  pages ← lift (from_resident_records ∅ records);
  pinned ← lift pins;
  update (fun c => mkCache (ca_db c) (ca_data c) (ca_meta c) (ca_replies c) (ca_committed c) pages pinned).
Definition install (record : CacheSlotRecord) : io () :=
  if negb (bool_decide (state record = Resident)) then fails (invalid_argument "only resident slots can enter the index")
  else
    hash ← lift (ok_or (invalid_argument "resident slot has no hash") (page_hash record));
    update (fun c => match ca_index c !! hash with
                     | Some _ => c
                     | None => set_index (<[hash := resident_page record]> (ca_index c)) c
                     end).
Definition set_gate_word (hash : Hash) (p : ResidentPage) (w : Z) (c : Cache) : Cache :=
  set_index (<[hash := mkResident (rp_record p) w]> (ca_index c)) c.
(** The record of the guard's page. *)
Definition acquire (hash : Hash) : io (option CacheSlotRecord) :=
  page ← asks (fun c => ca_index c !! hash);
  match page with
  | None => mret None
  | Some p =>
      if negb (gate_phase (rp_gate p) =? 2) then mret None
      else if gate_leases (rp_gate p) =? LEASE_MASK then fails (cache_full "resident page lease count is saturated")
      else _ ← update (set_gate_word hash p (rp_gate p + 1)); mret (Some (rp_record p))
  end.
Definition drop_guard (hash : Hash) : io () :=
  update (fun c => match ca_index c !! hash with Some p => set_gate_word hash p (rp_gate p -! 1) c | None => c end).
Definition read_exact (guard : CacheSlotRecord) (offset len : Z) : io (list Z) :=
  read_slot aligned s (slot_index guard) (logical_length guard) offset len.
(** A read of a page under a guard. *)
Definition read_page (hash : Hash) (offset len : Z) : io (option (list Z)) :=
  guard ← acquire hash;
  match guard with
  | None => mret None
  | Some g => l ← dropping (drop_guard hash) (read_exact g offset len); mret (Some l)
  end.
Definition hashes : io (list Hash) := asks (fun c => sort_by_key (fun h => h) (map fst (map_to_list (ca_index c)))).

(** ** Eviction *)
Definition evict_inner (hash : Hash) (ignore_pins : bool) (deallocate_ : ResidentPage -> io ()) : io bool :=
  page ← asks (fun c => ca_index c !! hash);
  match page with
  | None => mret false
  | Some p =>
      pinned ← asks (fun c => bool_decide (hash ∈ ca_pinned c));
      if negb ignore_pins && pinned then fails (cache_full "pinned resident page cannot be evicted")
      else if negb (compare_exchange (rp_gate p) RESIDENT EVICTING).1
      then fails (cache_full "resident page has active read leases or is already evicting")
      else
        _ ← update (set_gate_word hash p EVICTING);
        begun ← attempt (db_call (tx (begin_cache_eviction (rp_record p))));
        match begun with
        | Err e => _ ← update (set_gate_word hash p RESIDENT); fails e
        | Ok evicting =>
            _ ← write_synced crc32 s (slot_index (rp_record p)) (metadata_for evicting SEvicting);
            _ ← update (fun c => set_index (delete hash (ca_index c)) c);
            freed_ ← attempt (deallocate_ p);
            match freed_ with
            | Ok _ =>
                _ ← write_synced crc32 s (slot_index (rp_record p)) (metadata_for (freed evicting) SFree);
                _ ← db_call (tx (finish_deallocation evicting)); mret true
            | Err e => _ ← db_call (tx (mark_retry (with_state Evicting evicting))); fails e
            end
        end
  end.
Definition deallocate_page (p : ResidentPage) : io () := deallocate_slot s (slot_index (rp_record p)).
Definition evict (hash : Hash) : io bool := evict_inner hash false deallocate_page.
Definition quarantine_corrupt (hash : Hash) : io bool := evict_inner hash true deallocate_page.

(** ** Verification *)
Definition verify_page (expected : Hash) (class : IntegrityClass) : io VerifyOutcome :=
  guard ← acquire expected;
  match guard with
  | None => mret Absent
  | Some g =>
      bytes ← dropping (drop_guard expected) (read_exact g 0 (logical_length g));
      if blake3 bytes =? expected then mret Verified
      else match class with
           | PinnedClean | Dirty | Staged => mret RecoveryRequired
           | Clean => _ ← quarantine_corrupt expected; mret Quarantined
           end
  end.
Fixpoint scrub_pages (l : list Hash) (r : ScrubReport) : io ScrubReport :=
  match l with
  | [] => mret r
  | hash :: rest =>
      o ← verify_page hash Clean;
      scrub_pages rest (mkScrub (sc_selected r + 1)
        (match o with Verified => sc_verified r + 1 | _ => sc_verified r end)
        (match o with Quarantined => sc_quarantined r + 1 | _ => sc_quarantined r end) false)
  end.
Definition scrub_batch (max_pages : Z) (gameplay_active : bool) : io ScrubReport :=
  if gameplay_active || (max_pages =? 0) then mret (mkScrub 0 0 0 true)
  else l ← hashes; scrub_pages (firstn (Z.to_nat max_pages) l) (mkScrub 0 0 0 false).

(** ** Reads that span slots *)
Fixpoint slots_are_contiguous (guards : list CacheSlotRecord) : bool :=
  match guards with
  | a :: (b :: _) as rest => (slot_index b =? (slot_index a + 1) mod 2 ^ 32) && slots_are_contiguous rest
  | _ => true
  end.
(** [in_arena]: whether a guard pins this arena. *)
Definition read_contiguous (in_arena : CacheSlotRecord -> bool) (guards : list CacheSlotRecord) (offset len : Z) : io (list Z) :=
  match last guards with
  | None => fails (invalid_argument "contiguous read needs at least one resident guard")
  | Some last_guard =>
      if negb (forallb in_arena guards) then fails (invalid_argument "contiguous read guards do not pin the requested arena")
      else if negb (slots_are_contiguous guards) then fails (invalid_argument "contiguous read guards are not adjacent slots")
      else if negb (forallb (fun g => logical_length g =? page_size s) (removelast guards))
      then fails (invalid_argument "contiguous read crossed a short middle page")
      else
        let n := Z.of_nat (length guards) in
        window_end ← lift (ok_or (invalid_argument "contiguous read window overflows")
          (b ← checked_mul (n - 1) (page_size s); checked_add b (logical_length last_guard)));
        read_end ← lift (ok_or (invalid_argument "contiguous read range overflows") (checked_add offset len));
        if window_end <? read_end then fails (invalid_argument "contiguous read exceeds the last page's logical length")
        else if len =? 0 then mret []
        else if page_size s <=? offset then fails (invalid_argument "contiguous read offset is outside the first page")
        else if u32_max <? n then fails (invalid_argument "contiguous read guard count overflows")
        else read_slots_contiguous aligned s (slot_index (default last_guard (head guards))) n offset len
  end.

(** ** Admission of a fetched page *)
Definition outcome_slot (o : InsertOutcome) : CacheSlotRecord := match o with InsertInserted r | InsertExisting r => r end.
Definition admit_page (hash : Hash) (bytes : list Z) : io () :=
  o ← insert_page blake3 crc32 aligned s (fun _ => Ok ()) hash bytes;
  install (outcome_slot o).
End reads.

(** A changed byte: a clean page is quarantined and no longer served, a pinned
    one is reported. *)
Definition t_admitted : Cache := (admit_page t_blake sum32 false t_arena (t_blake [1; 2; 3]) [1; 2; 3] (t_cache [])).2.
Definition t_rotten : Cache := set_file DataFile (mkFile (file_write 4097 [9] (fi_bytes (ca_data t_admitted))) []) t_admitted.
Example corrupt_page_quarantined :
  let '(o, c) := verify_page t_blake sum32 false t_arena (t_blake [1; 2; 3]) Clean t_rotten in
  o = Done Quarantined /\ (read_page false t_arena (t_blake [1; 2; 3]) 0 3 c).1 = Done None /\ cache_slots (ca_db c) !! (0, 0) = Some (mkSlotRow 1 0 None 0).
Proof. vm_compute. done. Qed.
Example corrupt_pin_reported : (verify_page t_blake sum32 false t_arena (t_blake [1; 2; 3]) PinnedClean t_rotten).1 = Done RecoveryRequired /\
  (verify_page t_blake sum32 false t_arena (t_blake [1; 2; 3]) Clean t_admitted).1 = Done Verified.
Proof. vm_compute. done. Qed.

(** ** What insertion leaves alone

    Assertions on the tables and the index only, kept by every statement that
    leaves resident slots resident. *)
Definition stays {A : Type} (op : SlotDb -> result A * SlotDb) : Prop := forall d, slot_inv d -> slot_inv (op d).2 /\
  forall key x, cache_slots d !! key = Some x -> sr_state x = 2 -> cache_slots (op d).2 !! key = Some x.
Lemma moves_stays (ev : SlotEvent) (d d' : SlotDb) (key : Z * Z) (x : SlotRow) : ev <> EvQuarantine -> moves ev d d' ->
  cache_slots d !! key = Some x -> sr_state x = 2 -> cache_slots d' !! key = Some x.
Proof.
  intros Hne [_ Hm] Hx H2. destruct (Hm key) as [<-|(r & r' & Hr & _ & He)]; [done|]. rewrite Hx in Hr. injection Hr as <-.
  inversion He; subst; cbn in H2; try lia; done.
Qed.
Lemma stays_tx {A : Type} (op : SlotDb -> result (A * SlotDb)) :
  (forall a d d', slot_inv d -> op d = Ok (a, d') -> slot_inv d' /\ forall key x, cache_slots d !! key = Some x -> sr_state x = 2 -> cache_slots d' !! key = Some x) -> stays (tx op).
Proof. intros H d Hd. unfold tx, transact. destruct (op d) as [[a d']|e] eqn:Eo; cbn; [by apply (H a)|done]. Qed.
(** Only a reserved slot is released. *)
Lemma transition_stays (r : CacheSlotRecord) (d d' : SlotDb) : slot_inv d -> transition_to_evicting r Reserved d = Ok d' ->
  forall key x, cache_slots d !! key = Some x -> sr_state x = 2 -> cache_slots d' !! key = Some x.
Proof.
  intros Hd ([n d1] & Hu & H)%bind_Ok_inv key x Hx H2. destruct (negb (n =? 1)); [done|]. injection H as <-.
  apply update_slot_Ok in Hu as [[_ ->]|(_ & y & Hy & _ & Hp%Z.eqb_eq & _ & ->)]; [done|]. cbn. rewrite lookup_insert_ne; [done|]. intros <-.
  rewrite Hx in Hy. injection Hy as <-. cbn in Hp. lia.
Qed.
Lemma stays_release (r : CacheSlotRecord) : stays (tx (release_cache_reservation r)).
Proof.
  apply stays_tx. intros a d d' Hd H. split; [by eapply release_moves|]. apply bind_Ok_inv in H as (h & _ & H). apply bind_Ok_inv in H as (d1 & Ht & [= _ <-]). by apply (transition_stays r).
Qed.
Lemma stays_commit (r : CacheSlotRecord) : stays (tx (commit_slot r)).
Proof.
  apply stays_tx. intros o d d' Hd H. split; [by eapply commit_slot_moves|]. apply bind_Ok_inv in H as (h & _ & H). apply bind_Ok_inv in H as ([y|] & _ & H).
  - apply bind_Ok_inv in H as (d1 & Ht & [= _ <-]). by apply (transition_stays r).
  - apply (update_guarded EvPublish) in H as [_ Hm]; [|exact (publish_edge h (logical_length r))|done]. intros key x. by apply (moves_stays EvPublish).
Qed.
Lemma stays_moves {A : Type} (op : SlotDb -> result (A * SlotDb)) (ev : SlotEvent) : ev <> EvQuarantine ->
  (forall a d d', slot_inv d -> op d = Ok (a, d') -> slot_inv d' /\ moves ev d d') -> stays (tx op).
Proof. intros Hne H. apply stays_tx. intros a d d' Hd Ho. destruct (H a d d' Hd Ho) as [Hd' Hm]. split; [done|]. intros key x. by apply (moves_stays ev). Qed.
Lemma stays_finish (r : CacheSlotRecord) : stays (tx (finish_deallocation r)).
Proof. apply (stays_moves _ EvFree); [done|]. intros a d d'. apply finish_deallocation_moves. Qed.
Lemma stays_retry (r : CacheSlotRecord) : stays (tx (mark_retry r)).
Proof. apply (stays_moves _ EvRetry); [done|]. intros a d d'. apply mark_retry_moves. Qed.
Lemma stays_commit_batch (rs : list CacheSlotRecord) : stays (tx (commit_batch rs)).
Proof.
  apply (stays_moves _ EvPublish); [done|]. intros a d d' Hd H. unfold commit_batch in H. destruct (_ || _); [done|]. apply bind_Ok_inv in H as (u & _ & H). by apply batch_publish_moves in H.
Qed.
Lemma stays_reserve (h len : Z) : in_u32 len -> stays (reserve_cache_slot h len).
Proof. intros Hl d Hd. destruct (reserve_cache_slot_moves h len d Hl Hd) as [Hd' Hm]. split; [done|]. intros key x. by apply (moves_stays EvReserve). Qed.
Lemma stays_reserve_batch (requests : list (Hash * Z)) : Forall (fun q => in_u32 q.2) requests -> stays (tx (reserve_batch requests)).
Proof. intros Hl. apply (stays_moves _ EvReserve); [done|]. intros a d d' Hd H. exact (reserve_batch_moves requests d d' a Hl Hd H). Qed.
Create HintDb stays.
#[export] Hint Resolve stays_release stays_commit stays_finish stays_retry stays_commit_batch stays_reserve : stays.

(** One rule for each head symbol: [db] closes the statements, [wr], [rd] and
    [sy] the file operations, [leaf] the operations proved before. *)
Ltac walk db wr rd sy leaf := repeat (cbv zeta; lazymatch goal with
  | |- hoare _ (mret _) _ _ => by apply h_ret
  | |- hoare _ (fails _) _ _ => by apply h_fails
  | |- hoare _ (lift _) _ _ => by apply h_lift
  | |- hoare _ (lift _ ≫= _) _ _ => apply h_guard; [done|intros ? _]
  | |- hoare _ (_ ≫= _) _ _ => apply h_then; [done| |intros ?]
  | |- hoare _ (attempt _) _ _ => apply keeps_attempt
  | |- hoare _ (dropping _ _) _ _ => apply h_dropping
  | |- hoare _ (update (mark_committed _)) _ _ => apply h_set_committed
  | |- hoare _ (db_call _) _ _ => db
  | |- hoare _ (write_exact_at _ _ _) _ _ => wr
  | |- hoare _ (read_exact_at _ _ _) _ _ => rd
  | |- hoare _ (os_sync _) _ _ => sy
  | |- hoare _ flush _ _ => unfold flush
  | |- hoare _ (write_metadata _ _ _ _) _ _ => apply keeps_write_metadata
  | |- hoare _ (write_metadata_all _ _ _ _) _ _ => apply keeps_write_metadata_all
  | |- hoare _ (write_synced _ _ _ _) _ _ => apply keeps_write_synced
  | |- hoare _ flush_metadata _ _ => apply keeps_flush_metadata
  | |- hoare _ (match ?x with _ => _ end) _ _ => destruct x
  | _ => leaf
  end).

Section untouched.
Variables (blake3 : list Z -> Hash) (crc32 : list Z -> Z) (aligned : bool) (s : ArenaShard).
Variable P : asn.
Hypotheses (P_data : forall f k, P k -> P (with_data f k)) (P_db : forall (A : Type) (op : SlotDb -> result A * SlotDb) k, stays op -> P k -> P (with_db (op (co_db k)).2 k)).
Lemma u_db {A : Type} (op : SlotDb -> result A * SlotDb) : stays op -> keeps P (db_call op).
Proof. intros Ho. apply h_db; [done|..]; intros; by apply P_db. Qed.
Lemma u_write (f : ShardFile) (bs : list Z) (off : Z) : keeps P (write_exact_at f bs off).
Proof. apply h_write_loop; [done|]. intros. by apply P_data. Qed.
Lemma u_sync (f : ShardFile) : keeps P (os_sync f).
Proof.
  eapply h_conseq; [apply (h_sync P)|done| |done]. intros u k. destruct f; [|done]. intros (d & Hk & _).
  apply (P_data (co_data k)) in Hk. by destruct k.
Qed.
Lemma u_read (f : ShardFile) (len off : Z) : keeps P (read_exact_at f len off).
Proof.
  unfold read_exact_at. generalize (Z.to_nat len) as fuel. intros fuel. revert len off. induction fuel as [|fuel IH]; intros len off; cbn [read_at_loop]; [by apply h_ret|].
  apply h_if; [intros _; by apply h_ret|]. intros _. apply h_then; [done| |].
  - eapply h_conseq; [apply (h_read P)|done|by intros l k (_ & ? & _)|done].
  - intros l. cbv zeta. apply h_if; [intros _; by apply h_fails|]. intros _. apply h_then; [done|apply IH|]. intros rest. by apply h_ret.
Qed.
Lemma u_zero_chunks (fuel : nat) (n off : Z) : keeps P (zero_chunks fuel n off).
Proof.
  revert n off. induction fuel as [|fuel IH]; intros n off; cbn [zero_chunks]; [by apply h_ret|].
  apply h_if; [intros _; by apply h_ret|]. intros _. cbv zeta. apply h_then; [done|apply u_write|]. intros _. apply IH.
Qed.
Ltac untouched leaf := walk ltac:(apply u_db; solve [auto with stays]) ltac:(apply u_write) ltac:(apply u_read) ltac:(apply u_sync) leaf.
Lemma u_deallocate (i : Z) : keeps P (deallocate_slot s i).
Proof. unfold deallocate_slot, deallocate. untouched ltac:(apply u_zero_chunks). Qed.
Lemma u_read_slot (i logical offset len : Z) : keeps P (read_slot aligned s i logical offset len).
Proof. unfold read_slot, read_slot_unbuffered. untouched fail. Qed.
Lemma u_quarantine (r : CacheSlotRecord) : keeps P (quarantine_and_deallocate crc32 s r).
Proof.
  unfold quarantine_and_deallocate. apply (h_bind _ _ _ _ (fun _ => P)); [by intros c Hc|]. intros b. untouched ltac:(first [apply u_deallocate]).
Qed.
Lemma u_drop_all (rs : list CacheSlotRecord) : keeps P (drop_reservations crc32 s rs).
Proof. induction rs as [|r rs IH]; [by apply h_ret|]. apply h_then; [done|apply u_quarantine|]. intros _. exact IH. Qed.
Lemma u_stage (hook : InsertStep -> result ()) (mismatch : string) (r : CacheSlotRecord) (h : Hash) (bytes : list Z) : keeps P (stage_page blake3 crc32 aligned s hook mismatch r h bytes).
Proof. unfold stage_page, write_slot. untouched ltac:(first [apply u_read_slot]). Qed.
Lemma u_retire (r : CacheSlotRecord) : keeps P (retire_duplicate crc32 s r).
Proof. unfold retire_duplicate. untouched ltac:(first [apply u_deallocate]). Qed.
Lemma u_insert_page (hook : InsertStep -> result ()) (h : Hash) (bytes : list Z) : keeps P (insert_page blake3 crc32 aligned s hook h bytes).
Proof.
  unfold insert_page. cbv zeta. apply h_if; [intros _; by apply h_fails|]. intros Hmax%Z.ltb_ge. apply h_if; [intros _; by apply h_fails|]. intros _.
  apply h_then; [done|apply u_db, stays_reserve; unfold in_u32; lia|]. intros o. untouched ltac:(first [apply u_stage|apply u_retire|apply u_quarantine]).
Qed.
Lemma u_insert_reserved (hook : InsertStep -> result ()) (r : CacheSlotRecord) (h : Hash) (bytes : list Z) : keeps P (insert_reserved_page blake3 crc32 aligned s hook r h bytes).
Proof. unfold insert_reserved_page. untouched ltac:(first [apply u_stage|apply u_retire|apply u_quarantine]). Qed.
Lemma u_write_runs (fuel : nat) (ordered : list (CacheSlotRecord * list Z)) : keeps P (write_runs fuel s ordered).
Proof.
  revert ordered. induction fuel as [|fuel IH]; intros ordered; [destruct ordered; by apply h_ret|]. destruct ordered as [|first rest]; [by apply h_ret|].
  cbn [write_runs]. destruct (extend_run _ first rest) as [run_ remaining]. apply h_then; [done| |intros _; apply IH]. unfold write_slot, write_slots_contiguous. untouched fail.
Qed.
Lemma u_rehash_all (pages : list (CacheSlotRecord * list Z)) : keeps P (rehash_all blake3 aligned s pages).
Proof. induction pages as [|[r bs] pages IH]; cbn [rehash_all]; [by apply h_ret|]. untouched ltac:(first [apply u_read_slot|exact IH]). Qed.
Lemma u_insert_batch (hook : InsertStep -> result ()) (pages : list (CacheSlotRecord * list Z)) : keeps P (insert_reserved_pages blake3 crc32 aligned s hook pages).
Proof.
  unfold insert_reserved_pages, write_contiguous_runs. untouched ltac:(first [apply u_drop_all|apply u_write_runs|apply u_rehash_all|apply keeps_write_metadata_all]).
Qed.
End untouched.


(** ** The invariant of the cache *)
(** A page in the index is being evicted, or its record is a resident row of
    its page and its gate counts guards. *)
Definition served (k : Core) : Prop := forall h p, co_index k !! h = Some p -> rp_gate p = EVICTING \/
  (0 <= rp_gate p - RESIDENT <= LEASE_MASK /\ page_hash (rp_record p) = Some h /\ state (rp_record p) = Resident /\ live (rp_record p) k).
Definition tables_ok (k : Core) : Prop := slot_inv (co_db k) /\ served k.
Lemma tables_data (f : ArenaFile) (k : Core) : tables_ok k -> tables_ok (with_data f k).
Proof. done. Qed.
Lemma tables_db (A : Type) (op : SlotDb -> result A * SlotDb) (k : Core) : stays op -> tables_ok k -> tables_ok (with_db (op (co_db k)).2 k).
Proof.
  intros Ho [Hd Hs]. destruct (Ho _ Hd) as [Hd' Hst]. split; [done|]. intros h p Hp. destruct (Hs h p Hp) as [?|(Hg & Hh & Hr & Hl)]; [by left|right].
  split_and!; try lia; [done|done|]. apply Hst; [done|]. unfold row_of. cbn. by rewrite Hr.
Qed.
Lemma h_and {A : Type} (P P' E E' : asn) (Q Q' : A -> asn) (m : io A) : hoare P m Q E -> hoare P' m Q' E' ->
  hoare (fun k => P k /\ P' k) m (fun a k => Q a k /\ Q' a k) (fun k => E k /\ E' k).
Proof. intros H H' c [Hc Hc']. specialize (H c Hc). specialize (H' c Hc'). by destruct (m c) as [[a|e|] c']. Qed.

(** A record of a resident row. *)
Definition resident_live (r : CacheSlotRecord) (k : Core) : Prop := slot_inv (co_db k) /\ state r = Resident /\ live r k.
Lemma resident_live_data (r : CacheSlotRecord) (f : ArenaFile) (k : Core) : resident_live r k -> resident_live r (with_data f k).
Proof. done. Qed.
Lemma resident_live_db (r : CacheSlotRecord) (A : Type) (op : SlotDb -> result A * SlotDb) (k : Core) : stays op -> resident_live r k -> resident_live r (with_db (op (co_db k)).2 k).
Proof. intros Ho (Hd & Hr & Hl). destruct (Ho _ Hd) as [Hd' Hst]. split_and!; [done|done|]. apply Hst; [done|]. unfold row_of. cbn. by rewrite Hr. Qed.

Lemma query_hash_live (d : SlotDb) (h : Hash) (e : CacheSlotRecord) : slot_inv d -> query_hash d h Resident = Ok (Some e) ->
  state e = Resident /\ page_hash e = Some h /\ cache_slots d !! slot_of e = Some (row_of e).
Proof.
  intros Hd Hq. destruct (first_slot_spec "failed to query cache hash" (holds_hash h Resident) d Hd) as [(x & r & Hf & Hx & Hh & ->)|[Hf _]];
    unfold query_hash in Hq; rewrite Hf in Hq; [|done]. injection Hq as <-. apply andb_true_iff in Hh as [Hh%bool_decide_eq_true Hs%Z.eqb_eq].
  split_and!; [|exact Hh|done]. cbn in Hs. by destruct (state r).
Qed.
Lemma commit_live (r : CacheSlotRecord) (d : SlotDb) (o : CommitCacheSlotOutcome) : slot_inv d -> (tx (commit_slot r) d).1 = Ok o ->
  let q := match o with CommitCommitted q | CommitExisting q => q end in state q = Resident /\ page_hash q = page_hash r /\ cache_slots (tx (commit_slot r) d).2 !! slot_of q = Some (row_of q).
Proof.
  intros Hd. unfold tx, transact. destruct (commit_slot r d) as [[o' d']|e] eqn:Ec; [|done]. intros [= ->]. cbn in *. unfold commit_slot in Ec.
  apply bind_Ok_inv in Ec as (h & [Hh _]%require_Ok & Ec). apply bind_Ok_inv in Ec as ([y|] & Hq & Ec).
  - apply bind_Ok_inv in Ec as (d1 & Ht & [= <- <-]). destruct (query_hash_live d h y Hd Hq) as (Hy & Hyh & Hl). split_and!; [done|congruence|].
    apply (transition_stays r d d1 Hd Ht); [done|]. unfold row_of. cbn. by rewrite Hy.
  - apply bind_Ok_inv in Ec as ([n d1] & Hu & Ec). destruct (Z.eqb_spec n 1) as [->|]; [|done]. injection Ec as <- <-. split_and!; [done|done|].
    apply update_slot_Ok in Hu as [[? _]|(_ & x & Hx & Hg & Hp & _ & ->)]; [done|]. cbn. unfold slot_of. cbn. rewrite lookup_insert_eq.
    apply andb_true_iff in Hp as [_ [Hp1%bool_decide_eq_true Hp2%Z.eqb_eq]%andb_true_iff]. unfold row_of, set_state. cbn. by rewrite Hg, Hp1, Hp2, Hh.
Qed.
Lemma reserve_existing (h len : Z) (d : SlotDb) (r : CacheSlotRecord) : slot_inv d -> (reserve_cache_slot h len d).1 = Ok (ReserveExisting r) ->
  state r = Resident /\ page_hash r = Some h /\ cache_slots (reserve_cache_slot h len d).2 !! slot_of r = Some (row_of r).
Proof.
  intros Hd. unfold reserve_cache_slot. destruct (len =? 0); [done|]. cbv zeta. destruct (transact _ d) as [[[x|[[i j] g]]|e] d1] eqn:Et; cbn; [|by destruct (_ && _)|done].
  intros [= ->]. unfold transact in Et. destruct (mbind _ _) as [[a d2]|e] eqn:Eb in Et; [|done]. injection Et as -> ->.
  apply bind_Ok_inv in Eb as ([y|] & Hq & Eb); [injection Eb as -> ->; by apply query_hash_live|]. exfalso.
  apply bind_Ok_inv in Eb as ([k row] & _ & Eb). apply bind_Ok_inv in Eb as (o1 & _ & Eb). apply bind_Ok_inv in Eb as (g1 & _ & Eb). apply bind_Ok_inv in Eb as (g2 & _ & Eb).
  by apply bind_Ok_inv in Eb as ([n t] & _ & Eb).
Qed.

Section cache.
Context {M : Medium}.
Variables (blake3 : list Z -> Hash) (crc32 : list Z -> Z) (aligned : bool) (s : ArenaShard).
Context (Hgeo : geometry (sh_layout s)).
Notation store_ok := (store_ok blake3 s).
Definition cache_ok (k : Core) : Prop := store_ok k /\ served k.
Lemma cache_tables (k : Core) : cache_ok k -> tables_ok k.
Proof. intros [Hk Hs]. split; [exact (so_slots _ _ _ Hk)|done]. Qed.
(** An operation that keeps the store and leaves resident slots. *)
Lemma cache_untouched {A : Type} (P : asn) (m : io A) : hoare P m (fun _ => store_ok) store_ok -> keeps tables_ok m ->
  hoare (fun k => P k /\ tables_ok k) m (fun _ => cache_ok) cache_ok.
Proof. intros Hm Ht. eapply h_conseq; [apply (h_and _ _ _ _ _ _ m Hm Ht)|done|by intros a k [? [_ ?]]|by intros k [? [_ ?]]]. Qed.

(** ** Insertion *)
(** The record an insertion returns is a resident row of the page. *)
Lemma h_dropping_value {A : Type} (P : asn) (Q : A -> asn) (m : io A) (d : io ()) : hoare P m Q (fun _ => True) -> (forall a, keeps (Q a) d) -> hoare P (dropping d m) Q (fun _ => True).
Proof.
  intros Hm Hd c Hc. specialize (Hm c Hc). unfold dropping. destruct (m c) as [[a|e|] c']; [specialize (Hd a c' Hm)|..]; [..|done];
    destruct (d c') as [[u|e'|] c'']; done.
Qed.
Lemma insert_page_live (hook : InsertStep -> result ()) (h : Hash) (bytes : list Z) :
  hoare (fun k => slot_inv (co_db k)) (insert_page blake3 crc32 aligned s hook h bytes) (fun o k => resident_live (outcome_slot o) k /\ page_hash (outcome_slot o) = Some h) (fun _ => True).
Proof.
  unfold insert_page. cbv zeta. apply h_if; [intros _; by apply h_fails|]. intros Hmax%Z.ltb_ge. apply h_if; [intros _; by apply h_fails|]. intros _.
  eapply (h_bind _ _ _ _ (fun o k => match o with ReserveReserved r => page_hash r = Some h /\ slot_inv (co_db k) | ReserveExisting r => resident_live r k /\ page_hash r = Some h end)).
  { apply h_db; [done|done|]. intros k o Hk Ho. destruct (reserve_cache_slot_moves h (Z.of_nat (length bytes)) (co_db k) ltac:(unfold in_u32; lia) Hk) as [Hk' _].
    destruct o as [r|r]; [|by destruct (reserve_existing _ _ _ r Hk Ho) as (? & ? & ?)]. split; [|done].
    destruct (reserve_cache_slot h (Z.of_nat (length bytes)) (co_db k)) as [o d'] eqn:Er. cbn in Ho. subst o. destruct (reserve_Reserved _ _ _ _ r Hk Er) as (old & _ & _ & -> & _). done. }
  intros [r|r]; [|by apply h_ret]. apply h_pure. intros Hh. apply h_if; [intros _; by apply h_fails|]. intros _. eapply h_bind; [apply h_set_committed|]. intros ?.
  assert (closed : forall (T : Type) (q : CacheSlotRecord) (m : io T), keeps (resident_live q) m -> keeps (fun k => resident_live q k /\ page_hash q = Some h) m).
  { intros T q m Hm c [Hc Hq]. specialize (Hm c Hc). by destruct (m c) as [[?|e|] c']. }
  apply h_dropping_value; [|intros o; apply closed, u_quarantine; [apply resident_live_data|apply resident_live_db]].
  assert (keeps (fun k => slot_inv (co_db k)) (stage_page blake3 crc32 aligned s hook "cache payload rehash differs from reservation" r h bytes)) as Hstage
    by by apply u_stage.
  apply h_then; [done|exact Hstage|]. intros _.
  eapply (h_bind _ _ _ _ (fun o k => let q := match o with CommitCommitted q | CommitExisting q => q end in resident_live q k /\ page_hash q = Some h)).
  { apply h_db; [done|done|]. intros k o Hk Ho. destruct (commit_live r (co_db k) o Hk Ho) as (H1 & H2 & H3). rewrite Hh in H2. cbv zeta. split; [|done].
    split_and!; [|done|done]. by apply stays_commit. }
  intros [q|q]; cbv zeta.
  - eapply h_bind; [apply h_set_committed|]. intros ?. apply h_guard; [done|]. intros _ _. apply h_ret. intros k Hk. exact Hk.
  - eapply h_bind; [eapply h_conseq; [apply (closed bool q), u_retire; [apply resident_live_data|apply resident_live_db]|done|intros b k H; exact H|done]|]. intros b.
    apply h_if; [intros _; by apply h_fails|]. intros _. eapply h_bind; [apply h_set_committed|]. intros ?. apply h_ret. intros k Hk. exact Hk.
Qed.
Lemma keeps_cache_insert (hook : InsertStep -> result ()) (h : Hash) (bytes : list Z) : keeps cache_ok (insert_page blake3 crc32 aligned s hook h bytes).
Proof.
  eapply h_pre; [apply (cache_untouched store_ok); [by apply keeps_insert_page|apply u_insert_page; [apply tables_data|apply tables_db]]|].
  intros k Hk. split; [apply Hk|by apply cache_tables].
Qed.

(** ** The index *)
Lemma h_update_index (P : asn) (f : Cache -> Cache) : (forall c, P (core c) -> cache_ok (core (f c))) -> hoare P (update f) (fun _ => cache_ok) cache_ok.
Proof. intros H. by apply h_update. Qed.
Definition with_index (m : gmap Z ResidentPage) (k : Core) : Core := mkCore (co_db k) (co_data k) m.
Lemma store_index (m : gmap Z ResidentPage) (k : Core) : store_ok k -> store_ok (with_index m k).
Proof. by intros [? ? ?]. Qed.
Lemma served_insert (h : Hash) (p : ResidentPage) (k : Core) : served k ->
  (rp_gate p = EVICTING \/ (0 <= rp_gate p - RESIDENT <= LEASE_MASK /\ page_hash (rp_record p) = Some h /\ state (rp_record p) = Resident /\ live (rp_record p) k)) ->
  served (with_index (<[h := p]> (co_index k)) k).
Proof.
  intros Hs Hp h' q Hq. cbn in Hq. destruct (decide (h = h')) as [<-|Hne]; [rewrite lookup_insert_eq in Hq; by injection Hq as <-|].
  rewrite lookup_insert_ne in Hq by done. exact (Hs h' q Hq).
Qed.
Lemma lease_zero : 0 <= RESIDENT - RESIDENT <= LEASE_MASK.
Proof. assert (HM : LEASE_MASK = 4294967295) by reflexivity. lia. Qed.
Lemma keeps_install (r : CacheSlotRecord) : hoare (fun k => cache_ok k /\ live r k) (install r) (fun _ => cache_ok) cache_ok.
Proof.
  unfold install. apply h_if; [intros _; apply h_fails; by intros k [? _]|]. intros Hr%negb_false_iff%bool_decide_eq_true. apply h_guard; [by intros k [? _]|]. intros h Hh%ok_or_Ok_inv.
  apply h_update_index. intros c [Hc Hl]. destruct (ca_index c !! h) as [p|]; [exact Hc|]. split; [apply (store_index _ (core c)), Hc|].
  apply (served_insert h (resident_page r) (core c)); [apply Hc|]. right. cbn. split_and!; [apply lease_zero|apply lease_zero|done|done|done].
Qed.
Lemma keeps_admit (h : Hash) (bytes : list Z) : keeps cache_ok (admit_page blake3 crc32 aligned s h bytes).
Proof.
  unfold admit_page. eapply h_bind; [|intros o; apply keeps_install].
  eapply h_conseq; [apply (h_and _ _ _ _ _ _ _ (keeps_cache_insert (fun _ => Ok ()) h bytes) (insert_page_live (fun _ => Ok ()) h bytes))|..].
  - intros k Hk. split; [done|apply Hk].
  - intros o k [Hk [Hl _]]. split; [done|apply Hl].
  - by intros k [? _].
Qed.

Lemma from_records_served (k : Core) (rs : list CacheSlotRecord) (m0 m : gmap Z ResidentPage) : Forall (fun r => live r k) rs ->
  served (with_index m0 k) -> from_resident_records m0 rs = Ok m -> served (with_index m k).
Proof.
  intros Hl. revert m0. induction Hl as [|r rs Hr Hl IH]; intros m0 Hs; cbn [from_resident_records]; [by intros [= <-]|].
  destruct (negb (bool_decide _)) eqn:E1; [done|]. destruct (negb (_ =? _)); [done|]. intros (h & Hh%ok_or_Ok_inv & H)%bind_Ok_inv. destruct (m0 !! h); [done|].
  apply (IH (<[h := resident_page r]> m0)); [|done]. apply (served_insert h (resident_page r) (with_index m0 k) Hs). right. cbn.
  apply negb_false_iff, bool_decide_eq_true in E1. split_and!; [apply lease_zero|apply lease_zero|done|done|done].
Qed.
Lemma load_residents_live (k : Core) (rs : list CacheSlotRecord) : slot_inv (co_db k) -> load_residents (co_db k) = Ok rs -> Forall (fun r => live r k) rs.
Proof.
  intros Hd H%decode_slots_Ok. assert (Forall (fun x => cache_slots (co_db k) !! x.1 = Some x.2) (slots_where (fun r => sr_state r =? 2) (co_db k))) as Hin
    by (apply Forall_forall; by intros x [? _]%elem_of_slots_where).
  induction H as [|[key x] r l rs' Hx Hrest IH]; constructor; [|apply IH; by inversion Hin]. apply Forall_cons in Hin as [Hk _]. cbn in Hk.
  destruct (decode_slot_ok key x (proj1 Hd key x Hk)) as (st & Hs & Hdec). rewrite Hx in Hdec. injection Hdec as ->. unfold live, slot_of, row_of. cbn. rewrite <-Hs. destruct key, x. exact Hk.
Qed.
Lemma served_empty (k : Core) : served (with_index ∅ k).
Proof. intros h p Hp. cbn in Hp. by rewrite lookup_empty in Hp. Qed.
Lemma keeps_rebuild (pins : result (gset Z)) : keeps cache_ok (ResidentIndex_rebuild pins).
Proof.
  unfold ResidentIndex_rebuild. eapply (h_bind _ _ _ _ (fun rs k => cache_ok k /\ Forall (fun r => live r k) rs)).
  - apply h_db; [done|by intros [? ? ?]|]. intros k rs Hk Hrs. destruct k. split; [exact Hk|]. by apply load_residents_live; [apply Hk|].
  - intros rs. apply h_guard; [by intros k [? _]|]. intros m Hm. apply h_guard; [by intros k [? _]|]. intros pinned _. apply h_update. intros c [Hc Hl]. split; [apply (store_index _ (core c)), Hc|].
    exact (from_records_served (core c) rs ∅ m Hl (served_empty _) Hm).
Qed.

(** ** Guards and reads *)
(** A guard of the page is held. *)
Definition guarded (h : Hash) (r : CacheSlotRecord) (k : Core) : Prop :=
  cache_ok k /\ page_hash r = Some h /\ state r = Resident /\ live r k /\ exists p, co_index k !! h = Some p /\ 1 <= rp_gate p - RESIDENT <= LEASE_MASK /\ rp_record p = r.
Lemma h_acquire (h : Hash) : hoare cache_ok (acquire h) (fun o k => match o with Some r => guarded h r k | None => cache_ok k end) cache_ok.
Proof.
  unfold acquire. apply (h_bind _ _ _ _ (fun o k => cache_ok k /\ co_index k !! h = o)); [by intros c Hc|]. intros [p|]; [|apply h_ret; by intros k [? _]].
  apply h_if; [intros _; apply h_ret; by intros k [? _]|]. intros Hph%negb_false_iff%Z.eqb_eq. apply h_if; [intros _; apply h_fails; by intros k [? _]|]. intros Hne%Z.eqb_neq.
  apply (h_bind _ _ _ _ (fun _ => guarded h (rp_record p))); [|intros _; by apply h_ret]. apply h_update. intros c [[Hst Hs] Hp]. cbn in Hp.
  assert (HR : RESIDENT = 8589934592) by reflexivity. assert (HE : EVICTING = 12884901888) by reflexivity. assert (HM : LEASE_MASK = 4294967295) by reflexivity.
  destruct (Hs h p Hp) as [He|(Hg & Hh & Hr & Hl)]; [rewrite He in Hph; by vm_compute in Hph|].
  assert (rp_gate p - RESIDENT <> LEASE_MASK) as Hlt.
  { intros Heq. apply Hne. destruct (gate_word_split (rp_gate p - RESIDENT) Hg) as [_ H2]. replace (RESIDENT + (rp_gate p - RESIDENT)) with (rp_gate p) in H2 by lia. by rewrite H2. }
  split_and!; [split|done|done|done|].
  - by apply (store_index _ (core c)).
  - apply (served_insert h (mkResident (rp_record p) (rp_gate p + 1)) (core c) Hs). right. cbn. split_and!; [lia|lia|done|done|done].
  - exists (mkResident (rp_record p) (rp_gate p + 1)). cbn. split; [by rewrite lookup_insert_eq|]. split; [lia|done].
Qed.
Lemma h_drop_guard (h : Hash) (r : CacheSlotRecord) (f : ArenaFile) (E : asn) :
  hoare (fun k => guarded h r k /\ co_data k = f) (drop_guard h) (fun _ k => cache_ok k /\ co_data k = f /\ rp_record <$> co_index k !! h = Some r) E.
Proof.
  apply (h_update _ (fun k => cache_ok k /\ co_data k = f /\ rp_record <$> co_index k !! h = Some r)). intros c (([Hst Hs] & Hh & Hr & Hl & p & Hp & Hg & <-) & Hf). cbn in Hp. rewrite Hp.
  split; [split; [by apply (store_index _ (core c))|]|split; [done|cbn; by rewrite lookup_insert_eq]].
  assert (HR : RESIDENT = 8589934592) by reflexivity. assert (HM : LEASE_MASK = 4294967295) by reflexivity.
  apply (served_insert h (mkResident (rp_record p) (rp_gate p -! 1)) (core c) Hs). right. cbn. rewrite wsub_u64_small; [|lia|assert (HU : u64_max = 18446744073709551615) by reflexivity; lia]. split_and!; [lia|lia|done|done|done].
Qed.
Lemma h_asks {A B : Type} (P E : asn) (Q : B -> asn) (f : Cache -> A) (k : A -> io B) : (forall a, hoare P (k a) Q E) -> hoare P (asks f ≫= k) Q E.
Proof. intros H. apply (h_bind _ _ _ _ (fun _ => P)); [by intros c Hc|done]. Qed.
Lemma h_dropping_sure {A : Type} (P E E' : asn) (Q Q' : A -> asn) (m : io A) (d : io ()) :
  hoare P m Q E -> (forall a, hoare (Q a) d (fun _ => Q' a) (fun _ => False)) -> hoare E d (fun _ => E') (fun _ => False) -> (forall k, E k -> E' k) -> hoare P (dropping d m) Q' E'.
Proof.
  intros Hm Hd He HE c Hc. specialize (Hm c Hc). unfold dropping. destruct (m c) as [[a|e|] c'];
    [specialize (Hd a c' Hm)|specialize (He c' Hm)|by apply HE]; destruct (d c') as [[u|e'|] c'']; done.
Qed.
(** [l] is the range of the bytes in the record's slot, which are the page's
    unless the slot is worn. *)
Definition part_of_slot (h : Hash) (r : CacheSlotRecord) (offset len : Z) (l : list Z) (f : ArenaFile) : Prop :=
  let b := slot_bytes s (slot_index r) (logical_length r) f in
  offset + len <= Z.of_nat (length b) /\ l = get (Z.to_nat offset) (Z.to_nat len) b /\ (worn (slot_index r) = true \/ blake3 b = h).
Lemma guarded_row (h : Hash) (r : CacheSlotRecord) (k : Core) : guarded h r k ->
  0 <= slot_index r < cl_slot_count (sh_layout s) /\ 0 < logical_length r <= page_size s /\ shard_id r = 0 /\
  (worn (slot_index r) = true \/ blake3 (slot_bytes s (slot_index r) (logical_length r) (co_data k)) = h) /\ Z.of_nat (length (slot_bytes s (slot_index r) (logical_length r) (co_data k))) = logical_length r.
Proof.
  intros ([Hst _] & Hh & Hr & Hl & _). pose proof (slot_index_nonneg _ _ _ (so_slots _ _ _ Hst) Hl) as Hi. cbn in Hi.
  destruct (so_resident _ _ _ Hst _ _ Hl) as (H0 & Hlt & Hsz & Hpg); [unfold row_of; cbn; by rewrite Hr|]. cbn in *. rewrite Hh in Hpg.
  assert (worn (slot_index r) = true \/ blake3 (slot_bytes s (slot_index r) (logical_length r) (co_data k)) = h) as Hg by (destruct Hpg as [?|[[= ?] _]]; [by left|by right]).
  destruct (proj1 (so_slots _ _ _ Hst) _ _ Hl) as (_ & _ & _ & _ & Hpos). cbn in Hpos. rewrite Hr in Hpos. cbn in Hpos.
  split_and!; [done|done|lia|done|done|done|]. unfold slot_bytes. pose proof (base_header s Hgeo _ Hi) as Hb. assert (HH : ARENA_HEADER_BYTES = 4096) by reflexivity.
  pose proof (base_end s Hgeo _ Hlt) as He. pose proof (so_length _ _ _ Hst) as Hlen. rewrite length_get; lia.
Qed.
Lemma h_read_guarded (h : Hash) (r : CacheSlotRecord) (offset len : Z) (f : ArenaFile) : 0 <= slot_index r -> 0 <= offset -> 0 <= len ->
  hoare (fun k => guarded h r k /\ co_data k = f) (read_exact aligned s r offset len) (fun l k => part_of_slot h r offset len l f /\ guarded h r k /\ co_data k = f) (fun k => guarded h r k /\ co_data k = f).
Proof.
  intros Hi Ho Hl. eapply h_conseq; [apply (h_read_slot aligned s Hgeo (fun k => guarded h r k /\ co_data k = f)); done|done| |done]. intros l k ((_ & -> & Hin & _) & Hk & Hf). split; [|done].
  destruct (guarded_row h r k Hk) as (_ & _ & _ & Hg & Hlen). rewrite Hf in Hg, Hlen. pose proof (base_header s Hgeo _ Hi) as Hb. assert (HH : ARENA_HEADER_BYTES = 4096) by reflexivity.
  split_and!; [lia| |exact Hg]. rewrite Hf. unfold slot_bytes. rewrite get_get by lia. f_equal. lia.
Qed.
Lemma h_read_dropping (h : Hash) (r : CacheSlotRecord) (offset len : Z) (f : ArenaFile) : 0 <= offset -> 0 <= len ->
  hoare (fun k => guarded h r k /\ co_data k = f) (dropping (drop_guard h) (read_exact aligned s r offset len))
    (fun l k => part_of_slot h r offset len l f /\ cache_ok k /\ co_data k = f /\ rp_record <$> co_index k !! h = Some r) cache_ok.
Proof.
  intros Ho Hl. destruct (decide (0 <= slot_index r)) as [Hi|Hi]; [|intros c [Hc _]; destruct (guarded_row _ _ _ Hc) as ([? _] & _); done].
  eapply h_dropping_sure; [by apply h_read_guarded| | |].
  - intros l. apply h_pure. intros Hp. eapply h_conseq; [apply (h_drop_guard h r f (fun _ => False))|done| |done]. by intros u k Hk.
  - eapply h_conseq; [apply (h_drop_guard h r f (fun _ => False))|done| |done]. by intros u k [? _].
  - by intros k [[? _] _].
Qed.
(** The state [c]: its index entry of the page, its arena and its table. *)
Lemma h_acquire_from (h : Hash) (m : gmap Z ResidentPage) (f : ArenaFile) :
  hoare (fun k => cache_ok k /\ co_data k = f /\ co_index k = m) (acquire h)
    (fun o k => match o with
                | Some r => rp_record <$> m !! h = Some r /\ guarded h r k /\ co_data k = f
                | None => (m !! h = None \/ exists p, m !! h = Some p /\ rp_gate p = EVICTING) /\ cache_ok k
                end) cache_ok.
Proof.
  intros c (Hc & Hf & Hm). pose proof (h_acquire h c Hc) as H. cbn in Hf, Hm. unfold acquire, mbind, run_bind in *. cbn in *. rewrite Hm in *. destruct (m !! h) as [p|] eqn:E; cbn in *; [|by split; [left|]].
  destruct (negb (gate_phase (rp_gate p) =? 2)) eqn:Eg; cbn in *.
  - split; [|done]. right. exists p. split; [done|]. rewrite <-Hm in E. destruct (proj2 Hc h p E) as [?|(Hw & _)]; [done|]. destruct (gate_word_split (rp_gate p - RESIDENT) Hw) as [H1 _].
    replace (RESIDENT + (rp_gate p - RESIDENT)) with (rp_gate p) in H1 by lia. by rewrite H1 in Eg.
  - destruct (gate_leases (rp_gate p) =? LEASE_MASK); cbn in *; done.
Qed.
Lemma h_read_page (h : Hash) (offset len : Z) (m : gmap Z ResidentPage) (f : ArenaFile) : 0 <= offset -> 0 <= len ->
  hoare (fun k => cache_ok k /\ co_data k = f /\ co_index k = m) (read_page aligned s h offset len)
    (fun o k => (forall l, o = Some l -> exists r, rp_record <$> m !! h = Some r /\ part_of_slot h r offset len l f) /\ cache_ok k) cache_ok.
Proof.
  intros Ho Hl. eapply h_bind; [apply h_acquire_from|]. intros [r|]; [|apply h_ret; by intros k [_ ?]]. apply h_pure. intros Hr. eapply h_bind; [by apply h_read_dropping|]. intros l. apply h_ret.
  intros k (Hp & Hk & _). split; [intros ? [= <-]; by exists r|done].
Qed.

(** ** Eviction *)
Section evicting.
Variables (h : Hash) (r : CacheSlotRecord).
Context (Hr : state r = Resident) (Hh : page_hash r = Some h).
(** The gate is closed on the page's resident slot. *)
Definition closing (k : Core) : Prop := cache_ok k /\ live r k /\ exists g, co_index k !! h = Some (mkResident r g) /\ g = EVICTING.
Definition closed (k : Core) : Prop := 0 <= slot_index r /\ owns blake3 s (fun i => i = slot_index r) k /\ served k.
Lemma closed_ok (k : Core) : closed k -> cache_ok k.
Proof. intros (_ & [? _] & ?). by split. Qed.
Lemma h_begin : hoare closing (db_call (tx (begin_cache_eviction r))) (fun e k => e = with_state Evicting r /\ closed k) (fun k => cache_ok k).
Proof.
  assert (forall k, closing k -> store_ok (with_db (tx (begin_cache_eviction r) (co_db k)).2 k) /\ served (with_db (tx (begin_cache_eviction r) (co_db k)).2 k)) as Hq.
  { intros k ([Hst Hs] & Hl & g & Hg & ->). split; [exact (proj1 (owns_quiet blake3 s _ _ k (quiet_begin r) (owns_none blake3 s k Hst)))|].
    intros h' p Hp. cbn in Hp. destruct (Hs h' p Hp) as [?|(Hw & Hh' & Hr' & Hl')]; [by left|right]. split_and!; try lia; [done|done|].
    unfold live. cbn. rewrite (only_begin r); [done|]. intros Heq. unfold live in Hl, Hl'. rewrite Heq, Hl in Hl'. injection Hl' as _ _ Hhash _.
    assert (h' = h) as -> by congruence. rewrite Hg in Hp. injection Hp as <-. cbn in Hw.
    assert (HE : EVICTING = 12884901888) by reflexivity. assert (HR : RESIDENT = 8589934592) by reflexivity. assert (HM : LEASE_MASK = 4294967295) by reflexivity. lia. }
  apply h_db; [by intros k [? _]|by intros k [? ?]%Hq|]. intros k e Hk Ho. destruct (Hq k Hk) as [H1 H2]. destruct (begin_takes r e (co_db k) Ho) as (-> & x & Hx & H3).
  split; [done|]. split_and!; [exact (slot_index_nonneg _ _ _ (so_slots _ _ _ H1) Hx)| |done]. split; [done|]. intros i y -> Hy. destruct Hk as ([Hst _] & Hl & _).
  destruct (so_resident _ _ _ Hst _ _ Hl) as (H0 & _); [unfold row_of; cbn; by rewrite Hr|]. unfold slot_of in Hx, H0. cbn in H0, Hy. rewrite H0, Hy in Hx. injection Hx as ->. lia.
Qed.
(** The attempt, and the gate opened again on an error. *)
Lemma closing_reopen (c : Cache) : closing (core c) -> cache_ok (core (set_gate_word h (mkResident r EVICTING) RESIDENT c)).
Proof.
  intros ([Hst Hs] & Hl & _). split; [by apply (store_index _ (core c))|]. apply (served_insert h (mkResident r RESIDENT) (core c) Hs). right. cbn.
  split_and!; [apply lease_zero|apply lease_zero|done|done|done].
Qed.
Lemma h_begin_error : forall c, closing (core c) -> match db_call (tx (begin_cache_eviction r)) c with (Failed _, c') => closing (core c') | _ => True end.
Proof.
  intros c Hc. unfold db_call, reply, mbind, run_bind. assert (forall (c : Cache), closing (core c) -> forall e, (tx (begin_cache_eviction r) (ca_db c)).1 = Err e -> closing (core (set_db (tx (begin_cache_eviction r) (ca_db c)).2 c))) as Herr.
  { intros c' Hc' e He. unfold tx, transact in *. destruct (begin_cache_eviction r (ca_db c')) as [[a d']|e']; [done|]. by destruct c'. }
  destruct (ca_replies c) as [|[|n|n e|n] l]; cbn; try (destruct (tx (begin_cache_eviction r) (ca_db c)).1 eqn:E; cbn; [done|by apply (Herr _ Hc) in E]); try done; destruct (0 <? n); done.
Qed.
Lemma h_attempt_begin : hoare closing (attempt (db_call (tx (begin_cache_eviction r))))
  (fun o k => match o with Ok e => e = with_state Evicting r /\ closed k | Err _ => closing k end) cache_ok.
Proof.
  intros c Hc. pose proof (h_begin c Hc) as H1. pose proof (h_begin_error c Hc) as H2. unfold attempt. destruct (db_call _ c) as [[e|e|] c']; done.
Qed.
Lemma keeps_closed_db {A : Type} (op : SlotDb -> result A * SlotDb) : quiet op -> stays op -> keeps closed (db_call op).
Proof.
  intros Hq Hs. apply h_db; [done|..]; intros k; [intros (Hi & Ho & Hsv)|intros a (Hi & Ho & Hsv) _];
    (split_and!; [done|by apply owns_quiet|exact (proj2 (tables_db _ op k Hs (conj (so_slots _ _ _ (proj1 Ho)) Hsv)))]).
Qed.
Lemma keeps_closed_deallocate : keeps closed (deallocate_slot s (slot_index r)).
Proof.
  destruct (decide (0 <= slot_index r)) as [Hi|Hi]; [|by intros c (? & _)].
  eapply h_conseq; [apply (h_and _ _ _ _ _ _ _ (keeps_deallocate_slot blake3 s Hgeo (fun i => i = slot_index r) (slot_index r) eq_refl Hi) (u_deallocate s served ltac:(done) (slot_index r)))|..].
  - by intros k (_ & ? & ?).
  - by intros u k [? ?].
  - by intros k [? ?].
Qed.
Lemma closed_remove (c : Cache) : closed (core c) -> closed (core (set_index (delete h (ca_index c)) c)).
Proof.
  intros (Hi & [[H1 H2 H3] Hun] & Hs). split_and!; [done|by split|]. intros h' p Hp. cbn in Hp. apply lookup_delete_Some in Hp as [_ Hp]. exact (Hs h' p Hp).
Qed.
End evicting.

(** The row of the record's slot is free. *)
Definition slot_freed (r : CacheSlotRecord) (k : Core) : Prop := exists y, cache_slots (co_db k) !! slot_of r = Some y /\ sr_state y = 0.
Lemma finish_frees (r : CacheSlotRecord) (d : SlotDb) (u : ()) : (tx (finish_deallocation r) d).1 = Ok u ->
  exists y, cache_slots (tx (finish_deallocation r) d).2 !! slot_of r = Some y /\ sr_state y = 0.
Proof.
  unfold tx, transact. destruct (finish_deallocation r d) as [[u' d']|e] eqn:Er; [|done]. intros _. cbn. unfold finish_deallocation in Er. destruct (state r); try done;
    apply bind_Ok_inv in Er as ([n d1] & Hu & Er); destruct (Z.eqb_spec n 1) as [->|]; try done; injection Er as _ <-;
    (apply update_slot_Ok in Hu as [[? _]|(_ & y & _ & _ & _ & _ & ->)]; [done|]); cbn; unfold slot_of; rewrite lookup_insert_eq; by eexists.
Qed.
Lemma h_evict (h : Hash) (ignore_pins : bool) (o : option CacheSlotRecord) :
  hoare (fun k => cache_ok k /\ rp_record <$> co_index k !! h = o) (evict_inner crc32 s h ignore_pins (deallocate_page s))
    (fun b k => cache_ok k /\ match o with Some r => b = true /\ co_index k !! h = None /\ slot_freed r k | None => b = false end) cache_ok.
Proof.
  unfold evict_inner. apply (h_bind _ _ _ _ (fun q k => rp_record <$> q = o /\ cache_ok k /\ co_index k !! h = q)); [intros c [Hc Ho]; split; [exact Ho|done]|].
  intros [p|]; apply h_pure; intros <-; [|apply h_ret; by intros k [? _]].
  apply h_asks. intros pinned. apply h_if; [intros _; apply h_fails; by intros k [? _]|]. intros _.
  apply h_if; [intros _; apply h_fails; by intros k [? _]|]. intros Hx%negb_false_iff. unfold compare_exchange in Hx. destruct (Z.eqb_spec (rp_gate p) RESIDENT) as [Hg|]; [|done]. clear Hx.
  set (r := rp_record p). assert (HE : EVICTING = 12884901888) by reflexivity. assert (HR : RESIDENT = 8589934592) by reflexivity.
  apply (h_bind _ _ _ _ (fun _ k => (state r = Resident /\ page_hash r = Some h) /\ closing h r k)).
  { apply h_update. intros c [[Hst Hs] Hp]. cbn in Hp. destruct (Hs h p Hp) as [He|(_ & Hh & Hr & Hl)]; [lia|]. split; [done|]. split_and!; [split|done|].
    - by apply (store_index _ (core c)).
    - apply (served_insert h (mkResident r EVICTING) (core c) Hs). by left.
    - exists EVICTING. cbn. by rewrite lookup_insert_eq. }
  intros _. apply h_pure. intros [Hr Hh]. eapply h_bind; [by apply h_attempt_begin|]. intros [e|e].
  2: { eapply h_bind; [|intros ?; apply h_fails; intros k Hk; exact Hk]. apply h_update. intros c Hc. by apply (closing_reopen h r Hr Hh). }
  apply h_pure. intros ->. eapply h_conseq; [|intros k Hk; exact Hk|intros a k Hk; exact Hk|by intros k Hk%closed_ok; exact Hk].
  apply h_then; [done|apply keeps_write_synced|]. intros _. set (gone := fun k => closed r k /\ co_index k !! h = None).
  assert (forall (A : Type) (m : io A), keeps (closed r) m -> keeps (fun k => co_index k !! h = None) m -> keeps gone m) as Hgone by (intros A m H1 H2; exact (h_and _ _ _ _ _ _ _ H1 H2)).
  eapply (h_bind _ _ _ _ (fun _ => gone)); [apply h_update; intros c Hc; split; [by apply (closed_remove h r)|cbn; apply lookup_delete_eq]|]. intros ?.
  eapply (h_conseq _ gone _ _ _ gone); [|done|intros ? k Hk; exact Hk|by intros k [Hk _]].
  apply h_then; [done|apply keeps_attempt, Hgone; [apply keeps_closed_deallocate|by apply u_deallocate]|]. intros [u|e].
  - apply h_then; [done|apply keeps_write_synced|]. intros _.
    eapply (h_bind _ _ _ _ (fun _ k => gone k /\ slot_freed r k)); [|intros ?; apply h_ret; intros k [[Hk%closed_ok Hi] Hf]; by split_and!].
    assert (forall k, gone k -> gone (with_db (tx (finish_deallocation (with_state Evicting r)) (co_db k)).2 k)) as Hk'.
    { intros k [(Hi & Ho & Hsv) Hn]. split; [|done]. split_and!; [done|apply owns_quiet; [apply quiet_finish|done]|].
      exact (proj2 (tables_db _ _ k (stays_finish _) (conj (so_slots _ _ _ (proj1 Ho)) Hsv))). }
    apply h_db; [done|done|]. intros k v Hk Hv. split; [by apply Hk'|]. exact (finish_frees (with_state Evicting r) (co_db k) v Hv).
  - apply h_then; [done|apply Hgone; [apply keeps_closed_db; [apply quiet_retry|apply stays_retry]|apply u_db; [done|apply stays_retry]]|]. intros _. by apply h_fails.
Qed.
Lemma keeps_evict (h : Hash) (ignore_pins : bool) : keeps cache_ok (evict_inner crc32 s h ignore_pins (deallocate_page s)).
Proof.
  intros c Hc. pose proof (h_evict h ignore_pins (rp_record <$> co_index (core c) !! h) c (conj Hc eq_refl)) as H. by destruct (evict_inner _ _ _ _ _ _) as [[b|e|] c']; [destruct H|..].
Qed.

(** ** Verification *)
(** The bytes in the slot of the page's record. *)
Definition indexed_bytes (m : gmap Z ResidentPage) (h : Hash) (f : ArenaFile) : option (list Z) :=
  p ← m !! h; Some (slot_bytes s (slot_index (rp_record p)) (logical_length (rp_record p)) f).
Definition verdict (h : Hash) (class : IntegrityClass) (m : gmap Z ResidentPage) (f : ArenaFile) (o : VerifyOutcome) (k : Core) : Prop :=
  match o with
  | Absent => m !! h = None \/ exists p, m !! h = Some p /\ rp_gate p = EVICTING
  | Verified => exists b, indexed_bytes m h f = Some b /\ blake3 b = h
  | RecoveryRequired => class <> Clean /\ exists b, indexed_bytes m h f = Some b /\ blake3 b <> h
  | Quarantined => class = Clean /\ (exists b, indexed_bytes m h f = Some b /\ blake3 b <> h) /\ co_index k !! h = None /\ exists p, m !! h = Some p /\ slot_freed (rp_record p) k
  end.
Lemma h_verify_from (h : Hash) (class : IntegrityClass) (m : gmap Z ResidentPage) (f : ArenaFile) :
  hoare (fun k => cache_ok k /\ co_data k = f /\ co_index k = m) (verify_page blake3 crc32 aligned s h class)
    (fun o k => cache_ok k /\ verdict h class m f o k /\ (forall p, m !! h = Some p -> worn (slot_index (rp_record p)) = false -> o = Absent \/ o = Verified)) cache_ok.
Proof.
  unfold verify_page. eapply h_bind; [apply h_acquire_from|]. intros [r|]; [|apply h_ret; intros k [? ?]; split_and!; [done|done|by left]]. apply h_pure. intros Hr.
  destruct (m !! h) as [p|] eqn:Ep; [|done]. injection Hr as Hr. destruct (decide (0 <= logical_length r)) as [Hn|Hn]; [|intros c [Hc _]; destruct (guarded_row _ _ _ Hc) as (_ & ? & _); lia].
  eapply h_bind; [by apply h_read_dropping|]. intros l. apply h_pure. intros (_ & Hl & Hg). assert (l = slot_bytes s (slot_index r) (logical_length r) f) as Hlb.
  { rewrite Hl. unfold slot_bytes, get. change (Z.to_nat 0) with 0%nat. by rewrite drop_0, take_take, Nat.min_id. }
  rewrite <-Hlb in Hg. assert (indexed_bytes m h f = Some l) as Hb by (unfold indexed_bytes; rewrite Ep; cbn; by rewrite Hr, Hlb).
  apply h_if; [intros Hh%Z.eqb_eq; apply h_ret; intros k (Hk & _); split_and!; [done|by exists l|by right]|]. intros Hh%Z.eqb_neq.
  assert (forall o (q : ResidentPage), Some p = Some q -> worn (slot_index (rp_record q)) = false -> o = Absent \/ o = Verified) as Hw.
  { intros o q [= <-] Hw. rewrite Hr in Hw. destruct Hg; congruence. }
  assert (forall (k : Core), class <> Clean -> verdict h class m f RecoveryRequired k) as Hrec by (intros k ?; split; [done|]; by exists l).
  destruct class; [|apply h_ret; intros k (Hk & _); split_and!; [done|by apply Hrec|exact (Hw _)]..].
  eapply h_bind; [eapply h_pre; [apply (h_evict h true (Some r))|intros k (Hk & _ & Hi); by split]|]. intros b. apply h_ret. intros k (Hk & _ & Hi & Hf). split_and!; [done| |exact (Hw _)].
  split_and!; [done|by exists l|done|]. exists p. by rewrite Hr.
Qed.
Lemma h_verify (h : Hash) (class : IntegrityClass) : keeps cache_ok (verify_page blake3 crc32 aligned s h class).
Proof.
  intros c Hc. pose proof (h_verify_from h class (co_index (core c)) (co_data (core c)) c (conj Hc (conj eq_refl eq_refl))) as H. by destruct (verify_page _ _ _ _ _ _ _) as [[o|e|] c']; [destruct H|..].
Qed.
Lemma keeps_scrub (l : list Hash) (r : ScrubReport) : keeps cache_ok (scrub_pages blake3 crc32 aligned s l r).
Proof. revert r. induction l as [|h l IH]; intros r; cbn [scrub_pages]; [by apply h_ret|]. apply h_then; [done|apply h_verify|]. intros o. apply IH. Qed.

(** ** Runs of a cache *)
Inductive CacheOp : Type :=
| CAdmit (h : Hash) (bytes : list Z) | CInsert (hook : InsertStep -> result ()) (h : Hash) (bytes : list Z)
| CReserveBatch (requests : list (Hash * Z)) | CInsertReserved (hook : InsertStep -> result ()) (r : CacheSlotRecord) (h : Hash) (bytes : list Z)
| CInsertBatch (hook : InsertStep -> result ()) (pages : list (CacheSlotRecord * list Z)) | CInstall (r : CacheSlotRecord)
| CRead (h : Hash) (offset len : Z) | CAcquire (h : Hash) | CDropGuard (h : Hash) | CEvict (h : Hash) | CQuarantine (h : Hash)
| CVerify (h : Hash) (class : IntegrityClass) | CScrub (n : Z) (gameplay_active : bool) | CReconcile (dry_run : bool) | CRebuild (pins : result (gset Z)).
Definition ignore {A : Type} (m : io A) : io () := _ ← m; mret ().
Definition run_cache_op (o : CacheOp) : io () :=
  match o with
  | CAdmit h bytes => admit_page blake3 crc32 aligned s h bytes
  | CInsert hook h bytes => ignore (insert_page blake3 crc32 aligned s hook h bytes)
  | CReserveBatch requests => ignore (db_call (tx (reserve_batch requests)))
  | CInsertReserved hook r h bytes => ignore (insert_reserved_page blake3 crc32 aligned s hook r h bytes)
  | CInsertBatch hook pages => ignore (insert_reserved_pages blake3 crc32 aligned s hook pages)
  | CInstall r => install r
  | CRead h offset len => ignore (read_page aligned s h offset len)
  | CAcquire h => ignore (acquire h)
  | CDropGuard h => drop_guard h
  | CEvict h => ignore (evict crc32 s h)
  | CQuarantine h => ignore (quarantine_corrupt crc32 s h)
  | CVerify h class => ignore (verify_page blake3 crc32 aligned s h class)
  | CScrub n gameplay_active => ignore (scrub_batch blake3 crc32 aligned s n gameplay_active)
  | CReconcile dry_run => ignore (reconcile crc32 s dry_run)
  | CRebuild pins => ResidentIndex_rebuild pins
  end.
(** Callers insert and install what they hold a current record of, drop guards
    they hold, and reconcile an arena that no index serves. *)
Definition enabled (o : CacheOp) (k : Core) : Prop :=
  match o with
  | CReserveBatch requests => Forall (fun q => in_u32 q.2) requests
  | CInsertReserved _ r _ _ | CInstall r => live r k
  | CInsertBatch _ pages => Forall (fun p => live p.1 k) pages
  | CRead _ offset len => 0 <= offset /\ 0 <= len
  | CDropGuard h => exists p, co_index k !! h = Some p /\ 1 <= rp_gate p - RESIDENT <= LEASE_MASK
  | CReconcile _ => co_index k = ∅
  | _ => True
  end.
Lemma keeps_ignore {A : Type} (P : asn) (m : io A) : hoare P m (fun _ => cache_ok) cache_ok -> hoare P (ignore m) (fun _ => cache_ok) cache_ok.
Proof. intros H. eapply h_bind; [exact H|]. intros a. by apply h_ret. Qed.
Lemma cache_reserve_batch (requests : list (Hash * Z)) : Forall (fun q => in_u32 q.2) requests -> keeps cache_ok (db_call (tx (reserve_batch requests))).
Proof.
  intros Hl. eapply h_pre; [apply (cache_untouched store_ok)|intros k Hk; split; [apply Hk|by apply cache_tables]].
  - eapply h_conseq; [apply (h_quiet blake3 s (fun _ => False))|by apply owns_none|by intros a k ?%owns_store|by intros k ?%owns_store].
    apply (quiet_tx _ EvReserve); [done|]. intros a d d' Hd H. exact (reserve_batch_moves requests d d' a Hl Hd H).
  - apply (u_db _ tables_db), stays_reserve_batch, Hl.
Qed.
Lemma reconcile_index (dry_run : bool) (m : gmap Z ResidentPage) : keeps (fun k => co_index k = m) (reconcile crc32 s dry_run).
Proof.
  set (P := fun k : Core => co_index k = m).
  assert (forall (A : Type) (op : SlotDb -> result A * SlotDb), keeps P (db_call op)) as Hdb by (intros A op; by apply h_db).
  assert (forall i, keeps P (deallocate_slot s i)) as Hde by (intros i; by apply u_deallocate).
  assert (forall i, keeps P (read_metadata crc32 s i)) as Hrd.
  { intros i. unfold read_metadata. walk fail fail ltac:(by apply u_read) fail fail. }
  unfold reconcile, finish_slot, write_free. apply h_then; [done|apply Hdb|]. intros rs.
  apply h_then; [done| |intros r; walk fail fail fail fail fail]. generalize (mkReport 0 0 [] 0 []). induction rs as [|r rs IH]; intros r0; cbn [reconcile_all]; [by apply h_ret|].
  apply h_then; [done| |intros r1; apply IH]. unfold reconcile_slot, finish_slot, write_free. walk ltac:(apply Hdb) fail fail fail ltac:(first [apply Hde|apply Hrd]).
Qed.
Lemma cache_reconcile (dry_run : bool) : hoare (fun k => cache_ok k /\ co_index k = ∅) (reconcile crc32 s dry_run) (fun _ => cache_ok) cache_ok.
Proof.
  eapply h_conseq; [apply (h_and _ _ _ _ _ _ _ (keeps_reconcile blake3 crc32 s Hgeo dry_run) (reconcile_index dry_run ∅))|intros k [[? _] ?]; by split|..];
    [intros r k [Hk Hi]|intros k [Hk Hi]]; (split; [done|intros h p Hp; rewrite Hi in Hp; by rewrite lookup_empty in Hp]).
Qed.
Lemma run_cache_op_ok (o : CacheOp) : hoare (fun k => cache_ok k /\ enabled o k) (run_cache_op o) (fun _ => cache_ok) cache_ok.
Proof.
  assert (forall (A : Type) (m : io A), keeps cache_ok m -> hoare (fun k => cache_ok k /\ enabled o k) m (fun _ => cache_ok) cache_ok) as Hk.
  { intros A m Hm. eapply h_pre; [exact Hm|by intros k [? _]]. }
  destruct o as [h bytes|hook h bytes|requests|hook r h bytes|hook pages|r|h offset len|h|h|h|h|h class|n b|dry|]; cbn [run_cache_op enabled] in *; try apply keeps_ignore.
  - apply Hk, keeps_admit.
  - apply Hk, keeps_cache_insert.
  - intros c [Hc Hl]. by apply cache_reserve_batch.
  - eapply h_pre; [apply (cache_untouched (fun k => store_ok k /\ live r k)); [by apply keeps_insert_reserved|apply u_insert_reserved; [apply tables_data|apply tables_db]]|].
    intros k [Hc Hl]. split; [split; [apply Hc|done]|by apply cache_tables].
  - eapply h_pre; [apply (cache_untouched (fun k => store_ok k /\ Forall (fun p => live p.1 k) pages)); [by apply keeps_insert_batch|apply u_insert_batch; [apply tables_data|apply tables_db]]|].
    intros k [Hc Hl]. split; [split; [apply Hc|done]|by apply cache_tables].
  - apply keeps_install.
  - intros c [Hc [Ho Hl]]. pose proof (h_read_page h offset len (co_index (core c)) (co_data (core c)) Ho Hl c (conj Hc (conj eq_refl eq_refl))) as H. destruct (read_page _ _ _ _ _ c) as [[a|e|] c']; [apply H|done|done].
  - apply Hk. eapply h_conseq; [apply h_acquire|done| |done]. intros [r|] k; [by intros [? _]|done].
  - intros c [Hc (p & Hp & Hg)]. destruct (proj2 Hc h p Hp) as [He|(_ & Hh & Hr & Hl)].
    + assert (HE : EVICTING = 12884901888) by reflexivity. assert (HR : RESIDENT = 8589934592) by reflexivity. assert (HM : LEASE_MASK = 4294967295) by reflexivity. lia.
    + pose proof (h_drop_guard h (rp_record p) (co_data (core c)) cache_ok c) as H. destruct H as [H _]; [|exact H]. split; [|done]. split_and!; [done|done|done|done|by exists p].
  - apply Hk, keeps_evict.
  - apply Hk, keeps_evict.
  - apply Hk, h_verify.
  - apply Hk. unfold scrub_batch. apply h_if; [intros _; by apply h_ret|]. intros _. apply h_asks. intros l. apply keeps_scrub.
  - apply cache_reconcile.
  - apply Hk, keeps_rebuild.
Qed.

Lemma get_ext (o n : nat) (l l' : list Z) : (forall p, (o <= p < o + n)%nat -> l !! p = l' !! p) -> get o n l = get o n l'.
Proof.
  intros H. apply list_eq. intros i. unfold get. destruct (decide (i < n)%nat); [|rewrite !lookup_take_ge by lia; done].
  rewrite !lookup_take, !decide_True by lia. rewrite !lookup_drop. apply H. lia.
Qed.
(** The medium changes bytes of worn slots. *)
Lemma medium_ok (c : Cache) (data : list Z) : cache_ok (core c) -> length data = length (fi_bytes (ca_data c)) ->
  (forall p : nat, ~ (exists i, worn i = true /\ base s i <= Z.of_nat p < base s i + page_size s) -> data !! p = fi_bytes (ca_data c) !! p) ->
  cache_ok (with_data (mkFile data (fi_dirty (ca_data c))) (core c)).
Proof.
  intros [[Hs Hlen Hres] Hsv] Hn Hsame. split; [|exact Hsv]. split; cbn; [done|by rewrite Hn|]. intros key x Hx H2. destruct (Hres key x Hx H2) as (H0 & Hlt & Hsz & Hpg).
  split_and!; [done..|]. destruct (worn key.2) eqn:Ew; [by left|]. destruct Hpg as [Hw|[Hg Hclean]]; [congruence|]. right. split; [|exact Hclean].
  pose proof (slot_index_nonneg _ _ _ Hs Hx) as Hi. pose proof (base_header s Hgeo _ Hi) as Hb. assert (HH : ARENA_HEADER_BYTES = 4096) by reflexivity.
  rewrite <-Hg. unfold slot_bytes. cbn. do 2 f_equal. apply get_ext. intros p Hp. apply Hsame. intros (i & Hw & Hpi). assert (i = key.2) as -> by (apply (base_inj s Hgeo i key.2 (Z.of_nat p)); lia). congruence.
Qed.

(** The process or the machine restarts: the index is gone, and a machine that
    halted has lost any bytes that were not synced. *)
Inductive restarts (c : Cache) : Cache -> Prop :=
| restart_process replies committed pinned : restarts c (mkCache (ca_db c) (ca_data c) (ca_meta c) replies committed ∅ pinned)
| restart_machine data meta replies committed pinned :
    length data = length (fi_bytes (ca_data c)) ->
    (forall p : nat, ~ dirty_at (ca_data c) (Z.of_nat p) -> data !! p = fi_bytes (ca_data c) !! p) ->
    restarts c (mkCache (ca_db c) (mkFile data []) (mkFile meta []) replies committed ∅ pinned).
Inductive reachable : Cache -> Prop :=
| reach_new v d data meta replies committed pinned :
    cs_shard_id v = 0 -> in_u64 (cs_page_size v) -> in_u32 (cs_slot_count v) -> register_shard v empty_slots = Ok ((), d) -> Z.of_nat (length data) = base s (cl_slot_count (sh_layout s)) ->
    reachable (mkCache d (mkFile data []) (mkFile meta []) replies committed ∅ pinned)
| reach_op c o e c' : reachable c -> enabled o (core c) -> run_cache_op o c = (e, c') -> e <> Halted -> reachable c'
| reach_halt c o c' c'' : reachable c -> enabled o (core c) -> run_cache_op o c = (Halted, c') -> restarts c' c'' -> reachable c''
| reach_restart c c' : reachable c -> restarts c c' -> reachable c'
| reach_medium c data : reachable c -> length data = length (fi_bytes (ca_data c)) ->
    (forall p : nat, ~ (exists i, worn i = true /\ base s i <= Z.of_nat p < base s i + page_size s) -> data !! p = fi_bytes (ca_data c) !! p) ->
    reachable (mkCache (ca_db c) (mkFile data (fi_dirty (ca_data c))) (ca_meta c) (ca_replies c) (ca_committed c) (ca_index c) (ca_pinned c))
| reach_environment c replies pinned : reachable c -> reachable (mkCache (ca_db c) (ca_data c) (ca_meta c) replies (ca_committed c) (ca_index c) pinned).

Lemma restarts_ok (c c' : Cache) : cache_ok (core c) -> restarts c c' -> cache_ok (core c').
Proof.
  intros [[Hs Hlen Hres] _] H. destruct H as [|data meta replies committed pinned Hn Hsame]; (split; [|apply served_empty]); [by split|].
  split; cbn; [done|by rewrite Hn|]. intros key x Hx H2. destruct (Hres key x Hx H2) as (H0 & Hlt & Hsz & [Hw|[Hg Hclean]]); [split_and!; [done..|by left]|]. split_and!; [done..|right].
  pose proof (slot_index_nonneg _ _ _ Hs Hx) as Hi. pose proof (base_header s Hgeo _ Hi) as Hb. assert (HH : ARENA_HEADER_BYTES = 4096) by reflexivity. split.
  - rewrite <-Hg. unfold slot_bytes. cbn. do 2 f_equal. apply get_ext. intros p Hp. apply Hsame, Hclean. lia.
  - intros p _ (o & n & Hin & _). cbn in Hin. by apply elem_of_nil in Hin.
Qed.
Lemma registered_free (v : CacheShardSpec) (d : SlotDb) (key : Z * Z) (x : SlotRow) : register_shard v empty_slots = Ok ((), d) -> cache_slots d !! key = Some x -> sr_state x = 0.
Proof.
  unfold register_shard. destruct (_ || _); [done|]. intros (size & _ & H)%bind_Ok_inv Hx. apply bind_Ok_inv in H as (shards & _ & H). apply bind_Ok_inv in H as (t & Ht & [= <-]). cbn in Hx.
  assert (forall n first t0, (forall k y, t0 !! k = Some y -> sr_state y = 0) -> insert_slots (cs_shard_id v) first n t0 = Ok t -> forall k y, t !! k = Some y -> sr_state y = 0) as Hloop.
  { induction n as [|n IH]; intros first t0 H0; cbn [insert_slots]; [intros [= <-]; exact H0|]. intros (t1 & H1%ok_or_Ok_inv & H2)%bind_Ok_inv. refine (IH _ t1 _ H2).
    intros k y Hk. apply insert_row_Some in H1 as (_ & _ & ->). apply lookup_insert_Some in Hk as [[_ <-]|[_ Hk]]; [done|exact (H0 k y Hk)]. }
  refine (Hloop _ 0 _ _ Ht key x Hx). intros k y Hk. cbn in Hk. by rewrite lookup_empty in Hk.
Qed.
Lemma reachable_ok (c : Cache) : reachable c -> cache_ok (core c).
Proof.
  induction 1 as [v d data meta replies committed pinned H0 Hp Hn Hd Hlen|c o e c' _ IH He Hrun Hne|c o c' c'' _ IH He Hrun Hrs|c c' _ IH Hrs|c data _ IH Hn Hsame|c replies pinned _ IH].
  - split; [|apply served_empty]. split; cbn; [|done|].
    + pose proof (slot_step_ok (ORegister v) empty_slots (conj Hp Hn) empty_slots_inv) as [Hok _]. cbn in Hok. rewrite Hd in Hok. exact Hok.
    + intros key x Hx H2. rewrite (registered_free v d key x Hd Hx) in H2. done.
  - pose proof (run_cache_op_ok o c (conj IH He)) as H. rewrite Hrun in H. by destruct e.
  - pose proof (run_cache_op_ok o c (conj IH He)) as H. rewrite Hrun in H. by eapply restarts_ok.
  - by eapply restarts_ok.
  - exact (medium_ok c data IH Hn Hsame).
  - exact IH.
Qed.
End cache.
