(* ===== verification/CacheLive.v ===== *)
(** * The cache without faults

    What the store of [CacheStore] and [CacheReads] does when the operating
    system answers every call in full: admitted pages are served, a read that
    spans slots is the concatenation of its pages, and batched writes equal
    single writes. *)
From S2P Require Export CacheReads.
From S2P Require Import ResidencyGate.

(** ** What the cache serves *)
(** C2: What a cache with one index over its arena serves.  Its callers insert
    and install records that are current, drop guards they hold, and reconcile
    while no index is built; apart from that any operations may have run, the
    operating system and the database may have answered anything, the machine may
    have halted and restarted with arbitrary bytes in place of those it had not
    synced, and the medium may have changed any byte of the worn slots.  A read
    then returns the range asked for of the bytes in the slot of the page's
    record, and these hash to the page unless the slot is worn.  A verification
    answers absent only for a page that is not in the index or is being evicted,
    and verified only when the bytes in the slot hash to the page; when they do
    not, a clean page is quarantined: it is out of the index and its slot is
    free, and any other page is reported for recovery.  A page outside the worn
    slots is never quarantined. *)
Theorem cache_serves_pages {M : Medium} (blake3 : list Z -> Hash) (crc32 : list Z -> Z) (aligned : bool) (s : ArenaShard) (c c' : Cache) (h : Hash) :
  CacheLayout_validate (sh_layout s) = Ok () -> 0 <= cl_slot_count (sh_layout s) -> reachable blake3 crc32 aligned s c ->
  (forall offset len l, 0 <= offset -> 0 <= len -> read_page aligned s h offset len c = (Done (Some l), c') ->
     exists p b, ca_index c !! h = Some p /\ indexed_bytes s (ca_index c) h (ca_data c) = Some b /\ offset + len <= Z.of_nat (length b) /\
       l = get (Z.to_nat offset) (Z.to_nat len) b /\ (worn (slot_index (rp_record p)) = false -> blake3 b = h)) /\
  (forall class o, verify_page blake3 crc32 aligned s h class c = (Done o, c') ->
     verdict blake3 s h class (ca_index c) (ca_data c) o (core c') /\
     (forall p, ca_index c !! h = Some p -> worn (slot_index (rp_record p)) = false -> o = Absent \/ o = Verified)).
Proof.
  intros Hv H0 Hr. pose proof (validate_geometry _ Hv H0) as Hgeo. apply (reachable_ok _ _ _ _ Hgeo) in Hr.
  assert (cache_ok blake3 s (core c) /\ co_data (core c) = ca_data c /\ co_index (core c) = ca_index c) as Hc by done. split.
  - intros offset len l Ho Hl Hread. pose proof (h_read_page blake3 aligned s Hgeo h offset len _ _ Ho Hl c Hc) as H. rewrite Hread in H.
    destruct (proj1 H l eq_refl) as (r & Hp & Hin & Hx & Hg). destruct (ca_index c !! h) as [p|] eqn:Ep; [|done]. injection Hp as Hp.
    exists p, (slot_bytes s (slot_index r) (logical_length r) (ca_data c)). split_and!; [done|unfold indexed_bytes; rewrite Ep; cbn; by rewrite Hp|done|done|]. rewrite Hp. intros Hw. destruct Hg; [congruence|done].
  - intros class o Ho. pose proof (h_verify_from blake3 crc32 aligned s Hgeo h class _ _ c Hc) as H. rewrite Ho in H. apply H.
Qed.

(** ** Statements that succeed *)
Lemma update_live (context : string) (r : CacheSlotRecord) (p : SlotRow -> bool) (f : SlotRow -> SlotRow) (d : SlotDb) :
  slot_inv d -> cache_slots d !! slot_of r = Some (row_of r) -> p (row_of r) = true -> fits_at slot_check slot_clash (slot_of r) (f (row_of r)) (cache_slots d) = true ->
  update_slot context r p f d = Ok (1, set_slots (<[slot_of r := f (row_of r)]> (cache_slots d)) d).
Proof.
  intros Hd Hl Hp Hf. destruct (proj1 Hd _ _ Hl) as (Hc & _ & Hg & _). unfold row_of in Hc at 1. apply slot_check_iff in Hc as (_ & Hg0 & _). cbn in Hg.
  unfold update_slot. rewrite sqlite_integer_small by lia. cbn [mbind result_bind]. unfold update_row. fold (slot_of r). rewrite Hl. cbn [row_of sr_generation]. rewrite Z.eqb_refl. cbn [andb].
  fold (row_of r). by rewrite Hp, Hf.
Qed.
(** A row in a state other than resident clashes with none. *)
Lemma fits_state (d : SlotDb) (key : Z * Z) (x : SlotRow) (st : CacheSlotState) : slot_inv d -> cache_slots d !! key = Some x -> sr_state x <> 0 -> st <> Free -> st <> Resident ->
  fits_at slot_check slot_clash key (set_state st x) (cache_slots d) = true.
Proof.
  intros Hd Hx H0 Hf Hr. apply fits_at_iff. destruct (proj1 Hd _ _ Hx) as (Hc & _). destruct x as [g st0 h l]. apply slot_check_iff in Hc as (H1 & H2 & H3 & H4 & H5 & H6). cbn in *. split.
  - unfold set_state. cbn. apply slot_check_iff. split_and!; [done|done|by destruct st|by destruct st|done|by destruct st|]. intros _. by apply H6.
  - intros k' y _ _. unfold slot_clash. cbn. by destruct st.
Qed.
Lemma fits_cleared (d : SlotDb) (key : Z * Z) (x : SlotRow) : slot_inv d -> cache_slots d !! key = Some x -> fits_at slot_check slot_clash key (cleared x) (cache_slots d) = true.
Proof.
  intros Hd Hx. apply fits_at_iff. destruct (proj1 Hd _ _ Hx) as (Hc & _). destruct x as [g st0 h l]. apply slot_check_iff in Hc as (H1 & H2 & _).
  split; [|done]. unfold cleared. cbn. apply slot_check_iff. split_and!; (done || lia).
Qed.
Lemma live_require (d : SlotDb) (r : CacheSlotRecord) : slot_inv d -> cache_slots d !! slot_of r = Some (row_of r) -> state r <> Free -> exists h, page_hash r = Some h /\ require r (state r) = Ok h.
Proof.
  intros Hd Hl Hs. destruct (proj1 Hd _ _ Hl) as (Hc & _ & _ & _ & Hz). unfold row_of in Hc. apply slot_check_iff in Hc as (_ & _ & _ & _ & _ & Hh). cbn in Hz.
  destruct Hh as [h Hh]; [by destruct (state r)|]. exists h. split; [done|]. unfold require. rewrite Hh, bool_decide_true by done. cbn.
  rewrite (proj2 (Z.eqb_neq _ _)); [done|]. destruct (state r); cbn in Hz; (done || lia).
Qed.
Lemma release_succeeds (d : SlotDb) (r : CacheSlotRecord) : slot_inv d -> cache_slots d !! slot_of r = Some (row_of r) -> state r = Reserved ->
  tx (release_cache_reservation r) d = (Ok (), set_slots (<[slot_of r := row_of (with_state Evicting r)]> (cache_slots d)) d).
Proof.
  intros Hd Hl Hs. destruct (live_require d r Hd Hl ltac:(by rewrite Hs)) as (h & _ & Hreq). rewrite Hs in Hreq. unfold tx, release_cache_reservation. rewrite Hreq. cbn [mbind result_bind].
  unfold transition_to_evicting. rewrite (update_live _ r _ (set_state Evicting) d Hd Hl); [done|unfold in_state, row_of; cbn; by rewrite Hs|].
  apply fits_state; try done. unfold row_of. cbn. by rewrite Hs.
Qed.
Lemma begin_succeeds (d : SlotDb) (r : CacheSlotRecord) : slot_inv d -> cache_slots d !! slot_of r = Some (row_of r) -> state r = Resident ->
  tx (begin_cache_eviction r) d = (Ok (with_state Evicting r), set_slots (<[slot_of r := row_of (with_state Evicting r)]> (cache_slots d)) d).
Proof.
  intros Hd Hl Hs. destruct (live_require d r Hd Hl ltac:(by rewrite Hs)) as (h & Hh & Hreq). rewrite Hs in Hreq. unfold tx, begin_cache_eviction. rewrite Hreq. cbn [mbind result_bind].
  rewrite (update_live _ r _ (set_state Evicting) d Hd Hl); [done|unfold in_state, row_of; cbn; rewrite Hs, Hh; cbn; by rewrite bool_decide_true|].
  apply fits_state; try done. unfold row_of. cbn. by rewrite Hs.
Qed.
Lemma finish_succeeds (d : SlotDb) (r : CacheSlotRecord) : slot_inv d -> cache_slots d !! slot_of r = Some (row_of r) -> state r = Evicting \/ state r = RetryDeallocate ->
  tx (finish_deallocation r) d = (Ok (), set_slots (<[slot_of r := row_of (freed r)]> (cache_slots d)) d).
Proof.
  intros Hd Hl Hs. unfold tx, finish_deallocation. destruct Hs as [Hs|Hs]; rewrite Hs;
    (rewrite (update_live _ r _ cleared d Hd Hl); [done|unfold in_state, row_of; cbn; by rewrite Hs|by apply fits_cleared]).
Qed.
(** No other slot is resident for the page. *)
Definition absent (h : Hash) (d : SlotDb) : Prop := forall key x, cache_slots d !! key = Some x -> holds_hash h Resident x = false.
Lemma query_absent (h : Hash) (d : SlotDb) : slot_inv d -> absent h d -> query_hash d h Resident = Ok None.
Proof.
  intros Hd Ha. destruct (first_slot_spec "failed to query cache hash" (holds_hash h Resident) d Hd) as [(x & r & _ & Hx & Hh & _)|[Hf _]]; [by rewrite (Ha _ x Hx) in Hh|exact Hf].
Qed.
Lemma commit_succeeds (d : SlotDb) (r : CacheSlotRecord) (h : Hash) : slot_inv d -> cache_slots d !! slot_of r = Some (row_of r) -> state r = Reserved -> page_hash r = Some h -> absent h d ->
  tx (commit_slot r) d = (Ok (CommitCommitted (with_state Resident r)), set_slots (<[slot_of r := row_of (with_state Resident r)]> (cache_slots d)) d).
Proof.
  intros Hd Hl Hs Hh Ha. destruct (live_require d r Hd Hl ltac:(by rewrite Hs)) as (h' & Hh' & Hreq). rewrite Hs in Hreq. assert (h' = h) as -> by congruence.
  unfold tx, commit_slot. rewrite Hreq. cbn [mbind result_bind]. rewrite (query_absent h d Hd Ha). cbn [mbind result_bind].
  rewrite (update_live _ r _ (set_state Resident) d Hd Hl); [done|..].
  - unfold in_state, holds_page, row_of. cbn. rewrite Hs, Hh, bool_decide_true by done. cbn. by rewrite Z.eqb_refl.
  - apply fits_at_iff. destruct (proj1 Hd _ _ Hl) as (Hc & _). unfold row_of in Hc at 1. apply slot_check_iff in Hc as (H1 & H2 & _ & H4 & _). split.
    + unfold set_state, row_of. cbn. apply slot_check_iff. rewrite Hh. by split_and!.
    + intros k' x Hx _. pose proof (Ha k' x Hx) as Hn. unfold slot_clash, set_state, row_of. cbn. rewrite Hh. unfold holds_hash in Hn. cbn in Hn.
      destruct (sr_state x =? 2); [|done]. rewrite andb_true_r in Hn. apply bool_decide_eq_false in Hn. cbn. apply bool_decide_eq_false. congruence.
Qed.
Lemma reserve_succeeds (d : SlotDb) (h len : Z) (key : Z * Z) (row : SlotRow) : slot_inv d -> 0 < len <= u32_max -> absent h d -> head (free_slots d) = Some (key, row) -> sr_generation row < i64_max ->
  let r := mkSlot key.1 key.2 (sr_generation row + 1) Reserved (Some h) len in
  reserve_cache_slot h len d = (Ok (ReserveReserved r), set_slots (<[key := row_of r]> (cache_slots d)) d) /\ slot_inv (set_slots (<[key := row_of r]> (cache_slots d)) d).
Proof.
  intros Hd Hl Ha Hf Hg r. assert ((key, row) ∈ slots_where (in_state Free) d) as Hin. { unfold free_slots in Hf. destruct (slots_where _ d) as [|y l]; [done|]. injection Hf as ->. left. }
  apply elem_of_slots_where in Hin as [Hk Hfree]. cbn in Hk, Hfree. pose proof (proj1 Hd _ _ Hk) as Hok. pose proof (slot_index_nonneg _ _ _ Hd Hk) as Hi.
  assert (0 <= sr_generation row /\ key.2 <= u32_max) as [Hg0 Hi2]. { destruct Hok as (Hc & ? & _). destruct row. by apply slot_check_iff in Hc as (_ & ? & _). }
  assert (HU : u64_max = 18446744073709551615) by reflexivity. assert (HI : i64_max = 9223372036854775807) by reflexivity. assert (HV : u32_max = 4294967295) by reflexivity.
  assert (fits_at slot_check slot_clash key (row_of r) (cache_slots d) = true) as Hfit by (apply (reserve_fits d key (sr_generation row + 1) h len row); [done|done|lia|lia]). split.
  - unfold reserve_cache_slot. rewrite (proj2 (Z.eqb_neq len 0)) by lia. cbv zeta. rewrite (query_absent h d Hd Ha). cbn [mbind result_bind]. rewrite Hf. cbn [ok_or mbind result_bind].
    rewrite (proj2 (Z.leb_le 0 (sr_generation row))) by lia. cbn [mbind result_bind]. rewrite checked_add_fits by lia. cbn [ok_or mbind result_bind].
    rewrite sqlite_integer_small by lia. cbn [mbind result_bind]. unfold update_row. rewrite Hk, Hfree. change (reserved_row (sr_generation row + 1) h len row) with (row_of r).
    rewrite Hfit. cbn [ok_or mbind result_bind transact]. destruct key as [k1 k2]. cbn [fst snd] in *. rewrite (proj2 (Z.leb_le 0 k2) Hi), (proj2 (Z.leb_le k2 u32_max) Hi2). done.
  - apply (put_ok EvReserve d key row (row_of r) Hd Hk); [|cbn; lia|cbn; lia|done]. pose proof (e_reserve (sr_generation row) h len ltac:(lia)) as He. rewrite <-(free_row key row Hok Hfree) in He. exact He.
Qed.

(** ** Runs without faults *)
Definition calm (c : Cache) : Prop := ca_replies c = [].
Lemma bind_done {A B : Type} (m : io A) (k : A -> io B) (c c' : Cache) (a : A) : m c = (Done a, c') -> (m ≫= k) c = k a c'.
Proof. intros H. unfold mbind, run_bind. by rewrite H. Qed.
Lemma bind_lift {A B : Type} (r : result A) (k : A -> io B) (c : Cache) (a : A) : r = Ok a -> (lift r ≫= k) c = k a c.
Proof. by intros ->. Qed.
Lemma write_calm (f : ShardFile) (bs : list Z) (off : Z) (c : Cache) : calm c -> bs <> [] -> write_exact_at f bs off c = (Done (), put f off bs c).
Proof.
  intros Hc Hb. unfold write_exact_at. destruct bs as [|b bs]; [done|]. cbn [length write_at_loop]. unfold os_write, reply, mbind, run_bind. rewrite Hc. cbn [update mret run_ret].
  rewrite (proj2 (Z.eqb_neq _ _)) by (cbn; lia). rewrite Nat2Z.id, skipn_all. by destruct (length bs).
Qed.
Lemma sync_calm (f : ShardFile) (c : Cache) : calm c -> os_sync f c = (Done (), synced f c).
Proof. intros Hc. unfold os_sync, reply, mbind, run_bind. by rewrite Hc. Qed.
Lemma read_calm (f : ShardFile) (len off : Z) (c : Cache) : calm c -> 0 <= off -> 0 <= len -> off + len <= Z.of_nat (length (fi_bytes (file f c))) ->
  read_exact_at f len off c = (Done (get (Z.to_nat off) (Z.to_nat len) (fi_bytes (file f c))), c).
Proof.
  intros Hc Ho Hl Hin. unfold read_exact_at. destruct (Z.to_nat len) as [|n] eqn:En; cbn [read_at_loop].
  - done.
  - rewrite (proj2 (Z.eqb_neq len 0)) by lia. unfold os_read, reply, mbind, run_bind. rewrite Hc. cbn [asks mret run_ret]. rewrite En.
    set (l := get _ _ _). assert (length l = S n) as Hln by (apply length_get; lia). cbv zeta. rewrite (proj2 (Z.eqb_neq _ 0)) by lia. replace (len - Z.of_nat (length l)) with 0 by lia.
    destruct n; cbn; by rewrite app_nil_r.
Qed.
Lemma db_calm {A : Type} (op : SlotDb -> result A * SlotDb) (c : Cache) (a : A) (d : SlotDb) : calm c -> op (ca_db c) = (Ok a, d) -> db_call op c = (Done a, set_db d c).
Proof. intros Hc Ho. unfold db_call, reply, mbind, run_bind. rewrite Hc. cbn. by rewrite Ho. Qed.

Section faultless.
Variables (blake3 : list Z -> Hash) (crc32 : list Z -> Z) (aligned : bool) (s : ArenaShard).
Context (Hgeo : geometry (sh_layout s)).
Notation size := (page_size s).
Notation count := (cl_slot_count (sh_layout s)).

Lemma slot_offset_in (i : Z) : 0 <= i < count -> slot_offset (sh_layout s) i = Ok (base s i).
Proof. intros Hi. apply (slot_offset_iff s Hgeo); [lia|]. split; [lia|done]. Qed.
Lemma metadata_offset_in (i : Z) : 0 <= i <= u32_max -> metadata_offset i = Ok (i * 64 + 4096).
Proof.
  intros Hi. unfold metadata_offset. assert (H1 : SLOT_METADATA_BYTES = 64) by reflexivity. assert (H2 : ARENA_HEADER_BYTES = 4096) by reflexivity. rewrite H1, H2.
  assert (HU : u64_max = 18446744073709551615) by reflexivity. assert (HV : u32_max = 4294967295) by reflexivity.
  unfold checked_mul. rewrite (proj2 (Z.leb_le _ _)) by lia. cbn. by rewrite checked_add_fits by lia.
Qed.
Lemma encode_length (m : SlotMetadata) : length (SlotMetadata_encode crc32 m) = 64%nat.
Proof. unfold SlotMetadata_encode. by rewrite !length_app, length_slot_body, length_le, length_zeros. Qed.
(** The metadata record of a slot, written and synced. *)
Definition noted (i : Z) (m : SlotMetadata) (c : Cache) : Cache := synced MetaFile (put MetaFile (i * 64 + 4096) (SlotMetadata_encode crc32 m) c).
Lemma write_synced_calm (i : Z) (m : SlotMetadata) (c : Cache) : calm c -> 0 <= i < count -> i <= u32_max -> write_synced crc32 s i m c = (Done (), noted i m c).
Proof.
  intros Hc Hi Hm. unfold write_synced, write_metadata, flush_metadata. erewrite bind_done; [by apply sync_calm|].
  erewrite bind_lift by by apply slot_offset_in. erewrite bind_lift by by apply metadata_offset_in; lia.
  apply write_calm; [done|]. intros H%(f_equal length). by rewrite encode_length in H.
Qed.
Lemma read_unbuffered_calm (i window offset len : Z) (c : Cache) : calm c -> 0 <= i < count -> 0 <= offset -> 0 <= len -> offset + len <= window ->
  base s i + window <= Z.of_nat (length (fi_bytes (ca_data c))) ->
  read_slot_unbuffered aligned s i window offset len c = (Done (get (Z.to_nat (base s i + offset)) (Z.to_nat len) (fi_bytes (ca_data c))), c).
Proof.
  intros Hc Hi Ho Hl Hw Hlen. pose proof (base_header s Hgeo i ltac:(lia)) as Hbh. assert (HH : ARENA_HEADER_BYTES = 4096) by reflexivity.
  unfold read_slot_unbuffered. erewrite bind_lift by by apply slot_offset_in. destruct (Z.eqb_spec len 0) as [->|Hne]; [done|]. destruct (_ && aligned).
  - apply (read_calm DataFile); [done|lia|lia|cbn; lia].
  - cbv zeta. rewrite !land_lnot_4095 by lia. pose proof (Z.mod_pos_bound offset 4096 ltac:(lia)) as Hm. pose proof (Z.mod_pos_bound (offset + len + 4095) 4096 ltac:(lia)) as Hm'.
    pose proof (Z.mod_le offset 4096 ltac:(lia) ltac:(lia)) as Hle. set (start := offset - offset mod 4096) in *. set (end_ := Z.min _ window) in *. assert (offset + len <= end_) as He by lia.
    erewrite bind_done; [|apply (read_calm DataFile); [done|lia|lia|cbn; lia]]. unfold mret, run_ret. do 2 f_equal. cbn. rewrite get_get by lia. f_equal. lia.
Qed.
Lemma read_slot_calm (i logical offset len : Z) (c : Cache) : calm c -> Z.of_nat (length (fi_bytes (ca_data c))) = base s count -> 0 <= i < count -> 0 <= offset -> 0 <= len ->
  offset + len <= logical -> logical <= size -> offset + len <= u64_max ->
  read_slot aligned s i logical offset len c = (Done (get (Z.to_nat (base s i + offset)) (Z.to_nat len) (fi_bytes (ca_data c))), c).
Proof.
  intros Hc Hlen Hi Ho Hl Hin Hsz Hmax. destruct Hgeo as (Hs & Hn & Hb). pose proof (base_header s Hgeo i ltac:(lia)) as Hbh. pose proof (base_end s Hgeo i ltac:(lia)) as Hbe.
  assert (HH : ARENA_HEADER_BYTES = 4096) by reflexivity.
  unfold read_slot. erewrite bind_lift by by rewrite checked_add_fits by lia. rewrite (proj2 (Z.ltb_ge _ _)) by lia. rewrite (proj2 (Z.ltb_ge _ _)) by lia. cbn [orb].
  destruct (sh_unbuffered s).
  - apply read_unbuffered_calm; try done; lia.
  - erewrite bind_lift by by apply slot_offset_in. erewrite bind_lift; [apply (read_calm DataFile); [done|lia|lia|cbn; rewrite Hlen; lia]|].
    rewrite checked_add_fits; [done|]. unfold base in *. lia.
Qed.
Lemma read_contiguous_calm (first n offset len : Z) (c : Cache) : calm c -> Z.of_nat (length (fi_bytes (ca_data c))) = base s count -> 0 <= first -> 0 < n -> first + n <= count -> count <= u32_max ->
  0 <= offset -> 0 <= len -> offset + len <= n * size ->
  read_slots_contiguous aligned s first n offset len c = (Done (get (Z.to_nat (base s first + offset)) (Z.to_nat len) (fi_bytes (ca_data c))), c).
Proof.
  intros Hc Hlen Hf Hn Hin Hcu Ho Hl Hw. destruct Hgeo as (Hs & Hn0 & Hb). pose proof (base_header s Hgeo first ltac:(lia)) as Hbh. assert (HH : ARENA_HEADER_BYTES = 4096) by reflexivity.
  assert (base s first + n * size <= base s count) as Hend by (unfold base; nia). assert (base s count <= u64_max) as Hbc by done.
  unfold read_slots_contiguous. rewrite (proj2 (Z.eqb_neq n 0)) by lia. rewrite (proj2 (Z.leb_le (first + (n - 1)) u32_max)) by lia. rewrite (bind_lift _ _ _ (first + (n - 1))) by done.
  erewrite bind_lift by (apply slot_offset_in; lia). unfold checked_mul. rewrite (proj2 (Z.leb_le (n * size) u64_max)) by lia. rewrite (bind_lift _ _ _ (n * size)) by done.
  erewrite bind_lift by by rewrite checked_add_fits by lia. rewrite (proj2 (Z.ltb_ge _ _)) by lia. destruct (sh_unbuffered s).
  - apply read_unbuffered_calm; try done; lia.
  - erewrite bind_lift by (apply slot_offset_in; lia). erewrite bind_lift; [apply (read_calm DataFile); [done|lia|lia|cbn; rewrite Hlen; lia]|]. by rewrite checked_add_fits by lia.
Qed.

Lemma stage_calm (hook : InsertStep -> result ()) (mismatch : string) (r : CacheSlotRecord) (bytes : list Z) (c : Cache) :
  (forall st, hook st = Ok ()) -> calm c -> Z.of_nat (length (fi_bytes (ca_data c))) = base s count -> 0 <= slot_index r < count -> slot_index r <= u32_max ->
  0 < Z.of_nat (length bytes) <= size -> Z.of_nat (length bytes) <= u64_max -> logical_length r = Z.of_nat (length bytes) ->
  exists c', stage_page blake3 crc32 aligned s hook mismatch r (blake3 bytes) bytes c = (Done (), c') /\ calm c' /\ ca_db c' = ca_db c /\ ca_index c' = ca_index c /\
    fi_bytes (ca_data c') = file_write (base s (slot_index r)) bytes (fi_bytes (ca_data c)).
Proof.
  intros Hh Hc Hlen Hi Hu Hb Hmax Hl. pose proof (base_header s Hgeo (slot_index r) ltac:(lia)) as Hbh. pose proof (base_end s Hgeo (slot_index r) ltac:(lia)) as Hbe.
  assert (HH : ARENA_HEADER_BYTES = 4096) by reflexivity. set (m1 := metadata_for r SReserved). set (m2 := metadata_for (with_state Resident r) SResident).
  set (c1 := noted (slot_index r) m1 c). set (c2 := put DataFile (base s (slot_index r)) bytes c1). set (c3 := synced DataFile c2).
  assert (fi_bytes (ca_data c3) = file_write (base s (slot_index r)) bytes (fi_bytes (ca_data c))) as Hd3 by reflexivity.
  assert (write_slot s (slot_index r) bytes c1 = (Done (), c2)) as Hw.
  { unfold write_slot. rewrite (proj2 (Nat.eqb_neq _ _)), (proj2 (Z.ltb_ge _ _)) by lia. cbn [orb]. erewrite bind_lift by by apply slot_offset_in. apply write_calm; [done|]. intros ->. cbn in Hb. lia. }
  assert (read_slot aligned s (slot_index r) (logical_length r) 0 (Z.of_nat (length bytes)) c3 = (Done bytes, c3)) as Hr.
  { rewrite read_slot_calm; try done; try lia; [|rewrite Hd3, file_write_length; lia]. do 2 f_equal. rewrite Hd3, Z.add_0_r, Nat2Z.id. apply get_file_write_self; lia. }
  exists (noted (slot_index r) m2 c3). split_and!; [|done|done|done|done]. unfold stage_page.
  erewrite bind_done by by apply write_synced_calm. rewrite !Hh. rewrite (bind_lift (Ok ()) _ _ ()) by done. rewrite (bind_done _ _ _ _ _ Hw). rewrite (bind_lift (Ok ()) _ _ ()) by done.
  unfold flush. erewrite bind_done by by apply sync_calm. fold c3. rewrite (bind_lift (Ok ()) _ _ ()) by done. rewrite (bind_done _ _ _ _ _ Hr). rewrite Z.eqb_refl. cbn [negb].
  rewrite (bind_lift (Ok ()) _ _ ()) by done. by apply write_synced_calm.
Qed.
Section insertion.
Context {M : Medium}.
Variables (bytes : list Z) (c : Cache) (i : Z) (row : SlotRow).
Notation len := (Z.of_nat (length bytes)).
Notation h := (blake3 bytes).
Context (Hst : store_ok blake3 s (core c)) (Hc : calm c) (Hb : 0 < len <= size) (Ha : absent h (ca_db c)).
Context (Hfree : head (free_slots (ca_db c)) = Some ((0, i), row)) (Hi : i < count) (Hgen : sr_generation row < i64_max) (Hmax : len <= u32_max).
Definition inserted_record : CacheSlotRecord := mkSlot 0 i (sr_generation row + 1) Resident (Some h) len.
Definition inserted_db : SlotDb := set_slots (<[(0, i) := row_of inserted_record]> (<[(0, i) := row_of (with_state Reserved inserted_record)]> (cache_slots (ca_db c)))) (ca_db c).
Lemma free_index : 0 <= i <= u32_max.
Proof.
  assert (((0, i), row) ∈ slots_where (in_state Free) (ca_db c)) as Hin. { unfold free_slots in Hfree. destruct (slots_where _ _) as [|y l]; [done|]. injection Hfree as ->. left. }
  apply elem_of_slots_where in Hin as [Hk _]. cbn in Hk. split; [exact (slot_index_nonneg _ _ _ (so_slots _ _ _ Hst) Hk)|]. by destruct (proj1 (so_slots _ _ _ Hst) _ _ Hk) as (_ & ? & _).
Qed.
Lemma insert_calm (hook : InsertStep -> result ()) : (forall st, hook st = Ok ()) ->
  exists c', insert_page blake3 crc32 aligned s hook h bytes c = (Done (InsertInserted inserted_record), c') /\ calm c' /\ ca_index c' = ca_index c /\
    ca_db c' = inserted_db /\ fi_bytes (ca_data c') = file_write (base s i) bytes (fi_bytes (ca_data c)).
Proof.
  intros Hh. pose proof free_index as Hi0. pose proof (so_slots _ _ _ Hst) as Hd. pose proof (so_length _ _ _ Hst) as Hlen.
  assert (HU : u64_max = 18446744073709551615) by reflexivity. assert (HV : u32_max = 4294967295) by reflexivity.
  destruct (reserve_succeeds (ca_db c) h len (0, i) row Hd ltac:(lia) Ha Hfree Hgen) as [Hres Hd1]. cbn [fst snd] in Hres, Hd1. set (r := mkSlot 0 i (sr_generation row + 1) Reserved (Some h) len) in *.
  set (d1 := set_slots _ (ca_db c)) in *. set (c1 := mark_committed false (set_db d1 c)).
  destruct (stage_calm hook "cache payload rehash differs from reservation" r bytes c1 Hh Hc Hlen ltac:(cbn; lia) ltac:(cbn; lia) ltac:(lia) ltac:(lia) eq_refl) as (c2 & Hs & Hc2 & Hdb & Hix & Hby).
  assert (cache_slots d1 !! slot_of r = Some (row_of r)) as Hlive by (cbn; by rewrite lookup_insert_eq).
  assert (absent h d1) as Ha1.
  { intros key x Hx. cbn in Hx. apply lookup_insert_Some in Hx as [[_ <-]|[_ Hx]]; [|exact (Ha key x Hx)]. unfold holds_hash. cbn. by rewrite andb_false_r. }
  pose proof (commit_succeeds d1 r h Hd1 Hlive eq_refl eq_refl Ha1) as Hcommit. set (d2 := set_slots _ d1) in Hcommit.
  exists (mark_committed true (set_db d2 c2)). split_and!; [|done|done|done|done].
  unfold insert_page. cbv zeta. rewrite (proj2 (Z.ltb_ge u32_max _)) by lia. rewrite (proj2 (Z.eqb_neq len 0)), (proj2 (Z.ltb_ge size len)) by lia. cbn [orb].
  erewrite bind_done by (by apply db_calm). cbn [shard_id r Z.eqb negb]. rewrite (bind_done _ _ _ c1 ()) by reflexivity. unfold dropping. rewrite (bind_done _ _ _ _ _ Hs).
  assert (db_call (tx (commit_slot r)) c2 = (Done (CommitCommitted (with_state Resident r)), set_db d2 c2)) as Hcall by (apply db_calm; [done|rewrite Hdb; exact Hcommit]).
  rewrite (bind_done _ _ _ _ _ Hcall). rewrite (bind_done _ _ _ (mark_committed true (set_db d2 c2)) ()) by reflexivity. rewrite Hh. rewrite (bind_lift (Ok ()) _ _ ()) by done. reflexivity.
Qed.
Lemma admit_calm : ca_index c !! h = None ->
  exists c', admit_page blake3 crc32 aligned s h bytes c = (Done (), c') /\ calm c' /\ ca_index c' = <[h := resident_page inserted_record]> (ca_index c) /\ ca_db c' = inserted_db /\
    fi_bytes (ca_data c') = file_write (base s i) bytes (fi_bytes (ca_data c)).
Proof.
  intros Hix. destruct (insert_calm (fun _ => Ok ()) (fun _ => eq_refl)) as (c1 & Hins & Hc1 & Hi1 & Hdb & Hby). unfold admit_page. rewrite (bind_done _ _ _ _ _ Hins).
  exists (set_index (<[h := resident_page inserted_record]> (ca_index c1)) c1). split_and!; [|done|cbn; by rewrite Hi1|done|done].
  unfold install. rewrite bool_decide_true by done. cbn [negb]. rewrite (bind_lift _ _ _ h) by reflexivity. unfold update. by rewrite Hi1, Hix.
Qed.
End insertion.
Lemma read_page_calm (h offset len : Z) (r : CacheSlotRecord) (c : Cache) : calm c -> ca_index c !! h = Some (resident_page r) ->
  Z.of_nat (length (fi_bytes (ca_data c))) = base s count -> 0 <= slot_index r < count -> 0 <= offset -> 0 <= len -> offset + len <= logical_length r -> logical_length r <= size -> offset + len <= u64_max ->
  exists c', read_page aligned s h offset len c = (Done (Some (get (Z.to_nat (base s (slot_index r) + offset)) (Z.to_nat len) (fi_bytes (ca_data c)))), c').
Proof.
  intros Hc Hp Hlen Hi Ho Hl Hin Hsz Hmax. set (c1 := set_gate_word h (resident_page r) (RESIDENT + 1) c).
  assert (acquire h c = (Done (Some r), c1)) as Hacq by (unfold acquire, asks, mbind, run_bind; rewrite Hp; reflexivity).
  assert (read_exact aligned s r offset len c1 = (Done (get (Z.to_nat (base s (slot_index r) + offset)) (Z.to_nat len) (fi_bytes (ca_data c))), c1)) as Hr by by apply (read_slot_calm _ _ _ _ c1).
  unfold read_page. rewrite (bind_done _ _ _ _ _ Hacq). unfold mbind, run_bind, dropping. rewrite Hr. unfold drop_guard, update. by eexists.
Qed.
End faultless.

(** C12: A page admitted to a cache that has room is served: from every state
    the cache can reach, when the operating system answers every call in full, no
    slot is resident for the page and the first free slot lies in the arena, the
    admission returns, and every range of the page read afterwards has exactly
    the bytes admitted. *)
Theorem admitted_page_served {M : Medium} (blake3 : list Z -> Hash) (crc32 : list Z -> Z) (aligned : bool) (s : ArenaShard) (c : Cache) (bytes : list Z) (i offset len : Z) (row : SlotRow) :
  CacheLayout_validate (sh_layout s) = Ok () -> 0 <= cl_slot_count (sh_layout s) -> reachable blake3 crc32 aligned s c -> calm c ->
  ca_index c !! blake3 bytes = None -> absent (blake3 bytes) (ca_db c) -> head (free_slots (ca_db c)) = Some ((0, i), row) ->
  i < cl_slot_count (sh_layout s) -> sr_generation row < i64_max ->
  0 < Z.of_nat (length bytes) <= page_size s -> 0 <= offset -> 0 <= len -> offset + len <= Z.of_nat (length bytes) ->
  exists c1 c2, admit_page blake3 crc32 aligned s (blake3 bytes) bytes c = (Done (), c1) /\
    read_page aligned s (blake3 bytes) offset len c1 = (Done (Some (get (Z.to_nat offset) (Z.to_nat len) bytes)), c2).
Proof.
  intros Hv H0 Hr Hc Hix Ha Hf Hi Hg Hb Ho Hl Hin. pose proof (validate_geometry _ Hv H0) as Hgeo. destruct (CacheLayout_validate_Ok _ Hv) as (Hps & _).
  pose proof (proj1 (reachable_ok _ _ _ _ Hgeo _ Hr)) as Hst. pose proof (so_length _ _ _ Hst) as Hlen. cbn in Hlen.
  assert (HU : u64_max = 18446744073709551615) by reflexivity. assert (HV : u32_max = 4294967295) by reflexivity. assert (HH : ARENA_HEADER_BYTES = 4096) by reflexivity.
  pose proof (free_index _ _ _ _ _ Hst Hf) as Hi0. pose proof (base_header s Hgeo i ltac:(lia)) as Hbh. pose proof (base_end s Hgeo i ltac:(lia)) as Hbe.
  destruct (admit_calm blake3 crc32 aligned s Hgeo bytes c i row Hst Hc Hb Ha Hf Hi Hg ltac:(lia) Hix) as (c1 & Hadm & Hc1 & Hp & _ & Hby).
  destruct (read_page_calm aligned s Hgeo (blake3 bytes) offset len (inserted_record blake3 bytes i row) c1 Hc1) as (c2 & Hrd); cbn [slot_index logical_length inserted_record]; try lia.
  { rewrite Hp. by rewrite lookup_insert_eq. }
  { rewrite Hby, file_write_length; lia. }
  exists c1, c2. split; [done|]. rewrite Hrd. do 3 f_equal. cbn [slot_index inserted_record]. rewrite Hby.
  rewrite <-(get_file_write_self (base s i) bytes (fi_bytes (ca_data c))) at 2 by lia. rewrite get_get by lia. f_equal. lia.
Qed.

(** ** Reads that span slots *)
Section contiguous.
Context {M : Medium}.
Variables (blake3 : list Z -> Hash) (aligned : bool) (s : ArenaShard).
Context (Hgeo : geometry (sh_layout s)) (Hcount : cl_slot_count (sh_layout s) <= u32_max).
Notation size := (page_size s).
Notation count := (cl_slot_count (sh_layout s)).
Lemma h_read_contiguous (P : asn) (first n offset len : Z) : 0 <= first -> 0 <= offset -> 0 <= len ->
  hoare P (read_slots_contiguous aligned s first n offset len)
    (fun l k => l = get (Z.to_nat (base s first + offset)) (Z.to_nat len) (fi_bytes (co_data k)) /\ P k) P.
Proof.
  intros Hi Ho Hl. unfold read_slots_contiguous. apply h_if; [intros _; by apply h_fails|]. intros _. apply h_guard; [done|]. intros last _. apply h_guard; [done|]. intros _ _.
  apply h_guard; [done|]. intros window _. apply h_guard; [done|]. intros e [_ ->]%ok_or_Ok_inv%checked_add_Some. apply h_if; [intros _; by apply h_fails|]. intros Hw%Z.ltb_ge.
  apply h_if; intros _.
  - eapply h_conseq; [apply (h_read_unbuffered aligned s Hgeo P); [done|done|done|lia]|done| |done]. by intros l k [[_ ?] ?].
  - apply h_guard; [done|]. intros b [Hlt ->]%(slot_offset_iff s Hgeo); [|done]. apply h_guard; [done|]. intros off [_ ->]%ok_or_Ok_inv%checked_add_Some.
    pose proof (base_header s Hgeo first Hi) as Hb. assert (HH : ARENA_HEADER_BYTES = 4096) by reflexivity.
    eapply h_conseq; [apply (h_read_exact P); lia|done| |done]. intros l k [Hk Hx]. rewrite (Hx eq_refl). by split.
Qed.
Definition window_of (f : ArenaFile) (g : CacheSlotRecord) : list Z := slot_bytes s (slot_index g) (logical_length g) f.
Definition total_length (guards : list CacheSlotRecord) : Z := sumZ logical_length guards.
(** Adjacent slots, all but the last full, hold one run of bytes. *)
Lemma contiguous_windows (f : ArenaFile) (g : CacheSlotRecord) (guards : list CacheSlotRecord) :
  Z.of_nat (length (fi_bytes f)) = base s count -> Forall (fun g => 0 <= slot_index g < count /\ 0 < logical_length g <= size) (g :: guards) ->
  slots_are_contiguous (g :: guards) = true -> forallb (fun g => logical_length g =? size) (removelast (g :: guards)) = true ->
  concat (map (window_of f) (g :: guards)) = get (Z.to_nat (base s (slot_index g))) (Z.to_nat (total_length (g :: guards))) (fi_bytes f) /\
  total_length (g :: guards) = Z.of_nat (length guards) * size + logical_length (default g (last guards)) /\ slot_index g + Z.of_nat (length guards) < count.
Proof.
  intros Hlen. revert g. induction guards as [|g' guards IH]; intros g Hg Hc Hf; apply Forall_cons in Hg as [[Hi Hl] Hg].
  - cbn. rewrite app_nil_r. unfold window_of, slot_bytes, total_length. cbn [sumZ]. split_and!; [f_equal; lia|cbn; lia|lia].
  - cbn [slots_are_contiguous] in Hc. apply andb_true_iff in Hc as [Hadj%Z.eqb_eq Hc]. change (removelast (g :: g' :: guards)) with (g :: removelast (g' :: guards)) in Hf.
    cbn [forallb] in Hf. apply andb_true_iff in Hf as [Hfull%Z.eqb_eq Hf]. destruct (IH g' Hg Hc Hf) as (Hcat & Htot & Hlt).
    assert (HV : u32_max = 4294967295) by reflexivity. rewrite Z.mod_small in Hadj by (change (2 ^ 32) with 4294967296; lia).
    pose proof (base_header s Hgeo (slot_index g) ltac:(lia)) as Hb. assert (HH : ARENA_HEADER_BYTES = 4096) by reflexivity.
    assert (0 <= total_length (g' :: guards)) as Hpos. { rewrite Htot. destruct (last guards) as [q|] eqn:El; cbn; [|apply Forall_cons in Hg as [[_ ?] _]; lia].
      apply last_Some_elem_of in El. apply Forall_cons in Hg as [_ Hg]. rewrite Forall_forall in Hg. destruct (Hg q El) as [_ ?]. lia. }
    assert (total_length (g :: g' :: guards) = logical_length g + total_length (g' :: guards)) as Htl by apply sumZ_cons.
    split_and!.
    + change (map (window_of f) (g :: g' :: guards)) with (window_of f g :: map (window_of f) (g' :: guards)). cbn [concat]. rewrite Hcat. unfold window_of, slot_bytes.
      rewrite Htl, (get_split _ (Z.to_nat (logical_length g + total_length (g' :: guards))) (Z.to_nat (logical_length g))) by lia. f_equal. f_equal; [|lia]. rewrite Hadj. unfold base in *. lia.
    + rewrite Htl, Htot. cbn [length]. rewrite last_cons. destruct (last guards); cbn; lia.
    + cbn [length]. lia.
Qed.
Lemma last_default (g : CacheSlotRecord) (guards : list CacheSlotRecord) : last (g :: guards) = Some (default g (last guards)).
Proof. rewrite last_cons. by destruct (last guards). Qed.
Lemma h_read_span (in_arena : CacheSlotRecord -> bool) (g : CacheSlotRecord) (guards : list CacheSlotRecord) (offset len : Z) (k0 : Core) :
  Z.of_nat (length (fi_bytes (co_data k0))) = base s count -> Forall (fun g => 0 <= slot_index g < count /\ 0 < logical_length g <= size) (g :: guards) -> 0 <= offset -> 0 <= len ->
  hoare (fun k => k = k0) (read_contiguous aligned s in_arena (g :: guards) offset len)
    (fun l _ => l = get (Z.to_nat offset) (Z.to_nat len) (concat (map (window_of (co_data k0)) (g :: guards)))) (fun _ => True).
Proof.
  intros Hlen Hg Ho Hl. unfold read_contiguous. rewrite last_default. apply h_if; [intros _; by apply h_fails|]. intros _. apply h_if; [intros _; by apply h_fails|].
  intros Hc%negb_false_iff. apply h_if; [intros _; by apply h_fails|]. intros Hf%negb_false_iff. cbv zeta.
  destruct (contiguous_windows (co_data k0) g guards Hlen Hg Hc Hf) as (Hcat & Htot & Hlt). rewrite Hcat.
  apply h_guard; [done|]. intros w (b & [_ ->]%checked_mul_Some & [_ ->]%checked_add_Some)%ok_or_Ok_inv%bind_Some. apply h_guard; [done|]. intros e [_ ->]%ok_or_Ok_inv%checked_add_Some.
  apply h_if; [intros _; by apply h_fails|]. intros Hw%Z.ltb_ge. apply h_if; [intros ->%Z.eqb_eq; by apply h_ret|]. intros _. apply h_if; [intros _; by apply h_fails|]. intros _.
  apply h_if; [intros _; by apply h_fails|]. intros _. apply Forall_cons in Hg as [[Hi _] _]. change (default (default g (last guards)) (head (g :: guards))) with g.
  eapply h_conseq; [by apply (h_read_contiguous (fun k => k = k0)); [lia|..]|done| |done]. intros l k [-> ->].
  pose proof (base_header s Hgeo (slot_index g) ltac:(lia)) as Hb. assert (HH : ARENA_HEADER_BYTES = 4096) by reflexivity. cbn [length] in Hw. rewrite get_get by lia. f_equal. lia.
Qed.
End contiguous.

(** C15: One read across adjacent cache slots returns what reading its pages one
    by one would.  While guards of pages are held (in slots the medium does not
    change), the bytes behind them are pages with their hashes and lengths, and a
    read that spans the guards returns the range of the concatenated pages,
    buffered or not, whatever the operating system answers; and it does return
    them when no call fails, the guards are adjacent, full but for the last and
    long enough, and the offset is within the first page. *)
Theorem coalesced_read_exact {M : Medium} (blake3 : list Z -> Hash) (crc32 : list Z -> Z) (aligned : bool) (s : ArenaShard) (c : Cache) (in_arena : CacheSlotRecord -> bool) (g : CacheSlotRecord)
  (guards : list CacheSlotRecord) (offset len : Z) :
  CacheLayout_validate (sh_layout s) = Ok () -> in_u32 (cl_slot_count (sh_layout s)) -> reachable blake3 crc32 aligned s c ->
  Forall (fun g => (exists h, guarded blake3 s h g (core c)) /\ worn (slot_index g) = false) (g :: guards) -> 0 <= offset -> 0 <= len ->
  exists pages, Forall2 (fun g b => page_hash g = Some (blake3 b) /\ Z.of_nat (length b) = logical_length g) (g :: guards) pages /\
    (forall l c', read_contiguous aligned s in_arena (g :: guards) offset len c = (Done l, c') -> l = get (Z.to_nat offset) (Z.to_nat len) (concat pages)) /\
    (calm c -> forallb in_arena (g :: guards) = true -> slots_are_contiguous (g :: guards) = true -> forallb (fun g => logical_length g =? page_size s) (removelast (g :: guards)) = true ->
     offset < page_size s -> offset + len <= Z.of_nat (length (concat pages)) ->
     read_contiguous aligned s in_arena (g :: guards) offset len c = (Done (get (Z.to_nat offset) (Z.to_nat len) (concat pages)), c)).
Proof.
  intros Hv [H0 Hcu] Hr Hg Ho Hl. pose proof (validate_geometry _ Hv H0) as Hgeo. pose proof (reachable_ok _ _ _ _ Hgeo _ Hr) as [Hst _]. pose proof (so_length _ _ _ Hst) as Hlen. cbn in Hlen.
  assert (Forall (fun g => (0 <= slot_index g < cl_slot_count (sh_layout s) /\ 0 < logical_length g <= page_size s) /\ page_hash g = Some (blake3 (window_of s (ca_data c) g)) /\
    Z.of_nat (length (window_of s (ca_data c) g)) = logical_length g) (g :: guards)) as Hrow.
  { eapply Forall_impl; [exact Hg|]. intros q [(h & Hq) Hw]. destruct (guarded_row blake3 s Hgeo h q (core c) Hq) as (H1 & H2 & _ & [?|H3] & H4); [congruence|]. split; [done|]. destruct Hq as (_ & Hh & _). split; [by rewrite Hh, <-H3|done]. }
  exists (map (window_of s (ca_data c)) (g :: guards)). split_and!.
  - clear -Hrow. induction Hrow as [|q qs [_ Hq] Hqs IH]; constructor; done.
  - intros l c' Hread. pose proof (h_read_span aligned s Hgeo Hcu in_arena g guards offset len (core c) Hlen (Forall_impl _ _ _ Hrow (fun q Hq => proj1 Hq)) Ho Hl c eq_refl) as H. by rewrite Hread in H.
  - intros Hc Ha Hadj Hfull Hoff Hin. destruct (contiguous_windows s Hgeo Hcu (ca_data c) g guards Hlen (Forall_impl _ _ _ Hrow (fun q Hq => proj1 Hq)) Hadj Hfull) as (Hcat & Htot & Hlt).
    assert (HU : u64_max = 18446744073709551615) by reflexivity. assert (HV : u32_max = 4294967295) by reflexivity. assert (HH : ARENA_HEADER_BYTES = 4096) by reflexivity.
    destruct (CacheLayout_validate_Ok _ Hv) as (Hps & _ & _ & Hmax). apply Forall_cons in Hrow as [[[Hi _] _] Hrow]. pose proof (base_header s Hgeo (slot_index g) ltac:(lia)) as Hb.
    assert (0 < logical_length (default g (last guards)) <= page_size s) as Hlast.
    { destruct (last guards) as [q|] eqn:El; cbn; [|apply Forall_cons in Hg as [[(h & Hq) _] _]; by destruct (guarded_row blake3 s Hgeo h g (core c) Hq) as (_ & ? & _)].
      apply last_Some_elem_of in El. rewrite Forall_forall in Hrow. by destruct (Hrow q El) as [[_ ?] _]. }
    assert ((slot_index g + Z.of_nat (length guards) + 1) * page_size s <= cl_slot_count (sh_layout s) * page_size s) as Hmul by (apply Z.mul_le_mono_nonneg_r; lia).
    assert (0 <= total_length (g :: guards) /\ base s (slot_index g) + total_length (g :: guards) <= base s (cl_slot_count (sh_layout s))) as [Htp Hend] by (unfold base; split; nia).
    rewrite Hcat in Hin |- *. rewrite length_get in Hin by lia. rewrite Z2Nat.id in Hin by lia.
    unfold read_contiguous. rewrite last_default, Ha, Hadj, Hfull. cbn [negb]. cbv zeta. cbn [length]. replace (Z.of_nat (S (length guards)) - 1) with (Z.of_nat (length guards)) by lia.
    unfold checked_mul. rewrite (proj2 (Z.leb_le (Z.of_nat (length guards) * page_size s) u64_max)) by nia.
    rewrite (bind_lift _ _ _ (total_length (g :: guards))); [|rewrite Htot; cbn; by rewrite checked_add_fits by nia].
    rewrite (bind_lift _ _ _ (offset + len)) by (by rewrite checked_add_fits by lia). rewrite (proj2 (Z.ltb_ge _ _)) by lia. destruct (Z.eqb_spec len 0) as [->|Hne]; [done|].
    rewrite (proj2 (Z.leb_gt _ _)) by lia. rewrite (proj2 (Z.ltb_ge u32_max _)) by lia. change (default (default g (last guards)) (head (g :: guards))) with g.
    rewrite (read_contiguous_calm aligned s Hgeo); [|done|done|lia|lia|lia|done|done|done|nia]. do 2 f_equal. rewrite get_get by lia. f_equal. lia.
Qed.

(** ** Batched writes *)
Lemma file_write_app (off : Z) (a b l : list Z) : 0 <= off -> off + Z.of_nat (length (a ++ b)) <= Z.of_nat (length l) ->
  file_write off (a ++ b) l = file_write (off + Z.of_nat (length a)) b (file_write off a l).
Proof.
  intros H0 Hl. rewrite length_app in Hl. assert (length (file_write off a l) = length l) as Hfl by (apply file_write_length; lia).
  rewrite (file_write_in (off + Z.of_nat (length a))) by lia. rewrite (file_write_in off a), (file_write_in off (a ++ b)) by (rewrite ?length_app; lia).
  assert (length (firstn (Z.to_nat off) l) = Z.to_nat off) as Hf by (rewrite firstn_length; lia).
  replace (Z.to_nat (off + Z.of_nat (length a))) with (Z.to_nat off + length a)%nat by lia.
  rewrite (app_assoc (firstn (Z.to_nat off) l) a (skipn _ l)). rewrite take_app_length' by (rewrite length_app; lia).
  rewrite drop_app_ge by (rewrite length_app; lia). rewrite !length_app, Hf, drop_drop, <-!app_assoc. do 4 f_equal. lia.
Qed.
Section runs.
Variable (s : ArenaShard).
Context (Hgeo : geometry (sh_layout s)) (Hcount : cl_slot_count (sh_layout s) <= u32_max).
Notation size := (page_size s).
Notation count := (cl_slot_count (sh_layout s)).
Notation page := (CacheSlotRecord * list Z)%type.
(** One write per page. *)
Fixpoint write_each (pages : list page) : io () :=
  match pages with [] => mret () | p :: rest => _ ← write_slot s (slot_index p.1) p.2; write_each rest end.
Definition slot_writes (pages : list page) (l : list Z) : list Z := fold_left (fun l p => file_write (base s (slot_index p.1)) p.2 l) pages l.
Definition page_ok (p : page) : Prop := 0 <= slot_index p.1 < count /\ 0 < Z.of_nat (length p.2) <= size.
Lemma page_in (p : page) (l : list Z) : page_ok p -> Z.of_nat (length l) = base s count ->
  0 <= base s (slot_index p.1) /\ base s (slot_index p.1) + Z.of_nat (length p.2) <= Z.of_nat (length l).
Proof.
  intros [Hi Hp] Hl. pose proof (base_header s Hgeo (slot_index p.1) ltac:(lia)) as Hb. pose proof (base_end s Hgeo (slot_index p.1) ltac:(lia)) as He.
  assert (HH : ARENA_HEADER_BYTES = 4096) by reflexivity. lia.
Qed.
Lemma slot_writes_length (pages : list page) (l : list Z) : Forall page_ok pages -> Z.of_nat (length l) = base s count -> Z.of_nat (length (slot_writes pages l)) = base s count.
Proof.
  intros Hp. revert l. induction Hp as [|p pages Hp1 Hp IH]; intros l Hl; [done|]. cbn. apply IH. destruct (page_in p l Hp1 Hl). rewrite file_write_length; lia.
Qed.
(** A run written at once is its pages written one by one. *)
Lemma run_writes (p : page) (run_ : list page) (l : list Z) : Forall page_ok (p :: run_) -> Z.of_nat (length l) = base s count ->
  (forall j q, run_ !! j = Some q -> slot_index q.1 = slot_index p.1 + 1 + Z.of_nat j) ->
  (forall j q, (p :: run_) !! j = Some q -> (S j < length (p :: run_))%nat -> Z.of_nat (length q.2) = size) ->
  file_write (base s (slot_index p.1)) (concat (map snd (p :: run_))) l = slot_writes (p :: run_) l /\
  Z.of_nat (length run_) * size < Z.of_nat (length (concat (map snd (p :: run_)))) <= Z.of_nat (length run_) * size + size /\ slot_index p.1 + Z.of_nat (length run_) < count.
Proof.
  revert p l. induction run_ as [|q run_ IH]; intros p l Hok Hl Hs Hf; apply Forall_cons in Hok as [Hp Hok].
  - cbn. rewrite app_nil_r. destruct Hp as [Hi Hp]. split_and!; [done|lia|lia|lia].
  - assert (slot_index q.1 = slot_index p.1 + 1) as Hq by (rewrite (Hs 0%nat q eq_refl); lia). assert (Z.of_nat (length p.2) = size) as Hpf by (apply (Hf 0%nat p eq_refl); cbn; lia).
    destruct (page_in p l Hp Hl) as [Hb0 Hb1]. assert (Z.of_nat (length (file_write (base s (slot_index p.1)) p.2 l)) = base s count) as Hl' by (rewrite file_write_length; lia).
    destruct (IH q (file_write (base s (slot_index p.1)) p.2 l) Hok Hl') as (Hw & Hlen & Hlt).
    { intros j x Hj. rewrite (Hs (S j) x Hj). lia. }
    { intros j x Hj Hjl. apply (Hf (S j) x Hj). cbn in *. lia. }
    change (concat (map snd (p :: q :: run_))) with (p.2 ++ concat (map snd (q :: run_))). rewrite length_app. cbn [length].
    assert (base s (slot_index p.1) + Z.of_nat (length p.2) = base s (slot_index q.1)) as Hbq by (unfold base; rewrite Hq; lia).
    split_and!; [|lia|lia|lia]. rewrite file_write_app; [rewrite Hbq; exact Hw|done|]. rewrite length_app.
    assert ((slot_index p.1 + Z.of_nat (length run_) + 2) * size <= count * size) as Hmul by (apply Z.mul_le_mono_nonneg_r; lia). unfold base in *. lia.
Qed.
Lemma write_slot_calm (p : page) (c : Cache) : calm c -> page_ok p -> write_slot s (slot_index p.1) p.2 c = (Done (), put DataFile (base s (slot_index p.1)) p.2 c).
Proof.
  intros Hc [Hi Hp]. unfold write_slot. rewrite (proj2 (Nat.eqb_neq _ _)), (proj2 (Z.ltb_ge _ _)) by lia. cbn [orb]. erewrite bind_lift by by apply slot_offset_in.
  apply write_calm; [done|]. intros Hn. rewrite Hn in Hp. cbn in Hp. lia.
Qed.
Lemma write_contiguous_calm (p : page) (run_ : list page) (bs : list Z) (c : Cache) : calm c -> 0 <= slot_index p.1 -> slot_index p.1 + Z.of_nat (length run_) < count ->
  Z.of_nat (length run_) * size < Z.of_nat (length bs) <= Z.of_nat (length run_) * size + size ->
  write_slots_contiguous s (slot_index p.1) (Z.of_nat (length (p :: run_))) bs c = (Done (), put DataFile (base s (slot_index p.1)) bs c).
Proof.
  intros Hc Hi Hlt Hlen. destruct Hgeo as (Hs & _ & Hmax). assert (HH : ARENA_HEADER_BYTES = 4096) by reflexivity.
  assert ((slot_index p.1 + Z.of_nat (length run_) + 1) * size <= count * size) as Hmul by (apply Z.mul_le_mono_nonneg_r; lia).
  unfold write_slots_contiguous. cbn [length]. rewrite (proj2 (Z.eqb_neq _ 0)), (proj2 (Nat.eqb_neq _ _)) by lia. cbn [orb].
  replace (Z.of_nat (S (length run_)) - 1) with (Z.of_nat (length run_)) by lia. rewrite (proj2 (Z.leb_le (slot_index p.1 + Z.of_nat (length run_)) u32_max)) by lia.
  rewrite (bind_lift _ _ _ (slot_index p.1 + Z.of_nat (length run_))) by done. erewrite bind_lift by (apply slot_offset_in; [done|lia]).
  unfold checked_mul. rewrite (proj2 (Z.leb_le (Z.of_nat (length run_) * size) u64_max)) by nia. rewrite (bind_lift _ _ _ (Z.of_nat (length run_) * size)) by done. cbv zeta.
  rewrite (proj2 (Z.leb_gt _ _)), (proj2 (Z.ltb_ge _ _)) by lia. cbn [orb]. erewrite bind_lift by (apply slot_offset_in; [done|lia]). apply write_calm; [done|]. intros ->. cbn in Hlen. lia.
Qed.
Lemma write_runs_calm (fuel : nat) (ordered : list page) (c : Cache) : (length ordered <= fuel)%nat -> calm c -> Z.of_nat (length (fi_bytes (ca_data c))) = base s count -> Forall page_ok ordered ->
  exists c', write_runs fuel s ordered c = (Done (), c') /\ calm c' /\ fi_bytes (ca_data c') = slot_writes ordered (fi_bytes (ca_data c)).
Proof.
  revert ordered c. induction fuel as [|fuel IH]; intros ordered c Hf Hc Hl Hok; [destruct ordered; [by exists c|cbn in Hf; lia]|]. destruct ordered as [|p rest]; [by exists c|].
  cbn [write_runs]. destruct (extend_run size p rest) as [run_ remaining] eqn:E. destruct (extend_run_spec s p rest run_ remaining E) as (-> & Hs & Hfull).
  change (p :: run_ ++ remaining) with ((p :: run_) ++ remaining) in *. apply Forall_app in Hok as [Hok1 Hok2]. destruct (run_writes p run_ (fi_bytes (ca_data c)) Hok1 Hl Hs Hfull) as (Hw & Hlen & Hlt).
  set (c1 := put DataFile (base s (slot_index p.1)) (concat (map snd (p :: run_))) c).
  assert (fi_bytes (ca_data c1) = slot_writes (p :: run_) (fi_bytes (ca_data c))) as Hb1 by exact Hw.
  destruct (IH remaining c1) as (c2 & Hrun & Hc2 & Hb2); [rewrite length_app in Hf; cbn in Hf; lia|done|rewrite Hb1; by apply slot_writes_length|done|].
  exists c2. split_and!; [|done|rewrite Hb2, Hb1; unfold slot_writes; by rewrite fold_left_app].
  apply Forall_cons in Hok1 as [Hp _]. rewrite (bind_done _ _ c c1 ()); [exact Hrun|]. destruct run_ as [|q run_]; [|apply write_contiguous_calm; [done|destruct Hp; lia|done|done]].
  unfold c1. cbn. rewrite app_nil_r. by apply write_slot_calm.
Qed.
Lemma write_each_calm (pages : list page) (c : Cache) : calm c -> Forall page_ok pages ->
  exists c', write_each pages c = (Done (), c') /\ calm c' /\ fi_bytes (ca_data c') = slot_writes pages (fi_bytes (ca_data c)).
Proof.
  intros Hc Hok. revert c Hc. induction Hok as [|p pages Hp Hok IH]; intros c Hc; [by exists c|]. cbn [write_each]. rewrite (bind_done _ _ _ _ _ (write_slot_calm p c Hc Hp)).
  destruct (IH (put DataFile (base s (slot_index p.1)) p.2 c) Hc) as (c' & Hw & Hc' & Hb). exists c'. by split_and!.
Qed.
(** Every page of distinct slots is where it was written. *)
Lemma slot_writes_other (pages : list page) (l : list Z) (i len : Z) : Forall page_ok pages -> Z.of_nat (length l) = base s count -> 0 <= i < count -> 0 <= len <= size ->
  i ∉ map (fun p => slot_index p.1) pages -> get (Z.to_nat (base s i)) (Z.to_nat len) (slot_writes pages l) = get (Z.to_nat (base s i)) (Z.to_nat len) l.
Proof.
  intros Hok. revert l. induction Hok as [|p pages Hp Hok IH]; intros l Hl Hi Hn Hnot; [done|]. apply not_elem_of_cons in Hnot as [Hne Hnot]. cbn. destruct (page_in p l Hp Hl) as [H0 H1].
  change (fold_left _ pages ?x) with (slot_writes pages x). rewrite IH; [|rewrite file_write_length; lia|done|done|done]. destruct Hp as [Hpi Hpl]. pose proof (base_header s Hgeo i ltac:(lia)) as Hb. assert (HH : ARENA_HEADER_BYTES = 4096) by reflexivity.
  apply get_file_write; [done|done|]. destruct Hgeo as (Hs & _). unfold base in *. assert (i < slot_index p.1 \/ slot_index p.1 < i) as [Hlt|Hlt] by lia; [left|right]; nia.
Qed.
Lemma slot_writes_read (pages : list page) (l : list Z) (p : page) : Forall page_ok pages -> Z.of_nat (length l) = base s count -> NoDup (map (fun p => slot_index p.1) pages) -> p ∈ pages ->
  get (Z.to_nat (base s (slot_index p.1))) (length p.2) (slot_writes pages l) = p.2.
Proof.
  intros Hok. revert l. induction Hok as [|q pages Hq Hok IH]; intros l Hl Hnd Hin; [by apply elem_of_nil in Hin|]. apply NoDup_cons in Hnd as [Hnot Hnd]. cbn.
  destruct (page_in q l Hq Hl) as [H0 H1]. assert (Z.of_nat (length (file_write (base s (slot_index q.1)) q.2 l)) = base s count) as Hl' by (rewrite file_write_length; lia).
  change (fold_left _ pages ?x) with (slot_writes pages x). apply elem_of_cons in Hin as [->|Hin]; [|by apply IH]. destruct Hq as [Hqi Hql].
  pose proof (slot_writes_other pages (file_write (base s (slot_index q.1)) q.2 l) (slot_index q.1) (Z.of_nat (length q.2)) Hok Hl' Hqi ltac:(lia) Hnot) as Ho. rewrite Nat2Z.id in Ho. rewrite Ho.
  by apply get_file_write_self.
Qed.
End runs.

(** C16: A batch written as runs of adjacent slots leaves the arena as if each
    page had been written to its slot alone: for pages that fit distinct slots of
    the arena, when the operating system answers every call in full, both return,
    the files are equal byte for byte, and every page can be read back from its
    own slot. *)
Theorem batched_writes_equal_slot_writes (s : ArenaShard) (pages : list (CacheSlotRecord * list Z)) (c : Cache) :
  CacheLayout_validate (sh_layout s) = Ok () -> in_u32 (cl_slot_count (sh_layout s)) -> calm c ->
  Z.of_nat (length (fi_bytes (ca_data c))) = base s (cl_slot_count (sh_layout s)) ->
  Forall (fun p => 0 <= slot_index p.1 < cl_slot_count (sh_layout s) /\ 0 < Z.of_nat (length p.2) <= page_size s) pages -> NoDup (map (fun p => slot_index p.1) pages) ->
  exists c1 c2, write_contiguous_runs s pages c = (Done (), c1) /\ write_each s (sort_by_key (fun p => slot_index p.1) pages) c = (Done (), c2) /\
    fi_bytes (ca_data c1) = fi_bytes (ca_data c2) /\
    Forall (fun p => get (Z.to_nat (base s (slot_index p.1))) (length p.2) (fi_bytes (ca_data c1)) = p.2) pages.
Proof.
  intros Hv [H0 Hcu] Hc Hl Hok Hnd. pose proof (validate_geometry _ Hv H0) as Hgeo. set (ordered := sort_by_key (fun p => slot_index p.1) pages).
  assert (ordered ≡ₚ pages) as Hperm by apply sort_by_key_perm. assert (Forall (page_ok s) ordered) as Hok' by (rewrite Hperm; exact Hok).
  destruct (write_runs_calm s Hgeo Hcu (length pages) ordered c ltac:(rewrite Hperm; done) Hc Hl Hok') as (c1 & Hr & _ & Hb1).
  destruct (write_each_calm s Hgeo ordered c Hc Hok') as (c2 & He & _ & Hb2). exists c1, c2. split_and!; [done|done|congruence|].
  apply Forall_forall. intros p Hp. rewrite Hb1. apply (slot_writes_read s Hgeo); [done|done| |by rewrite Hperm].
  eapply NoDup_Permutation_proper; [apply Permutation_map, Hperm|exact Hnd].
Qed.

(** ** Witnesses *)
#[local] Instance w_medium : Medium := fun i => 7 <=? i.
Definition w_layout : CacheLayout := mkLayout 65536 2 0 0.
Definition w_shard : ArenaShard := mkShard w_layout false.
Definition w_spec : CacheShardSpec := mkShardSpec 0 "arena0" 65536 2.
Definition w_db : SlotDb := slot_run empty_slots [ORegister w_spec].
Definition w_hash (l : list Z) : Hash := default 0 (head l).
Definition w_crc (_ : list Z) : Z := 0.
Definition w_cache : Cache := mkCache w_db (mkFile (zeros (Z.to_nat 135168)) []) (mkFile (zeros (Z.to_nat 8320)) []) [] true ∅ ∅.
(** A full page and a short one. *)
Definition w_full : list Z := 1 :: replicate (Z.to_nat 65535) 1.
Definition w_short : list Z := [2; 3].
Lemma w_validates : CacheLayout_validate (sh_layout w_shard) = Ok ().
Proof. vm_compute. reflexivity. Qed.
Lemma w_count : in_u32 (cl_slot_count (sh_layout w_shard)).
Proof. cbn. unfold in_u32, u32_max. lia. Qed.
Lemma w_geometry : geometry (sh_layout w_shard).
Proof. apply validate_geometry; [exact w_validates|cbn; lia]. Qed.
Lemma w_reachable : reachable w_hash w_crc false w_shard w_cache.
Proof.
  apply (reach_new _ _ _ _ w_spec); [done|cbn; unfold in_u64, u64_max; lia|cbn; unfold in_u32, u32_max; lia|vm_compute; reflexivity|].
  rewrite length_zeros, Z2Nat.id by lia. reflexivity.
Qed.
Definition absent_check (h : Hash) (d : SlotDb) : bool := forallb (fun x => negb (holds_hash h Resident x.2)) (map_to_list (cache_slots d)).
Lemma absent_checked (h : Hash) (d : SlotDb) : absent_check h d = true -> absent h d.
Proof. intros H key x Hx. unfold absent_check in H. rewrite forallb_forall in H. apply negb_true_iff, (H (key, x)). by apply list_elem_of_In, elem_of_map_to_list. Qed.
Lemma w_full_length : Z.of_nat (length w_full) = 65536.
Proof. unfold w_full. cbn [length]. rewrite length_replicate. lia. Qed.

Lemma admitted_page_served_witness :
  exists c1 c2, admit_page w_hash w_crc false w_shard 2 w_short w_cache = (Done (), c1) /\ read_page false w_shard 2 1 1 c1 = (Done (Some [3]), c2).
Proof.
  apply (admitted_page_served w_hash w_crc false w_shard w_cache w_short 0 1 1 (mkSlotRow 0 0 None 0)); try exact w_validates; try exact w_reachable;
    try (cbn; lia); try reflexivity; try (apply absent_checked; vm_compute; reflexivity); try (vm_compute; reflexivity).
Defined.

(** Two pages admitted to adjacent slots, and guards of both. *)
Definition w_guard (h : Hash) (len i : Z) : CacheSlotRecord := mkSlot 0 i 1 Resident (Some h) len.
Lemma w_two_pages : exists c, reachable w_hash w_crc false w_shard c /\ calm c /\
  ca_index c = <[2 := resident_page (w_guard 2 2 1)]> (<[1 := resident_page (w_guard 1 65536 0)]> ∅) /\
  slot_bytes w_shard 1 2 (ca_data c) = w_short.
Proof.
  pose proof w_geometry as Hgeo. pose proof w_reachable as Hr. pose proof (proj1 (reachable_ok _ _ _ _ Hgeo _ Hr)) as Hst. pose proof w_full_length as Hfl.
  destruct (admit_calm w_hash w_crc false w_shard Hgeo w_full w_cache 0 (mkSlotRow 0 0 None 0) Hst eq_refl) as (c1 & Had1 & Hc1 & Hix1 & Hdb1 & _);
    [rewrite Hfl; cbn; lia|apply absent_checked; vm_compute; reflexivity|vm_compute; reflexivity|cbn; lia|cbn; unfold i64_max; lia|rewrite Hfl; unfold u32_max; lia|done|].
  assert (reachable w_hash w_crc false w_shard c1) as Hr1 by (by eapply (reach_op _ _ _ _ w_cache (CAdmit 1 w_full))).
  pose proof (proj1 (reachable_ok _ _ _ _ Hgeo _ Hr1)) as Hst1. unfold inserted_db, inserted_record in Hdb1. rewrite Hfl in Hdb1.
  destruct (admit_calm w_hash w_crc false w_shard Hgeo w_short c1 1 (mkSlotRow 0 0 None 0) Hst1 Hc1) as (c2 & Had2 & Hc2 & Hix2 & _ & Hby2);
    [cbn; lia|rewrite Hdb1; apply absent_checked; vm_compute; reflexivity|rewrite Hdb1; vm_compute; reflexivity|cbn; lia|cbn; unfold i64_max; lia|cbn; unfold u32_max; lia|by rewrite Hix1|].
  exists c2. split_and!; [by eapply (reach_op _ _ _ _ c1 (CAdmit 2 w_short))|done|rewrite Hix2, Hix1; unfold inserted_record; by rewrite Hfl|].
  unfold slot_bytes. rewrite Hby2. change (Z.to_nat 2) with (length w_short). apply get_file_write_self; [by vm_compute|]. pose proof (so_length _ _ _ Hst1) as Hl. cbn [core co_data] in Hl. rewrite Hl. by vm_compute.
Qed.
Lemma cache_serves_pages_witness :
  exists c c' b, read_page false w_shard 2 1 1 c = (Done (Some [3]), c') /\ indexed_bytes w_shard (ca_index c) 2 (ca_data c) = Some b /\ w_hash b = 2 /\ [3] = get 1 1 b.
Proof.
  destruct w_two_pages as (c & Hr & Hc & Hix & Hb). pose proof w_geometry as Hgeo. pose proof (so_length _ _ _ (proj1 (reachable_ok _ _ _ _ Hgeo _ Hr))) as Hlen.
  destruct (read_page_calm false w_shard Hgeo 2 1 1 (w_guard 2 2 1) c Hc) as (c' & Hread); try (cbn; lia); try (unfold u64_max; lia); [by rewrite Hix, lookup_insert_eq|exact Hlen|].
  assert (get (Z.to_nat (base w_shard (slot_index (w_guard 2 2 1)) + 1)) (Z.to_nat 1) (fi_bytes (ca_data c)) = [3]) as Hl.
  { change [3] with (get 1 1 w_short). rewrite <-Hb. unfold slot_bytes. rewrite get_get by (vm_compute; lia). cbn [slot_index w_guard]. rewrite Z2Nat.inj_add; [done|by vm_compute|lia]. }
  rewrite Hl in Hread. destruct (cache_serves_pages w_hash w_crc false w_shard c c' 2 w_validates ltac:(cbn; lia) Hr) as [H _].
  destruct (H 1 1 [3] ltac:(lia) ltac:(lia) Hread) as (p & b & Hp & Hb1 & _ & Hb2 & Hb3). exists c, c', b. split_and!; [done|done| |done]. apply Hb3. rewrite Hix, lookup_insert_eq in Hp. by injection Hp as <-.
Defined.
Lemma w_guards : exists c, reachable w_hash w_crc false w_shard c /\ calm c /\ guarded w_hash w_shard 1 (w_guard 1 65536 0) (core c) /\ guarded w_hash w_shard 2 (w_guard 2 2 1) (core c).
Proof.
  destruct w_two_pages as (c & Hr & Hc & Hix & _). pose proof w_geometry as Hgeo. set (p1 := resident_page (w_guard 1 65536 0)). set (p2 := resident_page (w_guard 2 2 1)).
  set (c1 := set_gate_word 1 p1 (RESIDENT + 1) c). set (c2 := set_gate_word 2 p2 (RESIDENT + 1) c1).
  assert (acquire 1 c = (Done (Some (w_guard 1 65536 0)), c1)) as H1 by (unfold acquire, asks, mbind, run_bind; rewrite Hix; reflexivity).
  assert (acquire 2 c1 = (Done (Some (w_guard 2 2 1)), c2)) as H2 by (unfold acquire, asks, mbind, run_bind, c1; cbn; rewrite Hix; reflexivity).
  assert (reachable w_hash w_crc false w_shard c1) as Hr1 by (eapply (reach_op _ _ _ _ c (CAcquire 1)); [done|done|cbn; unfold ignore; by rewrite (bind_done _ _ _ _ _ H1)|done]).
  assert (reachable w_hash w_crc false w_shard c2) as Hr2 by (eapply (reach_op _ _ _ _ c1 (CAcquire 2)); [done|done|cbn; unfold ignore; by rewrite (bind_done _ _ _ _ _ H2)|done]).
  pose proof (h_acquire w_hash w_shard 1 c (reachable_ok _ _ _ _ Hgeo _ Hr)) as G1. rewrite H1 in G1. pose proof (h_acquire w_hash w_shard 2 c1 (reachable_ok _ _ _ _ Hgeo _ Hr1)) as G2. rewrite H2 in G2.
  exists c2. split_and!; [done|done| |done]. destruct G1 as (_ & Ha & Hb & Hl & _). split_and!; [exact (reachable_ok _ _ _ _ Hgeo _ Hr2)|done|done|exact Hl|].
  exists (mkResident (w_guard 1 65536 0) (RESIDENT + 1)). split_and!; [|by vm_compute|by vm_compute|done]. cbn. rewrite lookup_insert_ne by done. by rewrite lookup_insert_eq.
Qed.
Lemma coalesced_read_exact_witness :
  exists c pages, concat pages <> [] /\ read_contiguous false w_shard (fun _ => true) [w_guard 1 65536 0; w_guard 2 2 1] 65535 3 c = (Done (get 65535 3 (concat pages)), c).
Proof.
  destruct w_guards as (c & Hr & Hc & G1 & G2). destruct (coalesced_read_exact w_hash w_crc false w_shard c (fun _ => true) (w_guard 1 65536 0) [w_guard 2 2 1] 65535 3 w_validates w_count Hr) as (pages & Hp & _ & Hcalm);
    [repeat constructor; first [by eexists|done]|lia|lia|].
  assert (Z.of_nat (length (concat pages)) = 65538) as Hlen.
  { inversion Hp as [|? b1 ? ps [_ L1] Hp2]; subst. inversion Hp2 as [|? b2 ? ps2 [_ L2] Hp3]; subst. inversion Hp3; subst. cbn in L1, L2 |- *. rewrite app_nil_r, length_app. lia. }
  exists c, pages. split; [intros He; by rewrite He in Hlen|]. apply Hcalm; try reflexivity; [done|lia].
Defined.
Lemma batched_writes_equal_slot_writes_witness :
  exists c1 c2, write_contiguous_runs w_shard [(w_guard 2 2 1, w_short); (w_guard 1 65536 0, w_full)] w_cache = (Done (), c1) /\
    write_each w_shard (sort_by_key (fun p => slot_index p.1) [(w_guard 2 2 1, w_short); (w_guard 1 65536 0, w_full)]) w_cache = (Done (), c2) /\ fi_bytes (ca_data c1) = fi_bytes (ca_data c2).
Proof.
  destruct (batched_writes_equal_slot_writes w_shard [(w_guard 2 2 1, w_short); (w_guard 1 65536 0, w_full)] w_cache w_validates w_count eq_refl) as (c1 & c2 & H1 & H2 & H3 & _); [..|exists c1, c2; exact (conj H1 (conj H2 H3))].
  - cbn [w_cache ca_data fi_bytes]. rewrite length_zeros, Z2Nat.id by lia. reflexivity.
  - repeat constructor; cbn [fst snd]; rewrite ?w_full_length; cbn; lia.
  - cbn. repeat constructor; set_solver.
Defined.
(** ** Creating and opening an arena *)
Lemma open_new_calm (f : ShardFile) (c : Cache) : calm c -> open_new f c = (Done (), set_file f (mkFile [] []) c).
Proof. intros Hc. unfold open_new, reply, mbind, run_bind. by rewrite Hc. Qed.
Lemma set_len_calm (f : ShardFile) (n : Z) (c : Cache) : calm c -> fi_bytes (file f c) = [] ->
  set_len f n c = (Done (), set_file f (mkFile (zeros (Z.to_nat n)) ((0, n) :: fi_dirty (file f c))) c).
Proof.
  intros Hc Hn. unfold set_len, reply, mbind, run_bind. rewrite Hc. unfold update. rewrite Hn. cbn [length app]. rewrite Nat.sub_0_r, firstn_all2; [done|]. by rewrite length_zeros.
Qed.
Lemma file_len_calm (f : ShardFile) (c : Cache) : calm c -> file_len f c = (Done (Z.of_nat (length (fi_bytes (file f c)))), c).
Proof. intros Hc. unfold file_len, reply, mbind, run_bind. by rewrite Hc. Qed.
Lemma open_file_calm (c : Cache) : calm c -> open_file c = (Done (), c).
Proof. intros Hc. unfold open_file, reply, mbind, run_bind. by rewrite Hc. Qed.
Section creation.
Variable crc32 : list Z -> Z.
Lemma write_free_slots_calm (enc : list Z) (n : nat) (slot : Z) (c : Cache) : calm c -> length enc = 64%nat -> 0 <= slot -> slot + Z.of_nat n <= u32_max ->
  (slot + Z.of_nat n) * 64 + 4096 <= Z.of_nat (length (fi_bytes (ca_meta c))) ->
  exists f, write_free_slots enc slot n c = (Done (), set_file MetaFile f c) /\ length (fi_bytes f) = length (fi_bytes (ca_meta c)) /\ get 0 4096 (fi_bytes f) = get 0 4096 (fi_bytes (ca_meta c)).
Proof.
  revert slot c. induction n as [|n IH]; intros slot c Hc He Hs Hu Hin; cbn [write_free_slots]; [exists (ca_meta c); split_and!; [by destruct c|done|done]|].
  erewrite bind_lift by (apply metadata_offset_in; lia). rewrite (bind_done _ _ _ (put MetaFile (slot * 64 + 4096) enc c) ()); [|apply write_calm; [done|]; by intros ->].
  assert (length (file_write (slot * 64 + 4096) enc (fi_bytes (ca_meta c))) = length (fi_bytes (ca_meta c))) as Hl by (apply file_write_length; lia).
  destruct (IH (slot + 1) (put MetaFile (slot * 64 + 4096) enc c)) as (f & Hf & Hlf & Hgf); [done|done|lia|lia|cbn; rewrite Hl; lia|]. exists f. split_and!; [rewrite Hf; by destruct c|by rewrite Hlf|].
  rewrite Hgf. cbn. apply get_file_write; [lia|lia|]. left. lia.
Qed.
Lemma header_bytes (h : ArenaHeader) (b : list Z) : ArenaHeader_encode crc32 h = Ok b -> is_bytes b /\ length b = 4096%nat.
Proof.
  intros (u & _ & H)%bind_Ok_inv. apply Ok_inj in H as <-. split; [|rewrite !length_app, length_header_body, length_le, length_zeros; reflexivity].
  unfold is_bytes, ArenaHeader_body. rewrite !Forall_app. split_and!; try apply le_bytes; try apply zeros_bytes. repeat constructor.
Qed.
Lemma header_encodes (l : CacheLayout) : CacheLayout_validate l = Ok () -> 0 <= cl_slot_count l -> exists b, ArenaHeader_encode crc32 (mkHeader (cl_page_size l) (cl_slot_count l)) = Ok b.
Proof.
  intros Hv Hcu0. destruct (CacheLayout_validate_Ok l Hv) as (_ & _ & Hsb & _). set (N := cl_slot_count l * cl_page_size l + ARENA_HEADER_BYTES) in *. set (h := mkHeader (cl_page_size l) (cl_slot_count l)).
  unfold ArenaHeader_encode. assert (CacheLayout_validate (header_layout h) = Ok ()) as ->; [|by eexists]. unfold CacheLayout_validate, header_layout in *. cbn. destruct (_ || _ || _); [done|].
  change (logical_shard_bytes (mkLayout (cl_page_size l) (cl_slot_count l) 0 0)) with (logical_shard_bytes l). rewrite Hsb in *. cbn [mbind result_bind] in *.
  unfold declared_physical_budget in *. change (logical_shard_bytes (mkLayout (cl_page_size l) (cl_slot_count l) 0 0)) with (logical_shard_bytes l). change (metadata_bytes (mkLayout (cl_page_size l) (cl_slot_count l) 0 0)) with (metadata_bytes l).
  rewrite Hsb in *. cbn [mbind result_bind] in *. destruct (metadata_bytes l) as [m|e]; [|done]. cbn [mbind result_bind] in *. cbn [db_journal_allowance filesystem_reserve].
  apply bind_Ok_inv in Hv as (z & Hz%ok_or_Ok_inv & _). apply bind_Some in Hz as (a & Ha & _). rewrite Ha. cbn. apply checked_add_Some in Ha as [Ha ->]. rewrite (checked_add_fits (N + m) 0) by lia. cbn. by rewrite checked_add_fits by lia.
Qed.
(** An arena that was created opens as it was declared, its files synced. *)
Theorem created_arena_opens (l : CacheLayout) (c : Cache) : (forall x, in_u32 (crc32 x)) -> CacheLayout_validate l = Ok () -> in_u32 (cl_slot_count l) -> calm c ->
  let s := mkShard l false in
  exists c1, ArenaShard_create crc32 l c = (Done s, c1) /\ open_inner crc32 l false c1 = (Done s, c1) /\ fi_dirty (ca_data c1) = [] /\ fi_dirty (ca_meta c1) = [] /\
    Z.of_nat (length (fi_bytes (ca_data c1))) = base s (cl_slot_count l) /\ metadata_length l = Ok (Z.of_nat (length (fi_bytes (ca_meta c1)))).
Proof.
  intros Hcrc Hv Hcu Hc s. pose proof (validate_geometry l Hv (proj1 Hcu)) as (Hs & Hn & Hmax). destruct (CacheLayout_validate_Ok l Hv) as (_ & _ & Hsb & _).
  assert (HU : u64_max = 18446744073709551615) by reflexivity. assert (HV : u32_max = 4294967295) by reflexivity. assert (HH : ARENA_HEADER_BYTES = 4096) by reflexivity. assert (HB : SLOT_METADATA_BYTES = 64) by reflexivity.
  destruct Hcu as [Hcu0 Hcu]. set (N := cl_slot_count l * cl_page_size l + ARENA_HEADER_BYTES) in *. set (M := cl_slot_count l * 64 + 8192).
  assert (metadata_length l = Ok M) as HM. { unfold metadata_length, metadata_bytes, checked_mul. rewrite HB, HH, (proj2 (Z.leb_le _ _)) by lia. cbn. rewrite checked_add_fits by lia. cbn. rewrite checked_add_fits by lia. cbn. f_equal. unfold M. lia. }
  set (h := mkHeader (cl_page_size l) (cl_slot_count l)). destruct (header_encodes l Hv Hcu0) as [b Hb].
  destruct (header_bytes h b Hb) as [Hbb Hbl]. pose proof (proj2 (arena_header_codec_exact crc32 Hcrc b h Hbb (conj Hcu0 Hcu)) Hb) as Hdec.
  set (d0 := mkFile (zeros (Z.to_nat N)) [(0, N)]). set (c1 := set_file DataFile d0 c).
  set (c2 := synced DataFile (put DataFile 0 b c1)). set (m0 := mkFile (zeros (Z.to_nat M)) [(0, M)]). set (c3 := put MetaFile 0 b (set_file MetaFile m0 c2)).
  assert (length (file_write 0 b (zeros (Z.to_nat N))) = Z.to_nat N /\ get 0 4096 (file_write 0 b (zeros (Z.to_nat N))) = b) as [HlN HgN].
  { assert (0 + Z.of_nat (length b) <= Z.of_nat (length (zeros (Z.to_nat N)))) as Hfit by (rewrite length_zeros; lia).
    split; [rewrite file_write_length by (done || lia); by rewrite length_zeros|]. rewrite <-Hbl. apply (get_file_write_self 0 b); [lia|exact Hfit]. }
  assert (length (file_write 0 b (zeros (Z.to_nat M))) = Z.to_nat M /\ get 0 4096 (file_write 0 b (zeros (Z.to_nat M))) = b) as [HlM HgM].
  { assert (0 + Z.of_nat (length b) <= Z.of_nat (length (zeros (Z.to_nat M)))) as Hfit by (rewrite length_zeros; lia).
    split; [rewrite file_write_length by (done || lia); by rewrite length_zeros|]. rewrite <-Hbl. apply (get_file_write_self 0 b); [lia|exact Hfit]. }
  assert (b <> []) as Hne by (intros ->; done).
  assert (Z.to_nat 0 = 0%nat /\ Z.to_nat 4096 = 4096%nat) as [E0 E4] by lia.
  destruct (write_free_slots_calm (SlotMetadata_encode crc32 (mkSlotMetadata 0 SFree 0 0)) (Z.to_nat (cl_slot_count l)) 0 c3 Hc (encode_length crc32 _)) as (f & Hf & Hlf & Hgf); [lia|lia|cbn; rewrite HlM; lia|].
  set (c4 := synced MetaFile (set_file MetaFile f c3)). exists c4.
  assert (ArenaShard_create crc32 l c = (Done s, c4)) as Hcreate.
  { unfold ArenaShard_create. rewrite Hv. rewrite (bind_lift (Ok ()) _ _ ()) by done. rewrite (bind_done _ _ _ _ _ (open_new_calm DataFile c Hc)). rewrite Hsb. rewrite (bind_lift (Ok N) _ _ N) by done.
    rewrite (bind_done _ _ _ c1 ()); [|by rewrite set_len_calm; destruct c]. rewrite (bind_lift _ _ _ b) by exact Hb. rewrite (bind_done _ _ _ (put DataFile 0 b c1) ()) by by apply write_calm.
    rewrite (bind_done _ _ _ c2 ()) by by apply sync_calm. rewrite (bind_done _ _ _ _ _ (open_new_calm MetaFile c2 Hc)). rewrite HM. rewrite (bind_lift (Ok M) _ _ M) by done.
    rewrite (bind_done _ _ _ (set_file MetaFile m0 c2) ()); [|by rewrite set_len_calm]. rewrite (bind_done _ _ _ c3 ()) by by apply write_calm. rewrite (bind_done _ _ _ _ _ Hf).
    by rewrite (bind_done _ _ _ c4 ()) by by apply sync_calm. }
  assert (fi_bytes (ca_data c4) = file_write 0 b (zeros (Z.to_nat N)) /\ fi_bytes (ca_meta c4) = fi_bytes f /\ calm c4) as (Hd4 & Hm4 & Hc4) by done.
  cbn in Hlf, Hgf. rewrite HgM in Hgf. rewrite HlM in Hlf.
  split_and!; [done| |done|done|rewrite Hd4, HlN, Z2Nat.id by lia; done|rewrite Hm4, Hlf, Z2Nat.id by lia; exact HM].
  unfold open_inner. rewrite Hv. rewrite (bind_lift (Ok ()) _ _ ()) by done. cbn [andb]. rewrite (bind_done _ _ _ _ _ (open_file_calm c4 Hc4)). rewrite HH.
  rewrite (bind_done _ _ _ c4 b); [|rewrite read_calm; [by change (file DataFile c4) with (ca_data c4); rewrite E0, E4, Hd4, HgN|done|lia|lia|change (file DataFile c4) with (ca_data c4); rewrite Hd4, HlN; lia]].
  rewrite (bind_lift _ _ _ h) by exact Hdec. cbn [h ah_page_size ah_slot_count]. rewrite !Z.eqb_refl. cbn [negb orb]. rewrite (bind_done _ _ _ _ _ (file_len_calm DataFile c4 Hc4)). rewrite Hsb. rewrite (bind_lift (Ok N) _ _ N) by done.
  change (file DataFile c4) with (ca_data c4). rewrite Hd4, HlN, Z2Nat.id, Z.eqb_refl by lia. cbn [negb]. rewrite (bind_done _ _ _ _ _ (open_file_calm c4 Hc4)).
  rewrite (bind_done _ _ _ c4 b); [|rewrite read_calm; [by change (file MetaFile c4) with (ca_meta c4); rewrite E0, E4, Hm4, Hgf|done|lia|lia|change (file MetaFile c4) with (ca_meta c4); rewrite Hm4, Hlf; lia]].
  rewrite (bind_lift _ _ _ h) by exact Hdec. cbn [h ah_page_size ah_slot_count]. rewrite !Z.eqb_refl. cbn [negb andb]. rewrite (bind_done _ _ _ _ _ (file_len_calm MetaFile c4 Hc4)). rewrite HM. rewrite (bind_lift (Ok M) _ _ M) by done.
  change (file MetaFile c4) with (ca_meta c4). rewrite Hm4, Hlf, Z2Nat.id, Z.eqb_refl by lia. reflexivity.
Qed.
End creation.
