(* ===== verification/CacheRepair.v ===== *)
(** * Reconciliation of the cache

    What [reconcile] of [CacheStore] does when the operating system answers every
    call in full: which slots it acts on, what it leaves in the table, in the
    metadata sidecar and in the arena, and that a second run finds nothing to
    do. *)
From S2P Require Import CacheLive.

(** ** Files without faults *)
Lemma zeros_add (a b : nat) : zeros (a + b) = zeros a ++ zeros b.
Proof. apply replicate_add. Qed.
Lemma zero_chunks_calm (fuel : nat) (n off : Z) (c : Cache) : calm c -> 0 <= n <= Z.of_nat fuel * ZERO_CHUNK -> 0 <= off -> off + n <= Z.of_nat (length (fi_bytes (ca_data c))) ->
  exists f, zero_chunks fuel n off c = (Done (), set_file DataFile f c) /\ fi_bytes f = file_write off (zeros (Z.to_nat n)) (fi_bytes (ca_data c)).
Proof.
  assert (HZ : ZERO_CHUNK = 65536) by reflexivity. revert n off c. induction fuel as [|fuel IH]; intros n off c Hc Hn Ho Hin; cbn [zero_chunks].
  { assert (n = 0) as -> by lia. exists (ca_data c). split; [by destruct c|]. rewrite file_write_nil; [done|lia]. }
  destruct (Z.eqb_spec n 0) as [->|Hne]; [exists (ca_data c); split; [by destruct c|rewrite file_write_nil; [done|lia]]|]. cbv zeta. set (k := Z.min n ZERO_CHUNK).
  rewrite (bind_done _ _ _ (put DataFile off (zeros (Z.to_nat k)) c) ()); [|apply write_calm; [done|]; intros H%(f_equal length); rewrite length_zeros in H; cbn in H; lia].
  assert (length (file_write off (zeros (Z.to_nat k)) (fi_bytes (ca_data c))) = length (fi_bytes (ca_data c))) as Hl by (apply file_write_length; rewrite ?length_zeros; lia).
  destruct (IH (n - k) (off + k) (put DataFile off (zeros (Z.to_nat k)) c)) as (f & Hf & Hlf); [done|lia|lia|cbn; rewrite Hl; lia|]. exists f. split; [rewrite Hf; by destruct c|].
  rewrite Hlf. replace (Z.to_nat n) with (Z.to_nat k + Z.to_nat (n - k))%nat by lia. rewrite zeros_add, file_write_app by (rewrite ?length_app, ?length_zeros; lia).
  rewrite length_zeros, Z2Nat.id by lia. done.
Qed.
Lemma row_of_inj (a b : CacheSlotRecord) : slot_of a = slot_of b -> row_of a = row_of b -> a = b.
Proof. destruct a as [? ? ? sa], b as [? ? ? sb]. unfold slot_of, row_of. cbn. intros [= -> ->] [= -> Hs -> ->]. f_equal. by destruct sa, sb. Qed.
Lemma load_all_total (d : SlotDb) : slot_inv d -> exists rs, load_all d = Ok rs.
Proof.
  intros Hd. unfold load_all. assert (Forall (fun x => cache_slots d !! x.1 = Some x.2) (slots_where (fun _ => true) d)) as Hin by (apply Forall_forall; by intros x [? _]%elem_of_slots_where).
  induction Hin as [|[k x] l Hx Hin (rs & Hrs)]; [by exists []|]. destruct (decode_slot_ok k x (proj1 Hd k x Hx)) as (st & _ & Hdec). cbn [decode_slots]. rewrite Hdec. cbn [ok_or mbind result_bind].
  rewrite Hrs. cbn [mbind result_bind]. by eexists.
Qed.
Lemma slot_of_index (a b : CacheSlotRecord) : slot_of a = slot_of b -> slot_index a = slot_index b.
Proof. by intros [= _ ?]. Qed.
Lemma tx_inv {A : Type} (op : SlotDb -> result (A * SlotDb)) (ev : SlotEvent) (d d' : SlotDb) (a : A) : slot_inv d -> tx op d = (Ok a, d') ->
  (forall a d d', slot_inv d -> op d = Ok (a, d') -> slot_inv d' /\ moves ev d d') -> slot_inv d'.
Proof. intros Hd Ht H. unfold tx, transact in Ht. destruct (op d) as [[a' d1]|e] eqn:Eo; [|done]. injection Ht as <- <-. by eapply H. Qed.

Lemma metadata_length_Ok (l : CacheLayout) (n : Z) : metadata_length l = Ok n -> n = cl_slot_count l * 64 + 8192.
Proof.
  unfold metadata_length, metadata_bytes. intros Hml. apply bind_Ok_inv in Hml as (m & Hn'%ok_or_Ok_inv & Hml%ok_or_Ok_inv). apply bind_Some in Hn' as (b & [_ ->]%checked_mul_Some & [_ ->]%checked_add_Some).
  apply checked_add_Some in Hml as [_ ->]. assert (H1 : SLOT_METADATA_BYTES = 64) by reflexivity. assert (H2 : ARENA_HEADER_BYTES = 4096) by reflexivity. lia.
Qed.

Section settling.
Variables (crc32 : list Z -> Z) (s : ArenaShard).
Notation size := (page_size s).
Notation count := (cl_slot_count (sh_layout s)).

(** ** What reconciliation is to do *)
(** The metadata of a slot in the sidecar, and its bytes in the arena. *)
Definition meta_window (i : Z) (m : list Z) : list Z := get (Z.to_nat (i * 64 + 4096)) 64 m.
Definition on_disk (i : Z) (c : Cache) : list Z * list Z := (meta_window i (fi_bytes (ca_meta c)), slot_bytes s i size (ca_data c)).
(** The metadata a row is to have: its state under the same name. *)
Definition metadata_of (r : CacheSlotRecord) : SlotMetadata :=
  mkSlotMetadata (generation r)
    (match state r with Free => SFree | Reserved => SReserved | Resident => SResident | Evicting => SEvicting | RetryDeallocate => SRetryDeallocate end)
    (default 0 (page_hash r)) (logical_length r).
(** A slot is healthy when the sidecar decodes to exactly that. *)
Definition healthy (r : CacheSlotRecord) (c : Cache) : bool :=
  match SlotMetadata_decode crc32 (on_disk (slot_index r) c).1 with Ok m => bool_decide (m = metadata_of r) | Err _ => false end.
(** A free slot on the disk: metadata of that generation, and zeroes. *)
Definition freed_on_disk (r : CacheSlotRecord) : list Z * list Z :=
  (SlotMetadata_encode crc32 (mkSlotMetadata (generation r) SFree 0 0), zeros (Z.to_nat size)).
(** Rows of other shards or past the arena are reported, not acted on. *)
Definition unavailable (r : CacheSlotRecord) : bool := negb (shard_id r =? 0) || (count <=? slot_index r).
Definition slot_action (r : CacheSlotRecord) (well : bool) : option ReconcileAction :=
  if unavailable r then None
  else match state r with
  | Free => if well then None else Some RewriteFreeMetadata
  | Reserved => Some ReclaimReserved
  | Evicting | RetryDeallocate => Some FinishEviction
  | Resident => if well then None else Some QuarantineResident
  end.
Definition settled_record (r : CacheSlotRecord) (well : bool) : CacheSlotRecord := if slot_action r well then freed r else r.
Definition settled_bytes (r : CacheSlotRecord) (c : Cache) : list Z * list Z :=
  if slot_action r (healthy r c) then freed_on_disk r else on_disk (slot_index r) c.
Definition well_resident (c : Cache) (r : CacheSlotRecord) : bool := negb (unavailable r) && bool_decide (state r = Resident) && healthy r c.
Definition actions (rs : list CacheSlotRecord) (c : Cache) : list (Z * ReconcileAction) :=
  omap (fun r => pair (slot_index r) <$> slot_action r (healthy r c)) rs.
Definition expected_report (dry_run : bool) (rs : list CacheSlotRecord) (c : Cache) : ReconcileReport :=
  mkReport (Z.of_nat (length rs)) (Z.of_nat (length (List.filter (well_resident c) rs))) (actions rs c)
    (if dry_run then 0 else Z.of_nat (length (actions rs c)))
    (replicate (length (List.filter unavailable rs)) "cache DB references an unavailable shard or slot"%string).

(** ** The steps without faults *)
Context (Hgeo : geometry (sh_layout s)) (Hcount : count <= u32_max).
Lemma healthy_matches (r : CacheSlotRecord) (c : Cache) :
  healthy r c = is_ok_and (metadata_matches r) (SlotMetadata_decode crc32 (meta_window (slot_index r) (fi_bytes (ca_meta c)))).
Proof.
  unfold healthy, on_disk. cbn [fst]. destruct (SlotMetadata_decode _ _) as [[g st h l]|e]; [|done]. unfold metadata_of, metadata_matches. cbn.
  destruct (Z.eqb_spec (generation r) g) as [<-|?]; [|apply bool_decide_eq_false; congruence]. destruct (Z.eqb_spec (logical_length r) l) as [<-|?]; [|apply bool_decide_eq_false; congruence].
  destruct (Z.eqb_spec (default 0 (page_hash r)) h) as [<-|?]; [|apply bool_decide_eq_false; congruence]. cbn.
  destruct (state r), st; cbn; (by apply bool_decide_eq_true) || (apply bool_decide_eq_false; congruence).
Qed.
(** What a step on slot [i] leaves alone. *)
Record others_kept (i : Z) (c c' : Cache) : Prop := mkOthers {
  ok_data : length (fi_bytes (ca_data c')) = length (fi_bytes (ca_data c));
  ok_meta : length (fi_bytes (ca_meta c')) = length (fi_bytes (ca_meta c));
  ok_other : forall j, 0 <= j < count -> j <> i -> on_disk j c' = on_disk j c
}.
Lemma others_kept_trans (i : Z) (a b c : Cache) : others_kept i a b -> others_kept i b c -> others_kept i a c.
Proof. intros [H1 H2 H3] [G1 G2 G3]. split; [congruence|congruence|]. intros j Hj Hne. by rewrite G3, H3. Qed.
Definition in_files (c : Cache) : Prop :=
  Z.of_nat (length (fi_bytes (ca_data c))) = base s count /\ count * 64 + 4096 <= Z.of_nat (length (fi_bytes (ca_meta c))).
Lemma noted_kept (i : Z) (x : SlotMetadata) (c : Cache) : in_files c -> 0 <= i < count ->
  others_kept i c (noted crc32 i x c) /\ on_disk i (noted crc32 i x c) = (SlotMetadata_encode crc32 x, slot_bytes s i size (ca_data c)).
Proof.
  intros [_ Hm] Hi. pose proof (encode_length crc32 x) as He. unfold on_disk. cbn [noted synced put set_file ca_data ca_meta file fi_bytes].
  assert (i * 64 + 4096 + 64 <= Z.of_nat (length (fi_bytes (ca_meta c)))) as Hin by lia. split.
  - split; [done|apply file_write_length; lia|]. intros j Hj Hne. unfold on_disk, meta_window. cbn. f_equal. apply get_file_write; [lia|lia|]. lia.
  - unfold meta_window. cbn. f_equal. rewrite <-He. apply get_file_write_self; lia.
Qed.
Lemma deallocate_calm (i : Z) (c : Cache) : calm c -> in_files c -> 0 <= i < count ->
  exists f, deallocate_slot s i c = (Done (), set_file DataFile f c) /\ others_kept i c (set_file DataFile f c) /\
    on_disk i (set_file DataFile f c) = (meta_window i (fi_bytes (ca_meta c)), zeros (Z.to_nat size)).
Proof.
  intros Hc [Hl _] Hi. unfold deallocate_slot. erewrite bind_lift by by apply slot_offset_in. unfold deallocate. pose proof (proj1 Hgeo) as Hs. assert (HZ : ZERO_CHUNK = 65536) by reflexivity.
  pose proof (base_header s Hgeo i ltac:(lia)) as Hb. pose proof (base_end s Hgeo i ltac:(lia)) as He. assert (HH : ARENA_HEADER_BYTES = 4096) by reflexivity.
  pose proof (Z.div_mod size ZERO_CHUNK ltac:(lia)) as Hd. pose proof (Z.mod_pos_bound size ZERO_CHUNK ltac:(lia)) as Hm. pose proof (Z.div_pos size ZERO_CHUNK ltac:(lia) ltac:(lia)) as Hq.
  destruct (zero_chunks_calm (Z.to_nat (size / ZERO_CHUNK + 1)) size (base s i) c Hc) as (f & Hf & Hlf); [rewrite Z2Nat.id by lia; lia|lia|lia|].
  rewrite (bind_done _ _ _ _ _ Hf). rewrite sync_calm by done. exists (mkFile (fi_bytes f) []). unfold on_disk, slot_bytes. cbn [set_file ca_data ca_meta fi_bytes]. split_and!; [by destruct c| |]; rewrite ?Hlf.
  - split; cbn; [rewrite ?Hlf; apply file_write_length; rewrite ?length_zeros; lia|done|]. intros j Hj Hne. unfold on_disk, slot_bytes. cbn. rewrite ?Hlf. f_equal. apply get_file_write; [lia|rewrite length_zeros; lia|].
    rewrite length_zeros. pose proof (base_header s Hgeo j ltac:(lia)) as Hbj. unfold base in *. assert (j < i \/ i < j) as [?|?] by lia; [left|right]; nia.
  - f_equal. rewrite <-(length_zeros (Z.to_nat size)) at 1. apply get_file_write_self; [lia|rewrite length_zeros; lia].
Qed.
Lemma in_files_kept (i : Z) (c c' : Cache) : in_files c -> others_kept i c c' -> in_files c'.
Proof. intros [? ?] [H1 H2 _]. split; lia. Qed.
Lemma read_metadata_calm (i : Z) (c : Cache) : calm c -> in_files c -> 0 <= i < count ->
  attempt (read_metadata crc32 s i) c = (Done (SlotMetadata_decode crc32 (meta_window i (fi_bytes (ca_meta c)))), c).
Proof.
  intros Hc [_ Hin] Hi. assert (HB : SLOT_METADATA_BYTES = 64) by reflexivity. unfold attempt, read_metadata. erewrite bind_lift by by apply slot_offset_in. erewrite bind_lift by (apply metadata_offset_in; lia).
  rewrite (bind_done _ _ _ c (meta_window i (fi_bytes (ca_meta c)))); [by destruct (SlotMetadata_decode _ _)|]. rewrite HB. apply (read_calm MetaFile); [done|lia|lia|cbn; lia].
Qed.

(** A slot of [c] whose row is [r], and its repair in [c']. *)
Definition slot_ready (r : CacheSlotRecord) (c : Cache) : Prop :=
  calm c /\ slot_inv (ca_db c) /\ in_files c /\ 0 <= slot_index r < count /\ cache_slots (ca_db c) !! slot_of r = Some (row_of r).
Record repaired (r : CacheSlotRecord) (row : SlotRow) (c c' : Cache) : Prop := mkRepaired {
  rep_calm : calm c';
  rep_inv : slot_inv (ca_db c');
  rep_slots : cache_slots (ca_db c') = <[slot_of r := row]> (cache_slots (ca_db c));
  rep_others : others_kept (slot_index r) c c'
}.
Lemma repaired_trans (r r' : CacheSlotRecord) (x y : SlotRow) (a b c : Cache) : slot_of r' = slot_of r -> repaired r x a b -> repaired r' y b c -> repaired r y a c.
Proof.
  intros He [H1 H2 H3 H4] [G1 G2 G3 G4]. assert (slot_index r' = slot_index r) as Hi by exact (slot_of_index _ _ He). rewrite Hi in G4. split; [done|done| |by eapply others_kept_trans].
  rewrite G3, H3, He. by rewrite insert_insert_eq.
Qed.
Lemma repaired_ready (r r' : CacheSlotRecord) (c c' : Cache) : slot_of r' = slot_of r -> slot_ready r c -> repaired r (row_of r') c c' -> slot_ready r' c'.
Proof.
  intros He (H1 & H2 & H3 & H4 & H5) [G1 G2 G3 G4]. assert (slot_index r' = slot_index r) as Hi by exact (slot_of_index _ _ He).
  split_and!; [done|done|by eapply in_files_kept|lia|lia|by rewrite G3, He, lookup_insert_eq].
Qed.
Lemma repaired_refl (r : CacheSlotRecord) (c : Cache) : slot_ready r c -> repaired r (row_of r) c c.
Proof. intros (Hc & Hd & _ & _ & Hl). split; [done|done|by rewrite insert_id|done]. Qed.
Lemma freed_on_disk_eq (r e : CacheSlotRecord) : generation r = generation e -> freed_on_disk r = freed_on_disk e.
Proof. unfold freed_on_disk. by intros ->. Qed.
(** Files only. *)
Lemma dealloc_free_calm (r : CacheSlotRecord) (c : Cache) : slot_ready r c ->
  exists c', (_ ← deallocate_slot s (slot_index r); write_free crc32 s r) c = (Done (), c') /\ ca_db c' = ca_db c /\ repaired r (row_of r) c c' /\ on_disk (slot_index r) c' = freed_on_disk r.
Proof.
  intros (Hc & Hd & Hl & Hi & Hlive). destruct (deallocate_calm (slot_index r) c Hc Hl Hi) as (f & Hf & Hk & Hdisk). rewrite (bind_done _ _ _ _ _ Hf).
  pose proof (in_files_kept _ _ _ Hl Hk) as Hl1. destruct (noted_kept (slot_index r) (metadata_for (freed r) SFree) (set_file DataFile f c) Hl1 Hi) as [Hk2 Hd2].
  exists (noted crc32 (slot_index r) (metadata_for (freed r) SFree) (set_file DataFile f c)). split; [by apply write_synced_calm; [..|lia]|]. split; [done|].
  split; [split; [done|done|cbn; by rewrite insert_id|by eapply others_kept_trans]|]. rewrite Hd2. unfold freed_on_disk. f_equal. unfold on_disk in Hdisk. by injection Hdisk.
Qed.
Lemma mark_calm (r : CacheSlotRecord) (st : CacheSlotState) (x : SlotMetadata) (d : SlotDb) (c : Cache) : slot_ready r c -> slot_inv d ->
  cache_slots d = <[slot_of r := row_of (with_state st r)]> (cache_slots (ca_db c)) ->
  write_synced crc32 s (slot_index r) x (set_db d c) = (Done (), noted crc32 (slot_index r) x (set_db d c)) /\ repaired r (row_of (with_state st r)) c (noted crc32 (slot_index r) x (set_db d c)).
Proof.
  intros (Hc & _ & Hl & Hi & _) Hd Hs. split; [by apply write_synced_calm; [..|lia]|]. split; [done|done|done|].
  destruct (noted_kept (slot_index r) x (set_db d c) Hl Hi) as [[H1 H2 H3] _]. by split.
Qed.
Lemma finish_slot_calm (r e : CacheSlotRecord) (c : Cache) : slot_ready e c -> slot_of r = slot_of e -> generation r = generation e -> state e = Evicting \/ state e = RetryDeallocate ->
  exists c', finish_slot crc32 s r e c = (Done (), c') /\ repaired e (row_of (freed e)) c c' /\ on_disk (slot_index e) c' = freed_on_disk e.
Proof.
  intros Hr He Hg Hst. assert (slot_index r = slot_index e) as Hi by exact (slot_of_index _ _ He).
  assert (forall c1, (_ ← deallocate_slot s (slot_index e); write_free crc32 s e) c = (Done (), c1) -> finish_slot crc32 s r e c = db_call (tx (finish_deallocation e)) c1) as Heq.
  { intros c1 H1. unfold finish_slot, write_free, freed, metadata_for in *. cbn [generation page_hash logical_length] in *. rewrite Hi, Hg. unfold mbind, run_bind in *. destruct (deallocate_slot s (slot_index e) c) as [[u|x|] c2]; [|done|done]. by rewrite H1. }
  destruct (dealloc_free_calm e c Hr) as (c1 & H1 & Hdb & Hrep & Hdisk). rewrite (Heq c1 H1). destruct Hr as (Hc & Hd & Hl & Hin & Hlive).
  pose proof (finish_succeeds (ca_db c) e Hd Hlive Hst) as Hf. set (d' := set_slots _ (ca_db c)) in Hf. exists (set_db d' c1). split; [apply db_calm; [apply Hrep|by rewrite Hdb]|].
  destruct Hrep as [G1 G2 G3 G4]. split; [|exact Hdisk]. split; [done|eapply (tx_inv _ EvFree); [exact Hd|exact Hf|]; intros a x y; apply finish_deallocation_moves|done|]. by destruct G4 as [? ? ?]; split.
Qed.
(** ** One slot *)
Lemma free_is_freed (r : CacheSlotRecord) (d : SlotDb) : slot_inv d -> cache_slots d !! slot_of r = Some (row_of r) -> state r = Free -> r = freed r.
Proof.
  intros Hd Hl Hs. destruct (proj1 Hd _ _ Hl) as (Hc & _ & _ & _ & Hlen). unfold row_of in Hc, Hlen. rewrite Hs in Hc, Hlen. apply slot_check_iff in Hc as (_ & _ & _ & _ & Hh & _). cbn in Hlen.
  destruct r as [a b g st h l]. cbn in *. subst. unfold freed. cbn. by rewrite (Hh eq_refl).
Qed.
Definition repaired_to (r : CacheSlotRecord) (c c' : Cache) : Prop := repaired r (row_of (freed r)) c c' /\ on_disk (slot_index r) c' = freed_on_disk r.
Lemma repair_calm (r : CacheSlotRecord) (c : Cache) : slot_ready r c ->
  (state r = Reserved -> exists c', (_ ← db_call (tx (release_cache_reservation r)); _ ← write_synced crc32 s (slot_index r) (metadata_for (with_state Evicting r) SEvicting); finish_slot crc32 s r (with_state Evicting r)) c = (Done (), c') /\
     repaired_to r c c') /\
  (state r = Resident -> exists c', (evicting ← db_call (tx (begin_cache_eviction r)); _ ← write_synced crc32 s (slot_index r) (metadata_for evicting SEvicting); finish_slot crc32 s r evicting) c = (Done (), c') /\
     repaired_to r c c').
Proof.
  intros Hr. set (e := with_state Evicting r). assert (slot_of e = slot_of r) as He by done.
  assert (forall d, slot_inv d -> cache_slots d = <[slot_of r := row_of e]> (cache_slots (ca_db c)) ->
    exists c', (_ ← write_synced crc32 s (slot_index r) (metadata_for e SEvicting); finish_slot crc32 s r e) (set_db d c) = (Done (), c') /\ repaired_to r c c') as Htail.
  { intros d Hd Hs. destruct (mark_calm r Evicting (metadata_for e SEvicting) d c Hr Hd Hs) as [Hw Hrep]. rewrite (bind_done _ _ _ _ _ Hw).
    destruct (finish_slot_calm r e _ (repaired_ready r e _ _ He Hr Hrep) eq_refl eq_refl ltac:(by left)) as (c' & Hf & Hrep' & Hdisk). exists c'. split; [done|]. split; [exact (repaired_trans r e _ _ _ _ _ He Hrep Hrep')|exact Hdisk]. }
  destruct Hr as (Hc & Hd & _ & _ & Hl). split; intros Hs.
  - pose proof (release_succeeds (ca_db c) r Hd Hl Hs) as Hrel. rewrite (bind_done _ _ _ _ _ (db_calm _ c _ _ Hc Hrel)). apply Htail; [|done].
    eapply (tx_inv _ EvQuarantine); [exact Hd|exact Hrel|]. intros a x y. apply release_moves.
  - pose proof (begin_succeeds (ca_db c) r Hd Hl Hs) as Hbeg. rewrite (bind_done _ _ _ _ _ (db_calm _ c _ _ Hc Hbeg)). apply Htail; [|done].
    eapply (tx_inv _ EvQuarantine); [exact Hd|exact Hbeg|]. intros a x y. apply begin_eviction_moves.
Qed.
Lemma rewrite_calm (r : CacheSlotRecord) (c : Cache) : slot_ready r c -> state r = Free ->
  exists c', (_ ← deallocate_slot s (slot_index r); write_free crc32 s r) c = (Done (), c') /\ repaired_to r c c'.
Proof.
  intros Hr Hs. destruct (dealloc_free_calm r c Hr) as (c' & H1 & _ & Hrep & Hdisk). exists c'. split; [done|]. split; [|done].
  destruct Hr as (_ & Hd & _ & _ & Hl). by rewrite <-(free_is_freed r _ Hd Hl Hs).
Qed.
Lemma finish_calm (r : CacheSlotRecord) (c : Cache) : slot_ready r c -> state r = Evicting \/ state r = RetryDeallocate -> exists c', finish_slot crc32 s r r c = (Done (), c') /\ repaired_to r c c'.
Proof. intros Hr Hs. by apply finish_slot_calm. Qed.
(** What a slot adds to the report. *)
Definition slot_report (dry_run : bool) (c : Cache) (r0 : ReconcileReport) (r : CacheSlotRecord) : ReconcileReport :=
  let a := slot_action r (healthy r c) in
  mkReport (rr_inspected r0 + 1) (rr_healthy_residents r0 + if well_resident c r then 1 else 0)
    (rr_actions r0 ++ match a with Some a => [(slot_index r, a)] | None => [] end)
    (rr_repaired r0 + if a then if dry_run then 0 else 1 else 0)
    (rr_blocked r0 ++ if unavailable r then ["cache DB references an unavailable shard or slot"%string] else []).
Definition slot_settled (r : CacheSlotRecord) (c c' : Cache) : Prop :=
  if slot_action r (healthy r c) then repaired_to r c c' else c' = c.
Lemma reconcile_slot_calm (dry_run : bool) (r : CacheSlotRecord) (r0 : ReconcileReport) (c : Cache) : (unavailable r = false -> slot_ready r c) ->
  exists c', reconcile_slot crc32 s dry_run r r0 c = (Done (slot_report dry_run c r0 r), c') /\ if dry_run then c' = c else slot_settled r c c'.
Proof.
  intros Hr. unfold reconcile_slot, slot_report, slot_settled, well_resident, slot_action. fold (unavailable r). destruct (unavailable r) eqn:Eu.
  { exists c. split; [|by destruct dry_run]. cbn. by rewrite app_nil_r, !Z.add_0_r. }
  specialize (Hr eq_refl). pose proof (repair_calm r c Hr) as [Hres Hrsd]. pose proof (rewrite_calm r c Hr) as Hfree. pose proof (finish_calm r c Hr) as Hfin. destruct Hr as (Hc & Hd & Hl & Hi & Hlive). cbv zeta.
  rewrite (bind_done _ _ _ _ _ (read_metadata_calm (slot_index r) c Hc Hl Hi)). rewrite <-healthy_matches, app_nil_r. cbn [negb andb].
  assert (forall (m : io ()) (a : ReconcileAction), (exists c', m c = (Done (), c') /\ repaired_to r c c') ->
    exists c', (if dry_run then mret (act (slot_index r, a) false (mkReport (rr_inspected r0 + 1) (rr_healthy_residents r0) (rr_actions r0) (rr_repaired r0) (rr_blocked r0)))
      else _ ← m; mret (act (slot_index r, a) true (mkReport (rr_inspected r0 + 1) (rr_healthy_residents r0) (rr_actions r0) (rr_repaired r0) (rr_blocked r0)))) c =
      (Done (mkReport (rr_inspected r0 + 1) (rr_healthy_residents r0 + 0) (rr_actions r0 ++ [(slot_index r, a)]) (rr_repaired r0 + if dry_run then 0 else 1) (rr_blocked r0)), c') /\
      if dry_run then c' = c else repaired_to r c c') as Hrepair.
  { intros m a (c' & Hm & Hrep). rewrite Z.add_0_r. destruct dry_run; [exists c; by rewrite Z.add_0_r|]. exists c'. by rewrite (bind_done _ _ _ _ _ Hm). }
  assert (exists c', (Done (mkReport (rr_inspected r0 + 1) (rr_healthy_residents r0) (rr_actions r0) (rr_repaired r0) (rr_blocked r0)), c) =
    (Done (mkReport (rr_inspected r0 + 1) (rr_healthy_residents r0 + 0) (rr_actions r0 ++ []) (rr_repaired r0 + 0) (rr_blocked r0)), c') /\ if dry_run then c' = c else c' = c) as Hnone.
  { exists c. rewrite app_nil_r, !Z.add_0_r. split; [done|by destruct dry_run]. }
  destruct (state r) eqn:Es; cbn [andb bool_decide decide].
  - destruct (healthy r c); [exact Hnone|]. by apply Hrepair, Hfree.
  - by apply Hrepair, Hres.
  - destruct (healthy r c); [|by apply Hrepair, Hrsd]. exists c. rewrite app_nil_r, Z.add_0_r. split; [done|by destruct dry_run].
  - apply Hrepair, Hfin. by left.
  - apply Hrepair, Hfin. by right.
Qed.
(** ** Every slot *)
Definition store (c : Cache) : Prop := calm c /\ slot_inv (ca_db c) /\ in_files c.
Definition row_at (r : CacheSlotRecord) (c : Cache) : Prop := 0 <= slot_index r /\ cache_slots (ca_db c) !! slot_of r = Some (row_of r).
Lemma available (r : CacheSlotRecord) : 0 <= slot_index r -> unavailable r = false -> slot_of r = (0, slot_index r) /\ 0 <= slot_index r < count.
Proof. unfold unavailable, slot_of. intros H0 [Hs%negb_false_iff%Z.eqb_eq Hc%Z.leb_gt]%orb_false_iff. by rewrite Hs. Qed.
Lemma row_at_ready (r : CacheSlotRecord) (c : Cache) : store c -> row_at r c -> unavailable r = false -> slot_ready r c.
Proof. intros (H1 & H2 & H3) [H4 H5] Hu. split_and!; try done; by apply (available r). Qed.
(** The slots of [rs] are settled as the state [c0] asks, the others are as in [c]. *)
Record settled (c0 : Cache) (rs : list CacheSlotRecord) (c c' : Cache) : Prop := mkSettled {
  se_store : store c';
  se_rows : Forall (fun r => cache_slots (ca_db c') !! slot_of r = Some (row_of (settled_record r (healthy r c0)))) rs;
  se_disk : Forall (fun r => unavailable r = false -> on_disk (slot_index r) c' = settled_bytes r c0) rs;
  se_other_rows : forall key, key ∉ map slot_of rs -> cache_slots (ca_db c') !! key = cache_slots (ca_db c) !! key;
  se_other_disk : forall j, 0 <= j < count -> (0, j) ∉ map slot_of rs -> on_disk j c' = on_disk j c
}.
Lemma settled_one (r : CacheSlotRecord) (c c' : Cache) : store c -> row_at r c -> slot_settled r c c' -> settled c [r] c c'.
Proof.
  intros Hst [Hi Hl] Hs. unfold slot_settled in Hs. destruct (slot_action r (healthy r c)) as [a|] eqn:Ea.
  - assert (unavailable r = false) as Hu by (unfold slot_action in Ea; by destruct (unavailable r)). destruct Hs as [[G1 G2 G3 G4] Hdisk]. destruct (available r Hi Hu) as [Hso Hin]. split.
    + split_and!; [done|done|]. by eapply in_files_kept; [apply Hst|].
    + constructor; [|done]. unfold settled_record. by rewrite Ea, G3, lookup_insert_eq.
    + constructor; [|done]. intros _. unfold settled_bytes. by rewrite Ea.
    + intros key Hk. rewrite G3, lookup_insert_ne; [done|]. intros <-. apply Hk. left.
    + intros j Hj Hk. apply (ok_other _ _ _ G4); [done|]. intros ->. apply Hk. rewrite <-Hso. left.
  - subst c'. split; [done|..]; [| |done|done]; (constructor; [|done]).
    + unfold settled_record. by rewrite Ea.
    + intros _. unfold settled_bytes. by rewrite Ea.
Qed.
Lemma healthy_disk (r : CacheSlotRecord) (c c0 : Cache) : on_disk (slot_index r) c = on_disk (slot_index r) c0 -> healthy r c = healthy r c0.
Proof. unfold healthy. by intros ->. Qed.
Lemma slot_report_disk (b : bool) (r : CacheSlotRecord) (r0 : ReconcileReport) (c c0 : Cache) : (unavailable r = false -> on_disk (slot_index r) c = on_disk (slot_index r) c0) ->
  slot_report b c r0 r = slot_report b c0 r0 r /\ settled_record r (healthy r c) = settled_record r (healthy r c0) /\ (unavailable r = false -> settled_bytes r c = settled_bytes r c0).
Proof.
  intros H. unfold slot_report, settled_record, settled_bytes, slot_action, well_resident. destruct (unavailable r); [done|]. rewrite (healthy_disk r c c0) by auto. by rewrite (H eq_refl).
Qed.
Lemma reconcile_all_calm (c0 : Cache) (rs : list CacheSlotRecord) (r0 : ReconcileReport) (c : Cache) : store c -> NoDup (map slot_of rs) ->
  Forall (fun r => row_at r c /\ (unavailable r = false -> on_disk (slot_index r) c = on_disk (slot_index r) c0)) rs ->
  exists c', reconcile_all crc32 s false rs r0 c = (Done (fold_left (slot_report false c0) rs r0), c') /\ settled c0 rs c c'.
Proof.
  revert r0 c. induction rs as [|r rs IH]; intros r0 c Hst Hnd Hrs; [exists c; split; [done|by split]|].
  cbn [map] in Hnd. apply NoDup_cons in Hnd as [Hnot Hnd]. apply Forall_cons in Hrs as [[Hrow Hsame] Hrs]. cbn [reconcile_all fold_left].
  destruct (reconcile_slot_calm false r r0 c (row_at_ready r c Hst Hrow)) as (c1 & Heq & Hslot). rewrite (bind_done _ _ _ _ _ Heq).
  destruct (slot_report_disk false r r0 c c0 Hsame) as (-> & Hrec & Hby). destruct (settled_one r c c1 Hst Hrow Hslot) as [S1 S2 S3 S4 S5].
  assert (forall q, q ∈ rs -> slot_of q ∉ map slot_of [r]) as Hne.
  { intros q Hq [Heq'|Hf%elem_of_nil]%elem_of_cons; [|done]. apply Hnot. rewrite <-Heq'. by apply list_elem_of_In, in_map, list_elem_of_In. }
  destruct (IH (slot_report false c0 r0 r) c1 S1 Hnd) as (c2 & Hall & [T1 T2 T3 T4 T5]).
  { rewrite Forall_forall in *. intros q Hq. destruct (Hrs q Hq) as [[Hq0 Hql] Hqs]. split; [split; [done|by rewrite S4 by auto]|]. intros Hu. rewrite <-(Hqs Hu).
    destruct (available q Hq0 Hu) as [Hso Hin]. apply S5; [done|]. rewrite <-Hso. auto. }
  exists c2. split; [done|]. apply Forall_cons in S2 as [S2 _]. apply Forall_cons in S3 as [S3 _]. split; [done|..].
  - constructor; [|done]. by rewrite T4, S2, Hrec.
  - constructor; [|done]. intros Hu. destruct (available r (proj1 Hrow) Hu) as [Hso Hin]. rewrite T5 by (done || by rewrite <-Hso). by rewrite S3, Hby.
  - intros key [Hk1 Hk2]%not_elem_of_cons. rewrite T4 by done. apply S4. by apply not_elem_of_cons; split; [|apply not_elem_of_nil].
  - intros j Hj [Hk1 Hk2]%not_elem_of_cons. rewrite T5 by done. apply S5; [done|]. by apply not_elem_of_cons; split; [|apply not_elem_of_nil].
Qed.
Lemma reconcile_dry_calm (rs : list CacheSlotRecord) (r0 : ReconcileReport) (c : Cache) : store c ->
  Forall (fun r => row_at r c) rs -> reconcile_all crc32 s true rs r0 c = (Done (fold_left (slot_report true c) rs r0), c).
Proof.
  intros Hst Hrs. revert r0. induction Hrs as [|r rs Hr Hrs IH]; intros r0; [done|]. cbn [reconcile_all fold_left].
  destruct (reconcile_slot_calm true r r0 c (row_at_ready r c Hst Hr)) as (c' & Heq & ->). rewrite (bind_done _ _ _ _ _ Heq). apply IH.
Qed.
Lemma slot_reports (dry_run : bool) (c : Cache) (rs : list CacheSlotRecord) (r0 : ReconcileReport) :
  let e := expected_report dry_run rs c in
  fold_left (slot_report dry_run c) rs r0 =
  mkReport (rr_inspected r0 + rr_inspected e) (rr_healthy_residents r0 + rr_healthy_residents e) (rr_actions r0 ++ rr_actions e) (rr_repaired r0 + rr_repaired e) (rr_blocked r0 ++ rr_blocked e).
Proof.
  revert r0. induction rs as [|r rs IH]; intros r0; cbv zeta; [destruct r0, dry_run; cbn; by rewrite !Z.add_0_r, !app_nil_r|]. cbn [fold_left]. rewrite IH. unfold slot_report. cbn.
  unfold actions. cbn [omap list_omap List.filter length]. destruct (well_resident c r), (slot_action r (healthy r c)) as [a|], (unavailable r), dry_run; cbn [fmap option_fmap option_map app length replicate];
    rewrite <-?app_assoc, ?app_nil_r; f_equal; try lia; done.
Qed.
(** The records of the table: its rows, each slot once. *)
Record lists_rows (rs : list CacheSlotRecord) (c : Cache) : Prop := mkLists {
  lr_load : load_all (ca_db c) = Ok rs;
  lr_nodup : NoDup (map slot_of rs);
  lr_rows : Forall (fun r => row_at r c) rs;
  lr_all : forall key x, cache_slots (ca_db c) !! key = Some x -> exists r, r ∈ rs /\ slot_of r = key
}.
Lemma rows_listed (c : Cache) : slot_inv (ca_db c) -> exists rs, lists_rows rs c.
Proof.
  intros Hd. destruct (load_all_total (ca_db c) Hd) as (rs & Hload). destruct (load_all_Ok (ca_db c) rs Hd Hload) as (Hlive & Hnd & Hkeys & Hi). exists rs. split; [done|done| |].
  - unfold lives in Hlive. rewrite Forall_forall in *. intros r Hr. split; auto.
  - intros key x Hx. assert (key ∈ map slot_of rs) as Hk by (rewrite Hkeys; apply list_elem_of_In, (in_map fst _ (key, x)), list_elem_of_In; by apply elem_of_slots_where).
    apply list_elem_of_In, in_map_iff in Hk as (r & <- & Hr%list_elem_of_In). by exists r.
Qed.
Lemma reconcile_calm (c : Cache) (rs : list CacheSlotRecord) : store c -> lists_rows rs c ->
  (exists c', reconcile crc32 s false c = (Done (expected_report false rs c), c') /\ settled c rs c c') /\ reconcile crc32 s true c = (Done (expected_report true rs c), c).
Proof.
  intros Hst [Hload Hnd Hrows _]. assert (set_db (ca_db c) c = c) as Hid by by destruct c.
  assert (forall b, reconcile crc32 s b c = (report ← reconcile_all crc32 s b rs (mkReport 0 0 [] 0 []); _ ← (if b then mret () else flush_metadata); mret report) c) as Hrec.
  { intros b. unfold reconcile. rewrite (bind_done _ _ c c rs); [done|]. rewrite <-Hid at 2. apply db_calm; [apply Hst|]. by rewrite Hload. }
  assert (forall b, fold_left (slot_report b c) rs (mkReport 0 0 [] 0 []) = expected_report b rs c) as Hrep by (intros b; by rewrite slot_reports).
  destruct (reconcile_all_calm c rs (mkReport 0 0 [] 0 []) c Hst Hnd) as (c1 & Hall & [S1 S2 S3 S4 S5]); [by eapply Forall_impl|]. split.
  - exists (synced MetaFile c1). rewrite Hrec, (bind_done _ _ _ _ _ Hall), Hrep. unfold flush_metadata. rewrite (bind_done _ _ _ _ _ (sync_calm MetaFile c1 (proj1 S1))). split; [done|by split].
  - rewrite Hrec, (bind_done _ _ _ _ _ (reconcile_dry_calm rs (mkReport 0 0 [] 0 []) c Hst Hrows)), Hrep. done.
Qed.

(** ** A second run *)
Context (crc_bound : forall l, in_u32 (crc32 l)).
Lemma freed_decodes (r : CacheSlotRecord) (c : Cache) : row_at r c -> slot_inv (ca_db c) ->
  SlotMetadata_decode crc32 (freed_on_disk r).1 = Ok (metadata_of (freed r)).
Proof.
  intros [_ Hl] Hd. destruct (proj1 Hd _ _ Hl) as (Hc & _ & Hg & _). unfold row_of in Hc. apply slot_check_iff in Hc as (_ & Hg0 & _). cbn in Hg. apply (SlotMetadata_decode_encode crc32 crc_bound).
  unfold SlotMetadata_wf, in_u64, in_u32. cbn. assert (HU : u64_max = 18446744073709551615) by reflexivity. assert (HI : i64_max = 9223372036854775807) by reflexivity. unfold u32_max. lia.
Qed.
Lemma second_run_idle (c c' : Cache) (rs rs' : list CacheSlotRecord) : store c -> lists_rows rs c -> settled c rs c c' -> lists_rows rs' c' -> actions rs' c' = [].
Proof.
  intros Hst [_ _ Hrows Hall] [S1 S2 S3 S4 _] [_ _ Hrows' _]. unfold actions. rewrite Forall_forall in *.
  assert (forall r, r ∈ rs' -> slot_action r (healthy r c') = None) as Hnone.
  { intros r' Hr'. destruct (Hrows' r' Hr') as [Hi' Hl']. destruct (cache_slots (ca_db c) !! slot_of r') as [x|] eqn:Ex; cycle 1.
    { rewrite S4 in Hl'; [congruence|]. intros Hk. apply list_elem_of_In, in_map_iff in Hk as (r & Hrr & Hr%list_elem_of_In). destruct (Hrows r Hr) as [_ Hlr]. rewrite Hrr in Hlr. congruence. }
    destruct (Hall _ _ Ex) as (r & Hr & Hso). pose proof (S2 r Hr) as Hrow. rewrite Hso, Hl' in Hrow. apply (inj Some) in Hrow.
    assert (r' = settled_record r (healthy r c)) as -> by (apply row_of_inj; [rewrite <-Hso; unfold settled_record; by destruct (slot_action _ _)|done]).
    pose proof (S3 r Hr) as Hdisk. unfold settled_bytes in Hdisk. unfold settled_record. destruct (slot_action r (healthy r c)) as [a|] eqn:Ea.
    - assert (unavailable r = false) as Hu by (unfold slot_action in Ea; by destruct (unavailable r)). unfold slot_action. change (unavailable (freed r)) with (unavailable r). rewrite Hu. cbn [freed state].
      unfold healthy. cbn [slot_index freed]. rewrite (Hdisk Hu), (freed_decodes r c (Hrows r Hr) (proj1 (proj2 Hst))). by rewrite bool_decide_true.
    - destruct (unavailable r) eqn:Eu; [unfold slot_action; by rewrite Eu|]. by rewrite (healthy_disk r c' c) by auto. }
  clear -Hnone. induction rs' as [|r rs' IH]; [done|]. cbn. rewrite (Hnone r) by left. cbn. apply IH. intros q Hq. apply Hnone. by right.
Qed.
End settling.

(** C11: Reconciliation settles every slot it can act on.  From every state the
    cache can reach, with any bytes in a metadata sidecar of the length its layout
    asks for, when the operating system answers every call in full: a run returns
    a report that counts every row, blocks exactly the rows of other shards or
    past the arena, counts the resident slots whose metadata decodes to their row,
    and lists one action for each other slot that is not a free one with such
    metadata.  A slot acted on ends free in the table, with free metadata of its
    generation in the sidecar and zeroes in the arena; every other row and slot is
    as it was.  A second run finds nothing to do, and a dry run changes nothing
    and lists the same actions. *)
Theorem reconcile_settles {M : Medium} (blake3 : list Z -> Hash) (crc32 : list Z -> Z) (aligned : bool) (s : ArenaShard) (c : Cache) :
  (forall l, in_u32 (crc32 l)) -> CacheLayout_validate (sh_layout s) = Ok () -> in_u32 (cl_slot_count (sh_layout s)) -> reachable blake3 crc32 aligned s c -> calm c ->
  metadata_length (sh_layout s) = Ok (Z.of_nat (length (fi_bytes (ca_meta c)))) ->
  exists rs c', lists_rows rs c /\
    reconcile crc32 s false c = (Done (expected_report crc32 s false rs c), c') /\
    Forall (fun r => cache_slots (ca_db c') !! slot_of r = Some (row_of (settled_record s r (healthy crc32 s r c)))) rs /\
    Forall (fun r => unavailable s r = false -> on_disk s (slot_index r) c' = settled_bytes crc32 s r c) rs /\
    (forall key, cache_slots (ca_db c) !! key = None -> cache_slots (ca_db c') !! key = None) /\
    (exists report c'', reconcile crc32 s false c' = (Done report, c'') /\ rr_actions report = []) /\
    reconcile crc32 s true c = (Done (expected_report crc32 s true rs c), c).
Proof.
  intros Hcrc Hv [H0 Hcu] Hr Hc Hml. pose proof (validate_geometry _ Hv H0) as Hgeo. pose proof (proj1 (reachable_ok _ _ _ _ Hgeo _ Hr)) as Hst. pose proof (so_length _ _ _ Hst) as Hlen. pose proof (so_slots _ _ _ Hst) as Hd. cbn in Hlen, Hd.
  assert (store s c) as Hstore by (split_and!; [done|done|split; [done|rewrite (metadata_length_Ok _ _ Hml); lia]]). destruct (rows_listed c Hd) as (rs & Hrs).
  destruct (reconcile_calm crc32 s Hgeo Hcu c rs Hstore Hrs) as [(c' & Hrun & Hset) Hdry]. destruct (rows_listed c' (proj1 (proj2 (se_store _ _ _ _ _ _ Hset)))) as (rs' & Hrs').
  destruct (reconcile_calm crc32 s Hgeo Hcu c' rs' (se_store _ _ _ _ _ _ Hset) Hrs') as [(c'' & Hrun' & _) _]. exists rs, c'. split_and!; [done|done|apply Hset|apply Hset| |..|done].
  - intros key Hk. rewrite (se_other_rows _ _ _ _ _ _ Hset); [done|]. intros Hin. apply list_elem_of_In, in_map_iff in Hin as (r & <- & Hr'%list_elem_of_In).
    pose proof (lr_rows _ _ Hrs) as Hrows. rewrite Forall_forall in Hrows. destruct (Hrows r Hr') as [_ Hl]. congruence.
  - exists (expected_report crc32 s false rs' c'), c''. split; [done|]. by apply (second_run_idle crc32 s Hcrc c c' rs rs').
Qed.

#[local] Instance w_medium : Medium := fun i => 7 <=? i.
Definition w_reserved : SlotDb := (tx (reserve_batch [(7, 100)]) w_db).2.
Lemma w_reserves : tx (reserve_batch [(7, 100)]) w_db = (Ok [ReserveReserved (mkSlot 0 0 1 Reserved (Some 7) 100)], w_reserved).
Proof. vm_compute. reflexivity. Qed.
Definition w_records : list CacheSlotRecord := [mkSlot 0 0 1 Reserved (Some 7) 100; mkSlot 0 1 0 Free None 0].
Lemma reconcile_settles_witness :
  exists c', reconcile w_crc w_shard false (set_db w_reserved w_cache) = (Done (mkReport 2 0 [(0, ReclaimReserved)] 1 []), c') /\ cache_slots (ca_db c') !! (0, 0) = Some (mkSlotRow 1 0 None 0) /\
    on_disk w_shard 0 c' = (SlotMetadata_encode w_crc (mkSlotMetadata 1 SFree 0 0), zeros (Z.to_nat 65536)).
Proof.
  set (c := set_db w_reserved w_cache).
  assert (reachable w_hash w_crc false w_shard c) as Hr.
  { eapply (reach_op _ _ _ _ w_cache (CReserveBatch [(7, 100)])); [exact w_reachable|repeat constructor; cbn; unfold in_u32, u32_max; lia| |].
    - cbn [run_cache_op]. unfold ignore. rewrite (bind_done _ _ _ _ _ (db_calm _ w_cache _ _ eq_refl w_reserves)). reflexivity.
    - done. }
  destruct (reconcile_settles w_hash w_crc false w_shard c) as (rs & c' & Hrs & H1 & H2 & H3 & _).
  - intros l. unfold w_crc, in_u32, u32_max. lia.
  - exact w_validates.
  - exact w_count.
  - exact Hr.
  - reflexivity.
  - cbn [c set_db ca_meta w_cache fi_bytes]. rewrite length_zeros, Z2Nat.id by lia. vm_compute. reflexivity.
  - assert (rs = w_records) as -> by (pose proof (lr_load _ _ Hrs) as Hl; apply Ok_inj; rewrite <-Hl; vm_compute; reflexivity). exists c'. split_and!.
    + rewrite H1. do 2 f_equal.
    + apply Forall_cons in H2 as [H2 _]. exact H2.
    + apply Forall_cons in H3 as [H3 _]. exact (H3 eq_refl).
Defined.
